(* ===== verification/_CoqProject ===== *)
-Q . S2P
Prelude.v
CStr.v
Lines.v
Sccs.v
SerialMap.v
Symdiff.v
SymComp.v
Weave.v
WeaveText.v
WeaveGet.v
Range.v
RangeWalk.v
PQ.v
Shell.v
Path.v
Glob.v
UU.v
Gca.v
Date.v
Rev.v
Crc.v
FopenCrc.v
FopenCrcOk.v
FopenCrcRead.v
HashIface.v
U32Hash.v
MemHash.v
WebEncode.v
HashStr.v
Base64.v
HashFile.v
Table.v
TableRead.v
TableOk.v
TableDate.v
TableEntry.v
TableRound.v
TableLink.v
Keys.v
Renumber.v
RenumberOk.v
Diff.v
DiffSnake.v
DiffCorrect.v
NDiff.v
NDiffOk.v
Checkin.v
Smerge.v
SmergeFind.v
SmergeContent.v
SmergeOk.v
SmergeShow.v
SmergeMerge.v
SmergeSame.v
SmergeRead.v
SmergeDiff.v
Lock.v
LockOk.v
