(* ===== verification/Prelude.v ===== *)
(** * A verification of the core of BitKeeper

    BitKeeper keeps the history of every file in one SCCS file: a table of deltas
    (src/src/sccs.h) and a weave that holds each line of each version once.  The
    C code around them, in src/src and its library src/src/libc, is what this
    development models.  Definitions carry the names of the C functions, and C
    file names are given where a definition starts.

    ** Parts and files

    - Library: C strings and numbers (CStr), autoexpanding arrays (Lines),
      splitting, joining and shell quoting (Shell), path names (Path), wildcards
      (Glob), priority queues (PQ), the hash contract (HashIface) and its
      implementations (U32Hash, MemHash), hashes as query strings (WebEncode,
      HashStr) and as files (Base64, HashFile), crc32c (Crc), files with checksums
      (FopenCrc, with the proofs in FopenCrcOk and FopenCrcRead), uuencoding (UU),
      dates (Date).
    - History: the deltas and their graph (Sccs), revision numbers (Rev), the set of
      deltas of a version (SerialMap), symmetric differences of versions (Symdiff,
      SymComp), walks over the graph (Range, RangeWalk), common ancestors (Gca),
      numbering of revisions (Renumber, RenumberOk), keys of deltas (Keys).
    - Delta table: the writer and the data (Table), the reader (TableRead), and the
      round trip in layers: fields (TableOk), dates and zones (TableDate), entries
      (TableEntry), tables (TableRound), graph and tags (TableLink).
    - Weave: the state machine, the readers and the writers (Weave), what a weave
      means and that a new delta is added rightly (WeaveText), reading (WeaveGet).
    - Comparing: the difference engine (Diff), its middle snake search (DiffSnake)
      and its correctness (DiffCorrect), comparing files and the output formats
      (NDiff, NDiffOk).
    - Checking in: reading, comparing and weaving composed (Checkin).
    - Merging: smerge.c as a whole (Smerge), the search for regions that differ
      (SmergeFind), the merge of non-overlapping changes (SmergeContent), the
      automerge functions and their termination (SmergeOk), the output of conflicts
      (SmergeShow), the three-way merge (SmergeMerge), its laws and a loop without
      end (SmergeSame), the merge of versions read from a weave (SmergeRead), and the
      merge along the output of a diff (SmergeDiff).
    - Locks: lock files and repository locks under interleaving (Lock, LockOk).

    Components meet at interfaces: [HashLaws] (HashIface) is what the difference
    engine needs of a hash and what U32Hash and MemHash provide; [Checksum] (Crc)
    is what the file layer and the line hashes need of crc32c and what both of its
    implementations provide; [PriorityQueue] (PQ) is what the clients of a heap
    are proved against; [merge_files] and [merge_text] (SmergeFind, SmergeContent)
    are what the merge needs of its input and what SmergeRead gets from a weave.

    ** How C is modelled

    Integers are [Z] with the wrap-around written out where the code can reach it:
    u32 sums, hash probes and array sizes, the [int]s of [atoi] and of the offset
    of a damaged block ([int32]).  A signed overflow that C leaves undefined is an
    outcome of its own ([sint], [Int_overflow]) in the alignment scores and the
    buffer of [shellSplit]; elsewhere the bound that keeps a value from overflowing
    is a hypothesis of the theorem.  Sizes of memory are counted in elements, not
    bytes.  A failed assert, an access outside an array, a null pointer that is
    followed and fuel that ran out are [None].  Error returns are
    the values the code returns.  Loops without a structural measure take fuel:
    the theorems that say a function returns have no fuel hypothesis, the
    definitions pass enough (the length of the input, the size of the table, the
    number of items) and the proofs show that it does not run out.  Lock
    operations are programs whose file system calls are the steps of a transition
    system.

    ** What is proved

    - A check-in round trip through reader, difference engine, printer and weaver
      (Checkin), on top of the correctness of each: the weave theorems (WeaveText,
      WeaveGet), the edit script theorem and the termination of the middle snake
      search (DiffCorrect, DiffSnake), the line functions and the best alignment
      for side by side output (NDiffOk).
    - The delta table written to a file and read back is the table, with its graph
      and tags (TableLink).
    - Merging (SmergeMerge, SmergeSame, SmergeRead): with automerge functions that
      test for identical changes before they split off common deletes, and texts
      whose hash codes leave room for the probes of [diff_items], the merge returns,
      and what it writes is a three-way merge, common lines, pieces that one side
      decided and conflicts where both sides changed the ancestor differently; an
      unchanged side leaves the other one as it is.  SmergeSame also shows that
      without that test the merge can come back to the same region for ever.
    - Versions and history against definitions that do not follow the code:
      [serialmap] against the declarative [is_version] (SerialMap), and its
      inverse, symmetric differences both ways, walks, ancestors, tips, the lookup
      of deltas by date, revision, branch and key; reading a weave against its
      meaning, with [no_newline] for the last line ending (WeaveGet).
    - Refinement: arrays behave as lists, hashes as finite maps, files with
      checksums as plain files, the two crc32c implementations as the bitwise
      definition.
    - Meaning: cleaning a path and the relative path between directories lead to the
      same directory in every tree (Path), a pattern matches the strings of its
      tokens (Glob).
    - Round trips: uuencoding, shell quoting, version sets, hashes as query strings
      and as files, times and dates (Date, against the Gregorian calendar).
    - Errors and bounds: damage to a checksummed file is found and located, the
      stack buffer of [findrev] overflows on exactly certain inputs, [shellSplit]
      never writes outside its buffer on lines below 2^30 bytes.
    - Concurrency: repository locks exclude each other under every interleaving,
      and every lock call returns.

    ** Not modelled

    The drivers [sccs_init], [sccs_get] and [sccs_delta] (file handling around the
    modelled loops) and the binary form of history files with its heap; keyword
    expansion; the ChangeSet weave (cweave.c), [graph_fixMerge] and [graph_convert];
    of smerge.c the choice of the ancestor and the command line; nested
    collections, configuration, key caches; the other stdio layers (compression)
    and mdbm; the commands, the network and bkd; the user interfaces, and vendored
    code (Tcl/Tk, tomcrypt but for its base64, tommath, pcre, zlib, lz4).  Most of
    these are system calls and processes around the modelled parts.  Locks held by
    other hosts expire by time and are not modelled, neither are NFS and Windows. *)

From stdpp Require Import base numbers list.
From Stdlib Require Import ZArith Lia.

(** ** C conventions shared by the components

    - A byte is a [Z] in [0..255] and a C string is the [list Z] of its bytes
      before the terminating NUL ([cstr]).
    - A scratch array indexed by serial number is a total function with a
      pointwise update ([upd]); [calloc] gives the constant function.
    - Unsigned machine integers are [Z]s with the wrap-around written out. *)
Abbreviation cstr := (list Z).

Definition u8 (z : Z) : Z := z mod 2 ^ 8.

Definition u16 (z : Z) : Z := z mod 2 ^ 16.

Definition u32 (z : Z) : Z := z mod 2 ^ 32.

(** A value stored in an [int]. *)
Definition int32 (z : Z) : Z := (z + 2 ^ 31) mod 2 ^ 32 - 2 ^ 31.

(** The largest [int]. *)
Definition INT_MAX : Z := 2147483647.

Definition upd {A} (f : nat → A) (i : nat) (v : A) : nat → A :=
  λ j, if Nat.eqb j i then v else f j.

(** ** Partial code

    [None] is a failed assert. *)

Declare Scope bk_scope.

Notation "'let?' x := e 'in' k" := (match e with Some x => k | None => None end)
  (at level 10, x pattern, k at level 200) : bk_scope.

Notation "'assert!' b ; k" := (if b then k else None)
  (at level 10, b at level 100, k at level 200) : bk_scope.

(** The value of an [int] expression; a signed overflow has none. *)
Definition sint (z : Z) : option Z :=
  if ((- INT_MAX - 1 <=? z) && (z <=? INT_MAX))%Z then Some z else None.

(** ** Tactics *)

Ltac case_if :=
  match goal with
  | |- context [if ?b then _ else _] => destruct b eqn:?
  | H : context [if ?b then _ else _] |- _ => destruct b eqn:?
  end.

Ltac boolify :=
  repeat match goal with
  | H : (_ && _)%bool = true |- _ => apply andb_prop in H as [? ?]
  | H : (_ =? _)%Z = true |- _ => apply Z.eqb_eq in H
  | H : (_ =? _)%Z = false |- _ => apply Z.eqb_neq in H
  | H : (_ <? _)%Z = true |- _ => apply Z.ltb_lt in H
  | H : (_ <? _)%Z = false |- _ => apply Z.ltb_ge in H
  | H : (_ <=? _)%Z = true |- _ => apply Z.leb_le in H
  | H : (_ <=? _)%Z = false |- _ => apply Z.leb_gt in H
  | H : (_ =? _)%nat = true |- _ => apply Nat.eqb_eq in H
  | H : (_ =? _)%nat = false |- _ => apply Nat.eqb_neq in H
  | H : (_ <? _)%nat = true |- _ => apply Nat.ltb_lt in H
  | H : (_ <? _)%nat = false |- _ => apply Nat.ltb_ge in H
  | H : (_ <=? _)%nat = true |- _ => apply Nat.leb_le in H
  | H : (_ <=? _)%nat = false |- _ => apply Nat.leb_gt in H
  end.

(** ** Pointwise update *)

Create HintDb bk.

Create Rewrite HintDb bk.

Lemma upd_eq {A} (f : nat → A) i v : upd f i v i = v.
Proof. unfold upd. by rewrite Nat.eqb_refl. Qed.

Lemma upd_ne {A} (f : nat → A) i j v : j ≠ i → upd f i v j = f j.
Proof. intros H. unfold upd. by apply Nat.eqb_neq in H as ->. Qed.

#[export] Hint Rewrite @upd_eq : bk.
#[export] Hint Rewrite @upd_ne using (done || lia) : bk.

(** ** Machine words *)

Lemma int32_small z : (- 2 ^ 31 <= z < 2 ^ 31)%Z → int32 z = z.
Proof. intros Hz. unfold int32. rewrite Z.mod_small by lia. lia. Qed.

(** Conversions in between do not matter. *)
Lemma int32_mul_add k x c : int32 (int32 x * k + c) = int32 (x * k + c).
Proof.
  unfold int32 at 1 3. f_equal. unfold int32. rewrite (Z.mod_eq (x + 2 ^ 31)) by lia.
  replace ((x + 2 ^ 31 - 2 ^ 32 * ((x + 2 ^ 31) / 2 ^ 32) - 2 ^ 31) * k + c + 2 ^ 31)%Z
    with (x * k + c + 2 ^ 31 + (- (k * ((x + 2 ^ 31) / 2 ^ 32))) * 2 ^ 32)%Z by ring.
  by rewrite Z.mod_add by lia.
Qed.

Lemma int32_add x c : int32 (int32 x + c) = int32 (x + c).
Proof. pose proof (int32_mul_add 1 x c) as H. by rewrite !Z.mul_1_r in H. Qed.

Lemma u32_int32 x : u32 (int32 x) = u32 x.
Proof.
  unfold u32, int32. rewrite (Z.mod_eq (x + 2 ^ 31)) by lia.
  replace (x + 2 ^ 31 - 2 ^ 32 * ((x + 2 ^ 31) / 2 ^ 32) - 2 ^ 31)%Z with (x + (- ((x + 2 ^ 31) / 2 ^ 32)) * 2 ^ 32)%Z by ring.
  by rewrite Z.mod_add by lia.
Qed.

Lemma sint_ok z : (- INT_MAX <= z <= INT_MAX)%Z → sint z = Some z.
Proof. intros H. unfold sint. rewrite !(proj2 (Z.leb_le _ _)) by lia. done. Qed.

Lemma u32_small z : (0 <= z < 2 ^ 32)%Z → u32 z = z.
Proof. apply Z.mod_small. Qed.


Lemma testbit_small x n i : (0 <= x < 2 ^ n)%Z → (n <= i)%Z → Z.testbit x i = false.
Proof.
  intros Hx Hi. destruct (Z.lt_ge_cases i 0); [by apply Z.testbit_neg_r|].
  destruct (Z.lt_ge_cases n 0) as [Hn|Hn]; [rewrite Z.pow_neg_r in Hx by done; lia|].
  rewrite <- (Z.mod_small x (2 ^ n)) by done. by apply Z.mod_pow2_bits_high.
Qed.

Lemma lxor_range a b n : (0 <= n)%Z → (0 <= a < 2 ^ n)%Z → (0 <= b < 2 ^ n)%Z → (0 <= Z.lxor a b < 2 ^ n)%Z.
Proof.
  intros Hn Ha Hb. assert (H0 : (0 <= Z.lxor a b)%Z) by (apply Z.lxor_nonneg; lia). split; [done|].
  assert (E : Z.lxor a b = (Z.lxor a b mod 2 ^ n)%Z).
  { apply Z.bits_inj'. intros i Hi. destruct (Z.lt_ge_cases i n); [by rewrite Z.mod_pow2_bits_low|].
    rewrite Z.mod_pow2_bits_high by lia. by rewrite Z.lxor_spec, !(testbit_small _ n) by done. }
  rewrite E. apply Z.mod_pos_bound. by apply Z.pow_pos_nonneg.
Qed.

Lemma lor_shiftl_add c n len :
  (0 <= n)%Z → (0 <= len < 2 ^ n)%Z → Z.lor (Z.shiftl c n) len = (c * 2 ^ n + len)%Z.
Proof.
  intros Hn Hl. rewrite <- Z.shiftl_mul_pow2 by done.
  assert (Hz : Z.land (Z.shiftl c n) len = 0%Z).
  { apply Z.bits_inj'. intros i Hi. rewrite Z.land_spec, Z.bits_0.
    destruct (Z.lt_ge_cases i n).
    - by rewrite Z.shiftl_spec_low.
    - by rewrite (testbit_small len n i), andb_false_r. }
  by rewrite Z.add_nocarry_lxor, Z.lxor_lor.
Qed.

Lemma field_lo c n len :
  (0 <= n)%Z → (0 <= len < 2 ^ n)%Z → Z.land (Z.lor (Z.shiftl c n) len) (Z.ones n) = len.
Proof.
  intros. rewrite Z.land_ones, lor_shiftl_add by done.
  rewrite Z.add_comm, Z.mod_add by lia. by apply Z.mod_small.
Qed.

Lemma field_hi c n len :
  (0 <= n)%Z → (0 <= len < 2 ^ n)%Z → Z.shiftr (Z.lor (Z.shiftl c n) len) n = c.
Proof.
  intros. rewrite Z.shiftr_div_pow2, lor_shiftl_add by done.
  rewrite Z.div_add_l by lia. rewrite Z.div_small by done. lia.
Qed.

(** ** Lists as memory *)

Lemma list_inserts_app {A} (l k : list A) i :
  (i + length k <= length l)%nat →
  list_inserts i k l = take i l ++ k ++ drop (i + length k) l.
Proof.
  intros H. apply list_eq. intros j.
  destruct (decide (j < i)%nat) as [Hj|Hj].
  - rewrite list_lookup_inserts_lt by done.
    by rewrite lookup_app_l, lookup_take_lt by (rewrite ?length_take; lia).
  - rewrite lookup_app_r by (rewrite length_take; lia). rewrite length_take_le by lia.
    destruct (decide (j < i + length k)%nat) as [Hk|Hk].
    + rewrite list_lookup_inserts by lia. by rewrite lookup_app_l by lia.
    + rewrite list_lookup_inserts_ge by lia. rewrite lookup_app_r, lookup_drop by lia.
      f_equal. lia.
Qed.

Lemma take_S_insert {A} (l : list A) n x :
  (n < length l)%nat → take (S n) (<[n:=x]> l) = take n l ++ [x].
Proof.
  intros. rewrite (take_S_r _ _ x) by by apply list_lookup_insert_eq.
  by rewrite take_insert_ge by lia.
Qed.

(** ** Downward loops

    [for_down f n lo s] is [for (t = lo + n; t > lo; t--) s = f(t, s)]. *)
Fixpoint for_down {S} (f : nat → S → S) (n lo : nat) (s : S) : S :=
  match n with
  | O => s
  | Datatypes.S n' => for_down f n' lo (f (lo + n)%nat s)
  end.

Lemma for_down_inv {S} (f : nat → S → S) (P : nat → S → Prop) n lo s :
  P (lo + n)%nat s → (∀ t s, (lo < t <= lo + n)%nat → P t s → P (t - 1)%nat (f t s)) →
  P lo (for_down f n lo s).
Proof.
  revert s. induction n as [|n IH]; intros s H0 Hs; cbn [for_down].
  - by rewrite Nat.add_0_r in H0.
  - apply IH.
    + replace (lo + n)%nat with (lo + Datatypes.S n - 1)%nat by lia. apply Hs; [lia|done].
    + intros t s' Ht. apply Hs. lia.
Qed.

Lemma for_down_inv2 {S T} (f : nat → S → S) (g : nat → T → T) (P : nat → S → T → Prop) n lo s s' :
  P (lo + n)%nat s s' →
  (∀ t s s', (lo < t <= lo + n)%nat → P t s s' → P (t - 1)%nat (f t s) (g t s')) →
  P lo (for_down f n lo s) (for_down g n lo s').
Proof.
  revert s s'. induction n as [|n IH]; intros s s' H0 Hs; cbn [for_down].
  - by rewrite Nat.add_0_r in H0.
  - apply IH.
    + replace (lo + n)%nat with (lo + Datatypes.S n - 1)%nat by lia. apply Hs; [lia|done].
    + intros t u u' Ht. apply Hs. lia.
Qed.

Lemma for_down_add {S} (f : nat → S → S) n m lo s :
  for_down f (n + m) lo s = for_down f m lo (for_down f n (lo + m) s).
Proof.
  revert s. induction n as [|n IH]; intros s; cbn [for_down Nat.add]; [done|].
  rewrite IH. do 3 f_equal. lia.
Qed.

(** ** Sums over the serials 1..n *)

Local Open Scope Z_scope.

Fixpoint msum (n : nat) (f : nat → Z) : Z :=
  match n with O => 0 | S k => msum k f + f n end.

Lemma msum_ext n f g : (∀ j, (1 <= j <= n)%nat → f j = g j) → msum n f = msum n g.
Proof.
  induction n as [|n IH]; intros H; cbn [msum]; [done|]. rewrite IH, H; [done|lia|].
  intros. apply H. lia.
Qed.

Lemma msum_upd n f e v :
  (1 <= e <= n)%nat → msum n (upd f e v) = msum n f - f e + v.
Proof.
  induction n as [|n IH]; intros He; cbn [msum]; [lia|].
  destruct (decide (e = S n)) as [->|].
  - rewrite upd_eq. rewrite (msum_ext n (upd f (S n) v) f); [lia|].
    intros. by rewrite upd_ne by lia.
  - rewrite upd_ne by lia. rewrite IH by lia. lia.
Qed.

Lemma msum_zero n f : (∀ j, 0 <= f j) → msum n f = 0 → ∀ j, (1 <= j <= n)%nat → f j = 0.
Proof.
  intros Hf. induction n as [|n IH]; intros H j Hj; cbn [msum] in H; [lia|].
  assert (0 <= msum n f) by (clear -Hf; induction n as [|n IH]; cbn [msum]; [lia|specialize (Hf (S n)); lia]).
  specialize (Hf (S n)) as Hn. destruct (decide (j = S n)) as [->|]; [lia|]. apply IH; lia.
Qed.

Lemma msum_nonneg n f : (∀ j, 0 <= f j) → 0 <= msum n f.
Proof. intros Hf. induction n as [|n IH]; cbn [msum]; [lia|specialize (Hf (S n)); lia]. Qed.
