(* ===== verification/CStr.v ===== *)
(** * CStr: C strings and number scanning

    The string library calls the sources use, and the scanners and printers of
    src/src/slib.c ([atoi], [atoi_p], [atoiMult_p], [sertoa], [chop],
    [separator], [sccs_saveNum], [sccs_eachNum]) and of
    src/src/libc/utils/utils.c ([eachstr]).  A [char *] cursor is the list of
    the bytes from the cursor to the NUL. *)

From S2P Require Import Prelude.
From stdpp Require Import base numbers list.
From Stdlib Require Import ZArith Lia.
From Stdlib Require Ascii String.
Import String.StringSyntax.

Local Open Scope Z_scope.

(** ** Literals *)

Fixpoint s2b (s : String.string) : cstr :=
  match s with
  | String.EmptyString => []
  | String.String c s => Z.of_nat (Ascii.nat_of_ascii c) :: s2b s
  end.

Definition ch (s : String.string) : Z := hd 0 (s2b s).

(** ** string.h and ctype.h *)

(** [*p], with the NUL at the end of the string. *)
Definition at0 (s : cstr) : Z := hd 0 s.

(** The bytes before a NUL, what [%s] prints and [strndup] copies. *)
Fixpoint upto_nul (s : cstr) : cstr :=
  match s with c :: s => if c =? 0 then [] else c :: upto_nul s | [] => [] end.

Definition streq (a b : cstr) : bool := bool_decide (a = b).

Fixpoint strcmp (a b : cstr) : Z :=
  match a, b with
  | [], [] => 0
  | [], y :: _ => - y
  | x :: _, [] => x
  | x :: a, y :: b => if x =? y then strcmp a b else x - y
  end.

Definition tolower (c : Z) : Z := if (65 <=? c) && (c <=? 90) then c + 32 else c.

Fixpoint strcasecmp (a b : cstr) : Z :=
  match a, b with
  | [], [] => 0
  | [], y :: _ => - tolower y
  | x :: _, [] => tolower x
  | x :: a, y :: b =>
      if tolower x =? tolower y then strcasecmp a b else tolower x - tolower y
  end.

Definition memchr (c : Z) (set : cstr) : bool := existsb (Z.eqb c) set.

Fixpoint strspn (s set : cstr) : nat :=
  match s with
  | [] => O
  | c :: s => if memchr c set then S (strspn s set) else O
  end.

Fixpoint strcspn (s set : cstr) : nat :=
  match s with
  | [] => O
  | c :: s => if memchr c set then O else S (strcspn s set)
  end.

(** The suffix that starts at the first [c]. *)
Fixpoint strchr (s : cstr) (c : Z) : option cstr :=
  match s with
  | [] => None
  | x :: t => if x =? c then Some s else strchr t c
  end.

Definition isdigit (c : Z) : bool := (48 <=? c) && (c <=? 57).

Definition isspace (c : Z) : bool := ((9 <=? c) && (c <=? 13)) || (c =? 32).

(** Remove leading bytes. *)
Fixpoint strip_front (p : Z → bool) (s : cstr) : cstr :=
  match s with
  | [] => []
  | c :: t => if p c then strip_front p t else s
  end.

(** Remove trailing bytes. *)
Definition strip_back (p : Z → bool) (s : cstr) : cstr := reverse (strip_front p (reverse s)).

(** The decimal digits of a natural number, as printf's [%u]. *)
Fixpoint dec_digits (fuel : nat) (n : Z) : cstr :=
  match fuel with
  | O => []
  | S fuel => if n <? 10 then [48 + n] else dec_digits fuel (n / 10) ++ [48 + n mod 10]
  end.

(** Twenty digits hold every 64-bit value. *)
Definition printf_u (n : Z) : cstr := dec_digits 20 n.

Definition printf_d (n : Z) : cstr := if n <? 0 then 45 :: printf_u (- n) else printf_u n.

(** ** slib.c *)

(** [chop]: the byte removed (0 on the empty string) and the string left. *)
Definition chop (s : cstr) : Z * cstr :=
  match s with
  | [] => (0, [])
  | _ => (List.last s 0, removelast s)
  end.

Fixpoint skip_to (c : Z) (s : cstr) : cstr :=
  match s with
  | [] => []
  | x :: t => if x =? c then s else skip_to c t
  end.

(** [separator]: the suffix at the space that ends the key. *)
Definition separator (s : cstr) : option cstr :=
  match skip_to 124 s with
  | [] => None
  | _ :: s =>
      match skip_to 124 s with
      | [] => None
      | s => strchr s 32
      end
  end.

(** The [reverse] buffer of [sertoa]: least significant digit first. *)
Fixpoint sertoa_rev (fuel : nat) (val : Z) : cstr :=
  match fuel with
  | O => []
  | S fuel => if val =? 0 then [] else (48 + val mod 10) :: sertoa_rev fuel (val / 10)
  end.

(** A u32 has at most ten digits. *)
Definition sertoa (val : Z) : cstr := rev (sertoa_rev 10 val).

(** [while ((c = ( *s - '0')) < 10)] with [c] a [u8]: digits only.  [val] is an
    [int]: a number that does not fit wraps. *)
Fixpoint atoi_loop (val : Z) (s : cstr) : Z * cstr :=
  match s with
  | [] => (val, [])
  | x :: t => let c := u8 (x - 48) in
              if c <? 10 then atoi_loop (int32 (val * 10 + c)) t else (val, s)
  end.

Definition atoi (s : cstr) : Z := fst (atoi_loop 0 s).

Definition atoi_p (s : cstr) : Z * cstr := atoi_loop 0 s.

Fixpoint atoiMult_loop (val : Z) (s : cstr) : Z * cstr :=
  match s with
  | [] => (val, [])
  | x :: t => if isdigit x then atoiMult_loop (int32 (val * 10 + x - 48)) t else (val, s)
  end.

Definition atoiMult_p (s : cstr) : Z * cstr :=
  let '(val, s) := atoiMult_loop 0 s in
  match s with
  | 75 :: t => (int32 (val * 1000), t)
  | 77 :: t => (int32 (val * 1000000), t)
  | 71 :: t => (int32 (val * 1000000000), t)
  | _ => (val, s)
  end.

(** ** utils.c: [eachstr] *)

Fixpoint skip_space (s : cstr) : cstr :=
  match s with
  | [] => []
  | x :: t => if isspace x then skip_space t else s
  end.

Fixpoint word (s : cstr) : cstr * cstr :=
  match s with
  | [] => ([], [])
  | x :: t => if isspace x then ([], s) else let '(w, r) := word t in (x :: w, r)
  end.

(** The cursor [*linep] is [None] once the line is exhausted; the result is the
    returned pointer with its length, and the new cursor. *)
Definition eachstr (linep : option cstr) : option (cstr * nat) * option cstr :=
  match linep with
  | None => (None, None)
  | Some line =>
      match skip_space line with
      | [] => (None, None)
      | ret => let '(w, rest) := word ret in (Some (ret, length w), Some rest)
      end
  end.

Definition sccs_saveNum (num sign : Z) : cstr :=
  32 :: (if sign <? 0 then [45] else []) ++ printf_d num.

(** With [signp]: the number, its sign and the new cursor (0 at the end). *)
Definition sccs_eachNum (linep : option cstr) : Z * Z * option cstr :=
  match eachstr linep with
  | (None, l) => (0, 1, l)
  | (Some (p, _), l) =>
      match p with
      | 45 :: p => (atoi p, -1, l)
      | p => (atoi p, 1, l)
      end
  end.

(** [while (e = sccs_eachNum(&p, &sign))]: the pairs the loop body sees. *)
Fixpoint eachNum_list (fuel : nat) (linep : option cstr) : list (Z * Z) :=
  match fuel with
  | O => []
  | S fuel =>
      let '(e, sign, l) := sccs_eachNum linep in
      if e =? 0 then [] else (e, sign) :: eachNum_list fuel l
  end.

(** Each token takes at least one byte, so the length of the string is fuel
    enough (see [nums_save]). *)
Definition nums (s : cstr) : list (Z * Z) := eachNum_list (S (length s)) (Some s).

(** ** Lemmas: comparison *)

(** The bytes of a C string: never the NUL. *)
Definition cbytes (s : cstr) : Prop := Forall (λ c, 0 < c < 256) s.

Lemma printf_d_u n : 0 <= n → printf_d n = printf_u n.
Proof. intros. unfold printf_d. destruct (Z.ltb_spec n 0); [lia|done]. Qed.

Lemma strcmp_refl a : strcmp a a = 0.
Proof. induction a; simpl; [done|]. by rewrite Z.eqb_refl. Qed.

Lemma strcmp_eq a b : cbytes a → cbytes b → strcmp a b = 0 → a = b.
Proof.
  intros Ha. revert b. induction Ha as [|x a Hx Ha IH]; intros [|y b] Hb; simpl; [done| | |].
  - inversion Hb; subst; lia.
  - lia.
  - inversion Hb; subst. case_if; boolify; [|lia].
    intros. subst. f_equal. by apply IH.
Qed.

Lemma strcmp_opp a b : strcmp b a = - strcmp a b.
Proof.
  revert b. induction a as [|x a IH]; intros [|y b]; simpl; [lia|lia|lia|].
  rewrite (Z.eqb_sym y x). case_if; [apply IH|lia].
Qed.

Lemma strcmp_trans a b c :
  cbytes a → cbytes b → cbytes c → strcmp a b <= 0 → strcmp b c <= 0 → strcmp a c <= 0.
Proof.
  intros Ha. revert b c. induction Ha as [|x a Hx Ha IH]; intros b c Hb Hc.
  - intros _ _. destruct c; simpl; [lia|]. inversion Hc; subst; lia.
  - destruct Hb as [|y b Hy Hb]; simpl; [lia|].
    destruct Hc as [|z c Hz Hc]; simpl; [lia|].
    repeat case_if; boolify; try lia. intros. by apply (IH b c).
Qed.

Lemma strcmp_total a b : strcmp a b <= 0 ∨ strcmp b a <= 0.
Proof. rewrite (strcmp_opp a b). lia. Qed.

(** ** Lemmas: numbers *)

Lemma isspace_spec c : isspace c = true ↔ 9 <= c <= 13 ∨ c = 32.
Proof. unfold isspace. rewrite orb_true_iff, andb_true_iff, !Z.leb_le, Z.eqb_eq. done. Qed.

Definition digit (c : Z) : Prop := 48 <= c <= 57.

Lemma dec_digits_digit fuel n : 0 <= n → Forall digit (dec_digits fuel n).
Proof.
  revert n. induction fuel as [|fuel IH]; intros n Hn; simpl; [done|].
  case_if; boolify.
  - apply Forall_singleton. unfold digit. lia.
  - apply Forall_app. split; [apply IH; by apply Z.div_pos|].
    apply Forall_singleton. unfold digit. pose proof (Z.mod_pos_bound n 10). lia.
Qed.

Lemma dec_digits_ne fuel n : dec_digits (S fuel) n ≠ [].
Proof. simpl. case_if; [done|]. by destruct (dec_digits fuel (n / 10)). Qed.

Lemma u8_digit c : digit c → u8 (c - 48) = c - 48.
Proof. unfold digit, u8. intros. apply Z.mod_small. lia. Qed.

Lemma atoi_loop_dec fuel : ∀ n v rest, 0 <= n < 10 ^ Z.of_nat (S fuel) →
  atoi_loop v (dec_digits (S fuel) n ++ rest) =
  atoi_loop (int32 (v * 10 ^ Z.of_nat (length (dec_digits (S fuel) n)) + n)) rest.
Proof.
  induction fuel as [|fuel IH]; intros n v rest Hn.
  - change (10 ^ Z.of_nat 1) with 10 in Hn. cbn [dec_digits]. rewrite (proj2 (Z.ltb_lt _ _)) by lia.
    cbn [length app atoi_loop]. rewrite u8_digit by (unfold digit; lia). replace (48 + n - 48) with n by lia.
    by rewrite (proj2 (Z.ltb_lt _ _)) by lia.
  - cbn [dec_digits]. destruct (Z.ltb_spec n 10) as [H10|H10].
    + cbn [length app atoi_loop]. rewrite u8_digit by (unfold digit; lia). replace (48 + n - 48) with n by lia.
      by rewrite (proj2 (Z.ltb_lt _ _)) by lia.
    + change (if n / 10 <? 10 then [48 + n / 10] else dec_digits fuel (n / 10 / 10) ++ [48 + (n / 10) mod 10])
        with (dec_digits (S fuel) (n / 10)).
      pose proof (Z.div_mod n 10 ltac:(lia)) as Hdm. pose proof (Z.mod_pos_bound n 10 ltac:(lia)) as Hmod.
      rewrite length_app, Nat2Z.inj_add, Z.pow_add_r by lia. cbn [length]. change (10 ^ Z.of_nat 1) with 10.
      rewrite <- app_assoc, IH; last first.
      { rewrite Nat2Z.inj_succ, Z.pow_succ_r in Hn by lia. split; [apply Z.div_pos; lia|apply Z.div_lt_upper_bound; lia]. }
      cbn [app atoi_loop]. rewrite u8_digit by (unfold digit; lia).
      replace (48 + n mod 10 - 48) with (n mod 10) by lia. rewrite (proj2 (Z.ltb_lt _ 10)) by lia.
      rewrite int32_mul_add. do 2 f_equal. rewrite Z.mul_add_distr_r, <- Z.mul_assoc. lia.
Qed.

Definition nondigit_head (s : cstr) : Prop :=
  match s with [] => True | c :: _ => 10 <= u8 (c - 48) end.

Lemma atoi_loop_stop v s : nondigit_head s → atoi_loop v s = (v, s).
Proof.
  destruct s as [|c s]; simpl; [done|]. intros Hc. case_if; boolify; [lia|done].
Qed.

Lemma atoi_loop_head v s : nondigit_head (snd (atoi_loop v s)).
Proof.
  revert v. induction s as [|c s IH]; intros v; simpl; [done|]. case_if; [apply IH|].
  simpl. by boolify.
Qed.

(** [sertoa] prints a positive serial in decimal. *)
Lemma sertoa_rev_dec f f' v :
  0 < v < 10 ^ Z.of_nat f → v < 10 ^ Z.of_nat f' → rev (sertoa_rev f v) = dec_digits f' v.
Proof.
  revert f' v. induction f as [|f IH]; intros f' v Hv Hv'; [simpl in Hv; lia|].
  destruct f' as [|f']; [simpl in Hv'; lia|]. cbn [sertoa_rev dec_digits].
  destruct (Z.eqb_spec v 0); [lia|]. cbn [rev].
  rewrite Nat2Z.inj_succ, Z.pow_succ_r in Hv, Hv' by lia.
  destruct (Z.ltb_spec v 10).
  - rewrite Z.div_small, Z.mod_small by lia. by destruct f.
  - rewrite (IH f'); [done| |].
    + split; [apply Z.div_str_pos; lia|apply Z.div_lt_upper_bound; lia].
    + apply Z.div_lt_upper_bound; lia.
Qed.

Lemma sertoa_printf v : 0 < v < 2 ^ 32 → sertoa v = printf_u v.
Proof. intros. apply sertoa_rev_dec; lia. Qed.

Lemma atoi_p_printf_wrap n rest :
  0 <= n < 10 ^ 20 → nondigit_head rest → atoi_p (printf_u n ++ rest) = (int32 n, rest).
Proof.
  intros Hn Hr. unfold atoi_p, printf_u. rewrite (atoi_loop_dec 19) by done.
  rewrite Z.mul_0_l. by apply atoi_loop_stop.
Qed.

Lemma atoi_p_printf n rest :
  0 <= n < 2 ^ 31 → nondigit_head rest → atoi_p (printf_u n ++ rest) = (n, rest).
Proof. intros Hn Hr. rewrite atoi_p_printf_wrap by (done || lia). by rewrite int32_small by lia. Qed.

Lemma atoi_printf n rest :
  0 <= n < 2 ^ 31 → nondigit_head rest → atoi (printf_u n ++ rest) = n.
Proof. intros. unfold atoi. fold (atoi_p (printf_u n ++ rest)). by rewrite atoi_p_printf. Qed.

(** ** Lemmas: tokens *)

Lemma word_app w rest :
  Forall (λ c, isspace c = false) w → (rest = [] ∨ isspace (at0 rest) = true) →
  word (w ++ rest) = (w, rest).
Proof.
  intros Hw Hr. induction Hw as [|c w Hc Hw IH]; simpl.
  - destruct rest as [|x t]; simpl; [done|]. destruct Hr as [|Hx]; [done|].
    simpl in Hx. by rewrite Hx.
  - by rewrite Hc, IH.
Qed.

Lemma digit_not_space c : digit c → isspace c = false.
Proof.
  intros Hd. destruct (isspace c) eqn:E; [|done].
  apply isspace_spec in E. unfold digit in Hd. lia.
Qed.

(** The text a loop of [sccs_saveNum] writes. *)
Definition saveNums (l : list (Z * Z)) : cstr :=
  concat (map (λ '(n, sign), sccs_saveNum n sign) l).

Definition savable (p : Z * Z) : Prop := 0 < fst p < 2 ^ 31 ∧ (snd p = 1 ∨ snd p = -1).

Lemma skip_space_word w rest :
  w ≠ [] → Forall (λ c, isspace c = false) w → skip_space (32 :: w ++ rest) = w ++ rest.
Proof.
  intros Hne Hw. destruct Hw as [|c w Hc Hw]; [done|]. simpl. by rewrite Hc.
Qed.

Lemma printf_u_word n : 0 <= n → Forall (λ c, isspace c = false) (printf_u n).
Proof.
  intros. eapply Forall_impl; [by apply dec_digits_digit|].
  intros c. apply digit_not_space.
Qed.

Lemma sccs_eachNum_save n sign rest :
  savable (n, sign) → (rest = [] ∨ at0 rest = 32) →
  sccs_eachNum (Some (sccs_saveNum n sign ++ rest)) = (n, sign, Some rest).
Proof.
  intros [Hn Hs] Hr. simpl in Hn, Hs.
  assert (Hrs : rest = [] ∨ isspace (at0 rest) = true) by (destruct Hr as [|E]; [|rewrite E]; auto).
  assert (Hnd : nondigit_head rest) by (destruct rest; simpl in *; [done|]; destruct Hr as [| ->]; done).
  assert (Hd : digit (at0 (printf_u n)) ∧ printf_u n ≠ []).
  { split; [|apply dec_digits_ne]. pose proof (dec_digits_digit 20 n ltac:(lia)) as H.
    pose proof (dec_digits_ne 19 n). unfold printf_u.
    destruct (dec_digits 20 n); [done|]. by inversion H. }
  set (w := (if sign <? 0 then [45] else []) ++ printf_u n).
  assert (Hw : Forall (λ c, isspace c = false) w).
  { apply Forall_app. split; [|apply printf_u_word; lia].
    case_if; [|done]. by apply Forall_singleton. }
  assert (Hwne : w ≠ []) by (unfold w; case_if; [done|apply Hd]).
  unfold sccs_eachNum, eachstr, sccs_saveNum, printf_d.
  replace (n <? 0) with false by (symmetry; apply Z.ltb_ge; lia).
  change (32 :: (if sign <? 0 then [45] else []) ++ printf_u n) with (32 :: w).
  rewrite <- app_comm_cons, skip_space_word by done.
  pose proof (word_app w rest Hw Hrs) as Hword.
  destruct (w ++ rest) as [|x t] eqn:E; [by destruct w|]. rewrite Hword.
  unfold w in E. destruct Hs as [-> | ->]; simpl in E.
  - destruct (printf_u n) as [|y u] eqn:Eu; [by destruct Hd|]. injection E as -> <-.
    destruct Hd as [Hd _]. simpl in Hd. unfold digit in Hd.
    assert (Ha : atoi (x :: u ++ rest) = n).
    { rewrite app_comm_cons, <- Eu. apply atoi_printf; [lia|done]. }
    destruct (decide (x = 45)) as [->|]; [lia|].
    repeat (case_match; try (by rewrite Ha); try lia).
  - injection E as <- <-. by rewrite atoi_printf by (done || lia).
Qed.

Lemma saveNums_head l : saveNums l = [] ∨ at0 (saveNums l) = 32.
Proof. destruct l as [|[n s] l]; [by left|by right]. Qed.

Lemma eachNum_list_save fuel l :
  (length l < fuel)%nat → Forall savable l → eachNum_list fuel (Some (saveNums l)) = l.
Proof.
  intros Hf Hl. revert fuel Hf.
  induction Hl as [|[n s] l Hp Hl IH]; intros [|fuel] Hf; simpl in Hf; try lia; [done|].
  change (saveNums ((n, s) :: l)) with (sccs_saveNum n s ++ saveNums l).
  cbn [eachNum_list]. rewrite sccs_eachNum_save by (done || apply saveNums_head).
  destruct Hp as [Hn _]. simpl in Hn.
  destruct (n =? 0) eqn:E; boolify; [lia|]. f_equal. apply IH. lia.
Qed.

Lemma length_saveNums l : (length l <= length (saveNums l))%nat.
Proof.
  induction l as [|[n s] l IH]; [simpl; lia|].
  change (saveNums ((n, s) :: l)) with (sccs_saveNum n s ++ saveNums l).
  rewrite length_app. unfold sccs_saveNum. simpl. lia.
Qed.

Lemma nums_saveNums l : Forall savable l → nums (saveNums l) = l.
Proof.
  intros. unfold nums. apply eachNum_list_save; [|done].
  pose proof (length_saveNums l). lia.
Qed.
