(* ===== verification/Lines.v ===== *)
(** * Lines: the autoexpanding arrays of src/src/libc/utils/lines.c

    Every BitKeeper list is one of these arrays: slot 0 holds a 32-bit header
    [(c << 27) | len] (2^c slots are allocated, [len] are in use), the elements
    are in slots [1..len].  A [larr] keeps the header and slots [1..2^c-1]; a
    null pointer is [None].  A failed assert is [None] in the result.  Slots are
    counted in elements: the size in bytes passed to realloc, a u32 product, is
    not modelled, so what is proved is about arrays of less than 4 GiB. *)

From S2P Require Import Prelude CStr.
From stdpp Require Import base numbers list sets sorting.
From Stdlib Require Import ZArith Lia.

Local Open Scope Z_scope.

Definition LBITS : Z := 32 - 5.

Definition LMASK : Z := 0x07ffffff.

Record larr (A : Type) := mkLarr { lhdr : Z; lslots : list A }.
Arguments mkLarr {A} _ _.
Arguments lhdr {A} _.
Arguments lslots {A} _.

Section lines.
Context {A : Type}.
(** [zero] is the element made of zero bytes, [junk] what fresh memory holds. *)
Variables (zero junk : A).

Definition LLEN (a : larr A) : Z := Z.land (lhdr a) LMASK.

Definition setLLEN (a : larr A) (len : Z) : larr A :=
  mkLarr (Z.lor (Z.land (lhdr a) (u32 (Z.lnot LMASK))) len) (lslots a).

Definition nLines (s : option (larr A)) : Z :=
  match s with Some a => LLEN a | None => 0 end.

Definition lget (a : larr A) (i : Z) : A := nth (Z.to_nat (i - 1)) (lslots a) junk.

Definition lset (a : larr A) (i : Z) (x : A) : larr A :=
  mkLarr (lhdr a) (<[Z.to_nat (i - 1) := x]> (lslots a)).

(** [memcpy]/[memmove]/[memset] of whole elements to slot [i] onwards. *)
Definition lcopy (a : larr A) (i : Z) (l : list A) : larr A :=
  mkLarr (lhdr a) (list_inserts (Z.to_nat (i - 1)) l (lslots a)).

(** [n] elements starting at slot [i]. *)
Definition lread (a : larr A) (i n : Z) : list A :=
  take (Z.to_nat n) (drop (Z.to_nat (i - 1)) (lslots a)).

(** [while (len >= size) { size *= 2; ++c; }] on a u32 [size]. *)
Fixpoint grow_loop (fuel : nat) (len size c : Z) : option (Z * Z) :=
  if len >=? size then
    match fuel with
    | O => None
    | S fuel => grow_loop fuel len (u32 (size * 2)) (c + 1)
    end
  else Some (size, c).

Definition alloc_slots (size : Z) (old : list A) : list A :=
  resize (Z.to_nat (size - 1)) junk old.

Definition growArray_int (space : option (larr A)) (add elemsize : Z) : option (larr A) :=
  match space with
  | Some a =>
      let len := u32 (LLEN a + add) in
      let c := Z.shiftr (lhdr a) LBITS in
      let size := Z.shiftl 1 c in
      if negb (size >? 0) then None else
      if len >=? size then
        match grow_loop 32 len size c with
        | None => None
        | Some (size', c') =>
            Some (mkLarr (Z.lor (Z.shiftl c' LBITS) len) (alloc_slots size' (lslots a)))
        end
      else Some (mkLarr (Z.lor (Z.shiftl c LBITS) len) (lslots a))
  | None =>
      if negb (elemsize >=? 4) then None else
      let len := u32 add in
      let c := if elemsize >? 128 then 2 else 3 in
      let size := Z.shiftl 1 c in
      match grow_loop 32 len size c with
      | None => None
      | Some (size', c') =>
          Some (mkLarr (Z.lor (Z.shiftl c' LBITS) len) (alloc_slots size' []))
      end
  end.

Definition growArray (space : option (larr A)) (add size : Z) : option (larr A * Z) :=
  a ← growArray_int space add size;
  let ret := LLEN a - add + 1 in
  Some (lcopy a ret (replicate (Z.to_nat add) zero), ret).

Definition allocLines (n : Z) : option (larr A) :=
  a ← growArray_int None n 8;
  Some (setLLEN a 0).

Definition addLine (space : option (larr A)) (line : option A) : option (larr A) :=
  a ← growArray_int space 1 8;
  let len := LLEN a in
  match line with
  | Some x => Some (lset a len x)
  | None => Some (setLLEN (lset a len zero) (len - 1))
  end.

Definition addArray (space : option (larr A)) (x : option A) (size : Z)
  : option (larr A * Z) :=
  a ← growArray_int space 1 size;
  let len := LLEN a in
  Some (lset a len (default zero x), len).

Definition truncArray (space : option (larr A)) (len : Z) : option (option (larr A)) :=
  match space with
  | Some a => if u32 len <=? LLEN a then Some (Some (setLLEN a len)) else None
  | None => if len =? 0 then Some None else None
  end.

(** Returns the new [*space] and [array], which is emptied. *)
Definition catArray (space array : option (larr A)) (size : Z)
  : option (option (larr A) * option (larr A)) :=
  let n2 := nLines array in
  match array with
  | Some b =>
      if n2 =? 0 then Some (space, array) else
      let n1 := nLines space in
      a ← growArray_int space n2 size;
      Some (Some (lcopy a (n1 + 1) (lread b 1 n2)), Some (setLLEN b 0))
  | None => Some (space, array)
  end.

Fixpoint reverse_loop (fuel : nat) (a : larr A) (i end_ : Z) : larr A :=
  match fuel with
  | O => a
  | S fuel =>
      if i <? end_ then
        let tmp := lget a i in
        let a := lset a i (lget a end_) in
        let a := lset a end_ tmp in
        reverse_loop fuel a (i + 1) (end_ - 1)
      else a
  end.

(** Every iteration shrinks [end - i] by 2, so [nLines] iterations are enough. *)
Definition reverseLines (space : option (larr A)) : option (larr A) :=
  match space with
  | Some a => Some (reverse_loop (Z.to_nat (LLEN a)) a 1 (LLEN a))
  | None => None
  end.

Definition insertArrayN (space : option (larr A)) (j : Z) (new : option A) (size : Z)
  : option (larr A * Z) :=
  let len := nLines space + 1 in
  if negb ((j >? 0) && (j <=? len)) then None else
  a ← growArray_int space 1 size;
  let a := if j <? len then lcopy a (j + 1) (lread a j (len - j)) else a in
  Some (lset a j (default zero new), j).

Definition removeArrayN (a : larr A) (rm : Z) : option (larr A) :=
  let len := LLEN a in
  if negb (rm <=? len) then None else
  if negb (rm >? 0) then None else
  let a := if rm <? len then lcopy a rm (lread a (rm + 1) (len - rm)) else a in
  Some (setLLEN a (len - 1)).

(** [freep]: whether a destructor is passed; the result pairs the array with
    the returned pointer ([None] is 0). *)
Definition removeLineN (a : larr A) (rm : Z) (freep : bool)
  : option (larr A * option A) :=
  if freep then
    a' ← removeArrayN a rm; Some (a', None)
  else if (rm <? 1) || (rm >? LLEN a) then Some (a, None)
  else
    let ret := lget a rm in
    a' ← removeArrayN a rm; Some (a', Some ret).

Definition popLine (a : larr A) : option (larr A * option A) := removeLineN a (LLEN a) false.

Definition shiftLine (a : larr A) : option (larr A * option A) := removeLineN a 1 false.

Fixpoint alloc_loop (fuel : nat) (len size c : Z) : option (Z * Z) :=
  if len >=? size then
    match fuel with
    | O => None
    | S fuel => alloc_loop fuel len (size * 2) (c + 1)
    end
  else Some (size, c).

Definition allocArray (len esize : Z) : option (larr A) :=
  if negb (esize >=? 4) then None else
  match alloc_loop 32 len 16 4 with
  | None => None
  | Some (size, c) =>
      Some (mkLarr (Z.lor (Z.shiftl c LBITS) len) (alloc_slots size []))
  end.
End lines.

(** ** Arrays of strings *)

Abbreviation lines := (larr cstr).

(** Reading slot [i] of an array of strings. *)
Definition sget (a : lines) (i : Z) : cstr := lget [] a i.

Fixpoint find_loop (fuel : nat) (a : lines) (needle : cstr) (i : Z) : Z :=
  match fuel with
  | O => 0
  | S fuel => if streq needle (sget a i) then i else find_loop fuel a needle (i + 1)
  end.

(** The index of the first match, 0 when there is none. *)
Definition findLine (haystack : option lines) (needle : cstr) : Z :=
  match haystack with
  | None => 0
  | Some a => find_loop (Z.to_nat (LLEN a)) a needle 1
  end.

Definition string_sort (l r : cstr) : Z := strcmp l r.

Definition stringcase_sort (l r : cstr) : Z := strcasecmp l r.

Definition string_sortrev (l r : cstr) : Z := strcmp r l.

Definition number_sort (a b : cstr) : Z :=
  let l := atoi a in let r := atoi b in
  if l - r =? 0 then string_sort a b else l - r.

(** [qsort] puts the elements in the order of [compar]; insertion sort is the
    reference implementation used here. *)
Fixpoint qsort_insert (compar : cstr → cstr → Z) (x : cstr) (l : list cstr) : list cstr :=
  match l with
  | [] => [x]
  | y :: t => if compar x y <=? 0 then x :: l else y :: qsort_insert compar x t
  end.

Fixpoint qsort (compar : cstr → cstr → Z) (l : list cstr) : list cstr :=
  match l with
  | [] => []
  | x :: t => qsort_insert compar x (qsort compar t)
  end.

(** [compar = None] selects [string_sort]. *)
Definition sortArray (space : option lines) (compar : option (cstr → cstr → Z)) : option lines :=
  match space with
  | None => None
  | Some a => Some (lcopy a 1 (qsort (default string_sort compar) (lread a 1 (LLEN a))))
  end.

(** Skip up to the first duplicate: its index, or [None] on the fast exit. *)
Fixpoint uniq_skip (fuel : nat) (a : lines) (src : Z) : option Z :=
  match fuel with
  | O => None
  | S fuel =>
      if (src >? 1) && streq (sget a (src - 1)) (sget a src) then Some src
      else uniq_skip fuel a (src + 1)
  end.

(** The copy loop that [uniqLines] and [removeLine] share: [dup a dst src] says
    whether slot [src] is dropped.  Returns the array, [dst] and the number of
    dropped items. *)
Fixpoint copy_loop (dup : lines → Z → Z → bool) (fuel : nat) (a : lines) (src dst n : Z)
  : lines * Z * Z :=
  match fuel with
  | O => (a, dst, n)
  | S fuel =>
      if dup a dst src then copy_loop dup fuel a (src + 1) dst (n + 1)
      else copy_loop dup fuel (lset a (dst + 1) (sget a src)) (src + 1) (dst + 1) n
  end.

Definition uniq_dup (a : lines) (dst src : Z) : bool := streq (sget a src) (sget a dst).

Definition uniqLines (space : option lines) : option (option lines) :=
  match sortArray space None with
  | None => Some None
  | Some a =>
      match uniq_skip (Z.to_nat (LLEN a)) a 1 with
      | None => Some (Some a)
      | Some src =>
          let '(a, dst, _) := copy_loop uniq_dup (Z.to_nat (LLEN a - src + 1)) a src (src - 1) 0 in
          truncArray (Some a) dst
      end
  end.

Fixpoint same_loop (fuel : nat) (p p2 : lines) (i : Z) : bool :=
  match fuel with
  | O => true
  | S fuel => if streq (sget p i) (sget p2 i) then same_loop fuel p p2 (i + 1) else false
  end.

Definition sameLines (p p2 : option lines) : bool :=
  match p, p2 with
  | Some p, Some p2 =>
      if LLEN p =? LLEN p2 then same_loop (Z.to_nat (LLEN p)) p p2 1 else false
  | _, _ => false
  end.

Definition remove_dup (s : cstr) (a : lines) (dst src : Z) : bool := streq (sget a src) s.

(** The array and the number of removed lines. *)
Definition removeLine (space : option lines) (s : cstr) : option (option lines * Z) :=
  match space with
  | None => Some (None, 0)
  | Some a =>
      let first := findLine space s in
      if first =? 0 then Some (space, 0) else
      let '(a, dst, n) :=
        copy_loop (remove_dup s) (Z.to_nat (LLEN a - first + 1)) a first (first - 1) 0 in
      r ← truncArray (Some a) dst; Some (r, n)
  end.

(** The walk callback threads its token; a negative result stops the walk. *)
Section parallel.
Context {T : Type} (compar : cstr → cstr → Z)
  (walk : T → option cstr → option cstr → T * Z).

Fixpoint parallel_loop (fuel : nat) (a b : option lines) (i j sum : Z) (tok : T) : option (T * Z) :=
  let na := nLines a in
  let nb := nLines b in
  if (i <=? na) || (j <=? nb) then
    match fuel with
    | O => None
    | S fuel =>
        let aget k := match a with Some x => sget x k | None => [] end in
        let bget k := match b with Some x => sget x k | None => [] end in
        let cmp := if i >? na then 1 else if j >? nb then -1
                   else compar (aget i) (bget j) in
        let '(i', j', aa, bb) :=
          if cmp <? 0 then (i + 1, j, Some (aget i), None)
          else if cmp >? 0 then (i, j + 1, None, Some (bget j))
          else (i + 1, j + 1, Some (aget i), Some (bget j)) in
        let '(tok, r) := walk tok aa bb in
        if r <? 0 then Some (tok, r) else parallel_loop fuel a b i' j' (sum + r) tok
    end
  else Some (tok, sum).

(** Every step advances [i] or [j]. *)
Definition parallelLines (a b : option lines) (tok : T) : option (T * Z) :=
  parallel_loop (Z.to_nat (nLines a + nLines b)) a b 1 1 0 tok.
End parallel.

(** ** Abstraction and invariant *)

Section spec.
Context {A : Type}.
Variables (zero junk : A).
Implicit Types (a b : larr A) (s : option (larr A)).

(** The list an array stands for. *)
Definition contents a : list A := take (Z.to_nat (LLEN a)) (lslots a).

Definition cont s : list A := match s with Some a => contents a | None => [] end.

(** The header invariant: [c] and [len] fit, [len] elements are in bounds. *)
Definition lwf a : Prop :=
  ∃ c len, lhdr a = Z.lor (Z.shiftl c LBITS) len ∧ 0 <= c <= 27 ∧ 0 <= len < 2 ^ c ∧
           Z.of_nat (length (lslots a)) = 2 ^ c - 1.

Definition swf s : Prop := match s with Some a => lwf a | None => True end.

Lemma pow2_27 c : 0 <= c <= 27 → 2 ^ c <= 2 ^ LBITS.
Proof. intros. apply Z.pow_le_mono_r; unfold LBITS; lia. Qed.

Lemma hdr_len c len sl :
  0 <= c <= 27 → 0 <= len < 2 ^ c → LLEN (mkLarr (A:=A) (Z.lor (Z.shiftl c LBITS) len) sl) = len.
Proof.
  intros Hc Hl. pose proof (pow2_27 c Hc). unfold LLEN. simpl.
  change LMASK with (Z.ones LBITS). apply field_lo; unfold LBITS in *; lia.
Qed.

Lemma lwf_len a c len :
  lhdr a = Z.lor (Z.shiftl c LBITS) len → 0 <= c <= 27 → 0 <= len < 2 ^ c → LLEN a = len.
Proof. destruct a as [h sl]. simpl. intros -> ??. by apply hdr_len. Qed.

Lemma lwf_bounds a : lwf a → 0 <= LLEN a <= Z.of_nat (length (lslots a)) ∧ LLEN a < 2 ^ 27.
Proof.
  intros (c & len & Hh & Hc & Hl & Hs). rewrite (lwf_len a c len) by done.
  pose proof (pow2_27 c Hc). unfold LBITS in *. change (2 ^ (32 - 5)) with (2 ^ 27) in *. lia.
Qed.

Lemma length_contents a : lwf a → Z.of_nat (length (contents a)) = LLEN a.
Proof. intros H%lwf_bounds. unfold contents. rewrite length_take. lia. Qed.

Lemma length_cont s : swf s → Z.of_nat (length (cont s)) = nLines s.
Proof. destruct s; simpl; [apply length_contents|done]. Qed.

Lemma setLLEN_hdr c len len' sl :
  0 <= c <= 27 → 0 <= len < 2 ^ c → 0 <= len' →
  setLLEN (mkLarr (A:=A) (Z.lor (Z.shiftl c LBITS) len) sl) len' =
  mkLarr (Z.lor (Z.shiftl c LBITS) len') sl.
Proof.
  intros Hc Hl Hl'. unfold setLLEN. simpl. f_equal. f_equal.
  change (u32 (Z.lnot LMASK)) with (Z.shiftl (Z.ones 5) LBITS).
  pose proof (pow2_27 c Hc). apply Z.bits_inj'. intros i Hi.
  rewrite Z.land_spec, Z.lor_spec. unfold LBITS in *.
  destruct (Z.lt_ge_cases i (32 - 5)).
  - rewrite !Z.shiftl_spec_low by lia. by rewrite andb_false_r.
  - rewrite (testbit_small len (32 - 5) i), orb_false_r by lia.
    rewrite !Z.shiftl_spec by lia. destruct (Z.lt_ge_cases (i - (32 - 5)) 5).
    + rewrite Z.ones_spec_low by lia. by rewrite andb_true_r.
    + rewrite (testbit_small c 5) by lia. done.
Qed.

Lemma setLLEN_spec a n :
  lwf a → 0 <= n <= LLEN a →
  lwf (setLLEN a n) ∧ LLEN (setLLEN a n) = n ∧ lslots (setLLEN a n) = lslots a.
Proof.
  intros (c & len & Hh & Hc & Hl & Hs) Hn.
  rewrite (lwf_len a c len) in Hn by done. destruct a as [h sl]. simpl in *. subst h.
  rewrite setLLEN_hdr by lia. split; [|split; [apply hdr_len; lia|done]].
  exists c, n. simpl. repeat split; (done || lia).
Qed.

Lemma setLLEN_contents a n :
  lwf a → 0 <= n <= LLEN a → contents (setLLEN a n) = take (Z.to_nat n) (contents a).
Proof.
  intros Ha Hn. destruct (setLLEN_spec a n Ha Hn) as (_ & Hl & Hs).
  unfold contents. rewrite Hl, Hs, take_take. f_equal. lia.
Qed.

Lemma grow_loop_spec fuel len c :
  0 <= c <= 27 → 0 <= len < 2 ^ 27 → 27 <= c + Z.of_nat fuel →
  ∃ c', grow_loop fuel len (2 ^ c) c = Some (2 ^ c', c') ∧ c <= c' <= 27 ∧ len < 2 ^ c'.
Proof.
  revert c. induction fuel as [|fuel IH]; intros c Hc Hl Hf; simpl.
  - assert (c = 27) as -> by lia. exists 27. destruct (Z.geb_spec len (2 ^ 27)); [lia|].
    split; [done|lia].
  - destruct (Z.geb_spec len (2 ^ c)) as [Hge|Hlt].
    + assert (c < 27).
      { destruct (Z.lt_ge_cases c 27); [done|]. assert (c = 27) as -> by lia. lia. }
      replace (u32 (2 ^ c * 2)) with (2 ^ (c + 1)).
      * destruct (IH (c + 1)) as (c' & -> & ? & ?); [lia|done|lia|].
        exists c'. split; [done|]. lia.
      * unfold u32. rewrite Z.pow_add_r by lia. change (2 ^ 1) with 2.
        symmetry. apply Z.mod_small. split; [apply Z.mul_nonneg_nonneg; lia|].
        pose proof (pow2_27 c Hc). unfold LBITS in *.
        change (2 ^ (32 - 5)) with (2 ^ 27) in *. lia.
    + exists c. split; [done|lia].
Qed.

(** [_growArray_int] always succeeds below the documented limit of 2^27
    entries, keeps the elements and adds [add] to the length. *)
Lemma growArray_int_spec s add es :
  swf s → 4 <= es → 0 <= add → nLines s + add < 2 ^ 27 →
  ∃ a, growArray_int junk s add es = Some a ∧ lwf a ∧ LLEN a = nLines s + add ∧
       take (Z.to_nat (nLines s)) (lslots a) = cont s.
Proof.
  intros Hs Hes Hadd Hlim. destruct s as [a|]; cbn [nLines swf cont] in *.
  - destruct Hs as (c & len & Hh & Hc & Hl & Hsl).
    assert (HL : LLEN a = len) by by apply (lwf_len a c len).
    assert (Hcc : Z.shiftr (lhdr a) LBITS = c).
    { rewrite Hh. pose proof (pow2_27 c Hc). apply field_hi; unfold LBITS in *; lia. }
    assert (Hsz : Z.shiftl 1 c = 2 ^ c) by (rewrite Z.shiftl_mul_pow2; lia).
    rewrite HL in *. unfold growArray_int. cbv zeta. rewrite HL, Hcc, Hsz.
    rewrite (u32_small (len + add)) by lia.
    destruct (Z.gtb_spec (2 ^ c) 0); [|lia]. cbn [negb].
    destruct (Z.geb_spec (len + add) (2 ^ c)).
    + destruct (grow_loop_spec 32 (len + add) c) as (c' & -> & Hc' & Hl'); [lia..|].
      eexists. split; [done|]. split; [|split].
      * exists c', (len + add). simpl. split; [done|]. split; [lia|]. split; [lia|].
        unfold alloc_slots. rewrite length_resize. lia.
      * apply hdr_len; lia.
      * simpl. unfold alloc_slots, contents. rewrite HL.
        rewrite take_resize_le by (pose proof (Z.pow_le_mono_r 2 c c'); lia).
        apply resize_le. lia.
    + eexists. split; [done|]. split; [|split].
      * exists c, (len + add). simpl. repeat split; (done || lia).
      * apply hdr_len; lia.
      * simpl. unfold contents. by rewrite HL.
  - unfold growArray_int. destruct (Z.geb_spec es 4); [|lia]. cbn [negb].
    set (c := if es >? 128 then 2 else 3).
    assert (0 <= c <= 3) by (unfold c; case_if; lia).
    assert (Hsz : Z.shiftl 1 c = 2 ^ c) by (rewrite Z.shiftl_mul_pow2; lia).
    cbv zeta. rewrite Hsz, (u32_small add) by lia.
    destruct (grow_loop_spec 32 add c) as (c' & -> & Hc' & Hl'); [lia..|].
    eexists. split; [done|]. split; [|split; [apply hdr_len; lia|done]].
    exists c', add. simpl. split; [done|]. split; [lia|]. split; [lia|].
    unfold alloc_slots. rewrite length_resize. lia.
Qed.
End spec.

Section ops.
Context {A : Type}.
Variables (zero junk : A).
Implicit Types (a b : larr A) (s : option (larr A)).

Lemma lwf_slots a (sl : list A) :
  lwf a → length sl = length (lslots a) → lwf (mkLarr (lhdr a) sl).
Proof. intros (c & len & ? & ? & ? & ?) Hl. exists c, len. simpl. rewrite Hl. done. Qed.

Lemma lwf_lset a i x : lwf a → lwf (lset a i x).
Proof. intros. apply lwf_slots; [done|]. apply length_insert. Qed.

Lemma lwf_lcopy a i l : lwf a → lwf (lcopy a i l).
Proof. intros. apply lwf_slots; [done|]. apply length_inserts. Qed.

Lemma grow_room a n :
  lwf a → LLEN a = n + 1 → 0 <= n → (Z.to_nat n < length (lslots a))%nat.
Proof. intros H ??. pose proof (lwf_bounds a H). lia. Qed.

Lemma addArray_spec s x es :
  swf s → 4 <= es → nLines s + 1 < 2 ^ 27 →
  ∃ a, addArray zero junk s x es = Some (a, nLines s + 1) ∧ lwf a ∧
       contents a = cont s ++ [default zero x].
Proof.
  intros Hs Hes Hn. pose proof (length_cont s Hs) as Hlen.
  destruct (growArray_int_spec junk s 1 es) as (a & Hg & Hw & HL & Hc); [done|done|lia|done|].
  unfold addArray. rewrite Hg. simpl. rewrite HL. eexists. split; [done|].
  split; [by apply lwf_lset|].
  unfold contents. change (LLEN (lset a (nLines s + 1) (default zero x))) with (LLEN a). rewrite HL. simpl.
  replace (nLines s + 1 - 1) with (nLines s) by lia.
  replace (Z.to_nat (nLines s + 1)) with (S (Z.to_nat (nLines s))) by lia.
  rewrite take_S_insert by (apply grow_room; (done || lia)). by rewrite Hc.
Qed.

Lemma addLine_spec s x :
  swf s → nLines s + 1 < 2 ^ 27 →
  ∃ a, addLine zero junk s x = Some a ∧ lwf a ∧
       contents a = cont s ++ (match x with Some x => [x] | None => [] end).
Proof.
  intros Hs Hn. pose proof (length_cont s Hs) as Hlen.
  destruct (addArray_spec s x 8 Hs ltac:(lia) Hn) as (a & Ha & Hw & Hc).
  unfold addArray in Ha. unfold addLine.
  destruct (growArray_int junk s 1 8) as [a0|]; [|done]. simpl in *. injection Ha as <- HL.
  destruct x as [x|]; simpl in *.
  - by exists (lset a0 (LLEN a0) x).
  - eexists. split; [done|]. rewrite HL in *.
    assert (HL' : LLEN (lset a0 (nLines s + 1) zero) = nLines s + 1) by done.
    replace (nLines s + 1 - 1) with (nLines s) by lia.
    split; [by apply setLLEN_spec; [|lia]|].
    rewrite setLLEN_contents by (done || lia).
    rewrite Hc, app_nil_r, take_app_le by lia. apply take_ge. lia.
Qed.

Lemma growArray_spec s add es :
  swf s → 4 <= es → 0 <= add → nLines s + add < 2 ^ 27 →
  ∃ a, growArray zero junk s add es = Some (a, nLines s + 1) ∧ lwf a ∧
       contents a = cont s ++ replicate (Z.to_nat add) zero.
Proof.
  intros Hs Hes Hadd Hn. pose proof (length_cont s Hs) as Hlen.
  destruct (growArray_int_spec junk s add es) as (a & Hg & Hw & HL & Hc); [done..|].
  pose proof (lwf_bounds a Hw) as [Hb _].
  unfold growArray. rewrite Hg. simpl.
  replace (LLEN a - add + 1) with (nLines s + 1) by lia.
  eexists. split; [done|]. split; [by apply lwf_lcopy|].
  unfold contents. change (LLEN (lcopy a _ _)) with (LLEN a). simpl.
  replace (nLines s + 1 - 1) with (nLines s) by lia.
  rewrite list_inserts_app by (rewrite length_replicate; lia).
  rewrite Hc, app_assoc, take_app_le by (rewrite length_app, length_replicate; lia).
  apply take_ge. rewrite length_app, length_replicate. lia.
Qed.

Lemma truncArray_spec s n :
  swf s → 0 <= n <= nLines s →
  ∃ s', truncArray s n = Some s' ∧ swf s' ∧ cont s' = take (Z.to_nat n) (cont s).
Proof.
  intros Hs Hn. destruct s as [a|]; simpl in *.
  - rewrite u32_small by (pose proof (lwf_bounds a Hs); lia).
    destruct (Z.leb_spec n (LLEN a)); [|lia]. eexists. split; [done|].
    split; [by apply setLLEN_spec|by apply setLLEN_contents].
  - assert (n = 0) as -> by lia. simpl. by exists None.
Qed.

Lemma truncArray_error s n :
  swf s → - 2 ^ 31 <= n < 2 ^ 31 → n < 0 ∨ nLines s < n → truncArray s n = None.
Proof.
  intros Hs Hn Hr. destruct s as [a|]; simpl in *.
  - pose proof (lwf_bounds a Hs). destruct (Z.leb_spec (u32 n) (LLEN a)) as [Hle|]; [|done].
    unfold u32 in Hle. destruct Hr as [Hr|Hr].
    + rewrite <- (Z.mod_add n 1), Z.mod_small in Hle by lia. lia.
    + rewrite Z.mod_small in Hle by lia. lia.
  - destruct (Z.eqb_spec n 0); [lia|done].
Qed.

Lemma catArray_spec s t es :
  swf s → swf t → 4 <= es → nLines s + nLines t < 2 ^ 27 →
  ∃ s' t', catArray junk s t es = Some (s', t') ∧ swf s' ∧ swf t' ∧
           cont s' = cont s ++ cont t ∧ cont t' = [].
Proof.
  intros Hs Ht Hes Hn. pose proof (length_cont s Hs). pose proof (length_cont t Ht).
  destruct t as [b|]; simpl in *; [|by exists s, None; rewrite app_nil_r].
  destruct (Z.eqb_spec (LLEN b) 0) as [Hz|Hz].
  - assert (contents b = []) as Hb by (apply length_zero_iff_nil; lia).
    exists s, (Some b). simpl. by rewrite Hb, app_nil_r.
  - destruct (growArray_int_spec junk s (LLEN b) es) as (a & Hg & Hw & HL & Hc); [done..|lia|done|].
    rewrite Hg. simpl. eexists _, _. split; [done|].
    pose proof (lwf_bounds a Hw) as [Hba _]. pose proof (lwf_bounds b Ht) as [Hbb _].
    destruct (setLLEN_spec b 0 Ht ltac:(lia)) as (Hw0 & HL0 & _).
    split; [by apply lwf_lcopy|]. split; [done|]. split.
    + simpl. unfold contents at 1. change (LLEN (lcopy a _ _)) with (LLEN a). simpl.
      replace (nLines s + 1 - 1) with (nLines s) by lia.
      unfold lread. simpl. rewrite drop_0. fold (contents b).
      rewrite list_inserts_app by lia. rewrite Hc, app_assoc, take_app_le by (rewrite length_app; lia).
      apply take_ge. rewrite length_app. lia.
    + simpl. unfold contents. by rewrite HL0.
Qed.

Lemma insertArrayN_spec s j x es :
  swf s → 4 <= es → 1 <= j <= nLines s + 1 → nLines s + 1 < 2 ^ 27 →
  ∃ a, insertArrayN zero junk s j x es = Some (a, j) ∧ lwf a ∧
       contents a = take (Z.to_nat (j - 1)) (cont s) ++
                    default zero x :: drop (Z.to_nat (j - 1)) (cont s).
Proof.
  intros Hs Hes Hj Hn. pose proof (length_cont s Hs) as Hlen.
  unfold insertArrayN. destruct (Z.gtb_spec j 0); [|lia].
  destruct (Z.leb_spec j (nLines s + 1)); [|lia]. cbn [negb andb].
  destruct (growArray_int_spec junk s 1 es) as (a & Hg & Hw & HL & Hc); [done|done|lia|done|].
  rewrite Hg. simpl. eexists. split; [done|].
  pose proof (lwf_bounds a Hw) as [Hb _].
  set (n := Z.to_nat (nLines s)) in *. set (k := Z.to_nat (j - 1)) in *.
  assert (Hln : length (cont s) = n) by lia.
  destruct (Z.ltb_spec j (nLines s + 1)).
  - split; [by apply lwf_lset, lwf_lcopy|].
    unfold contents. change (LLEN (lset (lcopy a _ _) _ _)) with (LLEN a).
    unfold lread. simpl. rewrite HL. replace (Z.to_nat (nLines s + 1)) with (S n) by lia.
    replace (Z.to_nat (j + 1 - 1)) with (S k) by lia.
    replace (Z.to_nat (nLines s + 1 - j)) with (n - k)%nat by lia. fold k.
    rewrite take_drop_commute. replace (k + (n - k))%nat with n by lia. rewrite Hc.
    rewrite list_inserts_app by (rewrite length_drop; lia).
    rewrite length_drop, insert_app_l by (rewrite length_take; lia).
    rewrite app_assoc, take_app_le by (rewrite length_app, length_insert, length_take, length_drop; lia).
    rewrite take_ge by (rewrite length_app, length_insert, length_take, length_drop; lia).
    replace (S k) with (k + 1)%nat by lia.
    rewrite <- (take_take_drop (lslots a) k 1) by lia. 
    rewrite insert_app_r_alt by (rewrite length_take; lia).
    rewrite length_take_le, Nat.sub_diag by lia.
    rewrite <- app_assoc. f_equal.
    + rewrite <- Hc, take_take. f_equal. lia.
    + destruct (drop k (lslots a)) as [|y u] eqn:E; [|done].
      apply (f_equal length) in E. rewrite length_drop in E. simpl in E. lia.
  - split; [by apply lwf_lset|].
    assert (j = nLines s + 1) as -> by lia.
    unfold contents. change (LLEN (lset a _ _)) with (LLEN a).
    simpl. rewrite HL. fold k. replace (Z.to_nat (nLines s + 1)) with (S n) by lia.
    assert (k = n) as -> by lia.
    rewrite take_S_insert by lia. rewrite Hc, take_ge, drop_ge by lia. done.
Qed.

Lemma removeArrayN_spec a rm :
  lwf a → 1 <= rm <= LLEN a →
  ∃ a', removeArrayN a rm = Some a' ∧ lwf a' ∧
        contents a' = delete (Z.to_nat (rm - 1)) (contents a).
Proof.
  intros Hw Hrm. pose proof (lwf_bounds a Hw) as [Hb _]. pose proof (length_contents a Hw) as Hlen.
  unfold removeArrayN. destruct (Z.leb_spec rm (LLEN a)); [|lia].
  destruct (Z.gtb_spec rm 0); [|lia]. cbn [negb].
  eexists. split; [done|].
  set (n := Z.to_nat (LLEN a)) in *. set (k := Z.to_nat (rm - 1)).
  set (a1 := if rm <? LLEN a then _ else _).
  assert (Hw1 : lwf a1) by (unfold a1; case_if; [by apply lwf_lcopy|done]).
  assert (HL1 : LLEN a1 = LLEN a) by (unfold a1; by case_if).
  split; [apply setLLEN_spec; [done|lia]|].
  rewrite setLLEN_contents by (done || lia). rewrite delete_take_drop.
  unfold contents at 1. rewrite HL1. fold n. rewrite take_take.
  replace (Z.to_nat (LLEN a - 1) `min` n)%nat with (n - 1)%nat by lia.
  unfold a1. destruct (Z.ltb_spec rm (LLEN a)).
  - unfold lread. simpl. replace (Z.to_nat (rm + 1 - 1)) with (S k) by lia. fold k.
    replace (Z.to_nat (LLEN a - rm)) with (n - S k)%nat by lia.
    rewrite take_drop_commute. replace (S k + (n - S k))%nat with n by lia.
    change (take n (lslots a)) with (contents a). rewrite list_inserts_app by (rewrite length_drop; lia).
    rewrite app_assoc, take_app_le by (rewrite length_app, length_take, length_drop; lia).
    rewrite take_ge by (rewrite length_app, length_take, length_drop; lia).
    f_equal. unfold contents. rewrite take_take. f_equal. lia.
  - assert (k = n - 1)%nat as -> by lia. unfold contents. fold n.
    rewrite take_take, drop_ge, app_nil_r by (rewrite length_take; lia). f_equal. lia.
Qed.
End ops.

(** ** Element access and in-place loops *)

Section loops.
Context {A : Type}.
Variables (zero junk : A).
Implicit Types (a b : larr A).

Lemma lget_lookup a i : 1 <= i <= Z.of_nat (length (lslots a)) →
  lslots a !! Z.to_nat (i - 1) = Some (lget junk a i).
Proof. intros. unfold lget. destruct (nth_lookup_or_length (lslots a) (Z.to_nat (i - 1)) junk); [done|lia]. Qed.

Lemma lget_contents a i : lwf a → 1 <= i <= LLEN a →
  contents a !! Z.to_nat (i - 1) = Some (lget junk a i).
Proof.
  intros Hw Hi. pose proof (lwf_bounds a Hw). unfold contents.
  rewrite lookup_take_lt by lia. apply lget_lookup. lia.
Qed.

Lemma removeLineN_spec a rm :
  lwf a → 1 <= rm <= LLEN a →
  ∃ a', removeLineN junk a rm false = Some (a', Some (lget junk a rm)) ∧
        removeLineN junk a rm true = Some (a', None) ∧ lwf a' ∧
        contents a' = delete (Z.to_nat (rm - 1)) (contents a).
Proof.
  intros Hw Hrm. destruct (removeArrayN_spec a rm Hw Hrm) as (a' & Hr & ? & ?).
  exists a'. unfold removeLineN. rewrite Hr. simpl.
  destruct (Z.ltb_spec rm 1); [lia|]. destruct (Z.gtb_spec rm (LLEN a)); [lia|]. done.
Qed.

Lemma removeLineN_range a rm :
  lwf a → rm < 1 ∨ LLEN a < rm →
  removeLineN junk a rm false = Some (a, None) ∧ removeLineN junk a rm true = None.
Proof.
  intros Hw Hrm. unfold removeLineN, removeArrayN.
  destruct (Z.ltb_spec rm 1), (Z.gtb_spec rm (LLEN a)); simpl; split; try done; try lia;
  destruct (Z.leb_spec rm (LLEN a)); simpl; try done; try lia;
  destruct (Z.gtb_spec rm 0); simpl; try done; lia.
Qed.

Lemma popLine_spec a l x :
  lwf a → contents a = l ++ [x] →
  ∃ a', popLine junk a = Some (a', Some x) ∧ lwf a' ∧ contents a' = l.
Proof.
  intros Hw Hc. pose proof (length_contents a Hw) as Hl. rewrite Hc, length_app in Hl. simpl in Hl.
  destruct (removeLineN_spec a (LLEN a) Hw) as (a' & Hr & _ & Hw' & Hc'); [lia|].
  exists a'. unfold popLine. rewrite Hr. pose proof (lget_contents a (LLEN a) Hw ltac:(lia)) as Hg.
  rewrite Hc in Hg, Hc'. rewrite lookup_app_r in Hg by lia.
  replace (Z.to_nat (LLEN a - 1)) with (length l) in * by lia. rewrite Nat.sub_diag in Hg.
  injection Hg as Hx. split; [by rewrite <- Hx|]. split; [done|].
  rewrite Hc', delete_take_drop, take_app_length, drop_ge by (rewrite length_app; simpl; lia).
  apply app_nil_r.
Qed.

Lemma shiftLine_spec a l x :
  lwf a → contents a = x :: l →
  ∃ a', shiftLine junk a = Some (a', Some x) ∧ lwf a' ∧ contents a' = l.
Proof.
  intros Hw Hc. pose proof (length_contents a Hw) as Hl. rewrite Hc in Hl. simpl in Hl.
  destruct (removeLineN_spec a 1 Hw) as (a' & Hr & _ & Hw' & Hc'); [lia|].
  exists a'. unfold shiftLine. rewrite Hr. pose proof (lget_contents a 1 Hw ltac:(lia)) as Hg.
  rewrite Hc in Hg, Hc'. injection Hg as Hx. split; [by rewrite <- Hx|]. done.
Qed.

Lemma reverse_loop_spec fuel a i e :
  1 <= i → e <= Z.of_nat (length (lslots a)) → e - i + 1 <= 2 * Z.of_nat fuel + 1 → 0 <= e →
  let r := reverse_loop junk fuel a i e in
  lhdr r = lhdr a ∧ length (lslots r) = length (lslots a) ∧
  ∀ k : Z, 1 <= k <= Z.of_nat (length (lslots a)) →
    lget junk r k = lget junk a (if (i <=? k) && (k <=? e) then i + e - k else k).
Proof.
  revert a i e. induction fuel as [|fuel IH]; intros a i e Hi He Hf He0; cbn [reverse_loop].
  - split; [done|]. split; [done|]. intros k Hk. f_equal. case_if; boolify; lia.
  - destruct (Z.ltb_spec i e) as [Hlt|Hge].
    2:{ split; [done|]. split; [done|]. intros k Hk. f_equal. case_if; boolify; lia. }
    set (a2 := lset (lset a i (lget junk a e)) e (lget junk a i)).
    assert (Hl2 : length (lslots a2) = length (lslots a))
      by (unfold a2; simpl; by rewrite !length_insert).
    destruct (IH a2 (i + 1) (e - 1)) as (Hh & Hl & Hg); [lia|lia|lia|lia|].
    split; [by rewrite Hh|]. split; [by rewrite Hl|]. intros k Hk. rewrite Hg by lia.
    assert (H2 : ∀ j, 1 <= j <= Z.of_nat (length (lslots a)) →
      lget junk a2 j = lget junk a (if j =? e then i else if j =? i then e else j)).
    { intros j Hj. apply (inj Some). rewrite <- lget_lookup by lia. unfold a2. simpl.
      destruct (Z.eqb_spec j e) as [->|].
      - by rewrite list_lookup_insert_eq by (rewrite length_insert; lia).
      - rewrite list_lookup_insert_ne by lia. destruct (Z.eqb_spec j i) as [->|].
        + by rewrite list_lookup_insert_eq by lia.
        + rewrite list_lookup_insert_ne by lia. by apply lget_lookup. }
    destruct ((i + 1 <=? k) && (k <=? e - 1)) eqn:E1.
    + boolify. rewrite H2 by lia. destruct (Z.eqb_spec (i + 1 + (e - 1) - k) e); [lia|].
      destruct (Z.eqb_spec (i + 1 + (e - 1) - k) i); [lia|].
      destruct (Z.leb_spec i k); [|lia]. destruct (Z.leb_spec k e); [|lia]. simpl. f_equal. lia.
    + rewrite H2 by lia. apply andb_false_iff in E1. rewrite !Z.leb_gt in E1.
      f_equal. destruct (Z.eqb_spec k e); destruct (Z.eqb_spec k i);
      destruct (Z.leb_spec i k); destruct (Z.leb_spec k e); simpl; lia.
Qed.

Lemma reverseLines_spec a :
  lwf a → ∃ a', reverseLines junk (Some a) = Some a' ∧ lwf a' ∧ contents a' = reverse (contents a).
Proof.
  intros Hw. pose proof (lwf_bounds a Hw) as [Hb _]. pose proof (length_contents a Hw) as Hc.
  destruct (reverse_loop_spec (Z.to_nat (LLEN a)) a 1 (LLEN a)) as (Hh & Hl & Hg); [lia..|].
  eexists. split; [done|].
  set (r := reverse_loop junk (Z.to_nat (LLEN a)) a 1 (LLEN a)) in *.
  assert (Hw' : lwf r).
  { destruct r as [h sl]. simpl in *. rewrite Hh. by apply lwf_slots. }
  split; [done|]. assert (HL : LLEN r = LLEN a) by (unfold LLEN; by rewrite Hh).
  pose proof (length_contents r Hw') as Hc'.
  apply list_eq. intros i.
  destruct (decide (i < length (contents a))%nat) as [Hi|Hi].
  - rewrite reverse_lookup by done.
    replace i with (Z.to_nat (Z.of_nat i + 1 - 1)) at 1 by lia.
    rewrite (lget_contents r) by (done || lia). rewrite Hg by lia.
    destruct (Z.leb_spec 1 (Z.of_nat i + 1)); [|lia].
    destruct (Z.leb_spec (Z.of_nat i + 1) (LLEN a)); [|lia]. simpl.
    rewrite <- lget_contents by (done || lia). f_equal. lia.
  - rewrite !lookup_ge_None_2; [done|rewrite length_reverse; lia|lia].
Qed.
End loops.

(** ** Searching and compacting arrays of strings *)

Implicit Types (a : lines).

Lemma streq_true (x y : cstr) : streq x y = true ↔ x = y.
Proof. unfold streq. by rewrite bool_decide_eq_true. Qed.

Lemma streq_false (x y : cstr) : streq x y = false ↔ x ≠ y.
Proof. unfold streq. by rewrite bool_decide_eq_false. Qed.

(** [i] is the first index (from [from]) whose line is [x]. *)
Definition first_at (l : list cstr) (x : cstr) (i : nat) : Prop :=
  l !! i = Some x ∧ x ∉ take i l.

Lemma find_loop_spec fuel a x i :
  lwf a → 1 <= i → LLEN a - i + 1 = Z.of_nat fuel →
  let r := find_loop fuel a x i in
  let rest := drop (Z.to_nat (i - 1)) (contents a) in
  (r = 0 ∧ x ∉ rest) ∨ (i <= r <= LLEN a ∧ first_at rest x (Z.to_nat (r - i))).
Proof.
  intros Hw. revert i. induction fuel as [|fuel IH]; intros i Hi Hf; cbn [find_loop].
  - left. split; [done|]. rewrite drop_ge; [by apply not_elem_of_nil|].
    pose proof (length_contents a Hw). lia.
  - pose proof (lget_contents ([] : cstr) a i Hw ltac:(lia)) as Hg.
    rewrite (drop_S _ _ _ Hg). fold (sget a i) in *.
    destruct (streq x (sget a i)) eqn:E.
    + apply streq_true in E as ->. right. split; [lia|]. rewrite Z.sub_diag. split; [done|].
      simpl. apply not_elem_of_nil.
    + apply streq_false in E. destruct (IH (i + 1)) as [[-> Hn]|[Hr [Hl Hn]]]; [lia|lia| |].
      * left. split; [done|]. rewrite not_elem_of_cons. split; [done|].
        by replace (S (Z.to_nat (i - 1))) with (Z.to_nat (i + 1 - 1)) by lia.
      * right. split; [lia|]. replace (Z.to_nat (i + 1 - 1)) with (S (Z.to_nat (i - 1))) in * by lia.
        replace (Z.to_nat (find_loop fuel a x (i + 1) - i))
          with (S (Z.to_nat (find_loop fuel a x (i + 1) - (i + 1)))) by lia.
        split; [done|]. simpl. by apply not_elem_of_cons.
Qed.

Lemma findLine_spec a x :
  lwf a →
  (findLine (Some a) x = 0 ∧ x ∉ contents a) ∨
  (1 <= findLine (Some a) x <= LLEN a ∧
   first_at (contents a) x (Z.to_nat (findLine (Some a) x - 1))).
Proof.
  intros Hw. pose proof (lwf_bounds a Hw).
  destruct (find_loop_spec (Z.to_nat (LLEN a)) a x 1 Hw) as [[? ?]|[? ?]]; [lia|lia|by left|by right].
Qed.

(** What the copy loop computes: [R] is scanned, [K] is what is kept so far and
    [f K x] says that [x] is dropped. *)
Fixpoint compact (f : list cstr → cstr → bool) (K R : list cstr) : list cstr :=
  match R with
  | [] => K
  | x :: R => if f K x then compact f K R else compact f (K ++ [x]) R
  end.

Lemma length_compact f K R : (length K <= length (compact f K R) <= length K + length R)%nat.
Proof.
  revert K. induction R as [|x R IH]; intros K; simpl; [lia|].
  destruct (f K x); [specialize (IH K); lia|].
  specialize (IH (K ++ [x])). rewrite length_app in IH. simpl in IH. lia.
Qed.

Lemma copy_loop_spec lo dup f R a src dst n :
  0 <= lo → (∀ a dst src, lo <= dst < src → src <= Z.of_nat (length (lslots a)) →
     dup a dst src = f (take (Z.to_nat dst) (lslots a)) (sget a src)) →
  lo <= dst < src → src + Z.of_nat (length R) <= Z.of_nat (length (lslots a)) + 1 →
  take (length R) (drop (Z.to_nat (src - 1)) (lslots a)) = R →
  let K' := compact f (take (Z.to_nat dst) (lslots a)) R in
  ∃ a', copy_loop dup (length R) a src dst n =
          (a', Z.of_nat (length K'), n + dst + Z.of_nat (length R) - Z.of_nat (length K')) ∧
        lhdr a' = lhdr a ∧ length (lslots a') = length (lslots a) ∧
        take (length K') (lslots a') = K'.
Proof.
  intros Hlo Hf. revert a src dst n. induction R as [|x R IH]; intros a src dst n Hd Hs HR; simpl in *.
  - rewrite length_take_le by lia. exists a. rewrite Z2Nat.id by lia.
    split; [f_equal; lia|]. done.
  - assert (Hx : lslots a !! Z.to_nat (src - 1) = Some (sget a src)) by (apply lget_lookup; lia).
    rewrite (drop_S _ _ _ Hx) in HR. simpl in HR. injection HR as Hxe HR.
    rewrite Hf by lia. rewrite Hxe.
    replace (S (Z.to_nat (src - 1))) with (Z.to_nat (src + 1 - 1)) in HR by lia.
    destruct (f (take (Z.to_nat dst) (lslots a)) x).
    + destruct (IH a (src + 1) dst (n + 1)) as (a' & Hc & ?); [lia|lia|done|].
      exists a'. rewrite Hc. split; [f_equal; lia|done].
    + set (a1 := lset a (dst + 1) (sget a src)).
      assert (Hl1 : length (lslots a1) = length (lslots a)) by apply length_insert.
      assert (HK : take (Z.to_nat (dst + 1)) (lslots a1) = take (Z.to_nat dst) (lslots a) ++ [x]).
      { unfold a1. simpl. replace (Z.to_nat (dst + 1 - 1)) with (Z.to_nat dst) by lia.
        replace (Z.to_nat (dst + 1)) with (S (Z.to_nat dst)) by lia.
        rewrite take_S_insert by lia. by rewrite Hxe. }
      rewrite <- HK. destruct (IH a1 (src + 1) (dst + 1) n) as (a' & Hc & Hh & Hl & Ht);
        [lia|lia| |].
      { unfold a1. simpl. rewrite drop_insert_lt by lia. done. }
      exists a'. rewrite <- Hxe at 1. fold a1. rewrite Hc. split; [f_equal; lia|].
      by rewrite Hh, Hl, Hl1.
Qed.

Lemma compact_remove s K R : compact (λ _ x, streq x s) K R = K ++ filter (λ x, x ≠ s) R.
Proof.
  revert K. induction R as [|x R IH]; intros K; simpl; [by rewrite app_nil_r|].
  destruct (streq x s) eqn:E.
  - apply streq_true in E. rewrite filter_cons_False by auto. apply IH.
  - apply streq_false in E. rewrite filter_cons_True by done. by rewrite IH, <- app_assoc.
Qed.

Lemma filter_ne_id s (l : list cstr) : s ∉ l → filter (λ x, x ≠ s) l = l.
Proof.
  intros Hs. induction l as [|x l IH]; [done|]. apply not_elem_of_cons in Hs as [??].
  rewrite filter_cons_True by auto. by rewrite IH.
Qed.

Lemma trunc_compacted a a' n K :
  lwf a → lhdr a' = lhdr a → length (lslots a') = length (lslots a) →
  take (length K) (lslots a') = K → (length K <= Z.to_nat (LLEN a))%nat → n = Z.of_nat (length K) →
  ∃ r, truncArray (Some a') n = Some (Some r) ∧ lwf r ∧ contents r = K.
Proof.
  intros Hw Hh Hl Ht HK ->. pose proof (lwf_bounds a Hw) as [Hb _].
  assert (Hw' : lwf a') by (destruct a' as [h sl]; simpl in *; rewrite Hh; by apply lwf_slots).
  assert (HL : LLEN a' = LLEN a) by (unfold LLEN; by rewrite Hh).
  unfold truncArray. rewrite u32_small by (pose proof (lwf_bounds a Hw); lia).
  destruct (Z.leb_spec (Z.of_nat (length K)) (LLEN a')); [|lia].
  eexists. split; [done|]. split; [apply setLLEN_spec; [done|lia]|].
  rewrite setLLEN_contents by (done || lia). unfold contents. rewrite take_take, Nat2Z.id.
  replace (length K `min` Z.to_nat (LLEN a'))%nat with (length K) by lia. done.
Qed.

Lemma removeLine_contents a s :
  lwf a → ∃ a' n, removeLine (Some a) s = Some (Some a', n) ∧ lwf a' ∧
    contents a' = filter (λ x, x ≠ s) (contents a) ∧
    n = Z.of_nat (length (contents a)) - Z.of_nat (length (contents a')).
Proof.
  intros Hw. pose proof (lwf_bounds a Hw) as [Hb _]. pose proof (length_contents a Hw) as Hlen.
  unfold removeLine.
  destruct (findLine_spec a s Hw) as [[-> Hn]|[Hr [Hf Hnot]]].
  - exists a, 0. rewrite filter_ne_id by done. split_and!; [done..|lia].
  - set (first := findLine (Some a) s) in *. destruct (Z.eqb_spec first 0); [lia|].
    set (R := drop (Z.to_nat (first - 1)) (contents a)).
    assert (HlR : length R = Z.to_nat (LLEN a - first + 1)) by (unfold R; rewrite length_drop; lia).
    assert (HR : take (length R) (drop (Z.to_nat (first - 1)) (lslots a)) = R).
    { rewrite HlR. unfold R, contents. rewrite take_drop_commute. f_equal. f_equal. lia. }
    destruct (copy_loop_spec 0 (remove_dup s) (λ _ x, streq x s) R a first (first - 1) 0)
      as (a' & Hc & Hh & Hl & Ht); [lia|done|lia|lia|done|].
    rewrite <- HlR, Hc. clear Hc. rewrite compact_remove in *.
    set (K := take (Z.to_nat (first - 1)) (lslots a)) in *.
    assert (HK : K = take (Z.to_nat (first - 1)) (contents a))
      by (unfold K, contents; rewrite take_take; f_equal; lia).
    assert (Hfil : K ++ filter (λ x, x ≠ s) R = filter (λ x, x ≠ s) (contents a)).
    { rewrite <- (take_drop (Z.to_nat (first - 1)) (contents a)), filter_app.
      fold R. rewrite <- HK, (filter_ne_id s K) by (by rewrite HK). done. }
    rewrite Hfil in *.
    destruct (trunc_compacted a a' (Z.of_nat (length (filter (λ x, x ≠ s) (contents a))))
                (filter (λ x, x ≠ s) (contents a)) Hw Hh Hl Ht) as (r & Hr' & Hwr & Hcr); [|done|].
    { pose proof (length_filter (λ x, x ≠ s) (contents a)). lia. }
    rewrite Hr'. simpl. eexists _, _. split; [done|]. rewrite Hcr. split; [done|]. split; [done|].
    lia.
Qed.

(** ** Sorting *)

Definition str_le (x y : cstr) : Prop := strcmp x y <= 0.

Definition str_lt (x y : cstr) : Prop := strcmp x y < 0.

Lemma qsort_insert_perm cmp x l : qsort_insert cmp x l ≡ₚ x :: l.
Proof.
  induction l as [|y l IH]; simpl; [done|]. case_if; [done|]. rewrite IH. apply Permutation_swap.
Qed.

Lemma qsort_perm cmp l : qsort cmp l ≡ₚ l.
Proof. induction l as [|x l IH]; simpl; [done|]. by rewrite qsort_insert_perm, IH. Qed.

Lemma qsort_insert_sorted x l :
  cbytes x → Forall cbytes l → StronglySorted str_le l → StronglySorted str_le (qsort_insert strcmp x l).
Proof.
  intros Hx Hl Hs. induction Hs as [|y l Hs IH Hy]; simpl; [by repeat constructor|].
  apply Forall_cons in Hl as [Hcy Hl]. case_if; boolify.
  - constructor; [by constructor|]. constructor; [done|].
    rewrite Forall_forall in Hy, Hl |- *. intros z Hz. apply (strcmp_trans x y z); auto.
    by apply Hy.
  - constructor; [by apply IH|]. rewrite qsort_insert_perm. constructor; [|done].
    unfold str_le. rewrite strcmp_opp. lia.
Qed.

Lemma qsort_sorted l : Forall cbytes l → StronglySorted str_le (qsort strcmp l).
Proof.
  intros Hl. induction Hl as [|x l Hx Hl IH]; simpl; [constructor|].
  apply qsort_insert_sorted; [done| |done]. by rewrite qsort_perm.
Qed.

Lemma sortArray_spec a cmp :
  lwf a → ∃ a', sortArray (Some a) cmp = Some a' ∧ lwf a' ∧ LLEN a' = LLEN a ∧
    contents a' = qsort (default string_sort cmp) (contents a).
Proof.
  intros Hw. pose proof (lwf_bounds a Hw) as [Hb _]. eexists. split; [done|].
  split; [by apply lwf_lcopy|]. split; [done|].
  unfold contents at 1. change (LLEN (lcopy a _ _)) with (LLEN a).
  unfold lread. simpl. rewrite drop_0. fold (contents a).
  set (q := qsort _ _). pose proof (length_contents a Hw) as Hlen.
  assert (Hq : length q = Z.to_nat (LLEN a)) by (unfold q; rewrite qsort_perm; lia).
  rewrite list_inserts_app by lia. rewrite take_0. simpl.
  rewrite take_app_le by lia. apply take_ge. lia.
Qed.

(** ** Removing duplicates *)

Definition uniq_f (K : list cstr) (x : cstr) : bool := streq x (List.last K []).

Lemma uniq_f_dup (b : lines) dst src :
  1 <= dst < src → src <= Z.of_nat (length (lslots b)) →
  uniq_dup b dst src = uniq_f (take (Z.to_nat dst) (lslots b)) (sget b src).
Proof.
  intros Hd Hs. unfold uniq_dup, uniq_f. f_equal. unfold sget.
  pose proof (lget_lookup [] b dst ltac:(lia)) as Hg.
  replace (Z.to_nat dst) with (S (Z.to_nat (dst - 1))) by lia.
  rewrite (take_S_r _ _ _ Hg). by rewrite List.last_last.
Qed.

(** A compacted list of [str_le]-sorted lines is strictly sorted and has the
    same lines. *)
Lemma compact_uniq K R :
  Forall cbytes (K ++ R) → K ≠ [] → StronglySorted str_lt K → StronglySorted str_le (K ++ R) →
  StronglySorted str_lt (compact uniq_f K R) ∧ ∀ x, x ∈ compact uniq_f K R ↔ x ∈ K ++ R.
Proof.
  revert K. induction R as [|x R IH]; intros K Hb Hne HK HR; simpl.
  - rewrite app_nil_r. done.
  - destruct (exists_last Hne) as (K0 & z & ->).
    unfold uniq_f. rewrite List.last_last. destruct (streq x z) eqn:E.
    + apply streq_true in E as ->.
      destruct (IH (K0 ++ [z])) as [IH1 IH2]; [|done|done| |].
      * rewrite Forall_app, Forall_cons in Hb. rewrite Forall_app. tauto.
      * rewrite <- app_assoc in HR |- *. simpl in HR |- *.
        apply StronglySorted_app in HR as (Hc & H1 & H2). apply StronglySorted_app.
        inversion H2 as [|?? H3 H4]; subst. inversion H3; subst. inversion H4; subst.
        split; [|split; [done|by constructor]]. intros x y Hx Hy. apply Hc; [done|]. set_solver.
      * split; [done|]. intros y. rewrite IH2. set_solver.
    + apply streq_false in E. destruct (IH ((K0 ++ [z]) ++ [x])) as [IH1 IH2].
      * by rewrite <- app_assoc.
      * by destruct (K0 ++ [z]).
      * apply StronglySorted_app. split; [|split; [done|by repeat constructor]].
        intros y w Hy ->%list_elem_of_singleton. apply StronglySorted_app in HR as (Hc & _ & _).
        assert (Hle : str_le y x) by (apply Hc; [done|left]). unfold str_le, str_lt in *.
        apply Z.le_neq. split; [done|]. intros Heq.
        assert (Hby : cbytes y ∧ cbytes x ∧ cbytes z).
        { rewrite Forall_forall in Hb. split_and!; apply Hb; set_solver. }
        apply strcmp_eq in Heq as ->; [|tauto..]. apply elem_of_app in Hy as [Hy|Hy].
        -- apply StronglySorted_app in HK as (Hc' & _ & _).
           assert (strcmp x z < 0) by (apply Hc'; [done|left]).
           assert (Hzx : strcmp z x <= 0) by (apply Hc; [set_solver|left]).
           rewrite (strcmp_opp x z) in Hzx. lia.
        -- by apply list_elem_of_singleton in Hy.
      * by rewrite <- app_assoc.
      * split; [done|]. intros y. rewrite IH2. set_solver.
Qed.

Lemma uniq_skip_spec fuel a src :
  lwf a → 1 <= src → LLEN a - src + 1 = Z.of_nat fuel →
  StronglySorted str_le (contents a) → Forall cbytes (contents a) →
  StronglySorted str_lt (take (Z.to_nat (src - 1)) (contents a)) →
  match uniq_skip fuel a src with
  | None => StronglySorted str_lt (contents a)
  | Some r => 2 <= r <= LLEN a ∧ StronglySorted str_lt (take (Z.to_nat (r - 1)) (contents a))
  end.
Proof.
  intros Hw. revert src. induction fuel as [|fuel IH]; intros src Hsrc Hf Hs Hb Hp; cbn [uniq_skip].
  - rewrite take_ge in Hp; [done|]. pose proof (length_contents a Hw). lia.
  - destruct ((src >? 1) && streq (sget a (src - 1)) (sget a src)) eqn:E.
    + apply andb_prop in E as [E _]. apply Z.gtb_lt in E. split; [lia|done].
    + apply IH; [lia|lia|done|done|].
      pose proof (lget_contents ([] : cstr) a src Hw ltac:(lia)) as Hx. fold (sget a src) in Hx.
      replace (Z.to_nat (src + 1 - 1)) with (S (Z.to_nat (src - 1))) by lia.
      rewrite (take_S_r _ _ _ Hx).
      rewrite <- (take_drop_middle _ _ _ Hx) in Hs, Hb.
      set (K := take (Z.to_nat (src - 1)) (contents a)) in *.
      apply StronglySorted_app. split; [|split; [done|by repeat constructor]].
      intros y z Hy ->%list_elem_of_singleton. apply StronglySorted_app in Hs as (Hc & _ & _).
      assert (Hle : str_le y (sget a src)) by (apply Hc; [done|left]).
      unfold str_le, str_lt in *. apply Z.le_neq. split; [done|]. intros Heq.
      assert (Hby : ∀ u, u ∈ K ∨ u = sget a src → cbytes u).
      { rewrite Forall_forall in Hb. intros u Hu. apply Hb. set_solver. }
      apply strcmp_eq in Heq as ->; [|by apply Hby; auto..].
      assert (Hsrc2 : 2 <= src).
      { destruct (Z.lt_ge_cases src 2); [|lia]. unfold K in Hy. assert (src = 1) as -> by lia.
        simpl in Hy. by apply not_elem_of_nil in Hy. }
      destruct (Z.gtb_spec src 1); [|lia]. simpl in E. apply streq_false in E.
      pose proof (lget_contents ([] : cstr) a (src - 1) Hw ltac:(lia)) as Hz. fold (sget a (src - 1)) in Hz.
      assert (HK : K = take (Z.to_nat (src - 1 - 1)) (contents a) ++ [sget a (src - 1)]).
      { unfold K. replace (Z.to_nat (src - 1)) with (S (Z.to_nat (src - 1 - 1))) by lia.
        by apply take_S_r. }
      set (z := sget a (src - 1)) in *. set (x := sget a src) in *.
      assert (Hzx : strcmp z x <= 0) by (apply Hc; [rewrite HK; set_solver|left]).
      rewrite HK in Hy, Hp. apply elem_of_app in Hy as [Hy|Hy%list_elem_of_singleton]; [|done].
      apply StronglySorted_app in Hp as (Hp & _ & _).
      assert (Hxz : strcmp x z < 0) by (apply Hp; [done|left]).
      rewrite (strcmp_opp x z) in Hzx. lia.
Qed.

Lemma uniqLines_contents a :
  lwf a → Forall cbytes (contents a) →
  ∃ a', uniqLines (Some a) = Some (Some a') ∧ lwf a' ∧
    StronglySorted str_lt (contents a') ∧ ∀ x, x ∈ contents a' ↔ x ∈ contents a.
Proof.
  intros Hw Hb. destruct (sortArray_spec a None Hw) as (b & Hsort & Hwb & HLb & Hcb).
  simpl in Hcb. unfold string_sort in Hcb.
  assert (Hperm : contents b ≡ₚ contents a) by (rewrite Hcb; apply qsort_perm).
  assert (Hbb : Forall cbytes (contents b)) by by rewrite Hperm.
  assert (Hsb : StronglySorted str_le (contents b)) by (rewrite Hcb; by apply qsort_sorted).
  unfold uniqLines. rewrite Hsort. clear Hcb Hsort.
  pose proof (lwf_bounds b Hwb) as [Hbnd _]. pose proof (length_contents b Hwb) as Hlen.
  pose proof (uniq_skip_spec (Z.to_nat (LLEN b)) b 1 Hwb ltac:(lia) ltac:(lia) Hsb Hbb) as Hskip.
  simpl in Hskip. specialize (Hskip (SSorted_nil _)).
  destruct (uniq_skip (Z.to_nat (LLEN b)) b 1) as [src|].
  2:{ exists b. split_and!; [done..|]. intros x. by rewrite Hperm. }
  destruct Hskip as [Hsrc Hpre].
  set (R := drop (Z.to_nat (src - 1)) (contents b)).
  assert (HlR : length R = Z.to_nat (LLEN b - src + 1)) by (unfold R; rewrite length_drop; lia).
  assert (HR : take (length R) (drop (Z.to_nat (src - 1)) (lslots b)) = R).
  { rewrite HlR. unfold R, contents. rewrite take_drop_commute. f_equal. f_equal. lia. }
  destruct (copy_loop_spec 1 uniq_dup uniq_f R b src (src - 1) 0)
    as (a' & Hc & Hh & Hl & Ht); [lia|by apply uniq_f_dup|lia|lia|done|].
  rewrite <- HlR, Hc. clear Hc.
  assert (HK : take (Z.to_nat (src - 1)) (lslots b) = take (Z.to_nat (src - 1)) (contents b))
    by (unfold contents; rewrite take_take; f_equal; lia).
  rewrite HK in *. set (K := take (Z.to_nat (src - 1)) (contents b)) in *.
  assert (HKR : K ++ R = contents b) by apply take_drop.
  destruct (compact_uniq K R) as [Hs' Hin']; [by rewrite HKR| |done|by rewrite HKR|].
  { intros HK0. apply (f_equal length) in HK0. unfold K in HK0. rewrite length_take in HK0. simpl in HK0. lia. }
  destruct (trunc_compacted b a' (Z.of_nat (length (compact uniq_f K R))) (compact uniq_f K R)
              Hwb Hh Hl Ht) as (r & Hr & Hwr & Hcr); [|done|].
  { pose proof (length_compact uniq_f K R) as Hlc. rewrite <- length_app, HKR in Hlc. lia. }
  exists r. rewrite Hcr. split_and!; [done..|]. intros x. by rewrite Hin', HKR, Hperm.
Qed.

Lemma same_loop_spec fuel (p q : lines) i :
  lwf p → lwf q → LLEN p = LLEN q → 1 <= i → LLEN p - i + 1 = Z.of_nat fuel →
  same_loop fuel p q i = true ↔
  drop (Z.to_nat (i - 1)) (contents p) = drop (Z.to_nat (i - 1)) (contents q).
Proof.
  intros Hp Hq HL. revert i. induction fuel as [|fuel IH]; intros i Hi Hf; cbn [same_loop].
  - pose proof (length_contents p Hp). pose proof (length_contents q Hq).
    rewrite !drop_ge by lia. done.
  - pose proof (lget_contents ([] : cstr) p i Hp ltac:(lia)) as Hx.
    pose proof (lget_contents ([] : cstr) q i Hq ltac:(lia)) as Hy.
    rewrite (drop_S _ _ _ Hx), (drop_S _ _ _ Hy). fold (sget p i) (sget q i).
    replace (S (Z.to_nat (i - 1))) with (Z.to_nat (i + 1 - 1)) by lia.
    destruct (streq (sget p i) (sget q i)) eqn:E.
    + apply streq_true in E as ->. rewrite IH by lia. split; [by intros ->|by intros [=]].
    + apply streq_false in E. split; [done|by intros [=]].
Qed.

Lemma sameLines_iff p q :
  lwf p → lwf q → sameLines (Some p) (Some q) = true ↔ contents p = contents q.
Proof.
  intros Hp Hq. simpl. pose proof (lwf_bounds p Hp). pose proof (lwf_bounds q Hq).
  destruct (Z.eqb_spec (LLEN p) (LLEN q)) as [HL|HL].
  - by rewrite same_loop_spec by (done || lia).
  - split; [done|]. intros Heq. apply (f_equal length) in Heq.
    pose proof (length_contents p Hp). pose proof (length_contents q Hq). lia.
Qed.

(** ** The parallel walk *)

(** The callbacks in order, with the early exit on a negative result. *)
Fixpoint run_steps {T} (walk : T → option cstr → option cstr → T * Z) (tok : T) (sum : Z)
  (steps : list (option cstr * option cstr)) : T * Z :=
  match steps with
  | [] => (tok, sum)
  | (aa, bb) :: steps =>
      let '(tok, r) := walk tok aa bb in
      if r <? 0 then (tok, r) else run_steps walk tok (sum + r) steps
  end.

(** What a walk of [la] and [lb] calls back with: every line of both, in order,
    a line that is in both once, as a pair. *)
Definition parallel_steps (la lb : list cstr) (steps : list (option cstr * option cstr)) : Prop :=
  omap fst steps = la ∧ omap snd steps = lb ∧
  Forall (λ p, match p with
               | (Some x, Some y) => x = y
               | (Some x, None) => x ∉ lb
               | (None, Some y) => y ∉ la
               | (None, None) => False
               end) steps.

Lemma sorted_head_notin x y l :
  cbytes x → Forall cbytes (y :: l) → strcmp x y < 0 → StronglySorted str_lt (y :: l) → x ∉ y :: l.
Proof.
  intros Hx Hl Hlt Hs Hin. apply StronglySorted_cons in Hs as [Hy _].
  apply elem_of_cons in Hin as [->|Hin]; [rewrite strcmp_refl in Hlt; lia|].
  rewrite Forall_forall in Hy. specialize (Hy x Hin). unfold str_lt in Hy.
  rewrite strcmp_opp in Hy. lia.
Qed.

Lemma parallel_steps_l x la lb st :
  x ∉ lb → parallel_steps la lb st →
  parallel_steps (x :: la) lb ((Some x, None) :: st).
Proof.
  intros Hx (H1 & H2 & H3). split; [exact (f_equal (cons x) H1)|]. split; [done|].
  constructor; [done|]. subst lb. rewrite Forall_forall in H3 |- *. intros [[u|] [v|]] Huv;
  specialize (H3 _ Huv); simpl in *; try done.
  apply not_elem_of_cons. split; [|done]. intros ->. apply Hx. apply list_elem_of_omap.
  by exists (None, Some x).
Qed.

Lemma parallel_steps_r y la lb st :
  y ∉ la → parallel_steps la lb st → parallel_steps la (y :: lb) ((None, Some y) :: st).
Proof.
  intros Hy (H1 & H2 & H3). split; [done|]. split; [exact (f_equal (cons y) H2)|].
  constructor; [done|]. rewrite Forall_forall in H3 |- *. intros [[u|] [v|]] Huv;
  pose proof (H3 _ Huv); simpl in *; try done.
  apply not_elem_of_cons. split; [|done]. intros ->. apply Hy. rewrite <- H1.
  apply list_elem_of_omap. by exists (Some y, None).
Qed.

Lemma parallel_steps_both x la lb st :
  parallel_steps la lb st → x ∉ la → x ∉ lb →
  parallel_steps (x :: la) (x :: lb) ((Some x, Some x) :: st).
Proof.
  intros (H1 & H2 & H3) Ha Hb. split; [exact (f_equal (cons x) H1)|]. split; [exact (f_equal (cons x) H2)|].
  constructor; [done|]. rewrite Forall_forall in H3 |- *. intros [[u|] [v|]] Huv;
  pose proof (H3 _ Huv); simpl in *; try done; apply not_elem_of_cons; (split; [|done]); intros ->.
  - apply Ha. rewrite <- H1. apply list_elem_of_omap. by exists (Some x, None).
  - apply Hb. rewrite <- H2. apply list_elem_of_omap. by exists (None, Some x).
Qed.

Lemma strictly_sorted_notin x l : StronglySorted str_lt (x :: l) → x ∉ l.
Proof.
  intros [Hx _]%StronglySorted_cons Hin. rewrite Forall_forall in Hx.
  specialize (Hx x Hin). unfold str_lt in Hx. rewrite strcmp_refl in Hx. lia.
Qed.

Definition strict_lines (l : list cstr) : Prop := Forall cbytes l ∧ StronglySorted str_lt l.

Lemma strict_lines_cons x l : strict_lines (x :: l) → cbytes x ∧ strict_lines l ∧ x ∉ l.
Proof.
  intros [Hb Hs]. pose proof (strictly_sorted_notin _ _ Hs). apply Forall_cons in Hb as [??].
  apply StronglySorted_cons in Hs as [??]. done.
Qed.

Lemma strict_lines_drop n l : strict_lines l → strict_lines (drop n l).
Proof.
  intros [Hb Hs]. rewrite <- (take_drop n l) in Hb, Hs. apply Forall_app in Hb as [_ ?].
  by apply StronglySorted_app in Hs as (_ & _ & ?).
Qed.

Lemma cont_next (s : option lines) i :
  swf s → 1 <= i <= nLines s →
  drop (Z.to_nat (i - 1)) (cont s) =
  (match s with Some x => sget x i | None => [] end) :: drop (Z.to_nat (i + 1 - 1)) (cont s).
Proof.
  intros Hs Hi. destruct s as [a|]; simpl in *; [|lia].
  rewrite (drop_S _ _ _ (lget_contents ([] : cstr) a i Hs Hi)). f_equal. f_equal. lia.
Qed.

Lemma parallel_loop_spec {T} (walk : T → option cstr → option cstr → T * Z) fuel (a b : option lines) i j sum tok :
  swf a → swf b → 1 <= i <= nLines a + 1 → 1 <= j <= nLines b + 1 →
  (nLines a - i + 1) + (nLines b - j + 1) <= Z.of_nat fuel →
  strict_lines (cont a) → strict_lines (cont b) →
  ∃ st, parallel_loop string_sort walk fuel a b i j sum tok = Some (run_steps walk tok sum st) ∧
        parallel_steps (drop (Z.to_nat (i - 1)) (cont a)) (drop (Z.to_nat (j - 1)) (cont b)) st.
Proof.
  intros Ha Hb. revert i j sum tok.
  induction fuel as [|fuel IH]; intros i j sum tok Hi Hj Hf Hsa Hsb;
    pose proof (length_cont a Ha); pose proof (length_cont b Hb); cbn [parallel_loop].
  { destruct (Z.leb_spec i (nLines a)); [lia|]. destruct (Z.leb_spec j (nLines b)); [lia|]. simpl.
    exists []. split; [done|]. by rewrite !drop_ge by lia. }
  assert (Hgo : ∀ i' j' aa bb, 1 <= i' <= nLines a + 1 → 1 <= j' <= nLines b + 1 →
    (nLines a - i' + 1) + (nLines b - j' + 1) <= Z.of_nat fuel →
    ∃ st, (let '(tok, r) := walk tok aa bb in
           if r <? 0 then Some (tok, r)
           else parallel_loop string_sort walk fuel a b i' j' (sum + r) tok) =
          Some (run_steps walk tok sum ((aa, bb) :: st)) ∧
          parallel_steps (drop (Z.to_nat (i' - 1)) (cont a)) (drop (Z.to_nat (j' - 1)) (cont b)) st).
  { intros i' j' aa bb Hi' Hj' Hf'. simpl. destruct (walk tok aa bb) as [tok' r].
    destruct (IH i' j' (sum + r) tok') as (st & Heq & Hst); [done..|].
    exists st. split; [|done]. by case_if. }
  set (x := match a with Some x => sget x i | None => [] end).
  set (y := match b with Some x => sget x j | None => [] end).
  pose proof (strict_lines_drop (Z.to_nat (i - 1)) _ Hsa) as Hda.
  pose proof (strict_lines_drop (Z.to_nat (j - 1)) _ Hsb) as Hdb.
  destruct (Z.leb_spec i (nLines a)) as [Hia|Hia], (Z.leb_spec j (nLines b)) as [Hjb|Hjb]; cbn [orb];
    (destruct (Z.gtb_spec i (nLines a)); try lia); (destruct (Z.gtb_spec j (nLines b)); try lia); cbn [Z.ltb Z.gtb Z.compare].
  - rewrite (cont_next a i) in Hda |- * by (done || lia).
    rewrite (cont_next b j) in Hdb |- * by (done || lia).
    change (match a with Some x => sget x i | None => [] end) with x in Hda |- *.
    change (match b with Some x => sget x j | None => [] end) with y in Hdb |- *.
    pose proof (strict_lines_cons _ _ Hda) as (Hbx & _ & Hnx).
    pose proof (strict_lines_cons _ _ Hdb) as (Hby & _ & Hny).
    unfold string_sort at 1 2. destruct (Z.ltb_spec (strcmp x y) 0) as [Hlt|Hge].
    + destruct (Hgo (i + 1) j (Some x) None) as (st & -> & Hst); [lia..|].
      exists ((Some x, None) :: st). split; [done|]. rewrite (cont_next b j) in Hst by (done || lia).
      apply parallel_steps_l; [|done]. destruct Hdb. by apply sorted_head_notin.
    + destruct (Z.gtb_spec (strcmp x y) 0) as [Hgt|Hle].
      * destruct (Hgo i (j + 1) None (Some y)) as (st & -> & Hst); [lia..|].
        exists ((None, Some y) :: st). split; [done|]. rewrite (cont_next a i) in Hst by (done || lia).
        apply parallel_steps_r; [|done]. destruct Hda. apply sorted_head_notin; try done.
        rewrite strcmp_opp. lia.
      * destruct (Hgo (i + 1) (j + 1) (Some x) (Some y)) as (st & -> & Hst); [lia..|].
        exists ((Some x, Some y) :: st). split; [done|].
        assert (x = y) as <- by (apply strcmp_eq; [done..|lia]). by apply parallel_steps_both.
  - destruct (Hgo (i + 1) j (Some x) None) as (st & -> & Hst); [lia..|].
    exists ((Some x, None) :: st). split; [done|]. rewrite (cont_next a i) by (done || lia). fold x.
    apply parallel_steps_l; [|done]. rewrite drop_ge by lia. apply not_elem_of_nil.
  - destruct (Hgo i (j + 1) None (Some y)) as (st & -> & Hst); [lia..|].
    exists ((None, Some y) :: st). split; [done|]. rewrite (cont_next b j) by (done || lia). fold y.
    apply parallel_steps_r; [|done]. rewrite drop_ge by lia. apply not_elem_of_nil.
  - exists []. split; [done|]. by rewrite !drop_ge by lia.
Qed.

(** ** Refinement: the array implements the list *)

Section refinement.
Context {A : Type}.
Variables (zero junk : A) (es : Z).

(** The operations that change an array, with the list operation each is. *)
Inductive lop :=
  | OAdd (x : option A)
  | OInsert (j : Z) (x : option A)
  | ORemove (rm : Z)
  | OTrunc (n : Z)
  | OGrow (n : Z)
  | OReverse.

Definition exec_lop (s : option (larr A)) (o : lop) : option (option (larr A)) :=
  match o with
  | OAdd x => '(a, _) ← addArray zero junk s x es; Some (Some a)
  | OInsert j x => '(a, _) ← insertArrayN zero junk s j x es; Some (Some a)
  | ORemove rm => a ← s; a' ← removeArrayN a rm; Some (Some a')
  | OTrunc n => truncArray s n
  | OGrow n => '(a, _) ← growArray zero junk s n es; Some (Some a)
  | OReverse => Some (reverseLines junk s)
  end.

Definition spec_lop (l : list A) (o : lop) : option (list A) :=
  let n := Z.of_nat (length l) in
  match o with
  | OAdd x => Some (l ++ [default zero x])
  | OInsert j x =>
      if (1 <=? j) && (j <=? n + 1)
      then Some (take (Z.to_nat (j - 1)) l ++ default zero x :: drop (Z.to_nat (j - 1)) l) else None
  | ORemove rm =>
      if (1 <=? rm) && (rm <=? n) then Some (delete (Z.to_nat (rm - 1)) l) else None
  | OTrunc k => if (0 <=? k) && (k <=? n) then Some (take (Z.to_nat k) l) else None
  | OGrow k => Some (l ++ replicate (Z.to_nat k) zero)
  | OReverse => Some (reverse l)
  end.

Definition lop_ok (o : lop) : Prop :=
  match o with
  | OGrow n => 0 <= n
  | OTrunc n => - 2 ^ 31 <= n < 2 ^ 31
  | _ => True
  end.

(** Both sides run a whole sequence of operations. *)
Fixpoint exec_lops (s : option (larr A)) (os : list lop) : option (option (larr A)) :=
  match os with [] => Some s | o :: os => s' ← exec_lop s o; exec_lops s' os end.

Fixpoint spec_lops (l : list A) (os : list lop) : option (list A) :=
  match os with [] => Some l | o :: os => l' ← spec_lop l o; spec_lops l' os end.

Lemma exec_lop_refines s o :
  4 <= es → swf s → lop_ok o →
  (∀ l', spec_lop (cont s) o = Some l' → Z.of_nat (length l') < 2 ^ 27) →
  match spec_lop (cont s) o with
  | Some l' => ∃ s', exec_lop s o = Some s' ∧ swf s' ∧ cont s' = l'
  | None => exec_lop s o = None
  end.
Proof.
  intros Hes Hs Hok Hlim. pose proof (length_cont s Hs) as Hlen. destruct o as [x|j x|rm|n|n|]; simpl in *.
  - specialize (Hlim _ eq_refl). rewrite length_app in Hlim. simpl in Hlim.
    destruct (addArray_spec zero junk s x es) as (a & -> & ? & ?); [done|done|lia|]. by exists (Some a).
  - rewrite Hlen in *. destruct (Z.leb_spec 1 j); simpl in *.
    1: destruct (Z.leb_spec j (nLines s + 1)); simpl in *.
    + specialize (Hlim _ eq_refl). rewrite length_app in Hlim. simpl in Hlim.
      rewrite length_take, length_drop in Hlim.
      destruct (insertArrayN_spec zero junk s j x es) as (a & -> & ? & ?); [done|done|lia|lia|].
      by exists (Some a).
    + unfold insertArrayN. destruct (Z.leb_spec j (nLines s + 1)); [lia|]. by rewrite andb_false_r.
    + unfold insertArrayN. destruct (Z.gtb_spec j 0); [lia|]. done.
  - rewrite Hlen in *. destruct s as [a|]; simpl in *.
    + destruct (Z.leb_spec 1 rm); simpl in *.
      1: destruct (Z.leb_spec rm (LLEN a)); simpl in *.
      * destruct (removeArrayN_spec a rm) as (a' & -> & ? & ?); [done|lia|]. by exists (Some a').
      * unfold removeArrayN. by destruct (Z.leb_spec rm (LLEN a)); [lia|].
      * unfold removeArrayN. destruct (Z.leb_spec rm (LLEN a)); simpl; [|done].
        by destruct (Z.gtb_spec rm 0); [lia|].
    + destruct (Z.leb_spec 1 rm); simpl; [|done]. by destruct (Z.leb_spec rm 0); [lia|].
  - rewrite Hlen in *. destruct (Z.leb_spec 0 n); simpl in *.
    1: destruct (Z.leb_spec n (nLines s)); simpl in *.
    + destruct (truncArray_spec s n) as (s' & ? & ? & ?); [done|lia|]. by exists s'.
    + apply truncArray_error; [done|done|lia].
    + apply truncArray_error; [done|done|lia].
  - specialize (Hlim _ eq_refl). rewrite length_app, length_replicate in Hlim.
    destruct (growArray_spec zero junk s n es) as (a & -> & ? & ?); [done|done|done|lia|].
    by exists (Some a).
  - destruct s as [a|]; [|by exists None].
    destruct (reverseLines_spec junk a) as (a' & Hr & ? & ?); [done|]. exists (Some a').
    unfold exec_lop. by rewrite Hr.
Qed.
End refinement.

Arguments lop : clear implicits.

(** No intermediate list exceeds the documented limit of 2^27 entries. *)
Fixpoint spec_fits {A} (zero : A) (l : list A) (os : list (lop A)) : bool :=
  match os with
  | [] => true
  | o :: os => match spec_lop zero l o with
               | Some l' => (Z.of_nat (length l') <? 2 ^ 27) && spec_fits zero l' os
               | None => true
               end
  end.

Lemma exec_lops_refines {A} (zero junk : A) es s os :
  4 <= es → swf s → Forall lop_ok os → spec_fits zero (cont s) os = true →
  match spec_lops zero (cont s) os with
  | Some l' => ∃ s', exec_lops zero junk es s os = Some s' ∧ swf s' ∧ cont s' = l'
  | None => exec_lops zero junk es s os = None
  end.
Proof.
  intros Hes Hs Hok. revert s Hs. induction Hok as [|o os Ho Hok IH]; intros s Hs Hfit; simpl in *.
  - by exists s.
  - pose proof (exec_lop_refines zero junk es s o Hes Hs Ho) as H.
    destruct (spec_lop zero (cont s) o) as [l'|]; simpl.
    + apply andb_prop in Hfit as [Hl Hfit]. apply Z.ltb_lt in Hl.
      destruct H as (s' & -> & Hs' & <-); [by intros ? [= <-]|]. simpl. by apply IH.
    + by rewrite H.
Qed.

(** C20. Every sequence of additions, insertions, removals, truncations, growths
    and reversals on an autoexpanding array, from any well-formed array, behaves
    as the same sequence on the list of its elements as long as the lengths fit in
    the header, succeeds exactly when no index is out of range, and keeps the header invariant (length below
    capacity, capacity a power of two) throughout. *)
Theorem lines_refine_list {A} (zero junk : A) es s os :
  4 <= es → swf s → Forall lop_ok os → spec_fits zero (cont s) os = true →
  match spec_lops zero (cont s) os with
  | Some l' => ∃ s', exec_lops zero junk es s os = Some s' ∧ swf s' ∧ cont s' = l'
  | None => exec_lops zero junk es s os = None
  end.
Proof. apply exec_lops_refines. Qed.

Lemma lines_refine_list_witness :
  match spec_lops 0 (cont None) [OAdd (Some 7); OAdd (Some 8); OInsert 1 (Some 6); OReverse; ORemove 2] with
  | Some l' => ∃ s', exec_lops 0 99 4 None
      [OAdd (Some 7); OAdd (Some 8); OInsert 1 (Some 6); OReverse; ORemove 2] = Some s' ∧ swf s' ∧ cont s' = l'
  | None => False
  end.
Proof.
  exact (lines_refine_list 0 99 4 None [OAdd (Some 7); OAdd (Some 8); OInsert 1 (Some 6); OReverse; ORemove 2]
    ltac:(lia) I ltac:(repeat constructor) eq_refl).
Defined.

(** [uniqLines] on any well-formed array of C strings leaves exactly the
    strings it held, each once, in strictly increasing [strcmp] order. *)
Theorem uniqLines_sorted_set (a : lines) :
  lwf a → Forall cbytes (contents a) →
  ∃ a', uniqLines (Some a) = Some (Some a') ∧ lwf a' ∧
    StronglySorted str_lt (contents a') ∧ ∀ x, x ∈ contents a' ↔ x ∈ contents a.
Proof. apply uniqLines_contents. Qed.

Definition ex_lines : lines :=
  mkLarr (Z.lor (Z.shiftl 3 27) 4) [[98]; [97]; [98]; [97; 97]; []; []; []].

Lemma ex_lines_wf : lwf ex_lines ∧ Forall cbytes (contents ex_lines).
Proof.
  split; [exists 3, 4; split; [done|]; split; [lia|]; split; [|done]; lia|].
  repeat constructor; lia.
Qed.

Lemma uniqLines_sorted_set_witness :
  ∃ a', uniqLines (Some ex_lines) = Some (Some a') ∧ lwf a' ∧
    StronglySorted str_lt (contents a') ∧ ∀ x, x ∈ contents a' ↔ x ∈ contents ex_lines.
Proof. apply uniqLines_sorted_set; apply ex_lines_wf. Defined.

(** [removeLine] removes every line equal to [s], keeps the others in order
    and returns how many it removed. *)
Theorem removeLine_filters (a : lines) (s : cstr) :
  lwf a → ∃ a' n, removeLine (Some a) s = Some (Some a', n) ∧ lwf a' ∧
    contents a' = filter (λ x, x ≠ s) (contents a) ∧
    n = Z.of_nat (length (contents a)) - Z.of_nat (length (contents a')).
Proof. apply removeLine_contents. Qed.

Lemma removeLine_filters_witness :
  ∃ a' n, removeLine (Some ex_lines) [98] = Some (Some a', n) ∧ lwf a' ∧
    contents a' = filter (λ x, x ≠ [98]) (contents ex_lines) ∧
    n = Z.of_nat (length (contents ex_lines)) - Z.of_nat (length (contents a')).
Proof. apply removeLine_filters. apply ex_lines_wf. Defined.

(** [parallelLines] on two sorted, duplicate-free arrays always returns: the
    callback sees every line of both arrays in order, a line that is in both
    exactly once and as a pair, and the result is the sum of the callback's
    results unless one is negative. *)
Theorem parallelLines_walks {T} (walk : T → option cstr → option cstr → T * Z)
    (a b : option lines) (tok : T) :
  swf a → swf b → strict_lines (cont a) → strict_lines (cont b) →
  ∃ st, parallelLines string_sort walk a b tok = Some (run_steps walk tok 0 st) ∧
        parallel_steps (cont a) (cont b) st.
Proof.
  intros Ha Hb Hsa Hsb. pose proof (length_cont a Ha). pose proof (length_cont b Hb).
  apply (parallel_loop_spec walk _ a b 1 1 0 tok); (done || lia).
Qed.

Definition ex_a : lines :=
  mkLarr (Z.lor (Z.shiftl 3 27) 3) [[97]; [98]; [99]; []; []; []; []].

Definition ex_b : lines :=
  mkLarr (Z.lor (Z.shiftl 3 27) 2) [[98]; [100]; []; []; []; []; []].

Definition ex_walk (n : Z) (x y : option cstr) : Z * Z := (n + 1, 2).

Lemma parallelLines_walks_witness :
  ∃ st, parallelLines string_sort ex_walk (Some ex_a) (Some ex_b) 5 = Some (run_steps ex_walk 5 0 st) ∧
        parallel_steps (contents ex_a) (contents ex_b) st.
Proof.
  apply (parallelLines_walks ex_walk (Some ex_a) (Some ex_b) 5).
  - exists 3, 3. split; [done|]. split; [lia|]. split; [lia|done].
  - exists 3, 2. split; [done|]. split; [lia|]. split; [lia|done].
  - split; [repeat constructor; lia|]. repeat constructor; done.
  - split; [repeat constructor; lia|]. repeat constructor; done.
Defined.
