(* ===== verification/Sccs.v ===== *)
(** * Sccs: the delta table of an SCCS file

    The part of the [sccs] and delta structures of src/src/sccs.h that the
    graph, range and weave components read and write.  Deltas are numbered by
    serial from 1 ([TREE]) to [TABLE]; serial 0 means "none" and reads as the
    all-zero delta. *)

From S2P Require Import Prelude CStr.
From stdpp Require Import base numbers list.
From Stdlib Require Import ZArith Lia.

Local Open Scope Z_scope.

(** ** Flags *)

Definition D_INARRAY : Z := 0x00000001.

Definition D_TAG : Z := 0x00000100.

Definition D_CSET : Z := 0x00001000.

Definition D_GREEN : Z := 0x00200000.

Definition D_REMOTE : Z := 0x00400000.

Definition D_RED : Z := 0x08000000.

Definition D_GONE : Z := 0x10000000.

Definition D_BLUE : Z := 0x20000000.

Definition D_SET : Z := 0x80000000.

Definition E_BKMERGE : Z := 0x40.

Definition S_SET : Z := 0x00002000.

(** ** Structures *)

Record delta := mkDelta {
  d_parent : nat;       (* parents[0] *)
  d_merge : nat;        (* parents[1] *)
  d_ptag : nat;         (* ptags[0] *)
  d_mtag : nat;         (* ptags[1] *)
  d_date : Z;
  d_flags : Z;
  d_cludes : cstr;      (* the heap string, empty when there is none *)
  d_r : nat * nat * nat * nat  (* r[0..3] *)
}.

Definition null_delta : delta := mkDelta 0 0 0 0 0 0 [] (0, 0, 0, 0)%nat.

Record sccs := mkSccs {
  deltas : list delta;  (* slist1/slist2 from slot 1 *)
  tip : nat;            (* s->tip, TABLE(s) *)
  encoding_in : Z;
  s_rstart : nat;
  s_rstop : nat;
  s_state : Z;
  s_hasgone : bool
}.

Definition TREE : nat := 1.

Definition TABLE (s : sccs) : nat := tip s.

Definition dl (s : sccs) (d : nat) : delta :=
  match d with O => null_delta | S k => nth k (deltas s) null_delta end.

Definition PARENT (s : sccs) (d : nat) : nat := d_parent (dl s d).

Definition MERGE (s : sccs) (d : nat) : nat := d_merge (dl s d).

Definition PTAG (s : sccs) (d : nat) : nat := d_ptag (dl s d).

Definition MTAG (s : sccs) (d : nat) : nat := d_mtag (dl s d).

Definition DATE (s : sccs) (d : nat) : Z := d_date (dl s d).

Definition FLAGS (s : sccs) (d : nat) : Z := d_flags (dl s d).

Definition CLUDES (s : sccs) (d : nat) : cstr := d_cludes (dl s d).

(** [r[0]] to [r[3]] of a delta. *)
Abbreviation revnum := (nat * nat * nat * nat)%type.

Definition R_of (s : sccs) (d : nat) : revnum := d_r (dl s d).

Definition R0 (s : sccs) (d : nat) : nat := fst (fst (fst (R_of s d))).

Definition R1 (s : sccs) (d : nat) : nat := snd (fst (fst (R_of s d))).

Definition R2 (s : sccs) (d : nat) : nat := snd (fst (R_of s d)).

Definition R3 (s : sccs) (d : nat) : nat := snd (R_of s d).

Definition TAG (s : sccs) (d : nat) : bool := negb (Z.land (FLAGS s d) D_TAG =? 0).

Definition BKMERGE (s : sccs) : bool := negb (Z.land (encoding_in s) E_BKMERGE =? 0).

Definition set_delta (s : sccs) (d : nat) (f : delta → delta) : sccs :=
  match d with
  | O => s
  | S k => mkSccs (alter f k (deltas s)) (tip s) (encoding_in s) (s_rstart s) (s_rstop s)
                  (s_state s) (s_hasgone s)
  end.

Definition set_flags (v : Z) (x : delta) : delta :=
  mkDelta (d_parent x) (d_merge x) (d_ptag x) (d_mtag x) (d_date x) v (d_cludes x) (d_r x).

Definition set_cludes (v : cstr) (x : delta) : delta :=
  mkDelta (d_parent x) (d_merge x) (d_ptag x) (d_mtag x) (d_date x) (d_flags x) v (d_r x).

Definition set_r (r : revnum) (x : delta) : delta :=
  mkDelta (d_parent x) (d_merge x) (d_ptag x) (d_mtag x) (d_date x) (d_flags x) (d_cludes x) r.

Definition FLAGS_SET (s : sccs) (d : nat) (v : Z) : sccs := set_delta s d (set_flags v).

Definition CLUDES_SET (s : sccs) (d : nat) (v : cstr) : sccs := set_delta s d (set_cludes v).

Definition set_range (s : sccs) (start stop : nat) : sccs :=
  mkSccs (deltas s) (tip s) (encoding_in s) start stop (s_state s) (s_hasgone s).

Definition set_encoding (s : sccs) (e : Z) : sccs :=
  mkSccs (deltas s) (tip s) e (s_rstart s) (s_rstop s) (s_state s) (s_hasgone s).

Definition set_sstate (s : sccs) (v : Z) : sccs :=
  mkSccs (deltas s) (tip s) (encoding_in s) (s_rstart s) (s_rstop s) v (s_hasgone s).

Definition set_hasgone (s : sccs) (b : bool) : sccs :=
  mkSccs (deltas s) (tip s) (encoding_in s) (s_rstart s) (s_rstop s) (s_state s) b.

(** [EACH_PARENT] stops at the first empty slot. *)
Definition parents_of (s : sccs) (d : nat) : list nat :=
  match PARENT s d with
  | O => []
  | p => p :: match MERGE s d with O => [] | m => [m] end
  end.

Definition ptags_of (s : sccs) (d : nat) : list nat :=
  match PTAG s d with
  | O => []
  | p => p :: match MTAG s d with O => [] | m => [m] end
  end.

(** The pairs a [while (e = sccs_eachNum(&p, &sign))] loop over a heap string
    sees: serial and sign. *)
Definition clude_list (c : cstr) : list (nat * Z) :=
  map (λ '(e, sign), (Z.to_nat e, sign)) (nums c).

(** ** Well-formed graphs *)

(** A delta of the file graph: in use and not a tag. *)
Definition live (s : sccs) (d : nat) : Prop := FLAGS s d ≠ 0 ∧ TAG s d = false.

Record wf_graph (s : sccs) : Prop := {
  wf_tip : TABLE s = length (deltas s);
  wf_parent : ∀ d, live s d → PARENT s d ≠ 0%nat → (PARENT s d < d)%nat ∧ live s (PARENT s d);
  wf_merge : ∀ d, live s d → MERGE s d ≠ 0%nat →
    (MERGE s d < d)%nat ∧ live s (MERGE s d) ∧ PARENT s d ≠ 0%nat;
  wf_cludes : ∀ d e sign, live s d → (e, sign) ∈ clude_list (CLUDES s d) →
    (1 <= e < d)%nat ∧ live s e
}.

(** ** Lemmas *)

Lemma dl_out s d : (length (deltas s) < d)%nat → dl s d = null_delta.
Proof. intros. destruct d as [|d]; [done|]. simpl. apply nth_overflow. lia. Qed.

Lemma live_pos s d : live s d → (1 <= d)%nat.
Proof. intros [Hf _]. destruct d; [done|lia]. Qed.

Lemma live_tip s d : wf_graph s → live s d → (1 <= d <= TABLE s)%nat.
Proof.
  intros Hw Hl. split; [by apply (live_pos s)|]. rewrite (wf_tip s Hw).
  destruct (le_lt_dec d (length (deltas s))) as [|Hd]; [done|].
  destruct Hl as [Hf _]. unfold FLAGS in Hf. by rewrite dl_out in Hf.
Qed.

Lemma parents_of_wf s d p : wf_graph s → live s d → p ∈ parents_of s d → (1 <= p < d)%nat ∧ live s p.
Proof.
  intros Hw Hl Hp. unfold parents_of in Hp.
  destruct (PARENT s d) as [|q] eqn:E; [by apply not_elem_of_nil in Hp|].
  apply elem_of_cons in Hp as [->|Hp].
  - rewrite <- E. destruct (wf_parent s Hw d Hl ltac:(lia)). split; [lia|done].
  - destruct (MERGE s d) as [|m] eqn:Em; [by apply not_elem_of_nil in Hp|].
    apply list_elem_of_singleton in Hp as ->. rewrite <- Em.
    destruct (wf_merge s Hw d Hl ltac:(lia)) as (? & ? & ?). split; [lia|done].
Qed.

Lemma dl_set_eq s d f : (1 <= d <= length (deltas s))%nat → dl (set_delta s d f) d = f (dl s d).
Proof.
  intros Hd. destruct d as [|k]; [lia|]. simpl.
  destruct (lookup_lt_is_Some_2 (deltas s) k) as [x Hx]; [lia|].
  rewrite (nth_lookup_Some (alter f k (deltas s)) k null_delta (f x)).
  - by rewrite (nth_lookup_Some _ _ _ _ Hx).
  - by rewrite list_lookup_alter_eq, Hx.
Qed.

Lemma dl_set_ne s d e f : e ≠ d → dl (set_delta s d f) e = dl s e.
Proof.
  intros Hne. destruct d as [|k]; [done|]. destruct e as [|j]; [done|]. simpl.
  rewrite !nth_lookup. rewrite list_lookup_alter_ne by lia. done.
Qed.

Lemma length_set_delta s d f : length (deltas (set_delta s d f)) = length (deltas s).
Proof. destruct d; [done|]. simpl. apply length_alter. Qed.

(** ** Deciding well-formedness *)

Definition liveb (s : sccs) (d : nat) : bool := negb (FLAGS s d =? 0) && negb (TAG s d).

Lemma liveb_spec s d : liveb s d = true ↔ live s d.
Proof.
  unfold liveb, live. rewrite andb_true_iff, !negb_true_iff, Z.eqb_neq. done.
Qed.

Definition wf_deltab (s : sccs) (d : nat) : bool :=
  negb (liveb s d) ||
  ((((PARENT s d =? 0)%nat || ((PARENT s d <? d)%nat && liveb s (PARENT s d))) &&
    ((MERGE s d =? 0)%nat ||
     ((MERGE s d <? d)%nat && liveb s (MERGE s d) && negb (PARENT s d =? 0)%nat))) &&
   forallb (λ '(e, _), (1 <=? e)%nat && (e <? d)%nat && liveb s e) (clude_list (CLUDES s d))).

Definition wf_graphb (s : sccs) : bool :=
  (tip s =? length (deltas s))%nat && forallb (wf_deltab s) (seq 1 (length (deltas s))).

Lemma wf_graphb_sound s : wf_graphb s = true → wf_graph s.
Proof.
  intros H. apply andb_prop in H as [Ht Hd]. apply Nat.eqb_eq in Ht.
  assert (Hall : ∀ d, live s d → wf_deltab s d = true).
  { intros d Hl. rewrite forallb_forall in Hd. apply Hd. apply in_seq.
    pose proof (live_pos s d Hl). destruct (le_lt_dec d (length (deltas s))) as [|Hlt]; [lia|].
    destruct Hl as [Hf _]. unfold FLAGS in Hf. by rewrite dl_out in Hf. }
  assert (Hsplit : ∀ d, live s d →
    ((PARENT s d =? 0)%nat || ((PARENT s d <? d)%nat && liveb s (PARENT s d)) = true) ∧
    ((MERGE s d =? 0)%nat || ((MERGE s d <? d)%nat && liveb s (MERGE s d) && negb (PARENT s d =? 0)%nat) = true) ∧
    forallb (λ '(e, _), (1 <=? e)%nat && (e <? d)%nat && liveb s e) (clude_list (CLUDES s d)) = true).
  { intros d Hl. specialize (Hall d Hl). unfold wf_deltab in Hall.
    rewrite (proj2 (liveb_spec s d) Hl) in Hall. simpl in Hall.
    apply andb_prop in Hall as [Hall ?]. apply andb_prop in Hall as [? ?]. done. }
  split; [done|..].
  - intros d Hl Hp. destruct (Hsplit d Hl) as (H1 & _ & _).
    destruct (Nat.eqb_spec (PARENT s d) 0); [done|]. simpl in H1. boolify.
    by rewrite liveb_spec in *.
  - intros d Hl Hm. destruct (Hsplit d Hl) as (_ & H2 & _).
    destruct (Nat.eqb_spec (MERGE s d) 0); [done|]. simpl in H2. boolify.
    rewrite liveb_spec in *. apply negb_true_iff in H0. boolify. done.
  - intros d e sign Hl Hin. destruct (Hsplit d Hl) as (_ & _ & H3).
    rewrite forallb_forall in H3. specialize (H3 (e, sign) (proj1 (list_elem_of_In _ _) Hin)).
    cbv beta iota in H3. boolify. rewrite liveb_spec in *. split; [lia|done].
Qed.

(** ** An example graph: a merge of two branches, with an exclude *)

Definition mk_delta (parent merge : nat) (cludes : cstr) : delta :=
  mkDelta parent merge 0 0 0 D_INARRAY cludes (0, 0, 0, 0)%nat.

Definition ex_graph : sccs :=
  mkSccs [mk_delta 0 0 []; mk_delta 1 0 []; mk_delta 2 0 []; mk_delta 2 0 [];
          mk_delta 3 4 (saveNums [(4, 1)]); mk_delta 5 0 (saveNums [(3, -1)])] 6 0 0 0 0 false.

Lemma ex_graph_wf : wf_graph ex_graph.
Proof. apply wf_graphb_sound. reflexivity. Qed.

Lemma ex_graph_live d : (1 <= d <= 6)%nat → live ex_graph d.
Proof.
  intros Hd. apply liveb_spec. do 7 (destruct d as [|d]; [reflexivity || lia|]). lia.
Qed.
