(* ===== verification/SerialMap.v ===== *)
(** * SerialMap: which deltas make up a version

    [serialmap], [compressmap] and [setmap] of src/src/slib.c.  A version of a
    file is the set of serials whose changes are applied.  [serialmap] computes
    it from a tip, an optional merge parent and include/exclude lists by one
    pass over the delta table, newest to oldest; [compressmap] is its inverse.

    [vrun]/[view] is the same propagation over the whole table, with no range
    optimisation and no reuse of the array for the answer; [is_version] says what a
    version is without marks or passes, and [view_is_version] that the propagation
    computes it. *)

From S2P Require Import Prelude CStr Sccs.
From stdpp Require Import base numbers list.
From Stdlib Require Import ZArith Lia.

Local Open Scope Z_scope.

Definition S_INC : Z := 1.

Definition S_EXCL : Z := 2.

Definition S_PAR : Z := 4.

(** ** The code *)

(** The [sccs_eachNum] loop body: the first include or exclude wins. *)
Definition clude_upd (sl : nat → Z) (c : nat * Z) : nat → Z :=
  let '(i, sign) := c in
  if Z.land (sl i) (Z.lor S_INC S_EXCL) =? 0
  then upd sl i (Z.lor (sl i) (if sign >? 0 then S_INC else S_EXCL)) else sl.

(** "if an ancestor and not excluded, or if included" *)
Definition is_active (b : Z) : bool :=
  (Z.land b (Z.lor S_PAR S_EXCL) =? S_PAR) || negb (Z.land b S_INC =? 0).

Definition par_upd (s : sccs) (t : nat) (sl : nat → Z) : nat → Z :=
  if negb (Z.land (sl t) S_PAR =? 0) && negb (PARENT s t =? 0)%nat then
    let sl := upd sl (PARENT s t) (Z.lor (sl (PARENT s t)) S_PAR) in
    if BKMERGE s && negb (MERGE s t =? 0)%nat
    then upd sl (MERGE s t) (Z.lor (sl (MERGE s t)) S_PAR) else sl
  else sl.

Definition serialmap_step (s : sccs) (t : nat) (sl : nat → Z) : nat → Z :=
  if TAG s t then sl else
  let sl := par_upd s t sl in
  if is_active (sl t)
  then fold_left clude_upd (clude_list (CLUDES s t)) (upd sl t 1)
  else upd sl t 0.

(** A list argument: null, or the serials [walkList] yields and its error. *)
Definition serlist : Type := option (list nat * Z).

Fixpoint ilst_loop (ts : list nat) (sl : nat → Z) (start : nat) : (nat → Z) * nat :=
  match ts with
  | [] => (sl, start)
  | t :: ts => ilst_loop ts (upd sl t S_INC) (Nat.max start t)
  end.

Fixpoint xlst_loop (ts : list nat) (err : Z) (sl : nat → Z) (start : nat) : (nat → Z) * nat * Z :=
  match ts with
  | [] => (sl, start, err)
  | t :: ts =>
      if sl t =? S_INC then (sl, Nat.max start t, 3)
      else xlst_loop ts err (upd sl t S_EXCL) (Nat.max start t)
  end.

(** [inl]: the map; [inr]: the value of [*errp] with a null result. *)
Definition serialmap (s : sccs) (d m : nat) (iLst xLst : serlist) : (nat → Z) + Z :=
  let sl := λ _, 0 in
  let start := Nat.max d m in
  let '(sl, start, err) :=
    match iLst with
    | Some (ts, err) => let '(sl, start) := ilst_loop ts sl start in (sl, start, err)
    | None => (sl, start, 0)
    end in
  if negb (err =? 0) then inr err else
  let '(sl, start, err) :=
    match xLst with
    | Some (ts, err) => xlst_loop ts err sl start
    | None => (sl, start, 0)
    end in
  if negb (err =? 0) then inr err else
  let sl := upd sl d (Z.lor (sl d) S_PAR) in
  let sl := if (m =? 0)%nat then sl else upd sl m (Z.lor (sl m) S_PAR) in
  inl (for_down (serialmap_step s) (start - TREE) TREE sl).

Definition setmap (s : sccs) (bit : Z) (all : bool) : nat → Z :=
  for_down (λ t sl,
    if negb (all || negb (TAG s t)) then sl
    else if negb (Z.land (FLAGS s t) bit =? 0) then upd sl t 1 else sl)
    (TABLE s) 0 (λ _, 0).

Record cmap := mkCmap { c_slist : nat → Z; c_inc : list nat; c_exc : list nat }.

Definition compress_step (s : sccs) (set : nat → Z) (t : nat) (c : cmap) : cmap :=
  if TAG s t then c else
  let sl := par_upd s t (c_slist c) in
  let active := is_active (sl t) in
  let exc := if active && (set t =? 0) then c_exc c ++ [t] else c_exc c in
  if set t =? 0 then mkCmap sl (c_inc c) exc else
  let inc := if negb active then c_inc c ++ [t] else c_inc c in
  mkCmap (fold_left clude_upd (clude_list (CLUDES s t)) sl) inc exc.

(** The serials of the include and exclude lists, as [EACHP_REVERSE] prints
    them (the revisions themselves are [REV(s, t)]). *)
Definition compressmap (s : sccs) (d : nat) (set : nat → Z) : list nat * list nat :=
  let c := for_down (compress_step s set) (TABLE s) 0
             (mkCmap (upd (λ _, 0) d S_PAR) [] []) in
  (reverse (c_inc c), reverse (c_exc c)).

(** ** The reference *)

(** One delta of the propagation: parents first, then the include/exclude list
    of an active delta. *)
Definition vstep (s : sccs) (t : nat) (st : nat → Z) : nat → Z :=
  if (FLAGS s t =? 0) || TAG s t then st else
  let st := par_upd s t st in
  if is_active (st t) then fold_left clude_upd (clude_list (CLUDES s t)) st else st.

Definition vrun (s : sccs) (st : nat → Z) : nat → Z := for_down (vstep s) (TABLE s) 0 st.

(** The seeds: bits of the starting points, 0 elsewhere. *)
Definition seeds (ds : list nat) : nat → Z :=
  fold_right (λ d st, upd st d (Z.lor (st d) S_PAR)) (λ _, 0) ds.

Definition view_from (s : sccs) (st : nat → Z) (t : nat) : bool := is_active (vrun s st t).

(** The version with tips [ds]. *)
Definition view (s : sccs) (ds : list nat) (t : nat) : bool := view_from s (seeds ds) t.

(** ** Pointwise form of the propagation

    One step at [t] changes the entry of each [j] as a function of the old entry
    of [j] and of the bits of [t] only. *)

Definition cl1 (j : nat) (b : Z) (c : nat * Z) : Z :=
  let '(i, sign) := c in
  if (j =? i)%nat then
    if Z.land b (Z.lor S_INC S_EXCL) =? 0 then Z.lor b (if sign >? 0 then S_INC else S_EXCL) else b
  else b.

Definition par1 (s : sccs) (t : nat) (bt : Z) (j : nat) (b : Z) : Z :=
  if negb (Z.land bt S_PAR =? 0) && negb (PARENT s t =? 0)%nat &&
     ((j =? PARENT s t)%nat || (BKMERGE s && negb (MERGE s t =? 0)%nat && (j =? MERGE s t)%nat))
  then Z.lor b S_PAR else b.

Definition mark1 (s : sccs) (t : nat) (bt : Z) (j : nat) (b : Z) : Z :=
  let b := par1 s t bt j b in
  if is_active bt then fold_left (cl1 j) (clude_list (CLUDES s t)) b else b.

Lemma clude_upd_at sl c j : clude_upd sl c j = cl1 j (sl j) c.
Proof.
  destruct c as [i sign]. unfold clude_upd, cl1. destruct (Nat.eqb_spec j i) as [->|Hne].
  - case_if; [apply upd_eq|done].
  - case_if; [by apply upd_ne|done].
Qed.

Lemma clude_fold_at cs sl j : fold_left clude_upd cs sl j = fold_left (cl1 j) cs (sl j).
Proof.
  revert sl. induction cs as [|c cs IH]; intros sl; simpl; [done|]. by rewrite IH, clude_upd_at.
Qed.

Lemma cl1_other cs j b : (∀ i sign, (i, sign) ∈ cs → i ≠ j) → fold_left (cl1 j) cs b = b.
Proof.
  revert b. induction cs as [|[i sign] cs IH]; intros b H; simpl; [done|].
  rewrite IH by (intros; eapply H; by right).
  destruct (Nat.eqb_spec j i) as [->|]; [|done]. by destruct (H i sign); [left|].
Qed.

Lemma lor_idem4 b : Z.lor (Z.lor b S_PAR) S_PAR = Z.lor b S_PAR.
Proof. by rewrite <- Z.lor_assoc. Qed.

Lemma par_upd_at s t sl j : par_upd s t sl j = par1 s t (sl t) j (sl j).
Proof.
  unfold par_upd, par1.
  destruct (negb (Z.land (sl t) S_PAR =? 0) && negb (PARENT s t =? 0)%nat); simpl; [|done].
  destruct (BKMERGE s && negb (MERGE s t =? 0)%nat); simpl; unfold upd;
  destruct (Nat.eqb_spec j (PARENT s t)) as [->|]; simpl; try done.
  - destruct (Nat.eqb_spec (PARENT s t) (MERGE s t)) as [<-|]; [|done].
    rewrite Nat.eqb_refl. apply lor_idem4.
  - destruct (Nat.eqb_spec j (MERGE s t)) as [->|]; [|done].
    by destruct (Nat.eqb_spec (MERGE s t) (PARENT s t)).
Qed.

Section wf.
Context {s : sccs} (Hwf : wf_graph s).

Lemma par1_ge t bt j b : live s t → (t <= j)%nat → par1 s t bt j b = b.
Proof.
  intros Hl Hj. unfold par1.
  destruct (Nat.eqb_spec (PARENT s t) 0) as [|Hp]; [by rewrite andb_false_r|].
  destruct (wf_parent s Hwf t Hl Hp) as [Hpt _]. destruct (Nat.eqb_spec j (PARENT s t)); [lia|].
  destruct (Nat.eqb_spec (MERGE s t) 0) as [|Hm]; [by rewrite !andb_false_r|].
  destruct (wf_merge s Hwf t Hl Hm) as (Hmt & _). destruct (Nat.eqb_spec j (MERGE s t)); [lia|].
  by rewrite !andb_false_r.
Qed.

Lemma par1_nonlive t bt j b : live s t → ~ live s j → par1 s t bt j b = b.
Proof.
  intros Hl Hj. unfold par1.
  destruct (Nat.eqb_spec (PARENT s t) 0) as [|Hp]; [by rewrite andb_false_r|].
  destruct (wf_parent s Hwf t Hl Hp) as [_ Hpt].
  destruct (Nat.eqb_spec j (PARENT s t)) as [->|]; [done|].
  destruct (Nat.eqb_spec (MERGE s t) 0) as [|Hm]; [by rewrite !andb_false_r|].
  destruct (wf_merge s Hwf t Hl Hm) as (_ & Hmt & _).
  destruct (Nat.eqb_spec j (MERGE s t)) as [->|]; [done|]. by rewrite !andb_false_r.
Qed.

Lemma mark1_ge t bt j b : live s t → (t <= j)%nat → mark1 s t bt j b = b.
Proof.
  intros Hl Hj. unfold mark1. rewrite par1_ge by done. case_if; [|done].
  apply cl1_other. intros i sign Hi. destruct (wf_cludes s Hwf t i sign Hl Hi). lia.
Qed.

Lemma mark1_nonlive t bt j b : live s t → ~ live s j → mark1 s t bt j b = b.
Proof.
  intros Hl Hj. unfold mark1. rewrite par1_nonlive by done. case_if; [|done].
  apply cl1_other. intros i sign Hi ->. by destruct (wf_cludes s Hwf t j sign Hl Hi).
Qed.

Lemma mark1_0 t j b : mark1 s t 0 j b = b.
Proof. done. Qed.

Lemma is_live_dec t : live s t ∨ (FLAGS s t =? 0) || TAG s t = true.
Proof.
  unfold live. destruct (Z.eqb_spec (FLAGS s t) 0); [by right|].
  destruct (TAG s t); [by right|]. by left.
Qed.

Lemma live_flags t : live s t → (FLAGS s t =? 0) || TAG s t = false.
Proof. intros [Hf Ht]. rewrite Ht. by destruct (Z.eqb_spec (FLAGS s t) 0). Qed.

Lemma vstep_at t st j : live s t → vstep s t st j = mark1 s t (st t) j (st j).
Proof.
  intros Hl. unfold vstep. rewrite live_flags by done. unfold mark1.
  assert (Ht : par_upd s t st t = st t) by (rewrite par_upd_at; by apply par1_ge).
  rewrite Ht. case_if; [rewrite clude_fold_at|]; by rewrite par_upd_at.
Qed.

Lemma vstep_dead t st : ~ live s t → vstep s t st = st.
Proof. intros Hl. unfold vstep. destruct (is_live_dec t) as [| ->]; done. Qed.

Lemma vstep_ge t st j : (t <= j)%nat → vstep s t st j = st j.
Proof.
  intros Hj. destruct (is_live_dec t) as [Hl|Hd].
  - rewrite vstep_at by done. by apply mark1_ge.
  - unfold vstep. by rewrite Hd.
Qed.

Lemma vstep_nonlive t st j : ~ live s j → vstep s t st j = st j.
Proof.
  intros Hj. destruct (is_live_dec t) as [Hl|Hd].
  - rewrite vstep_at by done. by apply mark1_nonlive.
  - unfold vstep. by rewrite Hd.
Qed.

Lemma vstep_zero t st : st t = 0 → vstep s t st = st.
Proof.
  intros H0. unfold vstep. case_if; [done|]. unfold par_upd. rewrite H0. simpl. by rewrite H0.
Qed.

Lemma vrun_zero n lo st :
  (∀ t, (lo < t)%nat → st t = 0) → for_down (vstep s) n lo st = st.
Proof.
  intros H0. induction n as [|n IH]; cbn [for_down]; [done|].
  rewrite vstep_zero by (apply H0; lia). done.
Qed.

Lemma for_down_vstep_ge n lo st j : (lo + n <= j)%nat → for_down (vstep s) n lo st j = st j.
Proof.
  intros Hj. revert st. induction n as [|n IH]; intros st; cbn [for_down]; [done|].
  rewrite IH by lia. apply vstep_ge. lia.
Qed.

(** Propagation can start at the newest seed. *)
Lemma vrun_start start st :
  (start <= TABLE s)%nat → (∀ t, (start < t)%nat → st t = 0) →
  vrun s st = for_down (vstep s) start 0 st.
Proof.
  intros Hs H0. unfold vrun. replace (TABLE s) with ((TABLE s - start) + start)%nat by lia.
  rewrite for_down_add. rewrite (vrun_zero (TABLE s - start)); [done|]. intros. apply H0. lia.
Qed.

(** The entries from [k] on are final once deltas above [k] are done. *)
Lemma vrun_final k n st j :
  (k <= j)%nat → for_down (vstep s) (n + k) 0 st j = for_down (vstep s) n k st j.
Proof. intros Hj. rewrite for_down_add. by apply for_down_vstep_ge. Qed.
End wf.

Section serialmap_proofs.
Context {s : sccs} (Hwf : wf_graph s).

Lemma serialmap_step_at t sl j :
  live s t → serialmap_step s t sl j =
  if (j =? t)%nat then Z.b2z (is_active (sl t)) else mark1 s t (sl t) j (sl j).
Proof.
  intros Hl. unfold serialmap_step. destruct Hl as [Hf Ht]. rewrite Ht.
  assert (Hl : live s t) by done.
  assert (Hpt : par_upd s t sl t = sl t) by (rewrite par_upd_at; by apply (par1_ge Hwf)).
  rewrite Hpt. unfold mark1. destruct (is_active (sl t)).
  - rewrite clude_fold_at. destruct (Nat.eqb_spec j t) as [->|].
    + rewrite upd_eq. apply cl1_other. intros i sign Hi.
      destruct (wf_cludes s Hwf t i sign Hl Hi). lia.
    + by rewrite upd_ne, par_upd_at.
  - destruct (Nat.eqb_spec j t) as [->|]; [apply upd_eq|]. by rewrite upd_ne, par_upd_at.
Qed.

Lemma serialmap_step_zero t sl j : sl t = 0 → serialmap_step s t sl j = sl j.
Proof.
  intros H0. unfold serialmap_step. case_if; [done|].
  unfold par_upd. rewrite H0. simpl. rewrite H0. simpl.
  destruct (decide (j = t)) as [->|]; [by rewrite upd_eq|by rewrite upd_ne].
Qed.

Lemma serialmap_loop start st0 :
  (1 <= start <= TABLE s)%nat → (∀ t, (start < t)%nat → st0 t = 0) → (∀ t, ~ live s t → st0 t = 0) →
  let sl := for_down (serialmap_step s) (start - 1) 1 st0 in
  (∀ t, (1 < t)%nat → sl t = Z.b2z (view_from s st0 t)) ∧ sl 1%nat = vrun s st0 1%nat.
Proof.
  intros Hst Habove Hdead.
  set (P := λ k (sl st : nat → Z),
    (∀ j, (j <= k)%nat → sl j = st j) ∧
    (∀ j, (k < j)%nat → sl j = Z.b2z (is_active (st j))) ∧ (∀ j, ~ live s j → st j = 0)).
  assert (HP : P 1%nat (for_down (serialmap_step s) (start - 1) 1 st0)
                     (for_down (vstep s) (start - 1) 1 st0)).
  { apply (for_down_inv2 _ _ P).
    - replace (1 + (start - 1))%nat with start by lia. split; [done|]. split; [|done].
      intros j Hj. by rewrite Habove.
    - intros t sl st Ht (H1 & H2 & H3). destruct (is_live_dec (s:=s) t) as [Hl|Hd].
      + split; [|split].
        * intros j Hj. rewrite serialmap_step_at, (vstep_at Hwf) by done.
          destruct (Nat.eqb_spec j t); [lia|]. by rewrite !H1 by lia.
        * intros j Hj. rewrite serialmap_step_at by done. rewrite (vstep_ge Hwf) by lia.
          destruct (Nat.eqb_spec j t) as [->|]; [by rewrite H1 by lia|].
          rewrite (mark1_ge Hwf) by (done || lia). apply H2. lia.
        * intros j Hj. rewrite (vstep_nonlive Hwf) by done. by apply H3.
      + assert (Hnl : ~ live s t).
        { intros Hl. by rewrite (live_flags t Hl) in Hd. }
        assert (H0 : sl t = 0) by (rewrite H1 by lia; by apply H3).
        rewrite (vstep_dead t st Hnl). split; [|split; [|done]].
        * intros j Hj. rewrite serialmap_step_zero by done. apply H1. lia.
        * intros j Hj. rewrite serialmap_step_zero by done.
          destruct (decide (j = t)) as [->|]; [|apply H2; lia].
          by rewrite H0, (H3 t Hnl). }
  assert (Hv : ∀ j, (1 <= j)%nat → vrun s st0 j = for_down (vstep s) (start - 1) 1 st0 j).
  { intros j Hj. rewrite (vrun_start start) by (done || lia).
    replace start with ((start - 1) + 1)%nat at 1 by lia. by apply (vrun_final Hwf). }
  destruct HP as (H1 & H2 & _). split.
  - intros t Ht. unfold view_from. rewrite Hv by lia. by apply H2.
  - rewrite Hv by lia. by apply H1.
Qed.

Lemma seeds_live ds t : (∀ d, d ∈ ds → live s d) → ~ live s t → seeds ds t = 0.
Proof.
  intros Hl Ht. unfold seeds. induction ds as [|d ds IH]; simpl; [done|].
  assert (t ≠ d) by (intros ->; apply Ht, Hl; left).
  rewrite upd_ne by done. apply IH. intros e He. apply Hl. by right.
Qed.

Lemma seeds_above ds t : (∀ d, d ∈ ds → (d < t)%nat) → seeds ds t = 0.
Proof.
  intros Hl. unfold seeds. induction ds as [|d ds IH]; simpl; [done|].
  assert (d < t)%nat by (apply Hl; left).
  rewrite upd_ne by lia. apply IH. intros e He. apply Hl. by right.
Qed.
End serialmap_proofs.

(** The initial marks of [serialmap]: lists, then tips. *)
Definition seed_bits (d m : nat) (inc exc : list nat) : nat → Z :=
  λ t, Z.lor (if bool_decide (t ∈ inc) then S_INC else if bool_decide (t ∈ exc) then S_EXCL else 0)
             (if (t =? d)%nat || (negb (m =? 0)%nat && (t =? m)%nat) then S_PAR else 0).

Lemma ilst_loop_at ts sl start t :
  let r := ilst_loop ts sl start in
  fst r t = (if bool_decide (t ∈ ts) then S_INC else sl t) ∧
  snd r = Nat.max start (list_max ts).
Proof.
  revert sl start. induction ts as [|x ts IH]; intros sl start; cbn [ilst_loop].
  - split; [|simpl; lia]. by rewrite bool_decide_eq_false_2 by apply not_elem_of_nil.
  - destruct (IH (upd sl x S_INC) (Nat.max start x)) as [H1 H2]. rewrite H1, H2.
    change (list_max (x :: ts)) with (Nat.max x (list_max ts)). split; [|lia].
    destruct (decide (t ∈ ts)) as [Hin|Hin].
    + by rewrite !bool_decide_eq_true_2 by (try right; done).
    + rewrite (bool_decide_eq_false_2 (t ∈ ts)) by done. destruct (decide (t = x)) as [->|].
      * rewrite upd_eq, bool_decide_eq_true_2 by left. done.
      * rewrite upd_ne, bool_decide_eq_false_2 by (rewrite ?elem_of_cons; naive_solver). done.
Qed.

Lemma xlst_loop_at ts err sl start :
  (∀ x, x ∈ ts → sl x ≠ S_INC) →
  ∃ sl', xlst_loop ts err sl start = (sl', Nat.max start (list_max ts), err) ∧
         ∀ t, sl' t = if bool_decide (t ∈ ts) then S_EXCL else sl t.
Proof.
  revert sl start. induction ts as [|x ts IH]; intros sl start Hne; cbn [xlst_loop].
  - exists sl. split; [simpl; f_equal; f_equal; lia|]. intros t.
    by rewrite bool_decide_eq_false_2 by apply not_elem_of_nil.
  - destruct (Z.eqb_spec (sl x) S_INC) as [E|_]; [by destruct (Hne x); [left|]|].
    destruct (IH (upd sl x S_EXCL) (Nat.max start x)) as (sl' & Heq & Hsl').
    { intros y Hy. unfold upd. case_if; [done|]. apply Hne. by right. }
    exists sl'. rewrite Heq. change (list_max (x :: ts)) with (Nat.max x (list_max ts)).
    split; [f_equal; f_equal; lia|]. intros t. rewrite Hsl'.
    destruct (decide (t ∈ ts)) as [Hin|Hin].
    + by rewrite !bool_decide_eq_true_2 by (try right; done).
    + rewrite (bool_decide_eq_false_2 (t ∈ ts)) by done. destruct (decide (t = x)) as [->|].
      * rewrite upd_eq, bool_decide_eq_true_2 by left. done.
      * rewrite upd_ne, bool_decide_eq_false_2 by (rewrite ?elem_of_cons; naive_solver). done.
Qed.

Lemma vrun_ext s f g : wf_graph s → (∀ j, f j = g j) → ∀ j, vrun s f j = vrun s g j.
Proof.
  intros Hwf Hfg. unfold vrun.
  apply (for_down_inv2 _ _ (λ _ f g, ∀ j, f j = g j)); [done|].
  intros t st st' _ H j. destruct (is_live_dec (s:=s) t) as [Hl|Hd].
  - by rewrite !(vstep_at Hwf), !H.
  - unfold vstep. by rewrite Hd.
Qed.

Definition list_arg (o : serlist) (l : list nat) : Prop :=
  o = Some (l, 0) ∨ (o = None ∧ l = []).

Lemma list_max_elem (l : list nat) x : x ∈ l → (x <= list_max l)%nat.
Proof.
  intros Hx. pose proof (proj1 (list_max_le l (list_max l)) (le_n _)) as H.
  rewrite List.Forall_forall in H. apply H. by apply list_elem_of_In.
Qed.

Lemma list_max_bound (l : list nat) n : (∀ x, x ∈ l → (x <= n)%nat) → (list_max l <= n)%nat.
Proof.
  intros H. apply list_max_le. apply List.Forall_forall. intros x Hx. apply H.
  by apply list_elem_of_In.
Qed.

(** [serialmap] with any lists computes the reference view from its seeds,
    except that the root's entry is left as raw marks. *)
Lemma serialmap_view s d m iLst xLst inc exc :
  wf_graph s → live s d → (m = 0%nat ∨ live s m) → list_arg iLst inc → list_arg xLst exc →
  (∀ x, x ∈ inc ++ exc → live s x) → (∀ x, x ∈ exc → x ∉ inc) →
  ∃ sl, serialmap s d m iLst xLst = inl sl ∧
    (∀ t, (1 < t)%nat → sl t = Z.b2z (view_from s (seed_bits d m inc exc) t)) ∧
    sl 1%nat = vrun s (seed_bits d m inc exc) 1%nat.
Proof.
  intros Hwf Hd Hm Hi Hx Hl Hdis. unfold serialmap.
  set (r1 := match iLst with Some (ts, err) => let '(sl, start) := ilst_loop ts (λ _, 0) (Nat.max d m) in (sl, start, err) | None => (λ _, 0, Nat.max d m, 0) end).
  assert (H1 : ∃ sl1, r1 = (sl1, Nat.max (Nat.max d m) (list_max inc), 0) ∧
                ∀ t, sl1 t = if bool_decide (t ∈ inc) then S_INC else 0).
  { unfold r1. destruct Hi as [->|[-> ->]].
    - pose proof (λ t, ilst_loop_at inc (λ _, 0) (Nat.max d m) t) as H.
      destruct (ilst_loop inc (λ _, 0) (Nat.max d m)) as [sl1 st1]. simpl in H.
      exists sl1. destruct (H 0%nat) as [_ ->]. split; [done|]. intros t. apply H.
    - eexists. split; [f_equal; f_equal; simpl; lia|]. intros t.
      by rewrite bool_decide_eq_false_2 by apply not_elem_of_nil. }
  destruct H1 as (sl1 & -> & Hsl1). cbn [negb Z.eqb].
  set (st1 := Nat.max (Nat.max d m) (list_max inc)).
  set (r2 := match xLst with Some (ts, err) => xlst_loop ts err sl1 st1 | None => (sl1, st1, 0) end).
  assert (H2 : ∃ sl2, r2 = (sl2, Nat.max st1 (list_max exc), 0) ∧
                ∀ t, sl2 t = if bool_decide (t ∈ exc) then S_EXCL else sl1 t).
  { unfold r2. destruct Hx as [->|[-> ->]].
    - destruct (xlst_loop_at exc 0 sl1 st1) as (sl2 & -> & ?); [|by exists sl2].
      intros x Hx. rewrite Hsl1, bool_decide_eq_false_2 by by apply Hdis. done.
    - eexists. split; [f_equal; f_equal; simpl; lia|]. intros t.
      by rewrite (bool_decide_eq_false_2 (t ∈ [])) by apply not_elem_of_nil. }
  destruct H2 as (sl2 & -> & Hsl2). cbn [negb Z.eqb]. unfold TREE.
  set (start := Nat.max st1 (list_max exc)).
  set (st0 := if (m =? 0)%nat then upd sl2 d (Z.lor (sl2 d) S_PAR) else _).
  assert (Hst0 : ∀ t, st0 t = seed_bits d m inc exc t).
  { intros t. assert (Hb : sl2 t = if bool_decide (t ∈ inc) then S_INC else if bool_decide (t ∈ exc) then S_EXCL else 0).
    { rewrite Hsl2, Hsl1. destruct (decide (t ∈ exc)) as [He|He].
      - by rewrite (bool_decide_eq_true_2 _ He), (bool_decide_eq_false_2 (t ∈ inc)) by by apply Hdis.
      - by rewrite !(bool_decide_eq_false_2 _ He). }
    unfold seed_bits. rewrite <- Hb. unfold st0.
    destruct (Nat.eqb_spec m 0) as [->|Hm0]; simpl.
    - rewrite orb_false_r. unfold upd. destruct (Nat.eqb_spec t d) as [->|]; [done|].
      by rewrite Z.lor_0_r.
    - unfold upd. destruct (Nat.eqb_spec t m) as [->|]; simpl.
      + rewrite orb_true_r. destruct (Nat.eqb_spec m d) as [->|]; [apply lor_idem4|done].
      + rewrite orb_false_r. destruct (Nat.eqb_spec t d) as [->|]; [done|]. by rewrite Z.lor_0_r. }
  assert (Hbnd : ∀ x, x = d ∨ (m ≠ 0%nat ∧ x = m) ∨ x ∈ inc ∨ x ∈ exc → live s x).
  { intros x [->|[[? ->]|Hin]]; [done|by destruct Hm|]. apply Hl. by apply elem_of_app. }
  assert (Hz : ∀ t, (t ≠ d → (m ≠ 0%nat → t ≠ m) → t ∉ inc → t ∉ exc → st0 t = 0)).
  { intros t H1 H2 H3 H4. rewrite Hst0. unfold seed_bits.
    rewrite !bool_decide_eq_false_2 by done. destruct (Nat.eqb_spec t d); [done|].
    destruct (Nat.eqb_spec m 0); simpl; [done|]. by destruct (Nat.eqb_spec t m); [by destruct H2|]. }
  eexists. split; [done|].
  destruct (serialmap_loop Hwf start st0) as [Hmain Hroot].
  - pose proof (live_tip s d Hwf Hd). split; [lia|].
    assert (m <= TABLE s)%nat by (destruct Hm as [->|Hm]; [lia|]; pose proof (live_tip s m Hwf Hm); lia).
    assert (list_max inc <= TABLE s ∧ list_max exc <= TABLE s)%nat.
    { split; apply list_max_bound; intros x Hin; assert (Hlx : live s x) by auto;
      pose proof (live_tip s x Hwf Hlx); lia. }
    lia.
  - intros t Ht. apply Hz; try (intros; lia); intros Hin%list_max_elem; lia.
  - intros t Ht. apply Hz; [intros ->|intros ? ->|intros ?|intros ?]; apply Ht, Hbnd; tauto.
  - split.
    + intros t Ht. rewrite Hmain by done. unfold view_from. by rewrite (vrun_ext s st0 _ Hwf Hst0).
    + rewrite Hroot. by apply vrun_ext.
Qed.

(** ** [compressmap] inverts [serialmap] *)

Section compress.
Context {s : sccs} (Hwf : wf_graph s) (set : nat → Z).
Hypothesis set_live : ∀ t, set t ≠ 0 → live s t.

Lemma compress_step_lists t c :
  c_inc (compress_step s set t c) =
    c_inc c ++ (if negb (TAG s t) && negb (set t =? 0) && negb (is_active (par_upd s t (c_slist c) t)) then [t] else []) ∧
  c_exc (compress_step s set t c) =
    c_exc c ++ (if negb (TAG s t) && (set t =? 0) && is_active (par_upd s t (c_slist c) t) then [t] else []).
Proof.
  unfold compress_step. destruct (TAG s t); simpl; [by rewrite !app_nil_r|].
  destruct (set t =? 0), (is_active (par_upd s t (c_slist c) t)); simpl; by rewrite ?app_nil_r.
Qed.

Lemma compress_dead t c : ~ live s t → c_slist c t = 0 → compress_step s set t c = c.
Proof.
  intros Hnl Hz. unfold compress_step. destruct (TAG s t) eqn:Htag; [done|].
  assert (Hs : set t = 0) by (destruct (Z.eq_dec (set t) 0) as [|Hs]; [done|]; by apply set_live in Hs).
  rewrite Hs. unfold par_upd. rewrite Hz. simpl. rewrite Hz. simpl. by destruct c.
Qed.

Lemma compress_step_at t c j :
  live s t → c_slist (compress_step s set t c) j =
  let b := par1 s t (c_slist c t) j (c_slist c j) in
  if set t =? 0 then b else fold_left (cl1 j) (clude_list (CLUDES s t)) b.
Proof.
  intros [Hf Ht]. unfold compress_step. rewrite Ht. simpl.
  case_if; cbn [c_slist]; by rewrite ?clude_fold_at, par_upd_at.
Qed.

Lemma not_live t : (FLAGS s t =? 0) || TAG s t = true → ~ live s t.
Proof. intros H Hl. by rewrite (live_flags t Hl) in H. Qed.

(** Later steps only add smaller serials. *)
Lemma compress_mono k c t :
  (k < t)%nat →
  (t ∈ c_inc (for_down (compress_step s set) k 0 c) ↔ t ∈ c_inc c) ∧
  (t ∈ c_exc (for_down (compress_step s set) k 0 c) ↔ t ∈ c_exc c).
Proof.
  intros Hk. revert c. induction k as [|k IH]; intros c; cbn [for_down]; [done|].
  destruct (IH ltac:(lia) (compress_step s set (0 + S k) c)) as [-> ->].
  destruct (compress_step_lists (0 + S k) c) as [-> ->].
  split; rewrite elem_of_app; (split; [intros [?|Hin]; [done|]|by left]);
  case_if; (apply list_elem_of_singleton in Hin; lia) || by apply not_elem_of_nil in Hin.
Qed.

Lemma low_par b : Z.land (Z.lor b S_PAR) (Z.lor S_INC S_EXCL) = Z.land b (Z.lor S_INC S_EXCL).
Proof. rewrite Z.land_lor_distr_l. apply Z.lor_0_r. Qed.

Lemma par_low b sign :
  Z.land (Z.lor b (if sign >? 0 then S_INC else S_EXCL)) S_PAR = Z.land b S_PAR.
Proof. rewrite Z.land_lor_distr_l. case_if; apply Z.lor_0_r. Qed.

(** How the entry [b'] of the run with the lists relates to the entry [b] of
    the run without: equal off the lists, same ancestry on them. *)
Definition related (inc exc : list nat) (j : nat) (b b' : Z) : Prop :=
  Z.land b' S_PAR = Z.land b S_PAR ∧
  (j ∉ inc → j ∉ exc → b' = b) ∧
  (j ∈ inc → Z.land b' (Z.lor S_INC S_EXCL) = S_INC) ∧
  (j ∈ exc → j ∉ inc → Z.land b' (Z.lor S_INC S_EXCL) = S_EXCL).

Lemma related_par inc exc j b b' t bt bt' :
  Z.land bt' S_PAR = Z.land bt S_PAR → related inc exc j b b' →
  related inc exc j (par1 s t bt j b) (par1 s t bt' j b').
Proof.
  intros Ht (H1 & H2 & H3 & H4). unfold par1. rewrite Ht. case_if; [|done].
  split; [by rewrite !Z.land_lor_distr_l, H1|].
  split; [intros; by rewrite H2|]. rewrite low_par. split; [done|]. done.
Qed.

Lemma related_cl inc exc j cs b b' :
  related inc exc j b b' →
  related inc exc j (fold_left (cl1 j) cs b) (fold_left (cl1 j) cs b').
Proof.
  revert b b'. induction cs as [|[i sign] cs IH]; intros b b' Hr; cbn [fold_left]; [done|].
  apply IH. destruct Hr as (H1 & H2 & H3 & H4). unfold cl1.
  destruct (Nat.eqb_spec j i) as [->|]; [|done].
  destruct (decide (i ∈ inc)) as [Hi|Hi]; [|destruct (decide (i ∈ exc)) as [He|He]].
  - rewrite H3 by done. cbn [Z.eqb S_INC]. split; [|split_and!; [done|done|by intros]].
    case_if; [|done]. by rewrite par_low.
  - rewrite H4 by done. cbn [Z.eqb S_EXCL]. split; [|split_and!; [done|done|done]].
    case_if; [|done]. by rewrite par_low.
  - rewrite H2 by done. case_if; split_and!; by intros.
Qed.

Lemma related_active inc exc j b b' :
  related inc exc j b b' →
  is_active b' = if bool_decide (j ∈ inc) then true else if bool_decide (j ∈ exc) then false else is_active b.
Proof.
  intros (H1 & H2 & H3 & H4). unfold is_active.
  assert (Hs : ∀ b, Z.land (Z.land b (Z.lor S_INC S_EXCL)) S_INC = Z.land b S_INC ∧
                    Z.land (Z.land b (Z.lor S_INC S_EXCL)) S_EXCL = Z.land b S_EXCL).
  { intros. by rewrite <- !Z.land_assoc. }
  destruct (Hs b') as [Hi He]. clear Hs. case_bool_decide as Hin.
  - rewrite H3 in Hi by done. rewrite <- Hi. apply orb_true_r.
  - case_bool_decide as Hex; [|by rewrite H2].
    rewrite H4 in Hi, He by done. rewrite <- Hi. simpl. rewrite orb_false_r.
    rewrite Z.land_lor_distr_r, <- He. apply Z.eqb_neq. intros Hc.
    apply (f_equal (λ z, Z.testbit z 1)) in Hc. rewrite Z.lor_spec in Hc. simpl in Hc.
    by rewrite orb_true_r in Hc.
Qed.

Variable d : nat.
Hypothesis d_live : live s d.

Let fin := for_down (compress_step s set) (TABLE s) 0 (mkCmap (upd (λ _, 0) d S_PAR) [] []).

Lemma compress_disjoint t : t ∈ c_inc fin → set t ≠ 0 ∧ t ∉ c_exc fin.
Proof.
  assert (H : ∀ t, (t ∈ c_inc fin → set t ≠ 0) ∧ (t ∈ c_exc fin → set t = 0)).
  { unfold fin. apply (for_down_inv _ (λ _ c, ∀ t, (t ∈ c_inc c → set t ≠ 0) ∧ (t ∈ c_exc c → set t = 0))).
    - intros u. simpl. split; intros H; by apply not_elem_of_nil in H.
    - intros k c _ Hc u. destruct (compress_step_lists k c) as [-> ->]. destruct (Hc u) as [H1 H2].
      rewrite !elem_of_app. split; (intros [?|Hin]; [by auto|]).
      + destruct (Z.eqb_spec (set k) 0); rewrite ?andb_false_r in Hin; simpl in Hin; [by apply not_elem_of_nil in Hin|].
        case_if; [|by apply not_elem_of_nil in Hin]. by apply list_elem_of_singleton in Hin as ->.
      + destruct (Z.eqb_spec (set k) 0); rewrite ?andb_false_r in Hin; simpl in Hin; [|by apply not_elem_of_nil in Hin].
        case_if; [|by apply not_elem_of_nil in Hin]. by apply list_elem_of_singleton in Hin as ->. }
  intros Ht. destruct (H t) as [H1 H2]. split; [auto|]. intros He. by apply H1, H2.
Qed.

Definition dead_ok (c : cmap) : Prop :=
  ∀ j, ~ live s j → c_slist c j = 0 ∧ (j ∉ c_inc c) ∧ (j ∉ c_exc c).

Lemma dead_ok_step t c : dead_ok c → dead_ok (compress_step s set t c).
Proof.
  intros Hc. destruct (is_live_dec (s:=s) t) as [Hl|Hd%not_live].
  - intros j Hj. destruct (Hc j Hj) as (H1 & H2 & H3). split.
    + rewrite compress_step_at, (par1_nonlive Hwf) by done. simpl. case_if; [done|].
      rewrite cl1_other; [done|]. intros u sg Hu ->. by destruct (wf_cludes s Hwf _ _ _ Hl Hu).
    + assert (j ≠ t) by by intros ->. destruct (compress_step_lists t c) as [-> ->].
      rewrite !not_elem_of_app. split_and!; [done| |done|]; case_if;
      (by rewrite list_elem_of_singleton) || apply not_elem_of_nil.
  - rewrite compress_dead; [done|done|]. by apply Hc.
Qed.

Lemma compress_dead_ok : dead_ok fin.
Proof.
  unfold fin. apply (for_down_inv _ (λ _, dead_ok)).
  - intros j Hj. simpl. rewrite upd_ne by (by intros ->).
    split_and!; [done|apply not_elem_of_nil..].
  - intros t c _. apply dead_ok_step.
Qed.

(** The simulation: below [k] the entries are related, above it the reference
    agrees with the wanted set. *)
Definition comp_rel (k : nat) (c : cmap) (st : nat → Z) : Prop :=
  for_down (compress_step s set) k 0 c = fin ∧
  (∀ j, (j <= k)%nat → related (c_inc fin) (c_exc fin) j (c_slist c j) (st j)) ∧
  (∀ j, (k < j)%nat → is_active (st j) = negb (set j =? 0)) ∧
  dead_ok c ∧ (∀ j, ~ live s j → st j = 0) ∧
  (∀ j, j ∈ c_inc c ∨ j ∈ c_exc c → (k < j)%nat).

Lemma comp_rel_init :
  comp_rel (TABLE s) (mkCmap (upd (λ _, 0) d S_PAR) [] []) (seed_bits d 0 (c_inc fin) (c_exc fin)).
Proof.
  assert (Hz : ∀ j, ~ live s j → seed_bits d 0 (c_inc fin) (c_exc fin) j = 0).
  { intros j Hj. destruct (compress_dead_ok j Hj) as (_ & Hi & He).
    assert (j ≠ d) by by intros ->. unfold seed_bits. rewrite !bool_decide_eq_false_2 by done.
    by destruct (Nat.eqb_spec j d). }
  split; [done|]. split; [|split; [|split; [|split; [done|]]]].
  - intros j _. unfold related, seed_bits. cbn [c_slist negb andb Nat.eqb]. rewrite orb_false_r.
    rewrite !Z.land_lor_distr_l. unfold upd.
    destruct (Nat.eqb_spec j d) as [->|]; rewrite ?Z.lor_0_r;
    (split; [repeat case_bool_decide; done|]); split_and!; intros; repeat case_bool_decide; done.
  - intros j Hj. assert (Hnl : ~ live s j) by (intros Hl; pose proof (live_tip s j Hwf Hl); lia).
    rewrite Hz by done. destruct (Z.eqb_spec (set j) 0) as [|Hs]; [done|]. by apply set_live in Hs.
  - intros j Hj. cbn [c_slist c_inc c_exc]. rewrite upd_ne by (by intros ->).
    split_and!; [done|apply not_elem_of_nil..].
  - by intros j [H|H]; apply not_elem_of_nil in H.
Qed.

Lemma comp_rel_step t c st :
  (0 < t)%nat → comp_rel t c st → comp_rel (t - 1) (compress_step s set t c) (vstep s t st).
Proof.
  intros Ht (Hfin & Hrel & Hact & Hdead & Hst & Hbig).
  assert (Hfin' : for_down (compress_step s set) (t - 1) 0 (compress_step s set t c) = fin).
  { rewrite <- Hfin. destruct t as [|t]; [lia|]. replace (S t - 1)%nat with t by lia. done. }
  destruct (is_live_dec (s:=s) t) as [Hl|Hd%not_live].
  2:{ rewrite compress_dead in * by (done || by apply Hdead). rewrite (vstep_dead t st Hd).
      split; [done|]. split; [intros; apply Hrel; lia|].
      split; [|split; [done|]; split; [done|]; intros j Hj; specialize (Hbig j Hj); lia].
      intros j Hj. destruct (decide (j = t)) as [->|]; [|apply Hact; lia].
      rewrite Hst by done. destruct (Z.eqb_spec (set t) 0) as [|Hs]; [done|]. by apply set_live in Hs. }
  destruct (compress_mono (t - 1) (compress_step s set t c) t ltac:(lia)) as [Minc Mexc].
  rewrite Hfin' in Minc, Mexc. destruct (compress_step_lists t c) as [Linc Lexc].
  rewrite Linc, elem_of_app in Minc. rewrite Lexc, elem_of_app in Mexc.
  destruct Hl as [Hf Htag]. assert (Hl : live s t) by done. rewrite Htag in Minc, Mexc. cbn [negb andb] in *.
  rewrite par_upd_at, (par1_ge Hwf) in Minc, Mexc by done.
  assert (Hni : ~ t ∈ c_inc c) by (intros Hin; specialize (Hbig t (or_introl Hin)); lia).
  assert (Hne : ~ t ∈ c_exc c) by (intros Hin; specialize (Hbig t (or_intror Hin)); lia).
  assert (Hat : is_active (st t) = negb (set t =? 0)).
  { rewrite (related_active _ _ _ _ _ (Hrel t (le_n _))).
    destruct (set t =? 0), (is_active (c_slist c t)); cbn [negb andb] in *;
    pose proof (proj2 (list_elem_of_singleton t t) eq_refl); pose proof (not_elem_of_nil t);
    repeat case_bool_decide; tauto. }
  split; [done|]. split; [|split; [|split; [by apply dead_ok_step|split]]].
  - intros j Hj. rewrite compress_step_at, (vstep_at Hwf) by done. unfold mark1.
    rewrite Hat. cbv zeta. destruct (Hrel t (le_n _)) as [Hpar _].
    destruct (set t =? 0); cbn [negb]; [|apply related_cl]; apply related_par, Hrel; (done || lia).
  - intros j Hj. rewrite (vstep_ge Hwf) by lia.
    destruct (decide (j = t)) as [->|]; [done|]. apply Hact. lia.
  - intros j Hj. rewrite (vstep_nonlive Hwf) by done. by apply Hst.
  - rewrite Linc, Lexc. intros j Hj. rewrite !elem_of_app in Hj.
    destruct Hj as [[Hj|Hj]|[Hj|Hj]];
    [specialize (Hbig j (or_introl Hj)); lia| |specialize (Hbig j (or_intror Hj)); lia|];
    case_if; (apply list_elem_of_singleton in Hj; lia) || by apply not_elem_of_nil in Hj.
Qed.

(** The run of the reference from the computed lists gives the wanted set. *)
Lemma compress_run t :
  is_active (vrun s (seed_bits d 0 (c_inc fin) (c_exc fin)) t) = negb (set t =? 0).
Proof.
  assert (HP : comp_rel 0 fin (vrun s (seed_bits d 0 (c_inc fin) (c_exc fin)))).
  { apply (for_down_inv2 _ _ comp_rel); [apply comp_rel_init|].
    intros k c st Hk. apply comp_rel_step. lia. }
  destruct HP as (_ & _ & Hact & _ & Hdead & _).
  destruct (decide (0 < t)%nat) as [Ht|Ht]; [by apply Hact|].
  assert (t = 0%nat) as -> by lia.
  assert (Hnl : ~ live s 0) by (intros Hl; pose proof (live_pos s 0 Hl); lia).
  rewrite Hdead by done. destruct (Z.eqb_spec (set 0%nat) 0) as [|Hs]; [done|]. by apply set_live in Hs.
Qed.
End compress.

Lemma compressmap_view s d set :
  wf_graph s → live s d → (∀ t, set t ≠ 0 → live s t) →
  let '(inc, exc) := compressmap s d set in
  (∀ x, x ∈ inc ++ exc → live s x) ∧ (∀ x, x ∈ exc → x ∉ inc) ∧
  ∀ t, view_from s (seed_bits d 0 inc exc) t = negb (set t =? 0).
Proof.
  intros Hwf Hd Hset. unfold compressmap.
  set (fin := for_down (compress_step s set) (TABLE s) 0 _).
  pose proof (compress_dead_ok Hwf set Hset d Hd) as Hdead. fold fin in Hdead.
  split; [|split].
  - intros x Hx. destruct (is_live_dec (s:=s) x) as [|Hnl%not_live]; [done|].
    destruct (Hdead x Hnl) as (_ & ? & ?).
    rewrite elem_of_app, !elem_of_reverse in Hx. tauto.
  - intros x. rewrite !elem_of_reverse. intros He Hi.
    by destruct (compress_disjoint set d x Hi) as [_ ?].
  - intros t. unfold view_from. rewrite <- (compress_run Hwf set Hset d Hd t). fold fin.
    f_equal. apply vrun_ext; [done|]. intros j. unfold seed_bits. f_equal.
    by rewrite !(bool_decide_ext _ _ (elem_of_reverse _ _)).
Qed.

(** ** What a version is

    A specification without marks and passes.  From delta [j] a first entry of its
    include and exclude list for [t] includes or excludes [t]. *)
Fixpoint first_sign (cs : list (nat * Z)) (t : nat) : option bool :=
  match cs with
  | [] => None
  | (i, sign) :: cs => if (i =? t)%nat then Some (sign >? 0) else first_sign cs t
  end.

Definition clude_sign (s : sccs) (j t : nat) : option bool := first_sign (clude_list (CLUDES s j)) t.

(** [d] is [t] or descends from it, over parents and, in a file with merges,
    merge parents. *)
Inductive derives (s : sccs) (d : nat) : nat → Prop :=
  | drv_refl : derives s d d
  | drv_parent k : derives s d k → PARENT s k ≠ 0%nat → derives s d (PARENT s k)
  | drv_merge k : derives s d k → BKMERGE s = true → MERGE s k ≠ 0%nat → derives s d (MERGE s k).

(** [t] is included ([true]) or excluded: by the caller's lists, or else by the
    newest delta of the version that lists it. *)
Inductive listed (s : sccs) (V : nat → bool) (inc exc : list nat) (t : nat) : bool → Prop :=
  | listed_inc : t ∈ inc → listed s V inc exc t true
  | listed_exc : t ∈ exc → listed s V inc exc t false
  | listed_by j b : t ∉ inc → t ∉ exc → (t < j)%nat → V j = true → clude_sign s j t = Some b →
      (∀ k, (j < k)%nat → V k = true → clude_sign s k t = None) → listed s V inc exc t b.

(** The version with tips [ds]: what is included, and the ancestors of the tips
    that no list mentions.  Each delta depends on newer ones only. *)
Definition is_version (s : sccs) (ds inc exc : list nat) (V : nat → bool) : Prop :=
  ∀ t, (TREE < t)%nat →
    V t = true ↔ listed s V inc exc t true ∨ ((∀ b, ~ listed s V inc exc t b) ∧ ∃ d, d ∈ ds ∧ derives s d t).

Lemma listed_ext s V V' inc exc t b :
  (∀ j, (t < j)%nat → V j = V' j) → listed s V inc exc t b → listed s V' inc exc t b.
Proof.
  intros HV [H|H|j b' H1 H2 Hj Hv Hs Hk]; [by constructor|by constructor|].
  apply (listed_by _ _ _ _ _ j); try done; [by rewrite <- HV|]. intros k Hlt. rewrite <- HV by lia. by apply Hk.
Qed.

(** The specification has one solution. *)
Lemma is_version_unique s ds inc exc V V' n :
  is_version s ds inc exc V → is_version s ds inc exc V' → (∀ t, (n < t)%nat → V t = false ∧ V' t = false) →
  ∀ t, (TREE < t)%nat → V t = V' t.
Proof.
  intros H H' Hn. assert (Hall : ∀ m t, (n - t < m)%nat → (TREE < t)%nat → V t = V' t); [|eauto].
  induction m as [|m IH]; intros t Hm Ht; [lia|]. destruct (decide (n < t)%nat) as [Hlt|Hge].
  { by destruct (Hn t Hlt) as [-> ->]. }
  assert (Hnew : ∀ j, (t < j)%nat → V j = V' j).
  { intros j Hj. destruct (decide (n < j)%nat); [|apply IH; lia]. by destruct (Hn j) as [-> ->]. }
  assert (E : ∀ b, listed s V inc exc t b ↔ listed s V' inc exc t b).
  { intros b. split; apply listed_ext; [done|]. intros j Hj. symmetry. by apply Hnew. }
  apply eq_true_iff_eq. rewrite (H t Ht), (H' t Ht). setoid_rewrite E. done.
Qed.

(** ** The marks are the specification *)

(** What the two list bits say. *)
Definition low (b : Z) : option bool := if Z.testbit b 0 then Some true else if Z.testbit b 1 then Some false else None.

Lemma land_bit b n : 0 <= n → negb (Z.land b (2 ^ n) =? 0) = Z.testbit b n.
Proof.
  intros Hn. destruct (Z.testbit b n) eqn:E.
  - apply negb_true_iff, Z.eqb_neq. intros H. apply (f_equal (λ z, Z.testbit z n)) in H.
    rewrite Z.land_spec, Z.pow2_bits_true, E, Z.bits_0 in H by done. done.
  - apply negb_false_iff, Z.eqb_eq. apply Z.bits_inj'. intros i Hi. rewrite Z.land_spec, Z.pow2_bits_eqb, Z.bits_0 by done.
    destruct (Z.eqb_spec n i) as [<-|]; [by rewrite E|by rewrite andb_false_r].
Qed.

Lemma land_mask b m v : 0 <= m < 8 →
  (Z.land b m =? v) = (Z.land (Z.b2z (Z.testbit b 0) + 2 * Z.b2z (Z.testbit b 1) + 4 * Z.b2z (Z.testbit b 2)) m =? v).
Proof.
  intros Hm. assert (E : Z.land b m = Z.land (Z.b2z (Z.testbit b 0) + 2 * Z.b2z (Z.testbit b 1) + 4 * Z.b2z (Z.testbit b 2)) m);
    [|by rewrite E].
  apply Z.bits_inj'. intros i Hi. rewrite !Z.land_spec. destruct (decide (i < 3)) as [Hi3|Hi3].
  - apply (f_equal2 andb); [|done]. assert (i = 0 ∨ i = 1 ∨ i = 2) as [-> |[-> | ->]] by lia;
      by destruct (Z.testbit b 0), (Z.testbit b 1), (Z.testbit b 2).
  - rewrite (testbit_small m 3 i) by (change (2 ^ 3) with 8; lia). by rewrite !andb_false_r.
Qed.

Lemma is_active_low b : is_active b = match low b with Some x => x | None => Z.testbit b 2 end.
Proof.
  unfold is_active, low. rewrite (land_mask b (Z.lor S_PAR S_EXCL)), (land_mask b S_INC) by (by vm_compute).
  by destruct (Z.testbit b 0), (Z.testbit b 1), (Z.testbit b 2).
Qed.

Lemma cl1_low j b c : low (cl1 j b c) = match low b with Some x => Some x | None => if (fst c =? j)%nat then Some (snd c >? 0) else None end ∧
  Z.testbit (cl1 j b c) 2 = Z.testbit b 2.
Proof.
  destruct c as [i sign]. unfold cl1, low. cbn [fst snd]. rewrite Nat.eqb_sym. destruct (i =? j)%nat.
  2: { split; [|done]. by destruct (Z.testbit b 0), (Z.testbit b 1). }
  rewrite (land_mask b (Z.lor S_INC S_EXCL)) by (by vm_compute).
  destruct (Z.testbit b 0) eqn:E0, (Z.testbit b 1) eqn:E1, (Z.testbit b 2) eqn:E2, (sign >? 0);
    lazymatch goal with |- context [Z.land ?x ?m =? 0] =>
      let v := eval vm_compute in (Z.land x m =? 0) in change (Z.land x m =? 0) with v end;
    cbn iota; rewrite ?Z.lor_spec, ?E0, ?E1, ?E2; done.
Qed.

Lemma cludes_low j cs : ∀ b,
  low (fold_left (cl1 j) cs b) = match low b with Some x => Some x | None => first_sign cs j end ∧
  Z.testbit (fold_left (cl1 j) cs b) 2 = Z.testbit b 2.
Proof.
  induction cs as [|[i sign] cs IH]; intros b; cbn [fold_left first_sign]; [by destruct (low b)|].
  destruct (IH (cl1 j b (i, sign))) as [-> ->]. destruct (cl1_low j b (i, sign)) as [-> ->]. cbn [fst snd].
  destruct (low b); [done|]. by destruct (i =? j)%nat.
Qed.

(** A parent of [t] that passes on the ancestry. *)
Definition parent_of (s : sccs) (t j : nat) : bool :=
  negb (PARENT s t =? 0)%nat && ((j =? PARENT s t)%nat || (BKMERGE s && negb (MERGE s t =? 0)%nat && (j =? MERGE s t)%nat)).

Lemma par1_low s t bt j b : low (par1 s t bt j b) = low b ∧
  Z.testbit (par1 s t bt j b) 2 = Z.testbit b 2 || (Z.testbit bt 2 && parent_of s t j).
Proof.
  unfold par1, parent_of. change (Z.land bt S_PAR) with (Z.land bt (2 ^ 2)). rewrite (land_bit bt 2), <- andb_assoc by done.
  destruct (Z.testbit bt 2 && _); [|by rewrite orb_false_r]. unfold low. rewrite !Z.lor_spec. cbn. by rewrite !orb_false_r, orb_true_r.
Qed.

Lemma mark1_low s t bt j b :
  low (mark1 s t bt j b) = match low b with Some x => Some x | None => if is_active bt then clude_sign s t j else None end ∧
  Z.testbit (mark1 s t bt j b) 2 = Z.testbit b 2 || (Z.testbit bt 2 && parent_of s t j).
Proof.
  unfold mark1. destruct (par1_low s t bt j b) as [Hl Hp]. destruct (is_active bt).
  - destruct (cludes_low j (clude_list (CLUDES s t)) (par1 s t bt j b)) as [-> ->]. by rewrite Hl, Hp.
  - rewrite Hl, Hp. by destruct (low b).
Qed.

Section marks.
Context {s : sccs} (Hwf : wf_graph s) (st0 : nat → Z).

Abbreviation F := (vrun s st0).

(** The entry of [t] is its seed marked by the newer deltas in turn. *)
Definition marked (k t : nat) : Z :=
  fold_left (λ b j, if liveb s j then mark1 s j (F j) t b else b) (rev (seq (S k) (TABLE s - k))) (st0 t).

Lemma vrun_marked n : ∀ k t, (k + n = TABLE s)%nat → for_down (vstep s) n k st0 t = marked k t.
Proof.
  induction n as [|n IH]; intros k t Hk; unfold marked.
  { by replace (TABLE s - k)%nat with 0%nat by lia. }
  assert (HF : for_down (vstep s) n (S k) st0 (S k) = F (S k)).
  { symmetry. unfold vrun. replace (TABLE s) with (n + S k)%nat by lia. by apply (vrun_final Hwf). }
  replace (TABLE s - k)%nat with (S (TABLE s - S k)) by lia. cbn [seq rev]. rewrite fold_left_app. cbn [fold_left].
  fold (marked (S k) t). rewrite <- (IH (S k) t) by lia. replace (S n) with (n + 1)%nat by lia. rewrite for_down_add. cbn [for_down].
  replace (k + 1)%nat with (S k) by lia. destruct (liveb s (S k)) eqn:El.
  - apply liveb_spec in El. by rewrite (vstep_at Hwf), HF by done.
  - rewrite vstep_dead; [done|]. rewrite <- liveb_spec. congruence.
Qed.

Lemma vrun_at t : (t <= TABLE s)%nat → F t = marked t t.
Proof.
  intros Ht. rewrite <- (vrun_marked (TABLE s - t)) by lia. unfold vrun.
  replace (TABLE s) with ((TABLE s - t) + t)%nat at 1 by lia. by apply (vrun_final Hwf).
Qed.

(** What the newer deltas say of [t]: the newest that is active and lists it. *)
Fixpoint says (t n : nat) : option bool :=
  match n with
  | O => None
  | Datatypes.S n => if liveb s (t + S n) && is_active (F (t + S n))
            then match clude_sign s (t + S n) t with Some b => Some b | None => says t n end else says t n
  end.

Lemma says_some t n b : says t n = Some b ↔
  ∃ j, (t < j <= t + n)%nat ∧ liveb s j && is_active (F j) = true ∧ clude_sign s j t = Some b ∧
    ∀ k, (j < k <= t + n)%nat → liveb s k && is_active (F k) = true → clude_sign s k t = None.
Proof.
  induction n as [|n IH]; cbn [says]; [split; [done|]; intros (j & Hj & _); lia|].
  destruct (liveb s (t + S n) && is_active (F (t + S n))) eqn:Ea; [destruct (clude_sign s (t + S n) t) as [b'|] eqn:Ec|].
  - split.
    + intros [= <-]. exists (t + S n)%nat. split_and!; [lia|lia|done|done|]. intros. lia.
    + intros (j & Hj & H1 & H2 & H3). destruct (decide (j = t + S n)%nat) as [->|]; [congruence|].
      specialize (H3 (t + S n)%nat ltac:(lia) Ea). congruence.
  - rewrite IH. split; intros (j & Hj & H1 & H2 & H3); exists j.
    + split_and!; [lia|lia|done|done|]. intros k Hk. destruct (decide (k = t + S n)%nat) as [->|]; [done|]. apply H3. lia.
    + destruct (decide (j = t + S n)%nat) as [->|]; [congruence|]. split_and!; [lia|lia|done|done|]. intros k Hk. apply H3. lia.
  - rewrite IH. split; intros (j & Hj & H1 & H2 & H3); exists j.
    + split_and!; [lia|lia|done|done|]. intros k Hk. destruct (decide (k = t + S n)%nat) as [->|]; [congruence|]. apply H3. lia.
    + destruct (decide (j = t + S n)%nat) as [->|]; [congruence|]. split_and!; [lia|lia|done|done|]. intros k Hk. apply H3. lia.
Qed.

Lemma marked_low t n b0 :
  low (fold_left (λ b j, if liveb s j then mark1 s j (F j) t b else b) (rev (seq (S t) n)) b0) =
  match low b0 with Some x => Some x | None => says t n end.
Proof.
  revert b0. induction n as [|n IH]; intros b0; [cbn [says seq rev fold_left]; by destruct (low b0)|].
  rewrite seq_S, rev_app_distr. cbn [rev app fold_left says]. rewrite IH. replace (S t + n)%nat with (t + S n)%nat by lia.
  destruct (liveb s (t + S n)); cbn [andb]; [|done].
  destruct (mark1_low s (t + S n) (F (t + S n)) t b0) as [-> _]. destruct (low b0); [done|].
  destruct (is_active _); [|done]. by destruct (clude_sign _ _ _).
Qed.

Lemma marked_par t l b0 :
  Z.testbit (fold_left (λ b j, if liveb s j then mark1 s j (F j) t b else b) l b0) 2 = true ↔
  Z.testbit b0 2 = true ∨ ∃ j, j ∈ l ∧ live s j ∧ Z.testbit (F j) 2 = true ∧ parent_of s j t = true.
Proof.
  revert b0. induction l as [|x l IH]; intros b0; cbn [fold_left].
  { split; [by left|]. intros [|(j & Hj & _)]; [done|]. by apply not_elem_of_nil in Hj. }
  rewrite IH. setoid_rewrite elem_of_cons. pose proof (liveb_spec s x) as Hl. destruct (liveb s x).
  - destruct (mark1_low s x (F x) t b0) as [_ ->]. rewrite orb_true_iff, andb_true_iff. naive_solver.
  - naive_solver.
Qed.

Context (d m : nat) (inc exc : list nat).
Hypothesis Hst0 : ∀ t, st0 t = seed_bits d m inc exc t.
Hypothesis Hd : live s d.
Hypothesis Hm : m = 0%nat ∨ live s m.
Hypothesis Hlist : ∀ x, x ∈ inc ++ exc → live s x.
Hypothesis Hdis : ∀ x, x ∈ exc → x ∉ inc.

Definition tips : list nat := d :: (if (m =? 0)%nat then [] else [m]).

Lemma tips_live x : x ∈ tips → live s x.
Proof.
  unfold tips. rewrite elem_of_cons. intros [->|Hx]; [done|]. destruct (Nat.eqb_spec m 0) as [|Hm0].
  - by apply not_elem_of_nil in Hx.
  - apply list_elem_of_singleton in Hx as ->. by destruct Hm.
Qed.

Lemma seed_low t : low (st0 t) = if bool_decide (t ∈ inc) then Some true else if bool_decide (t ∈ exc) then Some false else None.
Proof. rewrite Hst0. unfold seed_bits. by repeat case_bool_decide; destruct (_ || _). Qed.

Lemma seed_par t : Z.testbit (st0 t) 2 = true ↔ t ∈ tips.
Proof.
  rewrite Hst0. unfold seed_bits, tips. rewrite elem_of_cons.
  assert (E : Z.testbit (Z.lor (if bool_decide (t ∈ inc) then S_INC else if bool_decide (t ∈ exc) then S_EXCL else 0)
    (if (t =? d)%nat || negb (m =? 0)%nat && (t =? m)%nat then S_PAR else 0)) 2 = (t =? d)%nat || negb (m =? 0)%nat && (t =? m)%nat)
    by (by repeat case_bool_decide; destruct (_ || _)).
  rewrite E, orb_true_iff, andb_true_iff, !Nat.eqb_eq. destruct (Nat.eqb_spec m 0) as [|Hm0]; cbn [negb].
  - rewrite elem_of_nil. naive_solver.
  - rewrite list_elem_of_singleton. naive_solver.
Qed.

Lemma parent_of_spec j t : parent_of s j t = true ↔
  PARENT s j ≠ 0%nat ∧ (t = PARENT s j ∨ BKMERGE s = true ∧ MERGE s j ≠ 0%nat ∧ t = MERGE s j).
Proof.
  unfold parent_of. rewrite andb_true_iff, orb_true_iff, !andb_true_iff, !negb_true_iff, !Nat.eqb_neq, !Nat.eqb_eq. naive_solver.
Qed.

Lemma derives_live x t : live s x → derives s x t → live s t.
Proof.
  intros Hx. induction 1 as [|k _ IH Hp|k _ IH _ Hp]; [done| |].
  - by apply (wf_parent s Hwf k).
  - by destruct (wf_merge s Hwf k IH Hp) as (_ & ? & _).
Qed.

(** The ancestry bit. *)
Lemma par_derives t : (t <= TABLE s)%nat → Z.testbit (F t) 2 = true ↔ ∃ x, x ∈ tips ∧ derives s x t.
Proof.
  intros Ht. split.
  - assert (Hall : ∀ n t, (TABLE s - t < n)%nat → (t <= TABLE s)%nat → Z.testbit (F t) 2 = true → ∃ x, x ∈ tips ∧ derives s x t); [|eauto].
    clear t Ht. induction n as [|n IH]; intros t Hn Ht; [lia|]. rewrite vrun_at by done. unfold marked. rewrite marked_par.
    intros [H|(j & Hj & Hl & Hb & Hp)]; [exists t; split; [by apply seed_par|constructor]|].
    apply list_elem_of_In, in_rev, in_seq in Hj.
    destruct (IH j) as (x & Hx & Hdr); [lia|lia|done|]. exists x. split; [done|].
    apply parent_of_spec in Hp as [Hp [->|(Hbk & Hmg & ->)]]; by econstructor.
  - intros (x & Hx & Hdr). pose proof (tips_live x Hx) as Hlx. induction Hdr as [|k Hdr IH Hp|k Hdr IH Hbk Hp].
    + rewrite vrun_at by done. unfold marked. rewrite marked_par. left. by apply seed_par.
    + pose proof (derives_live _ _ Hlx Hdr) as Hlk. pose proof (live_tip s k Hwf Hlk) as Hk. destruct (wf_parent s Hwf k Hlk Hp) as [Hlt _].
      rewrite vrun_at by done. unfold marked. rewrite marked_par. right. exists k. split_and!; [|done|apply IH; lia|].
      * apply list_elem_of_In, in_rev. rewrite rev_involutive. apply in_seq. lia.
      * apply parent_of_spec. split; [done|]. by left.
    + pose proof (derives_live _ _ Hlx Hdr) as Hlk. pose proof (live_tip s k Hwf Hlk) as Hk. destruct (wf_merge s Hwf k Hlk Hp) as (Hlt & _ & Hpk).
      rewrite vrun_at by done. unfold marked. rewrite marked_par. right. exists k. split_and!; [|done|apply IH; lia|].
      * apply list_elem_of_In, in_rev. rewrite rev_involutive. apply in_seq. lia.
      * apply parent_of_spec. split; [done|]. by right.
Qed.

Lemma active_live j : is_active (F j) = true → live s j.
Proof.
  intros Ha. destruct (is_live_dec (s:=s) j) as [|Hdead]; [done|]. exfalso.
  assert (Hnl : ~ live s j) by (intros Hl; by rewrite (live_flags j Hl) in Hdead).
  assert (HF : F j = 0); [|by rewrite HF in Ha]. unfold vrun. apply (for_down_inv _ (λ _ st, st j = 0)).
  - rewrite Hst0. unfold seed_bits.
    rewrite !bool_decide_eq_false_2 by (intros Hin; apply Hnl, Hlist, elem_of_app; auto).
    destruct (Nat.eqb_spec j d) as [->|]; [done|]. destruct (Nat.eqb_spec j m) as [->|]; [|by rewrite andb_false_r].
    destruct Hm as [->|]; [|done]. done.
  - intros t st _ H. by rewrite (vstep_nonlive Hwf).
Qed.

(** The list bits. *)
Lemma low_listed t b : (t <= TABLE s)%nat → low (F t) = Some b ↔ listed s (λ j, is_active (F j)) inc exc t b.
Proof.
  intros Ht. rewrite (vrun_at t Ht) at 1. unfold marked. rewrite marked_low, seed_low.
  case_bool_decide as Hi; [|case_bool_decide as He].
  - split; [intros [= <-]; by constructor|]. intros [|He|j b' H1]; [done|by destruct (Hdis _ He)|done].
  - split; [intros [= <-]; by constructor|]. intros [|He'|j b' H1 H2]; done.
  - rewrite says_some. split.
    + intros (j & Hj & Ha & Hs & Hk). apply andb_prop in Ha as [Hl Ha]. apply (listed_by _ _ _ _ _ j); try done; [lia|].
      intros k Hlt Hak. pose proof (active_live k Hak) as Hlk. pose proof (live_tip s k Hwf Hlk). apply Hk; [lia|].
      by rewrite (proj2 (liveb_spec s k) Hlk).
    + intros [|He'|j b' _ _ Hj Ha Hs Hk]; [done|done|]. pose proof (active_live j Ha) as Hlj. pose proof (live_tip s j Hwf Hlj).
      exists j. split_and!; [lia|lia| |done|].
      * by rewrite (proj2 (liveb_spec s j) Hlj).
      * intros k Hlt Hak. apply andb_prop in Hak as [_ Hak]. by apply Hk; [lia|].
Qed.

Lemma view_is_version : is_version s tips inc exc (view_from s st0).
Proof.
  intros t _. unfold view_from. destruct (decide (t <= TABLE s)%nat) as [Ht|Ht].
  - rewrite is_active_low. pose proof (λ b, low_listed t b Ht) as Hl. destruct (low (F t)) as [x|].
    + split.
      * intros ->. left. by apply Hl.
      * intros [H|[H _]]; [apply Hl in H; congruence|]. by destruct (H x); apply Hl.
    + rewrite (par_derives t Ht). split.
      * intros H. right. split; [|done]. intros b Hb. by apply Hl in Hb.
      * intros [H|[_ H]]; [by apply Hl in H|done].
  - split.
    + intros Ha. pose proof (live_tip s t Hwf (active_live t Ha)). lia.
    + intros H. exfalso. apply Ht, (live_tip s t Hwf). destruct H as [H|[_ (x & Hx & Hdr)]].
      * inversion H as [Hi| |j b' _ _ Hj Ha Hs Hk]; subst; [apply Hlist, elem_of_app; by left|].
        assert (Hin : ∃ sg, (t, sg) ∈ clude_list (CLUDES s j)).
        { clear -Hs. unfold clude_sign in Hs. induction (clude_list (CLUDES s j)) as [|[i sg] cs IH]; [done|]. cbn [first_sign] in Hs.
          destruct (Nat.eqb_spec i t) as [->|]; [exists sg; by left|]. destruct (IH Hs) as [sg' ?]. exists sg'. by right. }
        destruct Hin as [sg Hin]. by apply (wf_cludes s Hwf j t sg (active_live j Ha)).
      * eapply derives_live; [|exact Hdr]. by apply tips_live.
Qed.
End marks.

Lemma is_version_ext s ds inc exc V V' :
  (∀ t, (TREE < t)%nat → V t = V' t) → is_version s ds inc exc V → is_version s ds inc exc V'.
Proof.
  intros HV H t Ht. rewrite <- HV, (H t Ht) by done.
  assert (E : ∀ b, listed s V inc exc t b ↔ listed s V' inc exc t b).
  { intros b. split; apply listed_ext; intros j Hj; [|symmetry]; apply HV; lia. }
  setoid_rewrite E. done.
Qed.

(** ** Properties *)

(** C6. For any tip, merge parent and disjoint include and exclude lists of
    existing deltas of a well-formed table, [serialmap] succeeds and marks every
    delta above the root with 1 or 0, and the marked deltas are the version: a
    delta the caller includes is in it and one he excludes is not; of the others,
    the newest delta of the version that lists it, by the first entry for it in its
    include and exclude list, decides; and one that no delta of the version lists is
    in it exactly if a tip descends from it.  (The specification has one solution,
    [is_version_unique].) *)
Theorem serialmap_correct s d m iLst xLst inc exc :
  wf_graph s → live s d → (m = 0%nat ∨ live s m) → list_arg iLst inc → list_arg xLst exc →
  (∀ x, x ∈ inc ++ exc → live s x) → (∀ x, x ∈ exc → x ∉ inc) →
  ∃ sl, serialmap s d m iLst xLst = inl sl ∧ (∀ t, (TREE < t)%nat → sl t = 0 ∨ sl t = 1) ∧
    is_version s (tips d m) inc exc (λ t, negb (sl t =? 0)).
Proof.
  intros Hwf Hd Hm Hi Hx Hl Hdis.
  destruct (serialmap_view s d m iLst xLst inc exc) as (sl & Hs & Hv & _); [done..|]. exists sl. split_and!; [done| |].
  - intros t Ht. rewrite Hv by done. by destruct (view_from _ _ _); [right|left].
  - eapply is_version_ext; [|by apply (view_is_version Hwf (seed_bits d m inc exc) d m inc exc)].
    intros t Ht. rewrite Hv by done. by destruct (view_from _ _ _).
Qed.

Lemma serialmap_correct_witness :
  (∃ sl, serialmap ex_graph 6 0 None (Some ([2%nat], 0)) = inl sl ∧ map sl (seq 2 5) = [0; 0; 1; 1; 1]) ∧
  ∃ sl, serialmap ex_graph 6 0 None (Some ([2%nat], 0)) = inl sl ∧ (∀ t, (TREE < t)%nat → sl t = 0 ∨ sl t = 1) ∧
    is_version ex_graph (tips 6 0) [] [2%nat] (λ t, negb (sl t =? 0)).
Proof.
  split; [eexists; split; [reflexivity|vm_compute; reflexivity]|].
  apply (serialmap_correct ex_graph 6 0 None (Some ([2%nat], 0)) [] [2%nat]).
  - apply ex_graph_wf.
  - apply ex_graph_live. lia.
  - by left.
  - by right.
  - by left.
  - intros x ->%list_elem_of_singleton. apply ex_graph_live. lia.
  - intros x _. apply not_elem_of_nil.
Defined.

(** The round trip as one statement, for the components that call it. *)
Lemma compressmap_spec s d set :
  wf_graph s → live s d → (∀ t, set t ≠ 0 → live s t) →
  let '(inc, exc) := compressmap s d set in
  ∃ sl, serialmap s d 0 (Some (inc, 0)) (Some (exc, 0)) = inl sl ∧
    (∀ t, (TREE < t)%nat → sl t = Z.b2z (negb (set t =? 0))) ∧
    (set TREE ≠ 0 → sl TREE ≠ 0).
Proof.
  intros Hwf Hd Hset. pose proof (compressmap_view s d set Hwf Hd Hset) as H.
  destruct (compressmap s d set) as [inc exc]. destruct H as (Hlive & Hdis & Hview).
  destruct (serialmap_view s d 0 (Some (inc, 0)) (Some (exc, 0)) inc exc) as (sl & Heq & Ht & Hroot);
    [done|done|by left|by left|by left|done|done|].
  exists sl. split; [done|]. split; [intros t Hgt; by rewrite Ht, Hview|].
  intros Hs Hz. specialize (Hview 1%nat). unfold view_from in Hview. unfold TREE in *.
  rewrite <- Hroot, Hz in Hview. apply Z.eqb_neq in Hs. by rewrite Hs in Hview.
Qed.

(** C32. [compressmap] is a right inverse of [serialmap]: for any set of deltas
    and any basis delta, checking out the basis with the computed include and
    exclude lists succeeds and gives exactly that set (a set that holds the
    root keeps it; the root cannot be excluded). *)
Theorem compressmap_roundtrip s d set :
  wf_graph s → live s d → (∀ t, set t ≠ 0 → live s t) →
  let '(inc, exc) := compressmap s d set in
  ∃ sl, serialmap s d 0 (Some (inc, 0)) (Some (exc, 0)) = inl sl ∧
    (∀ t, (TREE < t)%nat → sl t = Z.b2z (negb (set t =? 0))) ∧
    (set TREE ≠ 0 → sl TREE ≠ 0).
Proof. exact (compressmap_spec s d set). Qed.

Definition ex_set (t : nat) : Z := if (t =? 1)%nat || (t =? 4)%nat || (t =? 6)%nat then 1 else 0.

Lemma compressmap_roundtrip_witness :
  compressmap ex_graph 5 ex_set = ([4%nat; 6%nat], [2%nat; 5%nat]) ∧
  let '(inc, exc) := compressmap ex_graph 5 ex_set in
  ∃ sl, serialmap ex_graph 5 0 (Some (inc, 0)) (Some (exc, 0)) = inl sl ∧
    (∀ t, (TREE < t)%nat → sl t = Z.b2z (negb (ex_set t =? 0))) ∧
    (ex_set TREE ≠ 0 → sl TREE ≠ 0).
Proof.
  split; [reflexivity|]. apply compressmap_roundtrip.
  - apply ex_graph_wf.
  - apply ex_graph_live. lia.
  - intros t Ht. assert (Hc : t = 1%nat ∨ t = 4%nat ∨ t = 6%nat).
    { unfold ex_set in Ht. destruct (Nat.eqb_spec t 1), (Nat.eqb_spec t 4), (Nat.eqb_spec t 6); simpl in Ht; auto; done. }
    apply ex_graph_live. lia.
Defined.
