(* ===== verification/Symdiff.v ===== *)
(** * Symdiff: the symmetric difference of two versions

    The upper half of src/src/libgraph.c.  [symdiff] runs two serial map
    computations at once in the bits of one byte per delta and stops as soon as
    the two sides agree on all remaining work; in expand mode it xors the
    difference of two versions into a set, in compress mode it computes the
    include/exclude list that realises a given difference. *)

From S2P Require Import Prelude CStr Sccs SerialMap.
From stdpp Require Import base numbers list sorting.
From Stdlib Require Import ZArith Lia.

Local Open Scope Z_scope.

Definition S_DIFF : Z := 0x01.

Definition SR_PAR : Z := 0x02.

Definition SR_INC : Z := 0x04.

Definition SR_EXCL : Z := 0x08.

Definition S_DUP : Z := 0x10.

Definition SL_PAR : Z := 0x20.

Definition SL_INC : Z := 0x40.

Definition SL_EXCL : Z := 0x80.

Definition ALEFT : Z := 0x10.

Definition ARIGHT : Z := 0x01.

Definition HIBIT : Z := 0x80000000.

Definition ACTIVE (x : Z) : Z :=
  Z.land (Z.lor (Z.land (Z.shiftr x 1) (Z.shiftr (Z.lnot x) 3)) (Z.shiftr x 2)) 0x11.

Definition XOR_ACTIVE (x : Z) : Z := Z.land (Z.lxor (Z.shiftr x 4) x) 1.

Definition IE (active bits sign : Z) : Z :=
  Z.shiftl (Z.land (Z.lnot (Z.lor (Z.shiftr bits 2) (Z.shiftr bits 3))) active)
           (if sign >? 0 then 2 else 3).

Definition S_DIFFERENT (x : Z) : bool :=
  negb (Z.land (Z.lxor x (Z.shiftr x 4)) (Z.lor (Z.lor SR_PAR SR_INC) SR_EXCL) =? 0).

(** The locals of [symdiff]; [y_ok] is false once an assert has failed. *)
Record sym := mkSym {
  y_slist : nat → Z;
  y_marked : Z;
  y_lower : nat;
  y_count : Z;
  y_cludes : list Z;
  y_dups : list Z;
  y_ok : bool
}.

Definition set_slist (y : sym) (sl : nat → Z) : sym :=
  mkSym sl (y_marked y) (y_lower y) (y_count y) (y_cludes y) (y_dups y) (y_ok y).

Definition add_marked (y : sym) (n : Z) : sym :=
  mkSym (y_slist y) (y_marked y + n) (y_lower y) (y_count y) (y_cludes y) (y_dups y) (y_ok y).

Definition add_count (y : sym) (n : Z) : sym :=
  mkSym (y_slist y) (y_marked y) (y_lower y) (y_count y + n) (y_cludes y) (y_dups y) (y_ok y).

Definition add_clude (y : sym) (e : Z) : sym :=
  mkSym (y_slist y) (y_marked y) (y_lower y) (y_count y) (y_cludes y ++ [e]) (y_dups y) (y_ok y).

Definition sym_assert (y : sym) (b : bool) : sym :=
  mkSym (y_slist y) (y_marked y) (y_lower y) (y_count y) (y_cludes y) (y_dups y) (y_ok y && b).

Definition update (d : nat) (newbits : Z) (y : sym) : sym :=
  let sl := y_slist y in
  let m := if S_DIFFERENT (sl d) then y_marked y - 1 else y_marked y in
  let sl := upd sl d (u8 (Z.lor (sl d) newbits)) in
  let m := if S_DIFFERENT (sl d) then m + 1 else m in
  mkSym sl m (if (d <? y_lower y)%nat then d else y_lower y)
        (y_count y) (y_cludes y) (y_dups y) (y_ok y).

(** The list part of [foundDup] (it can also print). *)
Definition foundDup (bits : Z) (dup : nat) (y : sym) : sym :=
  let e := if negb (Z.land bits SR_EXCL =? 0) then Z.lor (Z.of_nat dup) HIBIT else Z.of_nat dup in
  mkSym (y_slist y) (y_marked y) (y_lower y) (y_count y) (y_cludes y) (y_dups y ++ [e]) (y_ok y).

Section symdiff.
(** [expand]: the mode; [dups]: whether duplicates are wanted; [cludeslist]: the
    alternative include/exclude strings. *)
Variables (s : sccs) (leftlist : list nat) (right : nat) (dups expand : bool)
          (cludeslist : option (nat → cstr)).

(** One entry of the include/exclude list of [d]. *)
Definition sym_clude (d : nat) (active : Z) (y : sym) (c : nat * Z) : sym :=
  let '(e, sign) := c in
  let bits := y_slist y e in
  let newbits := u8 (IE active bits sign) in
  let y := update e newbits y in
  if negb dups then y else
  if (d =? right)%nat then
    if negb (Z.land bits S_DUP =? 0) then foundDup bits e y
    else add_marked (set_slist y (upd (y_slist y) e (Z.lor (y_slist y e) S_DUP))) 1
  else if negb (Z.land active ARIGHT =? 0) && negb (Z.land bits S_DUP =? 0) then
    let y := if eqb (negb (sign >? 0)) (Z.land bits SR_INC =? 0) then foundDup bits e y else y in
    add_marked (set_slist y (upd (y_slist y) e (Z.land (y_slist y e) (Z.lnot S_DUP)))) (-1)
  else y.

Definition cludes_of (d : nat) : cstr :=
  match cludeslist with Some f => f d | None => CLUDES s d end.

Definition sym_parents (d : nat) (bits : Z) (y : sym) : sym :=
  let newbits := Z.land bits (Z.lor SL_PAR SR_PAR) in
  if newbits =? 0 then y else
  let y := if (PARENT s d =? 0)%nat then y else update (PARENT s d) newbits y in
  if BKMERGE s && negb (MERGE s d =? 0)%nat then update (MERGE s d) newbits y else y.

(** Expand: xor the difference at [d] into the set and count the change. *)
Definition sym_expand (d : nat) (bits active : Z) (y : sym) : sym :=
  let y := set_slist y (upd (y_slist y) d (Z.land bits S_DIFF)) in
  if XOR_ACTIVE active =? 0 then y else
  let v := Z.lxor (Z.land bits S_DIFF) S_DIFF in
  add_count (set_slist y (upd (y_slist y) d v)) (if v =? 0 then -1 else 1).

(** Compress: flip the right side where the wanted difference is not there;
    returns the new [active] too. *)
Definition sym_compress (d : nat) (bits active : Z) (y : sym) : sym * Z :=
  let y := set_slist y (upd (y_slist y) d 0) in
  let y := if Z.land bits S_DIFF =? 0 then y else add_marked y (-1) in
  if Z.lxor (Z.land bits S_DIFF) (XOR_ACTIVE active) =? 0 then (y, active) else
  let active := Z.lxor active ARIGHT in
  let e := if negb (Z.land active ARIGHT =? 0) then Z.of_nat d else Z.lor (Z.of_nat d) HIBIT in
  (add_clude y e, active).

Definition sym_body (d : nat) (y : sym) : sym :=
  if (FLAGS s d =? 0) || TAG s d then y else
  let bits := y_slist y d in
  if bits =? 0 then y else
  let y := if S_DIFFERENT bits then add_marked y (-1) else y in
  let y := sym_assert y ((Z.land (FLAGS s d) D_GONE =? 0) ||
             (negb expand && match leftlist with [] => false | l :: _ => (d =? l)%nat end)) in
  let active := ACTIVE bits in
  let '(y, active) := if expand then (sym_expand d bits active y, active)
                      else sym_compress d bits active y in
  let y := if Z.land bits S_DUP =? 0 then y else
           let y := add_marked y (-1) in
           if eqb (Z.land bits SR_PAR =? 0) (Z.land bits SR_INC =? 0)
           then foundDup bits d y else y in
  let y := sym_parents d bits y in
  if active =? 0 then y else
  fold_left (sym_clude d active) (clude_list (cludes_of d)) y.

(** [for (d = start; (d >= TREE(s)) && marked; d--)]; returns the final [d]. *)
Fixpoint sym_loop (d : nat) (y : sym) : nat * sym :=
  match d with
  | O => (O, y)
  | S d' => if y_marked y =? 0 then (d, y) else sym_loop d' (sym_body d y)
  end.

Fixpoint sym_left (ls : list nat) (start : nat) (y : sym) : nat * sym :=
  match ls with
  | [] => (start, y)
  | d :: ls => sym_left ls (if (start <? d)%nat then d else start) (update d SL_PAR y)
  end.

(** [for (; d >= lower; d--) slist[d] &= S_DIFF] *)
Definition sym_clean (d lower : nat) (sl : nat → Z) : nat → Z :=
  for_down (λ j sl, upd sl j (Z.land (sl j) S_DIFF)) (S d - lower) (lower - 1) sl.

Definition symdiff (slist : nat → Z) (count : Z) : sym :=
  let y := mkSym slist (if expand then 0 else count) (TABLE s) 0 [] [] (expand || negb (right =? 0)%nat) in
  let '(start, y) := sym_left leftlist 0 y in
  let '(start, y) := if (right =? 0)%nat then (start, y)
                     else (if (start <? right)%nat then right else start, update right SR_PAR y) in
  let '(d, y) := sym_loop start y in
  let y := sym_assert y (y_marked y =? 0) in
  if negb (d =? 0)%nat && negb (y_lower y =? 0)%nat
  then set_slist y (sym_clean d (y_lower y) (y_slist y)) else y.
End symdiff.

Definition symdiff_expand (s : sccs) (leftlist : list nat) (right : nat) (slist : nat → Z) : sym :=
  symdiff s leftlist right false true None slist (-1).

(** Whether [d] has duplicates, and the array as [symdiff] leaves it. *)
Definition graph_hasDups (s : sccs) (d : nat) (slist : nat → Z) : bool * (nat → Z) :=
  let left := if (PARENT s d =? 0)%nat then [] else [PARENT s d] in
  let y := symdiff s left d true true None slist (-1) in
  (match y_dups y with [] => false | _ => true end, y_slist y).

(** The array is allocated once and passed from delta to delta. *)
Definition graph_check_step (s : sccs) (acc : bool * (nat → Z)) (d : nat) : bool * (nat → Z) :=
  let '(ret, slist) := acc in
  if TAG s d || negb (Z.land (FLAGS s d) D_GONE =? 0) ||
     ((MERGE s d =? 0)%nat && match CLUDES s d with [] => true | _ => false end)
  then (ret, slist)
  else let '(dup, slist) := graph_hasDups s d slist in (dup || ret, slist).

Definition graph_check (s : sccs) : bool :=
  fst (fold_left (graph_check_step s) (seq TREE (TABLE s)) (false, λ _, 0)).

(** The serials an entry list stands for: includes, or excludes ([HIBIT]). *)
Definition sel_cludes (exclude : bool) (l : list Z) : list nat :=
  map (λ e, Z.to_nat (Z.land e (HIBIT - 1)))
      (filter (λ e, Is_true (eqb exclude (negb (Z.land e HIBIT =? 0)))) l).

Definition newer (x y : nat) : Prop := (y <= x)%nat.

#[export] Instance newer_dec : RelDecision newer := λ x y, decide (y <= x)%nat.

#[export] Instance newer_total : Total newer.
Proof. intros x y. unfold newer. lia. Qed.

(** [sortArray(l, serial_sortrev)]: newest first. *)
Definition serial_sortrev (l : list nat) : list nat := merge_sort newer l.

(** The text [comp] stores: includes then excludes, newest first. *)
Definition cludes_text (l : list Z) : cstr :=
  saveNums (map (λ e, (Z.of_nat e, 1)) (serial_sortrev (sel_cludes false l)) ++
            map (λ e, (Z.of_nat e, -1)) (serial_sortrev (sel_cludes true l))).

(** [comp]: the new graph and the map left in [slist]. *)
Definition comp (s : sccs) (leftlist : list nat) (right : nat) (dups : list Z)
    (slist : nat → Z) (count : Z) : sccs * sym :=
  let s := CLUDES_SET s right [] in
  let y := symdiff s leftlist right false false None slist count in
  let l := y_cludes y ++ dups in
  (match l with [] => s | _ => CLUDES_SET s right (cludes_text l) end, y).

Definition symdiff_compress (s : sccs) (leftlist : list nat) (right : nat)
    (slist : nat → Z) (count : Z) : sccs * sym := comp s leftlist right [] slist count.

(** ** The two runs in one byte *)

(** The left and the right entry of a byte, in the bits of [serialmap]. *)
Definition lb (x : Z) : Z :=
  Z.b2z (Z.testbit x 6) + 2 * Z.b2z (Z.testbit x 7) + 4 * Z.b2z (Z.testbit x 5).

Definition rb (x : Z) : Z :=
  Z.b2z (Z.testbit x 2) + 2 * Z.b2z (Z.testbit x 3) + 4 * Z.b2z (Z.testbit x 1).

Definition par_mark (p : bool) (b : Z) : Z := if p then Z.lor b S_PAR else b.

Definition ie_mark (active sign : bool) (b : Z) : Z :=
  if active && (Z.land b (Z.lor S_INC S_EXCL) =? 0)
  then Z.lor b (if sign then S_INC else S_EXCL) else b.

Definition bit2 (l r : bool) (kl kr : Z) : Z := (if l then kl else 0) + (if r then kr else 0).

(** What one byte stands for: left entry, right entry, the difference bit; no
    duplicate mark. *)
Definition byte_of (x l r s : Z) : Prop :=
  0 <= x < 256 ∧ lb x = l ∧ rb x = r ∧ Z.land x S_DIFF = s ∧ Z.land x S_DUP = 0.

Definition byte_facts (x : Z) : bool :=
  let l := lb x in
  let r := rb x in
  (ACTIVE x =? bit2 (is_active l) (is_active r) ALEFT ARIGHT) &&
  eqb (S_DIFFERENT x) (negb (l =? r)) &&
  (Z.land x (Z.lor SL_PAR SR_PAR) =?
     bit2 (negb (Z.land l S_PAR =? 0)) (negb (Z.land r S_PAR =? 0)) SL_PAR SR_PAR) &&
  forallb (λ '(pl, pr),
    let y := u8 (Z.lor x (bit2 pl pr SL_PAR SR_PAR)) in
    (lb y =? par_mark pl l) && (rb y =? par_mark pr r) &&
    (Z.land y S_DIFF =? Z.land x S_DIFF) && (Z.land y S_DUP =? Z.land x S_DUP) &&
    (0 <=? y) && (y <? 256))
    [(false, false); (false, true); (true, false); (true, true)] &&
  forallb (λ '((al, ar, sg) : bool * bool * bool),
    let y := u8 (Z.lor x (u8 (IE (bit2 al ar ALEFT ARIGHT) x (if sg then 1 else -1)))) in
    (lb y =? ie_mark al sg l) && (rb y =? ie_mark ar sg r) &&
    (Z.land y S_DIFF =? Z.land x S_DIFF) && (Z.land y S_DUP =? Z.land x S_DUP) &&
    (0 <=? y) && (y <? 256))
    [(false, false, false); (false, true, false); (true, false, false); (true, true, false);
     (false, false, true); (false, true, true); (true, false, true); (true, true, true)].

Lemma byte_facts_all : forallb (λ n, byte_facts (Z.of_nat n)) (seq 0 256) = true.
Proof. vm_compute. reflexivity. Qed.

Lemma byte_fact x : 0 <= x < 256 → byte_facts x = true.
Proof.
  intros Hx. pose proof byte_facts_all as H. rewrite forallb_forall in H.
  specialize (H (Z.to_nat x)). rewrite Z2Nat.id in H by lia. apply H, in_seq. lia.
Qed.

Section bytes.
Context {x l r sd : Z} (Hx : byte_of x l r sd).

Lemma byte_parts :
  ACTIVE x = bit2 (is_active l) (is_active r) ALEFT ARIGHT ∧
  S_DIFFERENT x = negb (l =? r) ∧
  Z.land x (Z.lor SL_PAR SR_PAR) =
     bit2 (negb (Z.land l S_PAR =? 0)) (negb (Z.land r S_PAR =? 0)) SL_PAR SR_PAR ∧
  (∀ pl pr : bool, byte_of (u8 (Z.lor x (bit2 pl pr SL_PAR SR_PAR))) (par_mark pl l) (par_mark pr r) sd) ∧
  (∀ (al ar : bool) (sg : Z), byte_of (u8 (Z.lor x (u8 (IE (bit2 al ar ALEFT ARIGHT) x sg))))
                 (ie_mark al (sg >? 0) l) (ie_mark ar (sg >? 0) r) sd).
Proof.
  destruct Hx as (Hr & <- & <- & <- & Hd). pose proof (byte_fact x Hr) as H.
  unfold byte_facts in H. cbv zeta in H.
  apply andb_prop in H as [H H5]. apply andb_prop in H as [H H4].
  apply andb_prop in H as [H H3]. apply andb_prop in H as [H1 H2].
  apply Z.eqb_eq in H1, H3. apply eqb_prop in H2. rewrite forallb_forall in H4, H5.
  split_and!; [done..| |].
  - intros pl pr. specialize (H4 (pl, pr) ltac:(destruct pl, pr; simpl; auto)). cbv beta iota zeta in H4.
    boolify. unfold byte_of. split_and!; (done || lia).
  - intros al ar sg.
    assert (Hs : IE (bit2 al ar ALEFT ARIGHT) x sg =
                 IE (bit2 al ar ALEFT ARIGHT) x (if sg >? 0 then 1 else -1)).
    { unfold IE. by destruct (sg >? 0). }
    rewrite Hs. specialize (H5 (al, ar, sg >? 0) ltac:(destruct al, ar, (sg >? 0); simpl; tauto)).
    cbv beta iota zeta in H5. boolify. unfold byte_of. split_and!; (done || lia).
Qed.
End bytes.

(** ** Counting entries *)

Definition different (sl : nat → Z) (j : nat) : Z := Z.b2z (S_DIFFERENT (sl j)).

(** ** Updates below the current delta *)

Section core.
Variable s0 : nat → Z.

(** The entries up to [n] of [y] carry the two runs, [y_marked] counts those on
    which the runs differ plus [k], and every entry that is not as it was lies
    at [y_lower] or above. *)
Record core (n : nat) (k : Z) (y : sym) (stL stR : nat → Z) : Prop := {
  core_byte : ∀ j, (j <= n)%nat → byte_of (y_slist y j) (stL j) (stR j) (s0 j);
  core_marked : y_marked y = msum n (different (y_slist y)) + k;
  core_lower : ∀ j, (j <= n)%nat → y_slist y j ≠ s0 j → (y_lower y <= j)%nat;
  core_pos : (1 <= y_lower y)%nat
}.

(** What updates at or below [n] leave alone. *)
Record frame (n : nat) (y y' : sym) : Prop := {
  frame_slist : ∀ j, (n < j)%nat → y_slist y' j = y_slist y j;
  frame_count : y_count y' = y_count y;
  frame_cludes : y_cludes y' = y_cludes y;
  frame_ok : y_ok y' = y_ok y
}.

#[export] Instance frame_preorder n : PreOrder (frame n).
Proof.
  split; [by intros y|]. intros x y z [H1 H2 H3 H4] [G1 G2 G3 G4].
  split; [|congruence..]. intros. by rewrite G1, H1.
Qed.

Lemma core_ext n k y stL stR stL' stR' :
  core n k y stL stR → (∀ j, (j <= n)%nat → stL' j = stL j) → (∀ j, (j <= n)%nat → stR' j = stR j) →
  core n k y stL' stR'.
Proof. intros [H1 H2 H3 H4] HL HR. split; [|done..]. intros. rewrite HL, HR by done. auto. Qed.

Lemma update_core n k y stL stR e nb l r :
  core n k y stL stR → (1 <= e <= n)%nat →
  byte_of (u8 (Z.lor (y_slist y e) nb)) l r (s0 e) →
  core n k (update e nb y) (upd stL e l) (upd stR e r) ∧ frame n y (update e nb y).
Proof.
  intros [H1 H2 H3 H4] He Hb. split.
  - unfold update. split; cbn [y_slist y_marked y_lower].
    + intros j Hj. unfold upd. destruct (Nat.eqb_spec j e) as [->|]; [done|]. auto.
    + rewrite (msum_ext n (different (upd (y_slist y) e (u8 (Z.lor (y_slist y e) nb))))
        (upd (different (y_slist y)) e (Z.b2z (S_DIFFERENT (u8 (Z.lor (y_slist y e) nb)))))).
      * rewrite msum_upd by done. rewrite upd_eq. unfold different at 2.
        destruct (S_DIFFERENT (y_slist y e)), (S_DIFFERENT (u8 _)); cbn [Z.b2z]; lia.
      * intros j _. unfold different, upd. by destruct (j =? e)%nat.
    + intros j Hj Hne. unfold upd in Hne. destruct (Nat.eqb_spec j e) as [->|].
      * case_if; boolify; lia.
      * specialize (H3 j Hj Hne). case_if; boolify; lia.
    + case_if; boolify; lia.
  - split; [|done..]. intros j Hj. unfold update. cbn [y_slist]. apply upd_ne. lia.
Qed.
End core.

Section steps.
Context {s : sccs} (Hwf : wf_graph s) (s0 : nat → Z).

Lemma sym_parents_core d k y stL stR bits :
  live s d → core s0 (d - 1) k y stL stR → byte_of bits (stL d) (stR d) (s0 d) →
  core s0 (d - 1) k (sym_parents s d bits y) (par_upd s d stL) (par_upd s d stR) ∧
  frame (d - 1) y (sym_parents s d bits y).
Proof.
  intros Hl Hc Hb. destruct (byte_parts Hb) as (_ & _ & Hp & _ & _). unfold sym_parents. rewrite Hp.
  set (pl := negb (Z.land (stL d) S_PAR =? 0)) in *. set (pr := negb (Z.land (stR d) S_PAR =? 0)) in *.
  assert (Hm : ∀ y stL stR e, core s0 (d - 1) k y stL stR → (1 <= e < d)%nat →
    core s0 (d - 1) k (update e (bit2 pl pr SL_PAR SR_PAR) y)
      (upd stL e (par_mark pl (stL e))) (upd stR e (par_mark pr (stR e))) ∧
    frame (d - 1) y (update e (bit2 pl pr SL_PAR SR_PAR) y)).
  { intros y1 L1 R1 e Hc1 He. apply update_core; [done|lia|].
    apply (byte_parts (core_byte s0 _ _ _ _ _ Hc1 e ltac:(lia))). }
  assert (Hpar : ∀ (p : bool) (st : nat → Z), p = negb (Z.land (st d) S_PAR =? 0) → ∀ j,
    par_upd s d st j =
    if negb (PARENT s d =? 0)%nat && ((j =? PARENT s d)%nat || (BKMERGE s && negb (MERGE s d =? 0)%nat && (j =? MERGE s d)%nat))
    then par_mark p (st j) else st j).
  { intros p st -> j. rewrite par_upd_at. unfold par1, par_mark. rewrite <- andb_assoc.
    destruct (negb (Z.land (st d) S_PAR =? 0)); simpl; [done|]. by case_if. }
  assert (Hid : ∀ p (b : Z), par_mark p (par_mark p b) = par_mark p b).
  { intros [] b; [apply lor_idem4|done]. }
  destruct (Z.eqb_spec (bit2 pl pr SL_PAR SR_PAR) 0) as [H0|H0].
  { assert (pl = false ∧ pr = false) as [Hl0 Hr0] by (destruct pl, pr; done).
    split; [|done]. eapply core_ext; [done|..]; intros j _;
    rewrite (Hpar false) by done; unfold par_mark; by case_if. }
  destruct (Nat.eqb_spec (PARENT s d) 0) as [HP|HP].
  { assert (HM : (MERGE s d =? 0)%nat = true).
    { apply Nat.eqb_eq. destruct (decide (MERGE s d = 0%nat)) as [|HM]; [done|].
      by destruct (wf_merge s Hwf d Hl HM) as (_ & _ & ?). }
    rewrite HM, andb_false_r. split; [|done]. eapply core_ext; [done|..]; intros j _.
    - by rewrite (Hpar pl) by done.
    - by rewrite (Hpar pr) by done. }
  destruct (wf_parent s Hwf d Hl HP) as [HPlt HPl]. pose proof (live_pos _ _ HPl).
  destruct (Hm y stL stR (PARENT s d) Hc ltac:(lia)) as [C1 F1].
  destruct (BKMERGE s && negb (MERGE s d =? 0)%nat) eqn:HB.
  - apply andb_prop in HB as [HB1 HB2]. apply negb_true_iff, Nat.eqb_neq in HB2.
    destruct (wf_merge s Hwf d Hl HB2) as (HMlt & HMl & _). pose proof (live_pos _ _ HMl).
    destruct (Hm _ _ _ (MERGE s d) C1 ltac:(lia)) as [C2 F2]. split; [|by etrans].
    eapply core_ext; [exact C2|..]; intros j _;
    [rewrite (Hpar pl) by done|rewrite (Hpar pr) by done];
    cbn [negb andb]; unfold upd;
    (destruct (Nat.eqb_spec j (MERGE s d)) as [->|]; [|rewrite orb_false_r; by destruct (Nat.eqb_spec j (PARENT s d)) as [->|]]);
    rewrite orb_true_r; (destruct (Nat.eqb_spec (MERGE s d) (PARENT s d)) as [<-|]; [by rewrite Hid|done]).
  - split; [|done]. eapply core_ext; [exact C1|..]; intros j _;
    [rewrite (Hpar pl) by done|rewrite (Hpar pr) by done]; cbn [negb andb]; unfold upd;
    rewrite orb_false_r; by destruct (Nat.eqb_spec j (PARENT s d)) as [->|].
Qed.

Definition ie_upd (a : bool) (st : nat → Z) (c : nat * Z) : nat → Z :=
  if a then clude_upd st c else st.

Lemma sym_cludes_core n k right al ar d cs y stL stR :
  (∀ e sg, (e, sg) ∈ cs → (1 <= e <= n)%nat) → core s0 n k y stL stR →
  let y' := fold_left (sym_clude right false d (bit2 al ar ALEFT ARIGHT)) cs y in
  core s0 n k y' (fold_left (ie_upd al) cs stL) (fold_left (ie_upd ar) cs stR) ∧ frame n y y'.
Proof.
  revert y stL stR. induction cs as [|[e sg] cs IH]; intros y stL stR Hcs Hc; cbn [fold_left]; [done|].
  assert (He : (1 <= e <= n)%nat) by (eapply Hcs; by left).
  unfold sym_clude at 2 4. cbn [negb].
  destruct (update_core s0 n k y stL stR e (u8 (IE (bit2 al ar ALEFT ARIGHT) (y_slist y e) sg))
    (ie_mark al (sg >? 0) (stL e)) (ie_mark ar (sg >? 0) (stR e))) as [C1 F1]; [done|done|..].
  { apply (byte_parts (core_byte s0 _ _ _ _ _ Hc e ltac:(lia))). }
  destruct (IH (update e (u8 (IE (bit2 al ar ALEFT ARIGHT) (y_slist y e) sg)) y)
    (ie_upd al stL (e, sg)) (ie_upd ar stR (e, sg))) as [C2 F2].
  - intros e' sg' Hin. eapply Hcs. by right.
  - eapply core_ext; [exact C1|..]; intros j _; unfold ie_upd, upd, ie_mark;
    [destruct al|destruct ar]; cbn [andb]; rewrite ?clude_upd_at; unfold cl1;
    by destruct (Nat.eqb_spec j e) as [->|].
  - split; [done|]. by etrans.
Qed.

Lemma ie_upd_fold a cs st :
  fold_left (ie_upd a) cs st = if a then fold_left clude_upd cs st else st.
Proof. destruct a; [done|]. by induction cs. Qed.
End steps.

(** ** Expand mode *)

Section expand.
Context {s : sccs} (Hwf : wf_graph s) (s0 : nat → Z) (leftlist : list nat) (right : nat).
Hypothesis s0_bits : ∀ j, s0 j = 0 ∨ s0 j = 1.
Hypothesis not_gone : ∀ d, live s d → Z.land (FLAGS s d) D_GONE = 0.

(** The answer at [j]: the old entry, flipped where the two runs disagree. *)
Definition flip (stL stR : nat → Z) (j : nat) : Z :=
  Z.lxor (s0 j) (Z.b2z (xorb (is_active (stL j)) (is_active (stR j)))).

Definition gained (d : nat) (y : sym) (j : nat) : Z :=
  if (d <? j)%nat then y_slist y j - s0 j else 0.

Record exp_inv (d : nat) (y : sym) (stL stR : nat → Z) : Prop := {
  ei_core : core s0 d 0 y stL stR;
  ei_done : ∀ j, (d < j)%nat → y_slist y j = flip stL stR j;
  ei_dead : ∀ j, ~ live s j → stL j = 0 ∧ stR j = 0;
  ei_count : y_count y = msum (TABLE s) (gained d y);
  ei_ok : y_ok y = true
}.

Abbreviation body := (sym_body s leftlist right false true None).

(** Nothing happens at [d]: its entry is already final. *)
Lemma exp_idle d y stL stR :
  (1 <= d)%nat → exp_inv d y stL stR → stL d = 0 → stR d = 0 → exp_inv (d - 1) y stL stR.
Proof.
  intros Hd [[C1 C2 C3 C4] H2 H3 H4 H5] HL HR.
  assert (Hb : y_slist y d = s0 d).
  { destruct (C1 d (le_n _)) as (Hr & Hl & Hrr & Hs & Hdup). rewrite HL in Hl. rewrite HR in Hrr.
    rewrite <- Hs. revert Hl Hrr Hdup. clear - Hr. intros Hl Hrr Hdup.
    assert (H : ∀ b, 1 <= b < 8 → Z.testbit (y_slist y d) b = false).
    { assert (Hdd : Z.testbit (y_slist y d) 4 = false).
      { apply (f_equal (λ z, Z.testbit z 4)) in Hdup. rewrite Z.land_spec, Z.bits_0 in Hdup.
        cbn in Hdup. by rewrite andb_true_r in Hdup. }
      unfold lb, rb in *. intros b Hbb.
      destruct (Z.testbit (y_slist y d) 1) eqn:?, (Z.testbit (y_slist y d) 2) eqn:?,
        (Z.testbit (y_slist y d) 3) eqn:?; cbn [Z.b2z] in Hrr; try lia.
      destruct (Z.testbit (y_slist y d) 5) eqn:?, (Z.testbit (y_slist y d) 6) eqn:?,
        (Z.testbit (y_slist y d) 7) eqn:?; cbn [Z.b2z] in Hl; try lia.
      assert (b = 1 ∨ b = 2 ∨ b = 3 ∨ b = 4 ∨ b = 5 ∨ b = 6 ∨ b = 7) as Hc by lia.
      by repeat destruct Hc as [->|Hc]; subst. }
    apply Z.bits_inj'. intros b Hb0. rewrite Z.land_spec.
    destruct (decide (b = 0)) as [->|]; [by rewrite andb_true_r|].
    change S_DIFF with (Z.ones 1). rewrite Z.ones_spec_high, andb_false_r by lia.
    destruct (decide (b < 8)); [apply H; lia|].
    apply (testbit_small _ 8); lia. }
  assert (Hf : different (y_slist y) d = 0).
  { unfold different. destruct (byte_parts (C1 d (le_n _))) as (_ & -> & _). rewrite HL, HR. done. }
  split; [split| | | |]; try done.
  - intros. apply C1. lia.
  - rewrite C2. destruct d as [|d]; [lia|]. cbn [msum]. rewrite Hf.
    replace (S d - 1)%nat with d by lia. lia.
  - intros. apply C3; [lia|done].
  - intros j Hj. destruct (decide (j = d)) as [->|]; [|apply H2; lia].
    rewrite Hb. unfold flip. rewrite HL, HR. cbn. by rewrite Z.lxor_0_r.
  - rewrite H4. apply msum_ext. intros j _. unfold gained.
    destruct (Nat.ltb_spec d j), (Nat.ltb_spec (d - 1) j); try lia.
    assert (j = d) as -> by lia. rewrite Hb. lia.
Qed.

Lemma xor_active_bit2 al ar : XOR_ACTIVE (bit2 al ar ALEFT ARIGHT) = Z.b2z (xorb al ar).
Proof. by destruct al, ar. Qed.

Lemma sym_expand_spec d bits y stL stR :
  byte_of bits (stL d) (stR d) (s0 d) →
  let y' := sym_expand d bits (bit2 (is_active (stL d)) (is_active (stR d)) ALEFT ARIGHT) y in
  (∀ j, y_slist y' j = if (j =? d)%nat then flip stL stR d else y_slist y j) ∧
  y_count y' = y_count y + (flip stL stR d - s0 d) ∧
  y_marked y' = y_marked y ∧ y_lower y' = y_lower y ∧ y_ok y' = y_ok y.
Proof.
  intros (_ & _ & _ & HbS & _). unfold sym_expand, flip. cbv zeta. rewrite HbS, xor_active_bit2.
  destruct (s0_bits d) as [-> | ->], (is_active (stL d)), (is_active (stR d));
  cbn [xorb Z.b2z Z.eqb Z.lxor y_slist y_count y_marked y_lower y_ok set_slist add_count S_DIFF];
  (split_and!; [|(symmetry; apply Z.add_0_r) || (f_equal; reflexivity)|done..]); intros j; unfold upd; by destruct (j =? d)%nat.
Qed.

Lemma exp_step d y stL stR :
  (1 <= d <= TABLE s)%nat → exp_inv d y stL stR →
  exp_inv (d - 1) (body d y) (vstep s d stL) (vstep s d stR).
Proof.
  intros Hd Hi. unfold sym_body. destruct (is_live_dec (s:=s) d) as [Hl|Hdead].
  2:{ rewrite Hdead. pose proof (not_live d Hdead) as Hn. rewrite !vstep_dead by done.
      destruct (ei_dead d y stL stR Hi d Hn). apply exp_idle; [lia|done..]. }
  rewrite (live_flags d Hl). destruct (Z.eqb_spec (y_slist y d) 0) as [H0|H0].
  { destruct (core_byte s0 _ _ _ _ _ (ei_core d y stL stR Hi) d (le_n _)) as (_ & HL & HR & _).
    rewrite H0 in HL, HR. cbn in HL, HR. rewrite !vstep_zero by done. apply exp_idle; [lia|done..]. }
  destruct Hi as [[C1 C2 C3 C4] H2 H3 H4 H5]. pose proof (C1 d (le_n _)) as Hb.
  destruct (byte_parts Hb) as (Hact & Hdif & _).
  rewrite Hact, not_gone by done. cbn [Z.eqb orb].
  set (bits := y_slist y d) in *. set (y1 := sym_assert _ true).
  destruct (sym_expand_spec d bits y1 stL stR Hb) as (E1 & E2 & E3 & E4 & E5).
  set (y2 := sym_expand _ _ _ y1) in *. destruct Hb as (Hr & HbL & HbR & HbS & HbD) eqn:Heqb.
  rewrite HbD. cbn [Z.eqb].
  assert (Y1 : y_slist y1 = y_slist y ∧ y_lower y1 = y_lower y ∧ y_count y1 = y_count y ∧
               y_ok y1 = true ∧ y_marked y1 = y_marked y - Z.b2z (S_DIFFERENT bits)).
  { unfold y1. destruct (S_DIFFERENT bits); cbn [Z.b2z]; (split_and!; [done..| |cbn; lia]); cbn; by rewrite H5. }
  destruct Y1 as (Y1 & Y2 & Y3 & Y4 & Y5). rewrite Y1 in E1. rewrite Y2 in E4. rewrite Y3 in E2.
  rewrite Y4 in E5. rewrite Y5 in E3.
  assert (C : core s0 (d - 1) 0 y2 stL stR).
  { split.
    - intros j Hj. rewrite E1. destruct (Nat.eqb_spec j d); [lia|]. apply C1. lia.
    - rewrite E3, C2. destruct d as [|d]; [lia|]. cbn [msum]. unfold different at 2. fold bits.
      rewrite (msum_ext d (different (y_slist y)) (different (y_slist y2))).
      + replace (S d - 1)%nat with d by lia. lia.
      + intros j Hj. unfold different. rewrite E1. destruct (Nat.eqb_spec j (S d)); [lia|done].
    - intros j Hj. rewrite E1, E4. destruct (Nat.eqb_spec j d); [lia|]. apply C3. lia.
    - by rewrite E4. }
  destruct (sym_parents_core Hwf s0 d 0 y2 stL stR bits Hl C) as [P F]; [done|].
  set (y3 := sym_parents s d bits y2) in *.
  assert (Q : ∃ y4, core s0 (d - 1) 0 y4 (vstep s d stL) (vstep s d stR) ∧ frame (d - 1) y3 y4 ∧
     (if bit2 (is_active (stL d)) (is_active (stR d)) ALEFT ARIGHT =? 0 then y3
      else fold_left (sym_clude right false d (bit2 (is_active (stL d)) (is_active (stR d)) ALEFT ARIGHT))
             (clude_list (cludes_of s None d)) y3) = y4).
  { assert (HV : ∀ st, vstep s d st = fold_left (ie_upd (is_active (st d))) (clude_list (CLUDES s d)) (par_upd s d st)).
    { intros st. unfold vstep. rewrite (live_flags d Hl), ie_upd_fold.
      rewrite par_upd_at, (par1_ge Hwf) by done. done. }
    rewrite !HV. cbn [cludes_of].
    destruct (sym_cludes_core s0 (d - 1) 0 right (is_active (stL d)) (is_active (stR d)) d
      (clude_list (CLUDES s d)) y3 (par_upd s d stL) (par_upd s d stR)) as [G1 G2]; [|done|].
    { intros e sg He. destruct (wf_cludes s Hwf _ _ _ Hl He). lia. }
    eexists. split; [|split; [|done]]; destruct (is_active (stL d)) eqn:?, (is_active (stR d)) eqn:?; cbn [bit2 Z.eqb Z.add] in *;
    try done. by rewrite !ie_upd_fold. }
  destruct Q as (y4 & G1 & G2 & ->).
  assert (FF : frame (d - 1) y2 y4) by by etrans. destruct FF as [F1 F2 F3 F4].
  split; [done| | | |].
  - intros j Hj. rewrite F1, E1 by lia. unfold flip. rewrite !(vstep_ge Hwf) by lia.
    destruct (Nat.eqb_spec j d) as [->|]; [done|]. apply H2. lia.
  - intros j Hj. rewrite !(vstep_nonlive Hwf) by done. by apply H3.
  - rewrite F2, E2, H4. rewrite (msum_ext _ (gained (d - 1) y4) (upd (gained d y) d (flip stL stR d - s0 d))).
    + rewrite msum_upd by lia.
      assert (gained d y d = 0) as -> by (unfold gained; by rewrite Nat.ltb_irrefl). lia.
    + intros j _. unfold gained, upd. destruct (Nat.ltb_spec (d - 1) j), (Nat.eqb_spec j d), (Nat.ltb_spec d j); try lia.
      * subst j. by rewrite F1, E1, Nat.eqb_refl by lia.
      * rewrite F1, E1 by lia. by destruct (Nat.eqb_spec j d).
  - by rewrite F4.
Qed.
Lemma vrun_agree n d st st' :
  (n <= d)%nat → (∀ j, (j <= d)%nat → st j = st' j) →
  ∀ j, (j <= d)%nat → for_down (vstep s) n 0 st j = for_down (vstep s) n 0 st' j.
Proof.
  revert st st'. induction n as [|n IH]; intros st st' Hn H; cbn [for_down]; [done|].
  apply IH; [lia|]. intros j Hj. rewrite Nat.add_0_l.
  destruct (is_live_dec (s:=s) (S n)) as [Hl|Hd%not_live].
  - by rewrite !(vstep_at Hwf), !H by (done || lia).
  - by rewrite !vstep_dead, H by done.
Qed.

Lemma exp_loop d y stL stR :
  (d <= TABLE s)%nat → exp_inv d y stL stR →
  let '(d', y') := sym_loop s leftlist right false true None d y in
  ∃ stL' stR', (d' <= d)%nat ∧ exp_inv d' y' stL' stR' ∧ y_marked y' = 0 ∧
    for_down (vstep s) d 0 stL = for_down (vstep s) d' 0 stL' ∧
    for_down (vstep s) d 0 stR = for_down (vstep s) d' 0 stR'.
Proof.
  revert y stL stR. induction d as [|d IH]; intros y stL stR Hd Hi; cbn [sym_loop].
  - exists stL, stR. split_and!; try done. by rewrite (core_marked s0 _ _ _ _ _ (ei_core _ _ _ _ Hi)).
  - destruct (Z.eqb_spec (y_marked y) 0) as [Hm|Hm]; [by exists stL, stR|].
    pose proof (exp_step (S d) y stL stR ltac:(lia) Hi) as Hi'. replace (S d - 1)%nat with d in Hi' by lia.
    specialize (IH _ _ _ ltac:(lia) Hi'). destruct (sym_loop _ _ _ _ _ _ _ _) as [d' y'].
    destruct IH as (L & R & ? & ? & ? & ? & ?). exists L, R. split_and!; [lia|done..].
Qed.

Lemma sym_clean_at d lower sl j :
  (1 <= lower)%nat →
  sym_clean d lower sl j = if (lower <=? j)%nat && (j <=? d)%nat then Z.land (sl j) S_DIFF else sl j.
Proof.
  intros Hlo. unfold sym_clean.
  assert (H : ∀ n sl, for_down (λ j sl, upd sl j (Z.land (sl j) S_DIFF)) n (lower - 1) sl j =
    if (lower <=? j)%nat && (j <? lower + n)%nat then Z.land (sl j) S_DIFF else sl j).
  { clear sl. induction n as [|n IH]; intros sl; cbn [for_down].
    - destruct (Nat.leb_spec lower j), (Nat.ltb_spec j (lower + 0)); simpl; (done || lia).
    - rewrite IH. unfold upd. replace (lower - 1 + S n)%nat with (lower + n)%nat by lia.
      destruct (Nat.eqb_spec j (lower + n)); subst;
      repeat match goal with
      | |- context [(?x <=? ?y)%nat] => destruct (Nat.leb_spec x y)
      | |- context [(?x <? ?y)%nat] => destruct (Nat.ltb_spec x y)
      end; simpl; (done || lia). }
  rewrite H. destruct (Nat.leb_spec lower j), (Nat.ltb_spec j (lower + (S d - lower))), (Nat.leb_spec j d);
  simpl; (done || lia).
Qed.

(** From any start that satisfies the invariant the answer is right everywhere
    and all working bits are gone. *)
Lemma exp_finish d y stL stR :
  (d <= TABLE s)%nat → exp_inv d y stL stR →
  let '(d', y') := sym_loop s leftlist right false true None d y in
  y_ok y' = true ∧ y_marked y' = 0 ∧
  let sl := if negb (d' =? 0)%nat && negb (y_lower y' =? 0)%nat
            then sym_clean d' (y_lower y') (y_slist y') else y_slist y' in
  (∀ j, sl j = flip (for_down (vstep s) d 0 stL) (for_down (vstep s) d 0 stR) j) ∧
  y_count y' = msum (TABLE s) sl - msum (TABLE s) s0.
Proof.
  intros Hd Hi. pose proof (exp_loop d y stL stR Hd Hi) as H.
  destruct (sym_loop _ _ _ _ _ _ _ _) as [d' y']. destruct H as (L & R & Hd' & [HC H2 H3 H4 H5] & Hm & -> & ->).
  split; [done|]. split; [done|]. destruct HC as [C1 C2 C3 C4]. intros sl.
  assert (Heq : ∀ j, (j <= d')%nat → L j = R j).
  { intros j Hj. destruct (decide (j = 0%nat)) as [->|].
    { assert (Hn : ~ live s 0) by (intros Hl; pose proof (live_pos s 0 Hl); lia).
      by destruct (H3 0%nat Hn) as [-> ->]. }
    rewrite Hm, Z.add_0_r in C2. symmetry in C2. pose proof (λ H, msum_zero d' _ H C2 j) as Hz.
    specialize (Hz ltac:(intros; unfold different; by destruct (S_DIFFERENT _)) ltac:(lia)).
    unfold different in Hz. destruct (byte_parts (C1 j Hj)) as (_ & Hdf & _). rewrite Hdf in Hz.
    by destruct (Z.eqb_spec (L j) (R j)). }
  assert (Hlow : ∀ j, (j <= d')%nat → sl j = s0 j).
  { intros j Hj. unfold sl. destruct (Nat.eqb_spec d' 0) as [->|]; cbn [negb andb].
    - assert (j = 0%nat) as -> by lia. destruct (decide (y_slist y' 0%nat = s0 0%nat)) as [|Hne]; [done|].
      specialize (C3 0%nat (le_n _) Hne). lia.
    - destruct (Nat.eqb_spec (y_lower y') 0); [lia|]. cbn [negb]. rewrite sym_clean_at by done.
      destruct (Nat.leb_spec (y_lower y') j); cbn [andb].
      + destruct (Nat.leb_spec j d'); [|lia]. apply (C1 j Hj).
      + destruct (decide (y_slist y' j = s0 j)) as [|Hne]; [done|]. specialize (C3 j Hj Hne). lia. }
  assert (Hhigh : ∀ j, (d' < j)%nat → sl j = y_slist y' j).
  { intros j Hj. unfold sl. case_if; [|done]. rewrite sym_clean_at by done.
    destruct (Nat.leb_spec j d'); [lia|]. by rewrite andb_false_r. }
  split.
  - intros j. unfold flip. destruct (le_lt_dec j d') as [Hj|Hj].
    + rewrite Hlow by done. rewrite (vrun_agree d' d' L R) by done. rewrite xorb_nilpotent. by rewrite Z.lxor_0_r.
    + rewrite Hhigh, H2, !(for_down_vstep_ge Hwf) by lia. done.
  - rewrite H4. rewrite (msum_ext _ (gained d' y') (λ j, sl j - s0 j)).
    + clear. induction (TABLE s) as [|n IH]; cbn [msum]; lia.
    + intros j _. unfold gained. destruct (Nat.ltb_spec d' j); [by rewrite Hhigh|]. rewrite Hlow by done. lia.
Qed.
End expand.

(** ** Seeds *)

Lemma seeds_at ds j : seeds ds j = if bool_decide (j ∈ ds) then S_PAR else 0.
Proof.
  induction ds as [|d ds IH]; [done|]. cbn [seeds fold_right]. fold (seeds ds). unfold upd.
  destruct (Nat.eqb_spec j d) as [->|Hne].
  - rewrite bool_decide_eq_true_2 by by left. rewrite IH. by case_bool_decide.
  - rewrite IH, (bool_decide_ext (j ∈ d :: ds) (j ∈ ds)); [done|]. rewrite elem_of_cons. tauto.
Qed.

Lemma max_elem_lt ds n j : (foldr Nat.max n ds < j)%nat → (n < j)%nat ∧ j ∉ ds.
Proof.
  induction ds as [|d ds IH]; cbn [foldr]; intros H; [split; [done|apply not_elem_of_nil]|].
  destruct IH as [Hn Hj]; [lia|]. split; [done|]. rewrite elem_of_cons. intros [->|]; [lia|done].
Qed.

Lemma byte_seed pl pr x l r sd :
  byte_of x l r sd →
  byte_of (u8 (Z.lor x (bit2 pl pr SL_PAR SR_PAR))) (par_mark pl l) (par_mark pr r) sd.
Proof. intros H. apply (byte_parts H). Qed.

Section start.
Context {s : sccs} (s0 : nat → Z).
Hypothesis s0_bits : ∀ j, s0 j = 0 ∨ s0 j = 1.

Lemma start_core k : (1 <= TABLE s)%nat → ∀ cnt cl du ok,
  core s0 (TABLE s) k (mkSym s0 k (TABLE s) cnt cl du ok) (λ _, 0) (λ _, 0).
Proof.
  intros HT cnt cl du ok. split; cbn [y_slist y_marked y_lower]; [| |done|done].
  - intros j _. destruct (s0_bits j) as [-> | ->]; by split_and!.
  - assert (H : msum (TABLE s) (different s0) = 0); [|by rewrite H].
    induction (TABLE s) as [|n IH]; cbn [msum]; [done|].
    unfold different at 2. destruct n as [|n].
    + cbn [msum]. by destruct (s0_bits 1%nat) as [-> | ->].
    + rewrite IH by lia. by destruct (s0_bits (S (S n))) as [-> | ->].
Qed.

Lemma left_core k ls start y stL stR :
  (∀ d, d ∈ ls → (1 <= d <= TABLE s)%nat) → core s0 (TABLE s) k y stL stR →
  let '(start', y') := sym_left ls start y in
  start' = foldr Nat.max start ls ∧ frame (TABLE s) y y' ∧
  core s0 (TABLE s) k y' (λ j, if bool_decide (j ∈ ls) then Z.lor (stL j) S_PAR else stL j) stR.
Proof.
  revert start y stL stR. induction ls as [|d ls IH]; intros start y stL stR Hls Hc; cbn [sym_left].
  { split_and!; [done..|]. eapply core_ext; [exact Hc| |done]. intros j _.
    by rewrite bool_decide_eq_false_2 by apply not_elem_of_nil. }
  assert (Hd : (1 <= d <= TABLE s)%nat) by (apply Hls; by left).
  destruct (update_core s0 (TABLE s) k y stL stR d SL_PAR (par_mark true (stL d)) (par_mark false (stR d)))
    as [C F]; [done|done|..].
  { apply (byte_seed true false), Hc. lia. }
  specialize (IH (if (start <? d)%nat then d else start) _ _ _ ltac:(intros; apply Hls; by right) C).
  destruct (sym_left ls _ _) as [start' y']. destruct IH as (-> & F' & C'). split_and!; [|by etrans|].
  - cbn [foldr]. replace (if (start <? d)%nat then d else start) with (Nat.max d start)
      by (destruct (Nat.ltb_spec start d); lia).
    clear. induction ls as [|e ls IH]; cbn [foldr]; lia.
  - eapply core_ext; [exact C'|..]; intros j _; unfold upd; destruct (Nat.eqb_spec j d) as [->|]; try done.
    + rewrite bool_decide_eq_true_2 by by left. unfold par_mark. case_bool_decide; [by rewrite lor_idem4|done].
    + rewrite (bool_decide_ext (j ∈ d :: ls) (j ∈ ls)); [done|]. rewrite elem_of_cons. tauto.
Qed.
End start.

Definition right_tips (right : nat) : list nat := if (right =? 0)%nat then [] else [right].

Section seeded.
Context {s : sccs} (Hwf : wf_graph s) (s0 : nat → Z) (leftlist : list nat) (right : nat).
Hypothesis s0_bits : ∀ j, s0 j = 0 ∨ s0 j = 1.
Hypothesis left_live : ∀ d, d ∈ leftlist → live s d.
Hypothesis right_live : right = 0%nat ∨ live s right.

(** The state and the start of the main loop. *)
Definition sym_start (y : sym) : nat * sym :=
  let '(start, y) := sym_left leftlist 0 y in
  if (right =? 0)%nat then (start, y)
  else (if (start <? right)%nat then right else start, update right SR_PAR y).

Lemma tips_above j :
  (Nat.max (foldr Nat.max 0%nat leftlist) right < j)%nat →
  seeds leftlist j = 0 ∧ seeds (right_tips right) j = 0.
Proof.
  clear left_live right_live. intros Hj. destruct (max_elem_lt leftlist 0 j ltac:(lia)) as [_ Hn]. rewrite !seeds_at.
  rewrite bool_decide_eq_false_2 by done. split; [done|].
  unfold right_tips. destruct (Nat.eqb_spec right 0); rewrite bool_decide_eq_false_2; try done.
  - apply not_elem_of_nil.
  - rewrite list_elem_of_singleton. lia.
Qed.

Lemma seeds_dead j : ~ live s j → seeds leftlist j = 0 ∧ seeds (right_tips right) j = 0.
Proof.
  intros Hj. rewrite !seeds_at, !bool_decide_eq_false_2; [done|..].
  - unfold right_tips. destruct (Nat.eqb_spec right 0); [apply not_elem_of_nil|].
    rewrite list_elem_of_singleton. intros ->. by destruct right_live.
  - intros Hin. by apply Hj, left_live.
Qed.

Lemma start_le : (Nat.max (foldr Nat.max 0%nat leftlist) right <= TABLE s)%nat.
Proof.
  apply Nat.max_lub.
  - clear right_live. induction leftlist as [|d ls IH]; cbn [foldr]; [lia|].
    pose proof (live_tip s d Hwf (left_live d ltac:(by left))).
    specialize (IH ltac:(intros; apply left_live; by right)). lia.
  - destruct right_live as [->|HR]; [lia|]. by apply live_tip.
Qed.

Lemma sym_start_core k cnt cl du ok :
  (1 <= TABLE s)%nat →
  let y0 := mkSym s0 k (TABLE s) cnt cl du ok in
  let '(start, y) := sym_start y0 in
  start = Nat.max (foldr Nat.max 0%nat leftlist) right ∧ frame (TABLE s) y0 y ∧
  core s0 (TABLE s) k y (seeds leftlist) (seeds (right_tips right)).
Proof.
  intros HT y0. unfold sym_start.
  pose proof (left_core s0 (s:=s) k leftlist 0 y0 _ _
    ltac:(intros; by apply live_tip; [|apply left_live]) (start_core s0 s0_bits k HT cnt cl du ok)) as H1.
  destruct (sym_left leftlist 0 y0) as [start y1]. destruct H1 as (-> & F1 & C1).
  assert (C1' : core s0 (TABLE s) k y1 (seeds leftlist) (λ _, 0)).
  { eapply core_ext; [exact C1| |done]. intros j _. by rewrite seeds_at. }
  unfold right_tips. destruct (Nat.eqb_spec right 0) as [->|Hr0].
  { split_and!; [lia|done|done]. }
  destruct right_live as [|HR]; [done|]. pose proof (live_tip _ _ Hwf HR).
  destruct (update_core s0 (TABLE s) k y1 _ _ right SR_PAR
    (par_mark false (seeds leftlist right)) (par_mark true 0) C1') as [C F]; [done|..].
  { apply (byte_seed false true), C1'. lia. }
  split; [destruct (Nat.ltb_spec (foldr Nat.max 0%nat leftlist) right); lia|]. split; [by etrans|].
  eapply core_ext; [exact C|..]; intros j _; unfold upd; [by destruct (Nat.eqb_spec j right) as [->|]|].
  rewrite seeds_at. destruct (Nat.eqb_spec j right) as [->|].
  - by rewrite bool_decide_eq_true_2 by by left.
  - by rewrite bool_decide_eq_false_2 by (by rewrite list_elem_of_singleton).
Qed.

Lemma sym_start_inv :
  (1 <= TABLE s)%nat →
  let '(start, y) := sym_start (mkSym s0 0 (TABLE s) 0 [] [] true) in
  start = Nat.max (foldr Nat.max 0%nat leftlist) right ∧
  exp_inv (s:=s) s0 start y (seeds leftlist) (seeds (right_tips right)).
Proof.
  intros HT. pose proof (sym_start_core 0 0 [] [] true HT) as H. cbv zeta in H.
  destruct (sym_start _) as [start y]. destruct H as (-> & [F1 F2 F3 F4] & C). split; [done|].
  set (start := Nat.max _ _). pose proof start_le as Hle. pose proof tips_above as Hab. fold start in Hle, Hab.
  assert (HI : ∀ n, (n <= TABLE s - start)%nat →
    exp_inv (s:=s) s0 (TABLE s - n) y (seeds leftlist) (seeds (right_tips right))).
  { induction n as [|n IH]; intros Hn.
    - rewrite Nat.sub_0_r. split; [done| |apply seeds_dead| |by rewrite F4].
      + intros j Hj. rewrite F1 by done. cbn [y_slist]. unfold flip.
        destruct (Hab j ltac:(lia)) as [-> ->]. by rewrite Z.lxor_0_r.
      + rewrite F2. cbn [y_count]. symmetry. rewrite (msum_ext _ _ (λ _, 0)).
        * clear. induction (TABLE s); cbn [msum]; lia.
        * intros j Hj. unfold gained. destruct (Nat.ltb_spec (TABLE s) j); [lia|done].
    - replace (TABLE s - S n)%nat with ((TABLE s - n) - 1)%nat by lia.
      destruct (Hab (TABLE s - n)%nat ltac:(lia)). apply exp_idle; [lia|apply IH; lia|done..]. }
  specialize (HI _ (le_n _)). by replace (TABLE s - (TABLE s - start))%nat with start in HI by lia.
Qed.
End seeded.

(** ** Properties *)

(** The expansion as one statement, for the components that call it. *)
Lemma symdiff_expand_spec s leftlist right slist :
  wf_graph s → (1 <= TABLE s)%nat →
  (∀ d, d ∈ leftlist → live s d) → (right = 0%nat ∨ live s right) →
  (∀ d, live s d → Z.land (FLAGS s d) D_GONE = 0) → (∀ j, slist j = 0 ∨ slist j = 1) →
  let y := symdiff_expand s leftlist right slist in
  y_ok y = true ∧
  (∀ j, y_slist y j =
        Z.lxor (slist j) (Z.b2z (xorb (view s leftlist j) (view s (right_tips right) j)))) ∧
  y_count y = msum (TABLE s) (y_slist y) - msum (TABLE s) slist.
Proof.
  intros Hwf HT HL HR Hg Hs. unfold symdiff_expand, symdiff. cbn [orb].
  pose proof (sym_start_inv Hwf slist leftlist right Hs HL HR HT) as HI.
  pose proof (start_le Hwf leftlist right HL HR) as Hle.
  pose proof (tips_above leftlist right) as Hab. unfold sym_start in HI.
  destruct (sym_left leftlist 0 _) as [start0 y0].
  destruct (if (right =? 0)%nat then _ else _) as [start y]. destruct HI as [-> HI].
  set (start := Nat.max _ _) in *.
  pose proof (exp_finish Hwf slist leftlist right Hs Hg start y _ _ Hle HI) as HF.
  destruct (sym_loop _ _ _ _ _ _ start y) as [d' y']. destruct HF as (Hok & Hm & Hfl & Hcnt).
  unfold flip in Hfl.
  rewrite <- (vrun_start start (seeds leftlist)) in Hfl by (done || apply Hab).
  rewrite <- (vrun_start start (seeds (right_tips right))) in Hfl by (done || apply Hab).
  cbn [sym_assert y_lower y_slist]. rewrite Hm.
  destruct (negb (d' =? 0)%nat && negb (y_lower y' =? 0)%nat);
  cbn [y_ok y_slist y_count set_slist sym_assert]; by rewrite Hok.
Qed.

(** C11. [symdiff_expand] xors the symmetric difference of two versions into the
    set: on a well-formed table with no delta marked as gone, for tips on the left
    and a tip on the right (0 for the empty version) no assert fails, each entry is flipped exactly where one version holds the
    delta and the other does not, no working bit is left, and the count
    returned is the change in the number of ones.  The early exit on equal
    remaining work loses nothing. *)
Theorem symdiff_expand_correct s leftlist right slist :
  wf_graph s → (1 <= TABLE s)%nat →
  (∀ d, d ∈ leftlist → live s d) → (right = 0%nat ∨ live s right) →
  (∀ d, live s d → Z.land (FLAGS s d) D_GONE = 0) → (∀ j, slist j = 0 ∨ slist j = 1) →
  let y := symdiff_expand s leftlist right slist in
  y_ok y = true ∧
  (∀ j, y_slist y j =
        Z.lxor (slist j) (Z.b2z (xorb (view s leftlist j) (view s (right_tips right) j)))) ∧
  y_count y = msum (TABLE s) (y_slist y) - msum (TABLE s) slist.
Proof. exact (symdiff_expand_spec s leftlist right slist). Qed.

Lemma symdiff_expand_correct_witness :
  let y := symdiff_expand ex_graph [4%nat] 6 (λ _, 0) in
  y_ok y = true ∧
  (∀ j, y_slist y j =
        Z.lxor 0 (Z.b2z (xorb (view ex_graph [4%nat] j) (view ex_graph (right_tips 6) j)))) ∧
  y_count y = msum (TABLE ex_graph) (y_slist y) - msum (TABLE ex_graph) (λ _, 0).
Proof.
  apply (symdiff_expand_correct ex_graph [4%nat] 6 (λ _, 0)).
  - apply ex_graph_wf.
  - vm_compute. lia.
  - intros d ->%list_elem_of_singleton. apply ex_graph_live. lia.
  - right. apply ex_graph_live. lia.
  - intros d Hd. apply (live_tip _ _ ex_graph_wf) in Hd. change (TABLE ex_graph) with 6%nat in Hd.
    do 7 (destruct d as [|d]; [reflexivity|]). lia.
  - by left.
Defined.
