(* ===== verification/SymComp.v ===== *)
(** * SymComp: what compressing a symmetric difference computes

    The other direction of [symdiff] (src/src/libgraph.c): from a wanted
    difference to the include and exclude lists of a delta.  The right run of
    the loop is the run of [compressmap] towards the set "left version xor wanted
    difference"; so its lists rebuild that set, and writing them as the lists of
    the delta makes the difference of the two versions the wanted one. *)

From S2P Require Import Prelude CStr Sccs SerialMap Symdiff.
From stdpp Require Import base numbers list sorting.
From Stdlib Require Import ZArith Lia.

Local Open Scope Z_scope.

(** ** Entries and their serials *)

Lemma hibit_entry d : (Z.of_nat d < 2 ^ 31) →
  Z.land (Z.of_nat d) HIBIT = 0 ∧ Z.land (Z.of_nat d) (HIBIT - 1) = Z.of_nat d ∧
  Z.land (Z.lor (Z.of_nat d) HIBIT) HIBIT = HIBIT ∧ Z.land (Z.lor (Z.of_nat d) HIBIT) (HIBIT - 1) = Z.of_nat d.
Proof.
  intros Hd. change HIBIT with (2 ^ 31). change (2 ^ 31 - 1) with (Z.ones 31).
  rewrite !Z.land_ones by lia.
  assert (H1 : Z.land (Z.of_nat d) (2 ^ 31) = 0).
  { apply Z.bits_inj'. intros b Hb. rewrite Z.land_spec, Z.bits_0, Z.pow2_bits_eqb by lia.
    destruct (Z.eqb_spec 31 b) as [<-|]; [|by rewrite andb_false_r]. rewrite (testbit_small _ 31) by lia. done. }
  assert (H2 : Z.lor (Z.of_nat d) (2 ^ 31) = Z.of_nat d + 2 ^ 31) by (pose proof (Z.add_lor_land (Z.of_nat d) (2 ^ 31)); lia).
  split_and!; [done|by apply Z.mod_small; lia| |].
  - apply Z.bits_inj'. intros b Hb. rewrite Z.land_spec, Z.lor_spec, Z.pow2_bits_eqb by lia.
    destruct (31 =? b); [by rewrite orb_true_r|by rewrite !andb_false_r].
  - rewrite H2. replace (Z.of_nat d + 2 ^ 31) with (Z.of_nat d + 1 * 2 ^ 31) by lia.
    rewrite Z.mod_add by lia. apply Z.mod_small. lia.
Qed.

Lemma sel_cludes_app x l k : sel_cludes x (l ++ k) = sel_cludes x l ++ sel_cludes x k.
Proof. unfold sel_cludes. by rewrite filter_app, map_app. Qed.

(** An entry for [d]: include or exclude. *)
Definition entry (inc : bool) (d : nat) : Z := if inc then Z.of_nat d else Z.lor (Z.of_nat d) HIBIT.

Lemma sel_entry x inc d : Z.of_nat d < 2 ^ 31 → sel_cludes x [entry inc d] = if eqb x inc then [] else [d].
Proof.
  intros Hd. destruct (hibit_entry d Hd) as (H1 & H2 & H3 & H4). unfold sel_cludes, entry.
  destruct inc, x; rewrite filter_cons, ?H1, ?H3;
    case_decide as Hx; try (by destruct Hx); try (by destruct (Hx I)); rewrite filter_nil; cbn [map eqb];
    rewrite ?H2, ?H4, ?Nat2Z.id; done.
Qed.

(** A byte without marks. *)
Lemma byte_zero x sd : byte_of x 0 0 sd → x = sd.
Proof.
  intros (Hr & HL & HR & HS & HD).
  assert (H : forallb (λ n, let x := Z.of_nat n in
    implb ((lb x =? 0) && (rb x =? 0) && (Z.land x S_DUP =? 0)) (x =? Z.land x S_DIFF)) (seq 0 256) = true) by (vm_compute; reflexivity).
  rewrite forallb_forall in H. specialize (H (Z.to_nat x) ltac:(apply in_seq; lia)). cbv zeta in H.
  rewrite Z2Nat.id, HL, HR, HD, HS in H by lia. cbn in H. by apply Z.eqb_eq.
Qed.

(** ** The loop *)

Section compress.
Context {s : sccs} (Hwf : wf_graph s) (s0 : nat → Z) (leftlist : list nat) (right : nat).
Hypothesis s0_bits : ∀ j, s0 j = 0 ∨ s0 j = 1.
Hypothesis s0_live : ∀ j, s0 j ≠ 0 → live s j ∧ (j <= right)%nat.
Hypothesis s0_right : s0 right = 1.
Hypothesis left_live : ∀ d, d ∈ leftlist → live s d ∧ (d < right)%nat.
Hypothesis right_live : live s right.
Hypothesis gone_ok : ∀ d, live s d → Z.land (FLAGS s d) D_GONE = 0 ∨ ∃ ls, leftlist = d :: ls.
Hypothesis small : Z.of_nat (TABLE s) < 2 ^ 31.

(** The version wanted on the right. *)
Definition target (j : nat) : Z := Z.b2z (xorb (view s leftlist j) (negb (s0 j =? 0))).

Abbreviation body := (sym_body s leftlist right false false None).

Abbreviation cstep := (compress_step s target).

Record comp_inv (d : nat) (y : sym) (stL : nat → Z) (c : cmap) : Prop := {
  ci_core : core s0 d (msum d s0) y stL (c_slist c);
  ci_done : ∀ j, (d < j)%nat → y_slist y j = 0;
  ci_dead : ∀ j, ~ live s j → stL j = 0 ∧ c_slist c j = 0;
  ci_left : for_down (vstep s) d 0 stL = vrun s (seeds leftlist);
  ci_inc : sel_cludes false (y_cludes y) = c_inc c;
  ci_exc : sel_cludes true (y_cludes y) = c_exc c;
  ci_below : ∀ x, x ∈ c_inc c ++ c_exc c → (d < x < right)%nat;
  ci_right : (right <= d)%nat → c_slist c right = S_PAR;
  ci_count : y_count y = 0;
  ci_ok : y_ok y = true
}.

Lemma left_view d y stL c : comp_inv d y stL c → (1 <= d)%nat → view s leftlist d = is_active (stL d).
Proof.
  intros Hi Hd. unfold view, view_from. rewrite <- (ci_left _ _ _ _ Hi). f_equal. apply (for_down_vstep_ge Hwf). lia.
Qed.

Lemma view_above j : (right <= j)%nat → view s leftlist j = false.
Proof.
  intros Hj. unfold view, view_from. rewrite (vrun_start (right - 1)).
  - rewrite (for_down_vstep_ge Hwf) by lia. rewrite seeds_at, bool_decide_eq_false_2; [done|].
    intros Hin. destruct (left_live j Hin). lia.
  - pose proof (live_tip s right Hwf right_live). lia.
  - intros t Ht. rewrite seeds_at, bool_decide_eq_false_2; [done|]. intros Hin. destruct (left_live t Hin). lia.
Qed.

Lemma target_live j : target j ≠ 0 → live s j.
Proof.
  unfold target. intros H. destruct (negb (s0 j =? 0)) eqn:E.
  - apply s0_live. apply negb_true_iff, Z.eqb_neq in E. done.
  - rewrite xorb_false_r in H. unfold view, view_from in H.
    destruct (is_live_dec (s:=s) j) as [|Hd%not_live]; [done|]. exfalso. apply H.
    assert (E0 : vrun s (seeds leftlist) j = 0); [|by rewrite E0].
    unfold vrun. apply (for_down_inv _ (λ _ st, st j = 0)).
    + apply (seeds_live (s:=s)); [|done]. intros d Hin. by apply left_live.
    + intros t st _ H0. by rewrite (vstep_nonlive Hwf).
Qed.

(** Nothing is left to do at [d]. *)
Lemma comp_idle d y stL c :
  (1 <= d)%nat → comp_inv d y stL c → y_slist y d = 0 → d ≠ right → comp_inv (d - 1) y stL c ∧ cstep d c = c ∧ vstep s d stL = stL.
Proof.
  intros Hd Hi H0 Hr. pose proof (left_view d y stL c Hi Hd) as Hview. destruct Hi as [[C1 C2 C3 C4] H2 H3 H4 H5 H6 H7 H8 H9 H10].
  destruct (C1 d (le_n _)) as (_ & HL & HR & HS & _). rewrite H0 in HL, HR, HS. cbn in HL, HR, HS.
  assert (Hs0 : s0 d = 0) by (by rewrite <- HS).
  assert (Hdf : different (y_slist y) d = 0) by (unfold different; by rewrite H0).
  assert (Hv : vstep s d stL = stL) by (by apply vstep_zero).
  split_and!; [split; try done| |done].
  - split; [intros; apply C1; lia| |intros; apply C3; [lia|done]|done].
    rewrite C2. destruct d as [|d]; [lia|]. cbn [msum]. rewrite Hdf, Hs0. replace (S d - 1)%nat with d by lia. lia.
  - intros j Hj. destruct (decide (j = d)) as [->|]; [done|]. apply H2. lia.
  - rewrite <- H4. destruct d as [|d]; [lia|]. cbn [for_down]. rewrite Nat.add_0_l, Hv. by replace (S d - 1)%nat with d by lia.
  - intros x Hx. specialize (H7 x Hx). lia.
  - intros Hle. apply H8. lia.
  - unfold compress_step. case_if; [done|].
    assert (Ht : target d = 0) by (unfold target; by rewrite Hview, <- HL, Hs0).
    rewrite Ht. cbn [Z.eqb]. assert (Hp : par_upd s d (c_slist c) = c_slist c) by (unfold par_upd; by rewrite <- HR).
    rewrite Hp, <- HR. cbn. by destruct c.
Qed.

Lemma sym_compress_eq d bits aL aR y :
  Z.land bits S_DIFF = s0 d →
  sym_compress d bits (bit2 aL aR ALEFT ARIGHT) y =
  let aR' := xorb aL (negb (s0 d =? 0)) in
  let y := set_slist y (upd (y_slist y) d 0) in
  let y := add_marked y (- s0 d) in
  (if eqb aR aR' then y else add_clude y (entry aR' d), bit2 aL aR' ALEFT ARIGHT).
Proof.
  intros HS. unfold sym_compress. rewrite HS, xor_active_bit2. cbv zeta.
  destruct (s0_bits d) as [-> | ->], aL, aR; cbn [Z.eqb negb xorb eqb]; unfold add_marked, add_clude, set_slist, entry;
    cbn; rewrite ?Z.add_0_r; reflexivity.
Qed.

Lemma vstep_ie d st :
  live s d → vstep s d st = fold_left (ie_upd (is_active (st d))) (clude_list (CLUDES s d)) (par_upd s d st).
Proof.
  intros Hl. unfold vstep. rewrite (live_flags d Hl), ie_upd_fold. rewrite par_upd_at, (par1_ge Hwf) by done. done.
Qed.

Lemma cstep_ie d c :
  live s d → c_slist (cstep d c) = fold_left (ie_upd (negb (target d =? 0))) (clude_list (CLUDES s d)) (par_upd s d (c_slist c)).
Proof.
  intros [_ Ht]. unfold compress_step. rewrite Ht, ie_upd_fold. by destruct (target d =? 0).
Qed.

Lemma comp_step d y stL c :
  (1 <= d <= right)%nat → comp_inv d y stL c → comp_inv (d - 1) (body d y) (vstep s d stL) (cstep d c).
Proof.
  intros Hd Hi. unfold sym_body. destruct (is_live_dec (s:=s) d) as [Hl|Hdead].
  2:{ pose proof (not_live d Hdead) as Hn. rewrite Hdead.
      assert (H0 : y_slist y d = 0).
      { destruct (ci_dead _ _ _ _ Hi d Hn) as [EL ER].
        pose proof (core_byte s0 _ _ _ _ _ (ci_core _ _ _ _ Hi) d (le_n _)) as Hb. rewrite EL, ER in Hb.
        apply byte_zero in Hb. rewrite Hb. destruct (s0_bits d) as [|E]; [done|]. destruct (s0_live d) as [? _]; [lia|done]. }
      destruct (comp_idle d y stL c) as (H1 & -> & ->); [lia|done|done|by intros ->|done]. }
  rewrite (live_flags d Hl). destruct (Z.eqb_spec (y_slist y d) 0) as [H0|H0].
  { destruct (comp_idle d y stL c) as (H1 & -> & ->); [lia|done|done| |done]. intros ->.
    destruct (core_byte s0 _ _ _ _ _ (ci_core _ _ _ _ Hi) right (le_n _)) as (_ & _ & HR & _).
    rewrite (ci_right _ _ _ _ Hi), H0 in HR by done. done. }
  pose proof (left_view d y stL c Hi ltac:(lia)) as Hview.
  destruct Hi as [[C1 C2 C3 C4] H2 H3 H4 H5 H6 H7 H8 H9 H10]. pose proof (C1 d (le_n _)) as Hb.
  destruct (byte_parts Hb) as (Hact & Hdif & _). destruct Hb as (Hbr & HbL & HbR & HbS & HbD) eqn:Heqb.
  set (bits := y_slist y d) in *. rewrite Hact. set (aL := is_active (stL d)) in *. set (aR := is_active (c_slist c d)) in *.
  rewrite sym_compress_eq by done. cbv zeta. rewrite HbD. cbn [Z.eqb].
  set (aR' := xorb aL (negb (s0 d =? 0))).
  assert (Htgt : negb (target d =? 0) = aR') by (unfold target; rewrite Hview; fold aR'; by destruct aR').
  set (ok := (Z.land (FLAGS s d) D_GONE =? 0) || _).
  assert (Hok : ok = true).
  { unfold ok. destruct (gone_ok d Hl) as [->|[ls ->]]; [done|]. cbn. by rewrite Nat.eqb_refl, orb_true_r. }
  rewrite Hok. set (y2 := if eqb aR aR' then _ else _).
  assert (E : y_slist y2 = upd (y_slist y) d 0 ∧ y_marked y2 = y_marked y - Z.b2z (S_DIFFERENT bits) - s0 d ∧
    y_lower y2 = y_lower y ∧ y_count y2 = y_count y ∧ y_ok y2 = true ∧
    y_cludes y2 = y_cludes y ++ if eqb aR aR' then [] else [entry aR' d]).
  { unfold y2. destruct (S_DIFFERENT bits), (eqb aR aR'); cbn; rewrite ?app_nil_r, ?H10; split_and!; (done || lia). }
  destruct E as (E1 & E2 & E3 & E4 & E5 & E6).
  assert (C : core s0 (d - 1) (msum (d - 1) s0) y2 stL (c_slist c)).
  { split.
    - intros j Hj. rewrite E1, upd_ne by lia. apply C1. lia.
    - rewrite E2, C2. destruct d as [|d]; [lia|]. cbn [msum]. unfold different at 2. fold bits.
      rewrite (msum_ext d (different (y_slist y)) (different (y_slist y2))).
      + replace (S d - 1)%nat with d by lia. lia.
      + intros j Hj. unfold different. by rewrite E1, upd_ne by lia.
    - intros j Hj. rewrite E1, E3, upd_ne by lia. apply C3. lia.
    - by rewrite E3. }
  destruct (sym_parents_core Hwf s0 d _ y2 stL (c_slist c) bits Hl C) as [P F]; [done|].
  set (y3 := sym_parents s d bits y2) in *.
  destruct (sym_cludes_core s0 (d - 1) (msum (d - 1) s0) right aL aR' d
      (clude_list (CLUDES s d)) y3 (par_upd s d stL) (par_upd s d (c_slist c))) as [G1 G2]; [|done|].
  { intros e sg He. destruct (wf_cludes s Hwf _ _ _ Hl He). lia. }
  cbn [cludes_of]. set (y4 := fold_left _ _ y3) in *.
  assert (Hy4 : (if bit2 aL aR' ALEFT ARIGHT =? 0 then y3 else y4) = y3 ∧ aL = false ∧ aR' = false ∨
                (if bit2 aL aR' ALEFT ARIGHT =? 0 then y3 else y4) = y4) by (destruct aL, aR'; auto).
  assert (Q : core s0 (d - 1) (msum (d - 1) s0) (if bit2 aL aR' ALEFT ARIGHT =? 0 then y3 else y4) (vstep s d stL) (c_slist (cstep d c)) ∧
              frame (d - 1) y3 (if bit2 aL aR' ALEFT ARIGHT =? 0 then y3 else y4)).
  { rewrite (vstep_ie d stL Hl), (cstep_ie d c Hl), Htgt. fold aL.
    destruct Hy4 as [(-> & -> & ->)| ->]; [|by split]. rewrite !ie_upd_fold. split; [exact P|done]. }
  set (y5 := if bit2 aL aR' ALEFT ARIGHT =? 0 then y3 else y4) in *. destruct Q as [Q1 Q2].
  assert (FF : frame (d - 1) y2 y5) by by etrans. destruct FF as [F1 F2 F3 F4].
  destruct (compress_step_lists (s:=s) target d c) as [L1 L2].
  rewrite par_upd_at, (par1_ge Hwf) in L1, L2 by done. fold aR in L1, L2.
  rewrite (proj2 Hl), Htgt in L1. rewrite (proj2 Hl) in L2. cbn [negb andb] in L1, L2.
  assert (Ht0 : (target d =? 0) = negb aR') by (rewrite <- Htgt; by rewrite negb_involutive). rewrite Ht0 in L2.
  pose proof (live_tip s right Hwf right_live) as Hrt.
  split; [done| | | | | | | | |].
  - intros j Hj. rewrite F1, E1 by lia. unfold upd. destruct (Nat.eqb_spec j d); [done|]. apply H2. lia.
  - intros j Hj. rewrite (vstep_nonlive Hwf) by done. destruct (H3 j Hj) as [? E0]. split; [done|].
    rewrite (compress_step_at target d c j Hl). cbv zeta. rewrite (par1_nonlive Hwf), E0 by done. case_if; [done|].
    apply cl1_other. intros i sg Hin ->. by destruct (wf_cludes s Hwf d j sg Hl Hin).
  - rewrite <- H4. destruct d as [|d]; [lia|]. cbn [for_down]. rewrite Nat.add_0_l. by replace (S d - 1)%nat with d by lia.
  - rewrite F3, E6, sel_cludes_app, H5, L1. f_equal. destruct aR, aR'; cbn [eqb andb negb]; rewrite ?sel_entry by lia; done.
  - rewrite F3, E6, sel_cludes_app, H6, L2. f_equal. destruct aR, aR'; cbn [eqb andb negb]; rewrite ?sel_entry by lia; done.
  - intros x. rewrite L1, L2. intros Hx.
    assert (x ∈ c_inc c ++ c_exc c ∨ (x = d ∧ aR ≠ aR')) as [Hx'|[-> Hne]].
    { rewrite !elem_of_app in *. destruct aR, aR'; cbn [andb negb] in Hx; rewrite ?elem_of_nil, ?list_elem_of_singleton in Hx; naive_solver. }
    + specialize (H7 x Hx'). lia.
    + split; [lia|]. destruct (decide (d = right)) as [->|]; [|lia]. exfalso. apply Hne.
      unfold aR, aR'. rewrite H8 by done. rewrite <- Hview, view_above, s0_right by lia. done.
  - lia.
  - by rewrite F2, E4.
  - by rewrite F4.
Qed.

Lemma comp_loop d y stL c :
  (d <= right)%nat → comp_inv d y stL c →
  let '(d', y') := sym_loop s leftlist right false false None d y in
  ∃ stL' c', (d' <= d)%nat ∧ comp_inv d' y' stL' c' ∧ y_marked y' = 0 ∧ for_down cstep d 0 c = for_down cstep d' 0 c'.
Proof.
  revert y stL c. induction d as [|d IH]; intros y stL c Hd Hi; cbn [sym_loop].
  - exists stL, c. split_and!; try done. by rewrite (core_marked s0 _ _ _ _ _ (ci_core _ _ _ _ Hi)).
  - destruct (Z.eqb_spec (y_marked y) 0) as [Hm|Hm]; [by exists stL, c|].
    pose proof (comp_step (S d) y stL c ltac:(lia) Hi) as Hi'. replace (S d - 1)%nat with d in Hi' by lia.
    specialize (IH _ _ _ ltac:(lia) Hi'). destruct (sym_loop _ _ _ _ _ _ _ _) as [d' y'].
    destruct IH as (L & c' & ? & ? & ? & ?). exists L, c'. split_and!; [lia|done..].
Qed.

(** Once the runs agree and nothing is wanted, nothing more is listed. *)
Lemma comp_tail n stL c :
  (∀ j, (j <= n)%nat → stL j = c_slist c j) → (∀ j, (1 <= j <= n)%nat → s0 j = 0) →
  (∀ j, ~ live s j → c_slist c j = 0) → for_down (vstep s) n 0 stL = vrun s (seeds leftlist) →
  c_inc (for_down cstep n 0 c) = c_inc c ∧ c_exc (for_down cstep n 0 c) = c_exc c.
Proof.
  revert stL c. induction n as [|n IH]; intros stL c Heq H0 Hdead Hv; cbn [for_down]; [done|]. rewrite Nat.add_0_l.
  cbn [for_down] in Hv. rewrite Nat.add_0_l in Hv.
  destruct (is_live_dec (s:=s) (S n)) as [Hl|Hd%not_live].
  2:{ rewrite (compress_dead target target_live) by (done || by apply Hdead). rewrite vstep_dead in Hv by done.
      apply (IH stL); [intros; apply Heq; lia|intros; apply H0; lia|done|done]. }
  assert (Hview : view s leftlist (S n) = is_active (stL (S n))).
  { unfold view, view_from. rewrite <- Hv. f_equal. rewrite (for_down_vstep_ge Hwf) by lia. by apply (vstep_ge Hwf). }
  assert (Htgt : negb (target (S n) =? 0) = is_active (c_slist c (S n))).
  { unfold target. rewrite Hview, H0, <- Heq by lia. by destruct (is_active _). }
  destruct (compress_step_lists (s:=s) target (S n) c) as [L1 L2].
  rewrite par_upd_at, (par1_ge Hwf) in L1, L2 by done. rewrite (proj2 Hl), Htgt in L1.
  assert (Ht0 : (target (S n) =? 0) = negb (is_active (c_slist c (S n)))) by (rewrite <- Htgt; by rewrite negb_involutive).
  rewrite (proj2 Hl), Ht0 in L2. cbn [negb andb] in L1, L2.
  rewrite andb_negb_r in L1. rewrite andb_comm, andb_negb_r in L2. rewrite app_nil_r in L1, L2. rewrite <- L1, <- L2.
  apply (IH (vstep s (S n) stL)); [| | |done].
  - intros j Hj. rewrite (vstep_at Hwf), (compress_step_at target) by done. cbv zeta. unfold mark1.
    rewrite !Heq by lia. rewrite Ht0. by destruct (is_active (c_slist c (S n))).
  - intros; apply H0; lia.
  - intros j Hj. rewrite (compress_step_at target) by done. cbv zeta. rewrite (par1_nonlive Hwf), Hdead by done. case_if; [done|].
    apply cl1_other. intros i sg Hin ->. by destruct (wf_cludes s Hwf (S n) j sg Hl Hin).
Qed.

Definition cmap0 : cmap := mkCmap (upd (λ _, 0) right S_PAR) [] [].

Lemma s0_dead j : ~ live s j → s0 j = 0.
Proof. intros Hj. destruct (s0_bits j) as [|E]; [done|]. destruct (s0_live j) as [? _]; [lia|done]. Qed.

Lemma comp_start :
  let '(start, y) := sym_start leftlist right (mkSym s0 (msum (TABLE s) s0) (TABLE s) 0 [] [] true) in
  start = right ∧ comp_inv right y (seeds leftlist) (for_down cstep (TABLE s - right) right cmap0) ∧
  for_down cstep (TABLE s - right) right cmap0 = cmap0.
Proof.
  pose proof (live_tip s right Hwf right_live) as Hrt.
  pose proof (sym_start_core Hwf s0 leftlist right s0_bits (λ d Hd, proj1 (left_live d Hd)) (or_intror right_live)
    (msum (TABLE s) s0) 0 [] [] true ltac:(lia)) as H.
  cbv zeta in H. destruct (sym_start _ _ _) as [start y]. destruct H as (-> & [F1 F2 F3 F4] & C).
  assert (Hmax : Nat.max (foldr Nat.max 0%nat leftlist) right = right).
  { assert (foldr Nat.max 0%nat leftlist <= right)%nat; [|lia].
    assert (∀ d, d ∈ leftlist → (d <= right)%nat) as Hle by (intros d Hd; destruct (left_live d Hd); lia).
    clear -Hle. induction leftlist as [|d ls IH]; cbn; [lia|]. pose proof (Hle d ltac:(by left)).
    specialize (IH ltac:(intros; apply Hle; by right)). lia. }
  split; [done|].
  assert (Hseed : ∀ j, (right < j)%nat → seeds leftlist j = 0).
  { intros j Hj. rewrite seeds_at, bool_decide_eq_false_2; [done|]. intros Hin. destruct (left_live j Hin). lia. }
  assert (HI0 : comp_inv (TABLE s) y (seeds leftlist) cmap0).
  { split; cbn [c_slist c_inc c_exc cmap0]; try done.
    - eapply core_ext; [exact C|done|]. intros j _. unfold right_tips. destruct (Nat.eqb_spec right 0); [lia|].
      rewrite seeds_at. unfold upd. destruct (Nat.eqb_spec j right) as [->|]; [by rewrite bool_decide_eq_true_2 by left|].
      by rewrite bool_decide_eq_false_2 by (by rewrite list_elem_of_singleton).
    - intros j Hj. rewrite F1 by done. cbn [y_slist]. apply s0_dead. intros Hl. pose proof (live_tip s j Hwf Hl). lia.
    - intros j Hj. split.
      + apply (seeds_live (s:=s)); [|done]. intros d Hd. by apply left_live.
      + rewrite upd_ne; [done|]. by intros ->.
    - by rewrite F3.
    - by rewrite F3.
    - intros x Hx. by apply not_elem_of_nil in Hx.
    - intros _. apply upd_eq. }
  assert (HI : comp_inv right y (seeds leftlist) cmap0 ∧ for_down cstep (TABLE s - right) right cmap0 = cmap0); [|by destruct HI as [? ->]].
  apply (for_down_inv cstep (λ t c, comp_inv t y (seeds leftlist) cmap0 ∧ c = cmap0)).
  - by replace (right + (TABLE s - right))%nat with (TABLE s) by lia.
  - intros t c Ht [Hi ->]. destruct (comp_idle t y (seeds leftlist) cmap0) as (Hi' & Hcs & _); [lia|done| |lia|done].
    pose proof (core_byte s0 _ _ _ _ _ (ci_core _ _ _ _ Hi) t (le_n _)) as Hb.
    rewrite Hseed in Hb by lia. cbn [c_slist cmap0] in Hb. rewrite upd_ne in Hb by lia. apply byte_zero in Hb. rewrite Hb.
    destruct (s0_bits t) as [|E]; [done|]. destruct (s0_live t) as [_ ?]; lia.
Qed.

(** The run as a whole: the array is clear and the lists are those of
    [compressmap] towards the target. *)
Lemma symdiff_comp :
  let y := symdiff s leftlist right false false None s0 (msum (TABLE s) s0) in
  y_ok y = true ∧ (∀ j, y_slist y j = 0) ∧ y_count y = 0 ∧
  compressmap s right target = (reverse (sel_cludes false (y_cludes y)), reverse (sel_cludes true (y_cludes y))) ∧
  ∀ x, x ∈ sel_cludes false (y_cludes y) ++ sel_cludes true (y_cludes y) → (1 <= x < right)%nat.
Proof.
  pose proof (live_tip s right Hwf right_live) as Hrt. pose proof comp_start as HS. unfold sym_start in HS. unfold symdiff. cbn [orb].
  assert (Hr0 : negb (right =? 0)%nat = true) by (destruct (Nat.eqb_spec right 0); [lia|done]). rewrite Hr0.
  destruct (sym_left leftlist 0 _) as [start0 y0]. destruct (if (right =? 0)%nat then _ else _) as [start y].
  destruct HS as (-> & HI & Hc0). rewrite Hc0 in HI. pose proof (comp_loop right y (seeds leftlist) cmap0 (le_n _) HI) as HL.
  destruct (sym_loop _ _ _ _ _ _ right y) as [d' y']. destruct HL as (L & c' & Hd' & HI' & Hm & Hfold).
  destruct HI' as [[C1 C2 C3 C4] H2 H3 H4 H5 H6 H7 H8 H9 H10].
  assert (Hdn : ∀ j, 0 <= different (y_slist y') j) by (intros; unfold different; by destruct (S_DIFFERENT _)).
  assert (Hsn : ∀ j, 0 <= s0 j) by (intros j; destruct (s0_bits j) as [-> | ->]; lia).
  pose proof (msum_nonneg d' _ Hdn) as Hn1. pose proof (msum_nonneg d' _ Hsn) as Hn2. rewrite Hm in C2.
  assert (Hz : ∀ j, (1 <= j <= d')%nat → s0 j = 0) by (apply msum_zero; [done|lia]).
  assert (Hlow0 : ~ live s 0) by (intros Hl; pose proof (live_pos s 0 Hl); lia).
  assert (Hz0 : ∀ j, (j <= d')%nat → s0 j = 0) by (intros j Hj; destruct (decide (j = 0%nat)) as [->|]; [by apply s0_dead|apply Hz; lia]).
  assert (Heq : ∀ j, (j <= d')%nat → L j = c_slist c' j).
  { intros j Hj. destruct (decide (j = 0%nat)) as [->|]; [by destruct (H3 0%nat Hlow0) as [-> ->]|].
    pose proof (msum_zero d' _ Hdn ltac:(lia) j ltac:(lia)) as Hdj. unfold different in Hdj.
    destruct (byte_parts (C1 j Hj)) as (_ & Hdf & _). rewrite Hdf in Hdj. by destruct (Z.eqb_spec (L j) (c_slist c' j)). }
  cbn [sym_assert y_lower y_slist y_ok y_count y_cludes]. rewrite Hm.
  set (yf := if negb (d' =? 0)%nat && _ then _ else _).
  assert (Hyf : y_ok yf = true ∧ y_count yf = 0 ∧ y_cludes yf = y_cludes y').
  { unfold yf. case_if; cbn; by rewrite H10, H9. }
  destruct Hyf as (-> & -> & ->). split_and!; [done| |done| |].
  - intros j. unfold yf. destruct (Nat.eqb_spec d' 0) as [->|Hd0]; cbn [negb andb].
    + cbn [sym_assert y_slist]. destruct (decide (j = 0%nat)) as [->|]; [|apply H2; lia].
      destruct (decide (y_slist y' 0%nat = s0 0%nat)) as [->|Hne]; [by apply s0_dead|]. specialize (C3 0%nat (le_n _) Hne). lia.
    + destruct (Nat.eqb_spec (y_lower y') 0); [lia|]. cbn [negb set_slist y_slist]. rewrite sym_clean_at by done.
      destruct (Nat.leb_spec j d') as [Hj|Hj].
      * destruct (Nat.leb_spec (y_lower y') j); cbn [andb].
        -- destruct (C1 j Hj) as (_ & _ & _ & -> & _). by apply Hz0.
        -- destruct (decide (y_slist y' j = s0 j)) as [->|Hne]; [by apply Hz0|]. specialize (C3 j Hj Hne). lia.
      * rewrite andb_false_r. apply H2. lia.
  - unfold compressmap. fold cmap0.
    assert (Hfin : for_down cstep (TABLE s) 0 cmap0 = for_down cstep d' 0 c').
    { replace (TABLE s) with (TABLE s - right + right)%nat by lia. rewrite for_down_add. cbn [Nat.add]. by rewrite Hc0. }
    destruct (comp_tail d' L c' Heq Hz (λ j Hj, proj2 (H3 j Hj)) H4) as [T1 T2].
    change (mkCmap (upd (λ _ : nat, 0) right S_PAR) [] []) with cmap0. rewrite Hfin, T1, T2, H5, H6. done.
  - intros x. rewrite H5, H6. intros Hx. specialize (H7 x Hx). lia.
Qed.
End compress.

(** ** Changing the lists of one delta *)

(** [t] is [s] but for the lists of [r]. *)
Record twin (r : nat) (t s : sccs) : Prop := {
  tw_tip : tip t = tip s;
  tw_len : length (deltas t) = length (deltas s);
  tw_enc : encoding_in t = encoding_in s;
  tw_other : ∀ j, j ≠ r → dl t j = dl s j;
  tw_r : dl t r = set_cludes (CLUDES t r) (dl s r)
}.

Lemma cludes_set_twin s r v : (1 <= r <= length (deltas s))%nat → twin r (CLUDES_SET s r v) s ∧ CLUDES (CLUDES_SET s r v) r = v.
Proof.
  intros Hr. unfold CLUDES_SET. pose proof (dl_set_eq s r (set_cludes v) Hr) as E.
  assert (Hc : CLUDES (set_delta s r (set_cludes v)) r = v) by (unfold CLUDES; by rewrite E). split; [|done].
  split; [by destruct r|apply length_set_delta|by destruct r| |by rewrite Hc]. intros j Hj. by apply dl_set_ne.
Qed.

Lemma twin_trans r a b c : twin r a b → twin r b c → twin r a c.
Proof.
  intros [A1 A2 A3 A4 A5] [B1 B2 B3 B4 B5]. split; [congruence..| |].
  - intros j Hj. by rewrite A4, B4.
  - rewrite A5, B5. done.
Qed.

Section twins.
Context {r : nat} {t s : sccs} (Htw : twin r t s).

Lemma twin_fields j : FLAGS t j = FLAGS s j ∧ PARENT t j = PARENT s j ∧ MERGE t j = MERGE s j.
Proof.
  unfold FLAGS, PARENT, MERGE. destruct (decide (j = r)) as [->|Hj]; [by rewrite (tw_r _ _ _ Htw)|by rewrite (tw_other _ _ _ Htw)].
Qed.

Lemma twin_cludes j : j ≠ r → CLUDES t j = CLUDES s j.
Proof. intros Hj. unfold CLUDES. by rewrite (tw_other _ _ _ Htw). Qed.

Lemma twin_live j : live t j ↔ live s j.
Proof. unfold live, TAG. by rewrite (proj1 (twin_fields j)). Qed.

Lemma twin_par1 d bt j b : par1 t d bt j b = par1 s d bt j b.
Proof.
  destruct (twin_fields d) as (_ & HP & HM). unfold par1, BKMERGE. by rewrite HP, HM, (tw_enc _ _ _ Htw).
Qed.

Lemma twin_vstep d st : d ≠ r → vstep t d st = vstep s d st.
Proof.
  intros Hd. destruct (twin_fields d) as (HF & HP & HM).
  unfold vstep, par_upd, BKMERGE, TAG. by rewrite HF, HP, HM, (tw_enc _ _ _ Htw), (twin_cludes d Hd).
Qed.

Lemma twin_run n st : (n < r)%nat → for_down (vstep t) n 0 st = for_down (vstep s) n 0 st.
Proof.
  intros Hn. apply (for_down_inv2 _ _ (λ _ a b, a = b)); [done|]. intros d a b Hd ->. apply twin_vstep. lia.
Qed.

(** Well-formed when the new lists hold older deltas of the file. *)
Lemma twin_wf : wf_graph s → (∀ e sign, (e, sign) ∈ clude_list (CLUDES t r) → (1 <= e < r)%nat ∧ live s e) → wf_graph t.
Proof.
  intros [W1 W2 W3 W4] Hc. split.
  - unfold TABLE. by rewrite (tw_tip _ _ _ Htw), (tw_len _ _ _ Htw).
  - intros d Hl. destruct (twin_fields d) as (_ & -> & _). rewrite !twin_live in *. by apply W2.
  - intros d Hl. destruct (twin_fields d) as (_ & -> & ->). rewrite !twin_live in *. by apply W3.
  - intros d e sign Hl Hin. rewrite twin_live in *. destruct (decide (d = r)) as [->|Hd]; [by apply (Hc e sign)|].
    rewrite twin_cludes in Hin by done. by apply (W4 d e sign).
Qed.

(** Versions of older tips are the same. *)
Lemma twin_view_below ls j :
  (1 <= r <= TABLE s)%nat → (∀ d, d ∈ ls → (d < r)%nat) → view t ls j = view s ls j.
Proof.
  intros Hr Hls. unfold view, view_from.
  assert (H0 : ∀ x, (r - 1 < x)%nat → seeds ls x = 0).
  { intros x Hx. rewrite seeds_at, bool_decide_eq_false_2; [done|]. intros Hin. specialize (Hls x Hin). lia. }
  rewrite (vrun_start (s:=t) (r - 1)), (vrun_start (s:=s) (r - 1)); [by rewrite twin_run by lia|lia|done| |done].
  unfold TABLE in *. rewrite (tw_tip _ _ _ Htw). lia.
Qed.
End twins.

(** ** Lists as marks *)

Definition clude_pairs (inc exc : list nat) : list (nat * Z) := map (λ e, (e, 1)) inc ++ map (λ e, (e, -1)) exc.

Definition list_mark (inc exc : list nat) (j : nat) : Z :=
  if bool_decide (j ∈ inc) then S_INC else if bool_decide (j ∈ exc) then S_EXCL else 0.

Lemma cl1_set j l sg b :
  fold_left (cl1 j) (map (λ e, (e, sg)) l) b =
  if bool_decide (j ∈ l) && (Z.land b (Z.lor S_INC S_EXCL) =? 0) then Z.lor b (if sg >? 0 then S_INC else S_EXCL) else b.
Proof.
  revert b. induction l as [|x l IH]; intros b; cbn [map fold_left].
  - by rewrite bool_decide_eq_false_2 by apply not_elem_of_nil.
  - rewrite IH. unfold cl1. destruct (Nat.eqb_spec j x) as [->|Hne].
    + rewrite (bool_decide_eq_true_2 (x ∈ x :: l)) by left. cbn [andb].
      destruct (Z.eqb_spec (Z.land b (Z.lor S_INC S_EXCL)) 0) as [E|E].
      * assert (Hm : (Z.land (Z.lor b (if sg >? 0 then S_INC else S_EXCL)) (Z.lor S_INC S_EXCL) =? 0) = false).
        { apply Z.eqb_neq. rewrite Z.land_lor_distr_l, E, Z.lor_0_l. by destruct (sg >? 0). }
        rewrite Hm, andb_false_r. done.
      * rewrite (proj2 (Z.eqb_neq _ _) E), andb_false_r. done.
    + rewrite (bool_decide_ext (j ∈ x :: l) (j ∈ l)); [done|]. rewrite elem_of_cons. naive_solver.
Qed.

Lemma cl1_pairs j inc exc b :
  b = 0 ∨ b = S_PAR → fold_left (cl1 j) (clude_pairs inc exc) b = Z.lor b (list_mark inc exc j).
Proof.
  intros Hb. unfold clude_pairs, list_mark. rewrite fold_left_app, !cl1_set.
  destruct Hb as [-> | ->]; destruct (bool_decide (j ∈ inc)); cbn; destruct (bool_decide (j ∈ exc)); reflexivity.
Qed.

(** The lists of [r] act as lists given by hand. *)
Lemma twin_view_right r t s inc exc j :
  twin r t s → wf_graph t → wf_graph s → live s r → CLUDES s r = [] →
  clude_list (CLUDES t r) = clude_pairs inc exc → (∀ x, x ∈ inc ++ exc → (x < r)%nat) →
  view t [r] j = view_from s (SerialMap.seed_bits r 0 inc exc) j.
Proof.
  intros Htw Hwt Hws Hl Hs Ht Hlt. pose proof (live_tip s r Hws Hl) as Hr. unfold view, view_from. f_equal.
  assert (Hbits : ∀ x, SerialMap.seed_bits r 0 inc exc x = Z.lor (list_mark inc exc x) (if (x =? r)%nat then S_PAR else 0)).
  { intros x. unfold SerialMap.seed_bits, list_mark. cbn [negb andb Nat.eqb]. by rewrite orb_false_r. }
  assert (Hm0 : ∀ x, (r <= x)%nat → list_mark inc exc x = 0).
  { intros x Hx. unfold list_mark. rewrite !bool_decide_eq_false_2; [done|..];
      intros Hin; specialize (Hlt x ltac:(rewrite elem_of_app; tauto)); lia. }
  assert (Hseed : ∀ x, seeds [r] x = if (x =? r)%nat then S_PAR else 0).
  { intros x. rewrite seeds_at. destruct (Nat.eqb_spec x r) as [->|]; [by rewrite bool_decide_eq_true_2 by left|].
    by rewrite bool_decide_eq_false_2 by (by rewrite list_elem_of_singleton). }
  rewrite (vrun_start (s:=t) r), (vrun_start (s:=s) r).
  2,4: unfold TABLE in *; rewrite ?(tw_tip _ _ _ Htw); lia.
  2:{ intros x Hx. rewrite Hbits, Hm0 by lia. by destruct (Nat.eqb_spec x r); [lia|]. }
  2:{ intros x Hx. rewrite Hseed. by destruct (Nat.eqb_spec x r); [lia|]. }
  destruct r as [|r]; [lia|]. cbn [for_down]. rewrite Nat.add_0_l, (twin_run Htw) by lia.
  apply (vrun_agree Hws r (Nat.max r j)); [lia| |lia]. intros x _.
  rewrite (vstep_at Hwt), (vstep_at Hws) by (rewrite ?(twin_live Htw); done). unfold mark1.
  rewrite !Hseed, !Hbits, (Hm0 (S r)), Nat.eqb_refl, Ht, Hs by lia. change (Z.lor 0 S_PAR) with S_PAR.
  change (is_active S_PAR) with true. cbv iota. change (clude_list []) with (@nil (nat * Z)). cbn [fold_left].
  rewrite (twin_par1 Htw). destruct (Nat.eqb_spec x (S r)) as [->|Hne].
  - rewrite !(par1_ge Hws) by (done || lia). rewrite cl1_pairs by auto. by rewrite Hm0 by lia.
  - rewrite Z.lor_0_r. unfold par1.
    case_if; [|by rewrite cl1_pairs, Z.lor_0_l by auto]. rewrite cl1_pairs by auto. by rewrite Z.lor_0_l, Z.lor_comm.
Qed.

(** ** The written lists *)

Lemma sortrev_elem l x : x ∈ serial_sortrev l ↔ x ∈ l.
Proof. unfold serial_sortrev. by rewrite (merge_sort_Permutation newer l). Qed.

Lemma clude_list_text l :
  (∀ x, x ∈ sel_cludes false l ++ sel_cludes true l → (1 <= x)%nat ∧ Z.of_nat x < 2 ^ 31) →
  clude_list (cludes_text l) = clude_pairs (serial_sortrev (sel_cludes false l)) (serial_sortrev (sel_cludes true l)).
Proof.
  intros H. unfold clude_list, cludes_text. rewrite nums_saveNums.
  - rewrite map_app, !map_map. unfold clude_pairs. f_equal; apply map_ext; intros e; by rewrite Nat2Z.id.
  - apply Forall_app. split; apply Forall_forall; intros p Hp; apply list_elem_of_fmap in Hp as (x & -> & Hx);
      rewrite sortrev_elem in Hx; destruct (H x ltac:(rewrite elem_of_app; tauto)); unfold savable; cbn; split; (lia || auto).
Qed.

(** ** Properties *)

(** C12. [symdiff_compress] writes lists that realize a wanted difference: given
    tips on the left older than the delta on the right, and a set of deltas of
    the file no newer than the right one and holding it, with their number, on a
    well-formed table of fewer than 2^31 deltas none of which is gone (but possibly
    the only tip on the left), no assert fails, the array comes back clear, only the lists of the right delta
    change, the graph stays well-formed, the left version is what it was, and
    afterwards the left and the right version differ in exactly the deltas of
    the set. *)
Theorem symdiff_compress_correct s leftlist right slist :
  wf_graph s → Z.of_nat (TABLE s) < 2 ^ 31 →
  (∀ d, d ∈ leftlist → live s d ∧ (d < right)%nat) → live s right →
  (∀ d, live s d → Z.land (FLAGS s d) D_GONE = 0 ∨ ∃ ls, leftlist = d :: ls) →
  (∀ j, slist j = 0 ∨ slist j = 1) → slist right = 1 → (∀ j, slist j ≠ 0 → live s j ∧ (j <= right)%nat) →
  let '(s', y) := symdiff_compress s leftlist right slist (msum (TABLE s) slist) in
  y_ok y = true ∧ y_count y = 0 ∧ (∀ j, y_slist y j = 0) ∧ wf_graph s' ∧ (∀ d, d ≠ right → dl s' d = dl s d) ∧
  (∀ j, view s' leftlist j = view s leftlist j) ∧
  ∀ j, xorb (view s' leftlist j) (view s' [right] j) = negb (slist j =? 0).
Proof.
  intros Hwf Hsm Hleft Hright Hgone Hbits Hr1 Hsl. unfold symdiff_compress, comp.
  pose proof (live_tip s right Hwf Hright) as Hrt. pose proof (wf_tip s Hwf) as Htip.
  destruct (cludes_set_twin s right [] ltac:(lia)) as [Htw1 Hc1]. set (s1 := CLUDES_SET s right []) in *.
  assert (HT1 : TABLE s1 = TABLE s) by apply (tw_tip _ _ _ Htw1).
  assert (Hwf1 : wf_graph s1) by (apply (twin_wf Htw1 Hwf); intros e sg; rewrite Hc1; by intros ?%not_elem_of_nil).
  assert (Hlive1 : ∀ d, live s1 d ↔ live s d) by apply (twin_live Htw1).
  assert (Hsl1 : ∀ j, slist j ≠ 0 → live s1 j ∧ (j <= right)%nat) by (intros j; rewrite Hlive1; apply Hsl).
  assert (Hleft1 : ∀ d, d ∈ leftlist → live s1 d ∧ (d < right)%nat) by (intros d; rewrite Hlive1; apply Hleft).
  assert (Hright1 : live s1 right) by (by rewrite Hlive1).
  assert (Hgone1 : ∀ d, live s1 d → Z.land (FLAGS s1 d) D_GONE = 0 ∨ ∃ ls, leftlist = d :: ls).
  { intros d. rewrite Hlive1, (proj1 (twin_fields Htw1 d)). apply Hgone. }
  pose proof (symdiff_comp Hwf1 slist leftlist right Hbits Hsl1 Hr1 Hleft1 Hright1 Hgone1 ltac:(by rewrite HT1)) as HC.
  cbv zeta in HC. rewrite HT1 in HC. set (y := symdiff s1 leftlist right false false None slist _) in *.
  destruct HC as (Hok & Hclr & Hcnt & Hcm & Hbelow). rewrite app_nil_r.
  pose proof (compressmap_view s1 right (target slist leftlist (s:=s1)) Hwf1 Hright1
    (target_live Hwf1 slist leftlist right Hsl1 Hleft1)) as HV.
  rewrite Hcm in HV. set (inc := sel_cludes false (y_cludes y)) in *. set (exc := sel_cludes true (y_cludes y)) in *.
  destruct HV as (Hlv & _ & Hview).
  set (s' := match y_cludes y with [] => s1 | _ => _ end).
  assert (Hs' : twin right s' s1 ∧ clude_list (CLUDES s' right) = clude_pairs (serial_sortrev inc) (serial_sortrev exc)).
  { assert (Hx : ∀ x, x ∈ inc ++ exc → (1 <= x)%nat ∧ Z.of_nat x < 2 ^ 31) by (intros x Hx; specialize (Hbelow x Hx); lia).
    unfold s', inc, exc. destruct (y_cludes y) as [|e l] eqn:El.
    - rewrite Hc1. split; [|done]. split; try done. unfold CLUDES. by destruct (dl s1 right).
    - rewrite <- El in *. destruct (cludes_set_twin s1 right (cludes_text (y_cludes y))) as [Htw2 Hc2].
      { rewrite <- (wf_tip s1 Hwf1), HT1. lia. }
      split; [done|]. rewrite Hc2. apply clude_list_text. intros x Hxx. apply Hx. unfold inc, exc. by rewrite <- El. }
  destruct Hs' as [Htw2 Hcl]. assert (Htw : twin right s' s) by (by eapply twin_trans).
  assert (Hwf' : wf_graph s').
  { apply (twin_wf Htw2 Hwf1). intros e sg Hin. rewrite Hcl in Hin. unfold clude_pairs in Hin.
    assert (He : e ∈ inc ++ exc).
    { rewrite elem_of_app. apply elem_of_app in Hin as [Hin|Hin]; apply list_elem_of_fmap in Hin as (x & [= -> ->] & Hx);
        rewrite sortrev_elem in Hx; tauto. }
    split; [by apply Hbelow|]. apply Hlv. rewrite elem_of_app, !elem_of_reverse, <- elem_of_app. done. }
  assert (Hleftv : ∀ j, view s' leftlist j = view s1 leftlist j).
  { intros j. apply (twin_view_below Htw2); [lia|]. intros d Hd. by apply Hleft1. }
  split_and!; [done|done|done|done| | |].
  - intros d Hd. by apply (tw_other _ _ _ Htw).
  - intros j. apply (twin_view_below Htw); [lia|]. intros d Hd. by apply Hleft.
  - intros j. rewrite Hleftv.
    rewrite (twin_view_right right s' s1 _ _ j Htw2 Hwf' Hwf1 Hright1 Hc1 Hcl).
    2:{ intros x. rewrite elem_of_app, !sortrev_elem, <- elem_of_app. intros Hx. apply Hbelow in Hx. lia. }
    assert (Hext : view_from s1 (SerialMap.seed_bits right 0 (serial_sortrev inc) (serial_sortrev exc)) j =
                   view_from s1 (SerialMap.seed_bits right 0 (reverse inc) (reverse exc)) j).
    { unfold view_from. f_equal. apply vrun_ext; [done|]. intros x. unfold SerialMap.seed_bits. f_equal.
      rewrite (bool_decide_ext (x ∈ serial_sortrev inc) (x ∈ reverse inc)) by (by rewrite sortrev_elem, elem_of_reverse).
      by rewrite (bool_decide_ext (x ∈ serial_sortrev exc) (x ∈ reverse exc)) by (by rewrite sortrev_elem, elem_of_reverse). }
    rewrite Hext, Hview. unfold target. by destruct (view s1 leftlist j), (negb (slist j =? 0)).
Qed.

(** The merge 5 of [ex_graph] rewritten to differ from 3 in 2 and 5 only. *)
Definition ex_diff (j : nat) : Z := if (j =? 2)%nat || (j =? 5)%nat then 1 else 0.

Lemma symdiff_compress_correct_witness :
  clude_list (CLUDES (fst (symdiff_compress ex_graph [3%nat] 5 ex_diff 2)) 5) = [(2%nat, -1)] ∧
  let '(s', y) := symdiff_compress ex_graph [3%nat] 5 ex_diff (msum (TABLE ex_graph) ex_diff) in
  y_ok y = true ∧ y_count y = 0 ∧ (∀ j, y_slist y j = 0) ∧ wf_graph s' ∧ (∀ d, d ≠ 5%nat → dl s' d = dl ex_graph d) ∧
  (∀ j, view s' [3%nat] j = view ex_graph [3%nat] j) ∧
  ∀ j, xorb (view s' [3%nat] j) (view s' [5%nat] j) = negb (ex_diff j =? 0).
Proof.
  split; [reflexivity|]. apply (symdiff_compress_correct ex_graph [3%nat] 5 ex_diff ex_graph_wf).
  - cbn. lia.
  - intros d ->%list_elem_of_singleton. split; [apply ex_graph_live; lia|lia].
  - apply ex_graph_live. lia.
  - intros d Hd. left. pose proof (live_tip _ _ ex_graph_wf Hd) as Hr. cbn in Hr.
    do 7 (destruct d as [|d]; [reflexivity|]). lia.
  - intros j. unfold ex_diff. case_if; auto.
  - reflexivity.
  - intros j Hj. assert (Hj' : (1 <= j <= 5)%nat).
    { unfold ex_diff in Hj. destruct (Nat.eqb_spec j 2); [lia|]. by destruct (Nat.eqb_spec j 5); [lia|]. }
    split; [apply ex_graph_live; lia|lia].
Defined.
