(* ===== verification/Weave.v ===== *)
(** * Weave: the interleaved history of a file

    The weave holds every line of every version of a file once, inside nested
    control lines: [^AI n] .. [^AE n] brackets the lines delta [n] inserted,
    [^AD n] .. [^AE n] those it deleted.  This file models, from
    src/src/slib.c, the state machine that says whether a line is in a version
    ([changestate], [printstate], [whatstate], [delstate], [whodelstate],
    [visitedstate]), the reader ([get_reg], for text files without prefixes,
    keyword expansion or hash interpretation) and the writers ([weaveMove],
    [weaveDiffs], [delta_write]'s retry, [doFast], [weaveMap]).

    Weave input and output are lists of lines without their newline.  The
    state is the [ser_t] array as a list, oldest first (Lines shows that the
    array operations act as list operations).  [None] is a failed assert. *)

From S2P Require Import Prelude CStr Sccs.
From stdpp Require Import base numbers list strings.
From Stdlib Require Import ZArith Lia.

Local Open Scope Z_scope.

Local Open Scope bk_scope.

(** ** The state *)

Definition SL_MASK : Z := 0x7fffffff.

Definition SL_SER (x : Z) : Z := Z.land x SL_MASK.

Definition SL_INS (x : Z) : bool := negb (Z.land x (Z.lnot SL_MASK) =? 0).

Definition SL_SET (ser : Z) (i : bool) : Z := Z.lor ser (if i then SL_MASK + 1 else 0).

(** [slist[ser]] of a [u8 *slist]. *)
Definition sl_at (slist : nat → Z) (ser : Z) : Z := slist (Z.to_nat ser).

(** [state[i]], 1-based. *)
Definition state_at (state : list Z) (i : nat) : Z := nth (i - 1) state 0.

Definition cI : Z := 73.

Definition cD : Z := 68.

Definition cE : Z := 69.

Definition cN : Z := 78.

(** The search loop of [changestate], from index [i] down: the index where it
    stops, [None] when it meets an insert of a newer serial. *)
Fixpoint find_place (state : list Z) (serial : Z) (i : nat) : option nat :=
  match i with
  | O => Some O
  | S k =>
      if SL_SER (state_at state i) <=? serial then Some i
      else if SL_INS (state_at state i) then None else find_place state serial k
  end.

(** Index 0 of a line array is its header: [removeArrayN] refuses it. *)
Definition changestate (state : list Z) (type serial : Z) : option (list Z) :=
  assert! (Z.land serial (Z.lnot SL_MASK) =? 0);
  let? i := find_place state serial (length state) in
  if type =? cE then
    assert! (negb (i =? 0)%nat && (SL_SER (state_at state i) =? serial));
    Some (delete (i - 1)%nat state)
  else Some (take i state ++ [SL_SET serial (type =? cI)] ++ drop i state).

(** The loops run on the reversed array: newest entry first. *)
Fixpoint whodelstate_loop (st : list Z) (slist : nat → Z) (delrev : Z) : Z :=
  match st with
  | [] => 0
  | x :: st =>
      if SL_INS x then (if negb (sl_at slist (SL_SER x) =? 0) then delrev else 0)
      else whodelstate_loop st slist (if negb (sl_at slist (SL_SER x) =? 0) then SL_SER x else delrev)
  end.

Definition whodelstate (state : list Z) (slist : nat → Z) : Z :=
  whodelstate_loop (reverse state) slist 0.

Fixpoint delstate_loop (ser : Z) (st : list Z) (slist : nat → Z) (ok : bool) : Z :=
  match st with
  | [] => 0
  | x :: st =>
      if SL_INS x then
        if ok && negb (sl_at slist (SL_SER x) =? 0) then SL_SER x else 0
      else if SL_SER x =? ser then delstate_loop ser st slist true
      else if negb (sl_at slist (SL_SER x) =? 0) then 0
      else delstate_loop ser st slist ok
  end.

Definition delstate (ser : Z) (state : list Z) (slist : nat → Z) : option Z :=
  assert! (negb (sl_at slist ser =? 0)); Some (delstate_loop ser (reverse state) slist false).

Fixpoint iIndex_loop (st : list Z) : nat :=
  match st with
  | [] => O
  | x :: t => if SL_INS x then length st else iIndex_loop t
  end.

Definition iIndex (state : list Z) : nat := iIndex_loop (reverse state).

Fixpoint whatstate_loop (st : list Z) : Z :=
  match st with
  | [] => 0
  | x :: t => if SL_INS x then SL_SER x else whatstate_loop t
  end.

Definition whatstate (state : list Z) : Z := whatstate_loop (reverse state).

Definition visitedstate (state : list Z) (slist : nat → Z) : Z :=
  let ser := whatstate state in
  if negb (ser =? 0) && negb (sl_at slist ser =? 0) then ser else 0.

Fixpoint printstate_loop (st : list Z) (slist : nat → Z) : Z :=
  match st with
  | [] => 0
  | x :: t =>
      let val := SL_SER x in
      if SL_INS x then (if negb (sl_at slist val =? 0) then val else 0)
      else if negb (sl_at slist val =? 0) then 0 else printstate_loop t slist
  end.

Definition printstate (state : list Z) (slist : nat → Z) : Z :=
  printstate_loop (reverse state) slist.

(** ** Weave lines *)

Definition isData (buf : cstr) : bool :=
  negb (at0 buf =? 1) || (at0 (drop 1 buf) =? 1).

Definition CNTLA_ESCAPE : Z := 1.

Fixpoint str_cksum (p : cstr) : Z :=
  match p with
  | [] => 0
  | c :: p => if c =? 10 then c else c + str_cksum p
  end.

(** The line [^AZ] or the end of the file stops the reader. *)
Definition eof_mark (b : cstr) : bool := bool_decide (b = [1; 90]).

Definition sccs_nextdata (fh : list cstr) : option cstr * list cstr :=
  match fh with
  | [] => (None, [])
  | b :: r => if eof_mark b then (None, r) else (Some b, r)
  end.

(** A control line as the loops scan it: type, serial, the text after it. *)
Definition ctl_scan (buf : cstr) : Z * Z * cstr :=
  let '(serial, n) := atoi_p (drop 3 buf) in (at0 (drop 1 buf), serial, n).

(** [fprintf(out, "\001%c %u%s\n", type, serial, n)] *)
Definition ctl_line (type serial : Z) (n : cstr) : cstr := [1; type; 32] ++ printf_u serial ++ n.

(** [doctrl(s, "\001<type> ", val, post)] *)
Definition doctrl (type val : Z) (post : cstr) : cstr := [1; type; 32] ++ sertoa val ++ post.

(** [fix_cntl_a] in front of a line: the escape for a leading ^A. *)
Definition fix_cntl_a (buf : cstr) : cstr := if at0 buf =? 1 then [CNTLA_ESCAPE] else [].

(** ** struct fweave

    [w_fh] and [w_out] are [s->fh] and [s->outfh]; the weave map and the set
    [slist] are arguments of the operations. *)
Record fweave := mkFweave {
  w_fh : list cstr;
  w_buf : option cstr;
  w_state : list Z;
  w_sum : Z;
  w_print : Z;
  w_line : Z;
  w_cur : Z;
  w_no_lf : Z;
  w_out : list cstr
}.

Definition emit (l : cstr) (w : fweave) : fweave :=
  mkFweave (w_fh w) (w_buf w) (w_state w) (w_sum w) (w_print w) (w_line w) (w_cur w) (w_no_lf w)
           (w_out w ++ [l]).

Definition set_fh (r : list cstr) (w : fweave) : fweave :=
  mkFweave r (w_buf w) (w_state w) (w_sum w) (w_print w) (w_line w) (w_cur w) (w_no_lf w) (w_out w).

Definition set_buf (b : option cstr) (w : fweave) : fweave :=
  mkFweave (w_fh w) b (w_state w) (w_sum w) (w_print w) (w_line w) (w_cur w) (w_no_lf w) (w_out w).

Definition set_state (st : list Z) (w : fweave) : fweave :=
  mkFweave (w_fh w) (w_buf w) st (w_sum w) (w_print w) (w_line w) (w_cur w) (w_no_lf w) (w_out w).

(** [w->sum += n], a 16-bit sum. *)
Definition add_sum (n : Z) (w : fweave) : fweave :=
  mkFweave (w_fh w) (w_buf w) (w_state w) (u16 (w_sum w + n)) (w_print w) (w_line w) (w_cur w)
           (w_no_lf w) (w_out w).

Definition set_print (p : Z) (w : fweave) : fweave :=
  mkFweave (w_fh w) (w_buf w) (w_state w) (w_sum w) p (w_line w) (w_cur w) (w_no_lf w) (w_out w).

Definition set_line (n : Z) (w : fweave) : fweave :=
  mkFweave (w_fh w) (w_buf w) (w_state w) (w_sum w) (w_print w) n (w_cur w) (w_no_lf w) (w_out w).

Definition set_cur (n : Z) (w : fweave) : fweave :=
  mkFweave (w_fh w) (w_buf w) (w_state w) (w_sum w) (w_print w) (w_line w) n (w_no_lf w) (w_out w).

Definition set_no_lf (n : Z) (w : fweave) : fweave :=
  mkFweave (w_fh w) (w_buf w) (w_state w) (w_sum w) (w_print w) (w_line w) (w_cur w) n (w_out w).

Definition weaveReset (w : fweave) : fweave :=
  let '(buf, fh) := sccs_nextdata (w_fh w) in
  mkFweave fh buf (w_state w) 0 0 0 0 0 (w_out w).

(** [wmap]: entry 0 is the newest serial that does not change. *)
Definition wmap_apply (wmap : option (list Z)) (serial : Z) : Z :=
  match wmap with
  | None => serial
  | Some m => let m0 := nth 0 m 0 in
              if m0 <? serial then nth (Z.to_nat (serial - m0)) m 0 else serial
  end.

(** ** weaveMove *)

Record wm_flags := mkFlags { f_fast : bool; f_before : bool; f_clrlf : bool; f_del : bool; f_fin : bool }.

Definition WM_FAST_BEFORE : wm_flags := mkFlags true true false false false.

Definition WM_FAST_AFTER : wm_flags := mkFlags true false false false false.

Definition WM_FAST_FINISH : wm_flags := mkFlags true false false false true.

Definition WM_BEFORE_DEL : wm_flags := mkFlags false true false false false.

Definition WM_AFTER_DEL : wm_flags := mkFlags false false false true false.

Definition WM_ADD : wm_flags := mkFlags false false true false false.

Definition WM_FINISH : wm_flags := mkFlags false false false false true.

Definition not_before (f : wm_flags) : wm_flags :=
  mkFlags (f_fast f) false (f_clrlf f) (f_del f) (f_fin f).

(** How a loop of [weaveMove] ends: at label [end], at label [after], or at the
    end of the input. *)
Inductive wm_exit :=
  | AtEnd (buf : cstr) (rest : list cstr) (print : Z) (w : fweave)
  | AtAfter (buf : cstr) (rest : list cstr) (print : Z) (w : fweave)
  | AtEof (print : Z) (w : fweave).

Section weaveMove.
Variables (wmap : option (list Z)) (slist : nat → Z).

(** A data line in the first loop (past the [before] exit). *)
Definition move_data (f : wm_flags) (buf : cstr) (print : Z) (w : fweave) : fweave :=
  let w := if negb (print =? 0) then set_line (w_line w + 1) w else w in
  let w :=
    if negb (print =? 0) && negb (f_del f) then
      let w := add_sum (str_cksum buf + 10) (set_no_lf print w) in
      if at0 buf =? CNTLA_ESCAPE then add_sum (- CNTLA_ESCAPE) w else w
    else if w_no_lf w =? w_cur w then set_no_lf 0 w else w in
  emit buf w.

(** A control line in the first loop: the new [print] and state. *)
Definition move_ctl (f : wm_flags) (type serial : Z) (n : cstr) (w : fweave) : option (Z * fweave) :=
  let w := emit (ctl_line type serial n) w in
  let? st := changestate (w_state w) type serial in
  let w := set_state st w in
  let print := whatstate st in
  if f_fast f then
    Some (if negb (print =? 0) && (sl_at slist print =? 0) then 0 else print, w)
  else
    let? w := (if w_no_lf w =? serial then
                 assert! (type =? cE); Some (if negb (at0 n =? cN) then set_no_lf 0 w else w)
               else Some w) in
    Some (printstate st slist, set_cur print w).

Fixpoint move_loop (f : wm_flags) (line patchserial : Z) (buf : cstr) (rest : list cstr)
    (print : Z) (w : fweave) : option wm_exit :=
  let next print w :=
    match rest with
    | [] => Some (AtEof print (set_fh [] w))
    | b :: r => if eof_mark b then Some (AtEof print (set_fh r w))
                else move_loop f line patchserial b r print w
    end in
  if negb (f_fin f || (w_line w <? line)) then Some (AtAfter buf rest print w) else
  if isData buf then
    if negb (print =? 0) && f_before f then Some (AtEnd buf rest print w)
    else next print (move_data f buf print w)
  else
    let '(type, serial, n) := ctl_scan buf in
    assert! (negb (serial =? 0));
    let serial := wmap_apply wmap serial in
    assert! (negb (patchserial =? serial));
    if f_before f && negb (print =? 0) && (type =? cD) && (patchserial <? serial)
    then Some (AtEnd buf rest print w)
    else let? (print, w) := move_ctl f type serial n w in next print w.

(** The loop at label [after]: skip the blocks of newer deltas. *)
Fixpoint after_loop (f : wm_flags) (patchserial : Z) (skipblock : Z) (buf : cstr) (rest : list cstr)
    (print : Z) (w : fweave) : option wm_exit :=
  let next skipblock print w :=
    match rest with
    | [] => Some (AtEof print (set_fh [] w))
    | b :: r => if eof_mark b then Some (AtEof print (set_fh r w))
                else after_loop f patchserial skipblock b r print w
    end in
  if isData buf then
    if skipblock =? 0 then Some (AtEnd buf rest print w)
    else assert! (print =? 0); next skipblock print (emit buf w)
  else
    let '(type, serial, n) := ctl_scan buf in
    if (skipblock =? 0) && (type =? cD) then Some (AtEnd buf rest print w) else
    assert! (negb (serial =? 0));
    let serial := wmap_apply wmap serial in
    assert! (negb (patchserial =? serial));
    if serial <? patchserial then Some (AtEnd buf rest print w) else
    let w := emit (ctl_line type serial n) w in
    let? skipblock :=
      (if skipblock =? 0 then Some (if type =? cI then serial else skipblock)
       else if skipblock =? serial then assert! (type =? cE); Some 0 else Some skipblock) in
    let? st := changestate (w_state w) type serial in
    let print :=
      if f_fast f then
        let p := whatstate st in if negb (p =? 0) && (sl_at slist p =? 0) then 0 else p
      else printstate st slist in
    next skipblock print (set_state st w).

(** Label [end]. *)
Definition move_end (f : wm_flags) (buf : option cstr) (print : Z) (w : fweave) : Z * fweave :=
  let w := set_print print (set_buf buf w) in
  if f_fast f then (0, w) else
  let w := if f_clrlf f then set_no_lf 0 w else w in
  (0, if f_fin f && negb (w_no_lf w =? 0) then add_sum (-10) w else w).

(** [weaveMove] without its recursive call: the return code (1: unexpected end
    of file, [w_buf] left as it was) and the new state. *)
Definition weaveMove1 (w : fweave) (line patchserial : Z) (f : wm_flags) : option (Z * fweave) :=
  match w_buf w with
  | None =>
      Some (if negb (f_fin f) &&
               (f_before f || (if f_fast f then negb (line =? w_line w) else negb (line =? 0)))
            then 1 else 0, w)
  | Some buf =>
      let? e := move_loop f line patchserial buf (w_fh w) (w_print w) w in
      match e with
      | AtEnd buf rest print w => Some (move_end f (Some buf) print (set_fh rest w))
      | AtEof print w =>
          if f_fin f && (whatstate (w_state w) =? 0) then Some (move_end f None print w)
          else Some (1, w)
      | AtAfter buf rest print w =>
          assert! (negb (f_before f));
          let? e := after_loop f patchserial 0 buf rest print w in
          match e with
          | AtEnd buf rest print w | AtAfter buf rest print w =>
              Some (move_end f (Some buf) print (set_fh rest w))
          | AtEof print w =>
              match w_state w with
              | [] => Some (move_end f None print w)
              | _ => Some (1, w)
              end
          end
      end
  end.

Definition weaveMove (w : fweave) (line patchserial : Z) (f : wm_flags) : option (Z * fweave) :=
  if f_before f then
    assert! (negb (f_fin f));
    let? (rc, w) := weaveMove1 w (line - 1) patchserial (not_before f) in
    if negb (rc =? 0) then Some (1, w) else weaveMove1 w line patchserial f
  else weaveMove1 w line patchserial f.

(** ** weaveDiffs *)

(** A diff file: its lines, each with whether a newline ends it (only the last
    may lack it). *)
Definition dfile : Type := list (cstr * bool).

Definition is_crlf (c : Z) : bool := (c =? 13) || (c =? 10).

(** [fgetline]: newlines and carriage returns removed. *)
Definition fgetline_text (l : cstr * bool) : cstr := strip_back is_crlf (fst l).

(** [scandiff]: [(what, where, howmany)], [None] for -1. *)
Definition scandiff (s : cstr) : option (Z * Z * Z) :=
  match s with
  | [] => None
  | c :: t =>
      if negb (memchr c (s2b "DINad"%string)) then None else
      let '(where_, s1) := atoi_p t in
      if negb ((length s1 <? length t)%nat && (at0 s1 =? 32)) then None else
      let t := drop 1 s1 in
      let '(howmany, s2) := atoi_p t in
      if negb ((length s2 <? length t)%nat && match s2 with [] => true | _ => false end) then None
      else Some (c, where_, howmany)
  end.

Definition cmd_a : Z := 97.

Definition cmd_d : Z := 100.

Record wd_locals := mkWd {
  wd_w : fweave; wd_fixdel : Z; wd_no_lf : bool; wd_lastdel : Z;
  wd_addthis : option cstr; wd_added : Z; wd_deleted : Z
}.

(** The [while (howmany--)] loop: [inr tt] is the unexpected end of the diffs. *)
Fixpoint ins_loop (what : Z) (howmany : nat) (diffs : dfile) (no_lf : bool) (added : Z) (w : fweave) :
    option ((dfile * bool * Z * fweave) + unit) :=
  match howmany with
  | O => Some (inl (diffs, no_lf, added, w))
  | S more =>
      match diffs with
      | [] => Some (inr tt)
      | (b, nl) :: diffs =>
          let? no_lf := (if nl then Some no_lf
                         else assert! ((what =? cmd_a) && (more =? 0)%nat); Some true) in
          let '(b, no_lf) :=
            if what =? cI then (if at0 b =? 92 then drop 1 b else b, no_lf)
            else let b' := strip_back (λ c, c =? 13) b in
                 (b', no_lf && (length b' =? length b)%nat) in
          let w := add_sum (str_cksum b + 10) w in
          ins_loop what more diffs no_lf (added + 1) (emit (fix_cntl_a b ++ b) w)
      end
  end.

(** One [case 'd'] / [case 'D']: [None] inside is the [goto err]. *)
Definition wd_delete (d what where_ howmany : Z) (l : wd_locals) : option (option wd_locals) :=
  let lastdel := if what =? cmd_d then where_ else wd_lastdel l in
  let shift := (what =? cmd_d) && negb (wd_fixdel l =? 0) && (wd_fixdel l =? where_) in
  let where_ := if shift then where_ - 1 else where_ in
  let fixdel := if shift then wd_fixdel l - 1 else wd_fixdel l in
  let howmany := if shift then howmany + 1 else howmany in
  let? (rc, w) := weaveMove (wd_w l) where_ d WM_BEFORE_DEL in
  if negb (rc =? 0) then Some None else
  let? addthis :=
    (if negb (fixdel =? 0) && (fixdel =? where_) then
       match w_buf w with
       | Some b => assert! (isData b); Some (Some b)
       | None => None
       end
     else Some (wd_addthis l)) in
  let w := emit (doctrl cD d []) w in
  let? (_, w) := weaveMove w (where_ + howmany - 1) d WM_AFTER_DEL in
  let w := emit (doctrl cE d []) w in
  Some (Some (mkWd w fixdel (wd_no_lf l) lastdel addthis (wd_added l) (wd_deleted l + howmany))).

(** One [case 'a'] / ['I'] / ['N']. *)
Definition wd_insert (d what where_ howmany : Z) (diffs : dfile) (l : wd_locals) :
    option ((dfile * wd_locals) + unit) :=
  let lastdel := if what =? cmd_a then 0 else wd_lastdel l in
  let? (_, w) := weaveMove (wd_w l) where_ d WM_ADD in
  let no_lf := what =? cN in
  let what := if no_lf then cI else what in
  let w := emit (doctrl cI d []) w in
  let? r := ins_loop what (Z.to_nat howmany) diffs no_lf (wd_added l) w in
  match r with
  | inr tt => Some (inr tt)
  | inl (diffs, no_lf, added, w) =>
      let w := if no_lf then add_sum (-10) w else w in
      let w := emit (doctrl cE d (if no_lf then [cN] else [])) w in
      Some (inl (diffs, mkWd w (wd_fixdel l) no_lf lastdel (wd_addthis l) added (wd_deleted l)))
  end.

(** The loop over the diff commands: [inr rc] is an early return with [rc].
    [fuel] bounds the number of commands; every command takes a line. *)
Fixpoint wd_loop (fuel : nat) (d : Z) (diffs : dfile) (l : wd_locals) : option (wd_locals + Z) :=
  match fuel, diffs with
  | O, _ | _, [] => Some (inl l)
  | S fuel, b :: diffs =>
      match scandiff (fgetline_text b) with
      | None => Some (inr (-1))
      | Some (what, where_, howmany) =>
          if (what =? cmd_d) || (what =? cD) then
            let? r := wd_delete d what where_ howmany l in
            match r with
            | None => Some (inr (-1))
            | Some l => wd_loop fuel d diffs l
            end
          else
            let? r := wd_insert d what where_ howmany diffs l in
            match r with
            | inr tt => Some (inr 1)
            | inl (diffs, l) => wd_loop fuel d diffs l
            end
      end
  end.

(** [addthis]: re-add the line deleted too early. *)
Definition wd_addthis_flush (d : Z) (l : wd_locals) : wd_locals :=
  match wd_addthis l with
  | None => l
  | Some b =>
      let w := add_sum (str_cksum b + 10) (wd_w l) in
      let w := if at0 b =? CNTLA_ESCAPE then add_sum (- CNTLA_ESCAPE) w else w in
      let w := emit (doctrl cE d []) (emit b (emit (doctrl cI d []) w)) in
      mkWd w (wd_fixdel l) (wd_no_lf l) 0 None (wd_added l) (wd_deleted l)
  end.

Record wd_result := mkWdr {
  wr_rc : Z; wr_w : fweave; wr_fixdel : Z; wr_added : Z; wr_deleted : Z; wr_same : Z
}.

(** [fixdelp]: [None] for a null pointer.  [inr] is an early return that leaves
    the counts alone. *)
Definition weaveDiffs (w : fweave) (d : Z) (diffs : option dfile) (fixdelp : option Z) :
    option (wd_result + Z) :=
  let w := weaveReset w in
  let fixdel := default 0 fixdelp in
  assert! match w_state w with [] => true | _ => false end;
  let l := mkWd w fixdel false 0 None 0 0 in
  let? r := match diffs with
            | None => Some (inl l)
            | Some f => wd_loop (length f) d f l
            end in
  match r with
  | inr rc => Some (inr rc)
  | inl l =>
      let l := wd_addthis_flush d l in
      let lines := w_line (wd_w l) in
      let? (rc, w) := weaveMove (wd_w l) 0 0 WM_FINISH in
      if negb (rc =? 0) then Some (inr (-1)) else
      assert! (negb (wd_no_lf l) || ((wd_lastdel l =? 0) && (lines =? w_line w)));
      let? fixdel' :=
        (if negb (wd_lastdel l =? 0) && (lines =? w_line w) && negb (w_no_lf w =? 0) then
           assert! (bool_decide (is_Some fixdelp) && (wd_fixdel l =? 0)); Some (wd_lastdel l)
         else if negb (wd_fixdel l =? 0) then assert! (bool_decide (is_Some fixdelp)); Some 0
         else Some (default 0 fixdelp)) in
      Some (inl (mkWdr 0 w fixdel' (wd_added l) (wd_deleted l) (w_line w - wd_deleted l)))
  end.
End weaveMove.

(** An empty [fweave] on a weave. *)
Definition new_fweave (fh : list cstr) : fweave := mkFweave fh None [] 0 0 0 0 0 [].

(** The weave part of [delta_write]: run [weaveDiffs], and once more from the
    start when it asks for the final delete to begin one line earlier (the
    assert in [weaveDiffs] refuses a third round). *)
Definition delta_write (slist : nat → Z) (weave : list cstr) (n : Z) (diffs : dfile) :
    option (wd_result + Z) :=
  let? r := weaveDiffs None slist (new_fweave weave) n (Some diffs) (Some 0) in
  match r with
  | inr rc => Some (inr rc)
  | inl r1 =>
      if wr_fixdel r1 =? 0 then Some (inl r1)
      else weaveDiffs None slist (new_fweave weave) n (Some diffs) (Some (wr_fixdel r1))
  end.

(** ** weaveMap and doFast *)

Record wmap_locals := mkWm { m_map : option (list Z); m_index : Z; m_base : Z; m_offset : Z }.

(** [while (index + offset < lim) { map[index - base] = index + offset; index++; }] *)
Fixpoint wmap_fill (n : nat) (lim : Z) (l : wmap_locals) : wmap_locals :=
  match n, m_map l with
  | S n, Some m =>
      if m_index l + m_offset l <? lim
      then wmap_fill n lim (mkWm (Some (<[Z.to_nat (m_index l - m_base l) := m_index l + m_offset l]> m))
                                 (m_index l + 1) (m_base l) (m_offset l))
      else l
  | _, _ => l
  end.

(** [table]: the newest serial; [remote]: the serials of the patch with
    [D_REMOTE], in order. *)
Definition weaveMap (table : Z) (remote : list Z) : option (list Z) :=
  let step l d :=
    let l := match m_map l with
             | Some _ => l
             | None => mkWm (Some ((d - 1) :: repeat 0 (Z.to_nat (table - (d - 1))))) d (d - 1) (m_offset l)
             end in
    let l := wmap_fill (Z.to_nat table) d l in
    mkWm (m_map l) (m_index l) (m_base l) (m_offset l + 1) in
  m_map (wmap_fill (Z.to_nat table) (table + 1) (fold_left step remote (mkWm None 0 0 0))).

(** The locals of [doFast]; [patchmap] is 1-based. *)
Record fast_locals := mkFast {
  ft_w : fweave; ft_inpatch : Z; ft_gotK : bool; ft_sum : Z; ft_lcount : Z
}.

Section doFast.
Variables (wmap : option (list Z)) (slist : nat → Z) (patchmap : list Z) (remote : Z → bool).

(** One line of the patch: [inl]: go on; [inr (inl l)]: the [break] of the [K]
    line; [inr (inr tt)]: [goto err]. *)
Definition fast_line (b : cstr) (l : fast_locals) : option (fast_locals + (fast_locals + unit)) :=
  let c := at0 b in
  let p := drop 1 b in
  let w := ft_w l in
  if c =? 70 then Some (inl l) else
  if c =? 75 then
    let '(sum, p) := atoi_p p in
    let '(lcount, _) := atoi_p (drop 1 p) in
    Some (inr (inl (mkFast w (ft_inpatch l) true (u16 sum) lcount)))
  else if c =? 62 then
    Some (inl (if ft_inpatch l =? 0 then l else
      let w := add_sum (str_cksum p + 10) w in
      let w := emit (fix_cntl_a p ++ p) w in
      mkFast (set_line (w_line w + 1) w) (ft_inpatch l) (ft_gotK l) (ft_sum l) (ft_lcount l)))
  else
    let type := if c =? cN then cE else c in
    let '(serial, p) := atoi_p p in
    assert! ((0 <? serial) && (serial <=? Z.of_nat (length patchmap)));
    let dser := nth (Z.to_nat serial - 1) patchmap 0 in
    assert! (negb (dser =? 0));
    if negb (remote dser) then Some (inl l) else
    let? r :=
      (if ft_inpatch l =? 0 then
         assert! (at0 p =? 32);
         let '(lineno, _) := atoi_p (drop 1 p) in
         let? (rc, w) := weaveMove wmap slist w lineno dser
                           (if type =? cD then WM_FAST_BEFORE else WM_FAST_AFTER) in
         Some (if negb (rc =? 0) then None
               else Some (w, if type =? cI then dser else 0))
       else if ft_inpatch l =? dser then assert! (type =? cE); Some (Some (w, 0))
       else Some (Some (w, ft_inpatch l))) in
    match r with
    | None => Some (inr (inr tt))
    | Some (w, inpatch) =>
        let w := emit (if c =? cN then ctl_line cE dser [cN] else ctl_line type dser []) w in
        let? st := changestate (w_state w) type dser in
        let p := whatstate st in
        let w := set_print (if negb (p =? 0) && (sl_at slist p =? 0) then 0 else p) (set_state st w) in
        Some (inl (mkFast w inpatch (ft_gotK l) (ft_sum l) (ft_lcount l)))
    end.

(** [inr tt]: [goto err]. *)
Fixpoint fast_loop (diffs : list cstr) (l : fast_locals) : option (fast_locals + unit) :=
  match diffs with
  | [] => Some (inl l)
  | b :: diffs =>
      let? r := fast_line b l in
      match r with
      | inl l => fast_loop diffs l
      | inr (inl l) => Some (inl l)
      | inr (inr tt) => Some (inr tt)
      end
  end.

(** The return code and the state. *)
Definition doFast (w : fweave) (diffs : option (list cstr)) : option (Z * fweave) :=
  let l := mkFast w 0 false 0 0 in
  let? r := match diffs with
            | None => Some (inl l)
            | Some f =>
                let? r := fast_loop f l in
                match r with
                | inl l => assert! (ft_inpatch l =? 0); Some (inl l)
                | inr tt => Some (inr tt)
                end
            end in
  match r with
  | inr tt => Some (1, w)
  | inl l =>
      let? (rc, w) := weaveMove wmap slist (ft_w l) 0 0 WM_FAST_FINISH in
      if negb (rc =? 0) then Some (1, w) else
      if ft_gotK l && (negb (w_sum w =? ft_sum l) || negb (ft_lcount l =? w_line w))
      then Some (1, w) else Some (0, w)
  end.
End doFast.

(** ** get_reg: the reader *)

Inductive counter := Added | Deleted | Same | Other.

Record getst := mkGet {
  g_state : list Z; g_print : Z; g_lf_pend : Z; g_sum : Z; g_lines : Z;
  g_counter : counter; g_added : Z; g_deleted : Z; g_same : Z;
  g_has_nonl : bool; g_out : cstr
}.

(** [count] one data line in the current counter. *)
Definition g_count (g : getst) : getst :=
  mkGet (g_state g) (g_print g) (g_lf_pend g) (g_sum g) (g_lines g) (g_counter g)
    (match g_counter g with Added => u32 (g_added g + 1) | _ => g_added g end)
    (match g_counter g with Deleted => u32 (g_deleted g + 1) | _ => g_deleted g end)
    (match g_counter g with Same => u32 (g_same g + 1) | _ => g_same g end)
    (g_has_nonl g) (g_out g).

Definition g_put (sum : Z) (txt : cstr) (lf_pend lines : Z) (g : getst) : getst :=
  mkGet (g_state g) (g_print g) lf_pend (u32 (g_sum g + sum)) lines (g_counter g) (g_added g)
    (g_deleted g) (g_same g) (g_has_nonl g) (g_out g ++ txt).

Section get_reg.
(** [d]: the delta wanted, 0 for the deltas of a set; [newcksum]: the
    [NEWCKSUM] flag; [nout]: the [GET_SUM] flag (no output); [eol]: the line
    ending. *)
Variables (slist : nat → Z) (d : Z) (newcksum nout : bool) (eol : cstr).

(** [fputs(eol, out)] and the sum of the newline. *)
Definition put_eol (g : getst) : getst :=
  g_put (if newcksum then 10 else 0) (if nout then [] else eol) 0 (g_lines g) g.

Definition bytes_sum (buf : cstr) : Z := fold_right Z.add 0 buf.

Definition get_data (buf : cstr) (g : getst) : getst :=
  let g := g_count g in
  let buf := if at0 buf =? CNTLA_ESCAPE then drop 1 buf else buf in
  if g_print g =? 0 then
    if negb (g_lf_pend g =? 0) && (g_lf_pend g =? whatstate (g_state g)) then put_eol g else g
  else
    let g := if negb (g_lf_pend g =? 0) then put_eol g else g in
    g_put (if newcksum then bytes_sum buf + 10 - 10 else 0) (if nout then [] else buf)
          (g_print g) (int32 (g_lines g + 1)) g.

Definition set_counter (c : counter) (print : Z) (st : list Z) (g : getst) : getst :=
  mkGet st print (g_lf_pend g) (g_sum g) (g_lines g) c (g_added g) (g_deleted g) (g_same g)
        (g_has_nonl g) (g_out g).

Definition set_has_nonl (g : getst) : getst :=
  mkGet (g_state g) (g_print g) (g_lf_pend g) (g_sum g) (g_lines g) (g_counter g) (g_added g)
        (g_deleted g) (g_same g) true (g_out g).

Definition get_ctl (buf : cstr) (g : getst) : option getst :=
  let serial := atoi (drop 3 buf) in
  let type := at0 (drop 1 buf) in
  let g :=
    if (type =? cE) && (g_lf_pend g =? serial) && (whatstate (g_state g) =? serial) then
      if negb (at0 (strip_front isdigit (drop 3 buf)) =? cN) then put_eol g else set_has_nonl g
    else g in
  let? st := changestate (g_state g) type serial in
  if d =? 0 then Some (set_counter (g_counter g) (visitedstate st slist) st g) else
  let print := printstate st slist in
  if negb newcksum then Some (set_counter (g_counter g) print st g) else
  if print =? d then Some (set_counter Added print st g) else
  if negb (print =? 0) then Some (set_counter Same print st g) else
  let? del := delstate d st slist in
  Some (set_counter (if negb (del =? 0) then Deleted else Other) print st g).

Fixpoint get_loop (weave : list cstr) (g : getst) : option getst :=
  match weave with
  | [] => Some g
  | buf :: weave =>
      if eof_mark buf then Some g
      else if isData buf then get_loop weave (get_data buf g)
      else let? g := get_ctl buf g in get_loop weave g
  end.

Definition get_reg (weave : list cstr) : option getst :=
  get_loop weave (mkGet [] 0 0 0 0 Other 0 0 0 false []).
End get_reg.
