(* ===== verification/WeaveText.v ===== *)
(** * WeaveText: what the weave means and that the code agrees

    A specification of the weave independent of the code's buffers: parsed
    lines, the text of a version, and well-formed weaves.  The theorems say that
    [weaveDiffs] adds a delta without touching older versions and that
    [get_reg] writes the text of the version. *)

From S2P Require Import Prelude CStr Sccs Weave.
From stdpp Require Import base numbers list.
From Stdlib Require Import ZArith Lia.

Local Open Scope Z_scope.

Local Open Scope bk_scope.

Inductive wline := WData (b : cstr) | WCtl (type serial : Z) (n : cstr).

Definition parse (buf : cstr) : wline :=
  if isData buf then WData buf else let '(t, x, n) := ctl_scan buf in WCtl t x n.

Definition sers (st : list Z) : list Z := map SL_SER st.

(** One line: blocks open once and close what is open. *)
Definition wstep (st : list Z) (l : wline) : option (list Z) :=
  match l with
  | WData _ => Some st
  | WCtl t x n =>
      if (1 <=? x) && ((t =? cE) || (((t =? cI) || (t =? cD)) && negb (bool_decide (x ∈ sers st))))
      then changestate st t x else None
  end.

(** The lines of the version [S] in the weave [R] from state [st], and the
    state at the end. *)
Fixpoint wtext (S : nat → Z) (st : list Z) (R : list wline) : option (list cstr * list Z) :=
  match R with
  | [] => Some ([], st)
  | l :: R =>
      let? st1 := wstep st l in
      let? (T, st2) := wtext S st1 R in
      Some (match l with
            | WData b => if printstate st S =? 0 then T else b :: T
            | WCtl _ _ _ => T
            end, st2)
  end.

Definition ctl_serial (l : wline) : list Z := match l with WData _ => [] | WCtl _ x _ => [x] end.

Definition serials (R : list wline) : list Z := concat (map ctl_serial R).

(** A closing line with a tag (no final newline) is the last line of its
    serial. *)
Fixpoint n_ok (R : list wline) : bool :=
  match R with
  | [] => true
  | WData _ :: R => n_ok R
  | WCtl _ x n :: R => (bool_decide (n = []) || negb (bool_decide (x ∈ serials R))) && n_ok R
  end.

(** A weave whose serials are below [d]. *)
Definition weave_okb (d : Z) (W : list cstr) : bool :=
  let R := map parse W in
  bool_decide (snd <$> wtext (λ _, 0) [] R = Some []) &&
  forallb (λ x, x <? d) (serials R) && n_ok R.

(** The escape of a leading ^A removed. *)
Definition unesc (b : cstr) : cstr := if at0 b =? CNTLA_ESCAPE then drop 1 b else b.

Definition weave_text (S : nat → Z) (W : list cstr) : option (list cstr) :=
  let? (T, st) := wtext S [] (map parse W) in Some (map unesc T).

(** ** Diffs

    A [diff -n] script against the text of a version: delete [howmany] lines
    from line [where_], add lines after line [where_]. *)
Inductive dcmd := DDel (where_ howmany : Z) | DAdd (where_ : Z) (ls : list cstr).

Definition cmd_file (c : dcmd) : dfile :=
  match c with
  | DDel w n => [(cmd_d :: printf_u w ++ 32 :: printf_u n, true)]
  | DAdd w ls => (cmd_a :: printf_u w ++ 32 :: printf_u (Z.of_nat (length ls)), true) ::
                 map (λ b, (b, true)) ls
  end.

Definition diff_file (cs : list dcmd) : dfile := concat (map cmd_file cs).

(** New lines lose trailing carriage returns. *)
Definition nocr (b : cstr) : cstr := strip_back (λ c, c =? 13) b.

(** The script applied to the lines [T] that follow line [k]. *)
Fixpoint apply_diff (k : Z) (T : list cstr) (cs : list dcmd) : list cstr :=
  match cs with
  | [] => T
  | DDel w n :: cs =>
      take (Z.to_nat (w - 1 - k)) T ++
      apply_diff (w + n - 1) (drop (Z.to_nat (w - 1 - k + n)) T) cs
  | DAdd w ls :: cs =>
      take (Z.to_nat (w - k)) T ++ map nocr ls ++ apply_diff w (drop (Z.to_nat (w - k)) T) cs
  end.

(** Commands in order and inside a file of [n] lines. *)
Fixpoint diff_ok (k n : Z) (cs : list dcmd) : bool :=
  match cs with
  | [] => true
  | DDel w h :: cs => (k <? w) && (1 <=? h) && (w + h - 1 <=? n) && diff_ok (w + h - 1) n cs
  | DAdd w ls :: cs =>
      (k <=? w) && (w <=? n) && (Z.of_nat (length ls) <? 2 ^ 31) && diff_ok w n cs
  end.

Fixpoint added_of (cs : list dcmd) : Z :=
  match cs with
  | [] => 0
  | DDel _ _ :: cs => added_of cs
  | DAdd _ ls :: cs => Z.of_nat (length ls) + added_of cs
  end.

Fixpoint deleted_of (cs : list dcmd) : Z :=
  match cs with
  | [] => 0
  | DDel _ n :: cs => n + deleted_of cs
  | DAdd _ _ :: cs => deleted_of cs
  end.

(** ** The state *)

Definition fits (x : Z) : Prop := 0 <= x <= SL_MASK.

Lemma mask_ones : SL_MASK = Z.ones 31.
Proof. reflexivity. Qed.

Lemma ser_small x : fits x → SL_SER x = x.
Proof.
  intros Hx. unfold SL_SER. rewrite mask_ones, Z.land_ones by lia. apply Z.mod_small.
  unfold fits, SL_MASK in Hx. lia.
Qed.

Lemma ins_small x : fits x → SL_INS x = false.
Proof.
  intros Hx. unfold SL_INS. apply negb_false_iff, Z.eqb_eq. apply Z.bits_inj'. intros i Hi.
  rewrite Z.land_spec, Z.lnot_spec, Z.bits_0, mask_ones by done.
  destruct (decide (i < 31)).
  - rewrite Z.ones_spec_low by lia. apply andb_false_r.
  - rewrite (testbit_small x 31 i); [done| |lia]. unfold fits, SL_MASK in Hx. lia.
Qed.

Lemma fits_land x : fits x → (Z.land x (Z.lnot SL_MASK) =? 0) = true.
Proof. intros H. pose proof (ins_small x H) as Hi. unfold SL_INS in Hi. by apply negb_false_iff in Hi. Qed.

Lemma set_d x : SL_SET x false = x.
Proof. apply Z.lor_0_r. Qed.

Lemma set_i x : fits x → SL_SER (SL_SET x true) = x ∧ SL_INS (SL_SET x true) = true.
Proof.
  intros Hx. assert (Hr : 0 <= x < 2 ^ 31) by (unfold fits, SL_MASK in Hx; lia).
  assert (Hs : SL_SET x true = Z.lor (Z.shiftl 1 31) x) by (unfold SL_SET; by rewrite Z.lor_comm).
  rewrite Hs. split.
  - unfold SL_SER. rewrite mask_ones. by apply field_lo.
  - unfold SL_INS. apply negb_true_iff, Z.eqb_neq. intros Hc.
    apply (f_equal (λ z, Z.testbit z 31)) in Hc.
    rewrite Z.land_spec, Z.lnot_spec, Z.lor_spec, Z.bits_0, mask_ones in Hc by lia.
    rewrite Z.ones_spec_high in Hc by lia. rewrite Z.shiftl_spec in Hc by lia. done.
Qed.

Lemma state_at_app st e i : (i <= length st)%nat → (1 <= i)%nat → state_at (st ++ [e]) i = state_at st i.
Proof. intros. unfold state_at. apply app_nth1. lia. Qed.

Lemma state_at_last st e : state_at (st ++ [e]) (S (length st)) = e.
Proof.
  unfold state_at. rewrite app_nth2 by lia. by replace (S (length st) - 1 - length st)%nat with 0%nat by lia.
Qed.

Lemma find_place_app st e x i :
  (i <= length st)%nat → find_place (st ++ [e]) x i = find_place st x i.
Proof.
  induction i as [|i IH]; intros Hi; cbn [find_place]; [done|].
  rewrite state_at_app by lia. by rewrite IH by lia.
Qed.

Lemma find_place_le st x i k : find_place st x i = Some k → (k <= i)%nat.
Proof.
  induction i as [|i IH]; cbn [find_place]; [by intros [= <-]|].
  case_if; [by intros [= <-]|]. case_if; [done|]. intros H%IH. lia.
Qed.

(** A newer delete at the end of the state stays there. *)
Lemma changestate_under st d t x :
  fits d → x < d → changestate (st ++ [d]) t x = (λ s, s ++ [d]) <$> changestate st t x.
Proof.
  intros Hd Hx. unfold changestate. case_if; [|done].
  rewrite length_app. cbn [length]. rewrite Nat.add_1_r. cbn [find_place].
  rewrite state_at_last, ser_small, ins_small by done. destruct (Z.leb_spec d x); [lia|].
  rewrite find_place_app by lia. destruct (find_place st x (length st)) as [i|] eqn:Hf; [|done].
  apply find_place_le in Hf. case_if.
  - destruct i as [|i]; [done|]. rewrite state_at_app by lia. cbn [Nat.eqb negb andb].
    case_if; [|done]. cbn. f_equal. rewrite !delete_take_drop.
    rewrite take_app_le, drop_app_le by lia. by rewrite app_assoc.
  - cbn. f_equal. rewrite take_app_le, drop_app_le by lia. by rewrite <- !app_assoc.
Qed.

Lemma find_place_top st d : Forall (λ e, SL_SER e <= d) st → find_place st d (length st) = Some (length st).
Proof.
  intros H. destruct st as [|e st _] using rev_ind; [done|].
  rewrite length_app, Nat.add_1_r. cbn [find_place]. rewrite state_at_last.
  apply Forall_app in H as [_ H]. rewrite Forall_singleton in H.
  by apply Z.leb_le in H as ->.
Qed.

Lemma changestate_open st d t :
  fits d → Forall (λ e, SL_SER e <= d) st → t ≠ cE → changestate st t d = Some (st ++ [SL_SET d (t =? cI)]).
Proof.
  intros Hd Hst Ht. unfold changestate. rewrite fits_land, find_place_top by done.
  destruct (Z.eqb_spec t cE); [done|]. by rewrite take_ge, drop_ge by lia.
Qed.

Lemma changestate_close st d e :
  fits d → Forall (λ e, SL_SER e <= d) st → SL_SER e = d → changestate (st ++ [e]) cE d = Some st.
Proof.
  intros Hd Hst He. unfold changestate. rewrite fits_land by done.
  rewrite find_place_top by (apply Forall_app; split; [done|rewrite Forall_singleton; lia]).
  rewrite length_app, Nat.add_1_r. cbn [Z.eqb cE Nat.eqb negb andb]. rewrite state_at_last, He, Z.eqb_refl.
  f_equal. rewrite delete_take_drop. replace (S (length st) - 1)%nat with (length st) by lia.
  rewrite take_app_length, drop_ge by (rewrite length_app; simpl; lia). by rewrite app_nil_r.
Qed.

(** Which entries a step leaves. *)
Lemma changestate_elem st t x st' e :
  fits x → changestate st t x = Some st' → e ∈ st' → e ∈ st ∨ (t ≠ cE ∧ e = SL_SET x (t =? cI)).
Proof.
  intros Hx. unfold changestate. case_if; [|done]. destruct (find_place _ _ _) as [i|]; [|done].
  destruct (Z.eqb_spec t cE) as [->|Ht].
  - case_if; [|done]. intros [= <-] He. left. by eapply list_elem_of_delete_inv.
  - intros [= <-]. rewrite elem_of_app, elem_of_cons.
    intros [He|[He|He]]; [left; by eapply subseteq_take|by right|left; by eapply subseteq_drop].
Qed.

Lemma changestate_keep st t x st' e :
  changestate st t x = Some st' → e ∈ st → SL_SER e ≠ x → e ∈ st'.
Proof.
  unfold changestate. case_if; [|done]. destruct (find_place _ _ _) as [i|] eqn:Hf; [|done].
  apply find_place_le in Hf. case_if.
  - destruct (Z.eqb_spec (SL_SER (state_at st i)) x) as [Hi|]; [|by rewrite andb_false_r].
    destruct (Nat.eqb_spec i 0) as [|Hi0]; [done|]. cbn [negb andb]. intros [= <-] He Hne.
    rewrite delete_take_drop, elem_of_app.
    assert (Hsp : st = take (i - 1) st ++ state_at st i :: drop (S (i - 1)) st).
    { rewrite <- (take_drop (i - 1) st) at 1. f_equal. unfold state_at.
      destruct (lookup_lt_is_Some_2 st (i - 1)) as [y Hy]; [lia|].
      rewrite (drop_S _ _ _ Hy). f_equal. symmetry. by apply nth_lookup_Some. }
    rewrite Hsp in He at 1. apply elem_of_app in He as [He|He]; [by left|].
    apply elem_of_cons in He as [->|He]; [done|by right].
  - intros [= <-] He _. rewrite <- (take_drop i st) in He at 1. rewrite elem_of_app in He. rewrite elem_of_app, elem_of_cons. tauto.
Qed.

(** ** printstate under a new delta *)

Definition active (S : nat → Z) (d : Z) : bool := negb (sl_at S d =? 0).

Lemma printstate_del st d S :
  fits d → printstate (st ++ [d]) S = if active S d then 0 else printstate st S.
Proof.
  intros Hd. unfold printstate. rewrite reverse_snoc. cbn [printstate_loop].
  by rewrite ins_small, ser_small by done.
Qed.

Lemma printstate_ins st d S :
  fits d → printstate (st ++ [SL_SET d true]) S = if active S d then d else 0.
Proof.
  intros Hd. unfold printstate. rewrite reverse_snoc. cbn [printstate_loop].
  by destruct (set_i d Hd) as [-> ->].
Qed.

(** What [printstate] returns names an open insert. *)
Lemma printstate_elem st S :
  printstate st S ≠ 0 → ∃ e, e ∈ st ∧ SL_INS e = true ∧ SL_SER e = printstate st S.
Proof.
  unfold printstate. intros H.
  assert (Hr : ∃ e, e ∈ reverse st ∧ SL_INS e = true ∧ SL_SER e = printstate_loop (reverse st) S);
  [|destruct Hr as (e & He & ?); exists e; by rewrite elem_of_reverse in He].
  revert H. induction (reverse st) as [|x l IH]; cbn [printstate_loop]; [done|].
  destruct (SL_INS x) eqn:Hi.
  - case_if; [|done]. intros _. exists x. split; [by left|done].
  - case_if; [done|]. intros H. destruct (IH H) as (e & He & ?). exists e. split; [by right|done].
Qed.

(** ** The text *)

Definition below (d : Z) (st : list Z) : Prop := Forall (λ e, SL_SER e < d) st.

Definition sers_below (d : Z) (R : list wline) : Prop := Forall (λ x, x < d) (serials R).

Lemma serials_app P R : serials (P ++ R) = serials P ++ serials R.
Proof. unfold serials. by rewrite map_app, concat_app. Qed.

Lemma sers_below_app d P R : sers_below d (P ++ R) ↔ sers_below d P ∧ sers_below d R.
Proof. unfold sers_below. rewrite serials_app. apply Forall_app. Qed.

Lemma sers_below_cons d l R : sers_below d (l :: R) ↔ sers_below d [l] ∧ sers_below d R.
Proof. apply (sers_below_app d [l] R). Qed.

Lemma wstep_below d st l st' : fits d → below d st → sers_below d [l] → wstep st l = Some st' → below d st'.
Proof.
  intros Hd Hst Hl Hs. destruct l as [b|t x n]; cbn [wstep] in Hs; [by injection Hs as <-|].
  destruct ((1 <=? x) && _) eqn:Hc in Hs; [|done]. boolify.
  unfold sers_below in Hl. cbn in Hl. rewrite Forall_singleton in Hl.
  assert (Hx : fits x) by (unfold fits in *; lia).
  apply Forall_forall. intros e He. destruct (changestate_elem _ _ _ _ _ Hx Hs He) as [He'|[_ ->]].
  - by apply (proj1 (Forall_forall _ _) Hst).
  - destruct (t =? cI); [by destruct (set_i x Hx) as [-> _]|]. by rewrite set_d, ser_small.
Qed.

Lemma wtext_app S st P R :
  wtext S st (P ++ R) =
  let? (T1, st1) := wtext S st P in let? (T2, st2) := wtext S st1 R in Some (T1 ++ T2, st2).
Proof.
  revert st. induction P as [|l P IH]; intros st; cbn [app wtext].
  - by destruct (wtext S st R) as [[T2 st2]|].
  - destruct (wstep st l) as [st1|]; [|done]. rewrite IH.
    destruct (wtext S st1 P) as [[T1 st2]|]; [|done].
    destruct (wtext S st2 R) as [[T2 st3]|]; [|done]. destruct l; [case_if|]; done.
Qed.

Lemma wtext_below d S st R T st' :
  fits d → below d st → sers_below d R → wtext S st R = Some (T, st') → below d st'.
Proof.
  intros Hd. revert st T. induction R as [|l R IH]; intros st T Hst HR; cbn [wtext].
  - by intros [= <- <-].
  - apply sers_below_cons in HR as [Hl HR]. destruct (wstep st l) as [st1|] eqn:Hs; [|done].
    destruct (wtext S st1 R) as [[T1 st2]|] eqn:Ht; [|done]. intros [= _ <-].
    eapply IH; [|done|done]. by eapply wstep_below.
Qed.

(** Whether a weave runs, and where it ends, does not depend on the version. *)
Lemma wtext_state S S' st R T st' :
  wtext S st R = Some (T, st') → ∃ T', wtext S' st R = Some (T', st').
Proof.
  revert st T. induction R as [|l R IH]; intros st T; cbn [wtext].
  - intros [= <- <-]. by eexists.
  - destruct (wstep st l) as [st1|]; [|done].
    destruct (wtext S st1 R) as [[T1 st2]|] eqn:Ht; [|done]. intros [= _ <-].
    destruct (IH _ _ Ht) as [T' ->]. by eexists.
Qed.

(** Lines between [^AD d] and [^AE d]: gone for versions with [d], unchanged
    for the others. *)
Lemma wtext_under d S st R T st' :
  fits d → sers_below d R → wtext S st R = Some (T, st') →
  wtext S (st ++ [d]) R = Some (if active S d then [] else T, st' ++ [d]).
Proof.
  intros Hd. revert st T. induction R as [|l R IH]; intros st T HR; cbn [wtext].
  - intros [= <- <-]. by destruct (active S d).
  - apply sers_below_cons in HR as [Hl HR]. destruct (wstep st l) as [st1|] eqn:Hs; [|done].
    destruct (wtext S st1 R) as [[T1 st2]|] eqn:Ht; [|done]. intros [= <- <-].
    assert (Hs' : wstep (st ++ [d]) l = Some (st1 ++ [d])).
    { destruct l as [b|t x n]; cbn [wstep] in Hs |- *; [by injection Hs as <-|].
      unfold sers_below in Hl. cbn in Hl. rewrite Forall_singleton in Hl.
      assert (Hel : bool_decide (x ∈ sers (st ++ [d])) = bool_decide (x ∈ sers st)).
      { apply bool_decide_ext. unfold sers. rewrite map_app, elem_of_app. cbn [map].
        rewrite list_elem_of_singleton, ser_small by done.
        split; [intros [?| ->]; [done|lia]|by left]. }
      rewrite Hel. destruct ((1 <=? x) && _); [|done].
      rewrite changestate_under by done. by rewrite Hs. }
    rewrite Hs', (IH _ _ HR Ht). rewrite printstate_del by done.
    destruct l, (active S d); done.
Qed.

(** Lines between [^AI d] and [^AE d]. *)
Lemma wtext_inserted d S st ls :
  1 <= d → fits d →
  wtext S (st ++ [SL_SET d true]) (map WData ls) =
  Some (if active S d then ls else [], st ++ [SL_SET d true]).
Proof.
  intros H1 Hd. induction ls as [|b ls IH]; cbn [map wtext wstep].
  - by destruct (active S d).
  - rewrite IH, printstate_ins by done. destruct (active S d); [|done].
    by destruct (Z.eqb_spec d 0); [lia|].
Qed.

Lemma below_notin d st : below d st → d ∉ sers st.
Proof.
  intros H Hin. unfold sers in Hin. apply list_elem_of_fmap in Hin as (e & -> & He).
  pose proof (proj1 (Forall_forall _ _) H e He). simpl in *. lia.
Qed.

Lemma wstep_open d st t n :
  1 <= d → fits d → below d st → t = cI ∨ t = cD →
  wstep st (WCtl t d n) = Some (st ++ [SL_SET d (t =? cI)]).
Proof.
  intros H1 Hd Hst Ht. cbn [wstep]. rewrite (proj2 (Z.leb_le 1 d)) by done.
  rewrite bool_decide_eq_false_2 by by apply below_notin.
  assert (Hle : Forall (λ e, SL_SER e <= d) st) by (eapply Forall_impl; [exact Hst|simpl; lia]).
  destruct Ht as [-> | ->]; cbn [Z.eqb cE cI cD andb orb negb Pos.eqb]; by apply changestate_open.
Qed.

Lemma wstep_close d st e n :
  1 <= d → fits d → below d st → SL_SER e = d → wstep (st ++ [e]) (WCtl cE d n) = Some st.
Proof.
  intros H1 Hd Hst He. cbn [wstep]. rewrite (proj2 (Z.leb_le 1 d)) by done. cbn [Z.eqb cE andb orb].
  apply changestate_close; [done| |done]. eapply Forall_impl; [exact Hst|simpl; lia].
Qed.

(** A delete block put around a piece of the weave. *)
Lemma wtext_delete_block d S st P T st' :
  1 <= d → fits d → below d st → sers_below d P → wtext S st P = Some (T, st') →
  wtext S st ([WCtl cD d []] ++ P ++ [WCtl cE d []]) = Some (if active S d then [] else T, st').
Proof.
  intros H1 Hd Hst HP Ht. assert (Hst' : below d st') by by eapply wtext_below.
  cbn [app wtext]. rewrite wstep_open by (done || by right).
  cbn [Z.eqb cD cI Pos.eqb]. rewrite set_d, wtext_app, (wtext_under d S st P T st') by done.
  cbn [wtext]. rewrite wstep_close by (done || by apply ser_small). by rewrite app_nil_r.
Qed.

(** An insert block put into the weave. *)
Lemma wtext_insert_block d S st ls n :
  1 <= d → fits d → below d st →
  wtext S st ([WCtl cI d []] ++ map WData ls ++ [WCtl cE d n]) =
  Some (if active S d then ls else [], st).
Proof.
  intros H1 Hd Hst. cbn [app wtext]. rewrite wstep_open by (done || by left).
  cbn [Z.eqb cI Pos.eqb]. rewrite wtext_app, wtext_inserted by done.
  cbn [wtext]. rewrite wstep_close by (done || by destruct (set_i d Hd)). by rewrite app_nil_r.
Qed.

(** ** Printing and parsing control lines *)

Lemma parse_ctl t x n :
  t ≠ 1 → 0 <= x < 2 ^ 31 → nondigit_head n → parse (ctl_line t x n) = WCtl t x n.
Proof.
  intros Ht Hx Hn. unfold parse, isData, ctl_line. cbn [app at0 hd drop].
  destruct (Z.eqb_spec t 1); [done|]. cbn [Z.eqb Pos.eqb negb orb]. unfold ctl_scan. cbn [drop].
  by rewrite drop_0, atoi_p_printf.
Qed.

Lemma parse_doctrl t d n : t ≠ 1 → 1 <= d → fits d → nondigit_head n → parse (doctrl t d n) = WCtl t d n.
Proof.
  intros Ht H1 Hd Hn. unfold doctrl. rewrite sertoa_printf by (unfold fits, SL_MASK in Hd; lia).
  apply parse_ctl; [done| |done]. unfold fits, SL_MASK in Hd. lia.
Qed.

Lemma parse_data b : isData b = true → parse b = WData b.
Proof. unfold parse. by intros ->. Qed.

Lemma isData_esc b : isData (fix_cntl_a b ++ b) = true.
Proof.
  unfold fix_cntl_a, isData. destruct b as [|c b]; cbn [at0 hd app drop]; [done|].
  destruct (Z.eqb_spec c 1) as [->|Hc]; cbn [app at0 hd drop]; [done|]. by destruct (Z.eqb_spec c 1).
Qed.

Lemma unesc_esc b : unesc (fix_cntl_a b ++ b) = b.
Proof.
  unfold fix_cntl_a, unesc. destruct b as [|c b]; [done|]. cbn [at0 hd].
  destruct (Z.eqb_spec c 1) as [->|Hc]; cbn [app at0 hd drop]; [done|].
  unfold CNTLA_ESCAPE. by destruct (Z.eqb_spec c 1).
Qed.

(** ** weaveMove for the newest delta *)

(** Not the end of a block without a final newline. *)
Definition untagged (l : wline) : bool :=
  match l with WData _ => true | WCtl _ _ n => negb (at0 n =? cN) end.

Section moves.

(** [tl]: no block lacks its final newline. *)
Context (S : nat → Z) (d : Z) (tl : Prop) (Hd1 : 1 <= d) (Hd : fits d).

(** The insert that set [no_lf] is still open, or it was tagged and its serial
    is never seen again. *)
Definition lf_ok (no_lf : Z) (st : list Z) (R : list wline) : Prop :=
  no_lf = 0 ∨ (∃ e, e ∈ st ∧ SL_INS e = true ∧ SL_SER e = no_lf) ∨ (¬ tl ∧ no_lf ∉ serials R).

(** [R] is left to read and holds the lines [T] of the version. *)
Record ready (w : fweave) (print : Z) (R T : list cstr) : Prop := {
  rd_text : wtext S (w_state w) (map parse R) = Some (T, []);
  rd_print : print = printstate (w_state w) S;
  rd_below : below d (w_state w);
  rd_sers : sers_below d (map parse R);
  rd_n : n_ok (map parse R) = true;
  rd_eof : forallb (λ b, negb (eof_mark b)) R = true;
  rd_lf : lf_ok (w_no_lf w) (w_state w) (map parse R);
  rd_tl : tl → forallb untagged (map parse R) = true
}.

(** From [w] to [w'] the lines [P] were copied, with the lines [T] of the
    version among them. *)
Record moved (w w' : fweave) (P T : list cstr) : Prop := {
  mv_text : wtext S (w_state w) (map parse P) = Some (T, w_state w');
  mv_out : map parse (w_out w') = map parse (w_out w) ++ map parse P;
  mv_line : w_line w' = w_line w + Z.of_nat (length T)
}.

Lemma moved_refl w : moved w w [] [].
Proof. split; cbn; [done| |lia]. by rewrite app_nil_r. Qed.

Lemma moved_trans w w1 w2 P P' T T' :
  moved w w1 P T → moved w1 w2 P' T' → moved w w2 (P ++ P') (T ++ T').
Proof.
  intros [H1 H2 H3] [G1 G2 G3]. split.
  - by rewrite map_app, wtext_app, H1, G1.
  - by rewrite map_app, G2, H2, app_assoc.
  - rewrite G3, H3, length_app. lia.
Qed.

Definition printed (print : Z) (buf : cstr) : list cstr := if print =? 0 then [] else [buf].

Lemma move_data_step f buf rest print w T :
  isData buf = true → ready w print (buf :: rest) T →
  let w' := move_data f buf print w in
  ∃ T', T = printed print buf ++ T' ∧ moved w w' [buf] (printed print buf) ∧ ready w' print rest T'.
Proof.
  intros Hb [H1 H2 H3 H4 H5 H6 H7 H8]. cbv zeta. set (w' := move_data f buf print w).
  cbn [map] in *. rewrite (parse_data buf Hb) in *. cbn [wtext wstep] in H1.
  destruct (wtext S (w_state w) (map parse rest)) as [[T' st']|] eqn:Ht; [|done].
  injection H1 as HT ->. rewrite <- H2 in HT.
  assert (Hw : w_state w' = w_state w ∧ w_out w' = w_out w ++ [buf] ∧
               w_line w' = w_line w + Z.of_nat (length (printed print buf)) ∧
               (w_no_lf w' = print ∧ print ≠ 0 ∨ w_no_lf w' = w_no_lf w ∨ w_no_lf w' = 0)).
  { unfold w', move_data, printed. destruct (Z.eqb_spec print 0); cbn [negb andb];
    [|destruct (f_del f); cbn [negb]];
    repeat case_if; (split_and!; [done..|cbn; lia|cbn; auto]). }
  destruct Hw as (Hst & Hout & Hline & Hlf). exists T'. split; [|split].
  - rewrite <- HT. unfold printed. by destruct (print =? 0).
  - split; [|by rewrite Hout, map_app; cbn [map]; rewrite (parse_data buf Hb)|done].
    cbn [map]. rewrite (parse_data buf Hb). cbn [wtext wstep]. rewrite <- H2, Hst. unfold printed. by case_if.
  - simpl in H6. apply andb_prop in H6 as [_ H6].
    split; rewrite ?Hst; try done. destruct Hlf as [[-> Hp]|[-> | ->]]; [|done|by left].
    right. left. rewrite H2 in Hp |- *. by apply printstate_elem.
Qed.

Lemma move_ctl_step f buf rest print w T t x n :
  f_fast f = false → isData buf = false → ctl_scan buf = (t, x, n) → ready w print (buf :: rest) T →
  1 <= x < d ∧
  ∃ print' w', move_ctl S f t x n w = Some (print', w') ∧ moved w w' [buf] [] ∧ ready w' print' rest T.
Proof.
  intros Hf Hb Hscan [H1 H2 H3 H4 H5 H6 H7 H8].
  assert (Hp : parse buf = WCtl t x n) by (unfold parse; by rewrite Hb, Hscan).
  cbn [map] in *. rewrite Hp in *. cbn [wtext] in H1. cbn [forallb] in H6. apply andb_prop in H6 as [_ H6].
  destruct (wstep (w_state w) (WCtl t x n)) as [st1|] eqn:Hs; [|done].
  destruct (wtext S st1 (map parse rest)) as [[T' st']|] eqn:Ht; [|done]. injection H1 as -> ->.
  apply sers_below_cons in H4 as [Hx H4]. assert (Hb1 : below d st1) by by eapply wstep_below.
  unfold sers_below in Hx. cbn in Hx. rewrite Forall_singleton in Hx.
  cbn [n_ok] in H5. apply andb_prop in H5 as [Hn H5]. pose proof Hs as Hs0. cbn [wstep] in Hs.
  destruct ((1 <=? x) && _) eqn:Hc in Hs; [|done]. apply andb_prop in Hc as [Hx1 Hc]. boolify.
  split; [done|]. unfold move_ctl. cbn [w_state emit]. rewrite Hs, Hf. cbn [w_no_lf set_state emit].
  assert (Hfx : fits x) by (unfold fits in *; lia).
  assert (Hlf : ∃ w1, (if w_no_lf w =? x then assert! (t =? cE);
       Some (if negb (at0 n =? cN) then set_no_lf 0 (set_state st1 (emit (ctl_line t x n) w))
             else set_state st1 (emit (ctl_line t x n) w))
     else Some (set_state st1 (emit (ctl_line t x n) w))) = Some w1 ∧
     w_state w1 = st1 ∧ w_out w1 = w_out w ++ [ctl_line t x n] ∧ w_line w1 = w_line w ∧
     lf_ok (w_no_lf w1) st1 (map parse rest)).
  { destruct (Z.eqb_spec (w_no_lf w) x) as [Hl|Hl].
    - destruct H7 as [H7|[(e & He & Hi & Hse)|[_ H7]]]; [lia| |].
      2:{ destruct H7. rewrite Hl. unfold serials. cbn. by left. }
      assert (Hx' : x ∈ sers (w_state w)).
      { unfold sers. apply list_elem_of_fmap. exists e. split; [congruence|done]. }
      rewrite bool_decide_eq_true_2 in Hc by done. cbn [negb] in Hc. rewrite andb_false_r, orb_false_r in Hc.
      rewrite Hc. eexists. split; [done|]. destruct (Z.eqb_spec (at0 n) cN) as [HN|HN]; cbn [negb];
      (split_and!; [done..|]); [|by left]. right. right. cbn. rewrite Hl.
      split. { intros Htl. specialize (H8 Htl). cbn in H8. by rewrite HN in H8. }
      apply orb_prop in Hn as [Hn|Hn]; [apply bool_decide_eq_true in Hn; by subst n|].
      apply negb_true_iff, bool_decide_eq_false in Hn. done.
    - eexists. split_and!; [done..|]. destruct H7 as [H7|[(e & He & Hi & Hse)|[Ht7 H7]]]; [by left|right; left|right; right].
      + exists e. split; [|done]. eapply changestate_keep; [exact Hs|done|congruence].
      + split; [done|]. cbn. intros Hin. apply H7. unfold serials. cbn. by right. }
  destruct Hlf as (w1 & -> & Hst1 & Hout1 & Hl1 & Hlf1). eexists _, _. split; [done|]. split.
  - split; cbn [set_cur w_state w_out w_line].
    + cbn [map]. rewrite Hp. cbn [wtext]. by rewrite Hs0, Hst1.
    + rewrite Hout1, map_app. cbn [map]. f_equal. rewrite Hp. f_equal. apply parse_ctl.
      * intros ->. done.
      * unfold fits, SL_MASK in Hfx. lia.
      * unfold ctl_scan in Hscan. destruct (atoi_p (drop 3 buf)) as [v m] eqn:Ha. injection Hscan as <- <- <-.
        pose proof (atoi_loop_head 0 (drop 3 buf)) as Hh. unfold atoi_p in Ha. by rewrite Ha in Hh.
    + cbn [length]. lia.
  - split; cbn [set_cur w_state w_no_lf]; rewrite ?Hst1; try done. intros Htl. specialize (H8 Htl). cbn in H8.
    by apply andb_prop in H8 as [_ ?].
Qed.

(** What is left is not empty once a line of the version was seen. *)
Lemma ready_open w print T : ready w print [] T → w_state w = [] ∧ T = [].
Proof. intros [H1 _ _ _ _ _ _ _]. cbn in H1. by injection H1 as <- <-. Qed.

Lemma ready_lf w print T : ready w print [] T → tl → w_no_lf w = 0.
Proof.
  intros Hr Htl. destruct (ready_open _ _ _ Hr) as [Hst _]. destruct (rd_lf _ _ _ _ Hr) as [?|[(e & He & _)|[Hn _]]]; [done| |done].
  rewrite Hst in He. by apply not_elem_of_nil in He.
Qed.

(** One turn of the first loop that does not leave it. *)
Lemma move_loop_turn f line ps buf rest print w T :
  f_fast f = false → (ps = d ∨ ps = 0 ∧ f_before f = false) → ready w print (buf :: rest) T →
  negb (f_fin f || (w_line w <? line)) = false →
  isData buf && negb (print =? 0) && f_before f = false →
  ∃ print' w' T1 T2,
    move_loop None S f line ps buf rest print w =
      match rest with
      | [] => Some (AtEof print' (set_fh [] w'))
      | b :: r => move_loop None S f line ps b r print' w'
      end ∧ T = T1 ++ T2 ∧ (T1 = [] ∨ T1 = [buf] ∧ isData buf = true ∧ print ≠ 0) ∧
      moved w w' [buf] T1 ∧ ready w' print' rest T2.
Proof.
  intros Hf Hps Hr Hgo Hnb.
  assert (Heof : ∀ b r, rest = b :: r → eof_mark b = false).
  { intros b r ->. pose proof (rd_eof _ _ _ _ Hr) as He. cbn in He.
    apply andb_prop in He as [_ He]. apply andb_prop in He as [He _]. by apply negb_true_iff. }
  destruct (isData buf) eqn:Hb.
  - destruct (move_data_step f buf rest print w T Hb Hr) as (T' & -> & Hm & Hr').
    exists print, (move_data f buf print w), (printed print buf), T'. split_and!; [|done| |done|done].
    + destruct rest as [|b r]; cbn [move_loop]; rewrite Hgo, Hb; cbn [andb] in Hnb; rewrite Hnb; [done|].
      by rewrite (Heof b r eq_refl).
    + unfold printed. destruct (Z.eqb_spec print 0); [by left|by right].
  - destruct (ctl_scan buf) as [[t x] n] eqn:Hscan.
    destruct (move_ctl_step f buf rest print w T t x n Hf Hb Hscan Hr) as (Hx & print' & w' & Hctl & Hm & Hr').
    exists print', w', [], T. split_and!; [|done|by left|done|done].
    assert (E1 : (x =? 0) = false) by (apply Z.eqb_neq; lia).
    assert (E2 : (ps =? x) = false) by (apply Z.eqb_neq; lia).
    assert (E3 : (f_before f && negb (print =? 0) && (t =? cD) && (ps <? x)) = false).
    { destruct Hps as [->|[_ ->]]; [|done]. destruct (Z.ltb_spec d x); [lia|]. by rewrite andb_false_r. }
    destruct rest as [|b r]; cbn [move_loop]; rewrite Hgo, Hb, Hscan, E1; cbn [negb wmap_apply]; rewrite E2, E3, Hctl; cbn [negb]; [done|].
    by rewrite (Heof b r eq_refl).
Qed.

(** To the end of the weave. *)
Lemma move_loop_finish f line ps buf rest print w T :
  f_fast f = false → f_before f = false → f_fin f = true → (ps = d ∨ ps = 0) →
  ready w print (buf :: rest) T →
  ∃ print' w', move_loop None S f line ps buf rest print w = Some (AtEof print' w') ∧
    moved w w' (buf :: rest) T ∧ w_state w' = [] ∧ (tl → w_no_lf w' = 0).
Proof.
  intros Hf Hb Hfin Hps. revert buf print w T.
  induction rest as [|b r IH]; intros buf print w T Hr;
  (destruct (move_loop_turn f line ps buf _ print w T Hf ltac:(tauto) Hr) as (p' & w' & T1 & T2 & -> & -> & _ & Hm & Hr');
   [by rewrite Hfin|by rewrite Hb, andb_false_r|]).
  - destruct (ready_open _ _ _ Hr') as [Hst ->]. eexists _, _. split; [done|].
    rewrite app_nil_r. split; [|split; [done|by apply (ready_lf w' p' [])]]. destruct Hm as [M1 M2 M3]. by split.
  - destruct (IH b p' w' T2 Hr') as (p2 & w2 & -> & Hm2 & Hst & Hlf). exists p2, w2. split; [done|].
    split; [|done]. apply (moved_trans w w' w2 [buf] (b :: r) T1 T2); done.
Qed.

(** To just after a given line. *)
Lemma move_loop_to f line buf rest print w T :
  f_fast f = false → f_before f = false → f_fin f = false →
  ready w print (buf :: rest) T → w_line w <= line <= w_line w + Z.of_nat (length T) →
  ∃ P buf' rest' print' w' T1 T2,
    move_loop None S f line d buf rest print w = Some (AtAfter buf' rest' print' w') ∧
    buf :: rest = P ++ buf' :: rest' ∧ T = T1 ++ T2 ∧ moved w w' P T1 ∧ w_line w' = line ∧
    ready w' print' (buf' :: rest') T2.
Proof.
  intros Hf Hb Hfin. revert buf print w T.
  induction rest as [|b r IH]; intros buf print w T Hr Hl;
  (destruct (Z.ltb_spec (w_line w) line) as [Hlt|Hge];
   [|exists [], buf; eexists _, print, w, [], T; split_and!;
     [cbn [move_loop]; rewrite Hfin; by destruct (Z.ltb_spec (w_line w) line); [lia|]
     |done|done|apply moved_refl|lia|done]]);
  (destruct (move_loop_turn f line d buf _ print w T Hf ltac:(by left) Hr) as (p' & w' & T1 & T2 & -> & -> & HT1 & Hm & Hr');
   [rewrite Hfin; by destruct (Z.ltb_spec (w_line w) line); [|lia]|by rewrite Hb, andb_false_r|]).
  - destruct (ready_open _ _ _ Hr') as [Hst ->]. rewrite app_nil_r in Hl. exfalso.
    destruct HT1 as [->|(-> & Hdb & Hp)]; [cbn in Hl; lia|].
    destruct Hm as [M1 _ _]. cbn [map] in M1. rewrite (parse_data buf Hdb) in M1.
    cbn [wtext wstep] in M1. injection M1 as _ Hst'.
    destruct Hr as [_ Hpr _ _ _ _ _ _]. rewrite Hst', Hst in Hpr. done.
  - assert (Hlen : w_line w' = w_line w + Z.of_nat (length T1)) by apply Hm.
    assert (Hl1 : (length T1 <= 1)%nat) by (by destruct HT1 as [->|[-> _]]; cbn; lia).
    destruct (IH b p' w' T2 Hr') as (P & b' & r' & p2 & w2 & U1 & U2 & -> & -> & -> & Hm2 & Hl2 & Hr2).
    { rewrite length_app in Hl. lia. }
    exists (buf :: P), b', r', p2, w2, (T1 ++ U1), U2. split_and!; [done|done|by rewrite app_assoc| |done|done].
    apply (moved_trans w w' w2 [buf] P T1 U1); done.
Qed.

(** To just before the next line of the version. *)
Lemma move_loop_before f buf rest print w T :
  f_fast f = false → f_before f = true → f_fin f = false → T ≠ [] → ready w print (buf :: rest) T →
  ∃ P buf' rest' print' w',
    move_loop None S f (w_line w + 1) d buf rest print w = Some (AtEnd buf' rest' print' w') ∧
    buf :: rest = P ++ buf' :: rest' ∧ moved w w' P [] ∧
    isData buf' = true ∧ ready w' print' (buf' :: rest') T.
Proof.
  intros Hf Hb Hfin HT. remember (w_line w) as l0 eqn:Hl0. revert buf print w Hl0.
  induction rest as [|b r IH]; intros buf print w Hl0 Hr;
  (destruct (isData buf && negb (print =? 0)) eqn:Hd0;
   [apply andb_prop in Hd0 as [Hd0 Hp0]; exists [], buf; eexists _, print, w; split_and!;
    [cbn [move_loop]; rewrite Hfin, Hd0, Hp0, Hb; by destruct (Z.ltb_spec (w_line w) (l0 + 1)); [|lia]
    |done|apply moved_refl|done|done]|]);
  (destruct (move_loop_turn f (l0 + 1) d buf _ print w T Hf ltac:(by left) Hr) as (p' & w' & T1 & T2 & -> & -> & HT1 & Hm & Hr');
   [rewrite Hfin; by destruct (Z.ltb_spec (w_line w) (l0 + 1)); [|lia]|by rewrite Hd0|]);
  (destruct HT1 as [->|(-> & Hdb & Hp)];
   [|rewrite Hdb in Hd0; by destruct (Z.eqb_spec print 0)]).
  - by destruct (ready_open _ _ _ Hr') as [_ ->].
  - destruct (IH b p' w') as (P & b' & r' & p2 & w2 & -> & -> & Hm2 & Hdb & Hr2).
    + destruct Hm as [_ _ ->]. cbn. lia.
    + done.
    + exists (buf :: P), b', r', p2, w2. split_and!; [done|done| |done|done].
      apply (moved_trans w w' w2 [buf] P [] []); done.
Qed.

(** The state between calls: the buffer and the input hold [R]. *)
Record at_pos (w : fweave) (R T : list cstr) : Prop := {
  ap_buf : match R with
           | [] => w_buf w = None
           | b :: r => w_buf w = Some b ∧ w_fh w = r
           end;
  ap_ready : ready w (w_print w) R T
}.

Lemma after_loop_stop f buf rest print w T :
  ready w print (buf :: rest) T →
  after_loop None S f d 0 buf rest print w = Some (AtEnd buf rest print w).
Proof.
  intros Hr. destruct (isData buf) eqn:Hb.
  - destruct rest; cbn [after_loop]; by rewrite Hb.
  - destruct (ctl_scan buf) as [[t x] n] eqn:Hscan.
    destruct (move_ctl_step WM_ADD buf rest print w T t x n eq_refl Hb Hscan Hr) as (Hx & _).
    assert (E1 : (x =? 0) = false) by (apply Z.eqb_neq; lia).
    assert (E2 : (d =? x) = false) by (apply Z.eqb_neq; lia).
    assert (E3 : (x <? d) = true) by (apply Z.ltb_lt; lia).
    destruct rest; cbn [after_loop]; rewrite Hb, Hscan, E1; cbn [negb wmap_apply]; rewrite E2, E3;
    by destruct (_ && _).
Qed.

(** [ready] only looks at the state, and clearing [no_lf] keeps it. *)
Lemma ready_same w w' print R T :
  ready w print R T → w_state w' = w_state w → (w_no_lf w' = w_no_lf w ∨ w_no_lf w' = 0) →
  ready w' print R T.
Proof.
  intros [H1 H2 H3 H4 H5 H6 H7 H8] Hst Hlf. split; rewrite ?Hst; try done.
  destruct Hlf as [-> | ->]; [done|by left].
Qed.

Lemma moved_same w w' w'' P T :
  moved w w' P T → w_state w'' = w_state w' → w_out w'' = w_out w' → w_line w'' = w_line w' →
  moved w w'' P T.
Proof. intros [H1 H2 H3] E1 E2 E3. split; by rewrite ?E1, ?E2, ?E3. Qed.

Lemma move_end_at f b rest print w T :
  f_fin f = false → ready w print (b :: rest) T →
  let '(rc, w') := move_end f (Some b) print (set_fh rest w) in
  rc = 0 ∧ at_pos w' (b :: rest) T ∧ w_state w' = w_state w ∧ w_out w' = w_out w ∧ w_line w' = w_line w.
Proof.
  intros Hfin Hr. unfold move_end. rewrite Hfin. cbn [andb].
  destruct (f_fast f), (f_clrlf f); (split_and!; [done| |done..]); (split; [done|]);
  (eapply ready_same; [exact Hr|done|]); cbn; auto.
Qed.

Lemma weaveMove1_to f line w R T :
  f_fast f = false → f_before f = false → f_fin f = false →
  at_pos w R T → w_line w <= line <= w_line w + Z.of_nat (length T) →
  ∃ rc w' P R' T1 T2,
    weaveMove1 None S w line d f = Some (rc, w') ∧ (R ≠ [] → rc = 0 ∧ R' ≠ []) ∧
    R = P ++ R' ∧ T = T1 ++ T2 ∧ moved w w' P T1 ∧ w_line w' = line ∧ at_pos w' R' T2.
Proof.
  intros Hf Hb Hfin [Hbuf Hr] Hl. unfold weaveMove1. destruct R as [|b r].
  { destruct (ready_open _ _ _ Hr) as [_ ->]. rewrite Hbuf. eexists _, w, [], [], [], [].
    split_and!; [done|done|done|done|apply moved_refl|cbn in Hl; lia|]. by split. }
  destruct Hbuf as [-> ->].
  destruct (move_loop_to f line b r (w_print w) w T Hf Hb Hfin Hr Hl)
    as (P & b' & r' & p' & w' & T1 & T2 & -> & HR & -> & Hm & Hl' & Hr'). rewrite Hb. cbn [negb].
  rewrite (after_loop_stop f b' r' p' w' T2 Hr').
  pose proof (move_end_at f b' r' p' w' T2 Hfin Hr') as He.
  destruct (move_end f (Some b') p' (set_fh r' w')) as [rc w2]. destruct He as (-> & Hat & E1 & E2 & E3).
  exists 0, w2, P, (b' :: r'), T1, T2. split_and!; [done|by intros; split|done|done| |by rewrite E3|done].
  by eapply moved_same.
Qed.

Lemma weaveMove_to f line w R T :
  f_fast f = false → f_before f = false → f_fin f = false →
  at_pos w R T → w_line w <= line <= w_line w + Z.of_nat (length T) →
  ∃ rc w' P R' T1 T2,
    weaveMove None S w line d f = Some (rc, w') ∧
    R = P ++ R' ∧ T = T1 ++ T2 ∧ moved w w' P T1 ∧ w_line w' = line ∧ at_pos w' R' T2.
Proof.
  intros Hf Hb Hfin Hat Hl. unfold weaveMove. rewrite Hb.
  destruct (weaveMove1_to f line w R T Hf Hb Hfin Hat Hl)
    as (rc & w' & P & R' & T1 & T2 & -> & _ & ?). by exists rc, w', P, R', T1, T2.
Qed.

Lemma weaveMove_before line w R T :
  at_pos w R T → w_line w < line <= w_line w + Z.of_nat (length T) →
  ∃ w' P R' T1 T2,
    weaveMove None S w line d WM_BEFORE_DEL = Some (0, w') ∧
    R = P ++ R' ∧ T = T1 ++ T2 ∧ moved w w' P T1 ∧ w_line w' = line - 1 ∧ at_pos w' R' T2.
Proof.
  intros Hat Hl. unfold weaveMove. cbn [f_before f_fin WM_BEFORE_DEL negb].
  assert (HR : R ≠ []).
  { intros ->. destruct Hat as [_ Hr]. destruct (ready_open _ _ _ Hr) as [_ ->]. cbn in Hl. lia. }
  destruct (weaveMove1_to (not_before WM_BEFORE_DEL) (line - 1) w R T eq_refl eq_refl eq_refl Hat ltac:(lia))
    as (rc & w1 & P & R' & T1 & T2 & -> & Hrc & -> & -> & Hm & Hl1 & Hat1).
  destruct (Hrc HR) as [-> HR']. cbn [Z.eqb negb].
  destruct R' as [|b r]; [done|]. destruct Hat1 as [[Hb Hfh] Hr]. unfold weaveMove1. rewrite Hb, Hfh.
  assert (HT2 : T2 ≠ []).
  { intros ->. destruct Hm as [_ _ Hml]. rewrite length_app in Hl. cbn in Hl. lia. }
  destruct (move_loop_before WM_BEFORE_DEL b r (w_print w1) w1 T2 eq_refl eq_refl eq_refl HT2 Hr)
    as (P2 & b' & r' & p' & w2 & HL & HR2 & Hm2 & Hdb & Hr2).
  rewrite Hl1 in HL. replace (line - 1 + 1) with line in HL by lia. rewrite HL.
  pose proof (move_end_at WM_BEFORE_DEL b' r' p' w2 T2 eq_refl Hr2) as He.
  destruct (move_end WM_BEFORE_DEL (Some b') p' (set_fh r' w2)) as [rc w3]. destruct He as (-> & Hat3 & E1 & E2 & E3).
  exists w3, (P ++ P2), (b' :: r'), T1, T2. rewrite HR2, app_assoc. split_and!; [done..| | |done].
  - eapply moved_same; [|done..]. rewrite <- (app_nil_r T1). by eapply moved_trans.
  - rewrite E3. destruct Hm2 as [_ _ ->]. cbn. lia.
Qed.

Lemma weaveMove_finish w R T :
  at_pos w R T →
  ∃ w', weaveMove None S w 0 0 WM_FINISH = Some (0, w') ∧ moved w w' R T ∧ w_state w' = [] ∧ (tl → w_no_lf w' = 0).
Proof.
  intros [Hbuf Hr]. unfold weaveMove. cbn [f_before WM_FINISH]. unfold weaveMove1. destruct R as [|b r].
  { destruct (ready_open _ _ _ Hr) as [Hst ->]. rewrite Hbuf. exists w. split_and!; [done|apply moved_refl|done|by eapply ready_lf]. }
  destruct Hbuf as [-> ->].
  destruct (move_loop_finish WM_FINISH 0 0 b r (w_print w) w T eq_refl eq_refl eq_refl ltac:(by right) Hr)
    as (p' & w' & -> & Hm & Hst & Hlf). cbn [f_fin WM_FINISH andb]. rewrite Hst. cbn [whatstate reverse].
  unfold whatstate, reverse. cbn [rev_append whatstate_loop Z.eqb].
  unfold move_end. cbn [f_fast WM_FINISH f_clrlf f_fin andb].
  eexists. split; [done|]. split.
  - eapply moved_same; [exact Hm|..]; by case_if.
  - split; [by case_if|]. intros Htl. specialize (Hlf Htl). by case_if.
Qed.

(** ** The output against the input *)

Definition not_d (l : wline) : bool :=
  match l with WData _ => false | WCtl _ x _ => negb (x =? d) end.

Definition plain_d (l : wline) : bool :=
  match l with WCtl _ x n => negb (x =? d) || bool_decide (n = []) | _ => true end.

(** [Q] is the output for the input [P]: the same for versions without [d], the
    lines [N] for the version [S]; the control lines of older deltas are those
    of [P]. *)
Record woven (P Q : list wline) (N : list cstr) (st : list Z) : Prop := {
  wv_in : ∃ T, wtext S [] P = Some (T, st);
  wv_old : ∀ S', active S' d = false → wtext S' [] Q = wtext S' [] P;
  wv_new : wtext S [] Q = Some (N, st);
  wv_ctl : List.filter not_d Q = List.filter not_d P;
  wv_plain : forallb plain_d Q = true;
  wv_below : below d st
}.

Lemma woven_nil : woven [] [] [] [].
Proof. split; try done; [by exists []|apply Forall_nil_2]. Qed.

Lemma filter_app_w (f : wline → bool) l k : List.filter f (l ++ k) = List.filter f l ++ List.filter f k.
Proof. apply List.filter_app. Qed.

Lemma plain_of R : sers_below d R → forallb plain_d R = true.
Proof.
  intros H. apply forallb_forall. intros l Hl. destruct l as [b|t x n]; [done|]. cbn.
  destruct (Z.eqb_spec x d) as [->|]; [|done]. exfalso.
  assert (Hin : d ∈ serials R).
  { apply list_elem_of_In. unfold serials. apply in_concat. exists [d]. split; [|by left].
    apply in_map_iff. by exists (WCtl t d n). }
  pose proof (proj1 (Forall_forall _ _) H d Hin). simpl in *. lia.
Qed.

(** Copying. *)
Lemma woven_copy P Q N st X T st' :
  woven P Q N st → sers_below d X → wtext S st X = Some (T, st') →
  woven (P ++ X) (Q ++ X) (N ++ T) st'.
Proof.
  intros [[T0 H1] H2 H3 H4 H5 H6] HX Ht. split.
  - exists (T0 ++ T). by rewrite wtext_app, H1, Ht.
  - intros S' HS. by rewrite !wtext_app, H2.
  - by rewrite wtext_app, H3, Ht.
  - by rewrite !filter_app_w, H4.
  - rewrite forallb_app, H5. by apply plain_of.
  - by eapply wtext_below.
Qed.

Lemma woven_old_state P Q N st S' :
  woven P Q N st → ∃ T, wtext S' [] P = Some (T, st).
Proof. intros [[T0 H1] _ _ _ _ _]. by eapply wtext_state. Qed.

Hypothesis S_d : active S d = true.

(** A piece of the weave deleted by [d]. *)
Lemma woven_delete P Q N st X T st' :
  woven P Q N st → sers_below d X → wtext S st X = Some (T, st') →
  woven (P ++ X) (Q ++ [WCtl cD d []] ++ X ++ [WCtl cE d []]) N st'.
Proof.
  intros Hw HX Ht. destruct Hw as [[T0 H1] H2 H3 H4 H5 H6] eqn:Heq. split.
  - exists (T0 ++ T). by rewrite wtext_app, H1, Ht.
  - intros S' HS. destruct (woven_old_state _ _ _ _ S' Hw) as [T' HP].
    destruct (wtext_state S S' _ _ _ _ Ht) as [TX HTX].
    rewrite wtext_app, H2, HP by done. rewrite (wtext_delete_block d S' st X TX st') by done.
    rewrite HS. by rewrite wtext_app, HP, HTX.
  - rewrite wtext_app, H3, (wtext_delete_block d S st X T st') by done. rewrite S_d. by rewrite app_nil_r.
  - rewrite !filter_app_w, H4. cbn [List.filter not_d]. rewrite Z.eqb_refl. cbn. by rewrite app_nil_r.
  - rewrite !forallb_app, H5, (plain_of X) by done. cbn. by rewrite Z.eqb_refl.
  - by eapply wtext_below.
Qed.

(** Lines inserted by [d]. *)
Lemma woven_insert P Q N st ls :
  woven P Q N st →
  woven P (Q ++ [WCtl cI d []] ++ map WData ls ++ [WCtl cE d []]) (N ++ ls) st.
Proof.
  intros Hw. destruct Hw as [[T0 H1] H2 H3 H4 H5 H6] eqn:Heq. split; [by exists T0| | | | |done].
  - intros S' HS. destruct (woven_old_state _ _ _ _ S' Hw) as [T' HP].
    rewrite wtext_app, H2, HP, wtext_insert_block by done. rewrite HS. by rewrite app_nil_r.
  - by rewrite wtext_app, H3, wtext_insert_block, S_d by done.
  - rewrite !filter_app_w, H4. cbn [List.filter not_d]. rewrite Z.eqb_refl. cbn [negb].
    rewrite app_nil_r, app_nil_l. rewrite <- (app_nil_r (List.filter not_d P)) at 2. f_equal.
    by induction ls.
  - rewrite !forallb_app, H5. cbn. rewrite Z.eqb_refl. cbn. rewrite andb_true_r. by induction ls.
Qed.

(** A move copies. *)
Lemma woven_moved P N w w' X T :
  woven P (map parse (w_out w)) N (w_state w) → sers_below d (map parse X) → moved w w' X T →
  woven (P ++ map parse X) (map parse (w_out w')) (N ++ T) (w_state w').
Proof. intros Hw HX [M1 M2 _]. rewrite M2. by apply woven_copy with (w_state w). Qed.
End moves.

(** ** Scanning a diff script *)

Lemma strip_back_keep p s c : p c = false → strip_back p (s ++ [c]) = s ++ [c].
Proof.
  intros Hc. unfold strip_back. rewrite reverse_snoc. cbn [strip_front]. rewrite Hc.
  by rewrite <- reverse_snoc, reverse_involutive.
Qed.

Lemma printf_u_last n : 0 <= n → ∃ s c, printf_u n = s ++ [c] ∧ digit c.
Proof.
  intros Hn. unfold printf_u. cbn [dec_digits]. destruct (Z.ltb_spec n 10).
  - exists [], (48 + n). split; [done|]. unfold digit. lia.
  - eexists _, _. split; [done|]. unfold digit. pose proof (Z.mod_pos_bound n 10). lia.
Qed.

Lemma length_printf_u n : (0 < length (printf_u n))%nat.
Proof. pose proof (dec_digits_ne 19 n) as H. unfold printf_u. destruct (dec_digits 20 n); [done|simpl; lia]. Qed.

Lemma scandiff_cmd c w n :
  c = cmd_a ∨ c = cmd_d → 0 <= w < 2 ^ 31 → 0 <= n < 2 ^ 31 →
  scandiff (fgetline_text (c :: printf_u w ++ 32 :: printf_u n, true)) = Some (c, w, n).
Proof.
  intros Hc Hw Hn. unfold fgetline_text. cbn [fst].
  destruct (printf_u_last n) as (s & x & Es & Hx); [lia|].
  replace (strip_back is_crlf (c :: printf_u w ++ 32 :: printf_u n)) with (c :: printf_u w ++ 32 :: printf_u n).
  2:{ rewrite Es. symmetry. rewrite (app_comm_cons (printf_u w) (32 :: s ++ [x]) c).
      rewrite (app_comm_cons s [x] 32), app_assoc. apply strip_back_keep.
      unfold is_crlf, digit in *. destruct (Z.eqb_spec x 13), (Z.eqb_spec x 10); (done || lia). }
  unfold scandiff. replace (memchr c _) with true by (by destruct Hc as [-> | ->]). cbn [negb].
  rewrite atoi_p_printf by (done || by cbn). cbn [at0 hd drop].
  pose proof (length_printf_u w). pose proof (length_printf_u n).
  replace (Nat.ltb (length (32 :: printf_u n)) (length (printf_u w ++ 32 :: printf_u n))) with true
    by (symmetry; apply Nat.ltb_lt; rewrite length_app; lia).
  cbn [Z.eqb Pos.eqb andb negb]. rewrite drop_0.
  rewrite <- (app_nil_r (printf_u n)) at 1. rewrite atoi_p_printf by done.
  by replace (Nat.ltb (@length Z []) (length (printf_u n))) with true by (symmetry; apply Nat.ltb_lt; simpl; lia).
Qed.

(** The lines of an add command. *)
Lemma ins_loop_lines ls rest added w :
  ∃ w', ins_loop cmd_a (length ls) (map (λ b, (b, true)) ls ++ rest) false added w =
          Some (inl (rest, false, added + Z.of_nat (length ls), w')) ∧
    w_out w' = w_out w ++ map (λ b, fix_cntl_a (nocr b) ++ nocr b) ls ∧
    w_fh w' = w_fh w ∧ w_buf w' = w_buf w ∧ w_state w' = w_state w ∧ w_print w' = w_print w ∧
    w_line w' = w_line w ∧ w_no_lf w' = w_no_lf w.
Proof.
  revert added w. induction ls as [|b ls IH]; intros added w.
  - exists w. cbn. rewrite app_nil_r, Z.add_0_r. by split_and!.
  - cbn [length map app ins_loop]. replace (cmd_a =? cI) with false by done. cbn [andb].
    fold (nocr b). destruct (IH (added + 1) (emit (fix_cntl_a (nocr b) ++ nocr b) (add_sum (str_cksum (nocr b) + 10) w)))
      as (w' & -> & Hout & ?). exists w'. split; [do 3 f_equal; [f_equal; lia]|]. split; [|done].
    rewrite Hout. cbn [emit w_out add_sum]. by rewrite <- app_assoc.
Qed.

(** ** weaveDiffs for the newest delta *)

Section diffs.
Context (S : nat → Z) (d : Z) (tl : Prop) (Hd1 : 1 <= d) (Hd : fits d) (S_d : active S d = true).

Record wd_inv (l : wd_locals) (P : list wline) (R T N : list cstr) : Prop := {
  wi_pos : at_pos S d tl (wd_w l) R T;
  wi_woven : woven S d P (map parse (w_out (wd_w l))) N (w_state (wd_w l));
  wi_fixdel : wd_fixdel l = 0;
  wi_no_lf : wd_no_lf l = false;
  wi_addthis : wd_addthis l = None
}.

Lemma at_pos_same w w' R T :
  at_pos S d tl w R T → w_fh w' = w_fh w → w_buf w' = w_buf w → w_state w' = w_state w →
  w_print w' = w_print w → w_no_lf w' = w_no_lf w → at_pos S d tl w' R T.
Proof.
  intros [H1 H2] E1 E2 E3 E4 E5. split; [by rewrite E1, E2|]. rewrite E4.
  eapply ready_same; [done..|by left].
Qed.

Lemma at_pos_sers w R T P X : at_pos S d tl w R T → R = P ++ X → sers_below d (map parse P).
Proof.
  intros [_ Hr] ->. pose proof (rd_sers _ _ _ _ _ _ _ Hr) as H. rewrite map_app in H.
  by apply sers_below_app in H as [? _].
Qed.

Lemma wd_delete_ok w n l P R T N :
  wd_inv l P R T N → w_line (wd_w l) < w → 1 <= n → w + n - 1 <= w_line (wd_w l) + Z.of_nat (length T) →
  ∃ l' P1 R' T2,
    wd_delete None S d cmd_d w n l = Some (Some l') ∧
    wd_inv l' (P ++ map parse P1) R' T2 (N ++ take (Z.to_nat (w - 1 - w_line (wd_w l))) T) ∧
    R = P1 ++ R' ∧ T2 = drop (Z.to_nat (w - 1 - w_line (wd_w l) + n)) T ∧
    w_line (wd_w l') = w + n - 1 ∧
    wd_added l' = wd_added l ∧ wd_deleted l' = wd_deleted l + n.
Proof.
  intros [Hat Hwv Hfx Hlf Had] Hw Hn Hlen. unfold wd_delete. rewrite Hfx.
  cbn [Z.eqb negb andb]. rewrite andb_false_r. cbn [andb].
  destruct (weaveMove_before S d tl Hd w (wd_w l) R T Hat ltac:(lia))
    as (w1 & P1 & R1 & T1 & T2 & -> & -> & -> & Hm1 & Hl1 & Hat1). cbn [Z.eqb negb].
  set (w2 := emit (doctrl cD d []) w1).
  assert (Hat2 : at_pos S d tl w2 R1 T2) by by eapply at_pos_same.
  pose proof (mv_line _ _ _ _ _ Hm1) as M3. rewrite length_app in Hlen.
  destruct (weaveMove_to S d tl Hd WM_AFTER_DEL (w + n - 1) w2 R1 T2 eq_refl eq_refl eq_refl Hat2)
    as (rc & w3 & P2 & R2 & T3 & T4 & -> & -> & -> & Hm2 & Hl2 & Hat3); [cbn; lia|].
  set (w4 := emit (doctrl cE d []) w3).
  eexists _, (P1 ++ P2), R2, T4. split; [done|]. cbn [wd_w wd_added wd_deleted].
  assert (Hlen1 : (Z.to_nat (w - 1 - w_line (wd_w l)) = length T1)) by lia.
  assert (Hlen3 : Z.of_nat (length T3) = n) by (destruct Hm2 as [_ _ Hx]; rewrite Hl2 in Hx; cbn in Hx; lia).
  split; [|split_and!; [by rewrite app_assoc| |done|done|done]].
  2:{ replace (Z.to_nat (w - 1 - w_line (wd_w l) + n)) with (length T1 + length T3)%nat by lia.
      rewrite app_assoc. rewrite <- length_app. by rewrite drop_app_length. }
  split; [by eapply at_pos_same| |done..]. cbn [wd_w].
  rewrite Hlen1, take_app_length. rewrite map_app, app_assoc.
  pose proof (woven_moved S d Hd P N (wd_w l) w1 P1 T1 Hwv (at_pos_sers _ _ _ _ _ Hat eq_refl) Hm1) as Hwv1.
  destruct Hm2 as [M4 M5 _].
  assert (Hout : map parse (w_out w4) =
    map parse (w_out w1) ++ [WCtl cD d []] ++ map parse P2 ++ [WCtl cE d []]).
  { unfold w4. cbn [emit w_out]. rewrite map_app, M5. unfold w2. cbn [emit w_out]. rewrite map_app. cbn [map].
    rewrite !parse_doctrl by done. by rewrite <- !app_assoc. }
  rewrite Hout. eapply woven_delete; [done|done|done|exact Hwv1|exact (at_pos_sers _ _ _ _ _ Hat1 eq_refl)|exact M4].
Qed.

Lemma map_parse_esc ls : map parse (map (λ b, fix_cntl_a (nocr b) ++ nocr b) ls) =
  map WData (map (λ b, fix_cntl_a (nocr b) ++ nocr b) ls).
Proof. rewrite !map_map. apply map_ext. intros b. apply parse_data, isData_esc. Qed.

Lemma wd_insert_ok w ls rest l P R T N :
  wd_inv l P R T N → w_line (wd_w l) <= w <= w_line (wd_w l) + Z.of_nat (length T) →
  ∃ l' P1 R' T2,
    wd_insert None S d cmd_a w (Z.of_nat (length ls)) (map (λ b, (b, true)) ls ++ rest) l =
      Some (inl (rest, l')) ∧
    wd_inv l' (P ++ map parse P1) R' T2
      (N ++ take (Z.to_nat (w - w_line (wd_w l))) T ++ map (λ b, fix_cntl_a (nocr b) ++ nocr b) ls) ∧
    R = P1 ++ R' ∧ T2 = drop (Z.to_nat (w - w_line (wd_w l))) T ∧
    w_line (wd_w l') = w ∧
    wd_added l' = wd_added l + Z.of_nat (length ls) ∧ wd_deleted l' = wd_deleted l.
Proof.
  intros [Hat Hwv Hfx Hlf Had] Hw. unfold wd_insert.
  destruct (weaveMove_to S d tl Hd WM_ADD w (wd_w l) R T eq_refl eq_refl eq_refl Hat Hw)
    as (rc & w1 & P1 & R1 & T1 & T2 & -> & -> & -> & Hm1 & Hl1 & Hat1).
  replace (cmd_a =? cN) with false by done. cbv iota. rewrite Nat2Z.id.
  destruct (ins_loop_lines ls rest (wd_added l) (emit (doctrl cI d []) w1))
    as (w2 & -> & Hout & E1 & E2 & E3 & E4 & E5 & E6). cbv iota.
  eexists _, P1, R1, T2. split; [done|]. cbn [wd_w wd_added wd_deleted].
  assert (Hlen1 : Z.to_nat (w - w_line (wd_w l)) = length T1) by (destruct Hm1 as [_ _ Hx]; lia).
  rewrite Hlen1, take_app_length, drop_app_length.
  split; [|split_and!; [done|done|exact (eq_trans E5 Hl1)|done|done]].
  split; [by eapply at_pos_same| |done..]. cbn [wd_w emit w_out w_state].
  pose proof (woven_moved S d Hd P N (wd_w l) w1 P1 T1 Hwv (at_pos_sers _ _ _ _ _ Hat eq_refl) Hm1) as Hwv1.
  rewrite Hout, E3. cbn [emit w_out w_state]. rewrite !map_app. cbn [map].
  rewrite !parse_doctrl, map_parse_esc by done. rewrite <- !app_assoc. rewrite (app_assoc N T1).
  by apply woven_insert.
Qed.

Definition esc (b : cstr) : cstr := fix_cntl_a b ++ b.

(** The script on escaped lines. *)
Fixpoint apply_raw (k : Z) (T : list cstr) (cs : list dcmd) : list cstr :=
  match cs with
  | [] => T
  | DDel w n :: cs =>
      take (Z.to_nat (w - 1 - k)) T ++ apply_raw (w + n - 1) (drop (Z.to_nat (w - 1 - k + n)) T) cs
  | DAdd w ls :: cs =>
      take (Z.to_nat (w - k)) T ++ map (λ b, esc (nocr b)) ls ++
      apply_raw w (drop (Z.to_nat (w - k)) T) cs
  end.

Lemma apply_raw_unesc k T cs : map unesc (apply_raw k T cs) = apply_diff k (map unesc T) cs.
Proof.
  revert k T. induction cs as [|[w n|w ls] cs IH]; intros k T; cbn [apply_raw apply_diff]; [done|..].
  - by rewrite map_app, IH, firstn_map, skipn_map.
  - rewrite !map_app, IH, firstn_map, skipn_map, map_map. do 2 f_equal.
    apply map_ext. intros b. apply unesc_esc.
Qed.

Lemma wd_loop_ok cs fuel l P R T N n :
  (length (diff_file cs) <= fuel)%nat → wd_inv l P R T N →
  n = w_line (wd_w l) + Z.of_nat (length T) → 0 <= w_line (wd_w l) → n < 2 ^ 31 →
  diff_ok (w_line (wd_w l)) n cs = true →
  ∃ l' P1 R' T' N',
    wd_loop None S fuel d (diff_file cs) l = Some (inl l') ∧ wd_inv l' (P ++ map parse P1) R' T' N' ∧
    R = P1 ++ R' ∧ N' ++ T' = N ++ apply_raw (w_line (wd_w l)) T cs ∧
    n = w_line (wd_w l') + Z.of_nat (length T') ∧
    wd_added l' = wd_added l + added_of cs ∧ wd_deleted l' = wd_deleted l + deleted_of cs.
Proof.
  revert fuel l P R T N. induction cs as [|c cs IH]; intros fuel l P R T N Hfuel Hi Hn Hl0 Hmax Hok.
  { exists l, [], R, T, N. cbn [map apply_raw added_of deleted_of].
    rewrite app_nil_r, !Z.add_0_r. split_and!; try done. by destruct fuel. }
  unfold diff_file in *. cbn [map concat] in *. rewrite length_app in Hfuel.
  destruct c as [w h|w ls]; cbn [diff_ok] in Hok.
  - apply andb_prop in Hok as [Hok Hrest]. boolify. destruct fuel as [|fuel]; [simpl in Hfuel; lia|].
    destruct (wd_delete_ok w h l P R T N Hi) as (l1 & P1 & R1 & T1 & Hdel & Hi1 & -> & -> & Hl1 & Ha1 & Hd1'); [lia..|].
    cbn [cmd_file app wd_loop]. rewrite scandiff_cmd by ((by right) || lia). cbn [Z.eqb cmd_d Pos.eqb orb]. rewrite Hdel.
    destruct (IH fuel l1 _ _ _ _ ltac:(simpl in Hfuel; lia) Hi1) as (l2 & P2 & R2 & T2 & N2 & HL & Hi2 & -> & HN & Hlen2 & Ha2 & Hd2);
      [rewrite length_drop; lia|lia|lia|by rewrite Hl1|].
    exists l2, (P1 ++ P2), R2, T2, N2. rewrite map_app, app_assoc. split_and!; [done|done|by rewrite app_assoc| |done|..].
    + rewrite HN, Hl1. cbn [apply_raw]. by rewrite <- app_assoc.
    + cbn [added_of]. lia.
    + cbn [deleted_of]. lia.
  - apply andb_prop in Hok as [Hok Hrest]. boolify. destruct fuel as [|fuel]; [simpl in Hfuel; lia|].
    destruct (wd_insert_ok w ls (concat (map cmd_file cs)) l P R T N Hi)
      as (l1 & P1 & R1 & T1 & Hins & Hi1 & -> & -> & Hl1 & Ha1 & Hd1'); [lia|].
    cbn [cmd_file app wd_loop]. rewrite scandiff_cmd by ((by left) || lia). cbn [Z.eqb cmd_d cD cmd_a Pos.eqb orb]. rewrite Hins.
    destruct (IH fuel l1 _ _ _ _ ltac:(cbn [cmd_file length] in Hfuel; lia) Hi1) as (l2 & P2 & R2 & T2 & N2 & HL & Hi2 & -> & HN & Hlen2 & Ha2 & Hd2);
      [rewrite length_drop; lia|lia|lia|by rewrite Hl1|].
    exists l2, (P1 ++ P2), R2, T2, N2. rewrite map_app, app_assoc. split_and!; [done|done|by rewrite app_assoc| |done|..].
    + rewrite HN, Hl1. cbn [apply_raw]. by rewrite <- !app_assoc.
    + cbn [added_of]. lia.
    + cbn [deleted_of]. lia.
Qed.
End diffs.

(** ** Well-formed output *)

Lemma elem_serials x R : x ∈ serials R ↔ ∃ t n, WCtl t x n ∈ R.
Proof.
  unfold serials. induction R as [|[b|t y n] R IH]; cbn [map concat app ctl_serial].
  - split; [intros H; by apply not_elem_of_nil in H|]. intros (t & n & H). by apply not_elem_of_nil in H.
  - rewrite IH. split; intros (t & n & H); exists t, n; [by right|]. by apply elem_of_cons in H as [|].
  - rewrite elem_of_cons, IH. split.
    + intros [->|(t' & n' & H)]; [exists t, n; by left|exists t', n'; by right].
    + intros (t' & n' & H). apply elem_of_cons in H as [H|H]; [left; by injection H|right; by exists t', n'].
Qed.

Lemma elem_filter_not_d d l R : l ∈ List.filter (not_d d) R ↔ l ∈ R ∧ not_d d l = true.
Proof. rewrite !list_elem_of_In. apply filter_In. Qed.

Lemma n_ok_filter d R : n_ok R = true → n_ok (List.filter (not_d d) R) = true.
Proof.
  induction R as [|[b|t x n] R IH]; cbn [n_ok List.filter not_d]; [done|done|].
  intros H. apply andb_prop in H as [H1 H2]. destruct (negb (x =? d)); [|auto]. cbn [n_ok]. rewrite IH by done.
  apply orb_prop in H1 as [-> | H1]; [done|]. apply negb_true_iff, bool_decide_eq_false in H1.
  rewrite (bool_decide_eq_false_2 (x ∈ serials _)); [by rewrite orb_true_r|]. intros Hin. apply H1.
  apply elem_serials in Hin as (t' & n' & Hin). apply elem_filter_not_d in Hin as [Hin _].
  apply elem_serials. by exists t', n'.
Qed.

Lemma n_ok_woven d Q : n_ok (List.filter (not_d d) Q) = true → forallb (plain_d d) Q = true → n_ok Q = true.
Proof.
  induction Q as [|[b|t x n] Q IH]; cbn [n_ok List.filter not_d forallb plain_d]; [done|done|].
  intros H1 H2. apply andb_prop in H2 as [H2 H3]. destruct (Z.eqb_spec x d) as [->|Hx]; cbn [negb orb] in *.
  - rewrite H2. cbn. by apply IH.
  - cbn [n_ok] in H1. apply andb_prop in H1 as [H1 H4]. rewrite IH by done. rewrite andb_true_r.
    apply orb_prop in H1 as [-> | H1]; [done|]. apply negb_true_iff, bool_decide_eq_false in H1.
    rewrite (bool_decide_eq_false_2 (x ∈ serials Q)); [by rewrite orb_true_r|]. intros Hin. apply H1.
    apply elem_serials in Hin as (t' & n' & Hin). apply elem_serials. exists t', n'.
    apply elem_filter_not_d. split; [done|]. cbn. by destruct (Z.eqb_spec x d).
Qed.

Lemma weave_ok_woven S d W P Q N :
  weave_okb d W = true → P = map parse W → woven S d P (map parse Q) N [] → weave_okb (d + 1) Q = true.
Proof.
  intros HW -> [_ _ Hnew Hctl Hpl _]. unfold weave_okb in *.
  apply andb_prop in HW as [HW Hn]. apply andb_prop in HW as [_ Hs].
  destruct (wtext_state S (λ _, 0) _ _ _ _ Hnew) as [T' HT']. rewrite HT'. cbn.
  rewrite (n_ok_woven d) by (done || (rewrite Hctl; by apply n_ok_filter)). rewrite andb_true_r.
  apply forallb_forall. intros x Hx. apply list_elem_of_In, elem_serials in Hx as (t & n & Hx).
  apply Z.ltb_lt. destruct (decide (x = d)) as [->|Hne]; [lia|].
  assert (Hin : WCtl t x n ∈ List.filter (not_d d) (map parse Q)).
  { apply elem_filter_not_d. split; [done|]. cbn. by destruct (Z.eqb_spec x d). }
  rewrite Hctl in Hin. apply elem_filter_not_d in Hin as [Hin _].
  rewrite forallb_forall in Hs. specialize (Hs x). rewrite Z.ltb_lt in Hs.
  enough (x < d) by lia. apply Hs, list_elem_of_In, elem_serials. by exists t, n.
Qed.

Lemma no_eof_mark S st R T st' :
  wtext S st (map parse R) = Some (T, st') → forallb (λ b, negb (eof_mark b)) R = true.
Proof.
  revert st T. induction R as [|b R IH]; intros st T; cbn [map wtext forallb]; [done|].
  destruct (wstep st (parse b)) as [st1|] eqn:Hs; [|done].
  destruct (wtext S st1 (map parse R)) as [[T1 st2]|] eqn:Ht; [|done]. intros [= _ <-].
  rewrite (IH _ _ Ht), andb_true_r. unfold eof_mark. case_bool_decide as Hb; [|done]. subst b. done.
Qed.

Lemma weave_ok_text d W S :
  weave_okb d W = true → ∃ T, wtext S [] (map parse W) = Some (T, []) ∧ sers_below d (map parse W) ∧
    n_ok (map parse W) = true.
Proof.
  intros HW. unfold weave_okb in HW. apply andb_prop in HW as [HW Hn]. apply andb_prop in HW as [Ht Hs].
  apply bool_decide_eq_true in Ht.
  destruct (wtext (λ _, 0) [] (map parse W)) as [[T st]|] eqn:E; [|done]. cbn in Ht. injection Ht as ->.
  destruct (wtext_state _ S _ _ _ _ E) as [T' ->]. exists T'. split_and!; [done| |done].
  apply Forall_forall. intros x Hx. rewrite forallb_forall in Hs. apply Z.ltb_lt, Hs. by apply list_elem_of_In.
Qed.

(** The start of [weaveDiffs] on a fresh [fweave]. *)
Lemma reset_at_pos S d W T :
  wtext S [] (map parse W) = Some (T, []) → sers_below d (map parse W) → n_ok (map parse W) = true →
  let w := weaveReset (new_fweave W) in
  at_pos S d (forallb untagged (map parse W) = true) w W T ∧ w_state w = [] ∧ w_out w = [] ∧ w_line w = 0.
Proof.
  intros Ht Hs Hn. pose proof (no_eof_mark _ _ _ _ _ Ht) as He.
  assert (Hr : ∀ w, w_state w = [] → w_no_lf w = 0 → ready S d (forallb untagged (map parse W) = true) w 0 W T).
  { intros w Hst Hlf. split; rewrite ?Hst, ?Hlf; try done; [|by left]. apply Forall_nil_2. }
  unfold weaveReset, new_fweave. cbn [w_fh]. destruct W as [|b r]; cbn [sccs_nextdata].
  - split_and!; [|done..]. split; [done|]. by apply Hr.
  - cbn in He. apply andb_prop in He as [He _]. apply negb_true_iff in He. rewrite He.
    split_and!; [|done..]. split; [done|]. by apply Hr.
Qed.

(** [weaveDiffs] as a whole: the output is woven from the input, and unless the
    last line lacks its newline no second round is asked for. *)
Lemma weaveDiffs_woven S d W T cs :
  1 <= d <= SL_MASK → weave_okb d W = true → active S d = true →
  wtext S [] (map parse W) = Some (T, []) → Z.of_nat (length T) < 2 ^ 31 →
  diff_ok 0 (Z.of_nat (length T)) cs = true →
  ∃ r, weaveDiffs None S (new_fweave W) d (Some (diff_file cs)) (Some 0) = Some (inl r) ∧
    woven S d (map parse W) (map parse (w_out (wr_w r))) (apply_raw 0 T cs) [] ∧
    wr_added r = added_of cs ∧ wr_deleted r = deleted_of cs ∧ wr_same r = Z.of_nat (length T) - deleted_of cs ∧
    (forallb untagged (map parse W) = true → wr_fixdel r = 0).
Proof.
  intros Hd HW HS Ht Hlen Hok. assert (Hfit : fits d) by (unfold fits; lia).
  destruct (weave_ok_text d W S HW) as (T0 & Ht0 & Hs & Hn). rewrite Ht in Ht0. injection Ht0 as <-.
  destruct (reset_at_pos S d W T Ht Hs Hn) as (Hat & Hst & Hout & Hline). set (tl := forallb untagged (map parse W) = true) in *.
  unfold weaveDiffs. set (w := weaveReset (new_fweave W)) in *. rewrite Hst. cbn [from_option id].
  assert (Hi : wd_inv S d tl (mkWd w 0 false 0 None 0 0) [] W T []).
  { split; cbn [wd_w]; try done. rewrite Hout, Hst. apply woven_nil. }
  destruct (wd_loop_ok S d tl (proj1 Hd) Hfit HS cs (length (diff_file cs)) _ [] W T [] (Z.of_nat (length T)) (le_n _) Hi)
    as (l & P1 & R' & T' & N' & -> & [Hat' Hwv Hfx Hlf Had] & -> & HN & Hcnt & Ha & Hdel);
    cbn [wd_w]; rewrite ?Hline; [lia|lia|lia|done|].
  unfold wd_addthis_flush. rewrite Had.
  destruct (weaveMove_finish S d tl Hfit (wd_w l) R' T' Hat') as (w2 & -> & Hm & Hst2 & Hlf2). cbn [Z.eqb negb].
  rewrite Hlf, Hfx. cbn [negb orb Z.eqb].
  match goal with |- ∃ r, (let? _ := ?fx in _) = _ ∧ _ =>
    assert (Hfx' : ∃ v : Z, fx = Some v ∧ (tl → v = 0)) end.
  { case_if; [|by exists 0]. eexists. split; [done|]. intros Htl. rewrite (Hlf2 Htl) in *. by boolify. }
  destruct Hfx' as (v & -> & Hv). eexists. split; [done|]. cbn [wr_w wr_added wr_deleted wr_same wr_fixdel].
  assert (HR' : sers_below d (map parse R')) by (destruct Hat' as [_ Hr']; apply Hr').
  pose proof (woven_moved S d Hfit _ N' (wd_w l) w2 R' T' Hwv HR' Hm) as Hfin.
  rewrite Hst2, HN in Hfin. cbn [app wd_w] in Hfin. rewrite Hline, <- map_app in Hfin.
  split; [done|]. cbn in Ha, Hdel. split_and!; [lia|lia| |done]. destruct Hm as [_ _ ->]. lia.
Qed.

Lemma weave_text_wtext S d W T :
  weave_okb d W = true → weave_text S W = Some T →
  ∃ T0, wtext S [] (map parse W) = Some (T0, []) ∧ T = map unesc T0.
Proof.
  intros HW HT. destruct (weave_ok_text d W S HW) as (T0 & Ht & _). exists T0. split; [done|].
  unfold weave_text in HT. rewrite Ht in HT. by injection HT.
Qed.

Lemma woven_weave_text S d W Q N :
  woven S d (map parse W) (map parse Q) N [] →
  (∀ S', active S' d = false → weave_text S' Q = weave_text S' W) ∧ weave_text S Q = Some (map unesc N).
Proof.
  intros H. unfold weave_text. split; [|by rewrite (wv_new _ _ _ _ _ _ H)].
  intros S' HS'. by rewrite (wv_old _ _ _ _ _ _ H).
Qed.

(** ** Properties *)

(** C4. Adding the newest delta to a weave.  For a well-formed weave, a version
    [S] that holds the new delta [d] and has fewer than 2^31 lines, and a [diff -n]
    script against the text of that version, [weaveDiffs] succeeds; the new weave is well formed, every
    version without [d] has the text it had, the version has the script's
    result, and the added/deleted/unchanged counts are those of the script. *)
Theorem weaveDiffs_new_delta S d W T cs :
  1 <= d <= SL_MASK → weave_okb d W = true → active S d = true →
  weave_text S W = Some T → Z.of_nat (length T) < 2 ^ 31 →
  diff_ok 0 (Z.of_nat (length T)) cs = true →
  ∃ r, weaveDiffs None S (new_fweave W) d (Some (diff_file cs)) (Some 0) = Some (inl r) ∧
    let W' := w_out (wr_w r) in
    weave_okb (d + 1) W' = true ∧
    (∀ S', active S' d = false → weave_text S' W' = weave_text S' W) ∧
    weave_text S W' = Some (apply_diff 0 T cs) ∧
    wr_added r = added_of cs ∧ wr_deleted r = deleted_of cs ∧
    wr_same r = Z.of_nat (length T) - deleted_of cs.
Proof.
  intros Hd HW HS HT Hlen Hok. destruct (weave_text_wtext S d W T HW HT) as (T0 & Ht & ->).
  rewrite length_map in *. destruct (weaveDiffs_woven S d W T0 cs) as (r & Hrun & Hwv & Ha & Hdel & Hsame & _); [done..|].
  exists r. split; [done|]. cbv zeta. destruct (woven_weave_text S d W _ _ Hwv) as [Hold Hnew].
  split; [by eapply weave_ok_woven|]. split; [done|]. split; [|done]. by rewrite Hnew, apply_raw_unesc.
Qed.

(** A weave of two deltas, the second replacing the middle line. *)
Definition ex_weave : list cstr :=
  [ctl_line cI 1 []; [97]; ctl_line cD 2 []; [98]; ctl_line cE 2 []; ctl_line cI 2 []; [66];
   ctl_line cE 2 []; [99]; ctl_line cE 1 []].

Definition ex_version (k : nat) (j : nat) : Z := if (j <=? k)%nat then 1 else 0.

Definition ex_script : list dcmd := [DDel 1 1; DAdd 1 [[120; 13]; [1; 121]]; DDel 3 1].

Lemma weaveDiffs_new_delta_witness :
  weave_text (ex_version 3) ex_weave = Some [[97]; [66]; [99]] ∧
  ∃ r, weaveDiffs None (ex_version 3) (new_fweave ex_weave) 3 (Some (diff_file ex_script)) (Some 0) =
       Some (inl r) ∧
    let W' := w_out (wr_w r) in
    weave_okb (3 + 1) W' = true ∧
    (∀ S', active S' 3 = false → weave_text S' W' = weave_text S' ex_weave) ∧
    weave_text (ex_version 3) W' = Some (apply_diff 0 [[97]; [66]; [99]] ex_script) ∧
    wr_added r = added_of ex_script ∧ wr_deleted r = deleted_of ex_script ∧
    wr_same r = Z.of_nat (length [[97]; [66]; [99]]) - deleted_of ex_script.
Proof.
  split; [reflexivity|]. apply (weaveDiffs_new_delta (ex_version 3) 3 ex_weave [[97]; [66]; [99]] ex_script).
  - unfold SL_MASK. lia.
  - vm_compute. reflexivity.
  - reflexivity.
  - reflexivity.
  - vm_compute. reflexivity.
  - vm_compute. reflexivity.
Defined.

(** The results of the moves before an addition and after a deletion are not
    looked at: a script that adds after line 9 of a file of 3 lines is accepted,
    and the line last read is written once more after the end of the weave. *)
Theorem weaveDiffs_past_end :
  let W := [ctl_line cI 1 []; [97]; [98]; [99]; ctl_line cE 1 []] in
  ∃ r, weaveDiffs None (ex_version 2) (new_fweave W) 2 (Some (diff_file [DDel 1 1; DAdd 9 [[88]]])) (Some 0) =
       Some (inl r) ∧ wr_rc r = 0 ∧
    w_out (wr_w r) =
      [ctl_line cI 1 []; ctl_line cD 2 []; [97]; ctl_line cE 2 []; [98]; [99]; ctl_line cE 1 [];
       ctl_line cI 2 []; [88]; ctl_line cE 2 []; [98]].
Proof. cbv zeta. eexists. split; [vm_compute; reflexivity|]. split; vm_compute; reflexivity. Qed.
