(* ===== verification/WeaveGet.v ===== *)
(** * WeaveGet: reading a version out of the weave

    That [get_reg] writes the text the weave specification gives, with the line
    ending after every line but one whose block is tagged "no newline", and the
    checksum of what it writes. *)

From S2P Require Import Prelude CStr Sccs Weave WeaveText.
From stdpp Require Import base numbers list.
From Stdlib Require Import ZArith Lia.

Local Open Scope Z_scope.

Local Open Scope bk_scope.

(** ** The state *)

Lemma sers_insert i st v : sers (take i st ++ v :: drop i st) ≡ₚ SL_SER v :: sers st.
Proof.
  unfold sers. rewrite <- (take_drop i st) at 3. rewrite !map_app. cbn [map app].
  symmetry. apply Permutation_middle.
Qed.

Lemma changestate_nodup st t x st' :
  fits x → NoDup (sers st) → (t = cE ∨ x ∉ sers st) → changestate st t x = Some st' → NoDup (sers st').
Proof.
  intros Hx Hnd Hc. unfold changestate. case_if; [|done]. destruct (find_place _ _ _) as [i|]; [|done].
  destruct (Z.eqb_spec t cE) as [->|Ht].
  - case_if; [|done]. intros [= <-]. rewrite delete_take_drop. unfold sers in *. rewrite map_app.
    rewrite <- firstn_map, <- skipn_map. rewrite <- delete_take_drop. eapply sublist_NoDup; [done|apply sublist_delete].
  - destruct Hc as [|Hc]; [done|]. intros [= <-]. rewrite sers_insert. apply NoDup_cons. split; [|done].
    destruct (t =? cI); [by destruct (set_i x Hx) as [-> _]|]. by rewrite set_d, ser_small.
Qed.

Lemma find_place_above st x i k j :
  find_place st x i = Some k → (k < j <= i)%nat → SL_INS (state_at st j) = false.
Proof.
  induction i as [|i IH]; cbn [find_place]; intros Hf Hj; [lia|].
  destruct (SL_SER (state_at st (S i)) <=? x); [injection Hf as <-; lia|].
  destruct (SL_INS (state_at st (S i))) eqn:Hi; [done|].
  destruct (decide (j = S i)) as [->|]; [done|]. apply IH; [done|lia].
Qed.

Lemma whatstate_top st k :
  (1 <= k <= length st)%nat → SL_INS (state_at st k) = true →
  (∀ j, (k < j <= length st)%nat → SL_INS (state_at st j) = false) →
  whatstate st = SL_SER (state_at st k).
Proof.
  unfold whatstate. induction st as [|e st IH] using rev_ind; intros Hk Hi Habove; [simpl in Hk; lia|].
  rewrite reverse_snoc. cbn [whatstate_loop]. rewrite length_app, Nat.add_1_r in *.
  destruct (decide (k = S (length st))) as [->|Hne].
  - rewrite state_at_last in *. by rewrite Hi.
  - pose proof (Habove (S (length st)) ltac:(lia)) as Ht. rewrite state_at_last in Ht. rewrite Ht.
    rewrite state_at_app in * by lia. apply IH; [lia|done|].
    intros j Hj. rewrite <- (state_at_app st e) by lia. apply Habove. lia.
Qed.

(** The block that closes is the current text block when it is an insert. *)
Lemma whatstate_close st x st' e :
  NoDup (sers st) → e ∈ st → SL_INS e = true → SL_SER e = x → changestate st cE x = Some st' →
  whatstate st = x.
Proof.
  intros Hnd He Hi Hse. unfold changestate. case_if; [|done].
  destruct (find_place st x (length st)) as [k|] eqn:Hf; [|done]. cbn [Z.eqb cE Pos.eqb].
  destruct (Nat.eqb_spec k 0) as [|Hk0]; [done|]. cbn [negb andb].
  destruct (Z.eqb_spec (SL_SER (state_at st k)) x) as [Hk|]; [|done]. intros _.
  pose proof (find_place_le _ _ _ _ Hf) as Hkl.
  assert (Hek : state_at st k = e).
  { apply list_elem_of_lookup in He as [i Hi']. unfold state_at.
    destruct (lookup_lt_is_Some_2 st (k - 1)) as [y Hy]; [lia|].
    rewrite (nth_lookup_Some _ _ _ _ Hy). unfold state_at in Hk. rewrite (nth_lookup_Some _ _ _ _ Hy) in Hk.
    assert (i = (k - 1)%nat) as ->; [|congruence].
    eapply (NoDup_lookup (sers st)); [done|..]; unfold sers;
    (rewrite list_lookup_fmap, ?Hi', ?Hy; cbn; reflexivity || (f_equal; congruence)). }
  rewrite <- Hek in Hi. rewrite <- Hk. apply whatstate_top; [lia|done|].
  intros j Hj. by eapply find_place_above.
Qed.

(** ** The reader *)

(** A line that is not a closing line tagged [N]. *)
Definition tagless (b : cstr) : bool := isData b || negb (at0 (strip_front isdigit (drop 3 b)) =? cN).

Section reader.
Context (S : nat → Z) (d : Z) (newcksum : bool) (eol : cstr).
Hypothesis d_ok : d ≠ 0 ∧ active S d = true.
(** The weave read has no tagged line. *)
Variable tl : Prop.

Definition pend (g : getst) : cstr := if g_lf_pend g =? 0 then [] else eol.

(** The text with the line ending after every line. *)
Definition rendered (T : list cstr) : cstr := concat (map (λ b, unesc b ++ eol) T).

Definition text_sum (T : list cstr) : Z := fold_right (λ b a, bytes_sum (unesc b) + 10 + a) 0 T.

(** The two counters are u32s that count [n] lines together. *)
Definition split_count (g : getst) (n : Z) : Prop :=
  ∃ a b, 0 <= a ∧ 0 <= b ∧ a + b = n ∧ g_added g = u32 a ∧ g_same g = u32 b.

Record got (g : getst) (T : list cstr) : Prop := {
  gt_nodup : NoDup (sers (g_state g));
  gt_print : g_print g = printstate (g_state g) S;
  gt_out : g_out g ++ pend g = rendered T;
  gt_lines : g_lines g = int32 (Z.of_nat (length T));
  gt_sum : newcksum = true → u32 (g_sum g + (if g_lf_pend g =? 0 then 0 else 10)) = u32 (text_sum T);
  gt_count : newcksum = true → split_count g (Z.of_nat (length T)) ∧
     (g_print g ≠ 0 ↔ g_counter g = Added ∨ g_counter g = Same);
  gt_pend : tl → g_lf_pend g ≠ 0 →
     ∃ e, e ∈ g_state g ∧ SL_INS e = true ∧ SL_SER e = g_lf_pend g
}.

Lemma rendered_snoc T b : rendered (T ++ [b]) = rendered T ++ unesc b ++ eol.
Proof. unfold rendered. rewrite map_app, concat_app. cbn. by rewrite app_nil_r. Qed.

Lemma text_sum_snoc T b : text_sum (T ++ [b]) = text_sum T + bytes_sum (unesc b) + 10.
Proof. unfold text_sum. induction T as [|x T IH]; cbn [fold_right app]; lia. Qed.

Lemma u32_add_l a b : u32 (u32 a + b) = u32 (a + b).
Proof. unfold u32. apply Z.add_mod_idemp_l. lia. Qed.

Lemma u32_idem a : u32 (u32 a) = u32 a.
Proof. unfold u32. apply Z.mod_mod. lia. Qed.

Lemma g_count_split g n :
  split_count g n → split_count (g_count g) (n + match g_counter g with Added | Same => 1 | _ => 0 end).
Proof.
  intros (a & b & Ha & Hb & <- & E1 & E2). unfold split_count, g_count. cbn [g_added g_same]. rewrite E1, E2.
  destruct (g_counter g).
  - exists (a + 1), b. rewrite u32_add_l. split_and!; done || lia.
  - exists a, b. split_and!; done || lia.
  - exists a, (b + 1). rewrite u32_add_l. split_and!; done || lia.
  - exists a, b. split_and!; done || lia.
Qed.

(** Writing the pending line ending. *)
Lemma put_eol_got g T :
  got g T → g_lf_pend g ≠ 0 →
  let g' := put_eol newcksum false eol g in
  got g' T ∧ g_lf_pend g' = 0 ∧ g_state g' = g_state g ∧ g_print g' = g_print g.
Proof.
  intros [H1 H2 H3 H4 H5 H6 H7] Hp. cbv zeta. split_and!; try done. split; cbn; try done.
  - unfold pend in *. cbn. destruct (Z.eqb_spec (g_lf_pend g) 0); [done|]. by rewrite app_nil_r.
  - intros Hn. rewrite <- H5 by done. rewrite Hn. destruct (Z.eqb_spec (g_lf_pend g) 0); [done|].
    rewrite u32_add_l. f_equal. lia.
Qed.

Lemma get_data_got buf g T :
  got g T →
  got (get_data newcksum false eol buf g) (T ++ printed (g_print g) buf).
Proof.
  intros Hg. unfold get_data. fold (unesc buf).
  assert (Hc : ∃ g1, g_count g = g1 ∧ g_state g1 = g_state g ∧ g_print g1 = g_print g ∧
     g_lf_pend g1 = g_lf_pend g ∧ g_sum g1 = g_sum g ∧ g_lines g1 = g_lines g ∧ g_out g1 = g_out g ∧
     g_counter g1 = g_counter g ∧
     ∀ n, split_count g n → split_count g1 (n + match g_counter g with Added | Same => 1 | _ => 0 end)).
  { eexists. split; [done|]. split_and!; try done. apply g_count_split. }
  destruct Hc as (g1 & -> & E1 & E2 & E3 & E4 & E5 & E6 & E7 & E8).
  destruct (Z.eqb_spec (g_print g1) 0) as [Hp|Hp].
  - unfold printed. rewrite <- E2, Hp. cbn [Z.eqb]. rewrite app_nil_r.
    assert (Hg1 : got g1 T).
    { destruct Hg as [H1 H2 H3 H4 H5 H6 H7].
      split; rewrite ?E1, ?E2, ?E3, ?E4, ?E5; try done.
      - unfold pend. by rewrite E3, E6.
      - intros Hn. destruct (H6 Hn) as [H6a H6b]. apply E8 in H6a. rewrite E7. split; [|done].
        destruct (g_counter g) eqn:Hcn; rewrite ?Z.add_0_r in H6a; try done; exfalso; apply H6b; rewrite <- ?E2; auto. }
    destruct (negb (g_lf_pend g1 =? 0) && _) eqn:Hb; [|done].
    apply andb_prop in Hb as [Hb _]. apply negb_true_iff, Z.eqb_neq in Hb. by apply put_eol_got.
  - unfold printed. rewrite <- E2. destruct (Z.eqb_spec (g_print g1) 0); [done|].
    destruct Hg as [H1 H2 H3 H4 H5 H6 H7].
    assert (Hq : ∃ g2, (if negb (g_lf_pend g1 =? 0) then put_eol newcksum false eol g1 else g1) = g2 ∧
      g_state g2 = g_state g ∧ g_print g2 = g_print g ∧ g_out g2 = rendered T ∧ g_lines g2 = g_lines g ∧
      (newcksum = true → u32 (g_sum g2) = u32 (text_sum T)) ∧ g_counter g2 = g_counter g ∧
      ∀ n, split_count g1 n → split_count g2 n).
    { eexists. split; [done|]. unfold pend in H3. rewrite E3.
      destruct (Z.eqb_spec (g_lf_pend g) 0) as [Hz|Hz]; cbn [negb].
      - rewrite app_nil_r in H3. split_and!; try congruence || done. intros Hn. rewrite E4, <- H5 by done.
        f_equal. lia.
      - split_and!; cbn; try congruence || done. intros Hn. rewrite <- H5, E4, Hn by done. apply u32_idem. }
    destruct Hq as (g2 & -> & F1 & F2 & F3 & F4 & F5 & F6 & F7).
    assert (Hp2 : (g_print g2 =? 0) = false) by (apply Z.eqb_neq; congruence).
    split; cbn [g_put g_state g_print g_out g_lines g_sum g_lf_pend g_added g_same g_counter].
    + by rewrite F1.
    + by rewrite F1, F2.
    + unfold pend. cbn [g_lf_pend g_put]. rewrite Hp2, F3, rendered_snoc. by rewrite <- app_assoc.
    + rewrite F4, H4, int32_add, length_app. f_equal. cbn. lia.
    + intros Hn. rewrite Hn, Hp2, text_sum_snoc, u32_add_l.
      replace (g_sum g2 + (bytes_sum (unesc buf) + 10 - 10) + 10) with (g_sum g2 + (bytes_sum (unesc buf) + 10)) by lia.
      rewrite <- (Z.add_assoc (text_sum T)).
      by rewrite <- (u32_add_l (g_sum g2)), <- (u32_add_l (text_sum T)), F5.
    + intros Hn. destruct (H6 Hn) as [H6a H6b]. apply E8, F7 in H6a. rewrite F6, F2, length_app. cbn [length]. split; [|done].
      destruct (g_counter g); try (by rewrite Nat2Z.inj_add); exfalso; (assert (g_print g ≠ 0) as [?|?]%H6b by congruence; done).
    + intros _ _. rewrite F1, F2, H2. apply printstate_elem. rewrite <- H2. congruence.
Qed.

Lemma get_ctl_got buf g T t x m st1 :
  isData buf = false → ctl_scan buf = (t, x, m) → wstep (g_state g) (WCtl t x m) = Some st1 → fits x →
  (tl → tagless buf = true) → got g T →
  ∃ g', get_ctl S d newcksum false eol buf g = Some g' ∧ got g' T ∧ g_state g' = st1.
Proof.
  intros Hb Hscan Hs Hx Htl Hg. unfold get_ctl.
  assert (Hts : atoi (drop 3 buf) = x ∧ at0 (drop 1 buf) = t).
  { unfold ctl_scan, atoi_p in Hscan. unfold atoi. destruct (atoi_loop 0 (drop 3 buf)). by injection Hscan as -> -> _. }
  destruct Hts as [-> ->]. cbn [wstep] in Hs.
  destruct ((1 <=? x) && _) eqn:Hc in Hs; [|done]. apply andb_prop in Hc as [Hx1 Hc]. boolify.
  set (g1 := if (t =? cE) && (g_lf_pend g =? x) && (whatstate (g_state g) =? x) then _ else g).
  assert (Hopen : t = cE ∨ x ∉ sers (g_state g)).
  { apply orb_prop in Hc as [Hc|Hc]; boolify; [by left|right].
    match goal with H : negb (bool_decide _) = true |- _ =>
      apply negb_true_iff in H; by apply bool_decide_eq_false in H end. }
  assert (H1 : got g1 T ∧ g_state g1 = g_state g ∧ (tl → g_lf_pend g1 ≠ 0 → g_lf_pend g1 ≠ x)).
  { pose proof (gt_pend _ _ Hg) as Hp. unfold g1.
    destruct (Z.eqb_spec (g_lf_pend g) x) as [Hl|Hl]; [|rewrite andb_false_r; by split_and!].
    destruct (Z.eqb_spec t cE) as [->|Ht]; cbn [andb].
    - destruct (Z.eqb_spec (whatstate (g_state g)) x) as [Hw|Hw].
      + destruct (negb (at0 (strip_front isdigit (drop 3 buf)) =? cN)) eqn:Htag.
        * destruct (put_eol_got g T Hg ltac:(lia)) as (? & E & ? & ?). split_and!; [done..|]. by rewrite E.
        * split_and!; [by destruct Hg|done|]. intros Ht. specialize (Htl Ht). unfold tagless in Htl.
          by rewrite Hb, Htag in Htl.
      + split_and!; [done..|]. intros Ht H0 _. apply Hw.
        destruct (Hp Ht H0) as (e & He & Hi & Hse).
        eapply whatstate_close; [apply Hg|exact He|exact Hi|lia|exact Hs].
    - split_and!; [done..|]. intros Ht' H0 _. destruct Hopen as [|Hopen]; [done|].
      destruct (Hp Ht' H0) as (e & He & Hi & Hse). apply Hopen. unfold sers. apply list_elem_of_fmap.
      exists e. split; [congruence|done]. }
  destruct H1 as (Hg1 & Hst & Hpx). rewrite Hst, Hs. destruct (Z.eqb_spec d 0) as [Hd0|Hd0]; [by destruct d_ok|].
  destruct Hg1 as [G1 G2 G3 G4 G5 G6 G7]. rewrite Hst in *.
  assert (Hnd : NoDup (sers st1)) by by eapply changestate_nodup.
  assert (Hfin : ∀ c, (newcksum = true → printstate st1 S ≠ 0 ↔ c = Added ∨ c = Same) →
     got (set_counter c (printstate st1 S) st1 g1) T ∧ g_state (set_counter c (printstate st1 S) st1 g1) = st1).
  { intros c Hcn. split; [|done]. split; cbn; try done.
    - intros Hn. split; [by apply G6|auto].
    - intros Ht Hl. destruct (G7 Ht Hl) as (e & He & Hi & Hse). exists e. split; [|done].
      eapply changestate_keep; [exact Hs|done|]. rewrite Hse. by apply Hpx. }
  destruct newcksum eqn:Hnc; cbn [negb]; [|eexists; split; [done|]; by apply Hfin].
  destruct (Z.eqb_spec (printstate st1 S) d) as [Hpd|Hpd].
  { eexists. split; [done|]. apply Hfin. intros _. split; [by left|]. intros _. by rewrite Hpd. }
  destruct (Z.eqb_spec (printstate st1 S) 0) as [Hp0|Hp0]; cbn [negb].
  - unfold delstate. replace (negb (sl_at S d =? 0)) with true by (symmetry; apply d_ok).
    eexists. split; [done|]. apply Hfin. intros _. split; [done|]. case_if; intros [|]; done.
  - eexists. split; [done|]. apply Hfin. intros _. split; [by right|done].
Qed.

Lemma get_loop_got W g T st' T0 dmax :
  wtext S (g_state g) (map parse W) = Some (T, st') → sers_below dmax (map parse W) → fits dmax →
  (tl → forallb tagless W = true) → got g T0 →
  ∃ g', get_loop S d newcksum false eol W g = Some g' ∧ got g' (T0 ++ T) ∧ g_state g' = st'.
Proof.
  intros Ht Hs Hfit Htl Hg. pose proof (no_eof_mark _ _ _ _ _ Ht) as He.
  revert g T T0 Ht Hg. induction W as [|b W IH]; intros g T T0 Ht Hg; cbn [map wtext get_loop] in *.
  { injection Ht as <- <-. exists g. by rewrite app_nil_r. }
  cbn [forallb] in *. apply andb_prop in He as [He1 He2]. apply negb_true_iff in He1. rewrite He1.
  apply sers_below_cons in Hs as [Hs1 Hs2].
  assert (Htl2 : tl → forallb tagless W = true) by (intros H; by apply Htl, andb_prop in H as [_ ?]).
  assert (Htl1 : tl → tagless b = true) by (intros H; by apply Htl, andb_prop in H as [? _]).
  destruct (isData b) eqn:Hb.
  - rewrite (parse_data b Hb) in Ht. cbn [wstep] in Ht.
    destruct (wtext S (g_state g) (map parse W)) as [[T1 st1]|] eqn:Ht1; [|done]. injection Ht as <- ->.
    pose proof (get_data_got b g T0 Hg) as Hg'. set (g1 := get_data _ _ _ b g) in *.
    assert (Hst : g_state g1 = g_state g).
    { unfold g1, get_data. destruct (_ =? 0); [by case_if|]. cbn. by destruct (negb _). }
    destruct (IH Hs2 Htl2 He2 g1 T1 (T0 ++ printed (g_print g) b)) as (g' & -> & Hg2 & ?); [by rewrite Hst|done|].
    exists g'. split; [done|]. split; [|done]. rewrite <- (gt_print _ _ Hg). unfold printed in Hg2.
    rewrite <- app_assoc in Hg2. by destruct (g_print g =? 0).
  - destruct (ctl_scan b) as [[t x] m] eqn:Hscan.
    assert (Hp : parse b = WCtl t x m) by (unfold parse; by rewrite Hb, Hscan). rewrite Hp in Ht, Hs1.
    destruct (wstep (g_state g) (WCtl t x m)) as [st1|] eqn:Hstep; [|done].
    destruct (wtext S st1 (map parse W)) as [[T1 st2]|] eqn:Ht1; [|done]. injection Ht as -> ->.
    assert (Hx : fits x).
    { unfold sers_below in Hs1. cbn in Hs1. rewrite Forall_singleton in Hs1. cbn [wstep] in Hstep.
      destruct ((1 <=? x) && _) eqn:Hc in Hstep; [|done]. apply andb_prop in Hc as [Hx1 _]. boolify.
      unfold fits in *. lia. }
    destruct (get_ctl_got b g T0 t x m st1 Hb Hscan Hstep Hx Htl1 Hg) as (g1 & -> & Hg1 & Hst).
    apply (IH Hs2 Htl2 He2 g1 T T0); [by rewrite Hst|done].
Qed.
End reader.

Lemma tag_scan s v : at0 (strip_front isdigit s) = cN → at0 (snd (atoi_loop v s)) = cN.
Proof.
  revert v. induction s as [|x t IH]; intros v; cbn [strip_front atoi_loop]; [done|].
  destruct (isdigit x) eqn:Ed.
  - unfold isdigit in Ed. apply andb_prop in Ed as [? ?]. boolify.
    assert (Hu : u8 (x - 48) = x - 48) by (apply Z.mod_small; lia).
    rewrite Hu. destruct (Z.ltb_spec (x - 48) 10); [|lia]. apply IH.
  - cbn. intros ->. done.
Qed.

(** ** The final newline *)

(** The lines [W] end inside or after a text block [p] whose last line of the
    version [S] has no line end yet: [b] is the last line of the version and its
    block is [p], no other line that belongs to block [p] follows, and where block
    [p] is closed after it, it is closed as having no final newline. *)
Definition unended (S : nat → Z) (W : list cstr) (p : Z) : Prop :=
  ∃ A b B T st st', W = A ++ b :: B ∧ isData b = true ∧ wtext S [] (map parse A) = Some (T, st) ∧
    printstate st S = p ∧ wtext S st (map parse B) = Some ([], st') ∧
    (∀ B1 b' B2 T1 st1, B = B1 ++ b' :: B2 → isData b' = true → wtext S st (map parse B1) = Some (T1, st1) → whatstate st1 ≠ p) ∧
    (∀ c m, c ∈ B → isData c = false → ctl_scan c = (cE, p, m) → tagless c = false).

(** The version's text has no final newline. *)
Definition no_newline (S : nat → Z) (W : list cstr) : Prop := ∃ p, p ≠ 0 ∧ unended S W p.

Lemma wtext_snoc S st R T st1 l :
  wtext S st R = Some (T, st1) →
  wtext S st (R ++ [l]) = let? st2 := wstep st1 l in
    Some (T ++ match l with WData b => if printstate st1 S =? 0 then [] else [b] | WCtl _ _ _ => [] end, st2).
Proof.
  intros H. rewrite wtext_app, H. cbn [wtext]. destruct (wstep st1 l) as [st2|]; [|done]. destruct l; [case_if|]; done.
Qed.

Lemma wtext_snoc_inv S st R T st2 l :
  wtext S st (R ++ [l]) = Some (T, st2) →
  ∃ T1 st1, wtext S st R = Some (T1, st1) ∧ wstep st1 l = Some st2 ∧
    T = T1 ++ match l with WData b => if printstate st1 S =? 0 then [] else [b] | WCtl _ _ _ => [] end.
Proof.
  intros H. pose proof H as H'. rewrite wtext_app in H. destruct (wtext S st R) as [[T1 st1]|] eqn:E; [|done].
  rewrite (wtext_snoc _ _ _ _ _ _ E) in H'. destruct (wstep st1 l) as [st3|] eqn:E3; [|done]. injection H' as <- <-. eauto.
Qed.

Section newline.
Context (S : nat → Z) (W : list cstr) (T : list cstr) (st : list Z).
Hypothesis HW : wtext S [] (map parse W) = Some (T, st).

(** How a line ends on a line more: at the end of the list, or before. *)
Lemma snoc_split (x : cstr) A b B : W ++ [x] = A ++ b :: B → (A = W ∧ b = x ∧ B = []) ∨ ∃ B', B = B' ++ [x] ∧ W = A ++ b :: B'.
Proof.
  destruct (list_eq_nil_dec B) as [->|Hne].
  - intros E. apply app_inj_tail in E as [-> ->]. by left.
  - destruct (exists_last Hne) as (B' & y & ->). intros E. right. exists B'.
    rewrite app_comm_cons, app_assoc in E. apply app_inj_tail in E as [-> ->]. done.
Qed.

Lemma state_after A b B T0 st0 T1 st1 :
  W = A ++ b :: B → isData b = true → wtext S [] (map parse A) = Some (T0, st0) → wtext S st0 (map parse B) = Some (T1, st1) → st1 = st.
Proof.
  intros -> Hb HA HB. rewrite map_app, wtext_app, HA in HW. cbn [map wtext] in HW. rewrite (parse_data b Hb) in HW.
  cbn [wstep] in HW. rewrite HB in HW. case_if; by injection HW as _ <-.
Qed.

Lemma unended_data b p : isData b = true → p ≠ 0 →
  unended S (W ++ [b]) p ↔ if printstate st S =? 0 then unended S W p ∧ whatstate st ≠ p else p = printstate st S.
Proof.
  intros Hb Hp. split.
  - intros (A & x & B & T0 & st0 & st' & E & Hx & HA & Hpr & HB & Hno & Htag).
    apply snoc_split in E as [(-> & -> & ->)|(B' & -> & E)].
    + rewrite HW in HA. injection HA as <- <-. destruct (Z.eqb_spec (printstate st S) 0); [congruence|done].
    + rewrite map_app in HB. cbn [map] in HB. apply wtext_snoc_inv in HB as (T1 & st1 & HB & Hs & ET).
      assert (st1 = st) as -> by by eapply state_after.
      rewrite (parse_data b Hb) in ET. destruct (Z.eqb_spec (printstate st S) 0) as [H0|H0].
      2: { destruct T1; done. }
      rewrite app_nil_r in ET. subst T1. split; [|by eapply (Hno B' b [])].
      exists A, x, B', T0, st0, st. split_and!; try done.
      * intros B1 b' B2 T1 st1 EB. apply (Hno B1 b' (B2 ++ [b])). by rewrite EB, <- app_assoc.
      * intros c m Hc. apply Htag, elem_of_app. by left.
  - destruct (Z.eqb_spec (printstate st S) 0) as [H0|H0].
    + intros [(A & x & B & T0 & st0 & st' & E & Hx & HA & Hpr & HB & Hno & Htag) Hw].
      assert (st' = st) as -> by by eapply state_after.
      exists A, x, (B ++ [b]), T0, st0, st. split_and!; try done.
      * by rewrite E, <- app_assoc.
      * rewrite map_app. cbn [map]. rewrite (wtext_snoc _ _ _ _ _ _ HB), (parse_data b Hb). cbn [wstep]. by rewrite H0.
      * intros B1 b' B2 T1 st1 EB Hb' HB1. assert (Hs := EB). destruct (list_eq_nil_dec B2) as [->|Hne].
        { apply app_inj_tail in EB as [<- <-]. rewrite HB in HB1. by injection HB1 as <- <-. }
        destruct (exists_last Hne) as (B3 & y & ->). rewrite app_comm_cons, app_assoc in EB. apply app_inj_tail in EB as [EB _].
        by eapply Hno.
      * intros c m Hc Hd Hsc. apply elem_of_app in Hc as [Hc|Hc]; [by eapply Htag|]. apply list_elem_of_singleton in Hc. congruence.
    + intros ->. exists W, b, [], T, st, st. split_and!; try done; [intros [|? B1]; done|].
      intros c m Hc. by apply not_elem_of_nil in Hc.
Qed.

Lemma unended_ctl c t x m st1 p : isData c = false → ctl_scan c = (t, x, m) → wstep st (WCtl t x m) = Some st1 →
  unended S (W ++ [c]) p ↔ unended S W p ∧ (t = cE → x = p → tagless c = false).
Proof.
  intros Hc Hscan Hs. assert (Hpc : parse c = WCtl t x m) by (unfold parse; by rewrite Hc, Hscan). split.
  - intros (A & b & B & T0 & st0 & st' & E & Hb & HA & Hpr & HB & Hno & Htag).
    apply snoc_split in E as [(-> & -> & ->)|(B' & -> & E)]; [congruence|].
    rewrite map_app in HB. cbn [map] in HB. apply wtext_snoc_inv in HB as (T1 & st2 & HB & Hs2 & ET).
    assert (st2 = st) as -> by by eapply state_after.
    rewrite Hpc, app_nil_r in ET. subst T1. split.
    + exists A, b, B', T0, st0, st. split_and!; try done.
      * intros B1 b' B2 T1 st2 EB. apply (Hno B1 b' (B2 ++ [c])). by rewrite EB, <- app_assoc.
      * intros y n Hy. apply Htag, elem_of_app. by left.
    + intros -> ->. apply (Htag c m); [|done|done]. apply elem_of_app. right. by apply list_elem_of_singleton.
  - intros [(A & b & B & T0 & st0 & st' & E & Hb & HA & Hpr & HB & Hno & Htag) Hcl].
    assert (st' = st) as -> by by eapply state_after.
    exists A, b, (B ++ [c]), T0, st0, st1. split_and!; try done.
    + by rewrite E, <- app_assoc.
    + rewrite map_app. cbn [map]. rewrite (wtext_snoc _ _ _ _ _ _ HB), Hpc, Hs. done.
    + intros B1 b' B2 T1 st2 EB Hb' HB1. destruct (list_eq_nil_dec B2) as [->|Hne].
      { apply app_inj_tail in EB as [_ ->]. congruence. }
      destruct (exists_last Hne) as (B3 & y & ->). rewrite app_comm_cons, app_assoc in EB. apply app_inj_tail in EB as [EB _].
      by eapply Hno.
    + intros y n Hy Hd Hsc. apply elem_of_app in Hy as [Hy|Hy]; [by eapply Htag|]. apply list_elem_of_singleton in Hy as ->.
      rewrite Hscan in Hsc. injection Hsc as -> -> _. by apply Hcl.
Qed.
End newline.

Section pending.
Context (S : nat → Z) (d : Z) (newcksum : bool) (eol : cstr).

(** After the lines [W0], with the lines [W] to come: the block whose line end is
    held back is the one that is not ended, and it is open or is not met again. *)
Record pending (g : getst) (W0 W : list cstr) : Prop := {
  pn_text : ∃ T, wtext S [] (map parse W0) = Some (T, g_state g);
  pn_nodup : NoDup (sers (g_state g));
  pn_print : g_print g = printstate (g_state g) S;
  pn_iff : ∀ p, p ≠ 0 → g_lf_pend g = p ↔ unended S W0 p;
  pn_open : g_lf_pend g ≠ 0 → (∃ e, e ∈ g_state g ∧ SL_INS e = true ∧ SL_SER e = g_lf_pend g) ∨
     g_lf_pend g ∉ serials (map parse W)
}.

Lemma get_data_lf b g :
  g_state (get_data newcksum false eol b g) = g_state g ∧ g_print (get_data newcksum false eol b g) = g_print g ∧
  g_lf_pend (get_data newcksum false eol b g) =
    if g_print g =? 0 then (if g_lf_pend g =? whatstate (g_state g) then 0 else g_lf_pend g) else g_print g.
Proof.
  unfold get_data. cbn [g_count g_print g_lf_pend g_state]. destruct (g_print g =? 0).
  - destruct (Z.eqb_spec (g_lf_pend g) 0) as [E|E]; cbn [negb andb]; [|by case_if].
    cbn. rewrite E. by destruct (0 =? _).
  - by destruct (negb _).
Qed.

Lemma get_data_pending b W0 W g : isData b = true → pending g W0 (b :: W) → pending (get_data newcksum false eol b g) (W0 ++ [b]) W.
Proof.
  intros Hb [[T HT] Hnd Hpr Hiff Hop]. destruct (get_data_lf b g) as (E1 & E2 & E3).
  assert (Hser : serials (map parse (b :: W)) = serials (map parse W)) by (cbn [map]; by rewrite (parse_data b Hb)).
  rewrite Hser in Hop. split; rewrite ?E1, ?E2; try done.
  - rewrite map_app. cbn [map]. rewrite (wtext_snoc _ _ _ _ _ _ HT), (parse_data b Hb). cbn [wstep]. eauto.
  - intros p Hp. rewrite E3, (unended_data _ _ _ _ HT b p Hb Hp), <- Hpr. destruct (Z.eqb_spec (g_print g) 0) as [H0|H0]; [|done].
    rewrite <- Hiff by done. destruct (Z.eqb_spec (g_lf_pend g) (whatstate (g_state g))) as [Hw|Hw]; naive_solver.
  - rewrite E3. destruct (Z.eqb_spec (g_print g) 0) as [H0|H0].
    + destruct (_ =? _); [done|exact Hop].
    + intros _. left. rewrite Hpr. apply printstate_elem. congruence.
Qed.

Lemma get_ctl_lf c g g' t x m : ctl_scan c = (t, x, m) → get_ctl S d newcksum false eol c g = Some g' →
  (∃ st1, changestate (g_state g) t x = Some st1 ∧ g_state g' = st1 ∧ (d ≠ 0 → g_print g' = printstate st1 S)) ∧
  g_lf_pend g' = if (t =? cE) && (g_lf_pend g =? x) && (whatstate (g_state g) =? x) &&
                    negb (at0 (strip_front isdigit (drop 3 c)) =? cN) then 0 else g_lf_pend g.
Proof.
  intros Hscan. unfold get_ctl.
  assert (Hts : atoi (drop 3 c) = x ∧ at0 (drop 1 c) = t).
  { unfold ctl_scan, atoi_p in Hscan. unfold atoi. destruct (atoi_loop 0 (drop 3 c)). by injection Hscan as -> -> _. }
  destruct Hts as [-> ->]. set (g1 := if (t =? cE) && _ && _ then _ else g).
  assert (Hg1 : g_state g1 = g_state g ∧ g_lf_pend g1 =
    if (t =? cE) && (g_lf_pend g =? x) && (whatstate (g_state g) =? x) && negb (at0 (strip_front isdigit (drop 3 c)) =? cN)
    then 0 else g_lf_pend g).
  { unfold g1. destruct ((t =? cE) && _ && _); cbn [andb]; [|done]. by destruct (negb _). }
  destruct Hg1 as [-> Hlf]. destruct (changestate (g_state g) t x) as [st1|]; [|done].
  destruct (Z.eqb_spec d 0) as [->|Hd].
  { intros [= <-]. split; [|done]. exists st1. split_and!; done. }
  assert (Hfin : ∀ k, (∃ st2, Some st1 = Some st2 ∧ g_state (set_counter k (printstate st1 S) st1 g1) = st2 ∧
    (d ≠ 0 → g_print (set_counter k (printstate st1 S) st1 g1) = printstate st2 S)) ∧
    g_lf_pend (set_counter k (printstate st1 S) st1 g1) = g_lf_pend g1) by (intros k; split; [by exists st1|done]).
  rewrite <- Hlf. destruct (negb newcksum); [intros [= <-]; apply Hfin|]. destruct (_ =? d); [intros [= <-]; apply Hfin|].
  destruct (negb (printstate st1 S =? 0)); [intros [= <-]; apply Hfin|]. destruct (delstate _ _ _); [|done]. intros [= <-]. apply Hfin.
Qed.

(** A tag is not empty. *)
Lemma tag_nonempty c t x m : isData c = false → ctl_scan c = (t, x, m) → tagless c = false → m ≠ [].
Proof.
  intros Hc Hscan Ht ->. unfold tagless in Ht. rewrite Hc in Ht. cbn [orb] in Ht. apply negb_false_iff, Z.eqb_eq in Ht.
  unfold ctl_scan, atoi_p in Hscan. pose proof (tag_scan _ 0 Ht) as H. destruct (atoi_loop 0 (drop 3 c)). cbn [snd] in H.
  injection Hscan as _ _ ->. done.
Qed.

Lemma get_ctl_pending c W0 W g g' t x m st1 : d ≠ 0 → isData c = false → ctl_scan c = (t, x, m) →
  wstep (g_state g) (WCtl t x m) = Some st1 → fits x → n_ok (map parse (c :: W)) = true →
  get_ctl S d newcksum false eol c g = Some g' → pending g W0 (c :: W) → pending g' (W0 ++ [c]) W.
Proof.
  intros Hd Hc Hscan Hs Hx Hn Hrun [[T HT] Hnd Hpr Hiff Hop].
  assert (Hpc : parse c = WCtl t x m) by (unfold parse; by rewrite Hc, Hscan).
  destruct (get_ctl_lf _ _ _ _ _ _ Hscan Hrun) as [(st2 & Hch & Est & Epr) Elf]. specialize (Epr Hd).
  pose proof Hs as Hs0. cbn [wstep] in Hs. destruct ((1 <=? x) && _) eqn:Hcond in Hs; [|done].
  apply andb_prop in Hcond as [Hx1 Hcond]. boolify. rewrite Hs in Hch. injection Hch as <-.
  assert (Hopen : t = cE ∨ x ∉ sers (g_state g)).
  { apply orb_prop in Hcond as [Hq|Hq]; boolify; [by left|right].
    match goal with H : negb (bool_decide _) = true |- _ => apply negb_true_iff in H; by apply bool_decide_eq_false in H end. }
  cbn [map] in Hn, Hop. rewrite Hpc in Hn, Hop. cbn [n_ok] in Hn. apply andb_prop in Hn as [Hn _].
  assert (Hser : serials (WCtl t x m :: map parse W) = x :: serials (map parse W)) by done. rewrite Hser in Hop.
  assert (Htag : negb (at0 (strip_front isdigit (drop 3 c)) =? cN) = tagless c) by (unfold tagless; by rewrite Hc).
  rewrite Htag in Elf.
  (** A block that is waiting and closes is the current text block. *)
  assert (Hwhat : t = cE → g_lf_pend g = x → whatstate (g_state g) = x).
  { intros -> Hl. destruct Hop as [(e & He & Hi & Hse)|Hno]; [lia| |].
    - eapply whatstate_close; [done|exact He|exact Hi|lia|exact Hs].
    - exfalso. apply Hno. rewrite Hl. apply elem_of_cons. by left. }
  split; rewrite ?Est; try done.
  - rewrite map_app. cbn [map]. rewrite (wtext_snoc _ _ _ _ _ _ HT), Hpc, Hs0. eauto.
  - by eapply changestate_nodup.
  - intros p Hp. rewrite (unended_ctl _ _ _ _ HT c t x m st1 p Hc Hscan Hs0), <- Hiff, Elf by done.
    destruct (Z.eqb_spec t cE) as [Ht|Ht]; cbn [andb]; [|naive_solver].
    destruct (Z.eqb_spec (g_lf_pend g) x) as [Hl|Hl]; cbn [andb]; [|naive_solver].
    rewrite (Hwhat Ht Hl), Z.eqb_refl. cbn [andb]. destruct (tagless c); naive_solver.
  - rewrite Elf. destruct (_ && tagless c) eqn:Ez; [done|]. intros Hne. destruct (decide (g_lf_pend g = x)) as [Hl|Hl].
    + destruct Hopen as [Ht|Hno].
      * rewrite Ht, Hl, (Hwhat Ht Hl), !Z.eqb_refl in Ez. cbn [andb] in Ez.
        right. apply orb_prop in Hn as [Hn|Hn].
        { apply bool_decide_eq_true in Hn. by destruct (tag_nonempty c t x m Hc Hscan Ez). }
        apply negb_true_iff, bool_decide_eq_false in Hn. by rewrite Hl.
      * exfalso. destruct (Hop Hne) as [(e & He & Hi & Hse)|Hnos].
        { apply Hno. unfold sers. apply list_elem_of_fmap. exists e. split; [congruence|done]. }
        apply Hnos. rewrite Hl. apply elem_of_cons. by left.
    + destruct (Hop Hne) as [(e & He & Hi & Hse)|Hnos].
      * left. exists e. split; [|done]. eapply changestate_keep; [exact Hs|done|congruence].
      * right. intros Hin. apply Hnos, elem_of_cons. by right.
Qed.

Lemma get_loop_pending W : ∀ g g' W0 T st' dmax, d ≠ 0 →
  wtext S (g_state g) (map parse W) = Some (T, st') → sers_below dmax (map parse W) → fits dmax → n_ok (map parse W) = true →
  get_loop S d newcksum false eol W g = Some g' → pending g W0 W → pending g' (W0 ++ W) [].
Proof.
  induction W as [|b W IH]; intros g g' W0 T st' dmax Hd Ht Hs Hfit Hn Hrun Hp.
  { injection Hrun as <-. by rewrite app_nil_r. }
  pose proof (no_eof_mark _ _ _ _ _ Ht) as He. cbn [forallb] in He. apply andb_prop in He as [He1 _].
  apply negb_true_iff in He1. cbn [get_loop] in Hrun. rewrite He1 in Hrun. cbn [map wtext] in Ht.
  apply sers_below_cons in Hs as [Hs1 Hs2]. replace (W0 ++ b :: W) with ((W0 ++ [b]) ++ W) by (by rewrite <- app_assoc).
  destruct (isData b) eqn:Hb.
  - pose proof (get_data_pending b W0 W g Hb Hp) as Hp'. destruct (get_data_lf b g) as (E1 & _ & _).
    rewrite (parse_data b Hb) in Ht. cbn [wstep] in Ht. destruct (wtext S (g_state g) (map parse W)) as [[T1 st1]|] eqn:Ht1; [|done].
    cbn [map] in Hn. rewrite (parse_data b Hb) in Hn. cbn [n_ok] in Hn. eapply IH; [done| |done|done|done|exact Hrun|exact Hp'].
    rewrite E1. exact Ht1.
  - destruct (ctl_scan b) as [[t x] m] eqn:Hscan.
    assert (Hpb : parse b = WCtl t x m) by (unfold parse; by rewrite Hb, Hscan). rewrite Hpb in Ht, Hs1.
    destruct (wstep (g_state g) (WCtl t x m)) as [st1|] eqn:Hstep; [|done].
    destruct (wtext S st1 (map parse W)) as [[T1 st2]|] eqn:Ht1; [|done].
    assert (Hx : fits x).
    { unfold sers_below in Hs1. cbn in Hs1. rewrite Forall_singleton in Hs1. cbn [wstep] in Hstep.
      destruct ((1 <=? x) && _) eqn:Hc in Hstep; [|done]. apply andb_prop in Hc as [Hx1 _]. boolify. unfold fits in *. lia. }
    destruct (get_ctl S d newcksum false eol b g) as [g1|] eqn:Hctl; [|done].
    pose proof (get_ctl_pending b W0 W g g1 t x m st1 Hd Hb Hscan Hstep Hx Hn Hctl Hp) as Hp'.
    destruct (get_ctl_lf _ _ _ _ _ _ Hscan Hctl) as [(st3 & Hch & Est & _) _].
    assert (st3 = st1) as ->. { cbn [wstep] in Hstep. case_if; [|done]. congruence. }
    cbn [map n_ok] in Hn. rewrite Hpb in Hn. cbn [n_ok] in Hn. apply andb_prop in Hn as [_ Hn].
    eapply IH; [done| |done|done|done|exact Hrun|exact Hp']. rewrite Est. exact Ht1.
Qed.
End pending.

(** [get_reg] as a whole. *)
Lemma get_reg_got S d dmax W T eol newcksum :
  d ≠ 0 → active S d = true → 0 <= dmax <= SL_MASK → weave_okb dmax W = true →
  weave_text S W = Some T →
  ∃ g T0, get_reg S d newcksum false eol W = Some g ∧ T = map unesc T0 ∧
    got S newcksum eol (forallb tagless W = true) g T0 ∧
    g_out g ++ (if g_lf_pend g =? 0 then [] else eol) = concat (map (λ b, b ++ eol) T) ∧
    (forallb tagless W = true → g_lf_pend g = 0).
Proof.
  intros Hd0 Hd Hmax HW HT. destruct (weave_ok_text dmax W S HW) as (T0 & Ht & Hs & _).
  destruct (weave_text_wtext S dmax W T HW HT) as (T1 & Ht1 & ->). rewrite Ht in Ht1. injection Ht1 as <-.
  destruct (get_loop_got S d newcksum eol (conj Hd0 Hd) (forallb tagless W = true) W
    (mkGet [] 0 0 0 0 Other 0 0 0 false []) T0 [] [] dmax Ht Hs Hmax (λ H, H)) as (g & Hg & Hgot & Hst).
  { split; cbn; try done; [apply NoDup_nil_2|]. intros _. split; [by exists 0, 0|]. split; [done|]. by intros [|]. }
  exists g, T0. split; [done|]. split; [done|]. split; [done|]. destruct Hgot as [G1 G2 G3 G4 G5 G6 G7].
  split; [rewrite map_map; exact G3|]. intros Htl. destruct (decide (g_lf_pend g = 0)) as [|Hne]; [done|].
  destruct (G7 Htl Hne) as (e & He & _). rewrite Hst in He. by apply not_elem_of_nil in He.
Qed.

(** The line end held back. *)
Lemma get_reg_no_newline S d dmax W eol newcksum g :
  d ≠ 0 → 0 <= dmax <= SL_MASK → weave_okb dmax W = true → get_reg S d newcksum false eol W = Some g →
  g_lf_pend g ≠ 0 ↔ no_newline S W.
Proof.
  intros Hd0 Hmax HW Hg. destruct (weave_ok_text dmax W S HW) as (T & Ht & Hs & Hn).
  destruct (get_loop_pending S d newcksum eol W (mkGet [] 0 0 0 0 Other 0 0 0 false []) g [] T [] dmax Hd0 Ht Hs Hmax Hn Hg) as [_ _ _ Hiff _].
  { split; cbn; [by eexists|apply NoDup_nil_2|done| |done]. intros p Hp. split; [congruence|].
    intros (A & b & B & _ & _ & _ & E & _). by destruct A. }
  cbn [app] in Hiff. unfold no_newline. split; [|intros (p & Hp & Hu); apply Hiff in Hu; congruence].
  intros Hne. exists (g_lf_pend g). split; [done|]. by apply Hiff.
Qed.

(** ** Properties *)

(** C5. Reading a version.  On a well-formed weave, [get_reg] for a delta [d] of
    the version [S] succeeds and writes the lines of the version in order with
    the line ending after each.  The last ending is held back exactly if the text
    has no final newline ([no_newline]: the text block of its last line is closed
    with the tag N and has no line after that one); on a weave with no such tag
    nothing is held back.  It counts the lines, its checksum is the 32-bit sum of
    the bytes written (a line ending counts as one newline), and the added and
    unchanged counts split the lines; the count of lines is an [int] ([int32], the
    count itself below 2^31), the other two are u32s. *)
Theorem get_reg_text S d dmax W T eol newcksum :
  d ≠ 0 → active S d = true → 0 <= dmax <= SL_MASK → weave_okb dmax W = true →
  weave_text S W = Some T →
  ∃ g, get_reg S d newcksum false eol W = Some g ∧
    (g_lf_pend g ≠ 0 ↔ no_newline S W) ∧
    g_out g ++ (if g_lf_pend g =? 0 then [] else eol) = concat (map (λ b, b ++ eol) T) ∧
    (forallb tagless W = true → g_lf_pend g = 0) ∧
    g_lines g = int32 (Z.of_nat (length T)) ∧
    (newcksum = true →
       u32 (g_sum g + (if g_lf_pend g =? 0 then 0 else 10)) =
       u32 (fold_right (λ b a, bytes_sum b + 10 + a) 0 T) ∧
       (Z.of_nat (length T) < 2 ^ 32 → g_added g + g_same g = Z.of_nat (length T))).
Proof.
  intros Hd0 Hd Hmax HW HT. destruct (get_reg_got S d dmax W T eol newcksum Hd0 Hd Hmax HW HT)
    as (g & T0 & Hg & -> & [G1 G2 G3 G4 G5 G6 G7] & Hout & Hpend).
  exists g. rewrite length_map. split_and!; try done; [by eapply get_reg_no_newline|].
  intros Hn. split.
  2:{ intros Hlen. destruct (G6 Hn) as [(a & b & Ha & Hb & Hab & -> & ->) _]. rewrite !u32_small by lia. done. }
  rewrite G5 by done. f_equal. unfold text_sum. clear.
  induction T0 as [|b T0 IH]; cbn [fold_right map]; [done|]. by rewrite IH.
Qed.

(** The second delta adds a last line that has no newline. *)
Definition ex_nonl : list cstr :=
  [ctl_line cI 1 []; [97]; ctl_line cD 2 []; [98]; ctl_line cE 2 []; ctl_line cI 2 []; [66]; ctl_line cE 2 [cN]; ctl_line cE 1 []].

Lemma get_reg_text_witness :
  (g_out <$> get_reg (ex_version 1) 1 true false [10] ex_nonl = Some [97; 10; 98; 10]) ∧
  (g_out <$> get_reg (ex_version 2) 2 true false [10] ex_nonl = Some [97; 10; 66]) ∧
  ∃ g, get_reg (ex_version 2) 2 true false [10] ex_nonl = Some g ∧
    (g_lf_pend g ≠ 0 ↔ no_newline (ex_version 2) ex_nonl) ∧
    g_out g ++ (if g_lf_pend g =? 0 then [] else [10]) = concat (map (λ b, b ++ [10]) [[97]; [66]]) ∧
    (forallb tagless ex_nonl = true → g_lf_pend g = 0) ∧
    g_lines g = int32 (Z.of_nat (length [[97]; [66]])) ∧
    (true = true →
       u32 (g_sum g + (if g_lf_pend g =? 0 then 0 else 10)) =
       u32 (fold_right (λ b a, bytes_sum b + 10 + a) 0 [[97]; [66]]) ∧
       (Z.of_nat (length [[97]; [66]]) < 2 ^ 32 → g_added g + g_same g = Z.of_nat (length [[97]; [66]]))).
Proof.
  split; [vm_compute; reflexivity|]. split; [vm_compute; reflexivity|].
  apply (get_reg_text (ex_version 2) 2 3 ex_nonl [[97]; [66]] [10] true).
  - done.
  - reflexivity.
  - unfold SL_MASK. lia.
  - vm_compute. reflexivity.
  - reflexivity.
Defined.
