(* ===== verification/Range.v ===== *)
(** * Range: walking the history

    src/src/librange.c: the coloring iterator [walkrevs] that lists graph
    differences, unions, intersections and their tips, the loops built on it,
    and the other walks ([range_findMerge], [range_markMeta], [range_gone],
    [range_unrange], [range_lattice]).  Colors are bits of the delta flags, as
    in the code. *)

From S2P Require Import Prelude CStr Sccs.
From stdpp Require Import base numbers list.
From Stdlib Require Import ZArith Lia.

Local Open Scope Z_scope.

(** [FLAGS(s, d) |= bits], [FLAGS(s, d) &= ~bits] *)
Definition flags_or (s : sccs) (d : nat) (bits : Z) : sccs := FLAGS_SET s d (Z.lor (FLAGS s d) bits).

Definition flags_clr (s : sccs) (d : nat) (bits : Z) : sccs := FLAGS_SET s d (Z.ldiff (FLAGS s d) bits).

Definition has (s : sccs) (d : nat) (bits : Z) : bool := negb (Z.land (FLAGS s d) bits =? 0).

(** ** The iterator *)

Record wr_opts := mkOpts { wr_either : bool; wr_both : bool; wr_tip : bool }.

(** [WR_GCA] *)
Definition WR_GCA : wr_opts := mkOpts false true true.

Record wrdata := mkWr {
  wr_s : sccs; wr_d : nat; wr_last : nat; wr_marked : Z; wr_all : bool; wr_color : Z
}.

Definition wr_mask (o : wr_opts) : Z :=
  if wr_both o then Z.lor (Z.lor D_BLUE D_RED) D_GREEN else Z.lor D_BLUE D_RED.

Definition wr_want (o : wr_opts) : Z := if wr_both o then Z.lor D_RED D_BLUE else D_RED.

Section walkrevs.
Variable o : wr_opts.

Definition markDelta (d : nat) (change : Z) (wr : wrdata) : wrdata :=
  let before := Z.land (FLAGS (wr_s wr) d) (wr_mask o) in
  if Z.ldiff change before =? 0 then wr else
  let last := if (d <? wr_last wr)%nat then d else wr_last wr in
  let marked := if before =? 0 then wr_marked wr else wr_marked wr - 1 in
  let marked := if Z.lor before change =? wr_mask o then marked else marked + 1 in
  mkWr (flags_or (wr_s wr) d change) (wr_d wr) last marked (wr_all wr) (wr_color wr).

Definition mark_list (ds : list nat) (color : Z) (wr : wrdata) : wrdata :=
  fold_left (λ wr d, markDelta d color wr) ds wr.

(** [EACH(red)]: keep the newest serial in [wr->d] and mark. *)
Definition mark_seeds (ds : list nat) (color : Z) (wr : wrdata) : wrdata :=
  fold_left (λ wr d, markDelta d color
               (mkWr (wr_s wr) (Nat.max (wr_d wr) d) (wr_last wr) (wr_marked wr) (wr_all wr) (wr_color wr)))
            ds wr.

(** [red = None]: no upper bound.  (The options carry [WR_GCA] already
    expanded.) *)
Definition walkrevs_setup (s : sccs) (blue : list nat) (red : option (list nat)) : wrdata :=
  let s := set_range s (s_rstart s) 0 in
  let wr := match red with
            | Some red => mark_seeds red D_RED (mkWr s 0 (TABLE s) 0 false 0)
            | None => mkWr s (TABLE s) (TABLE s) 1 true 0
            end in
  let wr := mark_seeds blue D_BLUE wr in
  mkWr (wr_s wr) (S (wr_d wr)) (wr_last wr) (wr_marked wr) (wr_all wr) (wr_color wr).

Definition markParents (d : nat) (color : Z) (wr : wrdata) : wrdata :=
  mark_list (parents_of (wr_s wr) d) color wr.

Definition markTagParents (d : nat) (color : Z) (wr : wrdata) : wrdata :=
  mark_list (ptags_of (wr_s wr) d) color wr.

Definition walkrevs_prune (d : nat) (wr : wrdata) : wrdata := markParents d (wr_mask o) wr.

(** One delta of the loop: whether it is to be returned. *)
Definition walk_step (mark_up : nat → Z → wrdata → wrdata) (d : nat) (wr : wrdata) : bool * wrdata :=
  let wr := if wr_all wr then markDelta d D_RED wr else wr in
  let color := Z.land (FLAGS (wr_s wr) d) (wr_mask o) in
  let wr := mkWr (wr_s wr) (wr_d wr) (wr_last wr) (wr_marked wr) (wr_all wr) color in
  if color =? 0 then (false, wr) else
  let wr := mkWr (flags_clr (wr_s wr) d color) (wr_d wr) (wr_last wr) (wr_marked wr) (wr_all wr) color in
  let wr := mark_up d color wr in
  if color =? wr_mask o then (false, wr) else
  let wr := mkWr (wr_s wr) (wr_d wr) (wr_last wr) (wr_marked wr - 1) (wr_all wr) (wr_color wr) in
  if (Z.land color (wr_want o) =? wr_want o) || wr_either o then
    let wr := if wr_tip o then mark_up d (wr_mask o) wr else wr in
    (true, mkWr (wr_s wr) d (wr_last wr) (wr_marked wr) (wr_all wr) (wr_color wr))
  else (false, wr).

(** [for (--d; (d >= TREE(s)) && (wr->marked > 0); --d)]: the serial returned,
    0 at the end. *)
Fixpoint walkrevs_loop (d : nat) (wr : wrdata) : nat * wrdata :=
  match d with
  | O => (O, wr)
  | S d' =>
      if negb (0 <? wr_marked wr) then (O, wr) else
      if TAG (wr_s wr) d then walkrevs_loop d' wr else
      let '(found, wr) := walk_step markParents d wr in
      if found then (d, wr) else walkrevs_loop d' wr
  end.

Definition walkrevs (wr : wrdata) : nat * wrdata := walkrevs_loop (wr_d wr - 1) wr.

Fixpoint walktagrevs_loop (d : nat) (wr : wrdata) : nat * wrdata :=
  match d with
  | O => (O, wr)
  | S d' =>
      if negb (0 <? wr_marked wr) then (O, wr) else
      let '(found, wr) := walk_step markTagParents d wr in
      if found then (d, wr) else walktagrevs_loop d' wr
  end.

Definition walktagrevs (wr : wrdata) : nat * wrdata := walktagrevs_loop (wr_d wr - 1) wr.

Definition walkrevs_done (wr : wrdata) : sccs :=
  let last := Nat.max TREE (wr_last wr) in
  for_down (λ d s, flags_clr s d (wr_mask o)) (wr_d wr - last) (last - 1) (wr_s wr).

(** [while (d = walkrevs(&wr))]: every round returns a smaller serial, so one
    round per serial is enough. *)
Fixpoint collect_loop (fuel : nat) (wr : wrdata) : list nat * wrdata :=
  match fuel with
  | O => ([], wr)
  | S fuel =>
      let '(d, wr) := walkrevs wr in
      if (d =? 0)%nat then ([], wr)
      else let '(l, wr) := collect_loop fuel wr in (d :: l, wr)
  end.

Definition walkrevs_collect (s : sccs) (blue : list nat) (red : option (list nat)) : list nat * sccs :=
  let '(l, wr) := collect_loop (S (TABLE s)) (walkrevs_setup s blue red) in
  (l, walkrevs_done wr).

(** The callback form: [fcn] may change the graph and the token and returns the
    code that steers the loop.  The result is [None] when the final assert
    fails. *)
Section callback.
Context {A : Type} (fcn : option (sccs → nat → A → Z * sccs * A)).

Definition set_wr_s (s : sccs) (wr : wrdata) : wrdata :=
  mkWr s (wr_d wr) (wr_last wr) (wr_marked wr) (wr_all wr) (wr_color wr).

Fixpoint range_loop (fuel : nat) (tok : A) (wr : wrdata) : Z * A * wrdata :=
  match fuel with
  | O => (0, tok, wr)
  | S fuel =>
      let '(d, wr) := walkrevs wr in
      if (d =? 0)%nat then (0, tok, wr) else
      let wr := if wr_either o then set_wr_s (flags_or (wr_s wr) d (wr_color wr)) wr else wr in
      let '(ret, s, tok) :=
        match fcn with Some f => f (wr_s wr) d tok | None => (0, wr_s wr, tok) end in
      let wr := set_wr_s s wr in
      if 0 <? ret then (ret, tok, wr) else
      if ret <? 0 then
        let wr := if wr_either o then set_wr_s (flags_clr (wr_s wr) d (wr_color wr)) wr else wr in
        range_loop fuel tok (walkrevs_prune d wr)
      else
        let s := wr_s wr in
        range_loop fuel tok (set_wr_s (set_range s d (if (s_rstop s =? 0)%nat then d else s_rstop s)) wr)
  end.

Definition range_walkrevs (s : sccs) (blue : list nat) (red : option (list nat)) (tok : A) :
    option (Z * A * sccs) :=
  let '(ret, tok, wr) := range_loop (S (TABLE s)) tok (walkrevs_setup s blue red) in
  if negb (ret =? 0) || (wr_marked wr =? Z.b2z (wr_all wr)) then Some (ret, tok, walkrevs_done wr)
  else None.
End callback.
End walkrevs.

Definition wr_plain : wr_opts := mkOpts false false false.

Definition walkrevs_clrFlags (s : sccs) (d : nat) (token : Z) : Z * sccs * Z := (0, flags_clr s d token, token).

Definition walkrevs_setFlags (s : sccs) (d : nat) (token : Z) : Z * sccs * Z := (0, flags_or s d token, token).

Definition csetStop (s : sccs) (d : nat) (token : nat) : Z * sccs * nat :=
  if negb (token =? d)%nat && has s d D_CSET then (-1, s, token) else (0, flags_or s d D_SET, token).

(** [range_cset] once [sccs_csetBoundary] has given the cset delta [d] (0 when
    pending). *)
Definition range_cset (s : sccs) (d : nat) : option sccs :=
  if (d =? 0)%nat then Some s else
  match range_walkrevs wr_plain (Some csetStop) s [] (Some [d]) d with
  | Some (_, _, s) => Some (set_sstate s (Z.lor (s_state s) S_SET))
  | None => None
  end.

(** ** The other walks *)

Definition RB : Z := Z.lor D_RED D_BLUE.

Record fm := mkFm { fm_s : sccs; fm_ret : nat; fm_list : list nat; fm_stop : option nat }.

Definition findMerge_step (want_list : bool) (f : fm) (d : nat) : fm :=
  match fm_stop f with
  | Some _ => f
  | None =>
      let s := fm_s f in
      if TAG s d then f else
      let color e := if (e =? 0)%nat then 0 else Z.land (FLAGS s e) RB in
      let pcolor := color (PARENT s d) in
      let mcolor := color (MERGE s d) in
      let s := flags_or s d (Z.lor pcolor mcolor) in
      if (Z.land (FLAGS s d) RB =? RB) && (negb (pcolor =? RB) && negb (mcolor =? RB)) then
        let ret := if (fm_ret f =? 0)%nat then d else fm_ret f in
        if want_list then mkFm s ret (fm_list f ++ [d]) None else mkFm s ret (fm_list f) (Some d)
      else mkFm s (fm_ret f) (fm_list f) None
  end.

(** The oldest merge of [d1] and [d2], the list of all of them, and the graph
    with the colors cleaned up. *)
Definition range_findMerge (s : sccs) (d1 d2 : nat) (want_list : bool) : nat * list nat * sccs :=
  let start := if (d1 <? d2)%nat then d1 else d2 in
  let s := flags_or (flags_or s d1 D_BLUE) d2 D_RED in
  let f := fold_left (findMerge_step want_list) (seq start (S (TABLE s) - start)) (mkFm s 0 [] None) in
  let d := default (TABLE s) (fm_stop f) in
  (fm_ret f, fm_list f, fold_left (λ s e, flags_clr s e RB) (seq start (S d - start)) (fm_s f)).

Definition SR : Z := Z.lor D_SET D_RED.

(** First loop of [range_markMeta]: [(s, lower, upper)]. *)
Definition meta_down (d : nat) (st : sccs * nat * nat) : sccs * nat * nat :=
  let '(s, lower, upper) := st in
  if TAG s d then st else
  if negb (has s d SR) then (flags_or s d D_BLUE, d, if (upper =? 0)%nat then d else upper) else
  let s := flags_clr s d D_RED in
  let e := PARENT s d in
  let s := if negb (e =? 0)%nat && negb (has s e SR) then flags_or s e D_RED else s in
  let e := MERGE s d in
  let s := if negb (e =? 0)%nat && negb (has s e SR) then flags_or s e D_RED else s in
  (s, lower, upper).

(** [for (e = PARENT(s, d); e && TAG(s, e); e = PARENT(s, e))]; parents are
    older, so [d] rounds are enough. *)
Fixpoint tagged_real (fuel : nat) (s : sccs) (e : nat) : nat :=
  match fuel with
  | O => e
  | S fuel => if negb (e =? 0)%nat && TAG s e then tagged_real fuel s (PARENT s e) else e
  end.

Definition meta_up (st : sccs * nat) (d : nat) : sccs * nat :=
  let '(s, upper) := st in
  if negb (TAG s d) then st else
  if has s d D_SET then st else
  let e := tagged_real d s (PARENT s d) in
  let near bit := has s e bit || (negb (PTAG s d =? 0)%nat && has s (PTAG s d) bit) ||
                  (negb (MTAG s d =? 0)%nat && has s (MTAG s d) bit) in
  if near D_BLUE then (flags_or s d D_BLUE, if (upper <? d)%nat then d else upper) else
  if near D_SET then
    let s := flags_or s d D_SET in
    (set_range s (s_rstart s) (if (s_rstop s <? d)%nat then d else s_rstop s), upper)
  else (s, upper).

Definition range_markMeta (s : sccs) : sccs :=
  if (s_rstart s =? 0)%nat || (s_rstop s =? 0)%nat then s else
  let '(s, lower, upper) := for_down meta_down (TABLE s) 0 (s, 0%nat, 0%nat) in
  let d := if negb (lower =? 0)%nat && (lower <? s_rstart s)%nat then lower else s_rstart s in
  let '(s, upper) := fold_left meta_up (seq d (S (TABLE s) - d)) (s, upper) in
  let lo := Nat.max TREE lower in
  for_down (λ d s, flags_clr s d D_BLUE) (S upper - lo) (lo - 1) s.

(** The deltas that would be gone with [dlist] as the new tips, marked with
    [dflags]: the count and the graph. *)
Definition range_gone (s : sccs) (dlist : list nat) (dflags : Z) : option (Z * sccs) :=
  match range_walkrevs wr_plain (Some walkrevs_setFlags) s dlist None D_SET with
  | None => None
  | Some (_, _, s) =>
      let s := range_markMeta s in
      let lo := Nat.max TREE (s_rstart s) in
      let '(count, s) :=
        for_down (λ d '(count, s),
          if has s d D_SET then (count + 1, flags_or (flags_clr s d D_SET) d dflags) else (count, s))
          (S (s_rstop s) - lo) (lo - 1) (0, s) in
      let s := if Z.land dflags D_SET =? 0 then set_sstate s (Z.ldiff (s_state s) S_SET) else s in
      let s := if Z.land dflags D_GONE =? 0 then s else set_hasgone s true in
      Some (count, s)
  end.

(** [D_INVALID] marks more than one tip. *)
Inductive tip_of := NoTip | OneTip (d : nat) | ManyTips.

Definition add_tip (t : tip_of) (d : nat) : tip_of :=
  match t with NoTip => OneTip d | _ => ManyTips end.

Definition wr_union : wr_opts := mkOpts true true false.

Fixpoint unrange_loop (fuel : nat) (all : bool) (lt rt : tip_of) (wr : wrdata) :
    tip_of * tip_of * wrdata :=
  match fuel with
  | O => (lt, rt, wr)
  | S fuel =>
      let '(d, wr) := walkrevs wr_union wr in
      if (d =? 0)%nat then (lt, rt, wr) else
      let green := negb (Z.land (wr_color wr) D_GREEN =? 0) in
      let '(lt, rt, wr) :=
        if has (wr_s wr) d D_SET then
          let wr := set_wr_s (flags_or (flags_clr (wr_s wr) d D_SET) d D_RED) wr in
          if green then (lt, rt, wr)
          else (lt, add_tip rt d, markParents wr_union d D_GREEN wr)
        else
          let wr := if green then wr else set_wr_s (flags_or (wr_s wr) d D_BLUE) wr in
          if green || (all && (wr_color wr =? D_RED))
          then (add_tip lt d, rt, markParents wr_union d D_BLUE wr)
          else (lt, rt, wr) in
      let s := wr_s wr in
      let wr := if has s d (if all then RB else D_RED)
                then set_wr_s (set_range s d (if (s_rstop s =? 0)%nat then d else s_rstop s)) wr
                else wr in
      unrange_loop fuel all lt rt wr
  end.

Definition range_unrange (s : sccs) (all : bool) : tip_of * tip_of * sccs :=
  let s := set_range s 0 0 in
  let '(lt, rt, wr) :=
    unrange_loop (S (TABLE s)) all NoTip NoTip (walkrevs_setup wr_union s [] None) in
  (lt, rt, walkrevs_done wr_union wr).

(** [len[d]] of [range_lattice]: one more than the longest path from [lower],
    0 when there is none. *)
Definition lattice_len (s : sccs) (len : nat → nat) (d : nat) : nat → nat :=
  if TAG s d then len else
  let p := PARENT s d in
  let m := MERGE s d in
  if negb (m =? 0)%nat && (len p <? len m)%nat then upd len d (len m + 1)%nat
  else if negb (len p =? 0)%nat then upd len d (len p + 1)%nat else len.

Definition lattice_mark (len : nat → nat) (longest : bool) (d : nat) (s : sccs) : sccs :=
  if negb (has s d D_SET) then s else
  let p := PARENT s d in
  let m := MERGE s d in
  let parent s := if (len p =? 0)%nat then s else flags_or s p D_SET in
  if negb (m =? 0)%nat && negb (len m =? 0)%nat && (negb longest || (len p <? len m)%nat)
  then let s := flags_or s m D_SET in if longest then s else parent s
  else parent s.

(** [top]: what [sccs_top(s)] gives. *)
Definition range_lattice (s : sccs) (top lower upper : nat) (longest : bool) : option (Z * sccs) :=
  let upper := if (upper =? 0)%nat then top else upper in
  let lower := if (lower =? 0)%nat then TREE else lower in
  if (upper =? 0)%nat then None else
  if (upper <? lower)%nat then Some (1, s) else
  let len := fold_left (lattice_len s) (seq (S lower) (upper - lower)) (upd (λ _, 0%nat) lower 1%nat) in
  if (len upper =? 0)%nat then Some (1, s) else
  let s := flags_or s upper D_SET in
  let s := set_sstate s (Z.lor (s_state s) S_SET) in
  Some (0, for_down (lattice_mark len longest) (S upper - lower) (lower - 1) s).

(** ** Range arguments *)

Record RANGE := mkRange { rstart : option cstr; rstop : option cstr; isdate : bool; isrev : bool }.

(** Split at the first [..]. *)
Fixpoint split_range (arg : cstr) : option (cstr * cstr) :=
  match arg with
  | [] => None
  | c :: t =>
      if (c =? 46) && (at0 t =? 46) then Some ([], drop 1 t)
      else match split_range t with Some (a, b) => Some (c :: a, b) | None => None end
  end.

(** The return code and the new arguments.  The code stores the argument before
    it splits it, so an error after that leaves it stored. *)
Definition range_addArg (r : RANGE) (arg : option cstr) (isdt : bool) : Z * RANGE :=
  match arg with
  | None => (-1, r)
  | Some arg =>
      if (if isdt then isrev r else isdate r) then (-1, r) else
      let r := mkRange (rstart r) (rstop r) (isdt || isdate r) (negb isdt || isrev r) in
      match rstop r with
      | Some _ => (-1, r)
      | None =>
          let second := match rstart r with Some _ => true | None => false end in
          let r1 a := if second then mkRange (rstart r) (Some a) (isdate r) (isrev r)
                      else mkRange (Some a) None (isdate r) (isrev r) in
          match split_range arg with
          | None => (0, r1 arg)
          | Some (a, b) =>
              if second then (-1, r1 arg)
              else (0, mkRange (Some a) (Some b) (isdate r) (isrev r))
          end
      end
  end.
