(* ===== verification/RangeWalk.v ===== *)
(** * RangeWalk: what the history walk lists

    [walkrevs_collect] against the ancestor relation of the graph: it lists, from
    newest to oldest, the deltas whose colors qualify (difference, symmetric
    difference, intersection, union, or the tips of one of these) and leaves the
    flags as they were.  The proof goes through a reference walk that visits
    every delta and never stops early. *)

From S2P Require Import Prelude CStr Sccs Range.
From stdpp Require Import base numbers list sorting.
From Stdlib Require Import ZArith Lia.

Local Open Scope Z_scope.

(** ** Colors *)

Definition within (m x : Z) : Prop := ∀ b, 0 <= b → Z.testbit x b = true → Z.testbit m b = true.

Ltac zbits :=
  apply Z.bits_inj'; let b := fresh "b" in let Hb := fresh "Hb" in intros b Hb;
  rewrite ?Z.land_spec, ?Z.lor_spec, ?Z.ldiff_spec, ?Z.land_spec, ?Z.lor_spec, ?Z.ldiff_spec, ?Z.bits_0.

Lemma within_land m x : within m (Z.land x m).
Proof. intros b _ H. rewrite Z.land_spec in H. by apply andb_prop in H as [_ ?]. Qed.

Lemma within_lor m x y : within m x → within m y → within m (Z.lor x y).
Proof. intros Hx Hy b Hb H. rewrite Z.lor_spec in H. apply orb_prop in H as [H|H]; auto. Qed.

Lemma within_0 m : within m 0.
Proof. intros b _ H. by rewrite Z.bits_0 in H. Qed.

Lemma within_refl m : within m m.
Proof. by intros b. Qed.

#[export] Hint Resolve within_land within_lor within_0 within_refl : bk.

Definition partial (m x : Z) : Z := Z.b2z (negb (x =? 0) && negb (x =? m)).

(** Every color a walk uses. *)
Definition ALLC : Z := Z.lor (Z.lor D_BLUE D_RED) D_GREEN.

Section reference.
Context (s : sccs) (o : wr_opts).

Abbreviation mask := (wr_mask o).

(** A color that selects its delta. *)
Definition qual (x : Z) : bool :=
  negb (x =? 0) && negb (x =? mask) && ((Z.land x (wr_want o) =? wr_want o) || wr_either o).

(** What a selected or passed delta hands to its parents. *)
Definition out (x : Z) : Z := if qual x && wr_tip o then mask else x.

Definition paint (ds : list nat) (x : Z) (c : nat → Z) : nat → Z :=
  fold_left (λ c d, upd c d (Z.lor (c d) x)) ds c.

(** One delta of the reference walk. *)
Definition cstep (all : bool) (d : nat) (st : (nat → Z) * list nat) : (nat → Z) * list nat :=
  let '(c, l) := st in
  if TAG s d then (c, l) else
  let x := if all then Z.lor (c d) D_RED else c d in
  let c := upd c d x in
  (paint (parents_of s d) (out x) c, if qual x then l ++ [d] else l).

Definition crun (all : bool) (n : nat) (c : nat → Z) : (nat → Z) * list nat :=
  for_down (cstep all) n 0 (c, []).

Definition cseeds (blue red : list nat) (j : nat) : Z :=
  Z.lor (if bool_decide (j ∈ red) then D_RED else 0) (if bool_decide (j ∈ blue) then D_BLUE else 0).

(** ** The colored graph *)

(** The graph [t] is [s] with the colors [c] on it. *)
Record painted (t : sccs) (c : nat → Z) : Prop := {
  pt_dl : ∀ j, dl t j = set_flags (Z.lor (FLAGS s j) (c j)) (dl s j);
  pt_len : length (deltas t) = length (deltas s);
  pt_tip : tip t = tip s;
  pt_enc : encoding_in t = encoding_in s
}.

Hypothesis s_wf : wf_graph s.
Hypothesis s_clean : ∀ j, Z.land (FLAGS s j) ALLC = 0.
Hypothesis s_live : ∀ j, (1 <= j <= TABLE s)%nat → TAG s j = false → live s j.

Lemma mask_all : within ALLC mask.
Proof. unfold mask, ALLC. destruct (wr_both o); [apply within_refl|]. intros b Hb H. by rewrite Z.lor_spec, H. Qed.

Lemma clean_bit j b : 0 <= b → Z.testbit ALLC b = true → Z.testbit (FLAGS s j) b = false.
Proof.
  intros Hb Ha. pose proof (f_equal (λ z, Z.testbit z b) (s_clean j)) as H. cbn in H.
  rewrite Z.land_spec, Ha, Z.bits_0, andb_true_r in H. done.
Qed.

Lemma mask_bit j b x : within mask x → 0 <= b → Z.testbit x b = true → Z.testbit (FLAGS s j) b = false.
Proof. intros Hx Hb H. apply clean_bit; [done|]. by apply mask_all, Hx. Qed.

Lemma painted_flags t c j : painted t c → FLAGS t j = Z.lor (FLAGS s j) (c j).
Proof. intros H. unfold FLAGS. by rewrite (pt_dl _ _ H). Qed.

Lemma painted_parents t c j : painted t c → parents_of t j = parents_of s j.
Proof. intros H. unfold parents_of, PARENT, MERGE. by rewrite (pt_dl _ _ H). Qed.

Lemma painted_color t c j : painted t c → within mask (c j) → Z.land (FLAGS t j) mask = c j.
Proof.
  intros H Hc. rewrite (painted_flags t c j H). zbits.
  destruct (Z.testbit (c j) b) eqn:E.
  - rewrite (Hc b Hb E), orb_true_r. done.
  - rewrite orb_false_r. destruct (Z.testbit mask b) eqn:Em; [|by rewrite andb_false_r].
    by rewrite (mask_bit j b mask (within_refl _) Hb Em).
Qed.

Lemma tag_bit : Z.testbit ALLC 8 = false.
Proof. reflexivity. Qed.

Lemma painted_tag t c j : painted t c → within mask (c j) → TAG t j = TAG s j.
Proof.
  intros H Hc. unfold TAG. rewrite (painted_flags t c j H). do 2 f_equal. zbits.
  destruct (Z.testbit D_TAG b) eqn:E; [|by rewrite !andb_false_r]. rewrite !andb_true_r.
  destruct (Z.testbit (c j) b) eqn:Ec; [|apply orb_false_r]. exfalso.
  pose proof (mask_all b Hb (Hc b Hb Ec)) as Ha.
  assert (b = 8) as ->; [|by rewrite tag_bit in Ha].
  change D_TAG with (2 ^ 8) in E. destruct (decide (b = 8)) as [|Hne]; [done|].
  by rewrite Z.pow2_bits_false in E.
Qed.

Lemma painted_or t c d x :
  painted t c → (1 <= d <= TABLE s)%nat → painted (flags_or t d x) (upd c d (Z.lor (c d) x)).
Proof.
  intros H Hd. destruct H as [H1 H2 H3 H4] eqn:E. unfold flags_or, FLAGS_SET. split.
  - intros j. destruct (decide (j = d)) as [->|Hne].
    + rewrite dl_set_eq by (rewrite H2, <- (wf_tip s s_wf); done). rewrite upd_eq, (painted_flags t c d) by done.
      rewrite H1. unfold set_flags. cbn. f_equal. by rewrite Z.lor_assoc.
    + by rewrite dl_set_ne, upd_ne, H1.
  - by rewrite length_set_delta.
  - by destruct d.
  - by destruct d.
Qed.

Lemma painted_clr t c d x :
  painted t c → (1 <= d <= TABLE s)%nat → within mask x →
  painted (flags_clr t d x) (upd c d (Z.ldiff (c d) x)).
Proof.
  intros H Hd Hx. destruct H as [H1 H2 H3 H4] eqn:E. unfold flags_clr, FLAGS_SET. split.
  - intros j. destruct (decide (j = d)) as [->|Hne].
    + rewrite dl_set_eq by (rewrite H2, <- (wf_tip s s_wf); done). rewrite upd_eq, (painted_flags t c d) by done.
      rewrite H1. unfold set_flags. cbn. f_equal. zbits.
      destruct (Z.testbit x b) eqn:Eb; [|by rewrite !andb_true_r].
      rewrite (mask_bit d b x Hx Hb Eb). by rewrite !andb_false_r.
    + by rewrite dl_set_ne, upd_ne, H1.
  - by rewrite length_set_delta.
  - by destruct d.
  - by destruct d.
Qed.

(** ** Marking *)

Lemma paint_at ds x c j : paint ds x c j = if bool_decide (j ∈ ds) then Z.lor (c j) x else c j.
Proof.
  revert c. induction ds as [|d ds IH]; intros c; cbn [paint fold_left]; [done|].
  unfold paint in IH. rewrite IH. destruct (decide (j = d)) as [->|Hne].
  - rewrite upd_eq, (bool_decide_eq_true_2 (d ∈ d :: ds)) by by left.
    case_bool_decide; [|done]. by rewrite <- Z.lor_assoc, Z.lor_diag.
  - rewrite upd_ne by done. rewrite (bool_decide_ext (j ∈ d :: ds) (j ∈ ds)); [done|].
    rewrite elem_of_cons. tauto.
Qed.

(** The walk with the deltas up to [n] still to come; [wr_marked] counts the
    partly colored ones and [k] more. *)
Record marks (n : nat) (k : Z) (wr : wrdata) (c : nat → Z) : Prop := {
  mk_paint : painted (wr_s wr) c;
  mk_within : ∀ j, within mask (c j);
  mk_live : ∀ j, ~ live s j → c j = 0;
  mk_above : ∀ j, (n < j)%nat → c j = 0;
  mk_marked : wr_marked wr = k + Z.b2z (wr_all wr) + msum n (λ j, partial mask (c j));
  mk_last : ∀ j, (j <= n)%nat → c j ≠ 0 → (wr_last wr <= j)%nat
}.

Record wframe (wr wr' : wrdata) : Prop := {
  wf_d : wr_d wr' = wr_d wr; wf_all : wr_all wr' = wr_all wr; wf_color : wr_color wr' = wr_color wr
}.

#[local] Instance wframe_preorder : PreOrder wframe.
Proof. split; [by intros wr|]. intros x y z [] []. split; congruence. Qed.

Lemma marks_ext n k wr c c' : marks n k wr c → (∀ j, c' j = c j) → marks n k wr c'.
Proof.
  intros [H1 H2 H3 H4 H5 H6] He. split.
  - destruct H1 as [P1 P2 P3]. split; [|done..]. intros j. by rewrite He.
  - intros j. by rewrite He.
  - intros j. rewrite He. auto.
  - intros j. rewrite He. auto.
  - rewrite H5. f_equal. apply msum_ext. intros j _. by rewrite He.
  - intros j. rewrite He. auto.
Qed.

Lemma ldiff_0_lor x y : Z.ldiff x y = 0 → Z.lor y x = y.
Proof.
  intros H. zbits. pose proof (f_equal (λ z, Z.testbit z b) H) as Hb'. cbn in Hb'.
  rewrite Z.ldiff_spec, Z.bits_0 in Hb'. destruct (Z.testbit x b), (Z.testbit y b); done.
Qed.

Lemma markDelta_marks n k wr c e x :
  marks n k wr c → (1 <= e <= n)%nat → live s e → within mask x →
  marks n k (markDelta o e x wr) (upd c e (Z.lor (c e) x)) ∧ wframe wr (markDelta o e x wr).
Proof.
  intros Hm He Hl Hx. pose proof Hm as [H1 H2 H3 H4 H5 H6]. unfold markDelta.
  rewrite (painted_color _ _ e H1 (H2 e)).
  destruct (Z.eqb_spec (Z.ldiff x (c e)) 0) as [H0|H0].
  { split; [|done]. eapply marks_ext; [exact Hm|]. intros j. unfold upd.
    destruct (Nat.eqb_spec j e) as [->|]; [|done]. by apply ldiff_0_lor. }
  split; [|done]. pose proof (live_tip s e s_wf Hl) as Het. split; cbn [wr_s wr_marked wr_last wr_all].
  - by apply painted_or.
  - intros j. unfold upd. destruct (j =? e)%nat; auto with bk.
  - intros j Hj. rewrite upd_ne by (by intros ->). auto.
  - intros j Hj. rewrite upd_ne by lia. auto.
  - rewrite (msum_ext n _ (upd (λ j, partial mask (c j)) e (partial mask (Z.lor (c e) x)))).
    2:{ intros j _. unfold upd. by destruct (j =? e)%nat. }
    rewrite msum_upd by done. rewrite H5.
    assert (Hne : c e ≠ mask).
    { intros Hc. apply H0. rewrite Hc. zbits. destruct (Z.testbit x b) eqn:Eb; [|done]. by rewrite (Hx b Hb Eb). }
    assert (Hnz : Z.lor (c e) x ≠ 0).
    { intros Hc. apply H0. apply Z.lor_eq_0_iff in Hc as [_ ->]. done. }
    unfold partial. destruct (Z.eqb_spec (c e) 0), (Z.eqb_spec (c e) mask), (Z.eqb_spec (Z.lor (c e) x) 0),
      (Z.eqb_spec (Z.lor (c e) x) mask); cbn [negb andb Z.b2z]; (done || lia).
  - intros j Hj Hcj. unfold upd in Hcj. destruct (Nat.eqb_spec j e) as [->|].
    + case_if; boolify; lia.
    + specialize (H6 j Hj Hcj). case_if; boolify; lia.
Qed.

Lemma mark_list_marks n k wr c ds x :
  marks n k wr c → (∀ e, e ∈ ds → (1 <= e <= n)%nat ∧ live s e) → within mask x →
  marks n k (mark_list o ds x wr) (paint ds x c) ∧ wframe wr (mark_list o ds x wr).
Proof.
  intros Hm Hds Hx. revert wr c Hm. induction ds as [|e ds IH]; intros wr c Hm; cbn [mark_list paint fold_left]; [done|].
  destruct (Hds e) as [He Hl]; [by left|].
  destruct (markDelta_marks n k wr c e x Hm He Hl Hx) as [Hm1 F1].
  destruct (IH ltac:(intros; apply Hds; by right) _ _ Hm1) as [Hm2 F2]. split; [done|]. by etrans.
Qed.

Lemma markParents_marks d k wr c x :
  live s d → marks (d - 1) k wr c → within mask x →
  marks (d - 1) k (markParents o d x wr) (paint (parents_of s d) x c) ∧ wframe wr (markParents o d x wr).
Proof.
  intros Hl Hm Hx. unfold markParents. rewrite (painted_parents _ _ d (mk_paint _ _ _ _ Hm)).
  apply mark_list_marks; [done| |done]. intros e He.
  destruct (parents_of_wf s d e s_wf Hl He). split; [lia|done].
Qed.

(** Taking the delta at [d] off the walk; its mark is still counted. *)
Lemma marks_clear d wr c col :
  (1 <= d)%nat → live s d → marks d 0 wr c →
  marks (d - 1) (partial mask (c d))
    (mkWr (flags_clr (wr_s wr) d (c d)) (wr_d wr) (wr_last wr) (wr_marked wr) (wr_all wr) col) (upd c d 0).
Proof.
  intros Hd Hl [H1 H2 H3 H4 H5 H6]. pose proof (live_tip s d s_wf Hl) as Hdt.
  split; cbn [wr_s wr_marked wr_last wr_all].
  - pose proof (painted_clr _ _ d (c d) H1 Hdt (H2 d)) as Hp.
    by rewrite Z.ldiff_diag in Hp.
  - intros j. unfold upd. destruct (j =? d)%nat; auto with bk.
  - intros j Hj. unfold upd. destruct (j =? d)%nat; auto.
  - intros j Hj. unfold upd. destruct (Nat.eqb_spec j d); [done|]. apply H4. lia.
  - rewrite H5. destruct d as [|d]; [lia|]. cbn [msum]. replace (S d - 1)%nat with d by lia.
    rewrite (msum_ext d _ (λ j, partial mask (upd c (S d) 0 j))); [lia|].
    intros j Hj. by rewrite upd_ne by lia.
  - intros j Hj. rewrite upd_ne by lia. apply H6. lia.
Qed.

(** A delta with no color. *)
Lemma marks_skip d wr c col :
  (1 <= d)%nat → marks d 0 wr c → c d = 0 →
  marks (d - 1) 0 (mkWr (wr_s wr) (wr_d wr) (wr_last wr) (wr_marked wr) (wr_all wr) col) c.
Proof.
  intros Hd [H1 H2 H3 H4 H5 H6] Hc. split; cbn [wr_s wr_marked wr_last wr_all]; try done.
  - intros j Hj. destruct (decide (j = d)) as [->|]; [done|]. apply H4. lia.
  - rewrite H5. destruct d as [|d]; [lia|]. cbn [msum]. replace (S d - 1)%nat with d by lia.
    rewrite Hc. unfold partial. cbn. lia.
  - intros j Hj. apply H6. lia.
Qed.

Lemma marks_upd n k k' wr c d col m :
  marks n k wr c → m = wr_marked wr - k + k' →
  marks n k' (mkWr (wr_s wr) d (wr_last wr) m (wr_all wr) col) c.
Proof. intros [H1 H2 H3 H4 H5 H6] Hm. split; cbn; try done. lia. Qed.

(** ** The walk against the reference *)

Definition sim (d : nat) (wr : wrdata) (c : nat → Z) : Prop :=
  ∃ ck, marks d 0 wr ck ∧ (∀ j, (j <= d)%nat → ck j = c j).

Lemma red_within : within mask D_RED.
Proof. intros b Hb H. unfold wr_mask. destruct (wr_both o); by rewrite !Z.lor_spec, H, !orb_true_r. Qed.

Lemma out_within x : within mask x → within mask (out x).
Proof. intros Hx. unfold out. case_if; [apply within_refl|done]. Qed.

Lemma walk_step_sim d wr c l :
  (1 <= d)%nat → live s d → sim d wr c →
  let x := if wr_all wr then Z.lor (c d) D_RED else c d in
  let '(found, wr') := walk_step o (markParents o) d wr in
  found = qual x ∧ sim (d - 1) wr' (fst (cstep (wr_all wr) d (c, l))) ∧
  wr_d wr' = (if qual x then d else wr_d wr) ∧ wr_all wr' = wr_all wr.
Proof.
  intros Hd Hl (ck & Hm & Hck). cbv zeta. set (x := if wr_all wr then Z.lor (c d) D_RED else c d).
  unfold walk_step. set (wr1 := if wr_all wr then markDelta o d D_RED wr else wr).
  assert (H1 : marks d 0 wr1 (upd ck d x) ∧ wframe wr wr1).
  { unfold wr1, x. rewrite <- (Hck d (le_n _)). destruct (wr_all wr).
    - apply markDelta_marks; [done|lia|done|apply red_within].
    - split; [|done]. eapply marks_ext; [exact Hm|]. intros j. unfold upd. by destruct (Nat.eqb_spec j d) as [->|]. }
  destruct H1 as [Hm1 [F1 F2 F3]]. set (ck1 := upd ck d x) in *.
  assert (Hx : ck1 d = x) by apply upd_eq.
  rewrite (painted_color _ _ d (mk_paint _ _ _ _ Hm1) (mk_within _ _ _ _ Hm1 d)), Hx.
  assert (Hcs : fst (cstep (wr_all wr) d (c, l)) = paint (parents_of s d) (out x) (upd c d x)).
  { unfold cstep. destruct Hl as [_ ->]. done. }
  rewrite Hcs. assert (Hxw : within mask x) by (rewrite <- Hx; apply Hm1).
  assert (Hpar : d ∉ parents_of s d).
  { intros Hin. destruct (parents_of_wf s d d s_wf Hl Hin). lia. }
  destruct (Z.eqb_spec x 0) as [Hx0|Hx0].
  - unfold qual. rewrite Hx0. cbn [Z.eqb negb andb]. split_and!; [done| |exact F1|exact F2].
    exists ck1. split; [apply marks_skip; [done|done|congruence]|]. intros j Hj. unfold ck1. rewrite upd_ne, paint_at by lia.
    rewrite upd_ne by lia. rewrite Hck by lia. unfold out, qual. cbn. rewrite Z.lor_0_r. by case_bool_decide.
  - pose proof (marks_clear d wr1 ck1 x Hd Hl Hm1) as Hc. rewrite Hx in Hc.
    cbn [wr_s wr_d wr_last wr_marked wr_all].
    set (wr2 := mkWr (flags_clr _ _ _) _ _ _ _ _) in *.
    destruct (markParents_marks d _ wr2 _ x Hl Hc Hxw) as [Hm3 [G1 G2 G3]].
    set (wr3 := markParents o d x wr2) in *.
    assert (Hsame : ∀ y j, (j <= d - 1)%nat → paint (parents_of s d) y (upd ck1 d 0) j = paint (parents_of s d) y (upd c d x) j).
    { intros y j Hj. rewrite !paint_at. unfold ck1. by rewrite !upd_ne, Hck by lia. }
    destruct (Z.eqb_spec x mask) as [Hxm|Hxm].
    + assert (Hq : qual x = false) by (unfold qual; rewrite Hxm, Z.eqb_refl; by rewrite andb_false_r).
      rewrite Hq. split_and!; [done| |exact (eq_trans G1 F1)|exact (eq_trans G2 F2)].
      eexists. split; [|intros j Hj; rewrite Hsame by done; unfold out; by rewrite Hq].
      assert (Hp0 : partial mask x = 0) by (unfold partial; rewrite Hxm, Z.eqb_refl; by rewrite andb_false_r).
      by rewrite Hp0 in Hm3.
    + assert (Hp1 : partial mask x = 1).
      { unfold partial. destruct (Z.eqb_spec x 0), (Z.eqb_spec x mask); done. }
      rewrite Hp1 in Hm3.
      assert (Hqe : qual x = (Z.land x (wr_want o) =? wr_want o) || wr_either o).
      { unfold qual. destruct (Z.eqb_spec x 0), (Z.eqb_spec x mask); done. }
      rewrite <- Hqe. destruct (qual x) eqn:Hq.
      * cbn [wr_s wr_d wr_last wr_marked wr_all wr_color].
        pose proof (marks_upd _ _ 0 _ _ (wr_d wr3) (wr_color wr3) (wr_marked wr3 - 1) Hm3 ltac:(lia)) as Hm4.
        destruct (wr_tip o) eqn:Ht.
        -- destruct (markParents_marks d _ _ _ mask Hl Hm4 (within_refl _)) as [Hm5 [K1 K2 K3]].
           split_and!; [done| |done|exact (eq_trans K2 (eq_trans G2 F2))].
           eexists. split; [eapply marks_upd; [exact Hm5|lia]|]. intros j Hj.
           unfold out. rewrite Hq, Ht. cbn [andb]. rewrite <- Hsame by done. rewrite !paint_at.
           case_bool_decide; [|done]. rewrite <- Z.lor_assoc. f_equal. zbits.
           destruct (Z.testbit x b) eqn:Eb; [|done]. by rewrite (Hxw b Hb Eb).
        -- split_and!; [done| |done|exact (eq_trans G2 F2)].
           eexists. split; [eapply marks_upd; [exact Hm4|cbn; lia]|]. intros j Hj.
           unfold out. rewrite Hq, Ht. cbn [andb]. by rewrite <- Hsame.
      * split_and!; [done| |exact (eq_trans G1 F1)|exact (eq_trans G2 F2)].
        eexists. split; [eapply marks_upd; [exact Hm3|lia]|]. intros j Hj. unfold out. rewrite Hq. by rewrite <- Hsame.
Qed.

Lemma cstep_tag all d st : TAG s d = true → cstep all d st = st.
Proof. intros Ht. destruct st as [c l]. unfold cstep. by rewrite Ht. Qed.

Lemma crun_acc all n c l :
  for_down (cstep all) n 0 (c, l) =
  (fst (for_down (cstep all) n 0 (c, [])), l ++ snd (for_down (cstep all) n 0 (c, []))).
Proof.
  revert c l. induction n as [|n IH]; intros c l; cbn [for_down].
  { by rewrite app_nil_r. }
  unfold cstep at 2 4 6. destruct (TAG s (0 + S n)); [apply IH|].
  rewrite IH. set (x := if all then _ else _). set (c' := paint _ _ _).
  rewrite (IH c' (if qual x then [] ++ [(0 + S n)%nat] else [])). cbn [fst snd].
  destruct (qual x); cbn [app]; [by rewrite <- app_assoc|done].
Qed.

(** Nothing is selected once every color is empty or full. *)
Lemma crun_done n c l :
  (∀ j, (j <= n)%nat → c j = 0 ∨ c j = mask) → snd (for_down (cstep false) n 0 (c, l)) = l.
Proof.
  revert c. induction n as [|n IH]; intros c Hc; cbn [for_down]; [done|].
  unfold cstep at 2. rewrite Nat.add_0_l. destruct (TAG s (S n)); [apply IH; intros; apply Hc; lia|].
  assert (Hq : qual (c (S n)) = false).
  { unfold qual. destruct (Hc (S n) (le_n _)) as [-> | ->]; [done|]. rewrite Z.eqb_refl. by rewrite andb_false_r. }
  rewrite Hq. apply IH. intros j Hj. rewrite paint_at. unfold out. rewrite Hq. cbn [andb].
  rewrite upd_ne by lia. destruct (Hc (S n) (le_n _)) as [-> | ->], (Hc j ltac:(lia)) as [-> | ->];
  case_bool_decide; rewrite ?Z.lor_0_l, ?Z.lor_0_r, ?Z.lor_diag; auto.
Qed.

Lemma marks_stop d wr ck :
  marks d 0 wr ck → wr_marked wr <= 0 →
  wr_all wr = false ∧ ∀ j, (j <= d)%nat → ck j = 0 ∨ ck j = mask.
Proof.
  intros [H1 H2 H3 H4 H5 H6] Hle.
  assert (Hp : ∀ j, 0 <= partial mask (ck j)) by (intros; unfold partial; by destruct (_ && _)).
  pose proof (msum_nonneg d _ Hp). destruct (wr_all wr); cbn [Z.b2z] in *; [lia|]. split; [done|].
  intros j Hj. destruct (decide (j = 0%nat)) as [->|].
  { left. apply H3. intros Hl. pose proof (live_pos s 0 Hl). lia. }
  pose proof (msum_zero d _ Hp ltac:(lia) j ltac:(lia)) as Hz. unfold partial in Hz.
  destruct (Z.eqb_spec (ck j) 0), (Z.eqb_spec (ck j) mask); auto; done.
Qed.

Lemma sim_tag d wr c : sim d wr c → TAG (wr_s wr) d = TAG s d.
Proof. intros (ck & Hm & _). eapply painted_tag; apply Hm. Qed.

Lemma sim_dead d wr c : (1 <= d)%nat → sim d wr c → TAG s d = true → sim (d - 1) wr c.
Proof.
  intros Hd (ck & Hm & Hck) Ht. exists ck. split; [|intros; apply Hck; lia].
  replace wr with (mkWr (wr_s wr) (wr_d wr) (wr_last wr) (wr_marked wr) (wr_all wr) (wr_color wr)) by by destruct wr.
  apply marks_skip; [done|done|]. apply Hm. intros [_ Hl]. congruence.
Qed.

Lemma walkrevs_loop_sim d wr c :
  (d <= TABLE s)%nat → sim d wr c →
  let '(r, wr') := walkrevs_loop o d wr in
  let ref n c := snd (for_down (cstep (wr_all wr)) n 0 (c, [])) in
  wr_all wr' = wr_all wr ∧
  (if (r =? 0)%nat
   then ref d c = [] ∧ wr_d wr' = wr_d wr ∧ ∃ d' c', (d' <= d)%nat ∧ sim d' wr' c'
   else (1 <= r <= d)%nat ∧ wr_d wr' = r ∧ ∃ c', sim (r - 1) wr' c' ∧ ref d c = r :: ref (r - 1)%nat c').
Proof.
  revert wr c. induction d as [|d IH]; intros wr c Hd Hs; cbn [walkrevs_loop].
  { cbv zeta. cbn [Nat.eqb]. split_and!; [done..|]. exists 0%nat, c. by split. }
  destruct (Z.ltb_spec 0 (wr_marked wr)) as [Hpos|Hpos]; cbn [negb].
  2:{ cbv zeta. cbn [Nat.eqb]. split_and!; [done| |done|exists (S d), c; by split].
      destruct Hs as (ck & Hm & Hck). destruct (marks_stop _ _ _ Hm Hpos) as [-> Hz].
      apply crun_done. intros j Hj. rewrite <- Hck by done. auto. }
  cbn [for_down]. rewrite Nat.add_0_l. rewrite (sim_tag _ _ _ Hs). destruct (TAG s (S d)) eqn:Ht.
  - pose proof (sim_dead (S d) wr c ltac:(lia) Hs Ht) as Hs'. replace (S d - 1)%nat with d in Hs' by lia.
    specialize (IH wr c ltac:(lia) Hs'). destruct (walkrevs_loop o d wr) as [r wr']. cbv zeta in *.
    destruct IH as [Hall IH]. split; [done|]. rewrite (cstep_tag _ (S d)) by done.
    destruct (r =? 0)%nat eqn:Er.
    + destruct IH as (? & ? & d' & c' & ? & ?). split_and!; [done..|]. exists d', c'. split; [lia|done].
    + destruct IH as (? & ? & c' & ? & ?). split_and!; [lia|lia|done|]. by exists c'.
  - pose proof (s_live (S d) ltac:(lia) Ht) as Hl.
    pose proof (walk_step_sim (S d) wr c [] ltac:(lia) Hl Hs) as Hw.
    destruct (walk_step o (markParents o) (S d) wr) as [found wr1]. cbv zeta in Hw.
    replace (S d - 1)%nat with d in Hw by lia. destruct Hw as (-> & Hs1 & Hd1 & Ha1).
    assert (Hcs : cstep (wr_all wr) (S d) (c, []) = (fst (cstep (wr_all wr) (S d) (c, [])),
       if qual (if wr_all wr then Z.lor (c (S d)) D_RED else c (S d)) then [S d] else [])).
    { unfold cstep. rewrite Ht. done. }
    destruct (qual _) eqn:Hq.
    + cbv zeta. cbn [Nat.eqb]. replace (S d - 1)%nat with d by lia. split_and!; [done|lia|lia|done|].
      eexists. split; [exact Hs1|]. rewrite Hcs, crun_acc. done.
    + specialize (IH wr1 _ ltac:(lia) Hs1). destruct (walkrevs_loop o d wr1) as [r wr']. cbv zeta in *.
      rewrite Ha1 in IH. destruct IH as [Hall IH]. split; [done|]. rewrite Hcs.
      destruct (r =? 0)%nat eqn:Er.
      * destruct IH as (? & ? & d' & c' & ? & ?). split_and!; [done|congruence|]. exists d', c'. split; [lia|done].
      * destruct IH as (? & ? & c' & ? & ?). split_and!; [lia|lia|done|]. by exists c'.
Qed.

Lemma collect_loop_sim fuel d wr c :
  (d < fuel)%nat → (d <= TABLE s)%nat → sim d wr c → wr_d wr = S d →
  let '(l, wr') := collect_loop o fuel wr in
  l = snd (for_down (cstep (wr_all wr)) d 0 (c, [])) ∧
  ∃ d' c', (d' < wr_d wr' <= S d)%nat ∧ sim d' wr' c'.
Proof.
  revert d wr c. induction fuel as [|fuel IH]; intros d wr c Hf Hd Hs Hwd; [lia|].
  cbn [collect_loop]. unfold walkrevs. rewrite Hwd. replace (S d - 1)%nat with d by lia.
  pose proof (walkrevs_loop_sim d wr c Hd Hs) as Hw. destruct (walkrevs_loop o d wr) as [r wr1]. cbv zeta in Hw.
  destruct Hw as [Ha Hw]. destruct (Nat.eqb_spec r 0) as [->|Hr].
  - destruct Hw as (-> & Hd1 & d' & c' & ? & ?). split; [done|]. exists d', c'. split; [lia|done].
  - destruct Hw as (Hr1 & Hd1 & c' & Hs1 & ->).
    specialize (IH (r - 1)%nat wr1 c' ltac:(lia) ltac:(lia) Hs1 ltac:(lia)).
    destruct (collect_loop o fuel wr1) as [l wr']. rewrite Ha in IH. destruct IH as [-> (d' & c2 & ? & ?)].
    split; [done|]. exists d', c2. split; [lia|done].
Qed.

Lemma painted_ext t c c' : painted t c → (∀ j, c' j = c j) → painted t c'.
Proof. intros [P1 P2 P3 P4] He. split; [|done..]. intros j. by rewrite He. Qed.

(** The clean-up removes every color. *)
Lemma walkrevs_done_clean d wr c :
  sim d wr c → (d < wr_d wr <= S (TABLE s))%nat → painted (walkrevs_done o wr) (λ _, 0).
Proof.
  intros (ck & [H1 H2 H3 H4 H5 H6] & _) Hd. unfold walkrevs_done. set (last := Nat.max TREE (wr_last wr)).
  assert (Hlast : (1 <= last)%nat) by (unfold last, TREE; lia).
  assert (HP : painted (for_down (λ d s, flags_clr s d mask) (wr_d wr - last) (last - 1) (wr_s wr))
     (λ j, if (last - 1 <? j)%nat && (j <=? last - 1 + (wr_d wr - last))%nat then 0 else ck j)).
  { set (hi := (last - 1 + (wr_d wr - last))%nat).
    apply (for_down_inv _ (λ t s', painted s' (λ j, if (t <? j)%nat && (j <=? hi)%nat then 0 else ck j))).
    - eapply painted_ext; [exact H1|]. intros j. fold hi.
      destruct (Nat.ltb_spec hi j), (Nat.leb_spec j hi); cbn; (done || lia).
    - intros t s' Ht Hp. fold hi in Ht.
      pose proof (painted_clr _ _ t mask Hp ltac:(unfold hi in *; lia) (within_refl _)) as Hp'.
      eapply painted_ext; [exact Hp'|]. intros j. unfold upd. destruct (Nat.eqb_spec j t) as [->|Hne].
      + destruct (Nat.ltb_spec (t - 1) t), (Nat.leb_spec t hi), (Nat.ltb_spec t t); cbn; try lia.
        zbits. destruct (Z.testbit (ck t) b) eqn:Eb; [|done]. by rewrite (H2 t b Hb Eb).
      + destruct (Nat.ltb_spec (t - 1) j), (Nat.ltb_spec t j), (Nat.leb_spec j hi); cbn; (done || lia). }
  eapply painted_ext; [exact HP|]. intros j. cbv beta.
  destruct (Nat.ltb_spec (last - 1) j), (Nat.leb_spec j (last - 1 + (wr_d wr - last))); cbn [andb]; try done; symmetry.
  - apply H4. lia.
  - destruct (decide (ck j = 0)) as [|Hne]; [done|]. destruct (decide (j <= d)%nat) as [Hj|Hj]; [|apply H4; lia].
    pose proof (H6 j Hj Hne). destruct (decide (j = 0%nat)) as [->|]; [|unfold last, TREE in *; lia].
    apply H3. intros Hl. pose proof (live_pos s 0 Hl). lia.
  - apply H4. lia.
Qed.

(** ** The seeds *)

Lemma mark_seeds_marks ds x wr c :
  marks (TABLE s) 0 wr c → (∀ e, e ∈ ds → live s e) → within mask x →
  marks (TABLE s) 0 (mark_seeds o ds x wr) (paint ds x c) ∧
  wr_d (mark_seeds o ds x wr) = foldr Nat.max (wr_d wr) ds ∧ wr_all (mark_seeds o ds x wr) = wr_all wr.
Proof.
  intros Hm Hds Hx. revert wr c Hm. induction ds as [|e ds IH]; intros wr c Hm; cbn [mark_seeds paint fold_left]; [done|].
  assert (Hl : live s e) by (apply Hds; by left). pose proof (live_tip s e s_wf Hl).
  set (wr1 := mkWr _ _ _ _ _ _).
  assert (Hm1 : marks (TABLE s) 0 wr1 c) by (eapply marks_upd; [exact Hm|lia]).
  destruct (markDelta_marks (TABLE s) 0 wr1 c e x Hm1 ltac:(lia) Hl Hx) as [Hm2 [F1 F2 _]].
  destruct (IH ltac:(intros; apply Hds; by right) _ _ Hm2) as (Hm3 & Hd3 & Ha3).
  split; [done|]. split; [|exact (eq_trans Ha3 F2)]. unfold mark_seeds in Hd3. rewrite Hd3, F1. cbn.
  clear. induction ds as [|y ds IH]; cbn [foldr]; lia.
Qed.

Lemma blue_within : within mask D_BLUE.
Proof. intros b Hb H. unfold wr_mask. destruct (wr_both o); by rewrite !Z.lor_spec, H. Qed.

(** What the walk starts from: the colored seeds, and its first serial. *)
Lemma setup_sim blue red :
  (∀ d, d ∈ blue → live s d) → (∀ r, red = Some r → ∀ d, d ∈ r → live s d) →
  let wr := walkrevs_setup o s blue red in
  let start := foldr Nat.max (match red with Some r => foldr Nat.max 0%nat r | None => TABLE s end) blue in
  sim (TABLE s) wr (cseeds blue (default [] red)) ∧ wr_d wr = S start ∧
  wr_all wr = bool_decide (red = None).
Proof.
  intros Hb Hr. cbv zeta. unfold walkrevs_setup. set (s1 := set_range s (s_rstart s) 0).
  assert (Hp0 : painted s1 (λ _, 0)).
  { split; [|done..]. intros j. change (dl s1 j) with (dl s j). rewrite Z.lor_0_r. unfold FLAGS.
    by destruct (dl s j). }
  assert (Hm0 : ∀ d al m, m = Z.b2z al → marks (TABLE s) 0 (mkWr s1 d (TABLE s) m al 0) (λ _, 0)).
  { intros d al m ->. split; cbn [wr_s wr_marked wr_last wr_all]; try done; [intros; apply within_0|].
    assert (Hz : ∀ n, msum n (λ _, partial mask 0) = 0) by (induction n as [|n IH]; cbn [msum]; [done|by rewrite IH]).
    rewrite Hz. lia. }
  set (wr1 := match red with Some _ => _ | None => _ end).
  assert (H1 : marks (TABLE s) 0 wr1 (paint (default [] red) D_RED (λ _, 0)) ∧
     wr_d wr1 = match red with Some r => foldr Nat.max 0%nat r | None => TABLE s end ∧
     wr_all wr1 = bool_decide (red = None)).
  { unfold wr1. destruct red as [r|]; cbn [default from_option].
    - destruct (mark_seeds_marks r D_RED _ _ (Hm0 0%nat false 0 eq_refl) (Hr r eq_refl) red_within) as (? & ? & ?).
      split_and!; done.
    - split_and!; [by apply Hm0|done|done]. }
  destruct H1 as (Hm1 & Hd1 & Ha1).
  destruct (mark_seeds_marks blue D_BLUE wr1 _ Hm1 Hb blue_within) as (Hm2 & Hd2 & Ha2).
  split_and!; [|cbn [wr_d]; by rewrite Hd2, Hd1|cbn [wr_all]; by rewrite Ha2, Ha1].
  eexists. split; [eapply marks_upd; [exact Hm2|lia]|]. intros j _. rewrite !paint_at. unfold cseeds.
  cbn. repeat case_bool_decide; rewrite ?Z.lor_0_r, ?Z.lor_0_l; done.
Qed.
End reference.

(** ** Ancestors *)

(** [anc s i j]: [j] is [i] or one of its ancestors. *)
Inductive anc (s : sccs) (i : nat) : nat → Prop :=
  | anc_refl : anc s i i
  | anc_step k j : anc s i k → j ∈ parents_of s k → anc s i j.

Section colors.
Context (s : sccs) (o : wr_opts) (all : bool) (c0 : nat → Z).

Abbreviation mask := (wr_mask o).

Hypothesis s_wf : wf_graph s.
Hypothesis c0_within : ∀ j, within mask (c0 j).
Hypothesis c0_live : ∀ j, ~ live s j → c0 j = 0.
Hypothesis s_live : ∀ j, (1 <= j <= TABLE s)%nat → TAG s j = false → live s j.

(** The seeds, the lower bound of an open range included. *)
Definition seed (j : nat) : Z := if all && liveb s j then Z.lor (c0 j) D_RED else c0 j.

(** Bit [b] of the colors handed to [j] by deltas newer than [t]. *)
Definition handed (c : nat → Z) (t j : nat) (b : Z) : Prop :=
  ∃ k, (t < k)%nat ∧ live s k ∧ j ∈ parents_of s k ∧ Z.testbit (out o (c k)) b = true.

Record creach (t : nat) (st : (nat → Z) * list nat) : Prop := {
  cr_low : ∀ j b, (j <= t)%nat → 0 <= b →
    Z.testbit (fst st j) b = true ↔ Z.testbit (c0 j) b = true ∨ handed (fst st) t j b;
  cr_high : ∀ j b, (t < j)%nat → 0 <= b →
    Z.testbit (fst st j) b = true ↔ Z.testbit (seed j) b = true ∨ handed (fst st) t j b;
  cr_list : ∀ j, j ∈ snd st ↔ (t < j)%nat ∧ live s j ∧ qual o (fst st j) = true;
  cr_sorted : StronglySorted gt (snd st)
}.

Lemma handed_ext c c' t j b : (∀ k, (t < k)%nat → c k = c' k) → handed c t j b ↔ handed c' t j b.
Proof.
  intros He. split; intros (k & Hk & Hl & Hp & Hb); exists k; split_and!; try done;
  [by rewrite <- He|by rewrite He].
Qed.

Lemma handed_step c t j b :
  live s t → handed c (t - 1) j b ↔ handed c t j b ∨ (j ∈ parents_of s t ∧ Z.testbit (out o (c t)) b = true).
Proof.
  intros Hl. pose proof (live_pos s t Hl). split.
  - intros (k & Hk & Hlk & Hp & Hb). destruct (decide (k = t)) as [->|]; [by right|].
    left. exists k. split_and!; [lia|done..].
  - intros [(k & Hk & ?)|[Hp Hb]]; [exists k; split; [lia|done]|exists t; split_and!; [lia|done..]].
Qed.

Lemma handed_dead c t j b : ~ live s t → handed c (t - 1) j b ↔ handed c t j b.
Proof.
  intros Hn. split; intros (k & Hk & Hl & ?); exists k.
  - assert (k ≠ t) by by intros ->. split; [lia|done].
  - split; [lia|done].
Qed.

Lemma seed_dead j : ~ live s j → seed j = c0 j.
Proof.
  intros Hn. unfold seed. destruct (liveb s j) eqn:E; [|by rewrite andb_false_r].
  by apply liveb_spec in E.
Qed.

Lemma creach_step t st :
  (0 < t <= TABLE s)%nat → creach t st → creach (t - 1) (cstep s o all t st).
Proof.
  intros Ht [H1 H2 H3 H4]. destruct st as [c l]. cbn [fst snd] in *. destruct (TAG s t) eqn:Htag.
  - rewrite cstep_tag by done. assert (Hn : ~ live s t) by (intros [_ ?]; congruence). split; cbn [fst snd].
    + intros j b Hj Hb. rewrite handed_dead by done. apply H1; [lia|done].
    + intros j b Hj Hb. rewrite handed_dead by done. destruct (decide (j = t)) as [->|]; [|apply H2; [lia|done]].
      rewrite seed_dead by done. by apply H1.
    + intros j. rewrite H3. split; [intros (? & ? & ?); split_and!; [lia|done..]|].
      intros (? & Hl & ?). assert (j ≠ t) by by intros ->. split_and!; [lia|done..].
    + done.
  - pose proof (s_live t ltac:(lia) Htag) as Hl. unfold cstep. rewrite Htag.
    set (x := if all then Z.lor (c t) D_RED else c t). set (c1 := upd c t x).
    assert (Hge : ∀ j, (t <= j)%nat → paint (parents_of s t) (out o x) c1 j = c1 j).
    { intros j Hj. rewrite paint_at, bool_decide_eq_false_2; [done|]. intros Hin.
      destruct (parents_of_wf s t j s_wf Hl Hin). lia. }
    assert (Hgt : ∀ k, (t < k)%nat → paint (parents_of s t) (out o x) c1 k = c k).
    { intros k Hk. rewrite Hge by lia. apply upd_ne. lia. }
    assert (Hself : ∀ j b, (t <= j)%nat → handed c (t - 1) j b ↔ handed c t j b).
    { intros j b Hj. rewrite handed_step by done. split; [|tauto]. intros [?|[Hp _]]; [done|].
      destruct (parents_of_wf s t j s_wf Hl Hp). lia. }
    assert (Hx : ∀ b, 0 <= b → Z.testbit x b = true ↔ Z.testbit (seed t) b = true ∨ handed c t t b).
    { intros b Hb. unfold x, seed. rewrite (proj2 (liveb_spec s t) Hl), andb_true_r. destruct all.
      - rewrite !Z.lor_spec, !orb_true_iff, H1 by done. tauto.
      - by rewrite H1. }
    set (c2 := paint (parents_of s t) (out o x) c1) in *.
    assert (Hc2 : ∀ j b, handed c2 (t - 1) j b ↔ handed c t j b ∨ (j ∈ parents_of s t ∧ Z.testbit (out o x) b = true)).
    { intros j b. rewrite handed_step by done. rewrite (handed_ext c2 c t) by done.
      rewrite (Hge t (le_n _)). unfold c1. by rewrite upd_eq. }
    split; cbn [fst snd].
    + intros j b Hj Hb. rewrite Hc2. unfold c2. rewrite paint_at. unfold c1. rewrite upd_ne by lia.
      case_bool_decide; [rewrite Z.lor_spec, orb_true_iff|]; rewrite H1 by lia; tauto.
    + intros j b Hj Hb. rewrite Hc2. destruct (decide (j = t)) as [->|].
      * rewrite (Hge t (le_n _)). unfold c1. rewrite upd_eq, Hx by done. split; [tauto|].
        intros [?|[?|[Hp _]]]; [by left|by right|]. destruct (parents_of_wf s t t s_wf Hl Hp). lia.
      * rewrite Hgt, H2 by lia. split; [tauto|]. intros [?|[?|[Hp _]]]; [by left|by right|].
        destruct (parents_of_wf s t j s_wf Hl Hp). lia.
    + intros j. destruct (decide (j = t)) as [->|Hne].
      * rewrite (Hge t (le_n _)). unfold c1. rewrite upd_eq. fold x.
        assert (Hnt : t ∉ l) by (intros Hin; apply H3 in Hin; lia).
        destruct (qual o x) eqn:Hq; [rewrite elem_of_app, list_elem_of_singleton|]; split; try done.
        -- intros _. split_and!; [lia|done..].
        -- intros _. by right.
        -- by intros (_ & _ & ?).
      * destruct (decide (t < j)%nat) as [Hlt|Hlt].
        -- rewrite Hgt by done. transitivity (j ∈ l).
           ++ destruct (qual o x); [|done]. rewrite elem_of_app, list_elem_of_singleton. tauto.
           ++ rewrite H3. split; intros (? & ? & ?); split_and!; (lia || done).
        -- split; [|intros (? & ?); lia]. intros Hin. exfalso.
           assert (j ∈ l) as Hjl; [|apply H3 in Hjl; lia].
           destruct (qual o x); [|done]. apply elem_of_app in Hin as [?|Hin]; [done|].
           by apply list_elem_of_singleton in Hin.
    + destruct (qual o x); [|done]. apply StronglySorted_app. split_and!; [|done|repeat constructor].
      intros y z Hy Hz. apply list_elem_of_singleton in Hz as ->. apply H3 in Hy. lia.
Qed.

(** Induction from the newest delta down. *)
Lemma down_ind (P : nat → Prop) :
  (∀ j, live s j → (∀ k, live s k → j ∈ parents_of s k → P k) → P j) → ∀ j, live s j → P j.
Proof.
  intros Hs j. remember (TABLE s - j)%nat as m eqn:Hm. revert j Hm.
  induction (lt_wf m) as [m _ IH]. intros j -> Hl. apply Hs; [done|]. intros k Hk Hp.
  destruct (parents_of_wf s k j s_wf Hk Hp) as [Hjk _]. pose proof (live_tip s k s_wf Hk).
  eapply IH; [|done|done]. lia.
Qed.

Lemma anc_trans i k j : anc s i k → anc s k j → anc s i j.
Proof. intros H1 H2. induction H2 as [|k' j H2 IH Hp]; [done|]. by econstructor. Qed.

Lemma anc_live i j : live s i → anc s i j → live s j ∧ (j <= i)%nat.
Proof.
  intros Hl H. induction H as [|k j H [IH1 IH2] Hp]; [done|].
  destruct (parents_of_wf s k j s_wf IH1 Hp). split; [done|lia].
Qed.

(** The last edge of a path to a proper ancestor. *)
Lemma anc_last i j : anc s i j → i ≠ j → ∃ k, anc s i k ∧ j ∈ parents_of s k.
Proof. intros H Hne. destruct H as [|k j H Hp]; [done|]. by exists k. Qed.

(** The walk starts at [n]: nothing newer has a color. *)
Variable n : nat.
Hypothesis n_tip : (n <= TABLE s)%nat.
Hypothesis n_above : ∀ j, (n < j)%nat → c0 j = 0 ∧ seed j = 0.

(** The final colors of the reference walk. *)
Definition fin : (nat → Z) * list nat := for_down (cstep s o all) n 0 (c0, []).

Lemma fin_creach : creach 0 fin.
Proof.
  apply (for_down_inv _ creach).
  - rewrite Nat.add_0_l.
    assert (Hh : ∀ j b, ~ handed c0 n j b).
    { intros j b (k & Hk & _ & _ & H). destruct (n_above k Hk) as [H0 _]. rewrite H0 in H.
      unfold out, qual in H. cbn in H. by rewrite Z.bits_0 in H. }
    split; cbn [fst snd].
    + intros j b _ _. split; [by left|]. intros [?|H]; [done|by apply Hh in H].
    + intros j b Hj _. destruct (n_above j Hj) as [-> ->]. split; [by left|]. intros [?|H]; [done|by apply Hh in H].
    + intros j. split; [intros H; by apply not_elem_of_nil in H|]. intros (Hj & _ & H).
      destruct (n_above j Hj) as [H0 _]. by rewrite H0 in H.
    + constructor.
  - intros t st Ht. apply creach_step. lia.
Qed.

Abbreviation F := (fst fin).

Lemma F_eq j b : live s j → 0 <= b →
  Z.testbit (F j) b = true ↔ Z.testbit (seed j) b = true ∨
    ∃ k, live s k ∧ j ∈ parents_of s k ∧ Z.testbit (out o (F k)) b = true.
Proof.
  intros Hl Hb. pose proof (live_pos s j Hl). rewrite (cr_high _ _ fin_creach) by (lia || done).
  split; (intros [?|H1]; [by left|right]).
  - destruct H1 as (k & _ & ? & ? & ?). by exists k.
  - destruct H1 as (k & Hk & ? & ?). exists k. pose proof (live_pos s k Hk). split_and!; [lia|done..].
Qed.

Lemma seed_within j : within mask (seed j).
Proof. unfold seed. case_if; [|apply c0_within]. apply within_lor; [apply c0_within|apply red_within]. Qed.

Lemma F_within j : live s j → within mask (F j).
Proof.
  revert j. apply down_ind. intros j Hl IH b Hb H. apply F_eq in H; [|done..].
  destruct H as [H|(k & Hk & Hp & H)]; [by eapply seed_within|].
  eapply out_within; [by eapply IH|done|done].
Qed.

(** A color reaches every ancestor of its seeds. *)
Definition reached (b : Z) (j : nat) : Prop := ∃ i, live s i ∧ Z.testbit (seed i) b = true ∧ anc s i j.

Definition selected (j : nat) : Prop := live s j ∧ qual o (F j) = true.

(** [j] lies below a selected delta. *)
Definition covered (j : nat) : Prop := ∃ k, selected k ∧ anc s k j ∧ k ≠ j.

Lemma F_plain j b : live s j → 0 <= b → (wr_tip o = true → ~ covered j) →
  Z.testbit (F j) b = true ↔ reached b j.
Proof.
  intros Hl Hb. revert j Hl. apply (down_ind (λ j, (wr_tip o = true → ~ covered j) →
    Z.testbit (F j) b = true ↔ reached b j)). intros j Hl IH Hc. rewrite F_eq by done.
  assert (Hk : ∀ k, live s k → j ∈ parents_of s k →
    Z.testbit (out o (F k)) b = true ↔ reached b k).
  { intros k Hk Hp. assert (Hjk : k ≠ j) by (intros ->; destruct (parents_of_wf s j j s_wf Hl Hp); lia).
    assert (Ho : out o (F k) = F k).
    { unfold out. destruct (qual o (F k)) eqn:Hq, (wr_tip o) eqn:Ht; try done. exfalso. apply Hc; [done|].
      exists k. split_and!; [by split|econstructor; [constructor|done]|done]. }
    rewrite Ho. apply IH; [done|done|]. intros Ht (i & Hi & Ha & Hne). apply Hc; [done|].
    exists i. split_and!; [done|by econstructor|]. intros ->. destruct Hi as [Hi _].
    destruct (anc_live _ _ Hi Ha). destruct (parents_of_wf s k j s_wf Hk Hp). lia. }
  split.
  - intros [H|(k & Hlk & Hp & H)]; [by exists j; split_and!; [| |constructor]|].
    apply Hk in H as (i & Hi & Hs & Ha); [|done..]. exists i. split_and!; [done|done|by econstructor].
  - intros (i & Hi & Hs & Ha). destruct (decide (i = j)) as [->|Hne]; [by left|right].
    destruct (anc_last i j Ha Hne) as (k & Hik & Hp). destruct (anc_live _ _ Hi Hik) as [Hlk _].
    exists k. split_and!; [done|done|]. apply Hk; [done|done|]. by exists i.
Qed.

Lemma qual_mask : qual o mask = false.
Proof. unfold qual. rewrite Z.eqb_refl. by rewrite andb_false_r. Qed.

Lemma F_covered j : wr_tip o = true → live s j → covered j → F j = mask.
Proof.
  intros Ht Hl. revert j Hl. apply (down_ind (λ j, covered j → F j = mask)). intros j Hl IH (i & Hi & Ha & Hne).
  destruct (anc_last i j Ha Hne) as (k & Hik & Hp). destruct Hi as [Hli Hqi] eqn:Ei.
  destruct (anc_live _ _ Hli Hik) as [Hlk _].
  assert (Ho : out o (F k) = mask).
  { destruct (decide (i = k)) as [->|Hik'].
    - unfold out. by rewrite Hqi, Ht.
    - rewrite IH; [|done|done|by exists i]. unfold out. by rewrite qual_mask. }
  apply Z.bits_inj'. intros b Hb. destruct (Z.testbit mask b) eqn:Eb.
  - apply (F_eq j b Hl Hb). right. exists k. by rewrite Ho.
  - destruct (Z.testbit (F j) b) eqn:Ef; [|done]. by rewrite (F_within j Hl b Hb Ef) in Eb.
Qed.

(** Colors only grow on the way down. *)
Lemma F_reached j b : live s j → 0 <= b → reached b j → Z.testbit (F j) b = true.
Proof.
  intros Hl Hb (i & Hi & Hs & Ha). induction Ha as [|k j Ha IH Hp]; [by apply F_eq; [| |left]|].
  destruct (anc_live _ _ Hi Ha) as [Hk _]. apply (F_eq j b Hl Hb). right. exists k. split_and!; [done|done|].
  unfold out. case_if; [|by apply IH]. by eapply F_within, IH.
Qed.

(** A color that was not reached comes from a selected delta above. *)
Lemma F_excess j b : live s j → 0 <= b → Z.testbit (F j) b = true → reached b j ∨ covered j.
Proof.
  intros Hl Hb. revert j Hl. apply (down_ind (λ j, Z.testbit (F j) b = true → reached b j ∨ covered j)).
  intros j Hl IH H. apply (F_eq j b Hl Hb) in H as [H|(k & Hk & Hp & H)].
  { left. exists j. split_and!; [done|done|constructor]. }
  assert (Hjk : k ≠ j) by (intros ->; destruct (parents_of_wf s j j s_wf Hl Hp); lia).
  unfold out in H. destruct (qual o (F k)) eqn:Hq.
  - right. exists k. split_and!; [done|econstructor; [constructor|done]|done].
  - destruct (IH k Hk Hp H) as [(i & Hi & Hs & Ha)|(i & Hi & Ha & Hne)].
    + left. exists i. split_and!; [done|done|by econstructor].
    + right. exists i. split_and!; [done|by econstructor|]. intros ->. destruct Hi as [Hi _].
      destruct (anc_live _ _ Hi Ha). destruct (parents_of_wf s k j s_wf Hk Hp). lia.
Qed.
End colors.

(** ** What is wanted *)

(** Reached from the seeds [ds]. *)
Definition below_any (s : sccs) (ds : list nat) (j : nat) : Prop := ∃ i, i ∈ ds ∧ anc s i j.

(** With no upper bound every delta is red. *)
Definition is_red (s : sccs) (red : option (list nat)) (j : nat) : Prop :=
  match red with Some r => below_any s r j | None => live s j end.

(** The set of the four modes. *)
Definition wanted (s : sccs) (o : wr_opts) (blue : list nat) (red : option (list nat)) (j : nat) : Prop :=
  live s j ∧
  let r := is_red s red j in
  let b := below_any s blue j in
  match wr_either o, wr_both o with
  | false, false => r ∧ ~ b
  | true, false => (r ∧ ~ b) ∨ (~ r ∧ b)
  | false, true => r ∧ b
  | true, true => r ∨ b
  end.

(** ... and its tips when those are asked for. *)
Definition listed (s : sccs) (o : wr_opts) (blue : list nat) (red : option (list nat)) (j : nat) : Prop :=
  wanted s o blue red j ∧
  (wr_tip o = true → ∀ k, wanted s o blue red k → anc s k j → k = j).

Lemma is_red_spec s red j :
  (∀ r, red = Some r → ∀ d, d ∈ r → live s d) → live s j →
  is_red s red j ↔ ∃ i, live s i ∧ (i ∈ default [] red ∨ red = None) ∧ anc s i j.
Proof.
  intros Hr Hl. unfold is_red. destruct red as [r|]; cbn.
  - split; [intros (i & Hi & Ha); exists i; split_and!; [by eapply Hr|by left|done]|].
    intros (i & _ & [Hi|?] & Ha); [by exists i|done].
  - split; [|done]. intros _. exists j. split_and!; [done|by right|constructor].
Qed.

(** ** Colors as bits *)

Definition RED_BIT : Z := 27.

Definition BLUE_BIT : Z := 29.

Definition GREEN_BIT : Z := 21.

Definition color3 (g r b : bool) : Z :=
  Z.lor (Z.lor (if b then D_BLUE else 0) (if r then D_RED else 0)) (if g then D_GREEN else 0).

Lemma allc_bits b : 0 <= b → Z.testbit ALLC b = true → b = RED_BIT ∨ b = BLUE_BIT ∨ b = GREEN_BIT.
Proof.
  intros Hb H. unfold ALLC in H. rewrite !Z.lor_spec in H.
  change D_BLUE with (2 ^ 29) in H. change D_RED with (2 ^ 27) in H. change D_GREEN with (2 ^ 21) in H.
  unfold RED_BIT, BLUE_BIT, GREEN_BIT.
  destruct (decide (b = 27)), (decide (b = 29)), (decide (b = 21)); auto.
  by rewrite !Z.pow2_bits_false in H by lia.
Qed.

Lemma color3_bits g r b :
  Z.testbit (color3 g r b) RED_BIT = r ∧ Z.testbit (color3 g r b) BLUE_BIT = b ∧
  Z.testbit (color3 g r b) GREEN_BIT = g.
Proof. by destruct g, r, b. Qed.

Lemma color3_within g r b : within ALLC (color3 g r b).
Proof.
  intros k Hk H. unfold color3 in H. rewrite !Z.lor_spec in H. unfold ALLC. rewrite !Z.lor_spec.
  destruct b, r, g; rewrite ?Z.bits_0 in H; cbn [orb] in *; rewrite ?orb_false_r in *;
  repeat (apply orb_prop in H as [H|H]); rewrite ?H, ?orb_true_r; done.
Qed.

Lemma as_color3 x :
  within ALLC x →
  x = color3 (Z.testbit x GREEN_BIT) (Z.testbit x RED_BIT) (Z.testbit x BLUE_BIT).
Proof.
  intros Hx. apply Z.bits_inj'. intros k Hk.
  destruct (color3_bits (Z.testbit x GREEN_BIT) (Z.testbit x RED_BIT) (Z.testbit x BLUE_BIT)) as (H1 & H2 & H3).
  destruct (Z.testbit ALLC k) eqn:E.
  - destruct (allc_bits k Hk E) as [->|[->| ->]]; done.
  - destruct (Z.testbit x k) eqn:Ex; [by rewrite (Hx k Hk Ex) in E|].
    destruct (Z.testbit (color3 _ _ _) k) eqn:Ec; [|done]. by rewrite (color3_within _ _ _ k Hk Ec) in E.
Qed.

(** The selection test on a color without green. *)
Lemma qual_bits o x :
  within (wr_mask o) x → Z.testbit x GREEN_BIT = false →
  qual o x = match wr_either o, wr_both o with
             | false, false => Z.testbit x RED_BIT && negb (Z.testbit x BLUE_BIT)
             | true, false => xorb (Z.testbit x RED_BIT) (Z.testbit x BLUE_BIT)
             | false, true => Z.testbit x RED_BIT && Z.testbit x BLUE_BIT
             | true, true => Z.testbit x RED_BIT || Z.testbit x BLUE_BIT
             end.
Proof.
  intros Hx Hg. rewrite (as_color3 x) at 1 by (intros k Hk H; by eapply mask_all, Hx).
  rewrite Hg. destruct (Z.testbit x RED_BIT), (Z.testbit x BLUE_BIT), o as [[] [] []]; reflexivity.
Qed.

(** ** Selection *)

Section select.
Context (s : sccs) (o : wr_opts) (blue : list nat) (red : option (list nat)).

Abbreviation mask := (wr_mask o).

Hypothesis s_wf : wf_graph s.
Hypothesis s_live : ∀ j, (1 <= j <= TABLE s)%nat → TAG s j = false → live s j.
Hypothesis blue_live : ∀ d, d ∈ blue → live s d.
Hypothesis red_live : ∀ r, red = Some r → ∀ d, d ∈ r → live s d.

Let all := bool_decide (red = None).
Let c0 := cseeds blue (default [] red).

(** The newest serial the walk looks at. *)
Variable n : nat.
Hypothesis n_tip : (n <= TABLE s)%nat.
Hypothesis n_above : ∀ j, (n < j)%nat → c0 j = 0 ∧ seed s all c0 j = 0.

Lemma c0_ok j : within mask (c0 j) ∧ (~ live s j → c0 j = 0).
Proof.
  unfold c0, cseeds. split.
  - apply within_lor; case_bool_decide; auto using within_0, red_within, blue_within.
  - intros Hn. rewrite !bool_decide_eq_false_2; [done|..].
    + intros Hin. by apply Hn, blue_live.
    + destruct red as [r|]; cbn; [|apply not_elem_of_nil]. intros Hin. by apply Hn, (red_live r).
Qed.

Lemma c0_bits j :
  (Z.testbit (c0 j) RED_BIT = true ↔ j ∈ default [] red) ∧
  (Z.testbit (c0 j) BLUE_BIT = true ↔ j ∈ blue) ∧ Z.testbit (c0 j) GREEN_BIT = false.
Proof. unfold c0, cseeds. do 2 case_bool_decide; split_and!; vm_compute Z.testbit; done. Qed.

Lemma seed_color_bits j :
  live s j →
  (Z.testbit (seed s all c0 j) RED_BIT = true ↔ j ∈ default [] red ∨ red = None) ∧
  (Z.testbit (seed s all c0 j) BLUE_BIT = true ↔ j ∈ blue) ∧
  Z.testbit (seed s all c0 j) GREEN_BIT = false.
Proof.
  intros Hl. unfold seed. rewrite (proj2 (liveb_spec s j) Hl), andb_true_r. unfold all.
  destruct (c0_bits j) as (H1 & H2 & H3). case_bool_decide as Hr.
  - rewrite !Z.lor_spec, H3. split_and!; [|by rewrite orb_false_r|done].
    split; [by right|]. intros _. apply orb_true_r.
  - split_and!; [|done|done]. rewrite H1. tauto.
Qed.

Lemma reached_bits j :
  live s j →
  (reached s all c0 RED_BIT j ↔ is_red s red j) ∧ (reached s all c0 BLUE_BIT j ↔ below_any s blue j) ∧
  ~ reached s all c0 GREEN_BIT j.
Proof.
  intros Hl. split_and!.
  - rewrite is_red_spec by done. unfold reached.
    split; intros (i & Hi & Hs & Ha); exists i; (split_and!; [done| |done]); by apply seed_color_bits.
  - split.
    + intros (i & Hi & Hs & Ha). apply seed_color_bits in Hs; [|done]. by exists i.
    + intros (i & Hi & Ha). exists i. assert (live s i) by auto. split_and!; [done| |done]. by apply seed_color_bits.
  - intros (i & Hi & Hs & _). destruct (seed_color_bits i Hi) as (_ & _ & H). congruence.
Qed.

Abbreviation F := (fst (fin s o all c0 n)).

(** When the bits are those reached, the test is the wanted one. *)
Lemma qual_wanted j :
  live s j → (∀ b, 0 <= b → Z.testbit (F j) b = true → reached s all c0 b j) →
  qual o (F j) = true ↔ wanted s o blue red j.
Proof.
  intros Hl Hb. destruct (reached_bits j Hl) as (H1 & H2 & H3).
  assert (Hr : ∀ b, 0 <= b → Z.testbit (F j) b = true ↔ reached s all c0 b j).
  { intros b Hb0. split; [by apply Hb|]. apply F_reached; try done; apply c0_ok. }
  pose proof (Hr RED_BIT ltac:(done)) as Hrd. pose proof (Hr BLUE_BIT ltac:(done)) as Hbl.
  pose proof (Hr GREEN_BIT ltac:(done)) as Hgr. rewrite H1 in Hrd. rewrite H2 in Hbl.
  rewrite qual_bits.
  - unfold wanted. destruct (Z.testbit (F j) RED_BIT), (Z.testbit (F j) BLUE_BIT);
    destruct (wr_either o), (wr_both o); cbn; intuition congruence.
  - apply F_within; try done; apply c0_ok.
  - destruct (Z.testbit (F j) GREEN_BIT); [|done]. by destruct H3; apply Hgr.
Qed.

Lemma F_wanted j :
  live s j → (wr_tip o = true → ~ covered s o all c0 n j) →
  qual o (F j) = true ↔ wanted s o blue red j.
Proof.
  intros Hl Hc. apply qual_wanted; [done|]. intros b Hb. apply F_plain; try done; apply c0_ok.
Qed.

Lemma selected_wanted j : selected s o all c0 n j → wanted s o blue red j.
Proof.
  intros [Hl Hq]. apply F_wanted; [done| |done]. intros Ht Hc.
  rewrite (F_covered s o all c0) in Hq; try done; try apply c0_ok. by rewrite qual_mask in Hq.
Qed.

(** A wanted delta is selected or lies below a selected one. *)
Lemma wanted_selected j : wanted s o blue red j → ∃ k, selected s o all c0 n k ∧ anc s k j.
Proof.
  intros Hw. pose proof Hw as [Hl _]. destruct (qual o (F j)) eqn:Hq; [exists j; split; [done|constructor]|].
  assert (Hex : ∀ b, 0 <= b → Z.testbit (F j) b = true → reached s all c0 b j ∨ covered s o all c0 n j).
  { intros b Hb. apply F_excess; try done; apply c0_ok. }
  assert (Hbits : ∀ b, 0 <= b → Z.testbit (F j) b = true → b = RED_BIT ∨ b = BLUE_BIT ∨ b = GREEN_BIT).
  { intros b Hb H. apply allc_bits; [done|]. eapply mask_all; [done|]. eapply F_within; try done; apply c0_ok. }
  assert (Hcov : covered s o all c0 n j ∨ ∀ b, 0 <= b → Z.testbit (F j) b = true → reached s all c0 b j).
  { assert (Hone : ∀ b, 0 <= b → covered s o all c0 n j ∨ (Z.testbit (F j) b = true → reached s all c0 b j)).
    { intros b Hb. destruct (Z.testbit (F j) b) eqn:E; [|by right]. destruct (Hex b Hb E); [by right|by left]. }
    destruct (Hone RED_BIT ltac:(done)) as [|HR]; [by left|].
    destruct (Hone BLUE_BIT ltac:(done)) as [|HB]; [by left|].
    destruct (Hone GREEN_BIT ltac:(done)) as [|HG]; [by left|]. right. intros b Hb H.
    destruct (Hbits b Hb H) as [->|[->| ->]]; auto. }
  destruct Hcov as [(k & Hk & Ha & _)|Hall]; [by exists k|].
  apply (qual_wanted j Hl) in Hw; [congruence|done].
Qed.

Lemma selected_listed j : selected s o all c0 n j ↔ listed s o blue red j.
Proof.
  split.
  - intros Hsel. split; [by apply selected_wanted|]. intros Ht k Hw Ha.
    destruct (wanted_selected k Hw) as (i & Hi & Hik). destruct (decide (i = j)) as [->|Hne].
    + destruct (anc_live s s_wf j k) as [_ H1]; [apply Hsel|done|].
      destruct (anc_live s s_wf k j) as [_ H2]; [by destruct Hw|done|]. lia.
    + exfalso. destruct Hsel as [Hl Hq]. rewrite (F_covered s o all c0) in Hq; try done; try apply c0_ok.
      * by rewrite qual_mask in Hq.
      * exists i. split_and!; [done|by eapply anc_trans|done].
  - intros [Hw Htip]. pose proof Hw as [Hl _]. split; [done|]. apply F_wanted; [done| |done].
    intros Ht (k & Hk & Ha & Hne). apply Hne. apply Htip; [done| |done]. by apply selected_wanted.
Qed.
End select.

(** ** Where the walk starts *)

Lemma sim_lower s o d n wr c :
  sim s o d wr c → (n <= d)%nat → (∀ j, (n < j <= d)%nat → c j = 0) → sim s o n wr c.
Proof.
  intros Hs Hn Hc. remember (d - n)%nat as m eqn:Hm. revert d Hn Hc Hs Hm.
  induction m as [|m IH]; intros d Hn Hc Hs Hm; [by replace n with d by lia|].
  apply (IH (d - 1)%nat); [lia|intros; apply Hc; lia| |lia].
  destruct Hs as (ck & Hk & He). exists ck. split; [|intros; apply He; lia].
  replace wr with (mkWr (wr_s wr) (wr_d wr) (wr_last wr) (wr_marked wr) (wr_all wr) (wr_color wr)) by by destruct wr.
  apply marks_skip; [lia|done|]. rewrite He by done. apply Hc. lia.
Qed.

Lemma fold_max_le (ds : list nat) (n b : nat) : (n <= b)%nat → (∀ d, d ∈ ds → (d <= b)%nat) → (foldr Nat.max n ds <= b)%nat.
Proof.
  intros Hn. induction ds as [|d ds IH]; intros Hd; cbn [foldr]; [done|].
  apply Nat.max_lub; [apply Hd; by left|]. apply IH. intros. apply Hd. by right.
Qed.

Lemma fold_max_ge (ds : list nat) (n : nat) : (n <= foldr Nat.max n ds)%nat ∧ ∀ d, d ∈ ds → (d <= foldr Nat.max n ds)%nat.
Proof.
  induction ds as [|d ds [IH1 IH2]]; cbn [foldr].
  - split; [done|]. intros d Hd. by apply not_elem_of_nil in Hd.
  - split; [lia|]. intros e [->|He]%elem_of_cons; [lia|]. specialize (IH2 e He). lia.
Qed.

Lemma start_facts s blue red :
  wf_graph s → (∀ d, d ∈ blue → live s d) → (∀ r, red = Some r → ∀ d, d ∈ r → live s d) →
  let start := foldr Nat.max (match red with Some r => foldr Nat.max 0%nat r | None => TABLE s end) blue in
  let c0 := cseeds blue (default [] red) in
  (start <= TABLE s)%nat ∧
  ∀ j, (start < j)%nat → c0 j = 0 ∧ seed s (bool_decide (red = None)) c0 j = 0.
Proof.
  intros Hwf Hb Hr. cbv zeta. set (n0 := match red with Some r => _ | None => _ end).
  destruct (fold_max_ge blue n0) as [Hge Hgb]. split.
  - apply fold_max_le; [|intros; by apply live_tip; [|apply Hb]]. unfold n0. destruct red as [r|]; [|done].
    apply fold_max_le; [lia|]. intros d Hd. apply live_tip; [done|by apply (Hr r)].
  - intros j Hj.
    assert (Hc : cseeds blue (default [] red) j = 0).
    { unfold cseeds. rewrite !bool_decide_eq_false_2; [done|..].
      - intros Hin. specialize (Hgb j Hin). lia.
      - destruct red as [r|]; cbn; [|apply not_elem_of_nil]. intros Hin.
        destruct (fold_max_ge r 0) as [_ H]. specialize (H j Hin). unfold n0 in *. lia. }
    split; [done|]. unfold seed. rewrite Hc. case_bool_decide as Hn; [|done]. cbn [andb].
    destruct (liveb s j) eqn:Hl; [|done]. apply liveb_spec in Hl. pose proof (live_tip s j Hwf Hl).
    unfold n0 in *. subst red. lia.
Qed.

(** ** Properties *)

(** The graph is as it was. *)
Definition same_graph (t s : sccs) : Prop :=
  deltas t = deltas s ∧ tip t = tip s ∧ encoding_in t = encoding_in s.

Lemma painted_same t s : painted s t (λ _, 0) → same_graph t s.
Proof.
  intros [H1 H2 H3 H4]. split_and!; [|done|done]. apply list_eq. intros i.
  specialize (H1 (S i)). rewrite Z.lor_0_r in H1.
  assert (Hd : dl t (S i) = dl s (S i)) by (rewrite H1; unfold FLAGS; by destruct (dl s (S i))). cbn in Hd.
  destruct (decide (i < length (deltas s))%nat) as [Hi|Hi].
  - destruct (lookup_lt_is_Some_2 (deltas s) i Hi) as [x Hx]. destruct (lookup_lt_is_Some_2 (deltas t) i) as [y Hy]; [lia|].
    rewrite (nth_lookup_Some _ _ _ _ Hx), (nth_lookup_Some _ _ _ _ Hy) in Hd. congruence.
  - rewrite !lookup_ge_None_2 by lia. done.
Qed.

(** The walk as one statement, for the components that call it. *)
Lemma walkrevs_collect_spec s o blue red :
  wf_graph s → (∀ j, (1 <= j <= TABLE s)%nat → TAG s j = false → live s j) →
  (∀ j, Z.land (FLAGS s j) ALLC = 0) →
  (∀ d, d ∈ blue → live s d) → (∀ r, red = Some r → ∀ d, d ∈ r → live s d) →
  let '(l, s') := walkrevs_collect o s blue red in
  (∀ j, j ∈ l ↔ listed s o blue red j) ∧ StronglySorted gt l ∧ same_graph s' s.
Proof.
  intros Hwf Hlive Hclean Hb Hr. unfold walkrevs_collect.
  destruct (setup_sim s o Hwf Hclean blue red Hb Hr) as (Hsim & Hd & Hall). cbv zeta in *.
  set (wr := walkrevs_setup o s blue red) in *. set (start := foldr Nat.max _ blue) in *.
  set (c0 := cseeds blue (default [] red)) in *.
  destruct (start_facts s blue red Hwf Hb Hr) as [Hst Habove]. fold start c0 in Hst, Habove.
  pose proof (sim_lower s o (TABLE s) start wr c0 Hsim Hst (λ j Hj, proj1 (Habove j (proj1 Hj)))) as Hsim'.
  pose proof (collect_loop_sim s o Hwf Hclean Hlive (S (TABLE s)) start wr c0 ltac:(lia) Hst Hsim' Hd) as HL.
  destruct (collect_loop o (S (TABLE s)) wr) as [l wr']. destruct HL as [-> (d' & c' & Hd' & Hs')].
  rewrite Hall. fold (fin s o (bool_decide (red = None)) c0 start).
  assert (Hcr : creach s o (bool_decide (red = None)) c0 0 (fin s o (bool_decide (red = None)) c0 start)).
  { by apply fin_creach. }
  split; [|split; [apply Hcr|]].
  - intros j. rewrite (cr_list _ _ _ _ _ _ Hcr).
    rewrite <- (selected_listed s o blue red Hwf Hlive Hb Hr start Hst Habove). unfold selected.
    split; [by intros (_ & ? & ?)|]. intros [Hl ?]. pose proof (live_pos s j Hl). split_and!; [lia|done|done].
  - apply painted_same. exact (walkrevs_done_clean s o Hwf Hclean d' wr' c' Hs' ltac:(lia)).
Qed.

(** C14. The history walk.  On a well-formed graph without colors, in which every
    delta that is not a tag is in use, [walkrevs_collect] returns, newest first and each once, exactly the deltas
    wanted: red minus blue, their symmetric difference, intersection or union,
    where red and blue are the given deltas with all their ancestors (all deltas
    when no upper bound is given); with the tip option only those with no wanted
    descendant, so with [WR_GCA] the maximal common ancestors.  The early stop
    on the mark count loses nothing and every flag is as it was. *)
Theorem walkrevs_collect_correct s o blue red :
  wf_graph s → (∀ j, (1 <= j <= TABLE s)%nat → TAG s j = false → live s j) →
  (∀ j, Z.land (FLAGS s j) ALLC = 0) →
  (∀ d, d ∈ blue → live s d) → (∀ r, red = Some r → ∀ d, d ∈ r → live s d) →
  let '(l, s') := walkrevs_collect o s blue red in
  (∀ j, j ∈ l ↔ listed s o blue red j) ∧ StronglySorted gt l ∧ (∀ j, dl s' j = dl s j).
Proof.
  intros Hwf Hlive Hclean Hb Hr. pose proof (walkrevs_collect_spec s o blue red Hwf Hlive Hclean Hb Hr) as H.
  destruct (walkrevs_collect o s blue red) as [l s']. destruct H as (H1 & H2 & H3 & _). split_and!; [done|done|].
  intros j. unfold dl. by rewrite H3.
Qed.

Lemma ex_graph_all_live j : (1 <= j <= TABLE ex_graph)%nat → TAG ex_graph j = false → live ex_graph j.
Proof. intros Hj _. by apply ex_graph_live. Qed.

Lemma ex_graph_clean j : Z.land (FLAGS ex_graph j) ALLC = 0.
Proof. do 7 (destruct j as [|j]; [reflexivity|]). by destruct j. Qed.

Lemma walkrevs_collect_correct_witness :
  fst (walkrevs_collect WR_GCA ex_graph [3%nat] (Some [4%nat])) = [2%nat] ∧
  let '(l, s') := walkrevs_collect WR_GCA ex_graph [3%nat] (Some [4%nat]) in
  (∀ j, j ∈ l ↔ listed ex_graph WR_GCA [3%nat] (Some [4%nat]) j) ∧ StronglySorted gt l ∧
  (∀ j, dl s' j = dl ex_graph j).
Proof.
  split; [reflexivity|]. apply (walkrevs_collect_correct ex_graph WR_GCA [3%nat] (Some [4%nat])).
  - apply ex_graph_wf.
  - apply ex_graph_all_live.
  - apply ex_graph_clean.
  - intros d ->%list_elem_of_singleton. apply ex_graph_live. lia.
  - intros r [= <-] d ->%list_elem_of_singleton. apply ex_graph_live. lia.
Defined.
