(* ===== verification/PQ.v ===== *)
(** * PQ: priority queues

    src/src/libc/utils/pq.c: two binary heaps in autoexpanding arrays, one of
    [u32]s ([pq32_*]) and one of pointers with a comparison function ([pq_*]).
    The array is the list of its elements; index [k] of the C array is position
    [k - 1] of the list.

    [PriorityQueue] is the promise to clients: an insert adds an element, a pop
    removes one that no element exceeds.  Clients are proved against it. *)

From S2P Require Import Prelude.
From stdpp Require Import base numbers list sorting.
From Stdlib Require Import ZArith Lia.

(** ** The code, for a "less than" test *)

Section heap.
Context {A : Type} (less : A → A → bool) (dummy : A).

(** [pq[k]] *)
Definition pq_at (pq : list A) (k : nat) : A := nth (k - 1) pq dummy.

Definition pq_set (pq : list A) (k : nat) (x : A) : list A := <[(k - 1)%nat := x]> pq.

Definition pq_swap (pq : list A) (i j : nat) : list A :=
  let tmp := pq_at pq i in
  let pq := pq_set pq i (pq_at pq j) in
  pq_set pq j tmp.

(** [k] halves each round, so [k] rounds are enough. *)
Fixpoint swim_loop (fuel : nat) (pq : list A) (k : nat) : list A :=
  match fuel with
  | O => pq
  | S fuel =>
      if (1 <? k)%nat && less (pq_at pq (k / 2)) (pq_at pq k)
      then swim_loop fuel (pq_swap pq (k / 2) k) (k / 2) else pq
  end.

Definition swim (pq : list A) (k : nat) : list A := swim_loop k pq k.

(** [k] doubles each round, so [N] rounds are enough. *)
Fixpoint sink_loop (fuel : nat) (pq : list A) (k N : nat) : list A :=
  match fuel with
  | O => pq
  | S fuel =>
      if (2 * k <=? N)%nat then
        let j := (2 * k)%nat in
        let j := if (j <? N)%nat && less (pq_at pq j) (pq_at pq (j + 1)) then (j + 1)%nat else j in
        if negb (less (pq_at pq k) (pq_at pq j)) then pq
        else sink_loop fuel (pq_swap pq k j) j N
      else pq
  end.

Definition sink (pq : list A) (k N : nat) : list A := sink_loop N pq k N.

Definition insert (pq : list A) (item : A) : list A :=
  let pq := pq ++ [item] in swim pq (length pq).

(** [None]: the assert on an empty queue. *)
Definition pop (pq : list A) : option (A * list A) :=
  let N := length pq in
  if (N =? 0)%nat then None else
  let ret := pq_at pq 1 in
  let pq := take (N - 1) (pq_set pq 1 (pq_at pq N)) in
  Some (ret, sink pq 1 (N - 1)).

Definition peek (pq : list A) : option A :=
  if (length pq =? 0)%nat then None else Some (pq_at pq 1).
End heap.

Definition swap32 (pq : list Z) (i j : nat) : list Z := pq_swap 0%Z pq i j.

Definition swim32 (pq : list Z) (k : nat) : list Z := swim Z.ltb 0%Z pq k.

Definition sink32 (pq : list Z) (k N : nat) : list Z := sink Z.ltb 0%Z pq k N.

Definition pq32_insert (pq : list Z) (item : Z) : list Z := insert Z.ltb 0%Z pq item.

Definition pq32_delMax (pq : list Z) : option (Z * list Z) := pop Z.ltb 0%Z pq.

(** The pointer heap: [cmp] is the comparison function of the queue. *)
Section pointers.
Context {A : Type} (cmp : A → A → Z) (null : A).

Definition cmp_less (x y : A) : bool := (cmp x y <? 0)%Z.

Definition pq_insert (pq : list A) (item : A) : list A := insert cmp_less null pq item.

Definition pq_pop (pq : list A) : option (A * list A) := pop cmp_less null pq.

Definition pq_peek (pq : list A) : A := default null (peek null pq).
End pointers.

(** ** The promise *)

(** [le x y]: [y] may come before [x]. *)
Class PriorityQueue (A Q : Type) (le : A → A → Prop)
    (ins : Q → A → Q) (del : Q → option (A * Q)) := {
  pq_elems : Q → list A;
  pq_ok : Q → Prop;
  pq_ins_ok : ∀ q x, pq_ok q → pq_ok (ins q x) ∧ pq_elems (ins q x) ≡ₚ x :: pq_elems q;
  pq_del_none : ∀ q, pq_ok q → del q = None ↔ pq_elems q = [];
  pq_del_some : ∀ q x q', pq_ok q → del q = Some (x, q') →
    pq_ok q' ∧ pq_elems q ≡ₚ x :: pq_elems q' ∧ Forall (λ y, le y x) (pq_elems q)
}.

(** ** Clients of the promise *)

Section client.
Context {A Q : Type} (le : A → A → Prop) (ins : Q → A → Q) (del : Q → option (A * Q)).
Context `{!PriorityQueue A Q le ins del}.

(** Empty the queue. *)
Fixpoint drain (fuel : nat) (q : Q) : list A :=
  match fuel with
  | O => []
  | S fuel => match del q with None => [] | Some (x, q) => x :: drain fuel q end
  end.

Lemma drain_spec fuel q :
  pq_ok q → (length (pq_elems q) <= fuel)%nat →
  drain fuel q ≡ₚ pq_elems q ∧ StronglySorted (flip le) (drain fuel q).
Proof.
  revert q. induction fuel as [|fuel IH]; intros q Hq Hlen; cbn [drain].
  - destruct (pq_elems q); [|simpl in Hlen; lia]. split; [done|constructor].
  - destruct (del q) as [[x q']|] eqn:Hd.
    + destruct (pq_del_some q x q' Hq Hd) as (Hq' & Hp & Hle).
      destruct (IH q' Hq') as [Hp' Hs]; [rewrite Hp in Hlen; simpl in Hlen; lia|].
      split; [by rewrite Hp', Hp|]. constructor; [done|].
      apply Forall_forall. intros y Hy. rewrite Hp' in Hy. rewrite Forall_forall in Hle. apply Hle.
      rewrite Hp. by right.
    + apply (pq_del_none q Hq) in Hd. rewrite Hd. split; [done|constructor].
Qed.

Lemma insert_all_ok q xs :
  pq_ok q → pq_ok (fold_left ins xs q) ∧ pq_elems (fold_left ins xs q) ≡ₚ xs ++ pq_elems q.
Proof.
  revert q. induction xs as [|x xs IH]; intros q Hq; cbn [fold_left]; [done|].
  destruct (pq_ins_ok q x Hq) as [Hq1 Hp1]. destruct (IH _ Hq1) as [Hq2 Hp2].
  split; [done|]. rewrite Hp2, Hp1. symmetry. apply Permutation_middle.
Qed.
End client.

(** ** Positions *)

Section positions.
Context {A : Type} (dummy : A).

Abbreviation at_ := (pq_at dummy).

Abbreviation swap_ := (pq_swap dummy).

Lemma pq_at_set pq k x i :
  (1 <= k <= length pq)%nat → (1 <= i)%nat → at_ (pq_set pq k x) i = if (i =? k)%nat then x else at_ pq i.
Proof.
  intros Hk Hi. unfold pq_at, pq_set. destruct (Nat.eqb_spec i k) as [->|Hne].
  - apply nth_lookup_Some. apply list_lookup_insert_eq. lia.
  - rewrite !nth_lookup. by rewrite list_lookup_insert_ne by lia.
Qed.

Lemma length_pq_swap pq i j : length (swap_ pq i j) = length pq.
Proof. unfold pq_swap, pq_set. by rewrite !length_insert. Qed.

Lemma pq_at_swap pq i j k :
  (1 <= i <= length pq)%nat → (1 <= j <= length pq)%nat → (1 <= k)%nat →
  at_ (swap_ pq i j) k =
  if (k =? j)%nat then at_ pq i else if (k =? i)%nat then at_ pq j else at_ pq k.
Proof.
  intros Hi Hj Hk. unfold pq_swap.
  rewrite pq_at_set by (unfold pq_set; rewrite ?length_insert; lia). by rewrite pq_at_set by lia.
Qed.

Lemma pq_at_lookup pq k : (1 <= k <= length pq)%nat → pq !! (k - 1)%nat = Some (at_ pq k).
Proof.
  intros Hk. destruct (lookup_lt_is_Some_2 pq (k - 1)) as [x Hx]; [lia|].
  rewrite Hx. f_equal. symmetry. by apply nth_lookup_Some.
Qed.

Lemma insert_swap_perm (l : list A) i j x y :
  (i < j)%nat → l !! i = Some x → l !! j = Some y → <[j := x]> (<[i := y]> l) ≡ₚ l.
Proof.
  intros Hij Hx Hy. pose proof (lookup_lt_Some _ _ _ Hy) as Hlen.
  assert (Hl : l = take i l ++ x :: take (j - S i) (drop (S i) l) ++ y :: drop (S j) l).
  { rewrite <- (take_drop_middle l i x Hx) at 1. do 2 f_equal.
    rewrite <- (take_drop_middle (drop (S i) l) (j - S i) y) at 1.
    - rewrite drop_drop. do 3 f_equal. lia.
    - rewrite lookup_drop, <- Hy. f_equal. lia. }
  set (a := take i l) in *. set (b := take (j - S i) (drop (S i) l)) in *. set (c := drop (S j) l) in *.
  assert (Ha : length a = i) by (unfold a; rewrite length_take; lia).
  assert (Hb : length b = (j - S i)%nat) by (unfold b; rewrite length_take, length_drop; lia).
  rewrite Hl. rewrite (insert_app_r_alt a) by lia. rewrite Ha, Nat.sub_diag. cbn [list_insert base.insert].
  rewrite (insert_app_r_alt a) by lia. rewrite Ha. replace (j - i)%nat with (S (j - S i)) by lia.
  cbn [list_insert base.insert]. rewrite (insert_app_r_alt b) by lia. rewrite Hb, Nat.sub_diag.
  cbn [list_insert base.insert]. apply Permutation_app_head.
  rewrite <- !Permutation_middle. constructor.
Qed.

Lemma pq_swap_perm pq i j :
  (1 <= i <= length pq)%nat → (1 <= j <= length pq)%nat → swap_ pq i j ≡ₚ pq.
Proof.
  intros Hi Hj. unfold pq_swap, pq_set.
  pose proof (pq_at_lookup pq i Hi) as Hx. pose proof (pq_at_lookup pq j Hj) as Hy.
  destruct (decide (i = j)) as [->|Hne].
  - rewrite list_insert_insert_eq. by rewrite list_insert_id.
  - destruct (decide (i < j)%nat).
    + apply insert_swap_perm; [lia|done|done].
    + rewrite list_insert_insert_ne by lia. apply insert_swap_perm; [lia|done|done].
Qed.
End positions.

(** ** The heap order *)

Section order.
Context {A : Type} (less : A → A → bool) (dummy : A).
Hypothesis less_asym : ∀ x y, less x y = true → less y x = false.
Hypothesis less_trans : ∀ x y z, less x y = false → less y z = false → less x z = false.

Abbreviation at_ := (pq_at dummy).

Abbreviation swap_ := (pq_swap dummy).

(** The parent of [k] is not less than [k]. *)
Definition edge (pq : list A) (k : nat) : Prop := less (at_ pq (k / 2)) (at_ pq k) = false.

Definition heap (pq : list A) : Prop := ∀ k, (2 <= k <= length pq)%nat → edge pq k.

(** Every edge but that into [k], and the children of [k] are not above its
    parent. *)
Definition heap_but (pq : list A) (k : nat) : Prop :=
  (∀ j, (2 <= j <= length pq)%nat → j ≠ k → edge pq j) ∧
  (∀ j, (2 <= j <= length pq)%nat → (j / 2 = k)%nat → (2 <= k)%nat → less (at_ pq (k / 2)) (at_ pq j) = false).

Lemma half_lt k : (2 <= k)%nat → (1 <= k / 2 < k)%nat.
Proof. intros. split; [apply Nat.div_le_lower_bound; lia|apply Nat.div_lt; lia]. Qed.

Lemma half_double k j : (1 <= k)%nat → (j / 2 = k)%nat ↔ (j = 2 * k ∨ j = 2 * k + 1)%nat.
Proof.
  intros Hk. pose proof (Nat.div_mod_eq j 2). pose proof (Nat.mod_upper_bound j 2 ltac:(lia)).
  split; [lia|]. intros [->| ->].
  - rewrite Nat.mul_comm. by apply Nat.div_mul.
  - rewrite Nat.add_comm, Nat.mul_comm, Nat.div_add by lia. done.
Qed.

Lemma swim_step pq k :
  (2 <= k <= length pq)%nat → heap_but pq k → less (at_ pq (k / 2)) (at_ pq k) = true →
  heap_but (swap_ pq (k / 2) k) (k / 2).
Proof.
  intros Hk [H1 H2] Hless. pose proof (half_lt k ltac:(lia)) as Hh. set (p := (k / 2)%nat) in *.
  unfold heap_but, edge. rewrite length_pq_swap. split.
  - intros j Hj Hjp. pose proof (half_lt j ltac:(lia)). destruct (decide (j = k)) as [->|Hjk].
    + fold p. rewrite (pq_at_swap dummy pq p k k), (pq_at_swap dummy pq p k p) by lia.
      rewrite Nat.eqb_refl. destruct (Nat.eqb_spec p k); [lia|]. rewrite Nat.eqb_refl. by apply less_asym.
    + rewrite (pq_at_swap dummy pq p k j) by lia.
      destruct (Nat.eqb_spec j k); [lia|]. destruct (Nat.eqb_spec j p); [lia|].
      rewrite pq_at_swap by lia. destruct (Nat.eqb_spec (j / 2) k) as [E|].
      * by apply H2; [|done|lia].
      * destruct (Nat.eqb_spec (j / 2) p) as [E|]; [|by apply H1].
        apply (less_trans _ (at_ pq p)); [by apply less_asym|]. rewrite <- E. by apply H1.
  - intros j Hj Hjp Hp. pose proof (half_lt p Hp) as Hpp.
    assert (Hep : less (at_ pq (p / 2)) (at_ pq p) = false) by (apply H1; lia).
    rewrite (pq_at_swap dummy pq p k (p / 2)) by lia.
    destruct (Nat.eqb_spec (p / 2) k); [lia|]. destruct (Nat.eqb_spec (p / 2) p); [lia|].
    rewrite pq_at_swap by lia. destruct (Nat.eqb_spec j k) as [->|]; [done|].
    destruct (Nat.eqb_spec j p) as [->|]; [lia|].
    apply (less_trans _ (at_ pq p)); [done|]. rewrite <- Hjp. apply H1; lia.
Qed.

Lemma swim_loop_ok fuel pq k :
  (k <= fuel)%nat → (1 <= k <= length pq)%nat → heap_but pq k →
  heap (swim_loop less dummy fuel pq k) ∧ swim_loop less dummy fuel pq k ≡ₚ pq.
Proof.
  revert pq k. induction fuel as [|fuel IH]; intros pq k Hf Hk Hb; [lia|]. cbn [swim_loop].
  destruct (Nat.ltb_spec 1 k) as [H1|H1]; cbn [andb].
  - destruct (less (at_ pq (k / 2)) (at_ pq k)) eqn:Hl.
    + pose proof (half_lt k ltac:(lia)).
      destruct (IH (swap_ pq (k / 2) k) (k / 2)%nat) as [Hh Hp]; [lia|rewrite length_pq_swap; lia| |].
      { apply swim_step; [lia|done|done]. }
      split; [done|]. rewrite Hp. apply pq_swap_perm; lia.
    + split; [|done]. intros j Hj. destruct (decide (j = k)) as [->|]; [done|]. by apply Hb.
  - split; [|done]. intros j Hj. apply Hb; lia.
Qed.

(** An insert keeps the order and adds the element. *)
Lemma insert_ok pq x : heap pq → heap (insert less dummy pq x) ∧ insert less dummy pq x ≡ₚ x :: pq.
Proof.
  intros Hh. unfold insert, swim. set (l := pq ++ [x]).
  assert (Hlen : length l = S (length pq)) by (unfold l; rewrite length_app; simpl; lia).
  assert (Hat : ∀ k, (1 <= k <= length pq)%nat → at_ l k = at_ pq k).
  { intros k Hk. unfold pq_at, l. apply app_nth1. lia. }
  destruct (swim_loop_ok (length l) l (length l)) as [H1 H2]; [lia|lia| |].
  - split.
    + intros j Hj Hne. pose proof (half_lt j ltac:(lia)). unfold edge. rewrite !Hat by lia. apply Hh. lia.
    + intros j Hj Hd _. pose proof (half_lt j ltac:(lia)). lia.
  - split; [done|]. rewrite H2. unfold l. apply Permutation_app_comm.
Qed.

(** Every edge but those out of [k], and the children of [k] are not above its
    parent. *)
Definition heap_from (pq : list A) (N k : nat) : Prop :=
  (∀ j, (2 <= j <= N)%nat → (j / 2 ≠ k)%nat → edge pq j) ∧
  (∀ j, (2 <= j <= N)%nat → (j / 2 = k)%nat → (2 <= k)%nat → less (at_ pq (k / 2)) (at_ pq j) = false).

Lemma sink_step pq N k j :
  N = length pq → (1 <= k)%nat → (2 * k <= N)%nat → (j = 2 * k ∨ j = 2 * k + 1)%nat → (j <= N)%nat →
  (∀ i, (i / 2 = k)%nat → (2 <= i <= N)%nat → less (at_ pq j) (at_ pq i) = false) →
  less (at_ pq k) (at_ pq j) = true → heap_from pq N k → heap_from (swap_ pq k j) N j.
Proof.
  intros HN Hk H2k Hj HjN Hmax Hless [H1 H2].
  assert (Hjk : (j / 2 = k)%nat) by (by apply half_double). split.
  - intros i Hi Hij. pose proof (half_lt i ltac:(lia)). unfold edge.
    rewrite (pq_at_swap dummy pq k j (i / 2)) by lia. destruct (Nat.eqb_spec (i / 2) j); [lia|].
    rewrite pq_at_swap by lia. destruct (Nat.eqb_spec (i / 2) k) as [E|Hne].
    + destruct (Nat.eqb_spec i j) as [->|]; [by apply less_asym|].
      destruct (Nat.eqb_spec i k); [lia|]. by apply Hmax.
    + destruct (Nat.eqb_spec i j) as [->|]; [lia|]. destruct (Nat.eqb_spec i k) as [->|]; [|by apply H1].
      apply H2; [lia|done|lia].
  - intros i Hi Hij Hj2. rewrite Hjk. pose proof (half_lt i ltac:(lia)).
    rewrite (pq_at_swap dummy pq k j k) by lia. destruct (Nat.eqb_spec k j); [lia|].
    destruct (Nat.eqb_spec k k); [|done]. rewrite pq_at_swap by lia.
    destruct (Nat.eqb_spec i j); [lia|]. destruct (Nat.eqb_spec i k); [lia|].
    rewrite <- Hij. apply H1; lia.
Qed.

Lemma sink_loop_ok fuel pq N k :
  N = length pq → (N <= fuel + k - 1)%nat → (1 <= k)%nat → heap_from pq N k →
  heap (sink_loop less dummy fuel pq k N) ∧ sink_loop less dummy fuel pq k N ≡ₚ pq.
Proof.
  revert pq k. induction fuel as [|fuel IH]; intros pq k HN Hf Hk Hh; cbn [sink_loop].
  - split; [|done]. intros j Hj. apply Hh; [lia|]. pose proof (half_lt j ltac:(lia)). lia.
  - destruct (Nat.leb_spec (2 * k) N) as [H2k|H2k].
    2:{ split; [|done]. intros j Hj. apply Hh; [lia|]. rewrite half_double by done. lia. }
    set (j := if _ && _ then _ else _).
    assert (Hj : (j = 2 * k ∨ j = 2 * k + 1)%nat ∧ (j <= N)%nat ∧
       ∀ i, (i / 2 = k)%nat → (2 <= i <= N)%nat → less (at_ pq j) (at_ pq i) = false).
    { assert (Hrefl : ∀ x, less x x = false) by (intros x; destruct (less x x) eqn:E; [pose proof (less_asym _ _ E); congruence|done]).
      unfold j. destruct (Nat.ltb_spec (2 * k) N); cbn [andb].
      - destruct (less (at_ pq (2 * k)) (at_ pq (2 * k + 1))) eqn:El; (split_and!; [lia|lia|]);
        intros i Hi HiN; apply half_double in Hi as [->| ->]; auto.
      - split_and!; [lia|lia|]. intros i Hi HiN. apply half_double in Hi as [->| ->]; [done|lia|lia]. }
    destruct Hj as (Hj1 & Hj2 & Hj3). destruct (less (at_ pq k) (at_ pq j)) eqn:Hl; cbn [negb].
    + destruct (IH (swap_ pq k j) j) as [Hh' Hp]; [by rewrite length_pq_swap|lia|lia|by apply sink_step|].
      split; [done|]. rewrite Hp. apply pq_swap_perm; lia.
    + split; [|done]. intros i Hi. destruct (decide (i / 2 = k)%nat) as [E|E]; [|by apply Hh; [lia|]].
      unfold edge. rewrite E. apply (less_trans _ (at_ pq j)); [done|]. apply Hj3; [done|lia].
Qed.

(** The root is not less than any element. *)
Lemma heap_root pq k : heap pq → (1 <= k <= length pq)%nat → less (at_ pq 1) (at_ pq k) = false.
Proof.
  intros Hh. induction (lt_wf k) as [k _ IH]. intros Hk. destruct (decide (k = 1%nat)) as [->|].
  - destruct (less _ _) eqn:E; [|done]. pose proof (less_asym _ _ E). congruence.
  - pose proof (half_lt k ltac:(lia)). apply (less_trans _ (at_ pq (k / 2))); [apply IH; lia|]. apply Hh. lia.
Qed.

(** A pop takes a greatest element and keeps the order. *)
Lemma pop_ok pq x pq' :
  heap pq → pop less dummy pq = Some (x, pq') →
  heap pq' ∧ pq ≡ₚ x :: pq' ∧ Forall (λ y, less x y = false) pq.
Proof.
  intros Hh. unfold pop. destruct (Nat.eqb_spec (length pq) 0) as [|HN]; [done|].
  set (N := length pq) in *. set (l := take (N - 1) (pq_set pq 1 (at_ pq N))).
  intros [= <- <-].
  assert (Hll : length l = (N - 1)%nat) by (unfold l, pq_set; rewrite length_take, length_insert; lia).
  assert (Hat : ∀ k, (1 <= k <= N - 1)%nat → at_ l k = if (k =? 1)%nat then at_ pq N else at_ pq k).
  { intros k Hk. rewrite <- (pq_at_set dummy pq 1) by lia. unfold pq_at at 1, l. rewrite !nth_lookup.
    rewrite lookup_take_lt by lia. symmetry. apply nth_lookup. }
  destruct (sink_loop_ok (N - 1) l (N - 1) 1) as [H1 H2]; [done|lia|lia| |].
  { split; [|lia]. intros j Hj Hj1. pose proof (half_lt j ltac:(lia)). unfold edge. rewrite !Hat by lia.
    destruct (Nat.eqb_spec (j / 2) 1); [lia|]. destruct (Nat.eqb_spec j 1); [lia|]. apply Hh. lia. }
  split; [done|]. split.
  - unfold sink. rewrite H2.
    pose proof (pq_swap_perm dummy pq 1 N ltac:(lia) ltac:(lia)) as Hp.
    assert (Hsw : swap_ pq 1 N = l ++ [at_ pq 1]).
    { unfold pq_swap, l, pq_set. rewrite <- take_S_insert.
      - replace (S (N - 1)) with N by lia. symmetry. apply take_ge. rewrite !length_insert. done.
      - rewrite length_insert. fold N. lia. }
    etrans; [symmetry; exact Hp|]. rewrite Hsw. apply Permutation_app_comm.
  - apply Forall_forall. intros y Hy. apply list_elem_of_lookup in Hy as [i Hi].
    pose proof (lookup_lt_Some _ _ _ Hi). replace y with (at_ pq (S i)).
    + apply heap_root; [done|lia].
    + unfold pq_at. replace (S i - 1)%nat with i by lia. by apply nth_lookup_Some.
Qed.

(** The heap keeps the promise. *)
#[global] Instance heap_pq : PriorityQueue A (list A) (λ x y, less y x = false) (insert less dummy) (pop less dummy).
Proof.
  refine {| pq_elems := id; pq_ok := heap |}; unfold id.
  - intros q x. apply insert_ok.
  - intros q _. unfold pop. destruct q; cbn; [done|]. split; [done|]. intros H. done.
  - intros q x q' Hq Hd. destruct (pop_ok q x q' Hq Hd) as (? & ? & ?). split_and!; done.
Defined.
End order.

(** ** The two heaps *)

Lemma ltb_asym x y : (x <? y)%Z = true → (y <? x)%Z = false.
Proof. rewrite Z.ltb_lt, Z.ltb_ge. lia. Qed.

Lemma ltb_trans x y z : (x <? y)%Z = false → (y <? z)%Z = false → (x <? z)%Z = false.
Proof. rewrite !Z.ltb_ge. lia. Qed.

#[global] Instance pq32 : PriorityQueue Z (list Z) (λ x y, (y <? x)%Z = false) pq32_insert pq32_delMax :=
  heap_pq Z.ltb 0%Z ltb_asym ltb_trans.

(** Items that leave a queue filled from empty. *)
Definition pq32_sort (xs : list Z) : list Z :=
  drain pq32_delMax (length xs) (fold_left pq32_insert xs []).

(** C35. Filling a [u32] queue with any items and emptying it with [pq32_delMax]
    never reaches the assert on an empty queue, returns every item as often as
    it was inserted, and in descending order. *)
Theorem pq32_drains_sorted (xs : list Z) :
  pq32_sort xs ≡ₚ xs ∧ StronglySorted (λ x y, (y <= x)%Z) (pq32_sort xs).
Proof.
  destruct (insert_all_ok (λ x y, (y <? x)%Z = false) pq32_insert pq32_delMax [] xs) as [Hok Hp].
  { intros k Hk. cbn in Hk. lia. }
  destruct (drain_spec (λ x y, (y <? x)%Z = false) pq32_insert pq32_delMax (length xs) _ Hok) as [H1 H2].
  { rewrite Hp, app_nil_r. done. }
  split; [unfold pq32_sort; by rewrite H1, Hp, app_nil_r|].
  unfold pq32_sort. clear H1. induction H2 as [|x l _ IH Hall]; constructor; [exact IH|].
  eapply Forall_impl; [exact Hall|]. intros y. unfold flip. by rewrite Z.ltb_ge.
Qed.

(** What a comparison function must be: a total preorder given by its sign. *)
Class TotalCmp {A} (cmp : A → A → Z) := {
  cmp_asym : ∀ x y, (cmp x y < 0)%Z → (0 <= cmp y x)%Z;
  cmp_trans : ∀ x y z, (0 <= cmp x y)%Z → (0 <= cmp y z)%Z → (0 <= cmp x z)%Z
}.

Section pointer_heap.
Context {A : Type} (cmp : A → A → Z) (null : A) `{!TotalCmp cmp}.

#[global] Instance pqptr : PriorityQueue A (list A) (λ x y, (0 <= cmp y x)%Z) (pq_insert cmp null) (pq_pop cmp null).
Proof.
  assert (Hge : ∀ x y, cmp_less cmp x y = false ↔ (0 <= cmp x y)%Z) by (intros; unfold cmp_less; apply Z.ltb_ge).
  assert (Ha : ∀ x y, cmp_less cmp x y = true → cmp_less cmp y x = false).
  { intros x y H. rewrite Hge. apply cmp_asym. by apply Z.ltb_lt. }
  assert (Ht : ∀ x y z, cmp_less cmp x y = false → cmp_less cmp y z = false → cmp_less cmp x z = false).
  { intros x y z. rewrite !Hge. apply cmp_trans. }
  refine {| pq_elems := id; pq_ok := heap (cmp_less cmp) null |}; unfold id.
  - intros q x. by apply insert_ok.
  - intros q _. unfold pq_pop, pop. destruct q; cbn; done.
  - intros q x q' Hq Hd. destruct (pop_ok (cmp_less cmp) null Ha Ht q x q' Hq Hd) as (? & ? & H).
    split_and!; [done|done|]. eapply Forall_impl; [exact H|]. intros y. by rewrite Hge.
Defined.
End pointer_heap.

(** With a comparison function that is a total preorder, [pq_pop] on a queue
    filled by [pq_insert] returns an item that no other is above, the one
    [pq_peek] shows, and leaves exactly the others; the queue it leaves obeys
    the heap order again, so the statement holds of every pop. *)
Theorem pq_pop_takes_max {A : Type} (cmp : A → A → Z) (null : A) :
  TotalCmp cmp → ∀ (q : list A) (x : A),
  let q1 := pq_insert cmp null q x in
  heap (cmp_less cmp) null q →
  ∃ y q2, pq_pop cmp null q1 = Some (y, q2) ∧ pq_peek null q1 = y ∧
    heap (cmp_less cmp) null q2 ∧ x :: q ≡ₚ y :: q2 ∧ Forall (λ z, (0 <= cmp y z)%Z) (x :: q).
Proof.
  intros Hc q x q1 Hq.
  destruct (pq_ins_ok (PriorityQueue := pqptr cmp null) q x Hq) as [Hok Hp]. fold q1 in Hok, Hp.
  cbn [pq_elems pq_ok pqptr] in Hok, Hp. unfold id in Hp.
  destruct (pq_pop cmp null q1) as [[y q2]|] eqn:Hd.
  - destruct (pq_del_some (PriorityQueue := pqptr cmp null) q1 y q2 Hok Hd) as (H1 & H2 & H3).
    cbn [pq_elems pq_ok pqptr] in H1, H2, H3. unfold id in H2, H3. exists y, q2. split_and!; [done| |done| |].
    + unfold pq_pop, pop in Hd. unfold pq_peek, peek. case_match; [done|]. by injection Hd as <- _.
    + by rewrite <- Hp.
    + rewrite <- Hp. done.
  - apply (pq_del_none (PriorityQueue := pqptr cmp null) q1 Hok) in Hd. cbn in Hd. unfold id in Hd.
    rewrite Hd in Hp. by apply Permutation_nil_cons in Hp.
Qed.

#[global] Instance sub_total : TotalCmp Z.sub.
Proof. constructor; lia. Qed.

Lemma pq_pop_takes_max_witness :
  ∃ y q2, pq_pop Z.sub 0%Z (pq_insert Z.sub 0%Z [5; 3; 4]%Z 9%Z) = Some (y, q2) ∧
    pq_peek 0%Z (pq_insert Z.sub 0%Z [5; 3; 4]%Z 9%Z) = y ∧
    heap (cmp_less Z.sub) 0%Z q2 ∧ [9; 5; 3; 4]%Z ≡ₚ y :: q2 ∧ Forall (λ z, (0 <= y - z)%Z) [9; 5; 3; 4]%Z.
Proof.
  apply (pq_pop_takes_max Z.sub 0%Z sub_total [5; 3; 4]%Z 9%Z).
  intros k Hk. cbn in Hk. assert (k = 2 ∨ k = 3)%nat as [->| ->] by lia; reflexivity.
Defined.
