(* ===== verification/Shell.v ===== *)
(** * Shell: joining, splitting and shell quoting

    [joinLines], [splitLine], [shellquote] and [shellSplit] of
    src/src/libc/utils/lines.c.  Buffers are modelled with the size they were
    allocated with, and a write past the end is an outcome of its own, so that
    the theorems say there is none.  A lines array is the list of its elements
    (Lines.v relates the two).  The [int] size of the buffer of [shellSplit] is
    doubled as it grows: a size past [INT_MAX] is an outcome of its own too, and
    the theorems show that it needs a line of more than 2^30 - 2 bytes.  The
    lengths [joinLines] and [shellquote] add up in [int]s are in range for the
    strings of these theorems. *)

From S2P Require Import Prelude CStr.
From stdpp Require Import base numbers list strings.
From Stdlib Require Import ZArith Lia.

Local Open Scope Z_scope.

Local Open Scope bk_scope.

Definition strlen (s : cstr) : Z := Z.of_nat (length s).

(** ** joinLines and splitLine *)

(** The second loop: [buf] holds the bytes before [p]; a string and its NUL
    must fit in [len] bytes. *)
Fixpoint join_copy (len : Z) (sep : option cstr) (space : list cstr) (buf : cstr) : option cstr :=
  match space with
  | [] => Some buf
  | s :: space =>
      let buf := buf ++ s in
      assert! (strlen buf + 1 <=? len) ;
      match sep with
      | Some sp =>
          let buf := buf ++ sp in
          assert! (strlen buf + 1 <=? len) ; join_copy len sep space buf
      | None => join_copy len sep space buf
      end
  end.

(** The [int] [joinLines] allocates: with more than [INT_MAX] bytes it overflows. *)
Definition joinLines_len (sep : option cstr) (space : list cstr) : Z :=
  let slen := match sep with Some sp => strlen sp | None => 0 end in
  fold_left (λ len s, len + strlen s + slen) space 0 + 1.

(** [None]: a write out of bounds; [Some None]: the null pointer for no lines. *)
Definition joinLines (sep : option cstr) (space : list cstr) : option (option cstr) :=
  if (length space =? 0)%nat then Some None else
  let slen := match sep with Some sp => strlen sp | None => 0 end in
  let? buf := join_copy (joinLines_len sep space) sep space [] in
  match sep with
  | Some _ => Some (Some (take (length buf - Z.to_nat slen) buf))
  | None => Some (Some buf)
  end.

(** A round takes at least a byte, so the length of the line is enough fuel. *)
Fixpoint splitLine_loop (fuel : nat) (line delim : cstr) (tokens : list cstr) : list cstr :=
  match fuel with
  | O => tokens
  | S fuel =>
      let line := drop (strspn line delim) line in
      let len := strcspn line delim in
      if (len =? 0)%nat then tokens
      else splitLine_loop fuel (drop len line) delim (tokens ++ [take len line])
  end.

Definition splitLine (line delim : cstr) (tokens : list cstr) : list cstr :=
  splitLine_loop (S (length line)) line delim tokens.

(** ** shellquote *)

Definition BSLASH : Z := 92.

Definition DQUOTE : Z := 34.

Definition SQUOTE : Z := 39.

(** The bytes of the [strcspn]: white space, quotes, shell characters and the
    backslash. *)
Definition quote_set : cstr :=
  [32; 9; 10; 13; 39; 34; 60; 62; 124; 36; 38; 59; 91; 93; 42; 40; 41; 92].

Definition is_esc (c : Z) : bool := (c =? DQUOTE) || (c =? BSLASH).

Fixpoint quote_body (s : cstr) : cstr :=
  match s with
  | [] => []
  | c :: s => (if is_esc c then [BSLASH; c] else [c]) ++ quote_body s
  end.

Fixpoint quote_extra (s : cstr) : Z :=
  match s with [] => 0 | c :: s => (if is_esc c then 1 else 0) + quote_extra s end.

(** [None]: a write past the [nlen] bytes allocated. *)
Definition shellquote (inp : cstr) : option cstr :=
  let len := strlen inp in
  if Z.of_nat (strcspn inp quote_set) =? len then Some inp else
  let nlen := len + 2 + 1 + quote_extra inp in
  let out := [DQUOTE] ++ quote_body inp ++ [DQUOTE] in
  assert! (strlen out + 1 <=? nlen) ; Some out.

(** ** shellSplit *)

(** Ways not to return: three exits, a write past the buffer, a buffer size
    that does not fit in an [int], and a loop that did not end within its
    bound. *)
Inductive shell_err :=
  | Unmatched_single | Unmatched_double | Unhandled | Overflow | Int_overflow | Running.

#[global] Instance shell_err_eq : EqDecision shell_err.
Proof. solve_decision. Defined.

(** The locals: [buf] holds the bytes from [buf] to [pout]; an element of [ret]
    is a string with the flag byte after its NUL. *)
Record shsplit := mkShsplit {
  pin : cstr;
  buf : cstr;
  bufsize : Z;
  item : bool;
  ret : list (cstr * Z)
}.

Fixpoint resize_loop (fuel : nat) (n extra bufsize : Z) : Z + shell_err :=
  if negb (n >? bufsize - extra) then inl bufsize else
  match fuel with
  | O => inr Running
  | S fuel => if 2 * bufsize >? INT_MAX then inr Int_overflow else resize_loop fuel n extra (2 * bufsize)
  end.

(** [BUF_RESIZE]: the size grows by at least one each round. *)
Definition BUF_RESIZE (extra : Z) (buf : cstr) (bufsize : Z) : Z + shell_err :=
  resize_loop (Z.to_nat (strlen buf + extra)) (strlen buf) extra bufsize.

(** Bytes stored at [pout], which moves. *)
Definition put (bytes buf : cstr) (bufsize : Z) : cstr + shell_err :=
  if strlen buf + strlen bytes <=? bufsize then inl (buf ++ bytes) else inr Overflow.

Notation "'try!' x := e 'in' k" := (match e with inl x => k | inr er => inr er end)
  (at level 10, x pattern, k at level 200) : bk_scope.

Definition SAVE_ITEM (st : shsplit) : shsplit + shell_err :=
  if item st then
    try! _ := put [0; 0] (buf st) (bufsize st) in
    inl (mkShsplit (pin st) [] (bufsize st) false (ret st ++ [(buf st, 0)]))
  else inl st.

(** The loop of the double quoted strings. *)
Fixpoint dquote_loop (fuel : nat) (pin buf : cstr) (bufsize : Z) : (cstr * cstr * Z) + shell_err :=
  match fuel with
  | O => inr Running
  | S fuel =>
      if negb (at0 pin =? 0) && negb (at0 pin =? DQUOTE) then
        let n := strcspn pin [DQUOTE; BSLASH] in
        try! bufsize := BUF_RESIZE (Z.of_nat n + 1) buf bufsize in
        try! buf := put (take n pin) buf bufsize in
        let pin := drop n pin in
        if at0 pin =? BSLASH then
          let pin := if (nth 1 pin 0 =? BSLASH) || (nth 1 pin 0 =? DQUOTE) then drop 1 pin else pin in
          try! buf := put [at0 pin] buf bufsize in
          dquote_loop fuel (drop 1 pin) buf bufsize
        else dquote_loop fuel pin buf bufsize
      else inl (pin, buf, bufsize)
  end.

(** The label [sep]: [c] bytes are a shell meta function. *)
Definition sh_sep (c : nat) (st : shsplit) : shsplit + shell_err :=
  try! st := SAVE_ITEM st in
  inl (mkShsplit (drop c (pin st)) (buf st) (bufsize st) (item st) (ret st ++ [(take c (pin st), 1)])).

(** The case [default]. *)
Definition sh_default (st : shsplit) : shsplit + shell_err :=
  let p := pin st in
  if isdigit (at0 p) && ((nth 1 p 0 =? 60) || (nth 1 p 0 =? 62)) then
    sh_sep (if (nth 2 p 0 =? 38) && isdigit (nth 3 p 0) then 4 else 2) st
  else
    try! buf := put [at0 p] (buf st) (bufsize st) in
    inl (mkShsplit (drop 1 p) buf (bufsize st) true (ret st)).

(** The [switch]. *)
Definition sh_switch (st : shsplit) : shsplit + shell_err :=
  let p := pin st in
  let c := at0 p in
  if memchr c [32; 9; 10; 13] then
    SAVE_ITEM (mkShsplit (drop 1 p) (buf st) (bufsize st) (item st) (ret st))
  else if c =? SQUOTE then
    let p := drop 1 p in
    match strchr p SQUOTE with
    | None => inr Unmatched_single
    | Some ein =>
        let n := (length p - length ein)%nat in
        try! bufsize := BUF_RESIZE (Z.of_nat n) (buf st) (bufsize st) in
        try! buf := put (take n p) (buf st) bufsize in
        inl (mkShsplit (drop 1 ein) buf bufsize true (ret st))
    end
  else if c =? DQUOTE then
    let p := drop 1 p in
    try! res := dquote_loop (S (length p)) p (buf st) (bufsize st) in
    let '(p, buf, bufsize) := res in
    if negb (at0 p =? DQUOTE) then inr Unmatched_double
    else inl (mkShsplit (drop 1 p) buf bufsize true (ret st))
  else if memchr c [62; 60; 124] then
    if (c =? 124) && (nth 1 p 0 =? 124) then inr Unhandled
    else sh_sep (if (c =? 62) && (nth 1 p 0 =? 62) then 2 else 1) st
  else if memchr c [96; 36; 38; 59; 91; 93; 42; 40; 41] then inr Unhandled
  else if c =? BSLASH then
    let st := mkShsplit (drop 1 p) (buf st) (bufsize st) (item st) (ret st) in
    if at0 (pin st) =? 0 then inl st else sh_default st
  else sh_default st.

(** The body of the loop. *)
Definition sh_round (st : shsplit) : shsplit + shell_err :=
  try! st := sh_switch st in
  try! bufsize := BUF_RESIZE 2 (buf st) (bufsize st) in
  inl (mkShsplit (pin st) (buf st) bufsize (item st) (ret st)).

Fixpoint shellSplit_loop (fuel : nat) (st : shsplit) : shsplit + shell_err :=
  if at0 (pin st) =? 0 then inl st else
  match fuel with
  | O => inr Running
  | S fuel => try! st := sh_round st in shellSplit_loop fuel st
  end.

(** Each round takes at least a byte of the line. *)
Definition shellSplit (line : cstr) : list (cstr * Z) + shell_err :=
  try! st := shellSplit_loop (length line) (mkShsplit line [] 128 false []) in
  try! st := SAVE_ITEM st in
  inl (ret st).

(** ** The buffer is never overrun *)

(** The size is doubled only below the size that is needed, so that it stays an
    [int] when that is at most 2^30. *)
Lemma resize_loop_ok fuel n extra b :
  1 <= b → n + extra <= b + Z.of_nat fuel → n + extra <= 2 ^ 30 →
  ∃ b', resize_loop fuel n extra b = inl b' ∧ b <= b' ∧ n + extra <= b'.
Proof.
  revert b. induction fuel as [|fuel IH]; intros b Hb Hf Hn; cbn [resize_loop];
    (destruct (Z.gtb_spec n (b - extra)) as [H|H]; cbn [negb]; [|exists b; split_and!; [done|lia|lia]]); [lia|].
  destruct (Z.gtb_spec (2 * b) INT_MAX) as [Ho|_]; [unfold INT_MAX in Ho; lia|].
  destruct (IH (2 * b)) as (b' & -> & H1 & H2); [lia..|]. exists b'. split_and!; [done|lia|lia].
Qed.

Lemma BUF_RESIZE_ok extra buf b :
  0 <= extra → 1 <= b → strlen buf + extra <= 2 ^ 30 →
  ∃ b', BUF_RESIZE extra buf b = inl b' ∧ b <= b' ∧ strlen buf + extra <= b'.
Proof. intros. apply resize_loop_ok; [done| |done]. unfold strlen. lia. Qed.

Lemma put_ok bytes buf b : strlen buf + strlen bytes <= b → put bytes buf b = inl (buf ++ bytes).
Proof. intros H. unfold put. by rewrite (proj2 (Z.leb_le _ _) H). Qed.

Lemma strlen_app a b : strlen (a ++ b) = strlen a + strlen b.
Proof. unfold strlen. rewrite length_app. lia. Qed.

Lemma strlen_cons c s : strlen (c :: s) = 1 + strlen s.
Proof. unfold strlen. simpl length. lia. Qed.

Lemma strlen_nonneg s : 0 <= strlen s.
Proof. unfold strlen. lia. Qed.

Lemma strlen_take n s : strlen (take n s) <= Z.of_nat n.
Proof. unfold strlen. rewrite length_take. lia. Qed.

Ltac slen := unfold strlen in *; rewrite ?length_app, ?length_drop in *; cbn [length] in *; lia.

(** There is room for [extra] more bytes. *)
Definition room (extra : Z) (st : shsplit) : Prop := strlen (buf st) + extra <= bufsize st.

(** What is stored and what is left to read: the buffer never needs more. *)
Definition fits (st : shsplit) : Prop := strlen (buf st) + strlen (pin st) + 2 <= 2 ^ 30.

Lemma SAVE_ITEM_ok st :
  room 2 st → ∃ st', SAVE_ITEM st = inl st' ∧ room 2 st' ∧ pin st' = pin st ∧ item st' = false ∧
    bufsize st' = bufsize st ∧ strlen (buf st') <= strlen (buf st) ∧ ret st' = ret st ++ (if item st then [(buf st, 0)] else []).
Proof.
  unfold SAVE_ITEM, room. intros Hr. destruct (item st) eqn:Hi.
  - rewrite put_ok by slen. eexists. split; [done|]. cbn [buf bufsize pin item ret].
    split_and!; [slen|done|done|done|slen|done].
  - exists st. rewrite app_nil_r. split_and!; done || lia.
Qed.

Lemma strcspn_le s set : (strcspn s set <= length s)%nat.
Proof. induction s as [|c s IH]; cbn; [done|]. case_if; lia. Qed.

Lemma strcspn_progress s set :
  at0 s ≠ 0 → (0 < strcspn s set)%nat ∨ memchr (at0 s) set = true.
Proof. destruct s as [|c s]; [done|]. intros _. cbn. case_if; [by right|left; lia]. Qed.

Lemma at0_ne s : at0 s ≠ 0 → (1 <= length s)%nat.
Proof. destruct s; cbn; [done|lia]. Qed.

Lemma dquote_loop_ok fuel p buf b :
  (length p < fuel)%nat → 1 <= b → strlen buf <= b → strlen buf + strlen p + 1 <= 2 ^ 30 →
  ∃ p' buf' b', dquote_loop fuel p buf b = inl (p', buf', b') ∧ strlen buf' <= b' ∧ 1 <= b' ∧
    (length p' <= length p)%nat ∧ strlen buf' + strlen p' <= strlen buf + strlen p.
Proof.
  revert p buf b. induction fuel as [|fuel IH]; intros p buf b Hf Hb Hbuf Hfit; [lia|]. cbn [dquote_loop].
  destruct (Z.eqb_spec (at0 p) 0) as [|H0]; cbn [negb andb]; [by exists p, buf, b|].
  destruct (Z.eqb_spec (at0 p) DQUOTE) as [|HD]; cbn [negb andb]; [by exists p, buf, b|].
  set (n := strcspn p _). pose proof (strcspn_le p [DQUOTE; BSLASH]) as Hn. fold n in Hn.
  destruct (BUF_RESIZE_ok (Z.of_nat n + 1) buf b ltac:(lia) Hb ltac:(unfold strlen in *; lia)) as (b1 & -> & Hr1 & Hr2).
  pose proof (strlen_take n p). pose proof (strlen_nonneg buf).
  assert (Htk : strlen (take n p) + strlen (drop n p) = strlen p) by (by rewrite <- strlen_app, take_drop).
  rewrite put_ok by lia. pose proof (at0_ne _ H0).
  destruct (Z.eqb_spec (at0 (drop n p)) BSLASH) as [Hs|Hs].
  - rewrite put_ok by slen.
    assert (Hd : (n < length p)%nat).
    { destruct (decide (n < length p)%nat); [done|]. rewrite drop_ge in Hs by lia. done. }
    set (p2 := if (nth 1 (drop n p) 0 =? BSLASH) || (nth 1 (drop n p) 0 =? DQUOTE) then drop 1 (drop n p) else drop n p).
    assert (Hp2 : (length p2 <= length p - n)%nat) by (unfold p2; case_if; rewrite !length_drop; lia).
    destruct (IH (drop 1 p2) ((buf ++ take n p) ++ [at0 p2]) b1) as (p' & buf' & b' & -> & ? & ? & ? & Hle); [|lia| | |].
    { rewrite length_drop. lia. } { slen. } { slen. }
    exists p', buf', b'. split_and!; [done|done|done|rewrite length_drop in *; lia|slen].
  - destruct (strcspn_progress p [DQUOTE; BSLASH] H0) as [Hp|Hp].
    + fold n in Hp. edestruct (IH (drop n p) (buf ++ take n p) b1) as (p' & buf' & b' & -> & ? & ? & ? & Hle).
      { rewrite length_drop. lia. } { by transitivity b. } { rewrite strlen_app. lia. } { rewrite strlen_app. lia. }
      rewrite strlen_app in Hle. exists p', buf', b'. split_and!; [done..|rewrite length_drop in *; lia|lia].
    + exfalso. cbn in Hp. rewrite orb_false_r in Hp. apply orb_true_iff in Hp as [Hp|Hp]; apply Z.eqb_eq in Hp; [done|].
      apply Hs. unfold n. destruct p as [|c p]; [done|]. cbn in Hp. subst c. done.
Qed.

(** A part of the switch: an exit, or a state with a byte less to read and room
    for a byte. *)
Definition sw_ok (len : nat) (r : shsplit + shell_err) : Prop :=
  match r with
  | inl st' => room 0 st' ∧ 1 <= bufsize st' ∧ (length (pin st') < len)%nat ∧ fits st'
  | inr e => e = Unmatched_single ∨ e = Unmatched_double ∨ e = Unhandled
  end.

Lemma sh_sep_ok c st : room 2 st → fits st → (1 <= c)%nat → (1 <= length (pin st))%nat → sw_ok (length (pin st)) (sh_sep c st).
Proof.
  intros Hr Hfit Hc Hl. unfold sh_sep. destruct (SAVE_ITEM_ok st Hr) as (st' & -> & Hr' & Hp & _ & Hb & Hle & _).
  unfold sw_ok, room, fits in *. cbn. rewrite Hp, length_drop. pose proof (strlen_nonneg (buf st')). split_and!; slen.
Qed.

Lemma sh_default_ok st : room 2 st → fits st → (1 <= length (pin st))%nat → sw_ok (length (pin st)) (sh_default st).
Proof.
  intros Hr Hfit Hl. unfold sh_default. case_if; [apply sh_sep_ok; [done|done| |done]; case_if; lia|].
  unfold room, fits in *. rewrite put_ok by slen. unfold sw_ok, room, fits. cbn [buf bufsize pin].
  split_and!; slen.
Qed.

Lemma sw_ok_mono n m r : (n <= m)%nat → sw_ok n r → sw_ok m r.
Proof. destruct r; cbn; [|done]. intros ? (? & ? & ? & ?). split_and!; [done..|lia|done]. Qed.

Lemma strchr_len s c r : strchr s c = Some r → (1 <= length r <= length s)%nat.
Proof.
  induction s as [|x s IH]; cbn [strchr]; [done|]. case_if; [intros [= <-]; cbn; lia|].
  intros H. specialize (IH H). cbn. lia.
Qed.

Lemma sh_switch_ok st : room 2 st → fits st → at0 (pin st) ≠ 0 → sw_ok (length (pin st)) (sh_switch st).
Proof.
  intros Hr Hfit H0. pose proof (at0_ne _ H0) as Hl. unfold sh_switch.
  pose proof (strlen_nonneg (buf st)). assert (Hb2 : 2 <= bufsize st) by (unfold room in Hr; lia).
  case_if.
  { destruct (SAVE_ITEM_ok (mkShsplit (drop 1 (pin st)) (buf st) (bufsize st) (item st) (ret st)) Hr) as (st' & -> & Hr' & Hp & _ & Hb & Hle & _).
    unfold sw_ok, room, fits in *. rewrite Hp, Hb. cbn in *. rewrite length_drop. split_and!; slen. }
  case_if.
  { destruct (strchr _ _) as [ein|] eqn:He; [|by left]. apply strchr_len in He.
    rewrite length_drop in *. set (n := (length (pin st) - 1 - length ein)%nat).
    destruct (BUF_RESIZE_ok (Z.of_nat n) (buf st) (bufsize st)) as (b' & -> & H1 & H2); [lia|lia|unfold fits, strlen in *; lia|].
    pose proof (strlen_take n (drop 1 (pin st))). rewrite put_ok by lia.
    unfold sw_ok, room, fits in *. cbn. rewrite strlen_app, length_drop. split_and!; slen. }
  case_if.
  { destruct (dquote_loop_ok (S (length (drop 1 (pin st)))) (drop 1 (pin st)) (buf st) (bufsize st))
      as (p' & buf' & b' & -> & ? & ? & ? & Hle); [lia|lia|unfold room in Hr; lia|unfold fits in Hfit; slen|].
    case_if; [by right; left|]. unfold sw_ok, room, fits in *. cbn. rewrite !length_drop in *. split_and!; slen. }
  case_if. { case_if; [by right; right|]. apply sh_sep_ok; [done|done| |done]. case_if; lia. }
  case_if; [by right; right|]. case_if; [|by apply sh_default_ok]. case_if.
  - unfold sw_ok, room, fits in *. cbn in *. rewrite length_drop. split_and!; slen.
  - eapply sw_ok_mono; [|apply sh_default_ok; [exact Hr|unfold fits in *; cbn [buf pin]; slen|]]; cbn in *; rewrite length_drop in *; [lia|].
    apply Z.eqb_neq in Heqb5. apply at0_ne in Heqb5. rewrite length_drop in Heqb5. lia.
Qed.

Lemma shellSplit_loop_ok fuel st :
  (length (pin st) <= fuel)%nat → room 2 st → fits st →
  match shellSplit_loop fuel st with
  | inl st' => room 2 st'
  | inr e => e = Unmatched_single ∨ e = Unmatched_double ∨ e = Unhandled
  end.
Proof.
  revert st. induction fuel as [|fuel IH]; intros st Hf Hr Hfit; cbn [shellSplit_loop];
    (destruct (Z.eqb_spec (at0 (pin st)) 0) as [|H0]; [done|]).
  - apply at0_ne in H0. lia.
  - unfold sh_round. pose proof (sh_switch_ok st Hr Hfit H0) as Hs. destruct (sh_switch st) as [st'|e]; [|done].
    destruct Hs as (Hr' & Hb & Hlen & Hfit'). destruct (BUF_RESIZE_ok 2 (buf st') (bufsize st')) as (b' & -> & _ & H2);
      [lia|lia|unfold fits in Hfit'; slen|]. by apply IH; [cbn; lia|..].
Qed.

(** C37. On every line of at most 2^30 - 2 bytes [shellSplit] returns or takes one
    of its three documented exits: its loops end within the length of the line, no
    byte is written past the end of the growing buffer, and the [int] that holds
    the size of the buffer does not overflow when it is doubled. *)
Theorem shellSplit_safe (line : cstr) :
  strlen line + 2 <= 2 ^ 30 →
  match shellSplit line with
  | inl _ => True
  | inr e => e = Unmatched_single ∨ e = Unmatched_double ∨ e = Unhandled
  end.
Proof.
  intros Hlen. unfold shellSplit. pose proof (shellSplit_loop_ok (length line) (mkShsplit line [] 128 false [])) as H.
  destruct (shellSplit_loop _ _) as [st|e]; [|by apply H; [|vm_compute|]].
  destruct (SAVE_ITEM_ok st) as (st' & -> & _); [|done]. by apply H; [|vm_compute|].
Qed.

Lemma shellSplit_safe_witness :
  shellSplit (s2b "a > b; c"%string) = inr Unhandled ∧
  match shellSplit (s2b "a > b; c"%string) with
  | inl _ => True
  | inr e => e = Unmatched_single ∨ e = Unmatched_double ∨ e = Unhandled
  end.
Proof. split; [reflexivity|]. apply (shellSplit_safe (s2b "a > b; c"%string)). vm_compute. discriminate. Defined.

(** Past this length the size does overflow: a buffer of 2^30 bytes cannot be
    doubled. *)
Lemma BUF_RESIZE_overflow extra buf : strlen buf + extra > 2 ^ 30 → BUF_RESIZE extra buf (2 ^ 30) = inr Int_overflow.
Proof.
  intros H. unfold BUF_RESIZE. destruct (Z.to_nat _) as [|f] eqn:E; [lia|]. cbn [resize_loop].
  destruct (Z.gtb_spec (strlen buf) (2 ^ 30 - extra)); [done|lia].
Qed.

(** ** Round trips *)

(** The strings with the separator between them. *)
Fixpoint join (sp : cstr) (ss : list cstr) : cstr :=
  match ss with
  | [] => []
  | [s] => s
  | s :: ss => s ++ sp ++ join sp ss
  end.

Definition each_sep (sp : cstr) (ss : list cstr) : cstr := concat (map (λ s, s ++ sp) ss).

Lemma each_sep_join sp ss : ss ≠ [] → each_sep sp ss = join sp ss ++ sp.
Proof.
  unfold each_sep. induction ss as [|s ss IH]; [done|]. intros _. destruct ss as [|s' ss].
  - cbn. by rewrite app_nil_r.
  - cbn [map concat] in *. rewrite IH by done. cbn [join]. by rewrite <- !app_assoc.
Qed.

Lemma join_copy_ok len sep ss buf :
  strlen (buf ++ each_sep (default [] sep) ss) + 1 <= len →
  join_copy len sep ss buf = Some (buf ++ each_sep (default [] sep) ss).
Proof.
  revert buf. induction ss as [|s ss IH]; intros buf Hlen; cbn [join_copy].
  - unfold each_sep. cbn. by rewrite app_nil_r.
  - unfold each_sep in *. cbn [map concat] in *. rewrite !app_assoc in *.
    destruct sep as [sp|]; cbn [default] in *; unfold id in *.
    + rewrite (proj2 (Z.leb_le _ _)) by slen. rewrite (proj2 (Z.leb_le _ _)) by slen. by apply IH.
    + rewrite app_nil_r in *. rewrite (proj2 (Z.leb_le _ _)) by slen. by apply IH.
Qed.

Lemma join_len slen ss a :
  fold_left (λ len s, len + strlen s + Z.of_nat slen) ss a = a + strlen (each_sep (replicate slen 0) ss).
Proof.
  revert a. induction ss as [|s ss IH]; intros a; cbn [fold_left].
  - unfold each_sep, strlen. cbn. lia.
  - rewrite IH. unfold each_sep. cbn [map concat]. rewrite !strlen_app. unfold strlen at 4. rewrite length_replicate. lia.
Qed.

Lemma each_sep_len sp sp' ss : length sp = length sp' → strlen (each_sep sp ss) = strlen (each_sep sp' ss).
Proof.
  intros H. unfold each_sep. induction ss as [|s ss IH]; [done|]. cbn [map concat].
  rewrite !strlen_app, IH. unfold strlen. by rewrite H.
Qed.

Lemma joinLines_len_each sep ss : joinLines_len sep ss = strlen (each_sep (default [] sep) ss) + 1.
Proof.
  unfold joinLines_len. destruct sep as [sp|]; cbn [default]; unfold id.
  - unfold strlen at 2. by rewrite join_len, (each_sep_len (replicate (length sp) 0) sp) by apply length_replicate.
  - by rewrite (join_len 0).
Qed.

Lemma joinLines_len_join sp ss : ss ≠ [] → joinLines_len (Some sp) ss = strlen (join sp ss) + strlen sp + 1.
Proof. intros Hss. rewrite joinLines_len_each. cbn [default]. unfold id. by rewrite each_sep_join, strlen_app. Qed.

Lemma joinLines_len_perm sep ss ss' : ss ≡ₚ ss' → joinLines_len sep ss = joinLines_len sep ss'.
Proof.
  intros Hp. rewrite !joinLines_len_each. unfold each_sep. f_equal.
  induction Hp as [| | |? ? ? _ IH1 _ IH2]; cbn [map concat]; rewrite ?strlen_app; [done|lia..|by rewrite IH1].
Qed.

Lemma joinLines_join sp ss : ss ≠ [] → joinLines (Some sp) ss = Some (Some (join sp ss)).
Proof.
  intros Hss. unfold joinLines. destruct (Nat.eqb_spec (length ss) 0) as [E|_]; [by apply nil_length_inv in E|].
  rewrite join_copy_ok by (rewrite joinLines_len_each; cbn [default app]; unfold id; lia). cbn [default app]. unfold id. rewrite each_sep_join by done.
  do 2 f_equal. unfold strlen. rewrite Nat2Z.id, length_app. rewrite take_app_le by lia. apply take_ge. lia.
Qed.

Lemma joinLines_none ss : ss ≠ [] → joinLines None ss = Some (Some (concat ss)).
Proof.
  intros Hss. unfold joinLines. destruct (Nat.eqb_spec (length ss) 0) as [E|_]; [by apply nil_length_inv in E|].
  rewrite join_copy_ok by (rewrite joinLines_len_each; cbn; lia). do 2 f_equal. unfold each_sep. cbn. f_equal.
  rewrite <- (list_fmap_id ss) at 2. apply map_ext. intros s. apply app_nil_r.
Qed.

Definition avoids (set s : cstr) : Prop := Forall (λ c, memchr c set = false) s.

Lemma strcspn_app set s t :
  avoids set s → t = [] ∨ memchr (at0 t) set = true → strcspn (s ++ t) set = length s.
Proof.
  intros Hs Ht. induction Hs as [|c s Hc Hs IH]; cbn.
  - destruct t as [|c t]; [done|]. destruct Ht as [|Ht]; [done|]. cbn in *. by rewrite Ht.
  - by rewrite Hc, IH.
Qed.

Lemma strspn_app set s t :
  Forall (λ c, memchr c set = true) s → t = [] ∨ memchr (at0 t) set = false → strspn (s ++ t) set = length s.
Proof.
  intros Hs Ht. induction Hs as [|c s Hc Hs IH]; cbn.
  - destruct t as [|c t]; [done|]. destruct Ht as [|Ht]; [done|]. cbn in *. by rewrite Ht.
  - by rewrite Hc, IH.
Qed.

Section split.
Context (delim sp : cstr).
Hypothesis sp_delim : Forall (λ c, memchr c delim = true) sp.
Hypothesis sp_ne : sp ≠ [].

Lemma token_head s rest : s ≠ [] → avoids delim s → memchr (at0 (s ++ rest)) delim = false.
Proof. destruct s; [done|]. intros _ H. by apply Forall_cons in H as [H _]. Qed.

Lemma sp_head rest : memchr (at0 (sp ++ rest)) delim = true.
Proof. destruct sp; [done|]. by apply Forall_cons in sp_delim as [H _]. Qed.

Lemma splitLine_loop_join fuel ss pre tokens :
  Forall (λ s, s ≠ [] ∧ avoids delim s) ss → Forall (λ c, memchr c delim = true) pre →
  (length ss < fuel)%nat → splitLine_loop fuel (pre ++ join sp ss) delim tokens = tokens ++ ss.
Proof.
  revert fuel pre tokens. induction ss as [|s ss IH]; intros fuel pre tokens Hss Hpre Hf;
    (destruct fuel as [|fuel]; [lia|]); cbn [splitLine_loop].
  - rewrite strspn_app by (cbn; auto). rewrite drop_app_length. cbn. by rewrite app_nil_r.
  - apply Forall_cons in Hss as [[Hne Hav] Hss].
    assert (Hj : ∃ t, join sp (s :: ss) = s ++ t ∧ (t = [] ∧ ss = [] ∨ t = sp ++ join sp ss)).
    { destruct ss; [exists []|eexists]; cbn [join]; [by rewrite app_nil_r; auto|by eauto]. }
    destruct Hj as (t & -> & Ht). rewrite strspn_app by (auto using token_head). rewrite drop_app_length.
    rewrite strcspn_app; [|done|destruct Ht as [[-> _]| ->]; [auto|right; apply sp_head]].
    rewrite take_app_length, drop_app_length. destruct (Nat.eqb_spec (length s) 0) as [E|_]; [by apply nil_length_inv in E|].
    destruct Ht as [[-> ->]| ->].
    + by destruct fuel.
    + replace (tokens ++ s :: ss) with ((tokens ++ [s]) ++ ss) by (by rewrite <- app_assoc). apply IH; [done..|]. simpl in Hf. lia.
Qed.
End split.

(** [splitLine] undoes [joinLines]: non-empty strings free of the delimiters,
    joined by any non-empty run of delimiters, come back in order after the
    tokens already there, and [joinLines] stays in its buffer. *)
Theorem splitLine_joinLines (delim sp : cstr) (ss tokens : list cstr) :
  sp ≠ [] → Forall (λ c, memchr c delim = true) sp →
  ss ≠ [] → Forall (λ s, s ≠ [] ∧ Forall (λ c, memchr c delim = false) s) ss →
  ∃ line, joinLines (Some sp) ss = Some (Some line) ∧ splitLine line delim tokens = tokens ++ ss.
Proof.
  intros Hsp Hd Hne Hss. exists (join sp ss). split; [by apply joinLines_join|].
  apply (splitLine_loop_join delim sp Hd Hsp _ _ []); [done..|].
  apply Nat.lt_succ_r. clear Hne. induction Hss as [|s ss [Hs _] _ IH]; [done|].
  assert (1 <= length s)%nat by (destruct s; [done|cbn; lia]).
  destruct ss; cbn [join length] in *; [lia|]. rewrite !length_app. lia.
Qed.

Lemma splitLine_joinLines_witness :
  ∃ line, joinLines (Some [44; 32]) [[97; 98]; [99]] = Some (Some line) ∧ splitLine line [32; 44] [] = [[97; 98]; [99]].
Proof.
  apply (splitLine_joinLines [32; 44] [44; 32] [[97; 98]; [99]] []); [done|by repeat constructor|done|].
  repeat constructor; done.
Defined.

(** *** shellquote and shellSplit *)

(** The quoted string fits its buffer. *)
Lemma shellquote_ok s :
  shellquote s = Some (if Z.of_nat (strcspn s quote_set) =? strlen s then s else [DQUOTE] ++ quote_body s ++ [DQUOTE]).
Proof.
  unfold shellquote. case_if; [done|]. rewrite (proj2 (Z.leb_le _ _)); [done|].
  assert (H : strlen (quote_body s) = strlen s + quote_extra s).
  { clear. induction s as [|c s IH]; [done|]. cbn [quote_body quote_extra]. rewrite strlen_app, strlen_cons, IH.
    destruct (is_esc c); unfold strlen; cbn; lia. }
  rewrite !strlen_app, H. unfold strlen. cbn [length]. lia.
Qed.

(** The state after a word [s] was read up to [t]. *)
Definition read_to (f : nat) (st : shsplit) (s t : cstr) : Prop :=
  ∃ f' st', shellSplit_loop f st = shellSplit_loop f' st' ∧ (length t <= f')%nat ∧ pin st' = t ∧
    buf st' = buf st ++ s ∧ room 2 st' ∧ fits st' ∧ ret st' = ret st ∧ item st' = true.

(** The end of the line or a space. *)
Definition word_end (t : cstr) : Prop := t = [] ∨ at0 t = 32.

Definition plain (c : Z) : Prop := memchr c (0 :: 96 :: quote_set) = false.

Ltac plain_false H := cbn [memchr existsb] in H; rewrite !orb_false_iff, !Z.eqb_neq in H; destruct_and! H.

Lemma plain_switch c p st :
  plain c → nth 0 p 0 ≠ 60 → nth 0 p 0 ≠ 62 → pin st = c :: p → room 2 st →
  sh_switch st = inl (mkShsplit p (buf st ++ [c]) (bufsize st) true (ret st)).
Proof.
  intros Hc H1 H2 Hp Hr. unfold plain in Hc. unfold quote_set in Hc. plain_false Hc.
  unfold sh_switch. rewrite Hp. cbn [at0 hd memchr existsb]. unfold SQUOTE, DQUOTE, BSLASH.
  repeat (rewrite (proj2 (Z.eqb_neq c _)) by done; cbn [orb]).
  unfold sh_default. rewrite Hp. cbn [nth at0 hd].
  rewrite (proj2 (Z.eqb_neq (nth 0 p 0) 60)), (proj2 (Z.eqb_neq (nth 0 p 0) 62)) by done.
  rewrite andb_false_r. rewrite put_ok by (unfold room in Hr; slen). cbn. by rewrite drop_0.
Qed.

Lemma read_plain s f st t :
  Forall plain s → s ≠ [] → word_end t → pin st = s ++ t → (length (s ++ t) <= f)%nat → room 2 st → fits st →
  read_to f st s t.
Proof.
  intros Hs. revert f st. induction Hs as [|c s Hc Hs IH]; [done|]. intros f st _ Ht Hp Hf Hr Hfit.
  destruct f as [|f]; [cbn in Hf; lia|].
  pose proof Hc as Hc'. unfold plain, quote_set in Hc'. plain_false Hc'.
  assert (Hnext : nth 0 (s ++ t) 0 ≠ 60 ∧ nth 0 (s ++ t) 0 ≠ 62).
  { destruct s as [|c' s]; cbn [app nth].
    - destruct Ht as [-> |Ht]; [done|]. destruct t; [done|]. cbn in *. subst. done.
    - apply Forall_cons in Hs as [Hc2 _]. unfold plain, quote_set in Hc2. plain_false Hc2. done. }
  destruct (BUF_RESIZE_ok 2 (buf st ++ [c]) (bufsize st)) as (b1 & Eb & _ & Hb1);
    [lia|unfold room, strlen in Hr; lia|unfold fits in Hfit; rewrite Hp in Hfit; slen|].
  set (st1 := mkShsplit (s ++ t) (buf st ++ [c]) b1 true (ret st)).
  assert (E : shellSplit_loop (S f) st = shellSplit_loop f st1).
  { cbn [shellSplit_loop]. unfold sh_round. rewrite (plain_switch c (s ++ t)) by tauto. cbn [buf bufsize].
    rewrite Hp, Eb. cbn [at0 hd app]. by rewrite (proj2 (Z.eqb_neq c 0)). }
  assert (Hr1 : room 2 st1) by exact Hb1.
  assert (Hfit1 : fits st1) by (unfold fits, st1 in *; rewrite Hp in Hfit; cbn [buf pin]; slen).
  unfold read_to. rewrite E. destruct s as [|c' s'].
  - exists f, st1. split_and!; [done| |done..]. cbn in Hf. lia.
  - destruct (IH f st1) as (f' & st' & -> & H2' & H3' & H4' & H5' & H6' & H7' & H8'); [done|done|done|cbn in *; lia|done|done|].
    exists f', st'. split_and!; [done..| |done|done|done|done]. rewrite H4'. unfold st1. cbn [buf]. by rewrite <- app_assoc.
Qed.

Definition esc_set : cstr := [DQUOTE; BSLASH].

Lemma is_esc_memchr c : is_esc c = memchr c esc_set.
Proof. unfold is_esc, esc_set. cbn. by rewrite orb_false_r. Qed.

Lemma quote_body_app a s : avoids esc_set a → quote_body (a ++ s) = a ++ quote_body s.
Proof.
  intros Ha. induction Ha as [|c a Hc Ha IH]; [done|]. cbn [app quote_body]. rewrite is_esc_memchr, Hc, IH. done.
Qed.

(** The bytes up to the first that is escaped. *)
Lemma esc_split s : ∃ a r, s = a ++ r ∧ avoids esc_set a ∧ (r = [] ∨ ∃ c s', r = c :: s' ∧ (c = DQUOTE ∨ c = BSLASH)).
Proof.
  induction s as [|c s (a & r & -> & Ha & Hr)]; [exists [], []; split_and!; [done|constructor|auto]|].
  destruct (memchr c esc_set) eqn:Hc.
  - exists [], (c :: a ++ r). split_and!; [done|constructor|]. right. exists c, (a ++ r). split; [done|].
    unfold esc_set in Hc. cbn in Hc. rewrite orb_false_r in Hc. apply orb_true_iff in Hc as [Hc|Hc]; apply Z.eqb_eq in Hc; auto.
  - exists (c :: a), r. split_and!; [done|by constructor|done].
Qed.

Lemma dquote_loop_body fuel s t buf b :
  (length (quote_body s ++ DQUOTE :: t) <= fuel)%nat → 1 <= b → strlen buf <= b →
  strlen buf + strlen (quote_body s ++ DQUOTE :: t) + 1 <= 2 ^ 30 → cbytes s →
  ∃ b', dquote_loop fuel (quote_body s ++ DQUOTE :: t) buf b = inl (DQUOTE :: t, buf ++ s, b').
Proof.
  revert s buf b. induction fuel as [|fuel IH]; intros s buf b Hf Hb Hbuf Hfit Hs; [rewrite length_app in Hf; simpl in Hf; lia|].
  destruct (esc_split s) as (a & r & -> & Ha & Hr). rewrite quote_body_app in * by done. rewrite <- app_assoc in *.
  apply Forall_app in Hs as [Hsa Hsr]. set (q := quote_body r ++ DQUOTE :: t) in *.
  assert (Hq : memchr (at0 q) esc_set = true) by (unfold q; by destruct Hr as [->|(c & s' & -> & [-> | ->])]).
  destruct (decide (a = [] ∧ r = [])) as [[-> ->]|Hne].
  { exists b. unfold q. cbn [quote_body app]. rewrite app_nil_r. done. }
  cbn [dquote_loop]. assert (Hn : strcspn (a ++ q) [DQUOTE; BSLASH] = length a) by (apply strcspn_app; auto).
  rewrite Hn, take_app_length, drop_app_length.
  assert (H0 : negb (at0 (a ++ q) =? 0) && negb (at0 (a ++ q) =? DQUOTE) = true).
  { destruct a as [|c a]; cbn [app].
    - destruct Hr as [->|(c & s' & -> & [-> | ->])]; [naive_solver|done|done].
    - cbn [at0 hd]. apply Forall_cons in Ha as [Ha _]. apply Forall_cons in Hsa as [Hsa _].
      unfold esc_set in Ha. cbn in Ha. rewrite !orb_false_iff, !Z.eqb_neq in Ha.
      rewrite (proj2 (Z.eqb_neq c 0)) by lia. rewrite (proj2 (Z.eqb_neq c DQUOTE)) by tauto. done. }
  rewrite H0. destruct (BUF_RESIZE_ok (Z.of_nat (length a) + 1) buf b ltac:(lia) Hb ltac:(slen)) as (b1 & -> & Hr1 & Hr2).
  rewrite put_ok by slen. unfold q in *. rewrite app_assoc.
  destruct Hr as [->|(c & s' & -> & Hc)].
  - rewrite app_nil_r. cbn [quote_body app at0 hd]. change (DQUOTE =? BSLASH) with false. cbn iota.
    destruct (IH [] (buf ++ a) b1) as [b' Hb']; [|lia|slen|cbn [quote_body app] in *; slen|constructor|].
    + destruct a; [tauto|]. cbn in Hf |- *. rewrite length_app in Hf. cbn in Hf. lia.
    + exists b'. cbn [quote_body app] in Hb'. rewrite app_nil_r in Hb'. exact Hb'.
  - assert (Hesc : is_esc c = true) by (destruct Hc as [-> | ->]; done).
    cbn [quote_body]. rewrite Hesc. cbn [app at0 hd nth drop].
    change (BSLASH =? BSLASH) with true. cbn iota.
    assert (Hc2 : (c =? BSLASH) || (c =? DQUOTE) = true) by (destruct Hc as [-> | ->]; done). rewrite Hc2.
    cbn [at0 hd drop]. rewrite !drop_0. rewrite put_ok by slen.
    apply Forall_cons in Hsr as [_ Hsr]. destruct (IH s' ((buf ++ a) ++ [c]) b1) as [b' Hb']; [|lia|slen|cbn [quote_body] in *; rewrite Hesc in Hfit; slen|done|].
    + cbn [quote_body] in Hf. rewrite Hesc in Hf. rewrite !length_app in *. cbn in *. rewrite ?length_app in *. cbn in Hf. lia.
    + exists b'. rewrite Hb'. by rewrite <- !app_assoc.
Qed.

Lemma read_quoted s f st t :
  cbytes s → pin st = ([DQUOTE] ++ quote_body s ++ [DQUOTE]) ++ t →
  (length (pin st) <= f)%nat → room 2 st → fits st → read_to f st s t.
Proof.
  intros Hs Hp Hf Hr Hfit. cbn [app] in Hp. rewrite <- app_assoc in Hp. cbn [app] in Hp. set (p := quote_body s ++ DQUOTE :: t) in *.
  destruct f as [|f]; [rewrite Hp in Hf; cbn in Hf; lia|]. unfold room in Hr. pose proof (strlen_nonneg (buf st)).
  destruct (dquote_loop_body (S (length p)) s t (buf st) (bufsize st)) as [b' Hb']; [fold p; lia|lia|lia|unfold fits in Hfit; rewrite Hp in Hfit; fold p; slen|done|].
  destruct (dquote_loop_ok (S (length p)) p (buf st) (bufsize st)) as (p1 & buf1 & b1 & H1 & H2 & H3 & _ & H4); [lia|lia|lia|unfold fits in Hfit; rewrite Hp in Hfit; slen|].
  fold p in Hb'. rewrite H1 in Hb'. injection Hb' as -> -> <-.
  destruct (BUF_RESIZE_ok 2 (buf st ++ s) b1) as (b2 & Eb & _ & Hb2);
    [lia|done|unfold fits in Hfit; rewrite Hp in Hfit; slen|].
  set (st1 := mkShsplit t (buf st ++ s) b2 true (ret st)).
  exists f, st1. split_and!; [|rewrite Hp in Hf; unfold p in Hf; cbn in Hf; rewrite length_app in Hf; cbn in Hf; lia|done|done|exact Hb2| |done|done].
  - cbn [shellSplit_loop]. unfold sh_round, sh_switch. rewrite Hp. cbn [at0 hd].
    change (DQUOTE =? 0) with false. change (memchr DQUOTE [32; 9; 10; 13]) with false.
    change (DQUOTE =? SQUOTE) with false. change (DQUOTE =? DQUOTE) with true. cbn iota. cbn [drop]. rewrite drop_0, H1.
    cbn [at0 hd]. change (DQUOTE =? DQUOTE) with true. cbn [negb drop buf bufsize pin item ret]. by rewrite drop_0, Eb.
  - unfold fits, st1 in *. rewrite Hp in Hfit. cbn [buf pin]. slen.
Qed.

(** What [shellquote] returns. *)
Definition quoted (s : cstr) : cstr := default [] (shellquote s).

(** Strings that survive: not empty, and a backquote only next to a byte that
    makes [shellquote] use quotes. *)
Definition quotable (s : cstr) : Prop :=
  s ≠ [] ∧ cbytes s ∧ (96 ∉ s ∨ Exists (λ c, memchr c quote_set = true) s).

Lemma strcspn_full s set : strcspn s set = length s → avoids set s.
Proof.
  induction s as [|c s IH]; cbn; [constructor|]. case_if; [done|]. intros [= H]. constructor; [done|by apply IH].
Qed.

Lemma read_word s f st t :
  quotable s → word_end t → pin st = quoted s ++ t → (length (pin st) <= f)%nat → room 2 st → fits st → read_to f st s t.
Proof.
  intros (Hne & Hs & Hq) Ht Hp Hf Hr Hfit. unfold quoted in Hp. rewrite shellquote_ok in Hp. cbn [default] in Hp. unfold id in Hp.
  destruct (Z.eqb_spec (Z.of_nat (strcspn s quote_set)) (strlen s)) as [E|_]; [|by apply read_quoted].
  apply Nat2Z.inj, strcspn_full in E. apply read_plain; [|done|done|done|by rewrite <- Hp|done|done].
  apply Forall_forall. intros c Hc. unfold plain. unfold avoids in E. unfold cbytes in Hs.
  rewrite Forall_forall in E, Hs. specialize (Hs c Hc). cbn beta in Hs.
  assert (96 ∉ s) as H96.
  { destruct Hq as [Hq|Hq]; [done|]. apply Exists_exists in Hq as (x & Hx & Hx'). specialize (E x Hx). congruence. }
  change (memchr c (0 :: 96 :: quote_set)) with ((c =? 0) || ((c =? 96) || memchr c quote_set)).
  rewrite (E c Hc), (proj2 (Z.eqb_neq c 0)), (proj2 (Z.eqb_neq c 96)); [done|congruence|lia].
Qed.

Lemma quoted_head s t : quotable s → at0 (quoted s ++ t) ≠ 0.
Proof.
  intros (Hne & Hs & _). unfold quoted. rewrite shellquote_ok. cbn [default]. unfold id. case_if; [|done].
  destruct s; [done|]. apply Forall_cons in Hs as [H _]. cbn in *. lia.
Qed.

Lemma shellSplit_loop_words ss f st :
  Forall quotable ss → pin st = join [32] (map quoted ss) → (length (pin st) <= f)%nat → room 2 st → fits st →
  item st = false → buf st = [] →
  ∃ st', shellSplit_loop f st = inl st' ∧ room 2 st' ∧
    ret st' ++ (if item st' then [(buf st', 0)] else []) = ret st ++ map (λ s, (s, 0)) ss.
Proof.
  intros Hss. revert f st. induction Hss as [|s ss Hs Hss IH]; intros f st Hp Hf Hr Hfit Hi Hb.
  - exists st. destruct f; cbn [shellSplit_loop]; rewrite Hp, Hi; split_and!; done.
  - assert (∃ t, pin st = quoted s ++ t ∧ (t = [] ∧ ss = [] ∨ t = 32 :: join [32] (map quoted ss))) as (t & Hpt & Ht).
    { rewrite Hp. destruct ss; cbn [map join]; [exists []; rewrite app_nil_r; auto|]. eexists. split; [done|]. by right. }
    destruct (read_word s f st t) as (f' & st' & -> & Hf' & Hp' & Hb' & Hr' & Hfit' & Hret & Hi'); [done| |done|done|done|done|].
    { destruct Ht as [[-> _]| ->]; [by left|by right]. }
    rewrite Hb in Hb'. cbn [app] in Hb'. destruct Ht as [[-> ->]| ->].
    + exists st'. rewrite Hi', Hb', Hret. split_and!; [|done|done]. destruct f'; cbn [shellSplit_loop]; by rewrite Hp'.
    + destruct f' as [|f']; [cbn in Hf'; lia|]. cbn [shellSplit_loop]. rewrite Hp'. cbn [at0 hd]. change (32 =? 0) with false. cbn iota.
      unfold sh_round, sh_switch. rewrite Hp'. cbn [at0 hd drop]. change (memchr 32 [32; 9; 10; 13]) with true. cbn iota.
      rewrite drop_0. unfold SAVE_ITEM. cbn [item buf bufsize pin ret]. rewrite Hi', put_ok by (unfold room in Hr'; slen).
      cbn [item buf bufsize pin ret]. destruct (BUF_RESIZE_ok 2 [] (bufsize st')) as (b2 & -> & _ & Hb2);
        [lia|unfold room, strlen in Hr'; lia|by vm_compute|]. set (st1 := mkShsplit _ _ _ _ _).
      destruct (IH f' st1) as (st2 & -> & Hr2 & He); [done|cbn in *; lia|exact Hb2| |done|done|].
      { unfold fits, st1 in *. rewrite Hp' in Hfit'. cbn [buf pin]. slen. }
      exists st2. split_and!; [done|done|]. rewrite He. unfold st1. cbn [ret]. rewrite Hret, Hb'. by rewrite <- app_assoc.
Qed.

(** Quoting doubles a string and adds two quotes at most. *)
Lemma quoted_length s : (length (quoted s) <= 2 * length s + 2)%nat.
Proof.
  unfold quoted. rewrite shellquote_ok. cbn [default]. unfold id. case_if; [lia|]. rewrite !length_app. cbn [length].
  assert (length (quote_body s) <= 2 * length s)%nat; [|lia].
  clear. induction s as [|c s IH]; [done|]. cbn [quote_body]. rewrite length_app. case_if; cbn [length]; lia.
Qed.

Lemma join_quoted_length ss :
  ss ≠ [] → strlen (join [32] (map quoted ss)) + 1 <= Z.of_nat (sum_list_with (λ s, 2 * length s + 3)%nat ss).
Proof.
  induction ss as [|s ss IH]; [done|]. intros _. pose proof (quoted_length s). destruct ss as [|s2 ss]; [unfold strlen; cbn in *; lia|].
  specialize (IH ltac:(done)).
  change (join [32] (map quoted (s :: s2 :: ss))) with (quoted s ++ [32] ++ join [32] (map quoted (s2 :: ss))).
  rewrite !strlen_app. cbn [sum_list_with] in *. unfold strlen in *. cbn [length map] in *. lia.
Qed.

(** C34. Quoting.  Take strings that are not empty and hold a backquote only
    together with a byte that makes [shellquote] use quotes ([quotable]), such that
    twice their lengths plus three for each stay below 2^30.  Quoted by
    [shellquote] and joined by spaces they come back from [shellSplit], each as a
    plain word, and the quoting stays inside the buffer it computes.  The bound
    keeps the [int] sizes in range; [shellquote_not_total] shows that strings
    that are not [quotable] need not come back. *)
Theorem shellquote_shellSplit (ss : list cstr) :
  ss ≠ [] → Forall quotable ss → Z.of_nat (sum_list_with (λ s, 2 * length s + 3)%nat ss) < 2 ^ 30 →
  ∃ qs line, mapM shellquote ss = Some qs ∧ joinLines (Some [32]) qs = Some (Some line) ∧
    shellSplit line = inl (map (λ s, (s, 0)) ss).
Proof.
  intros Hne Hss Hlen. exists (map quoted ss), (join [32] (map quoted ss)). split_and!.
  - apply mapM_Some_2. clear. induction ss as [|s ss IH]; cbn [map]; constructor; [|done].
    unfold quoted. by rewrite shellquote_ok.
  - apply joinLines_join. by destruct ss.
  - unfold shellSplit. destruct (shellSplit_loop_words ss (length (join [32] (map quoted ss)))
      (mkShsplit (join [32] (map quoted ss)) [] 128 false [])) as (st' & -> & Hr & He); [done|done|done|by vm_compute| |done|done|].
    { pose proof (join_quoted_length ss Hne). unfold fits. cbn [buf pin]. unfold strlen in *. cbn [length]. lia. }
    destruct (SAVE_ITEM_ok st' Hr) as (st2 & -> & _ & _ & _ & _ & _ & ->). by rewrite He.
Qed.

Definition ex_args : list cstr :=
  [s2b "ci"%string; s2b "-yfixed `it`, \o/"%string; s2b "a b.c"%string].

Lemma shellquote_shellSplit_witness :
  ∃ qs line, mapM shellquote ex_args = Some qs ∧ joinLines (Some [32]) qs = Some (Some line) ∧
    shellSplit line = inl (map (λ s, (s, 0)) ex_args).
Proof.
  apply (shellquote_shellSplit ex_args); [done| |by vm_compute].
  unfold quotable, cbytes. apply (bool_decide_unpack _). by vm_compute.
Defined.

(** The doc comment of [shellquote] promises this for all strings.  An empty
    string is lost, and a lone backquote is passed bare and stops [shellSplit]. *)
Theorem shellquote_not_total :
  (shellquote [] = Some [] ∧ shellSplit [] = inl []) ∧
  (shellquote [96] = Some [96] ∧ shellSplit [96] = inr Unhandled).
Proof. done. Qed.

(** [shellSplit] applies the redirection rule to an escaped digit too: the digit
    of a backslash followed by [2>b] is not literal. *)
Theorem shellSplit_escaped_digit :
  shellSplit (s2b "\2>b"%string) = inl [([50; 62], 1); ([98], 0)].
Proof. done. Qed.
