(* ===== verification/Path.v ===== *)
(** * Path: cleaning and relating path names

    [basenm] and [cleanPath] of src/src/libc/utils/cleanpath.c, [concat_path] of
    src/src/libc/utils/concat_path.c, [relpath] of src/src/libc/utils/relpath.c and
    [dirname] of src/src/libc/utils/dirname.c.

    A path means a walk in a tree of directories, and the theorems say that the
    functions keep what the path means.  Pointers that run backwards over a string
    are the reversed string up to the pointer. *)

From S2P Require Import Prelude CStr.
From stdpp Require Import base numbers list strings.
From Stdlib Require Import ZArith Lia.

Local Open Scope Z_scope.

Local Open Scope bk_scope.

Definition MAXPATH : nat := 1024.

Definition SLASH : Z := 47.

Definition DOT : Z := 46.

Definition COLON : Z := 58.

Definition is_slash (c : Z) : bool := c =? SLASH.

(** [while (p >= top && *p == '/') p--;] *)
Abbreviation skip_slashes := (strip_front is_slash).

(** [while (p >= top && *p != '/') p--;] *)
Abbreviation skip_name := (strip_front (λ c, negb (is_slash c))).

(** ** basenm *)

Definition basenm (s : cstr) : option cstr :=
  (* [t--] of an empty string leaves the string *)
  assert! negb (bool_decide (s = []));
  let back := skip_name (reverse s) in
  Some (drop (length back) s).

(** ** cleanPath *)

(** [*r-- = c]: [r] is what is in the buffer after the pointer.  The buffer holds
    MAXPATH bytes, the last of them is NUL. *)
Definition put_back (c : Z) (r : cstr) : option cstr := assert! (length r <? MAXPATH - 1)%nat; Some (c :: r).

(** [while ((p >= top) && ( *p != '/')) *r-- = *p--;] *)
Fixpoint clean_copy (q r : cstr) : option (cstr * cstr) :=
  match q with
  | [] => Some (q, r)
  | c :: q' => if is_slash c then Some (q, r) else let? r := put_back c r in clean_copy q' r
  end.

(** The scan: [q] is the path from [top] to [p], backwards. *)
Fixpoint clean_loop (fuel : nat) (q r : cstr) (dotCnt : nat) : option (cstr * nat) :=
  match q with
  | [] => Some (r, dotCnt)
  | _ =>
      match fuel with
      | O => None
      | S fuel =>
          if bool_decide (q = [DOT]) then Some (r, dotCnt)
          else if bool_decide (q = [DOT; DOT]) then Some (r, S dotCnt)
          else if bool_decide (take 3 q = [DOT; DOT; SLASH]) then clean_loop fuel (skip_slashes (drop 3 q)) r (S dotCnt)
          else if bool_decide (take 2 q = [DOT; SLASH]) then clean_loop fuel (skip_slashes (drop 2 q)) r dotCnt
          else match dotCnt with
            | S dotCnt => clean_loop fuel (skip_slashes (skip_name q)) r dotCnt
            | O =>
                let? r := if bool_decide (r = []) then Some r else put_back SLASH r in
                let? (q, r) := clean_copy q r in
                clean_loop fuel (skip_slashes q) r O
            end
      end
  end.

(** [while (dotCnt--) ...] *)
Fixpoint put_dots (dotCnt : nat) (r : cstr) : option cstr :=
  match dotCnt with
  | O => Some r
  | S dotCnt =>
      let? r := if negb (bool_decide (r = [])) && negb (is_slash (at0 r)) then put_back SLASH r else Some r in
      let? r := put_back DOT r in
      let? r := put_back DOT r in
      put_dots dotCnt r
  end.

(** [path[0] && path[1] == ':'] *)
Definition has_drive (path : cstr) : bool := match path with _ :: c :: _ => c =? COLON | _ => false end.

Definition top_of (path : cstr) : cstr := if has_drive path then drop 2 path else path.

Definition is_abs (top : cstr) : bool := is_slash (at0 top).

Definition cleanPath (path : cstr) : option cstr :=
  let top := top_of path in
  let? (r, dotCnt) := clean_loop (length top) (skip_slashes (reverse top)) [] O in
  let? r := if bool_decide (r = []) || negb (is_abs top) then put_dots dotCnt r else Some r in
  let? r := if is_abs top then put_back SLASH r else Some r in
  let? r := if has_drive path then let? r := put_back COLON r in put_back (at0 path) r else Some r in
  match r with
  | [] => Some [DOT]
  | _ => Some (if has_drive r && (length r =? 2)%nat then r ++ [SLASH] else r)
  end.

(** ** concat_path *)

(** [buf] is another buffer than [second], or the same as [first]. *)
Definition concat_path (first second : cstr) : cstr :=
  match first with
  | [] => second
  | _ =>
      match second with
      | [] => first
      | c :: rest =>
          let len := length first in
          let buf := if bool_decide (drop (len - 2) first = [SLASH; DOT]) then take (len - 1) first else first in
          let second := if is_slash c then rest else second in
          let buf := if is_slash (default 0 (last buf)) then buf else buf ++ [SLASH] in
          buf ++ second
      end
  end.

(** [buf] is [second]. *)
Definition concat_path_front (first buf : cstr) : cstr :=
  match first, buf with
  | [], _ => buf
  | _, [] => first
  | _, _ => first ++ [SLASH] ++ buf
  end.

(** ** relpath *)

(** The common start of both paths: its length and the last slash in it. *)
Fixpoint common_start (b p : cstr) (i : nat) (lsb : option nat) : nat * option nat :=
  match b, p with
  | x :: b, y :: p => if x =? y then common_start b p (S i) (if is_slash x then Some i else lsb) else (i, lsb)
  | _, _ => (i, lsb)
  end.

(** [while ( *b) if ( *b++ == '/') { assert( *b); strcpy(r, "../"); r += 3; }] *)
Fixpoint rel_ups (b r : cstr) : option cstr :=
  match b with
  | [] => Some r
  | c :: b =>
      if is_slash c then
        assert! negb (bool_decide (b = []));
        assert! (length r + 3 <? MAXPATH)%nat;
        rel_ups b (r ++ [DOT; DOT; SLASH])
      else rel_ups b r
  end.

Definition relpath (base path : cstr) : option cstr :=
  let '(i, lsb) := common_start base path 0 None in
  let? lsb := lsb in
  let b := drop i base in
  let p := drop i path in
  let k :=
    let? r := rel_ups (if bool_decide (p = []) && is_slash (at0 b) then b else drop lsb base) [] in
    let p := if bool_decide (p = []) && is_slash (at0 b) then p else drop (lsb + 1) path in
    assert! (length r + length p <? MAXPATH)%nat;
    let r := r ++ p in
    Some (if (1 <? length r)%nat && is_slash (default 0 (last r)) then take (length r - 1) r else r) in
  match b with
  | [] =>
      match p with
      | [] => Some [DOT]
      | _ =>
          let p := if (i =? S lsb)%nat then drop (i - 1) path else p in
          if is_slash (at0 p) then Some (drop 1 p) else k
      end
  | _ => k
  end.

(** ** dirname *)

(** On the path backwards: without its trailing slashes, its last name and the
    slashes before that. *)
Definition dirname (path : cstr) : cstr :=
  match skip_slashes path with
  | [] => if bool_decide (path = []) then [DOT] else [SLASH]
  | _ =>
      let q := skip_slashes (reverse path) in
      match skip_name q with
      | [] => [DOT]
      | q =>
          match skip_slashes q with
          | [] => [SLASH]
          | q => reverse q
          end
      end
  end.

(** ** What a path means *)

(** The names between slashes. *)
Fixpoint split_slash (s : cstr) : list cstr :=
  match s with
  | [] => [[]]
  | c :: s => if is_slash c then [] :: split_slash s else match split_slash s with w :: ws => (c :: w) :: ws | [] => [[c]] end
  end.

Definition comps (s : cstr) : list cstr := List.filter (λ w, negb (bool_decide (w = []))) (split_slash s).

Definition dots : cstr := [DOT; DOT].

(** A tree of directories: going up from a directory leads to where it was entered
    from, and the root has no parent but itself. *)
Record tree (D : Type) := mkTree {
  t_root : D;
  t_child : D → cstr → D;
  t_parent : D → D;
  t_up : ∀ d n, t_parent (t_child d n) = d;
  t_top : t_parent t_root = t_root
}.

Arguments t_root {_} _. Arguments t_child {_} _. Arguments t_parent {_} _. Arguments t_up {_} _. Arguments t_top {_} _.

Definition enter {D} (t : tree D) (d : D) (w : cstr) : D :=
  if bool_decide (w = [DOT]) then d else if bool_decide (w = dots) then t_parent t d else t_child t d w.

Definition walk {D} (t : tree D) (d : D) (ws : list cstr) : D := fold_left (enter t) ws d.

(** Where a path without a drive letter leads from the directory [cwd]. *)
Definition resolve {D} (t : tree D) (cwd : D) (path : cstr) : D :=
  walk t (if is_abs path then t_root t else cwd) (comps path).

Definition name (w : cstr) : Prop := w ≠ [] ∧ Forall (λ c, c ≠ SLASH) w.

Definition plain (w : cstr) : Prop := name w ∧ w ≠ [DOT] ∧ w ≠ dots.

Fixpoint joined (ws : list cstr) : cstr :=
  match ws with
  | [] => []
  | [w] => w
  | w :: ws => w ++ SLASH :: joined ws
  end.

(** The names [cleanPath] keeps of the names after [w], and the directories it
    still has to leave out. *)
Definition clean_step (w : cstr) (a : nat * list cstr) : nat * list cstr :=
  if bool_decide (w = [DOT]) then a
  else if bool_decide (w = dots) then (S (fst a), snd a)
  else match fst a with
    | S d => (d, snd a)
    | O => (O, w :: snd a)
    end.

(** ** Names and strings *)

Lemma is_slash_spec c : is_slash c = true ↔ c = SLASH.
Proof. apply Z.eqb_eq. Qed.

Lemma split_slash_ne s : split_slash s ≠ [].
Proof. destruct s as [|c s]; [done|]. cbn [split_slash]. destruct (is_slash c); [done|]. by destruct (split_slash s). Qed.

Lemma split_slash_app a b : split_slash (a ++ SLASH :: b) = split_slash a ++ split_slash b.
Proof.
  induction a as [|c a IH]; [done|]. cbn [app split_slash]. rewrite IH. destruct (is_slash c); [done|].
  pose proof (split_slash_ne a). by destruct (split_slash a).
Qed.

Lemma comps_app a b : comps (a ++ SLASH :: b) = comps a ++ comps b.
Proof. unfold comps. by rewrite split_slash_app, List.filter_app. Qed.

Lemma split_slash_name w : Forall (λ c, c ≠ SLASH) w → split_slash w = [w].
Proof.
  induction 1 as [|c w Hc _ IH]; [done|]. cbn [split_slash]. rewrite IH. unfold is_slash. by destruct (Z.eqb_spec c SLASH).
Qed.

Lemma comps_name w : name w → comps w = [w].
Proof. intros [Hne Hw]. unfold comps. rewrite split_slash_name by done. cbn. by rewrite bool_decide_eq_false_2. Qed.

Lemma comps_slash s : comps (SLASH :: s) = comps s.
Proof. apply (comps_app [] s). Qed.

Lemma comps_names s : Forall name (comps s).
Proof.
  unfold comps. assert (H : Forall (Forall (λ c, c ≠ SLASH)) (split_slash s)).
  { induction s as [|c s IH]; [by repeat constructor|]. cbn [split_slash]. destruct (is_slash c) eqn:E; [by constructor|].
    assert (c ≠ SLASH) by (intros ->; done). destruct (split_slash s); [by repeat constructor|]. apply Forall_cons in IH as [? ?].
    constructor; [by constructor|done]. }
  induction H as [|w ws Hw _ IH]; [constructor|]. cbn [List.filter]. case_bool_decide; [done|]. by constructor.
Qed.

Lemma comps_joined ws : Forall name ws → comps (joined ws) = ws.
Proof.
  induction 1 as [|w ws Hw Hws IH]; [done|]. destruct ws as [|w' ws]; [by apply comps_name|].
  change (joined (w :: w' :: ws)) with (w ++ SLASH :: joined (w' :: ws)). rewrite comps_app, IH. by rewrite comps_name.
Qed.

Lemma comps_skip q : comps (reverse (skip_slashes q)) = comps (reverse q).
Proof.
  induction q as [|c q IH]; [done|]. cbn [strip_front]. destruct (is_slash c) eqn:E; [|done]. apply is_slash_spec in E as ->.
  rewrite IH, reverse_cons. rewrite comps_app. by rewrite app_nil_r.
Qed.

(** A string that does not start with a slash is a name and what follows it. *)
Lemma name_split q : q ≠ [] → at0 q ≠ SLASH → ∃ w rest, q = w ++ rest ∧ name w ∧ (rest = [] ∨ ∃ t, rest = SLASH :: t).
Proof.
  intros Hne Hh. destruct q as [|c q]; [done|]. cbn in Hh. clear Hne.
  assert (H : ∃ w rest, q = w ++ rest ∧ Forall (λ c, c ≠ SLASH) w ∧ (rest = [] ∨ ∃ t, rest = SLASH :: t)).
  { induction q as [|x q IH]; [by exists [], []; auto|]. destruct (decide (x = SLASH)) as [->|Hx]; [exists [], (SLASH :: q); eauto|].
    destruct IH as (w & rest & -> & Hw & Hr). exists (x :: w), rest. split_and!; [done|by constructor|done]. }
  destruct H as (w & rest & -> & Hw & Hr). exists (c :: w), rest. split_and!; [done|split; [done|by constructor]|done].
Qed.

Lemma skip_head q : at0 (skip_slashes q) ≠ SLASH.
Proof. induction q as [|c q IH]; [done|]. cbn [strip_front]. destruct (is_slash c) eqn:E; [done|]. cbn. intros ->. done. Qed.

Lemma skip_length q : (length (skip_slashes q) <= length q)%nat.
Proof. induction q as [|c q IH]; [done|]. cbn [strip_front]. destruct (is_slash c); cbn; lia. Qed.

Lemma name_reverse w : name w → name (reverse w).
Proof.
  intros [Hne Hw]. split; [|by apply Forall_reverse]. intros H. apply Hne. apply (f_equal reverse) in H. by rewrite reverse_involutive in H.
Qed.

Lemma skip_name_app w rest : name w → (rest = [] ∨ ∃ t, rest = SLASH :: t) → skip_name (w ++ rest) = rest.
Proof.
  intros [_ Hw] Hr. induction Hw as [|c w Hc _ IH]; cbn [app strip_front].
  - destruct Hr as [->|[t ->]]; done.
  - unfold is_slash at 1. by destruct (Z.eqb_spec c SLASH).
Qed.

(** ** The scan of [cleanPath] *)

(** What names take in a path. *)
Fixpoint weight (ws : list cstr) : nat := match ws with [] => 0 | w :: ws => S (length w) + weight ws end%nat.

Lemma weight_joined ws : ws ≠ [] → S (length (joined ws)) = weight ws.
Proof.
  induction ws as [|w ws IH]; [done|]. intros _. destruct ws as [|w' ws]; [cbn; lia|].
  change (joined (w :: w' :: ws)) with (w ++ SLASH :: joined (w' :: ws)). rewrite length_app. cbn [length]. rewrite IH by done. cbn. lia.
Qed.

Lemma weight_comps s : (weight (comps s) <= S (length s))%nat.
Proof.
  assert (H : weight (split_slash s) = S (length s)).
  { induction s as [|c s IH]; [done|]. cbn [split_slash]. destruct (is_slash c); [cbn in *; lia|].
    pose proof (split_slash_ne s). destruct (split_slash s); [done|]. cbn in *. lia. }
  rewrite <- H. unfold comps. clear H. induction (split_slash s) as [|w ws IH]; [done|]. cbn [List.filter].
  case_bool_decide; cbn in *; lia.
Qed.

Lemma joined_cons w ws : joined (w :: ws) = match ws with [] => w | _ => w ++ SLASH :: joined ws end.
Proof. by destruct ws. Qed.

Lemma joined_nil ws : Forall name ws → joined ws = [] ↔ ws = [].
Proof.
  intros H. split; [|by intros ->]. destruct H as [|w ws [Hw _] _]; [done|]. rewrite joined_cons. destruct ws; [done|]. by intros [-> _]%app_nil.
Qed.

Lemma clean_copy_name w rest r : name w → (rest = [] ∨ ∃ t, rest = SLASH :: t) → (length w + length r < MAXPATH)%nat →
  clean_copy (w ++ rest) r = Some (rest, reverse w ++ r).
Proof.
  intros [_ Hw] Hr. revert r. induction Hw as [|c w Hc _ IH]; intros r Hl; cbn [app].
  - destruct Hr as [->|[t ->]]; done.
  - cbn [clean_copy length] in *. unfold is_slash. destruct (Z.eqb_spec c SLASH); [done|]. unfold put_back.
    destruct (Nat.ltb_spec (length r) (MAXPATH - 1)); [|lia]. rewrite IH by (cbn; lia). by rewrite reverse_cons, <- app_assoc.
Qed.

Lemma reverse_dots w : reverse w = dots ↔ w = dots.
Proof. split; intros H; [|by subst]. apply (f_equal reverse) in H. by rewrite reverse_involutive in H. Qed.

Lemma reverse_dot w : reverse w = [DOT] ↔ w = [DOT].
Proof. split; intros H; [|by subst]. apply (f_equal reverse) in H. by rewrite reverse_involutive in H. Qed.

(** One name of the scan. *)
Lemma clean_loop_name fuel w rest r d : name w → (rest = [] ∨ ∃ t, rest = SLASH :: t) →
  clean_loop (S fuel) (w ++ rest) r d =
    if bool_decide (w = [DOT]) then clean_loop fuel (skip_slashes rest) r d
    else if bool_decide (w = dots) then clean_loop fuel (skip_slashes rest) r (S d)
    else match d with
      | S d => clean_loop fuel (skip_slashes rest) r d
      | O =>
          let? r := if bool_decide (r = []) then Some r else put_back SLASH r in
          let? (q, r) := clean_copy (w ++ rest) r in
          clean_loop fuel (skip_slashes q) r O
      end.
Proof.
  intros Hw Hr. pose proof Hw as [Hne Hns].
  assert (Hq : ∃ c q, w ++ rest = c :: q) by (destruct w; [done|cbn; eauto]). destruct Hq as (c & q & Eq). cbn [clean_loop]. rewrite Eq at 1. cbv iota.
  assert (Hend : ∀ r d, clean_loop fuel (skip_slashes []) r d = Some (r, d)) by (intros; by destruct fuel).
  destruct (decide (w = [DOT])) as [->|H1].
  { rewrite (bool_decide_eq_true_2 ([DOT] = [DOT])) by done. destruct Hr as [->|[t ->]]; [|done].
    rewrite bool_decide_eq_true_2 by done. by rewrite Hend. }
  rewrite (bool_decide_eq_false_2 (w = [DOT])) by done.
  destruct (decide (w = dots)) as [->|H2].
  { rewrite (bool_decide_eq_true_2 (dots = dots)) by done. destruct Hr as [->|[t ->]]; [|done]. by rewrite Hend. }
  rewrite (bool_decide_eq_false_2 (w = dots)) by done.
  assert (Ht : ∀ v, Forall (λ c, c ≠ SLASH) v → v ≠ w → take (length v + 1) (w ++ rest) ≠ v ++ [SLASH]).
  { intros v Hv Hvw E. apply Hvw. revert v Hv Hvw E. clear -Hns Hr. induction Hns as [|x w Hx _ IH]; intros v Hv Hvw E.
    - destruct Hv as [|y v Hy _]; [done|]. destruct Hr as [->|[t ->]]; [done|]. cbn in E. injection E as E. congruence.
    - destruct Hv as [|y v Hy Hv]; cbn in E; [injection E as E; congruence|]. injection E as -> E. f_equal. apply IH; [done|congruence|done]. }
  rewrite bool_decide_eq_false_2 by (destruct Hr as [->|[t ->]]; [by rewrite app_nil_r|intros E; by destruct w as [|? []]]).
  rewrite bool_decide_eq_false_2 by (destruct Hr as [->|[t ->]]; [by rewrite app_nil_r|intros E; destruct w as [|? [|? []]]; try done; injection E; intros; subst; by inversion Hns]).
  rewrite (bool_decide_eq_false_2 (take 3 _ = _)) by (apply (Ht dots); [by repeat constructor|done]).
  rewrite (bool_decide_eq_false_2 (take 2 _ = _)) by (apply (Ht [DOT]); [by repeat constructor|done]).
  rewrite (skip_name_app w rest) by done. done.
Qed.

Definition cleaned (ws : list cstr) (d : nat) (ns : list cstr) : nat * list cstr := fold_right clean_step (d, ns) ws.

Lemma cleaned_snoc ws w d ns : cleaned (ws ++ [w]) d ns = cleaned ws (fst (clean_step w (d, ns))) (snd (clean_step w (d, ns))).
Proof. unfold cleaned. rewrite fold_right_app. cbn [fold_right]. by destruct (clean_step w (d, ns)). Qed.

Lemma clean_loop_ok fuel : ∀ q ns d, (length q <= fuel)%nat → at0 q ≠ SLASH → Forall name ns → Forall (λ n, n ≠ dots ∧ n ≠ [DOT]) ns →
  (weight (comps (reverse q)) + weight ns <= MAXPATH)%nat →
  let '(d', ns') := cleaned (comps (reverse q)) d ns in
  clean_loop fuel q (joined ns) d = Some (joined ns', d') ∧ Forall plain ns'.
Proof.
  induction fuel as [|fuel IH]; intros q ns d Hl Hh Hn Hp Hw.
  { destruct q; [|cbn in Hl; lia]. cbn. split; [done|]. rewrite Forall_forall in *. intros x Hx. split; [by apply Hn|]. apply Hp in Hx as []. done. }
  destruct (decide (q = [])) as [->|Hq]; [cbn; split; [done|]; rewrite Forall_forall in *; intros x Hx; split; [by apply Hn|]; apply Hp in Hx as []; done|].
  destruct (name_split q Hq Hh) as (w & rest & -> & Hwn & Hr). rewrite clean_loop_name by done.
  assert (Ec : comps (reverse (w ++ rest)) = comps (reverse (skip_slashes rest)) ++ [reverse w]).
  { destruct Hr as [->|[t ->]].
    - rewrite app_nil_r. by apply comps_name, name_reverse.
    - cbn [strip_front]. unfold is_slash at 1. cbn [Z.eqb SLASH Pos.eqb]. rewrite comps_skip, reverse_app, reverse_cons, <- app_assoc. cbn [app].
      rewrite comps_app. f_equal. by apply comps_name, name_reverse. }
  assert (Hlen : (length (skip_slashes rest) <= fuel)%nat).
  { pose proof (skip_length rest). rewrite length_app in Hl. destruct w; [by destruct Hwn|]. cbn in Hl. lia. }
  rewrite Ec in Hw |- *. rewrite cleaned_snoc. pose proof (skip_head rest) as Hh'.
  assert (Hwa : ∀ a b, weight (a ++ b) = (weight a + weight b)%nat) by (induction a; intros; cbn; [done|rewrite IHa; lia]).
  rewrite Hwa in Hw. cbn [weight] in Hw. unfold clean_step at 1 2. cbn [fst snd].
  rewrite (bool_decide_ext _ _ (reverse_dot w)), (bool_decide_ext _ _ (reverse_dots w)).
  case_bool_decide as H1; [apply IH; (done || lia)|]. case_bool_decide as H2; [apply IH; (done || lia)|].
  destruct d as [|d]; [|apply IH; (done || lia)]. cbn [fst snd].
  assert (Hns : Forall name (reverse w :: ns)) by (constructor; [by apply name_reverse|done]).
  assert (Hr2 : ∃ r, (if bool_decide (joined ns = []) then Some (joined ns) else put_back SLASH (joined ns)) = Some r ∧
    reverse w ++ r = joined (reverse w :: ns) ∧ (length w + length r < MAXPATH)%nat).
  { rewrite length_reverse in Hw. rewrite joined_cons. rewrite (bool_decide_ext _ _ (joined_nil ns Hn)). case_bool_decide as Hnil.
    - subst ns. exists []. split_and!; [done|by rewrite app_nil_r|cbn in *; lia].
    - pose proof (weight_joined ns Hnil) as Hj. unfold put_back. destruct (Nat.ltb_spec (length (joined ns)) (MAXPATH - 1)); [|unfold MAXPATH in *; lia].
      eexists. split; [done|]. split; [by destruct ns|]. cbn [length]. lia. }
  destruct Hr2 as (r & -> & Er & Hrl). rewrite clean_copy_name by done. rewrite Er. apply IH; [done|done|done| |cbn [weight]; lia].
  constructor; [|done]. split; [by rewrite reverse_dots|by rewrite reverse_dot].
Qed.

Lemma cleaned_weight ws d ns : let '(d', ns') := cleaned ws d ns in (3 * d' + weight ns' <= weight ws + 3 * d + weight ns)%nat.
Proof.
  induction ws as [|w ws IH]; cbn [cleaned fold_right weight]; [lia|]. unfold cleaned in IH. destruct (fold_right clean_step (d, ns) ws) as [d' ns'].
  unfold clean_step. case_bool_decide as H0; [lia|]. cbn [fst snd]. case_bool_decide as H; [subst w; cbn [length dots]; lia|]. destruct d'; cbn [weight]; lia.
Qed.

Lemma dots_name : name dots.
Proof. split; [done|]. by repeat constructor. Qed.

Lemma weight_dots d ns : weight (replicate d dots ++ ns) = (3 * d + weight ns)%nat.
Proof. induction d as [|d IH]; [done|]. cbn [replicate app weight length dots]. rewrite IH. cbn. lia. Qed.

Lemma joined_head w ws : name w → at0 (joined (w :: ws)) ≠ SLASH ∧ joined (w :: ws) ≠ [].
Proof. intros [Hne Hw]. rewrite joined_cons. destruct Hw as [|c w Hc Hw]; [done|]. by destruct ws. Qed.

Lemma put_back_ok c r : (S (length r) < MAXPATH)%nat → put_back c r = Some (c :: r).
Proof. intros H. unfold put_back. destruct (Nat.ltb_spec (length r) (MAXPATH - 1)); [done|unfold MAXPATH in *; lia]. Qed.

Lemma put_dots_ok d : ∀ ns, Forall name ns → (3 * d + weight ns <= MAXPATH)%nat → put_dots d (joined ns) = Some (joined (replicate d dots ++ ns)).
Proof.
  induction d as [|d IH]; intros ns Hn Hw; [done|]. cbn [put_dots].
  assert (Hnext : put_dots d (joined (dots :: ns)) = Some (joined (replicate (S d) dots ++ ns))).
  { rewrite IH; [|constructor; [apply dots_name|done]|cbn [weight length dots]; lia].
    by rewrite (replicate_S_end d), <- app_assoc. }
  rewrite joined_cons in Hnext. destruct ns as [|w ns].
  - cbn [joined] in *. rewrite bool_decide_eq_true_2 by done. cbn [negb andb]. rewrite !put_back_ok by (cbn in *; unfold MAXPATH in *; lia). exact Hnext.
  - pose proof (weight_joined (w :: ns) ltac:(done)) as Hj. destruct (joined_head w ns) as [H1 H2]; [by inversion Hn|].
    rewrite bool_decide_eq_false_2 by done. assert (is_slash (at0 (joined (w :: ns))) = false) as -> by (apply not_true_iff_false; by rewrite is_slash_spec).
    cbn [negb andb]. rewrite put_back_ok by lia. rewrite put_back_ok by (cbn [length]; lia). rewrite put_back_ok by (cbn [length]; lia). exact Hnext.
Qed.

(** The text without the rule for an empty path. *)
Definition body (abs : bool) (d : nat) (ns : list cstr) : cstr := (if abs then [SLASH] else []) ++ joined (replicate d dots ++ ns).

Definition render (abs : bool) (d : nat) (ns : list cstr) : cstr := match body abs d ns with [] => [DOT] | b => b end.

(** The directories left out above the root are forgotten. *)
Definition keep_dots (abs : bool) (d : nat) (ns : list cstr) : nat := if abs && negb (bool_decide (ns = [])) then 0%nat else d.

Lemma length_text abs d ns : (length (body abs d ns) <= (if abs then 3 * d + weight ns else 3 * d + weight ns - 1) ∨ abs = true ∧ length (body abs d ns) = 1)%nat.
Proof.
  unfold body. rewrite length_app, <- weight_dots. destruct (decide (replicate d dots ++ ns = [])) as [->|Hne]; [destruct abs; cbn; lia|].
  pose proof (weight_joined _ Hne). destruct abs; cbn [length]; lia.
Qed.

(** What [cleanPath] does on every path. *)
Lemma cleanPath_body path : (length path < MAXPATH)%nat →
  let top := top_of path in let abs := is_abs top in let '(d, ns) := cleaned (comps top) 0 [] in
  let b := (if has_drive path then [at0 path; COLON] else []) ++ body abs (keep_dots abs d ns) ns in
  cleanPath path = Some (match b with [] => [DOT] | _ => if has_drive b && (length b =? 2)%nat then b ++ [SLASH] else b end) ∧
  Forall plain ns ∧ (length b <= length path)%nat.
Proof.
  intros Hl top abs. assert (Hw : (weight (comps top) <= length top + (if abs then 0 else 1))%nat).
  { subst abs. unfold is_abs. destruct top as [|c s]; [cbn; lia|]. cbn [at0 hd]. destruct (is_slash c) eqn:E; [|pose proof (weight_comps (c :: s)); lia].
    apply is_slash_spec in E as ->. rewrite comps_slash. pose proof (weight_comps s). cbn [length]. lia. }
  assert (Htl : (length top + (if has_drive path then 2 else 0) = length path)%nat).
  { unfold top, top_of. destruct path as [|x [|y s]]; [done|done|]. cbn [has_drive]. destruct (y =? COLON); cbn; rewrite ?drop_0; lia. }
  pose proof (clean_loop_ok (length top) (skip_slashes (reverse top)) [] 0) as Hloop. rewrite comps_skip, reverse_involutive in Hloop.
  pose proof (cleaned_weight (comps top) 0 []) as Hcw. destruct (cleaned (comps top) 0 []) as [d ns] eqn:Ec. cbn [weight] in *.
  destruct Hloop as [Hloop Hp]; [etrans; [apply skip_length|by rewrite length_reverse]|apply skip_head|by constructor|by constructor|destruct abs; lia|].
  assert (Hn : Forall name ns) by (eapply Forall_impl; [exact Hp|]; by intros w [? _]). cbn [joined] in Hloop.
  unfold cleanPath. fold top. fold abs. rewrite Hloop. rewrite (bool_decide_ext _ _ (joined_nil ns Hn)).
  set (e := keep_dots abs d ns).
  assert (He : (if bool_decide (ns = []) || negb abs then put_dots d (joined ns) else Some (joined ns)) = Some (joined (replicate e dots ++ ns))).
  { subst e. unfold keep_dots. rewrite orb_comm. destruct (bool_decide (ns = [])) eqn:E, abs; cbn [orb andb negb]; try done; apply put_dots_ok; (done || lia). }
  rewrite He. assert (Hew : (3 * e + weight ns <= length top + (if abs then 0 else 1))%nat) by (subst e; unfold keep_dots; destruct (_ && _); lia).
  pose proof (length_text abs e ns) as Hlb. unfold body in Hlb |- *. set (j := joined (replicate e dots ++ ns)) in *.
  assert (Habs : abs = true → (1 <= length top)%nat) by (subst abs; unfold is_abs; destruct top; [done|cbn; lia]).
  assert (Hj : (length ((if abs then [SLASH] else []) ++ j) <= length top)%nat) by (destruct abs; [specialize (Habs eq_refl)|]; lia).
  assert (Ha : (if abs then put_back SLASH j else Some j) = Some ((if abs then [SLASH] else []) ++ j)).
  { destruct abs; [|done]. apply put_back_ok. cbn [length app] in Hj. destruct (has_drive path); lia. }
  rewrite Ha. set (k := (if abs then [SLASH] else []) ++ j) in *.
  assert (Hd : (if has_drive path then let? r := put_back COLON k in put_back (at0 path) r else Some k) = Some ((if has_drive path then [at0 path; COLON] else []) ++ k)).
  { destruct (has_drive path); [|done]. rewrite put_back_ok by lia. apply put_back_ok. cbn [length]. lia. }
  rewrite Hd. split; [by destruct (_ ++ k)|]. split; [done|]. rewrite length_app. destruct (has_drive path); cbn [length]; lia.
Qed.

(** ** What is left of a path *)

Section Walk.

Context {D : Type} (t : tree D).

Lemma walk_app x a b : walk t x (a ++ b) = walk t (walk t x a) b.
Proof. apply fold_left_app. Qed.

Lemma enter_name x w : w ≠ [DOT] → w ≠ dots → enter t x w = t_child t x w.
Proof. intros H1 H2. unfold enter. by rewrite !bool_decide_eq_false_2. Qed.

Lemma walk_cleaned ws : ∀ x, let '(d, ns) := cleaned ws 0 [] in walk t x ws = walk t x (replicate d dots ++ ns).
Proof.
  induction ws as [|w ws IH]; intros x; [done|]. cbn [cleaned fold_right walk fold_left]. specialize (IH (enter t x w)). unfold cleaned in IH.
  destruct (fold_right clean_step (0%nat, []) ws) as [d ns]. unfold walk in IH |- *. rewrite IH. unfold enter at 2, clean_step. cbn [fst snd].
  case_bool_decide as H1; [done|]. case_bool_decide as H2; [by subst w|]. destruct d as [|d]; cbn [replicate app fold_left].
  - by rewrite (enter_name x w).
  - change (enter t (t_child t x w) dots) with (t_parent t (t_child t x w)). by rewrite t_up.
Qed.

Lemma walk_above d : walk t (t_root t) (replicate d dots) = t_root t.
Proof. induction d as [|d IH]; [done|]. cbn [replicate walk fold_left]. unfold enter at 2. cbn. by rewrite t_top. Qed.

End Walk.

Lemma comps_body abs d ns : Forall name ns → comps (body abs d ns) = replicate d dots ++ ns.
Proof.
  intros Hn. unfold body. assert (Hj : comps (joined (replicate d dots ++ ns)) = replicate d dots ++ ns).
  { apply comps_joined, Forall_app. split; [|done]. apply Forall_replicate, dots_name. }
  destruct abs; cbn [app]; [by rewrite comps_slash|done].
Qed.

Lemma cleaned_dots d ns : Forall plain ns → cleaned (replicate d dots ++ ns) 0 [] = (d, ns).
Proof.
  intros Hn. assert (H0 : cleaned ns 0 [] = (0%nat, ns)).
  { induction Hn as [|w ns (_ & H1 & H2) _ IH]; [done|]. unfold cleaned in *. cbn [fold_right]. rewrite IH. unfold clean_step. by rewrite !bool_decide_eq_false_2. }
  induction d as [|d IH]; [done|]. unfold cleaned in *. cbn [replicate app fold_right]. by rewrite IH.
Qed.

Lemma is_abs_body abs d ns : Forall name ns → is_abs (body abs d ns) = abs.
Proof.
  intros Hn. unfold body, is_abs. destruct abs; [done|]. cbn [app]. destruct d as [|d].
  - destruct ns as [|w ns]; [done|]. cbn [replicate app]. apply not_true_iff_false. rewrite is_slash_spec. apply joined_head. by inversion Hn.
  - cbn [replicate app]. apply not_true_iff_false. rewrite is_slash_spec. apply joined_head, dots_name.
Qed.

Lemma keep_idem abs d ns : keep_dots abs (keep_dots abs d ns) ns = keep_dots abs d ns.
Proof. unfold keep_dots. by destruct (_ && _). Qed.

(** The result for paths without a drive letter. *)
Lemma cleanPath_render path : (length path < MAXPATH)%nat → has_drive path = false →
  let abs := is_abs path in let '(d, ns) := cleaned (comps path) 0 [] in
  let out := render abs (keep_dots abs d ns) ns in
  cleanPath path = Some (if has_drive out && (length out =? 2)%nat then out ++ [SLASH] else out).
Proof.
  intros Hl Hd. pose proof (cleanPath_body path Hl) as H. unfold top_of in H. rewrite Hd in H. cbn zeta in *.
  destruct (cleaned (comps path) 0 []) as [d ns]. destruct H as [H _]. rewrite H. unfold render. cbn [app]. by destruct (body _ _ _).
Qed.

Lemma resolve_render {D} (t : tree D) cwd path d ns : cleaned (comps path) 0 [] = (d, ns) → Forall plain ns →
  resolve t cwd (render (is_abs path) (keep_dots (is_abs path) d ns) ns) = resolve t cwd path.
Proof.
  intros Ec Hp. assert (Hn : Forall name ns) by (eapply Forall_impl; [exact Hp|]; by intros w [? _]).
  set (e := keep_dots _ d ns). assert (Hb : resolve t cwd (render (is_abs path) e ns) = walk t (if is_abs path then t_root t else cwd) (replicate e dots ++ ns)).
  { unfold resolve, render. pose proof (is_abs_body (is_abs path) e ns Hn) as Ha. pose proof (comps_body (is_abs path) e ns Hn) as Hc.
    destruct (body (is_abs path) e ns) eqn:Eb; [|by rewrite Ha, Hc]. rewrite <- Hc, <- Ha. done. }
  rewrite Hb. unfold resolve. pose proof (walk_cleaned t (comps path) (if is_abs path then t_root t else cwd)) as Hw. rewrite Ec in Hw. rewrite Hw.
  subst e. unfold keep_dots. destruct (is_abs path); [|done]. cbn [andb]. case_bool_decide; [done|]. cbn [negb replicate app].
  rewrite walk_app. by rewrite walk_above.
Qed.

Lemma two_bytes p0 p1 d ns : p1 ≠ COLON → cleaned (comps [p0; p1]) 0 [] = (d, ns) →
  has_drive (body (is_abs [p0; p1]) (keep_dots (is_abs [p0; p1]) d ns) ns) = false.
Proof.
  intros Hc. unfold comps, is_abs, keep_dots. cbn [split_slash at0 hd].
  assert (Hcol : (p1 =? COLON) = false) by (by apply Z.eqb_neq).
  destruct (is_slash p0), (is_slash p1); cbn [List.filter]; 
    repeat match goal with
      | |- context [bool_decide (?x :: ?l = [])] => rewrite (bool_decide_eq_false_2 (x :: l = [])) by done
      | |- context [bool_decide (@nil ?A = [])] => rewrite (bool_decide_eq_true_2 (@nil A = [])) by done
      end; cbn [negb].
  - by intros [= <- <-].
  - unfold cleaned. cbn [fold_right]. unfold clean_step. cbn [fst snd].
    case_bool_decide; [by intros [= <- <-]|]. case_bool_decide; [done|]. by intros [= <- <-].
  - unfold cleaned. cbn [fold_right]. unfold clean_step. cbn [fst snd].
    case_bool_decide; [by intros [= <- <-]|]. case_bool_decide; [done|]. by intros [= <- <-].
  - unfold cleaned. cbn [fold_right]. unfold clean_step. cbn [fst snd].
    case_bool_decide; [by intros [= <- <-]|]. case_bool_decide; intros [= <- <-]; [done|exact Hcol].
Qed.

(** C26. Cleaning a path.  For every path shorter than MAXPATH [cleanPath] stays inside
    its buffer and returns; the result is no longer than the path, unless the path
    is empty or nothing but a drive letter.  If neither has a drive letter, the
    result leads to the same directory as the path in every tree without symbolic
    links, from every directory; it is in normal form (names without "." and without
    empty names, ".." only in front, and in front of names only in a relative path),
    and cleaning it again changes nothing. *)
Theorem cleanPath_correct path : (length path < MAXPATH)%nat →
  ∃ out, cleanPath path = Some out ∧
    ((length out <= length path)%nat ∨ path = [] ∨ ∃ x, path = [x; COLON]) ∧
    (has_drive path = false → has_drive out = false →
      (∀ D (t : tree D) cwd, resolve t cwd out = resolve t cwd path) ∧
      (∃ d ns, Forall plain ns ∧ (is_abs path = true → d = 0%nat ∨ ns = []) ∧ out = render (is_abs path) d ns) ∧
      cleanPath out = Some out).
Proof.
  intros Hl. pose proof (cleanPath_body path Hl) as Hb. pose proof (cleanPath_render path Hl) as Hr. cbn zeta in *.
  destruct (cleaned (comps (top_of path)) 0 []) as [d ns] eqn:Ec. destruct Hb as (Hb & Hp & Hlb).
  destruct (cleanPath path) as [out|] eqn:Eout; [|done]. exists out. split; [done|]. split; [injection Hb as ->|clear Hb].
  - destruct (_ ++ body _ _ _) as [|x b] eqn:Eb; [destruct path; [by right; left|left; cbn; lia]|].
    destruct (has_drive (x :: b) && _) eqn:Ed; [|by left]. apply andb_true_iff in Ed as [Ed El]. apply Nat.eqb_eq in El.
    rewrite length_app, El in *. destruct (decide (length path = 2)%nat) as [E2|]; [|left; cbn; lia]. right; right.
    destruct path as [|p0 [|p1 []]]; try done. exists p0. destruct (has_drive [p0; p1]) eqn:Hd; [cbn in Hd; apply Z.eqb_eq in Hd; by subst|].
    exfalso. unfold top_of in *. rewrite Hd in *. cbn [app] in Eb. rewrite <- Eb, (two_bytes p0 p1 d ns) in Ed; [done| |done]. by intros ->.
  - intros Hd Ho. unfold top_of in *. rewrite Hd in *. specialize (Hr eq_refl). rewrite Ec in Hr. set (e := keep_dots _ d ns) in *.
    assert (Eo : out = render (is_abs path) e ns).
    { injection Hr as ->. revert Ho. generalize (render (is_abs path) e ns). intros l. destruct (has_drive l && _) eqn:Ed; [|done].
      apply andb_true_iff in Ed as [Ed _]. intros Ho. destruct l as [|x [|y l]]; [done..|]. cbn in Ed, Ho. congruence. }
    assert (Hn : Forall name ns) by (eapply Forall_impl; [exact Hp|]; by intros w [? _]).
    split_and!; [intros; rewrite Eo; by apply resolve_render| |].
    + exists e, ns. split_and!; [done| |done]. subst e. unfold keep_dots. intros ->. cbn [andb]. case_bool_decide; [by right|by left].
    + rewrite <- Eo in Hr. assert (Hlo : (length out < MAXPATH)%nat).
      { rewrite Eo. unfold render. destruct (body _ e ns) as [|x b] eqn:Eb; [cbn; unfold MAXPATH; lia|]. cbn [app] in Hlb. lia. }
      pose proof (cleanPath_render out Hlo Ho) as Hagain. cbn zeta in Hagain.
      assert (Ha : is_abs out = is_abs path ∧ cleaned (comps out) 0 [] = (e, ns)).
      { rewrite Eo. unfold render. pose proof (is_abs_body (is_abs path) e ns Hn) as H1. pose proof (comps_body (is_abs path) e ns Hn) as H2.
        pose proof (cleaned_dots e ns Hp) as H3. destruct (body (is_abs path) e ns) eqn:Eb; [|by rewrite H1, H2].
        split; [exact H1|]. rewrite <- H2 in H3. exact H3. }
      destruct Ha as [Ha1 Ha2]. rewrite Ha1, Ha2 in Hagain. subst e. rewrite keep_idem, <- Eo, Ho in Hagain. exact Hagain.
Qed.

Lemma cleanPath_correct_witness :
  ∃ out, cleanPath (s2b "./a//b/../c/") = Some out ∧ cleanPath out = Some out.
Proof.
  destruct (cleanPath_correct (s2b "./a//b/../c/")) as (out & H1 & _ & H2); [vm_compute; lia|]. exists out. split; [done|].
  apply H2; [done|]. vm_compute in H1. by injection H1 as <-.
Defined.

(** ** Relative paths *)

Definition abs_path (ws : list cstr) : cstr := SLASH :: joined ws.

(** The path of [k] and a slash. *)
Definition pre (k : list cstr) : cstr := SLASH :: concat (map (λ w, w ++ [SLASH]) k).

Definition rel_names (ns ms : list cstr) : list cstr := replicate (length ns) dots ++ ms.

Lemma abs_pre k n ns : abs_path (k ++ n :: ns) = pre k ++ joined (n :: ns).
Proof.
  unfold abs_path, pre. cbn [app]. f_equal. induction k as [|w k IH]; [done|]. cbn [map concat app]. rewrite joined_cons.
  rewrite <- app_assoc. cbn [app]. rewrite <- IH, <- app_assoc. by destruct k.
Qed.

Lemma pre_end k : ∃ u, pre k = u ++ [SLASH].
Proof.
  unfold pre. induction k as [|w k IH] using rev_ind; [by exists []|]. rewrite map_app, concat_app. cbn [map concat]. rewrite app_nil_r.
  exists (SLASH :: concat (map (λ w, w ++ [SLASH]) k) ++ w). cbn [app]. by rewrite <- app_assoc.
Qed.

Lemma common_same s b p : ∀ i lsb, ∃ l, common_start (s ++ b) (s ++ p) i lsb = common_start b p (i + length s) l ∧
  (Forall (λ c, c ≠ SLASH) s → l = lsb) ∧ (∀ u, s = u ++ [SLASH] → l = Some (i + length u)%nat).
Proof.
  induction s as [|c s IH]; intros i lsb; cbn [app length].
  { exists lsb. rewrite Nat.add_0_r. split_and!; [done|done|]. by intros []. }
  cbn [common_start]. rewrite Z.eqb_refl. destruct (IH (S i) (if is_slash c then Some i else lsb)) as (l & -> & H1 & H2).
  exists l. replace (S i + length s)%nat with (i + S (length s))%nat by lia. split_and!; [done| |].
  - intros Hs. apply Forall_cons in Hs as [Hc Hs]. rewrite (H1 Hs). destruct (is_slash c) eqn:E; [|done]. by apply is_slash_spec in E.
  - intros [|x u] E; cbn in E.
    + injection E as -> ->. rewrite H1 by done. cbn. by rewrite Nat.add_0_r.
    + injection E as -> E. rewrite (H2 u E). cbn. f_equal. lia.
Qed.

Definition ends (r : cstr) : Prop := r = [] ∨ ∃ t, r = SLASH :: t.

(** Two different names part before both of them end. *)
Lemma names_part n : ∀ m br pr i l, Forall (λ c, c ≠ SLASH) n → Forall (λ c, c ≠ SLASH) m → n ≠ m → ends br → ends pr →
  ∃ j, common_start (n ++ br) (m ++ pr) i l = ((i + j)%nat, l) ∧
    let b := drop j (n ++ br) in let p := drop j (m ++ pr) in
    (b = [] → p ≠ [] ∧ at0 p ≠ SLASH) ∧ (p = [] → at0 b ≠ SLASH).
Proof.
  induction n as [|x n IH]; intros m br pr i l Hn Hm Hne Hb Hp.
  - destruct Hm as [|y m Hy Hm]; [done|]. exists 0%nat. rewrite Nat.add_0_r, !drop_0. cbn [app].
    destruct Hb as [->|[t ->]]; cbn [common_start]; [done|]. destruct (Z.eqb_spec SLASH y); [by subst|]. done.
  - apply Forall_cons in Hn as [Hx Hn]. destruct Hm as [|y m Hy Hm].
    + exists 0%nat. rewrite Nat.add_0_r, !drop_0. cbn [app]. destruct Hp as [->|[t ->]]; cbn [common_start]; [done|]. by destruct (Z.eqb_spec x SLASH).
    + cbn [app common_start]. destruct (Z.eqb_spec x y) as [->|Hxy].
      * destruct (IH m br pr (S i) l) as (j & E & H); [done|done|congruence|done|done|].
        assert (is_slash y = false) as -> by (by apply Z.eqb_neq). exists (S j). rewrite E. split; [f_equal; lia|]. exact H.
      * exists 0%nat. rewrite Nat.add_0_r, !drop_0. done.
Qed.

Lemma joined_ends w ws : ∃ r, joined (w :: ws) = w ++ r ∧ ends r.
Proof. rewrite joined_cons. destruct ws; [exists []; rewrite app_nil_r; unfold ends; auto|]. eexists. split; [done|]. right. eauto. Qed.

Definition ups (n : nat) : cstr := concat (replicate n [DOT; DOT; SLASH]).

Lemma length_ups n : length (ups n) = (3 * n)%nat.
Proof. unfold ups. induction n; [done|]. cbn [replicate concat]. rewrite length_app, IHn. cbn. lia. Qed.

Lemma rel_ups_name w b r : Forall (λ c, c ≠ SLASH) w → rel_ups (w ++ b) r = rel_ups b r.
Proof. induction 1 as [|c w Hc _ IH]; [done|]. cbn [app rel_ups]. assert (is_slash c = false) as -> by (by apply Z.eqb_neq). done. Qed.

Lemma rel_ups_ok ns : ∀ r, Forall name ns → ns ≠ [] →
  rel_ups (SLASH :: joined ns) r = if (length r + 3 * length ns <? MAXPATH)%nat then Some (r ++ ups (length ns)) else None.
Proof.
  induction ns as [|w ns IH]; intros r Hn Hnn; [done|]. clear Hnn. apply Forall_cons in Hn as [Hw Hn]. destruct (joined_head w ns Hw) as [_ Hne].
  cbn [rel_ups]. change (is_slash SLASH) with true. cbv iota. rewrite bool_decide_eq_false_2 by done. cbn [negb].
  assert (Hrest : rel_ups (joined (w :: ns)) (r ++ [DOT; DOT; SLASH]) =
    if (length r + 3 * length (w :: ns) <? MAXPATH)%nat || bool_decide (ns = []) then Some (r ++ ups (length (w :: ns))) else None).
  { rewrite joined_cons. destruct ns as [|w' ns].
    - rewrite <- (app_nil_r w) at 1. rewrite rel_ups_name by apply Hw. rewrite (bool_decide_eq_true_2) by done. by rewrite orb_true_r.
    - rewrite rel_ups_name by apply Hw. rewrite IH by done. rewrite bool_decide_eq_false_2, orb_false_r by done. rewrite length_app. cbn [length].
      replace (length r + 3 + 3 * S (length ns))%nat with (length r + 3 * S (S (length ns)))%nat by lia.
      destruct (_ <? _)%nat; [|done]. f_equal. rewrite <- app_assoc. done. }
  rewrite Hrest. destruct (Nat.ltb_spec (length r + 3) MAXPATH), (Nat.ltb_spec (length r + 3 * length (w :: ns)) MAXPATH); cbn [orb]; try done; cbn [length] in *; try lia.
  rewrite bool_decide_eq_false_2; [done|]. intros ->. cbn in *. lia.
Qed.

Lemma joined_dots n ms : ms ≠ [] → joined (replicate n dots ++ ms) = ups n ++ joined ms.
Proof.
  intros Hm. induction n as [|n IH]; [done|]. cbn [replicate app]. rewrite joined_cons. 
  change (ups (S n)) with ([DOT; DOT; SLASH] ++ ups n). rewrite <- app_assoc, <- IH. destruct n; [by destruct ms|done].
Qed.

Lemma joined_ups n : joined (replicate (S n) dots) ++ [SLASH] = ups (S n).
Proof.
  induction n as [|n IH]; [done|]. change (replicate (S (S n)) dots) with (dots :: replicate (S n) dots). rewrite joined_cons.
  change (ups (S (S n))) with ([DOT; DOT; SLASH] ++ ups (S n)). rewrite <- IH. cbn [replicate]. cbn [app]. done.
Qed.

(** The end of [relpath], after the common directories. *)
Lemma rel_finish ns ms : Forall name (ns ++ ms) → ns ≠ [] →
  (let? r := rel_ups (SLASH :: joined ns) [] in
   assert! (length r + length (joined ms) <? MAXPATH)%nat;
   let r := r ++ joined ms in
   Some (if (1 <? length r)%nat && is_slash (default 0 (last r)) then take (length r - 1) r else r)) =
  if (3 * length ns + length (joined ms) <? MAXPATH)%nat then Some (joined (rel_names ns ms)) else None.
Proof.
  intros Hn Hne. apply Forall_app in Hn as [Hn Hm]. rewrite rel_ups_ok by done. cbn [length Nat.add app]. unfold rel_names.
  destruct (Nat.ltb_spec (3 * length ns) MAXPATH), (Nat.ltb_spec (3 * length ns + length (joined ms)) MAXPATH); try lia; cbn zeta;
    rewrite ?length_ups; try done; (destruct (Nat.ltb_spec (3 * length ns + length (joined ms)) MAXPATH); try lia; try done).
  f_equal. destruct (decide (ms = [])) as [->|Hms].
  - destruct ns as [|n ns]; [done|]. cbn [length joined]. rewrite !app_nil_r, <- joined_ups, last_snoc. cbn [default].
    rewrite length_app. cbn [length]. rewrite andb_true_r. replace (length (joined (replicate (S (length ns)) dots)) + 1 - 1)%nat with (length (joined (replicate (S (length ns)) dots))) by lia.
    rewrite take_app_length. destruct (joined_head dots (replicate (length ns) dots) dots_name) as [_ Hj].
    destruct (Nat.ltb_spec 1 (length (joined (replicate (S (length ns)) dots)) + 1)); [done|]. cbn [replicate] in *. destruct (joined (dots :: _)); [done|cbn in *; lia].
  - rewrite <- joined_dots by done. assert (Hl : is_slash (default 0 (last (joined (replicate (length ns) dots ++ ms)))) = false); [|by rewrite Hl, andb_false_r].
    destruct (exists_last Hms) as (ms' & w & ->). apply Forall_app in Hm as [_ Hw]. apply Forall_cons in Hw as [[Hw1 Hw2] _].
    rewrite app_assoc. assert (El : ∃ u, joined ((replicate (length ns) dots ++ ms') ++ [w]) = u ++ w).
    { generalize (replicate (length ns) dots ++ ms'). intros l. induction l as [|x l [u IH]]; [by exists []|]. cbn [app]. rewrite joined_cons, IH.
      exists (x ++ SLASH :: u). destruct l; cbn [app]; by rewrite <- app_assoc. }
    destruct El as [u ->]. destruct (exists_last Hw1) as (w' & c & ->). rewrite app_assoc, last_snoc. cbn [default].
    apply Forall_app in Hw2 as [_ Hc]. apply Z.eqb_neq. by inversion Hc.
Qed.

(** One path starts with the other one. *)
Lemma common_abs k b p : Forall name k → b = [] ∨ p = [] →
  ∃ lsb, common_start (abs_path k ++ b) (abs_path k ++ p) 0 None = (length (abs_path k), Some lsb) ∧
    (if decide (k = []) then lsb = 0%nat else length (abs_path k) ≠ S lsb).
Proof.
  intros Hk Hbp. assert (Hend : ∀ i l, common_start b p i l = (i, l)) by (intros; destruct Hbp as [-> | ->]; [done|by destruct b]).
  destruct (decide (k = [])) as [->|Hne].
  { exists 0%nat. split; [|done]. unfold abs_path. cbn [joined app common_start]. rewrite Z.eqb_refl. by rewrite Hend. }
  destruct (exists_last Hne) as (k0 & w & ->). apply Forall_app in Hk as [_ Hw]. apply Forall_cons in Hw as [[Hw1 Hw2] _].
  rewrite abs_pre. cbn [joined]. rewrite <- !app_assoc. destruct (pre_end k0) as [u Hu].
  destruct (common_same (pre k0) (w ++ b) (w ++ p) 0 None) as (l & -> & _ & Hl). specialize (Hl u Hu). subst l.
  destruct (common_same w b p (0 + length (pre k0)) (Some (0 + length u)%nat)) as (l & -> & Hl & _). rewrite (Hl Hw2), Hend.
  exists (length u). rewrite !length_app, Hu, length_app. cbn [length Nat.add]. split; [done|]. destruct w; [done|]. cbn [length]. lia.
Qed.

Lemma abs_app k n ns : abs_path (k ++ n :: ns) = abs_path k ++ (if decide (k = []) then [] else [SLASH]) ++ joined (n :: ns).
Proof.
  destruct (decide (k = [])) as [->|Hne]; [done|]. destruct (exists_last Hne) as (k0 & w & ->). rewrite <- app_assoc. cbn [app].
  rewrite !abs_pre, joined_cons. cbn [joined]. by rewrite <- app_assoc.
Qed.

(** [relpath] between the paths of two directories: up to the last common one and
    down from there.  The buffer is too small exactly if the result does not fit. *)
Lemma relpath_ok k ns ms : Forall name (k ++ ns ++ ms) → (∀ n ns' m ms', ns = n :: ns' → ms = m :: ms' → n ≠ m) →
  relpath (abs_path (k ++ ns)) (abs_path (k ++ ms)) =
    match ns, ms with
    | [], [] => Some [DOT]
    | [], _ => Some (joined ms)
    | _, _ => if (3 * length ns + length (joined ms) <? MAXPATH)%nat then Some (joined (rel_names ns ms)) else None
    end.
Proof.
  intros Hn Hdiff. apply Forall_app in Hn as [Hk Hn]. pose proof Hn as [Hns Hms]%Forall_app.
  destruct ns as [|n ns], ms as [|m ms]; rewrite ?app_nil_r.
  - destruct (common_abs k [] [] Hk) as (lsb & E & _); [by left|]. rewrite !app_nil_r in E. unfold relpath. rewrite E. by rewrite drop_all.
  - destruct (joined_head m ms) as [H1 H2]; [by inversion Hms|]. rewrite abs_app. generalize dependent (joined (m :: ms)). intros J H1 H2. set (x := (if decide (k = []) then _ else _) ++ _).
    destruct (common_abs k [] x Hk) as (lsb & E & Hl); [by left|]. rewrite app_nil_r in E. unfold relpath. rewrite E, drop_all, drop_app_length.
    destruct (decide (k = [])) as [->|Hne]; subst x; cbn [app] in *.
    + subst lsb. by destruct J.
    + by destruct (Nat.eqb_spec (length (abs_path k)) (S lsb)).
  - pose proof (rel_finish (n :: ns) []) as Hfin. rewrite app_nil_r in Hfin. rewrite <- Hfin by done. clear Hfin.
    destruct (joined_head n ns) as [H1 H2]; [by inversion Hns|]. rewrite abs_app. generalize dependent (joined (n :: ns)). intros J H1 H2. set (x := (if decide (k = []) then _ else _) ++ _).
    destruct (common_abs k x [] Hk) as (lsb & E & Hl); [by right|]. rewrite app_nil_r in E. unfold relpath. rewrite E, drop_all, drop_app_length.
    rewrite (bool_decide_eq_true_2 (@nil Z = [])) by done. cbn [andb].
    destruct (decide (k = [])) as [->|Hne]; subst x; cbn [app] in *.
    + subst lsb. destruct J as [|c J]; [done|]. cbn [at0 hd] in *. assert (is_slash c = false) as -> by (by apply Z.eqb_neq). done.
    + done.
  - destruct (pre_end k) as [u Hu]. rewrite <- rel_finish by done. rewrite !abs_pre.
    destruct (common_same (pre k) (joined (n :: ns)) (joined (m :: ms)) 0 None) as (l & E & _ & Hl). specialize (Hl u Hu). subst l.
    destruct (joined_ends n ns) as (br & En & Hb), (joined_ends m ms) as (pr & Em & Hp).
    apply Forall_cons in Hns as [Hnn _]. apply Forall_cons in Hms as [Hmm _].
    destruct (names_part n m br pr (0 + length (pre k)) (Some (0 + length u)%nat)) as (j & Ej & Hj1 & Hj2); [apply Hnn|apply Hmm|by eapply Hdiff|done|done|].
    rewrite En, Em in *. rewrite Ej in E. unfold relpath. rewrite E. cbn [Nat.add].
    assert (Hd : ∀ z, drop (length (pre k) + j) (pre k ++ z) = drop j z) by (intros z; rewrite <- drop_drop, drop_app_length; done).
    rewrite !Hd. set (b := drop j (n ++ br)) in *. set (p := drop j (m ++ pr)) in *.
    assert (Hfalse : bool_decide (p = []) && is_slash (at0 b) = false).
    { case_bool_decide as H; [|done]. apply Z.eqb_neq, Hj2, H. }
    rewrite Hfalse. assert (Hdu : ∀ z, drop (length u) (pre k ++ z) = SLASH :: z) by (intros z; rewrite Hu, <- app_assoc; apply drop_app_length).
    rewrite (Hdu (n ++ br)). assert (Hdp : drop (length u + 1) (pre k ++ m ++ pr) = m ++ pr).
    { replace (length u + 1)%nat with (length (pre k)) by (rewrite Hu, length_app; cbn; lia). apply drop_app_length. }
    rewrite Hdp. destruct b as [|c b'] eqn:Eb; [|done]. destruct (Hj1 eq_refl) as [Hp1 Hp2]. destruct p as [|c p'] eqn:Ep; [done|].
    assert (Hj0 : j ≠ 0%nat) by (intros ->; subst b; rewrite drop_0 in Eb; destruct Hnn as [Hnn _]; by apply app_nil in Eb as [? _]).
    destruct (Nat.eqb_spec (length (pre k) + j) (S (length u))) as [Ei|_]; [rewrite Hu, length_app in Ei; cbn in Ei; lia|].
    assert (is_slash (at0 (c :: p')) = false) as -> by (by apply Z.eqb_neq). done.
Qed.

(** The names of two paths after the common ones. *)
Fixpoint parts (base path : list cstr) : list cstr * list cstr :=
  match base, path with
  | n :: ns, m :: ms => if bool_decide (n = m) then parts ns ms else (base, path)
  | _, _ => (base, path)
  end.

Lemma parts_spec base : ∀ path, let '(ns, ms) := parts base path in
  (∃ k, base = k ++ ns ∧ path = k ++ ms) ∧ ∀ n ns' m ms', ns = n :: ns' → ms = m :: ms' → n ≠ m.
Proof.
  induction base as [|n base IH]; intros [|m path]; cbn [parts]; try by (split; [by exists []|]).
  case_bool_decide as E.
  - subst m. specialize (IH path). destruct (parts base path) as [ns ms]. destruct IH as ((k & -> & ->) & H). split; [by exists (n :: k)|done].
  - split; [by exists []|]. intros ? ? ? ? [= -> ->] [= -> ->]. done.
Qed.

Lemma cleaned_plain ns d ms : Forall plain ns → (length ns <= d)%nat → cleaned ns d ms = ((d - length ns)%nat, ms).
Proof.
  intros Hn. revert d. induction Hn as [|w ns (_ & H1 & H2) _ IH]; intros d Hl; unfold cleaned in *; cbn [fold_right length] in *; [f_equal; lia|].
  rewrite IH by lia. unfold clean_step. rewrite !bool_decide_eq_false_2 by done. cbn [fst snd]. destruct (d - length ns)%nat eqn:E; [lia|]. f_equal. lia.
Qed.

(** Up and down again. *)
Lemma cleaned_up k ns ms : Forall plain (k ++ ns ++ ms) → cleaned (k ++ ns ++ rel_names ns ms) 0 [] = (0%nat, k ++ ms).
Proof.
  intros Hp. apply Forall_app in Hp as [Hk Hp]. apply Forall_app in Hp as [Hn Hm]. unfold rel_names.
  pose proof (cleaned_dots (length ns) ms Hm) as E. unfold cleaned in E |- *. rewrite fold_right_app, fold_right_app, E.
  pose proof (cleaned_plain ns (length ns) ms Hn) as E2. unfold cleaned in E2. rewrite E2, Nat.sub_diag by done.
  clear E E2 Hn. induction Hk as [|w k (_ & H1 & H2) _ IH]; [done|]. cbn [fold_right app]. rewrite IH. unfold clean_step. by rewrite !bool_decide_eq_false_2.
Qed.

(** The result of [relpath] as names. *)
Lemma relpath_names base path rel : Forall plain (base ++ path) → relpath (abs_path base) (abs_path path) = Some rel →
  let '(ns, ms) := parts base path in
  rel = match rel_names ns ms with [] => [DOT] | l => joined l end ∧ is_abs rel = false ∧ rel ≠ [] ∧ cleaned (base ++ comps rel) 0 [] = (0%nat, path).
Proof.
  intros Hp. pose proof (parts_spec base path) as Hs. destruct (parts base path) as [ns ms]. destruct Hs as ((k & -> & ->) & Hd).
  assert (Hp' : Forall plain (k ++ ns ++ ms)) by (rewrite !Forall_app in *; tauto).
  assert (Hn : Forall name (k ++ ns ++ ms)) by (eapply Forall_impl; [exact Hp'|]; by intros w [? _]).
  rewrite relpath_ok by done. intros Hr.
  assert (Er : rel = match rel_names ns ms with [] => [DOT] | l => joined l end).
  { destruct ns as [|n ns], ms as [|m ms]; [by injection Hr|by injection Hr| |]; destruct (_ <? _)%nat; try done; by injection Hr. }
  assert (Hnames : Forall name (rel_names ns ms)).
  { apply Forall_app. split; [apply Forall_replicate, dots_name|]. rewrite !Forall_app in Hn. tauto. }
  pose proof (cleaned_up k ns ms Hp') as Hc. split; [done|]. subst rel. destruct (rel_names ns ms) as [|w l] eqn:El.
  - split; [done|]. split; [done|]. rewrite app_nil_r in Hc. rewrite <- app_assoc. unfold comps. cbn. unfold cleaned in *. rewrite !fold_right_app in *. exact Hc.
  - destruct (joined_head w l) as [H1 H2]; [by inversion Hnames|]. split; [by apply Z.eqb_neq|]. split; [done|]. rewrite comps_joined by done. by rewrite <- app_assoc.
Qed.

Lemma concat_abs base rel : Forall plain base → rel ≠ [] → is_abs rel = false →
  concat_path (abs_path base) rel = abs_path base ++ (if decide (base = []) then [] else [SLASH]) ++ rel.
Proof.
  intros Hp Hne Ha. unfold concat_path. cbn [abs_path]. fold (abs_path base). destruct rel as [|c rel]; [done|]. unfold is_abs in Ha. cbn [at0 hd] in Ha. rewrite Ha.
  destruct (decide (base = [])) as [->|Hb]; [done|]. destruct (exists_last Hb) as (k & w & ->). apply Forall_app in Hp as [_ Hw]. apply Forall_cons in Hw as [[[Hw1 Hw2] [Hw3 _]] _].
  assert (E : abs_path (k ++ [w]) = pre k ++ w) by apply abs_pre. destruct (pre_end k) as [u Hu]. destruct (exists_last Hw1) as (w' & x & ->).
  apply Forall_app in Hw2 as [Hw2 Hx]. apply Forall_cons in Hx as [Hx _].
  assert (Hlast : is_slash (default 0 (last (abs_path (k ++ [w' ++ [x]])))) = false).
  { rewrite E, app_assoc, last_snoc. by apply Z.eqb_neq. }
  assert (Hno : drop (length (abs_path (k ++ [w' ++ [x]])) - 2) (abs_path (k ++ [w' ++ [x]])) ≠ [SLASH; DOT]).
  { rewrite E. destruct w' as [|y w' _] using rev_ind.
    - rewrite Hu, length_app, <- app_assoc, length_app. cbn [app length]. replace (length u + 1 + 1 - 2)%nat with (length u) by lia. rewrite drop_app_length.
      intros [= ->]. done.
    - apply Forall_app in Hw2 as [_ Hy]. apply Forall_cons in Hy as [Hy _]. rewrite <- app_assoc, app_assoc. cbn [app]. rewrite length_app. cbn [length].
      replace (length (pre k ++ w') + 2 - 2)%nat with (length (pre k ++ w')) by lia. rewrite drop_app_length. intros [= -> _]. done. }
  rewrite bool_decide_eq_false_2 by done. rewrite Hlast. by rewrite <- app_assoc.
Qed.

(** ** Directory and last name *)

Lemma skip_none q : at0 q ≠ SLASH → skip_slashes q = q.
Proof. destruct q as [|c q]; [done|]. cbn. intros H. unfold is_slash. by destruct (Z.eqb_spec c SLASH). Qed.

Lemma reverse_head w q : name w → at0 (reverse w ++ q) ≠ SLASH ∧ reverse w ++ q ≠ [].
Proof.
  intros Hw%name_reverse. destruct Hw as [Hne Hw]. destruct (reverse w) as [|c r]; [done|]. cbn. split; [by inversion Hw|done].
Qed.

(** [dirname] and [basenm] take a path apart, [concat_path] puts it together. *)
Lemma dirname_basenm k w : Forall plain (k ++ [w]) →
  dirname (abs_path (k ++ [w])) = abs_path k ∧ basenm (abs_path (k ++ [w])) = Some w ∧ concat_path (abs_path k) w = abs_path (k ++ [w]).
Proof.
  intros Hp. pose proof Hp as [Hk Hw]%Forall_app. apply Forall_cons in Hw as [[Hw _] _]. destruct (reverse_head w (reverse (pre k)) Hw) as [Hh Hne].
  assert (E : abs_path (k ++ [w]) = pre k ++ w) by apply abs_pre.
  assert (Hback : skip_name (reverse (abs_path (k ++ [w]))) = reverse (pre k)).
  { rewrite E, reverse_app. apply skip_name_app; [by apply name_reverse|]. destruct (pre_end k) as [u ->]. rewrite reverse_snoc. by right; eexists. }
  split_and!.
  - unfold dirname. assert (Hs : skip_slashes (abs_path (k ++ [w])) ≠ []).
    { intros Hs. assert (Hall : Forall (λ c, c = SLASH) (abs_path (k ++ [w]))).
      { revert Hs. generalize (abs_path (k ++ [w])). induction l as [|c l IH]; [done|]. cbn [strip_front]. destruct (is_slash c) eqn:Ec; [|done].
        apply is_slash_spec in Ec. intros. constructor; auto. }
      rewrite E in Hall. apply Forall_app in Hall as [_ Hall]. destruct Hw as [Hw1 Hw2]. destruct Hall; [done|]. by inversion Hw2. }
    destruct (skip_slashes (abs_path (k ++ [w]))); [done|]. rewrite E, reverse_app, skip_none, <- reverse_app, <- E, Hback by done.
    destruct (decide (k = [])) as [->|Hkn]; [done|]. destruct (exists_last Hkn) as (k0 & x & ->). apply Forall_app in Hk as [_ Hx]. apply Forall_cons in Hx as [[Hx _] _].
    assert (Ep : pre (k0 ++ [x]) = abs_path (k0 ++ [x]) ++ [SLASH]).
    { rewrite abs_pre. unfold pre. rewrite map_app, concat_app. cbn [map concat joined app]. by rewrite app_nil_r, app_assoc. }
    rewrite Ep, reverse_snoc. cbn [strip_front]. change (is_slash SLASH) with true. cbv iota.
    assert (Ex : abs_path (k0 ++ [x]) = pre k0 ++ x) by apply abs_pre. rewrite Ex, reverse_app. destruct (reverse_head x (reverse (pre k0)) Hx) as [H1 H2].
    rewrite skip_none by done. destruct (reverse x ++ reverse (pre k0)) eqn:Er; [done|]. rewrite <- Er, <- reverse_app. by rewrite reverse_involutive.
  - unfold basenm. rewrite Hback, length_reverse, E, drop_app_length. rewrite bool_decide_eq_false_2; [done|]. by intros [? _]%app_nil.
  - rewrite concat_abs; [by rewrite abs_app|done| |]; destruct Hw as [Hw1 Hw2]; [done|]. destruct Hw2 as [|c w Hc _]; [done|]. by apply Z.eqb_neq.
Qed.

Lemma drive_abs s : at0 s ≠ COLON → has_drive (SLASH :: s) = false.
Proof. destruct s as [|c s]; [done|]. cbn. intros H. by apply Z.eqb_neq. Qed.

Lemma colon_joined ws : Forall name ws → Forall (λ w, at0 w ≠ COLON) ws → at0 (joined ws) ≠ COLON.
Proof.
  intros Hn Hc. destruct Hn as [|w ws [Hw _] _]; [done|]. apply Forall_cons in Hc as [Hc _]. rewrite joined_cons. destruct w; [done|]. by destruct ws.
Qed.

(** C27. Relative paths.  Let base and path be the absolute paths of two directories,
    with names other than "." and "..".  [relpath] fails, by writing past its buffer,
    exactly if the names it has to leave take too much room; otherwise it returns a
    relative path that leads from base to path in every tree without symbolic
    links, and [concat_path] and [cleanPath] get the path back from base and the
    relative path (as long as no name looks like a drive letter and the parts fit
    MAXPATH). *)
Theorem relpath_correct base path : Forall plain (base ++ path) →
  let '(ns, ms) := parts base path in
  (relpath (abs_path base) (abs_path path) = None ↔ ns ≠ [] ∧ (MAXPATH <= 3 * length ns + length (joined ms))%nat) ∧
  (∀ rel, relpath (abs_path base) (abs_path path) = Some rel →
    is_abs rel = false ∧
    (∀ D (t : tree D) cwd, resolve t (resolve t cwd (abs_path base)) rel = resolve t cwd (abs_path path)) ∧
    (Forall (λ w, at0 w ≠ COLON) (base ++ path) → (length (abs_path base) + length rel + 1 < MAXPATH)%nat →
      cleanPath (concat_path (abs_path base) rel) = Some (abs_path path))).
Proof.
  intros Hp. pose proof (parts_spec base path) as Hs. pose proof (λ rel, relpath_names base path rel Hp) as Hnm.
  destruct (parts base path) as [ns ms]. destruct Hs as ((k & Eb & Ep) & Hd).
  assert (Hn : Forall name (base ++ path)) by (eapply Forall_impl; [exact Hp|]; by intros w [? _]).
  pose proof Hn as [Hnb Hnp]%Forall_app. pose proof Hp as [Hpb Hpp]%Forall_app. split.
  - rewrite Eb, Ep. rewrite relpath_ok; [|rewrite Eb, Ep, !Forall_app in Hn; rewrite !Forall_app; tauto|done].
    destruct ns as [|n ns]; [destruct ms; (split; [done|by intros []])|].
    destruct (Nat.ltb_spec (3 * length (n :: ns) + length (joined ms)) MAXPATH); (split; [|intros []]); try done; lia.
  - intros rel Hr. destruct (Hnm rel Hr) as (Er & Ha & Hne & Hc). split; [done|].
    assert (Hwalk : ∀ D (t : tree D) x, walk t x (base ++ comps rel) = walk t x path).
    { intros D t x. pose proof (walk_cleaned t (base ++ comps rel) x) as Hw. rewrite Hc in Hw. exact Hw. }
    assert (Hca : ∀ l, Forall name l → comps (abs_path l) = l) by (intros l Hl; unfold abs_path; rewrite comps_slash; by apply comps_joined).
    split.
    + intros D t cwd. unfold resolve. rewrite Ha. change (is_abs (abs_path base)) with true. change (is_abs (abs_path path)) with true.
      rewrite !Hca by done. rewrite <- walk_app. apply Hwalk.
    + intros Hcol Hl. rewrite concat_abs by done. set (s := abs_path base ++ _ ++ rel).
      assert (Hls : (length s < MAXPATH)%nat) by (subst s; rewrite !length_app; destruct (decide _); cbn [length]; lia).
      assert (Hcs : comps s = base ++ comps rel).
      { subst s. destruct (decide (base = [])) as [->|]; [unfold abs_path; cbn [joined app]; apply comps_slash|]. cbn [app]. rewrite comps_app. by rewrite Hca. }
      apply Forall_app in Hcol as [Hcb Hcp].
      assert (Hds : has_drive s = false).
      { subst s. unfold abs_path. cbn [app]. apply drive_abs. pose proof (colon_joined base Hnb Hcb) as Hjb.
        destruct (decide (base = [])) as [->|Hb]; [|apply (proj2 (not_iff_compat (joined_nil base Hnb))) in Hb; by destruct (joined base)].
        cbn [joined app]. rewrite Er. destruct (rel_names ns ms) as [|w l] eqn:El; [done|]. rewrite <- El. apply colon_joined.
        - apply Forall_app. split; [apply Forall_replicate, dots_name|]. rewrite Ep in Hnp. by apply Forall_app in Hnp as [_ ?].
        - apply Forall_app. split; [by apply Forall_replicate|]. rewrite Ep in Hcp. by apply Forall_app in Hcp as [_ ?]. }
      pose proof (cleanPath_render s Hls Hds) as Hcl. cbn zeta in Hcl. rewrite Hcs, Hc in Hcl.
      change (is_abs s) with true in Hcl. assert (Hk : keep_dots true 0 path = 0%nat) by (unfold keep_dots; by case_bool_decide). rewrite Hk in Hcl.
      change (render true 0 path) with (abs_path path) in Hcl. rewrite Hcl. unfold abs_path. by rewrite (drive_abs _ (colon_joined path Hnp Hcp)).
Qed.

Lemma relpath_correct_witness :
  ∃ rel, relpath (abs_path [s2b "a"; s2b "b"]) (abs_path [s2b "a"; s2b "bc"; s2b "d"]) = Some rel ∧
    cleanPath (concat_path (abs_path [s2b "a"; s2b "b"]) rel) = Some (abs_path [s2b "a"; s2b "bc"; s2b "d"]).
Proof.
  destruct (relpath_correct [s2b "a"; s2b "b"] [s2b "a"; s2b "bc"; s2b "d"]) as [_ H].
  - by repeat (apply Forall_cons; split; [split; [split; [done|by repeat constructor]|done]|]).
  - exists (s2b "../bc/d"). split; [reflexivity|]. apply H; [reflexivity|by repeat constructor|vm_compute; lia].
Defined.

