(* ===== verification/Glob.v ===== *)
(** * Glob: matching file names against patterns

    [match_one], [match_globs] and [is_glob] of src/src/libc/utils/glob.c.  A
    pattern means a list of tokens, and the reference says which strings the tokens
    match; [match_one] is compared with it.  A read after the end of the string or
    of the pattern is [None]. *)

From S2P Require Import Prelude CStr.
From stdpp Require Import base numbers list strings.
From Stdlib Require Import ZArith Lia.

Local Open Scope Z_scope.

Local Open Scope bk_scope.

Definition tolower (c : Z) : Z := if (65 <=? c) && (c <=? 90) then c + 32 else c.

Definition is_glob_loop (equals : bool) : bool → cstr → cstr → option cstr :=
  fix loop escape p glob :=
    match glob with
    | [] => None
    | c :: rest =>
        if c =? ch "/" then loop escape glob rest
        else if c =? ch "\" then loop (negb escape) p rest
        else if escape then loop false p rest
        else if (c =? ch "=") && equals || (c =? ch "?") || (c =? ch "*") || (c =? ch "[") then Some p
        else loop escape p rest
    end.

(** The part of the pattern from its last slash before the first wildcard. *)
Definition is_glob (equals : bool) (glob : cstr) : option cstr := is_glob_loop equals false glob glob.

Section Match.
(** [equals] is what [glob_equals] returns: BK_GLOB_EQUAL is set to YES. *)
Variables (equals ignorecase : bool).

Definition C (c : Z) : Z := if ignorecase then tolower c else c.

(** The loop over a character class, with [c] for [*p]: the result and the pattern
    from the closing bracket on. *)
Fixpoint class_loop (c : Z) (m : bool) (g : cstr) : option (bool * cstr) :=
  match g with
  | [] => None
  | x :: r =>
      match r with
      | [] => None
      | y :: r2 =>
          if y =? ch "-" then
            match r2 with
            | [] => None
            | z :: r3 =>
                let m := m || (C x <=? C c) && (C c <=? C z) in
                match r3 with
                | [] => None
                | e :: _ => if e =? ch "]" then Some (m, r3) else class_loop c m r3
                end
            end
          else
            let m := m || (C x =? C c) in
            if y =? ch "]" then Some (m, r) else class_loop c m r
      end
  end.

(** The scan from [star] on: [rec] matches the rest of the pattern, which starts
    with [g0].  The inner loop, which looks for that character, and the outer one
    are one loop here. *)
Fixpoint star_loop (rec : cstr → option bool) (g0 : Z) (p : cstr) : option bool :=
  match p with
  | [] => Some false
  | x :: p' =>
      if negb ((g0 =? ch "\") || (g0 =? ch "[") || (g0 =? ch "?") || (g0 =? ch "*")) && negb (C x =? C g0) then star_loop rec g0 p'
      else let? b := rec p in if b then Some true else star_loop rec g0 p'
  end.

(** [p++]: no string is left after the NUL. *)
Definition next (s : cstr) : option cstr := match s with [] => None | _ :: s => Some s end.

(** The loop over the pattern.  The string is [None] when [p] is after the NUL. *)
Fixpoint match_loop (fuel : nat) (p : option cstr) (g : cstr) : option bool :=
  match fuel with
  | O => None
  | S fuel =>
      match g with
      | [] => let? s := p in Some (bool_decide (s = []))
      | c :: g' =>
          let star :=
            match g' with
            | [] => Some true
            | g0 :: _ => let? s := p in star_loop (λ s, match_loop fuel (Some s) g') g0 s
            end in
          if c =? ch "?" then
            let? s := p in
            match s with [] => Some false | _ :: s => match_loop fuel (Some s) g' end
          else if c =? ch "[" then
            let invert := at0 g' =? ch "^" in
            let g' := if invert then drop 1 g' else g' in
            match strchr g' (ch "]") with
            | None => Some false
            | Some _ =>
                let? s := p in
                let? (m, g') := class_loop (at0 s) false g' in
                if xorb m invert then match_loop fuel (next s) (drop 1 g') else Some false
            end
          else if (c =? ch "=") && equals || (c =? ch "*") then star
          else if c =? ch "\" then
            let? s := p in
            if C (at0 s) =? C (at0 g') then
              match g' with
              | [] => None
              | _ :: g' => match_loop fuel (next s) g'
              end
            else Some false
          else
            let? s := p in
            if C (at0 s) =? C c then match_loop fuel (next s) g' else Some false
      end
  end.

(** A round takes at least a character of the pattern. *)
Definition match_one (string glob : cstr) : option bool := match_loop (S (length glob)) (Some string) glob.

Fixpoint match_globs (string : cstr) (globs : list cstr) : option (option cstr) :=
  match globs with
  | [] => Some None
  | g :: globs => let? b := match_one string g in if b then Some (Some g) else match_globs string globs
  end.

(** ** What a pattern means *)

Inductive tok :=
  | TAny
  | TStar
  | TLit (c : Z)
  | TClass (invert : bool) (ranges : list (Z * Z))
  (** A bracket that is not closed matches nothing. *)
  | TBad.

(** The ranges of a class and the pattern from its closing bracket on. *)
Fixpoint class_ranges (g : cstr) : option (list (Z * Z) * cstr) :=
  match g with
  | [] => None
  | x :: r =>
      match r with
      | [] => None
      | y :: r2 =>
          if y =? ch "-" then
            match r2 with
            | [] => None
            | z :: r3 =>
                match r3 with
                | [] => None
                | e :: _ => if e =? ch "]" then Some ([(x, z)], r3) else let? (rs, q) := class_ranges r3 in Some ((x, z) :: rs, q)
                end
            end
          else if y =? ch "]" then Some ([(x, x)], r) else let? (rs, q) := class_ranges r in Some ((x, x) :: rs, q)
      end
  end.

(** [None]: the pattern ends inside an escape or a class. *)
Fixpoint tokens (fuel : nat) (g : cstr) : option (list tok) :=
  match fuel with
  | O => None
  | S fuel =>
      match g with
      | [] => Some []
      | c :: g' =>
          if c =? ch "?" then let? ts := tokens fuel g' in Some (TAny :: ts)
          else if c =? ch "[" then
            let invert := at0 g' =? ch "^" in
            let g' := if invert then drop 1 g' else g' in
            match strchr g' (ch "]") with
            | None => Some [TBad]
            | Some _ =>
                let? (rs, g') := class_ranges g' in
                let? ts := tokens fuel (drop 1 g') in
                Some (TClass invert rs :: ts)
            end
          else if (c =? ch "=") && equals || (c =? ch "*") then let? ts := tokens fuel g' in Some (TStar :: ts)
          else if c =? ch "\" then
            match g' with
            | [] => None
            | x :: g' => let? ts := tokens fuel g' in Some (TLit x :: ts)
            end
          else let? ts := tokens fuel g' in Some (TLit c :: ts)
      end
  end.

Definition pattern (glob : cstr) : option (list tok) := tokens (S (length glob)) glob.

(** A token that stands for one character. *)
Definition one (t : tok) (x : Z) : Prop :=
  match t with
  | TAny => True
  | TLit c => C c = C x
  | TClass invert ranges => (if invert then not else id) (Exists (λ r, C (fst r) <= C x <= C (snd r)) ranges)
  | TStar | TBad => False
  end.

Inductive glob_match : list tok → cstr → Prop :=
  | gm_nil : glob_match [] []
  | gm_one t ts x s : one t x → glob_match ts s → glob_match (t :: ts) (x :: s)
  | gm_star ts a b : glob_match ts b → glob_match (TStar :: ts) (a ++ b).

(** No wildcard for any string follows another one. *)
Fixpoint stars_apart (ts : list tok) : bool :=
  match ts with
  | [] => true
  | t :: r => match t, r with TStar, TStar :: _ => false | _, _ => stars_apart r end
  end.

(** No inverted class is reached at the end of the string. *)
Definition guarded (ts : list tok) (s : cstr) : Prop :=
  ∀ t1 ranges t2, ts = t1 ++ TClass true ranges :: t2 → ¬ glob_match t1 s.

(** ** Correctness *)

Lemma eqb_range a b : (a =? b) = (a <=? b) && (b <=? a).
Proof. destruct (Z.eqb_spec a b), (Z.leb_spec a b), (Z.leb_spec b a); cbn; (done || lia). Qed.

Definition in_ranges (c : Z) (rs : list (Z * Z)) : bool := existsb (λ r, (C (fst r) <=? C c) && (C c <=? C (snd r))) rs.

Lemma class_agree c g : ∀ m, class_loop c m g = let? (rs, q) := class_ranges g in Some (m || in_ranges c rs, q).
Proof.
  induction g as [g IH] using (induction_ltof1 _ (@length Z)). intros m. destruct g as [|x g]; [done|]. destruct g as [|y r]; [done|].
  assert (Hr : ∀ m, class_loop c m (y :: r) = let? (rs, q) := class_ranges (y :: r) in Some (m || in_ranges c rs, q)) by (apply IH; unfold ltof; cbn; lia).
  assert (H3 : ∀ z e r', r = z :: e :: r' → ∀ m, class_loop c m (e :: r') = let? (rs, q) := class_ranges (e :: r') in Some (m || in_ranges c rs, q))
    by (intros z e r' ->; apply IH; unfold ltof; cbn; lia).
  remember (y :: r) as g eqn:Eg. cbn [class_loop class_ranges]. rewrite Eg at 1 2. destruct (y =? ch "-").
  - destruct r as [|z r]; [done|]. destruct r as [|e r]; [done|]. destruct (e =? ch "]"); [unfold in_ranges; cbn [existsb fst snd]; by rewrite orb_false_r|].
    rewrite (H3 z e r eq_refl). destruct (class_ranges (e :: r)) as [[rs q]|]; [|done]. unfold in_ranges. cbn [existsb fst snd]. by rewrite orb_assoc.
  - rewrite (eqb_range (C x) (C c)). destruct (y =? ch "]"); [unfold in_ranges; cbn [existsb fst snd]; by rewrite orb_false_r|].
    rewrite Hr. destruct (class_ranges g) as [[rs q]|]; [|done]. unfold in_ranges. cbn [existsb fst snd]. by rewrite orb_assoc.
Qed.

Lemma in_ranges_spec c rs : in_ranges c rs = true ↔ Exists (λ r, C (fst r) <= C c <= C (snd r)) rs.
Proof.
  unfold in_ranges. rewrite existsb_exists, List.Exists_exists. split; intros (r & Hr & H); exists r; (split; [done|]); [apply andb_true_iff in H as [? ?]|apply andb_true_iff]; lia.
Qed.

Lemma match_cons t ts s : t ≠ TStar → glob_match (t :: ts) s ↔ ∃ x s', s = x :: s' ∧ one t x ∧ glob_match ts s'.
Proof.
  intros Ht. split; [|intros (x & s' & -> & H1 & H2); by constructor]. intros H. inversion H; subst; [|done]. eauto.
Qed.

Lemma match_star ts s : glob_match (TStar :: ts) s ↔ ∃ a b, s = a ++ b ∧ glob_match ts b.
Proof. split; [|intros (a & b & -> & H); by constructor]. intros H. inversion H; subst; [done|eauto]. Qed.

Lemma guarded_one t ts x s : t ≠ TStar → guarded (t :: ts) (x :: s) → one t x → guarded ts s.
Proof. intros Ht Hg Ho t1 rs t2 -> Hm. apply (Hg (t :: t1) rs t2 eq_refl). by constructor. Qed.

Lemma guarded_star ts a b : guarded (TStar :: ts) (a ++ b) → guarded ts b.
Proof. intros Hg t1 rs t2 -> Hm. apply (Hg (TStar :: t1) rs t2 eq_refl). by constructor. Qed.

Lemma stars_tail t ts : stars_apart (t :: ts) = true → stars_apart ts = true.
Proof. cbn [stars_apart]. destruct t; try done. destruct ts as [|[] ?]; done. Qed.

Lemma star_loop_ok rec g0 ts s :
  (∀ a b, s = a ++ b → ∃ r, rec b = Some r ∧ (r = true ↔ glob_match ts b)) →
  ((g0 =? ch "\") || (g0 =? ch "[") || (g0 =? ch "?") || (g0 =? ch "*") = false → ∀ x s', C x ≠ C g0 → ¬ glob_match ts (x :: s')) →
  ∃ r, star_loop rec g0 s = Some r ∧ (r = true ↔ ∃ a b, s = a ++ b ∧ b ≠ [] ∧ glob_match ts b).
Proof.
  intros Hrec Hskip. induction s as [|x s IH]; cbn [star_loop].
  { exists false. split; [done|]. split; [done|]. intros (a & b & E & Hb & _). by symmetry in E; apply app_nil in E as [_ ?]. }
  destruct IH as (r & Er & Hr); [intros a b ->; by apply (Hrec (x :: a))|].
  assert (Hmore : (∃ a b, x :: s = a ++ b ∧ b ≠ [] ∧ glob_match ts b) ↔ glob_match ts (x :: s) ∨ ∃ a b, s = a ++ b ∧ b ≠ [] ∧ glob_match ts b).
  { split.
    - intros ([|y a] & b & E & Hb & Hm); cbn in E; [subst b; by left|]. injection E as -> ->. right. by exists a, b.
    - intros [Hm|(a & b & -> & Hb & Hm)]; [by exists [], (x :: s)|by exists (x :: a), b]. }
  destruct (_ || _) eqn:Em; cbn [negb andb].
  - destruct (Hrec [] (x :: s) eq_refl) as (b & -> & Hb). destruct b.
    + exists true. split; [done|]. rewrite Hmore. split; [|done]. intros _. left. by apply Hb.
    + exists r. split; [done|]. rewrite Hmore, Hr. split; [by right|]. intros [Hm|]; [|done]. apply Hb in Hm. done.
  - destruct (Z.eqb_spec (C x) (C g0)) as [E|E]; cbn [negb].
    + destruct (Hrec [] (x :: s) eq_refl) as (b & -> & Hb). destruct b.
      * exists true. split; [done|]. rewrite Hmore. split; [|done]. intros _. left. by apply Hb.
      * exists r. split; [done|]. rewrite Hmore, Hr. split; [by right|]. intros [Hm|]; [|done]. apply Hb in Hm. done.
    + exists r. split; [done|]. rewrite Hmore, Hr. split; [by right|]. intros [Hm|]; [|done]. by apply Hskip in Hm.
Qed.

End Match.

Section Correct.
Variables (equals ignorecase : bool).

Abbreviation matches := (glob_match ignorecase).

(** A token for one character at the front. *)
Lemma one_ok fuel t ts g s (test : bool) :
  t ≠ TStar → (∀ x s', s = x :: s' → test = true ↔ one ignorecase t x) → (s = [] → test = false) →
  (∀ x s', s = x :: s' → test = true → ∃ b, match_loop equals ignorecase fuel (Some s') g = Some b ∧ (b = true ↔ matches ts s')) →
  ∃ b, (if test then match_loop equals ignorecase fuel (next s) g else Some false) = Some b ∧ (b = true ↔ matches (t :: ts) s).
Proof.
  intros Ht Hone Hend Hrest. pose proof (match_cons ignorecase t ts s Ht) as Hm. destruct s as [|x s].
  - rewrite Hend by done. exists false. split; [done|]. rewrite Hm. split; [done|]. intros (x & s' & ? & _). done.
  - specialize (Hone x s eq_refl). destruct test.
    + destruct (Hrest x s eq_refl eq_refl) as (b & E & Hb). exists b. split; [exact E|]. rewrite Hb, Hm. split; [|intros (x' & s' & [= <- <-] & _ & H); done].
      intros H. exists x, s. split; [done|]. split; [by apply Hone|done].
    + exists false. split; [done|]. rewrite Hm. split; [done|]. intros (x' & s' & [= <- <-] & H & _). apply Hone in H. done.
Qed.

(** The first token of a pattern that does not start with a wildcard. *)
Lemma tokens_lit fuel g0 g t ts : tokens equals fuel (g0 :: g) = Some (t :: ts) → t ≠ TStar →
  (g0 =? ch "\") || (g0 =? ch "[") || (g0 =? ch "?") || (g0 =? ch "*") = false → t = TLit g0.
Proof.
  intros Ht Hs Hm. rewrite !orb_false_iff in Hm. destruct Hm as (((M1 & M2) & M3) & M4). destruct fuel as [|fuel]; [done|]. cbn [tokens] in Ht.
  rewrite M1, M2, M3, M4, orb_false_r in Ht. destruct ((g0 =? ch "=") && equals).
  - destruct (tokens equals fuel g); [|done]. by injection Ht as <- <-.
  - destruct (tokens equals fuel g); [|done]. by injection Ht as <- <-.
Qed.

Lemma tokens_nil fuel g : tokens equals fuel g = Some [] → g = [].
Proof.
  destruct fuel as [|fuel]; [done|]. destruct g as [|c g]; [done|]. cbn [tokens].
  destruct (c =? ch "?"); [by destruct (tokens equals fuel g)|]. destruct (c =? ch "[").
  { destruct (strchr _ _); [|done]. destruct (class_ranges _) as [[rs q]|]; [|done]. by destruct (tokens equals fuel _). }
  destruct (_ || _); [by destruct (tokens equals fuel g)|]. destruct (c =? ch "\"); [|by destruct (tokens equals fuel g)].
  destruct g; [done|]. by destruct (tokens equals fuel g).
Qed.

Lemma C_pos c : 0 < c → 0 < C ignorecase c.
Proof. unfold C, tolower. destruct ignorecase; [|done]. destruct (_ && _); lia. Qed.

Lemma C_zero : C ignorecase 0 = 0.
Proof. by destruct ignorecase. Qed.

Lemma class_ranges_pos g : ∀ rs q, class_ranges g = Some (rs, q) → Forall (λ c, 0 < c) g → Forall (λ r, 0 < fst r) rs ∧ Forall (λ c, 0 < c) q.
Proof.
  induction g as [g IH] using (induction_ltof1 _ (@length Z)). intros rs q E Hg. destruct g as [|x g]; [done|]. apply Forall_cons in Hg as [Hx Hg].
  destruct g as [|y r]; [done|].
  assert (Hr : ∀ rs q, class_ranges (y :: r) = Some (rs, q) → Forall (λ r, 0 < fst r) rs ∧ Forall (λ c, 0 < c) q)
    by (intros rs' q' E'; apply (IH (y :: r)) in E'; [done|unfold ltof; cbn; lia|done]).
  assert (H3 : ∀ z e r', r = z :: e :: r' → ∀ rs q, class_ranges (e :: r') = Some (rs, q) → Forall (λ r, 0 < fst r) rs ∧ Forall (λ c, 0 < c) q).
  { intros z e r' -> rs' q' E'. apply (IH (e :: r')) in E'; [done|unfold ltof; cbn; lia|]. do 2 apply Forall_cons in Hg as [_ Hg]. done. }
  remember (y :: r) as g eqn:Eg. cbn [class_ranges] in E. rewrite Eg in E at 1. destruct (y =? ch "-").
  - destruct r as [|z r]; [done|]. destruct r as [|e r]; [done|]. destruct (e =? ch "]").
    + injection E as <- <-. split; [by repeat constructor|]. subst g. do 2 apply Forall_cons in Hg as [_ Hg]. done.
    + destruct (class_ranges (e :: r)) as [[rs' q']|] eqn:E'; [|done]. injection E as <- <-. apply (H3 z e r eq_refl) in E' as [? ?]. split; [by constructor|done].
  - destruct (y =? ch "]"); [injection E as <- <-; split; [by repeat constructor|done]|].
    destruct (class_ranges g) as [[rs' q']|] eqn:E'; [|done]. injection E as <- <-. destruct (Hr _ _ eq_refl) as [? ?]. split; [by constructor|done].
Qed.

Lemma class_end rs : Forall (λ r, 0 < fst r) rs → in_ranges ignorecase 0 rs = false.
Proof.
  intros H. apply not_true_iff_false. rewrite in_ranges_spec. intros (r & Hr & Hle)%List.Exists_exists. rewrite Forall_forall in H.
  apply list_elem_of_In in Hr. specialize (C_pos _ (H r Hr)). rewrite C_zero in Hle. lia.
Qed.

Lemma star_ok fuel g0 g ts s :
  (∀ s, guarded ignorecase ts s → Forall (λ c, 0 < c) s → ∃ b, match_loop equals ignorecase fuel (Some s) (g0 :: g) = Some b ∧ (b = true ↔ matches ts s)) →
  tokens equals fuel (g0 :: g) = Some ts → stars_apart (TStar :: ts) = true → guarded ignorecase (TStar :: ts) s → Forall (λ c, 0 < c) s →
  ∃ b, star_loop ignorecase (λ s, match_loop equals ignorecase fuel (Some s) (g0 :: g)) g0 s = Some b ∧ (b = true ↔ matches (TStar :: ts) s).
Proof.
  intros IH Ht Hst Hg Hs. destruct ts as [|t ts]; [by apply tokens_nil in Ht|].
  assert (Hns : t ≠ TStar) by (by intros ->).
  destruct (star_loop_ok ignorecase (λ s, match_loop equals ignorecase fuel (Some s) (g0 :: g)) g0 (t :: ts) s) as (b & E & Hb).
  - intros a b ->. apply IH; [by eapply guarded_star|by apply Forall_app in Hs as [_ ?]].
  - intros Hm x s' Hx. rewrite (tokens_lit fuel g0 g t ts Ht Hns Hm). rewrite match_cons by done. intros (x' & ? & [= <- <-] & Ho & _). by cbn in Ho.
  - exists b. split; [done|]. rewrite Hb, match_star. split; intros (x & y & H1 & H2).
    + destruct H2 as [_ H2]. eauto.
    + exists x, y. split; [done|]. split; [|done]. intros ->. apply match_cons in H2 as (? & ? & ? & _); done.
Qed.

Lemma match_loop_ok fuel : ∀ g ts s, tokens equals fuel g = Some ts → stars_apart ts = true → guarded ignorecase ts s → Forall (λ c, 0 < c) s →
  Forall (λ c, 0 < c) g →
  ∃ b, match_loop equals ignorecase fuel (Some s) g = Some b ∧ (b = true ↔ matches ts s).
Proof.
  induction fuel as [|fuel IH]; intros g ts s Ht Hst Hg Hs Hgp; [done|]. cbn [tokens match_loop] in *. destruct g as [|c g].
  { injection Ht as <-. eexists. split; [done|]. rewrite bool_decide_eq_true. split; [intros ->; constructor|]. by inversion 1. }
  apply Forall_cons in Hgp as [Hc Hgp].
  assert (Htail : ∀ x s', s = x :: s' → Forall (λ c, 0 < c) s') by (intros x s' ->; by apply Forall_cons in Hs as [_ ?]).
  assert (Hlit : ∀ z g' ts', 0 < z → ts = TLit z :: ts' → tokens equals fuel g' = Some ts' → Forall (λ c, 0 < c) g' →
    ∃ b, (if C ignorecase (at0 s) =? C ignorecase z then match_loop equals ignorecase fuel (next s) g' else Some false) = Some b ∧ (b = true ↔ matches ts s)).
  { intros z g' ts' Hz -> Ht' Hg'. apply one_ok; [done| | |].
    - intros x s' ->. cbn. rewrite Z.eqb_eq. split; congruence.
    - intros ->. cbn. rewrite C_zero. apply Z.eqb_neq. pose proof (C_pos z Hz). lia.
    - intros x s' -> E. apply IH; [done|by apply stars_tail in Hst| |by eapply Htail|done]. eapply guarded_one; [|exact Hg|]; [done|]. apply Z.eqb_eq in E. by cbn in *. }
  destruct (c =? ch "?").
  { destruct (tokens equals fuel g) as [ts'|] eqn:Et; [|done]. injection Ht as <-.
    assert (E : match s with [] => Some false | _ :: s' => match_loop equals ignorecase fuel (Some s') g end =
      (if negb (bool_decide (s = [])) then match_loop equals ignorecase fuel (next s) g else Some false)) by (by destruct s).
    rewrite E. apply one_ok; [done|by intros x s' ->|by intros ->|]. intros x s' -> _. apply IH; [done|by apply stars_tail in Hst| |by eapply Htail|done].
    by eapply guarded_one; [|exact Hg|]. }
  destruct (c =? ch "[").
  { set (invert := at0 g =? ch "^") in *. set (g1 := if invert then drop 1 g else g) in *.
    assert (Hg1 : Forall (λ c, 0 < c) g1) by (subst g1; destruct invert; [by apply Forall_drop|done]).
    destruct (strchr g1 (ch "]")); [|injection Ht as <-; exists false; split; [done|]; split; [done|]; intros (x & s' & _ & [] & _)%match_cons; done].
    rewrite class_agree. destruct (class_ranges g1) as [[rs q]|] eqn:Er; [|done]. destruct (class_ranges_pos _ _ _ Er Hg1) as [Hrs Hq].
    destruct (tokens equals fuel (drop 1 q)) as [ts'|] eqn:Et; [|done]. injection Ht as <-. cbn [orb].
    assert (Hone : ∀ x, xorb (in_ranges ignorecase x rs) invert = true ↔ one ignorecase (TClass invert rs) x).
    { intros x. cbn [one]. pose proof (in_ranges_spec ignorecase x rs) as Hi. destruct invert; unfold id; [unfold not|]; rewrite <- Hi; destruct (in_ranges ignorecase x rs); cbn; split; try done. }
    apply one_ok; [done|by intros x s' ->; apply Hone| |].
    - intros ->. cbn [at0 hd]. rewrite class_end by done. destruct invert eqn:Ei; [|done]. exfalso. apply (Hg [] rs ts'); [done|constructor].
    - intros x s' -> E. apply IH; [done|by apply stars_tail in Hst| |by eapply Htail|by apply Forall_drop]. eapply guarded_one; [|exact Hg|]; [done|]. by apply Hone. }
  destruct (_ || _).
  { destruct (tokens equals fuel g) as [ts'|] eqn:Et; [|done]. injection Ht as <-. destruct g as [|g0 g].
    - exists true. split; [done|]. split; [|done]. intros _. apply match_star. exists s, []. rewrite app_nil_r. split; [done|].
      destruct fuel; [done|]. injection Et as <-. constructor.
    - apply star_ok; [|done|done|done|done]. intros s2 Hg2 Hs2. apply IH; [done|by apply stars_tail in Hst|done|done|done]. }
  destruct (c =? ch "\").
  - destruct g as [|z g]; [done|]. destruct (tokens equals fuel g) as [ts'|] eqn:Et; [|done]. injection Ht as <-. apply Forall_cons in Hgp as [Hz Hgp].
    cbn [at0 hd]. by apply (Hlit z g ts').
  - destruct (tokens equals fuel g) as [ts'|] eqn:Et; [|done]. injection Ht as <-. by apply (Hlit c g ts').
Qed.

End Correct.

(** C25. Matching file names.  Take a pattern whose escapes and classes are closed and
    in which no star follows another one, and a string that does not end where an
    inverted class of the pattern is looked for ([guarded]; there [match_one] reads
    past the end, see [match_one_edges]).  Then [match_one] returns,
    without reading past the end of either, and says whether the string matches the
    tokens of the pattern: a star stands for any string, a question mark for any
    character, a class for the characters of its ranges (or the others), an escaped
    or plain character for itself. *)
Theorem match_one_correct equals ignorecase string glob ts :
  cbytes string → cbytes glob → pattern equals glob = Some ts → stars_apart ts = true → guarded ignorecase ts string →
  ∃ b, match_one equals ignorecase string glob = Some b ∧ (b = true ↔ glob_match ignorecase ts string).
Proof.
  intros Hs Hg Hp Hst Hgd. apply match_loop_ok; [exact Hp|done|done|eapply Forall_impl; [exact Hs|]; cbn; lia|eapply Forall_impl; [exact Hg|]; cbn; lia].
Qed.

Lemma match_one_correct_witness :
  ∃ b, match_one false true (s2b "Main.c") (s2b "m*.[^h-z]") = Some b ∧
    (b = true ↔ glob_match true [TLit 109; TStar; TLit 46; TClass true [(104, 122)]] (s2b "Main.c")).
Proof.
  apply (match_one_correct false true (s2b "Main.c") (s2b "m*.[^h-z]")).
  - by repeat constructor.
  - by repeat constructor.
  - reflexivity.
  - reflexivity.
  - intros t1 rs t2 E. assert (Et : t1 = [TLit 109; TStar; TLit 46]).
    { destruct t1 as [|a1 [|a2 [|a3 [|a4 t4]]]]; try discriminate E; [by injection E as <- <- <- _ _|]. injection E as <- <- <- <- E. by destruct t4. }
    subst t1. intros Hm. apply match_cons in Hm as (x & s & Es & _ & Hm); [|done]. injection Es as <- <-.
    apply match_star in Hm as (a & b & Eab & Hm). apply match_cons in Hm as (y & r & -> & Hy & Hm); [|done]. inversion Hm; subst r. cbn in Hy.
    apply (f_equal last) in Eab. rewrite last_snoc in Eab. injection Eab as <-. done.
Defined.

(** Outside of these conditions: a class that is not closed after its first
    character, an escape at the end and an inverted class at the end of the string
    read past the end; two stars do not match the empty string; an inverted class
    and a star match it. *)
Example match_one_edges :
  match_one false false (s2b "a") (s2b "[]") = None ∧ match_one false false [] (s2b "\") = None ∧
  match_one false false [] (s2b "[^a]") = None ∧ match_one false false [] (s2b "**") = Some false ∧
  match_one false false [] (s2b "[^a]*") = Some true.
Proof. by vm_compute. Qed.

(** Patterns that are not globs match themselves only. *)
Lemma plain_tokens equals fuel g : (length g < fuel)%nat → Forall (λ c, c ≠ ch "\") g → is_glob_loop equals false g g = None →
  tokens equals fuel g = Some (map TLit g).
Proof.
  assert (Hp : ∀ p p' g, Forall (λ c, c ≠ ch "\") g → is_glob_loop equals false p g = None → is_glob_loop equals false p' g = None).
  { intros p p' l Hl. revert p p'. induction Hl as [|c l Hc _ IH]; intros p p'; [done|]. cbn [is_glob_loop].
    destruct (c =? ch "/"); [by apply IH|]. destruct (Z.eqb_spec c (ch "\")); [done|]. destruct (_ || _); [done|]. apply IH. }
  intros Hf Hg. revert fuel Hf. induction Hg as [|c g Hc Hg IH]; intros fuel Hf; (destruct fuel as [|fuel]; [cbn in Hf; lia|]); [done|].
  intros Hi. assert (Hrest : is_glob_loop equals false g g = None ∧ (c =? ch "?") = false ∧ (c =? ch "[") = false ∧ (c =? ch "=") && equals || (c =? ch "*") = false).
  { cbn [is_glob_loop] in Hi. destruct (Z.eqb_spec c (ch "/")) as [->|Hs]; [split; [by eapply Hp|done]|]. destruct (Z.eqb_spec c (ch "\")); [done|].
    destruct (_ || _) eqn:E; [done|]. rewrite !orb_false_iff in E. destruct E as (((E1 & E2) & E3) & E4). split; [by eapply Hp|]. by rewrite E1, E2, E3, E4. }
  destruct Hrest as (Hi' & E1 & E2 & E3). cbn [tokens map]. rewrite E1, E2, E3. destruct (Z.eqb_spec c (ch "\")); [done|].
  cbn in Hf. by rewrite IH by (done || lia).
Qed.

Lemma is_glob_none equals g s : cbytes g → cbytes s → Forall (λ c, c ≠ ch "\") g → is_glob equals g = None →
  match_one equals false s g = Some (bool_decide (s = g)).
Proof.
  intros Hg Hs Hb Hi. pose proof (plain_tokens equals (S (length g)) g (Nat.lt_succ_diag_r _) Hb Hi) as Ht.
  assert (Hm : ∀ l s, glob_match false (map TLit l) s ↔ s = l).
  { induction l as [|c l IH]; intros x; cbn [map]; [split; [by inversion 1|intros ->; constructor]|]. rewrite match_cons by done. split.
    - intros (y & x' & -> & E & H). cbn in E. subst. apply IH in H. by subst.
    - intros ->. exists c, l. split; [done|]. split; [done|]. by apply IH. }
  destruct (match_loop_ok equals false (S (length g)) g (map TLit g) s) as (b & E & H); [done| | |eapply Forall_impl; [exact Hs|]; cbn; lia|eapply Forall_impl; [exact Hg|]; cbn; lia|].
  - clear. induction g as [|c g IH]; [done|]. done.
  - intros t1 rs t2 E. exfalso. clear -E. revert t1 E. induction g as [|c g IH]; intros [|t t1] E; try done. injection E as _ E. by eapply IH.
  - unfold match_one. rewrite E. f_equal. rewrite Hm in H. destruct b; symmetry; [apply bool_decide_eq_true; by apply H|apply bool_decide_eq_false; intros Hsg; by apply H in Hsg].
Qed.

(** A slash after a backslash leaves [is_glob] in the escape. *)
Example is_glob_escape : is_glob false (s2b "\/*") = None ∧ match_one false false (s2b "/x") (s2b "\/*") = Some true.
Proof. by vm_compute. Qed.
