(* ===== verification/UU.v ===== *)
(** * UU: uuencoding

    [uuencode1], [uuencode], [uuencode_sum], [uudecode1] and [uudecode] of
    src/src/slib.c, which store binary files in a text weave.  The stack buffers
    are lists of their length with arbitrary contents; every read and write of
    them is checked, and [None] is an access out of bounds.

    A file being read is the list of what the successive calls of [fread]
    return, so the theorems hold however the reads are split. *)

From S2P Require Import Prelude CStr Weave.
From stdpp Require Import base numbers list.
From Stdlib Require Import ZArith Lia.

Local Open Scope Z_scope.

Local Open Scope bk_scope.

Definition ENC (c : Z) : Z := Z.land (u8 c) 63 + 32.

Definition DEC (c : Z) : Z := Z.land (u8 c - 32) 63.

(** ** Encoding *)

Fixpoint uuencode1_loop (fuel : nat) (from : cstr) (n i : nat) (to : cstr) : option cstr :=
  match fuel with
  | O => None
  | S fuel =>
      if (i <? n)%nat then
        let? f0 := from !! i in
        let? f1 := from !! (i + 1)%nat in
        let? f2 := from !! (i + 2)%nat in
        let c0 := Z.shiftr f0 2 in
        let c1 := Z.lor (Z.land (Z.shiftl f0 4) 48) (Z.land (Z.shiftr f1 4) 15) in
        let c2 := Z.lor (Z.land (Z.shiftl f1 2) 60) (Z.land (Z.shiftr f2 6) 3) in
        let c3 := Z.land f2 63 in
        uuencode1_loop fuel from n (i + 3) (to ++ [ENC c0; ENC c1; ENC c2; ENC c3])
      else Some to
  end.

(** The bytes written before the NUL; their number is what is returned. *)
Definition uuencode1 (from : cstr) (n : nat) : option cstr :=
  let? to := uuencode1_loop (S n) from n 0 [ENC (Z.of_nat n)] in
  Some (to ++ [10]).

(** [p[at..] = bytes], inside the buffer. *)
Definition store (at_ : nat) (bytes buf : cstr) : option cstr :=
  if (at_ + length bytes <=? length buf)%nat then Some (list_inserts at_ bytes buf) else None.

(** Zeros after a short last block. *)
Definition uu_pad (inp n : nat) (ibuf : cstr) : option cstr :=
  if (n <? 45)%nat then store (inp + n) (replicate (45 - n) 0) ibuf else Some ibuf.

(** The inner loop: [k] is called with the bytes of each line. *)
Fixpoint uu_lines {S} (fuel : nat) (k : cstr → S → option S) (ibuf : cstr) (inp length : nat) (st : S)
  : option (cstr * S) :=
  match fuel with
  | O => None
  | S fuel =>
      if (0 <? length)%nat then
        let n := if (45 <? length)%nat then 45%nat else length in
        let? ibuf := uu_pad inp n ibuf in
        let? line := uuencode1 (drop inp ibuf) n in
        let? st := k line st in
        uu_lines fuel k ibuf (inp + n) (length - n) st
      else Some (ibuf, st)
  end.

(** The state of [uuencode_sum]: what was written, [s->dsum] and [added]. *)
Record uusum := mkUusum { uu_out : cstr; uu_dsum : Z; uu_added : Z }.

(** A line of [uuencode_sum]: it must fit [obuf[80]] with its NUL. *)
Definition sum_line (line : cstr) (st : uusum) : option uusum :=
  assert! (length line + 1 <=? 80)%nat ;
  Some (mkUusum (uu_out st ++ line) (u16 (uu_dsum st + str_cksum line)) (int32 (uu_added st + 1))).

Fixpoint uuencode_sum_loop (ibuf : cstr) (fh : list cstr) (st : uusum) : option uusum :=
  match fh with
  | [] => Some st
  | chunk :: fh =>
      let? ibuf := store 0 chunk ibuf in
      let? res := uu_lines (S (length chunk)) sum_line ibuf 0 (length chunk) st in
      let '(ibuf, st) := res in
      uuencode_sum_loop ibuf fh st
  end.

Definition uuencode_sum (ibuf : cstr) (dsum : Z) (fh : list cstr) : option uusum :=
  let? st := uuencode_sum_loop ibuf fh (mkUusum [] dsum 0) in
  Some (mkUusum (uu_out st ++ [32; 10]) (u16 (uu_dsum st + str_cksum [32; 10])) (int32 (uu_added st + 1))).

(** A line of [uuencode]: the lines of a read gather in [obuf[650]]. *)
Definition enc_line (line : cstr) (st : cstr * Z) : option (cstr * Z) :=
  let '(obuf, added) := st in
  assert! (length (obuf ++ line) + 1 <=? 650)%nat ; Some (obuf ++ line, int32 (added + 1)).

Fixpoint uuencode_loop (ibuf : cstr) (fh : list cstr) (out : cstr) (added : Z) : option (cstr * Z) :=
  match fh with
  | [] => Some (out, added)
  | chunk :: fh =>
      let? ibuf := store 0 chunk ibuf in
      let? res := uu_lines (S (length chunk)) enc_line ibuf 0 (length chunk) ([], added) in
      let '(ibuf, (obuf, added)) := res in
      uuencode_loop ibuf fh (out ++ obuf) added
  end.

(** What is written and what is returned. *)
Definition uuencode (ibuf : cstr) (fh : list cstr) : option (cstr * Z) :=
  let? res := uuencode_loop ibuf fh [] 0 in
  let '(out, added) := res in
  Some (out ++ [32; 10], int32 (added + 1)).

(** ** Decoding *)

(** The [while]; [from] is an index of [ibuf]. *)
Fixpoint uudecode1_loop (fuel : nat) (ibuf : cstr) (from : nat) (length : Z) (to : cstr) : option cstr :=
  match fuel with
  | O => None
  | S fuel =>
      if length >? 0 then
        let? f0 := ibuf !! from in
        let? f1 := ibuf !! (from + 1)%nat in
        let to := to ++ [u8 (Z.lor (Z.shiftl (DEC f0) 2) (Z.shiftr (DEC f1) 4))] in
        let length := length - 1 in
        let? to := (if length >? 0 then
          let? f2 := ibuf !! (from + 2)%nat in
          Some (to ++ [u8 (Z.lor (Z.shiftl (DEC f1) 4) (Z.shiftr (DEC f2) 2))]) else Some to) in
        let length := length - 1 in
        let? to := (if length >? 0 then
          let? f2 := ibuf !! (from + 2)%nat in
          let? f3 := ibuf !! (from + 3)%nat in
          Some (to ++ [u8 (Z.lor (Z.shiftl (DEC f2) 6) (DEC f3))]) else Some to) in
        let length := length - 1 in
        uudecode1_loop fuel ibuf (from + 4) length to
      else Some to
  end.

(** The bytes stored at [to]; the return value is their number. *)
Definition uudecode1 (ibuf : cstr) : option cstr :=
  let? f0 := ibuf !! 0%nat in
  let? f1 := ibuf !! 1%nat in
  if (f0 =? 0) || (f1 =? 0) then Some [] else
  let length := DEC f0 in
  if length =? 0 then Some [] else
  if length >? 50 then Some [] else
  uudecode1_loop 60 ibuf 1 length [].

(** [fgets]: at most [size - 1] bytes, up to a newline. *)
Fixpoint fgets (size : nat) (s : cstr) : cstr * cstr :=
  match size, s with
  | S (S size), c :: s =>
      if c =? 10 then ([c], s) else let '(l, s) := fgets (S size) s in (c :: l, s)
  | _, _ => ([], s)
  end.

(** [fnext] fails at the end of the file.  A round reads a byte at least. *)
Fixpoint uudecode_loop (fuel : nat) (ibuf inp out : cstr) (moved : Z) : option (cstr * Z) :=
  match inp, fuel with
  | [], _ => Some (out, moved)
  | _, O => None
  | _, S fuel =>
      let '(l, inp) := fgets 650 inp in
      let? ibuf := store 0 (l ++ [0]) ibuf in
      let? obuf := uudecode1 ibuf in
      assert! (length obuf <=? 450)%nat ;
      uudecode_loop fuel ibuf inp (out ++ obuf) (int32 (moved + Z.of_nat (length obuf)))
  end.

Definition uudecode (ibuf inp : cstr) : option (cstr * Z) :=
  uudecode_loop (length inp) ibuf inp [] 0.

(** ** Groups of three bytes *)

Definition byte (c : Z) : Prop := 0 <= c < 256.

(** Checked on every pair. *)
Definition all2 (n m : nat) (P : Z → Z → bool) : bool :=
  forallb (λ a, forallb (λ b, P (Z.of_nat a) (Z.of_nat b)) (seq 0 m)) (seq 0 n).

Lemma all2_spec n m P a b :
  all2 n m P = true → 0 <= a < Z.of_nat n → 0 <= b < Z.of_nat m → P a b = true.
Proof.
  unfold all2. intros H Ha Hb. rewrite forallb_forall in H. specialize (H (Z.to_nat a)).
  rewrite in_seq, forallb_forall in H. specialize (H ltac:(lia) (Z.to_nat b)). rewrite in_seq, !Z2Nat.id in H by lia.
  apply H. lia.
Qed.


Lemma enc_mid : ∀ a b, byte a → byte b →
  Z.lor (Z.land (Z.shiftl a 4) 48) (Z.land (Z.shiftr b 4) 15) = a mod 4 * 16 + b / 16.
Proof.
  intros a b Hx Hy. apply Z.eqb_eq.
  apply (all2_spec 256 256 (λ a b, Z.lor (Z.land (Z.shiftl a 4) 48) (Z.land (Z.shiftr b 4) 15) =? a mod 4 * 16 + b / 16)); [vm_compute; reflexivity|unfold byte in *; lia..].
Qed.

Lemma enc_low : ∀ a b, byte a → byte b →
  Z.lor (Z.land (Z.shiftl a 2) 60) (Z.land (Z.shiftr b 6) 3) = a mod 16 * 4 + b / 64.
Proof.
  intros a b Hx Hy. apply Z.eqb_eq.
  apply (all2_spec 256 256 (λ a b, Z.lor (Z.land (Z.shiftl a 2) 60) (Z.land (Z.shiftr b 6) 3) =? a mod 16 * 4 + b / 64)); [vm_compute; reflexivity|unfold byte in *; lia..].
Qed.

Lemma dec_0 : ∀ x y, 0 <= x < 64 → 0 <= y < 64 → u8 (Z.lor (Z.shiftl x 2) (Z.shiftr y 4)) = x * 4 + y / 16.
Proof.
  intros x y Hx Hy. apply Z.eqb_eq.
  apply (all2_spec 64 64 (λ x y, u8 (Z.lor (Z.shiftl x 2) (Z.shiftr y 4)) =? x * 4 + y / 16)); [vm_compute; reflexivity|unfold byte in *; lia..].
Qed.

Lemma dec_1 : ∀ x y, 0 <= x < 64 → 0 <= y < 64 → u8 (Z.lor (Z.shiftl x 4) (Z.shiftr y 2)) = x mod 16 * 16 + y / 4.
Proof.
  intros x y Hx Hy. apply Z.eqb_eq.
  apply (all2_spec 64 64 (λ x y, u8 (Z.lor (Z.shiftl x 4) (Z.shiftr y 2)) =? x mod 16 * 16 + y / 4)); [vm_compute; reflexivity|unfold byte in *; lia..].
Qed.

Lemma dec_2 : ∀ x y, 0 <= x < 64 → 0 <= y < 64 → u8 (Z.lor (Z.shiftl x 6) y) = x mod 4 * 64 + y.
Proof.
  intros x y Hx Hy. apply Z.eqb_eq.
  apply (all2_spec 64 64 (λ x y, u8 (Z.lor (Z.shiftl x 6) y) =? x mod 4 * 64 + y)); [vm_compute; reflexivity|unfold byte in *; lia..].
Qed.

Lemma ENC_small x : 0 <= x < 64 → ENC x = x + 32.
Proof.
  intros H. unfold ENC, u8. rewrite (Z.mod_small x) by lia. change 63 with (Z.ones 6). rewrite Z.land_ones by lia.
  change (2 ^ 6) with 64. rewrite Z.mod_small by lia. lia.
Qed.

Lemma DEC_ENC x : 0 <= x < 64 → DEC (x + 32) = x.
Proof.
  intros H. unfold DEC, u8. rewrite (Z.mod_small (x + 32)) by lia. change 63 with (Z.ones 6). rewrite Z.land_ones by lia.
  change (2 ^ 6) with 64. rewrite Z.mod_small by lia. lia.
Qed.

(** The four bytes of a group. *)
Definition group (a b c : Z) : cstr :=
  [a / 4 + 32; (a mod 4 * 16 + b / 16) + 32; (b mod 16 * 4 + c / 64) + 32; c mod 64 + 32].

Lemma group_enc a b c :
  byte a → byte b → byte c →
  [ENC (Z.shiftr a 2); ENC (Z.lor (Z.land (Z.shiftl a 4) 48) (Z.land (Z.shiftr b 4) 15));
   ENC (Z.lor (Z.land (Z.shiftl b 2) 60) (Z.land (Z.shiftr c 6) 3)); ENC (Z.land c 63)] = group a b c.
Proof.
  intros Ha Hb Hc. rewrite enc_mid, enc_low by done. unfold byte in *. rewrite Z.shiftr_div_pow2 by lia. change (2 ^ 2) with 4.
  change 63 with (Z.ones 6). rewrite Z.land_ones by lia. change (2 ^ 6) with 64.
  pose proof (Z.mod_pos_bound a 4). pose proof (Z.mod_pos_bound b 16). pose proof (Z.mod_pos_bound c 64).
  assert (0 <= a / 4 < 64) by (split; [apply Z.div_pos|apply Z.div_lt_upper_bound]; lia).
  assert (0 <= b / 16 < 16) by (split; [apply Z.div_pos|apply Z.div_lt_upper_bound]; lia).
  assert (0 <= c / 64 < 4) by (split; [apply Z.div_pos|apply Z.div_lt_upper_bound]; lia).
  unfold group. rewrite !ENC_small by lia. done.
Qed.

(** The digits of a group, and what decoding makes of them. *)
Lemma group_dec a b c :
  byte a → byte b → byte c →
  let x0 := DEC (a / 4 + 32) in
  let x1 := DEC ((a mod 4 * 16 + b / 16) + 32) in
  let x2 := DEC ((b mod 16 * 4 + c / 64) + 32) in
  let x3 := DEC (c mod 64 + 32) in
  u8 (Z.lor (Z.shiftl x0 2) (Z.shiftr x1 4)) = a ∧
  u8 (Z.lor (Z.shiftl x1 4) (Z.shiftr x2 2)) = b ∧
  u8 (Z.lor (Z.shiftl x2 6) x3) = c.
Proof.
  intros Ha Hb Hc. cbv zeta. unfold byte in *.
  pose proof (Z.mod_pos_bound a 4). pose proof (Z.mod_pos_bound b 16). pose proof (Z.mod_pos_bound c 64).
  pose proof (Z.div_mod a 4). pose proof (Z.div_mod b 16). pose proof (Z.div_mod c 64).
  assert (0 <= a / 4 < 64) by lia. assert (0 <= b / 16 < 16) by lia. assert (0 <= c / 64 < 4) by lia.
  rewrite !DEC_ENC by lia. rewrite dec_0, dec_1, dec_2 by lia. split_and!.
  - rewrite Z.div_add_l by lia. rewrite (Z.div_small (b / 16)) by lia. lia.
  - replace (a mod 4 * 16 + b / 16) with (b / 16 + a mod 4 * 16) by lia. rewrite Z.mod_add, Z.mod_small by lia.
    rewrite Z.div_add_l by lia. rewrite (Z.div_small (c / 64)) by lia. lia.
  - replace (b mod 16 * 4 + c / 64) with (c / 64 + b mod 16 * 4) by lia. rewrite Z.mod_add, Z.mod_small by lia. lia.
Qed.

(** ** A line *)

Fixpoint body (fuel : nat) (xs : cstr) : cstr :=
  match fuel with
  | O => []
  | S fuel =>
      match xs with
      | [] => []
      | [a] => group a 0 0
      | [a; b] => group a b 0
      | a :: b :: c :: xs => group a b c ++ body fuel xs
      end
  end.

Definition uu_line (xs : cstr) : cstr :=
  [Z.of_nat (length xs) + 32] ++ body (length xs) xs ++ [10].

Lemma lookup_drop_cons (l : cstr) i x r : drop i l = x :: r → l !! i = Some x ∧ drop (i + 1) l = r.
Proof.
  intros H. split.
  - rewrite <- (Nat.add_0_r i), <- lookup_drop, H. done.
  - rewrite <- drop_drop, H. cbn. by rewrite drop_0.
Qed.

Lemma lookup_drop3 (l : cstr) i a b c r :
  drop i l = a :: b :: c :: r →
  l !! i = Some a ∧ l !! (i + 1)%nat = Some b ∧ l !! (i + 2)%nat = Some c ∧ drop (i + 3) l = r.
Proof.
  intros H. apply lookup_drop_cons in H as [H1 H]. apply lookup_drop_cons in H as [H2 H].
  apply lookup_drop_cons in H as [H3 H]. rewrite <- !Nat.add_assoc in *. done.
Qed.

Lemma byte_0 : byte 0.
Proof. unfold byte. lia. Qed.

Lemma uuencode1_loop_ok fuel from n i ys m rest to f :
  drop i from = ys ++ replicate m 0 ++ rest → n = (i + length ys)%nat → Forall byte ys →
  ((length ys + m) mod 3 = 0)%nat → (length ys < fuel)%nat → (length ys <= f)%nat →
  uuencode1_loop fuel from n i to = Some (to ++ body f ys).
Proof.
  revert i ys to f. induction fuel as [|fuel IH]; intros i ys to f Hd Hn Hys Hm Hf Hff; [lia|]. cbn [uuencode1_loop].
  assert (Hstop : ∀ j t, (n <= j)%nat → uuencode1_loop fuel from n j t = Some t ∨ fuel = O).
  { intros j t Hj. destruct fuel; [by right|]. left. cbn [uuencode1_loop]. by rewrite (proj2 (Nat.ltb_ge _ _)). }
  destruct ys as [|a [|b [|c ys]]]; cbn [length] in *.
  - rewrite (proj2 (Nat.ltb_ge _ _)) by lia. destruct f; cbn; by rewrite app_nil_r.
  - destruct m as [|[|m]]; [done..|]. destruct f as [|f]; [lia|]. cbn [app replicate] in Hd.
    apply lookup_drop3 in Hd as (-> & -> & -> & _). rewrite (proj2 (Nat.ltb_lt _ _)) by lia.
    rewrite Forall_singleton in Hys. rewrite group_enc by auto using byte_0. destruct (Hstop (i + 3)%nat (to ++ group a 0 0)); [lia|done|lia].
  - destruct m as [|m]; [done|]. destruct f as [|f]; [lia|]. cbn [app replicate] in Hd.
    apply lookup_drop3 in Hd as (-> & -> & -> & _). rewrite (proj2 (Nat.ltb_lt _ _)) by lia.
    apply Forall_cons in Hys as [Ha Hys]. rewrite Forall_singleton in Hys.
    rewrite group_enc by auto using byte_0. destruct (Hstop (i + 3)%nat (to ++ group a b 0)); [lia|done|lia].
  - destruct f as [|f]; [lia|]. cbn [app] in Hd. apply lookup_drop3 in Hd as (-> & -> & -> & Hd).
    rewrite (proj2 (Nat.ltb_lt _ _)) by lia. rewrite !Forall_cons in Hys. destruct Hys as (Ha & Hb & Hc & Hys).
    rewrite group_enc by done. rewrite (IH _ ys _ f); [|done|lia|done| |lia|lia].
    + cbn [body]. by rewrite <- app_assoc.
    + replace (S (S (S (length ys))) + m)%nat with (length ys + m + 1 * 3)%nat in Hm by lia.
      by rewrite Nat.Div0.mod_add in Hm.
Qed.

(** A line of [n] bytes, padded to 45. *)
Lemma uuencode1_ok xs rest n :
  n = length xs → Forall byte xs → (n <= 45)%nat →
  uuencode1 (xs ++ replicate (45 - n) 0 ++ rest) n = Some (uu_line xs).
Proof.
  intros -> Hxs Hn. unfold uuencode1.
  rewrite (uuencode1_loop_ok _ _ _ 0 xs (45 - length xs) rest _ (length xs)); [|done|done|done| |lia|done].
  - rewrite ENC_small by lia. unfold uu_line. by rewrite <- app_assoc.
  - by replace (length xs + (45 - length xs))%nat with 45%nat by lia.
Qed.

Lemma uudecode1_loop_stop fuel ibuf from len to :
  (0 < fuel)%nat → len <= 0 → uudecode1_loop fuel ibuf from len to = Some to.
Proof. intros Hf Hl. destruct fuel; [lia|]. cbn [uudecode1_loop]. destruct (Z.gtb_spec len 0); [lia|done]. Qed.

Lemma uudecode1_loop_ok fuel ibuf from ys rest to f len :
  drop from ibuf = body f ys ++ rest → Forall byte ys → (length ys <= f)%nat → (length ys < fuel)%nat →
  len = Z.of_nat (length ys) →
  uudecode1_loop fuel ibuf from len to = Some (to ++ ys).
Proof.
  intros Hd Hys Hf Hfu ->. revert from ys to f Hd Hys Hf Hfu.
  induction fuel as [|fuel IH]; intros from ys to f Hd Hys Hf Hfu; [lia|]. cbn [uudecode1_loop].
  destruct (decide (ys = [])) as [->|Hne]; [by rewrite app_nil_r|].
  destruct f as [|f]; [destruct ys; [done|cbn in Hf; lia]|].
  assert (∃ a b c r, drop from ibuf = group a b c ++ r ∧ byte a ∧ byte b ∧ byte c ∧
    (ys = [a] ∨ ys = [a; b] ∨ ∃ ys', ys = a :: b :: c :: ys' ∧ r = body f ys' ++ rest)) as (a & b & c & r & E & Ha & Hb & Hc & Hcase).
  { destruct ys as [|a [|b [|c ys]]]; [done|..]; rewrite ?Forall_cons in Hys; cbn [body] in Hd.
    - exists a, 0, 0, rest. split_and!; try done; try tauto; auto using byte_0.
    - exists a, b, 0, rest. split_and!; try done; try tauto; auto using byte_0.
    - exists a, b, c, (body f ys ++ rest). rewrite <- app_assoc in Hd. split_and!; try done; try tauto.
      right. right. by exists ys. }
  unfold group in E. cbn [app] in E. apply lookup_drop_cons in E as [-> E]. apply lookup_drop3 in E as (-> & E1 & E2 & E).
  rewrite <- !Nat.add_assoc in *. cbn [Nat.add] in *. rewrite E1, E2.
  pose proof (group_dec a b c Ha Hb Hc) as (D0 & D1 & D2). cbv zeta in D0, D1, D2. rewrite D0, D1, D2.
  assert (Hg : ∀ n, (Z.of_nat (S n) >? 0) = true) by (intros n; destruct (Z.gtb_spec (Z.of_nat (S n)) 0); [done|lia]).
  destruct Hcase as [-> |[-> |(ys' & -> & ->)]]; cbn [length] in *.
  - cbn. apply uudecode1_loop_stop; lia.
  - cbn. rewrite <- app_assoc. apply uudecode1_loop_stop; lia.
  - replace (Z.of_nat (S (S (S (length ys')))) - 1) with (Z.of_nat (S (S (length ys')))) by lia.
    replace (Z.of_nat (S (S (length ys'))) - 1) with (Z.of_nat (S (length ys'))) by lia.
    replace (Z.of_nat (S (length ys')) - 1) with (Z.of_nat (length ys')) by lia. rewrite !Hg.
    rewrite (IH _ ys' _ f); [by rewrite <- !app_assoc|done| |lia|lia]. rewrite !Forall_cons in Hys. tauto.
Qed.

Definition printable (c : Z) : Prop := 32 <= c < 96.

Lemma group_printable a b c : byte a → byte b → byte c → Forall printable (group a b c).
Proof.
  unfold byte. intros Ha Hb Hc. pose proof (Z.mod_pos_bound a 4). pose proof (Z.mod_pos_bound b 16). pose proof (Z.mod_pos_bound c 64).
  pose proof (Z.div_mod a 4). pose proof (Z.div_mod b 16). pose proof (Z.div_mod c 64).
  assert (0 <= a / 4 < 64) by lia. assert (0 <= b / 16 < 16) by lia. assert (0 <= c / 64 < 4) by lia.
  unfold group. repeat constructor; unfold printable; lia.
Qed.

Lemma body_ok f ys :
  Forall byte ys → Forall printable (body f ys) ∧ (3 * length (body f ys) <= 4 * (length ys + 2))%nat.
Proof.
  revert ys. induction f as [|f IH]; intros ys Hys; [split; [constructor|cbn; lia]|]. pose proof byte_0.
  destruct ys as [|a [|b [|c ys]]]; cbn [body]; rewrite ?Forall_cons in Hys; (split; [try tauto|try (cbn; lia)]).
  - constructor.
  - apply group_printable; tauto.
  - apply group_printable; tauto.
  - apply Forall_app. split; [apply group_printable; tauto|]. apply IH. tauto.
  - destruct (IH ys) as [_ H']; [tauto|]. rewrite length_app. cbn [length group]. lia.
Qed.

Lemma uu_line_ok xs :
  Forall byte xs → (length xs <= 45)%nat →
  ∃ l, uu_line xs = l ++ [10] ∧ Forall printable l ∧ (length l <= 63)%nat.
Proof.
  intros Hxs Hl. destruct (body_ok (length xs) xs Hxs) as [H1 H2]. eexists. unfold uu_line. rewrite app_assoc.
  split_and!; [done| |rewrite length_app; cbn; lia]. constructor; [unfold printable; lia|done].
Qed.

Lemma fgets_line size l rest :
  Forall printable l → (length l + 1 < size)%nat → fgets size (l ++ 10 :: rest) = (l ++ [10], rest).
Proof.
  intros Hl. revert size. induction Hl as [|c l Hc Hl IH]; intros size Hs; cbn [length] in Hs.
  - destruct size as [|[|size]]; [lia|lia|]. done.
  - destruct size as [|[|size]]; [lia|lia|]. cbn [app fgets]. unfold printable in Hc.
    rewrite (proj2 (Z.eqb_neq c 10)) by lia. rewrite IH by lia. done.
Qed.

Lemma store_ok i bytes buf :
  (i + length bytes <= length buf)%nat →
  ∃ buf', store i bytes buf = Some buf' ∧ length buf' = length buf ∧
    take i buf' = take i buf ∧ drop i buf' = bytes ++ drop (i + length bytes) buf.
Proof.
  intros H. unfold store. rewrite (proj2 (Nat.leb_le _ _) H). eexists. split; [done|].
  split; [apply length_inserts|]. revert i buf H. induction bytes as [|x bytes IH]; intros i buf H; cbn [list_inserts app length] in *.
  - by rewrite Nat.add_0_r.
  - destruct (IH (S i) buf ltac:(lia)) as [H1 H2]. split.
    + rewrite take_insert_ge by lia. apply (f_equal (take i)) in H1. by rewrite !take_take, !Nat.min_l in H1 by lia.
    + rewrite (drop_S _ x i).
      * rewrite drop_insert_lt by lia. rewrite H2. do 3 f_equal. lia.
      * apply list_lookup_insert_eq. rewrite length_inserts. lia.
Qed.

Lemma uudecode1_line ibuf xs rest :
  ibuf = uu_line xs ++ rest → Forall byte xs → (1 <= length xs <= 45)%nat → uudecode1 ibuf = Some xs.
Proof.
  intros Hi Hxs Hl. destruct (body_ok (length xs) xs Hxs) as [Hp _]. unfold uudecode1.
  assert (H0 : ibuf !! 0%nat = Some (Z.of_nat (length xs) + 32)) by (by rewrite Hi).
  assert (Hd : drop 1 ibuf = body (length xs) xs ++ [10] ++ rest).
  { rewrite Hi. unfold uu_line. cbn [app drop]. by rewrite drop_0, <- app_assoc. }
  assert (H1 : ∃ c, ibuf !! 1%nat = Some c ∧ c ≠ 0).
  { change 1%nat with (1 + 0)%nat. rewrite <- lookup_drop, Hd. destruct (body (length xs) xs) as [|c r]; cbn; [by exists 10|].
    exists c. split; [done|]. apply Forall_cons in Hp as [Hp _]. unfold printable in Hp. lia. }
  destruct H1 as (c & -> & Hc). rewrite H0. rewrite (proj2 (Z.eqb_neq _ 0)), (proj2 (Z.eqb_neq c 0)) by lia. cbn [orb].
  rewrite DEC_ENC by lia. rewrite (proj2 (Z.eqb_neq _ 0)) by lia.
  destruct (Z.gtb_spec (Z.of_nat (length xs)) 50); [lia|].
  apply (uudecode1_loop_ok _ _ _ xs ([10] ++ rest) [] (length xs)); [done|done|done|lia|done].
Qed.

(** ** Whole files *)

Fixpoint foldM {S} (k : cstr → S → option S) (ls : list cstr) (st : S) : option S :=
  match ls with
  | [] => Some st
  | l :: ls => let? st := k l st in foldM k ls st
  end.

(** Blocks of 45 bytes. *)
Fixpoint blocks (fuel : nat) (xs : cstr) : list cstr :=
  match fuel with
  | O => []
  | S fuel => if (length xs =? 0)%nat then [] else take 45 xs :: blocks fuel (drop 45 xs)
  end.

(** The blocks of each read. *)
Definition file_blocks (fh : list cstr) : list cstr := concat (map (λ c, blocks (S (length c)) c) fh).

Definition block_ok (xs : cstr) : Prop := Forall byte xs ∧ (1 <= length xs <= 45)%nat.

Definition chunk_ok (c : cstr) : Prop := Forall byte c ∧ (1 <= length c <= 450)%nat.

Lemma blocks_ok fuel xs : Forall byte xs → (length xs < fuel)%nat → Forall block_ok (blocks fuel xs) ∧ concat (blocks fuel xs) = xs.
Proof.
  revert xs. induction fuel as [|fuel IH]; intros xs Hxs Hf; [lia|]. cbn [blocks].
  destruct (Nat.eqb_spec (length xs) 0) as [E|E]; [apply nil_length_inv in E as ->; done|].
  destruct (IH (drop 45 xs)) as [H1 H2]; [by apply Forall_drop|rewrite length_drop; lia|]. split.
  - constructor; [|done]. split; [by apply Forall_take|]. rewrite length_take. lia.
  - cbn [concat]. rewrite H2. apply take_drop.
Qed.

Lemma uu_pad_ok inp n ibuf xs :
  (inp + 45 <= length ibuf)%nat → (n <= 45)%nat → take n (drop inp ibuf) = xs →
  ∃ ibuf' rest, uu_pad inp n ibuf = Some ibuf' ∧ length ibuf' = length ibuf ∧
    drop inp ibuf' = xs ++ replicate (45 - n) 0 ++ rest ∧ drop (inp + 45) ibuf' = drop (inp + 45) ibuf.
Proof.
  intros Hi Hn Hx. unfold uu_pad. destruct (Nat.ltb_spec n 45) as [Hlt|Hge].
  - destruct (store_ok (inp + n) (replicate (45 - n) 0) ibuf) as (ibuf' & -> & Hl & Ht & Hd); [rewrite length_replicate; lia|].
    rewrite length_replicate in Hd. exists ibuf', (drop (inp + 45) ibuf). split_and!; [done|done| |].
    + rewrite <- (take_drop n (drop inp ibuf')). rewrite drop_drop, Hd. replace (inp + n + (45 - n))%nat with (inp + 45)%nat by lia.
      f_equal. rewrite <- Hx. rewrite !take_drop_commute. by rewrite Ht.
    + replace (inp + 45)%nat with (inp + n + (45 - n))%nat by lia. rewrite <- drop_drop, Hd.
      rewrite drop_app_length'; [done|]. by rewrite length_replicate.
  - assert (n = 45%nat) as -> by lia. exists ibuf, (drop (inp + 45) ibuf). split_and!; [done|done| |done].
    cbn. rewrite <- Hx, <- drop_drop. by rewrite take_drop.
Qed.

Lemma uu_lines_ok {S} (k : cstr → S → option S) fuel ibuf inp len xs st st' :
  length ibuf = 450%nat → take len (drop inp ibuf) = xs → length xs = len → Forall byte xs → (len < fuel)%nat →
  ((∃ q, inp = 45 * q) ∨ len = 0)%nat → (inp + len <= 450)%nat →
  foldM k (map uu_line (blocks fuel xs)) st = Some st' →
  ∃ ibuf', length ibuf' = 450%nat ∧ uu_lines fuel k ibuf inp len st = Some (ibuf', st').
Proof.
  revert ibuf inp len xs st. induction fuel as [|fuel IH]; intros ibuf inp len xs st Hib Hx Hl Hxs Hf Hq Hin Hk; [lia|].
  cbn [uu_lines]. cbn [blocks] in Hk. destruct (Nat.ltb_spec 0 len) as [H0|H0].
  2:{ exists ibuf. rewrite Hl in Hk. replace len with 0%nat in Hk by lia. cbn in Hk. injection Hk as ->. done. }
  destruct (Nat.eqb_spec (length xs) 0) as [|_]; [lia|]. cbn [map foldM] in Hk.
  destruct Hq as [[q ->]|]; [|lia]. assert (Hq45 : (45 * q + 45 <= 450)%nat) by lia.
  set (n := if (45 <? len)%nat then 45%nat else len).
  assert (Hn : n = Nat.min 45 len) by (unfold n; destruct (Nat.ltb_spec 45 len); lia).
  assert (Ht : take 45 xs = take n (drop (45 * q) ibuf)).
  { rewrite <- Hx, take_take. by rewrite Hn. }
  destruct (uu_pad_ok (45 * q) n ibuf (take 45 xs)) as (ib1 & rest & -> & Hl1 & Hd1 & Hd2); [lia|lia|done|].
  rewrite Hd1. rewrite uuencode1_ok; [|rewrite length_take; lia|by apply Forall_take|lia].
  destruct (k (uu_line (take 45 xs)) st) as [st1|]; [|done].
  destruct (decide (len <= 45)%nat) as [Hs|Hs].
  - replace (len - n)%nat with 0%nat by lia. rewrite drop_ge in Hk by lia.
    apply (IH ib1 (45 * q + n)%nat 0%nat [] st1); [lia|by rewrite take_0|done|constructor|lia|by right|lia|].
    destruct fuel; [lia|]. exact Hk.
  - replace n with 45%nat by lia. apply (IH ib1 _ _ (drop 45 xs)); [lia| |rewrite length_drop; lia|by apply Forall_drop|lia| |lia|done].
    + rewrite Hd2, <- Hx, <- drop_drop. rewrite take_drop_commute. f_equal. f_equal. lia.
    + left. exists (q + 1)%nat. lia.
Qed.

Definition text_of (fh : list cstr) : cstr := concat (map uu_line (file_blocks fh)).

Lemma blocks_count fuel xs : (length (blocks fuel xs) * 45 <= length xs + 44)%nat.
Proof.
  revert xs. induction fuel as [|fuel IH]; intros xs; cbn [blocks]; [cbn; lia|].
  destruct (Nat.eqb_spec (length xs) 0); cbn [length]; [lia|].
  specialize (IH (drop 45 xs)). rewrite length_drop in IH. destruct (decide (length xs <= 45)%nat) as [H|H].
  - rewrite drop_ge in * by done. destruct fuel; cbn; lia.
  - lia.
Qed.

Lemma uu_lines_len bs :
  Forall block_ok bs → (length (concat (map uu_line bs)) <= 64 * length bs)%nat ∧ Forall (λ l, (length l <= 64)%nat) (map uu_line bs).
Proof.
  intros H. induction H as [|b bs [Hb Hl] _ [IH IH2]]; [split; [done|constructor]|]. cbn [map concat].
  destruct (uu_line_ok b Hb ltac:(lia)) as (l & El & _ & Hll).
  assert (length (uu_line b) <= 64)%nat by (rewrite El, length_app; cbn; lia).
  rewrite length_app. split; [cbn [length]; lia|by constructor].
Qed.

Lemma foldM_enc ls o a :
  (length (o ++ concat ls) + 1 <= 650)%nat → foldM enc_line ls (o, int32 a) = Some (o ++ concat ls, int32 (a + Z.of_nat (length ls))).
Proof.
  revert o a. induction ls as [|l ls IH]; intros o a H; cbn [foldM concat] in *.
  - rewrite app_nil_r. do 3 f_equal. cbn. lia.
  - unfold enc_line at 1. rewrite app_assoc in *. rewrite (proj2 (Nat.leb_le _ _)).
    + rewrite int32_add, IH by done. do 3 f_equal. cbn [length]. lia.
    + rewrite (length_app (o ++ l)) in H. lia.
Qed.

Definition bytesum (s : cstr) : Z := foldr Z.add 0 s.

Lemma bytesum_app a b : bytesum (a ++ b) = bytesum a + bytesum b.
Proof. unfold bytesum. induction a as [|x a IH]; cbn; [done|]. rewrite IH. lia. Qed.

Lemma str_cksum_line l : Forall printable l → str_cksum (l ++ [10]) = bytesum (l ++ [10]).
Proof.
  intros H. induction H as [|c l Hc _ IH]; [done|]. cbn [app str_cksum]. unfold printable in Hc.
  rewrite (proj2 (Z.eqb_neq c 10)) by lia. rewrite IH. done.
Qed.

Lemma u16_add a b : u16 (u16 a + b) = u16 (a + b).
Proof. unfold u16. apply Zplus_mod_idemp_l. Qed.

Lemma foldM_sum bs o d a :
  Forall block_ok bs →
  foldM sum_line (map uu_line bs) (mkUusum o (u16 d) (int32 a)) =
  Some (mkUusum (o ++ concat (map uu_line bs)) (u16 (d + bytesum (concat (map uu_line bs)))) (int32 (a + Z.of_nat (length bs)))).
Proof.
  intros H. revert o d a. induction H as [|b bs [Hb Hl] _ IH]; intros o d a; cbn [map foldM concat].
  - rewrite app_nil_r. cbn. do 2 f_equal; f_equal; lia.
  - destruct (uu_line_ok b Hb ltac:(lia)) as (l & El & Hp & Hll). unfold sum_line at 1. cbn [uu_out uu_dsum uu_added].
    rewrite (proj2 (Nat.leb_le _ _)) by (rewrite El, length_app; cbn; lia).
    rewrite u16_add, int32_add, IH. rewrite El at 2. rewrite str_cksum_line, <- El by done. rewrite bytesum_app, <- app_assoc.
    do 2 f_equal; f_equal; cbn [length]; lia.
Qed.

Lemma chunk_lines c ibuf :
  chunk_ok c → length ibuf = 450%nat →
  ∃ ib, store 0 c ibuf = Some ib ∧ length ib = 450%nat ∧ take (length c) (drop 0 ib) = c ∧
    Forall block_ok (blocks (S (length c)) c) ∧ (length (blocks (S (length c)) c) <= 10)%nat.
Proof.
  intros [Hb Hl] Hib. destruct (store_ok 0 c ibuf) as (ib & -> & H1 & _ & H2); [lia|]. exists ib.
  pose proof (blocks_count (S (length c)) c). split_and!; [done|lia| |apply blocks_ok; [done|lia]|lia].
  by rewrite H2, take_app_length.
Qed.

Lemma text_of_cons c fh : text_of (c :: fh) = concat (map uu_line (blocks (S (length c)) c)) ++ text_of fh.
Proof. unfold text_of, file_blocks. cbn [map concat]. by rewrite map_app, concat_app. Qed.

Lemma file_blocks_cons c fh :
  Z.of_nat (length (file_blocks (c :: fh))) = Z.of_nat (length (blocks (S (length c)) c)) + Z.of_nat (length (file_blocks fh)).
Proof. unfold file_blocks. cbn [map concat]. rewrite length_app. lia. Qed.

Lemma uuencode_loop_ok fh ibuf out added :
  Forall chunk_ok fh → length ibuf = 450%nat →
  uuencode_loop ibuf fh out (int32 added) = Some (out ++ text_of fh, int32 (added + Z.of_nat (length (file_blocks fh)))).
Proof.
  intros H. revert ibuf out added. induction H as [|c fh Hc _ IH]; intros ibuf out added Hib; cbn [uuencode_loop].
  - rewrite app_nil_r. do 3 f_equal. cbn. lia.
  - destruct (chunk_lines c ibuf Hc Hib) as (ib & -> & Hl & Ht & Hbs & Hn). destruct Hc as [Hb Hcl].
    destruct (uu_lines_len _ Hbs) as [Hlen _].
    destruct (uu_lines_ok enc_line (S (length c)) ib 0 (length c) c ([], int32 added) _ Hl Ht eq_refl Hb ltac:(lia)
      (or_introl (ex_intro _ 0%nat eq_refl)) ltac:(lia) (foldM_enc (map uu_line (blocks (S (length c)) c)) [] added ltac:(cbn [app]; lia))) as (ib' & Hl' & ->).
    rewrite IH by done. rewrite text_of_cons, file_blocks_cons. cbn [app]. rewrite length_map, <- app_assoc. do 3 f_equal. lia.
Qed.

Lemma uuencode_sum_loop_ok fh ibuf out d a :
  Forall chunk_ok fh → length ibuf = 450%nat →
  uuencode_sum_loop ibuf fh (mkUusum out (u16 d) (int32 a)) =
  Some (mkUusum (out ++ text_of fh) (u16 (d + bytesum (text_of fh))) (int32 (a + Z.of_nat (length (file_blocks fh))))).
Proof.
  intros H. revert ibuf out d a. induction H as [|c fh Hc _ IH]; intros ibuf out d a Hib; cbn [uuencode_sum_loop].
  - rewrite app_nil_r. cbn. do 2 f_equal; f_equal; lia.
  - destruct (chunk_lines c ibuf Hc Hib) as (ib & -> & Hl & Ht & Hbs & Hn). destruct Hc as [Hb Hcl].
    destruct (uu_lines_ok sum_line (S (length c)) ib 0 (length c) c (mkUusum out (u16 d) (int32 a)) _ Hl Ht eq_refl Hb ltac:(lia)
      (or_introl (ex_intro _ 0%nat eq_refl)) ltac:(lia) (foldM_sum _ out d a Hbs)) as (ib' & Hl' & ->).
    rewrite IH by done. rewrite text_of_cons, file_blocks_cons, bytesum_app, <- app_assoc.
    do 2 f_equal; f_equal; lia.
Qed.

Lemma uudecode_loop_line fuel ibuf l rest out moved :
  Forall printable l → (length l + 1 < 650)%nat →
  uudecode_loop (S fuel) ibuf (l ++ 10 :: rest) out moved =
    let? ibuf := store 0 ((l ++ [10]) ++ [0]) ibuf in
    let? obuf := uudecode1 ibuf in
    assert! (length obuf <=? 450)%nat ;
    uudecode_loop fuel ibuf rest (out ++ obuf) (int32 (moved + Z.of_nat (length obuf))).
Proof.
  intros Hp Hl. pose proof (fgets_line 650 l rest Hp Hl) as Hg.
  destruct (l ++ 10 :: rest) as [|c r] eqn:E; [by destruct l|]. cbn [uudecode_loop]. by rewrite Hg.
Qed.

Lemma uudecode_loop_ok bs fuel ibuf out moved :
  Forall block_ok bs → length ibuf = 650%nat →
  (length bs < fuel)%nat →
  uudecode_loop fuel ibuf (concat (map uu_line bs) ++ [32; 10]) out (int32 moved) =
  Some (out ++ concat bs, int32 (moved + Z.of_nat (length (concat bs)))).
Proof.
  intros H. revert fuel ibuf out moved. induction H as [|b bs [Hb Hl] _ IH]; intros fuel ibuf out moved Hib Hf;
    (destruct fuel as [|fuel]; [cbn in Hf; lia|]).
  - cbn [map concat app uudecode_loop]. change (fgets 650 [32; 10]) with ([32; 10], @nil Z). cbn iota beta.
    destruct (store_ok 0 ([32; 10] ++ [0]) ibuf) as (ib & -> & H1 & _ & H2); [cbn; lia|]. rewrite drop_0 in H2.
    assert (uudecode1 ib = Some []) as -> by (rewrite H2; done).
    cbn [length Nat.leb]. rewrite int32_add, Z.add_0_r, !app_nil_r. by destruct fuel.
  - cbn [map concat]. destruct (uu_line_ok b Hb ltac:(lia)) as (l & El & Hp & Hll).
    replace ((uu_line b ++ concat (map uu_line bs)) ++ [32; 10]) with (l ++ 10 :: concat (map uu_line bs) ++ [32; 10])
      by (rewrite El; by rewrite <- !app_assoc).
    rewrite uudecode_loop_line by (done || lia). rewrite <- El.
    destruct (store_ok 0 (uu_line b ++ [0]) ibuf) as (ib & -> & H1 & _ & H2); [rewrite El, !length_app; cbn; lia|].
    rewrite drop_0 in H2. rewrite <- app_assoc in H2. rewrite (uudecode1_line ib b _ H2 Hb Hl).
    rewrite (proj2 (Nat.leb_le _ _)) by lia. rewrite int32_add, IH; [|lia|cbn in Hf; lia].
    rewrite <- app_assoc. do 3 f_equal. rewrite length_app. lia.
Qed.

Lemma file_blocks_ok fh : Forall chunk_ok fh → Forall block_ok (file_blocks fh) ∧ concat (file_blocks fh) = concat fh.
Proof.
  intros H. unfold file_blocks. induction H as [|c fh [Hb Hl] _ [IH1 IH2]]; [done|]. cbn [map concat].
  destruct (blocks_ok (S (length c)) c Hb ltac:(lia)) as [H1 H2].
  split; [by apply Forall_app|]. by rewrite concat_app, H2, IH2.
Qed.

Lemma text_len bs : (length bs <= length (concat (map uu_line bs)))%nat.
Proof. induction bs as [|b bs IH]; [done|]. cbn [map concat length]. rewrite length_app. unfold uu_line at 1. cbn [length app]. lia. Qed.

(** C33. Any file survives: whatever [fread] returns piece by piece, [uuencode]
    succeeds within its buffers and [uudecode] of its output gives the bytes
    back and returns their number; the lines are printable and [uuencode]
    returns their count.  Both numbers are [int]s ([int32], the number itself
    below 2^31). *)
Theorem uudecode_uuencode (ibuf ibuf' : cstr) (fh : list cstr) :
  length ibuf = 450%nat → length ibuf' = 650%nat → Forall chunk_ok fh →
  ∃ out added, uuencode ibuf fh = Some (out, added) ∧
    uudecode ibuf' out = Some (concat fh, int32 (Z.of_nat (length (concat fh)))) ∧
    Forall (λ c, printable c ∨ c = 10) out ∧ added = int32 (Z.of_nat (length (filter (λ c, c = 10) out))).
Proof.
  intros H1 H2 Hfh. unfold uuencode. rewrite (uuencode_loop_ok _ _ _ 0) by done. cbn [app]. rewrite int32_add.
  destruct (file_blocks_ok fh Hfh) as [Hb Hc]. do 2 eexists. split; [done|]. split_and!.
  - unfold uudecode, text_of. rewrite (uudecode_loop_ok _ _ _ _ 0); [by rewrite Hc|done|done|].
    rewrite length_app. pose proof (text_len (file_blocks fh)). cbn. lia.
  - apply Forall_app. split; [|apply Forall_cons; split; [left; unfold printable; lia|by apply Forall_singleton; right]]. unfold text_of. clear Hc.
    induction Hb as [|b bs [Hb Hl] _ IH]; [constructor|]. cbn [map concat]. apply Forall_app. split; [|done].
    destruct (uu_line_ok b Hb ltac:(lia)) as (l & -> & Hp & _). apply Forall_app. split; [|by apply Forall_singleton; right].
    eapply Forall_impl; [exact Hp|auto].
  - assert (Hn : length (filter (λ c, c = 10) (text_of fh)) = length (file_blocks fh));
      [|rewrite filter_app, length_app, Hn; replace (length (filter (λ c, c = 10) [32; 10])) with 1%nat by done; f_equal; lia].
    unfold text_of. clear Hc. induction Hb as [|b bs [Hb Hl] _ IH]; [done|]. cbn [map concat]. rewrite filter_app, length_app, IH.
    destruct (uu_line_ok b Hb ltac:(lia)) as (l & -> & Hp & _). rewrite filter_app. cbn.
    assert (filter (λ c, c = 10) l = []) as ->; [|done]. clear -Hp. induction Hp as [|c l Hc _ IH]; [done|].
    rewrite filter_cons_False; [done|]. unfold printable in Hc. lia.
Qed.

Lemma uudecode_uuencode_witness :
  ∃ out added, uuencode (replicate 450 7) [[1; 2; 255; 0]; [9]] = Some (out, added) ∧
    uudecode (replicate 650 9) out = Some ([1; 2; 255; 0; 9], 5) ∧
    Forall (λ c, printable c ∨ c = 10) out ∧ added = int32 (Z.of_nat (length (filter (λ c, c = 10) out))).
Proof.
  apply (uudecode_uuencode (replicate 450 7) (replicate 650 9) [[1; 2; 255; 0]; [9]]); [done|done|].
  repeat constructor; unfold byte; cbn; lia.
Defined.

(** [uuencode_sum], which stores a new binary file, writes byte for byte what
    [uuencode] writes, returns the same count, and adds the sum of all these
    bytes to the delta's checksum. *)
Theorem uuencode_sum_same (ibuf ibuf' : cstr) (fh : list cstr) (dsum : Z) :
  length ibuf = 450%nat → length ibuf' = 450%nat → Forall chunk_ok fh → 0 <= dsum < 2 ^ 16 →
  ∃ out added, uuencode ibuf fh = Some (out, added) ∧
    uuencode_sum ibuf' dsum fh = Some (mkUusum out (u16 (dsum + bytesum out)) added).
Proof.
  intros H1 H2 Hfh Hd. unfold uuencode, uuencode_sum. rewrite (uuencode_loop_ok _ _ _ 0) by done.
  assert (Hu : mkUusum [] dsum 0 = mkUusum [] (u16 dsum) (int32 0)) by (unfold u16; by rewrite Z.mod_small).
  rewrite Hu, uuencode_sum_loop_ok by done. cbn [uu_out uu_dsum uu_added app]. do 2 eexists. split; [done|].
  rewrite u16_add, bytesum_app. do 3 f_equal. cbn. lia.
Qed.

Lemma uuencode_sum_same_witness :
  ∃ out added, uuencode (replicate 450 7) [[1; 2; 255; 0]; [9]] = Some (out, added) ∧
    uuencode_sum (replicate 450 0) 65500 [[1; 2; 255; 0]; [9]] = Some (mkUusum out (u16 (65500 + bytesum out)) added).
Proof.
  apply (uuencode_sum_same (replicate 450 7) (replicate 450 0) [[1; 2; 255; 0]; [9]] 65500); [done|done| |lia].
  repeat constructor; unfold byte; cbn; lia.
Defined.
