(* ===== verification/Gca.v ===== *)
(** * Gca: common ancestors

    [sccs_prev], [gca], [gca2], [gca3], [sccs_gca] and [sccs_findtips] of
    src/src/slib.c: the merge base of two deltas, by first parents, as a single
    newest delta, or as a delta with include and exclude lists that stand for
    all maximal common ancestors together.  The walks are those of Range.v, the
    set of the bases is expanded by Symdiff.v and compressed by SerialMap.v. *)

From S2P Require Import Prelude CStr Sccs SerialMap Symdiff Range RangeWalk.
From stdpp Require Import base numbers list.
From Stdlib Require Import ZArith Lia Sorted.

Local Open Scope Z_scope.

Local Open Scope bk_scope.

(** ** The code *)

(** [None]: the assert that the slot is in use. *)
Definition sccs_prev (s : sccs) (d : nat) : option nat :=
  match d with
  | O => Some O
  | S d' =>
      if (TREE <=? d')%nat then
        assert! negb (FLAGS s d' =? 0) ; Some d'
      else Some O
  end.

(** [for (d = left; d; d = PARENT(s, d))]: serials fall, so [TABLE s] rounds are
    enough. *)
Fixpoint parent_loop (fuel : nat) (f : sccs → nat → sccs) (s : sccs) (d : nat) : sccs :=
  match fuel, d with
  | O, _ => s
  | _, O => s
  | S fuel, _ => let s := f s d in parent_loop fuel f s (PARENT s d)
  end.

Fixpoint parent_find (fuel : nat) (s : sccs) (d : nat) : nat :=
  match fuel, d with
  | O, _ => O
  | _, O => O
  | S fuel, _ => if has s d D_RED then d else parent_find fuel s (PARENT s d)
  end.

(** Returns the flags as they are left. *)
Definition gca (s : sccs) (lf rt : nat) : nat * sccs :=
  if (lf =? 0)%nat || (rt =? 0)%nat then (O, s) else
  let n := S (TABLE s) in
  let s := parent_loop n (λ s d, flags_clr s d D_RED) s lf in
  let s := parent_loop n (λ s d, flags_or s d D_RED) s rt in
  (parent_find n s lf, s).

Fixpoint gca2_loop (fuel : nat) (s : sccs) (slist : nat → Z) (d : nat) : option nat :=
  match fuel, d with
  | _, O => Some O
  | O, _ => None
  | S fuel, _ =>
      if TAG s d then let? d := sccs_prev s d in gca2_loop fuel s slist d else
      let value := slist d in
      if value =? 0 then let? d := sccs_prev s d in gca2_loop fuel s slist d else
      if value =? 3 then Some d else
      let slist := paint (parents_of s d) value slist in
      let? d := sccs_prev s d in
      gca2_loop fuel s slist d
  end.

Definition gca2 (s : sccs) (lf rt : nat) : option nat :=
  if (TABLE s =? 0)%nat || (lf =? 0)%nat || (rt =? 0)%nat then Some O else
  let slist := upd (λ _, 0) lf 1 in
  let slist := upd slist rt (Z.lor (slist rt) 2) in
  let d := if (rt <? lf)%nat then lf else rt in
  gca2_loop (S (TABLE s)) s slist d.

(** The string of an empty array is the null pointer. *)
Definition as_arg (l : list nat) : serlist := match l with [] => None | _ => Some (l, 0) end.

(** The base, the two lists and the graph after the walk; [None] is the assert
    on an empty list or one inside [symdiff]. *)
Definition gca3 (s : sccs) (lf rt : nat) : option (nat * serlist * serlist * sccs) :=
  if (TABLE s =? 0)%nat || (lf =? 0)%nat || (rt =? 0)%nat then Some (O, None, None, s) else
  let '(glist, s) := walkrevs_collect WR_GCA s [lf] (Some [rt]) in
  match glist with
  | [] => None
  | g :: rest =>
      if (1 <? length glist)%nat then
        let y := symdiff_expand s glist 0 (λ _, 0) in
        assert! y_ok y ;
        let '(inc, exc) := compressmap s g (y_slist y) in
        Some (g, as_arg inc, as_arg exc, s)
      else Some (g, None, None, s)
  end.

(** [lists]: whether the caller passes [inc] or [exc]. *)
Definition sccs_gca (s : sccs) (lf rt : nat) (lists : bool) : option (nat * serlist * serlist * sccs) :=
  if lists then gca3 s lf rt
  else let? d := gca2 s lf rt in Some (d, None, None, s).

Definition WR_TIP : wr_opts := mkOpts false false true.

(** The walk of the tips: each is tested and stored; [None] is a failed assert. *)
Fixpoint findtips_loop (fuel : nat) (a b : nat) (wr : wrdata) : option (nat * nat * wrdata) :=
  match fuel with
  | O => None
  | S fuel =>
      let '(d, wr) := walkrevs WR_TIP wr in
      if (d =? 0)%nat then Some (a, b, wr) else
      assert! ((fst (fst (fst (d_r (dl (wr_s wr) d)))) =? 1)%nat) ;
      if (a =? 0)%nat then findtips_loop fuel d b wr
      else assert! ((b =? 0)%nat) ; findtips_loop fuel a d wr
  end.

Definition sccs_findtips (s : sccs) : option (bool * nat * nat * sccs) :=
  let? res := findtips_loop (S (TABLE s)) 0 0 (walkrevs_setup WR_TIP s [] None) in
  let '(a, b, wr) := res in
  Some (negb (b =? 0)%nat, a, b, walkrevs_done WR_TIP wr).

(** ** The newest common ancestor *)

(** Every slot of the table is in use. *)
Definition in_use (s : sccs) : Prop := ∀ j, (1 <= j <= TABLE s)%nat → FLAGS s j ≠ 0.

Lemma in_use_live s : in_use s → ∀ j, (1 <= j <= TABLE s)%nat → TAG s j = false → live s j.
Proof. intros H j Hj Ht. split; [by apply H|done]. Qed.

(** [g] is the newest delta below both, or 0 when there is none. *)
Definition newest_common (s : sccs) (lf rt g : nat) : Prop :=
  (g = 0%nat ∨ (anc s lf g ∧ anc s rt g)) ∧ ∀ j, anc s lf j → anc s rt j → (j <= g)%nat.

Section gca2_proof.
Context (s : sccs) (lf rt : nat).
Hypothesis s_wf : wf_graph s.
Hypothesis s_use : in_use s.
Hypothesis lf_live : live s lf.
Hypothesis rt_live : live s rt.

(** Bit 0 follows [lf], bit 1 follows [rt]. *)
Definition tip_of_bit (b : Z) : nat := if b =? 0 then lf else rt.

Definition side (b : Z) : Prop := b = 0 ∨ b = 1.

Lemma tip_live b : live s (tip_of_bit b).
Proof. unfold tip_of_bit. by case_if. Qed.

(** The marks with the deltas above [d] done. *)
Record gca_inv (d : nat) (sl : nat → Z) : Prop := {
  gi_range : ∀ j, 0 <= sl j < 4;
  gi_bit : ∀ j b, (j <= d)%nat → side b → Z.testbit (sl j) b = true ↔
    j = tip_of_bit b ∨ ∃ k, (d < k)%nat ∧ anc s (tip_of_bit b) k ∧ j ∈ parents_of s k;
  gi_none : ∀ k, (d < k)%nat → ~ (anc s lf k ∧ anc s rt k)
}.

Lemma gi_anc d sl b : gca_inv d sl → side b → Z.testbit (sl d) b = true ↔ anc s (tip_of_bit b) d.
Proof.
  intros HI Hb. rewrite (gi_bit d sl HI) by done. split.
  - intros [->|(k & _ & Ha & Hp)]; [constructor|by econstructor].
  - intros Ha. destruct (decide (d = tip_of_bit b)) as [|Hne]; [by left|]. right.
    destruct (anc_last s (tip_of_bit b) d Ha ltac:(done)) as (k & Hk & Hp). exists k. split_and!; [|done|done].
    destruct (anc_live s s_wf (tip_of_bit b) k (tip_live b) Hk) as [Hkl _].
    destruct (parents_of_wf s k d s_wf Hkl Hp). lia.
Qed.

Lemma two_bits x : 0 <= x < 4 → x = Z.b2z (Z.testbit x 0) + 2 * Z.b2z (Z.testbit x 1).
Proof.
  intros H. assert (x = 0 ∨ x = 1 ∨ x = 2 ∨ x = 3) as [->|[->|[->| ->]]] by lia; reflexivity.
Qed.

Lemma lor_range x y : 0 <= x < 4 → 0 <= y < 4 → 0 <= Z.lor x y < 4.
Proof.
  intros Hx Hy. assert (x = 0 ∨ x = 1 ∨ x = 2 ∨ x = 3) as [->|[->|[->| ->]]] by lia;
  assert (y = 0 ∨ y = 1 ∨ y = 2 ∨ y = 3) as [->|[->|[->| ->]]] by lia; cbv; split; congruence.
Qed.

(** A delta that is not common hands its mark down. *)
Lemma gca_inv_step d sl :
  (1 <= d)%nat → gca_inv d sl → ~ (anc s lf d ∧ anc s rt d) →
  gca_inv (d - 1) (if liveb s d then paint (parents_of s d) (sl d) sl else sl).
Proof.
  intros Hd HI Hnc.
  assert (Hdead : liveb s d = false → ∀ b, ~ anc s (tip_of_bit b) d).
  { intros Hl b Ha. destruct (anc_live s s_wf _ _ (tip_live b) Ha) as [Hl' _]. apply liveb_spec in Hl'. congruence. }
  split.
  - intros j. case_if; [|apply HI]. rewrite paint_at. case_if; [|apply HI]. apply lor_range; apply HI.
  - intros j b Hj Hb.
    assert (Hbit : Z.testbit ((if liveb s d then paint (parents_of s d) (sl d) sl else sl) j) b = true ↔
      Z.testbit (sl j) b = true ∨ (anc s (tip_of_bit b) d ∧ j ∈ parents_of s d)).
    { destruct (liveb s d) eqn:Hl.
      - rewrite paint_at. rewrite <- (gi_anc d sl b HI Hb). case_bool_decide as Hp.
        + rewrite Z.lor_spec, orb_true_iff. tauto.
        + tauto.
      - pose proof (Hdead eq_refl b). tauto. }
    rewrite Hbit, (gi_bit d sl HI) by (done || lia). split.
    + intros [[H|(k & Hk & Ha & Hp)]|[Ha Hp]]; [by left| |]; right; [exists k|exists d]; (split_and!; [lia|done|done]).
    + intros [H|(k & Hk & Ha & Hp)]; [tauto|]. destruct (decide (k = d)) as [->|]; [tauto|].
      left. right. exists k. split_and!; [lia|done|done].
  - intros k Hk. destruct (decide (k = d)) as [->|]; [done|]. apply HI. lia.
Qed.

Lemma gca2_loop_ok fuel d sl :
  (d <= fuel)%nat → (d <= TABLE s)%nat → gca_inv d sl → ∃ g, gca2_loop fuel s sl d = Some g ∧ newest_common s lf rt g.
Proof.
  revert d sl. induction fuel as [|fuel IH]; intros d sl Hf HT HI.
  - replace d with 0%nat in * by lia. exists 0%nat. split; [done|]. split; [by left|].
    intros j H1 H2. destruct (decide (0 < j)%nat) as [Hj|]; [|lia]. by destruct (gi_none _ _ HI j Hj).
  - destruct d as [|d].
    { exists 0%nat. split; [done|]. split; [by left|]. intros j H1 H2.
      destruct (decide (0 < j)%nat) as [Hj|]; [|lia]. by destruct (gi_none _ _ HI j Hj). }
    assert (Hprev : sccs_prev s (S d) = Some d).
    { unfold sccs_prev, TREE. destruct (Nat.leb_spec 1 d); [|f_equal; lia].
      rewrite (proj2 (Z.eqb_neq _ _)); [done|]. apply s_use. lia. }
    cbn [gca2_loop]. rewrite Hprev.
    pose proof (gi_anc (S d) sl 0 HI ltac:(by left)) as A0. pose proof (gi_anc (S d) sl 1 HI ltac:(by right)) as A1.
    change (tip_of_bit 0) with lf in A0. change (tip_of_bit 1) with rt in A1.
    pose proof (two_bits (sl (S d)) (gi_range _ _ HI (S d))) as Hv.
    assert (Hstep : sl (S d) ≠ 3 → gca_inv d (if liveb s (S d) then paint (parents_of s (S d)) (sl (S d)) sl else sl)).
    { intros H3. pose proof (gca_inv_step (S d) sl ltac:(lia) HI) as Hs. replace (S d - 1)%nat with d in Hs by lia.
      apply Hs. rewrite <- A0, <- A1. intros [E0 E1]. rewrite E0, E1 in Hv. cbn in Hv. done. }
    destruct (TAG s (S d)) eqn:Ht.
    + apply IH; [lia|lia|]. unfold liveb in Hstep. rewrite Ht, andb_false_r in Hstep. apply Hstep.
      intros H3. rewrite H3 in A0. destruct A0 as [A0 _]. specialize (A0 eq_refl).
      destruct (anc_live s s_wf _ _ lf_live A0) as [[_ ?] _]. congruence.
    + assert (Hl : liveb s (S d) = true) by (apply liveb_spec; apply in_use_live; [done|lia|done]). rewrite Hl in Hstep.
      destruct (Z.eqb_spec (sl (S d)) 0) as [E|E].
      * apply IH; [lia|lia|]. rewrite E in Hstep. specialize (Hstep ltac:(lia)).
        destruct Hstep as [G1 G2 G3]. split; [apply HI| |done]. intros j b Hj Hb. rewrite <- (G2 j b Hj Hb).
        rewrite paint_at. case_bool_decide; [by rewrite Z.lor_0_r|done].
      * destruct (Z.eqb_spec (sl (S d)) 3) as [E3|E3]; [|apply IH; [lia|lia|by apply Hstep]].
        exists (S d). split; [done|]. rewrite E3 in A0, A1. split; [right; split; [by apply A0|by apply A1]|].
        intros j H1 H2. destruct (decide (S d < j)%nat) as [Hj|]; [|lia]. by destruct (gi_none _ _ HI j Hj).
Qed.

Lemma gca2_ok : ∃ g, gca2 s lf rt = Some g ∧ newest_common s lf rt g.
Proof.
  pose proof (live_tip s lf s_wf lf_live) as Hl. pose proof (live_tip s rt s_wf rt_live) as Hr. unfold gca2.
  destruct (Nat.eqb_spec (TABLE s) 0); [lia|]. destruct (Nat.eqb_spec lf 0); [lia|]. destruct (Nat.eqb_spec rt 0); [lia|].
  cbn [orb]. assert (Hmax : (if (rt <? lf)%nat then lf else rt) = Nat.max lf rt) by (destruct (Nat.ltb_spec rt lf); lia).
  rewrite Hmax. apply gca2_loop_ok; [lia|lia|].
  assert (Hno : ∀ b k, (Nat.max lf rt < k)%nat → ~ anc s (tip_of_bit b) k).
  { intros b k Hk Ha. destruct (anc_live s s_wf _ _ (tip_live b) Ha) as [_ H]. unfold tip_of_bit in H. case_if; lia. }
  split.
  - intros j. unfold upd. repeat case_if; split; vm_compute; congruence.
  - intros j b Hj Hb. transitivity (j = tip_of_bit b).
    + unfold tip_of_bit, upd. destruct Hb as [-> | ->]; cbn [Z.eqb];
        destruct (Nat.eqb_spec j rt) as [E1|E1]; destruct (Nat.eqb_spec j lf) as [E2|E2];
        destruct (Nat.eqb_spec rt lf) as [E3|E3]; cbn; split; intros; (done || congruence || lia).
    + split; [by left|]. intros [|(k & Hk & Ha & _)]; [done|]. exfalso. by apply (Hno b k).
  - intros k Hk [Ha _]. apply (Hno 0 k Hk). done.
Qed.
End gca2_proof.

(** ** All common ancestors *)

(** A common ancestor with no other above it. *)
Definition max_common (s : sccs) (lf rt j : nat) : Prop :=
  (anc s lf j ∧ anc s rt j) ∧ ∀ k, anc s lf k → anc s rt k → anc s k j → k = j.

Section gca3_proof.
Context (s : sccs) (lf rt : nat).
Hypothesis s_wf : wf_graph s.
Hypothesis s_use : in_use s.
Hypothesis s_clean : ∀ j, Z.land (FLAGS s j) ALLC = 0.
Hypothesis lf_live : live s lf.
Hypothesis rt_live : live s rt.

Lemma below_single i j : below_any s [i] j ↔ anc s i j.
Proof. unfold below_any. split; [intros (k & ->%list_elem_of_singleton & H); done|]. intros H. exists i. split; [by left|done]. Qed.

Lemma wanted_common j : wanted s WR_GCA [lf] (Some [rt]) j ↔ anc s lf j ∧ anc s rt j.
Proof.
  unfold wanted, is_red. cbn [wr_either wr_both WR_GCA]. rewrite !below_single. split; [tauto|].
  intros [H1 H2]. destruct (anc_live s s_wf lf j lf_live H1). tauto.
Qed.

Lemma listed_common j : listed s WR_GCA [lf] (Some [rt]) j ↔ max_common s lf rt j.
Proof.
  unfold listed, max_common. rewrite wanted_common. split; intros [H1 H2]; (split; [done|]).
  - intros k Hk1 Hk2. by apply (H2 eq_refl k), wanted_common.
  - intros _ k [Hk1 Hk2]%wanted_common Hk. by apply H2.
Qed.

Lemma glist_ok :
  let '(l, s') := walkrevs_collect WR_GCA s [lf] (Some [rt]) in
  (∀ j, j ∈ l ↔ max_common s lf rt j) ∧ StronglySorted gt l ∧ same_graph s' s.
Proof.
  pose proof (walkrevs_collect_spec s WR_GCA [lf] (Some [rt]) s_wf (in_use_live s s_use) s_clean) as H.
  destruct (walkrevs_collect _ _ _ _) as [l s']. destruct H as (H1 & H2 & H3).
  - by intros d ->%list_elem_of_singleton.
  - by intros r [= <-] d ->%list_elem_of_singleton.
  - split_and!; [|done|done]. intros j. by rewrite H1, listed_common.
Qed.

(** The newest common ancestor heads the list. *)
Lemma glist_head g l g2 :
  (∀ j, j ∈ g :: l ↔ max_common s lf rt j) → StronglySorted gt (g :: l) → newest_common s lf rt g2 → g = g2.
Proof.
  intros Hl Hs [Hg Hmax]. destruct (proj1 (Hl g) ltac:(by left)) as [[G1 G2] _].
  pose proof (Hmax g G1 G2) as Hle. destruct (anc_live s s_wf _ _ lf_live G1) as [Hgl _].
  pose proof (live_pos s g Hgl). destruct Hg as [|[Hg1 Hg2]]; [lia|].
  assert (Hin : g2 ∈ g :: l).
  { apply Hl. split; [done|]. intros k K1 K2 Ka. pose proof (Hmax k K1 K2).
    destruct (anc_live s s_wf _ _ lf_live K1) as [Kl _]. destruct (anc_live s s_wf k g2 Kl Ka). lia. }
  apply elem_of_cons in Hin as [|Hin]; [done|]. inversion Hs as [|? ? _ Hall]; subst.
  rewrite Forall_forall in Hall. specialize (Hall g2 Hin). lia.
Qed.
End gca3_proof.

Lemma same_graph_view t s ds j : same_graph t s → view t ds j = view s ds j.
Proof. destruct t, s. intros (E1 & E2 & E3). cbn in E1, E2, E3. subst. done. Qed.

Lemma same_graph_serialmap t s d m i x : same_graph t s → serialmap t d m i x = serialmap s d m i x.
Proof. destruct t, s. intros (E1 & E2 & E3). cbn in E1, E2, E3. subst. done. Qed.

Lemma same_graph_wf t s : same_graph t s → wf_graph s → wf_graph t.
Proof. destruct t, s. intros (E1 & E2 & E3). cbn in E1, E2, E3. subst. intros [H1 H2 H3 H4]. by split. Qed.

Lemma same_graph_live t s d : same_graph t s → live t d ↔ live s d.
Proof. destruct t, s. intros (E1 & E2 & E3). cbn in E1, E2, E3. subst. done. Qed.

Lemma same_graph_flags t s d : same_graph t s → FLAGS t d = FLAGS s d.
Proof. intros (E1 & _). unfold FLAGS, dl. by rewrite E1. Qed.

Lemma view_none s j : wf_graph s → view s [] j = false.
Proof.
  intros Hwf. unfold view, view_from.
  assert (H : ∀ j, vrun s (seeds []) j = 0); [|by rewrite H].
  unfold vrun. apply (for_down_inv _ (λ _ st, ∀ j, st j = 0)); [done|].
  intros t st _ H. by rewrite (vstep_zero (s:=s)).
Qed.

Lemma view_live s ds j : wf_graph s → (∀ d, d ∈ ds → live s d) → view s ds j = true → live s j.
Proof.
  intros Hwf Hds Hv. destruct (liveb s j) eqn:Hl; [by apply liveb_spec|].
  assert (Hn : ~ live s j) by (rewrite <- liveb_spec; congruence). unfold view, view_from in Hv.
  assert (H : vrun s (seeds ds) j = 0); [|by rewrite H in Hv].
  unfold vrun. apply (for_down_inv _ (λ _ st, st j = 0)).
  - clear Hv. induction ds as [|d ds IH]; [done|]. cbn. rewrite upd_ne.
    + apply IH. intros; apply Hds. by right.
    + intros ->. apply Hn, Hds. by left.
  - intros t st _ H. by rewrite (vstep_nonlive Hwf).
Qed.

Lemma as_arg_list l : list_arg (as_arg l) l.
Proof. destruct l; [by right|by left]. Qed.

(** The expanded set of the bases, compressed around one of them, gives it
    back. *)
Lemma compress_bases s g ds :
  wf_graph s → (∀ d, d ∈ ds → live s d) → live s g → (∀ d, live s d → Z.land (FLAGS s d) D_GONE = 0) →
  let y := symdiff_expand s ds 0 (λ _, 0) in
  y_ok y = true ∧
  let '(inc, exc) := compressmap s g (y_slist y) in
  ∃ sl, serialmap s g 0 (as_arg inc) (as_arg exc) = inl sl ∧ ∀ t, (TREE < t)%nat → sl t = Z.b2z (view s ds t).
Proof.
  intros Hwf Hds Hg Hgone. pose proof (live_tip s g Hwf Hg).
  destruct (symdiff_expand_spec s ds 0 (λ _, 0) Hwf ltac:(lia) Hds ltac:(by left) Hgone ltac:(auto)) as (Hok & Hy & _).
  cbv zeta. split; [done|]. set (set := y_slist _) in *.
  assert (Hset : ∀ t, set t = Z.b2z (view s ds t)).
  { intros t. rewrite Hy, Z.lxor_0_l. unfold right_tips. cbn [Nat.eqb]. by rewrite view_none, xorb_false_r. }
  pose proof (compressmap_view s g set Hwf Hg) as H'. destruct (compressmap s g set) as [inc exc].
  destruct H' as (Hlive & Hdis & Hview).
  { intros t Ht. apply (view_live s ds); [done|done|]. rewrite Hset in Ht. by destruct (view s ds t). }
  destruct (serialmap_view s g 0 (as_arg inc) (as_arg exc) inc exc) as (sl & Heq & Ht & _);
    [done|done|by left|apply as_arg_list|apply as_arg_list|done|done|].
  exists sl. split; [done|]. intros t Hgt. rewrite Ht by done. rewrite Hview, Hset. by destruct (view s ds t).
Qed.

Lemma serialmap_plain s d :
  wf_graph s → live s d →
  ∃ sl, serialmap s d 0 None None = inl sl ∧ ∀ t, (TREE < t)%nat → sl t = Z.b2z (view s [d] t).
Proof.
  intros Hwf Hd. destruct (serialmap_view s d 0 None None [] []) as (sl & Heq & Ht & _);
    [done|done|by left|by right|by right|by intros x ?%not_elem_of_nil|by intros x ?%not_elem_of_nil|].
  exists sl. split; [done|]. intros t Hgt. rewrite Ht by done. f_equal. unfold view, view_from. f_equal.
  apply vrun_ext; [done|]. intros j. unfold SerialMap.seed_bits, seeds. cbn [fold_right negb andb Nat.eqb]. rewrite orb_false_r.
  rewrite !bool_decide_eq_false_2 by apply not_elem_of_nil. unfold upd. by destruct (Nat.eqb_spec j d).
Qed.

Lemma gca3_ok s lf rt :
  wf_graph s → in_use s → (∀ j, Z.land (FLAGS s j) ALLC = 0) → (∀ d, live s d → Z.land (FLAGS s d) D_GONE = 0) →
  live s lf → live s rt → (∃ j, anc s lf j ∧ anc s rt j) →
  ∃ g inc exc s' bases, gca3 s lf rt = Some (g, inc, exc, s') ∧ same_graph s' s ∧ newest_common s lf rt g ∧
    (∀ j, j ∈ bases ↔ max_common s lf rt j) ∧
    ∃ sl, serialmap s g 0 inc exc = inl sl ∧ ∀ t, (TREE < t)%nat → sl t = Z.b2z (view s bases t).
Proof.
  intros Hwf Huse Hclean Hgone Hl Hr Hex.
  destruct (gca2_ok s lf rt Hwf Huse Hl Hr) as (g2 & _ & Hg2).
  pose proof (glist_ok s lf rt Hwf Huse Hclean Hl Hr) as HG. unfold gca3.
  pose proof (live_tip s lf Hwf Hl). pose proof (live_tip s rt Hwf Hr).
  destruct (Nat.eqb_spec (TABLE s) 0); [lia|]. destruct (Nat.eqb_spec lf 0); [lia|]. destruct (Nat.eqb_spec rt 0); [lia|].
  cbn [orb]. destruct (walkrevs_collect _ _ _ _) as [glist s']. destruct HG as (Hin & Hsort & Hsame).
  destruct glist as [|g rest].
  { exfalso. destruct Hg2 as [[->|Hg] Hmax].
    - destruct Hex as (j & J1 & J2). pose proof (Hmax j J1 J2). destruct (anc_live s Hwf lf j Hl J1) as [Hj _].
      pose proof (live_pos s j Hj). lia.
    - apply (not_elem_of_nil g2), Hin. split; [done|]. intros k K1 K2 Ka. pose proof (Hmax k K1 K2).
      destruct (anc_live s Hwf _ _ Hl K1) as [Kl _]. destruct (anc_live s Hwf k g2 Kl Ka). lia. }
  pose proof (glist_head s lf rt Hwf Hl g rest g2 Hin Hsort Hg2) as <-.
  assert (Hbl : ∀ d, d ∈ g :: rest → live s d).
  { intros d Hd. apply Hin in Hd as [[Hd _] _]. by destruct (anc_live s Hwf lf d Hl Hd). }
  assert (Hgl : live s g) by (apply Hbl; by left).
  destruct (Nat.ltb_spec 1 (length (g :: rest))) as [Hlen|Hlen].
  - destruct (compress_bases s' g (g :: rest)) as [Hok HC].
    { by eapply same_graph_wf. } { intros d Hd. rewrite (same_graph_live s' s) by done. by apply Hbl. }
    { by rewrite (same_graph_live s' s). }
    { intros d. rewrite (same_graph_live s' s), (same_graph_flags s' s) by done. apply Hgone. }
    cbv zeta. rewrite Hok. destruct (compressmap s' g _) as [inc exc]. destruct HC as (sl & Hsl & Ht).
    exists g, (as_arg inc), (as_arg exc), s', (g :: rest). split_and!; [done|done..|]. exists sl.
    rewrite <- (same_graph_serialmap s' s) by done. split; [done|]. intros t Hgt. rewrite Ht by done.
    by rewrite (same_graph_view s' s).
  - destruct rest; [|cbn in Hlen; lia]. exists g, None, None, s', [g]. split_and!; [done|done..|].
    by apply serialmap_plain.
Qed.

(** ** The tips of the graph *)

(** The walk changes flags only. *)
Definition same_r (t s : sccs) : Prop := ∀ j, d_r (dl t j) = d_r (dl s j).

#[local] Instance same_r_preorder : PreOrder same_r.
Proof. split; [done|]. intros x y z H1 H2 j. by rewrite H1. Qed.

Lemma flags_same_r s d v : same_r (FLAGS_SET s d v) s.
Proof.
  intros j. unfold FLAGS_SET. destruct (decide (j = d)) as [->|]; [|by rewrite dl_set_ne].
  destruct (decide (1 <= d <= length (deltas s))%nat) as [H|H]; [by rewrite dl_set_eq|].
  destruct d; [done|]. rewrite !dl_out; [done|lia|rewrite length_set_delta; lia].
Qed.

Lemma markDelta_same_r o d x wr : same_r (wr_s (markDelta o d x wr)) (wr_s wr).
Proof. unfold markDelta. case_if; [done|]. cbn [wr_s]. apply flags_same_r. Qed.

Lemma mark_list_same_r o ds x wr : same_r (wr_s (mark_list o ds x wr)) (wr_s wr).
Proof.
  unfold mark_list. revert wr. induction ds as [|d ds IH]; intros wr; cbn [fold_left]; [done|].
  etrans; [apply IH|apply markDelta_same_r].
Qed.

Lemma walk_step_same_r o d wr : same_r (wr_s (snd (walk_step o (markParents o) d wr))) (wr_s wr).
Proof.
  unfold walk_step. set (w1 := if wr_all wr then _ else wr).
  assert (H1 : same_r (wr_s w1) (wr_s wr)) by (unfold w1; case_if; [apply markDelta_same_r|done]).
  cbn [wr_s]. case_if; [exact H1|]. set (w2 := markParents o d _ _).
  assert (H2 : same_r (wr_s w2) (wr_s wr)).
  { unfold w2, markParents. etrans; [apply mark_list_same_r|]. cbn [wr_s]. etrans; [apply flags_same_r|done]. }
  case_if; [exact H2|]. case_if; cbn [snd wr_s]; [|exact H2]. case_if; [|exact H2].
  unfold markParents. etrans; [apply mark_list_same_r|exact H2].
Qed.

Lemma walkrevs_loop_same_r o d wr : same_r (wr_s (snd (walkrevs_loop o d wr))) (wr_s wr).
Proof.
  revert wr. induction d as [|d IH]; intros wr; cbn [walkrevs_loop]; [done|].
  case_if; [done|]. case_if; [apply IH|]. pose proof (walk_step_same_r o (S d) wr) as H.
  destruct (walk_step _ _ _ _) as [found w]. cbn [snd] in H. case_if; [done|]. etrans; [apply IH|done].
Qed.

Lemma mark_seeds_same_r o ds x wr : same_r (wr_s (mark_seeds o ds x wr)) (wr_s wr).
Proof.
  unfold mark_seeds. revert wr. induction ds as [|d ds IH]; intros wr; cbn [fold_left]; [done|].
  etrans; [apply IH|]. etrans; [apply markDelta_same_r|done].
Qed.

(** The release number. *)
(** What the loop makes of the tips. *)
Fixpoint tip_pair (a b : nat) (l : list nat) : option (nat * nat) :=
  match l with
  | [] => Some (a, b)
  | d :: l => if (a =? 0)%nat then tip_pair d b l else assert! ((b =? 0)%nat) ; tip_pair a d l
  end.

Lemma findtips_collect s fuel wr a b l wr' :
  collect_loop WR_TIP fuel wr = (l, wr') → (length l < fuel)%nat → same_r (wr_s wr) s →
  Forall (λ d, R0 s d = 1%nat) l →
  findtips_loop fuel a b wr = let? ab := tip_pair a b l in Some (fst ab, snd ab, wr').
Proof.
  revert wr a b l. induction fuel as [|fuel IH]; intros wr a b l Hc Hl Hr H1; [lia|]. cbn [collect_loop findtips_loop] in *.
  pose proof (walkrevs_loop_same_r WR_TIP (wr_d wr - 1) wr) as Hw. fold (walkrevs WR_TIP wr) in Hw.
  destruct (walkrevs WR_TIP wr) as [d w]. cbn [snd] in Hw. case_if; [injection Hc as <- <-; done|].
  destruct (collect_loop WR_TIP fuel w) as [l' w'] eqn:Hc'. injection Hc as <- <-.
  apply Forall_cons in H1 as [Hd H1]. rewrite Hw, Hr. unfold R0, R_of in Hd. rewrite Hd. cbn [Nat.eqb tip_pair].
  assert (Hrw : same_r (wr_s w) s) by (etrans; [exact Hw|exact Hr]). cbn [length] in Hl.
  case_if; [by apply IH; [|lia| |]|]. case_if; [|done]. by apply IH; [|lia| |].
Qed.

(** A delta of the file that is not a parent of another. *)
Definition graph_tip (s : sccs) (j : nat) : Prop := live s j ∧ ∀ k, live s k → j ∉ parents_of s k.

Lemma listed_tip s j : wf_graph s → listed s WR_TIP [] None j ↔ graph_tip s j.
Proof.
  intros Hwf. unfold listed, wanted, is_red, graph_tip. cbn [wr_either wr_both wr_tip WR_TIP].
  assert (Hno : ∀ k, ~ below_any s [] k) by (intros k (i & Hi & _); by apply not_elem_of_nil in Hi). split.
  - intros [[Hl _] Hmax]. split; [done|]. intros k Hk Hp.
    destruct (parents_of_wf s k j Hwf Hk Hp) as [Hlt _].
    assert (k = j) as ->; [|lia]. apply Hmax; [done|by split|]. eapply anc_step; [apply anc_refl|done].
  - intros [Hl Ht]. split; [by split|]. intros _ k [Hk _] Ha. destruct Ha as [|i j Ha Hp]; [done|].
    exfalso. destruct (anc_live s Hwf k i Hk Ha) as [Hi _]. by apply (Ht i).
Qed.

Lemma sorted_bound (l : list nat) n : StronglySorted gt l → Forall (λ x, (1 <= x <= n)%nat) l → (length l <= n)%nat.
Proof.
  intros Hs. revert n. induction Hs as [|x l _ IH Hall]; intros n Hb; [cbn; lia|].
  apply Forall_cons in Hb as [Hx Hb]. cbn. assert (length l <= x - 1)%nat; [|lia].
  apply IH. rewrite Forall_forall in *. intros y Hy. specialize (Hall y Hy). specialize (Hb y Hy). cbn in *. lia.
Qed.

(** ** Properties *)

(** [sccs_gca] without lists returns the newest delta that is an ancestor of
    both (each delta counting as its own), or 0 when there is none: marks of two
    bits pushed down the graph in one pass are enough. *)
Theorem gca2_newest (s : sccs) (lf rt : nat) :
  wf_graph s → in_use s → live s lf → live s rt →
  ∃ g, sccs_gca s lf rt false = Some (g, None, None, s) ∧
    (g = 0%nat ∨ (anc s lf g ∧ anc s rt g)) ∧ ∀ j, anc s lf j → anc s rt j → (j <= g)%nat.
Proof.
  intros Hwf Hu Hl Hr. destruct (gca2_ok s lf rt Hwf Hu Hl Hr) as (g & Hg & Hn). exists g. unfold sccs_gca. by rewrite Hg.
Qed.

Lemma ex_graph_in_use : in_use ex_graph.
Proof. intros j Hj. exact (proj1 (ex_graph_live j Hj)). Qed.

Lemma gca2_newest_witness :
  ∃ g, sccs_gca ex_graph 3 6 false = Some (g, None, None, ex_graph) ∧
    (g = 0%nat ∨ (anc ex_graph 3 g ∧ anc ex_graph 6 g)) ∧ ∀ j, anc ex_graph 3 j → anc ex_graph 6 j → (j <= g)%nat.
Proof. apply (gca2_newest ex_graph 3 6 ex_graph_wf ex_graph_in_use); apply ex_graph_live; lia. Defined.

(** C17. [sccs_gca] with lists: on a well-formed graph without colors and gone
    deltas, when the two deltas have a common ancestor no assert fails, the base is the same newest common ancestor, the graph is
    unchanged, and checking out the base with the include and exclude lists
    gives exactly the deltas of the version whose tips are all maximal common
    ancestors. *)
Theorem gca3_bases (s : sccs) (lf rt : nat) :
  wf_graph s → in_use s → (∀ j, Z.land (FLAGS s j) ALLC = 0) → (∀ d, live s d → Z.land (FLAGS s d) D_GONE = 0) →
  live s lf → live s rt → (∃ j, anc s lf j ∧ anc s rt j) →
  ∃ g inc exc s' bases, sccs_gca s lf rt true = Some (g, inc, exc, s') ∧ deltas s' = deltas s ∧
    sccs_gca s lf rt false = Some (g, None, None, s) ∧
    (∀ j, j ∈ bases ↔ max_common s lf rt j) ∧
    ∃ sl, serialmap s g 0 inc exc = inl sl ∧ ∀ t, (TREE < t)%nat → sl t = Z.b2z (view s bases t).
Proof.
  intros Hwf Hu Hc Hg Hl Hr Hex.
  destruct (gca3_ok s lf rt Hwf Hu Hc Hg Hl Hr Hex) as (g & inc & exc & s' & bases & H1 & [H2 _] & H3 & H4 & H5).
  exists g, inc, exc, s', bases. split_and!; [done|done| |done|done].
  destruct (gca2_ok s lf rt Hwf Hu Hl Hr) as (g2 & Hg2 & [Hor Hmax]). unfold sccs_gca. rewrite Hg2. do 4 f_equal.
  destruct H3 as [Hor3 Hmax3]. destruct Hor as [->|[A B]], Hor3 as [->|[A' B']]; [done|..].
  - pose proof (Hmax g A' B'). lia.
  - pose proof (Hmax3 g2 A B). lia.
  - pose proof (Hmax g A' B'). pose proof (Hmax3 g2 A B). lia.
Qed.

(** A criss-cross: 4 and 5 both merge 2 and 3. *)
Definition ex_cross : sccs :=
  mkSccs [mk_delta 0 0 []; mk_delta 1 0 []; mk_delta 1 0 []; mk_delta 2 3 (saveNums [(3, 1)]);
          mk_delta 3 2 (saveNums [(2, 1)])] 5 0 0 0 0 false.

Lemma ex_cross_live d : (1 <= d <= 5)%nat → live ex_cross d.
Proof. intros Hd. apply liveb_spec. do 6 (destruct d as [|d]; [reflexivity || lia|]). lia. Qed.

Lemma gca3_bases_witness :
  (let? r := sccs_gca ex_cross 4 5 true in Some (fst r)) = Some (3%nat, Some ([2%nat], 0), None) ∧
  ∃ g inc exc s' bases, sccs_gca ex_cross 4 5 true = Some (g, inc, exc, s') ∧ deltas s' = deltas ex_cross ∧
    sccs_gca ex_cross 4 5 false = Some (g, None, None, ex_cross) ∧
    (∀ j, j ∈ bases ↔ max_common ex_cross 4 5 j) ∧
    ∃ sl, serialmap ex_cross g 0 inc exc = inl sl ∧ ∀ t, (TREE < t)%nat → sl t = Z.b2z (view ex_cross bases t).
Proof.
  split; [reflexivity|]. apply (gca3_bases ex_cross 4 5).
  - apply wf_graphb_sound. reflexivity.
  - intros j Hj. exact (proj1 (ex_cross_live j Hj)).
  - intros j. do 6 (destruct j as [|j]; [reflexivity|]). by destruct j.
  - intros j _. do 6 (destruct j as [|j]; [reflexivity|]). by destruct j.
  - apply ex_cross_live. lia.
  - apply ex_cross_live. lia.
  - exists 2%nat. split; (eapply anc_step; [apply anc_refl|]; apply list_elem_of_In; cbn; auto).
Defined.

(** C36. [sccs_findtips]: on a well-formed graph without colors with at most two
    tips, all in release 1, no assert fails, [a] and [b] are exactly the tips, newest first and 0 for a
    missing one, the result tells whether there are two, and the graph is
    unchanged. *)
Theorem findtips_correct (s : sccs) (tips : list nat) :
  wf_graph s → in_use s → (∀ j, Z.land (FLAGS s j) ALLC = 0) →
  (length tips <= 2)%nat → (∀ j, graph_tip s j → j ∈ tips ∧ R0 s j = 1%nat) →
  ∃ r a b s', sccs_findtips s = Some (r, a, b, s') ∧ deltas s' = deltas s ∧
    (∀ j, j ≠ 0%nat → graph_tip s j ↔ j = a ∨ j = b) ∧ (r = true ↔ b ≠ 0%nat) ∧ (b < a ∨ b = 0)%nat.
Proof.
  intros Hwf Hu Hc Hlen Htips.
  pose proof (walkrevs_collect_spec s WR_TIP [] None Hwf (in_use_live s Hu) Hc) as H. unfold walkrevs_collect in H.
  destruct (collect_loop WR_TIP (S (TABLE s)) (walkrevs_setup WR_TIP s [] None)) as [l wr'] eqn:Hcl.
  destruct H as (H1 & H2 & H3 & _); [by intros d ?%not_elem_of_nil|done|].
  assert (Hl : ∀ j, j ∈ l ↔ graph_tip s j) by (intros j; by rewrite H1, listed_tip).
  assert (Hnd : NoDup l).
  { clear -H2. induction H2 as [|x l _ IH Hall]; constructor; [|done]. intros Hx. rewrite Forall_forall in Hall. specialize (Hall x Hx). lia. }
  assert (Hl2 : (length l <= 2)%nat).
  { etrans; [|exact Hlen]. apply (submseteq_length l tips). apply NoDup_submseteq; [done|]. intros j Hj. by apply Htips, Hl. }
  assert (HlT : (length l <= TABLE s)%nat).
  { apply sorted_bound; [done|]. apply Forall_forall. intros j Hj. apply (live_tip s j Hwf). apply Hl in Hj. apply Hj. }
  unfold sccs_findtips.
  rewrite (findtips_collect s _ _ 0 0 l wr'); [|exact Hcl|lia| |].
  2:{ unfold walkrevs_setup. cbn [wr_s]. etrans; [apply mark_seeds_same_r|done]. }
  2:{ apply Forall_forall. intros j Hj. by apply Htips, Hl. }
  assert (Hpos : ∀ j, j ∈ l → (1 <= j)%nat) by (intros j Hj; apply Hl in Hj as [Hj _]; by apply (live_pos s)).
  destruct l as [|x [|y [|z l]]]; cbn [length] in Hl2; [..|lia].
  - exists false, 0%nat, 0%nat, (walkrevs_done WR_TIP wr'). split_and!; [done|done| |done|by right].
    intros j Hj. rewrite <- Hl. split; [by intros ?%not_elem_of_nil|lia].
  - pose proof (Hpos x ltac:(by left)). cbn [tip_pair]. exists false, x, 0%nat, (walkrevs_done WR_TIP wr').
    split_and!; [done|done| |done|by right]. intros j Hj. rewrite <- Hl, list_elem_of_singleton. lia.
  - pose proof (Hpos x ltac:(by left)). pose proof (Hpos y ltac:(by right; left)). cbn [tip_pair Nat.eqb].
    destruct (Nat.eqb_spec x 0); [lia|]. cbn [fst snd].
    apply StronglySorted_inv in H2 as [_ Hall]. rewrite Forall_singleton in Hall.
    exists true, x, y, (walkrevs_done WR_TIP wr'). split_and!; [|done| |split; [lia|done]|left; lia].
    + do 4 f_equal. by destruct (Nat.eqb_spec y 0); [lia|].
    + intros j Hj. rewrite <- Hl, elem_of_cons, list_elem_of_singleton. done.
Qed.

(** Two open branches. *)
Definition ex_tips : sccs :=
  mkSccs [mkDelta 0 0 0 0 0 D_INARRAY [] (1, 1, 0, 0)%nat; mkDelta 1 0 0 0 0 D_INARRAY [] (1, 2, 0, 0)%nat;
          mkDelta 1 0 0 0 0 D_INARRAY [] (1, 1, 1, 1)%nat] 3 0 0 0 0 false.

Lemma findtips_correct_witness :
  ∃ r a b s', sccs_findtips ex_tips = Some (r, a, b, s') ∧ deltas s' = deltas ex_tips ∧
    (∀ j, j ≠ 0%nat → graph_tip ex_tips j ↔ j = a ∨ j = b) ∧ (r = true ↔ b ≠ 0%nat) ∧ (b < a ∨ b = 0)%nat.
Proof.
  assert (Hl : ∀ d, (1 <= d <= 3)%nat → live ex_tips d).
  { intros d Hd. apply liveb_spec. do 4 (destruct d as [|d]; [reflexivity || lia|]). lia. }
  apply (findtips_correct ex_tips [3%nat; 2%nat]).
  - apply wf_graphb_sound. reflexivity.
  - intros j Hj. exact (proj1 (Hl j Hj)).
  - intros j. do 4 (destruct j as [|j]; [reflexivity|]). by destruct j.
  - cbn. lia.
  - intros j [Hj Hn]. apply liveb_spec in Hj. destruct j as [|[|[|[|j]]]]; [done| | | |by destruct j].
    + exfalso. apply (Hn 2%nat); [apply Hl; lia|]. apply list_elem_of_In. cbn. auto.
    + split; [by right; left|done].
    + split; [by left|done].
Defined.

(** *** The trunk walk *)

(** First parents only. *)
Inductive trunk (s : sccs) (i : nat) : nat → Prop :=
  | trunk_refl : trunk s i i
  | trunk_step k : trunk s i k → PARENT s k ≠ 0%nat → trunk s i (PARENT s k).

Fixpoint trunk_list (fuel : nat) (s : sccs) (d : nat) : list nat :=
  match fuel, d with
  | O, _ => []
  | _, O => []
  | S fuel, _ => d :: trunk_list fuel s (PARENT s d)
  end.

Section trunk_proof.
Context (s : sccs).
Hypothesis s_wf : wf_graph s.

Lemma trunk_live i j : live s i → trunk s i j → live s j.
Proof. intros Hi H. induction H as [|k H IH Hp]; [done|]. by apply (wf_parent s s_wf k IH). Qed.

Lemma trunk_head i j : trunk s i j → i = j ∨ (PARENT s i ≠ 0%nat ∧ trunk s (PARENT s i) j).
Proof.
  intros H. induction H as [|k H [<-|[IH1 IH2]] Hp]; [by left|right|right].
  - split; [done|constructor].
  - split; [done|]. by constructor.
Qed.

Lemma trunk_list_spec fuel d j : live s d → (d <= fuel)%nat → j ∈ trunk_list fuel s d ↔ trunk s d j.
Proof.
  revert d. induction fuel as [|fuel IH]; intros d Hd Hf; pose proof (live_pos s d Hd); [lia|].
  destruct d as [|d]; [lia|]. cbn [trunk_list]. rewrite elem_of_cons.
  destruct (decide (PARENT s (S d) = 0%nat)) as [E|E].
  - rewrite E. replace (trunk_list fuel s 0) with (@nil nat) by (by destruct fuel). rewrite elem_of_nil. split.
    + intros [->|[]]. constructor.
    + intros [->|[? _]]%trunk_head; [by left|done].
  - destruct (wf_parent s s_wf (S d) Hd E) as [Hlt Hl]. rewrite IH by (done || lia). split.
    + intros [->|Ht]; [constructor|]. clear -Ht E. induction Ht as [|k Ht IH Hp]; constructor; try done. constructor.
    + intros [->|[_ ?]]%trunk_head; [by left|by right].
Qed.

Lemma trunk_list_bound fuel d : live s d → Forall (λ j, (1 <= j <= d)%nat) (trunk_list fuel s d) ∧ StronglySorted gt (trunk_list fuel s d).
Proof.
  revert d. induction fuel as [|fuel IH]; intros d Hd; [split; constructor|]. pose proof (live_pos s d Hd).
  destruct d as [|d]; [lia|]. cbn [trunk_list].
  destruct (decide (PARENT s (S d) = 0%nat)) as [E|E].
  - rewrite E. replace (trunk_list fuel s 0) with (@nil nat) by (by destruct fuel).
    split; [rewrite Forall_singleton; lia|repeat constructor].
  - destruct (wf_parent s s_wf (S d) Hd E) as [Hlt Hl]. destruct (IH _ Hl) as [H1 H2].
    split; (constructor; [lia || done|]); (eapply Forall_impl; [exact H1|]); cbn; intros; lia.
Qed.
End trunk_proof.

(** Only flags differ. *)
Definition same_parents (t s : sccs) : Prop := (∀ j, PARENT t j = PARENT s j) ∧ length (deltas t) = length (deltas s).

Lemma set_same_parents s d v : same_parents (FLAGS_SET s d v) s.
Proof.
  split; [|apply length_set_delta]. intros j. unfold FLAGS_SET, PARENT. destruct (decide (j = d)) as [->|]; [|by rewrite dl_set_ne].
  destruct (decide (1 <= d <= length (deltas s))%nat) as [H|H]; [by rewrite dl_set_eq|].
  destruct d; [done|]. rewrite !dl_out; [done|lia|rewrite length_set_delta; lia].
Qed.

Lemma trunk_list_same fuel t s d : same_parents t s → trunk_list fuel t d = trunk_list fuel s d.
Proof.
  intros [H _]. revert d. induction fuel as [|fuel IH]; intros d; [done|]. destruct d; [done|]. cbn [trunk_list]. by rewrite H, IH.
Qed.

Section marking.
Context (f : Z → Z).

Definition mark_flags (s : sccs) (d : nat) : sccs := FLAGS_SET s d (f (FLAGS s d)).

Lemma parent_loop_fold fuel s d : parent_loop fuel mark_flags s d = fold_left mark_flags (trunk_list fuel s d) s.
Proof.
  revert s d. induction fuel as [|fuel IH]; intros s d; [done|]. destruct d as [|d]; [done|].
  cbn [parent_loop trunk_list fold_left]. rewrite IH.
  pose proof (set_same_parents s (S d) (f (FLAGS s (S d)))) as Hs. fold (mark_flags s (S d)) in Hs.
  rewrite (trunk_list_same fuel _ _ _ Hs). by rewrite (proj1 Hs).
Qed.

Lemma fold_mark_flags ds s :
  NoDup ds → Forall (λ j, (1 <= j <= length (deltas s))%nat) ds →
  same_parents (fold_left mark_flags ds s) s ∧
  ∀ j, FLAGS (fold_left mark_flags ds s) j = if bool_decide (j ∈ ds) then f (FLAGS s j) else FLAGS s j.
Proof.
  revert s. induction ds as [|d ds IH]; intros s Hnd Hb; cbn [fold_left].
  - split; [by split|]. intros j. by rewrite bool_decide_eq_false_2 by apply not_elem_of_nil.
  - apply NoDup_cons in Hnd as [Hd Hnd]. apply Forall_cons in Hb as [Hb1 Hb].
    pose proof (set_same_parents s d (f (FLAGS s d))) as Hs. fold (mark_flags s d) in Hs.
    destruct (IH (mark_flags s d) Hnd) as [[I1 I1'] I2]; [by rewrite (proj2 Hs)|]. split.
    + split; [intros j; by rewrite I1, (proj1 Hs)|]. by rewrite I1', (proj2 Hs).
    + intros j. rewrite I2. destruct (decide (j = d)) as [->|Hne].
      * rewrite bool_decide_eq_false_2 by done. rewrite bool_decide_eq_true_2 by left.
        unfold mark_flags, FLAGS_SET. unfold FLAGS at 1. rewrite dl_set_eq by done. done.
      * assert (FLAGS (mark_flags s d) j = FLAGS s j) as ->
          by (unfold mark_flags, FLAGS_SET; unfold FLAGS at 1; by rewrite dl_set_ne).
        rewrite (bool_decide_ext (j ∈ d :: ds) (j ∈ ds)); [done|]. rewrite elem_of_cons. naive_solver.
Qed.
End marking.

Lemma parent_find_spec fuel s d :
  match filter (λ j, has s j D_RED = true) (trunk_list fuel s d) with
  | [] => parent_find fuel s d = 0%nat
  | j :: _ => parent_find fuel s d = j
  end.
Proof.
  revert d. induction fuel as [|fuel IH]; intros d; [done|]. destruct d as [|d]; [done|]. cbn [trunk_list parent_find].
  rewrite filter_cons. destruct (has s (S d) D_RED); [by rewrite decide_True|]. rewrite decide_False by done. apply IH.
Qed.

Lemma sorted_nodup (l : list nat) : StronglySorted gt l → NoDup l.
Proof.
  intros H. induction H as [|x l _ IH Hall]; constructor; [|done]. intros Hx. rewrite Forall_forall in Hall.
  specialize (Hall x Hx). lia.
Qed.

Lemma sorted_filter (P : nat → Prop) `{!∀ x, Decision (P x)} (l : list nat) : StronglySorted gt l → StronglySorted gt (filter P l).
Proof.
  intros Hs. induction Hs as [|x l _ IH Hall]; [constructor|]. rewrite filter_cons. case_decide; [|exact IH]. constructor; [exact IH|].
  rewrite Forall_forall in *. intros y Hy. apply Hall. by apply list_elem_of_filter in Hy as [_ ?].
Qed.

Lemma red_or v : (Z.land (Z.lor v D_RED) D_RED =? 0) = false.
Proof.
  apply Z.eqb_neq. intros H. apply (f_equal (λ z, Z.testbit z 27)) in H.
  rewrite Z.land_spec, Z.lor_spec in H. change (Z.testbit D_RED 27) with true in H. rewrite orb_true_r in H. done.
Qed.

Lemma red_clr v : (Z.land (Z.ldiff v D_RED) D_RED =? 0) = true.
Proof. apply Z.eqb_eq. apply Z.bits_inj'. intros b Hb. rewrite Z.land_spec, Z.ldiff_spec, Z.bits_0. by destruct (Z.testbit v b), (Z.testbit D_RED b). Qed.

Lemma red_again v (b : bool) : Z.lor (if b then Z.ldiff v D_RED else v) D_RED = Z.lor v D_RED.
Proof.
  destruct b; [|done]. apply Z.bits_inj'. intros i Hi. rewrite !Z.lor_spec, Z.ldiff_spec.
  by destruct (Z.testbit v i), (Z.testbit D_RED i).
Qed.

(** [gca] returns the newest delta on the first-parent chains of both deltas,
    or 0 when the chains do not meet, whatever the red flags were before; it
    leaves the red flag set along the right chain and clear on the rest of the
    left one, and no other flag changed. *)
Theorem gca_trunk (s : sccs) (lf rt : nat) :
  wf_graph s → live s lf → live s rt →
  let '(g, s') := gca s lf rt in
  (g = 0%nat ∨ (trunk s lf g ∧ trunk s rt g)) ∧ (∀ j, trunk s lf j → trunk s rt j → (j <= g)%nat) ∧
  ∀ j, (trunk s rt j → FLAGS s' j = Z.lor (FLAGS s j) D_RED) ∧
       (trunk s lf j → ~ trunk s rt j → FLAGS s' j = Z.ldiff (FLAGS s j) D_RED) ∧
       (~ trunk s lf j → ~ trunk s rt j → FLAGS s' j = FLAGS s j).
Proof.
  intros Hwf Hl Hr. pose proof (live_tip s lf Hwf Hl) as Tl. pose proof (live_tip s rt Hwf Hr) as Tr. unfold gca.
  destruct (Nat.eqb_spec lf 0) as [|_]; [lia|]. destruct (Nat.eqb_spec rt 0) as [|_]; [lia|]. cbn [orb]. set (n := S (TABLE s)).
  destruct (trunk_list_bound s Hwf n lf Hl) as [Bl Sl]. destruct (trunk_list_bound s Hwf n rt Hr) as [Br Sr].
  pose proof (λ j, trunk_list_spec s Hwf n lf j Hl ltac:(unfold n; lia)) as El.
  pose proof (λ j, trunk_list_spec s Hwf n rt j Hr ltac:(unfold n; lia)) as Er.
  change (λ s d, flags_clr s d D_RED) with (mark_flags (λ v, Z.ldiff v D_RED)).
  change (λ s d, flags_or s d D_RED) with (mark_flags (λ v, Z.lor v D_RED)).
  pose proof (wf_tip s Hwf) as Htip.
  rewrite (parent_loop_fold _ n s lf). destruct (fold_mark_flags (λ v, Z.ldiff v D_RED) (trunk_list n s lf) s (sorted_nodup _ Sl)) as [P1 F1].
  { eapply Forall_impl; [exact Bl|]. cbn. intros; lia. }
  set (s1 := fold_left _ _ s) in *. rewrite (parent_loop_fold _ n s1 rt), (trunk_list_same n s1 s rt P1).
  destruct (fold_mark_flags (λ v, Z.lor v D_RED) (trunk_list n s rt) s1 (sorted_nodup _ Sr)) as [P2 F2].
  { eapply Forall_impl; [exact Br|]. intros j Hj. cbn beta in *. rewrite (proj2 P1). lia. }
  set (s2 := fold_left _ _ s1) in *.
  assert (P : same_parents s2 s) by (split; [intros j; by rewrite (proj1 P2), (proj1 P1)|by rewrite (proj2 P2), (proj2 P1)]).
  pose proof (parent_find_spec n s2 lf) as HF. rewrite (trunk_list_same n s2 s lf P) in HF.
  assert (Hred : ∀ j, j ∈ trunk_list n s lf → has s2 j D_RED = true ↔ j ∈ trunk_list n s rt).
  { intros j Hj. unfold has. rewrite F2, F1. case_bool_decide as Hjr; [by rewrite red_or|].
    rewrite bool_decide_eq_true_2 by done. rewrite red_clr. cbn. split; [done|by intros ?]. }
  split_and!.
  - destruct (filter _ _) as [|g l] eqn:Ef; [by left|]. right. rewrite HF.
    assert (Hg : g ∈ filter (λ j, has s2 j D_RED = true) (trunk_list n s lf)) by (rewrite Ef; by left).
    apply list_elem_of_filter in Hg as [Hg1 Hg2]. rewrite <- El, <- Er. split; [done|]. by apply Hred.
  - intros j Jl Jr. rewrite <- El in Jl. rewrite <- Er in Jr.
    assert (Hj : j ∈ filter (λ j, has s2 j D_RED = true) (trunk_list n s lf)) by (apply list_elem_of_filter; split; [by apply Hred|done]).
    assert (Sf : StronglySorted gt (filter (λ j, has s2 j D_RED = true) (trunk_list n s lf))).
    { by apply sorted_filter. }
    destruct (filter _ _) as [|g l]; [by apply not_elem_of_nil in Hj|]. rewrite HF.
    apply elem_of_cons in Hj as [->|Hj]; [done|]. apply StronglySorted_inv in Sf as [_ Hall]. rewrite Forall_forall in Hall.
    specialize (Hall j Hj). lia.
  - intros j. rewrite <- El, <- Er. rewrite F2, F1. split_and!.
    + intros Hj. rewrite bool_decide_eq_true_2 by done. apply red_again.
    + intros Hj Hn. by rewrite bool_decide_eq_false_2, bool_decide_eq_true_2 by done.
    + intros Hj Hn. by rewrite !bool_decide_eq_false_2 by done.
Qed.

Lemma gca_trunk_witness :
  fst (gca ex_graph 6 4) = 2%nat ∧
  let '(g, s') := gca ex_graph 6 4 in
  (g = 0%nat ∨ (trunk ex_graph 6 g ∧ trunk ex_graph 4 g)) ∧
  (∀ j, trunk ex_graph 6 j → trunk ex_graph 4 j → (j <= g)%nat) ∧
  ∀ j, (trunk ex_graph 4 j → FLAGS s' j = Z.lor (FLAGS ex_graph j) D_RED) ∧
       (trunk ex_graph 6 j → ~ trunk ex_graph 4 j → FLAGS s' j = Z.ldiff (FLAGS ex_graph j) D_RED) ∧
       (~ trunk ex_graph 6 j → ~ trunk ex_graph 4 j → FLAGS s' j = FLAGS ex_graph j).
Proof.
  split; [reflexivity|]. apply (gca_trunk ex_graph 6 4 ex_graph_wf); apply ex_graph_live; lia.
Defined.
