(* ===== verification/Date.v ===== *)
(** * Date: times, dates and searching by date

    [leapYear], [tm2utc], [utc2tm], [monthDays], [a2tm], [date2time],
    [sccs_date2time], [sccs_utctime], [key2date] and [sccs_date2delta] of
    src/src/slib.c.  A [time_t] is a 64-bit integer and the values here stay
    far below its bounds, so it is a [Z]; [int] division truncates ([Z.quot]).
    [None] is a failed assert, an index outside a table or a scan past the end
    of a string. *)

From S2P Require Import Prelude CStr Sccs.
From stdpp Require Import base numbers list.
From Stdlib Require Import ZArith Lia.

Local Open Scope Z_scope.

Local Open Scope bk_scope.

(** ** Tables *)

Definition DSECS : Z := 24 * 60 * 60.

(** The seconds before each year from 1970; the last entry is the stop. *)
Definition yearSecs : list Z :=
  [     0;   31536000;   63072000;   94694400;  126230400;  157766400;
  189302400;  220924800;  252460800;  283996800;  315532800;  347155200;
  378691200;  410227200;  441763200;  473385600;  504921600;  536457600;
  567993600;  599616000;  631152000;  662688000;  694224000;  725846400;
  757382400;  788918400;  820454400;  852076800;  883612800;  915148800;
  946684800;  978307200; 1009843200; 1041379200; 1072915200; 1104537600;
 1136073600; 1167609600; 1199145600; 1230768000; 1262304000; 1293840000;
 1325376000; 1356998400; 1388534400; 1420070400; 1451606400; 1483228800;
 1514764800; 1546300800; 1577836800; 1609459200; 1640995200; 1672531200;
 1704067200; 1735689600; 1767225600; 1798761600; 1830297600; 1861920000;
 1893456000; 1924992000; 1956528000; 1988150400; 2019686400; 2051222400;
 2082758400; 2114380800; 0].

Definition monthSecs : list Z :=
  map (Z.mul DSECS) [0; 31; 59; 90; 120; 151; 181; 212; 243; 273; 304; 334; 365].

Definition days : list Z := [0; 31; 28; 31; 30; 31; 30; 31; 31; 30; 31; 30; 31].

(** [table[i]] *)
Definition tbl (t : list Z) (i : Z) : option Z := if 0 <=? i then t !! Z.to_nat i else None.

Definition leapYear (year : Z) : bool :=
  ((Z.rem year 4 =? 0) && negb (Z.rem year 100 =? 0)) || (Z.rem year 400 =? 0).

(** ** struct tm *)

Record tm := mkTm { tm_year : Z; tm_mon : Z; tm_mday : Z; tm_hour : Z; tm_min : Z; tm_sec : Z }.

Definition tm2utc (tp : tm) : option Z :=
  if tm_year tp <? 70 then Some 1 else
  if tm_year tp >=? 138 then Some 0 else
  let? y := tbl yearSecs (tm_year tp - 70) in
  let? m := tbl monthSecs (tm_mon tp) in
  let t := y + m in
  let t := if (tm_mon tp >? 1) && leapYear (1900 + tm_year tp) then t + DSECS else t in
  let t := t + (tm_mday tp - 1) * DSECS in
  let t := t + tm_hour tp * 60 * 60 in
  let t := t + tm_min tp * 60 in
  Some (t + tm_sec tp).

(** The first loop of [utc2tm]: the index of the year. *)
Fixpoint year_loop (fuel : nat) (t i : Z) : option Z :=
  match fuel with
  | O => None
  | S fuel =>
      let? next := tbl yearSecs (i + 1) in
      if next =? 0 then Some i else
      if t <? next then Some i else year_loop fuel t (i + 1)
  end.

(** The second loop: the month and the rest, with [tm_mon] 0 when no month is
    found. *)
Fixpoint month_loop (fuel : nat) (leap : bool) (t i : Z) : option (Z * Z) :=
  match fuel with
  | O => None
  | S fuel =>
      if i <? 12 then
        let? tmp := tbl monthSecs (i + 1) in
        let tmp := if leap && (2 <=? i + 1) then tmp + DSECS else tmp in
        if t <? tmp then
          let? tmp := tbl monthSecs i in
          let tmp := if leap && (2 <=? i) then tmp + DSECS else tmp in
          Some (i, t - tmp)
        else month_loop fuel leap t (i + 1)
      else Some (0, t)
  end.

Definition utc2tm (t : Z) : option tm :=
  let? i := year_loop 69 t 0 in
  let? y := tbl yearSecs i in
  let t := t - y in
  let leap := leapYear (1900 + (70 + i)) in
  let? mt := month_loop 13 leap t 0 in
  let '(mon, t) := mt in
  let mday := Z.quot t DSECS + 1 in
  let t := t - DSECS * (mday - 1) in
  assert! (mday >? 0) ;
  let hour := Z.quot t 3600 in
  let t := t - hour * 3600 in
  let min := Z.quot t 60 in
  let t := t - min * 60 in
  Some (mkTm (70 + i) mon mday hour min t).

(** ** Dates *)

Definition monthDays (year month : Z) : option Z :=
  if negb (month =? 2) then tbl days month
  else if leapYear year then Some 29 else Some 28.

(** The loop that skips to a digit or the end, with the byte before the cursor. *)
Fixpoint skip_nondigit (prev : Z) (s : cstr) : Z * cstr :=
  match s with
  | [] => (prev, [])
  | c :: s' => if (c =? 0) || isdigit c then (prev, s) else skip_nondigit c s'
  end.

(** [gettime]: the field, [asctime[-1]] and [asctime] after it. *)
Definition gettime (s : cstr) : Z * Z * cstr :=
  let c0 := at0 s in
  let c1 := nth 1 s 0 in
  let '(v, prev, s) :=
    if isdigit c1 then ((c0 - 48) * 10 + (c1 - 48), c1, drop 2 s)
    else (c0 - 48, c0, drop 1 s) in
  let '(prev, s) := skip_nondigit prev s in
  (v, prev, s).

(** The loop of the year. *)
Fixpoint get_year (n : nat) (i tmp : Z) (s : cstr) : Z * cstr :=
  match n with
  | O => (tmp, s)
  | S n =>
      if isdigit (at0 s) then
        let tmp := tmp * 10 + (at0 s - 48) in
        let s := drop 1 s in
        if (i =? 1) && ((tmp >=? 69) || (tmp <=? 18)) then (tmp, s)
        else get_year n (i + 1) tmp s
      else (tmp, s)
  end.

Definition set_mon (v : Z) (t : tm) : tm := mkTm (tm_year t) v (tm_mday t) (tm_hour t) (tm_min t) (tm_sec t).
Definition set_mday (v : Z) (t : tm) : tm := mkTm (tm_year t) (tm_mon t) v (tm_hour t) (tm_min t) (tm_sec t).
Definition set_hour (v : Z) (t : tm) : tm := mkTm (tm_year t) (tm_mon t) (tm_mday t) v (tm_min t) (tm_sec t).
Definition set_min (v : Z) (t : tm) : tm := mkTm (tm_year t) (tm_mon t) (tm_mday t) (tm_hour t) v (tm_sec t).
Definition set_sec (v : Z) (t : tm) : tm := mkTm (tm_year t) (tm_mon t) (tm_mday t) (tm_hour t) (tm_min t) v.

(** The fields after the year, up to the label [correct]: the fields and the
    zone. *)
Definition a2tm_fields (tp : tm) (s : cstr) (z : option cstr) : tm * option cstr :=
  if at0 s =? 0 then (tp, z) else
  let '(v, _, s) := gettime s in let tp := set_mon (v - 1) tp in if at0 s =? 0 then (tp, z) else
  let '(v, _, s) := gettime s in let tp := set_mday v tp in if at0 s =? 0 then (tp, z) else
  let '(v, _, s) := gettime s in let tp := set_hour v tp in if at0 s =? 0 then (tp, z) else
  let '(v, _, s) := gettime s in let tp := set_min v tp in if at0 s =? 0 then (tp, z) else
  let '(v, prev, s) := gettime s in let tp := set_sec v tp in
  match z with
  | None => if (prev =? 45) || (prev =? 43) then (tp, Some (prev :: s)) else (tp, z)
  | Some _ => (tp, z)
  end.

(** "Truncate down oversized fields." *)
Definition a2tm_truncate (tp : tm) : option tm :=
  let tp := if tm_mon tp >? 11 then set_mon 11 tp else tp in
  let? i := monthDays (1900 + tm_year tp) (tm_mon tp + 1) in
  let tp := if i <? tm_mday tp then set_mday i tp else tp in
  let tp := if tm_hour tp >? 23 then set_hour 23 tp else tp in
  let tp := if tm_min tp >? 59 then set_min 59 tp else tp in
  let tp := if tm_sec tp >? 59 then set_sec 59 tp else tp in
  Some tp.

(** The loop that skips past a colon: it runs off a string without one. *)
Fixpoint past_colon (z : cstr) : option cstr :=
  match z with
  | [] => None
  | c :: z => if c =? 58 then Some z else past_colon z
  end.

Definition a2tm_zone (z : cstr) (tp : tm) : option tm :=
  let '(sign, z) := if at0 z =? 45 then (1, drop 1 z) else (-1, z) in
  let z := if at0 z =? 43 then drop 1 z else z in
  let tp := set_hour (tm_hour tp + atoi z * sign) tp in
  let? z := past_colon z in
  Some (set_min (tm_min tp + atoi z * sign) tp).

Definition a2tm (asctime : cstr) (z : option cstr) (roundup : bool) : option tm :=
  let tp := if roundup then mkTm 0 11 31 23 59 59 else mkTm 0 0 1 0 0 0 in
  let '(year, s) := get_year 4 0 0 asctime in
  let '(_, s) := skip_nondigit 0 s in
  let year := if year <? 69 then year + 100 else year in
  let year := if year >=? 1969 then year - 1900 else year in
  let tp := mkTm year (tm_mon tp) (tm_mday tp) (tm_hour tp) (tm_min tp) (tm_sec tp) in
  let '(tp, z) := a2tm_fields tp s z in
  let '(tp, z) := if tm_year tp =? 69 then (mkTm 0 0 0 0 0 0, None) else (tp, z) in
  let? tp := a2tm_truncate tp in
  match z with
  | None => Some tp
  | Some z => a2tm_zone z tp
  end.

Definition date2time (asctime : cstr) (z : option cstr) (roundup : bool) : option Z :=
  let z := match z with Some [] => None | _ => z end in
  let? tm := a2tm asctime z roundup in
  tm2utc tm.

Definition sccs_date2time (date : cstr) (zone : option cstr) : option Z := date2time date zone false.

(** The macro [X] of [sccs_utctime]. *)
Definition X (n : Z) : cstr := [48 + Z.quot n 10; 48 + Z.rem n 10].

Definition sccs_utctime (s : sccs) (d : nat) : option cstr :=
  let? tp := utc2tm (DATE s d) in
  Some (take 4 (sertoa (tm_year tp + 1900)) ++
        X (tm_mon tp + 1) ++ X (tm_mday tp) ++ X (tm_hour tp) ++ X (tm_min tp) ++ X (tm_sec tp)).

(** The date of a key follows its second bar; 0 without one. *)
Definition key2date (key : cstr) : option Z :=
  match strchr key 124 with
  | None => Some 0
  | Some t =>
      match strchr (drop 1 t) 124 with
      | None => Some 0
      | Some t => let? dd := sccs_date2time (drop 1 t) None in Some (u32 dd)
      end
  end.

(** ** The search *)

(** The interval halves. *)
Fixpoint date_loop (fuel : nat) (s : sccs) (date : Z) (lo hi : nat) : option (nat * nat) :=
  match fuel with
  | O => None
  | S fuel =>
      let d := ((hi + lo) / 2)%nat in
      if (lo <? d)%nat then
        if date >? DATE s d then date_loop fuel s date d hi else date_loop fuel s date lo d
      else Some (lo, hi)
  end.

Definition sccs_date2delta (s : sccs) (date : Z) : option nat :=
  let hi := TABLE s in
  let lo := TREE in
  if DATE s lo >=? date then Some lo else
  if DATE s hi <? date then Some hi else
  let? lh := date_loop (S (TABLE s)) s date lo hi in
  let '(lo, hi) := lh in
  assert! ((lo + 1 =? hi)%nat) ;
  assert! (DATE s hi >=? date) ;
  assert! (DATE s lo <? date) ;
  Some (if date =? DATE s hi then hi else lo).

(** ** The tables *)

Definition YEARS : nat := 68.

(** Midnight of January 1st, 2038. *)
Definition END : Z := 2145916800.

Definition ys (i : nat) : Z := nth i yearSecs 0.

Definition leap (i : nat) : bool := leapYear (1970 + Z.of_nat i).

Definition ylen (i : nat) : Z := (if leap i then 366 else 365) * DSECS.

(** The start of year [i], the end of the table included. *)
Definition ybound (i : nat) : Z := if (i <? YEARS)%nat then ys i else END.

(** Seconds before month [m] of a year. *)
Definition cum (lp : bool) (m : nat) : Z := nth m monthSecs 0 + if lp && (2 <=? m)%nat then DSECS else 0.

(** A check of all pairs of indices. *)
Definition pairs (n : nat) (P : nat → nat → bool) : bool := forallb (λ i, forallb (P i) (seq 0 n)) (seq 0 n).

Lemma pairs_spec n P i j : pairs n P = true → (i < n)%nat → (j < n)%nat → P i j = true.
Proof.
  unfold pairs. rewrite forallb_forall. intros H Hi Hj. specialize (H i ltac:(apply in_seq; lia)).
  rewrite forallb_forall in H. apply H. apply in_seq. lia.
Qed.

Lemma ybound_mono i j : (i < j)%nat → (j <= YEARS)%nat → ybound i < ybound j.
Proof.
  intros Hij Hj. pose proof (pairs_spec 69 (λ i j, implb (i <? j)%nat (ybound i <? ybound j)) i j eq_refl ltac:(unfold YEARS in *; lia) ltac:(unfold YEARS in *; lia)) as H.
  cbn beta in H. rewrite (proj2 (Nat.ltb_lt i j) Hij) in H. cbn in H. lia.
Qed.

Lemma ybound_len i : (i < YEARS)%nat → ybound (S i) = ybound i + ylen i.
Proof.
  intros Hi. pose proof (pairs_spec 68 (λ i _, ybound (S i) =? ybound i + ylen i) i 0 eq_refl ltac:(unfold YEARS in *; lia) ltac:(lia)) as H.
  cbn beta in H. lia.
Qed.

Lemma cum_mono lp i j : (i < j)%nat → (j <= 12)%nat → cum lp i < cum lp j.
Proof.
  intros Hij Hj. pose proof (pairs_spec 13 (λ i j, implb (i <? j)%nat (cum lp i <? cum lp j)) i j ltac:(by destruct lp) ltac:(lia) ltac:(lia)) as H.
  cbn beta in H. rewrite (proj2 (Nat.ltb_lt i j) Hij) in H. cbn in H. lia.
Qed.

(** An increasing sequence is entered somewhere. *)
Lemma bracket (f : nat → Z) n t : f 0%nat <= t < f n → ∃ i, (i < n)%nat ∧ f i <= t < f (S i).
Proof.
  induction n as [|n IH]; intros H; [lia|]. destruct (decide (f n <= t)) as [Hn|Hn]; [exists n; split; lia|].
  destruct IH as (i & ? & ?); [lia|]. exists i. split; lia.
Qed.

Lemma tbl_nat t i : (i < length t)%nat → tbl t (Z.of_nat i) = Some (nth i t 0).
Proof.
  intros Hi. unfold tbl. rewrite (proj2 (Z.leb_le _ _)), Nat2Z.id by lia.
  destruct (lookup_lt_is_Some_2 t i Hi) as [x Hx]. rewrite Hx. f_equal. symmetry. by apply nth_lookup_Some.
Qed.

Lemma year_loop_ok fuel t i j :
  ybound i <= t < ybound (S i) → (j <= i < YEARS)%nat → (i - j < fuel)%nat →
  year_loop fuel t (Z.of_nat j) = Some (Z.of_nat i).
Proof.
  intros Ht Hi. revert j Hi. induction fuel as [|fuel IH]; intros j Hj Hf; [lia|]. cbn [year_loop].
  replace (Z.of_nat j + 1) with (Z.of_nat (S j)) by lia. unfold YEARS in *. rewrite tbl_nat by (cbn; lia).
  destruct (decide (j = 67%nat)) as [->|H67]; [cbn; f_equal; lia|].
  assert (Hy : nth (S j) yearSecs 0 = ybound (S j)).
  { unfold ybound, YEARS. destruct (Nat.ltb_spec (S j) 68); [done|lia]. }
  rewrite Hy. pose proof (ybound_mono 0 (S j) ltac:(lia) ltac:(unfold YEARS; lia)) as Hp. change (ybound 0) with 0 in Hp.
  destruct (Z.eqb_spec (ybound (S j)) 0); [lia|]. destruct (decide (i = j)) as [->|Hne].
  - destruct (Z.ltb_spec t (ybound (S j))); [done|lia].
  - destruct (Z.ltb_spec t (ybound (S j))) as [Hlt|_].
    + destruct (decide (S j = i)) as [<-|]; [lia|]. pose proof (ybound_mono (S j) i ltac:(lia) ltac:(unfold YEARS; lia)). lia.
    + apply IH; lia.
Qed.

Lemma month_loop_ok fuel lp t i j :
  cum lp i <= t < cum lp (S i) → (j <= i < 12)%nat → (i - j < fuel)%nat →
  month_loop fuel lp t (Z.of_nat j) = Some (Z.of_nat i, t - cum lp i).
Proof.
  intros Ht Hi. revert j Hi. induction fuel as [|fuel IH]; intros j Hj Hf; [lia|]. cbn [month_loop].
  destruct (Z.ltb_spec (Z.of_nat j) 12); [|lia].
  replace (Z.of_nat j + 1) with (Z.of_nat (S j)) by lia. rewrite (tbl_nat _ (S j)) by (cbn; lia).
  assert (Hc : ∀ m, (if lp && (2 <=? Z.of_nat m) then nth m monthSecs 0 + DSECS else nth m monthSecs 0) = cum lp m).
  { intros m. unfold cum. replace (2 <=? Z.of_nat m) with (2 <=? m)%nat by (destruct (Nat.leb_spec 2 m), (Z.leb_spec 2 (Z.of_nat m)); (done || lia)).
    case_if; lia. }
  rewrite Hc. destruct (decide (i = j)) as [->|Hne].
  - destruct (Z.ltb_spec t (cum lp (S j))); [|lia]. rewrite (tbl_nat _ j) by (cbn; lia). by rewrite Hc.
  - destruct (Z.ltb_spec t (cum lp (S j))) as [Hlt|_]; [|apply IH; lia].
    destruct (decide (S j = i)) as [<-|]; [lia|]. pose proof (cum_mono lp (S j) i ltac:(lia) ltac:(lia)). lia.
Qed.

(** ** Times and their fields *)

Definition mdays (lp : bool) (m : nat) : Z := if (m =? 1)%nat && lp then 29 else nth (S m) days 0.

Lemma cum_days lp m : (m < 12)%nat → cum lp (S m) = cum lp m + mdays lp m * DSECS ∧ 1 <= mdays lp m <= 31.
Proof.
  intros Hm. pose proof (pairs_spec 12 (λ m _, (cum lp (S m) =? cum lp m + mdays lp m * DSECS) && (1 <=? mdays lp m) && (mdays lp m <=? 31)) m 0
    ltac:(by destruct lp) ltac:(lia) ltac:(lia)) as H.
  cbn beta in H. rewrite !andb_true_iff in H. lia.
Qed.

Lemma cum_year i : cum (leap i) 12 = ylen i.
Proof. unfold ylen. by destruct (leap i). Qed.

Lemma monthDays_mdays i m : (m < 12)%nat → monthDays (1970 + Z.of_nat i) (Z.of_nat m + 1) = Some (mdays (leap i) m).
Proof.
  intros Hm. unfold monthDays, mdays, leap. replace (Z.of_nat m + 1) with (Z.of_nat (S m)) by lia.
  destruct (Nat.eqb_spec m 1) as [->|Hne]; cbn [andb].
  - by destruct (leapYear _).
  - destruct (Z.eqb_spec (Z.of_nat (S m)) 2); [lia|]. cbn [negb]. apply tbl_nat. cbn. lia.
Qed.

(** The fields of a time from 1970 to 2037. *)
Record fields (i m : nat) (dd h mi sc : Z) : Prop := {
  f_i : (i < YEARS)%nat; f_m : (m < 12)%nat; f_dd : 0 <= dd < mdays (leap i) m;
  f_h : 0 <= h < 24; f_mi : 0 <= mi < 60; f_sc : 0 <= sc < 60
}.

Definition tm_of (i m : nat) (dd h mi sc : Z) : tm := mkTm (70 + Z.of_nat i) (Z.of_nat m) (dd + 1) h mi sc.

Definition secs_of (i m : nat) (dd h mi sc : Z) : Z :=
  ybound i + cum (leap i) m + dd * DSECS + h * 3600 + mi * 60 + sc.

Lemma tm2utc_fields i m dd h mi sc : fields i m dd h mi sc → tm2utc (tm_of i m dd h mi sc) = Some (secs_of i m dd h mi sc).
Proof.
  intros [Hi Hm Hdd Hh Hmi Hsc]. unfold tm2utc, tm_of. cbn [tm_year tm_mon tm_mday tm_hour tm_min tm_sec]. unfold YEARS in *.
  destruct (Z.ltb_spec (70 + Z.of_nat i) 70); [lia|]. destruct (Z.geb_spec (70 + Z.of_nat i) 138); [lia|].
  replace (70 + Z.of_nat i - 70) with (Z.of_nat i) by lia. rewrite !tbl_nat by (cbn; lia).
  unfold secs_of, cum, ybound, YEARS. destruct (Nat.ltb_spec i 68); [|lia]. unfold ys, leap.
  replace (1900 + (70 + Z.of_nat i)) with (1970 + Z.of_nat i) by lia.
  replace (Z.of_nat m >? 1) with (2 <=? m)%nat by (destruct (Nat.leb_spec 2 m), (Z.gtb_spec (Z.of_nat m) 1); (done || lia)).
  rewrite (andb_comm (leapYear _)). destruct ((2 <=? m)%nat && leapYear (1970 + Z.of_nat i)); f_equal; lia.
Qed.

Lemma secs_bounds i m dd h mi sc :
  fields i m dd h mi sc →
  let r := dd * DSECS + h * 3600 + mi * 60 + sc in
  0 <= r < mdays (leap i) m * DSECS ∧ cum (leap i) m <= cum (leap i) m + r < cum (leap i) (S m) ∧
  ybound i <= secs_of i m dd h mi sc < ybound (S i).
Proof.
  intros [Hi Hm Hdd Hh Hmi Hsc]. cbv zeta. unfold secs_of. destruct (cum_days (leap i) m Hm) as [Hc _].
  rewrite (ybound_len i Hi), <- cum_year. unfold DSECS in *.
  assert (0 <= cum (leap i) m).
  { destruct m; [by destruct (leap i)|]. pose proof (cum_mono (leap i) 0 (S m) ltac:(lia) ltac:(lia)) as H'.
    replace (cum (leap i) 0) with 0 in H' by (by destruct (leap i)). lia. }
  assert (cum (leap i) (S m) <= cum (leap i) 12).
  { destruct (decide (S m = 12%nat)) as [->|]; [lia|]. pose proof (cum_mono (leap i) (S m) 12 ltac:(lia) ltac:(lia)). lia. }
  split_and!; lia.
Qed.

Lemma utc2tm_fields i m dd h mi sc : fields i m dd h mi sc → utc2tm (secs_of i m dd h mi sc) = Some (tm_of i m dd h mi sc).
Proof.
  intros Hf. pose proof (secs_bounds i m dd h mi sc Hf) as (Hr & Hc & Hy). cbv zeta in Hr, Hc.
  destruct Hf as [Hi Hm Hdd Hh Hmi Hsc]. unfold utc2tm. unfold YEARS in *.
  rewrite (year_loop_ok 69 _ i 0) by (unfold YEARS; (done || lia)). rewrite tbl_nat by (cbn; lia).
  replace (nth i yearSecs 0) with (ybound i) by (unfold ybound, YEARS; destruct (Nat.ltb_spec i 68); [done|lia]).
  replace (1900 + (70 + Z.of_nat i)) with (1970 + Z.of_nat i) by lia. fold (leap i).
  set (r := dd * DSECS + h * 3600 + mi * 60 + sc) in *.
  replace (secs_of i m dd h mi sc - ybound i) with (cum (leap i) m + r) by (unfold secs_of, r; lia).
  rewrite (month_loop_ok 13 _ _ m 0) by (done || lia).
  replace (cum (leap i) m + r - cum (leap i) m) with r by lia.
  assert (Q1 : Z.quot r DSECS = dd).
  { rewrite Z.quot_div_nonneg by (unfold DSECS; lia). symmetry. apply (Z.div_unique r DSECS dd (h * 3600 + mi * 60 + sc)); unfold r, DSECS; lia. }
  rewrite Q1. replace (r - DSECS * (dd + 1 - 1)) with (h * 3600 + mi * 60 + sc) by (unfold r; lia).
  destruct (Z.gtb_spec (dd + 1) 0); [|lia].
  assert (Q2 : Z.quot (h * 3600 + mi * 60 + sc) 3600 = h).
  { rewrite Z.quot_div_nonneg by lia. symmetry. apply (Z.div_unique _ 3600 h (mi * 60 + sc)); lia. }
  rewrite Q2. replace (h * 3600 + mi * 60 + sc - h * 3600) with (mi * 60 + sc) by lia.
  assert (Q3 : Z.quot (mi * 60 + sc) 60 = mi).
  { rewrite Z.quot_div_nonneg by lia. symmetry. apply (Z.div_unique _ 60 mi sc); lia. }
  rewrite Q3. replace (mi * 60 + sc - mi * 60) with sc by lia. done.
Qed.

(** Every time of the range has fields. *)
Lemma fields_exist t : 0 <= t < END → ∃ i m dd h mi sc, fields i m dd h mi sc ∧ t = secs_of i m dd h mi sc.
Proof.
  intros Ht. destruct (bracket ybound YEARS t) as (i & Hi & Hyi); [done|].
  destruct (bracket (cum (leap i)) 12 (t - ybound i)) as (m & Hm & Hcm).
  { rewrite (ybound_len i Hi), <- cum_year in Hyi. replace (cum (leap i) 0) with 0 by (by destruct (leap i)). lia. }
  destruct (cum_days (leap i) m Hm) as [Hc _]. set (r := t - ybound i - cum (leap i) m).
  assert (Hr : 0 <= r < mdays (leap i) m * DSECS) by (unfold r; lia).
  exists i, m, (r / DSECS), (r mod DSECS / 3600), (r mod DSECS mod 3600 / 60), (r mod DSECS mod 3600 mod 60).
  unfold DSECS in *.
  pose proof (Z.div_mod r (24 * 60 * 60)). pose proof (Z.mod_pos_bound r (24 * 60 * 60)).
  pose proof (Z.div_mod (r mod (24 * 60 * 60)) 3600). pose proof (Z.mod_pos_bound (r mod (24 * 60 * 60)) 3600).
  pose proof (Z.div_mod (r mod (24 * 60 * 60) mod 3600) 60). pose proof (Z.mod_pos_bound (r mod (24 * 60 * 60) mod 3600) 60).
  split; [split; lia|]. unfold secs_of, DSECS. unfold r in *. lia.
Qed.

(** ** The date of a key *)

(** Four digits that the year loop reads to the end. *)
Lemma get_year_4 a b c e rest :
  isdigit a = true → isdigit b = true → isdigit c = true → isdigit e = true →
  18 < (a - 48) * 10 + (b - 48) < 69 →
  get_year 4 0 0 (a :: b :: c :: e :: rest) = ((((a - 48) * 10 + (b - 48)) * 10 + (c - 48)) * 10 + (e - 48), rest).
Proof.
  intros Ha Hb Hc He H2. cbn [get_year at0 hd drop]. rewrite ?drop_0, Ha, Hb, Hc, He.
  change (0 =? 1) with false. change (0 + 1 =? 1) with true. change (0 + 1 + 1 =? 1) with false.
  change (0 + 1 + 1 + 1 =? 1) with false. cbn [andb].
  destruct (Z.geb_spec ((0 * 10 + (a - 48)) * 10 + (b - 48)) 69); [lia|].
  destruct (Z.leb_spec ((0 * 10 + (a - 48)) * 10 + (b - 48)) 18); [lia|]. done.
Qed.

Definition year_str_ok (y : Z) (l : cstr) : bool :=
  match l with
  | [a; b; c; e] =>
      isdigit a && isdigit b && isdigit c && isdigit e &&
      (18 <? (a - 48) * 10 + (b - 48)) && ((a - 48) * 10 + (b - 48) <? 69) &&
      ((((a - 48) * 10 + (b - 48)) * 10 + (c - 48)) * 10 + (e - 48) =? y)
  | _ => false
  end.

Lemma get_year_str i rest : (i < YEARS)%nat → get_year 4 0 0 (take 4 (sertoa (1970 + Z.of_nat i)) ++ rest) = (1970 + Z.of_nat i, rest).
Proof.
  intros Hi. pose proof (pairs_spec 68 (λ i _, year_str_ok (1970 + Z.of_nat i) (sertoa (1970 + Z.of_nat i))) i 0
    ltac:(by vm_compute) ltac:(done) ltac:(lia)) as H. cbn beta in H.
  destruct (sertoa _) as [|a [|b [|c [|e [|? ?]]]]]; try done. unfold year_str_ok in H.
  rewrite !andb_true_iff, !Z.ltb_lt in H. destruct H as [[[[[[Ha Hb] Hc] He] H1] H2] H3%Z.eqb_eq].
  cbn [take app]. rewrite get_year_4 by (done || lia). by rewrite H3.
Qed.

Lemma X_digits n : 0 <= n < 100 →
  isdigit (48 + Z.quot n 10) = true ∧ isdigit (48 + Z.rem n 10) = true ∧ (48 + Z.quot n 10 - 48) * 10 + (48 + Z.rem n 10 - 48) = n.
Proof.
  intros Hn. rewrite Z.quot_div_nonneg, Z.rem_mod_nonneg by lia. pose proof (Z.div_mod n 10). pose proof (Z.mod_pos_bound n 10).
  unfold isdigit. rewrite !andb_true_iff, !Z.leb_le. lia.
Qed.

Lemma isdigit_ne0 c : isdigit c = true → c ≠ 0.
Proof. unfold isdigit. rewrite andb_true_iff, !Z.leb_le. lia. Qed.

Lemma skip_digit prev c rest : isdigit c = true → skip_nondigit prev (c :: rest) = (prev, c :: rest).
Proof. intros H. cbn. by rewrite H, orb_true_r. Qed.

(** A field followed by another digit. *)
Lemma gettime_X n c rest :
  0 <= n < 100 → isdigit c = true → gettime (X n ++ c :: rest) = (n, 48 + Z.rem n 10, c :: rest).
Proof.
  intros Hn Hc. destruct (X_digits n Hn) as (H1 & H2 & H3). unfold gettime, X. cbn [app at0 hd nth]. rewrite H2, H3.
  cbn [drop]. by rewrite skip_digit.
Qed.

(** What follows the date of a key: the end, or a bar and the checksum. *)
Definition date_end (tail : cstr) : Prop := tail = [] ∨ ∃ c rest, tail = 124 :: c :: rest ∧ isdigit c = true.

Lemma gettime_end n tail :
  0 <= n < 100 → date_end tail → ∃ prev s, gettime (X n ++ tail) = (n, prev, s) ∧ prev ≠ 45 ∧ prev ≠ 43.
Proof.
  intros Hn Ht. destruct (X_digits n Hn) as (H1 & H2 & H3). unfold gettime, X. cbn [app at0 hd nth]. rewrite H2, H3. cbn [drop].
  destruct Ht as [->|(c & rest & -> & Hc)].
  - exists (48 + Z.rem n 10), []. split; [done|]. unfold isdigit in H2. rewrite andb_true_iff, !Z.leb_le in H2. lia.
  - exists 124, (c :: rest). split; [|lia]. cbn. by rewrite Hc, orb_true_r.
Qed.

Lemma X_head n : 0 <= n < 100 → ∃ c l, X n = c :: l ∧ isdigit c = true.
Proof. intros Hn. destruct (X_digits n Hn) as (H1 & _). unfold X. eauto. Qed.

Lemma gettime_XX n k rest : 0 <= n < 100 → 0 <= k < 100 → ∃ p, gettime (X n ++ X k ++ rest) = (n, p, X k ++ rest).
Proof.
  intros Hn Hk. destruct (X_head k Hk) as (c & l & -> & Hc). cbn [app]. eexists. by apply gettime_X.
Qed.

Lemma at0_X n rest : 0 <= n < 100 → (at0 (X n ++ rest) =? 0) = false.
Proof. intros Hn. destruct (X_head n Hn) as (c & l & -> & Hc). cbn. apply Z.eqb_neq. by apply isdigit_ne0. Qed.

Lemma a2tm_fields_digits tp mon mday h mi sc tail :
  0 <= mon < 100 → 0 <= mday < 100 → 0 <= h < 100 → 0 <= mi < 100 → 0 <= sc < 100 → date_end tail →
  a2tm_fields tp (X mon ++ X mday ++ X h ++ X mi ++ X sc ++ tail) None =
  (mkTm (tm_year tp) (mon - 1) mday h mi sc, None).
Proof.
  intros H1 H2 H3 H4 H5 Ht. unfold a2tm_fields. rewrite at0_X by done.
  destruct (gettime_XX mon mday (X h ++ X mi ++ X sc ++ tail) H1 H2) as [p ->]. rewrite at0_X by done.
  destruct (gettime_XX mday h (X mi ++ X sc ++ tail) H2 H3) as [p' ->]. rewrite at0_X by done.
  destruct (gettime_XX h mi (X sc ++ tail) H3 H4) as [p2 ->]. rewrite at0_X by done.
  destruct (gettime_XX mi sc tail H4 H5) as [p3 ->]. rewrite at0_X by done.
  destruct (gettime_end sc tail H5 Ht) as (prev & s & -> & N1 & N2).
  rewrite (proj2 (Z.eqb_neq _ _) N1), (proj2 (Z.eqb_neq _ _) N2). done.
Qed.

Lemma a2tm_truncate_fields i m dd h mi sc :
  fields i m dd h mi sc → a2tm_truncate (tm_of i m dd h mi sc) = Some (tm_of i m dd h mi sc).
Proof.
  intros [Hi Hm Hdd Hh Hmi Hsc]. unfold a2tm_truncate, tm_of. cbn [tm_mon].
  destruct (Z.gtb_spec (Z.of_nat m) 11); [lia|]. cbn [tm_mon tm_year tm_mday].
  replace (1900 + (70 + Z.of_nat i)) with (1970 + Z.of_nat i) by lia. rewrite monthDays_mdays by done.
  destruct (Z.ltb_spec (mdays (leap i) m) (dd + 1)); [lia|]. cbn [tm_hour].
  destruct (Z.gtb_spec h 23); [lia|]. cbn [tm_min]. destruct (Z.gtb_spec mi 59); [lia|]. cbn [tm_sec].
  by destruct (Z.gtb_spec sc 59); [lia|].
Qed.

Lemma date2time_fields i m dd h mi sc tail :
  fields i m dd h mi sc → date_end tail →
  date2time (take 4 (sertoa (1970 + Z.of_nat i)) ++ X (Z.of_nat m + 1) ++ X (dd + 1) ++ X h ++ X mi ++ X sc ++ tail) None false =
  Some (secs_of i m dd h mi sc).
Proof.
  intros Hf Ht. pose proof Hf as [Hi Hm Hdd Hh Hmi Hsc]. unfold date2time, a2tm. rewrite get_year_str by done.
  destruct (cum_days (leap i) m Hm) as [_ Hmd].
  destruct (X_head (Z.of_nat m + 1) ltac:(lia)) as (c & l & Ex & Hc).
  assert (Hskip : ∀ rest, skip_nondigit 0 (X (Z.of_nat m + 1) ++ rest) = (0, X (Z.of_nat m + 1) ++ rest)).
  { intros rest. rewrite Ex. cbn [app]. by apply skip_digit. }
  rewrite Hskip. unfold YEARS in *.
  destruct (Z.ltb_spec (1970 + Z.of_nat i) 69); [lia|]. destruct (Z.geb_spec (1970 + Z.of_nat i) 1969); [|lia].
  rewrite a2tm_fields_digits by (done || lia). cbn [tm_year].
  destruct (Z.eqb_spec (1970 + Z.of_nat i - 1900) 69); [lia|].
  replace (mkTm _ _ _ _ _ _) with (tm_of i m dd h mi sc) by (unfold tm_of; f_equal; lia).
  rewrite a2tm_truncate_fields by done. by apply tm2utc_fields.
Qed.

Lemma strchr_bar a rest : Forall (λ c, c ≠ 124) a → strchr (a ++ 124 :: rest) 124 = Some (124 :: rest).
Proof.
  intros H. induction H as [|c a Hc _ IH]; [done|]. cbn [app strchr]. by rewrite (proj2 (Z.eqb_neq c 124) Hc).
Qed.

Lemma sccs_utctime_fields s d i m dd h mi sc :
  fields i m dd h mi sc → DATE s d = secs_of i m dd h mi sc →
  sccs_utctime s d = Some (take 4 (sertoa (1970 + Z.of_nat i)) ++ X (Z.of_nat m + 1) ++ X (dd + 1) ++ X h ++ X mi ++ X sc).
Proof.
  intros Hf Hd. unfold sccs_utctime. rewrite Hd, utc2tm_fields by done. unfold tm_of.
  cbn [tm_year tm_mon tm_mday tm_hour tm_min tm_sec]. by replace (70 + Z.of_nat i + 1900) with (1970 + Z.of_nat i) by lia.
Qed.

(** ** Searching *)

(** Dates do not fall with the serial. *)
Definition dates_sorted (s : sccs) : Prop := ∀ i j, (1 <= i <= j)%nat → (j <= TABLE s)%nat → DATE s i <= DATE s j.

Lemma date_loop_ok fuel s date lo hi :
  (lo < hi)%nat → (hi - lo < fuel)%nat → DATE s lo < date → date <= DATE s hi →
  ∃ lo', date_loop fuel s date lo hi = Some (lo', S lo') ∧ (lo <= lo' < hi)%nat ∧ DATE s lo' < date ∧ date <= DATE s (S lo').
Proof.
  revert lo hi. induction fuel as [|fuel IH]; intros lo hi Hlt Hf Hlo Hhi; [lia|]. cbn [date_loop].
  set (d := ((hi + lo) / 2)%nat).
  pose proof (Nat.div_mod_eq (hi + lo) 2) as Hdm. pose proof (Nat.mod_upper_bound (hi + lo) 2 ltac:(lia)) as Hm. fold d in Hdm.
  destruct (Nat.ltb_spec lo d) as [Hd|Hd].
  - destruct (Z.gtb_spec date (DATE s d)) as [Hg|Hg].
    + destruct (IH d hi) as (l & H1 & H2 & H3 & H4); [lia|lia|lia|done|]. exists l. split_and!; (done || lia).
    + destruct (IH lo d) as (l & H1 & H2 & H3 & H4); [lia|lia|done|done|]. exists l. split_and!; (done || lia).
  - exists lo. replace hi with (S lo) in * by lia. split_and!; (done || lia).
Qed.

(** ** The calendar *)

(** The number of days from 1 January 1970: years begin in March and are counted
    in periods of 400. *)
Definition days_from_civil (y m d : Z) : Z :=
  let y := if m <=? 2 then y - 1 else y in
  let yoe := y mod 400 in
  let doy := (153 * (if m >? 2 then m - 3 else m + 9) + 2) / 5 + d - 1 in
  y / 400 * 146097 + (yoe * 365 + yoe / 4 - yoe / 100 + doy) - 719468.

Lemma civil_day y m dd : days_from_civil y m (dd + 1) = days_from_civil y m 1 + dd.
Proof. unfold days_from_civil. cbv zeta. ring. Qed.

(** The first of a month, against the tables. *)
Lemma civil_month i m : (i < YEARS)%nat → (m < 12)%nat →
  ybound i + cum (leap i) m = 86400 * days_from_civil (1970 + Z.of_nat i) (Z.of_nat m + 1) 1.
Proof.
  intros Hi Hm.
  assert (H : forallb (λ i, forallb (λ m, ybound i + cum (leap i) m =? 86400 * days_from_civil (1970 + Z.of_nat i) (Z.of_nat m + 1) 1)
    (seq 0 12)) (seq 0 YEARS) = true) by (vm_compute; reflexivity).
  rewrite forallb_forall in H. assert (Hi' : In i (seq 0 YEARS)) by (apply in_seq; lia). specialize (H i Hi').
  rewrite forallb_forall in H. assert (Hm' : In m (seq 0 12)) by (apply in_seq; lia). by apply Z.eqb_eq, H.
Qed.

(** ** Properties *)

(** C40. Times and calendar dates.  Every time from 1970 up to the end of 2037
    breaks into valid fields, with no assert and no table index out of range; the
    fields are the date and the time of day of the Gregorian calendar
    ([days_from_civil], which counts the days from 1 January 1970 without tables),
    and they convert back to the time. *)
Theorem utc2tm_tm2utc (t : Z) :
  0 <= t < END →
  ∃ tm, utc2tm t = Some tm ∧ tm2utc tm = Some t ∧
    t = 86400 * days_from_civil (1900 + tm_year tm) (tm_mon tm + 1) (tm_mday tm) + 3600 * tm_hour tm + 60 * tm_min tm + tm_sec tm ∧
    70 <= tm_year tm <= 137 ∧ 0 <= tm_mon tm <= 11 ∧
    (∃ n, monthDays (1900 + tm_year tm) (tm_mon tm + 1) = Some n ∧ 1 <= tm_mday tm <= n) ∧
    0 <= tm_hour tm <= 23 ∧ 0 <= tm_min tm <= 59 ∧ 0 <= tm_sec tm <= 59.
Proof.
  intros Ht. destruct (fields_exist t Ht) as (i & m & dd & h & mi & sc & Hf & ->). exists (tm_of i m dd h mi sc).
  split; [by apply utc2tm_fields|]. split; [by apply tm2utc_fields|]. destruct Hf as [Hi Hm Hdd Hh Hmi Hsc].
  unfold tm_of, YEARS in *. cbn [tm_year tm_mon tm_mday tm_hour tm_min tm_sec].
  replace (1900 + (70 + Z.of_nat i)) with (1970 + Z.of_nat i) by lia. split.
  { unfold secs_of. rewrite (civil_month i m Hi Hm), civil_day. unfold DSECS. ring. }
  split_and!; try lia. exists (mdays (leap i) m). split; [by apply monthDays_mdays|lia].
Qed.

Lemma utc2tm_tm2utc_witness :
  utc2tm 951782400 = Some (mkTm 100 1 29 0 0 0) ∧
  ∃ tm, utc2tm 951782400 = Some tm ∧ tm2utc tm = Some 951782400 ∧
    951782400 = 86400 * days_from_civil (1900 + tm_year tm) (tm_mon tm + 1) (tm_mday tm) + 3600 * tm_hour tm + 60 * tm_min tm + tm_sec tm ∧
    70 <= tm_year tm <= 137 ∧ 0 <= tm_mon tm <= 11 ∧
    (∃ n, monthDays (1900 + tm_year tm) (tm_mon tm + 1) = Some n ∧ 1 <= tm_mday tm <= n) ∧
    0 <= tm_hour tm <= 23 ∧ 0 <= tm_min tm <= 59 ∧ 0 <= tm_sec tm <= 59.
Proof. split; [vm_compute; reflexivity|]. apply (utc2tm_tm2utc 951782400). unfold END. lia. Defined.

(** The date of a delta key: [key2date] of a key built from [sccs_utctime]
    (user and path without bars, then the date, then the end or a bar and the
    checksum) is the date of the delta, for every date from 1970 to 2037. *)
Theorem key2date_utctime (s : sccs) (d : nat) (user path tail : cstr) :
  0 <= DATE s d < END → Forall (λ c, c ≠ 124) user → Forall (λ c, c ≠ 124) path → date_end tail →
  ∃ utc, sccs_utctime s d = Some utc ∧
    key2date (user ++ 124 :: path ++ 124 :: utc ++ tail) = Some (DATE s d).
Proof.
  intros Hd Hu Hp Ht. destruct (fields_exist _ Hd) as (i & m & dd & h & mi & sc & Hf & E).
  rewrite (sccs_utctime_fields s d i m dd h mi sc Hf E). eexists. split; [done|]. unfold key2date.
  rewrite strchr_bar by done. cbn [drop]. rewrite drop_0, strchr_bar by done. cbn [drop]. rewrite drop_0.
  unfold sccs_date2time. rewrite <- !app_assoc. rewrite date2time_fields, <- E by done.
  f_equal. apply u32_small. unfold END in Hd. lia.
Qed.

Definition ex_dates : sccs :=
  mkSccs [mkDelta 0 0 0 0 951782400 D_INARRAY [] (1, 1, 0, 0)%nat; mkDelta 1 0 0 0 951782401 D_INARRAY [] (1, 2, 0, 0)%nat;
          mkDelta 2 0 0 0 1461024000 D_INARRAY [] (1, 3, 0, 0)%nat] 3 0 0 0 0 false.

Lemma key2date_utctime_witness :
  ∃ utc, sccs_utctime ex_dates 3 = Some utc ∧
    key2date ([108; 109; 64; 120] ++ 124 :: [97; 46; 99] ++ 124 :: utc ++ [124; 48; 57]) = Some (DATE ex_dates 3).
Proof.
  apply (key2date_utctime ex_dates 3 [108; 109; 64; 120] [97; 46; 99] [124; 48; 57]).
  - unfold END. cbn. lia.
  - repeat constructor; done.
  - repeat constructor; done.
  - right. by exists 48, [57].
Defined.

(** On a table whose dates do not fall, the binary search of
    [sccs_date2delta] ends without a failed assert and returns the oldest delta
    with the date if there is one; else the newest older delta, or the root when
    all are newer. *)
Theorem date2delta_correct (s : sccs) (date : Z) :
  dates_sorted s → (1 <= TABLE s)%nat →
  ∃ d, sccs_date2delta s date = Some d ∧ (1 <= d <= TABLE s)%nat ∧
    (∀ j, (1 <= j < d)%nat → DATE s j < date) ∧
    (DATE s d = date ∨
     (DATE s d < date ∧ ∀ j, (d < j <= TABLE s)%nat → date < DATE s j) ∨
     (d = TREE ∧ date < DATE s d)).
Proof.
  intros Hs HT. unfold sccs_date2delta, TREE in *. destruct (Z.geb_spec (DATE s 1) date) as [Hge|Hlt].
  { exists 1%nat. split_and!; [done|lia|lia|lia|]. destruct (decide (DATE s 1 = date)); [by left|]. right; right. split; [done|lia]. }
  destruct (Z.ltb_spec (DATE s (TABLE s)) date) as [Hhi|Hhi].
  { exists (TABLE s). split_and!; [done|lia|lia| |].
    - intros j Hj. pose proof (Hs j (TABLE s) ltac:(lia) ltac:(lia)). lia.
    - right; left. split; [done|lia]. }
  assert (H1T : (1 < TABLE s)%nat) by (destruct (decide (TABLE s = 1%nat)) as [E|]; [rewrite E in Hhi; lia|lia]).
  destruct (date_loop_ok (S (TABLE s)) s date 1 (TABLE s)) as (lo & -> & Hb & Hlo & Hh); [lia|lia|lia|lia|].
  rewrite (proj2 (Nat.eqb_eq _ _)) by lia. destruct (Z.geb_spec (DATE s (S lo)) date); [|lia]. destruct (Z.ltb_spec (DATE s lo) date); [|lia].
  destruct (Z.eqb_spec date (DATE s (S lo))) as [E|E].
  - exists (S lo). split_and!; [done|lia|lia| |by left]. intros j Hj. pose proof (Hs j lo ltac:(lia) ltac:(lia)). lia.
  - exists lo. split_and!; [done|lia|lia| |].
    + intros j Hj. pose proof (Hs j lo ltac:(lia) ltac:(lia)). lia.
    + right; left. split; [done|]. intros j Hj. pose proof (Hs (S lo) j ltac:(lia) ltac:(lia)). lia.
Qed.

Lemma date2delta_correct_witness :
  ∃ d, sccs_date2delta ex_dates 1000000000 = Some d ∧ (1 <= d <= TABLE ex_dates)%nat ∧
    (∀ j, (1 <= j < d)%nat → DATE ex_dates j < 1000000000) ∧
    (DATE ex_dates d = 1000000000 ∨
     (DATE ex_dates d < 1000000000 ∧ ∀ j, (d < j <= TABLE ex_dates)%nat → 1000000000 < DATE ex_dates j) ∨
     (d = TREE ∧ 1000000000 < DATE ex_dates d)).
Proof.
  apply (date2delta_correct ex_dates 1000000000); [|cbn; lia].
  intros i j Hij Hj. cbn in Hj. assert (i = 1 ∨ i = 2 ∨ i = 3)%nat as [->|[->| ->]] by lia;
    assert (j = 1 ∨ j = 2 ∨ j = 3)%nat as [->|[->| ->]] by lia; cbn; lia.
Defined.

(** A month of zero passes the truncation and indexes the month table at -1. *)
Theorem date_month_zero : date2time [50; 48; 48; 49; 47; 48; 48; 47; 48; 53] None false = None.
Proof. done. Qed.

(** A zone without a colon runs the zone scan off the end of the string. *)
Theorem date_zone_no_colon :
  date2time [50; 48; 48; 49; 47; 48; 49; 47; 48; 53; 32; 49; 58; 50; 58; 51; 43; 56] None false = None.
Proof. done. Qed.
