(* ===== verification/Rev.v ===== *)
(** * Rev: revision numbers

    [strcnt], [scanrev], [explode_rev], [delta_rev], [samebranch], [samerev],
    [findSym], [rfind], [defbranch], [findrev], [sccs_top] and [isleaf] of
    src/src/slib.c: revisions as text and as the four numbers of a delta, and
    looking deltas up by them.

    Proved: printing a revision and scanning it back gives the numbers of the
    delta; looking up the printed revision gives the newest delta with those
    numbers; a release gives the lexicographically greatest trunk delta not
    above it; a branch gives its newest delta; [findrev] writes past its 20 byte
    buffer on exactly the three part revisions longer than 17 bytes; and
    [isleaf] says whether a delta has a child. *)

From S2P Require Import Prelude CStr Sccs.
From stdpp Require Import base numbers list.
From Stdlib Require Import ZArith Lia.

Local Open Scope Z_scope.

Local Open Scope bk_scope.

(** ** Data *)

Definition DOT : Z := 46.

Definition D_ERROR : Z := 0x01000000.

Definition D_BADFORM : Z := 0x02000000.

(** What the lookups read besides the delta table: the tags, oldest first, the
    default branch and whether the file is part of a repository. *)
Record revenv := mkRevenv {
  symlist : list (cstr * nat);
  s_defbranch : option cstr;
  bitkeeper : bool
}.

(** ** Text to numbers *)

Fixpoint strcnt (s : cstr) (c : Z) : nat :=
  match s with
  | [] => O
  | x :: s => if x =? c then S (strcnt s c) else strcnt s c
  end.

(** The loop that skips digits and dots. *)
Fixpoint rev_span (s : cstr) : cstr :=
  match s with
  | [] => []
  | c :: s' => if isdigit c || (c =? DOT) then rev_span s' else s
  end.

(** The numbers are taken to fit an int.  The numbers stored, as many as the return value says. *)
Definition scanrev (s : cstr) : list Z :=
  if negb (at0 (rev_span s) =? 0) then [] else
  let '(a, s) := atoi_p s in
  if at0 s =? DOT then
    let '(b, s) := atoi_p (drop 1 s) in
    if at0 s =? DOT then
      let '(c, s) := atoi_p (drop 1 s) in
      if at0 s =? DOT then [a; b; c; atoi (drop 1 s)] else [a; b; c]
    else [a; b]
  else [a].

(** [R[0] = R[1] = R[2] = R[3] = 0; scanrev(rev, &R[0], ...)] *)
Definition scan4 (rev : cstr) : revnum :=
  let l := scanrev rev in
  (Z.to_nat (nth 0 l 0), Z.to_nat (nth 1 l 0), Z.to_nat (nth 2 l 0), Z.to_nat (nth 3 l 0)).

Definition explode_rev (s : sccs) (d : nat) (rev : cstr) : sccs :=
  let s := if (3 <? strcnt rev DOT)%nat
           then FLAGS_SET s d (Z.lor (FLAGS s d) (Z.lor D_ERROR D_BADFORM)) else s in
  set_delta s d (set_r (scan4 rev)).

(** ** Numbers to text *)

Definition INARRAY (s : sccs) (d : nat) : bool := negb (Z.land (FLAGS s d) D_INARRAY =? 0).

(** [%d] of an unsigned number. *)
Definition printf_n (n : nat) : cstr :=
  let z := Z.of_nat n in printf_d (if z <? 2 ^ 31 then z else z - 2 ^ 32).

(** ["1.3.9.62"] *)
Definition patch_rev : cstr := [49; 46; 51; 46; 57; 46; 54; 50].

Definition delta_rev (s : sccs) (d : nat) : cstr :=
  let buf :=
    if negb (R2 s d =? 0)%nat then
      printf_n (R0 s d) ++ [DOT] ++ printf_n (R1 s d) ++ [DOT] ++
      printf_n (R2 s d) ++ [DOT] ++ printf_n (R3 s d)
    else printf_n (R0 s d) ++ [DOT] ++ printf_n (R1 s d) in
  if INARRAY s d then buf else patch_rev.

(** ** Lookup *)

Definition samebranch (s : sccs) (a b : nat) : bool :=
  if (R2 s a =? 0)%nat && (R2 s b =? 0)%nat then true else
  (R0 s a =? R0 s b)%nat && (R1 s a =? R1 s b)%nat && (R2 s a =? R2 s b)%nat.

Definition samerev (s : sccs) (d : nat) (b : revnum) : bool :=
  let '(b0, b1, b2, b3) := b in
  (R0 s d =? b0)%nat && (R1 s d =? b1)%nat && (R2 s d =? b2)%nat && (R3 s d =? b3)%nat.

(** [EACHP_REVERSE]: newest first. *)
Definition findSym (env : revenv) (name : cstr) : option (cstr * nat) :=
  List.find (λ '(n, _), streq name n) (rev (symlist env)).

Fixpoint rfind_loop (s : sccs) (R : revnum) (d : nat) : nat :=
  match d with
  | O => O
  | S d' => if negb (TAG s d) && samerev s d R then d else rfind_loop s R d'
  end.

Definition rfind (s : sccs) (env : revenv) (rev : cstr) : nat :=
  if negb (isdigit (at0 rev)) then
    match findSym env rev with Some (_, ser) => ser | None => O end
  else rfind_loop s (scan4 rev) (TABLE s).

(** ["1"], ["65535"], ["1.0"] and ["+"] *)
Definition str_1 : cstr := [49].

Definition str_65535 : cstr := [54; 53; 53; 51; 53].

Definition str_1_0 : cstr := [49; 46; 48].

Definition str_plus : cstr := [43].

Definition defbranch (env : revenv) : cstr :=
  if bitkeeper env then str_1 else
  match s_defbranch env with Some b => b | None => str_65535 end.

Definition GONE (s : sccs) (d : nat) : bool := negb (Z.land (FLAGS s d) D_GONE =? 0).

(** The loop of [case 1] and the choice after it. *)
Fixpoint release_loop (s : sccs) (a e f max : nat) : nat :=
  match e with
  | O => f
  | S e' =>
      if GONE s e then release_loop s a e' f max else
      if TAG s e || negb (R2 s e =? 0)%nat || (a <? R0 s e)%nat then release_loop s a e' f max else
      if (R0 s e =? a)%nat then e else
      if (max <? R0 s e)%nat then release_loop s a e' e (R0 s e) else release_loop s a e' f max
  end.

(** The loop of [case 3]. *)
Fixpoint branch_loop (s : sccs) (e f : nat) : nat :=
  match f with
  | O => e
  | S f' => if (f <=? e)%nat then e else if samebranch s e f then f else branch_loop s e f'
  end.

(** [sprintf] into a buffer of [size] bytes, with the NUL; [None] is a write past
    its end. *)
Definition sprintf (size : nat) (out : cstr) : option cstr := if (length out <? size)%nat then Some out else None.

Definition findrev (s : sccs) (env : revenv) (rev : option cstr) : option nat :=
  if (TABLE s =? 0)%nat then Some O else
  let rev := match rev with
             | None => defbranch env
             | Some r => if (at0 r =? 0) || streq str_plus r then defbranch env else r
             end in
  if streq rev str_1_0 then Some TREE else
  if (at0 rev =? 61) && isdigit (at0 (drop 1 rev)) then
    let e := Z.to_nat (atoi (drop 1 rev)) in
    if (TREE <=? e)%nat && (e <=? TABLE s)%nat then Some e else Some O
  else
  if negb (isdigit (at0 rev)) then
    match findSym env rev with Some (_, ser) => Some ser | None => Some O end
  else
  match scanrev rev with
  | [a] => if a =? 0 then Some O else Some (release_loop s (Z.to_nat a) (TABLE s) 0 0)
  | [_; _] | [_; _; _; _] => Some (rfind s env rev)
  | [_; _; _] =>
      let? buf := sprintf 20 (rev ++ [DOT; 49]) in
      let e := rfind s env buf in
      if (e =? 0)%nat then Some O else Some (branch_loop s e (TABLE s))
  | _ => Some O
  end.

Definition sccs_top (s : sccs) (env : revenv) : option nat := findrev s env None.

(** ** Leaves *)

Fixpoint isleaf_loop (n : nat) (s : sccs) (d t : nat) : bool :=
  match n with
  | O => true
  | S n =>
      if GONE s t || TAG s t then isleaf_loop n s d (S t) else
      if (PARENT s t =? d)%nat || (MERGE s t =? d)%nat then false else isleaf_loop n s d (S t)
  end.

(** [None] is the failed assert.  [t] runs from [d + 1] to [TABLE s]. *)
Definition isleaf (s : sccs) (d : nat) : option bool :=
  if TAG s d then Some false else
  if negb (R0 s d =? 1)%nat then None else
  Some (isleaf_loop (TABLE s - d) s d (S d)).

(** ** Revision texts *)

(** Numbers printed with dots between them. *)
Fixpoint revtext (l : list nat) : cstr :=
  match l with
  | [] => []
  | [n] => printf_n n
  | n :: l => printf_n n ++ DOT :: revtext l
  end.

Definition small (n : nat) : Prop := Z.of_nat n < 2 ^ 31.

Lemma printf_n_u n : small n → printf_n n = printf_u (Z.of_nat n).
Proof.
  unfold small, printf_n. intros Hn. destruct (Z.ltb_spec (Z.of_nat n) (2 ^ 31)); [|lia].
  unfold printf_d. destruct (Z.ltb_spec (Z.of_nat n) 0); [lia|done].
Qed.

Lemma printf_n_digits n : small n → Forall digit (printf_n n).
Proof. intros. rewrite printf_n_u by done. apply dec_digits_digit. lia. Qed.

Lemma printf_n_cons n : small n → ∃ c t, printf_n n = c :: t ∧ digit c.
Proof.
  intros Hn. pose proof (printf_n_digits n Hn) as Hd. rewrite printf_n_u in * by done.
  destruct (printf_u (Z.of_nat n)) as [|c t] eqn:E; [by apply dec_digits_ne in E|].
  apply Forall_cons in Hd as [Hc _]. eauto.
Qed.

Lemma atoi_p_n n r : small n → nondigit_head r → atoi_p (printf_n n ++ r) = (Z.of_nat n, r).
Proof. unfold small. intros. rewrite printf_n_u by done. apply atoi_p_printf; [lia|done]. Qed.

Lemma isdigit_digit c : isdigit c = true ↔ digit c.
Proof. unfold isdigit, digit. rewrite andb_true_iff, !Z.leb_le. lia. Qed.

Lemma revtext_head n l : small n → isdigit (at0 (revtext (n :: l))) = true.
Proof.
  intros Hn. destruct (printf_n_cons n Hn) as (c & t & E & Hc). apply isdigit_digit.
  destruct l; cbn [revtext]; rewrite E; done.
Qed.

Lemma rev_span_digits a s : Forall (λ c, digit c ∨ c = DOT) a → rev_span (a ++ s) = rev_span s.
Proof.
  induction 1 as [|c a Hc Ha IH]; [done|]. cbn [app rev_span].
  replace (isdigit c || (c =? DOT)) with true; [done|].
  symmetry. apply orb_true_iff. rewrite isdigit_digit, Z.eqb_eq. done.
Qed.

Lemma revtext_chars l : Forall small l → Forall (λ c, digit c ∨ c = DOT) (revtext l).
Proof.
  induction 1 as [|n l Hn Hl IH]; [done|].
  assert (Forall (λ c, digit c ∨ c = DOT) (printf_n n)) as Hp.
  { eapply Forall_impl; [by apply printf_n_digits|]. auto. }
  destruct l; [done|]. cbn [revtext]. apply Forall_app. split; [done|]. apply Forall_cons. auto.
Qed.

Lemma rev_span_revtext l : Forall small l → rev_span (revtext l) = [].
Proof.
  intros Hl. rewrite <- (app_nil_r (revtext l)). by rewrite rev_span_digits by by apply revtext_chars.
Qed.

Lemma atoi_revtext n l : small n →
  atoi_p (revtext (n :: l)) = (Z.of_nat n, match l with [] => [] | _ => DOT :: revtext l end).
Proof.
  intros Hn. destruct l as [|m l]; cbn [revtext].
  - rewrite <- (app_nil_r (printf_n n)). by rewrite atoi_p_n.
  - rewrite atoi_p_n; [done|done|]. unfold nondigit_head. by vm_compute.
Qed.

(** Scanning printed numbers gives the numbers back. *)
Lemma scanrev_revtext l : Forall small l → (1 <= length l <= 4)%nat → scanrev (revtext l) = map Z.of_nat l.
Proof.
  intros Hl Hn. unfold scanrev. rewrite rev_span_revtext by done. cbn [at0 hd Z.eqb negb].
  destruct l as [|a l]; [simpl in Hn; lia|]. apply Forall_cons in Hl as [Ha Hl].
  rewrite atoi_revtext by done.
  destruct l as [|b l]; [done|]. apply Forall_cons in Hl as [Hb Hl]. cbn [at0 hd]. rewrite Z.eqb_refl.
  cbn [drop]. rewrite (drop_0 (revtext (b :: l))), atoi_revtext by done.
  destruct l as [|c l]; [done|]. apply Forall_cons in Hl as [Hc Hl]. cbn [at0 hd]. rewrite Z.eqb_refl.
  cbn [drop]. rewrite (drop_0 (revtext (c :: l))), atoi_revtext by done.
  destruct l as [|d l]; [done|]. apply Forall_cons in Hl as [Hd Hl]. cbn [at0 hd]. rewrite Z.eqb_refl.
  cbn [drop]. rewrite (drop_0 (revtext (d :: l))). unfold atoi.
  pose proof (atoi_revtext d l Hd) as E. unfold atoi_p in E. rewrite E.
  destruct l; [done|]. simpl in Hn. lia.
Qed.

Lemma strcnt_app a b c : strcnt (a ++ b) c = (strcnt a c + strcnt b c)%nat.
Proof. induction a as [|x a IH]; [done|]. simpl. case_if; lia. Qed.

Lemma strcnt_digits a : Forall digit a → strcnt a DOT = O.
Proof.
  induction 1 as [|x a Hx Ha IH]; [done|]. simpl. destruct (Z.eqb_spec x DOT) as [->|]; [|done].
  unfold digit, DOT in Hx. lia.
Qed.

Lemma strcnt_revtext l : Forall small l → strcnt (revtext l) DOT = (length l - 1)%nat.
Proof.
  induction 1 as [|n l Hn Hl IH]; [done|]. destruct l as [|m l].
  - by apply strcnt_digits, printf_n_digits.
  - change (revtext (n :: m :: l)) with (printf_n n ++ DOT :: revtext (m :: l)).
    rewrite strcnt_app, (strcnt_digits (printf_n n)) by by apply printf_n_digits.
    cbn [strcnt]. rewrite Z.eqb_refl, IH. cbn [length]. lia.
Qed.

(** ** Printed revisions *)

(** The numbers a revision is printed from. *)
Definition rev_nums (r : revnum) : list nat :=
  let '(a, b, c, d) := r in if (c =? 0)%nat then [a; b] else [a; b; c; d].

(** A revision of the form x.y or x.y.z.d, in range. *)
Record wf_rev (r : revnum) : Prop := {
  wr_small : Forall small (rev_nums r);
  wr_trunk : snd (fst r) = 0%nat → snd r = 0%nat
}.

Lemma delta_rev_text s d : INARRAY s d = true → delta_rev s d = revtext (rev_nums (R_of s d)).
Proof.
  intros Hi. unfold delta_rev, R0, R1, R2, R3. rewrite Hi.
  destruct (R_of s d) as [[[a b] c] e]. cbn [fst snd rev_nums]. by destruct (c =? 0)%nat.
Qed.

Lemma rev_nums_length r : length (rev_nums r) = 2%nat ∨ length (rev_nums r) = 4%nat.
Proof. destruct r as [[[a b] c] d]. simpl. destruct (c =? 0)%nat; auto. Qed.

Lemma scanrev_nums r : wf_rev r → scanrev (revtext (rev_nums r)) = map Z.of_nat (rev_nums r).
Proof.
  intros Hr. apply scanrev_revtext; [apply (wr_small r Hr)|].
  pose proof (rev_nums_length r). lia.
Qed.

Lemma scan4_nums r : wf_rev r → scan4 (revtext (rev_nums r)) = r.
Proof.
  intros Hr. unfold scan4. rewrite scanrev_nums by done. pose proof (wr_trunk r Hr) as Ht.
  destruct r as [[[a b] c] d]. cbn [fst snd rev_nums] in *.
  destruct (Nat.eqb_spec c 0) as [->|]; cbn [map nth]; rewrite !Nat2Z.id; [|done].
  by rewrite Ht.
Qed.

(** Printing the revision of a delta and storing the text in another one
    gives that delta the same four numbers, raises no error flag and leaves
    every other delta alone. *)
Theorem explode_rev_delta_rev s s' d e :
  INARRAY s d = true → wf_rev (R_of s d) → (1 <= e <= length (deltas s'))%nat →
  R_of (explode_rev s' e (delta_rev s d)) e = R_of s d ∧
  FLAGS (explode_rev s' e (delta_rev s d)) e = FLAGS s' e ∧
  ∀ j, j ≠ e → dl (explode_rev s' e (delta_rev s d)) j = dl s' j.
Proof.
  intros Hi Hr He. unfold explode_rev. rewrite delta_rev_text, scan4_nums by done.
  rewrite strcnt_revtext by apply (wr_small _ Hr).
  destruct (Nat.ltb_spec 3 (length (rev_nums (R_of s d)) - 1)) as [Hlt|_].
  { pose proof (rev_nums_length (R_of s d)). lia. }
  unfold R_of at 1, FLAGS. rewrite dl_set_eq by done. split_and!; [done|done|].
  intros j Hj. by apply dl_set_ne.
Qed.

(** ** Exact lookup *)

Lemma samerev_spec s d r : samerev s d r = true ↔ R_of s d = r.
Proof.
  unfold samerev, R0, R1, R2, R3. destruct r as [[[a b] c] e], (R_of s d) as [[[a' b'] c'] e'].
  cbn [fst snd]. rewrite !andb_true_iff, !Nat.eqb_eq. naive_solver.
Qed.

(** The newest file delta with these numbers, 0 when there is none. *)
Definition newest_rev (s : sccs) (r : revnum) (g : nat) : Prop :=
  (∀ j, (1 <= j <= TABLE s)%nat → TAG s j = false → R_of s j = r → (j <= g)%nat) ∧
  (g ≠ 0%nat → (1 <= g <= TABLE s)%nat ∧ TAG s g = false ∧ R_of s g = r).

Lemma rfind_loop_spec s r n : (n <= TABLE s)%nat →
  (∀ j, (n < j <= TABLE s)%nat → TAG s j = false → R_of s j ≠ r) → newest_rev s r (rfind_loop s r n).
Proof.
  induction n as [|n IH]; intros Hn Hgt; cbn [rfind_loop].
  - split; [|done]. intros j Hj Ht Hr. by destruct (Hgt j ltac:(lia) Ht).
  - destruct (negb (TAG s (S n)) && samerev s (S n) r) eqn:E.
    + apply andb_true_iff in E as [Ht Hr]. apply negb_true_iff in Ht. apply samerev_spec in Hr.
      split; [|intros _; split_and!; done || lia]. intros j Hj Htj Hrj.
      destruct (le_lt_dec j (S n)); [done|]. by destruct (Hgt j ltac:(lia) Htj).
    + apply IH; [lia|]. intros j Hj Ht Hr. destruct (decide (j = S n)) as [->|].
      * apply samerev_spec in Hr. by rewrite Ht, Hr in E.
      * by apply (Hgt j ltac:(lia) Ht).
Qed.

Lemma rfind_spec s env rv : isdigit (at0 rv) = true → newest_rev s (scan4 rv) (rfind s env rv).
Proof.
  intros Hd. unfold rfind. rewrite Hd. cbn [negb]. apply rfind_loop_spec; [done|]. intros j Hj. lia.
Qed.

(** What a text that starts with a digit skips of [findrev]. *)
Lemma findrev_digit s env rv :
  TABLE s ≠ 0%nat → isdigit (at0 rv) = true → rv ≠ str_1_0 →
  findrev s env (Some rv) =
  match scanrev rv with
  | [a] => if a =? 0 then Some O else Some (release_loop s (Z.to_nat a) (TABLE s) 0 0)
  | [_; _] | [_; _; _; _] => Some (rfind s env rv)
  | [_; _; _] =>
      let? buf := sprintf 20 (rv ++ [DOT; 49]) in
      let e := rfind s env buf in
      if (e =? 0)%nat then Some O else Some (branch_loop s e (TABLE s))
  | _ => Some O
  end.
Proof.
  intros HT Hd H1. unfold findrev. destruct (Nat.eqb_spec (TABLE s) 0) as [|_]; [done|].
  pose proof (proj1 (isdigit_digit _) Hd) as Hdd. unfold digit in Hdd.
  destruct (Z.eqb_spec (at0 rv) 0) as [|_]; [lia|].
  replace (streq str_plus rv) with false; last first.
  { unfold streq. symmetry. apply bool_decide_eq_false_2. intros <-. vm_compute in Hd. done. }
  cbn [orb]. unfold streq at 1. rewrite bool_decide_eq_false_2 by done.
  destruct (Z.eqb_spec (at0 rv) 61) as [|_]; [lia|]. cbn [andb]. by rewrite Hd.
Qed.

(** Looking up the printed revision of a file delta finds the newest file
    delta with the same four numbers, that delta itself when the numbers are
    unique; only the text 1.0 is special, it names the root. *)
Theorem findrev_delta_rev s env d :
  (1 <= d <= TABLE s)%nat → TAG s d = false → INARRAY s d = true → wf_rev (R_of s d) →
  ∃ g, findrev s env (Some (delta_rev s d)) = Some g ∧
    (if decide (R_of s d = (1, 0, 0, 0)%nat) then g = TREE else
     (d <= g <= TABLE s)%nat ∧ newest_rev s (R_of s d) g).
Proof.
  intros Hd Ht Hi Hr. rewrite delta_rev_text by done. case_decide as E.
  { rewrite E. exists TREE. split; [|done]. unfold findrev.
    destruct (Nat.eqb_spec (TABLE s) 0); [lia|]. done. }
  assert (Hdig : isdigit (at0 (revtext (rev_nums (R_of s d)))) = true).
  { pose proof (wr_small _ Hr) as Hs. pose proof (rev_nums_length (R_of s d)).
    destruct (rev_nums (R_of s d)) as [|a l]; [simpl in *; lia|].
    apply Forall_cons in Hs as [Ha _]. by apply revtext_head. }
  pose proof (rfind_spec s env _ Hdig) as Hn. rewrite scan4_nums in Hn by done.
  exists (rfind s env (revtext (rev_nums (R_of s d)))). split.
  - rewrite findrev_digit; [|lia|done|].
    + rewrite scanrev_nums by done. destruct (R_of s d) as [[[a b] c] f]. cbn [rev_nums].
      by destruct (c =? 0)%nat.
    + intros E1. apply E. rewrite <- (scan4_nums _ Hr), E1. done.
  - split; [|done]. destruct Hn as [Hmax Hin]. pose proof (Hmax d Hd Ht eq_refl).
    split; [done|]. apply Hin. lia.
Qed.

(** ** Releases *)

(** The trunk deltas a release lookup may choose. *)
Definition trunk (s : sccs) (d : nat) : Prop :=
  (1 <= d <= TABLE s)%nat ∧ GONE s d = false ∧ TAG s d = false ∧ R2 s d = 0%nat.

(** [g] is the greatest trunk delta above serial [n], by release first and
    serial second, among those of release at most [a]; 0 when there is none. *)
Definition release_max (s : sccs) (a n g : nat) : Prop :=
  (∀ j, trunk s j → (n < j)%nat → (0 < R0 s j <= a)%nat →
    (R0 s j < R0 s g)%nat ∨ (R0 s j = R0 s g ∧ (j <= g)%nat)) ∧
  (g ≠ 0%nat → trunk s g ∧ (n < g)%nat ∧ (0 < R0 s g <= a)%nat).

Lemma release_skip s a n g :
  ¬ (trunk s (S n) ∧ (0 < R0 s (S n) <= a)%nat ∧ (g ≠ 0%nat → R0 s g < R0 s (S n))%nat) →
  release_max s a (S n) g → release_max s a n g.
Proof.
  intros Hno [Hmax Hg]. split.
  - intros j Ht Hj Hr. destruct (decide (j = S n)) as [->|]; [|apply Hmax; auto with lia].
    destruct (decide (g = 0%nat)) as [->|Hg0]; [by destruct Hno|].
    destruct (Hg Hg0) as (_ & Hlt & _).
    destruct (le_lt_dec (R0 s (S n)) (R0 s g)); [lia|]. by destruct Hno.
  - intros Hg0. destruct (Hg Hg0) as (? & ? & ?). split_and!; auto with lia.
Qed.

Lemma R0_0 s : R0 s 0 = 0%nat.
Proof. done. Qed.

Lemma release_loop_spec s a n f :
  (0 < a)%nat → (n <= TABLE s)%nat → release_max s a n f → (R0 s f < a)%nat →
  release_max s a 0 (release_loop s a n f (R0 s f)).
Proof.
  intros Ha. revert f. induction n as [|n IH]; intros f Hn Hf Hlt; [done|]. cbn [release_loop].
  destruct (GONE s (S n)) eqn:Hg.
  { apply IH; [lia| |done]. apply release_skip; [|done]. intros [(_ & Hg' & _) _]. congruence. }
  destruct (TAG s (S n)) eqn:Ht; cbn [orb].
  { apply IH; [lia| |done]. apply release_skip; [|done]. intros [(_ & _ & Ht' & _) _]. congruence. }
  destruct (Nat.eqb_spec (R2 s (S n)) 0) as [H2|H2]; cbn [negb orb]; last first.
  { apply IH; [lia| |done]. apply release_skip; [|done]. by intros [(_ & _ & _ & ?) _]. }
  assert (Htr : trunk s (S n)) by (split_and!; done || lia).
  destruct (Nat.ltb_spec a (R0 s (S n))) as [Hgt|Hle].
  { apply IH; [lia| |done]. apply release_skip; [lia|done]. }
  destruct (Nat.eqb_spec (R0 s (S n)) a) as [Heq|Hne].
  { split; [|intros _; split_and!; try done; lia]. intros j Hj _ Hr. rewrite Heq.
    destruct (decide (j <= S n)%nat); [lia|]. destruct Hf as [Hmax _].
    specialize (Hmax j Hj ltac:(lia) Hr). lia. }
  destruct (Nat.ltb_spec (R0 s f) (R0 s (S n))) as [Hbig|Hsm].
  - apply IH; [lia| |lia]. destruct Hf as [Hmax _].
    split; [|intros _; split_and!; try done; lia]. intros j Hj Hnj Hr.
    destruct (decide (j = S n)) as [->|]; [lia|]. specialize (Hmax j Hj ltac:(lia) Hr). lia.
  - apply IH; [lia| |done]. apply release_skip; [|done]. intros (_ & Hr & Hb).
    destruct (decide (f = 0%nat)) as [->|Hf0]; [rewrite R0_0 in Hsm; lia|]. specialize (Hb Hf0). lia.
Qed.

(** A release, by number, or the default branch of a repository file. *)
Definition asks_release (env : revenv) (rv : option cstr) (a : nat) : Prop :=
  rv = Some (printf_n a) ∨
  (bitkeeper env = true ∧ a = 1%nat ∧ (rv = None ∨ rv = Some [] ∨ rv = Some str_plus)).

Lemma scanrev_release a : small a → scanrev (printf_n a) = [Z.of_nat a].
Proof. intros. apply (scanrev_revtext [a]); [by apply Forall_singleton|simpl; lia]. Qed.

(** Asking for a release, or for the top of a repository file (which is
    release 1), finds the newest trunk delta of that release that is not gone,
    failing that the newest of the highest earlier release, and 0 when there is
    none. *)
Theorem findrev_release s env rv a :
  TABLE s ≠ 0%nat → (0 < a)%nat → small a → asks_release env rv a →
  ∃ g, findrev s env rv = Some g ∧ release_max s a 0 g.
Proof.
  intros HT Ha Hs Hrv. exists (release_loop s a (TABLE s) 0 0). split; last first.
  { apply (release_loop_spec s a (TABLE s) 0); [done|done| |rewrite R0_0; lia].
    split; [|done]. intros j (Hj & _) Hgt. lia. }
  destruct Hrv as [->|(Hb & -> & Hrv)].
  - rewrite findrev_digit; [|done|apply (revtext_head a []); done|].
    + rewrite scanrev_release by done. destruct (Z.eqb_spec (Z.of_nat a) 0); [lia|]. by rewrite Nat2Z.id.
    + intros E. pose proof (scanrev_release a Hs) as Hsc. rewrite E in Hsc. by vm_compute in Hsc.
  - unfold findrev, defbranch. rewrite Hb. destruct (Nat.eqb_spec (TABLE s) 0); [done|].
    by destruct Hrv as [->|[->| ->]].
Qed.

(** ** Branches *)

Lemma branch_loop_spec s e n :
  (e <= n)%nat → (∀ j, (n < j <= TABLE s)%nat → samebranch s e j = false) → (n <= TABLE s)%nat →
  (e <= branch_loop s e n <= TABLE s)%nat ∧
  (branch_loop s e n = e ∨ samebranch s e (branch_loop s e n) = true) ∧
  ∀ j, (branch_loop s e n < j <= TABLE s)%nat → samebranch s e j = false.
Proof.
  induction n as [|n IH]; intros He Hgt Hn; cbn [branch_loop]; [split_and!; auto with lia|].
  destruct (Nat.leb_spec (S n) e).
  { assert (e = S n) as -> by lia. split_and!; auto with lia. }
  destruct (samebranch s e (S n)) eqn:E; [split_and!; auto with lia|].
  apply IH; [lia| |lia]. intros j Hj. destruct (decide (j = S n)) as [->|]; [done|]. apply Hgt. lia.
Qed.

Lemma samebranch_spec s d j a b c : (c ≠ 0)%nat → R0 s d = a → R1 s d = b → R2 s d = c →
  samebranch s d j = true ↔ R0 s j = a ∧ R1 s j = b ∧ R2 s j = c.
Proof.
  intros Hc H0 H1 H2. unfold samebranch. rewrite H0, H1, H2.
  destruct (Nat.eqb_spec c 0) as [|_]; [done|]. cbn [andb].
  rewrite !andb_true_iff, !Nat.eqb_eq. naive_solver.
Qed.

Lemma scan4_first a b c : Forall small [a; b; c] →
  scan4 (revtext [a; b; c] ++ [DOT; 49]) = (a, b, c, 1)%nat.
Proof.
  intros Hs. assert (Hs4 : Forall small [a; b; c; 1%nat]).
  { apply (Forall_app _ [a; b; c] [1%nat]). split; [done|]. apply Forall_singleton. unfold small. lia. }
  replace (revtext [a; b; c] ++ [DOT; 49]) with (revtext [a; b; c; 1%nat]).
  - unfold scan4. rewrite scanrev_revtext by (done || simpl; lia). cbn [map nth]. by rewrite !Nat2Z.id.
  - cbn [revtext]. rewrite <- app_assoc. cbn [app]. do 2 f_equal. by rewrite <- app_assoc.
Qed.

(** C38. Looking up a branch.  In a table that is not empty, for numbers below 2^31
    with c not 0 and a text of at most 17 bytes (a longer one overruns the buffer,
    [findrev_overflow]), asking for the branch a.b.c finds nothing when its first
    delta a.b.c.1 is not in the table, and otherwise the newest delta of the branch;
    it is not older than the newest a.b.c.1. *)
Theorem findrev_branch s env a b c :
  TABLE s ≠ 0%nat → Forall small [a; b; c] → c ≠ 0%nat → (length (revtext [a; b; c]) <= 17)%nat →
  ∃ e g, newest_rev s (a, b, c, 1%nat) e ∧ findrev s env (Some (revtext [a; b; c])) = Some g ∧
    (e = 0%nat → g = 0%nat) ∧
    (e ≠ 0%nat → (e <= g <= TABLE s)%nat ∧ (R0 s g = a ∧ R1 s g = b ∧ R2 s g = c) ∧
      ∀ j, (g < j <= TABLE s)%nat → ¬ (R0 s j = a ∧ R1 s j = b ∧ R2 s j = c)).
Proof.
  intros HT Hs Hc Hlen. pose proof (Forall_inv Hs) as Ha.
  set (e := rfind s env (revtext [a; b; c] ++ [DOT; 49])).
  assert (He : newest_rev s (a, b, c, 1%nat) e).
  { rewrite <- (scan4_first a b c) by done. apply rfind_spec.
    pose proof (revtext_head a [b; c] Ha) as Hd. by destruct (revtext [a; b; c]). }
  exists e, (if (e =? 0)%nat then 0%nat else branch_loop s e (TABLE s)). split; [done|]. split.
  - rewrite findrev_digit; [|done|by apply revtext_head|].
    + rewrite scanrev_revtext by (done || simpl; lia). cbn [map].
      unfold sprintf. rewrite length_app. destruct (Nat.ltb_spec (length (revtext [a; b; c]) + length [DOT; 49]) 20) as [_|Hge];
        [|cbn [length] in Hge; lia]. fold e. cbv zeta.
      by destruct (e =? 0)%nat.
    + intros E. pose proof (scanrev_revtext [a; b; c] Hs ltac:(simpl; lia)) as Hsc.
      rewrite E in Hsc. by vm_compute in Hsc.
  - destruct (Nat.eqb_spec e 0) as [|Hne]; [done|]. split; [done|]. intros _.
    destruct He as [_ He]. destruct (He Hne) as (Hb & _ & Hr).
    assert (HR : R0 s e = a ∧ R1 s e = b ∧ R2 s e = c) by (unfold R0, R1, R2; by rewrite Hr).
    destruct HR as (H0 & H1 & H2).
    destruct (branch_loop_spec s e (TABLE s)) as (Hg & Hor & Hno); [lia|lia|done|].
    split; [done|]. split.
    + destruct Hor as [->|Hsb]; [done|]. by apply (samebranch_spec s e _ a b c Hc H0 H1 H2) in Hsb.
    + intros j Hj Hjr. apply (samebranch_spec s e j a b c Hc H0 H1 H2) in Hjr. rewrite Hno in Hjr; done.
Qed.

(** ** The buffer *)

(** The revision [findrev] works on. *)
Definition rev_asked (env : revenv) (rv : option cstr) : cstr :=
  match rv with
  | None => defbranch env
  | Some r => if (at0 r =? 0) || streq str_plus r then defbranch env else r
  end.

(** [findrev] stays inside its 20 byte buffer except on a revision of three
    numbers with more than 17 bytes, where it always writes past the end. *)
Theorem findrev_overflow s env rv :
  findrev s env rv = None ↔
  TABLE s ≠ 0%nat ∧ isdigit (at0 (rev_asked env rv)) = true ∧
  length (scanrev (rev_asked env rv)) = 3%nat ∧ (17 < length (rev_asked env rv))%nat.
Proof.
  unfold findrev. fold (rev_asked env rv). destruct (Nat.eqb_spec (TABLE s) 0) as [|HT]; [naive_solver|].
  cbv zeta. generalize (rev_asked env rv) as r. intros r.
  destruct (streq r str_1_0) eqn:E1.
  { unfold streq in E1. apply bool_decide_eq_true in E1 as ->. vm_compute. naive_solver. }
  destruct (isdigit (at0 r)) eqn:Hd; cbn [negb]; last first.
  { split; [|naive_solver]. intros HN. exfalso. revert HN.
    destruct ((at0 r =? 61) && isdigit (at0 (drop 1 r))); [by case_match|]. destruct (findSym env r) as [[] |]; done. }
  apply isdigit_digit in Hd. unfold digit in Hd. destruct (Z.eqb_spec (at0 r) 61) as [|_]; [lia|]. cbn [andb].
  destruct (scanrev r) as [|x [|y [|z [|u [|v l]]]]]; cbn [length].
  - naive_solver.
  - destruct (x =? 0); naive_solver.
  - naive_solver.
  - unfold sprintf. rewrite length_app. cbn [length]. destruct (Nat.ltb_spec (length r + 2) 20) as [Hlt|Hge].
    + split; [case_match; done|lia].
    + split; [intros _; split_and!; done || lia|done].
  - naive_solver.
  - naive_solver.
Qed.

(** ** Leaves *)

Lemma isleaf_loop_spec s d n t :
  isleaf_loop n s d t = true ↔
  ∀ j, (t <= j < t + n)%nat → GONE s j = false → TAG s j = false → PARENT s j ≠ d ∧ MERGE s j ≠ d.
Proof.
  revert t. induction n as [|n IH]; intros t; cbn [isleaf_loop]; [split; [intros; lia|done]|].
  destruct (GONE s t || TAG s t) eqn:Eg.
  - rewrite IH. apply orb_true_iff in Eg. split; intros Hj j Hr ? ?; apply Hj; try done; [|lia].
    destruct (decide (j = t)) as [->|]; [destruct Eg; congruence|lia].
  - apply orb_false_iff in Eg as [Hg Ht].
    destruct (Nat.eqb_spec (PARENT s t) d) as [Hp|Hp]; cbn [orb].
    { split; [done|]. intros Hj. by destruct (Hj t ltac:(lia) Hg Ht). }
    destruct (Nat.eqb_spec (MERGE s t) d) as [Hm|Hm].
    { split; [done|]. intros Hj. by destruct (Hj t ltac:(lia) Hg Ht). }
    rewrite IH. split; intros Hj j Hr ? ?; [|apply Hj; done || lia].
    destruct (decide (j = t)) as [->|]; [done|]. apply Hj; done || lia.
Qed.

(** In a well-formed graph whose slots are all in use, [isleaf] of a file
    delta of release 1 says exactly whether no delta of the table that is kept
    and is not a tag has it as parent or merge parent, though it only looks at
    newer serials. *)
Theorem isleaf_correct s d :
  wf_graph s → (∀ j, (1 <= j <= TABLE s)%nat → FLAGS s j ≠ 0) →
  (1 <= d <= TABLE s)%nat → TAG s d = false → R0 s d = 1%nat →
  ∃ b, isleaf s d = Some b ∧
    (b = true ↔ ∀ j, (1 <= j <= TABLE s)%nat → GONE s j = false → TAG s j = false →
                d ∉ parents_of s j).
Proof.
  intros Hw Hu Hd Ht H0. unfold isleaf. rewrite Ht, H0. cbn [Nat.eqb negb].
  eexists. split; [done|]. rewrite isleaf_loop_spec. split.
  - intros Hl j Hj Hg Htj Hin.
    destruct (parents_of_wf s j d Hw) as [Hlt _]; [split; auto|done|].
    destruct (Hl j ltac:(lia) Hg Htj) as [Hp Hm]. unfold parents_of in Hin.
    destruct (PARENT s j) as [|p]; [by apply not_elem_of_nil in Hin|].
    apply elem_of_cons in Hin as [->|Hin]; [done|].
    destruct (MERGE s j) as [|m]; [by apply not_elem_of_nil in Hin|].
    by apply list_elem_of_singleton in Hin as ->.
  - intros Hl j Hj Hg Htj. pose proof (Hl j ltac:(lia) Hg Htj) as Hno.
    assert (Hlive : live s j) by (split; [apply Hu; lia|done]).
    pose proof (wf_merge s Hw j Hlive) as Hmp. unfold parents_of in Hno.
    destruct (PARENT s j) as [|p] eqn:Ep.
    + split; [lia|]. destruct (MERGE s j) as [|m]; [lia|]. by destruct Hmp as (_ & _ & []).
    + apply not_elem_of_cons in Hno as [Hp Hno]. split; [done|].
      destruct (MERGE s j) as [|m]; [lia|]. by apply not_elem_of_cons in Hno as [Hm _].
Qed.

(** ** Witnesses *)

(** 1.1, 1.2, 1.1.1.1, 1.1.1.2 and the merge 1.3 of the two tips. *)
Definition ex_revs : sccs :=
  let mk p m r := set_r r (mk_delta p m []) in
  mkSccs [mk 0 0 (1, 1, 0, 0); mk 1 0 (1, 2, 0, 0); mk 1 0 (1, 1, 1, 1); mk 3 0 (1, 1, 1, 2);
          mk 2 4 (1, 3, 0, 0)]%nat 5 0 0 0 0 false.

Definition ex_env : revenv := mkRevenv [([118; 49], 2%nat)] None true.

Lemma ex_small a b c d : (a < 10)%nat → (b < 10)%nat → (c < 10)%nat → (d < 10)%nat → Forall small [a; b; c; d].
Proof. intros. rewrite !Forall_cons. unfold small. split_and!; lia || apply Forall_nil_2. Qed.

Lemma explode_rev_delta_rev_witness :
  delta_rev ex_revs 4 = [49; 46; 49; 46; 49; 46; 50] ∧
  R_of (explode_rev ex_revs 2 (delta_rev ex_revs 4)) 2 = R_of ex_revs 4 ∧
  FLAGS (explode_rev ex_revs 2 (delta_rev ex_revs 4)) 2 = FLAGS ex_revs 2 ∧
  ∀ j, j ≠ 2%nat → dl (explode_rev ex_revs 2 (delta_rev ex_revs 4)) j = dl ex_revs j.
Proof.
  split; [reflexivity|]. apply explode_rev_delta_rev; [reflexivity| |vm_compute; lia].
  split; [|done]. apply (ex_small 1 1 1 2); lia.
Defined.

Lemma findrev_delta_rev_witness :
  findrev ex_revs ex_env (Some (delta_rev ex_revs 4)) = Some 4%nat ∧
  ∃ g, findrev ex_revs ex_env (Some (delta_rev ex_revs 4)) = Some g ∧
    (if decide (R_of ex_revs 4 = (1, 0, 0, 0)%nat) then g = TREE else
     (4 <= g <= TABLE ex_revs)%nat ∧ newest_rev ex_revs (R_of ex_revs 4) g).
Proof.
  split; [reflexivity|]. apply findrev_delta_rev; [vm_compute; lia|reflexivity|reflexivity|].
  split; [|done]. apply (ex_small 1 1 1 2); lia.
Defined.

Lemma findrev_release_witness :
  sccs_top ex_revs ex_env = Some 5%nat ∧
  ∃ g, sccs_top ex_revs ex_env = Some g ∧ release_max ex_revs 1 0 g.
Proof.
  split; [reflexivity|]. apply (findrev_release ex_revs ex_env None 1); [done|lia|vm_compute; done|].
  right. auto.
Defined.

Lemma findrev_branch_witness :
  findrev ex_revs ex_env (Some (revtext [1; 1; 1]%nat)) = Some 4%nat ∧
  ∃ e g, newest_rev ex_revs (1, 1, 1, 1)%nat e ∧ findrev ex_revs ex_env (Some (revtext [1; 1; 1]%nat)) = Some g ∧
    (e = 0%nat → g = 0%nat) ∧
    (e ≠ 0%nat → (e <= g <= TABLE ex_revs)%nat ∧
      (R0 ex_revs g = 1%nat ∧ R1 ex_revs g = 1%nat ∧ R2 ex_revs g = 1%nat) ∧
      ∀ j, (g < j <= TABLE ex_revs)%nat → ¬ (R0 ex_revs j = 1%nat ∧ R1 ex_revs j = 1%nat ∧ R2 ex_revs j = 1%nat)).
Proof.
  split; [reflexivity|]. apply findrev_branch; [done| |done|vm_compute; lia].
  rewrite !Forall_cons. split_and!; done || apply Forall_nil_2.
Defined.

Lemma isleaf_correct_witness :
  isleaf ex_revs 4 = Some false ∧ isleaf ex_revs 5 = Some true ∧
  ∃ b, isleaf ex_revs 4 = Some b ∧
    (b = true ↔ ∀ j, (1 <= j <= TABLE ex_revs)%nat → GONE ex_revs j = false → TAG ex_revs j = false →
                4%nat ∉ parents_of ex_revs j).
Proof.
  split; [reflexivity|]. split; [reflexivity|].
  apply isleaf_correct; [apply wf_graphb_sound; reflexivity| |vm_compute; lia|reflexivity|reflexivity].
  intros j Hj. change (TABLE ex_revs) with 5%nat in Hj. do 6 (destruct j as [|j]; [done || lia|]). lia.
Defined.
