(* ===== verification/FopenCrc.v ===== *)
(** * FopenCrc: files protected by checksums

    src/src/libc/utils/fopen_crc.c: the stdio layer closest to the disk.  The data
    is cut into blocks that end in a length and a crc; a last block holds the
    exclusive or of all blocks, so that one bad block can be found and repaired.

    The file underneath is its bytes and a position.  [None] is a failed assert or
    a write outside an array; errors are the return value -1, as in the code.
    Short reads of a damaged file end in the early eof of [readBlock]; what they
    leave in the exclusive or is not modelled. *)

From S2P Require Import Prelude CStr Crc.
From stdpp Require Import base numbers list.
From Stdlib Require Import ZArith Lia.

Local Open Scope Z_scope.

Local Open Scope bk_scope.

(** ** The file underneath *)

Record file := mkFile { f_bytes : list Z; f_pos : Z }.

Definition f_size (f : file) : Z := Z.of_nat (length (f_bytes f)).

Definition fread (n : Z) (f : file) : list Z * file :=
  let l := take (Z.to_nat n) (drop (Z.to_nat (f_pos f)) (f_bytes f)) in
  (l, mkFile (f_bytes f) (f_pos f + Z.of_nat (length l))).

Definition fwrite (l : list Z) (f : file) : file :=
  let p := Z.to_nat (f_pos f) in
  mkFile (resize p 0 (f_bytes f) ++ l ++ drop (p + length l) (f_bytes f)) (f_pos f + Z.of_nat (length l)).

Definition fseek (pos : Z) (f : file) : file := mkFile (f_bytes f) pos.

(** ** Data *)

Record fcrc := mkFc {
  fc_read : bool;
  fc_write : bool;
  fc_oldfmt : bool;
  fc_chkxor : bool;
  fc_datasz : Z;
  fc_bits : Z;
  fc_f : file;
  fc_didwrite : bool;
  fc_writepartial : bool;
  fc_doXor : bool;
  fc_didseek : bool;
  fc_xorchkd : bool;
  fc_filesz : Z;
  fc_offset : Z;
  fc_boff : Z;
  fc_seekoff : Z;
  fc_crc : Z;
  fc_rbuf : list Z;
  fc_rbuf_off : Z;
  fc_rlen : Z;
  fc_xor : option (list Z)
}.


Definition set_f (v : file) (fc : fcrc) : fcrc :=
  mkFc (fc_read fc) (fc_write fc) (fc_oldfmt fc) (fc_chkxor fc) (fc_datasz fc) (fc_bits fc) v (fc_didwrite fc)
    (fc_writepartial fc) (fc_doXor fc) (fc_didseek fc) (fc_xorchkd fc) (fc_filesz fc) (fc_offset fc) (fc_boff fc)
    (fc_seekoff fc) (fc_crc fc) (fc_rbuf fc) (fc_rbuf_off fc) (fc_rlen fc) (fc_xor fc).

Definition set_didwrite (v : bool) (fc : fcrc) : fcrc :=
  mkFc (fc_read fc) (fc_write fc) (fc_oldfmt fc) (fc_chkxor fc) (fc_datasz fc) (fc_bits fc) (fc_f fc) v
    (fc_writepartial fc) (fc_doXor fc) (fc_didseek fc) (fc_xorchkd fc) (fc_filesz fc) (fc_offset fc) (fc_boff fc)
    (fc_seekoff fc) (fc_crc fc) (fc_rbuf fc) (fc_rbuf_off fc) (fc_rlen fc) (fc_xor fc).

Definition set_writepartial (v : bool) (fc : fcrc) : fcrc :=
  mkFc (fc_read fc) (fc_write fc) (fc_oldfmt fc) (fc_chkxor fc) (fc_datasz fc) (fc_bits fc) (fc_f fc)
    (fc_didwrite fc) v (fc_doXor fc) (fc_didseek fc) (fc_xorchkd fc) (fc_filesz fc) (fc_offset fc) (fc_boff fc)
    (fc_seekoff fc) (fc_crc fc) (fc_rbuf fc) (fc_rbuf_off fc) (fc_rlen fc) (fc_xor fc).

Definition set_doXor (v : bool) (fc : fcrc) : fcrc :=
  mkFc (fc_read fc) (fc_write fc) (fc_oldfmt fc) (fc_chkxor fc) (fc_datasz fc) (fc_bits fc) (fc_f fc)
    (fc_didwrite fc) (fc_writepartial fc) v (fc_didseek fc) (fc_xorchkd fc) (fc_filesz fc) (fc_offset fc) (fc_boff
    fc) (fc_seekoff fc) (fc_crc fc) (fc_rbuf fc) (fc_rbuf_off fc) (fc_rlen fc) (fc_xor fc).

Definition set_didseek (v : bool) (fc : fcrc) : fcrc :=
  mkFc (fc_read fc) (fc_write fc) (fc_oldfmt fc) (fc_chkxor fc) (fc_datasz fc) (fc_bits fc) (fc_f fc)
    (fc_didwrite fc) (fc_writepartial fc) (fc_doXor fc) v (fc_xorchkd fc) (fc_filesz fc) (fc_offset fc) (fc_boff
    fc) (fc_seekoff fc) (fc_crc fc) (fc_rbuf fc) (fc_rbuf_off fc) (fc_rlen fc) (fc_xor fc).

Definition set_xorchkd (v : bool) (fc : fcrc) : fcrc :=
  mkFc (fc_read fc) (fc_write fc) (fc_oldfmt fc) (fc_chkxor fc) (fc_datasz fc) (fc_bits fc) (fc_f fc)
    (fc_didwrite fc) (fc_writepartial fc) (fc_doXor fc) (fc_didseek fc) v (fc_filesz fc) (fc_offset fc) (fc_boff
    fc) (fc_seekoff fc) (fc_crc fc) (fc_rbuf fc) (fc_rbuf_off fc) (fc_rlen fc) (fc_xor fc).

Definition set_filesz (v : Z) (fc : fcrc) : fcrc :=
  mkFc (fc_read fc) (fc_write fc) (fc_oldfmt fc) (fc_chkxor fc) (fc_datasz fc) (fc_bits fc) (fc_f fc)
    (fc_didwrite fc) (fc_writepartial fc) (fc_doXor fc) (fc_didseek fc) (fc_xorchkd fc) v (fc_offset fc) (fc_boff
    fc) (fc_seekoff fc) (fc_crc fc) (fc_rbuf fc) (fc_rbuf_off fc) (fc_rlen fc) (fc_xor fc).

Definition set_offset (v : Z) (fc : fcrc) : fcrc :=
  mkFc (fc_read fc) (fc_write fc) (fc_oldfmt fc) (fc_chkxor fc) (fc_datasz fc) (fc_bits fc) (fc_f fc)
    (fc_didwrite fc) (fc_writepartial fc) (fc_doXor fc) (fc_didseek fc) (fc_xorchkd fc) (fc_filesz fc) v (fc_boff
    fc) (fc_seekoff fc) (fc_crc fc) (fc_rbuf fc) (fc_rbuf_off fc) (fc_rlen fc) (fc_xor fc).

Definition set_boff (v : Z) (fc : fcrc) : fcrc :=
  mkFc (fc_read fc) (fc_write fc) (fc_oldfmt fc) (fc_chkxor fc) (fc_datasz fc) (fc_bits fc) (fc_f fc)
    (fc_didwrite fc) (fc_writepartial fc) (fc_doXor fc) (fc_didseek fc) (fc_xorchkd fc) (fc_filesz fc) (fc_offset
    fc) v (fc_seekoff fc) (fc_crc fc) (fc_rbuf fc) (fc_rbuf_off fc) (fc_rlen fc) (fc_xor fc).

Definition set_seekoff (v : Z) (fc : fcrc) : fcrc :=
  mkFc (fc_read fc) (fc_write fc) (fc_oldfmt fc) (fc_chkxor fc) (fc_datasz fc) (fc_bits fc) (fc_f fc)
    (fc_didwrite fc) (fc_writepartial fc) (fc_doXor fc) (fc_didseek fc) (fc_xorchkd fc) (fc_filesz fc) (fc_offset
    fc) (fc_boff fc) v (fc_crc fc) (fc_rbuf fc) (fc_rbuf_off fc) (fc_rlen fc) (fc_xor fc).

Definition set_crc (v : Z) (fc : fcrc) : fcrc :=
  mkFc (fc_read fc) (fc_write fc) (fc_oldfmt fc) (fc_chkxor fc) (fc_datasz fc) (fc_bits fc) (fc_f fc)
    (fc_didwrite fc) (fc_writepartial fc) (fc_doXor fc) (fc_didseek fc) (fc_xorchkd fc) (fc_filesz fc) (fc_offset
    fc) (fc_boff fc) (fc_seekoff fc) v (fc_rbuf fc) (fc_rbuf_off fc) (fc_rlen fc) (fc_xor fc).

Definition set_rbuf (v : list Z) (fc : fcrc) : fcrc :=
  mkFc (fc_read fc) (fc_write fc) (fc_oldfmt fc) (fc_chkxor fc) (fc_datasz fc) (fc_bits fc) (fc_f fc)
    (fc_didwrite fc) (fc_writepartial fc) (fc_doXor fc) (fc_didseek fc) (fc_xorchkd fc) (fc_filesz fc) (fc_offset
    fc) (fc_boff fc) (fc_seekoff fc) (fc_crc fc) v (fc_rbuf_off fc) (fc_rlen fc) (fc_xor fc).

Definition set_rbuf_off (v : Z) (fc : fcrc) : fcrc :=
  mkFc (fc_read fc) (fc_write fc) (fc_oldfmt fc) (fc_chkxor fc) (fc_datasz fc) (fc_bits fc) (fc_f fc)
    (fc_didwrite fc) (fc_writepartial fc) (fc_doXor fc) (fc_didseek fc) (fc_xorchkd fc) (fc_filesz fc) (fc_offset
    fc) (fc_boff fc) (fc_seekoff fc) (fc_crc fc) (fc_rbuf fc) v (fc_rlen fc) (fc_xor fc).

Definition set_rlen (v : Z) (fc : fcrc) : fcrc :=
  mkFc (fc_read fc) (fc_write fc) (fc_oldfmt fc) (fc_chkxor fc) (fc_datasz fc) (fc_bits fc) (fc_f fc)
    (fc_didwrite fc) (fc_writepartial fc) (fc_doXor fc) (fc_didseek fc) (fc_xorchkd fc) (fc_filesz fc) (fc_offset
    fc) (fc_boff fc) (fc_seekoff fc) (fc_crc fc) (fc_rbuf fc) (fc_rbuf_off fc) v (fc_xor fc).

Definition set_xor (v : option (list Z)) (fc : fcrc) : fcrc :=
  mkFc (fc_read fc) (fc_write fc) (fc_oldfmt fc) (fc_chkxor fc) (fc_datasz fc) (fc_bits fc) (fc_f fc)
    (fc_didwrite fc) (fc_writepartial fc) (fc_doXor fc) (fc_didseek fc) (fc_xorchkd fc) (fc_filesz fc) (fc_offset
    fc) (fc_boff fc) (fc_seekoff fc) (fc_crc fc) (fc_rbuf fc) (fc_rbuf_off fc) (fc_rlen fc) v.

Definition HDRSZ : Z := 8.

Definition PER_BLK : Z := 6.

Definition XORSZ (fc : fcrc) : Z := fc_datasz fc + 2.

(** [&len], [&crc] in little endian order. *)
Definition le16 (v : Z) : list Z := [v mod 256; v / 256 mod 256].

Definition le32 (v : Z) : list Z := [v mod 256; v / 256 mod 256; v / 65536 mod 256; v / 16777216 mod 256].

(** [for (i = 0; i < n; i++) xor[c++] ^= l[i];] *)
Definition xor_at (xs : option (list Z)) (c : Z) (l : list Z) : option (option (list Z)) :=
  let? xs := xs in
  assert! (0 <=? c) && (c + Z.of_nat (length l) <=? Z.of_nat (length xs));
  let c := Z.to_nat c in
  Some (Some (take c xs ++ zip_with Z.lxor (take (length l) (drop c xs)) l ++ drop (c + length l) xs)).

(** ** Opening *)

Definition datasz_loop (est_size : Z) : nat → Z → Z → Z → Z :=
  fix go n bits best bestsz :=
    match n with
    | O => best
    | S n =>
        let sz := Z.shiftl 1 bits in
        let nblocks := int32 (est_size / (sz - PER_BLK) + 1) in
        let out := int32 (nblocks * PER_BLK + sz) in
        if (best =? 0) || (out <? bestsz) then go n (bits + 1) bits out else go n (bits + 1) best bestsz
    end.

(** [for (bits = 6; bits <= 16; bits++)] *)
Definition best_datasz (est_size : Z) : Z := datasz_loop est_size 11 6 0 0.

(** [%03d] of [fscanf]: at most three characters, a sign among them. *)
Fixpoint scan_digits (n : nat) (s : list Z) (v : Z) (any : bool) : option Z :=
  match n, s with
  | S n, c :: s' => if isdigit c then scan_digits n s' (10 * v + (c - 48)) true else if any then Some v else None
  | _, _ => if any then Some v else None
  end.

Definition scan_d3 (s : list Z) : option Z :=
  match skip_space s with
  | 45 :: s => let? v := scan_digits 2 s 0 false in Some (- v)
  | 43 :: s => scan_digits 2 s 0 false
  | s => scan_digits 3 s 0 false
  end.

(** [fscanf(f, "CR%c %03d\n", &c, &bits) == 2] *)
Definition scan_hdr (s : list Z) : option (Z * Z) :=
  match s with
  | 67 :: 82 :: c :: s => let? v := scan_d3 s in Some (c, v)
  | _ => None
  end.

Inductive mode := M_R | M_RP | M_W.

Definition fopen_crc (f : file) (m : mode) (est_size : Z) (chkxor : bool) : option (option fcrc) :=
  let mk (rd wr old : bool) (bits : Z) :=
    let bits := u8 bits in
    assert! bits <? 31;
    let datasz := u32 (Z.shiftl 1 bits - PER_BLK) in
    assert! datasz <? 65536;
    Some (Some (mkFc rd wr old chkxor datasz bits (fseek 0 f) false false false true false
                 (-1) 0 0 0 0 (replicate (Z.to_nat datasz) 0) 0 0 None)) in
  match m with
  | M_W => mk false true false (best_datasz est_size)
  | _ =>
      let wr := match m with M_RP => true | _ => false end in
      match scan_hdr (f_bytes f) with
      | None => Some None
      | Some (c, bits) =>
          if c =? 67 then assert! negb wr; mk true wr true bits
          else assert! c =? 99; mk true wr false bits
      end
  end.

(** ** Seeking *)

(** [n] is an int, the products are 32 bit unsigned. *)
Definition seekBlock (fc : fcrc) : fcrc :=
  if fc_boff fc =? fc_offset fc then fc else
  let n := int32 ((fc_offset fc + HDRSZ) / fc_datasz fc) in
  let new_pos := if n =? 0 then 0 else u32 (n * fc_datasz fc - HDRSZ) in
  if negb (new_pos =? fc_boff fc) then
    set_f (fseek (u32 (n * (fc_datasz fc + PER_BLK))) (fc_f fc)) (set_boff new_pos fc)
  else fc.

Section Crc.

(** The checksum [CRC]. *)
Context (CRC : Z → list Z → Z).

(** ** Finding the bad block *)

(** What is printed: nothing wrong, too many errors, or the place of the bad
    block and the bytes that differ from what they should be. *)
Inductive report := R_none | R_many | R_one (first_error : Z) (bad : list (Z * Z * Z)).

(** The product of [first_error] is 32 bit unsigned and stored in an [int]. *)
Fixpoint verify_loop (n : nat) (c : Z) (bsize : Z) (f : file) (xor : list Z) (errors first_error : Z) :
    option (file * list Z * Z * Z) :=
  match n with
  | O => Some (f, xor, errors, first_error)
  | S n =>
      let '(buf, f) := fread bsize f in
      assert! Z.of_nat (length buf) =? bsize;
      let crc2 := CRC 0 buf in
      let '(crc, f) := fread 4 f in
      if negb (Z.of_nat (length crc) =? 4) || negb (le_load crc =? crc2)
      then verify_loop n (c + 1) bsize f xor (errors + 1) (int32 (u32 (c * (bsize + 4))))
      else verify_loop n (c + 1) bsize f (zip_with Z.lxor xor buf) errors first_error
  end.

(** [if (buf[i] != fc->xor[i]) fprintf(...)]: the offset is an [int]. *)
Fixpoint bad_bytes (at_ : Z) (buf xor : list Z) : list (Z * Z * Z) :=
  match buf, xor with
  | b :: buf, x :: xor => if b =? x then bad_bytes (at_ + 1) buf xor else (int32 at_, b, x) :: bad_bytes (at_ + 1) buf xor
  | _, _ => []
  end.

(** [fseek] to a negative offset fails and the file stays where it is. *)
Definition crcCheckVerify (fc : fcrc) : option (fcrc * report * Z) :=
  let bsize := XORSZ fc in
  let size := f_size (fc_f fc) in
  assert! size mod (fc_datasz fc + PER_BLK) =? 0;
  let n := Z.to_nat (int32 (size / (fc_datasz fc + PER_BLK))) in
  let? (f, xor, errors, first_error) :=
    verify_loop n 0 bsize (fseek 0 (fc_f fc)) (replicate (Z.to_nat bsize) 0) 0 0 in
  let fc := set_xor (Some xor) (set_f f fc) in
  if errors =? 0 then Some (fc, R_none, 0)
  else if 1 <? errors then Some (fc, R_many, -1)
  else
    let '(buf, f) := fread bsize (if first_error <? 0 then f else fseek first_error f) in
    Some (set_f f fc, R_one first_error (bad_bytes first_error buf xor), -1).

(** ** Reading *)

(** The bytes put in [buf] and the return value. *)
Fixpoint readBlock (fuel : nat) (fc : fcrc) : option (fcrc * list Z * Z) :=
  match fuel with
  | O => None
  | S fuel =>
      let past := (0 <=? fc_filesz fc) && (fc_filesz fc <? fc_boff fc) in
      if past && (fc_filesz fc + fc_datasz fc <? fc_boff fc) then Some (fc, [], 0) else
      let xblock := past in
      let first := fc_boff fc =? 0 in
      let bsize := if first then fc_datasz fc - HDRSZ else fc_datasz fc in
      let '(hdr, f) := fread (if first then HDRSZ else 0) (fc_f fc) in
      let '(p1, f) := fread (if fc_oldfmt fc then 2 else bsize) f in
      let '(p2, f) := fread (if fc_oldfmt fc then bsize else 2) f in
      let '(crc, f) := fread 4 f in
      if negb (Z.of_nat (length crc) =? 4) then Some (set_f f fc, [], -1) else
      let? xor := (if fc_doXor fc then
                     let? x := xor_at (fc_xor fc) 0 hdr in
                     let? x := xor_at x (Z.of_nat (length hdr)) p1 in
                     xor_at x (Z.of_nat (length hdr + length p1)) p2
                   else Some (fc_xor fc)) in
      let crc2 := if first then CRC 0 hdr else 0 in
      let crc2 := CRC (CRC crc2 p1) p2 in
      let fc := set_xor xor (set_f f fc) in
      if negb (crc2 =? le_load crc) then
        let? (fc, _, _) := crcCheckVerify fc in Some (fc, [], -1)
      else
      assert! negb (fc_doXor fc) || (Z.of_nat (length hdr + length p1 + length p2) =? XORSZ fc);
      let fc := set_boff (fc_boff fc + bsize) fc in
      let '(len, buf) := if fc_oldfmt fc then (le_load p1, p2) else (le_load p2, p1) in
      if xblock then Some (fc, buf, 0)
      else if len <? bsize then
        let fc := if fc_filesz fc <? 0 then set_filesz (fc_boff fc - bsize + len) fc else fc in
        if len =? 0 then
          let? (fc, buf, rc) := readBlock fuel fc in
          if rc <? 0 then Some (fc, buf, -1) else Some (fc, buf, 0)
        else Some (fc, buf, len)
      else Some (fc, buf, len)
  end.

(** Each round reads a block of the file. *)
Definition read_fuel (fc : fcrc) : nat := S (length (f_bytes (fc_f fc))).

(** [xor_ok]: one of the variables that switch the check off is set. *)
Context (bad_xor xor_ok : bool).

(** [_BK_BAD_XOR] names this file. *)
Definition corruptXor (fc : fcrc) : option fcrc :=
  if bad_xor then let? x := xor_at (fc_xor fc) 7 [8] in Some (set_xor x fc) else Some fc.

Definition readAfterSeek (fc : fcrc) : option fcrc :=
  assert! negb (fc_didwrite fc);
  let fc := seekBlock (set_didseek false fc) in
  let doXor := fc_write fc || (fc_boff fc =? 0) in
  let fc := set_doXor doXor fc in
  Some (if doXor then set_xor (Some (replicate (Z.to_nat (XORSZ fc)) 0)) (set_seekoff (fc_boff fc) fc) else fc).

(** [memcpy(buf, rbuf + off, n)] *)
Definition rbuf_at (fc : fcrc) (off n : Z) : list Z := take (Z.to_nat n) (drop (Z.to_nat off) (fc_rbuf fc)).

(** A block read into [rbuf]; a block that is not read whole leaves it alone. *)
Definition readRbuf (fc : fcrc) : option (fcrc * Z) :=
  let fc := set_rbuf_off (fc_boff fc) fc in
  let? (fc, buf, n) := readBlock (read_fuel fc) fc in
  Some (set_rlen n (set_rbuf (buf ++ drop (length buf) (fc_rbuf fc)) fc), n).

(** The copy from [rbuf]: the bytes. *)
Definition read_saved (fc : fcrc) (len : Z) : list Z :=
  let off := fc_offset fc - fc_rbuf_off fc in
  if negb (fc_rlen fc =? 0) && (0 <=? off) && (off <? fc_rlen fc)
  then rbuf_at fc off (Z.min len (fc_rlen fc - off)) else [].

Definition add_offset (n : Z) (fc : fcrc) : fcrc := set_offset (fc_offset fc + n) fc.

(** The [while (1)]: the bytes read, or an error. *)
Fixpoint read_loop (fuel : nat) (fc : fcrc) (len : Z) : option (fcrc * (list Z + Z)) :=
  match fuel with
  | O => None
  | S fuel =>
      let l1 := read_saved fc len in
      let n1 := Z.of_nat (length l1) in
      let fc := add_offset n1 fc in
      let len := len - n1 in
      let again (fc : fcrc) (out : list Z) :=
        if negb (Z.of_nat (length out) =? 0) then Some (fc, inl out) else
        let? (fc, n) := readRbuf fc in
        if n =? 0 then Some (fc, inl []) else if n <? 0 then Some (fc, inr (-1)) else read_loop fuel fc len in
      if (fc_offset fc =? fc_boff fc) && (fc_datasz fc <=? len) then
        let? (fc, buf, n) := readBlock (read_fuel fc) fc in
        if n =? 0 then Some (fc, inl l1)
        else if n <? 0 then Some (fc, inr (-1))
        else again (add_offset n fc) (l1 ++ take (Z.to_nat n) buf)
      else again fc l1
  end.

(** The bytes read, or an error. *)
Definition crcRead (fc : fcrc) (len : Z) : option (fcrc * (list Z + Z)) :=
  assert! negb (fc_didwrite fc);
  let? fc := (if fc_didseek fc then let? fc := readAfterSeek fc in Some (set_rlen 0 fc) else Some fc) in
  let? (fc, r) := read_loop (read_fuel fc) fc len in
  match r with
  | inr e => Some (fc, inr e)
  | inl out =>
      if bool_decide (out = []) && fc_doXor fc && (fc_seekoff fc =? 0) then
        let fc := set_xorchkd true fc in
        let? xor := fc_xor fc in
        if existsb (λ x, negb (x =? 0)) xor && negb xor_ok then Some (fc, inr (-1)) else Some (fc, inl out)
      else Some (fc, inl out)
  end.

(** ** Writing *)

Definition put (l : list Z) (fc : fcrc) : fcrc := set_f (fwrite l (fc_f fc)) fc.

Definition header (bits : Z) : list Z := [67; 82; 99; 32; 48 + bits / 100; 48 + bits / 10 mod 10; 48 + bits mod 10; 10].

(** The end of a full block. *)
Definition end_block (bsize c : Z) (fc : fcrc) : option fcrc :=
  let fc := set_boff (fc_boff fc + bsize) fc in
  assert! fc_offset fc =? fc_boff fc;
  let crc := CRC (fc_crc fc) (le16 bsize) in
  let? x := xor_at (fc_xor fc) c (le16 bsize) in
  let fc := put (le32 crc) (put (le16 bsize) (set_xor x fc)) in
  assert! c + 2 =? XORSZ fc;
  Some (set_writepartial false (set_crc 0 fc)).

(** The [while (len)]; [c] is the place in the block. *)
Fixpoint write_loop (fuel : nat) (fc : fcrc) (buf : list Z) (bsize c : Z) : option fcrc :=
  match buf with
  | [] => Some fc
  | _ =>
      match fuel with
      | O => None
      | S fuel =>
          let n := Z.min (Z.of_nat (length buf)) (bsize - (fc_offset fc - fc_boff fc)) in
          let l := take (Z.to_nat n) buf in
          let fc := set_crc (CRC (fc_crc fc) l) fc in
          let? x := xor_at (fc_xor fc) c l in
          let fc := add_offset n (put l (set_xor x fc)) in
          if bsize <=? fc_offset fc - fc_boff fc then
            let? fc := end_block bsize (c + n) fc in
            write_loop fuel fc (drop (Z.to_nat n) buf) (fc_datasz fc) 0
          else write_loop fuel (set_writepartial true fc) (drop (Z.to_nat n) buf) bsize (c + n)
      end
  end.

(** [crcWrite] from [fc->didwrite = 1] on. *)
Definition write_data (fc : fcrc) (buf : list Z) : option fcrc :=
  let fc := set_didwrite true fc in
  let? fc := (if (fc_offset fc =? 0) && negb (fc_writepartial fc) then
                assert! fc_bits fc <? 1000;
                let hdr := header (fc_bits fc) in
                let fc := put hdr (set_crc (CRC (fc_crc fc) hdr) fc) in
                let? x := xor_at (fc_xor fc) 0 hdr in
                Some (set_writepartial true (set_xor x fc))
              else Some fc) in
  let c := fc_offset fc - fc_boff fc in
  let first := fc_boff fc =? 0 in
  write_loop (length buf) fc buf (if first then fc_datasz fc - HDRSZ else fc_datasz fc) (if first then c + HDRSZ else c).

(** The call of [crcWrite] in it finds [didseek] clear. *)
Definition writeAfterSeek (fc : fcrc) : option (fcrc * Z) :=
  assert! negb (fc_didwrite fc);
  let fc := set_doXor false (set_didseek false fc) in
  let fc := match fc_xor fc with None => set_xor (Some (replicate (Z.to_nat (XORSZ fc)) 0)) fc | Some _ => fc end in
  let fc := seekBlock fc in
  assert! (if negb (fc_read fc) then fc_offset fc =? 0 else fc_seekoff fc =? fc_boff fc);
  if fc_boff fc =? fc_offset fc then Some (fc, 0) else
  let? (fc, n) := readRbuf fc in
  if n <? 0 then Some (fc, -1) else
  let fc := seekBlock fc in
  let len := fc_offset fc - fc_rbuf_off fc in
  assert! len <=? fc_rlen fc;
  let fc := set_offset (fc_boff fc) fc in
  let? fc := write_data fc (rbuf_at fc 0 len) in
  Some (fc, 0).

(** The return value is the length of [buf] or -1. *)
Definition crcWrite (fc : fcrc) (buf : list Z) : option (fcrc * Z) :=
  let? (fc, rc) := (if fc_didseek fc then writeAfterSeek fc else Some (fc, 0)) in
  if rc <? 0 then Some (fc, -1) else
  let? fc := write_data fc buf in Some (fc, Z.of_nat (length buf)).

(** ** Seeking by the caller *)

Inductive whence := W_SET | W_CUR | W_END.

Definition fileSize (fc : fcrc) : option (fcrc * Z) :=
  let fc := set_doXor false fc in
  let bsize := fc_datasz fc + PER_BLK in
  let size := f_size (fc_f fc) in
  assert! size mod bsize =? 0;
  let n := size / bsize in
  assert! 2 <=? n;
  let n := n - 2 in
  assert! n * bsize <? 2 ^ 31;
  let fc := set_f (fseek (n * bsize) (fc_f fc)) fc in
  let fc := set_boff (if n =? 0 then 0 else u32 (n * fc_datasz fc - HDRSZ)) fc in
  let? (fc, n) := readRbuf fc in
  if n <? 0 then Some (fc, -1) else if fc_filesz fc <? 0 then Some (fc, -1) else Some (fc, 0).

(** From [done:] on. *)
Definition seek_done (fc : fcrc) (offset : Z) : fcrc * Z :=
  if offset <? 0 then (set_rlen 0 (set_filesz (-1) fc), -1) else (set_offset offset fc, offset).

Definition crcSeek (fc : fcrc) (offset : Z) (w : whence) : option (fcrc * Z) :=
  match w with
  | W_CUR => assert! offset =? 0; Some (fc, fc_offset fc)
  | _ =>
      let fc := set_didseek true fc in
      assert! fc_read fc;
      assert! negb (fc_didwrite fc);
      let set := match w with W_SET => true | _ => false end in
      if set && (offset <=? fc_offset fc) then Some (seek_done fc offset) else
      let? (fc, rc) := (if fc_filesz fc <? 0 then fileSize fc else Some (fc, 0)) in
      if rc <? 0 then Some (fc, -1) else
      let offset := if set then offset else offset + fc_filesz fc in
      Some (seek_done fc (if fc_filesz fc <=? offset then fc_filesz fc else offset))
  end.

(** ** Closing *)

(** [while ((n = crcRead(fc, buf, fc->datasz)) > 0)]: at most a round per byte. *)
Fixpoint close_read (fuel : nat) (fc : fcrc) : option (fcrc * Z) :=
  match fuel with
  | O => None
  | S fuel =>
      let? (fc, r) := crcRead fc (fc_datasz fc) in
      match r with
      | inr e => Some (fc, e)
      | inl [] => Some (fc, 0)
      | inl _ => close_read fuel fc
      end
  end.

(** The file that is left and the return value. *)
Definition crcClose (fc : fcrc) : option (file * Z) :=
  if fc_write fc then
    let? (fc, _) := crcWrite fc [] in
    let len := fc_offset fc - fc_boff fc in
    let n := fc_datasz fc - len - (if fc_boff fc =? 0 then HDRSZ else 0) in
    let zeros := replicate (Z.to_nat n) 0 in
    let crc := CRC (fc_crc fc) zeros in
    let fc := put zeros fc in
    let? x := xor_at (fc_xor fc) (fc_datasz fc) (le16 len) in
    let crc := CRC crc (le16 len) in
    let fc := put (le32 crc) (put (le16 len) (set_xor x fc)) in
    let? fc := corruptXor fc in
    let? xor := fc_xor fc in
    let fc := put (le32 (CRC 0 xor)) (put xor fc) in
    Some (fc_f fc, 0)
  else if fc_chkxor fc && negb (fc_xorchkd fc) then
    let? (fc, rc) := crcSeek fc 0 W_SET in
    if negb (rc =? 0) then Some (fc_f fc, -1) else
    let fc := set_filesz (-1) fc in
    let? (fc, n) := close_read (read_fuel fc) fc in
    if n <? 0 then Some (fc_f fc, -1) else
    assert! fc_xorchkd fc;
    Some (fc_f fc, 0)
  else Some (fc_f fc, 0).

End Crc.

(** A whole session: open for writing, write, close. *)
Definition write_session (CRC : Z → list Z → Z) (est_size : Z) (chunks : list (list Z)) : option (file * Z) :=
  let? fc := fopen_crc (mkFile [] 0) M_W est_size false in
  let? fc := fc in
  let? fc := fold_left (λ fc buf, let? fc := fc in let? (fc, rc) := crcWrite CRC fc buf in Some fc) chunks (Some fc) in
  crcClose CRC false false fc.
