(* ===== verification/FopenCrcOk.v ===== *)
(** * FopenCrcOk: the checksum layer is a plain file

    The layout of fopen_crc.c as a definition ([image]), and proofs that writing
    produces it, that reading and seeking on it behave as on the data, and that a
    damaged block is noticed and located. *)

From S2P Require Import Prelude CStr Crc FopenCrc.
From stdpp Require Import base numbers list.
From Stdlib Require Import ZArith Lia.

Local Open Scope Z_scope.

Local Open Scope bk_scope.

(** ** Exclusive or of byte strings *)

Definition xorl (a b : list Z) : list Z := zip_with Z.lxor a b.

Definition zeros (n : Z) : list Z := replicate (Z.to_nat n) 0.

Lemma length_xorl a b : length a = length b → length (xorl a b) = length a.
Proof. intros H. unfold xorl. rewrite length_zip_with. lia. Qed.

Lemma xorl_zeros n a : Z.of_nat (length a) = n → xorl (zeros n) a = a.
Proof.
  intros <-. unfold xorl, zeros. rewrite Nat2Z.id. induction a as [|x a IH]; cbn; [done|]. by rewrite IH.
Qed.

Lemma xorl_assoc a b c : xorl (xorl a b) c = xorl a (xorl b c).
Proof.
  unfold xorl. revert b c. induction a as [|x a IH]; intros [|y b] [|z c]; cbn; try done. by rewrite IH, Z.lxor_assoc.
Qed.

Lemma xorl_comm a b : xorl a b = xorl b a.
Proof. unfold xorl. revert b. induction a as [|x a IH]; intros [|y b]; cbn; try done. by rewrite IH, Z.lxor_comm. Qed.

Lemma xorl_self a : xorl a a = zeros (Z.of_nat (length a)).
Proof.
  unfold xorl, zeros. rewrite Nat2Z.id. induction a as [|x a IH]; cbn; [done|]. by rewrite IH, Z.lxor_nilpotent.
Qed.

Lemma xorl_app a b c d : length a = length c → xorl (a ++ b) (c ++ d) = xorl a c ++ xorl b d.
Proof. intros. unfold xorl. by apply zip_with_app. Qed.

Lemma xorl_bytes a b : Forall is_byte a → Forall is_byte b → Forall is_byte (xorl a b).
Proof.
  intros Ha. revert b. unfold xorl. induction Ha as [|x a Hx Ha IH]; intros b Hb; [constructor|].
  destruct Hb as [|y b Hy Hb]; [constructor|]. cbn. constructor; [|by apply IH].
  apply (lxor_range _ _ 8); [lia|done|done].
Qed.

Lemma zeros_bytes n : Forall is_byte (zeros n).
Proof. apply Forall_replicate. unfold is_byte. lia. Qed.

Lemma length_zeros n : length (zeros n) = Z.to_nat n.
Proof. apply length_replicate. Qed.

(** The exclusive or of all the lines of [l], which are [n] long. *)
Definition xorall (n : Z) (l : list (list Z)) : list Z := fold_left xorl l (zeros n).

Lemma fold_xorl_length l : ∀ a, Forall (λ b, length b = length a) l → length (fold_left xorl l a) = length a.
Proof.
  induction l as [|b l IH]; intros a Hl; cbn [fold_left]; [done|]. apply Forall_cons in Hl as [Hb Hl].
  rewrite IH; [by apply length_xorl|]. by rewrite length_xorl.
Qed.

Lemma xorall_length n l : Forall (λ b, Z.of_nat (length b) = n) l → 0 <= n → Z.of_nat (length (xorall n l)) = n.
Proof.
  intros Hl Hn. unfold xorall. rewrite fold_xorl_length; [rewrite length_zeros; lia|].
  eapply Forall_impl; [exact Hl|]. intros b Hb. cbn in Hb. rewrite length_zeros. lia.
Qed.

Lemma xorall_snoc n l b : xorall n (l ++ [b]) = xorl (xorall n l) b.
Proof. unfold xorall. by rewrite fold_left_app. Qed.

Lemma fold_xorl_bytes l : ∀ a, Forall is_byte a → Forall (Forall is_byte) l → Forall is_byte (fold_left xorl l a).
Proof.
  induction l as [|b l IH]; intros a Ha Hl; cbn [fold_left]; [done|]. apply Forall_cons in Hl as [Hb Hl].
  apply IH; [by apply xorl_bytes|done].
Qed.

Lemma xorall_bytes n l : Forall (Forall is_byte) l → Forall is_byte (xorall n l).
Proof. apply fold_xorl_bytes, zeros_bytes. Qed.

Lemma fold_xorl_out l b : ∀ a, fold_left xorl l (xorl a b) = xorl (fold_left xorl l a) b.
Proof.
  induction l as [|c l IH]; intros a; cbn [fold_left]; [done|]. by rewrite xorl_assoc, (xorl_comm b c), <- xorl_assoc, IH.
Qed.

(** One line can be computed from the others. *)
Lemma xorall_missing n l1 b l2 :
  Forall (λ b, Z.of_nat (length b) = n) (l1 ++ b :: l2) → xorall n (l1 ++ b :: l2) = zeros n → xorall n (l1 ++ l2) = b.
Proof.
  intros Hl Hz. unfold xorall in *. rewrite fold_left_app in *. cbn [fold_left] in Hz. rewrite fold_xorl_out in Hz.
  apply Forall_app in Hl as [Hl1 Hl2]. apply Forall_cons in Hl2 as [Hb Hl2].
  assert (Hn : length (fold_left xorl l2 (fold_left xorl l1 (zeros n))) = length b).
  { rewrite <- fold_left_app, fold_xorl_length.
    - rewrite length_zeros. lia.
    - rewrite length_zeros. apply Forall_app. split; (eapply Forall_impl; [eassumption|]; intros; cbn in *; lia). }
  set (x := fold_left xorl l2 (fold_left xorl l1 (zeros n))) in *.
  apply (f_equal (λ y, xorl y b)) in Hz. rewrite xorl_assoc, xorl_self, xorl_zeros in Hz by done.
  rewrite xorl_comm, Hb, xorl_zeros in Hz by lia. done.
Qed.

(** ** Pieces of a file *)

Lemma fread_at A l R n : Z.of_nat (length l) = n →
  fread n (mkFile (A ++ l ++ R) (Z.of_nat (length A))) = (l, mkFile (A ++ l ++ R) (Z.of_nat (length (A ++ l)))).
Proof.
  intros <-. unfold fread. cbn [f_bytes f_pos]. rewrite !Nat2Z.id, drop_app_length, take_app_length.
  rewrite length_app. do 2 f_equal. lia.
Qed.

Lemma fwrite_end A l p : p = Z.of_nat (length A) → fwrite l (mkFile A p) = mkFile (A ++ l) (Z.of_nat (length (A ++ l))).
Proof.
  intros ->. unfold fwrite. cbn [f_bytes f_pos]. rewrite Nat2Z.id, resize_all, drop_ge, app_nil_r by lia.
  f_equal. rewrite length_app. lia.
Qed.

Lemma le_load_le32 v : 0 <= v < 2 ^ 32 → le_load (le32 v) = v.
Proof.
  intros Hv. unfold le32. cbn [le_load]. rewrite Z.shiftl_0_l, Z.lor_0_r.
  rewrite !(Z.lor_comm _ (Z.shiftl _ _)), !lor_shiftl_add by (apply Z.mod_pos_bound || idtac; lia).
  change (2 ^ 8) with 256. change (2 ^ 32) with 4294967296 in Hv. Z.div_mod_to_equations. lia.
Qed.

Lemma le_load_le16 v : 0 <= v < 2 ^ 16 → le_load (le16 v) = v.
Proof.
  intros Hv. unfold le16. cbn [le_load]. rewrite Z.shiftl_0_l, Z.lor_0_r.
  rewrite !(Z.lor_comm _ (Z.shiftl _ _)), !lor_shiftl_add by (apply Z.mod_pos_bound || idtac; lia).
  change (2 ^ 8) with 256. change (2 ^ 16) with 65536 in Hv. Z.div_mod_to_equations. lia.
Qed.

Lemma mod_byte v : is_byte (v mod 256).
Proof. unfold is_byte. apply Z.mod_pos_bound. lia. Qed.

Lemma le16_bytes v : Forall is_byte (le16 v).
Proof. unfold le16. rewrite !Forall_cons. split_and!; apply mod_byte || apply Forall_nil_2. Qed.

Lemma le32_bytes v : Forall is_byte (le32 v).
Proof. unfold le32. rewrite !Forall_cons. split_and!; apply mod_byte || apply Forall_nil_2. Qed.

(** Lines of one length, end to end. *)
Lemma concat_split {A} (l : list (list A)) w k b : Forall (λ b, length b = w) l → l !! k = Some b →
  concat l = concat (take k l) ++ b ++ concat (drop (S k) l) ∧ length (concat (take k l)) = (k * w)%nat.
Proof.
  intros Hl Hk. split.
  - rewrite <- (take_drop_middle l k b Hk) at 1. by rewrite concat_app.
  - revert k Hk. induction Hl as [|c l Hc Hl IH]; intros [|k] Hk; cbn; try done.
    rewrite length_app, IH by done. lia.
Qed.

Lemma list_split_len {A} (l : list A) n : (n <= length l)%nat → ∃ a b, l = a ++ b ∧ length a = n.
Proof. intros Hn. exists (take n l), (drop n l). rewrite take_drop, length_take. split; [done|lia]. Qed.

Lemma length_concat_same {A} (l : list (list A)) w : Forall (λ b, length b = w) l → length (concat l) = (length l * w)%nat.
Proof. induction 1 as [|c l Hc Hl IH]; cbn; [done|]. rewrite length_app, IH. lia. Qed.

(** ** The layout *)

(** [P] cut into pieces of [n] bytes and a shorter last one. *)
Fixpoint cut (fuel : nat) (n : Z) (P : list Z) : list (list Z) * list Z :=
  match fuel with
  | O => ([], P)
  | S fuel =>
      if Z.of_nat (length P) <? n then ([], P)
      else let '(Cs, L) := cut fuel n (drop (Z.to_nat n) P) in (take (Z.to_nat n) P :: Cs, L)
  end.

Lemma cut_spec fuel n : ∀ Cs P L, 0 < n → P = concat Cs ++ L → Forall (λ c, Z.of_nat (length c) = n) Cs →
  Z.of_nat (length L) < n → (length P <= fuel)%nat → cut fuel n P = (Cs, L).
Proof.
  induction fuel as [|fuel IH]; intros Cs P L Hn -> HC HL Hf; cbn [cut].
  - destruct Cs as [|c Cs]; [done|]. apply Forall_cons in HC as [Hc _]. cbn in Hf. rewrite !length_app in Hf. lia.
  - destruct HC as [|c Cs Hc HC]; cbn [concat app].
    + by destruct (Z.ltb_spec (Z.of_nat (length L)) n); [|lia].
    + cbn [concat] in Hf. rewrite !length_app in Hf. destruct (Z.ltb_spec (Z.of_nat (length ((c ++ concat Cs) ++ L))) n) as [Hlt|_].
      { rewrite !length_app in Hlt. lia. }
      rewrite <- app_assoc. replace (Z.to_nat n) with (length c) by lia. rewrite drop_app_length, take_app_length.
      rewrite (IH Cs _ L); [done|done|done|done|done|]. rewrite length_app. lia.
Qed.

Lemma cut_exists n (P : list Z) : 0 < n → ∃ Cs (L : list Z), P = concat Cs ++ L ∧ Forall (λ c, Z.of_nat (length c) = n) Cs ∧ Z.of_nat (length L) < n.
Proof.
  intros Hn. remember (length P) as m eqn:Hm. revert P Hm. induction (lt_wf m) as [m _ IH]. intros P ->.
  destruct (decide (Z.of_nat (length P) < n)) as [|Hge]; [exists [], P; by split_and!; [|constructor|]|].
  destruct (IH (length (drop (Z.to_nat n) P)) ltac:(rewrite length_drop; lia) _ eq_refl) as (Cs & L & HP & HC & HL).
  exists (take (Z.to_nat n) P :: Cs), L. split_and!; [|constructor; [rewrite length_take; lia|done]|done].
  cbn [concat]. by rewrite <- app_assoc, <- HP, take_drop.
Qed.

Section Layout.

Context (CRC : Z → list Z → Z) {crc_ok : Checksum CRC} (bits : Z).

Hypothesis Hbits : 6 <= bits <= 16.

(** The data bytes of a block after the first, and the size of a block. *)
Definition dsz : Z := 2 ^ bits - PER_BLK.

Definition bsz : Z := 2 ^ bits.

Lemma dsz_range : 58 <= dsz <= 65530.
Proof.
  unfold dsz, PER_BLK. pose proof (Z.pow_le_mono_r 2 6 bits). pose proof (Z.pow_le_mono_r 2 bits 16).
  change (2 ^ 6) with 64 in *. change (2 ^ 16) with 65536 in *. lia.
Qed.

(** The length field of a block that holds [c] of the header and the data. *)
Definition blen (k : nat) (c : list Z) : Z := Z.of_nat (length c) - (if (k =? 0)%nat then HDRSZ else 0).

(** A block up to its crc. *)
Definition body (k : nat) (c : list Z) : list Z := c ++ zeros (dsz - Z.of_nat (length c)) ++ le16 (blen k c).

Definition sealed (b : list Z) : list Z := b ++ le32 (CRC 0 b).

Definition pieces (data : list Z) : list (list Z) :=
  let P := header bits ++ data in let '(Cs, L) := cut (length P) dsz P in Cs ++ [L].

(** All blocks up to their crcs, the exclusive or last. *)
Definition bodies (data : list Z) : list (list Z) :=
  let l := imap body (pieces data) in l ++ [xorall (dsz + 2) l].

Definition image (data : list Z) : list Z := concat (map sealed (bodies data)).

Lemma length_header : length (header bits) = 8%nat.
Proof. reflexivity. Qed.

Lemma header_bytes : Forall is_byte (header bits).
Proof.
  unfold header. assert (H1 : bits / 100 = 0) by (apply Z.div_small; lia). rewrite H1.
  pose proof (Z.mod_pos_bound (bits / 10) 10). pose proof (Z.mod_pos_bound bits 10).
  rewrite !Forall_cons. unfold is_byte. split_and!; lia || apply Forall_nil_2.
Qed.

(** The pieces have the data. *)
Record cut_of (data : list Z) (Cs : list (list Z)) (L : list Z) : Prop := {
  co_eq : header bits ++ data = concat Cs ++ L;
  co_full : Forall (λ c, Z.of_nat (length c) = dsz) Cs;
  co_last : Z.of_nat (length L) < dsz;
  co_bytes : Forall is_byte data
}.

Lemma pieces_cut data Cs L : cut_of data Cs L → pieces data = Cs ++ [L].
Proof.
  intros [H1 H2 H3 _]. unfold pieces. rewrite (cut_spec _ dsz Cs _ L); [done|pose proof dsz_range; lia|done|done|done|done].
Qed.

Lemma cut_of_exists data : Forall is_byte data → ∃ Cs L, cut_of data Cs L.
Proof.
  intros Hb. destruct (cut_exists dsz (header bits ++ data)) as (Cs & L & H1 & H2 & H3); [pose proof dsz_range; lia|].
  exists Cs, L. by split.
Qed.

Lemma length_body k c : Z.of_nat (length c) <= dsz → Z.of_nat (length (body k c)) = dsz + 2.
Proof. intros Hc. unfold body. rewrite !length_app, length_zeros. cbn [length le16]. lia. Qed.

Lemma body_bytes k c : Forall is_byte c → Forall is_byte (body k c).
Proof. intros Hc. unfold body. rewrite !Forall_app. split_and!; [done|apply zeros_bytes|apply le16_bytes]. Qed.

Lemma cut_bytes data Cs L : cut_of data Cs L → Forall (Forall is_byte) Cs ∧ Forall is_byte L.
Proof.
  intros [H1 _ _ H4]. assert (H : Forall is_byte (concat Cs ++ L)) by (rewrite <- H1; apply Forall_app; split; [apply header_bytes|done]).
  apply Forall_app in H as [H ?]. split; [|done]. clear -H. induction Cs as [|c Cs IH]; [constructor|].
  cbn in H. apply Forall_app in H as [? ?]. constructor; auto.
Qed.

(** What is known of the blocks. *)
Lemma bodies_ok data : Forall is_byte data →
  Forall (λ b, Z.of_nat (length b) = dsz + 2 ∧ Forall is_byte b) (bodies data) ∧ xorall (dsz + 2) (bodies data) = zeros (dsz + 2).
Proof.
  intros Hb. destruct (cut_of_exists data Hb) as (Cs & L & Hc). destruct (cut_bytes _ _ _ Hc) as [HbC HbL].
  unfold bodies. rewrite (pieces_cut _ _ _ Hc). set (l := imap body (Cs ++ [L])).
  assert (Hl : Forall (λ b, Z.of_nat (length b) = dsz + 2 ∧ Forall is_byte b) l).
  { apply Forall_lookup. intros k b Hk. unfold l in Hk. rewrite list_lookup_imap in Hk.
    apply fmap_Some in Hk as (c & Hk & ->). apply list_elem_of_lookup_2, elem_of_app in Hk.
    destruct Hk as [Hin|Hin].
    - pose proof (co_full _ _ _ Hc) as Hf. rewrite Forall_forall in Hf, HbC. specialize (Hf c Hin).
      split; [apply length_body; lia|by apply body_bytes, HbC].
    - apply list_elem_of_singleton in Hin as ->. pose proof (co_last _ _ _ Hc). split; [apply length_body; lia|by apply body_bytes]. }
  assert (Hlen : Forall (λ b, Z.of_nat (length b) = dsz + 2) l) by (eapply Forall_impl; [exact Hl|]; by intros ? [? _]).
  assert (Hx : Z.of_nat (length (xorall (dsz + 2) l)) = dsz + 2) by (apply xorall_length; [done|pose proof dsz_range; lia]).
  split.
  - apply Forall_app. split; [done|]. apply Forall_singleton. split; [done|]. apply xorall_bytes.
    eapply Forall_impl; [exact Hl|]. by intros ? [_ ?].
  - rewrite xorall_snoc, xorl_self, Hx. done.
Qed.

Lemma length_sealed b : Z.of_nat (length b) = dsz + 2 → length (sealed b) = Z.to_nat bsz.
Proof. intros Hb. unfold sealed. rewrite length_app. cbn [length le32]. unfold dsz, bsz, PER_BLK in *. pose proof dsz_range as H. unfold dsz, PER_BLK in H. lia. Qed.

(** ** Writing *)

Definition bst (k : nat) : Z := if (k =? 0)%nat then 0 else Z.of_nat k * dsz - HDRSZ.

(** The state after the header and data [concat Cs ++ L] were written. *)
Record wrote (fc : fcrc) (Cs : list (list Z)) (L : list Z) : Prop := {
  wt_f : fc_f fc = let B := concat (map sealed (imap body Cs)) ++ L in mkFile B (Z.of_nat (length B));
  wt_offset : fc_offset fc = Z.of_nat (length (concat Cs ++ L)) - HDRSZ;
  wt_boff : fc_boff fc = bst (length Cs);
  wt_crc : fc_crc fc = CRC 0 L;
  wt_xor : fc_xor fc = Some (xorl (xorall (dsz + 2) (imap body Cs)) (L ++ zeros (dsz + 2 - Z.of_nat (length L))));
  wt_conf : fc_datasz fc = dsz ∧ fc_bits fc = bits ∧ fc_didseek fc = false ∧ fc_write fc = true;
  wt_full : Forall (λ c, Z.of_nat (length c) = dsz) Cs;
  wt_last : Z.of_nat (length L) < dsz;
  wt_hdr : Cs = [] → 8 <= Z.of_nat (length L);
  wt_part : fc_offset fc = 0 → fc_writepartial fc = true;
  wt_bytes : Forall (Forall is_byte) Cs ∧ Forall is_byte L
}.

Lemma xor_at_next X L l m : length X = (length L + Z.to_nat m)%nat → Z.of_nat (length l) <= m →
  xor_at (Some (xorl X (L ++ zeros m))) (Z.of_nat (length L)) l =
  Some (Some (xorl X ((L ++ l) ++ zeros (m - Z.of_nat (length l))))).
Proof.
  intros HX Hl. assert (Hlen : length (xorl X (L ++ zeros m)) = (length L + Z.to_nat m)%nat)
    by (rewrite length_xorl; [done|rewrite length_app, length_zeros; lia]).
  unfold xor_at. rewrite Hlen. destruct (Z.leb_spec 0 (Z.of_nat (length L))); [|lia].
  destruct (Z.leb_spec (Z.of_nat (length L) + Z.of_nat (length l)) (Z.of_nat (length L + Z.to_nat m))); [|lia].
  cbn [andb]. rewrite Nat2Z.id. do 2 f_equal.
  assert (Hz : zeros m = zeros (Z.of_nat (length l)) ++ zeros (m - Z.of_nat (length l))).
  { unfold zeros. rewrite <- replicate_add. f_equal. lia. }
  destruct (list_split_len X (length L)) as (X1 & X2 & -> & H1); [lia|].
  rewrite length_app in HX. destruct (list_split_len X2 (length l)) as (X3 & X4 & -> & H3); [lia|]. rewrite length_app in HX.
  rewrite Hz, <- app_assoc, !xorl_app by (rewrite ?length_zeros; lia).
  assert (Ha : length (xorl X1 L) = length L) by (rewrite length_xorl; lia).
  assert (Hb : length (xorl X3 (zeros (Z.of_nat (length l)))) = length l) by (rewrite length_xorl; rewrite ?length_zeros; lia).
  rewrite take_app_length' by done. rewrite drop_app_length' by done. f_equal.
  rewrite take_app_length' by done. rewrite (drop_app_ge _ _ (length L + length l)) by lia.
  replace (length L + length l - length (xorl X1 L))%nat with (length l) by lia. rewrite drop_app_length' by done. f_equal.
  change (xorl (xorl X3 (zeros (Z.of_nat (length l)))) l = xorl X3 l). by rewrite (xorl_comm X3), xorl_zeros by lia.
Qed.


Lemma length_xorall Cs : Forall (λ c, Z.of_nat (length c) = dsz) Cs → length (xorall (dsz + 2) (imap body Cs)) = Z.to_nat (dsz + 2).
Proof.
  intros HC. assert (H : Z.of_nat (length (xorall (dsz + 2) (imap body Cs))) = dsz + 2); [|lia].
  apply xorall_length; [|pose proof dsz_range; lia]. apply Forall_lookup. intros k b Hk. rewrite list_lookup_imap in Hk.
  apply fmap_Some in Hk as (c & Hk & ->). apply length_body. rewrite Forall_lookup in HC. specialize (HC k c Hk). cbn in HC. lia.
Qed.

Lemma wrote_place fc Cs L : wrote fc Cs L →
  fc_offset fc - fc_boff fc + (if (length Cs =? 0)%nat then HDRSZ else 0) = Z.of_nat (length L).
Proof.
  intros H. rewrite (wt_offset _ _ _ H), (wt_boff _ _ _ H), length_app, (length_concat_same Cs (Z.to_nat dsz)).
  - unfold bst. pose proof dsz_range. destruct Cs; cbn [length Nat.eqb]; lia.
  - eapply Forall_impl; [apply H|]. intros c Hc. cbn in Hc. lia.
Qed.

Lemma imap_body_snoc Cs c : imap body (Cs ++ [c]) = imap body Cs ++ [body (length Cs) c].
Proof. rewrite imap_app. cbn. by rewrite Nat.add_0_r. Qed.

Lemma crc_more L l : Forall is_byte L → Forall is_byte l → CRC (CRC 0 L) l = CRC 0 (L ++ l).
Proof. intros. apply crc_app; [lia|done|done]. Qed.

Lemma put_end fc l A : fc_f fc = mkFile A (Z.of_nat (length A)) →
  put l fc = set_f (mkFile (A ++ l) (Z.of_nat (length (A ++ l)))) fc.
Proof. intros H. unfold put. rewrite H, fwrite_end by done. done. Qed.

(** Data that does not fill the block. *)
Lemma write_part fc Cs L l x :
  wrote fc Cs L → Forall is_byte l → l ≠ [] → Z.of_nat (length (L ++ l)) < dsz →
  xor_at (fc_xor fc) (Z.of_nat (length L)) l = Some x →
  wrote (set_writepartial true (add_offset (Z.of_nat (length l)) (put l (set_xor x (set_crc (CRC (fc_crc fc) l) fc))))) Cs (L ++ l).
Proof.
  intros Hw Hl Hne Hlt Hx. destruct Hw as [W1 W2 W3 W4 W5 (W6 & W7 & W8 & W9) W10 W11 W12 W13 [W14 W15]].
  assert (Hlen : length l ≠ 0%nat) by (by destruct l). rewrite length_app in Hlt.
  rewrite (put_end _ _ (concat (map sealed (imap body Cs)) ++ L)) by done.
  split; cbn; try done.
  - by rewrite <- !app_assoc.
  - rewrite W2, !length_app. lia.
  - rewrite W4. by apply crc_more.
  - rewrite W5, xor_at_next in Hx; [|rewrite length_xorall by done; lia|lia]. injection Hx as <-.
    rewrite length_app. do 4 f_equal. lia.
  - rewrite length_app. lia.
  - intros HC. specialize (W12 HC). rewrite length_app. lia.
  - split; [done|]. by apply Forall_app.
Qed.

(** Data that fills the block. *)
Lemma write_full fc Cs L l x (bsize := dsz - (if (length Cs =? 0)%nat then HDRSZ else 0)) :
  wrote fc Cs L → Forall is_byte l → Z.of_nat (length (L ++ l)) = dsz → 
  xor_at (fc_xor fc) (Z.of_nat (length L)) l = Some x →
  ∃ fc', end_block CRC bsize dsz (add_offset (Z.of_nat (length l)) (put l (set_xor x (set_crc (CRC (fc_crc fc) l) fc)))) = Some fc' ∧
    wrote fc' (Cs ++ [L ++ l]) [].
Proof.
  intros Hw Hl Hlen Hx. pose proof (wrote_place _ _ _ Hw) as Hpl. pose proof dsz_range as HD.
  destruct Hw as [W1 W2 W3 W4 W5 (W6 & W7 & W8 & W9) W10 W11 W12 W13 [W14 W15]]. rewrite length_app in Hlen.
  pose proof (length_xorall Cs W10) as HX.
  rewrite W5, xor_at_next in Hx; [|lia|lia]. injection Hx as <-.
  rewrite (put_end _ _ (concat (map sealed (imap body Cs)) ++ L)) by done.
  assert (Hbs : fc_boff fc + bsize = bst (S (length Cs))).
  { unfold bsize, bst. rewrite W3. unfold bst. destruct Cs; cbn [length Nat.eqb]; lia. }
  assert (Hoff : fc_offset fc + Z.of_nat (length l) = fc_boff fc + bsize) by (unfold bsize; lia).
  unfold end_block. cbn [fc_offset fc_boff fc_crc fc_xor set_boff set_f add_offset set_offset set_xor set_crc].
  rewrite Hoff, Z.eqb_refl. rewrite W4, crc_more by done.
  assert (Hbody : body (length Cs) (L ++ l) = (L ++ l) ++ le16 bsize).
  { unfold body. rewrite length_app. replace (dsz - Z.of_nat (length L + length l)) with 0 by lia. change (zeros 0) with (@nil Z).
    cbn [app]. replace (blen (length Cs) (L ++ l)) with bsize; [done|]. unfold blen, bsize. rewrite length_app. lia. }
  replace (dsz + 2 - Z.of_nat (length L) - Z.of_nat (length l)) with 2 by lia.
  assert (HxA : xor_at (Some (xorl (xorall (dsz + 2) (imap body Cs)) ((L ++ l) ++ zeros 2))) dsz (le16 bsize) =
    Some (Some (xorl (xorall (dsz + 2) (imap body Cs)) (((L ++ l) ++ le16 bsize) ++ zeros 0)))).
  { replace dsz with (Z.of_nat (length (L ++ l))) at 2 by (rewrite length_app; lia).
    rewrite xor_at_next; [done|rewrite length_app; lia|cbn; lia]. }
  rewrite HxA. rewrite app_nil_r, <- Hbody.
  match goal with |- context [put (le16 bsize) ?f] => rewrite (put_end f _ ((concat (map sealed (imap body Cs)) ++ L) ++ l)) by done end.
  match goal with |- context [put (le32 ?c) ?f] => rewrite (put_end f _ (((concat (map sealed (imap body Cs)) ++ L) ++ l) ++ le16 bsize)) by done end.
  unfold XORSZ. cbn. rewrite W6, Z.eqb_refl. eexists. split; [done|].
  rewrite (crc_more (L ++ l) (le16 bsize)), <- Hbody by (apply le16_bytes || by apply Forall_app).
  assert (HB : (((concat (map sealed (imap body Cs)) ++ L) ++ l) ++ le16 bsize) ++ le32 (CRC 0 (body (length Cs) (L ++ l))) =
    concat (map sealed (imap body (Cs ++ [L ++ l]))) ++ []).
  { rewrite imap_body_snoc, map_app, concat_app. cbn [map concat]. rewrite !app_nil_r. unfold sealed at 3. rewrite Hbody at 2.
    by rewrite <- !app_assoc. }
  split; [cbn [fc_f set_writepartial set_crc set_f]; cbv zeta; by rewrite HB|cbn; try done..].
  - rewrite W2, app_nil_r, concat_app, !length_app. cbn [concat length]. rewrite app_nil_r, !length_app. lia.
  - rewrite length_app, Nat.add_1_r. lia.
  - symmetry. by apply crc_nil.
  - rewrite imap_body_snoc, xorall_snoc. f_equal. cbn [length app]. rewrite Z.sub_0_r. rewrite (xorl_comm _ (zeros _)), xorl_zeros; [done|].
    rewrite length_xorl; [lia|]. pose proof (length_body (length Cs) (L ++ l)) as Hb. rewrite length_app in Hb. rewrite HX. lia.
  - apply Forall_app. split; [done|]. apply Forall_singleton. rewrite length_app. lia.
  - lia.
  - intros HC. by destruct Cs.
  - intros H0. rewrite Hbs in Hoff. unfold bst in Hoff. cbn [Nat.eqb] in Hoff. unfold HDRSZ in *. nia.
  - split; [|constructor]. apply Forall_app. split; [done|]. apply Forall_singleton. by apply Forall_app.
Qed.

Lemma write_loop_ok fuel : ∀ fc Cs L buf,
  wrote fc Cs L → Forall is_byte buf → (length buf <= fuel)%nat →
  ∃ fc' Cs' L', write_loop CRC fuel fc buf (dsz - (if (length Cs =? 0)%nat then HDRSZ else 0)) (Z.of_nat (length L)) = Some fc' ∧
    wrote fc' Cs' L' ∧ concat Cs' ++ L' = concat Cs ++ L ++ buf.
Proof.
  induction fuel as [|fuel IH]; intros fc Cs L buf Hw Hb Hf.
  { destruct buf; [|cbn in Hf; lia]. exists fc, Cs, L. by rewrite app_nil_r. }
  destruct buf as [|b0 buf0]; [exists fc, Cs, L; by rewrite app_nil_r|]. set (buf := b0 :: buf0) in *.
  assert (Hne : buf ≠ []) by done. assert (Hpos : (0 < length buf)%nat) by (cbn; lia). clearbody buf.
  cbn [write_loop]. pose proof (wrote_place _ _ _ Hw) as Hpl. pose proof (wt_last _ _ _ Hw) as Hlast. pose proof dsz_range as HD.
  set (bsize := dsz - _) in *. replace (match buf with [] => Some fc | _ :: _ => _ end) with
    (let n := Z.min (Z.of_nat (length buf)) (bsize - (fc_offset fc - fc_boff fc)) in
     let l := take (Z.to_nat n) buf in
     let fc := set_crc (CRC (fc_crc fc) l) fc in
     let? x := xor_at (fc_xor fc) (Z.of_nat (length L)) l in
     let fc := add_offset n (put l (set_xor x fc)) in
     if bsize <=? fc_offset fc - fc_boff fc then
       let? fc := end_block CRC bsize (Z.of_nat (length L) + n) fc in
       write_loop CRC fuel fc (drop (Z.to_nat n) buf) (fc_datasz fc) 0
     else write_loop CRC fuel (set_writepartial true fc) (drop (Z.to_nat n) buf) bsize (Z.of_nat (length L) + n))
    by (by destruct buf).
  cbv zeta. set (n := Z.min _ _). set (l := take (Z.to_nat n) buf).
  assert (Hn : n = Z.of_nat (length l)) by (unfold l; rewrite length_take; unfold n, bsize; lia).
  assert (Hl : Forall is_byte l) by by apply Forall_take.
  assert (Hbuf : buf = l ++ drop (Z.to_nat n) buf) by (unfold l; by rewrite take_drop).
  assert (Hdrop : (length (drop (Z.to_nat n) buf) <= fuel)%nat) by (rewrite length_drop; unfold n, bsize; lia).
  assert (Hbd : Forall is_byte (drop (Z.to_nat n) buf)) by by apply Forall_drop.
  rewrite Hn. change (fc_xor (set_crc _ fc)) with (fc_xor fc).
  destruct (xor_at (fc_xor fc) (Z.of_nat (length L)) l) as [x|] eqn:Hx.
  2: { rewrite (wt_xor _ _ _ Hw), xor_at_next in Hx; [done| |].
       - rewrite length_xorall by apply Hw. lia.
       - unfold n, bsize in Hn. lia. }
  change (fc_offset (add_offset (Z.of_nat (length l)) _)) with (fc_offset fc + Z.of_nat (length l)).
  change (fc_boff (add_offset (Z.of_nat (length l)) _)) with (fc_boff fc).
  rewrite <- Hn. destruct (Z.leb_spec bsize (fc_offset fc + n - fc_boff fc)) as [Hge|Hlt].
  - replace (Z.of_nat (length L) + n) with dsz by (unfold n, bsize in *; lia). rewrite Hn.
    destruct (write_full fc Cs L l x Hw Hl) as (fc' & Hend & Hw'); [rewrite length_app; unfold n, bsize in *; lia|done|].
    fold bsize in Hend. rewrite Hend.
    destruct (IH fc' (Cs ++ [L ++ l]) [] (drop (Z.to_nat n) buf) Hw' Hbd Hdrop) as (fc2 & Cs2 & L2 & Hrun & Hw2 & Hcat).
    rewrite length_app, Nat.add_1_r in Hrun. cbn [Nat.eqb length] in Hrun. rewrite Z.sub_0_r in Hrun.
    destruct (wt_conf _ _ _ Hw') as [-> _]. rewrite <- Hn. exists fc2, Cs2, L2. split_and!; [done|done|].
    rewrite Hcat, concat_app. cbn [concat app]. rewrite app_nil_r. rewrite Hbuf at 2. by rewrite <- !app_assoc.
  - pose proof (write_part fc Cs L l x Hw Hl) as Hw'. rewrite <- Hn in Hw'.
    destruct (IH _ Cs (L ++ l) (drop (Z.to_nat n) buf) (Hw' ltac:(intros E; rewrite E in Hn; cbn in Hn; unfold n, bsize in *; lia)
      ltac:(rewrite length_app; unfold n, bsize in *; lia) Hx) Hbd Hdrop) as (fc2 & Cs2 & L2 & Hrun & Hw2 & Hcat).
    rewrite length_app in Hrun. fold bsize in Hrun. replace (Z.of_nat (length L) + n) with (Z.of_nat (length L + length l)) by lia.
    exists fc2, Cs2, L2. split_and!; [done|done|]. rewrite Hcat. rewrite Hbuf at 2. by rewrite <- !app_assoc.
Qed.

Lemma bst_0 n : (bst n =? 0) = (n =? 0)%nat.
Proof.
  unfold bst. destruct n as [|n]; [done|]. cbn [Nat.eqb]. apply Z.eqb_neq. pose proof dsz_range. unfold HDRSZ. nia.
Qed.

Lemma seekBlock_same fc : fc_boff fc = fc_offset fc → seekBlock fc = fc.
Proof. intros H. unfold seekBlock. by rewrite H, Z.eqb_refl. Qed.

Lemma write_data_ok fc Cs L buf : wrote fc Cs L → Forall is_byte buf →
  ∃ fc' Cs' L', write_data CRC fc buf = Some fc' ∧ wrote fc' Cs' L' ∧ concat Cs' ++ L' = concat Cs ++ L ++ buf.
Proof.
  intros Hw Hb. unfold write_data. set (fc1 := set_didwrite true fc).
  assert (Hw1 : wrote fc1 Cs L) by (by destruct Hw). pose proof (wrote_place _ _ _ Hw1) as Hpl.
  destruct ((fc_offset fc1 =? 0) && negb (fc_writepartial fc1)) eqn:E.
  { apply andb_prop in E as [E1 E2]. boolify. rewrite (wt_part _ _ _ Hw1 E1) in E2. done. }
  rewrite (wt_boff _ _ _ Hw1) in *. rewrite bst_0. destruct (wt_conf _ _ _ Hw1) as (Hd & _). rewrite Hd.
  destruct (write_loop_ok (length buf) fc1 Cs L buf Hw1 Hb ltac:(lia)) as (fc' & Cs' & L' & Hrun & ? & ?).
  exists fc', Cs', L'. split_and!; [|done|done]. rewrite <- Hpl in Hrun. destruct (length Cs =? 0)%nat; [done|].
  by rewrite Z.sub_0_r, Z.add_0_r in Hrun.
Qed.

(** A handle just opened for writing an empty file. *)
Record fresh (fc : fcrc) : Prop := {
  fr_f : fc_f fc = mkFile [] 0;
  fr_zero : fc_offset fc = 0 ∧ fc_boff fc = 0 ∧ fc_crc fc = 0 ∧ fc_xor fc = None;
  fr_flags : fc_didseek fc = true ∧ fc_write fc = true ∧ fc_read fc = false ∧ fc_didwrite fc = false ∧ fc_writepartial fc = false;
  fr_conf : fc_datasz fc = dsz ∧ fc_bits fc = bits
}.

Lemma crcWrite_fresh fc buf : fresh fc → Forall is_byte buf →
  ∃ fc' Cs L, crcWrite CRC fc buf = Some (fc', Z.of_nat (length buf)) ∧ wrote fc' Cs L ∧ concat Cs ++ L = header bits ++ buf.
Proof.
  intros [F1 (F2 & F3 & F4 & F5) (F6 & F7 & F8 & F9 & F10) (F11 & F12)] Hb. pose proof dsz_range as HD.
  set (fc1 := set_xor (Some (zeros (dsz + 2))) (set_doXor false (set_didseek false fc))).
  assert (Hseek : writeAfterSeek CRC fc = Some (fc1, 0)).
  { unfold writeAfterSeek. rewrite F9. cbn [negb]. change (fc_xor (set_doXor _ _)) with (fc_xor fc). rewrite F5.
    unfold XORSZ. change (fc_datasz (set_doXor _ _)) with (fc_datasz fc). rewrite F11. fold (zeros (dsz + 2)). fold fc1.
    rewrite seekBlock_same by (cbn; congruence). cbn. by rewrite F8, F2, F3. }
  unfold crcWrite. rewrite F6, Hseek. cbn [Z.ltb Z.compare]. unfold write_data.
  replace ((fc_offset (set_didwrite true fc1) =? 0) && _) with true by (cbn; by rewrite F2, F10).
  cbn [fc_bits set_didwrite set_xor set_doXor set_didseek fc1]. rewrite F12.
  destruct (Z.ltb_spec bits 1000) as [_|]; [|lia].
  assert (Hx : xor_at (Some (zeros (dsz + 2))) 0 (header bits) = Some (Some (header bits ++ zeros (dsz + 2 - 8)))).
  { pose proof (xor_at_next (zeros (dsz + 2)) [] (header bits) (dsz + 2)) as H. cbn [app length Z.of_nat] in H.
    rewrite !xorl_zeros in H by (rewrite ?length_app, ?length_zeros; cbn; lia). apply H; [rewrite length_zeros; lia|cbn; lia]. }
  match goal with |- context [put (header bits) ?f] => rewrite (put_end f _ []) by done end.
  change (fc_xor (set_f _ _)) with (Some (zeros (dsz + 2))). rewrite Hx.
  match goal with |- context [write_loop CRC _ ?f buf _ _] => assert (Hw : wrote f [] (header bits)) end.
  { split; cbn; try done.
    - by rewrite F4.
    - symmetry. f_equal. apply (xorl_zeros (dsz + 2)). cbn [length]. rewrite length_zeros. lia.
    - lia.
    - split; [constructor|apply header_bytes]. }
  replace (fc_boff (set_writepartial _ _)) with 0 by done. replace (fc_offset (set_writepartial _ _)) with 0 by done.
  replace (fc_datasz (set_writepartial _ _)) with dsz by done. cbn [Z.eqb].
  destruct (write_loop_ok (length buf) _ [] (header bits) buf Hw Hb ltac:(lia)) as (fc' & Cs' & L' & Hrun & Hw' & Hcat).
  exists fc', Cs', L'. split_and!; [|done|done]. cbn [length Nat.eqb] in Hrun. change (0 - 0 + HDRSZ) with (Z.of_nat (length (header bits))).
  by rewrite Hrun.
Qed.

Lemma crcWrite_more fc Cs L buf : wrote fc Cs L → Forall is_byte buf →
  ∃ fc' Cs' L', crcWrite CRC fc buf = Some (fc', Z.of_nat (length buf)) ∧ wrote fc' Cs' L' ∧ concat Cs' ++ L' = concat Cs ++ L ++ buf.
Proof.
  intros Hw Hb. unfold crcWrite. destruct (wt_conf _ _ _ Hw) as (_ & _ & -> & _). cbn [Z.ltb Z.compare].
  destruct (write_data_ok fc Cs L buf Hw Hb) as (fc' & Cs' & L' & -> & ? & ?). by exists fc', Cs', L'.
Qed.

(** The state that [crcClose] finishes. *)
Lemma crcWrite_nil fc Cs L : wrote fc Cs L → ∃ fc', crcWrite CRC fc [] = Some (fc', 0) ∧ wrote fc' Cs L.
Proof.
  intros Hw. unfold crcWrite. destruct (wt_conf _ _ _ Hw) as (_ & _ & -> & _). cbn [Z.ltb Z.compare].
  unfold write_data. set (fc1 := set_didwrite true fc). assert (Hw1 : wrote fc1 Cs L) by (by destruct Hw).
  destruct ((fc_offset fc1 =? 0) && negb (fc_writepartial fc1)) eqn:E.
  { apply andb_prop in E as [E1 E2]. boolify. rewrite (wt_part _ _ _ Hw1 E1) in E2. done. }
  cbn [write_loop length]. by exists fc1.
Qed.

Lemma crcClose_ok fc fc1 n Cs L xo data : fc_write fc = true → crcWrite CRC fc [] = Some (fc1, n) → wrote fc1 Cs L →
  header bits ++ data = concat Cs ++ L → Forall is_byte data →
  ∃ p, crcClose CRC false xo fc = Some (mkFile (image data) p, 0).
Proof.
  intros Hwr Hrun Hw1 Heq Hb. pose proof dsz_range as HD. assert (Hcut : cut_of data Cs L) by (split; [done|apply Hw1..|done]).
  unfold crcClose. rewrite Hwr, Hrun. clear Hrun Hwr. pose proof (wrote_place _ _ _ Hw1) as Hpl.
  destruct Hw1 as [W1 W2 W3 W4 W5 (W6 & W7 & W8 & W9) W10 W11 W12 W13 [W14 W15]].
  pose proof (length_xorall Cs W10) as HX. rewrite W3 in *. rewrite bst_0. set (k := length Cs) in *.
  set (len := fc_offset fc1 - bst k) in *.
  assert (Hlen : len = blen k L) by (unfold blen; lia).
  replace (fc_datasz fc1 - len - (if (k =? 0)%nat then HDRSZ else 0)) with (dsz - Z.of_nat (length L)) by (rewrite W6; lia).
  fold (zeros (dsz - Z.of_nat (length L))). set (z := zeros (dsz - Z.of_nat (length L))).
  assert (Hz : length z = Z.to_nat (dsz - Z.of_nat (length L))) by apply length_zeros.
  rewrite (put_end fc1 _ (concat (map sealed (imap body Cs)) ++ L)) by done.
  change (fc_xor (set_f _ fc1)) with (fc_xor fc1). rewrite W5. change (fc_datasz (set_f _ fc1)) with (fc_datasz fc1). rewrite W6.
  assert (Hbody : (L ++ z) ++ le16 len = body k L) by (unfold body; by rewrite <- app_assoc, Hlen).
  assert (Hx : xor_at (Some (xorl (xorall (dsz + 2) (imap body Cs)) (L ++ zeros (dsz + 2 - Z.of_nat (length L))))) dsz (le16 len) =
    Some (Some (xorall (dsz + 2) (imap body (Cs ++ [L]))))).
  { replace (zeros (dsz + 2 - Z.of_nat (length L))) with (z ++ zeros 2).
    2: { unfold z, zeros. rewrite <- replicate_add. f_equal. lia. }
    rewrite app_assoc. replace dsz with (Z.of_nat (length (L ++ z))) at 2 by (rewrite length_app; lia).
    rewrite xor_at_next; [|rewrite length_app; lia|cbn; lia]. change (zeros (2 - _)) with (@nil Z).
    by rewrite app_nil_r, Hbody, imap_body_snoc, xorall_snoc. }
  rewrite Hx, W4.
  match goal with |- context [put (le16 len) ?f] => rewrite (put_end f _ ((concat (map sealed (imap body Cs)) ++ L) ++ z)) by done end.
  match goal with |- context [put (le32 ?c) ?f] => rewrite (put_end f _ (((concat (map sealed (imap body Cs)) ++ L) ++ z) ++ le16 len)) by done end.
  unfold corruptXor. change (fc_xor (set_f _ _)) with (Some (xorall (dsz + 2) (imap body (Cs ++ [L])))).
  set (x := xorall (dsz + 2) (imap body (Cs ++ [L]))).
  assert (Hz1 : Forall is_byte z) by apply zeros_bytes.
  rewrite (crc_more L z), (crc_more (L ++ z) (le16 len)), Hbody by (done || apply le16_bytes || by apply Forall_app).
  match goal with |- context [put x ?f] => rewrite (put_end f _ ((((concat (map sealed (imap body Cs)) ++ L) ++ z) ++ le16 len) ++
    le32 (CRC 0 (body k L)))) by done end.
  match goal with |- context [put (le32 (CRC 0 x)) ?f] => rewrite (put_end f _ (((((concat (map sealed (imap body Cs)) ++ L) ++ z) ++
    le16 len) ++ le32 (CRC 0 (body k L))) ++ x)) by done end.
  eexists. change (fc_f (set_f ?a _)) with a.
  assert (Him : image data = (((((concat (map sealed (imap body Cs)) ++ L) ++ z) ++ le16 len) ++ le32 (CRC 0 (body k L))) ++ x) ++ le32 (CRC 0 x)).
  { unfold image, bodies. rewrite (pieces_cut _ _ _ Hcut). fold x. rewrite imap_body_snoc, !map_app, !concat_app.
    cbn [map concat]. rewrite !app_nil_r. unfold sealed at 2 3. fold k. rewrite <- Hbody at 1. by rewrite <- !app_assoc. }
  by rewrite Him.
Qed.

(** What has been written so far, before the first write or after. *)
Definition writing (fc : fcrc) (data : list Z) : Prop :=
  Forall is_byte data ∧
  ((data = [] ∧ fresh fc) ∨ ∃ Cs L, wrote fc Cs L ∧ header bits ++ data = concat Cs ++ L).

Lemma crcWrite_writing fc data buf : writing fc data → Forall is_byte buf →
  ∃ fc', crcWrite CRC fc buf = Some (fc', Z.of_nat (length buf)) ∧ writing fc' (data ++ buf).
Proof.
  intros [Hd [[-> Hf]|(Cs & L & Hw & Heq)]] Hb.
  - destruct (crcWrite_fresh fc buf Hf Hb) as (fc' & Cs & L & -> & Hw & Heq). exists fc'. split; [done|]. split; [done|].
    right. by exists Cs, L.
  - destruct (crcWrite_more fc Cs L buf Hw Hb) as (fc' & Cs' & L' & -> & Hw' & Heq'). exists fc'. split; [done|].
    split; [by apply Forall_app|]. right. exists Cs', L'. split; [done|]. by rewrite Heq', app_assoc, Heq, app_assoc.
Qed.

Lemma crcClose_writing fc data xo : writing fc data → ∃ p, crcClose CRC false xo fc = Some (mkFile (image data) p, 0).
Proof.
  intros [Hd [[-> Hf]|(Cs & L & Hw & Heq)]].
  - destruct (crcWrite_fresh fc [] Hf ltac:(constructor)) as (fc1 & Cs & L & Hrun & Hw & Heq).
    eapply crcClose_ok; [apply Hf|done|done|done|done].
  - destruct (crcWrite_nil fc Cs L Hw) as (fc1 & Hrun & Hw1). eapply crcClose_ok; [apply Hw|done|done|done|done].
Qed.

Lemma fold_writing chunks : ∀ fc data, writing fc data → Forall (Forall is_byte) chunks →
  ∃ fc', fold_left (λ fc buf, let? fc := fc in let? (fc, rc) := crcWrite CRC fc buf in Some fc) chunks (Some fc) = Some fc' ∧
    writing fc' (data ++ concat chunks).
Proof.
  induction chunks as [|buf chunks IH]; intros fc data Hw Hc; cbn [fold_left concat].
  - exists fc. by rewrite app_nil_r.
  - apply Forall_cons in Hc as [Hb Hc]. destruct (crcWrite_writing fc data buf Hw Hb) as (fc1 & -> & Hw1).
    rewrite app_assoc. by apply IH.
Qed.

End Layout.

(** ** Opening *)

Lemma datasz_loop_range est n : ∀ bits best bestsz, 6 <= bits → bits + Z.of_nat n <= 17 → best = 0 ∨ 6 <= best <= 16 →
  (0 < n)%nat ∨ best ≠ 0 → 6 <= datasz_loop est n bits best bestsz <= 16.
Proof.
  induction n as [|n IH]; intros bits best bestsz H1 H2 H3 H4; cbn [datasz_loop]; [lia|].
  destruct (Z.eqb_spec best 0); cbn [orb]; [apply IH; lia|]. case_if; apply IH; lia.
Qed.

Lemma best_datasz_range est : 6 <= best_datasz est <= 16.
Proof. apply datasz_loop_range; lia. Qed.

Lemma datasz_of bits : 6 <= bits <= 16 → u8 bits = bits ∧ u32 (Z.shiftl 1 bits - PER_BLK) = dsz bits.
Proof.
  intros Hb. split; [apply Z.mod_small; lia|]. rewrite Z.shiftl_1_l. pose proof (dsz_range bits Hb) as H. unfold dsz in *.
  apply u32_small. lia.
Qed.

Section Session.

Context (CRC : Z → list Z → Z) {crc_ok : Checksum CRC}.

Lemma fopen_w est : ∃ fc, fopen_crc (mkFile [] 0) M_W est false = Some (Some fc) ∧ fresh (best_datasz est) fc.
Proof.
  pose proof (best_datasz_range est) as Hb. unfold fopen_crc. destruct (datasz_of _ Hb) as [-> ->].
  pose proof (dsz_range _ Hb). destruct (Z.ltb_spec (best_datasz est) 31); [|lia].
  destruct (Z.ltb_spec (dsz (best_datasz est)) 65536); [|lia]. eexists. split; [done|]. by split.
Qed.

Lemma write_session_ok est chunks : Forall (Forall is_byte) chunks →
  ∃ p, write_session CRC est chunks = Some (mkFile (image CRC (best_datasz est) (concat chunks)) p, 0).
Proof.
  intros Hc. pose proof (best_datasz_range est) as Hb. destruct (fopen_w est) as (fc & Hopen & Hf). unfold write_session. rewrite Hopen.
  destruct (fold_writing CRC _ Hb chunks fc []) as (fc' & -> & Hw); [split; [constructor|by left]|done|].
  by apply crcClose_writing.
Qed.

End Session.
