(* ===== verification/FopenCrcRead.v ===== *)
(** * FopenCrcRead: reading through the checksum layer

    Proofs that [crcRead] and [crcSeek] on a file with the layout of
    FopenCrcOk.v behave as reads and seeks on the data itself, and that a damaged
    block is noticed and located. *)

From S2P Require Import Prelude CStr Crc FopenCrc FopenCrcOk.
From stdpp Require Import base numbers list.
From Stdlib Require Import ZArith Lia.

Local Open Scope Z_scope.

Local Open Scope bk_scope.

Lemma concat_piece {A} (Cs : list (list A)) L w k c : Forall (λ c, length c = w) Cs → (Cs ++ [L]) !! k = Some c →
  take (length c) (drop (k * w) (concat (Cs ++ [L]))) = c.
Proof.
  intros HC. revert k. induction HC as [|c0 Cs Hc HC IH]; intros [|k] Hk; cbn in Hk; try done.
  - injection Hk as <-. cbn. by rewrite app_nil_r, drop_0, take_ge by lia.
  - injection Hk as <-. cbn. by rewrite drop_0, take_app_length.
  - cbn [app concat]. rewrite <- (IH k Hk) at 2. replace (S k * w)%nat with (length c0 + k * w)%nat by lia.
    by rewrite <- drop_drop, drop_app_length.
Qed.

Lemma fread_part B A l R p n : B = A ++ l ++ R → p = Z.of_nat (length A) → n = Z.of_nat (length l) →
  fread n (mkFile B p) = (l, mkFile B (p + n)).
Proof. intros -> -> ->. rewrite fread_at by done. rewrite length_app. do 2 f_equal. lia. Qed.

Lemma scan_hdr_header bits R : 6 <= bits <= 16 → scan_hdr (header bits ++ R) = Some (99, bits).
Proof.
  intros Hb. assert (Hc : bits = 6 ∨ bits = 7 ∨ bits = 8 ∨ bits = 9 ∨ bits = 10 ∨ bits = 11 ∨ bits = 12 ∨ bits = 13 ∨
    bits = 14 ∨ bits = 15 ∨ bits = 16) by lia.
  repeat (destruct Hc as [->|Hc]; [reflexivity|]). subst. reflexivity.
Qed.

Lemma list_inserts_over {A} (a m m0 r : list A) : length m0 = length m → list_inserts (length a) m (a ++ m0 ++ r) = a ++ m ++ r.
Proof.
  intros Hl. rewrite list_inserts_app by (rewrite !length_app; lia).
  rewrite take_app_length. replace (length a + length m)%nat with (length (a ++ m0)) by (rewrite length_app; lia).
  by rewrite (app_assoc a m0 r), drop_app_length.
Qed.

Section Reading.

Context (CRC : Z → list Z → Z) {crc_ok : Checksum CRC} (bits : Z).

Hypothesis Hbits : 6 <= bits <= 16.

Context (data : list Z).

Hypothesis Hdata : Forall is_byte data.

Abbreviation D := (dsz bits).
Abbreviation W := (bsz bits).
Abbreviation bs := (bst bits).
Abbreviation Bo := (bodies bits data).
Abbreviation img := (image CRC bits data).

(** The number of blocks with data. *)
Definition np : nat := length (pieces bits data).

(** The bytes of block [k] and where they are in the data. *)
Definition bl (k : nat) : Z := match pieces bits data !! k with Some c => blen k c | None => 0 end.

Definition slice (at_ n : Z) : list Z := take (Z.to_nat n) (drop (Z.to_nat at_) data).

Definition dlen : Z := Z.of_nat (length data).

(** The size of the data field. *)
Definition fld (k : nat) : Z := D - (if (k =? 0)%nat then HDRSZ else 0).

Lemma W_D : W = D + 6.
Proof. unfold bsz, dsz, PER_BLK. lia. Qed.

Lemma bst_S k : bs (S k) = bs k + fld k.
Proof. unfold bst, fld. destruct k; cbn [Nat.eqb]; lia. Qed.

Lemma bst_mono i j : (i < j)%nat → bs i < bs j.
Proof.
  intros Hij. pose proof (dsz_range bits Hbits). unfold bst, HDRSZ. destruct i, j; cbn [Nat.eqb]; nia.
Qed.

Lemma bst_nonneg k : 0 <= bs k.
Proof. pose proof (dsz_range bits Hbits). unfold bst, HDRSZ. destruct k; cbn [Nat.eqb]; nia. Qed.

(** Everything about the blocks of data. *)
Lemma data_blocks : (0 < np)%nat ∧ length Bo = S np ∧ dlen = bs (np - 1) + bl (np - 1) ∧
  (∀ k, (k < np)%nat → ∃ c, pieces bits data !! k = Some c ∧ Bo !! k = Some (body bits k c) ∧
     Z.of_nat (length c) <= D ∧ drop (Z.to_nat (D - fld k)) c = slice (bs k) (bl k) ∧
     Z.of_nat (length (slice (bs k) (bl k))) = bl k ∧
     (if (k =? np - 1)%nat then 0 <= bl k < fld k else bl k = fld k)).
Proof.
  destruct (cut_of_exists bits Hbits data Hdata) as (Cs & L & Hc). pose proof (dsz_range bits Hbits) as HD.
  pose proof (pieces_cut bits Hbits data Cs L Hc) as Hp. pose proof Hc as [C1 C2 C3 _].
  assert (Hnp : np = S (length Cs)) by (unfold np; rewrite Hp, length_app; cbn; lia).
  assert (HW : Forall (λ c, length c = Z.to_nat D) Cs) by (eapply Forall_impl; [exact C2|]; intros c H; cbn in H; lia).
  assert (Hlen : Z.of_nat (length data) + 8 = Z.of_nat (length Cs) * D + Z.of_nat (length L)).
  { pose proof (f_equal length C1) as H. rewrite !length_app, (length_concat_same _ _ HW) in H. cbn [length header] in H. lia. }
  assert (Hc0 : concat (Cs ++ [L]) = header bits ++ data) by (rewrite concat_app; cbn; by rewrite app_nil_r).
  assert (Hlast : ∀ k c, (Cs ++ [L]) !! k = Some c →
     if (k =? length Cs)%nat then c = L else Z.of_nat (length c) = D ∧ (k < length Cs)%nat).
  { intros k c Hk. destruct (Nat.eqb_spec k (length Cs)) as [->|Hne].
    - rewrite lookup_app_r, Nat.sub_diag in Hk by lia. by injection Hk.
    - pose proof (lookup_lt_Some _ _ _ Hk) as Hlt. rewrite length_app in Hlt. cbn in Hlt.
      rewrite lookup_app_l in Hk by lia. rewrite Forall_lookup in C2. split; [by apply (C2 k)|lia]. }
  split_and!.
  - lia.
  - unfold bodies. rewrite length_app, length_imap, Hp, length_app. cbn. lia.
  - unfold bl, dlen. rewrite Hnp, Hp. cbn [Nat.sub]. rewrite Nat.sub_0_r, lookup_app_r, Nat.sub_diag by lia. cbn.
    unfold blen, bst, HDRSZ. destruct Cs; cbn [length Nat.eqb] in *; lia.
  - intros k Hk. destruct (lookup_lt_is_Some_2 (Cs ++ [L]) k) as [c Hck]; [rewrite length_app; cbn; lia|].
    exists c. unfold bl. rewrite Hp, Hck. split; [done|]. pose proof (Hlast k c Hck) as Hl.
    pose proof (concat_piece Cs L _ k c HW Hck) as Hpc. rewrite Hc0 in Hpc.
    rewrite Hnp. cbn [Nat.sub]. rewrite Nat.sub_0_r.
    assert (Hcl : Z.of_nat (length c) <= D).
    { destruct (k =? length Cs)%nat; [subst c; lia|lia]. }
    assert (H8 : k = 0%nat → 8 <= Z.of_nat (length c)).
    { intros ->. destruct Cs as [|c0 Cs]; cbn [length Nat.eqb] in Hl; [|lia]. subst c.
      pose proof (f_equal length C1) as H. rewrite length_app in H. cbn in H. lia. }
    split_and!; [|done| | |].
    + unfold bodies. rewrite lookup_app_l by (rewrite length_imap, Hp, length_app; cbn; lia).
      by rewrite list_lookup_imap, Hp, Hck.
    + unfold fld, slice, blen, bst. rewrite <- Hpc at 1. destruct k as [|k]; cbn [Nat.eqb].
      * rewrite Nat.mul_0_l, drop_0. replace (Z.to_nat (D - (D - HDRSZ))) with (length (header bits)) by (unfold HDRSZ; cbn; lia).
        replace (length c) with (length (header bits) + Z.to_nat (Z.of_nat (length c) - HDRSZ))%nat by (specialize (H8 eq_refl); unfold HDRSZ; cbn; lia).
        rewrite take_app_add, drop_app_length. unfold HDRSZ. cbn [length header Z.to_nat]. rewrite drop_0.
        do 2 f_equal. specialize (H8 eq_refl). cbn. lia.
      * replace (Z.to_nat (D - (D - 0))) with 0%nat by lia. rewrite drop_0, Z.sub_0_r, Nat2Z.id.
        replace (S k * Z.to_nat D)%nat with (length (header bits) + Z.to_nat (Z.of_nat (S k) * D - HDRSZ))%nat
          by (unfold HDRSZ; cbn [length header]; nia).
        by rewrite <- drop_drop, drop_app_length.
    + unfold slice, blen, bst. rewrite length_take, length_drop. pose proof (f_equal length Hpc) as H.
      rewrite length_take, length_drop, length_app in H. cbn [length header] in H. unfold HDRSZ.
      destruct k as [|k]; cbn [Nat.eqb]; [specialize (H8 eq_refl); lia|nia].
    + unfold blen, fld. destruct (Nat.eqb_spec k (length Cs)) as [->|].
      * subst c. destruct Cs; cbn [length Nat.eqb] in *; [specialize (H8 eq_refl); unfold HDRSZ in *; lia|lia].
      * destruct k; cbn [Nat.eqb] in *; lia.
Qed.

Hypothesis Hsize : Z.of_nat (length img) < 2 ^ 31.

Lemma length_img : Z.of_nat (length img) = Z.of_nat (S np) * W.
Proof.
  destruct data_blocks as (_ & Hl & _). destruct (bodies_ok bits Hbits data Hdata) as [Hb _].
  unfold image. rewrite (length_concat_same _ (Z.to_nat W)).
  - rewrite length_map, Hl. pose proof (dsz_range bits Hbits). pose proof W_D. lia.
  - apply Forall_map. eapply Forall_impl; [exact Hb|]. intros b [H _]. by apply length_sealed.
Qed.

(** Block [k] in the file. *)
Lemma img_block k b : Bo !! k = Some b →
  ∃ A R, img = A ++ sealed CRC b ++ R ∧ Z.of_nat (length A) = Z.of_nat k * W ∧
    Z.of_nat (length b) = D + 2 ∧ Forall is_byte b.
Proof.
  intros Hk. destruct (bodies_ok bits Hbits data Hdata) as [Hb _]. rewrite Forall_lookup in Hb. destruct (Hb k b Hk) as [Hl Hby].
  destruct (concat_split (map (sealed CRC) Bo) (Z.to_nat W) k (sealed CRC b)) as [Heq Hlen].
  - apply Forall_map. apply Forall_lookup. intros j c Hj. apply length_sealed; [done|]. by apply (Hb j c Hj).
  - by rewrite list_lookup_fmap, Hk.
  - eexists _, _. split; [exact Heq|]. split_and!; [|done|done]. rewrite Hlen. pose proof (dsz_range bits Hbits). pose proof W_D. lia.
Qed.

(** The handle at block [k]. *)
Record at_block (fc : fcrc) (k : nat) : Prop := {
  ab_f : fc_f fc = mkFile img (Z.of_nat k * W);
  ab_boff : fc_boff fc = bs k;
  ab_k : (k <= S np)%nat;
  ab_conf : fc_datasz fc = D ∧ fc_oldfmt fc = false ∧ fc_didwrite fc = false ∧ fc_read fc = true ∧ fc_write fc = false;
  ab_filesz : fc_filesz fc = -1 ∨ fc_filesz fc = dlen
}.

(** The end is known once it was passed, and the exclusive or of the blocks read
    is kept. *)
Record in_step (fc : fcrc) (k : nat) : Prop := {
  is_known : (np <= k)%nat → fc_filesz fc = dlen;
  is_xor : fc_doXor fc = true → fc_xor fc = Some (xorall (D + 2) (take k Bo)) ∧ fc_seekoff fc = 0
}.

(** What reading a block leaves alone. *)
Definition same_user (fc fc' : fcrc) : Prop :=
  fc_offset fc' = fc_offset fc ∧ fc_rbuf fc' = fc_rbuf fc ∧ fc_rbuf_off fc' = fc_rbuf_off fc ∧ fc_rlen fc' = fc_rlen fc ∧
  fc_didseek fc' = fc_didseek fc ∧ fc_doXor fc' = fc_doXor fc ∧ fc_xorchkd fc' = fc_xorchkd fc ∧ fc_chkxor fc' = fc_chkxor fc ∧
  fc_bits fc' = fc_bits fc ∧ fc_seekoff fc' = fc_seekoff fc.

Lemma xor_block xs (h a l : list Z) : length xs = length (h ++ a ++ l) →
  (let? x := xor_at (Some xs) 0 h in let? x := xor_at x (Z.of_nat (length h)) a in
   xor_at x (Z.of_nat (length h + length a)) l) = Some (Some (xorl xs (h ++ a ++ l))).
Proof.
  intros Hl. rewrite !length_app in Hl. set (m := Z.of_nat (length xs)).
  assert (E0 : xs = xorl xs ([] ++ zeros m)) by (cbn [app]; rewrite xorl_comm, xorl_zeros; done).
  rewrite E0 at 1. change 0 with (Z.of_nat (length (@nil Z))). rewrite xor_at_next by (cbn; unfold m; lia). cbn [app].
  rewrite xor_at_next by (unfold m; lia).
  replace (Z.of_nat (length h + length a)) with (Z.of_nat (length (h ++ a))) by (rewrite length_app; lia).
  rewrite xor_at_next by (rewrite ?length_app; unfold m; lia).
  replace (m - Z.of_nat (length h) - Z.of_nat (length a) - Z.of_nat (length l)) with 0 by (unfold m; lia).
  change (zeros 0) with (@nil Z). by rewrite app_nil_r, <- app_assoc.
Qed.

(** The end of [readBlock], after a good block was read. *)
Definition block_done (fuel : nat) (fc : fcrc) (k : nat) (past : bool) (buf : list Z) (len : Z) : option (fcrc * list Z * Z) :=
  if past then Some (fc, buf, 0)
  else if len <? fld k then
    let fc := if fc_filesz fc <? 0 then set_filesz (bs k + len) fc else fc in
    if len =? 0 then
      let? (fc, buf, rc) := readBlock CRC fuel fc in
      if rc <? 0 then Some (fc, buf, -1) else Some (fc, buf, 0)
    else Some (fc, buf, len)
  else Some (fc, buf, len).

Definition advanced (fc : fcrc) (k : nat) (xor : option (list Z)) : fcrc :=
  set_boff (bs (S k)) (set_xor xor (set_f (mkFile img (Z.of_nat (S k) * W)) fc)).

Lemma readBlock_at fuel fc k h a l past :
  at_block fc k → Bo !! k = Some (h ++ a ++ l) →
  Z.of_nat (length h) = D - fld k → Z.of_nat (length a) = fld k → length l = 2%nat →
  past = (0 <=? fc_filesz fc) && (fc_filesz fc <? fc_boff fc) →
  past && (fc_filesz fc + D <? fc_boff fc) = false →
  (fc_doXor fc = true → ∃ xs, fc_xor fc = Some xs ∧ Z.of_nat (length xs) = D + 2) →
  readBlock CRC (S fuel) fc =
    block_done fuel (advanced fc k (if fc_doXor fc then match fc_xor fc with Some xs => Some (xorl xs (h ++ a ++ l)) | None => None end
                                    else fc_xor fc)) k past a (le_load l).
Proof.
  intros [A1 A2 A3 (A4 & A5 & A6 & A7 & A8) A9] Hk Hh Ha Hl Hpast Hway Hxor. pose proof (dsz_range bits Hbits) as HD. pose proof W_D as HWD.
  destruct (img_block k _ Hk) as (Pre & R & Himg & HPre & Hlen & Hby). rewrite !length_app in Hlen.
  set (b := h ++ a ++ l) in *. set (crc := le32 (CRC 0 b)) in *. cbn [readBlock]. rewrite A4, A5, <- Hpast, Hway, A2, bst_0 by done.
  replace (if (k =? 0)%nat then HDRSZ else 0) with (D - fld k) by (unfold fld; lia).
  replace (if (k =? 0)%nat then D - HDRSZ else D) with (fld k) by (unfold fld; case_if; lia).
  rewrite A1. unfold sealed in Himg. unfold b in Himg at 1.
  rewrite (fread_part img Pre h ((a ++ l) ++ crc ++ R) _ _) by (rewrite ?Himg, <- ?app_assoc; done || lia).
  rewrite (fread_part img (Pre ++ h) a (l ++ crc ++ R) _ _) by (rewrite ?length_app, ?Himg, <- ?app_assoc; done || lia).
  rewrite (fread_part img (Pre ++ h ++ a) l (crc ++ R) _ 2) by (rewrite ?length_app, ?Himg, <- ?app_assoc; done || lia).
  rewrite (fread_part img (Pre ++ h ++ a ++ l) crc R _ 4) by (rewrite ?length_app, ?Himg, <- ?app_assoc; done || (cbn; lia)).
  change (Z.of_nat (length crc) =? 4) with true. cbn [negb].
  set (x1 := if fc_doXor fc then _ else fc_xor fc).
  match goal with |- (let? _ := ?e in _) = _ => assert (Hx : e = Some x1) end.
  { unfold x1. destruct (fc_doXor fc); [|done]. destruct (Hxor eq_refl) as (xs & -> & Hxs). apply xor_block.
    rewrite !length_app. lia. }
  rewrite Hx.
  assert (Hc : CRC (CRC (if (k =? 0)%nat then CRC 0 h else 0) a) l = CRC 0 b).
  { unfold b in Hby. rewrite !Forall_app in Hby. destruct Hby as (B1 & B2 & B3). unfold b.
    assert (Hfirst : (if (k =? 0)%nat then CRC 0 h else 0) = CRC 0 h).
    { destruct k; cbn [Nat.eqb]; [done|]. unfold fld in Hh. cbn [Nat.eqb] in Hh. destruct h; [|cbn in Hh; lia].
      symmetry. by apply crc_nil. }
    rewrite Hfirst, crc_app by (done || (by apply crc_range) || lia). rewrite crc_app by (done || lia || by apply Forall_app).
    done. }
  rewrite Hc. unfold crc. rewrite le_load_le32 by (apply crc_range; [lia|done]). rewrite Z.eqb_refl. cbn [negb].
  replace (Z.of_nat (length h + length a + length l) =? XORSZ _) with true.
  2: { symmetry. apply Z.eqb_eq. unfold XORSZ. cbn [fc_datasz set_xor set_f]. rewrite A4. lia. }
  rewrite orb_true_r. cbn [fc_oldfmt set_boff set_xor set_f]. rewrite A5.
  replace (Z.of_nat k * W + (D - fld k) + fld k + 2 + 4) with (Z.of_nat (S k) * W) by lia.
  cbn [fc_boff set_xor set_f]. rewrite A2, <- bst_S.
  unfold block_done, advanced. cbn [fc_filesz fc_boff set_boff set_xor set_f set_filesz].
  replace (bs (S k) - fld k + le_load l) with (bs k + le_load l) by (rewrite bst_S; lia). done.
Qed.

(** The three parts of a block with data: header, data and length. *)
Lemma block_parts k : (k < np)%nat →
  ∃ h a l, Bo !! k = Some (h ++ a ++ l) ∧ Z.of_nat (length h) = D - fld k ∧ Z.of_nat (length a) = fld k ∧ length l = 2%nat ∧
    le_load l = bl k ∧ take (Z.to_nat (bl k)) a = slice (bs k) (bl k) ∧ 0 <= bl k <= fld k.
Proof.
  intros Hk. pose proof (dsz_range bits Hbits) as HD. destruct data_blocks as (_ & _ & _ & Hb).
  destruct (Hb k Hk) as (c & Hc & HB & Hlc & Hd & Hls & Hbl). set (n := Z.to_nat (D - fld k)) in *.
  set (cz := c ++ zeros (D - Z.of_nat (length c))).
  assert (Hcz : Z.of_nat (length cz) = D) by (unfold cz; rewrite length_app, length_zeros; lia).
  assert (Hf : fld k = D ∨ fld k = D - 8) by (unfold fld, HDRSZ; destruct (k =? 0)%nat; lia).
  exists (take n cz), (drop n cz), (le16 (blen k c)).
  assert (Hblc : bl k = blen k c) by (unfold bl; by rewrite Hc).
  assert (Hr : 0 <= bl k <= fld k) by (destruct (k =? np - 1)%nat; lia).
  split_and!; try lia.
  - rewrite HB. f_equal. rewrite (app_assoc (take n cz)), take_drop. unfold body, cz. by rewrite <- app_assoc.
  - rewrite length_take. lia.
  - rewrite length_drop. lia.
  - done.
  - rewrite Hblc. apply le_load_le16. lia.
  - assert (Hn : Z.of_nat (length c) = bl k + Z.of_nat n) by (unfold blen, fld in *; unfold n; destruct (k =? 0)%nat; lia).
    unfold cz. rewrite drop_app_le by lia. rewrite Hd. apply take_app_length'. lia.
Qed.

Lemma xor_parts : ∃ h a l, Bo !! np = Some (h ++ a ++ l) ∧ Z.of_nat (length h) = D - fld np ∧ Z.of_nat (length a) = fld np ∧
  length l = 2%nat.
Proof.
  pose proof (dsz_range bits Hbits) as HD. destruct data_blocks as (Hp & Hl & _).
  destruct (lookup_lt_is_Some_2 Bo np) as [x Hx]; [lia|]. destruct (img_block np x Hx) as (_ & _ & _ & _ & Hlx & _).
  exists [], (take (Z.to_nat D) x), (drop (Z.to_nat D) x). cbn [app length]. rewrite take_drop.
  unfold fld. destruct (Nat.eqb_spec np 0); [lia|]. rewrite length_take, length_drop. split_and!; [done|lia..].
Qed.

Lemma xor_step fc k b x : in_step fc k → fc_doXor fc = true → Bo !! k = Some b →
  x = (if fc_doXor fc then match fc_xor fc with Some xs => Some (xorl xs b) | None => None end else fc_xor fc) →
  x = Some (xorall (D + 2) (take (S k) Bo)).
Proof.
  intros [_ Hx] Hd Hb ->. destruct (Hx Hd) as [E _]. rewrite Hd, E. by rewrite (take_S_r _ _ b), xorall_snoc by done.
Qed.

Lemma xor_room fc k : in_step fc k → fc_doXor fc = true → ∃ xs, fc_xor fc = Some xs ∧ Z.of_nat (length xs) = D + 2.
Proof.
  intros [_ Hx] Hd. destruct (Hx Hd) as [E _]. exists (xorall (D + 2) (take k Bo)). split; [done|].
  pose proof (dsz_range bits Hbits). apply xorall_length; [|lia]. apply Forall_take.
  eapply Forall_impl; [apply (bodies_ok bits Hbits data Hdata)|]. by intros ? [? _].
Qed.

(** Reading the exclusive or. *)
Lemma readBlock_xor fuel fc : at_block fc np → in_step fc np →
  ∃ fc' buf, readBlock CRC (S fuel) fc = Some (fc', buf, 0) ∧ at_block fc' (S np) ∧ in_step fc' (S np) ∧ same_user fc fc'.
Proof.
  intros Ha Hi. destruct xor_parts as (h & a & l & Hk & H1 & H2 & H3). destruct data_blocks as (Hp & _ & Hd & Hb).
  destruct (Hb (np - 1)%nat ltac:(lia)) as (_ & _ & _ & _ & _ & _ & Hlast). rewrite Nat.eqb_refl in Hlast.
  pose proof (is_known _ _ Hi ltac:(lia)) as Hf. pose proof (ab_boff _ _ Ha) as Hbo.
  assert (Hbs : bs np = bs (np - 1) + fld (np - 1)) by (rewrite <- bst_S; f_equal; lia).
  assert (Hfl : fld (np - 1) <= D) by (unfold fld, HDRSZ; case_if; lia).
  pose proof (bst_nonneg (np - 1)).
  assert (Hpast : (0 <=? fc_filesz fc) && (fc_filesz fc <? fc_boff fc) = true).
  { rewrite Hf, Hbo. apply andb_true_intro. split; [apply Z.leb_le|apply Z.ltb_lt]; lia. }
  rewrite (readBlock_at fuel fc np h a l true) by (done || (cbn; apply Z.ltb_ge; lia) || by apply (xor_room fc np)).
  unfold block_done. eexists _, a. split; [done|]. split; [|split; [|by repeat split]].
  - destruct Ha as [A1 A2 A3 A4 A5]. split; try done.
  - split; [by intros|]. cbn. intros Hdx. split; [by eapply xor_step|]. by apply (is_xor _ _ Hi).
Qed.

Lemma readBlock_ok fuel fc k : (2 <= fuel)%nat → at_block fc k → in_step fc k →
  ∃ fc' buf n k', readBlock CRC fuel fc = Some (fc', buf, n) ∧ at_block fc' k' ∧ in_step fc' k' ∧ same_user fc fc' ∧
    n = (if (k <? np)%nat then bl k else 0) ∧ take (Z.to_nat n) buf = slice (bs k) n ∧
    k' = (if n =? 0 then S np else S k).
Proof.
  intros Hfu Ha Hi. destruct fuel as [|[|fuel]]; [lia|lia|]. destruct data_blocks as (Hp & _ & Hd & Hb).
  destruct (Hb (np - 1)%nat ltac:(lia)) as (_ & _ & _ & _ & _ & _ & Hlast). rewrite Nat.eqb_refl in Hlast.
  pose proof (ab_boff _ _ Ha) as Hbo. pose proof (ab_filesz _ _ Ha) as Hfz. pose proof (bst_nonneg (np - 1)) as Hnn.
  destruct (Nat.ltb_spec k np) as [Hk|Hk].
  - destruct (block_parts k Hk) as (h & a & l & HB & H1 & H2 & H3 & Hle & Htk & Hbl).
    assert (Hkm : bs k <= bs (np - 1)).
    { destruct (decide (k = np - 1)%nat) as [->|]; [lia|]. pose proof (bst_mono k (np - 1) ltac:(lia)). lia. }
    rewrite (readBlock_at (S fuel) fc k h a l false) by (done || (by apply (xor_room fc k)) ||
      (symmetry; apply andb_false_iff; rewrite Z.leb_gt, Z.ltb_ge; lia)).
    set (fc1 := advanced fc k _). unfold block_done. rewrite Hle.
    assert (Ha1 : at_block fc1 (S k)).
    { destruct Ha as [A1 A2 A3 A4 A5]. split; try done. lia. }
    destruct (Hb k Hk) as (_ & _ & _ & _ & _ & _ & Hlk).
    assert (Hx1 : fc_doXor fc1 = true → fc_xor fc1 = Some (xorall (D + 2) (take (S k) Bo)) ∧ fc_seekoff fc1 = 0).
    { intros Hdx. split; [by eapply xor_step|]. by apply (is_xor _ _ Hi). }
    destruct (Nat.eqb_spec k (np - 1)) as [->|Hne].
    + destruct (Z.ltb_spec (bl (np - 1)) (fld (np - 1))); [|lia].
      set (fc2 := if fc_filesz fc1 <? 0 then _ else fc1).
      assert (Hf2 : fc_filesz fc2 = dlen).
      { unfold fc2. destruct (ab_filesz _ _ Ha1) as [E|E]; rewrite E; cbn; [lia|]. destruct (Z.ltb_spec dlen 0); [lia|done]. }
      assert (Ha2 : at_block fc2 (S (np - 1))).
      { destruct Ha1 as [A1 A2 A3 A4 A5]. unfold fc2. case_if; split; try done. right. cbn. lia. }
      assert (Hi2 : in_step fc2 (S (np - 1))).
      { split; [done|]. unfold fc2. by case_if. }
      assert (Hs2 : same_user fc fc2) by (unfold fc2; case_if; by repeat split).
      destruct (Z.eqb_spec (bl (np - 1)) 0) as [E0|E0].
      * replace (S (np - 1)) with np in Ha2, Hi2 by lia.
        destruct (readBlock_xor fuel fc2 Ha2 Hi2) as (fc3 & buf & -> & Ha3 & Hi3 & Hs3). cbn [Z.ltb Z.compare].
        exists fc3, buf, 0, (S np). split_and!; try done. unfold same_user in *. intuition congruence.
      * exists fc2, a, (bl (np - 1)), (S (np - 1)). split_and!; try done.
        by destruct (Z.eqb_spec (bl (np - 1)) 0).
    + destruct (Z.ltb_spec (bl k) (fld k)); [lia|]. exists fc1, a, (bl k), (S k). split_and!; try done.
      * split; [|done]. lia.
      * pose proof (dsz_range bits Hbits). unfold fld, HDRSZ in *. destruct (Z.eqb_spec (bl k) 0); [case_if; lia|done].
  - destruct (decide (k = np)) as [->|Hne].
    + destruct (readBlock_xor (S fuel) fc Ha Hi) as (fc' & buf & -> & Ha' & Hi' & Hs'). exists fc', buf, 0, (S np). by split_and!.
    + assert (k = S np) as -> by (pose proof (ab_k _ _ Ha); lia). pose proof (is_known _ _ Hi ltac:(lia)) as Hf.
      pose proof (bst_mono (np - 1) np ltac:(lia)) as Hm. pose proof (bst_S np) as Hbn.
      assert (Hfn : fld np = D) by (unfold fld; destruct (Nat.eqb_spec np 0); lia).
      assert (Hnp : bs np = bs (np - 1) + fld (np - 1)) by (rewrite <- bst_S; f_equal; lia).
      cbn [readBlock]. destruct (ab_conf _ _ Ha) as (-> & _).
      replace (_ && _ && _) with true.
      2: { symmetry. rewrite Hf, Hbo. rewrite !andb_true_iff, Z.leb_le, !Z.ltb_lt. pose proof (dsz_range bits Hbits). lia. }
      exists fc, [], 0, (S np). by split_and!.
Qed.

(** ** Between calls *)

(** The saved block: the one before [k]. *)
Record saved (fc : fcrc) (k : nat) : Prop := {
  sv_k : (0 < k <= np)%nat;
  sv_off : fc_rbuf_off fc = bs (k - 1);
  sv_len : fc_rlen fc = bl (k - 1);
  sv_buf : take (Z.to_nat (fc_rlen fc)) (fc_rbuf fc) = slice (bs (k - 1)) (bl (k - 1))
}.

(** Where the next byte is: in the saved block, in the next block, or nowhere. *)
Inductive placed (fc : fcrc) (k : nat) : Prop :=
| P_saved : saved fc k → bs (k - 1) <= fc_offset fc < bs (k - 1) + bl (k - 1) → placed fc k
| P_next : (fc_rlen fc = 0 ∨ fc_rbuf_off fc + fc_rlen fc <= fc_offset fc) → (k < np)%nat →
    bs k <= fc_offset fc < bs (S k) → placed fc k
| P_end : (fc_rlen fc = 0 ∨ fc_rbuf_off fc + fc_rlen fc <= fc_offset fc) → (np <= k)%nat → fc_offset fc = dlen → placed fc k.

(** After reading up to the end of block [k - 1]. *)
Lemma placed_after fc k : (0 < k <= np)%nat → fc_offset fc = bs (k - 1) + bl (k - 1) →
  (fc_rlen fc = 0 ∨ fc_rbuf_off fc + fc_rlen fc <= fc_offset fc) → placed fc k.
Proof.
  intros Hk Ho Hc. destruct data_blocks as (Hp & _ & Hd & Hb). destruct (Hb (k - 1)%nat ltac:(lia)) as (_ & _ & _ & _ & _ & _ & Hl).
  destruct (Nat.eqb_spec (k - 1) (np - 1)) as [E|E].
  - apply P_end; [done|lia|]. rewrite Ho, E. lia.
  - apply P_next; [done|lia|]. replace k with (S (k - 1)) at 1 by lia. rewrite bst_S. pose proof (bst_mono k (S k)).
    assert (bs k = bs (k - 1) + fld (k - 1)) by (rewrite <- bst_S; f_equal; lia). lia.
Qed.

(** What one call of [crcRead] promises for offset [off]. *)
Definition read_ok (off len : Z) (out : list Z) : Prop :=
  out = slice off (Z.of_nat (length out)) ∧ Z.of_nat (length out) <= len ∧ (off < dlen → out ≠ []).

Definition reading (fc : fcrc) (k : nat) : Prop := at_block fc k ∧ in_step fc k ∧ placed fc k ∧ fc_offset fc <= dlen.

(** What does not change in [read_loop]. *)
Definition same_flags (fc fc' : fcrc) : Prop :=
  fc_didseek fc' = fc_didseek fc ∧ fc_doXor fc' = fc_doXor fc ∧ fc_xorchkd fc' = fc_xorchkd fc ∧ fc_chkxor fc' = fc_chkxor fc ∧
  fc_bits fc' = fc_bits fc ∧ fc_seekoff fc' = fc_seekoff fc.

Definition loop_ok (fuel : nat) (fc : fcrc) (len : Z) : Prop :=
  ∃ fc' k' out, read_loop CRC fuel fc len = Some (fc', inl out) ∧ reading fc' k' ∧ read_ok (fc_offset fc) len out ∧
    fc_offset fc' = fc_offset fc + Z.of_nat (length out) ∧ same_flags fc fc' ∧ (out = [] → k' = S np).

Lemma slice_app a n m : 0 <= a → 0 <= n → 0 <= m → slice a n ++ slice (a + n) m = slice a (n + m).
Proof.
  intros Ha Hn Hm. unfold slice. rewrite !Z2Nat.inj_add by lia. rewrite <- drop_drop. apply take_take_drop.
Qed.

Lemma slice_len a n : 0 <= a → 0 <= n → a + n <= dlen → Z.of_nat (length (slice a n)) = n.
Proof. intros. unfold slice, dlen in *. rewrite length_take, length_drop. lia. Qed.

Lemma slice_sub a n b m : 0 <= a → 0 <= b → 0 <= m → b + m <= n →
  take (Z.to_nat m) (drop (Z.to_nat b) (slice a n)) = slice (a + b) m.
Proof.
  intros. unfold slice. replace (Z.to_nat n) with (Z.to_nat b + Z.to_nat (n - b))%nat by lia.
  rewrite <- take_drop_commute, take_take, drop_drop. f_equal; [lia|]. f_equal. lia.
Qed.

Lemma fuel_2 fc k : at_block fc k → (4 <= read_fuel fc)%nat.
Proof.
  intros [A1 _ _ _ _]. unfold read_fuel. rewrite A1. cbn [f_bytes]. pose proof length_img. pose proof (dsz_range bits Hbits).
  pose proof W_D. nia.
Qed.

Lemma bst_le i j : (i <= j)%nat → bs i <= bs j.
Proof. intros Hij. destruct (decide (i = j)) as [->|]; [lia|]. pose proof (bst_mono i j). lia. Qed.

Lemma block_end k : (k < np)%nat → 0 <= bl k ∧ bs k + bl k <= dlen ∧ (bl k = 0 → bs k = dlen).
Proof.
  intros Hk. destruct data_blocks as (Hp & _ & Hd & Hb). destruct (Hb k Hk) as (_ & _ & _ & _ & _ & _ & Hl).
  destruct (Nat.eqb_spec k (np - 1)) as [->|Hne]; [lia|]. destruct (Hb (np - 1)%nat ltac:(lia)) as (_ & _ & _ & _ & _ & _ & Hl').
  rewrite Nat.eqb_refl in Hl'. pose proof (bst_le (S k) (np - 1) ltac:(lia)) as Hle. rewrite bst_S in Hle.
  pose proof (dsz_range bits Hbits). unfold fld, HDRSZ in *. destruct (k =? 0)%nat; lia.
Qed.

(** A block read into the caller's buffer. *)
Lemma direct_ok fc k : at_block fc k → in_step fc k → (k < np)%nat → fc_offset fc = bs k →
  (fc_rlen fc = 0 ∨ fc_rbuf_off fc + fc_rlen fc <= fc_offset fc) →
  ∃ fc' buf k', readBlock CRC (read_fuel fc) fc = Some (fc', buf, bl k) ∧ take (Z.to_nat (bl k)) buf = slice (bs k) (bl k) ∧
    reading (add_offset (bl k) fc') k' ∧ fc_offset fc' = fc_offset fc ∧ same_flags fc fc' ∧ (bl k = 0 → k' = S np ∧ fc_offset fc = dlen).
Proof.
  intros Ha Hi Hk Ho Hc. destruct (readBlock_ok (read_fuel fc) fc k) as (fc' & buf & n & k' & Hrun & Ha' & Hi' & Hs & Hn & Htk & Hk');
    [pose proof (fuel_2 fc k Ha); lia|done|done|].
  rewrite (proj2 (Nat.ltb_lt k np) Hk) in Hn. subst n. destruct Hs as (S1 & S2 & S3 & S4 & S5 & S6 & S7 & S8 & S9 & S10).
  destruct (block_end k Hk) as (Hl0 & Hend & Hz).
  exists fc', buf, k'. split_and!; try done.
  - split_and!.
    + by destruct Ha'.
    + by destruct Hi'.
    + destruct (Z.eqb_spec (bl k) 0) as [E|E]; subst k'.
      * apply P_end; cbn; [rewrite S3, S4, S1, E; lia|lia|]. rewrite S1, Ho, E. specialize (Hz E). lia.
      * apply placed_after; cbn; [lia| |].
        -- rewrite Nat.sub_0_r, S1. lia.
        -- rewrite S3, S4, S1. lia.
    + cbn. rewrite S1. lia.
  - intros E. rewrite E in Hk'. cbn in Hk'. split; [done|]. rewrite Ho. auto.
Qed.

Lemma readRbuf_ok fc k : at_block fc k → in_step fc k →
  ∃ fc' k' n, readRbuf CRC fc = Some (fc', n) ∧ at_block fc' k' ∧ in_step fc' k' ∧ n = (if (k <? np)%nat then bl k else 0) ∧
    k' = (if n =? 0 then S np else S k) ∧ fc_rlen fc' = n ∧ fc_rbuf_off fc' = bs k ∧
    take (Z.to_nat n) (fc_rbuf fc') = slice (bs k) n ∧ fc_offset fc' = fc_offset fc ∧ same_flags fc fc'.
Proof.
  intros Ha Hi. unfold readRbuf. set (fc0 := set_rbuf_off (fc_boff fc) fc).
  assert (Ha0 : at_block fc0 k) by (by destruct Ha). assert (Hi0 : in_step fc0 k) by (by destruct Hi).
  destruct (readBlock_ok (read_fuel fc0) fc0 k) as (fc' & buf & n & k' & -> & Ha' & Hi' & Hs & Hn & Htk & Hk');
    [pose proof (fuel_2 fc0 k Ha0); lia|done|done|].
  destruct Hs as (S1 & S2 & S3 & S4 & S5 & S6 & S7 & S8 & S9 & S10).
  eexists _, k', n. split; [done|]. split_and!; try done.
  - by destruct Ha'.
  - by destruct Hi'.
  - cbn. rewrite S3. cbn. apply Ha.
  - cbn. destruct (Nat.ltb_spec k np) as [Hk|Hk]; [|by subst n].
    destruct (block_end k Hk) as (Hl0 & Hend & _). rewrite <- Htk. apply take_app_le.
    pose proof (f_equal length Htk) as H. rewrite length_take in H. subst n.
    pose proof (slice_len (bs k) (bl k) (bst_nonneg k) Hl0 Hend). lia.
Qed.

Lemma saved_miss fc len : fc_rlen fc = 0 ∨ fc_rbuf_off fc + fc_rlen fc <= fc_offset fc → read_saved fc len = [].
Proof.
  intros Hm. unfold read_saved. destruct Hm as [->|Hm]; [done|].
  destruct (Z.ltb_spec (fc_offset fc - fc_rbuf_off fc) (fc_rlen fc)); [lia|]. by rewrite andb_false_r.
Qed.

(** What [read_loop] does after the copy. *)
Definition after_copy (fuel : nat) (fc : fcrc) (len : Z) (l1 : list Z) : option (fcrc * (list Z + Z)) :=
  let again (fc : fcrc) (out : list Z) :=
    if negb (Z.of_nat (length out) =? 0) then Some (fc, inl out) else
    let? (fc, n) := readRbuf CRC fc in
    if n =? 0 then Some (fc, inl []) else if n <? 0 then Some (fc, inr (-1)) else read_loop CRC fuel fc len in
  if (fc_offset fc =? fc_boff fc) && (fc_datasz fc <=? len) then
    let? (fc, buf, n) := readBlock CRC (read_fuel fc) fc in
    if n =? 0 then Some (fc, inl l1)
    else if n <? 0 then Some (fc, inr (-1))
    else again (add_offset n fc) (l1 ++ take (Z.to_nat n) buf)
  else again fc l1.

Lemma read_loop_eq fuel fc len : read_loop CRC (S fuel) fc len =
  let l1 := read_saved fc len in let n1 := Z.of_nat (length l1) in
  after_copy fuel (add_offset n1 fc) (len - n1) l1.
Proof. reflexivity. Qed.

Lemma add_offset_0 fc : add_offset 0 fc = fc.
Proof. destruct fc. unfold add_offset, set_offset. cbn. f_equal. lia. Qed.

Lemma same_flags_trans a b c : same_flags a b → same_flags b c → same_flags a c.
Proof. unfold same_flags. intuition congruence. Qed.

(** The direct read after a copy of [l1]. *)
Lemma direct_after fuel fc k len l1 off :
  at_block fc k → in_step fc k → (k < np)%nat → fc_offset fc = bs k → (fc_rlen fc = 0 ∨ fc_rbuf_off fc + fc_rlen fc <= fc_offset fc) →
  D <= len → l1 = slice off (Z.of_nat (length l1)) → fc_offset fc = off + Z.of_nat (length l1) → 0 <= off →
  ∃ fc' k' out, after_copy fuel fc len l1 = Some (fc', inl out) ∧ reading fc' k' ∧ out = slice off (Z.of_nat (length out)) ∧
    Z.of_nat (length out) <= len + Z.of_nat (length l1) ∧ fc_offset fc' = off + Z.of_nat (length out) ∧ same_flags fc fc' ∧
    (out = [] → k' = S np ∧ off = dlen).
Proof.
  intros Ha Hi Hk Ho Hm HD Hl1 Hoff Hoff0. pose proof (dsz_range bits Hbits) as HDr. unfold after_copy. destruct (ab_conf _ _ Ha) as (Hdz & _).
  rewrite (ab_boff _ _ Ha), Ho, Z.eqb_refl, Hdz. destruct (Z.leb_spec D len); [|lia]. cbn [andb].
  destruct (direct_ok fc k Ha Hi Hk Ho Hm) as (fc' & buf & k' & -> & Htk & Hr & Ho' & Hf & Hz).
  destruct (block_end k Hk) as (Hl0 & Hend & _). destruct (Z.eqb_spec (bl k) 0) as [E|E].
  - exists fc', k', l1. rewrite E, add_offset_0 in Hr. split_and!; try done; [lia|lia|].
    intros ->. destruct (Hz E) as [-> Hd]. split; [done|]. cbn in Hoff. lia.
  - destruct (Z.ltb_spec (bl k) 0); [lia|]. rewrite Htk. pose proof (slice_len (bs k) (bl k) (bst_nonneg k) Hl0 Hend) as Hsl.
    replace (Z.of_nat (length (l1 ++ slice (bs k) (bl k))) =? 0) with false
      by (symmetry; apply Z.eqb_neq; rewrite length_app; lia).
    cbn [negb]. exists (add_offset (bl k) fc'), k', (l1 ++ slice (bs k) (bl k)).
    assert (Hfl : bl k <= D).
    { destruct data_blocks as (_ & _ & _ & Hb). destruct (Hb k Hk) as (_ & _ & _ & _ & _ & _ & Hl).
      unfold fld, HDRSZ in Hl. destruct (k =? np - 1)%nat, (k =? 0)%nat; lia. }
    split_and!; try done.
    + rewrite length_app, Nat2Z.inj_add, Hsl, <- slice_app by lia. rewrite <- Hl1. f_equal. f_equal. lia.
    + rewrite length_app. lia.
    + cbn. rewrite length_app. lia.
    + intros E'. apply app_nil in E' as [_ E']. rewrite E' in Hsl. cbn in Hsl. lia.
Qed.

Lemma loop_end fuel fc k len : at_block fc k → in_step fc k → (np <= k)%nat → fc_offset fc = dlen →
  (fc_rlen fc = 0 ∨ fc_rbuf_off fc + fc_rlen fc <= fc_offset fc) → 0 < len → loop_ok (S fuel) fc len.
Proof.
  intros Ha Hi Hk Ho Hm Hlen. unfold loop_ok. rewrite read_loop_eq, saved_miss by done. cbn zeta. cbn [length Z.of_nat].
  rewrite add_offset_0, Z.sub_0_r. unfold after_copy.
  assert (Hlt : dlen < bs k).
  { destruct data_blocks as (Hp & _ & Hd & Hb). destruct (Hb (np - 1)%nat ltac:(lia)) as (_ & _ & _ & _ & _ & _ & Hl).
    rewrite Nat.eqb_refl in Hl. pose proof (bst_le (S (np - 1)) k ltac:(lia)) as Hle. rewrite bst_S in Hle. lia. }
  rewrite (ab_boff _ _ Ha), Ho. destruct (Z.eqb_spec dlen (bs k)) as [|_]; [lia|]. cbn [andb length Z.of_nat Z.eqb negb].
  destruct (readRbuf_ok fc k Ha Hi) as (fc' & k' & n & -> & Ha' & Hi' & Hn & Hk' & Hrl & Hro & _ & Ho' & Hf).
  destruct (Nat.ltb_spec k np); [lia|]. subst n. cbn [Z.eqb] in *. subst k'. exists fc', (S np), [].
  split_and!; try done; [|split_and!; [done|cbn; lia|lia]|cbn; lia].
  split_and!; try done; [|lia]. apply P_end; [by left|lia|lia].
Qed.

Lemma loop_saved fuel fc k len : at_block fc k → in_step fc k → saved fc k →
  bs (k - 1) <= fc_offset fc < bs (k - 1) + bl (k - 1) → 0 < len → loop_ok (S fuel) fc len.
Proof.
  intros Ha Hi Hsv Ho Hlen. pose proof Hsv as [V1 V2 V3 V4]. unfold loop_ok. rewrite read_loop_eq.
  set (off := fc_offset fc) in *. set (n1 := Z.min len (bl (k - 1) - (off - bs (k - 1)))).
  destruct (block_end (k - 1)%nat ltac:(lia)) as (Hl0 & Hend & _). pose proof (bst_nonneg (k - 1)) as Hnn.
  assert (Hsav : read_saved fc len = slice off n1).
  { unfold read_saved. rewrite V2, V3. fold off. destruct (Z.eqb_spec (bl (k - 1)) 0); [lia|]. cbn [negb andb].
    destruct (Z.leb_spec 0 (off - bs (k - 1))); [|lia]. destruct (Z.ltb_spec (off - bs (k - 1)) (bl (k - 1))); [|lia]. cbn [andb].
    unfold rbuf_at. fold n1. replace off with (bs (k - 1) + (off - bs (k - 1))) at 2 by lia.
    rewrite <- (slice_sub (bs (k - 1)) (bl (k - 1))) by (unfold n1; lia). rewrite <- V4, V3.
    rewrite <- (take_drop (Z.to_nat (bl (k - 1))) (fc_rbuf fc)) at 1.
    assert (Hlen4 : length (take (Z.to_nat (bl (k - 1))) (fc_rbuf fc)) = Z.to_nat (bl (k - 1))).
    { rewrite V3 in V4. rewrite V4. pose proof (slice_len _ _ Hnn Hl0 Hend). lia. }
    rewrite drop_app_le by lia. rewrite take_app_le by (rewrite length_drop; unfold n1; lia). done. }
  rewrite Hsav. pose proof (slice_len off n1 ltac:(lia) ltac:(unfold n1; lia) ltac:(unfold n1; lia)) as Hsl. cbn zeta. rewrite Hsl.
  set (fc1 := add_offset n1 fc). assert (Ha1 : at_block fc1 k) by (by destruct Ha). assert (Hi1 : in_step fc1 k) by (by destruct Hi).
  assert (Hn1 : 0 < n1) by (unfold n1; lia).
  destruct (decide ((k < np)%nat ∧ fc_offset fc1 = bs k ∧ D <= len - n1)) as [(Hk & Hob & HD)|Hnd].
  - destruct (direct_after fuel fc1 k (len - n1) (slice off n1) off Ha1 Hi1 Hk Hob) as (fc' & k' & out & -> & Hr & Hout & Hle & Hof & Hfl & Hem);
      [right; cbn; fold off; rewrite V2, V3|done|by rewrite Hsl|by rewrite Hsl|lia|].
    { assert (bs k = bs (k - 1) + fld (k - 1)) by (rewrite <- bst_S; f_equal; lia). cbn in Hob. fold off in Hob.
      destruct data_blocks as (_ & _ & _ & Hb). destruct (Hb (k - 1)%nat ltac:(lia)) as (_ & _ & _ & _ & _ & _ & Hlk).
      destruct (k - 1 =? np - 1)%nat; lia. }
    exists fc', k', out. rewrite Hsl in Hle. split_and!; try done.
    + split_and!; [done|lia|]. intros Hd E'. destruct (Hem E') as [_ Hd']. lia.
    + intros E'. by destruct (Hem E').
  - unfold after_copy. replace ((fc_offset fc1 =? fc_boff fc1) && (fc_datasz fc1 <=? len - n1)) with false.
    2: { symmetry. apply andb_false_iff. rewrite (ab_boff _ _ Ha1). destruct (ab_conf _ _ Ha1) as (-> & _).
         destruct (Z.eqb_spec (fc_offset fc1) (bs k)) as [E|E]; [right|by left]. apply Z.leb_gt.
         destruct (decide (k < np)%nat) as [Hk|Hk]; [|].
         - destruct (decide (D <= len - n1)); [exfalso; by apply Hnd|lia].
         - exfalso. assert (k = np) as -> by lia. cbn in E. fold off in E.
           destruct data_blocks as (_ & _ & Hd & Hb). destruct (Hb (np - 1)%nat ltac:(lia)) as (_ & _ & _ & _ & _ & _ & Hlk).
           rewrite Nat.eqb_refl in Hlk. assert (bs np = bs (np - 1) + fld (np - 1)) by (rewrite <- bst_S; f_equal; lia).
           unfold n1 in E. lia. }
    replace (Z.of_nat (length (slice off n1)) =? 0) with false by (symmetry; apply Z.eqb_neq; lia). cbn [negb].
    exists fc1, k, (slice off n1). rewrite Hsl. split_and!; try done.
    + split_and!; try done; [|cbn; fold off; unfold n1; lia].
      destruct (decide (off + n1 < bs (k - 1) + bl (k - 1))) as [Hin|Hout].
      * apply P_saved; [by destruct Hsv|]. cbn. fold off. lia.
      * apply placed_after; [lia| |]; cbn; fold off; [unfold n1 in *; lia|rewrite V2, V3; lia].
    + unfold read_ok. rewrite Hsl. split_and!; [done|unfold n1; lia|]. intros _ E'. rewrite E' in Hsl. cbn in Hsl. lia.
    + intros E'. rewrite E' in Hsl. cbn in Hsl. lia.
Qed.

Lemma loop_next fuel fc k len : at_block fc k → in_step fc k → (k < np)%nat → bs k <= fc_offset fc < bs (S k) →
  (fc_rlen fc = 0 ∨ fc_rbuf_off fc + fc_rlen fc <= fc_offset fc) → fc_offset fc <= dlen → 0 < len → loop_ok (S (S fuel)) fc len.
Proof.
  intros Ha Hi Hk Ho Hm Hod Hlen. unfold loop_ok. rewrite read_loop_eq, saved_miss by done. cbn zeta. cbn [length Z.of_nat].
  rewrite add_offset_0, Z.sub_0_r. pose proof (bst_nonneg k) as Hnn.
  destruct (decide (fc_offset fc = bs k ∧ D <= len)) as [[Hob HD]|Hnd].
  - destruct (direct_after (S fuel) fc k len [] (fc_offset fc) Ha Hi Hk Hob Hm HD) as (fc' & k' & out & -> & Hr & Hout & Hle & Hof & Hfl & Hem);
      [done|cbn; lia|lia|].
    cbn [length Z.of_nat] in Hle. exists fc', k', out. split_and!; try done.
    + split_and!; [done|lia|]. intros Hd E'. destruct (Hem E') as [_ Hd']. lia.
    + intros E'. by destruct (Hem E').
  - unfold after_copy. replace ((fc_offset fc =? fc_boff fc) && (fc_datasz fc <=? len)) with false.
    2: { symmetry. apply andb_false_iff. rewrite (ab_boff _ _ Ha). destruct (ab_conf _ _ Ha) as (-> & _).
         destruct (Z.eqb_spec (fc_offset fc) (bs k)) as [E|E]; [right|by left]. apply Z.leb_gt.
         destruct (decide (D <= len)); [exfalso; by apply Hnd|lia]. }
    cbn [length Z.of_nat Z.eqb negb].
    destruct (readRbuf_ok fc k Ha Hi) as (fc' & k' & n & -> & Ha' & Hi' & Hn & Hk' & Hrl & Hro & Hbuf & Ho' & Hf).
    rewrite (proj2 (Nat.ltb_lt k np) Hk) in Hn. subst n. destruct (block_end k Hk) as (Hl0 & Hend & Hz).
    destruct (Z.eqb_spec (bl k) 0) as [E|E]; subst k'.
    + specialize (Hz E). exists fc', (S np), []. split_and!; try done; [|split_and!; [done|cbn; lia|lia]|cbn; lia].
      split_and!; try done; [|lia]. apply P_end; [left; lia|lia|lia].
    + destruct (Z.ltb_spec (bl k) 0); [lia|].
      assert (Hok : loop_ok (S fuel) fc' len).
      { destruct (decide (fc_offset fc < bs k + bl k)) as [Hin|Hout].
        - apply (loop_saved fuel fc' (S k)); [done|done| |cbn; rewrite Nat.sub_0_r; lia|done].
          split; cbn [Nat.sub]; rewrite ?Nat.sub_0_r; [lia|done|done|by rewrite Hrl].
        - destruct data_blocks as (_ & _ & Hd & Hb). destruct (Hb k Hk) as (_ & _ & _ & _ & _ & _ & Hlk).
          rewrite bst_S in Ho. destruct (Nat.eqb_spec k (np - 1)) as [->|]; [|lia].
          apply (loop_end fuel fc' (S (np - 1))); [done|done|lia|lia|right; lia|done]. }
      destruct Hok as (fc2 & k2 & out & Hrun & Hr & Hrok & Hof & Hf2 & Hem). exists fc2, k2, out. rewrite Ho' in *.
      split_and!; try done. by eapply same_flags_trans.
Qed.

Lemma loop_reading fuel fc k len : reading fc k → 0 < len → loop_ok (S (S fuel)) fc len.
Proof.
  intros (Ha & Hi & [Hs Ho|Hm Hk Ho|Hm Hk Ho] & Hod) Hlen.
  - by apply (loop_saved _ _ k).
  - by apply (loop_next _ _ k).
  - by apply (loop_end _ _ k).
Qed.

(** ** Calls *)

(** A handle whose next byte is the one at [off]. *)
Definition handle (fc : fcrc) (off : Z) : Prop :=
  fc_offset fc = off ∧ 0 <= off <= dlen ∧ ∃ k, at_block fc k ∧ (fc_didseek fc = false → in_step fc k ∧ placed fc k).

(** Reading will see the whole file. *)
Definition whole (fc : fcrc) : Prop := if fc_didseek fc then fc_offset fc = 0 else fc_doXor fc = true.

Lemma np_size : Z.of_nat np * D < 2 ^ 31 ∧ Z.of_nat (S np) * W < 2 ^ 31.
Proof. pose proof length_img. pose proof W_D. pose proof (dsz_range bits Hbits). nia. Qed.

(** The block of an offset. *)
Lemma block_of off : 0 <= off <= dlen → ∃ k, Z.of_nat k = (off + HDRSZ) / D ∧ (k < np)%nat ∧ bs k <= off < bs (S k).
Proof.
  intros Ho. pose proof (dsz_range bits Hbits) as HD. destruct data_blocks as (Hp & _ & Hd & Hb).
  destruct (Hb (np - 1)%nat ltac:(lia)) as (_ & _ & _ & _ & _ & _ & Hl). rewrite Nat.eqb_refl in Hl.
  assert (Hnp : dlen + 8 < Z.of_nat np * D).
  { assert (E : bs np = bs (np - 1) + fld (np - 1)) by (rewrite <- bst_S; f_equal; lia). unfold bst at 1 in E.
    destruct (Nat.eqb_spec np 0); [lia|]. unfold HDRSZ in E. lia. }
  pose proof (Z.div_mod (off + HDRSZ) D ltac:(lia)) as Hdm. pose proof (Z.mod_pos_bound (off + HDRSZ) D ltac:(lia)) as Hm.
  assert (H0 : 0 <= (off + HDRSZ) / D) by (apply Z.div_pos; unfold HDRSZ; lia).
  exists (Z.to_nat ((off + HDRSZ) / D)). rewrite Z2Nat.id by done. split; [done|]. set (q := (off + HDRSZ) / D) in *.
  unfold HDRSZ in *. split; [nia|]. unfold bst, HDRSZ. destruct (Z.to_nat q) as [|k] eqn:Eq; cbn [Nat.eqb]; [|nia].
  assert (q = 0) by lia. nia.
Qed.

Lemma seekBlock_ok fc k : at_block fc k → 0 <= fc_offset fc <= dlen →
  ∃ k', at_block (seekBlock fc) k' ∧ (k' < np)%nat ∧ bs k' <= fc_offset fc < bs (S k') ∧ same_user fc (seekBlock fc).
Proof.
  intros Ha Ho. pose proof Ha as [A1 A2 A3 A4 A5]. pose proof (dsz_range bits Hbits) as HD. destruct np_size as [N1 N2].
  destruct (block_of _ Ho) as (q & Hq & Hqn & Hqb). unfold seekBlock. rewrite A2.
  destruct (Z.eqb_spec (bs k) (fc_offset fc)) as [E|E].
  - exists q. assert (k = q) as ->.
    { destruct (decide (k < q)%nat); [pose proof (bst_mono k q); lia|]. destruct (decide (q < k)%nat); [|lia].
      pose proof (bst_le (S q) k). lia. }
    split_and!; try done; lia.
  - destruct A4 as (A41 & A42). rewrite A41, <- Hq, int32_small by nia.
    replace (if Z.of_nat q =? 0 then 0 else u32 (Z.of_nat q * D - HDRSZ)) with (bs q).
    2: { unfold bst. destruct q as [|q]; [done|]. cbn [Nat.eqb]. destruct (Z.eqb_spec (Z.of_nat (S q)) 0); [lia|].
         symmetry. apply u32_small. unfold HDRSZ. nia. }
    destruct (Z.eqb_spec (bs q) (bs k)) as [Eq|Eq]; cbn [negb].
    + exists q. assert (k = q) as -> by (destruct (decide (k < q)%nat); [pose proof (bst_mono k q); lia|];
        destruct (decide (q < k)%nat); [pose proof (bst_mono q k)|]; lia). split_and!; try done; lia.
    + exists q. split_and!; try done; [|lia..]. split; try done; [|lia]. cbn. rewrite A1. unfold fseek. cbn. f_equal.
      change PER_BLK with 6. rewrite <- W_D. apply u32_small. pose proof W_D. nia.
Qed.

Lemma readAfterSeek_ok fc k : at_block fc k → 0 <= fc_offset fc <= dlen →
  ∃ fc' k', readAfterSeek fc = Some fc' ∧ reading (set_rlen 0 fc') k' ∧ fc_offset fc' = fc_offset fc ∧ fc_didseek fc' = false ∧
    (fc_offset fc = 0 → fc_doXor fc' = true) ∧ fc_chkxor fc' = fc_chkxor fc.
Proof.
  intros Ha Ho. unfold readAfterSeek. destruct (ab_conf _ _ Ha) as (_ & _ & -> & _). cbn [negb].
  set (fc0 := set_didseek false fc). assert (Ha0 : at_block fc0 k) by (by destruct Ha).
  destruct (seekBlock_ok fc0 k Ha0 Ho) as (k' & Ha' & Hk & Hb & (S1 & S2 & S3 & S4 & S5 & S6 & S7 & S8 & S9 & S10)).
  set (fc1 := seekBlock fc0) in *. change (fc_offset fc0) with (fc_offset fc) in *.
  eexists _, k'. split; [done|].
  destruct (ab_conf _ _ Ha') as (Hd & _ & _ & _ & Hw). rewrite Hw, (ab_boff _ _ Ha'), bst_0 by done. cbn [orb].
  assert (Hx : XORSZ (set_doXor (k' =? 0)%nat fc1) = D + 2) by (unfold XORSZ; cbn; by rewrite Hd).
  rewrite Hx. fold (zeros (D + 2)).
  unfold reading. split_and!.
  - destruct Ha' as [A1 A2 A3 A4 A5]. destruct (k' =? 0)%nat; by split.
  - split.
    + lia.
    + destruct (Nat.eqb_spec k' 0) as [->|]; [|by destruct (seekBlock fc0)]. cbn. intros _. split; [done|].
      rewrite (ab_boff _ _ Ha'). done.
  - apply P_next; [by left; destruct (k' =? 0)%nat|done|].
    destruct (k' =? 0)%nat; cbn [fc_offset set_rlen set_xor set_seekoff set_doXor]; lia.
  - destruct (k' =? 0)%nat; cbn [fc_offset set_rlen set_xor set_seekoff set_doXor]; lia.
  - destruct (k' =? 0)%nat; cbn [fc_offset set_rlen set_xor set_seekoff set_doXor]; lia.
  - by destruct (k' =? 0)%nat.
  - intros H0. destruct (Nat.eqb_spec k' 0) as [->|Hne]; [done|]. pose proof (bst_mono 0 k' ltac:(lia)). cbn in *. lia.
  - by destruct (k' =? 0)%nat.
Qed.

Lemma xor_all_zero n : existsb (λ x, negb (x =? 0)) (zeros n) = false.
Proof. unfold zeros. induction (Z.to_nat n) as [|m IH]; [done|]. exact IH. Qed.

Lemma crcRead_ok xo fc off len : handle fc off → 0 < len →
  ∃ fc' out, crcRead CRC xo fc len = Some (fc', inl out) ∧ handle fc' (off + Z.of_nat (length out)) ∧ read_ok off len out ∧
    fc_didseek fc' = false ∧ fc_chkxor fc' = fc_chkxor fc ∧ (whole fc → whole fc' ∧ (out = [] → fc_xorchkd fc' = true)).
Proof.
  intros (<- & Hoff & k & Ha & Hst) Hlen. unfold crcRead. destruct (ab_conf _ _ Ha) as (_ & _ & -> & _). cbn [negb].
  assert (Hpre : ∃ fc1 k1, (if fc_didseek fc then let? fc := readAfterSeek fc in Some (set_rlen 0 fc) else Some fc) = Some fc1 ∧
    reading fc1 k1 ∧ fc_offset fc1 = fc_offset fc ∧ fc_didseek fc1 = false ∧ fc_chkxor fc1 = fc_chkxor fc ∧
    (whole fc → fc_doXor fc1 = true)).
  { destruct (fc_didseek fc) eqn:Eds.
    - destruct (readAfterSeek_ok fc k Ha Hoff) as (fc1 & k1 & -> & Hr & H1 & H2 & H3 & H4). exists (set_rlen 0 fc1), k1.
      split_and!; try done. unfold whole. rewrite Eds. done.
    - exists fc, k. destruct (Hst eq_refl) as [Hi Hp]. split_and!; try done; [split_and!; [done|done|done|lia]|].
      unfold whole. by rewrite Eds. }
  destruct Hpre as (fc1 & k1 & -> & Hr1 & Ho1 & Hds1 & Hcx1 & Hw1).
  destruct (read_fuel fc1) as [|[|fuel]] eqn:Efu;
    [pose proof (fuel_2 fc1 k1 (proj1 Hr1)); lia|pose proof (fuel_2 fc1 k1 (proj1 Hr1)); lia|].
  destruct (loop_reading fuel fc1 k1 len Hr1 Hlen) as (fc2 & k2 & out & -> & (Ha2 & Hi2 & Hp2 & Hb2) & Hok & Ho2 & (F1 & F2 & F3 & F4 & F5 & F6) & Hem).
  rewrite Ho1 in Hok, Ho2.
  destruct (bool_decide (out = []) && fc_doXor fc2 && (fc_seekoff fc2 =? 0)) eqn:Echk.
  - apply andb_prop in Echk as [Echk _]. apply andb_prop in Echk as [E1 E2]. apply bool_decide_eq_true in E1. subst out.
    specialize (Hem eq_refl). subst k2. set (fc3 := set_xorchkd true fc2). cbn [fc_xor set_xorchkd].
    change (fc_xor fc3) with (fc_xor fc2). destruct (is_xor _ _ Hi2 E2) as [-> _].
    destruct data_blocks as (_ & HlB & _). rewrite take_ge by lia. destruct (bodies_ok bits Hbits data Hdata) as [_ ->].
    rewrite xor_all_zero. cbn [andb]. exists fc3, []. split_and!; try done; [..|by rewrite <- Hcx1|].
    + unfold handle. change (fc_offset fc3) with (fc_offset fc2). rewrite Ho2. cbn [length Z.of_nat] in *. split_and!; try lia.
      exists (S np). split; [by destruct Ha2|]. intros _. split; [by destruct Hi2|].
      destruct Hp2 as [Hs Ho|Hm Hk Ho|Hm Hk Ho]; [apply P_saved; [by destruct Hs|done]|by apply P_next|by apply P_end].
    + change (fc_didseek fc3) with (fc_didseek fc2). congruence.
    + intros Hw. unfold whole. change (fc_didseek fc3) with (fc_didseek fc2). rewrite F1, Hds1. done.
  - exists fc2, out. assert (Hlo : 0 <= fc_offset fc + Z.of_nat (length out) <= dlen) by lia. split_and!; try done; [|congruence|congruence|].
    + unfold handle. split_and!; [done|lia|lia|]. exists k2. done.
    + intros Hw. unfold whole. rewrite F1, Hds1, F2. split; [by apply Hw1|]. intros ->. exfalso.
      rewrite F2, (Hw1 Hw) in Echk. destruct (is_xor _ _ Hi2) as [_ E]; [rewrite F2; by apply Hw1|]. rewrite E in Echk. done.
Qed.

(** The target of a seek, cut off at the end of the data. *)
Definition target (w : whence) (cur offset : Z) : Z :=
  match w with W_CUR => cur | W_SET => Z.min offset dlen | W_END => Z.min (offset + dlen) dlen end.

Lemma fileSize_ok fc k : at_block fc k → fc_filesz fc = -1 →
  ∃ fc' k', fileSize CRC fc = Some (fc', 0) ∧ at_block fc' k' ∧ fc_filesz fc' = dlen ∧ fc_offset fc' = fc_offset fc ∧
    fc_didseek fc' = fc_didseek fc ∧ fc_chkxor fc' = fc_chkxor fc.
Proof.
  intros Ha Hfz. pose proof Ha as [A1 A2 A3 (A4 & A5 & A6 & A7 & A8) A9]. pose proof (dsz_range bits Hbits) as HD. pose proof W_D as HW.
  destruct data_blocks as (Hp & _ & Hd & Hb). destruct np_size as [N1 N2]. pose proof length_img as Hli.
  unfold fileSize. cbn [fc_datasz fc_f set_doXor]. rewrite A4, A1. unfold f_size. cbn [f_bytes].
  change PER_BLK with 6. rewrite <- HW, Hli. rewrite Z.mod_mul, Z.div_mul by lia. cbn [Z.eqb].
  destruct (Z.leb_spec 2 (Z.of_nat (S np))); [|lia]. set (n := Z.of_nat (S np) - 2).
  assert (Hn : n = Z.of_nat (np - 1)) by (unfold n; lia). rewrite Hn.
  destruct (Z.ltb_spec (Z.of_nat (np - 1) * W) (2 ^ 31)); [|nia].
  change (fc_datasz (set_f _ _)) with (fc_datasz fc). rewrite A4.
  replace (if Z.of_nat (np - 1) =? 0 then 0 else u32 (Z.of_nat (np - 1) * D - HDRSZ)) with (bs (np - 1)).
  2: { unfold bst. destruct (np - 1)%nat as [|q] eqn:Eq; [done|]. cbn [Nat.eqb]. destruct (Z.eqb_spec (Z.of_nat (S q)) 0); [lia|].
       symmetry. apply u32_small. unfold HDRSZ. nia. }
  match goal with |- context [readRbuf CRC ?f] => set (fc0 := f) end.
  assert (Ha0 : at_block fc0 (np - 1)) by (split; try done; lia).
  assert (Hi0 : in_step fc0 (np - 1)) by (split; [lia|done]).
  destruct (readRbuf_ok fc0 (np - 1) Ha0 Hi0) as (fc' & k' & m & -> & Ha' & Hi' & Hm & Hk' & Hrl & Hro & _ & Ho' & (F1 & F2 & F3 & F4 & _)).
  destruct (Nat.ltb_spec (np - 1) np); [|lia]. subst m. destruct (block_end (np - 1)%nat ltac:(lia)) as (Hl0 & _).
  destruct (Z.ltb_spec (bl (np - 1)) 0); [lia|].
  assert (Hfz' : fc_filesz fc' = dlen) by (apply (is_known _ _ Hi'); rewrite Hk'; case_if; lia).
  rewrite Hfz'. destruct (Z.ltb_spec dlen 0); [unfold dlen in *; lia|]. by exists fc', k'.
Qed.

Lemma crcSeek_ok fc off offset w : handle fc off → (w = W_CUR → offset = 0) →
  ∃ fc' r, crcSeek CRC fc offset w = Some (fc', r) ∧ fc_chkxor fc' = fc_chkxor fc ∧
    let t := target w off offset in
    (0 <= t → r = t ∧ handle fc' t) ∧ (t < 0 → r = -1 ∧ handle fc' off) ∧ (w = W_SET → offset = 0 → whole fc' ∧ fc_didseek fc' = true).
Proof.
  intros (Ho & Hoff & k & Ha & Hst) Hcur. pose proof Ha as [A1 A2 A3 (A4 & A5 & A6 & A7 & A8) A9].
  assert (Hdone : ∀ fc1 t k1, at_block fc1 k1 → fc_offset fc1 = off → fc_didseek fc1 = true → t <= dlen →
    fc_chkxor (seek_done fc1 t).1 = fc_chkxor fc1 ∧
    (0 <= t → (seek_done fc1 t).2 = t ∧ handle (seek_done fc1 t).1 t) ∧ (t < 0 → (seek_done fc1 t).2 = -1 ∧ handle (seek_done fc1 t).1 off) ∧
    (t = 0 → whole (seek_done fc1 t).1 ∧ fc_didseek (seek_done fc1 t).1 = true)).
  { intros fc1 t k1 Ha1 Ho1 Hds Ht. unfold seek_done. destruct (Z.ltb_spec t 0); cbn [fst snd].
    - split_and!; [done|lia|intros _|lia]. split; [done|]. unfold handle. cbn. split_and!; [done|lia|lia|]. exists k1.
      split; [|congruence]. destruct Ha1 as [B1 B2 B3 B4 B5]. split; try done. by left.
    - split_and!; [done|intros _|lia|].
      + split; [done|]. unfold handle. cbn. split_and!; [done|lia|lia|]. exists k1. split; [by destruct Ha1|congruence].
      + intros ->. unfold whole. cbn. by rewrite Hds. }
  destruct w; cbn [crcSeek target].
  - change (fc_read (set_didseek true fc)) with (fc_read fc). change (fc_didwrite (set_didseek true fc)) with (fc_didwrite fc).
    rewrite A6, A7. cbn [negb andb]. set (fc0 := set_didseek true fc). assert (Ha0 : at_block fc0 k) by (by destruct Ha).
    change (fc_offset fc0) with (fc_offset fc). rewrite Ho. destruct (Z.leb_spec offset off) as [Hle|Hgt]; cbn [andb].
    + destruct (Hdone fc0 offset k Ha0 Ho eq_refl ltac:(lia)) as (D1 & D2 & D3 & D4). destruct (seek_done fc0 offset) as [fc' r].
      exists fc', r. cbn [fst snd] in *. replace (Z.min offset dlen) with offset by lia. by split_and!.
    + match goal with |- context [if fc_filesz fc0 <? 0 then ?a else ?b] => assert (Hpre : ∃ fc1 k1,
        (if fc_filesz fc0 <? 0 then a else b) = Some (fc1, 0) ∧ at_block fc1 k1 ∧ fc_filesz fc1 = dlen ∧ fc_offset fc1 = off ∧
        fc_didseek fc1 = true ∧ fc_chkxor fc1 = fc_chkxor fc) end.
      { destruct A9 as [E|E]; change (fc_filesz fc0) with (fc_filesz fc); rewrite E; cbn [Z.ltb Z.compare].
        - destruct (fileSize_ok fc0 k Ha0 E) as (fc1 & k1 & -> & H1 & H2 & H3 & H4 & H5). exists fc1, k1. split_and!; try done. by rewrite H3.
        - destruct (Z.ltb_spec dlen 0); [unfold dlen in *; lia|]. by exists fc0, k. }
      destruct Hpre as (fc1 & k1 & -> & Ha1 & Hf1 & Ho1 & Hds1 & Hcx1). cbn [Z.ltb Z.compare].
      rewrite Hf1. replace (if dlen <=? offset then dlen else offset) with (Z.min offset dlen) by (destruct (Z.leb_spec dlen offset); lia).
      destruct (Hdone fc1 (Z.min offset dlen) k1 Ha1 Ho1 Hds1 ltac:(lia)) as (D1 & D2 & D3 & D4). destruct (seek_done fc1 _) as [fc' r].
      exists fc', r. cbn [fst snd] in *. split_and!; try done; [congruence|]. lia.
  - rewrite (Hcur eq_refl). cbn. exists fc, off. rewrite Ho. split_and!; try done; [|lia]. intros _. split; [done|].
    split; [done|]. split; [done|]. by exists k.
  - change (fc_read (set_didseek true fc)) with (fc_read fc). change (fc_didwrite (set_didseek true fc)) with (fc_didwrite fc).
    rewrite A6, A7. cbn [negb andb]. set (fc0 := set_didseek true fc). assert (Ha0 : at_block fc0 k) by (by destruct Ha).
    match goal with |- context [if fc_filesz fc0 <? 0 then ?a else ?b] => assert (Hpre : ∃ fc1 k1,
      (if fc_filesz fc0 <? 0 then a else b) = Some (fc1, 0) ∧ at_block fc1 k1 ∧ fc_filesz fc1 = dlen ∧ fc_offset fc1 = off ∧
      fc_didseek fc1 = true ∧ fc_chkxor fc1 = fc_chkxor fc) end.
    { destruct A9 as [E|E]; change (fc_filesz fc0) with (fc_filesz fc); rewrite E; cbn [Z.ltb Z.compare].
      - destruct (fileSize_ok fc0 k Ha0 E) as (fc1 & k1 & -> & H1 & H2 & H3 & H4 & H5). exists fc1, k1. split_and!; try done. by rewrite H3.
      - destruct (Z.ltb_spec dlen 0); [unfold dlen in *; lia|]. by exists fc0, k. }
    destruct Hpre as (fc1 & k1 & -> & Ha1 & Hf1 & Ho1 & Hds1 & Hcx1). cbn [Z.ltb Z.compare].
    rewrite Hf1. replace (if dlen <=? offset + dlen then dlen else offset + dlen) with (Z.min (offset + dlen) dlen)
      by (destruct (Z.leb_spec dlen (offset + dlen)); lia).
    destruct (Hdone fc1 (Z.min (offset + dlen) dlen) k1 Ha1 Ho1 Hds1 ltac:(lia)) as (D1 & D2 & D3 & D4). destruct (seek_done fc1 _) as [fc' r].
    exists fc', r. cbn [fst snd] in *. split_and!; try done. congruence.
Qed.

(** Reading to the end and checking. *)
Lemma close_read_ok xo fuel : ∀ fc off, handle fc off → whole fc → dlen - off < Z.of_nat fuel →
  ∃ fc', close_read CRC xo fuel fc = Some (fc', 0) ∧ fc_xorchkd fc' = true ∧ f_bytes (fc_f fc') = img.
Proof.
  induction fuel as [|fuel IH]; intros fc off Hh Hw Hf; [destruct Hh as (_ & ? & _); lia|]. cbn [close_read].
  destruct Hh as (Ho & Hoff & k & Ha & Hst) eqn:EHh. clear EHh. destruct (ab_conf _ _ Ha) as (-> & _). pose proof (dsz_range bits Hbits).
  destruct (crcRead_ok xo fc off D) as (fc' & out & -> & Hh' & Hr & _ & _ & Hwh); [split_and!; try done; [lia|lia|by exists k]|lia|].
  destruct (Hwh Hw) as [Hw' Hx]. destruct out as [|b out].
  - exists fc'. split_and!; [done|auto|]. destruct Hh' as (_ & _ & k' & Ha' & _). by rewrite (ab_f _ _ Ha').
  - apply (IH fc' (off + Z.of_nat (length (b :: out)))); [done|done|cbn [length]; lia].
Qed.

Lemma crcClose_read xo fc off : handle fc off → ∃ p, crcClose CRC false xo fc = Some (mkFile img p, 0).
Proof.
  intros Hh. pose proof Hh as (Ho & Hoff & k & Ha & _). unfold crcClose. destruct (ab_conf _ _ Ha) as (_ & _ & _ & _ & ->).
  destruct (fc_chkxor fc && negb (fc_xorchkd fc)); [|exists (Z.of_nat k * W); by rewrite (ab_f _ _ Ha)].
  destruct (crcSeek_ok fc off 0 W_SET Hh) as (fc1 & r & -> & _ & Hpos & _ & Hw); [done|]. cbn [target] in Hpos.
  assert (Hd0 : 0 <= dlen) by (unfold dlen; lia). replace (Z.min 0 dlen) with 0 in Hpos by lia.
  destruct (Hpos ltac:(lia)) as [-> Hh1]. destruct (Hw eq_refl eq_refl) as [Hw1 Hds]. cbn [Z.eqb negb].
  set (fc2 := set_filesz (-1) fc1). destruct Hh1 as (Ho1 & _ & k1 & Ha1 & _).
  assert (Ha2 : at_block fc2 k1) by (destruct Ha1; split; try done; by left).
  destruct (close_read_ok xo (read_fuel fc2) fc2 0) as (fc3 & -> & Hx & Hb).
  - split; [done|]. split; [lia|]. exists k1. split; [done|]. by change (fc_didseek fc2) with (fc_didseek fc1); rewrite Hds.
  - done.
  - unfold read_fuel. rewrite (ab_f _ _ Ha2). cbn [f_bytes]. pose proof length_img as Hli. destruct data_blocks as (Hp & _ & Hd & Hbk).
    destruct (Hbk (np - 1)%nat ltac:(lia)) as (_ & _ & _ & _ & _ & _ & Hl). rewrite Nat.eqb_refl in Hl.
    assert (E : bs np = bs (np - 1) + fld (np - 1)) by (rewrite <- bst_S; f_equal; lia). unfold bst at 1 in E.
    destruct (Nat.eqb_spec np 0); [lia|]. pose proof W_D. unfold HDRSZ in E. pose proof (dsz_range bits Hbits). nia.
  - cbn [Z.ltb Z.compare]. rewrite Hx. destruct (fc_f fc3) as [b p]. cbn in Hb. subst b. by exists p.
Qed.

(** ** Sequences of calls *)

Inductive rop := R_read (len : Z) | R_seek (offset : Z) (w : whence).

Definition rop_ok (o : rop) : Prop :=
  match o with R_read len => 0 < len | R_seek offset w => w = W_CUR → offset = 0 end.

(** What the caller gets: bytes or a position; [None] is a failed assert. *)
Fixpoint run_rops (xo : bool) (fc : fcrc) (os : list rop) : option (fcrc * list (list Z + Z)) :=
  match os with
  | [] => Some (fc, [])
  | R_read len :: os =>
      let? (fc, r) := crcRead CRC xo fc len in
      let? (fc, rs) := run_rops xo fc os in Some (fc, r :: rs)
  | R_seek offset w :: os =>
      let? (fc, r) := crcSeek CRC fc offset w in
      let? (fc, rs) := run_rops xo fc os in Some (fc, inr r :: rs)
  end.

(** The same on the data itself, at position [off]: a read gives some of the
    next bytes, and none only at the end. *)
Fixpoint served (off : Z) (os : list rop) (rs : list (list Z + Z)) : Prop :=
  match os, rs with
  | [], [] => True
  | R_read len :: os, inl out :: rs => read_ok off len out ∧ served (off + Z.of_nat (length out)) os rs
  | R_seek offset w :: os, inr r :: rs =>
      let t := target w off offset in
      if 0 <=? t then r = t ∧ served t os rs else r = -1 ∧ served off os rs
  | _, _ => False
  end.

Lemma run_rops_ok xo os : ∀ fc off, handle fc off → Forall rop_ok os →
  ∃ fc' rs off', run_rops xo fc os = Some (fc', rs) ∧ served off os rs ∧ handle fc' off'.
Proof.
  induction os as [|o os IH]; intros fc off Hh Hos; cbn [run_rops]; [by exists fc, [], off|].
  apply Forall_cons in Hos as [Ho Hos]. destruct o as [len|offset w]; cbn [rop_ok] in Ho.
  - destruct (crcRead_ok xo fc off len Hh Ho) as (fc1 & out & -> & Hh1 & Hr & _).
    destruct (IH fc1 _ Hh1 Hos) as (fc2 & rs & off' & -> & Hs & Hh2). by exists fc2, (inl out :: rs), off'.
  - destruct (crcSeek_ok fc off offset w Hh Ho) as (fc1 & r & -> & _ & Hpos & Hneg & _). cbn [served].
    destruct (Z.leb_spec 0 (target w off offset)) as [Ht|Ht].
    + destruct (Hpos Ht) as [-> Hh1]. destruct (IH fc1 _ Hh1 Hos) as (fc2 & rs & off' & -> & Hs & Hh2).
      exists fc2, (inr (target w off offset) :: rs), off'. by split_and!.
    + destruct (Hneg Ht) as [-> Hh1]. destruct (IH fc1 _ Hh1 Hos) as (fc2 & rs & off' & -> & Hs & Hh2).
      exists fc2, (inr (-1) :: rs), off'. by split_and!.
Qed.

(** ** Opening for reading *)

Lemma image_header : ∃ R, img = header bits ++ R.
Proof.
  destruct (cut_of_exists bits Hbits data Hdata) as (Cs & L & Hc). pose proof (dsz_range bits Hbits) as HD.
  pose proof (pieces_cut bits Hbits data Cs L Hc) as Hp. destruct Hc as [C1 C2 _ _].
  assert (Hhd : ∃ c rest, Cs ++ [L] = (header bits ++ c) :: rest).
  { destruct Cs as [|c0 Cs]; cbn [concat app] in *.
    - subst L. by exists data, [].
    - apply Forall_cons in C2 as [Hl _]. exists (drop 8 c0), (Cs ++ [L]). f_equal. rewrite <- (take_drop 8 c0) at 1. f_equal.
      rewrite <- (take_app_length (header bits) data). change (length (header bits)) with 8%nat. rewrite C1, <- app_assoc.
      by rewrite take_app_le by lia. }
  destruct Hhd as (c & rest & E). unfold image, bodies. rewrite Hp, E. eexists. cbn [imap map app concat]. unfold sealed at 1, body at 1.
  by rewrite <- !app_assoc.
Qed.

Lemma fopen_r chk p : ∃ fc, fopen_crc (mkFile img p) M_R 0 chk = Some (Some fc) ∧ handle fc 0 ∧ fc_chkxor fc = chk.
Proof.
  destruct image_header as [R HR]. unfold fopen_crc. cbn [f_bytes]. rewrite HR, scan_hdr_header by done. cbn [Z.eqb].
  destruct (datasz_of _ Hbits) as [-> ->]. pose proof (dsz_range _ Hbits). destruct (Z.ltb_spec bits 31); [|lia].
  destruct (Z.ltb_spec (dsz bits) 65536); [|lia]. cbn [Pos.eqb]. eexists. split; [done|]. rewrite <- HR. split; [|done].
  split; [done|]. split; [unfold dlen; lia|]. exists 0%nat. split; [|done]. split; try done; [lia|by left].
Qed.

(** ** Damage *)

(** Good blocks go into the exclusive or. *)
Lemma verify_good Bs : ∀ n c A R xor e fe B p,
  Forall (λ b, Z.of_nat (length b) = D + 2 ∧ Forall is_byte b) Bs → B = A ++ concat (map (sealed CRC) Bs) ++ R → p = Z.of_nat (length A) →
  verify_loop CRC (length Bs + n) c (D + 2) (mkFile B p) xor e fe =
  verify_loop CRC n (c + Z.of_nat (length Bs)) (D + 2) (mkFile B (p + Z.of_nat (length Bs) * W)) (fold_left xorl Bs xor) e fe.
Proof.
  pose proof W_D as HW. induction Bs as [|b Bs IH]; intros n c A R xor e fe B p Hb -> ->.
  { cbn [length Nat.add fold_left Z.of_nat]. by rewrite Z.mul_0_l, !Z.add_0_r. }
  apply Forall_cons in Hb as [[Hl Hby] Hb]. cbn [length Nat.add verify_loop map concat]. unfold sealed at 1.
  rewrite (fread_part _ A b (le32 (CRC 0 b) ++ concat (map (sealed CRC) Bs) ++ R)) by (rewrite <- ?app_assoc; done || lia).
  rewrite Hl, Z.eqb_refl.
  rewrite (fread_part _ (A ++ b) (le32 (CRC 0 b)) (concat (map (sealed CRC) Bs) ++ R)) by (rewrite ?length_app, <- ?app_assoc; done || lia).
  change (Z.of_nat (length (le32 (CRC 0 b))) =? 4) with true. rewrite le_load_le32 by (apply crc_range; [lia|done]).
  rewrite Z.eqb_refl. cbn [negb orb].
  rewrite (IH n (c + 1) (A ++ sealed CRC b) R (zip_with Z.lxor xor b) e fe); [|done| |].
  - fold (xorl xor b). cbn [fold_left]. f_equal; [lia|]. f_equal. lia.
  - change (sealed CRC b) with (b ++ le32 (CRC 0 b)). by rewrite <- !app_assoc.
  - unfold sealed. rewrite !length_app. cbn [length le32]. lia.
Qed.

Lemma bad_bytes_spec buf : ∀ xor at_ a was should, length buf = length xor →
  0 <= at_ → at_ + Z.of_nat (length buf) <= 2 ^ 31 →
  (a, was, should) ∈ bad_bytes at_ buf xor ↔
  ∃ i, a = at_ + Z.of_nat i ∧ buf !! i = Some was ∧ xor !! i = Some should ∧ was ≠ should.
Proof.
  induction buf as [|b buf IH]; intros [|x xor] at_ a was should Hl Hat Hint; try done.
  { cbn [bad_bytes]. rewrite elem_of_nil. split; [done|]. intros (i & _ & H & _). done. }
  cbn [bad_bytes]. injection Hl as Hl. cbn [length] in Hint. rewrite int32_small by lia.
  assert (Hrest : (a, was, should) ∈ bad_bytes (at_ + 1) buf xor ↔
    ∃ i, a = at_ + Z.of_nat (S i) ∧ (b :: buf) !! S i = Some was ∧ (x :: xor) !! S i = Some should ∧ was ≠ should).
  { rewrite IH by (done || lia). cbn. split; intros (i & -> & H); exists i; (split; [lia|done]). }
  destruct (Z.eqb_spec b x) as [->|Hne].
  - rewrite Hrest. split; [intros (i & H); by exists (S i)|]. intros ([|i] & H); [|by exists i].
    destruct H as (_ & [= <-] & [= <-] & ?). done.
  - rewrite elem_of_cons, Hrest. split.
    + intros [[= -> -> ->]|(i & H)]; [|by exists (S i)]. exists 0%nat. split_and!; [cbn; lia|done..].
    + intros ([|i] & H); [|right; by exists i]. left. destruct H as (-> & [= <-] & [= <-] & _). f_equal. f_equal. cbn. lia.
Qed.

(** The bytes of the file with [m] written over them at offset [off] of block [c]. *)
Definition damaged (c : nat) (off : Z) (m : list Z) : list Z := list_inserts (Z.to_nat (Z.of_nat c * W + off)) m img.

(** The block [c] of the file. *)
Lemma image_block c : (c < length Bo)%nat →
  ∃ A R b, img = A ++ (b ++ le32 (CRC 0 b)) ++ R ∧
    A = concat (map (sealed CRC) (take c Bo)) ∧ R = concat (map (sealed CRC) (drop (S c) Bo)) ∧
    Bo !! c = Some b ∧ Z.of_nat (length b) = D + 2 ∧ Forall is_byte b ∧ Z.of_nat (length A) = Z.of_nat c * W.
Proof.
  intros Hc. destruct (lookup_lt_is_Some_2 Bo c Hc) as [b Hb]. destruct (bodies_ok bits Hbits data Hdata) as [Hall _].
  rewrite Forall_lookup in Hall. destruct (Hall c b Hb) as [Hl Hby]. pose proof W_D as HW. pose proof (dsz_range bits Hbits) as HD.
  exists (concat (map (sealed CRC) (take c Bo))), (concat (map (sealed CRC) (drop (S c) Bo))), b. split_and!; try done.
  - unfold image. rewrite <- (take_drop_middle Bo c b Hb) at 1. by rewrite map_app, concat_app.
  - rewrite (length_concat_same _ (Z.to_nat W)); [rewrite length_map, length_take_le by lia; lia|].
    apply Forall_map, Forall_take, Forall_lookup. intros j d Hj. apply length_sealed; [done|]. by apply (Hall j d Hj).
Qed.

Section Damage.

(** Two messages that end in their own checksums have the same checksum. *)
Hypothesis Hresidue : ∀ c c' w w', Forall is_byte w → Forall is_byte w' → length w = 4%nat → length w' = 4%nat →
  le_load w = c → le_load w' = c' → CRC c w = CRC c' w'.

Context (c : nat) (off : Z) (m : list Z).

Hypothesis Hc : (c < length Bo)%nat.

Hypothesis Hoff : 0 <= off ∧ off + Z.of_nat (length m) <= W.

Hypothesis Hshort : (length m <= 4)%nat.

Hypothesis Hm : Forall is_byte m.

Hypothesis Hchg : m ≠ take (length m) (drop (Z.to_nat (Z.of_nat c * W + off)) img).

(** The damaged block: its checksum is not the one of its bytes. *)
Lemma damaged_parts :
  ∃ A R b b' k', img = A ++ (b ++ le32 (CRC 0 b)) ++ R ∧ damaged c off m = A ++ (b' ++ k') ++ R ∧
    A = concat (map (sealed CRC) (take c Bo)) ∧ R = concat (map (sealed CRC) (drop (S c) Bo)) ∧
    Bo !! c = Some b ∧ Z.of_nat (length b) = D + 2 ∧ length b' = length b ∧ length k' = 4%nat ∧
    Forall is_byte b' ∧ Forall is_byte k' ∧ le_load k' ≠ CRC 0 b' ∧ Z.of_nat (length A) = Z.of_nat c * W.
Proof.
  destruct (image_block c Hc) as (A & R & b & Himg & HA & HR & Hb & Hl & Hby & HlA). pose proof W_D as HW.
  pose proof (dsz_range bits Hbits) as HD. destruct Hoff as [Ho1 Ho2].
  set (s := b ++ le32 (CRC 0 b)) in *. assert (Hls : Z.of_nat (length s) = W) by (unfold s; rewrite length_app; cbn [length le32]; lia).
  assert (Hbs : Forall is_byte s) by (unfold s; apply Forall_app; split; [done|apply le32_bytes]).
  destruct (list_split_len s (Z.to_nat off)) as (x & s1 & Es & Hx); [lia|]. rewrite Es, length_app in Hls.
  destruct (list_split_len s1 (length m)) as (m0 & y & -> & Hm0); [lia|]. rewrite length_app in Hls.
  assert (Hpos : Z.to_nat (Z.of_nat c * W + off) = length (A ++ x)) by (rewrite length_app; lia).
  assert (Himg2 : img = (A ++ x) ++ m0 ++ y ++ R) by (rewrite Himg, Es; by rewrite <- !app_assoc).
  assert (Hdam : damaged c off m = A ++ (x ++ m ++ y) ++ R).
  { unfold damaged. rewrite Hpos, Himg2, list_inserts_over by done. by rewrite <- !app_assoc. }
  assert (Hne : m0 ≠ m).
  { intros E. apply Hchg. rewrite Hpos, Himg2, drop_app_length, <- E. by rewrite take_app_length. }
  assert (Hb' : Forall is_byte (x ++ m ++ y)) by (rewrite Es, !Forall_app in Hbs; rewrite !Forall_app; tauto).
  destruct (list_split_len (x ++ m ++ y) (length b)) as (b' & k' & Ebk & Hlb'); [rewrite !length_app; lia|].
  assert (Hlk : length k' = 4%nat).
  { apply (f_equal length) in Ebk. rewrite !length_app in Ebk. apply (f_equal length) in Es. unfold s in Es.
    rewrite !length_app in Es. cbn [length le32] in Es. lia. }
  rewrite Ebk in Hb'. apply Forall_app in Hb' as [Hb1 Hk1].
  exists A, R, b, b', k'. split_and!; try done; [by rewrite Hdam, Ebk|].
  intros Ek. assert (Hcc : CRC 0 (x ++ m ++ y) = CRC 0 (x ++ m0 ++ y)).
  { rewrite Ebk, <- Es. unfold s. rewrite <- !crc_app by (done || lia || apply le32_bytes).
    apply Hresidue; try done; [apply le32_bytes|]. apply le_load_le32, crc_range; [lia|done]. }
  revert Hcc. apply crc_detects; [lia| |lia|done|by apply not_eq_sym].
  rewrite Es, !Forall_app in Hbs. rewrite !Forall_app. tauto.
Qed.

(** The scan finds the block and knows what it was. *)
Lemma damaged_verify fc p : fc_f fc = mkFile (damaged c off m) p → fc_datasz fc = D →
  ∃ fc' bad, crcCheckVerify CRC fc = Some (fc', R_one (Z.of_nat c * W) bad, -1) ∧
    ∀ a was should, (a, was, should) ∈ bad ↔
      0 <= a < Z.of_nat c * W + D + 2 ∧ damaged c off m !! Z.to_nat a = Some was ∧ img !! Z.to_nat a = Some should ∧ was ≠ should.
Proof.
  intros Hf Hd. pose proof (dsz_range bits Hbits) as HD. pose proof W_D as HW. destruct data_blocks as (Hp & HlB & _).
  destruct damaged_parts as (A & R & b & b' & k' & Himg & Hdam & HA & HR & HB & Hlb & Hlb' & Hlk & Hby' & Hk & Hcrc & HlA).
  destruct (bodies_ok bits Hbits data Hdata) as [Hall Hzero].
  assert (Hdl : length (damaged c off m) = length img) by (rewrite Hdam, Himg, !length_app; cbn [length le32]; lia).
  pose proof Hsize as Hs. rewrite length_img in Hs.
  unfold crcCheckVerify, XORSZ. rewrite Hd, Hf. unfold f_size. cbn [f_bytes]. change PER_BLK with 6. rewrite <- HW, Hdl, length_img.
  rewrite Z.mod_mul, Z.div_mul by lia. cbn [Z.eqb]. rewrite int32_small by nia. rewrite Nat2Z.id. unfold fseek. cbn [f_bytes].
  fold (zeros (D + 2)).
  assert (Hn : S np = (length (take c Bo) + S (length (drop (S c) Bo) + 0))%nat) by (rewrite length_take, length_drop; lia).
  assert (Hin : 0 <= Z.of_nat c * W ∧ Z.of_nat c * W + (D + 2) <= Z.of_nat (S np) * W) by nia.
  rewrite Hn. rewrite (verify_good (take c Bo) _ 0 [] ((b' ++ k') ++ R)); [|by apply Forall_take|by rewrite <- HA|done].
  rewrite length_take_le by lia. rewrite !Z.add_0_l. cbn [verify_loop].
  rewrite (fread_part _ A b' (k' ++ R)) by (rewrite ?Hdam, <- ?app_assoc; done || lia).
  rewrite Hlb', Hlb, Z.eqb_refl.
  rewrite (fread_part _ (A ++ b') k' R) by (rewrite ?Hdam, ?length_app, <- ?app_assoc; done || lia).
  rewrite Hlk. change (Z.of_nat 4 =? 4) with true.
  destruct (Z.eqb_spec (le_load k') (CRC 0 b')); [done|]. cbn [negb orb].
  replace (Z.of_nat c * (D + 2 + 4)) with (Z.of_nat c * W) by lia.
  rewrite u32_small, int32_small by lia.
  rewrite (verify_good (drop (S c) Bo) 0 _ (A ++ b' ++ k') []).
  2: { by apply Forall_drop. }
  2: { rewrite <- HR, app_nil_r, Hdam. by rewrite <- !app_assoc. }
  2: { rewrite !length_app. lia. }
  cbn [verify_loop Z.eqb Z.ltb Z.compare Z.add]. cbn [f_bytes]. destruct (Z.ltb_spec (Z.of_nat c * W) 0); [lia|].
  rewrite (fread_part _ A b' (k' ++ R)) by (rewrite ?Hdam, <- ?app_assoc; done || lia).
  rewrite <- fold_left_app. fold (xorall (D + 2) (take c Bo ++ drop (S c) Bo)).
  rewrite (xorall_missing (D + 2) _ b).
  2: { rewrite take_drop_middle by done. eapply Forall_impl; [exact Hall|]. by intros ? [? _]. }
  2: { by rewrite take_drop_middle. }
  eexists _, _. split; [done|]. intros a was should. rewrite bad_bytes_spec by (done || lia). rewrite Hdam, Himg.
  assert (Hat : ∀ z k i, (i < length z)%nat → (A ++ (z ++ k) ++ R) !! (length A + i)%nat = z !! i).
  { intros z k i Hi. rewrite lookup_app_r by lia. replace (length A + i - length A)%nat with i by lia.
    rewrite <- app_assoc. by rewrite lookup_app_l by lia. }
  split.
  - intros (i & -> & H1 & H2 & H3). pose proof (lookup_lt_Some _ _ _ H1) as Hi1. pose proof (lookup_lt_Some _ _ _ H2) as Hi2.
    replace (Z.to_nat (Z.of_nat c * W + Z.of_nat i)) with (length A + i)%nat by lia. rewrite !Hat by done. split_and!; [lia..|done|done|done].
  - intros (Ha & H1 & H2 & H3). exists (Z.to_nat a - length A)%nat.
    destruct (decide (Z.to_nat a < length A)%nat) as [Hlt|Hge].
    { rewrite lookup_app_l in H1, H2 by done. congruence. }
    replace (Z.to_nat a) with (length A + (Z.to_nat a - length A))%nat in H1, H2 by lia.
    rewrite Hat in H1, H2 by lia. split_and!; [lia|done..].
Qed.

(** A damaged block is not handed out. *)
Lemma damaged_read fc fuel : fc_f fc = mkFile (damaged c off m) (Z.of_nat c * W) → fc_boff fc = bs c → fc_datasz fc = D →
  fc_oldfmt fc = false → fc_filesz fc = -1 → (fc_doXor fc = true → ∃ xs, fc_xor fc = Some xs ∧ Z.of_nat (length xs) = D + 2) →
  ∃ fc', readBlock CRC (S fuel) fc = Some (fc', [], -1).
Proof.
  intros Hf Hbo Hd Hold Hfz Hxor. pose proof (dsz_range bits Hbits) as HD. pose proof W_D as HW.
  destruct damaged_parts as (A & R & b & b' & k' & Himg & Hdam & HA & HR & HB & Hlb & Hlb' & Hlk & Hby' & Hk & Hcrc & HlA).
  assert (Hfl : 0 <= D - fld c ∧ 0 <= fld c) by (unfold fld, HDRSZ; case_if; lia).
  destruct (list_split_len b' (Z.to_nat (D - fld c))) as (h & r & Hb' & Hh); [lia|].
  destruct (list_split_len r (Z.to_nat (fld c))) as (a & l & -> & Ha).
  { apply (f_equal length) in Hb'. rewrite length_app in Hb'. lia. }
  assert (Hl2 : length l = 2%nat) by (apply (f_equal length) in Hb'; rewrite !length_app in Hb'; lia).
  rewrite Hb' in Hdam, Hcrc, Hby'. cbn [readBlock]. rewrite Hd, Hold, Hfz, Hbo, bst_0 by done. cbn [Z.leb Z.compare andb].
  replace (if (c =? 0)%nat then HDRSZ else 0) with (D - fld c) by (unfold fld; lia).
  replace (if (c =? 0)%nat then D - HDRSZ else D) with (fld c) by (unfold fld; case_if; lia).
  rewrite Hf.
  rewrite (fread_part _ A h ((a ++ l) ++ k' ++ R) _ _) by (rewrite ?Hdam, <- ?app_assoc; done || lia).
  rewrite (fread_part _ (A ++ h) a (l ++ k' ++ R) _ _) by (rewrite ?length_app, ?Hdam, <- ?app_assoc; done || lia).
  rewrite (fread_part _ (A ++ h ++ a) l (k' ++ R) _ 2) by (rewrite ?length_app, ?Hdam, <- ?app_assoc; done || lia).
  rewrite (fread_part _ (A ++ h ++ a ++ l) k' R _ 4) by (rewrite ?length_app, ?Hdam, <- ?app_assoc; done || (cbn; lia)).
  rewrite Hlk. change (Z.of_nat 4 =? 4) with true. cbn [negb].
  match goal with |- ∃ _, (let? _ := ?e in _) = _ => assert (Hx : ∃ x1, e = Some x1) end.
  { destruct (fc_doXor fc); [|by eexists]. destruct (Hxor eq_refl) as (xs & -> & Hxs). eexists. apply xor_block.
    rewrite !length_app. lia. }
  destruct Hx as [x1 ->]. rewrite !Forall_app in Hby'. destruct Hby' as (B1 & B2 & B3).
  assert (Hcc : CRC (CRC (if (c =? 0)%nat then CRC 0 h else 0) a) l = CRC 0 (h ++ a ++ l)).
  { assert (Hfirst : (if (c =? 0)%nat then CRC 0 h else 0) = CRC 0 h).
    { destruct c; cbn [Nat.eqb]; [done|]. unfold fld in Hh. cbn [Nat.eqb] in Hh. destruct h; [|cbn in Hh; lia].
      symmetry. by apply crc_nil. }
    rewrite Hfirst, crc_app by (done || (by apply crc_range) || lia). by rewrite crc_app by (done || lia || by apply Forall_app). }
  rewrite Hcc. destruct (Z.eqb_spec (CRC 0 (h ++ a ++ l)) (le_load k')) as [E|_]; [congruence|]. cbn [negb].
  match goal with |- context [crcCheckVerify CRC ?f] => destruct (damaged_verify f (Z.of_nat c * W + (D - fld c) + fld c + 2 + 4)) as (fc' & bad & -> & _) end;
    [done|done|]. by eexists.
Qed.

End Damage.

End Reading.

(** ** Properties *)

Lemma image_size CRC {crc_ok : Checksum CRC} bits data : 6 <= bits <= 16 → Forall is_byte data → Z.of_nat (length data) <= 2 ^ 30 →
  Z.of_nat (length (image CRC bits data)) < 2 ^ 31.
Proof.
  intros Hb Hd Hl. rewrite length_img by done. pose proof (dsz_range bits Hb) as HD. pose proof (W_D bits) as HW.
  destruct (data_blocks bits Hb data Hd) as (Hp & _ & Hdl & Hk).
  destruct (Hk (np bits data - 1)%nat ltac:(lia)) as (_ & _ & _ & _ & _ & _ & Hlast). rewrite Nat.eqb_refl in Hlast.
  set (q := (np bits data - 1)%nat) in *. replace (Z.of_nat (S (np bits data))) with (Z.of_nat q + 2) by lia.
  assert (Hq : Z.of_nat q * dsz bits <= Z.of_nat (length data) + 8).
  { unfold dlen, bst, HDRSZ in Hdl. destruct (Nat.eqb_spec q 0) as [E|]; [rewrite E|]; lia. }
  rewrite HW. nia.
Qed.

Lemma read_session_ok CRC {crc_ok : Checksum CRC} bits data p chkxor os :
  6 <= bits <= 16 → Forall is_byte data → Z.of_nat (length data) <= 2 ^ 30 → Forall rop_ok os →
  ∃ fc fc' rs p', fopen_crc (mkFile (image CRC bits data) p) M_R 0 chkxor = Some (Some fc) ∧
    run_rops CRC false fc os = Some (fc', rs) ∧ served data 0 os rs ∧
    crcClose CRC false false fc' = Some (mkFile (image CRC bits data) p', 0).
Proof.
  intros Hb Hd Hl Hos. pose proof (image_size CRC bits _ Hb Hd Hl) as Hs.
  destruct (fopen_r CRC bits Hb _ Hd chkxor p) as (fc & Hopen & Hh & _).
  destruct (run_rops_ok CRC bits Hb _ Hd Hs false os fc 0 Hh Hos) as (fc' & rs & off & Hrun & Hserved & Hh').
  destruct (crcClose_read CRC bits Hb _ Hd Hs false fc' off Hh') as [p' Hclose]. by exists fc, fc', rs, p'.
Qed.

Lemma concat_bytes chunks : Forall (Forall is_byte) chunks → Forall is_byte (concat chunks).
Proof. induction 1; [constructor|by apply Forall_app]. Qed.

(** The checksum of the files, at any alignment. *)
Definition CRC32 : Z → list Z → Z := software_crc32c 0.

#[local] Opaque best_datasz.

#[local] Instance CRC32_checksum : Checksum CRC32 := software_checksum 0.

(** C13. Files with checksums are plain files.  Data up to 2^30 bytes, handed over
    in any pieces and with any estimate of its size, is written without error;
    the file opens for reading, and any sequence of reads and seeks sees what it
    would see on the data: reads give the next bytes, some unless at the end,
    seeks go to where lseek would go within the data or fail with the position
    kept.  Closing, with or without the check of the whole file, succeeds.  No
    assert fails and no array is overrun. *)
Theorem crc_file_is_data est_size chunks chkxor os :
  Forall (Forall is_byte) chunks → Z.of_nat (length (concat chunks)) <= 2 ^ 30 → Forall rop_ok os →
  ∃ f fc fc' rs f', write_session CRC32 est_size chunks = Some (f, 0) ∧
    fopen_crc f M_R 0 chkxor = Some (Some fc) ∧ run_rops CRC32 false fc os = Some (fc', rs) ∧
    served (concat chunks) 0 os rs ∧ crcClose CRC32 false false fc' = Some (f', 0) ∧ f_bytes f' = f_bytes f.
Proof.
  intros Hc Hl Hos. destruct (write_session_ok CRC32 est_size chunks Hc) as [p Hw].
  destruct (read_session_ok CRC32 (best_datasz est_size) (concat chunks) p chkxor os) as (fc & fc' & rs & p' & H1 & H2 & H3 & H4);
    [apply best_datasz_range|by apply concat_bytes|done|done|].
  exact (ex_intro _ _ (ex_intro _ fc (ex_intro _ fc' (ex_intro _ rs (ex_intro _ _ (conj Hw (conj H1 (conj H2 (conj H3 (conj H4 eq_refl)))))))))).
Qed.

(** 150 bytes in 64 byte blocks, read across block boundaries, back and past the
    end. *)
Definition ex_data : list Z := map (λ i, (i * 7) mod 256) (seqZ 0 150).

Definition ex_rops : list rop :=
  [R_read 40; R_read 200; R_seek (-1) W_END; R_read 9; R_read 9; R_seek (-500) W_END; R_seek 49 W_SET; R_read 3; R_seek 999 W_SET].

Lemma crc_file_is_data_witness :
  (match write_session CRC32 100 [take 60 ex_data; []; drop 60 ex_data] with
   | Some (f, _) =>
       match fopen_crc f M_R 0 true with
       | Some (Some fc) =>
           match run_rops CRC32 false fc ex_rops with
           | Some (_, rs) => map (λ r, match r with inl l => Z.of_nat (length l) | inr r => r end) rs
           | None => [] end
       | _ => [] end
   | None => [] end) = [40; 68; 149; 1; 0; -1; 49; 1; 150] ∧
  ∃ f fc fc' rs f', write_session CRC32 100 [take 60 ex_data; []; drop 60 ex_data] = Some (f, 0) ∧
    fopen_crc f M_R 0 true = Some (Some fc) ∧ run_rops CRC32 false fc ex_rops = Some (fc', rs) ∧
    served (concat [take 60 ex_data; []; drop 60 ex_data]) 0 ex_rops rs ∧
    crcClose CRC32 false false fc' = Some (f', 0) ∧ f_bytes f' = f_bytes f.
Proof.
  split; [vm_compute; reflexivity|]. apply crc_file_is_data.
  - assert (Hall : Forall is_byte ex_data).
    { unfold ex_data. apply Forall_map, Forall_forall. intros i _. cbn. apply mod_byte. }
    rewrite !Forall_cons. split_and!; [by apply Forall_take|constructor|by apply Forall_drop|constructor].
  - vm_compute. discriminate.
  - unfold ex_rops. rewrite !Forall_cons. cbn. split_and!; lia || done || apply Forall_nil_2.
Defined.

(** C19. A damaged block is noticed and located.  In a file of data up to 2^30
    bytes, when up to four consecutive bytes of one block are changed, be it a data
    block or the one with the exclusive or, in the data, the length field, the
    checksum or across them, the scan of the file reports exactly one bad block, at
    its place, and for exactly the changed bytes of data and length (those before
    the checksum) what they are and what they were; and [readBlock] that comes to
    the block in a file of the current format, before the end of the data was seen,
    gets the error -1 and none of its bytes, whether or not it computes the
    exclusive or. *)
Theorem crc_damage_located bits data c off m fc p :
  6 <= bits <= 16 → Forall is_byte data → Z.of_nat (length data) <= 2 ^ 30 →
  Forall is_byte m → (c < length (bodies bits data))%nat →
  0 <= off → off + Z.of_nat (length m) <= bsz bits → (length m <= 4)%nat →
  m ≠ take (length m) (drop (Z.to_nat (Z.of_nat c * bsz bits + off)) (image CRC32 bits data)) →
  fc_f fc = mkFile (damaged CRC32 bits data c off m) p → fc_datasz fc = dsz bits →
  (∃ fc' bad, crcCheckVerify CRC32 fc = Some (fc', R_one (Z.of_nat c * bsz bits) bad, -1) ∧
     ∀ a was should, (a, was, should) ∈ bad ↔
       0 <= a < Z.of_nat c * bsz bits + dsz bits + 2 ∧ damaged CRC32 bits data c off m !! Z.to_nat a = Some was ∧
       image CRC32 bits data !! Z.to_nat a = Some should ∧ was ≠ should) ∧
  (p = Z.of_nat c * bsz bits → fc_boff fc = bst bits c → fc_oldfmt fc = false → fc_filesz fc = -1 →
     (fc_doXor fc = true → ∃ xs, fc_xor fc = Some xs ∧ Z.of_nat (length xs) = dsz bits + 2) →
     ∃ fc', readBlock CRC32 (read_fuel fc) fc = Some (fc', [], -1)).
Proof.
  intros Hb Hd Hdl Hm Hc Ho1 Ho2 Hl4 Hne Hf Hdz. pose proof (image_size CRC32 bits data Hb Hd Hdl) as Hs.
  pose proof (software_crc32c_residue 0) as Hres. split.
  - exact (damaged_verify CRC32 bits Hb data Hd Hs Hres c off m Hc (conj Ho1 Ho2) Hl4 Hm Hne fc p Hf Hdz).
  - intros -> Hbo Hold Hfz Hdx. unfold read_fuel.
    exact (damaged_read CRC32 bits Hb data Hd Hs Hres c off m Hc (conj Ho1 Ho2) Hl4 Hm Hne fc _ Hf Hbo Hdz Hold Hfz Hdx).
Qed.

(** The two bytes of the length and the first of the checksum of the second
    block. *)
Definition ex_handle : fcrc :=
  mkFc true false false false 58 6 (mkFile (damaged CRC32 6 ex_data 1 58 [1; 3; 5]) 64) false false true false false
    (-1) 50 50 0 0 [] 0 0 (Some (replicate 60 0)).

Lemma crc_damage_located_witness :
  ((λ r, r.1.2) <$> crcCheckVerify CRC32 ex_handle = Some (R_one 64 [(122, 1, 58); (123, 3, 0)])) ∧
  (∃ fc' bad, crcCheckVerify CRC32 ex_handle = Some (fc', R_one (Z.of_nat 1 * bsz 6) bad, -1) ∧
     ∀ a was should, (a, was, should) ∈ bad ↔
       0 <= a < Z.of_nat 1 * bsz 6 + dsz 6 + 2 ∧ damaged CRC32 6 ex_data 1 58 [1; 3; 5] !! Z.to_nat a = Some was ∧
       image CRC32 6 ex_data !! Z.to_nat a = Some should ∧ was ≠ should) ∧
  ∃ fc', readBlock CRC32 (read_fuel ex_handle) ex_handle = Some (fc', [], -1).
Proof.
  split; [vm_compute; reflexivity|]. destruct (crc_damage_located 6 ex_data 1 58 [1; 3; 5] ex_handle 64) as [H1 H2].
  - lia.
  - unfold ex_data. apply Forall_map, Forall_forall. intros i _. cbn. apply mod_byte.
  - vm_compute. discriminate.
  - rewrite !Forall_cons. unfold is_byte. split_and!; lia || apply Forall_nil_2.
  - vm_compute. lia.
  - lia.
  - vm_compute. discriminate.
  - cbn. lia.
  - vm_compute. discriminate.
  - reflexivity.
  - reflexivity.
  - split; [exact H1|]. apply H2; try reflexivity. intros _. by exists (replicate 60 0).
Defined.

(** The block number times the block size is computed on 32 bits: a seek to the
    block at 4 GiB moves the file to its start while the handle takes itself to
    be elsewhere. *)
Example seekBlock_4G :
  let fc := mkFc true false false false 65530 16 (mkFile [] 0) false false false true false (-1) (65536 * 65530) 0 0 0 [] 0 0 None in
  (f_pos (fc_f (seekBlock fc)), fc_boff (seekBlock fc)) = (0, u32 (65536 * 65530 - 8)).
Proof. vm_compute. reflexivity. Qed.
