(* ===== verification/HashIface.v ===== *)
(** * HashIface: what a hash promises its users

    The hashes of src/src/libc/hash are used through the table of operations of
    hash.c.  [HashOps] is that table as far as the modelled clients call it, and
    [HashLaws] is the contract: every operation behaves as the operation of the
    same name on a finite map.  Clients are proved against the contract, the
    implementations (U32Hash.v, MemHash.v) discharge it. *)

From S2P Require Import Prelude.
From stdpp Require Import base numbers list gmap.
From Stdlib Require Import ZArith Lia.

(** [None] is a failed assert or a loop that does not end.  [hash_insert] says
    whether the key was new; [hash_poke] is an assignment through the [vptr] a
    lookup of the key has left, which must fit the old value ([hash_fits]). *)
Class HashOps (K V H : Type) := {
  hash_fetch : H → K → option (option V);
  hash_insert : H → K → V → option (H * bool);
  hash_store : H → K → V → option H;
  hash_poke : H → K → V → option H;
  hash_items : H → option (list (K * V));
  hash_count : H → Z
}.

Class HashLaws (K V H : Type) `{Countable K} `{HashOps K V H} := {
  hash_inv : H → Prop;
  hash_abs : H → gmap K V;
  hash_okkey : K → Prop;
  hash_max : Z;
  hash_fits : V → V → Prop;
  fetch_law : ∀ h k, hash_inv h → hash_okkey k → hash_fetch h k = Some (hash_abs h !! k);
  insert_law : ∀ h k v, hash_inv h → hash_okkey k → (Z.of_nat (size (hash_abs h)) < hash_max)%Z →
    ∃ h', hash_insert h k v = Some (h', bool_decide (hash_abs h !! k = None)) ∧ hash_inv h' ∧
      hash_abs h' = match hash_abs h !! k with Some _ => hash_abs h | None => <[k:=v]> (hash_abs h) end;
  store_law : ∀ h k v, hash_inv h → hash_okkey k → (Z.of_nat (size (hash_abs h)) < hash_max)%Z →
    ∃ h', hash_store h k v = Some h' ∧ hash_inv h' ∧ hash_abs h' = <[k:=v]> (hash_abs h);
  poke_law : ∀ h k v w, hash_inv h → hash_okkey k → hash_abs h !! k = Some w → hash_fits w v →
    ∃ h', hash_poke h k v = Some h' ∧ hash_inv h' ∧ hash_abs h' = <[k:=v]> (hash_abs h);
  items_law : ∀ h, hash_inv h → ∃ l, hash_items h = Some l ∧ l ≡ₚ map_to_list (hash_abs h);
  count_law : ∀ h, hash_inv h → hash_count h = Z.of_nat (size (hash_abs h));
  okkey_law : ∀ h k, hash_inv h → is_Some (hash_abs h !! k) → hash_okkey k
}.

(** ** Whole histories

    A program that uses a hash sees what it would see of a finite map. *)

Local Open Scope Z_scope.

Local Open Scope bk_scope.

Inductive hop (K V : Type) := HFetch (k : K) | HInsert (k : K) (v : V) | HStore (k : K) (v : V).

Arguments HFetch {K V} k.
Arguments HInsert {K V} k v.
Arguments HStore {K V} k v.

Definition hop_key {K V} (o : hop K V) : K :=
  match o with HFetch k | HInsert k _ | HStore k _ => k end.

(** What the caller sees: the value fetched, or whether an insert was new. *)
Inductive hres (V : Type) := RVal (v : option V) | RNew (b : bool) | RDone.

Arguments RVal {V} v.
Arguments RNew {V} b.
Arguments RDone {V}.

Section Histories.
Context {K V H : Type} `{Countable K} {ops : HashOps K V H}.

Definition hash_step (h : H) (o : hop K V) : option (H * hres V) :=
  match o with
  | HFetch k => let? r := hash_fetch h k in Some (h, RVal r)
  | HInsert k v => let? (h, b) := hash_insert h k v in Some (h, RNew b)
  | HStore k v => let? h := hash_store h k v in Some (h, RDone)
  end.

Fixpoint hash_run (h : H) (os : list (hop K V)) : option (H * list (hres V)) :=
  match os with
  | [] => Some (h, [])
  | o :: os =>
      let? (h, r) := hash_step h o in
      let? (h, rs) := hash_run h os in
      Some (h, r :: rs)
  end.

Definition map_step (m : gmap K V) (o : hop K V) : gmap K V * hres V :=
  match o with
  | HFetch k => (m, RVal (m !! k))
  | HInsert k v => match m !! k with Some _ => (m, RNew false) | None => (<[k:=v]> m, RNew true) end
  | HStore k v => (<[k:=v]> m, RDone)
  end.

Fixpoint map_run (m : gmap K V) (os : list (hop K V)) : gmap K V * list (hres V) :=
  match os with
  | [] => (m, [])
  | o :: os => let '(m, r) := map_step m o in let '(m, rs) := map_run m os in (m, r :: rs)
  end.

Context {laws : HashLaws K V H}.

Lemma size_insert_le (m : gmap K V) k v : (size (<[k:=v]> m) <= S (size m))%nat.
Proof.
  destruct (m !! k) as [w|] eqn:E.
  - rewrite map_size_insert_Some by by rewrite E. lia.
  - rewrite map_size_insert_None by done. lia.
Qed.

Lemma map_step_size m o : (size (map_step m o).1 <= S (size m))%nat.
Proof.
  destruct o as [k|k v|k v]; cbn [map_step]; [simpl; lia| |apply size_insert_le].
  destruct (m !! k); cbn [fst]; [lia|apply size_insert_le].
Qed.

Lemma hash_step_ok h o :
  hash_inv h → hash_okkey (hop_key o) → Z.of_nat (size (hash_abs h)) < hash_max →
  ∃ h', hash_step h o = Some (h', (map_step (hash_abs h) o).2) ∧ hash_inv h' ∧
    hash_abs h' = (map_step (hash_abs h) o).1.
Proof.
  intros Hi Hk Hm. destruct o as [k|k v|k v]; cbn [hash_step map_step hop_key] in *.
  - rewrite fetch_law by done. by exists h.
  - destruct (insert_law h k v Hi Hk Hm) as (h' & -> & Hi' & Ha'). exists h'.
    destruct (hash_abs h !! k); by split_and!.
  - destruct (store_law h k v Hi Hk Hm) as (h' & -> & Hi' & Ha'). by exists h'.
Qed.

Lemma hash_run_ok os : ∀ h,
  hash_inv h → Forall hash_okkey (map hop_key os) →
  Z.of_nat (size (hash_abs h) + length os) <= hash_max →
  ∃ h', hash_run h os = Some (h', (map_run (hash_abs h) os).2) ∧ hash_inv h' ∧
    hash_abs h' = (map_run (hash_abs h) os).1.
Proof.
  induction os as [|o os IH]; intros h Hi Hk Hm; cbn [hash_run map_run map length] in *; [by exists h|].
  apply Forall_cons in Hk as [Hk1 Hk]. destruct (hash_step_ok h o Hi Hk1 ltac:(lia)) as (h1 & -> & Hi1 & Ha1).
  pose proof (map_step_size (hash_abs h) o) as Hsz.
  destruct (map_step (hash_abs h) o) as [m1 r1]. cbn [fst snd] in *. subst m1.
  destruct (IH h1 Hi1 Hk ltac:(lia)) as (h2 & -> & Hi2 & Ha2). exists h2.
  by destruct (map_run (hash_abs h1) os) as [m2 rs].
Qed.

End Histories.
