(* ===== verification/U32Hash.v ===== *)
(** * U32Hash: the u32 to value hash

    src/src/libc/hash/u32hash.c: open addressing with linear probing in a table
    whose size is a power of two, doubled when it is three quarters full.
    Values of more than four bytes live in a side buffer and the table holds
    their offsets, here counted in values: the code counts bytes in a u32, so
    what is proved is about buffers of less than 4 GiB.

    Proved: every lookup ends, because the table is never full; the operations
    implement a finite map (the instance [u32hash_laws] of the hash contract). *)

From S2P Require Import Prelude HashIface.
From stdpp Require Import base numbers list gmap.
From Stdlib Require Import ZArith Lia.

Local Open Scope Z_scope.

Local Open Scope bk_scope.

Section U32Hash.

(** The values, all of the [vlen] bytes given to [u32hash_new]; whether [vlen] is
    more than four; a hash of the key ([crc32c] in the code, any function here). *)
Context {V : Type} (wide : bool) (HASH : Z → Z) (zero : V).

(** [val]: the value itself, or its offset in [vals] counted in values. *)
Record keyval := mkKv { kv_key : Z; kv_val : V + nat }.

Definition kv0 : keyval := mkKv 0 (if wide then inr O else inl zero).

Record u32hash := mkU32 {
  u_table : list keyval;
  u_size : Z;
  u_cnt : Z;
  u_vals : list V
}.

Definition u32hash_new : u32hash := mkU32 (replicate 32 kv0) 32 0 [].

Definition slot (h : u32hash) (n : Z) : option keyval := u_table h !! Z.to_nat n.

(** The bytes [VPTR(h, n)] points at. *)
Definition VPTR (h : u32hash) (e : keyval) : option V :=
  match kv_val e with inl v => Some v | inr o => u_vals h !! o end.

Fixpoint lookup_loop (fuel : nat) (h : u32hash) (key n : Z) : option Z :=
  match fuel with
  | O => None
  | S fuel =>
      let? e := slot h n in
      if negb (kv_key e =? 0) && negb (kv_key e =? key)
      then lookup_loop fuel h key (Z.land (n + 1) (u_size h - 1))
      else Some n
  end.

(** The slot, after at most one round of the table. *)
Definition lookup (h : u32hash) (key : Z) : option Z :=
  lookup_loop (Z.to_nat (u_size h)) h key (Z.land (HASH key) (u_size h - 1)).

Definition u32hash_fetch (h : u32hash) (key : Z) : option (option V) :=
  let? n := lookup h key in
  let? e := slot h n in
  if kv_key e =? 0 then Some None else let? v := VPTR h e in Some (Some v).

Definition set_slot (h : u32hash) (n : Z) (e : keyval) : u32hash :=
  mkU32 (<[Z.to_nat n := e]> (u_table h)) (u_size h) (u_cnt h) (u_vals h).

Fixpoint resize_loop (old : list keyval) (h : u32hash) : option u32hash :=
  match old with
  | [] => Some h
  | e :: old =>
      if kv_key e =? 0 then resize_loop old h else
      let? n := lookup h (kv_key e) in
      resize_loop old (set_slot h n e)
  end.

Definition resize (h : u32hash) : option u32hash :=
  let size := u32 (2 * u_size h) in
  resize_loop (u_table h) (mkU32 (replicate (Z.to_nat size) kv0) size (u_cnt h) (u_vals h)).

(** [memcpy(vptr, v, vlen)] for the entry [e] of slot [n]. *)
Definition set_value (h : u32hash) (n : Z) (e : keyval) (v : V) : u32hash :=
  match kv_val e with
  | inl _ => set_slot h n (mkKv (kv_key e) (inl v))
  | inr o => mkU32 (u_table h) (u_size h) (u_cnt h) (<[o := v]> (u_vals h))
  end.

(** [None] on a key of 0.  The flag is false on EEXIST. *)
Definition u32hash_insert (h : u32hash) (key : Z) (v : V) : option (u32hash * bool) :=
  if key =? 0 then None else
  let? h := (if u32 (3 * u_size h) / 4 <? u_cnt h then resize h else Some h) in
  let? n := lookup h key in
  let? e := slot h n in
  if negb (kv_key e =? 0) then Some (h, false) else
  let h := mkU32 (u_table h) (u_size h) (u32 (u_cnt h + 1)) (u_vals h) in
  Some (if wide
        then let h := set_slot h n (mkKv key (inr (length (u_vals h)))) in
             mkU32 (u_table h) (u_size h) (u_cnt h) (u_vals h ++ [v])
        else set_slot h n (mkKv key (inl v)), true).

(** An assignment through [vptr]. *)
Definition u32hash_poke (h : u32hash) (key : Z) (v : V) : option u32hash :=
  let? n := lookup h key in
  let? e := slot h n in
  if kv_key e =? 0 then None else Some (set_value h n e v).

Definition u32hash_store (h : u32hash) (key : Z) (v : V) : option u32hash :=
  let? (h, fresh) := u32hash_insert h key v in
  if fresh then Some h else u32hash_poke h key v.

(** [while ((n < h->size) && !h->table[n].key) ++n]: the slot, or [None] past the end. *)
Fixpoint next_loop (fuel : nat) (h : u32hash) (n : Z) : option (option Z) :=
  match fuel with
  | O => None
  | S fuel =>
      if n <? u_size h then
        let? e := slot h n in
        if kv_key e =? 0 then next_loop fuel h (n + 1) else Some (Some n)
      else Some None
  end.

Definition u32hash_next (h : u32hash) (n : Z) : option (option Z) :=
  if n <? u_size h then next_loop (S (Z.to_nat (u_size h))) h (n + 1) else None.

Definition u32hash_first (h : u32hash) : option (option Z) :=
  let? e := slot h 0 in
  if kv_key e =? 0 then u32hash_next h 0 else Some (Some 0).

(** [EACH_HASH]: the keys and values the loop sees. *)
Fixpoint each_loop (fuel : nat) (h : u32hash) (n : option Z) : option (list (Z * V)) :=
  match n with
  | None => Some []
  | Some n =>
      match fuel with
      | O => None
      | S fuel =>
          let? e := slot h n in
          let? v := VPTR h e in
          let? n' := u32hash_next h n in
          let? l := each_loop fuel h n' in
          Some ((kv_key e, v) :: l)
      end
  end.

Definition u32hash_each (h : u32hash) : option (list (Z * V)) :=
  let? n := u32hash_first h in each_loop (Z.to_nat (u_size h)) h n.

Definition u32hash_count (h : u32hash) : Z := u_cnt h.

(** ** Occupied slots *)

Definition used (e : keyval) : Prop := kv_key e ≠ 0.

#[local] Instance used_dec e : Decision (used e).
Proof. unfold used. apply _. Defined.

Definition occ (t : list keyval) : list keyval := filter used t.

Lemma occ_split t n e :
  t !! n = Some e → occ t = occ (take n t) ++ occ [e] ++ occ (drop (S n) t).
Proof. intros Hn. unfold occ. rewrite <- !filter_app. by rewrite <- (take_drop_middle t n e Hn) at 1. Qed.

Lemma occ_insert_split t n e :
  (n < length t)%nat → occ (<[n:=e]> t) = occ (take n t) ++ occ [e] ++ occ (drop (S n) t).
Proof.
  intros Hn. rewrite (occ_split _ n e) by by apply list_lookup_insert_eq.
  by rewrite take_insert_ge, drop_insert_lt by lia.
Qed.

Lemma occ_single e : used e → occ [e] = [e].
Proof. intros. unfold occ. by rewrite filter_cons_True. Qed.

Lemma occ_free e : ¬ used e → occ [e] = [].
Proof. intros. unfold occ. by rewrite filter_cons_False. Qed.

Lemma occ_insert t n e e0 :
  t !! n = Some e0 → ¬ used e0 → used e → occ (<[n:=e]> t) ≡ₚ e :: occ t.
Proof.
  intros Hn H0 He. rewrite occ_insert_split by (by eapply lookup_lt_Some).
  rewrite (occ_split t n e0), (occ_single e), (occ_free e0) by done. cbn [app].
  by rewrite Permutation_middle.
Qed.

Lemma elem_of_occ t e : e ∈ occ t ↔ used e ∧ ∃ n, t !! n = Some e.
Proof. unfold occ. rewrite list_elem_of_filter, list_elem_of_lookup. done. Qed.

Lemma occ_free_slot t : (length (occ t) < length t)%nat → ∃ n e, t !! n = Some e ∧ ¬ used e.
Proof.
  unfold occ. induction t as [|e t IH]; cbn [length]; [simpl; lia|]. intros Hl.
  destruct (decide (used e)) as [He|He]; [|by exists O, e].
  rewrite filter_cons_True in Hl by done. cbn [length] in Hl.
  destruct IH as (n & e' & ? & ?); [lia|]. by exists (S n), e'.
Qed.

(** ** Probe sequences *)

Definition pos (s key j : Z) : Z := (HASH key + j) mod s.

Definition pow2 (s : Z) : Prop := ∃ p, 5 <= p <= 30 ∧ s = 2 ^ p.

Lemma pow2_pos s : pow2 s → 32 <= s < 2 ^ 31.
Proof.
  intros (p & Hp & ->). split.
  - change 32 with (2 ^ 5). apply Z.pow_le_mono_r; lia.
  - apply Z.pow_lt_mono_r; lia.
Qed.

Lemma pow2_mask s x : pow2 s → Z.land x (s - 1) = x mod s.
Proof. intros (p & Hp & ->). rewrite <- Z.land_ones by lia. by rewrite Z.ones_equiv, Z.sub_1_r. Qed.

Lemma pos_range s key j : pow2 s → 0 <= pos s key j < s.
Proof. intros Hs. apply pow2_pos in Hs. apply Z.mod_pos_bound. lia. Qed.

Lemma pos_next s key j : pow2 s → Z.land (pos s key j + 1) (s - 1) = pos s key (j + 1).
Proof.
  intros Hs. rewrite pow2_mask by done. unfold pos. apply pow2_pos in Hs.
  rewrite Zplus_mod_idemp_l. f_equal. lia.
Qed.

(** Every slot is on the probe sequence of every key. *)
Lemma pos_onto s key n : pow2 s → 0 <= n < s → ∃ j, 0 <= j < s ∧ pos s key j = n.
Proof.
  intros Hs Hn. apply pow2_pos in Hs. exists ((n - HASH key) mod s).
  split; [apply Z.mod_pos_bound; lia|]. unfold pos. rewrite Zplus_mod_idemp_r.
  replace (HASH key + (n - HASH key)) with n by lia. by apply Z.mod_small.
Qed.

(** The slots of the keys: all slots probed before are used by other keys. *)
Record tab_ok (t : list keyval) (s : Z) : Prop := {
  tk_pow2 : pow2 s;
  tk_len : length t = Z.to_nat s;
  tk_chain : ∀ n e, t !! n = Some e → used e →
    ∃ j, 0 <= j < s ∧ Z.of_nat n = pos s (kv_key e) j ∧
      ∀ i, 0 <= i < j → ∃ e', t !! Z.to_nat (pos s (kv_key e) i) = Some e' ∧ used e' ∧ kv_key e' ≠ kv_key e
}.

Definition stops (t : list keyval) (s key j : Z) : Prop :=
  ∃ e, t !! Z.to_nat (pos s key j) = Some e ∧ (kv_key e = 0 ∨ kv_key e = key).

Lemma tab_slot t s key j : tab_ok t s → ∃ e, t !! Z.to_nat (pos s key j) = Some e.
Proof.
  intros Ht. destruct (lookup_lt_is_Some_2 t (Z.to_nat (pos s key j))) as [e He]; [|eauto].
  rewrite (tk_len _ _ Ht). pose proof (pos_range s key j (tk_pow2 _ _ Ht)). lia.
Qed.

Lemma stops_dec t s key j : tab_ok t s → {stops t s key j} + {¬ stops t s key j}.
Proof.
  intros Ht. destruct (t !! Z.to_nat (pos s key j)) as [e|] eqn:E.
  - destruct (decide (kv_key e = 0 ∨ kv_key e = key)) as [?|Hn]; [left; by exists e|right].
    intros (e' & He' & ?). rewrite E in He'. by simplify_eq.
  - right. intros (e' & He' & ?). congruence.
Qed.

(** A bounded search has a first hit. *)
Lemma first_stop t s key (n : nat) : tab_ok t s →
  (∃ j, 0 <= j < Z.of_nat n ∧ stops t s key j ∧ ∀ i, 0 <= i < j → ¬ stops t s key i) ∨
  ∀ i, 0 <= i < Z.of_nat n → ¬ stops t s key i.
Proof.
  intros Ht. induction n as [|n IH]; [right; intros; lia|].
  destruct IH as [(j & Hj & Hs & Hm)|Hno]; [left; exists j; split_and!; done || lia|].
  destruct (stops_dec t s key (Z.of_nat n) Ht) as [Hs|Hs].
  - left. exists (Z.of_nat n). split_and!; done || lia.
  - right. intros i Hi. destruct (decide (i = Z.of_nat n)) as [->|]; [done|]. apply Hno. lia.
Qed.

Lemma lookup_loop_run fuel h key J j :
  tab_ok (u_table h) (u_size h) → 0 <= j <= J → (Z.to_nat (J - j) < fuel)%nat →
  stops (u_table h) (u_size h) key J → (∀ i, j <= i < J → ¬ stops (u_table h) (u_size h) key i) →
  lookup_loop fuel h key (pos (u_size h) key j) = Some (pos (u_size h) key J).
Proof.
  intros Ht. revert j. induction fuel as [|fuel IH]; intros j Hj Hf HJ Hno; [lia|]. cbn [lookup_loop].
  unfold slot. destruct (decide (j = J)) as [->|Hne].
  - destruct HJ as (e & -> & He).
    destruct (Z.eqb_spec (kv_key e) 0); [done|]. destruct (Z.eqb_spec (kv_key e) key); [done|]. by destruct He.
  - destruct (tab_slot _ _ key j Ht) as [e He]. rewrite He.
    destruct (Z.eqb_spec (kv_key e) 0) as [E|E]; [destruct (Hno j); [lia|by exists e; auto]|].
    destruct (Z.eqb_spec (kv_key e) key) as [E'|E']; [destruct (Hno j); [lia|by exists e; auto]|].
    cbn [negb andb]. rewrite pos_next by apply (tk_pow2 _ _ Ht).
    apply IH; [lia|lia|done|]. intros i Hi. apply Hno. lia.
Qed.

(** A table with a free slot: the lookup ends, at the key or at the free slot
    where it belongs. *)
Lemma lookup_ok h key :
  tab_ok (u_table h) (u_size h) → (length (occ (u_table h)) < length (u_table h))%nat → key ≠ 0 →
  ∃ j e, 0 <= j < u_size h ∧ lookup h key = Some (pos (u_size h) key j) ∧
    slot h (pos (u_size h) key j) = Some e ∧
    (∀ i, 0 <= i < j → ¬ stops (u_table h) (u_size h) key i) ∧
    (kv_key e = key ∨ kv_key e = 0 ∧ ∀ e', e' ∈ occ (u_table h) → kv_key e' ≠ key).
Proof.
  intros Ht Hfree Hk. set (s := u_size h) in *. set (t := u_table h) in *.
  pose proof (tk_pow2 _ _ Ht) as Hp. pose proof (pow2_pos _ Hp).
  destruct (occ_free_slot t Hfree) as (n & e & Hn & He).
  assert (0 <= Z.of_nat n < s).
  { apply lookup_lt_Some in Hn. rewrite (tk_len _ _ Ht) in Hn. lia. }
  destruct (pos_onto s key (Z.of_nat n) Hp ltac:(done)) as (j0 & Hj0 & Ep).
  destruct (first_stop t s key (Z.to_nat s) Ht) as [(j & Hj & Hs & Hm)|Hno]; last first.
  { destruct (Hno j0); [lia|]. exists e. rewrite Ep, Nat2Z.id. split; [done|left].
    unfold used in He. destruct (decide (kv_key e = 0)); tauto. }
  pose proof Hs as (e1 & He1 & Hk1). exists j, e1. split_and!; [lia|lia| |done|done|].
  - unfold lookup. fold s. rewrite pow2_mask by done.
    replace (HASH key mod s) with (pos s key 0) by (unfold pos; f_equal; lia).
    apply lookup_loop_run; [done|lia|lia|done|]. intros i Hi. apply Hm. lia.
  - destruct Hk1 as [Hz|]; [right|by left]. split; [done|]. intros e' Hin Heq.
    apply elem_of_occ in Hin as (Hu & n' & Hn').
    destruct (tk_chain _ _ Ht n' e' Hn' Hu) as (j' & Hj' & En' & Hch). rewrite Heq in *.
    destruct (decide (j < j')) as [Hlt|Hge].
    + destruct (Hch j ltac:(lia)) as (e2 & He2 & Hu2 & _). rewrite He1 in He2. by simplify_eq.
    + assert (stops t s key j').
      { exists e'. rewrite <- En', Nat2Z.id. auto. }
      destruct (decide (j' = j)) as [->|]; [|destruct (Hm j' ltac:(lia)); done].
      rewrite <- En', Nat2Z.id, Hn' in He1. by simplify_eq.
Qed.

(** ** Filling slots *)

Lemma replicate_free n m e : replicate n kv0 !! m = Some e → ¬ used e.
Proof. intros Hl. apply lookup_replicate in Hl as [-> _]. by intros []. Qed.

Lemma occ_replicate n : occ (replicate n kv0) = [].
Proof. induction n as [|n IH]; [done|]. cbn [replicate]. unfold occ in *. rewrite filter_cons_False; [done|]. by intros []. Qed.

Lemma tab_ok_empty s : pow2 s → tab_ok (replicate (Z.to_nat s) kv0) s.
Proof.
  intros Hs. split; [done|by rewrite length_replicate|]. intros n e Hn Hu. by apply replicate_free in Hn.
Qed.

(** Using the free slot a lookup found. *)
Lemma tab_ok_fill h key j e e0 :
  tab_ok (u_table h) (u_size h) → 0 <= j < u_size h → slot h (pos (u_size h) key j) = Some e0 → ¬ used e0 →
  (∀ i, 0 <= i < j → ¬ stops (u_table h) (u_size h) key i) → kv_key e = key → key ≠ 0 →
  tab_ok (<[Z.to_nat (pos (u_size h) key j) := e]> (u_table h)) (u_size h).
Proof.
  intros Ht Hj Hs Hu Hno Hk Hk0. set (s := u_size h) in *. set (t := u_table h) in *.
  set (m := Z.to_nat (pos s key j)). pose proof (tk_pow2 _ _ Ht) as Hp.
  assert (Hm : (m < length t)%nat) by by eapply lookup_lt_Some.
  assert (Hgrow : ∀ n e', t !! n = Some e' → used e' → <[m:=e]> t !! n = Some e').
  { intros n e' Hn Hue. rewrite list_lookup_insert_ne; [done|]. intros <-.
    unfold slot in Hs. fold t m in Hs. rewrite Hn in Hs. by simplify_eq. }
  split; [done|by rewrite length_insert; apply (tk_len _ _ Ht)|].
  intros n e' Hn Hue. destruct (decide (n = m)) as [->|Hne].
  - rewrite list_lookup_insert_eq in Hn by done. simplify_eq. exists j. split_and!; [lia|lia| |].
    + unfold m. rewrite Z2Nat.id; [done|]. apply (pos_range s _ j Hp).
    + intros i Hi. destruct (tab_slot t s (kv_key e') i Ht) as [e2 He2].
      assert (¬ (kv_key e2 = 0 ∨ kv_key e2 = kv_key e')) as Hns by (intros ?; apply (Hno i Hi); by exists e2).
      exists e2. unfold used. split_and!; [apply Hgrow; [done|]; unfold used|..]; tauto.
  - rewrite list_lookup_insert_ne in Hn by done.
    destruct (tk_chain _ _ Ht n e' Hn Hue) as (j' & Hj' & En & Hch). exists j'. split_and!; [lia|lia|done|].
    intros i Hi. destruct (Hch i Hi) as (e2 & He2 & Hu2 & Hk2). exists e2. auto.
Qed.

(** Overwriting the value of a slot. *)
Lemma tab_ok_same t s n e e0 :
  tab_ok t s → t !! n = Some e0 → kv_key e = kv_key e0 → tab_ok (<[n:=e]> t) s.
Proof.
  intros Ht Hn Hk. split; [apply Ht|by rewrite length_insert; apply (tk_len _ _ Ht)|].
  assert (Hback : ∀ m e', <[n:=e]> t !! m = Some e' → ∃ e1, t !! m = Some e1 ∧ kv_key e1 = kv_key e').
  { intros m e' Hm. destruct (decide (m = n)) as [->|].
    - rewrite list_lookup_insert_eq in Hm by by eapply lookup_lt_Some. simplify_eq. eauto.
    - rewrite list_lookup_insert_ne in Hm by done. eauto. }
  assert (Hfor : ∀ m e', t !! m = Some e' → ∃ e1, <[n:=e]> t !! m = Some e1 ∧ kv_key e1 = kv_key e').
  { intros m e' Hm. destruct (decide (m = n)) as [->|].
    - rewrite list_lookup_insert_eq by by eapply lookup_lt_Some. simplify_eq. eauto.
    - rewrite list_lookup_insert_ne by done. eauto. }
  intros m e' Hm Hu. destruct (Hback m e' Hm) as (e1 & He1 & Ek).
  destruct (tk_chain _ _ Ht m e1 He1) as (j & Hj & Em & Hch); [by unfold used in *; rewrite Ek|].
  rewrite Ek in *. exists j. split_and!; [lia|lia|done|]. intros i Hi.
  destruct (Hch i Hi) as (e2 & He2 & Hu2 & Hk2). destruct (Hfor _ _ He2) as (e3 & ? & E3).
  exists e3. unfold used in *. rewrite E3. auto.
Qed.

(** ** Values *)

Definition deref (vals : list V) (e : keyval) : option V :=
  match kv_val e with inl v => Some v | inr o => vals !! o end.

Definition items (vals : list V) (l : list keyval) : list (Z * V) :=
  omap (λ e, (kv_key e,.) <$> deref vals e) l.

(** The value field is of the right kind, offsets point into the buffer and are
    not shared. *)
Definition val_ok (vals : list V) (e : keyval) : Prop :=
  match kv_val e with inl _ => wide = false | inr o => wide = true ∧ (o < length vals)%nat end.

Definition offs (l : list keyval) : list nat :=
  omap (λ e, match kv_val e with inl _ => None | inr o => Some o end) l.

Record vals_ok (vals : list V) (l : list keyval) : Prop := {
  vk_keys : NoDup (map kv_key l);
  vk_val : Forall (val_ok vals) l;
  vk_offs : NoDup (offs l)
}.

#[local] Instance items_Proper vals : Proper (Permutation ==> Permutation) (items vals).
Proof. intros l1 l2 Hl. unfold items. by rewrite Hl. Qed.

Lemma vals_ok_perm vals l1 l2 : l1 ≡ₚ l2 → vals_ok vals l1 → vals_ok vals l2.
Proof.
  intros Hp [Hk Hv Ho]. split.
  - by rewrite <- Hp.
  - by rewrite <- Hp.
  - unfold offs in *. by rewrite <- Hp.
Qed.

Lemma val_ok_deref vals e : val_ok vals e → is_Some (deref vals e).
Proof.
  unfold val_ok, deref. destruct (kv_val e); [eauto|]. intros [_ ?]. by apply lookup_lt_is_Some_2.
Qed.

Lemma items_cons vals e l v : deref vals e = Some v → items vals (e :: l) = (kv_key e, v) :: items vals l.
Proof. intros Hd. unfold items. cbn [omap list_omap]. by rewrite Hd. Qed.

Lemma items_keys vals l : Forall (val_ok vals) l → (items vals l).*1 = map kv_key l.
Proof.
  induction 1 as [|e l He Hl IH]; [done|]. destruct (val_ok_deref vals e He) as [v Hv].
  rewrite (items_cons vals e l v Hv). cbn. by rewrite IH.
Qed.

Lemma items_length vals l : Forall (val_ok vals) l → length (items vals l) = length l.
Proof. intros Hl. rewrite <- (length_fmap fst), items_keys by done. apply length_map. Qed.

Lemma items_nodup vals l : vals_ok vals l → NoDup (items vals l).*1.
Proof. intros [Hk Hv _]. by rewrite items_keys. Qed.

Lemma elem_of_items vals l k v :
  (k, v) ∈ items vals l ↔ ∃ e, e ∈ l ∧ kv_key e = k ∧ deref vals e = Some v.
Proof.
  unfold items. rewrite list_elem_of_omap. split.
  - intros (e & He & Hf). apply fmap_Some in Hf as (v' & ? & ?). naive_solver.
  - intros (e & He & <- & Hd). exists e. by rewrite Hd.
Qed.

(** ** The table as a finite map *)

Definition u32_abs (h : u32hash) : gmap Z V := list_to_map (items (u_vals h) (occ (u_table h))).

Record u32_inv (h : u32hash) : Prop := {
  ui_tab : tab_ok (u_table h) (u_size h);
  ui_vals : vals_ok (u_vals h) (occ (u_table h));
  ui_cnt : u_cnt h = Z.of_nat (length (occ (u_table h)));
  ui_load : 4 * u_cnt h <= 3 * u_size h + 4
}.

Lemma u32_abs_spec h k v : vals_ok (u_vals h) (occ (u_table h)) →
  u32_abs h !! k = Some v ↔ ∃ e, e ∈ occ (u_table h) ∧ kv_key e = k ∧ deref (u_vals h) e = Some v.
Proof.
  intros Hv. unfold u32_abs. rewrite <- elem_of_list_to_map by by apply items_nodup. apply elem_of_items.
Qed.

Lemma u32_abs_none h k : vals_ok (u_vals h) (occ (u_table h)) →
  (∀ e, e ∈ occ (u_table h) → kv_key e ≠ k) → u32_abs h !! k = None.
Proof.
  intros Hv Hno. destruct (u32_abs h !! k) as [v|] eqn:E; [|done].
  apply u32_abs_spec in E as (e & He & Hk & _); [|done]. by destruct (Hno e He).
Qed.

Lemma u32_abs_perm h1 h2 :
  vals_ok (u_vals h1) (occ (u_table h1)) → u_vals h1 = u_vals h2 →
  occ (u_table h1) ≡ₚ occ (u_table h2) → u32_abs h1 = u32_abs h2.
Proof.
  intros Hv Hvals Hp. unfold u32_abs. rewrite <- Hvals. apply list_to_map_proper; [by apply items_nodup|].
  by rewrite Hp.
Qed.

Lemma u32_size h : u32_inv h → Z.of_nat (size (u32_abs h)) = u_cnt h.
Proof.
  intros [_ Hv Hc _]. rewrite Hc. f_equal. unfold u32_abs.
  rewrite <- length_map_to_list, (map_to_list_to_map (items _ _)) by by apply items_nodup.
  apply items_length, Hv.
Qed.

Lemma u32_room h : tab_ok (u_table h) (u_size h) → Z.of_nat (length (occ (u_table h))) < u_size h →
  (length (occ (u_table h)) < length (u_table h))%nat.
Proof. intros Ht Hl. rewrite (tk_len _ _ Ht). lia. Qed.

Lemma u32_inv_room h : u32_inv h → (length (occ (u_table h)) < length (u_table h))%nat.
Proof.
  intros [Ht _ Hc Hl]. apply u32_room; [done|]. pose proof (pow2_pos _ (tk_pow2 _ _ Ht)). lia.
Qed.

(** The found entry is the value of the map. *)
Lemma u32_found h j e key :
  u32_inv h → slot h (pos (u_size h) key j) = Some e → kv_key e = key → key ≠ 0 →
  e ∈ occ (u_table h) ∧ ∃ v, deref (u_vals h) e = Some v ∧ u32_abs h !! key = Some v.
Proof.
  intros Hi Hs Hk Hk0.
  assert (Hin : e ∈ occ (u_table h)) by (apply elem_of_occ; split; [by unfold used; rewrite Hk|eauto]).
  split; [done|]. pose proof (vk_val _ _ (ui_vals _ Hi)) as Hv. rewrite Forall_forall in Hv.
  destruct (val_ok_deref _ _ (Hv e Hin)) as [v Hd]. exists v. split; [done|].
  apply u32_abs_spec; [apply (ui_vals _ Hi)|]. eauto.
Qed.

(** A lookup in a good table, by the two outcomes. *)
Lemma u32_lookup h key : u32_inv h → key ≠ 0 →
  ∃ n e, lookup h key = Some n ∧ slot h n = Some e ∧
    ((kv_key e = key ∧ e ∈ occ (u_table h) ∧ ∃ v, deref (u_vals h) e = Some v ∧ u32_abs h !! key = Some v) ∨
     (kv_key e = 0 ∧ u32_abs h !! key = None ∧
      ∀ e', kv_key e' = key → tab_ok (<[Z.to_nat n := e']> (u_table h)) (u_size h))).
Proof.
  intros Hi Hk. destruct (lookup_ok h key (ui_tab _ Hi) (u32_inv_room h Hi) Hk)
    as (j & e & Hj & Hl & Hs & Hno & Hor).
  exists (pos (u_size h) key j), e. split_and!; [done|done|]. destruct Hor as [He|[He Habs]].
  - left. destruct (u32_found h j e key Hi Hs He Hk) as [Hin Hv]. auto.
  - right. split_and!; [done| |].
    + apply u32_abs_none; [apply (ui_vals _ Hi)|done].
    + intros e' He'. eapply tab_ok_fill; try done; [apply (ui_tab _ Hi)|]. unfold used. tauto.
Qed.

(** ** New and fetch *)

Lemma u32_new_inv : u32_inv u32hash_new ∧ u32_abs u32hash_new = ∅.
Proof.
  assert (Ho : occ (u_table u32hash_new) = []) by apply occ_replicate.
  split.
  - split; [|by rewrite Ho; repeat constructor|by rewrite Ho|simpl; lia].
    apply (tab_ok_empty 32). exists 5. split; [lia|done].
  - unfold u32_abs. by rewrite Ho.
Qed.

Lemma u32_fetch_ok h key : u32_inv h → key ≠ 0 → u32hash_fetch h key = Some (u32_abs h !! key).
Proof.
  intros Hi Hk. unfold u32hash_fetch.
  destruct (u32_lookup h key Hi Hk) as (n & e & -> & -> & [(He & _ & v & Hd & ->)|(He & -> & _)]).
  - destruct (Z.eqb_spec (kv_key e) 0); [congruence|]. unfold VPTR. unfold deref in Hd. by rewrite Hd.
  - by rewrite He.
Qed.

(** ** Resizing *)

(** All entries of the old table go into the new one. *)
Lemma u32_resize_loop_ok old : ∀ h,
  tab_ok (u_table h) (u_size h) → NoDup (map kv_key (occ old ++ occ (u_table h))) →
  Z.of_nat (length (occ old) + length (occ (u_table h))) < u_size h →
  ∃ h', resize_loop old h = Some h' ∧ tab_ok (u_table h') (u_size h') ∧
    u_size h' = u_size h ∧ u_cnt h' = u_cnt h ∧ u_vals h' = u_vals h ∧
    occ (u_table h') ≡ₚ occ old ++ occ (u_table h).
Proof.
  induction old as [|e old IH]; intros h Ht Hnd Hlen; cbn [resize_loop]; [by exists h|].
  destruct (Z.eqb_spec (kv_key e) 0) as [E|E].
  { unfold occ in *. rewrite filter_cons_False in * by (unfold used; tauto). by apply IH. }
  assert (Eo : occ (e :: old) = e :: occ old) by (unfold occ; by rewrite filter_cons_True).
  rewrite Eo in *. cbn [length app map] in *. apply NoDup_cons in Hnd as [Hnin Hnd].
  destruct (lookup_ok h (kv_key e) Ht) as (j & e0 & Hj & -> & Hs & Hno & Hor); [apply u32_room; [done|lia]|done|].
  assert (He0 : ¬ used e0).
  { destruct Hor as [He|[He _]]; [|by unfold used; tauto]. destruct Hnin.
    rewrite <- He. apply list_elem_of_fmap. exists e0. split; [done|]. apply elem_of_app. right.
    apply elem_of_occ. split; [|eauto]. unfold used. congruence. }
  set (h1 := set_slot h (pos (u_size h) (kv_key e) j) e).
  assert (Hp1 : occ (u_table h1) ≡ₚ e :: occ (u_table h)) by by eapply occ_insert.
  destruct (IH h1) as (h' & -> & Ht' & Es & Ec & Ev & Hp).
  - by apply (tab_ok_fill h (kv_key e) j e e0).
  - rewrite Hp1, <- Permutation_middle. cbn [map]. by apply NoDup_cons.
  - rewrite Hp1. cbn [length]. change (u_size h1) with (u_size h). lia.
  - exists h'. split_and!; try done. rewrite Hp, Hp1. by rewrite Permutation_middle.
Qed.

Lemma resize_ok h :
  u32_inv h → u_size h < 2 ^ 30 →
  ∃ h', resize h = Some h' ∧ u32_inv h' ∧ u32_abs h' = u32_abs h ∧ u_cnt h' = u_cnt h ∧
    u_size h' = 2 * u_size h ∧ 4 * u_cnt h' <= 3 * u_size h'.
Proof.
  intros Hi Hsz. pose proof (u32_inv_room h Hi) as Hroom. destruct Hi as [Ht Hv Hc Hl].
  pose proof (tk_pow2 _ _ Ht) as Hp. pose proof (pow2_pos _ Hp) as Hps.
  unfold resize. rewrite u32_small by lia.
  assert (Hp2 : pow2 (2 * u_size h)).
  { destruct Hp as (p & Hp & E). rewrite E in *. exists (p + 1).
    assert (p < 30) by (apply (Z.pow_lt_mono_r_iff 2); lia).
    split; [lia|]. by rewrite Z.pow_add_r, Z.mul_comm by lia. }
  rewrite (tk_len _ _ Ht) in Hroom.
  edestruct (u32_resize_loop_ok (u_table h)) as (h' & -> & Ht' & Es & Ec & Ev & Hperm);
    [by apply tab_ok_empty| | |].
  - cbn [u_table]. rewrite occ_replicate, app_nil_r. apply Hv.
  - cbn [u_table u_size]. rewrite occ_replicate. simpl. lia.
  - cbn [u_table u_size u_cnt u_vals] in *. rewrite occ_replicate, app_nil_r in Hperm.
    assert (Hv' : vals_ok (u_vals h') (occ (u_table h'))) by (rewrite Ev; by eapply vals_ok_perm).
    exists h'. split_and!; [done| | |done|done|].
    + split; [done|done| |]; [by rewrite Ec, Hperm|lia].
    + by apply u32_abs_perm.
    + lia.
Qed.

(** ** Insertion *)

Lemma pow2_le s : pow2 s → s <= 2 ^ 30.
Proof. intros (p & Hp & ->). apply Z.pow_le_mono_r; lia. Qed.

(** Growing the side buffer leaves the old values. *)
Lemma deref_grow vals v e : val_ok vals e → deref (vals ++ [v]) e = deref vals e.
Proof. unfold val_ok, deref. destruct (kv_val e); [done|]. intros [_ ?]. by rewrite lookup_app_l. Qed.

Lemma items_ext vals1 vals2 l :
  Forall (λ e, deref vals1 e = deref vals2 e) l → items vals1 l = items vals2 l.
Proof.
  induction 1 as [|e l He Hl IH]; [done|]. unfold items in *. cbn [omap list_omap]. by rewrite He, IH.
Qed.

Lemma offs_elem l o : o ∈ offs l ↔ ∃ e, e ∈ l ∧ kv_val e = inr o.
Proof.
  unfold offs. rewrite list_elem_of_omap. split.
  - intros (e & He & Hf). exists e. split; [done|]. destruct (kv_val e); naive_solver.
  - intros (e & He & Hf). exists e. by rewrite Hf.
Qed.

(** The new entry and the buffer after an insertion. *)
Definition new_kv (h : u32hash) (key : Z) (v : V) : keyval :=
  mkKv key (if wide then inr (length (u_vals h)) else inl v).

Definition new_vals (h : u32hash) (v : V) : list V := if wide then u_vals h ++ [v] else u_vals h.

Lemma new_vals_ok h key v :
  vals_ok (u_vals h) (occ (u_table h)) → (∀ e, e ∈ occ (u_table h) → kv_key e ≠ key) →
  vals_ok (new_vals h v) (new_kv h key v :: occ (u_table h)) ∧
  items (new_vals h v) (new_kv h key v :: occ (u_table h)) = (key, v) :: items (u_vals h) (occ (u_table h)).
Proof.
  intros [Hk Hv Ho] Hno. split.
  - split.
    + cbn [map]. apply NoDup_cons. split; [|done]. intros Hin. apply list_elem_of_fmap in Hin as (e & E & He).
      by destruct (Hno e He).
    + apply Forall_cons. split.
      * unfold val_ok, new_kv, new_vals. cbn [kv_val]. destruct wide; [|done]. split; [done|]. rewrite length_app. simpl. lia.
      * eapply Forall_impl; [done|]. intros e. unfold val_ok, new_vals. destruct (kv_val e); [done|].
        destruct wide; [|done]. intros [? ?]. rewrite length_app. split; [done|lia].
    + unfold offs, new_kv. cbn [omap list_omap kv_val]. destruct wide eqn:Ew; [|done].
      apply NoDup_cons. split; [|done]. intros Hin. apply (offs_elem (occ (u_table h))) in Hin as (e & He & Ev).
      rewrite Forall_forall in Hv. specialize (Hv e He). unfold val_ok in Hv. rewrite Ev in Hv. lia.
  - rewrite (items_cons _ _ _ v).
    + f_equal. apply items_ext. eapply Forall_impl; [done|]. intros e He. unfold new_vals.
      destruct wide; [by apply deref_grow|done].
    + unfold deref, new_kv, new_vals. cbn [kv_val]. destruct wide; [|done].
      rewrite lookup_app_r, Nat.sub_diag by lia. done.
Qed.

Lemma u32_insert_at h n key v e0 :
  u32_inv h → slot h n = Some e0 → kv_key e0 = 0 → key ≠ 0 → u32_abs h !! key = None →
  (∀ e', kv_key e' = key → tab_ok (<[Z.to_nat n := e']> (u_table h)) (u_size h)) →
  4 * u_cnt h <= 3 * u_size h →
  let h' := mkU32 (<[Z.to_nat n := new_kv h key v]> (u_table h)) (u_size h) (u_cnt h + 1) (new_vals h v) in
  u32_inv h' ∧ u32_abs h' = <[key:=v]> (u32_abs h).
Proof.
  intros Hi Hs He0 Hk Hnone Htab Hload. destruct Hi as [Ht Hv Hc Hl].
  assert (Hno : ∀ e, e ∈ occ (u_table h) → kv_key e ≠ key).
  { intros e He Ek. pose proof (vk_val _ _ Hv) as Hf. rewrite Forall_forall in Hf.
    destruct (val_ok_deref _ _ (Hf e He)) as [w Hw].
    assert (u32_abs h !! key = Some w) by (apply u32_abs_spec; eauto). congruence. }
  destruct (new_vals_ok h key v Hv Hno) as [Hv' Hit].
  assert (Hp : occ (<[Z.to_nat n := new_kv h key v]> (u_table h)) ≡ₚ new_kv h key v :: occ (u_table h)).
  { eapply occ_insert; [done|..]; unfold used; [by rewrite He0; tauto|done]. }
  split.
  - split; cbn [u_table u_size u_cnt u_vals]; [by apply Htab|by eapply vals_ok_perm|rewrite Hp; cbn [length]; lia|lia].
  - unfold u32_abs at 1. cbn [u_table u_vals].
    rewrite (list_to_map_proper _ ((key, v) :: items (u_vals h) (occ (u_table h)))).
    + done.
    + apply items_nodup. by eapply vals_ok_perm.
    + by rewrite Hp, Hit.
Qed.

Definition u32_max : Z := 2 ^ 28.

Lemma u32_grow_ok h : u32_inv h → Z.of_nat (size (u32_abs h)) < u32_max →
  ∃ h', (if u32 (3 * u_size h) / 4 <? u_cnt h then resize h else Some h) = Some h' ∧
    u32_inv h' ∧ u32_abs h' = u32_abs h ∧ 4 * u_cnt h' <= 3 * u_size h' ∧ u_cnt h' = u_cnt h.
Proof.
  intros Hi Hm. pose proof (u32_size h Hi) as Hsz. unfold u32_max in Hm.
  pose proof (pow2_pos _ (tk_pow2 _ _ (ui_tab _ Hi))). pose proof (pow2_le _ (tk_pow2 _ _ (ui_tab _ Hi))).
  rewrite u32_small by lia. pose proof (Z.div_mod (3 * u_size h) 4 ltac:(lia)) as Hdm.
  pose proof (Z.mod_pos_bound (3 * u_size h) 4 ltac:(lia)) as Hmb.
  destruct (Z.ltb_spec (3 * u_size h / 4) (u_cnt h)) as [Hlt|Hge].
  - destruct (resize_ok h Hi) as (h' & -> & Hi' & Ha & Hc & Hs & Hl); [lia|]. exists h'. split_and!; done.
  - exists h. split_and!; try done. lia.
Qed.

Lemma u32_insert_ok h key v : u32_inv h → key ≠ 0 → Z.of_nat (size (u32_abs h)) < u32_max →
  ∃ h', u32hash_insert h key v = Some (h', bool_decide (u32_abs h !! key = None)) ∧ u32_inv h' ∧
    u32_abs h' = match u32_abs h !! key with Some _ => u32_abs h | None => <[key:=v]> (u32_abs h) end.
Proof.
  intros Hi Hk Hm. pose proof (u32_size h Hi) as Hsz. unfold u32_max in Hm.
  destruct (u32_grow_ok h Hi Hm) as (h1 & E1 & Hi1 & Ha1 & Hl1 & Hc1).
  unfold u32hash_insert. destruct (Z.eqb_spec key 0) as [|_]; [done|]. rewrite E1, <- Ha1.
  destruct (u32_lookup h1 key Hi1 Hk) as (n & e & -> & Hs & [(He & Hin & w & Hd & ->)|(He & Hnone & Htab)]); rewrite Hs.
  - destruct (Z.eqb_spec (kv_key e) 0); [congruence|]. exists h1. by rewrite bool_decide_false.
  - rewrite He, Hnone. cbn [Z.eqb negb]. rewrite bool_decide_true by done.
    destruct (u32_insert_at h1 n key v e Hi1 Hs He Hk Hnone Htab Hl1) as [Hinv Habs].
    assert (Hu : u32 (u_cnt h1 + 1) = u_cnt h1 + 1) by (apply u32_small; lia). rewrite Hu.
    eexists. split; [|split; [exact Hinv|exact Habs]].
    f_equal. f_equal. unfold new_kv, new_vals. by destruct wide.
Qed.

(** ** Assignment through [vptr] *)

Lemma occ_at t n e : t !! n = Some e → used e → occ t ≡ₚ e :: occ (take n t) ++ occ (drop (S n) t).
Proof. intros Hn Hu. rewrite (occ_split t n e Hn), (occ_single e Hu). cbn [app]. by rewrite Permutation_middle. Qed.

Lemma occ_set t n e e' :
  t !! n = Some e → used e' → occ (<[n:=e']> t) ≡ₚ e' :: occ (take n t) ++ occ (drop (S n) t).
Proof.
  intros Hn Hu. rewrite occ_insert_split by by eapply lookup_lt_Some. rewrite (occ_single e' Hu).
  cbn [app]. by rewrite Permutation_middle.
Qed.

(** Reading the map off a table split at one entry. *)
Lemma u32_abs_split h e l v :
  vals_ok (u_vals h) (occ (u_table h)) → occ (u_table h) ≡ₚ e :: l → deref (u_vals h) e = Some v →
  u32_abs h = <[kv_key e := v]> (list_to_map (items (u_vals h) l)).
Proof.
  intros Hv Hp Hd. unfold u32_abs.
  rewrite (list_to_map_proper _ ((kv_key e, v) :: items (u_vals h) l)); [done|by apply items_nodup|].
  by rewrite Hp, (items_cons _ _ _ v).
Qed.

Lemma set_value_ok h n e v :
  u32_inv h → slot h n = Some e → used e →
  u32_inv (set_value h n e v) ∧ u32_abs (set_value h n e v) = <[kv_key e := v]> (u32_abs h).
Proof.
  intros Hi Hs Hu. pose proof Hi as [Ht Hv Hc Hl].
  set (l := occ (take (Z.to_nat n) (u_table h)) ++ occ (drop (S (Z.to_nat n)) (u_table h))).
  assert (Hp : occ (u_table h) ≡ₚ e :: l) by by apply occ_at.
  pose proof (vals_ok_perm _ _ _ Hp Hv) as Hvs.
  assert (Hve : val_ok (u_vals h) e) by apply (Forall_inv (vk_val _ _ Hvs)).
  destruct (val_ok_deref _ _ Hve) as [w Hw].
  rewrite (u32_abs_split h e l w Hv Hp Hw), insert_insert. unfold set_value. case_decide; [|done].
  destruct (kv_val e) as [u|o] eqn:Ev.
  - assert (Hp' : occ (<[Z.to_nat n := mkKv (kv_key e) (inl v)]> (u_table h)) ≡ₚ mkKv (kv_key e) (inl v) :: l)
      by by eapply occ_set.
    assert (Hv' : vals_ok (u_vals h) (mkKv (kv_key e) (inl v) :: l)).
    { destruct Hvs as [Hk Hf Ho]. split; [done| |].
      - apply Forall_cons in Hf as [Hf1 Hf]. apply Forall_cons. split; [|done]. unfold val_ok in *. by rewrite Ev in Hf1.
      - unfold offs in *. cbn [omap list_omap kv_val] in *. by rewrite Ev in Ho. }
    assert (Hv2 : vals_ok (u_vals h) (occ (<[Z.to_nat n := mkKv (kv_key e) (inl v)]> (u_table h))))
      by by eapply vals_ok_perm.
    split.
    + split; [by eapply tab_ok_same|done| |done]. cbn [set_slot u_table u_cnt]. by rewrite Hp', Hc, Hp.
    + by apply (u32_abs_split (set_slot h n (mkKv (kv_key e) (inl v))) (mkKv (kv_key e) (inl v)) l v).
  - assert (Ho : (o < length (u_vals h))%nat) by (unfold val_ok in Hve; rewrite Ev in Hve; tauto).
    set (h' := mkU32 (u_table h) (u_size h) (u_cnt h) (<[o:=v]> (u_vals h))).
    assert (Hv' : vals_ok (u_vals h') (occ (u_table h'))).
    { destruct Hv as [Hk Hf Hoff]. split; [done| |done]. eapply Forall_impl; [done|].
      intros e'. unfold val_ok. cbn [u_vals h']. by rewrite length_insert. }
    split; [by split|]. rewrite (u32_abs_split h' e l v Hv' Hp).
    + cbn [u_vals h']. do 2 f_equal. apply items_ext, Forall_forall. intros e' He'. unfold deref.
      destruct (kv_val e') as [|o'] eqn:Ev'; [done|]. rewrite list_lookup_insert_ne; [done|]. intros <-.
      pose proof (vk_offs _ _ Hvs) as Hnd. unfold offs in Hnd. cbn [omap list_omap] in Hnd. rewrite Ev in Hnd.
      apply NoDup_cons in Hnd as [Hnin _]. apply Hnin. apply (offs_elem l). eauto.
    + unfold deref. rewrite Ev. cbn [u_vals h']. by apply list_lookup_insert_eq.
Qed.

Lemma u32_poke_ok h key v : u32_inv h → key ≠ 0 → is_Some (u32_abs h !! key) →
  ∃ h', u32hash_poke h key v = Some h' ∧ u32_inv h' ∧ u32_abs h' = <[key:=v]> (u32_abs h).
Proof.
  intros Hi Hk [w0 Hw]. unfold u32hash_poke.
  destruct (u32_lookup h key Hi Hk) as (n & e & -> & Hs & [(He & _)|(_ & Hn & _)]); [|congruence].
  rewrite Hs. destruct (Z.eqb_spec (kv_key e) 0) as [|Hu]; [congruence|].
  destruct (set_value_ok h n e v Hi Hs Hu) as [Hi' Ha]. exists (set_value h n e v). by rewrite He in Ha.
Qed.

Lemma u32_store_ok h key v : u32_inv h → key ≠ 0 → Z.of_nat (size (u32_abs h)) < u32_max →
  ∃ h', u32hash_store h key v = Some h' ∧ u32_inv h' ∧ u32_abs h' = <[key:=v]> (u32_abs h).
Proof.
  intros Hi Hk Hm. unfold u32hash_store.
  destruct (u32_insert_ok h key v Hi Hk Hm) as (h1 & -> & Hi1 & Ha1).
  destruct (u32_abs h !! key) as [w|] eqn:E.
  - rewrite bool_decide_false by done. rewrite <- Ha1.
    apply u32_poke_ok; [done|done|]. rewrite Ha1, E. eauto.
  - rewrite bool_decide_true by done. eauto.
Qed.

(** ** Iteration *)

(** [t] from slot [n] on. *)
Lemma next_loop_spec h fuel n :
  length (u_table h) = Z.to_nat (u_size h) → 0 <= n <= u_size h → (Z.to_nat (u_size h - n) < fuel)%nat →
  match occ (drop (Z.to_nat n) (u_table h)) with
  | [] => next_loop fuel h n = Some None
  | e :: l => ∃ m, next_loop fuel h n = Some (Some m) ∧ n <= m < u_size h ∧ slot h m = Some e ∧
                   occ (drop (Z.to_nat (m + 1)) (u_table h)) = l
  end.
Proof.
  intros Hlen. revert n. induction fuel as [|fuel IH]; intros n Hn Hf; [lia|]. cbn [next_loop].
  destruct (Z.ltb_spec n (u_size h)) as [Hlt|Hge].
  - destruct (lookup_lt_is_Some_2 (u_table h) (Z.to_nat n)) as [e He]; [lia|].
    assert (Hs : slot h n = Some e) by exact He. rewrite Hs. rewrite (drop_S _ _ _ He). unfold occ.
    replace (S (Z.to_nat n)) with (Z.to_nat (n + 1)) by lia.
    destruct (Z.eqb_spec (kv_key e) 0) as [E|E].
    + rewrite filter_cons_False by (unfold used; tauto). specialize (IH (n + 1) ltac:(lia) ltac:(lia)).
      unfold occ in IH. destruct (filter used _) as [|e1 l]; [done|].
      destruct IH as (m & ? & ? & ? & ?). exists m. split_and!; done || lia.
    + rewrite filter_cons_True by done. exists n. split_and!; done || lia.
  - rewrite drop_ge by lia. done.
Qed.

Lemma next_spec h n : length (u_table h) = Z.to_nat (u_size h) → 0 <= n < u_size h →
  match occ (drop (Z.to_nat (n + 1)) (u_table h)) with
  | [] => u32hash_next h n = Some None
  | e :: l => ∃ m, u32hash_next h n = Some (Some m) ∧ n < m < u_size h ∧ slot h m = Some e ∧
                   occ (drop (Z.to_nat (m + 1)) (u_table h)) = l
  end.
Proof.
  intros Hlen Hn. unfold u32hash_next. destruct (Z.ltb_spec n (u_size h)) as [_|]; [|lia].
  pose proof (next_loop_spec h (S (Z.to_nat (u_size h))) (n + 1) Hlen ltac:(lia) ltac:(lia)) as Hs.
  destruct (occ _) as [|e l]; [done|]. destruct Hs as (m & ? & ? & ? & ?). exists m. split_and!; done || lia.
Qed.

Lemma each_loop_spec h : u32_inv h → ∀ fuel n e l,
  (length l < fuel)%nat → 0 <= n < u_size h → slot h n = Some e → used e →
  occ (drop (Z.to_nat (n + 1)) (u_table h)) = l → Forall (val_ok (u_vals h)) (e :: l) →
  each_loop fuel h (Some n) = Some (items (u_vals h) (e :: l)).
Proof.
  intros Hi fuel. pose proof (tk_len _ _ (ui_tab _ Hi)) as Hlen.
  induction fuel as [|fuel IH]; intros n e l Hf Hn Hs Hu Hl Hv; [lia|]. cbn [each_loop].
  apply Forall_cons in Hv as [He Hv]. destruct (val_ok_deref _ _ He) as [v Hd].
  rewrite Hs, (items_cons _ _ _ v Hd). unfold VPTR. unfold deref in Hd. rewrite Hd.
  pose proof (next_spec h n Hlen Hn) as Hnx. rewrite Hl in Hnx. destruct l as [|e1 l].
  - rewrite Hnx. by destruct fuel.
  - destruct Hnx as (m & -> & Hm & Hsm & Hlm).
    assert (Hin : e1 ∈ occ (drop (Z.to_nat (n + 1)) (u_table h))) by (rewrite Hl; apply elem_of_cons; auto).
    apply elem_of_occ in Hin as [Hu1 _].
    rewrite (IH m e1 l); [done|simpl in Hf; lia|lia|done|done|done|done].
Qed.

Lemma u32_each_ok h : u32_inv h → u32hash_each h = Some (items (u_vals h) (occ (u_table h))).
Proof.
  intros Hi. pose proof (ui_tab _ Hi) as Ht. pose proof (tk_len _ _ Ht) as Hlen.
  pose proof (pow2_pos _ (tk_pow2 _ _ Ht)) as Hp. pose proof (vk_val _ _ (ui_vals _ Hi)) as Hv.
  assert (Hoc : (length (occ (u_table h)) <= Z.to_nat (u_size h))%nat).
  { rewrite <- Hlen. apply length_filter. }
  unfold u32hash_each, u32hash_first.
  destruct (lookup_lt_is_Some_2 (u_table h) 0) as [e He]; [lia|].
  change (slot h 0) with (u_table h !! 0%nat). rewrite He.
  assert (Hsp : occ (u_table h) = occ [e] ++ occ (drop 1 (u_table h))) by (rewrite (occ_split _ _ _ He); done).
  rewrite Hsp in *. destruct (Z.eqb_spec (kv_key e) 0) as [E|E].
  - rewrite (occ_free e) in * by (unfold used; tauto). cbn [app] in *.
    pose proof (next_spec h 0 Hlen ltac:(lia)) as Hnx. change (Z.to_nat (0 + 1)) with 1%nat in Hnx.
    destruct (occ (drop 1 (u_table h))) as [|e1 l] eqn:El; [rewrite Hnx; by destruct (Z.to_nat (u_size h))|].
    destruct Hnx as (m & -> & Hm & Hsm & Hlm).
    apply each_loop_spec; [done|simpl in Hoc; lia|lia|done| |done|done].
    assert (Hin : e1 ∈ occ (drop 1 (u_table h))) by (rewrite El; apply elem_of_cons; auto).
    by apply elem_of_occ in Hin as [? _].
  - rewrite (occ_single e) in * by done. cbn [app length] in *.
    apply each_loop_spec; [done|lia|lia|done|done|done|done].
Qed.

(** ** The contract *)

#[global] Instance u32hash_ops : HashOps Z V u32hash := {
  hash_fetch := u32hash_fetch;
  hash_insert := u32hash_insert;
  hash_store := u32hash_store;
  hash_poke := u32hash_poke;
  hash_items := u32hash_each;
  hash_count := u32hash_count
}.

#[global] Program Instance u32hash_laws : HashLaws Z V u32hash := {
  hash_inv := u32_inv;
  hash_abs := u32_abs;
  hash_okkey := λ k, k ≠ 0;
  hash_max := u32_max;
  hash_fits := λ _ _, True
}.
Next Obligation. exact u32_fetch_ok. Qed.
Next Obligation. exact u32_insert_ok. Qed.
Next Obligation. exact u32_store_ok. Qed.
Next Obligation. intros h k v w Hi Hk Hw _. apply u32_poke_ok; [done|done|]. rewrite Hw. eauto. Qed.
Next Obligation.
  intros h Hi. exists (items (u_vals h) (occ (u_table h))). split; [by apply u32_each_ok|].
  unfold hash_abs, u32_abs. symmetry. apply map_to_list_to_map, items_nodup, (ui_vals _ Hi).
Qed.
Next Obligation. intros h Hi. symmetry. by apply u32_size. Qed.
Next Obligation.
  intros h k Hi [v Hv]. apply u32_abs_spec in Hv as (e & He & <- & _); [|apply (ui_vals _ Hi)].
  by apply elem_of_occ in He as [? _].
Qed.

End U32Hash.

(** ** Properties *)

(** C15. Any program that makes fewer than 2^28 calls with non-zero keys sees of a
    u32 hash exactly what it would see of a finite map, whatever the hash
    function and in both storage modes: every probe loop and every resize ends,
    no assert fails, iteration sees each binding once and the count is the
    number of bindings. *)
Theorem u32hash_refines_map {V} (wide : bool) (HASH : Z → Z) (zero : V) (os : list (hop Z V)) :
  Forall (λ k, k ≠ 0) (map hop_key os) → Z.of_nat (length os) <= 2 ^ 28 →
  ∃ h l, hash_run (ops := u32hash_ops wide HASH zero) (u32hash_new wide zero) os = Some (h, (map_run ∅ os).2) ∧
    u32hash_each h = Some l ∧ l ≡ₚ map_to_list (map_run ∅ os).1 ∧
    u32hash_count h = Z.of_nat (size (map_run ∅ os).1).
Proof.
  intros Hk Hl. destruct (u32_new_inv wide HASH zero) as [Hi Ha].
  destruct (hash_run_ok (laws := u32hash_laws wide HASH zero) os (u32hash_new wide zero) Hi Hk)
    as (h & Hrun & Hinv & Habs); cbn [hash_abs u32hash_laws] in *; rewrite Ha in *; [done|].
  destruct (items_law h Hinv) as (l & Hit & Hp). exists h, l. rewrite <- Habs.
  split_and!; [done|done|done|]. symmetry. exact (u32_size wide HASH h Hinv).
Qed.

(** Forty insertions, which make the table grow, with a hash that sends every key
    to the same slot. *)
Definition ex_hops : list (hop Z Z) :=
  map (λ k, HInsert (Z.of_nat k + 1) (Z.of_nat k)) (seq 0 40) ++ [HInsert 7 1; HStore 7 99; HFetch 7; HFetch 50].

Lemma u32hash_refines_map_witness :
  (match hash_run (ops := u32hash_ops true (λ _, 5) 0) (u32hash_new true 0) ex_hops with
   | Some (h, rs) => (u_size h, u32hash_count h, drop 40 rs) | None => (0, 0, []) end) =
  (64, 40, [RNew false; RDone; RVal (Some 99); RVal None]) ∧
  ∃ h l, hash_run (ops := u32hash_ops true (λ _, 5) 0) (u32hash_new true 0) ex_hops = Some (h, (map_run ∅ ex_hops).2) ∧
    u32hash_each h = Some l ∧ l ≡ₚ map_to_list (map_run ∅ ex_hops).1 ∧
    u32hash_count h = Z.of_nat (size (map_run ∅ ex_hops).1).
Proof.
  split; [vm_compute; reflexivity|]. apply u32hash_refines_map; [|vm_compute; done].
  apply Forall_forall. intros k Hk. assert (forallb (λ k, negb (k =? 0)) (map hop_key ex_hops) = true) as Hb by (vm_compute; done).
  rewrite forallb_forall in Hb. apply list_elem_of_In in Hk. specialize (Hb k Hk).
  apply negb_true_iff, Z.eqb_neq in Hb. done.
Defined.
