(* ===== verification/MemHash.v ===== *)
(** * MemHash: hashes of byte strings

    src/src/libc/hash/memhash.c: an array of chains, doubled when it holds as many
    nodes as it has slots.  Keys and values are blocks of bytes.  The function the
    keys are hashed with is an argument (the code uses crc32c).

    Proved: the instance of the hash contract ([memhash_laws]), deletion, and that
    the data of a node stays inside the block allocated for it. *)

From S2P Require Import Prelude CStr HashIface.
From stdpp Require Import base numbers list gmap.
From Stdlib Require Import ZArith Lia.

Local Open Scope Z_scope.

Local Open Scope bk_scope.

(** The offset of the data behind a key, on a 64-bit machine. *)
Definition DOFF (klen dlen : Z) : Z :=
  let align mask := Z.land (klen + mask) (Z.lnot mask) in
  if 8 <=? dlen then align 7 else if 4 <=? dlen then align 3 else if 2 <=? dlen then align 1 else klen.

(** A node; [n_room] is the size of its [key] block. *)
Record node := mkNode { n_key : cstr; n_data : cstr; n_room : Z }.

Record memhash := mkMem { m_nodes : Z; m_arr : list (list node); m_mask : Z; m_lastidx : Z; m_lastnode : list node }.

Section MemHash.

Context (HASH : cstr → Z).

Definition memhash_new : memhash := mkMem 0 (repeat [] 64) 63 0 [].

Definition slot (mask : Z) (k : cstr) : nat := Z.to_nat (Z.land (HASH k) mask).

Definition bucket (h : memhash) (k : cstr) : list node := nth (slot (m_mask h) k) (m_arr h) [].

(** [find_nodep]: how many nodes of the chain [nn] has passed. *)
Fixpoint find_pos (b : list node) (k : cstr) : nat :=
  match b with
  | [] => 0
  | n :: b => if bool_decide (n_key n = k) then 0 else S (find_pos b k)
  end.

Definition find_node (h : memhash) (k : cstr) : option node := bucket h k !! find_pos (bucket h k) k.

Definition memhash_fetch (h : memhash) (k : cstr) : option (option cstr) := Some (n_data <$> find_node h k).

Definition set_bucket (h : memhash) (k : cstr) (b : list node) : list (list node) := <[slot (m_mask h) k := b]> (m_arr h).

(** The loops of [memhash_split]: the chain is pushed node by node. *)
Fixpoint push_all (newmask : Z) (b : list node) (arr : list (list node)) : list (list node) :=
  match b with
  | [] => arr
  | n :: b => let i := slot newmask (n_key n) in push_all newmask b (<[i := n :: nth i arr []]> arr)
  end.

Fixpoint push_chains (newmask : Z) (old arr : list (list node)) : list (list node) :=
  match old with
  | [] => arr
  | b :: old => push_chains newmask old (push_all newmask b arr)
  end.

(** The new size is an int. *)
Definition memhash_split (h : memhash) : option memhash :=
  let newmask := Z.shiftl (m_mask h + 1) 1 - 1 in
  assert! newmask + 1 <? 2 ^ 31;
  Some (mkMem (m_nodes h) (push_chains newmask (m_arr h) (repeat [] (Z.to_nat (newmask + 1)))) newmask (m_lastidx h) (m_lastnode h)).

(** [new_node] at the place [pos] of the chain, the data written. *)
Definition new_node (h : memhash) (pos : nat) (k v : cstr) : option memhash :=
  let b := bucket h k in
  let dlen := Z.of_nat (length v) in
  let n := mkNode k v (DOFF (Z.of_nat (length k)) dlen + dlen) in
  let h := mkMem (m_nodes h + 1) (set_bucket h k (take pos b ++ n :: drop pos b)) (m_mask h) (m_lastidx h) (m_lastnode h) in
  if m_mask h <=? m_nodes h then memhash_split h else Some h.

(** [false]: the key is there already. *)
Definition memhash_insert (h : memhash) (k v : cstr) : option (memhash * bool) :=
  match find_node h k with
  | Some _ => Some (h, false)
  | None => let? h := new_node h (find_pos (bucket h k) k) k v in Some (h, true)
  end.

(** A smaller value is written over the old one, for a larger one the node is
    replaced.  [None]: the write does not fit the block. *)
Definition memhash_store (h : memhash) (k v : cstr) : option memhash :=
  let b := bucket h k in
  let pos := find_pos b k in
  let dlen := Z.of_nat (length v) in
  match b !! pos with
  | Some n =>
      if (length (n_data n) <? length v)%nat then
        new_node (mkMem (m_nodes h - 1) (set_bucket h k (take pos b ++ drop (S pos) b)) (m_mask h) (m_lastidx h) (m_lastnode h)) pos k v
      else
        assert! DOFF (Z.of_nat (length k)) dlen + dlen <=? n_room n;
        Some (mkMem (m_nodes h) (set_bucket h k (<[pos := mkNode (n_key n) v (n_room n)]> b)) (m_mask h) (m_lastidx h) (m_lastnode h))
  | None => new_node h pos k v
  end.

(** An assignment to the [vlen] bytes at [vptr]. *)
Definition memhash_poke (h : memhash) (k v : cstr) : option memhash :=
  let b := bucket h k in
  let pos := find_pos b k in
  let? n := b !! pos in
  assert! (length v =? length (n_data n))%nat;
  Some (mkMem (m_nodes h) (set_bucket h k (<[pos := mkNode (n_key n) v (n_room n)]> b)) (m_mask h) (m_lastidx h) (m_lastnode h)).

(** 0 or -1. *)
Definition memhash_delete (h : memhash) (k : cstr) : option (memhash * Z) :=
  let b := bucket h k in
  let pos := find_pos b k in
  match b !! pos with
  | Some _ =>
      assert! 0 <? m_nodes h;
      Some (mkMem (m_nodes h - 1) (set_bucket h k (take pos b ++ drop (S pos) b)) (m_mask h) (m_lastidx h) (m_lastnode h), 0)
  | None => Some (h, -1)
  end.

(** [while ((i <= h->mask) && !h->arr[i]) i++;] over the slots from [i]. *)
Fixpoint next_chain (arr : list (list node)) (i : Z) : option (Z * list node) :=
  match arr with
  | [] => None
  | [] :: arr => next_chain arr (i + 1)
  | b :: _ => Some (i, b)
  end.

(** [lastnode] is the chain from that node on. *)
Definition memhash_next (h : memhash) : memhash * option (cstr * cstr) :=
  let '(idx, n) :=
    match drop 1 (m_lastnode h) with
    | [] => match next_chain (drop (Z.to_nat (m_lastidx h + 1)) (m_arr h)) (m_lastidx h + 1) with
            | Some (i, b) => (i, b)
            | None => (m_lastidx h, [])
            end
    | b => (m_lastidx h, b)
    end in
  (mkMem (m_nodes h) (m_arr h) (m_mask h) idx n, match n with x :: _ => Some (n_key x, n_data x) | [] => None end).

Definition memhash_first (h : memhash) : memhash * option (cstr * cstr) :=
  memhash_next (mkMem (m_nodes h) (m_arr h) (m_mask h) (-1) []).

(** [EACH_HASH] *)
Fixpoint each_loop (fuel : nat) (r : memhash * option (cstr * cstr)) : option (list (cstr * cstr)) :=
  match fuel, snd r with
  | _, None => Some []
  | O, Some _ => None
  | S fuel, Some kv => let? l := each_loop fuel (memhash_next (fst r)) in Some (kv :: l)
  end.

Definition memhash_each (h : memhash) : option (list (cstr * cstr)) := each_loop (Z.to_nat (m_nodes h)) (memhash_first h).

Definition memhash_count (h : memhash) : Z := m_nodes h.

(** ** The array of chains *)

Definition kv (n : node) : cstr * cstr := (n_key n, n_data n).

Definition room_ok (n : node) : Prop :=
  DOFF (Z.of_nat (length (n_key n))) (Z.of_nat (length (n_data n))) + Z.of_nat (length (n_data n)) <= n_room n.

Record arr_ok (mask : Z) (arr : list (list node)) : Prop := {
  ak_mask : ∃ p, 6 <= p <= 30 ∧ mask = Z.ones p;
  ak_len : length arr = Z.to_nat (mask + 1);
  ak_slot : ∀ i b, arr !! i = Some b → Forall (λ n, slot mask (n_key n) = i) b;
  ak_nodup : NoDup (map n_key (concat arr));
  ak_room : Forall room_ok (concat arr)
}.

Definition arr_abs (l : list node) : gmap cstr cstr := list_to_map (map kv l).

Lemma ones_range p : 6 <= p <= 30 → 63 <= Z.ones p < 2 ^ 30.
Proof.
  intros Hp. rewrite Z.ones_equiv. pose proof (Z.pow_le_mono_r 2 6 p ltac:(lia) ltac:(lia)).
  pose proof (Z.pow_le_mono_r 2 p 30 ltac:(lia) ltac:(lia)). change (2 ^ 6) with 64 in *. lia.
Qed.

Lemma slot_range mask arr k : arr_ok mask arr → (slot mask k < length arr)%nat.
Proof.
  intros Ha. rewrite (ak_len _ _ Ha). destruct (ak_mask _ _ Ha) as (p & Hp & ->). unfold slot.
  pose proof (ones_range p Hp). rewrite Z.land_ones by lia.
  pose proof (Z.mod_pos_bound (HASH k) (2 ^ p) ltac:(apply Z.pow_pos_nonneg; lia)).
  rewrite Z.ones_equiv in *. lia.
Qed.

Lemma chains_split {A} (arr : list (list A)) i b :
  arr !! i = Some b → concat arr ≡ₚ b ++ concat (take i arr) ++ concat (drop (S i) arr).
Proof.
  intros Hi. rewrite <- (take_drop_middle arr i b Hi) at 1. rewrite concat_app. cbn [concat].
  rewrite !app_assoc. by rewrite (Permutation_app_comm (concat (take i arr)) b).
Qed.

Lemma chains_set {A} (arr : list (list A)) i b :
  (i < length arr)%nat → concat (<[i:=b]> arr) ≡ₚ b ++ concat (take i arr) ++ concat (drop (S i) arr).
Proof.
  intros Hi. rewrite (chains_split (<[i:=b]> arr) i b) by by apply list_lookup_insert_eq.
  by rewrite take_insert_ge, drop_insert_lt by lia.
Qed.

Lemma arr_abs_cons l n others :
  NoDup (map n_key l) → l ≡ₚ n :: others → arr_abs l = <[n_key n := n_data n]> (arr_abs others).
Proof.
  intros Hnd Hp. unfold arr_abs. rewrite (list_to_map_proper _ (map kv (n :: others))); [done| |by rewrite Hp].
  change (NoDup (map fst (map kv l))). by rewrite map_map.
Qed.

Lemma arr_abs_perm l l' : NoDup (map n_key l) → l ≡ₚ l' → arr_abs l = arr_abs l'.
Proof.
  intros Hnd Hp. apply list_to_map_proper; [|by rewrite Hp].
  change (NoDup (map fst (map kv l))). by rewrite map_map.
Qed.

Lemma arr_abs_none l k : k ∉ map n_key l → arr_abs l !! k = None.
Proof. intros Hk. apply not_elem_of_list_to_map_1. change (¬ k ∈ map fst (map kv l)). by rewrite map_map. Qed.

Lemma arr_abs_size l : NoDup (map n_key l) → size (arr_abs l) = length l.
Proof.
  intros Hnd. unfold arr_abs. rewrite map_size_list_to_map by (change (NoDup (map fst (map kv l))); by rewrite map_map).
  by rewrite length_map.
Qed.

(** The other nodes of the table while one chain is rewritten. *)
Lemma chain_update mask arr k :
  arr_ok mask arr → ∃ rest, concat arr ≡ₚ (nth (slot mask k) arr [] ++ rest) ∧ (k ∉ map n_key rest) ∧
    Forall (λ n, slot mask (n_key n) = slot mask k) (nth (slot mask k) arr []) ∧
    ∀ b, Forall (λ n, slot mask (n_key n) = slot mask k) b → NoDup (map n_key (b ++ rest)) → Forall room_ok b →
      arr_ok mask (<[slot mask k := b]> arr) ∧ concat (<[slot mask k := b]> arr) ≡ₚ b ++ rest.
Proof.
  intros Ha. set (i := slot mask k). pose proof (slot_range mask arr k Ha) as Hi. fold i in Hi.
  destruct (lookup_lt_is_Some_2 arr i Hi) as [b0 Hb0]. rewrite (nth_lookup_Some _ _ _ _ Hb0).
  exists (concat (take i arr) ++ concat (drop (S i) arr)).
  pose proof (chains_split arr i b0 Hb0) as Hp. split_and!; [done| |by apply (ak_slot _ _ Ha)|].
  - intros Hin. apply list_elem_of_fmap in Hin as (n & -> & Hn). apply elem_of_app in Hn.
    assert (∃ j b, j ≠ i ∧ arr !! j = Some b ∧ n ∈ b) as (j & b & Hj & Hb & Hnb).
    { destruct Hn as [Hn|Hn]; apply list_elem_of_In, in_concat in Hn as (b & Hb%list_elem_of_In & Hn%list_elem_of_In);
        apply list_elem_of_lookup in Hb as (j & Hj).
      - rewrite lookup_take_Some in Hj. destruct Hj. exists j, b. split_and!; done || lia.
      - rewrite lookup_drop in Hj. exists (S i + j)%nat, b. split_and!; done || lia. }
    pose proof (ak_slot _ _ Ha j b Hb) as Hs. rewrite Forall_forall in Hs. apply Hj. by rewrite <- (Hs n Hnb).
  - intros b Hs Hnd Hr. pose proof (chains_set arr i b Hi) as Hp'. split; [|done]. split.
    + apply (ak_mask _ _ Ha).
    + rewrite length_insert. apply (ak_len _ _ Ha).
    + intros j b' Hj. apply list_lookup_insert_Some in Hj as [(<- & <- & _)|(_ & Hj)]; [done|by apply (ak_slot _ _ Ha)].
    + by rewrite Hp'.
    + rewrite Hp'. apply Forall_app. split; [done|]. pose proof (ak_room _ _ Ha) as Hra. rewrite Hp in Hra.
      by apply Forall_app in Hra as [_ ?].
Qed.

Lemma find_pos_spec b k :
  match b !! find_pos b k with
  | Some n => n_key n = k
  | None => find_pos b k = length b ∧ k ∉ map n_key b
  end.
Proof.
  induction b as [|n b IH]; cbn [find_pos map]; [by split; [|apply not_elem_of_nil]|].
  case_bool_decide as Hk; [done|]. change ((n :: b) !! S (find_pos b k)) with (b !! find_pos b k).
  destruct (b !! find_pos b k); [done|]. destruct IH as [-> ?]. split; [done|]. by apply not_elem_of_cons.
Qed.

(** A node put anywhere in the chain of its key. *)
Lemma chain_insert mask arr k pos n :
  arr_ok mask arr → k ∉ map n_key (concat arr) → n_key n = k → room_ok n →
  let b := nth (slot mask k) arr [] in
  let arr' := <[slot mask k := take pos b ++ n :: drop pos b]> arr in
  arr_ok mask arr' ∧ concat arr' ≡ₚ n :: concat arr.
Proof.
  intros Ha Hk Hn Hr b arr'. destruct (chain_update mask arr k Ha) as (rest & Hp & _ & Hs & Hset). fold b in Hp, Hs.
  assert (Hb : take pos b ++ n :: drop pos b ≡ₚ n :: b) by by rewrite <- Permutation_middle, take_drop.
  assert (Hrb : Forall room_ok b).
  { pose proof (ak_room _ _ Ha) as Hra. rewrite Hp in Hra. by apply Forall_app in Hra as [? _]. }
  assert (Hpn : (n :: b) ++ rest ≡ₚ n :: concat arr) by by rewrite Hp.
  destruct (Hset (take pos b ++ n :: drop pos b)) as [Ha' Hp'].
  - rewrite Hb. apply Forall_cons. by rewrite Hn.
  - rewrite Hb, Hpn. cbn [map]. rewrite Hn. apply NoDup_cons. split; [done|apply (ak_nodup _ _ Ha)].
  - rewrite Hb. by apply Forall_cons.
  - split; [exact Ha'|]. etransitivity; [exact Hp'|]. by rewrite Hb.
Qed.

(** The chain of a key that is there: the node, overwritten or taken out. *)
Lemma chain_found mask arr k pos n :
  let b := nth (slot mask k) arr [] in
  arr_ok mask arr → b !! pos = Some n → n_key n = k →
  ∃ others, concat arr ≡ₚ n :: others ∧ (k ∉ map n_key others) ∧
    (let arr' := <[slot mask k := (take pos b ++ drop (S pos) b)]> arr in arr_ok mask arr' ∧ concat arr' ≡ₚ others) ∧
    ∀ n', n_key n' = k → room_ok n' →
      let arr' := <[slot mask k := <[pos := n']> b]> arr in arr_ok mask arr' ∧ concat arr' ≡ₚ n' :: others.
Proof.
  intros b Ha Hb Hn. destruct (chain_update mask arr k Ha) as (rest & Hp & _ & Hs & Hset). fold b in Hp, Hs.
  set (b0 := take pos b ++ drop (S pos) b).
  assert (Hb0 : b ≡ₚ n :: b0).
  { rewrite <- (take_drop_middle b pos n Hb) at 1. by rewrite <- Permutation_middle. }
  pose proof (ak_nodup _ _ Ha) as Hnd. rewrite Hp, Hb0 in Hnd. cbn [app map] in Hnd. rewrite Hn in Hnd.
  apply NoDup_cons in Hnd as [Hnin Hnd].
  assert (Hr : Forall room_ok b0).
  { pose proof (ak_room _ _ Ha) as Hra. rewrite Hp, Hb0 in Hra. apply Forall_app in Hra as [Hra _]. by apply Forall_cons in Hra as [_ ?]. }
  assert (Hs0 : Forall (λ n, slot mask (n_key n) = slot mask k) b0) by (rewrite Hb0 in Hs; by apply Forall_cons in Hs as [_ ?]).
  exists (b0 ++ rest). split_and!; [by rewrite Hp, Hb0|done|by apply Hset|].
  intros n' Hn' Hr'. assert (Hb' : <[pos:=n']> b ≡ₚ n' :: b0).
  { rewrite (insert_take_drop b pos n') by by eapply lookup_lt_Some. by rewrite <- Permutation_middle. }
  destruct (Hset (<[pos:=n']> b)) as [Ha' Hp'].
  - rewrite Hb'. apply Forall_cons. by rewrite Hn'.
  - rewrite Hb'. cbn [app map]. rewrite Hn'. by apply NoDup_cons.
  - rewrite Hb'. by apply Forall_cons.
  - split; [exact Ha'|]. etransitivity; [exact Hp'|]. by rewrite Hb'.
Qed.

(** ** The invariant *)

Definition mem_max : Z := 2 ^ 29 - 1.

Record mem_inv (h : memhash) : Prop := {
  mi_arr : arr_ok (m_mask h) (m_arr h);
  mi_nodes : m_nodes h = Z.of_nat (length (concat (m_arr h)));
  mi_load : m_nodes h < m_mask h
}.

Definition mem_abs (h : memhash) : gmap cstr cstr := arr_abs (concat (m_arr h)).

Lemma concat_repeat_nil {A} n : concat (repeat (@nil A) n) = [].
Proof. by induction n. Qed.

Lemma empty_arr_ok p : 6 <= p <= 30 → arr_ok (Z.ones p) (repeat [] (Z.to_nat (Z.ones p + 1))).
Proof.
  intros Hp. split; [by exists p|by rewrite repeat_length| | |]; rewrite ?concat_repeat_nil; [|constructor..].
  intros i b Hb. apply list_elem_of_lookup_2, list_elem_of_In, repeat_spec in Hb as ->. constructor.
Qed.

Lemma mem_new_inv : mem_inv memhash_new ∧ mem_abs memhash_new = ∅.
Proof. split; [|done]. split; [apply (empty_arr_ok 6); lia|done|done]. Qed.

Lemma mem_size h : mem_inv h → Z.of_nat (size (mem_abs h)) = m_nodes h.
Proof. intros Hi. unfold mem_abs. rewrite arr_abs_size by apply (ak_nodup _ _ (mi_arr _ Hi)). by rewrite (mi_nodes _ Hi). Qed.

Lemma push_all_ok mask b : ∀ arr, arr_ok mask arr → NoDup (map n_key (b ++ concat arr)) → Forall room_ok b →
  arr_ok mask (push_all mask b arr) ∧ concat (push_all mask b arr) ≡ₚ b ++ concat arr.
Proof.
  induction b as [|n b IH]; intros arr Ha Hnd Hr; [done|]. cbn [push_all app map] in *.
  apply NoDup_cons in Hnd as [Hnin Hnd]. apply Forall_cons in Hr as [Hr1 Hr].
  assert (Hk : n_key n ∉ map n_key (concat arr)).
  { rewrite map_app in Hnin. intros ?. apply Hnin, elem_of_app. by right. }
  destruct (chain_insert mask arr (n_key n) 0 n Ha Hk eq_refl Hr1) as [Ha' Hp]. cbn [take drop app] in *.
  destruct (IH _ Ha') as [Ha2 Hp2]; [|done|].
  - rewrite Hp, <- Permutation_middle. cbn [map]. by apply NoDup_cons.
  - split; [done|]. by rewrite Hp2, Hp, <- Permutation_middle.
Qed.

Lemma push_chains_ok mask old : ∀ arr, arr_ok mask arr → NoDup (map n_key (concat old ++ concat arr)) →
  Forall room_ok (concat old) →
  arr_ok mask (push_chains mask old arr) ∧ concat (push_chains mask old arr) ≡ₚ concat old ++ concat arr.
Proof.
  induction old as [|b old IH]; intros arr Ha Hnd Hr; [done|]. cbn [push_chains concat] in *.
  apply Forall_app in Hr as [Hr1 Hr]. rewrite <- app_assoc in Hnd.
  destruct (push_all_ok mask b arr Ha) as [Ha1 Hp1]; [|done|].
  { rewrite !map_app in *. rewrite Permutation_app_swap_app in Hnd. by apply NoDup_app in Hnd as (_ & _ & ?). }
  destruct (IH _ Ha1) as [Ha2 Hp2]; [|done|].
  - by rewrite Hp1, Permutation_app_swap_app.
  - split; [done|]. by rewrite Hp2, Hp1, Permutation_app_swap_app, <- app_assoc.
Qed.

(** The array is doubled in time and keeps its nodes. *)
Lemma memhash_split_ok h :
  arr_ok (m_mask h) (m_arr h) → m_nodes h = Z.of_nat (length (concat (m_arr h))) → m_nodes h <= m_mask h < mem_max + 1 →
  ∃ h', memhash_split h = Some h' ∧ mem_inv h' ∧ concat (m_arr h') ≡ₚ concat (m_arr h).
Proof.
  intros Ha Hn Hm. destruct (ak_mask _ _ Ha) as (p & Hp & Em). pose proof (ones_range p Hp).
  assert (Hp29 : p <= 29).
  { destruct (decide (p = 30)) as [->|]; [|lia]. unfold mem_max in Hm. rewrite Z.ones_equiv in Em. lia. }
  assert (Hnew : Z.shiftl (m_mask h + 1) 1 - 1 = Z.ones (p + 1)).
  { rewrite Em, Z.shiftl_mul_pow2, !Z.ones_equiv, Z.pow_add_r by lia. lia. }
  pose proof (ones_range (p + 1) ltac:(lia)). unfold memhash_split. rewrite Hnew.
  destruct (Z.ltb_spec (Z.ones (p + 1) + 1) (2 ^ 31)); [|lia].
  destruct (push_chains_ok (Z.ones (p + 1)) (m_arr h) _ (empty_arr_ok (p + 1) ltac:(lia))) as [Ha' Hp'];
    rewrite ?concat_repeat_nil, ?app_nil_r in *; [apply (ak_nodup _ _ Ha)|apply (ak_room _ _ Ha)|].
  eexists. split; [done|]. split; [|exact Hp']. split; cbn [m_arr m_mask m_nodes]; [exact Ha'|by rewrite Hp'|].
  rewrite <- Hnew, Z.shiftl_mul_pow2 by lia. lia.
Qed.

(** [new_node] for a key that is not there. *)
Lemma new_node_ok h pos k v :
  arr_ok (m_mask h) (m_arr h) → m_nodes h = Z.of_nat (length (concat (m_arr h))) → m_nodes h < m_mask h →
  m_nodes h < mem_max → k ∉ map n_key (concat (m_arr h)) →
  ∃ h', new_node h pos k v = Some h' ∧ mem_inv h' ∧ mem_abs h' = <[k := v]> (mem_abs h).
Proof.
  intros Ha Hn Hld Hm Hk. set (n := mkNode k v (DOFF (Z.of_nat (length k)) (Z.of_nat (length v)) + Z.of_nat (length v))).
  destruct (chain_insert (m_mask h) (m_arr h) k pos n Ha Hk eq_refl) as [Ha' Hp]; [unfold room_ok; cbn; lia|].
  unfold new_node. fold n. unfold set_bucket, bucket. cbn [m_mask m_nodes].
  assert (Habs : ∀ h', mem_inv h' → concat (m_arr h') ≡ₚ n :: concat (m_arr h) → mem_abs h' = <[k := v]> (mem_abs h)).
  { intros h' Hi' Hp'. unfold mem_abs. by apply (arr_abs_cons _ n); [apply (ak_nodup _ _ (mi_arr _ Hi'))|]. }
  match goal with |- context [memhash_split ?x] => set (h1 := x) end.
  assert (Hn1 : m_nodes h1 = Z.of_nat (length (concat (m_arr h1)))).
  { cbn [h1 m_nodes m_arr]. rewrite Hp. cbn [length]. lia. }
  destruct (Z.leb_spec (m_mask h) (m_nodes h + 1)) as [Hge|Hlt].
  - destruct (memhash_split_ok h1 Ha' Hn1) as (h' & -> & Hi' & Hp'); [cbn [h1 m_nodes m_mask]; lia|].
    exists h'. split_and!; [done|done|]. apply Habs; [done|]. by rewrite Hp'.
  - assert (mem_inv h1) as Hi1 by (split; [exact Ha'|done|exact Hlt]).
    exists h1. split_and!; [done|done|]. by apply Habs.
Qed.

(** ** Operations *)

Lemma find_cases h k : mem_inv h →
  (∃ n, bucket h k !! find_pos (bucket h k) k = Some n ∧ n_key n = k ∧ mem_abs h !! k = Some (n_data n)) ∨
  bucket h k !! find_pos (bucket h k) k = None ∧ mem_abs h !! k = None ∧ k ∉ map n_key (concat (m_arr h)).
Proof.
  intros Hi. pose proof (mi_arr _ Hi) as Ha. pose proof (find_pos_spec (bucket h k) k) as Hf.
  destruct (bucket h k !! find_pos (bucket h k) k) as [n|] eqn:E; [left; exists n|right].
  - destruct (chain_found _ _ k _ n Ha E Hf) as (others & Hp & _ & _ & _). split_and!; [done|done|].
    unfold mem_abs. rewrite (arr_abs_cons _ n others (ak_nodup _ _ Ha) Hp), Hf. by apply lookup_insert_eq.
  - destruct Hf as [_ Hf]. destruct (chain_update _ _ k Ha) as (rest & Hp & Hr & _ & _). fold (bucket h k) in Hp.
    assert (Hnin : k ∉ map n_key (concat (m_arr h))).
    { rewrite Hp, map_app, elem_of_app. tauto. }
    split_and!; [done|by apply arr_abs_none|done].
Qed.

Lemma mem_fetch_ok h k : mem_inv h → memhash_fetch h k = Some (mem_abs h !! k).
Proof.
  intros Hi. unfold memhash_fetch, find_node. by destruct (find_cases h k Hi) as [(n & -> & _ & ->)|(-> & -> & _)].
Qed.

Lemma mem_insert_ok h k v : mem_inv h → Z.of_nat (size (mem_abs h)) < mem_max →
  ∃ h', memhash_insert h k v = Some (h', bool_decide (mem_abs h !! k = None)) ∧ mem_inv h' ∧
    mem_abs h' = match mem_abs h !! k with Some _ => mem_abs h | None => <[k:=v]> (mem_abs h) end.
Proof.
  intros Hi Hm. rewrite mem_size in Hm by done. unfold memhash_insert, find_node.
  destruct (find_cases h k Hi) as [(n & -> & _ & ->)|(-> & -> & Hk)]; [by exists h|]. destruct Hi as [Ha Hn Hl].
  destruct (new_node_ok h (find_pos (bucket h k) k) k v Ha Hn Hl Hm Hk) as (h' & -> & Hi' & Ha'). by exists h'.
Qed.

(** Overwriting the data of a node in place. *)
Lemma mem_overwrite h k v n room pos :
  mem_inv h → bucket h k !! pos = Some n → n_key n = k → room_ok (mkNode (n_key n) v room) →
  let h' := mkMem (m_nodes h) (set_bucket h k (<[pos := mkNode (n_key n) v room]> (bucket h k))) (m_mask h) (m_lastidx h) (m_lastnode h) in
  mem_inv h' ∧ mem_abs h' = <[k:=v]> (mem_abs h).
Proof.
  intros Hi Hb Hk Hr h'. pose proof (mi_arr _ Hi) as Ha.
  destruct (chain_found _ _ k pos n Ha Hb Hk) as (others & Hp & Hnin & _ & Hov).
  destruct (Hov (mkNode (n_key n) v room) Hk Hr) as [Ha' Hp']. clear Hov.
  fold (bucket h k) in Ha', Hp'. change (arr_ok (m_mask h') (m_arr h')) in Ha'.
  change (concat (m_arr h') ≡ₚ mkNode (n_key n) v room :: others) in Hp'. split.
  - split; [exact Ha'| |apply (mi_load _ Hi)]. rewrite Hp'. change (m_nodes h') with (m_nodes h). by rewrite (mi_nodes _ Hi), Hp.
  - unfold mem_abs. rewrite (arr_abs_cons _ _ _ (ak_nodup _ _ Ha') Hp'), (arr_abs_cons _ _ _ (ak_nodup _ _ Ha) Hp).
    cbn [n_key n_data]. rewrite Hk, insert_insert. by case_decide.
Qed.

(** Taking a node out of its chain. *)
Lemma mem_takeout h k n pos :
  mem_inv h → bucket h k !! pos = Some n → n_key n = k →
  let h' := mkMem (m_nodes h - 1) (set_bucket h k (take pos (bucket h k) ++ drop (S pos) (bucket h k))) (m_mask h) (m_lastidx h) (m_lastnode h) in
  mem_inv h' ∧ mem_abs h' = delete k (mem_abs h) ∧ (k ∉ map n_key (concat (m_arr h'))) ∧ 0 < m_nodes h.
Proof.
  intros Hi Hb Hk h'. pose proof (mi_arr _ Hi) as Ha.
  destruct (chain_found _ _ k pos n Ha Hb Hk) as (others & Hp & Hnin & [Ha' Hp'] & _).
  fold (bucket h k) in Ha', Hp'. change (arr_ok (m_mask h') (m_arr h')) in Ha'. change (concat (m_arr h') ≡ₚ others) in Hp'.
  assert (Hn : m_nodes h = Z.of_nat (S (length others))) by by rewrite (mi_nodes _ Hi), Hp.
  pose proof (mi_load _ Hi). split_and!; [split; [exact Ha'| |]| | |lia].
  - rewrite Hp'. change (m_nodes h') with (m_nodes h - 1). lia.
  - change (m_nodes h - 1 < m_mask h). lia.
  - unfold mem_abs. rewrite (arr_abs_cons _ _ _ (ak_nodup _ _ Ha) Hp), Hk.
    rewrite delete_insert_id by by apply arr_abs_none. by apply arr_abs_perm; [apply (ak_nodup _ _ Ha')|].
  - by rewrite Hp'.
Qed.

Lemma DOFF_le klen d d' : 0 <= klen → 0 <= d <= d' → DOFF klen d + d <= DOFF klen d' + d'.
Proof.
  intros Hk Hd. assert (Hal : ∀ p, 0 <= p → klen <= Z.land (klen + Z.ones p) (Z.lnot (Z.ones p)) ∧
    Z.land (klen + Z.ones p) (Z.lnot (Z.ones p)) = (klen + Z.ones p) / 2 ^ p * 2 ^ p).
  { intros p Hp. pose proof (Z.pow_pos_nonneg 2 p ltac:(lia) Hp).
    rewrite <- Z.ldiff_land, Z.ldiff_ones_r, Z.shiftl_mul_pow2, Z.shiftr_div_pow2 by done. split; [|done].
    rewrite Z.ones_equiv. pose proof (Z.div_mod (klen + Z.pred (2 ^ p)) (2 ^ p) ltac:(lia)).
    pose proof (Z.mod_pos_bound (klen + Z.pred (2 ^ p)) (2 ^ p) ltac:(lia)). nia. }
  destruct (Hal 3 ltac:(lia)) as [H3 E3]. destruct (Hal 2 ltac:(lia)) as [H2 E2]. destruct (Hal 1 ltac:(lia)) as [H1 E1].
  change (Z.ones 3) with 7 in *. change (Z.ones 2) with 3 in *. change (Z.ones 1) with 1 in *.
  change (2 ^ 3) with 8 in *. change (2 ^ 2) with 4 in *. change (2 ^ 1) with 2 in *.
  unfold DOFF. repeat match goal with |- context [?a <=? ?b] => destruct (Z.leb_spec a b) end;
    rewrite ?E1, ?E2, ?E3 in *; Z.div_mod_to_equations; lia.
Qed.

Lemma mem_store_ok h k v : mem_inv h → Z.of_nat (size (mem_abs h)) < mem_max →
  ∃ h', memhash_store h k v = Some h' ∧ mem_inv h' ∧ mem_abs h' = <[k:=v]> (mem_abs h).
Proof.
  intros Hi Hm. rewrite mem_size in Hm by done. unfold memhash_store.
  destruct (find_cases h k Hi) as [(n & E & Hk & Ha)|(E & Ha & Hk)]; rewrite E; last first.
  { destruct Hi as [Harr Hn Hl]. by apply new_node_ok. }
  destruct (Nat.ltb_spec (length (n_data n)) (length v)) as [Hlt|Hge].
  - destruct (mem_takeout h k n _ Hi E Hk) as (Hi' & Ha' & Hnin & Hpos). destruct Hi' as [Harr Hn Hl].
    match goal with |- context [new_node ?x] => set (h1 := x) in * end.
    destruct (new_node_ok h1 (find_pos (bucket h k) k) k v Harr Hn Hl) as (h' & -> & Hi' & Habs); [cbn [h1 m_nodes]; lia|done|].
    exists h'. split_and!; [done|done|]. rewrite Habs, Ha', insert_delete_eq. done.
  - assert (Hr : room_ok n).
    { destruct (chain_found _ _ k _ n (mi_arr _ Hi) E Hk) as (others & Hp & _).
      pose proof (ak_room _ _ (mi_arr _ Hi)) as Hr. rewrite Hp in Hr. by apply Forall_cons in Hr as [? _]. }
    pose proof (DOFF_le (Z.of_nat (length k)) (Z.of_nat (length v)) (Z.of_nat (length (n_data n))) ltac:(lia) ltac:(lia)) as Hd.
    unfold room_ok in Hr. rewrite Hk in Hr.
    destruct (Z.leb_spec (DOFF (Z.of_nat (length k)) (Z.of_nat (length v)) + Z.of_nat (length v)) (n_room n)) as [Hfit|]; [|lia].
    eexists. split; [done|]. apply mem_overwrite; [done|done|done|]. unfold room_ok. cbn [n_key n_data n_room]. by rewrite Hk.
Qed.

Lemma mem_poke_ok h k v w : mem_inv h → mem_abs h !! k = Some w → length w = length v →
  ∃ h', memhash_poke h k v = Some h' ∧ mem_inv h' ∧ mem_abs h' = <[k:=v]> (mem_abs h).
Proof.
  intros Hi Hw Hl. unfold memhash_poke.
  destruct (find_cases h k Hi) as [(n & E & Hk & Ha)|(E & Ha & Hk)]; [|congruence]. rewrite E.
  rewrite Hw in Ha. injection Ha as ->. rewrite Hl, Nat.eqb_refl.
  eexists. split; [done|]. apply mem_overwrite; [done|done|done|].
  destruct (chain_found _ _ k _ n (mi_arr _ Hi) E Hk) as (others & Hp & _).
  pose proof (ak_room _ _ (mi_arr _ Hi)) as Hr. rewrite Hp in Hr. apply Forall_cons in Hr as [Hr _].
  unfold room_ok in *. cbn [n_key n_data n_room]. by rewrite <- Hl.
Qed.

Lemma mem_delete_ok h k : mem_inv h →
  ∃ h', memhash_delete h k = Some (h', if decide (is_Some (mem_abs h !! k)) then 0 else -1) ∧ mem_inv h' ∧
    mem_abs h' = delete k (mem_abs h).
Proof.
  intros Hi. unfold memhash_delete. destruct (find_cases h k Hi) as [(n & E & Hk & Ha)|(E & Ha & Hk)]; rewrite E.
  - destruct (mem_takeout h k n _ Hi E Hk) as (Hi' & Hab & _ & Hpos).
    destruct (Z.ltb_spec 0 (m_nodes h)); [|lia]. eexists. split; [|by split]. rewrite Ha. by rewrite decide_True by eauto.
  - exists h. rewrite Ha, decide_False by (intros [? [=]]). split_and!; [done|done|]. by rewrite delete_id.
Qed.

(** ** Iteration *)

(** What the iteration has not seen yet. *)
Definition ahead (h : memhash) : list node :=
  drop 1 (m_lastnode h) ++ concat (drop (Z.to_nat (m_lastidx h + 1)) (m_arr h)).

Lemma next_chain_spec arr : ∀ i,
  match next_chain arr i with
  | None => concat arr = []
  | Some (j, b) => ∃ m n b', b = n :: b' ∧ j = i + Z.of_nat m ∧ concat arr = b ++ concat (drop (S m) arr)
  end.
Proof.
  induction arr as [|[|n b] arr IH]; intros i; cbn [next_chain]; [done| |by exists O, n, b; split_and!; [|lia|]].
  specialize (IH (i + 1)). destruct (next_chain arr (i + 1)) as [[j b]|]; [|done].
  destruct IH as (m & n & b' & Hb & Hj & Hc). exists (S m), n, b'. split_and!; [done|lia|]. exact Hc.
Qed.

Lemma memhash_next_spec h : -1 <= m_lastidx h →
  match ahead h with
  | [] => (memhash_next h).2 = None
  | n :: l => (memhash_next h).2 = Some (kv n) ∧ ahead (memhash_next h).1 = l ∧ -1 <= m_lastidx (memhash_next h).1
  end.
Proof.
  intros Hi. unfold ahead, memhash_next. destruct (drop 1 (m_lastnode h)) as [|n b] eqn:Ed; [|done].
  pose proof (next_chain_spec (drop (Z.to_nat (m_lastidx h + 1)) (m_arr h)) (m_lastidx h + 1)) as Hn.
  destruct (next_chain _ _) as [[j b]|]; cbn [app].
  - destruct Hn as (m & n & b' & -> & -> & ->). cbn [app snd fst m_lastnode m_lastidx m_arr drop]. split_and!; [done| |lia].
    rewrite drop_drop. do 3 f_equal. lia.
  - by rewrite Hn.
Qed.

Lemma mem_each_loop_spec fuel : ∀ h, -1 <= m_lastidx h → (length (ahead h) <= fuel)%nat →
  each_loop fuel (memhash_next h) = Some (map kv (ahead h)).
Proof.
  induction fuel as [|fuel IH]; intros h Hi Hl; pose proof (memhash_next_spec h Hi) as Hs;
    destruct (ahead h) as [|n l]; cbn [length] in Hl; try lia; cbn [each_loop].
  - by rewrite Hs.
  - by rewrite Hs.
  - destruct Hs as (-> & Ha & Hi'). rewrite IH; [by rewrite Ha|done|rewrite Ha; lia].
Qed.

Lemma mem_each_ok h : mem_inv h → memhash_each h = Some (map kv (concat (m_arr h))).
Proof.
  intros Hi. apply (mem_each_loop_spec _ (mkMem (m_nodes h) (m_arr h) (m_mask h) (-1) [])); [done|].
  rewrite (mi_nodes _ Hi). unfold ahead. cbn [m_lastnode m_lastidx m_arr drop app].
  change (Z.to_nat (-1 + 1)) with 0%nat. rewrite drop_0. lia.
Qed.

(** ** The contract *)

#[global] Instance memhash_ops : HashOps cstr cstr memhash := {
  hash_fetch := memhash_fetch;
  hash_insert := memhash_insert;
  hash_store := memhash_store;
  hash_poke := memhash_poke;
  hash_items := memhash_each;
  hash_count := memhash_count
}.

#[global] Program Instance memhash_laws : HashLaws cstr cstr memhash := {
  hash_inv := mem_inv;
  hash_abs := mem_abs;
  hash_okkey := λ _, True;
  hash_max := mem_max;
  hash_fits := λ w v, length w = length v
}.
Next Obligation. intros h k Hi _. by apply mem_fetch_ok. Qed.
Next Obligation. intros h k v Hi _. by apply mem_insert_ok. Qed.
Next Obligation. intros h k v Hi _. by apply mem_store_ok. Qed.
Next Obligation. intros h k v w Hi _. by apply mem_poke_ok. Qed.
Next Obligation.
  intros h Hi. exists (map kv (concat (m_arr h))). split; [by apply mem_each_ok|].
  unfold hash_abs, mem_abs, arr_abs. symmetry. apply map_to_list_to_map.
  change (NoDup (map fst (map kv (concat (m_arr h))))). rewrite map_map. apply (ak_nodup _ _ (mi_arr _ Hi)).
Qed.
Next Obligation. intros h Hi. symmetry. by apply mem_size. Qed.
Next Obligation. done. Qed.

(** Histories with deletions. *)
Definition mem_step (h : memhash) (o : hop cstr cstr + cstr) : option (memhash * (hres cstr + Z)) :=
  match o with
  | inl o => let? (h, r) := hash_step h o in Some (h, inl r)
  | inr k => let? (h, r) := memhash_delete h k in Some (h, inr r)
  end.

Fixpoint mem_run (h : memhash) (os : list (hop cstr cstr + cstr)) : option (memhash * list (hres cstr + Z)) :=
  match os with
  | [] => Some (h, [])
  | o :: os => let? (h, r) := mem_step h o in let? (h, rs) := mem_run h os in Some (h, r :: rs)
  end.

Lemma mem_step_ok h o : mem_inv h → Z.of_nat (size (mem_abs h)) < mem_max →
  ∃ h', mem_inv h' ∧ (Z.of_nat (size (mem_abs h')) <= Z.of_nat (size (mem_abs h)) + 1) ∧
    match o with
    | inl o => mem_step h (inl o) = Some (h', inl (map_step (mem_abs h) o).2) ∧ mem_abs h' = (map_step (mem_abs h) o).1
    | inr k => mem_step h (inr k) = Some (h', inr (if decide (is_Some (mem_abs h !! k)) then 0 else -1)) ∧
               mem_abs h' = delete k (mem_abs h)
    end.
Proof.
  intros Hi Hm. destruct o as [o|k]; cbn [mem_step].
  - destruct (hash_step_ok (laws := memhash_laws) h o Hi I Hm) as (h' & E & Hi' & Ha'). exists h'. rewrite E.
    change (mem_abs h' = (map_step (mem_abs h) o).1) in Ha'.
    pose proof (map_step_size (mem_abs h) o) as Hs. rewrite Ha'. split_and!; [done|lia|done|done].
  - destruct (mem_delete_ok h k Hi) as (h' & -> & Hi' & Ha'). exists h'. split_and!; [done| |done|done].
    rewrite Ha', map_size_delete. destruct (mem_abs h !! k); unfold id; lia.
Qed.

End MemHash.

(** The same history on a finite map. *)
Definition del_step (m : gmap cstr cstr) (o : hop cstr cstr + cstr) : gmap cstr cstr * (hres cstr + Z) :=
  match o with
  | inl o => let '(m, r) := map_step m o in (m, inl r)
  | inr k => (delete k m, inr (if decide (is_Some (m !! k)) then 0 else -1))
  end.

Fixpoint del_run (m : gmap cstr cstr) (os : list (hop cstr cstr + cstr)) : gmap cstr cstr * list (hres cstr + Z) :=
  match os with
  | [] => (m, [])
  | o :: os => let '(m, r) := del_step m o in let '(m, rs) := del_run m os in (m, r :: rs)
  end.

Lemma mem_run_ok HASH os : ∀ h, mem_inv HASH h → Z.of_nat (size (mem_abs h)) + Z.of_nat (length os) <= mem_max →
  ∃ h', mem_run HASH h os = Some (h', (del_run (mem_abs h) os).2) ∧ mem_inv HASH h' ∧ mem_abs h' = (del_run (mem_abs h) os).1.
Proof.
  induction os as [|o os IH]; intros h Hi Hm; cbn [mem_run del_run length] in *; [by exists h|].
  destruct (mem_step_ok HASH h o Hi ltac:(lia)) as (h1 & Hi1 & Hsz & Ho).
  assert (mem_step HASH h o = Some (h1, (del_step (mem_abs h) o).2) ∧ mem_abs h1 = (del_step (mem_abs h) o).1) as [-> Ha1].
  { destruct o as [o|k]; cbn [del_step]; destruct Ho as [Ho ->]; [|by rewrite Ho]. rewrite Ho. by destruct (map_step _ _). }
  destruct (del_step (mem_abs h) o) as [m1 r1]. cbn [fst snd] in *. subst m1.
  destruct (IH h1 Hi1 ltac:(lia)) as (h2 & -> & Hi2 & Ha2). exists h2. by destruct (del_run (mem_abs h1) os) as [m2 rs].
Qed.

(** ** Properties *)

(** C16. Any program that makes fewer than 2^29 fetch, insert, store and delete calls
    sees of a hash of byte strings exactly what it would see of a finite map,
    whatever the hash function: no value is written past the block allocated for
    its node, the array doubles in time and keeps its nodes, iteration sees each
    binding once and the count is the number of bindings. *)
Theorem memhash_refines_map (HASH : cstr → Z) (os : list (hop cstr cstr + cstr)) :
  Z.of_nat (length os) < 2 ^ 29 →
  ∃ h l, mem_run HASH memhash_new os = Some (h, (del_run ∅ os).2) ∧
    memhash_each h = Some l ∧ l ≡ₚ map_to_list (del_run ∅ os).1 ∧
    memhash_count h = Z.of_nat (size (del_run ∅ os).1).
Proof.
  intros Hl. destruct (mem_new_inv HASH) as [Hi Ha].
  destruct (mem_run_ok HASH os memhash_new Hi) as (h & Hrun & Hinv & Habs); rewrite Ha in *; [rewrite map_size_empty; unfold mem_max; lia|].
  destruct (items_law (HashLaws := memhash_laws HASH) h Hinv) as (l & Hit & Hp). exists h, l. rewrite <- Habs.
  split_and!; [done|done|done|]. symmetry. exact (mem_size HASH h Hinv).
Qed.

(** A hundred keys in one chain, some of them stored again with shorter and longer
    values, and a deletion. *)
Definition ex_memops : list (hop cstr cstr + cstr) :=
  map (λ k, inl (HInsert [Z.of_nat k] (repeat 7 k))) (seq 0 100) ++
  [inl (HStore [9] [1; 2]); inl (HStore [9] [1; 2; 3]); inl (HFetch [9]); inr [9]; inr [9]; inl (HFetch [9])].

Lemma memhash_refines_map_witness :
  (match mem_run (λ _, 5) memhash_new ex_memops with
   | Some (h, rs) => (m_mask h, memhash_count h, drop 100 rs) | None => (0, 0, []) end) =
  (127, 99, [inl RDone; inl RDone; inl (RVal (Some [1; 2; 3])); inr 0; inr (-1); inl (RVal None)]) ∧
  ∃ h l, mem_run (λ _, 5) memhash_new ex_memops = Some (h, (del_run ∅ ex_memops).2) ∧
    memhash_each h = Some l ∧ l ≡ₚ map_to_list (del_run ∅ ex_memops).1 ∧
    memhash_count h = Z.of_nat (size (del_run ∅ ex_memops).1).
Proof. split; [vm_compute; reflexivity|]. apply memhash_refines_map. done. Defined.
