(* ===== verification/WebEncode.v ===== *)
(** * WebEncode: strings as parts of a query string

    src/src/libc/utils/webencode.c and the key encoding of
    src/src/libc/hash/hash_tofile.c.  The decoder's writes are checked against the
    buffer it allocates, and its cursor against the end of the string.

    Proved: decoding undoes both encoders, whatever the bytes, and stays inside the
    buffer. *)

From S2P Require Import Prelude CStr.
From stdpp Require Import base numbers list strings.
From Stdlib Require Import ZArith Lia.

Local Open Scope Z_scope.

Local Open Scope bk_scope.

(** ** Encoding *)

Definition is_encoded (c : Z) : bool :=
  negb ((65 <=? c) && (c <=? 90) || (97 <=? c) && (c <=? 122) || (48 <=? c) && (c <=? 57) ||
        memchr c (s2b "-_.~/@"%string)).

Definition hexdigit (d : Z) : Z := if d <? 10 then 48 + d else 87 + d.

(** [fprintf(out, "%%%02x", c)] *)
Definition pct (c : Z) : cstr := [37; hexdigit (c / 16); hexdigit (c mod 16)].

Fixpoint webencode (ptr : cstr) : cstr :=
  match ptr with
  | [] => s2b "%FF"%string
  | c :: rest =>
      if (length ptr =? 1)%nat && (c =? 0) then [] else
      (if c =? 32 then [43] else if is_encoded c then pct c else [c]) ++ webencode rest
  end.

Fixpoint hash_keyencode (ptr : cstr) : cstr :=
  match ptr with
  | [] => []
  | c :: rest =>
      (if c =? 32 then [43] else if memchr c [37; 43; 38; 61; 10] then pct c else [c]) ++ hash_keyencode rest
  end.

(** ** Decoding *)

Definition hexval (c : Z) : option Z :=
  if (48 <=? c) && (c <=? 57) then Some (c - 48)
  else if (97 <=? c) && (c <=? 102) then Some (c - 87)
  else if (65 <=? c) && (c <=? 70) then Some (c - 55)
  else None.

(** [sscanf(s, "%2x", &c)]: white space, a sign, digits; the sign counts. *)
Definition scan_2x (s : cstr) : option Z :=
  let s := skip_space s in
  if at0 s =? 43 then hexval (at0 (drop 1 s))
  else if at0 s =? 45 then let? d := hexval (at0 (drop 1 s)) in Some (- d)
  else let? d := hexval (at0 s) in
       match hexval (at0 (drop 1 s)) with Some e => Some (16 * d + e) | None => Some d end.

(** [*t++ = c] in a buffer of [cap] bytes. *)
Definition put (cap : nat) (t : cstr) (c : Z) : option cstr :=
  assert! (length t <? cap)%nat; Some (t ++ [c mod 256]).

(** [None]: an access out of bounds.  [Some None]: the error return.  Otherwise
    the cursor and the bytes decoded. *)
Fixpoint webdecode_loop (cap : nat) (p t : cstr) (bin : bool) : option (option (cstr * cstr)) :=
  let finish := if bin then Some (Some (p, t)) else let? t := put cap t 0 in Some (Some (p, t)) in
  match p with
  | [] => finish
  | c :: p' =>
      if c =? 43 then let? t := put cap t 32 in webdecode_loop cap p' t bin
      else if c =? 37 then
        match p' with
        | a :: b :: q =>
            if (a =? 70) && (b =? 70) then webdecode_loop cap q t true else
            match scan_2x p' with
            | None => Some None
            | Some v => let? t := put cap t v in webdecode_loop cap q t bin
            end
        | _ => match scan_2x p' with None => Some None | Some _ => None end
        end
      else if (c =? 38) || (c =? 61) then finish
      else let? t := put cap t c in webdecode_loop cap p' t bin
  end.

Definition webdecode (data : cstr) : option (option (cstr * cstr)) :=
  webdecode_loop (strcspn data [61; 38] + 1) data [] false.

(** The key as a C string; [Some None] is the null pointer. *)
Definition hash_keydecode (key : cstr) : option (option cstr) :=
  let? r := webdecode key in
  Some (match r with Some (_, out) => Some (upto_nul out) | None => None end).

(** A percent sign and one digit before the separator: the cursor steps over the
    separator, and the bytes behind it do not fit the buffer. *)
Example webdecode_overflow : webdecode (s2b "%4=zzzz&"%string) = None.
Proof. vm_compute. reflexivity. Qed.

(** ... or over the end of the string. *)
Example webdecode_past_end : webdecode (s2b "k%4"%string) = None.
Proof. vm_compute. reflexivity. Qed.

(** ** Round trips *)

Definition bytes (s : cstr) : Prop := Forall (λ c, 0 <= c < 256) s.

(** What may follow an encoded string. *)
Definition ends (rest : cstr) : Prop := rest = [] ∨ at0 rest = 38 ∨ at0 rest = 61.

Lemma hexdigit_val d : 0 <= d < 16 → hexval (hexdigit d) = Some d.
Proof.
  intros Hd. unfold hexdigit, hexval. destruct (Z.ltb_spec d 10).
  - rewrite (proj2 (Z.leb_le 48 (48 + d))), (proj2 (Z.leb_le (48 + d) 57)) by lia. cbn. f_equal. lia.
  - rewrite (proj2 (Z.leb_gt (87 + d) 57)), andb_false_r by lia.
    rewrite (proj2 (Z.leb_le 97 (87 + d))), (proj2 (Z.leb_le (87 + d) 102)) by lia. cbn. f_equal. lia.
Qed.

Lemma hexdigit_range d : 0 <= d < 16 → 48 <= hexdigit d <= 57 ∨ 97 <= hexdigit d <= 102.
Proof. intros Hd. unfold hexdigit. destruct (Z.ltb_spec d 10); lia. Qed.

Lemma hexval_pct c rest : 0 <= c < 256 → scan_2x (drop 1 (pct c) ++ rest) = Some c.
Proof.
  intros Hc. unfold pct. cbn [drop app]. pose proof (Z.div_mod c 16 ltac:(lia)) as Hdm.
  assert (H1 : 0 <= c / 16 < 16) by (split; [apply Z.div_pos; lia|apply Z.div_lt_upper_bound; lia]).
  pose proof (Z.mod_pos_bound c 16 ltac:(lia)) as H2.
  pose proof (hexdigit_range _ H1). pose proof (hexdigit_range _ H2).
  set (x := hexdigit (c / 16)) in *. set (y := hexdigit (c mod 16)) in *.
  assert (Hs : isspace x = false) by (destruct (isspace x) eqn:E; [apply isspace_spec in E; lia|done]).
  unfold scan_2x. cbn [skip_space]. rewrite Hs. cbn [at0 hd drop].
  destruct (Z.eqb_spec x 43); [lia|]. destruct (Z.eqb_spec x 45); [lia|].
  unfold x, y. rewrite !hexdigit_val by done. f_equal. lia.
Qed.

(** One encoded byte. *)
Lemma decode_pct cap c rest t bin : 0 <= c < 256 → (length t < cap)%nat →
  webdecode_loop cap (pct c ++ rest) t bin = webdecode_loop cap rest (t ++ [c]) bin.
Proof.
  intros Hc Ht. pose proof (hexval_pct c rest Hc) as Hs. unfold pct in *. cbn [drop app] in *. cbn [webdecode_loop].
  rewrite Hs. change (37 =? 43) with false. change (37 =? 37) with true. cbn [negb].
  assert (H1 : 0 <= c / 16 < 16) by (split; [apply Z.div_pos; lia|apply Z.div_lt_upper_bound; lia]).
  destruct (Z.eqb_spec (hexdigit (c / 16)) 70) as [E|_]; [pose proof (hexdigit_range _ H1); lia|]. cbn [andb].
  unfold put. rewrite (proj2 (Nat.ltb_lt _ _)) by done. by rewrite Z.mod_small by lia.
Qed.

Lemma decode_plus cap rest t bin : (length t < cap)%nat →
  webdecode_loop cap (43 :: rest) t bin = webdecode_loop cap rest (t ++ [32]) bin.
Proof. intros Ht. cbn [webdecode_loop]. unfold put. by rewrite (proj2 (Nat.ltb_lt _ _)) by done. Qed.

Lemma decode_plain cap c rest t bin : 0 <= c < 256 → memchr c [37; 43; 38; 61] = false → (length t < cap)%nat →
  webdecode_loop cap (c :: rest) t bin = webdecode_loop cap rest (t ++ [c]) bin.
Proof.
  intros Hc Hm Ht. unfold memchr in Hm. cbn [existsb] in Hm. rewrite !orb_false_iff in Hm.
  destruct Hm as (E1 & E2 & E3 & E4 & _). cbn [webdecode_loop]. rewrite E1, E2, E3, E4. cbn [orb]. unfold put.
  rewrite (proj2 (Nat.ltb_lt _ _)) by done. by rewrite Z.mod_small by lia.
Qed.

(** The end of the string. *)
Lemma decode_end cap rest t bin : ends rest → bin = true ∨ (length t < cap)%nat →
  webdecode_loop cap rest t bin = Some (Some (rest, if bin then t else t ++ [0])).
Proof.
  intros He Ht. assert (Hfin : (if bin then Some (Some (rest, t)) else let? t := put cap t 0 in Some (Some (rest, t))) =
    Some (Some (rest, if bin then t else t ++ [0]))).
  { destruct bin; [done|]. destruct Ht as [|Ht]; [done|]. unfold put. by rewrite (proj2 (Nat.ltb_lt _ _)) by done. }
  destruct rest as [|c rest]; [exact Hfin|]. cbn [webdecode_loop].
  destruct He as [|[He|He]]; [done| |]; cbn [at0 hd] in He; subst c; exact Hfin.
Qed.

Lemma encoded_sep c : is_encoded c = false → memchr c [37; 43; 38; 61] = false.
Proof.
  intros H. destruct (memchr c [37; 43; 38; 61]) eqn:E; [|done]. unfold memchr in E. cbn [existsb] in E.
  rewrite !orb_true_iff, !Z.eqb_eq in E. destruct E as [->|[->|[->|[->|]]]]; discriminate.
Qed.

(** Decoding what [webencode] wrote for [s]. *)
Lemma webdecode_encode cap rest : ends rest → ∀ s t, bytes s → (length t + length (webencode s) < cap)%nat →
  webdecode_loop cap (webencode s ++ rest) t false = Some (Some (rest, t ++ s)).
Proof.
  intros He. induction s as [|c s IH]; intros t Hb Hcap.
  { cbn. rewrite decode_end by auto. by rewrite app_nil_r. }
  apply Forall_cons in Hb as [Hc Hb].
  destruct ((length (c :: s) =? 1)%nat && (c =? 0)) eqn:El.
  - apply andb_prop in El as [El%Nat.eqb_eq Ez%Z.eqb_eq]. subst c. destruct s; [|done]. cbn [webencode length] in *. cbn [app].
    rewrite decode_end; [done|done|right]. change (length (@nil Z)) with 0%nat in Hcap. cbn in Hcap. lia.
  - assert (Hw : webencode (c :: s) = (if c =? 32 then [43] else if is_encoded c then pct c else [c]) ++ webencode s).
    { cbn [webencode]. by rewrite El. }
    rewrite Hw in *. rewrite length_app in Hcap. rewrite <- app_assoc.
    destruct (Z.eqb_spec c 32) as [->|_]; [|destruct (is_encoded c) eqn:Ee]; cbn [app length] in *.
    + rewrite decode_plus, IH by (done || rewrite ?length_app; cbn; lia). by rewrite <- app_assoc.
    + change (pct c ++ webencode s ++ rest) with (pct c ++ (webencode s ++ rest)).
      rewrite decode_pct, IH by (done || rewrite ?length_app; cbn in *; lia). by rewrite <- app_assoc.
    + rewrite decode_plain, IH by (done || (by apply encoded_sep) || (rewrite ?length_app; cbn in *; lia)). by rewrite <- app_assoc.
Qed.

(** The buffer [webdecode] allocates is large enough. *)
Lemma strcspn_encoded set s rest :
  Forall (λ c, memchr c set = false) s → (rest = [] ∨ memchr (at0 rest) set = true) → strcspn (s ++ rest) set = length s.
Proof.
  intros Hs Hr. induction Hs as [|c s Hc Hs IH]; cbn [app strcspn length].
  - destruct rest as [|c rest]; [done|]. destruct Hr as [|Hr]; [done|]. cbn [at0 hd strcspn] in *. by rewrite Hr.
  - by rewrite Hc, IH.
Qed.

Lemma pct_plain c : 0 <= c < 256 → Forall (λ x, (x = 37 ∨ 48 <= x <= 57 ∨ 97 <= x <= 102)) (pct c).
Proof.
  intros Hc. unfold pct. assert (H1 : 0 <= c / 16 < 16) by (split; [apply Z.div_pos; lia|apply Z.div_lt_upper_bound; lia]).
  pose proof (hexdigit_range _ H1). pose proof (hexdigit_range _ (Z.mod_pos_bound c 16 ltac:(lia))).
  repeat (apply Forall_cons; split; [tauto|]). by apply Forall_nil.
Qed.

(** The bytes an encoded string is made of. *)
Definition code (c : Z) : Prop := 0 < c < 256 ∧ c ≠ 38 ∧ c ≠ 61 ∧ c ≠ 32 ∧ c ≠ 10.

Ltac codes := repeat (apply Forall_cons; split; [unfold code; lia|]); try by apply Forall_nil.

Lemma pct_code c : 0 <= c < 256 → Forall code (pct c).
Proof. intros Hc. eapply Forall_impl; [by apply pct_plain|]. unfold code. lia. Qed.

Lemma webencode_code s : bytes s → Forall code (webencode s).
Proof.
  induction s as [|c s IH]; intros Hb.
  { change (Forall code [37; 70; 70]). by codes. }
  apply Forall_cons in Hb as [Hc Hb]. cbn [webencode].
  destruct (_ && _); [done|]. apply Forall_app. split; [|by apply IH].
  destruct (Z.eqb_spec c 32); [codes|]. destruct (is_encoded c) eqn:E; [by apply pct_code|].
  assert (c ≠ 0 ∧ c ≠ 38 ∧ c ≠ 61 ∧ c ≠ 10) by (split_and!; intros ->; discriminate E). codes.
Qed.

Lemma code_sep s : Forall code s → Forall (λ c, memchr c [61; 38] = false) s.
Proof.
  intros H. eapply Forall_impl; [exact H|]. unfold code, memchr. cbn [existsb]. intros c Hc.
  rewrite !orb_false_iff, !Z.eqb_neq. lia.
Qed.

Lemma webdecode_webencode s rest : bytes s → ends rest → webdecode (webencode s ++ rest) = Some (Some (rest, s)).
Proof.
  intros Hb He. unfold webdecode. rewrite strcspn_encoded.
  - apply (webdecode_encode _ rest He s []); [done|]. cbn [length]. lia.
  - by apply code_sep, webencode_code.
  - destruct He as [|[E|E]]; [by left|right; by rewrite E..].
Qed.

Lemma keyencode_code k : cbytes k → Forall code (hash_keyencode k).
Proof.
  induction k as [|c k IH]; intros Hb; [constructor|]. apply Forall_cons in Hb as [Hc Hb]. cbn [hash_keyencode].
  apply Forall_app. split; [|by apply IH]. destruct (Z.eqb_spec c 32); [codes|].
  destruct (memchr c [37; 43; 38; 61; 10]) eqn:E; [apply pct_code; lia|].
  assert (c ≠ 38 ∧ c ≠ 61 ∧ c ≠ 10) by (split_and!; intros ->; discriminate E). codes.
Qed.

Lemma keydecode_loop cap : ∀ k t, cbytes k → (length t + length (hash_keyencode k) < cap)%nat →
  webdecode_loop cap (hash_keyencode k) t false = Some (Some ([], t ++ k ++ [0])).
Proof.
  induction k as [|c k IH]; intros t Hb Hcap; cbn [hash_keyencode] in *.
  { rewrite decode_end; [done|by left|right; cbn in Hcap; lia]. }
  apply Forall_cons in Hb as [Hc Hb]. rewrite length_app in Hcap.
  destruct (Z.eqb_spec c 32) as [->|_]; [|destruct (memchr c [37; 43; 38; 61; 10]) eqn:Ee]; cbn [app length] in *.
  - rewrite decode_plus, IH by (done || rewrite ?length_app; cbn; lia). by rewrite <- app_assoc.
  - change (pct c ++ hash_keyencode k) with (pct c ++ (hash_keyencode k)).
    rewrite decode_pct, IH by (lia || done || rewrite ?length_app; cbn in *; lia). by rewrite <- app_assoc.
  - rewrite decode_plain, IH; [by rewrite <- app_assoc|done|rewrite length_app; cbn in *; lia|lia| |lia].
    unfold memchr in *. cbn [existsb] in *. rewrite !orb_false_iff in *. tauto.
Qed.

Lemma upto_nul_app k t : cbytes k → upto_nul (k ++ 0 :: t) = k.
Proof.
  induction k as [|c k IH]; intros Hb; [done|]. apply Forall_cons in Hb as [Hc Hb]. cbn [app upto_nul].
  destruct (Z.eqb_spec c 0); [lia|]. by rewrite IH.
Qed.

Lemma hash_keydecode_keyencode k : cbytes k → hash_keydecode (hash_keyencode k) = Some (Some k).
Proof.
  intros Hb. unfold hash_keydecode, webdecode. rewrite <- (app_nil_r (hash_keyencode k)) at 1.
  rewrite strcspn_encoded; [|by apply code_sep, keyencode_code|by left].
  rewrite keydecode_loop; [|done|cbn; lia]. cbn [app]. by rewrite upto_nul_app.
Qed.
