(* ===== verification/HashStr.v ===== *)
(** * HashStr: hashes as query strings

    [hash_toStr] and [hash_fromStr] of src/src/libc/hash/hash_tostr.c and the set
    operations of src/src/libc/hash/hash.c, written against the contract of
    HashIface.v.

    Proved: reading the string of a hash that is not empty into another one adds the
    bindings of the first to it; the key differences. *)

From S2P Require Import Prelude CStr Lines Shell HashIface MemHash WebEncode.
From stdpp Require Import base numbers list gmap strings.
From Stdlib Require Import ZArith Lia.

Local Open Scope Z_scope.

Local Open Scope bk_scope.

Section HashStr.

Context {H : Type} {ops : HashOps cstr cstr H} {laws : HashLaws cstr cstr H}.

Definition encode_item (kv : cstr * cstr) : cstr := webencode (fst kv) ++ [61] ++ webencode (snd kv).

(** [Some None]: the null pointer, for an empty hash. *)
Definition hash_toStr (h : H) : option (option cstr) :=
  let? l := hash_items h in
  joinLines (Some [38]) (qsort string_sort (map encode_item l)).

(** A round takes at least the equals sign, so the length of the string is enough
    fuel. *)
Fixpoint fromStr_loop (fuel : nat) (h : H) (p : cstr) : option (H * Z) :=
  match fuel, p with
  | _, [] => Some (h, 0)
  | O, _ => None
  | S fuel, _ =>
      let? r := webdecode p in
      match r with
      | None | Some ([], _) => Some (h, -1)
      | Some (c :: p, k) =>
          if negb (c =? 61) then Some (h, -1) else
          let? r := webdecode p in
          match r with
          | None => Some (h, -1)
          | Some (p, v) =>
              let? h := hash_store h k v in
              match p with
              | [] => Some (h, 0)
              | c :: p => if negb (c =? 38) then Some (h, -1) else fromStr_loop fuel h p
              end
          end
      end
  end.

(** The string may be the null pointer [hash_toStr] returned: it is read. *)
Definition hash_fromStr (h : H) (str : option cstr) : option (H * Z) :=
  let? str := str in fromStr_loop (length str) h str.

(** [C = A - B], and whether anything was stored. *)
Fixpoint keyDiff3_loop (items : list (cstr * cstr)) (B C : H) (i : Z) : option (H * Z) :=
  match items with
  | [] => Some (C, i)
  | (k, v) :: items =>
      let? r := hash_fetch B k in
      match r with
      | None => let? C := hash_store C k v in keyDiff3_loop items B C 1
      | Some _ => keyDiff3_loop items B C i
      end
  end.

Definition hash_keyDiff3 (A B C : H) : option (H * Z) :=
  let? items := hash_items A in keyDiff3_loop items B C 0.

(** ** Reading a string back *)

Definition item_ok (kv : cstr * cstr) : Prop := bytes (fst kv) ∧ bytes (snd kv) ∧ hash_okkey (fst kv).

(** One binding. *)
Lemma fromStr_item fuel h kv rest :
  hash_inv h → item_ok kv → Z.of_nat (size (hash_abs h)) < hash_max → rest = [] ∨ at0 rest = 38 →
  ∃ h', hash_inv h' ∧ hash_abs h' = <[fst kv := snd kv]> (hash_abs h) ∧
    fromStr_loop (S fuel) h (encode_item kv ++ rest) =
    match rest with [] => Some (h', 0) | _ :: p => fromStr_loop fuel h' p end.
Proof.
  intros Hi (Hk & Hv & Hok) Hm Hr. destruct kv as [k v]. cbn [fst snd] in *.
  destruct (store_law h k v Hi Hok Hm) as (h' & Hst & Hi' & Ha'). exists h'. split_and!; [done|done|].
  unfold encode_item. cbn [fst snd]. rewrite <- !app_assoc.
  assert (Hne : webencode k ++ [61] ++ webencode v ++ rest ≠ []) by (by destruct (webencode k)).
  destruct (webencode k ++ [61] ++ webencode v ++ rest) as [|x s] eqn:E; [done|]. cbn [fromStr_loop]. rewrite <- E.
  rewrite webdecode_webencode by (done || (right; by right)). cbn [app]. change (negb (61 =? 61)) with false. cbn [negb].
  rewrite webdecode_webencode; [|done|destruct Hr as [|]; [by left|right; by left]]. rewrite Hst.
  destruct rest as [|c rest]; [done|]. destruct Hr as [|Hr]; [done|]. cbn [at0 hd] in Hr. by subst c.
Qed.

Lemma fromStr_items l : ∀ fuel h, hash_inv h → Forall item_ok l → NoDup (map fst l) →
  Z.of_nat (size (hash_abs h) + length l) <= hash_max → (length l <= fuel)%nat → l ≠ [] →
  ∃ h', fromStr_loop fuel h (Shell.join [38] (map encode_item l)) = Some (h', 0) ∧ hash_inv h' ∧
    hash_abs h' = list_to_map l ∪ hash_abs h.
Proof.
  induction l as [|kv l IH]; intros fuel h Hi Hok Hnd Hm Hf Hne; [done|]. clear Hne.
  apply Forall_cons in Hok as [Hok1 Hok]. cbn [map length] in *. apply NoDup_cons in Hnd as [Hnin Hnd].
  destruct fuel as [|fuel]; [lia|].
  assert (Hmap : list_to_map (kv :: l) ∪ hash_abs h = (list_to_map l : gmap cstr cstr) ∪ <[fst kv := snd kv]> (hash_abs h)).
  { cbn [list_to_map foldr]. rewrite <- insert_union_l. apply insert_union_r. by apply not_elem_of_list_to_map_1. }
  destruct l as [|kv2 l].
  - destruct (fromStr_item fuel h kv [] Hi Hok1 ltac:(lia) ltac:(by left)) as (h' & Hi' & Ha' & Hrun). exists h'.
    rewrite app_nil_r in Hrun. cbn [map Shell.join]. split_and!; [done|done|]. rewrite Hmap, Ha'. cbn. by rewrite (left_id_L ∅ (∪)).
  - destruct (fromStr_item fuel h kv (38 :: Shell.join [38] (map encode_item (kv2 :: l))) Hi Hok1 ltac:(lia) ltac:(by right))
      as (h1 & Hi1 & Ha1 & Hrun).
    destruct (IH fuel h1) as (h' & Hrun' & Hi' & Ha'); [done|done|done| |lia|done|].
    { rewrite Ha1. pose proof (size_insert_le (hash_abs h) (fst kv) (snd kv)). lia. }
    exists h'. rewrite Hmap, <- Ha1. split_and!; [|done|done]. rewrite <- Hrun'. exact Hrun.
Qed.

Lemma join_length_ge sp ss : Forall (λ s, s ≠ []) ss → (length ss <= length (Shell.join sp ss))%nat.
Proof.
  induction 1 as [|s ss Hs Hss IH]; [done|]. assert (0 < length s)%nat by (destruct s; [done|cbn; lia]).
  destruct ss as [|s2 ss]; [cbn; lia|]. change (Shell.join sp (s :: s2 :: ss)) with (s ++ sp ++ Shell.join sp (s2 :: ss)).
  rewrite !length_app. cbn [length] in *. lia.
Qed.

(** The lines a hash is written as, in their order. *)
Lemma toStr_items h : hash_inv h → hash_abs h ≠ ∅ →
  ∃ l, hash_toStr h = Some (Some (Shell.join [38] (map encode_item l))) ∧ l ≡ₚ map_to_list (hash_abs h) ∧ l ≠ [].
Proof.
  intros Hi Hne. unfold hash_toStr. destruct (items_law h Hi) as (l & -> & Hp).
  destruct (Permutation_map_inv encode_item l (qsort_perm string_sort (map encode_item l))) as (l' & E & Hp').
  rewrite E. exists l'. assert (Hl' : l' ≠ []).
  { intros ->. apply Permutation_nil_r in Hp'. subst l. apply Permutation_nil_l in Hp. symmetry in Hp. by apply map_to_list_empty_iff in Hp. }
  split_and!; [|by rewrite <- Hp', Hp|done]. apply joinLines_join. by destruct l'.
Qed.

Lemma keyDiff3_loop_ok B items : ∀ C i, hash_inv B → hash_inv C → Forall hash_okkey (map fst items) →
  NoDup (map fst items) → Z.of_nat (size (hash_abs C) + length items) <= hash_max →
  ∃ C', keyDiff3_loop items B C i = Some (C', if decide ((list_to_map items : gmap cstr cstr) ∖ hash_abs B = ∅) then i else 1) ∧
    hash_inv C' ∧ hash_abs C' = ((list_to_map items ∖ hash_abs B) ∪ hash_abs C).
Proof.
  induction items as [|[k v] items IH]; intros C i HB HC Hok Hnd Hm; cbn [keyDiff3_loop map fst length] in *.
  { exists C. cbn. rewrite map_empty_difference, (left_id_L ∅ (∪)). by rewrite decide_True. }
  apply Forall_cons in Hok as [Hk Hok]. apply NoDup_cons in Hnd as [Hnin Hnd].
  assert (Hnk : (list_to_map items : gmap cstr cstr) !! k = None) by by apply not_elem_of_list_to_map_1.
  cbn [list_to_map foldr uncurry fst snd]. rewrite fetch_law by done.
  destruct (hash_abs B !! k) as [w|] eqn:E.
  - destruct (IH C i HB HC Hok Hnd ltac:(lia)) as (C' & HC' & Hi' & Ha').
    exists C'. rewrite Ha'. assert (Hd : <[k:=v]> (list_to_map items) ∖ hash_abs B = (list_to_map items : gmap cstr cstr) ∖ hash_abs B).
    { apply map_eq. intros j. rewrite !lookup_difference. destruct (decide (j = k)) as [->|Hj]; [by rewrite E|].
      by rewrite lookup_insert_ne by done. }
    by rewrite Hd.
  - destruct (store_law C k v HC Hk ltac:(lia)) as (C1 & -> & HC1 & Ha1).
    destruct (IH C1 1 HB HC1 Hok Hnd) as (C' & -> & Hi' & Ha').
    { rewrite Ha1. pose proof (size_insert_le (hash_abs C) k v). lia. }
    exists C'. assert (Hd : <[k:=v]> (list_to_map items) ∖ hash_abs B = <[k:=v]> ((list_to_map items : gmap cstr cstr) ∖ hash_abs B)).
    { apply map_eq. intros j. destruct (decide (j = k)) as [->|Hj].
      - by rewrite lookup_difference, E, !lookup_insert_eq.
      - by rewrite lookup_insert_ne, !lookup_difference, lookup_insert_ne by done. }
    rewrite Hd, Ha', Ha1. split_and!; [|done|].
    + rewrite (decide_False (P := <[k:=v]> _ = ∅)) by apply insert_non_empty. by destruct (decide _).
    + rewrite <- insert_union_l, <- insert_union_r; [done|]. by rewrite lookup_difference, E, Hnk.
Qed.

Lemma hash_keyDiff3_ok A B C : hash_inv A → hash_inv B → hash_inv C →
  Z.of_nat (size (hash_abs C) + size (hash_abs A)) <= hash_max →
  ∃ C', hash_keyDiff3 A B C = Some (C', if decide (hash_abs A ∖ hash_abs B = ∅) then 0 else 1) ∧ hash_inv C' ∧
    hash_abs C' = ((hash_abs A ∖ hash_abs B) ∪ hash_abs C).
Proof.
  intros HA HB HC Hm. unfold hash_keyDiff3. destruct (items_law A HA) as (l & -> & Hp).
  assert (Hnd : NoDup (map fst l)) by (rewrite Hp; apply NoDup_fst_map_to_list).
  assert (Hl : list_to_map l = hash_abs A) by (by rewrite (list_to_map_proper _ _ Hnd Hp), list_to_map_to_list).
  destruct (keyDiff3_loop_ok B l C 0 HB HC) as (C' & -> & Hi' & Ha'); [|done| |].
  - apply Forall_forall. intros k Hk. apply list_elem_of_fmap in Hk as ([k' v] & -> & Hin). rewrite Hp in Hin.
    apply elem_of_map_to_list in Hin. apply (okkey_law A); [done|]. by exists v.
  - rewrite Hp.
    rewrite length_map_to_list. done.
  - exists C'. by rewrite <- Hl.
Qed.

End HashStr.

(** [A -= B], and whether anything is left. *)
Fixpoint keyDiff_loop (HASH : cstr → Z) (items : list (cstr * cstr)) (A : memhash) : option memhash :=
  match items with
  | [] => Some A
  | (k, _) :: items => let? (A, _) := memhash_delete HASH A k in keyDiff_loop HASH items A
  end.

Definition hash_keyDiff (HASH : cstr → Z) (A B : memhash) : option (memhash * bool) :=
  let? items := memhash_each B in
  let? A := keyDiff_loop HASH items A in
  let '(A, first) := memhash_first A in
  Some (A, match first with Some _ => true | None => false end).

Lemma keyDiff_loop_ok HASH items : ∀ A, mem_inv HASH A →
  ∃ A', keyDiff_loop HASH items A = Some A' ∧ mem_inv HASH A' ∧
    mem_abs A' = mem_abs A ∖ (list_to_map items : gmap cstr cstr).
Proof.
  induction items as [|[k v] items IH]; intros A HA; cbn [keyDiff_loop].
  { exists A. cbn. by rewrite map_difference_empty. }
  destruct (mem_delete_ok HASH A k HA) as (A1 & -> & HA1 & Ha1).
  destruct (IH A1 HA1) as (A' & -> & HA' & Ha'). exists A'. split_and!; [done|done|]. rewrite Ha', Ha1.
  cbn [list_to_map foldr uncurry fst snd]. apply map_eq. intros j. rewrite !lookup_difference.
  destruct (decide (j = k)) as [->|Hj].
  - rewrite lookup_insert_eq, lookup_delete_eq. by destruct (list_to_map items !! k).
  - by rewrite lookup_insert_ne, lookup_delete_ne by done.
Qed.

(** The iteration starts over. *)
Lemma each_same A A' first : memhash_first A = (A', first) → memhash_each A' = memhash_each A.
Proof.
  intros E. assert (m_nodes A' = m_nodes A ∧ m_arr A' = m_arr A ∧ m_mask A' = m_mask A) as (En & Ea & Em).
  { unfold memhash_first, memhash_next in E. by case_match; injection E as <- _. }
  unfold memhash_each, memhash_first. by rewrite En, Ea, Em.
Qed.

Lemma hash_keyDiff_ok HASH A B : mem_inv HASH A → mem_inv HASH B →
  ∃ A' l, hash_keyDiff HASH A B = Some (A', negb (bool_decide (mem_abs A ∖ mem_abs B = ∅))) ∧
    memhash_each A' = Some l ∧ l ≡ₚ map_to_list (mem_abs A ∖ mem_abs B).
Proof.
  intros HA HB. unfold hash_keyDiff. destruct (items_law (HashLaws := memhash_laws HASH) B HB) as (lB & HlB & HpB).
  change (memhash_each B = Some lB) in HlB. rewrite HlB; clear HlB. change (lB ≡ₚ map_to_list (mem_abs B)) in HpB.
  assert (Hnd : NoDup (map fst lB)) by (rewrite HpB; apply NoDup_fst_map_to_list).
  destruct (keyDiff_loop_ok HASH lB A HA) as (A1 & -> & HA1 & Ha1).
  rewrite (list_to_map_proper _ _ Hnd HpB), list_to_map_to_list in Ha1. rewrite <- Ha1.
  destruct (items_law (HashLaws := memhash_laws HASH) A1 HA1) as (l & Hl & Hp).
  change (memhash_each A1 = Some l) in Hl. change (l ≡ₚ map_to_list (mem_abs A1)) in Hp.
  destruct (memhash_first A1) as [A' first] eqn:Ef. exists A', l. split_and!; [|by rewrite <- Hl; apply (each_same A1 A' first)|done].
  do 2 f_equal. unfold memhash_each in Hl. rewrite Ef in Hl.
  destruct first as [kv|].
  - rewrite bool_decide_false; [done|]. intros E. rewrite E, map_to_list_empty in Hp. apply Permutation_nil_r in Hp. subst l.
    destruct (Z.to_nat (m_nodes A1)); cbn [each_loop snd] in Hl; [done|]. by destruct (each_loop _ _).
  - rewrite bool_decide_true; [done|]. apply map_to_list_empty_iff. apply Permutation_nil_r. rewrite <- Hp.
    by destruct (Z.to_nat (m_nodes A1)); injection Hl as <-.
Qed.

(** ** Properties *)

(** C22. Writing a hash that is not empty as a query string and reading the string
    into another hash succeeds and adds exactly the bindings of the first, whatever
    bytes keys and values are made of: the decoder never leaves its buffer, and no
    order of the pairs matters.  The second hash must have room for the bindings,
    and the string must be short enough for the [int] of [joinLines].  An empty
    hash is written as the null pointer, which [hash_fromStr] follows. *)
Theorem hash_str_roundtrip {H} {ops : HashOps cstr cstr H} {laws : HashLaws cstr cstr H} (h1 h2 : H) :
  hash_inv h1 → hash_inv h2 →
  map_Forall (λ k v, bytes k ∧ bytes v) (hash_abs h1) →
  Z.of_nat (size (hash_abs h2) + size (hash_abs h1)) <= hash_max →
  joinLines_len (Some [38]) (map encode_item (map_to_list (hash_abs h1))) <= INT_MAX →
  (hash_abs h1 = ∅ → hash_toStr h1 = Some None ∧ hash_fromStr h2 None = None) ∧
  (hash_abs h1 ≠ ∅ → ∃ str h, hash_toStr h1 = Some (Some str) ∧ strlen str < INT_MAX ∧
    hash_fromStr h2 (Some str) = Some (h, 0) ∧ hash_inv h ∧ hash_abs h = hash_abs h1 ∪ hash_abs h2).
Proof.
  intros H1 H2 Hb Hm Hlen. split.
  { intros He. split; [|done]. unfold hash_toStr. destruct (items_law h1 H1) as (l & -> & Hp).
    rewrite He, map_to_list_empty in Hp. by apply Permutation_nil_r in Hp as ->. }
  intros Hne. destruct (toStr_items h1 H1 Hne) as (l & Hto & Hp & Hl).
  assert (Hnd : NoDup (map fst l)) by (rewrite Hp; apply NoDup_fst_map_to_list).
  destruct (fromStr_items l (length (Shell.join [38] (map encode_item l))) h2) as (h & Hrun & Hi & Ha); [done| |done| | |done|].
  - apply Forall_forall. intros [k v] Hin. rewrite Hp, elem_of_map_to_list in Hin. destruct (Hb k v Hin).
    split_and!; [done|done|]. apply (okkey_law h1); [done|]. by exists v.
  - rewrite Hp, length_map_to_list. done.
  - rewrite <- (length_map encode_item l). apply join_length_ge. apply Forall_map, Forall_forall.
    intros kv _. unfold encode_item. destruct (webencode kv.1); done.
  - exists (Shell.join [38] (map encode_item l)), h. split_and!; [done| |exact Hrun|done|].
    { rewrite <- (joinLines_len_perm _ _ _ (Permutation_map encode_item Hp)) in Hlen.
      rewrite joinLines_len_join in Hlen by (by destruct l). unfold strlen in *. cbn [length] in Hlen. lia. }
    by rewrite Ha, (list_to_map_proper _ _ Hnd Hp), list_to_map_to_list.
Qed.

Definition ex_stores : list (hop cstr cstr) :=
  [HStore (s2b "user"%string ++ [0]) (s2b "a b%&=+"%string ++ [0]); HStore [] [255; 0; 0]; HStore [0; 10] []; HStore [0] [0]].

Lemma hash_str_roundtrip_witness :
  (let? (h1, _) := hash_run (ops := memhash_ops (λ k, Z.of_nat (length k))) memhash_new ex_stores in
   hash_toStr (ops := memhash_ops (λ k, Z.of_nat (length k))) h1) =
    Some (Some (s2b "%00%0a%FF=%FF&%FF=%ff%00&=&user=a+b%25%26%3d%2b"%string)) ∧
  ∃ h1 rs str h, hash_run (ops := memhash_ops (λ k, Z.of_nat (length k))) memhash_new ex_stores = Some (h1, rs) ∧
    hash_toStr (ops := memhash_ops (λ k, Z.of_nat (length k))) h1 = Some (Some str) ∧
    hash_fromStr (ops := memhash_ops (λ k, Z.of_nat (length k))) memhash_new (Some str) = Some (h, 0) ∧
    mem_abs h = (map_run ∅ ex_stores).1.
Proof.
  split; [vm_compute; reflexivity|]. set (HASH := λ k : cstr, Z.of_nat (length k)).
  destruct (mem_new_inv HASH) as [Hi0 Ha0].
  destruct (hash_run_ok (laws := memhash_laws HASH) ex_stores memhash_new Hi0) as (h1 & Hrun & Hi & Ha);
    [by apply Forall_forall|vm_compute; discriminate|].
  change (mem_abs h1 = (map_run (mem_abs memhash_new) ex_stores).1) in Ha. rewrite Ha0 in Ha.
  destruct (hash_str_roundtrip (laws := memhash_laws HASH) h1 memhash_new Hi Hi0) as [_ Hrt].
  - change (map_Forall (λ k v, bytes k ∧ bytes v) (mem_abs h1)). rewrite Ha. apply map_Forall_to_list.
    vm_compute map_to_list. repeat (apply Forall_cons; split; [split; repeat constructor; done|]). constructor.
  - change (Z.of_nat (size (mem_abs memhash_new) + size (mem_abs h1)) <= mem_max). rewrite Ha, Ha0. vm_compute. discriminate.
  - change (joinLines_len (Some [38]) (map encode_item (map_to_list (mem_abs h1))) <= INT_MAX). rewrite Ha. vm_compute. discriminate.
  - destruct Hrt as (str & h & Hto & _ & Hfrom & _ & Habs).
    { change (mem_abs h1 ≠ ∅). rewrite Ha. intros E%map_to_list_empty_iff. vm_compute in E. discriminate. }
    exists h1. eexists. exists str, h. split_and!; [exact Hrun|done|done|].
    change (mem_abs h = mem_abs h1 ∪ mem_abs memhash_new) in Habs. rewrite Habs, Ha, Ha0. apply (right_id_L ∅ (∪)).
Defined.
