(* ===== verification/Base64.v ===== *)
(** * Base64: binary data as text

    src/src/tomcrypt/src/misc/base64/base64_encode.c and base64_decode.c.

    Proved: decoding the encoding of any bytes gives them back, within the buffers
    of both. *)

From S2P Require Import Prelude CStr.
From stdpp Require Import base numbers list strings.
From Stdlib Require Import ZArith Lia.

Local Open Scope Z_scope.

Local Open Scope bk_scope.

(** ** Encoding *)

Definition codes : cstr := s2b "ABCDEFGHIJKLMNOPQRSTUVWXYZabcdefghijklmnopqrstuvwxyz0123456789+/"%string.

Definition b64code (x : Z) : Z := nth (Z.to_nat (Z.land x 0x3F)) codes 0.

(** Groups of three bytes, then the rest, padded. *)
Fixpoint encode_groups (in_ : cstr) : cstr :=
  match in_ with
  | a :: b :: c :: in_ =>
      b64code (Z.shiftr a 2) :: b64code (Z.shiftl (Z.land a 3) 4 + Z.shiftr b 4) ::
      b64code (Z.shiftl (Z.land b 0xf) 2 + Z.shiftr c 6) :: b64code c :: encode_groups in_
  | [a; b] =>
      [b64code (Z.shiftr a 2); b64code (Z.shiftl (Z.land a 3) 4 + Z.shiftr b 4); b64code (Z.shiftl (Z.land b 0xf) 2); 61]
  | [a] => [b64code (Z.shiftr a 2); b64code (Z.shiftl (Z.land a 3) 4 + Z.shiftr 0 4); 61; 61]
  | [] => []
  end.

(** [None]: CRYPT_BUFFER_OVERFLOW. *)
Definition base64_encode (in_ : cstr) (outlen : Z) : option cstr :=
  let len2 := 4 * ((Z.of_nat (length in_) + 2) / 3) in
  assert! len2 + 1 <=? outlen; Some (encode_groups in_).

(** ** Decoding *)

Definition b64map : list Z :=
  [255; 255; 255; 255; 255; 255; 255; 255; 255; 255; 255; 255; 255; 255; 255; 255;
   255; 255; 255; 255; 255; 255; 255; 255; 255; 255; 255; 255; 255; 255; 255; 255;
   255; 255; 255; 255; 255; 255; 255; 255; 255; 255; 255; 62; 255; 255; 255; 63;
   52; 53; 54; 55; 56; 57; 58; 59; 60; 61; 255; 255; 255; 254; 255; 255;
   255; 0; 1; 2; 3; 4; 5; 6; 7; 8; 9; 10; 11; 12; 13; 14;
   15; 16; 17; 18; 19; 20; 21; 22; 23; 24; 25; 255; 255; 255; 255; 255;
   255; 26; 27; 28; 29; 30; 31; 32; 33; 34; 35; 36; 37; 38; 39; 40;
   41; 42; 43; 44; 45; 46; 47; 48; 49; 50; 51; 255; 255; 255; 255; 255;
   255; 255; 255; 255; 255; 255; 255; 255; 255; 255; 255; 255; 255; 255; 255; 255;
   255; 255; 255; 255; 255; 255; 255; 255; 255; 255; 255; 255; 255; 255; 255; 255;
   255; 255; 255; 255; 255; 255; 255; 255; 255; 255; 255; 255; 255; 255; 255; 255;
   255; 255; 255; 255; 255; 255; 255; 255; 255; 255; 255; 255; 255; 255; 255; 255;
   255; 255; 255; 255; 255; 255; 255; 255; 255; 255; 255; 255; 255; 255; 255; 255;
   255; 255; 255; 255; 255; 255; 255; 255; 255; 255; 255; 255; 255; 255; 255; 255;
   255; 255; 255; 255; 255; 255; 255; 255; 255; 255; 255; 255; 255; 255; 255; 255;
   255; 255; 255; 255; 255; 255; 255; 255; 255; 255; 255; 255; 255; 255; 255; 255].

(** The loop: [out] holds the [z] bytes written.  [inr]: an error return, with what
    was written before. *)
Fixpoint decode_loop (outlen : Z) (in_ : cstr) (t y g : Z) (out : cstr) : cstr + cstr :=
  match in_ with
  | [] => if y =? 0 then inl out else inr out
  | x :: in_ =>
      let c := nth (Z.to_nat (Z.land x 0xFF)) b64map 255 in
      if c =? 255 then decode_loop outlen in_ t y g out else
      let '(c, g, bad) :=
        if c =? 254 then (0, g - 1, g - 1 <? 0) else (c, g, negb (g =? 3)) in
      if bad then inr out else
      let t := Z.lor (Z.shiftl t 6) c in
      let y := y + 1 in
      if y =? 4 then
        if outlen <? Z.of_nat (length out) + g then inr out else
        let out := out ++ [Z.land (Z.shiftr t 16) 255] in
        let out := if 1 <? g then out ++ [Z.land (Z.shiftr t 8) 255] else out in
        let out := if 2 <? g then out ++ [Z.land t 255] else out in
        decode_loop outlen in_ 0 0 g out
      else decode_loop outlen in_ t y g out
  end.

Definition base64_decode (in_ : cstr) (outlen : Z) : cstr + cstr := decode_loop outlen in_ 0 0 3 [].

(** ** Round trip *)

Definition b64val (x : Z) : Z := nth (Z.to_nat (Z.land x 0xFF)) b64map 255.

Lemma b64_check : forallb (λ i, let c := b64code (Z.of_nat i) in (b64val c =? Z.of_nat i) && (43 <=? c) && (c <? 123)) (seq 0 64) = true.
Proof. vm_compute. reflexivity. Qed.

Lemma b64_code x : 0 <= x → b64val (b64code x) = x mod 64 ∧ 43 <= b64code x < 123.
Proof.
  intros Hx. assert (E : b64code x = b64code (x mod 64)).
  { unfold b64code. change 0x3F with (Z.ones 6). rewrite !Z.land_ones by lia. change (2 ^ 6) with 64. by rewrite Z.mod_mod. }
  rewrite E. pose proof (Z.mod_pos_bound x 64 ltac:(lia)) as Hm. pose proof b64_check as Hc. rewrite forallb_forall in Hc.
  specialize (Hc (Z.to_nat (x mod 64))). rewrite Z2Nat.id in Hc by lia.
  assert (Hin : In (Z.to_nat (x mod 64)) (seq 0 64)) by (apply in_seq; lia). specialize (Hc Hin). cbn zeta in Hc.
  rewrite !andb_true_iff, Z.eqb_eq, Z.leb_le, Z.ltb_lt in Hc. lia.
Qed.

(** A code letter. *)
Lemma decode_letter outlen x in_ t y out : 0 <= x < 64 → 0 <= t → y + 1 ≠ 4 →
  decode_loop outlen (b64code x :: in_) t y 3 out = decode_loop outlen in_ (t * 64 + x) (y + 1) 3 out.
Proof.
  intros Hx Ht Hy. cbn [decode_loop]. fold (b64val (b64code x)). destruct (b64_code x ltac:(lia)) as [-> _].
  rewrite Z.mod_small by lia. destruct (Z.eqb_spec x 255); [lia|]. destruct (Z.eqb_spec x 254); [lia|].
  cbn [negb Z.eqb]. change (3 =? 3) with true. cbn [negb]. destruct (Z.eqb_spec (y + 1) 4); [lia|].
  rewrite lor_shiftl_add by lia. done.
Qed.

(** The letter that ends a group. *)
Lemma decode_group outlen x in_ t out : 0 <= x < 64 → 0 <= t → Z.of_nat (length out) + 3 <= outlen →
  decode_loop outlen (b64code x :: in_) t 3 3 out =
  decode_loop outlen in_ 0 0 3 (out ++ [(t * 64 + x) / 65536 mod 256; (t * 64 + x) / 256 mod 256; (t * 64 + x) mod 256]).
Proof.
  intros Hx Ht Hl. cbn [decode_loop]. fold (b64val (b64code x)). destruct (b64_code x ltac:(lia)) as [-> _].
  rewrite Z.mod_small by lia. destruct (Z.eqb_spec x 255); [lia|]. destruct (Z.eqb_spec x 254); [lia|].
  change (3 =? 3) with true. cbn [negb]. change (3 + 1 =? 4) with true. change (1 <? 3) with true. change (2 <? 3) with true.
  cbn [negb]. rewrite (proj2 (Z.ltb_ge _ _)) by lia. rewrite lor_shiftl_add by lia. change (2 ^ 6) with 64.
  rewrite !Z.shiftr_div_pow2 by lia. change 255 with (Z.ones 8). rewrite !Z.land_ones by lia.
  by rewrite <- !app_assoc.
Qed.

(** The padding. *)
Lemma decode_pad1 outlen t out : 0 <= t → Z.of_nat (length out) + 2 <= outlen →
  decode_loop outlen [61] t 3 3 out = inl (out ++ [t * 64 / 65536 mod 256; t * 64 / 256 mod 256]).
Proof.
  intros Ht Hl. cbn [decode_loop]. change (nth (Z.to_nat (Z.land 61 0xFF)) b64map 255) with 254. cbn.
  change (3 + 1 =? 4) with true. change (3 - 1) with 2. cbn. rewrite (proj2 (Z.ltb_ge outlen _)) by lia.
  change (1 <? 2) with true. change (2 <? 2) with false. cbn. rewrite Z.lor_0_r, Z.shiftl_mul_pow2, !Z.shiftr_div_pow2 by lia.
  change 255 with (Z.ones 8). rewrite !Z.land_ones by lia. by rewrite <- app_assoc.
Qed.

Lemma decode_pad2 outlen t out : 0 <= t → Z.of_nat (length out) + 1 <= outlen →
  decode_loop outlen [61; 61] t 2 3 out = inl (out ++ [t * 64 * 64 / 65536 mod 256]).
Proof.
  intros Ht Hl. cbn [decode_loop]. change (nth (Z.to_nat (Z.land 61 0xFF)) b64map 255) with 254. cbn.
  change (3 - 1 - 1) with 1. change (2 + 1 + 1 =? 4) with true. change (2 + 1 =? 4) with false. cbn.
  rewrite (proj2 (Z.ltb_ge outlen _)) by lia. change (1 <? 1) with false. change (2 <? 1) with false. cbn. rewrite !Z.lor_0_r, !Z.shiftl_mul_pow2, !Z.shiftr_div_pow2 by lia.
  change 255 with (Z.ones 8). rewrite !Z.land_ones by lia. done.
Qed.

(** The six-bit pieces of three bytes. *)
Lemma six_bits a b c : 0 <= a < 256 → 0 <= b < 256 → 0 <= c < 256 →
  Z.shiftr a 2 = a / 4 ∧ Z.shiftl (Z.land a 3) 4 + Z.shiftr b 4 = a mod 4 * 16 + b / 16 ∧
  Z.shiftl (Z.land b 0xf) 2 + Z.shiftr c 6 = b mod 16 * 4 + c / 64 ∧
  Z.shiftl (Z.land b 0xf) 2 = b mod 16 * 4 ∧ b64code c = b64code (c mod 64).
Proof.
  intros Ha Hb Hc. rewrite !Z.shiftr_div_pow2, !Z.shiftl_mul_pow2 by lia.
  change 3 with (Z.ones 2). change 0xf with (Z.ones 4). rewrite !Z.land_ones by lia. split_and!; [done..|].
  unfold b64code. change 0x3F with (Z.ones 6). rewrite !Z.land_ones by lia. change (2 ^ 6) with 64. by rewrite Z.mod_mod.
Qed.

Lemma b64_decode_encode outlen : ∀ s out, Forall (λ c, 0 <= c < 256) s → Z.of_nat (length out + length s) <= outlen →
  decode_loop outlen (encode_groups s) 0 0 3 out = inl (out ++ s).
Proof.
  fix IH 1. intros [|a [|b [|c s]]] out Hs Hl.
  - cbn. by rewrite app_nil_r.
  - apply Forall_cons in Hs as [Ha _]. cbn [encode_groups length] in *.
    destruct (six_bits a 0 0) as (-> & -> & _); [lia..|].
    do 2 rewrite decode_letter by (Z.div_mod_to_equations; lia). rewrite decode_pad2 by (Z.div_mod_to_equations; lia).
    do 3 f_equal. Z.div_mod_to_equations; lia.
  - apply Forall_cons in Hs as [Ha Hs]. apply Forall_cons in Hs as [Hb _]. cbn [encode_groups length] in *.
    destruct (six_bits a b 0) as (-> & -> & _ & -> & _); [lia..|].
    do 3 rewrite decode_letter by (Z.div_mod_to_equations; lia). rewrite decode_pad1 by (Z.div_mod_to_equations; lia).
    do 2 f_equal. f_equal; [|f_equal]; Z.div_mod_to_equations; lia.
  - apply Forall_cons in Hs as [Ha Hs]. apply Forall_cons in Hs as [Hb Hs]. apply Forall_cons in Hs as [Hc Hs].
    cbn [encode_groups length] in *. destruct (six_bits a b c) as (-> & -> & -> & _ & ->); [lia..|].
    do 3 rewrite decode_letter by (Z.div_mod_to_equations; lia). rewrite decode_group by (Z.div_mod_to_equations; lia).
    rewrite IH; [|done|rewrite length_app; cbn [length]; lia]. f_equal. rewrite <- app_assoc. f_equal. cbn [app].
    f_equal; [|f_equal; [|f_equal]]; Z.div_mod_to_equations; lia.
Qed.

Lemma base64_roundtrip s outlen outlen' :
  Forall (λ c, 0 <= c < 256) s → 4 * ((Z.of_nat (length s) + 2) / 3) + 1 <= outlen → Z.of_nat (length s) <= outlen' →
  ∃ e, base64_encode s outlen = Some e ∧ base64_decode e outlen' = inl s.
Proof.
  intros Hs Hl Hl'. exists (encode_groups s). unfold base64_encode, base64_decode.
  rewrite (proj2 (Z.leb_le _ _)) by done. split; [done|]. by rewrite b64_decode_encode.
Qed.

(** The letters: neither a line end nor the mark of a field. *)
Lemma encode_groups_letters : ∀ s, Forall (λ c, 0 <= c < 256) s → Forall (λ c, 43 <= c < 123 ∧ c ≠ 64) (encode_groups s).
Proof.
  assert (Hl : ∀ x, 0 <= x → 43 <= b64code x < 123 ∧ b64code x ≠ 64).
  { intros x Hx. destruct (b64_code x Hx) as [Hv Hr]. split; [done|]. intros E. rewrite E in Hv. change (b64val 64) with 255 in Hv.
    pose proof (Z.mod_pos_bound x 64 ltac:(lia)). lia. }
  fix IH 1. intros [|a [|b [|c s]]] Hs; cbn [encode_groups]; [constructor|..].
  all: repeat match goal with H : Forall _ (_ :: _) |- _ => apply Forall_cons in H as [? H] end.
  1: destruct (six_bits a 0 0) as (-> & -> & _); [lia..|].
  2: destruct (six_bits a b 0) as (-> & -> & _ & -> & _); [lia..|].
  3: destruct (six_bits a b c) as (-> & -> & -> & _ & ->); [lia..|].
  all: repeat (apply Forall_cons; split; [first [apply Hl; Z.div_mod_to_equations; lia|lia]|]).
  1, 2: by apply Forall_nil.
  by apply IH.
Qed.
