(* ===== verification/HashFile.v ===== *)
(** * HashFile: hashes as files

    src/src/libc/hash/hash_tofile.c: one field per binding, text fields as they
    are with at signs at the start of a line doubled, other fields in base64.

    Proved: reading the file of a hash of C strings into another hash adds the
    bindings of the first to it. *)

From S2P Require Import Prelude CStr Lines HashIface MemHash WebEncode Base64.
From stdpp Require Import base numbers list gmap strings.
From Stdlib Require Import ZArith Lia.

Local Open Scope Z_scope.

Local Open Scope bk_scope.

(** ** Writing *)

Definition isprint (c : Z) : bool := (32 <=? c) && (c <=? 126).

(** [last v = 0] for a [v] that is not empty. *)
Definition goodkey (key : cstr) : bool := match last key with Some c => c =? 0 | None => false end.

Fixpoint binary_loop (data : cstr) (i lastret : Z) : bool :=
  match data with
  | [] => 256 <? i - lastret
  | c :: data =>
      if negb (isprint c || isspace c) then true
      else if c =? 10 then if 256 <? i - lastret then true else binary_loop data (i + 1) i
      else binary_loop data (i + 1) lastret
  end.

Definition binaryField (data : cstr) : bool := binary_loop data 0 0.

(** At signs at the start of a line are doubled. *)
Fixpoint write_text (data : cstr) (bol : bool) : cstr :=
  match data with
  | [] => []
  | c :: data => (if bol && (c =? 64) then [64; c] else [c]) ++ write_text data (c =? 10)
  end.

(** 48 bytes a line. *)
Fixpoint write_base64 (fuel : nat) (data : cstr) : option cstr :=
  match fuel, data with
  | _, [] => Some []
  | O, _ => None
  | S fuel, _ =>
      let? out := base64_encode (take 48 data) 128 in
      let? r := write_base64 fuel (drop 48 data) in
      Some (out ++ 10 :: r)
  end.

(** The value without the NUL at its end. *)
Definition strip_nul (data : cstr) : cstr :=
  match last data with Some 0 => take (length data - 1) data | _ => data end.

(** [None]: [exit(1)], or text without a NUL is read past its end. *)
Definition writeField (key data : cstr) : option cstr :=
  let d := strip_nul data in
  let? body :=
    (if binaryField d then let? b := write_base64 (length d) d in Some (s2b " base64"%string ++ 10 :: b)
     else if (length d =? 0)%nat then Some []
     else if (length d =? length data)%nat then None
     else Some (10 :: write_text d true)) in
  Some (64 :: hash_keyencode key ++ body ++ [10]).

Section HashFile.

Context {H : Type} {ops : HashOps cstr cstr H} {laws : HashLaws cstr cstr H}.

Fixpoint write_fields (h : H) (fields : list cstr) : option cstr :=
  match fields with
  | [] => Some []
  | k :: fields =>
      let? r := hash_fetch h (k ++ [0]) in
      let? data := r in
      let? f := writeField k data in
      let? rest := write_fields h fields in
      Some (f ++ rest)
  end.

(** The return code and the bytes written. *)
Definition hash_toStream (h : H) : option (Z * cstr) :=
  let? r := hash_fetch h [0] in
  let first := match r with Some v => strip_nul v ++ [10] | None => [] end in
  let? items := hash_items h in
  let keys := filter (λ k, k ≠ [0]) (map fst items) in
  if negb (forallb goodkey keys) then Some (-1, first) else
  let fields := qsort string_sort (map upto_nul keys) in
  let? rest := write_fields h fields in
  Some (0, first ++ rest).

(** ** Reading *)

Record hashpl := mkPl { pl_key : option cstr; pl_val : cstr; pl_base64 : bool }.

Definition ends_with (s e : cstr) : bool :=
  (length e <=? length s)%nat && bool_decide (drop (length s - length e) s = e).

(** The binding buffered so far. *)
Definition pending (s : hashpl) : option (cstr * cstr) :=
  match pl_key s, pl_val s with
  | None, [] => None
  | k, v =>
      let v := if negb (pl_base64 s) && bool_decide (last v = Some 10) then take (length v - 1) v else v in
      Some (default [] k ++ [0], v ++ [0])
  end.

Definition store_pending (h : H) (s : hashpl) : option H :=
  match pending s with Some (k, v) => hash_store h k v | None => Some h end.

(** [junk] is what the 256 bytes of [data] hold before the call that decodes a
    line; on an error they are taken for the decoded bytes. *)
Definition hash_parseLine (junk : cstr) (line : option cstr) (h : H) (s : hashpl) : option (H * hashpl * Z) :=
  match line with
  | None => let? h := store_pending h s in Some (h, mkPl None [] false, 0)
  | Some line =>
      if (at0 line =? 64) && negb (at0 (drop 1 line) =? 64) then
        let? h := store_pending h s in
        if (length line =? 1)%nat then Some (h, mkPl None [] (pl_base64 s), 1) else
        let b64 := (8 <? length line)%nat && ends_with line (s2b " base64"%string) in
        let line := if b64 then take (length line - 7) line else line in
        let? key := hash_keydecode (drop 1 line) in
        Some (h, mkPl key [] b64, 0)
      else
        let line := if at0 line =? 64 then drop 1 line else line in
        if pl_base64 s then
          let data := match base64_decode line 256 with
                      | inl out => out
                      | inr out => out ++ drop (length out) junk
                      end in
          Some (h, mkPl (pl_key s) (pl_val s ++ data) true, 0)
        else
          match line, pl_key s with
          | [], None => Some (h, s, 0)
          | _, _ => Some (h, mkPl (pl_key s) (pl_val s ++ line ++ [10]) false, 0)
          end
  end.

Fixpoint raw_line (s : cstr) : cstr * cstr :=
  match s with
  | [] => ([], [])
  | c :: s => if c =? 10 then ([], s) else let '(l, r) := raw_line s in (c :: l, r)
  end.

Fixpoint drop_crs (rl : cstr) : cstr :=
  match rl with c :: l => if (c =? 13) || (c =? 10) then drop_crs l else rl | [] => [] end.

(** A line as a C string, and the rest of the file. *)
Definition fgetline (s : cstr) : option (cstr * cstr) :=
  match s with
  | [] => None
  | _ => let '(l, r) := raw_line s in Some (upto_nul (reverse (drop_crs (reverse l))), r)
  end.

Context (new : H).

(** A round takes a byte at least, so the length of the file is enough fuel. *)
Fixpoint fromStream_loop (fuel : nat) (junk : cstr) (h : option H) (s : hashpl) (f : cstr) : option (option H * hashpl * cstr) :=
  match fgetline f with
  | None => Some (h, s, f)
  | Some (line, f) =>
      match fuel with
      | O => None
      | S fuel =>
          let? (h, s, r) := hash_parseLine junk (Some line) (default new h) s in
          if r =? 1 then Some (Some h, s, f) else fromStream_loop fuel junk (Some h) s f
      end
  end.

(** The hash and what is left of the file. *)
Definition hash_fromStream (junk : cstr) (h : option H) (f : cstr) : option (option H * cstr) :=
  let? (h, s, f) := fromStream_loop (length f) junk h (mkPl None [] false) f in
  match h with
  | Some h => let? (h, _, _) := hash_parseLine junk None h s in Some (Some h, f)
  | None => Some (None, f)
  end.

(** ** Lines *)

Definition text (ls : list cstr) : cstr := concat (map (λ l, l ++ [10]) ls).

(** A line [fgetline] delivers as it is. *)
Definition good_line (l : cstr) : Prop := Forall (λ c, 0 < c < 256 ∧ c ≠ 10) l ∧ last l ≠ Some 13.

Lemma text_app a b : text (a ++ b) = text a ++ text b.
Proof. unfold text. by rewrite map_app, concat_app. Qed.

Lemma text_length_ge ls : (length ls <= length (text ls))%nat.
Proof. unfold text. induction ls as [|l ls IH]; cbn [map concat length]; [done|]. rewrite !length_app. cbn [length]. lia. Qed.

Lemma upto_nul_id l : cbytes l → upto_nul l = l.
Proof. intros Hl. induction Hl as [|c l Hc Hl IH]; cbn; [done|]. destruct (Z.eqb_spec c 0); [lia|]. by rewrite IH. Qed.

Lemma raw_line_app l rest : Forall (λ c, c ≠ 10) l → raw_line (l ++ 10 :: rest) = (l, rest).
Proof.
  intros Hl. induction Hl as [|c l Hc Hl IH]; [done|]. cbn [app raw_line]. rewrite IH.
  by destruct (Z.eqb_spec c 10).
Qed.

Lemma fgetline_line l rest : good_line l → fgetline (l ++ 10 :: rest) = Some (l, rest).
Proof.
  intros [Hl Hcr]. unfold fgetline. destruct (l ++ 10 :: rest) as [|x y] eqn:E; [by destruct l|]. rewrite <- E.
  rewrite raw_line_app by (eapply Forall_impl; [exact Hl|]; intros; cbv beta in *; lia). do 2 f_equal.
  replace (drop_crs (reverse l)) with (reverse l).
  - rewrite reverse_involutive. apply upto_nul_id. eapply Forall_impl; [exact Hl|]. intros; cbv beta in *; lia.
  - destruct l as [|c l _] using rev_ind; [done|]. rewrite reverse_app. change (reverse [c] ++ reverse l) with (c :: reverse l).
    rewrite last_snoc in Hcr. apply Forall_app in Hl as [_ Hc%Forall_inv]. cbn [drop_crs].
    destruct (Z.eqb_spec c 13); [congruence|]. by destruct (Z.eqb_spec c 10); [lia|].
Qed.

(** Lines read one after the other, none of them the end of a record. *)
Fixpoint parse_many (junk : cstr) (ls : list cstr) (h : H) (s : hashpl) : option (H * hashpl) :=
  match ls with
  | [] => Some (h, s)
  | l :: ls =>
      let? (h, s, r) := hash_parseLine junk (Some l) h s in
      assert! negb (r =? 1); parse_many junk ls h s
  end.

Lemma parse_many_app junk a : ∀ b h s, parse_many junk (a ++ b) h s =
  match parse_many junk a h s with Some (h, s) => parse_many junk b h s | None => None end.
Proof.
  induction a as [|l a IH]; intros b h s; cbn [app parse_many]; [done|].
  destruct (hash_parseLine junk (Some l) h s) as [[[h1 s1] r]|]; [|done]. by destruct (r =? 1); cbn [negb].
Qed.

Lemma loop_many junk ls : ∀ fuel h s h' s', Forall good_line ls → parse_many junk ls h s = Some (h', s') →
  (length ls <= fuel)%nat → fromStream_loop fuel junk (Some h) s (text ls) = Some (Some h', s', []).
Proof.
  induction ls as [|l ls IH]; intros fuel h s h' s' Hg Hp Hf; cbn [parse_many length] in *.
  { injection Hp as <- <-. by destruct fuel. }
  apply Forall_cons in Hg as [Hl Hg]. destruct fuel as [|fuel]; [lia|].
  change (text (l :: ls)) with ((l ++ [10]) ++ text ls). rewrite <- app_assoc. cbn [app].
  cbn [fromStream_loop]. rewrite fgetline_line by done. change (default new (Some h)) with h.
  destruct (hash_parseLine junk (Some l) h s) as [[[h1 s1] r]|]; [|done].
  destruct (r =? 1); [done|]. cbn [negb] in Hp. apply IH; [done|done|lia].
Qed.

(** ** Fields *)

(** The lines of a text. *)
Fixpoint text_lines (w : cstr) : list cstr :=
  match w with
  | [] => [[]]
  | c :: w => if c =? 10 then [] :: text_lines w else
              match text_lines w with l :: ls => (c :: l) :: ls | [] => [[c]] end
  end.

Definition esc (l : cstr) : cstr := if at0 l =? 64 then 64 :: l else l.

Lemma text_lines_ne w : text_lines w ≠ [].
Proof. destruct w as [|c w]; cbn; [done|]. destruct (c =? 10); [done|]. by destruct (text_lines w). Qed.

Lemma text_text_lines w : text (text_lines w) = w ++ [10].
Proof.
  induction w as [|c w IH]; [done|]. cbn [text_lines]. destruct (Z.eqb_spec c 10) as [->|].
  - change (text ([] :: text_lines w)) with (10 :: text (text_lines w)). by rewrite IH.
  - pose proof (text_lines_ne w). destruct (text_lines w) as [|l ls]; [done|].
    change (text ((c :: l) :: ls)) with (c :: text (l :: ls)). by rewrite IH.
Qed.

Lemma write_text_lines w :
  write_text w true ++ [10] = text (map esc (text_lines w)) ∧
  write_text w false ++ [10] = text (match text_lines w with l :: ls => l :: map esc ls | [] => [] end).
Proof.
  induction w as [|c w [IH1 IH2]]; [done|]. cbn [write_text text_lines]. pose proof (text_lines_ne w) as Hne.
  destruct (Z.eqb_spec c 10) as [->|Hc].
  - cbn [andb app]. change (10 =? 64) with false. cbn [app map]. split.
    + change (text (esc [] :: map esc (text_lines w))) with (10 :: text (map esc (text_lines w))). by rewrite IH1.
    + change (text ([] :: map esc (text_lines w))) with (10 :: text (map esc (text_lines w))). by rewrite IH1.
  - destruct (text_lines w) as [|l ls] eqn:El; [done|]. cbn [andb map]. split.
    + unfold esc at 1. cbn [at0 hd]. destruct (c =? 64).
      * change (text ((64 :: c :: l) :: map esc ls)) with (64 :: c :: text (l :: map esc ls)). cbn [app]. by rewrite IH2.
      * change (text ((c :: l) :: map esc ls)) with (c :: text (l :: map esc ls)). cbn [app]. by rewrite IH2.
    + change (text ((c :: l) :: map esc ls)) with (c :: text (l :: map esc ls)). cbn [app]. by rewrite IH2.
Qed.

(** The lines [write_base64] writes. *)
Fixpoint b64_lines (fuel : nat) (w : cstr) : list cstr :=
  match fuel, w with
  | S fuel, _ :: _ => encode_groups (take 48 w) :: b64_lines fuel (drop 48 w)
  | _, _ => []
  end.

Lemma write_base64_lines fuel : ∀ w, (length w <= fuel)%nat → write_base64 fuel w = Some (text (b64_lines fuel w)).
Proof.
  induction fuel as [|fuel IH]; intros [|c w] Hl; cbn [write_base64 b64_lines]; try done; [simpl in Hl; lia|].
  unfold base64_encode. rewrite (proj2 (Z.leb_le _ _)).
  - rewrite IH by (rewrite length_drop; cbn [length] in *; lia). do 2 f_equal. unfold text. cbn [map concat].
    by rewrite <- app_assoc.
  - rewrite length_take. assert (Z.of_nat (48 `min` length (c :: w)) <= 48) by lia.
    assert ((Z.of_nat (48 `min` length (c :: w)) + 2) / 3 <= 50 / 3) by (apply Z.div_le_mono; lia).
    change (50 / 3) with 16 in *. lia.
Qed.

Definition field_lines (k v : cstr) : list cstr :=
  let d := strip_nul v in
  if binaryField d then (64 :: hash_keyencode k ++ s2b " base64"%string) :: b64_lines (length d) d ++ [[]]
  else if (length d =? 0)%nat then [64 :: hash_keyencode k]
  else (64 :: hash_keyencode k) :: map esc (text_lines d).

Lemma strip_nul_snoc w : strip_nul (w ++ [0]) = w.
Proof. unfold strip_nul. rewrite last_snoc, length_app. cbn [length]. apply take_app_length'. lia. Qed.

Lemma writeField_lines k w : writeField k (w ++ [0]) = Some (text (field_lines k (w ++ [0]))).
Proof.
  unfold writeField, field_lines. rewrite strip_nul_snoc. destruct (binaryField w).
  - rewrite write_base64_lines by done. f_equal. change (64 :: hash_keyencode k ++ s2b " base64"%string) with ((64 :: hash_keyencode k) ++ s2b " base64"%string).
    unfold text. cbn [map concat]. rewrite map_app, concat_app. cbn [map concat app]. by rewrite <- !app_assoc.
  - destruct (Nat.eqb_spec (length w) 0) as [Hw|Hw].
    + f_equal. unfold text. cbn [map concat app]. by rewrite app_nil_r.
    + destruct (Nat.eqb_spec (length w) (length (w ++ [0]))) as [E|_]; [rewrite length_app in E; cbn in E; lia|].
      f_equal. destruct (write_text_lines w) as [Hwt _]. unfold text at 1. cbn [map concat].
      fold (text (map esc (text_lines w))). rewrite <- Hwt. cbn [app]. by rewrite <- app_assoc.
Qed.

(** Keys and values the format can hold. *)
Definition name_ok (n : cstr) : Prop := cbytes n ∧ n ≠ [] ∧ at0 n ≠ 64 ∧ last n ≠ Some 13.

Definition value_ok (w : cstr) : Prop :=
  bytes w ∧ (binaryField w = false → Forall (λ l, last l ≠ Some 13) (text_lines w)).

Lemma keyencode_app a b : hash_keyencode (a ++ b) = hash_keyencode a ++ hash_keyencode b.
Proof. induction a as [|c a IH]; [done|]. cbn [app hash_keyencode]. by rewrite IH, app_assoc. Qed.

Lemma last_app_ne {A} (a b : list A) : b ≠ [] → last (a ++ b) = last b.
Proof. intros Hb. destruct b as [|x b _] using rev_ind; [done|]. by rewrite app_assoc, !last_snoc. Qed.

Lemma keyencode_head n : name_ok n → hash_keyencode n ≠ [] ∧ at0 (hash_keyencode n) ≠ 64.
Proof.
  intros (_ & Hne & Hat & _). destruct n as [|c n]; [done|]. cbn [hash_keyencode].
  destruct (c =? 32); [done|]. by destruct (memchr c _).
Qed.

Lemma header_good n : name_ok n → good_line (64 :: hash_keyencode n).
Proof.
  intros Hn. destruct (keyencode_head n Hn) as [Hh _]. destruct Hn as (Hb & Hne & _ & Hl). split.
  - apply Forall_cons. split; [lia|]. eapply Forall_impl; [by apply keyencode_code|]. unfold code. intros; cbv beta in *; lia.
  - change (64 :: hash_keyencode n) with ([64] ++ hash_keyencode n). rewrite last_app_ne by done.
    destruct n as [|c n _] using rev_ind; [done|]. rewrite keyencode_app, last_snoc in *. apply Forall_app in Hb as [_ Hc%Forall_inv].
    cbn [hash_keyencode]. rewrite app_nil_r. rewrite last_app_ne by (by destruct (c =? 32); [|destruct (memchr c _)]).
    destruct (c =? 32); [done|]. destruct (memchr c _); [|done]. intros E.
    assert (Hin : 13 ∈ pct c) by (apply list_elem_of_lookup; exists (pred (length (pct c))); by rewrite <- last_lookup).
    pose proof (pct_plain c ltac:(lia)) as Hp. rewrite Forall_forall in Hp. specialize (Hp 13 Hin). lia.
Qed.

Lemma b64_header_good n : name_ok n → good_line (64 :: hash_keyencode n ++ s2b " base64"%string).
Proof.
  intros Hn. destruct (header_good n Hn) as [Hf _]. split.
  - change (64 :: hash_keyencode n ++ s2b " base64"%string) with ((64 :: hash_keyencode n) ++ [32; 98; 97; 115; 101; 54; 52]).
    apply Forall_app. split; [done|]. repeat (apply Forall_cons; split; [lia|]). by apply Forall_nil.
  - change (64 :: hash_keyencode n ++ s2b " base64"%string) with ((64 :: hash_keyencode n) ++ s2b " base64"%string).
    rewrite last_app_ne by done. vm_compute. discriminate.
Qed.

Lemma text_lines_chars (P : Z → Prop) w : Forall P w → Forall (λ l, Forall (λ c, P c ∧ c ≠ 10) l) (text_lines w).
Proof.
  intros H0. induction H0 as [|c w Hc Hw IH]; cbn [text_lines]; [by repeat constructor|].
  destruct (Z.eqb_spec c 10); [by constructor|]. destruct (text_lines w) as [|l ls]; [by repeat constructor|].
  apply Forall_cons in IH as [Hl Hls]. by repeat (constructor; auto).
Qed.

Lemma nonbinary_chars w i j : binary_loop w i j = false → Forall (λ c, 0 < c < 256) w.
Proof.
  revert i j. induction w as [|c w IH]; intros i j Hw; [constructor|]. cbn [binary_loop] in Hw.
  destruct (isprint c || isspace c) eqn:E; [|done]. cbn [negb] in Hw. apply Forall_cons. split.
  - apply orb_true_iff in E as [E|E]; [|apply isspace_spec in E; lia]. unfold isprint in E. boolify. lia.
  - destruct (c =? 10); [destruct (256 <? i - j); [done|]|]; by eapply IH.
Qed.

Lemma esc_good l : good_line l → good_line (esc l).
Proof.
  intros [Hf Hl]. unfold esc. destruct (Z.eqb_spec (at0 l) 64) as [E|]; [|done]. destruct l as [|c l]; [done|].
  split; [apply Forall_cons; split; [lia|done]|]. change (64 :: c :: l) with ([64] ++ (c :: l)). by rewrite last_app_ne.
Qed.

Lemma b64_lines_good fuel : ∀ w, bytes w → Forall good_line (b64_lines fuel w).
Proof.
  induction fuel as [|fuel IH]; intros [|c w] Hb; try constructor.
  - pose proof (encode_groups_letters (take 48 (c :: w)) ltac:(by apply Forall_take)) as Hl. split.
    + eapply Forall_impl; [exact Hl|]. intros; cbv beta in *; lia.
    + intros E. assert (Hin : 13 ∈ encode_groups (take 48 (c :: w))).
      { apply list_elem_of_lookup. eexists. by rewrite <- last_lookup. }
      rewrite Forall_forall in Hl. specialize (Hl 13 Hin). cbv beta in Hl. lia.
  - apply IH. by apply Forall_drop.
Qed.

Lemma text_lines_good w : value_ok w → binaryField w = false → Forall good_line (text_lines w).
Proof.
  intros [_ Hv] Hb. pose proof (text_lines_chars _ w (nonbinary_chars w 0 0 Hb)) as Hc. specialize (Hv Hb).
  rewrite Forall_forall in *. intros l Hl. split; [|by apply Hv]. eapply Forall_impl; [by apply Hc|]. done.
Qed.

Lemma field_lines_good n w : name_ok n → value_ok w → Forall good_line (field_lines n (w ++ [0])).
Proof.
  intros Hn Hv. unfold field_lines. rewrite strip_nul_snoc. destruct (binaryField w) eqn:Hb.
  - apply Forall_cons. split; [by apply b64_header_good|]. apply Forall_app. split; [apply b64_lines_good, Hv|].
    by repeat constructor.
  - destruct (length w =? 0)%nat; [by apply Forall_cons; split; [apply header_good|apply Forall_nil]|].
    apply Forall_cons. split; [by apply header_good|]. apply Forall_map. eapply Forall_impl; [by apply text_lines_good|].
    apply esc_good.
Qed.

(** ** Reading fields *)

Lemma parse_header junk n h h' s : name_ok n → store_pending h s = Some h' →
  hash_parseLine junk (Some (64 :: hash_keyencode n)) h s = Some (h', mkPl (Some n) [] false, 0).
Proof.
  intros Hn Hst. destruct (keyencode_head n Hn) as [Hne Hat]. pose proof Hn as (Hb & _). cbn [hash_parseLine].
  change (at0 (64 :: hash_keyencode n)) with 64. cbn [drop]. rewrite !drop_0.
  rewrite (proj2 (Z.eqb_neq (at0 (hash_keyencode n)) 64)) by done.
  cbn [Z.eqb negb andb]. change (64 =? 64) with true. cbn [andb]. rewrite Hst.
  destruct (Nat.eqb_spec (length (64 :: hash_keyencode n)) 1) as [E|_]; [by destruct (hash_keyencode n)|].
  assert (Hew : ends_with (64 :: hash_keyencode n) (s2b " base64"%string) = false).
  { unfold ends_with. destruct (_ <=? _)%nat; [|done]. cbn [andb]. apply bool_decide_eq_false. intros E.
    assert (Hin : 32 ∈ 64 :: hash_keyencode n).
    { rewrite <- (take_drop (length (64 :: hash_keyencode n) - length (s2b " base64"%string)) (64 :: hash_keyencode n)), E.
      apply elem_of_app. right. by left. }
    apply elem_of_cons in Hin as [|Hin]; [done|]. pose proof (keyencode_code n Hb) as Hc. rewrite Forall_forall in Hc.
    destruct (Hc 32 Hin). lia. }
  rewrite Hew, andb_false_r. cbn [drop]. by rewrite drop_0, hash_keydecode_keyencode.
Qed.

Lemma parse_b64_header junk n h h' s : name_ok n → store_pending h s = Some h' →
  hash_parseLine junk (Some (64 :: hash_keyencode n ++ s2b " base64"%string)) h s = Some (h', mkPl (Some n) [] true, 0).
Proof.
  intros Hn Hst. destruct (keyencode_head n Hn) as [Hne Hat]. pose proof Hn as (Hb & _). cbn [hash_parseLine].
  change (at0 (64 :: hash_keyencode n ++ s2b " base64"%string)) with 64. cbn [drop]. rewrite !drop_0.
  assert (Hat' : at0 (hash_keyencode n ++ s2b " base64"%string) ≠ 64) by by destruct (hash_keyencode n).
  rewrite (proj2 (Z.eqb_neq _ 64) Hat'). change (64 =? 64) with true. cbn [negb andb]. rewrite Hst.
  set (line := 64 :: hash_keyencode n ++ s2b " base64"%string).
  assert (Hlen : length line = (S (length (hash_keyencode n)) + 7)%nat) by (unfold line; cbn [length]; rewrite length_app; cbn; lia).
  assert (Hl1 : (1 <= length (hash_keyencode n))%nat) by (destruct (hash_keyencode n); cbn [length]; [done|lia]).
  destruct (Nat.eqb_spec (length line) 1) as [E|_]; [lia|]. rewrite (proj2 (Nat.ltb_lt 8 (length line))) by lia.
  assert (Hew : ends_with line (s2b " base64"%string) = true).
  { unfold ends_with. rewrite (proj2 (Nat.leb_le _ _)) by (change (length (s2b " base64"%string)) with 7%nat; lia).
    apply bool_decide_eq_true. rewrite Hlen. change (length (s2b " base64"%string)) with 7%nat.
    unfold line. change (64 :: hash_keyencode n ++ s2b " base64"%string) with ((64 :: hash_keyencode n) ++ s2b " base64"%string).
    apply drop_app_length'. cbn [length]. lia. }
  rewrite Hew. cbn [andb]. replace (take (length line - 7) line) with (64 :: hash_keyencode n); last first.
  { rewrite Hlen. unfold line. change (64 :: hash_keyencode n ++ s2b " base64"%string) with ((64 :: hash_keyencode n) ++ s2b " base64"%string).
    symmetry. apply take_app_length'. cbn [length]. lia. }
  cbn [drop]. by rewrite drop_0, hash_keydecode_keyencode.
Qed.

(** A line of a text field. *)
Lemma parse_esc junk l h n val :
  hash_parseLine junk (Some (esc l)) h (mkPl (Some n) val false) = Some (h, mkPl (Some n) (val ++ l ++ [10]) false, 0).
Proof.
  unfold esc. destruct (Z.eqb_spec (at0 l) 64) as [E|E]; cbn [hash_parseLine].
  - destruct l as [|c l]; [done|]. cbn [at0 hd] in E. subst c. cbn [at0 hd drop pl_base64 pl_key pl_val].
    change (64 =? 64) with true. done.
  - rewrite (proj2 (Z.eqb_neq _ _) E). cbn [andb pl_base64 pl_key pl_val]. by destruct l.
Qed.

Lemma parse_text junk ls h n : ∀ val,
  parse_many junk (map esc ls) h (mkPl (Some n) val false) = Some (h, mkPl (Some n) (val ++ text ls) false).
Proof.
  induction ls as [|l ls IH]; intros val; cbn [map parse_many]; [by rewrite app_nil_r|].
  rewrite parse_esc. cbn. rewrite IH. do 3 f_equal. unfold text. cbn [map concat]. by rewrite !app_assoc.
Qed.

Lemma parse_b64 junk fuel h n : ∀ w val, bytes w → (length w <= fuel)%nat →
  parse_many junk (b64_lines fuel w ++ [[]]) h (mkPl (Some n) val true) = Some (h, mkPl (Some n) (val ++ w) true).
Proof.
  induction fuel as [|fuel IH]; intros [|c w] val Hb Hl; cbn [b64_lines app parse_many]; try (simpl in Hl; lia).
  1, 2: cbn; by rewrite app_nil_r.
  set (g := take 48 (c :: w)).
  assert (Hg : Forall (λ x, 0 <= x < 256) g) by by apply Forall_take.
  assert (Hlg : (length g <= 48)%nat) by (unfold g; rewrite length_take; lia).
  assert (Hh : (at0 (encode_groups g) =? 64) = false).
  { pose proof (encode_groups_letters g Hg) as Hlt. destruct (encode_groups g) as [|x e]; [done|].
    apply Forall_inv in Hlt. apply Z.eqb_neq. cbn. lia. }
  cbn [hash_parseLine]. rewrite Hh. cbn [andb pl_base64 pl_key pl_val].
  unfold base64_decode. rewrite b64_decode_encode; [|done|cbn [length]; lia]. cbn [app]. change (0 =? 1) with false. cbn [negb].
  rewrite IH; [|by apply Forall_drop|rewrite length_drop; cbn [length] in *; lia].
  do 3 f_equal. rewrite <- app_assoc. f_equal. apply (take_drop 48 (c :: w)).
Qed.

Lemma field_parse junk n w h h' s : name_ok n → value_ok w → store_pending h s = Some h' →
  ∃ s', parse_many junk (field_lines n (w ++ [0])) h s = Some (h', s') ∧ pending s' = Some (n ++ [0], w ++ [0]).
Proof.
  intros Hn Hv Hst. unfold field_lines. rewrite strip_nul_snoc. destruct (binaryField w) eqn:Hb.
  - cbn [parse_many]. rewrite (parse_b64_header _ _ _ h') by done. change (0 =? 1) with false. cbn [negb].
    rewrite parse_b64 by (done || apply Hv). eexists. split; [done|]. done.
  - destruct (Nat.eqb_spec (length w) 0) as [Hw|Hw]; cbn [parse_many]; rewrite (parse_header _ _ _ h') by done; cbn.
    + eexists. split; [done|]. by apply nil_length_inv in Hw as ->.
    + rewrite parse_text. eexists. split; [done|]. unfold pending. cbn [pl_key pl_val pl_base64 app negb andb].
      rewrite text_text_lines, last_snoc. rewrite bool_decide_eq_true_2 by done.
      rewrite length_app. cbn [length default]. by rewrite take_app_length' by lia.
Qed.

(** The bindings of the hash with the one that is being read. *)
Definition total (h : H) (s : hashpl) : gmap cstr cstr :=
  match pending s with Some (k, v) => <[k:=v]> (hash_abs h) | None => hash_abs h end.

Definition pend_ok (s : hashpl) : Prop := match pending s with Some (k, _) => hash_okkey k | None => True end.

Lemma store_pending_ok h s : hash_inv h → pend_ok s → Z.of_nat (size (total h s)) < hash_max →
  ∃ h', store_pending h s = Some h' ∧ hash_inv h' ∧ hash_abs h' = total h s.
Proof.
  intros Hi Hp Hm. unfold store_pending, total, pend_ok in *. destruct (pending s) as [[k v]|]; [|eauto].
  apply store_law; [done|done|]. assert (size (hash_abs h) <= size (<[k:=v]> (hash_abs h)))%nat; [|lia].
  destruct (hash_abs h !! k) eqn:E; [rewrite map_size_insert_Some by by rewrite E|rewrite map_size_insert_None by done]; lia.
Qed.

Definition binding (f : cstr * cstr) : cstr * cstr := (fst f ++ [0], snd f ++ [0]).

Definition field_ok (f : cstr * cstr) : Prop := name_ok (fst f) ∧ value_ok (snd f) ∧ hash_okkey (fst f ++ [0]).

Definition file_lines (fs : list (cstr * cstr)) : list cstr :=
  concat (map (λ f, field_lines (fst f) (snd f ++ [0])) fs).

Lemma fields_parse junk fs : ∀ h s, hash_inv h → pend_ok s → Forall field_ok fs → NoDup (map fst (map binding fs)) →
  Z.of_nat (size (total h s) + length fs) < hash_max →
  ∃ h' s', parse_many junk (file_lines fs) h s = Some (h', s') ∧ hash_inv h' ∧ pend_ok s' ∧
    total h' s' = list_to_map (map binding fs) ∪ total h s ∧ (size (total h' s') <= size (total h s) + length fs)%nat.
Proof.
  induction fs as [|[n w] fs IH]; intros h s Hi Hp Hok Hnd Hm; cbn [map length] in *.
  { exists h, s. split_and!; [done|done|done| |lia]. cbn. by rewrite (left_id_L ∅ (∪)). }
  apply Forall_cons in Hok as [(Hn & Hv & Hk) Hok]. apply NoDup_cons in Hnd as [Hnin Hnd]. cbn [fst snd] in *.
  destruct (store_pending_ok h s Hi Hp ltac:(lia)) as (h1 & Hst & Hi1 & Ha1).
  destruct (field_parse junk n w h h1 s Hn Hv Hst) as (s1 & Hrun & Hpend).
  assert (Htot : total h1 s1 = <[n ++ [0] := w ++ [0]]> (total h s)) by (unfold total at 1; by rewrite Hpend, Ha1).
  pose proof (size_insert_le (total h s) (n ++ [0]) (w ++ [0])) as Hsz.
  destruct (IH h1 s1) as (h' & s' & Hrun' & Hi' & Hp' & Ht' & Hs'); [done| |done|done|rewrite Htot; lia|].
  { unfold pend_ok. by rewrite Hpend. }
  exists h', s'. split_and!; [|done|done| |rewrite Htot in Hs'; lia].
  - unfold file_lines in *. cbn [map concat fst snd]. by rewrite parse_many_app, Hrun.
  - rewrite Ht', Htot. cbn [list_to_map foldr uncurry binding fst snd]. rewrite <- insert_union_l, <- insert_union_r; [done|].
    by apply not_elem_of_list_to_map_1.
Qed.

(** The value of the empty key is written as it is. *)
Definition first_ok (w : cstr) : Prop := Forall (λ l, good_line l ∧ l ≠ [] ∧ at0 l ≠ 64) (text_lines w).

Lemma first_parse junk h ls : Forall (λ l, good_line l ∧ l ≠ [] ∧ at0 l ≠ 64) ls → ∀ val,
  parse_many junk ls h (mkPl None val false) = Some (h, mkPl None (val ++ text ls) false).
Proof.
  intros Hls. induction Hls as [|l ls (_ & Hne & Hat) Hls IH]; intros val; cbn [parse_many]; [by rewrite app_nil_r|].
  cbn [hash_parseLine]. rewrite (proj2 (Z.eqb_neq _ _) Hat). cbn [andb pl_base64 pl_key pl_val]. destruct l as [|c l]; [done|].
  cbn [negb]. change (0 =? 1) with false. cbn [negb]. rewrite IH. do 3 f_equal. unfold text. cbn [map concat]. by rewrite !app_assoc.
Qed.

Lemma write_fields_ok h fs : hash_inv h → Forall field_ok fs →
  Forall (λ f, hash_abs h !! (fst f ++ [0]) = Some (snd f ++ [0])) fs →
  write_fields h (map fst fs) = Some (text (file_lines fs)).
Proof.
  intros Hi Hok Hf. induction Hf as [|[n w] fs Hf Hfs IH]; [done|]. apply Forall_cons in Hok as [(_ & _ & Hk) Hok].
  cbn [map write_fields fst snd] in *. rewrite fetch_law, Hf by done. rewrite writeField_lines, IH by done.
  f_equal. unfold file_lines. cbn [map concat fst snd]. by rewrite text_app.
Qed.

(** ** The fields of a hash *)

Definition entry_ok (k v : cstr) : Prop :=
  ∃ n w, k = n ++ [0] ∧ v = w ++ [0] ∧ if bool_decide (n = []) then first_ok w else name_ok n ∧ value_ok w.

Lemma fields_of h l : hash_inv h → map_Forall entry_ok (hash_abs h) → l ≡ₚ map_to_list (hash_abs h) →
  ∃ fs, qsort string_sort (map upto_nul (filter (λ k, k ≠ [0]) (map fst l))) = map fst fs ∧ Forall field_ok fs ∧
    forallb goodkey (filter (λ k, k ≠ [0]) (map fst l)) = true ∧ (length fs <= size (hash_abs h))%nat ∧
    Forall (λ f, hash_abs h !! (fst f ++ [0]) = Some (snd f ++ [0])) fs ∧ NoDup (map fst (map binding fs)) ∧
    list_to_map (map binding fs) = delete [0] (hash_abs h).
Proof.
  intros Hi Hok Hp. set (keys := filter (λ k, k ≠ [0]) (map fst l)).
  assert (Hkeys : ∀ k, k ∈ keys ↔ k ≠ [0] ∧ is_Some (hash_abs h !! k)).
  { intros k. unfold keys. rewrite list_elem_of_filter, list_elem_of_fmap. split; intros [Hk Hin]; (split; [done|]).
    - destruct Hin as ([k' v] & -> & Hin). rewrite Hp, elem_of_map_to_list in Hin. by exists v.
    - destruct Hin as [v Hv]. exists (k, v). split; [done|]. by rewrite Hp, elem_of_map_to_list. }
  assert (Hndk : NoDup keys) by (apply NoDup_filter; rewrite Hp; apply NoDup_fst_map_to_list).
  assert (Hent : ∀ k, k ∈ keys → ∃ n w, k = n ++ [0] ∧ hash_abs h !! k = Some (w ++ [0]) ∧ upto_nul k = n ∧ name_ok n ∧ value_ok w).
  { intros k Hk. apply Hkeys in Hk as [Hk [v Hv]]. destruct (Hok k v Hv) as (n & w & -> & -> & Hnw).
    case_bool_decide as Hn; [by subst n|]. destruct Hnw as [Hnn Hvv]. exists n, w. split_and!; try done.
    by apply upto_nul_app, Hnn. }
  set (ns := qsort string_sort (map upto_nul keys)).
  assert (Hns : ns ≡ₚ map upto_nul keys) by apply qsort_perm.
  set (F := λ n, (n, strip_nul (default [] (hash_abs h !! (n ++ [0]))))).
  assert (HF : ∀ n, n ∈ ns → n ++ [0] ∈ keys ∧ hash_abs h !! (n ++ [0]) = Some (snd (F n) ++ [0]) ∧ name_ok n ∧ value_ok (snd (F n))).
  { intros n Hn. rewrite Hns in Hn. apply list_elem_of_fmap in Hn as (k & -> & Hk).
    destruct (Hent k Hk) as (n & w & -> & Hv & -> & Hnn & Hvv). unfold F. cbn [snd]. rewrite Hv. cbn [default].
    unfold id. rewrite strip_nul_snoc. done. }
  assert (Hndn : NoDup (map (λ n, n ++ [0]) ns)).
  { rewrite Hns, map_map. replace (map (λ k, upto_nul k ++ [0]) keys) with keys; [done|].
    rewrite <- (map_id keys) at 1. apply map_ext_in. intros k Hk%list_elem_of_In. by destruct (Hent k Hk) as (n & w & -> & _ & -> & _). }
  assert (Hfst : map fst (map binding (map F ns)) = map (λ n, n ++ [0]) ns) by (rewrite !map_map; done).
  exists (map F ns). rewrite Hfst. split_and!; [by rewrite map_map, map_id| | | | |done|].
  - apply Forall_map, Forall_forall. intros n Hn. destruct (HF n Hn) as (Hk & Hv & Hnn & Hvv). split_and!; [done|done|].
    apply (okkey_law h); [done|]. by eexists.
  - apply forallb_forall. intros k Hk%list_elem_of_In. destruct (Hent k Hk) as (n & w & -> & _). unfold goodkey. by rewrite last_snoc.
  - rewrite length_map. rewrite Hns, length_map. unfold keys. etransitivity; [apply length_filter|]. rewrite length_map, Hp.
    by rewrite length_map_to_list.
  - apply Forall_map, Forall_forall. intros n Hn. by destruct (HF n Hn) as (_ & Hv & _).
  - apply map_eq. intros k. apply option_eq. intros v. rewrite <- elem_of_list_to_map by (change (NoDup (map fst (map binding (map F ns)))); by rewrite Hfst).
    rewrite map_map. rewrite list_elem_of_fmap, lookup_delete_Some. split.
    + intros (n & [= -> ->] & Hn). destruct (HF n Hn) as (Hk & Hv & _). apply Hkeys in Hk as [Hk _]. done.
    + intros [Hk Hv]. assert (Hin : k ∈ keys) by (apply Hkeys; split; [done|by exists v]).
      destruct (Hent k Hin) as (n & w & -> & Hv' & Hn & _). exists n. split.
      * unfold binding, F. cbn [fst snd]. rewrite Hv'. cbn [default]. unfold id. rewrite strip_nul_snoc. congruence.
      * rewrite Hns. apply list_elem_of_fmap. by exists (n ++ [0]).
Qed.

End HashFile.

(** ** Properties *)

(** C21. Writing a hash to a file and reading the file into another hash succeeds and
    adds exactly the bindings of the first, for keys and values that are C strings
    the format can hold: keys that do not begin with an at sign or end in a
    carriage return, text values without a carriage return at the end of a line,
    binary values of any length, and under the empty key text without empty lines
    and lines that begin with an at sign.  The second hash must have room for the
    bindings. *)
Theorem hash_file_roundtrip {H} {ops : HashOps cstr cstr H} {laws : HashLaws cstr cstr H} (new h1 h2 : H) (junk : cstr) :
  hash_inv h1 → hash_inv h2 → hash_okkey [0] → map_Forall entry_ok (hash_abs h1) →
  Z.of_nat (size (hash_abs h2) + size (hash_abs h1)) + 1 < hash_max →
  ∃ out h, hash_toStream h1 = Some (0, out) ∧ hash_fromStream new junk (Some h2) out = Some (Some h, []) ∧ hash_inv h ∧
    hash_abs h = hash_abs h1 ∪ hash_abs h2.
Proof.
  intros H1 H2 Hk0 Hok Hm. unfold hash_toStream. rewrite fetch_law by done.
  destruct (items_law h1 H1) as (l & -> & Hp).
  destruct (fields_of h1 l H1 Hok Hp) as (fs & -> & Hfok & -> & Hlen & Hf & Hnd & Hmap). cbn [negb].
  rewrite write_fields_ok by done.
  set (first := match hash_abs h1 !! [0] with Some v => text_lines (strip_nul v) | None => [] end).
  assert (Hfirst : Forall (λ l, good_line l ∧ l ≠ [] ∧ at0 l ≠ 64) first ∧
    (match hash_abs h1 !! [0] with Some v => strip_nul v ++ [10] | None => [] end) = text first).
  { unfold first. destruct (hash_abs h1 !! [0]) as [v|] eqn:E; [|by split; [apply Forall_nil|]].
    destruct (Hok [0] v E) as (n & w & En & -> & Hw). destruct n as [|x n]; [|by destruct n]. cbn in Hw.
    rewrite strip_nul_snoc, text_text_lines. done. }
  destruct Hfirst as [Hfl ->]. exists (text first ++ text (file_lines fs)).
  set (s1 := mkPl None (text first) false).
  assert (Hs1 : total h2 s1 = match hash_abs h1 !! [0] with Some v => <[[0]:=v]> (hash_abs h2) | None => hash_abs h2 end ∧ pend_ok s1).
  { unfold total, pend_ok, pending, s1, first. cbn [pl_key pl_val pl_base64]. destruct (hash_abs h1 !! [0]) as [v|] eqn:E; [|done].
    destruct (Hok [0] v E) as (n & w & En & -> & Hw). rewrite strip_nul_snoc, text_text_lines.
    destruct (w ++ [10]) as [|x y] eqn:Ew; [by destruct w|]. rewrite <- Ew, last_snoc. cbn [default app negb andb].
    rewrite bool_decide_eq_true_2 by done. rewrite length_app. cbn [length]. rewrite take_app_length' by lia. done. }
  destruct Hs1 as [Ht1 Hp1].
  assert (Hsz1 : (size (total h2 s1) <= size (hash_abs h2) + 1)%nat).
  { rewrite Ht1. destruct (hash_abs h1 !! [0]) as [v|]; [|lia]. pose proof (size_insert_le (hash_abs h2) [0] v). lia. }
  destruct (fields_parse junk fs h2 s1 H2 Hp1 Hfok Hnd ltac:(lia)) as (h' & s' & Hrun & Hi' & Hp' & Ht' & Hsz').
  destruct (store_pending_ok h' s' Hi' Hp' ltac:(lia)) as (h & Hst & Hi & Ha).
  exists h. split_and!; [done| |done|].
  - unfold hash_fromStream. rewrite <- text_app.
    rewrite (loop_many new junk (first ++ file_lines fs) _ h2 (mkPl None [] false) h' s').
    + cbn [hash_parseLine]. by rewrite Hst.
    + apply Forall_app. split; [eapply Forall_impl; [exact Hfl|]; by intros ? (? & _)|]. unfold file_lines. apply Forall_concat, Forall_map.
      eapply Forall_impl; [exact Hfok|]. intros [n w] (? & ? & _). by apply field_lines_good.
    + rewrite parse_many_app, first_parse by done. exact Hrun.
    + apply text_length_ge.
  - rewrite Ha, Ht', Hmap, Ht1. destruct (hash_abs h1 !! [0]) as [v|] eqn:E.
    + rewrite <- insert_union_r by apply lookup_delete_eq. rewrite insert_union_l. by rewrite insert_delete_id.
    + by rewrite delete_id.
Qed.

#[local] Instance good_line_dec l : Decision (good_line l).
Proof. unfold good_line. apply _. Defined.

#[local] Instance name_ok_dec n : Decision (name_ok n).
Proof. unfold name_ok, cbytes. apply _. Defined.

#[local] Instance value_ok_dec w : Decision (value_ok w).
Proof. unfold value_ok, bytes. apply _. Defined.

#[local] Instance first_ok_dec w : Decision (first_ok w).
Proof. unfold first_ok. apply _. Defined.

Lemma entry_ok_dec n w :
  (if bool_decide (n = []) then bool_decide (first_ok w) else bool_decide (name_ok n ∧ value_ok w)) = true →
  entry_ok (n ++ [0]) (w ++ [0]).
Proof.
  intros Hd. exists n, w. split_and!; [done|done|]. by destruct (bool_decide (n = [])); apply bool_decide_eq_true in Hd.
Qed.

Definition ex_fields : list (hop cstr cstr) :=
  [HStore [0] (s2b "title"%string ++ 10 :: s2b "more"%string ++ [0]);
   HStore (s2b "a key"%string ++ [0]) (s2b "@home"%string ++ [10; 10; 0]);
   HStore (s2b "bin"%string ++ [0]) (repeat 200 50 ++ [0; 0]); HStore (s2b "none"%string ++ [0]) [0]].

(** What the file looks like. *)
Example ex_file :
  (let? (h1, _) := hash_run (ops := memhash_ops (λ k, Z.of_nat (length k))) memhash_new ex_fields in
   hash_toStream (ops := memhash_ops (λ k, Z.of_nat (length k))) h1) =
  Some (0, text [s2b "title"%string; s2b "more"%string; s2b "@a+key"%string; s2b "@@home"%string; []; [];
                 s2b "@bin base64"%string; s2b "yMjIyMjIyMjIyMjIyMjIyMjIyMjIyMjIyMjIyMjIyMjIyMjIyMjIyMjIyMjIyMjI"%string;
                 s2b "yMgA"%string; []; s2b "@none"%string]).
Proof. vm_compute. reflexivity. Qed.

Lemma hash_file_roundtrip_witness :
  ∃ h1 rs out h, hash_run (ops := memhash_ops (λ k, Z.of_nat (length k))) memhash_new ex_fields = Some (h1, rs) ∧
    hash_toStream (ops := memhash_ops (λ k, Z.of_nat (length k))) h1 = Some (0, out) ∧
    hash_fromStream (ops := memhash_ops (λ k, Z.of_nat (length k))) memhash_new [] (Some memhash_new) out = Some (Some h, []) ∧
    mem_abs h = (map_run ∅ ex_fields).1.
Proof.
  set (HASH := λ k : cstr, Z.of_nat (length k)). destruct (mem_new_inv HASH) as [Hi0 Ha0].
  destruct (hash_run_ok (laws := memhash_laws HASH) ex_fields memhash_new Hi0) as (h1 & Hrun & Hi & Ha);
    [by apply Forall_forall|vm_compute; discriminate|].
  change (mem_abs h1 = (map_run (mem_abs memhash_new) ex_fields).1) in Ha. rewrite Ha0 in Ha.
  destruct (hash_file_roundtrip (laws := memhash_laws HASH) memhash_new h1 memhash_new [] Hi Hi0 I) as (out & h & Hto & Hfrom & _ & Habs).
  - change (map_Forall entry_ok (mem_abs h1)). rewrite Ha. apply map_Forall_to_list.
    vm_compute map_to_list. repeat (apply Forall_cons; split); [..|by apply Forall_nil].
    + by apply (entry_ok_dec (s2b "a key"%string) (s2b "@home"%string ++ [10; 10])).
    + by apply (entry_ok_dec (s2b "bin"%string) (repeat 200 50 ++ [0])).
    + by apply (entry_ok_dec (s2b "none"%string) []).
    + by apply (entry_ok_dec [] (s2b "title"%string ++ 10 :: s2b "more"%string)).
  - change (Z.of_nat (size (mem_abs memhash_new) + size (mem_abs h1)) + 1 < mem_max). rewrite Ha, Ha0. vm_compute. reflexivity.
  - exists h1. eexists. exists out, h. split_and!; [exact Hrun|done|done|].
    change (mem_abs h = mem_abs h1 ∪ mem_abs memhash_new) in Habs. rewrite Habs, Ha, Ha0. apply (right_id_L ∅ (∪)).
Defined.

(** A key that begins with an at sign is read as text of the field before it. *)
Example at_key_lost :
  (let? (h1, _) := hash_run (ops := memhash_ops (λ k, Z.of_nat (length k))) memhash_new
     [HStore (s2b "a"%string ++ [0]) (s2b "1"%string ++ [0]); HStore (s2b "@z"%string ++ [0]) (s2b "2"%string ++ [0])] in
   let? (_, out) := hash_toStream (ops := memhash_ops (λ k, Z.of_nat (length k))) h1 in
   let? (h2, _) := hash_fromStream (ops := memhash_ops (λ k, Z.of_nat (length k))) memhash_new [] None out in
   let? h2 := h2 in memhash_each h2) =
  Some [([0], s2b "@z"%string ++ 10 :: s2b "2"%string ++ [0]); (s2b "a"%string ++ [0], s2b "1"%string ++ [0])].
Proof. vm_compute. reflexivity. Qed.

(** Empty lines of the value of the empty key are lost. *)
Example empty_lines_lost :
  (let? (h1, _) := hash_run (ops := memhash_ops (λ k, Z.of_nat (length k))) memhash_new
     [HStore [0] (s2b "a"%string ++ [10; 10] ++ s2b "b"%string ++ [0])] in
   let? (_, out) := hash_toStream (ops := memhash_ops (λ k, Z.of_nat (length k))) h1 in
   let? (h2, _) := hash_fromStream (ops := memhash_ops (λ k, Z.of_nat (length k))) memhash_new [] None out in
   let? h2 := h2 in memhash_each h2) =
  Some [([0], s2b "a"%string ++ [10] ++ s2b "b"%string ++ [0])].
Proof. vm_compute. reflexivity. Qed.
