(* ===== verification/Table.v ===== *)
(** * Table: writing the delta table

    The head of a history file in its text form: one entry per delta, newest
    first.  [delta_table] of src/src/slib.c with what it calls: [sccs_inherit],
    the file modes, the dates with their time zones, the lists of included and
    excluded serials, comments and tags.  Fields that are the same as the
    parent's are left out, the reader (TableRead.v) inherits them.

    A string of the heap is an option, [None] for the index 0.  The output is the
    list of its lines.  The compressed form of the file is not modelled. *)

From S2P Require Import Prelude CStr Sccs Rev Date.
From stdpp Require Import base numbers list strings.
From Stdlib Require Import ZArith Lia.

Local Open Scope Z_scope.

Local Open Scope bk_scope.

(** ** Entries *)

Definition D_META : Z := 0x00000010.

Definition D_SYMBOLS : Z := 0x00000020.

Definition D_DANGLING : Z := 0x00000080.

Definition D_SYMGRAPH : Z := 0x00000200.

Definition D_SYMLEAF : Z := 0x00000400.

Definition X_BITKEEPER : Z := 0x00000001.

Definition X_RCS : Z := 0x00000002.

Definition X_CSETMARKED : Z := 0x00000020.

Definition X_HASH : Z := 0x00000040.

Definition X_SCCS : Z := 0x00000080.

Definition X_SINGLE : Z := 0x00000100.

Definition X_EOLN_NATIVE : Z := 0x00000800.

Definition X_DEFAULT : Z := Z.lor (Z.lor X_BITKEEPER X_CSETMARKED) X_EOLN_NATIVE.

(** The fields of [d1_t] and [delta] of sccs.h; those the graph code uses are in
    [e_delta]. *)
Record entry := mkEnt {
  e_delta : delta;
  e_added : Z; e_deleted : Z; e_same : Z; e_sum : Z; e_sortsum : Z;
  e_fudge : Z; e_mode : Z; e_xflags : Z;
  e_comments : option cstr; e_bamhash : option cstr; e_random : option cstr; e_userhost : option cstr; e_path : option cstr;
  e_sortpath : option cstr; e_zone : option cstr; e_symlink : option cstr; e_csetfile : option cstr
}.

Definition null_ent : entry := mkEnt null_delta 0 0 0 0 0 0 0 0 None None None None None None None None None.

Definition set_e_delta (v : delta) (e : entry) : entry :=
  mkEnt v (e_added e) (e_deleted e) (e_same e) (e_sum e) (e_sortsum e) (e_fudge e) (e_mode e) (e_xflags e) (e_comments e) (e_bamhash e) (e_random e) (e_userhost e) (e_path e) (e_sortpath e) (e_zone e) (e_symlink e) (e_csetfile e).

Definition set_e_counts (a b c : Z) (e : entry) : entry :=
  mkEnt (e_delta e) a b c (e_sum e) (e_sortsum e) (e_fudge e) (e_mode e) (e_xflags e) (e_comments e) (e_bamhash e) (e_random e) (e_userhost e) (e_path e) (e_sortpath e) (e_zone e) (e_symlink e) (e_csetfile e).

Definition set_e_sum (v : Z) (e : entry) : entry :=
  mkEnt (e_delta e) (e_added e) (e_deleted e) (e_same e) v (e_sortsum e) (e_fudge e) (e_mode e) (e_xflags e) (e_comments e) (e_bamhash e) (e_random e) (e_userhost e) (e_path e) (e_sortpath e) (e_zone e) (e_symlink e) (e_csetfile e).

Definition set_e_sortsum (v : Z) (e : entry) : entry :=
  mkEnt (e_delta e) (e_added e) (e_deleted e) (e_same e) (e_sum e) v (e_fudge e) (e_mode e) (e_xflags e) (e_comments e) (e_bamhash e) (e_random e) (e_userhost e) (e_path e) (e_sortpath e) (e_zone e) (e_symlink e) (e_csetfile e).

Definition set_e_fudge (v : Z) (e : entry) : entry :=
  mkEnt (e_delta e) (e_added e) (e_deleted e) (e_same e) (e_sum e) (e_sortsum e) v (e_mode e) (e_xflags e) (e_comments e) (e_bamhash e) (e_random e) (e_userhost e) (e_path e) (e_sortpath e) (e_zone e) (e_symlink e) (e_csetfile e).

Definition set_e_mode (v : Z) (e : entry) : entry :=
  mkEnt (e_delta e) (e_added e) (e_deleted e) (e_same e) (e_sum e) (e_sortsum e) (e_fudge e) v (e_xflags e) (e_comments e) (e_bamhash e) (e_random e) (e_userhost e) (e_path e) (e_sortpath e) (e_zone e) (e_symlink e) (e_csetfile e).

Definition set_e_xflags (v : Z) (e : entry) : entry :=
  mkEnt (e_delta e) (e_added e) (e_deleted e) (e_same e) (e_sum e) (e_sortsum e) (e_fudge e) (e_mode e) v (e_comments e) (e_bamhash e) (e_random e) (e_userhost e) (e_path e) (e_sortpath e) (e_zone e) (e_symlink e) (e_csetfile e).

Definition set_e_comments (v : option cstr) (e : entry) : entry :=
  mkEnt (e_delta e) (e_added e) (e_deleted e) (e_same e) (e_sum e) (e_sortsum e) (e_fudge e) (e_mode e) (e_xflags e) v (e_bamhash e) (e_random e) (e_userhost e) (e_path e) (e_sortpath e) (e_zone e) (e_symlink e) (e_csetfile e).

Definition set_e_bamhash (v : option cstr) (e : entry) : entry :=
  mkEnt (e_delta e) (e_added e) (e_deleted e) (e_same e) (e_sum e) (e_sortsum e) (e_fudge e) (e_mode e) (e_xflags e) (e_comments e) v (e_random e) (e_userhost e) (e_path e) (e_sortpath e) (e_zone e) (e_symlink e) (e_csetfile e).

Definition set_e_random (v : option cstr) (e : entry) : entry :=
  mkEnt (e_delta e) (e_added e) (e_deleted e) (e_same e) (e_sum e) (e_sortsum e) (e_fudge e) (e_mode e) (e_xflags e) (e_comments e) (e_bamhash e) v (e_userhost e) (e_path e) (e_sortpath e) (e_zone e) (e_symlink e) (e_csetfile e).

Definition set_e_userhost (v : option cstr) (e : entry) : entry :=
  mkEnt (e_delta e) (e_added e) (e_deleted e) (e_same e) (e_sum e) (e_sortsum e) (e_fudge e) (e_mode e) (e_xflags e) (e_comments e) (e_bamhash e) (e_random e) v (e_path e) (e_sortpath e) (e_zone e) (e_symlink e) (e_csetfile e).

Definition set_e_path (v : option cstr) (e : entry) : entry :=
  mkEnt (e_delta e) (e_added e) (e_deleted e) (e_same e) (e_sum e) (e_sortsum e) (e_fudge e) (e_mode e) (e_xflags e) (e_comments e) (e_bamhash e) (e_random e) (e_userhost e) v (e_sortpath e) (e_zone e) (e_symlink e) (e_csetfile e).

Definition set_e_sortpath (v : option cstr) (e : entry) : entry :=
  mkEnt (e_delta e) (e_added e) (e_deleted e) (e_same e) (e_sum e) (e_sortsum e) (e_fudge e) (e_mode e) (e_xflags e) (e_comments e) (e_bamhash e) (e_random e) (e_userhost e) (e_path e) v (e_zone e) (e_symlink e) (e_csetfile e).

Definition set_e_zone (v : option cstr) (e : entry) : entry :=
  mkEnt (e_delta e) (e_added e) (e_deleted e) (e_same e) (e_sum e) (e_sortsum e) (e_fudge e) (e_mode e) (e_xflags e) (e_comments e) (e_bamhash e) (e_random e) (e_userhost e) (e_path e) (e_sortpath e) v (e_symlink e) (e_csetfile e).

Definition set_e_symlink (v : option cstr) (e : entry) : entry :=
  mkEnt (e_delta e) (e_added e) (e_deleted e) (e_same e) (e_sum e) (e_sortsum e) (e_fudge e) (e_mode e) (e_xflags e) (e_comments e) (e_bamhash e) (e_random e) (e_userhost e) (e_path e) (e_sortpath e) (e_zone e) v (e_csetfile e).

Definition set_e_csetfile (v : option cstr) (e : entry) : entry :=
  mkEnt (e_delta e) (e_added e) (e_deleted e) (e_same e) (e_sum e) (e_sortsum e) (e_fudge e) (e_mode e) (e_xflags e) (e_comments e) (e_bamhash e) (e_random e) (e_userhost e) (e_path e) (e_sortpath e) (e_zone e) (e_symlink e) v.

(** A tag: a name, the delta it is on and the delta that holds it. *)
Record symbol := mkSym { sym_name : cstr; sym_ser : nat; sym_meta : nat }.

Abbreviation table := (list entry).

Definition ent (t : table) (d : nat) : entry := match d with O => null_ent | S k => nth k t null_ent end.

Definition to_sccs (t : table) : sccs := mkSccs (map e_delta t) (length t) 0 0 0 0 false.

Definition eflags (e : entry) : Z := d_flags (e_delta e).

Definition eparent (e : entry) : nat := d_parent (e_delta e).

Definition has_flag (e : entry) (f : Z) : bool := negb (Z.land (eflags e) f =? 0).

(** [HEAP(s, index)]: the empty string for the index 0. *)
Definition str (o : option cstr) : cstr := default [] o.

Definition has (o : option cstr) : bool := match o with Some _ => true | None => false end.

(** ** Inheritance *)

(** [CHK_DUP] *)
Definition chk_dup (x y : option cstr) : option cstr := match x with None => y | Some _ => x end.

Definition inherit_host (e p : entry) : entry :=
  if has (e_userhost p) then
    match strchr (str (e_userhost e)) 64, strchr (str (e_userhost p)) 64 with
    | None, Some phost => set_e_userhost (Some (str (e_userhost e) ++ [64] ++ drop 1 phost)) e
    | _, _ => e
    end
  else e.

Definition sccs_inherit (t : table) (d : nat) : entry :=
  let e := ent t d in
  let p := ent t (eparent e) in
  if (eparent e =? 0)%nat then e else
  let e := set_e_zone (chk_dup (e_zone e) (e_zone p)) e in
  let e := set_e_csetfile (chk_dup (e_csetfile e) (e_csetfile p)) e in
  let e := set_e_path (chk_dup (e_path e) (e_path p)) e in
  let e := set_e_sortpath (chk_dup (e_sortpath e) (e_sortpath p)) e in
  let e := if e_mode e =? 0
           then set_e_symlink (chk_dup (e_symlink e) (e_symlink p)) (set_e_mode (e_mode p) e) else e in
  let e := if e_xflags e =? 0 then set_e_xflags (e_xflags p) e else e in
  inherit_host e p.

Definition set_ent (t : table) (d : nat) (e : entry) : table := match d with O => t | S k => <[k := e]> t end.

(** [for (d = TREE(s); d <= TABLE(s); d++) sccs_inherit(s, d);] *)
Fixpoint inherit_all (n d : nat) (t : table) : table :=
  match n with O => t | S n => inherit_all n (S d) (set_ent t d (sccs_inherit t d)) end.

(** ** Modes *)

Definition S_IFMT : Z := 0xf000.

Definition S_IFLNK : Z := 0xa000.

Definition S_IFREG : Z := 0x8000.

Definition S_IFDIR : Z := 0x4000.

Definition isfmt (m f : Z) : bool := Z.land m S_IFMT =? f.

Definition bit (m b : Z) : bool := negb (Z.land m b =? 0).

Definition mode2a (m : Z) : cstr :=
  let x b sid := if bit m b then (if bit m sid then 115 else 120) else (if bit m sid then 83 else 45) in
  let l b c := if bit m b then c else 45 in
  if negb (isfmt m S_IFLNK || isfmt m S_IFDIR || isfmt m S_IFREG) then s2b "<bad mode>"%string else
  [(if isfmt m S_IFLNK then 108 else if isfmt m S_IFDIR then 100 else 45);
   l 0x100 114; l 0x80 119; x 0x40 0x800;
   l 0x20 114; l 0x10 119; x 0x8 0x400;
   l 0x4 114; l 0x2 119; l 0x1 120].

(** [None]: an assert fails.  The symlinks are unique strings of the heap, so
    equal strings have equal indices. *)
Definition sameMode (a b : entry) : option bool :=
  if isfmt (e_mode a) S_IFREG && isfmt (e_mode b) S_IFREG then Some (e_mode a =? e_mode b)
  else if negb (isfmt (e_mode a) S_IFLNK && isfmt (e_mode b) S_IFLNK) then Some false
  else assert! has (e_symlink a) && has (e_symlink b); Some (bool_decide (e_symlink a = e_symlink b)).

(** ** Dates *)

(** [delta_strftime] with the format "%y/%m/%d %H:%M:%S"; [gmtime] is the calendar of
    [utc2tm]. *)
Definition delta_strftime (e : entry) : option cstr :=
  let z := str (e_zone e) in
  let '(neg, z) := if at0 z =? 45 then (-1, drop 1 z) else if at0 z =? 43 then (1, drop 1 z) else (1, z) in
  let '(h, z) := atoi_p z in
  let zone := 3600 * h in
  let zone := if at0 z =? 58 then zone + 60 * atoi (drop 1 z) else zone in
  let? tp := utc2tm (d_date (e_delta e) - e_fudge e + neg * zone) in
  Some (X (Z.rem (tm_year tp) 100) ++ [47] ++ X (tm_mon tp + 1) ++ [47] ++ X (tm_mday tp) ++ [32] ++
        X (tm_hour tp) ++ [58] ++ X (tm_min tp) ++ [58] ++ X (tm_sec tp)).

(** ** Lines of an entry *)

(** [fmtd] of an unsigned field. *)
Definition fmtd (z : Z) : cstr := printf_d (if z <? 2 ^ 31 then z else z - 2 ^ 32).

(** "%05u" *)
Definition pad5 (n : Z) : cstr := replicate (5 - length (printf_u n)) 48 ++ printf_u n.

(** "%x" *)
Fixpoint hex_digits (fuel : nat) (n : Z) : cstr :=
  match fuel with
  | O => []
  | S fuel =>
      let d x := if x <? 10 then 48 + x else 87 + x in
      if n <? 16 then [d n] else hex_digits fuel (n / 16) ++ [d (n mod 16)]
  end.

Definition printf_x (n : Z) : cstr := hex_digits 16 n.

Definition fulluser (u : cstr) : cstr := match strchr u 64 with Some h => take (length u - length h) u | None => u end.

(** [eachline]: the lines of a comment, carriage returns at their end dropped. *)
Definition drop_cr (l : cstr) : cstr := strip_back (λ c, c =? 13) l.

Fixpoint each_lines (s cur : cstr) : list cstr :=
  match s with
  | [] => match cur with [] => [] | _ => [drop_cr cur] end
  | c :: s => if c =? 10 then drop_cr cur :: each_lines s [] else each_lines s (cur ++ [c])
  end.

Definition opt (b : bool) (l : cstr) : list cstr := if b then [l] else [].

Definition s_line (firstadded : bool) (e : entry) : cstr :=
  let l := 1 :: s2b "s "%string ++ fmtd (e_added e) ++ [47] ++ fmtd (e_deleted e) ++ [47] ++ fmtd (e_same e) in
  if firstadded then l ++ replicate (43 - length l) 32 else l.

Definition d_line (t : table) (d : nat) : option cstr :=
  let e := ent t d in
  let? date := delta_strftime e in
  Some (1 :: s2b "d "%string ++ [if has_flag e D_TAG then 82 else 68] ++ [32] ++ delta_rev (to_sccs t) d ++ [32] ++ date ++ [32] ++
        fulluser (str (e_userhost e)) ++ [32] ++ fmtd (Z.of_nat d) ++ [32] ++ fmtd (Z.of_nat (eparent e))).

Definition clude_lines (c : cstr) : list cstr :=
  let line k l := opt (negb (length l =? 0)%nat) (1 :: k :: concat (map (λ n, 32 :: fmtd n) l)) in
  line 105 (map fst (filter (λ p, 0 < snd p) (nums c))) ++ line 120 (map fst (filter (λ p, snd p < 0) (nums c))).

Definition comment_lines (e : entry) : list cstr := map (λ l, 1 :: s2b "c "%string ++ l) (each_lines (str (e_comments e)) []).

(** [sym] walks down from the last tag: the lines for [d] and the tags left. *)
Fixpoint sym_lines (d : nat) (syms : list symbol) : list cstr * list symbol :=
  match syms with
  | [] => ([], [])
  | y :: rest =>
      if (sym_meta y <? d)%nat then ([], syms) else
      let '(l, r) := sym_lines d rest in
      (if (sym_meta y =? d)%nat then (1 :: s2b "cS"%string ++ sym_name y) :: l else l, r)
  end.

Definition SCCS_VERSION : Z := 4.

Section Writer.

Context (bk cset : bool).

Definition same_as (parent : nat) (x y : option cstr) : bool :=
  negb (parent =? 0)%nat && bool_decide (str x = str y).

Definition host_line (t : table) (d : nat) : list cstr :=
  let e := ent t d in
  match strchr (str (e_userhost e)) 64 with
  | None => []
  | Some h =>
      opt ((eparent e =? 0)%nat ||
           match strchr (str (e_userhost (ent t (eparent e)))) 64 with
           | None => true
           | Some p => negb (bool_decide (h = p))
           end) (1 :: s2b "cH"%string ++ drop 1 h)
  end.

Definition sum_line (first : bool) (e : entry) : list cstr :=
  if first then [1 :: s2b "cKXXXXX"%string]
  else if has_flag e D_TAG then []
  else [1 :: s2b "cK"%string ++ pad5 (e_sum e) ++ (if e_sum e =? e_sortsum e then [] else 124 :: pad5 (e_sortsum e))].

Definition path_line (t : table) (d : nat) : list cstr :=
  let e := ent t d in
  let p := ent t (eparent e) in
  opt ((has (e_path e) && negb (same_as (eparent e) (e_path p) (e_path e))) ||
       (has (e_sortpath e) && negb (same_as (eparent e) (e_sortpath p) (e_sortpath e))))
      (1 :: s2b "cP"%string ++ str (e_path e) ++
       (if has (e_sortpath e) && negb (bool_decide (str (e_path e) = str (e_sortpath e)))
        then 124 :: str (e_sortpath e) else [])).

Definition mode_line (t : table) (d : nat) : option (list cstr) :=
  let e := ent t d in
  if e_mode e =? 0 then Some [] else
  let? same := (if (eparent e =? 0)%nat then Some false else sameMode (ent t (eparent e)) e) in
  if same then Some [] else
  assert! negb (has (e_symlink e)) || isfmt (e_mode e) S_IFLNK;
  Some [1 :: s2b "cO"%string ++ mode2a (e_mode e) ++ (if has (e_symlink e) then 32 :: str (e_symlink e) else [])].

Definition symgraph_line (e : entry) : list cstr :=
  opt (has_flag e D_SYMGRAPH)
    (1 :: s2b "cS"%string ++
     (if negb (d_ptag (e_delta e) =? 0)%nat
      then fmtd (Z.of_nat (d_ptag (e_delta e))) ++
           (if negb (d_mtag (e_delta e) =? 0)%nat then 32 :: fmtd (Z.of_nat (d_mtag (e_delta e))) else [])
      else fmtd 0) ++
     (if has_flag e D_SYMLEAF then [32; 108] else [])).

(** The lines after the comments, and the tags left. *)
Definition meta_lines (t : table) (d : nat) (first : bool) (syms : list symbol) : option (list cstr * list symbol) :=
  let e := ent t d in
  let p := ent t (eparent e) in
  assert! negb (has_flag e D_CSET) || negb (has_flag e D_TAG);
  let? mode := mode_line t d in
  let '(sl, syms) := if has_flag e D_SYMBOLS then sym_lines d syms else ([], syms) in
  assert! negb (has_flag e D_SYMGRAPH) || cset;
  Some (opt (negb cset && has (e_bamhash e)) (1 :: s2b "cA"%string ++ str (e_bamhash e)) ++
        opt (has (e_csetfile e) && negb (same_as (eparent e) (e_csetfile e) (e_csetfile p))) (1 :: s2b "cB"%string ++ str (e_csetfile e)) ++
        opt (has_flag e D_CSET) (1 :: s2b "cC"%string) ++
        opt (has_flag e D_DANGLING) (1 :: s2b "cD"%string) ++
        opt (negb (e_fudge e =? 0)) (1 :: s2b "cF"%string ++ printf_u (e_fudge e)) ++
        host_line t d ++
        sum_line first e ++
        opt (negb (d_merge (e_delta e) =? 0)%nat) (1 :: s2b "cM"%string ++ fmtd (Z.of_nat (d_merge (e_delta e)))) ++
        path_line t d ++
        mode ++
        opt (has (e_random e)) (1 :: s2b "cR"%string ++ str (e_random e)) ++
        sl ++
        symgraph_line e ++
        opt (d =? 1)%nat (1 :: s2b "cV"%string ++ printf_u SCCS_VERSION) ++
        opt ((eparent e =? 0)%nat || negb (e_xflags e =? e_xflags p)) (1 :: s2b "cX0x"%string ++ printf_x (e_xflags e)) ++
        opt (has (e_zone e) && negb (same_as (eparent e) (e_zone p) (e_zone e))) (1 :: s2b "cZ"%string ++ str (e_zone e)),
        syms).

(** [char buf[2*MAXPATH + 10]] holds a line, its newline and a NUL. *)
Definition fits (l : cstr) : bool := (length l + 2 <=? 2058)%nat.

(** An entry.  [inr 1]: [exit(1)]; [inr (-1)]: dates do not increase. *)
Definition entry_lines (t : table) (d : nat) (first firstadded : bool) (syms : list symbol) :
    option ((list cstr * list symbol) + Z) :=
  let e := ent t d in
  assert! negb (eflags e =? 0) && negb (has_flag e D_GONE);
  if bk && has_flag e D_TAG && (negb cset || negb (has_flag e (Z.lor D_SYMBOLS D_SYMGRAPH))) then Some (inr 1) else
  if negb (eparent e =? 0)%nat && bk && (d_date (e_delta e) <=? d_date (e_delta (ent t (eparent e)))) then Some (inr (-1)) else
  let? dline := d_line t d in
  let head := [s_line firstadded e; dline] in
  let? (meta, syms) := (if bk then meta_lines t d first syms else Some ([], syms)) in
  assert! forallb fits (head ++ meta);
  Some (inl (head ++ clude_lines (d_cludes (e_delta e)) ++ comment_lines e ++ meta ++ [1 :: s2b "e"%string], syms)).

(** [for (d = TABLE(s); d >= TREE(s); d--)] *)
Fixpoint table_loop (t : table) (d : nat) (first firstadded : bool) (syms : list symbol) : option (list cstr + Z) :=
  match d with
  | O => Some (inl [])
  | S d' =>
      let? r := entry_lines t d first firstadded syms in
      match r with
      | inr e => Some (inr e)
      | inl (l, syms) =>
          let? r := table_loop t d' false false syms in
          Some (match r with inl rest => inl (l ++ rest) | inr e => inr e end)
      end
  end.

(** Default flags for the first delta. *)
Definition default_xflags (t : table) : table :=
  if negb bk then t else
  let old := e_xflags (ent t 1) in
  let x := if old =? 0 then X_DEFAULT else old in
  let x := Z.lor x (Z.lor X_BITKEEPER X_CSETMARKED) in
  let x := if cset then Z.lor (Z.land x (Z.lnot (Z.lor X_SCCS X_RCS))) X_HASH else x in
  let t := set_ent t 1 (set_e_xflags x (ent t 1)) in
  if old =? x then t else inherit_all (length t) 1 t.

(** Up to the mark that ends the deltas.  [compat]: whether the project has
    features that old versions do not know. *)
Definition delta_table (compat : bool) (t : table) (symlist : list symbol) (willfix : bool) : option (list cstr + Z) :=
  let t := default_xflags t in
  let? r := table_loop t (length t) willfix true (reverse symlist) in
  Some (match r with
        | inr e => inr e
        | inl l => inl ((1 :: (if bk then 72 else 104) :: s2b "XXXXX"%string) ::
                        opt (bk && compat) (s2b "bk-filever-5"%string) ++ l ++ [1 :: s2b "u"%string])
        end).

End Writer.
