(* ===== verification/TableRead.v ===== *)
(** * TableRead: reading the delta table

    [mkgraph] of src/src/slib.c for the text form of a history file, with the
    argument scanners it calls: the entries, the inherited fields, the dates and
    the tags.  The input is the list of lines [sccs_nextdata] delivers.  The
    result is [None] for a failed assert or an access out of bounds, [inr tt]
    for the message "bad delta".  Of what follows the entries only the tags
    are modelled: not the section of users, flags and text ([misc]), the
    check of the revision numbers and the renumbering of a table with holes. *)

From S2P Require Import Prelude CStr Sccs Rev Date WebEncode Table.
From stdpp Require Import base numbers list strings.
From Stdlib Require Import ZArith Lia.

Local Open Scope Z_scope.

Local Open Scope bk_scope.

(** What is read so far: [mg_symname] holds the tags with their deltas. *)
Record rd := mkRd {
  rd_ents : table;
  rd_dates : list cstr;
  rd_symname : list (nat * cstr);
  rd_bk : bool;
  rd_ro : bool;
  rd_version : Z
}.

Definition on_ent (d : nat) (f : entry → entry) (st : rd) : rd :=
  mkRd (set_ent (rd_ents st) d (f (ent (rd_ents st) d))) (rd_dates st) (rd_symname st) (rd_bk st) (rd_ro st) (rd_version st).

Definition set_ro (st : rd) : rd := mkRd (rd_ents st) (rd_dates st) (rd_symname st) (rd_bk st) true (rd_version st).

Definition set_bk (st : rd) : rd := mkRd (rd_ents st) (rd_dates st) (rd_symname st) true (rd_ro st) (rd_version st).

Definition on_delta (f : delta → delta) (e : entry) : entry := set_e_delta (f (e_delta e)) e.

Definition add_flag (f : Z) : entry → entry := on_delta (λ x, set_flags (Z.lor (d_flags x) f) x).

Definition set_parent (v : nat) (x : delta) : delta :=
  mkDelta v (d_merge x) (d_ptag x) (d_mtag x) (d_date x) (d_flags x) (d_cludes x) (d_r x).

Definition set_merge (v : nat) (x : delta) : delta :=
  mkDelta (d_parent x) v (d_ptag x) (d_mtag x) (d_date x) (d_flags x) (d_cludes x) (d_r x).

Definition set_ptag (v : nat) (x : delta) : delta :=
  mkDelta (d_parent x) (d_merge x) v (d_mtag x) (d_date x) (d_flags x) (d_cludes x) (d_r x).

Definition set_mtag (v : nat) (x : delta) : delta :=
  mkDelta (d_parent x) (d_merge x) (d_ptag x) v (d_date x) (d_flags x) (d_cludes x) (d_r x).

Definition set_date (v : Z) (x : delta) : delta :=
  mkDelta (d_parent x) (d_merge x) (d_ptag x) (d_mtag x) v (d_flags x) (d_cludes x) (d_r x).

(** ** Scanners *)

Fixpoint num_loop (base : Z) (s : cstr) (v : Z) : Z :=
  match s with
  | [] => v
  | c :: s => match hexval c with
              | Some x => if x <? base then num_loop base s (v * base + x) else v
              | None => v
              end
  end.

(** [strtol(s, 0, 0)] *)
Definition strtol0 (s : cstr) : Z :=
  let s := skip_space s in
  let '(sign, s) := if at0 s =? 45 then (-1, drop 1 s) else if at0 s =? 43 then (1, drop 1 s) else (1, s) in
  sign *
  (if at0 s =? 48 then
     if ((nth 1 s 0 =? 120) || (nth 1 s 0 =? 88)) && (match hexval (nth 2 s 0) with Some _ => true | None => false end)
     then num_loop 16 (drop 2 s) 0 else num_loop 8 s 0
   else num_loop 10 s 0).

(** [None]: the string is too short. *)
Definition a2mode (mode : cstr) : option Z :=
  let c i := nth i mode 0 in
  match (if c 0%nat =? 45 then Some S_IFREG else if c 0%nat =? 100 then Some S_IFDIR else if c 0%nat =? 108 then Some S_IFLNK else None) with
  | None => Some 0
  | Some m =>
      assert! (9 <=? length mode)%nat;
      let or (b : bool) (v m : Z) := if b then Z.lor m v else m in
      let ex i x sid m := or ((c i =? 115) || (c i =? 120)) x (or ((c i =? 83) || (c i =? 115)) sid m) in
      let m := or (c 1%nat =? 114) 0x100 m in
      let m := or (c 2%nat =? 119) 0x80 m in
      let m := ex 3%nat 0x40 0x800 m in
      let m := or (c 4%nat =? 114) 0x20 m in
      let m := or (c 5%nat =? 119) 0x10 m in
      let m := ex 6%nat 0x8 0x400 m in
      let m := or (c 7%nat =? 114) 0x4 m in
      let m := or (c 8%nat =? 119) 0x2 m in
      let m := or (c 9%nat =? 120) 0x1 m in
      Some m
  end.

Definition fixModes (m : Z) : Z :=
  let m := if bit m 0x80 then m else Z.lor m 0x80 in
  if bit m 0x100 then m else Z.lor m 0x100.

(** The digits of a mode; [None] for one that is not octal. *)
Fixpoint octal_loop (s : cstr) (m : Z) : option Z :=
  match s with
  | [] => Some m
  | c :: s => if isdigit c then if c <=? 55 then octal_loop s (Z.lor (Z.shiftl m 3) (c - 48)) else None else Some m
  end.

Definition getMode (arg : cstr) : option Z :=
  if isdigit (at0 arg) then
    match octal_loop arg 0 with
    | None => Some 0
    | Some m =>
        let m := if Z.land m S_IFMT =? 0 then Z.lor m S_IFREG else m in
        if isfmt m S_IFLNK || isfmt m S_IFDIR || isfmt m S_IFREG then Some (fixModes m) else Some 0
    end
  else let? m := a2mode arg in Some (fixModes m).

Definition hostArg (arg : cstr) (e : entry) : option entry :=
  assert! negb (length arg =? 0)%nat;
  let u := fulluser (str (e_userhost e)) ++ [64] ++ arg in
  assert! (length u <? 2048)%nat;
  Some (set_e_userhost (Some u) e).

(** The sums are unsigned. *)
Definition sumArg (arg : cstr) (e : entry) : entry :=
  let '(sum, arg) := atoi_p arg in
  set_e_sortsum (u32 (if at0 arg =? 124 then atoi (drop 1 arg) else sum)) (set_e_sum (u32 sum) e).

Definition mergeArg (arg : cstr) (e : entry) : option entry :=
  assert! (d_merge (e_delta e) =? 0)%nat && isdigit (at0 arg);
  Some (on_delta (set_merge (Z.to_nat (atoi arg))) e).

Definition pathArg (arg : cstr) (e : entry) : option entry :=
  if (length arg =? 0)%nat then Some e else
  assert! (length arg <? 2048)%nat;
  Some (match strchr arg 124 with
        | Some sp => set_e_sortpath (Some (drop 1 sp)) (set_e_path (Some (take (length arg - length sp) arg)) e)
        | None => set_e_sortpath (Some arg) (set_e_path (Some arg) e)
        end).

Definition modeArg (arg : cstr) (e : entry) : option entry :=
  let? m := getMode arg in
  if m =? 0 then Some e else
  if isfmt m S_IFLNK then
    match strchr arg 32 with
    | None => Some e
    | Some t => Some (set_e_mode m (set_e_symlink (Some (drop 1 t)) e))
    end
  else Some (set_e_mode m e).

Definition csetFileArg (arg : cstr) (e : entry) : entry :=
  if (length arg =? 0)%nat then e else set_e_csetfile (Some arg) e.

Definition zoneArg (arg : cstr) (e : entry) : option entry :=
  if (at0 arg =? 43) || (at0 arg =? 45) then Some (set_e_zone (Some arg) e) else
  assert! (length arg + 2 <=? 20)%nat; Some (set_e_zone (Some (45 :: arg)) e).

(** The part of [symArg] for a node of the tag graph. *)
Definition symgraphArg (name : cstr) (e : entry) : option entry :=
  let e := add_flag D_SYMGRAPH e in
  let '(n, name) := atoi_p name in
  let e := on_delta (set_ptag (Z.to_nat n)) e in
  let leaf (name : cstr) (e : entry) := assert! at0 name =? 108; Some (add_flag D_SYMLEAF e) in
  if negb (at0 name =? 32) then Some e else
  let name := drop 1 name in
  if isdigit (at0 name) then
    let '(n, name) := atoi_p name in
    let e := on_delta (set_mtag (Z.to_nat n)) e in
    if negb (at0 name =? 32) then Some e else leaf (drop 1 name) e
  else leaf name e.

Section Reader.

Context (cset : bool).

Definition symArg (d : nat) (name : cstr) (st : rd) : option rd :=
  if negb cset then Some st else
  if isdigit (at0 name) then
    let? e := symgraphArg name (ent (rd_ents st) d) in Some (on_ent d (λ _, e) st)
  else
    let st := mkRd (rd_ents st) (rd_dates st) (rd_symname st ++ [(d, name)]) (rd_bk st) (rd_ro st) (rd_version st) in
    Some (on_ent d (add_flag D_SYMBOLS) st).

Definition lift (d : nat) (st : rd) (r : option entry) : option rd := let? e := r in Some (on_ent d (λ _, e) st).

(** A line "^AcX...". *)
Definition meta (d : nat) (buf : cstr) (st : rd) : option rd :=
  let st := if has_flag (ent (rd_ents st) d) D_TAG then on_ent d (add_flag D_META) st else st in
  let e := ent (rd_ents st) d in
  let arg := drop 3 buf in
  let c := nth 2 buf 0 in
  let? (st, known) :=
    (if c =? 65 then Some (on_ent d (set_e_bamhash (Some arg)) st, true)
     else if c =? 66 then Some (on_ent d (csetFileArg arg) st, true)
     else if c =? 67 then Some (on_ent d (add_flag D_CSET) st, true)
     else if c =? 68 then Some (on_ent d (add_flag D_DANGLING) st, true)
     else if c =? 69 then Some (st, true)
     else if c =? 70 then Some (on_ent d (set_e_fudge (atoi arg)) st, true)
     else if c =? 72 then let? st := lift d st (hostArg arg e) in Some (st, true)
     else if c =? 75 then Some (on_ent d (sumArg arg) st, true)
     else if c =? 77 then let? st := lift d st (mergeArg arg e) in Some (st, true)
     else if c =? 80 then let? st := lift d st (pathArg arg e) in Some (st, true)
     else if c =? 79 then let? st := lift d st (modeArg arg e) in Some (st, true)
     else if c =? 82 then Some (on_ent d (set_e_random (Some arg)) st, true)
     else if c =? 83 then let? st := symArg d arg st in Some (st, true)
     else if c =? 84 then Some (st, true)
     else if c =? 86 then
       let v := atoi arg in
       let st := mkRd (rd_ents st) (rd_dates st) (rd_symname st) (rd_bk st) (rd_ro st) v in
       Some (if v <=? SCCS_VERSION then st else set_ro st, true)
     else if c =? 88 then Some (on_ent d (set_e_xflags (Z.land (u32 (strtol0 arg)) (Z.lnot X_SINGLE))) st, true)
     else if c =? 90 then let? st := lift d st (zoneArg arg e) in Some (st, true)
     else Some (set_ro st, false)) in
  Some (if known : bool then set_bk st else st).

(** ** Entries *)

(** [while (q = eachstr(&p, &i)) sccs_saveNum(fcludes, atoi(q), sign);] *)
Fixpoint clude_loop (fuel : nat) (sign : Z) (p : option cstr) : cstr :=
  match fuel with
  | O => []
  | S fuel =>
      match eachstr p with
      | (Some (q, _), p) => sccs_saveNum (atoi q) sign ++ clude_loop fuel sign p
      | (None, _) => []
      end
  end.

Inductive phase := PCludes | PComments | PMeta.

(** The three loops over the lines of an entry; [cl] is [fcludes]. *)
Fixpoint body (ph : phase) (d : nat) (lines : list cstr) (cl : cstr) (st : rd) :
    option ((list cstr * cstr * rd) + unit) :=
  match lines with
  | [] => Some (inr tt)
  | buf :: lines =>
      let c1 := nth 1 buf 0 in
      let do_meta :=
        if c1 =? 101 then Some (inl (lines, cl, st))
        else if c1 =? 99 then
          if nth 2 buf 0 =? 95 then body PMeta d lines cl st
          else let? st := meta d buf st in body PMeta d lines cl st
        else Some (inr tt) in
      let do_comment :=
        if negb (c1 =? 99) || negb (nth 2 buf 0 =? 32) then do_meta
        else body PComments d lines cl (on_ent d (λ e, set_e_comments (Some (str (e_comments e) ++ drop 3 buf ++ [10])) e) st) in
      if negb (at0 buf =? 1) then Some (inr tt) else
      match ph with
      | PCludes =>
          if ((c1 =? 105) || (c1 =? 120) || (c1 =? 103)) && (length buf <=? 3)%nat then body PCludes d lines cl st
          else if c1 =? 99 then do_comment
          else if (c1 =? 105) || (c1 =? 120) then
            body PCludes d lines (cl ++ clude_loop (length buf) (if c1 =? 105 then 1 else -1) (Some (drop 3 buf))) st
          else if (c1 =? 103) || (c1 =? 109) then body PCludes d lines cl (set_ro st)
          else if c1 =? 101 then Some (inl (lines, cl, st))
          else Some (inr tt)
      | PComments => do_comment
      | PMeta => do_meta
      end
  end.

(** [for (...; stop; buf[i++] = *p++)] into a buffer of [cap] bytes. *)
Fixpoint until (stop : Z → bool) (p : cstr) : option (cstr * cstr) :=
  match p with
  | [] => None
  | c :: p' => if stop c then Some ([], p) else let? (a, r) := until stop p' in Some (c :: a, r)
  end.

Definition copy_to (cap : nat) (stop : Z → bool) (p : cstr) : option (cstr * cstr) :=
  let? (a, r) := until stop p in assert! (length a <? cap)%nat; Some (a, r).

(** The first line of an entry: added, deleted and unchanged lines. *)
Definition scan_counts (buf : cstr) : Z * Z * Z :=
  let '(added, p) := atoiMult_p (drop 3 buf) in
  let '(deleted, p) := atoiMult_p (drop 1 p) in
  let '(same, _) := atoiMult_p (drop 1 p) in
  (added, deleted, same).

(** The second line: type, revision, date, user, serial and the text after it. *)
Definition scan_delta (buf : cstr) : option ((Z * cstr * cstr * cstr * Z * cstr) + unit) :=
  let sp c := c =? 32 in
  let? (rev, p) := copy_to 100 sp (drop 5 buf) in
  let? (date, p) := copy_to 9 sp (drop 1 p) in
  let? (time, p) := copy_to 9 (λ c, (c =? 32) || (c =? 46)) (drop 1 p) in
  if negb (at0 p =? 32) then Some (inr tt) else
  let? (user, p) := copy_to 100 sp (drop 1 p) in
  let '(serial, p) := atoi_p (drop 1 p) in
  Some (inl (nth 3 buf 0, rev, date ++ [32] ++ time, user, serial, p)).

(** The first entry sets the size of the table. *)
Definition first_table (serial : Z) (st : rd) : rd :=
  match rd_ents st with
  | [] => mkRd (replicate (Z.to_nat serial) null_ent) (replicate (Z.to_nat serial) []) (rd_symname st) (rd_bk st) (rd_ro st) (rd_version st)
  | _ => st
  end.

Definition set_sdate (d : nat) (date : cstr) (st : rd) : rd :=
  mkRd (rd_ents st) (match d with O => rd_dates st | S k => <[k := date]> (rd_dates st) end) (rd_symname st) (rd_bk st) (rd_ro st) (rd_version st).

(** An entry after its first line [buf]. *)
Definition entry_read (buf : cstr) (lines : list cstr) (st : rd) : option ((list cstr * rd) + unit) :=
  if negb ((at0 buf =? 1) && (nth 1 buf 0 =? 115) && (nth 2 buf 0 =? 32)) then Some (inr tt) else
  let '(added, deleted, same) := scan_counts buf in
  let? (buf, lines) := (match lines with b :: l => Some (b, l) | [] => None end) in
  if negb ((at0 buf =? 1) && (nth 1 buf 0 =? 100) && (nth 2 buf 0 =? 32)) then Some (inr tt) else
  let? r := scan_delta buf in
  match r with
  | inr _ => Some (inr tt)
  | inl (type, rev, date, user, serial, p) =>
      let st := first_table serial st in
      let d := Z.to_nat serial in
      assert! (1 <=? d)%nat && (d <=? length (rd_ents st))%nat;
      let st := on_ent d (λ e, set_e_counts added deleted same (add_flag D_INARRAY e)) st in
      let st := if type =? 82 then on_ent d (add_flag D_TAG) st else st in
      if negb (at0 p =? 32) then Some (inr tt) else
      let st := on_ent d (on_delta (set_parent (Z.to_nat (atoi (drop 1 p))))) st in
      if (3 <? strcnt rev DOT)%nat then Some (inr tt) else
      let st := on_ent d (on_delta (set_r (scan4 rev))) st in
      let st := set_sdate d date st in
      let st := on_ent d (set_e_userhost (Some user)) st in
      let? r := body PCludes d lines [] st in
      match r with
      | inr _ => Some (inr tt)
      | inl (lines, cl, st) =>
          let e := ent (rd_ents st) d in
          let st := if cset && has_flag e D_TAG && negb (has_flag e D_SYMGRAPH) && negb (has_flag e D_SYMBOLS)
                    then on_ent d (add_flag D_GONE) st else st in
          let st := if (0 <? length cl)%nat then on_ent d (on_delta (set_cludes cl)) st else st in
          Some (inl (lines, st))
      end
  end.

(** The entries, up to the line "^Au". *)
Fixpoint entries_loop (fuel : nat) (lines : list cstr) (st : rd) : option ((list cstr * rd) + unit) :=
  match lines with
  | [] => Some (inr tt)
  | buf :: lines =>
      if bool_decide (buf = 1 :: s2b "u"%string) then Some (inl (lines, st)) else
      match fuel with
      | O => None
      | S fuel =>
          let? r := entry_read buf lines st in
          match r with
          | inr _ => Some (inr tt)
          | inl (lines, st) => entries_loop fuel lines st
          end
      end
  end.

(** ** The graph *)

(** Inherited fields and dates, oldest delta first; the flag says that there are
    holes. *)
Fixpoint link_loop (n d : nat) (dates : list cstr) (t : table) (holes : bool) : option (table * bool) :=
  match n with
  | O => Some (t, holes)
  | S n =>
      if eflags (ent t d) =? 0 then link_loop n (S d) dates t true else
      let e := sccs_inherit t d in
      let sdate := nth (d - 1) dates [] in
      let? time := date2time sdate (Some (str (e_zone e))) false in
      let e := on_delta (set_date (u32 (time + e_fudge e))) e in
      let? s := delta_strftime e in
      assert! (d_date (e_delta e) =? 11399) || bool_decide (s = sdate);
      link_loop n (S d) dates (set_ent t d e) holes
  end.

(** [while (d && TAG(s, d)) d = PARENT(s, d);] *)
Fixpoint real_delta (fuel : nat) (t : table) (d : nat) : option nat :=
  if (d =? 0)%nat then Some O else
  if has_flag (ent t d) D_TAG then match fuel with O => None | S fuel => real_delta fuel t (eparent (ent t d)) end
  else Some d.

(** After the last tag whose [meta_ser] is not above [metad]. *)
Fixpoint sym_insert (y : symbol) (rsyms : list symbol) : list symbol :=
  match rsyms with
  | [] => [y]
  | x :: r => if (sym_meta x <=? sym_meta y)%nat then y :: rsyms else x :: sym_insert y r
  end.

(** [addsym] with [graph] 0, as [metaSyms] calls it. *)
Definition addsym (t : table) (symlist : list symbol) (metad : nat) (val : cstr) : option (table * list symbol) :=
  let? d := real_delta (length t) t metad in
  assert! negb (d =? 0)%nat;
  let symlist := reverse (sym_insert (mkSym val d metad) (reverse symlist)) in
  let t := set_ent t d (add_flag D_SYMBOLS (ent t d)) in
  let t := set_ent t metad (add_flag D_SYMBOLS (ent t metad)) in
  Some (t, symlist).

(** [mg_symname] from its end. *)
Fixpoint metaSyms (rsyms : list (nat * cstr)) (t : table) (symlist : list symbol) : option (table * list symbol) :=
  match rsyms with
  | [] => Some (t, symlist)
  | (d, name) :: rsyms => let? (t, symlist) := addsym t symlist d name in metaSyms rsyms t symlist
  end.

Record graph := mkGraph { g_table : table; g_symlist : list symbol; g_holes : bool; g_rd : rd; g_rest : list cstr }.

Definition rd0 : rd := mkRd [] [] [] false false 0.

(** The lines after the checksum line. *)
Definition mkgraph (lines : list cstr) : option (graph + unit) :=
  let lines := match drop 1 lines with
               | l :: r => if bool_decide (l = s2b "bk-filever-5"%string) then r else l :: r
               | [] => []
               end in
  let? r := entries_loop (length lines) lines rd0 in
  match r with
  | inr _ => Some (inr tt)
  | inl (rest, st) =>
      let? (t, holes) := link_loop (length (rd_ents st)) 1 (rd_dates st) (rd_ents st) false in
      let? (t, syms) := (if cset then metaSyms (reverse (rd_symname st)) t [] else Some (t, [])) in
      Some (inl (mkGraph t syms holes st rest))
  end.

End Reader.
