(* ===== verification/TableOk.v ===== *)
(** * TableOk: the delta table survives writing and reading

    What [delta_table] (Table.v) writes for a well-formed table is read back by
    [mkgraph] (TableRead.v) as the same table.  The entries are followed line by
    line, then the inherited fields, the dates and the tags are restored. *)

From S2P Require Import Prelude CStr Sccs Rev Date WebEncode Table TableRead.
From stdpp Require Import base numbers list strings.
From Stdlib Require Import ZArith Lia.

Local Open Scope Z_scope.

Local Open Scope bk_scope.

Local Arguments printf_u : simpl never.
Local Arguments fmtd : simpl never.
Local Arguments pad5 : simpl never.
Local Arguments printf_x : simpl never.
Local Arguments atoi : simpl never.
Local Arguments atoi_p : simpl never.
Local Arguments strtol0 : simpl never.
Local Arguments mode2a : simpl never.

(** ** Tables *)

Definition in_table (t : table) (d : nat) : Prop := (1 <= d <= length t)%nat.

Lemma ent_set_eq t d e : in_table t d → ent (set_ent t d e) d = e.
Proof. intros [Hd Hl]. destruct d as [|k]; [lia|]. cbn. apply nth_lookup_Some, list_lookup_insert_eq. lia. Qed.

Lemma ent_set_ne t d j e : j ≠ d → ent (set_ent t d e) j = ent t j.
Proof.
  intros Hj. destruct d as [|k]; [done|]. destruct j as [|j]; [done|]. cbn.
  rewrite !nth_lookup. rewrite list_lookup_insert_ne by lia. done.
Qed.

Lemma set_set t d e e' : set_ent (set_ent t d e) d e' = set_ent t d e'.
Proof. destruct d as [|k]; [done|]. cbn. apply list_insert_insert_eq. Qed.

Lemma set_ent_length t d e : length (set_ent t d e) = length t.
Proof. destruct d as [|k]; [done|]. cbn. apply length_insert. Qed.

Lemma table_eq (t t' : table) : length t = length t' → (∀ d, in_table t d → ent t d = ent t' d) → t = t'.
Proof.
  intros Hl He. apply list_eq_same_length with (length t'); [done|done|]. intros i x y Hi Hx Hy.
  specialize (He (S i)). cbn in He. rewrite (nth_lookup_Some _ _ _ _ Hx), (nth_lookup_Some _ _ _ _ Hy) in He.
  apply He. split; [lia|]. lia.
Qed.

(** ** The state while entry [d] is read *)

Definition at_ent (T : table) (D : list cstr) (d : nat) (e : entry) (Y : list (nat * cstr)) (b : bool) (v : Z) : rd :=
  mkRd (set_ent T d e) D Y b false v.

Lemma ent_at T D d e Y b v : in_table T d → ent (rd_ents (at_ent T D d e Y b v)) d = e.
Proof. intros Hd. by apply ent_set_eq. Qed.

Lemma on_ent_at f T D d e Y b v : in_table T d → on_ent d f (at_ent T D d e Y b v) = at_ent T D d (f e) Y b v.
Proof. intros Hd. unfold on_ent, at_ent. cbn. by rewrite ent_set_eq, set_set. Qed.

(** A tag delta whose mark for metadata is set already. *)
Definition touched (e : entry) : Prop := has_flag e D_TAG = false ∨ has_flag e D_META = true.

Lemma lor_absorb a b : Z.land a b = b → Z.lor a b = a.
Proof.
  intros H. rewrite <- H. apply Z.bits_inj'. intros n Hn. rewrite Z.lor_spec, Z.land_spec. by destruct (Z.testbit a n), (Z.testbit b n).
Qed.

Lemma has_flag_META e : has_flag e D_META = true → add_flag D_META e = e.
Proof.
  unfold has_flag, add_flag, on_delta, eflags. intros H. apply negb_true_iff, Z.eqb_neq in H.
  assert (E : Z.land (d_flags (e_delta e)) D_META = D_META).
  { assert (Hb : Z.testbit (d_flags (e_delta e)) 4 = true).
    { destruct (Z.testbit (d_flags (e_delta e)) 4) eqn:Eb; [done|]. exfalso. apply H. apply Z.bits_inj'. intros n Hn.
      rewrite Z.land_spec, Z.bits_0. change D_META with (2 ^ 4). rewrite Z.pow2_bits_eqb by lia.
      destruct (Z.eqb_spec 4 n) as [<-|]; [by rewrite Eb|by rewrite andb_false_r]. }
    apply Z.bits_inj'. intros n Hn. rewrite Z.land_spec. change D_META with (2 ^ 4). rewrite Z.pow2_bits_eqb by lia.
    destruct (Z.eqb_spec 4 n) as [<-|]; [by rewrite Hb|by rewrite andb_false_r]. }
  rewrite lor_absorb by done. by destruct e as [[]].
Qed.

(** What [meta] does before it looks at the line. *)
Definition touch (e : entry) : entry := if has_flag e D_TAG then add_flag D_META e else e.

Lemma touch_id e : touched e → touch e = e.
Proof. unfold touch. intros [-> | H]; [done|]. destruct (has_flag e D_TAG); [by apply has_flag_META|done]. Qed.

(** ** Numbers and modes *)

Lemma strchr_none s c : c ∉ s → strchr s c = None.
Proof.
  induction s as [|x s IH]; intros Hs; [done|]. apply not_elem_of_cons in Hs as [Hx Hs]. cbn.
  rewrite (proj2 (Z.eqb_neq x c)) by done. by apply IH.
Qed.

Lemma strchr_at s c r : c ∉ s → strchr (s ++ c :: r) c = Some (c :: r).
Proof.
  induction s as [|x s IH]; intros Hs; cbn; [by rewrite Z.eqb_refl|]. apply not_elem_of_cons in Hs as [Hx Hs].
  rewrite (proj2 (Z.eqb_neq x c)) by done. by apply IH.
Qed.

Lemma printf_u_digit n : 0 <= n → isdigit (at0 (printf_u n)) = true.
Proof.
  intros Hn. pose proof (dec_digits_digit 20 n Hn) as Hf. pose proof (dec_digits_ne 19 n) as Hne. unfold printf_u.
  destruct (dec_digits 20 n) as [|c l]; [done|]. apply Forall_inv in Hf. unfold digit in Hf. unfold isdigit. cbn.
  rewrite (proj2 (Z.leb_le 48 c)), (proj2 (Z.leb_le c 57)) by lia. done.
Qed.

Lemma fmtd_small n : 0 <= n < 2 ^ 31 → fmtd n = printf_u n.
Proof.
  intros Hn. unfold fmtd. rewrite (proj2 (Z.ltb_lt _ _)) by lia. unfold printf_d. by rewrite (proj2 (Z.ltb_ge _ _)) by lia.
Qed.

Lemma atoi_fmtd n rest : 0 <= n < 2 ^ 31 → nondigit_head rest → atoi (fmtd n ++ rest) = n ∧ atoi_p (fmtd n ++ rest) = (n, rest).
Proof. intros Hn Hr. rewrite fmtd_small by done. rewrite atoi_printf, atoi_p_printf by (done || lia). done. Qed.

Lemma hexval_digit x : 0 <= x < 16 → hexval (if x <? 10 then 48 + x else 87 + x) = Some x.
Proof. exact (hexdigit_val x). Qed.

Lemma num_loop_hex fuel : ∀ n rest, 0 <= n < 16 ^ Z.of_nat fuel → (0 < fuel)%nat →
  num_loop 16 (hex_digits fuel n ++ rest) 0 = num_loop 16 rest n.
Proof.
  induction fuel as [|fuel IH]; intros n rest Hn Hf; [lia|]. cbn [hex_digits]. destruct (Z.ltb_spec n 16) as [Hs|Hl].
  - cbn [app num_loop]. rewrite hexval_digit by lia. by rewrite (proj2 (Z.ltb_lt n 16)).
  - rewrite Nat2Z.inj_succ, Z.pow_succ_r in Hn by lia. assert (Hq : 0 <= n / 16 < 16 ^ Z.of_nat fuel).
    { split; [apply Z.div_pos; lia|apply Z.div_lt_upper_bound; lia]. }
    destruct fuel as [|fuel]; [cbn in Hq; assert (1 <= n / 16) by (apply Z.div_le_lower_bound; lia); lia|].
    rewrite <- app_assoc, IH by (done || lia). cbn [app num_loop]. pose proof (Z.mod_pos_bound n 16 ltac:(lia)).
    rewrite hexval_digit by lia. rewrite (proj2 (Z.ltb_lt (n mod 16) 16)) by lia. f_equal. pose proof (Z.div_mod n 16 ltac:(lia)). lia.
Qed.

Lemma strtol0_hex n : 0 <= n < 2 ^ 32 → strtol0 (48 :: 120 :: printf_x n) = n.
Proof.
  intros Hn. assert (Hh : ∃ x l, hexval (at0 (printf_x n)) = Some x ∧ printf_x n = at0 (printf_x n) :: l).
  { unfold printf_x. change 16%nat with (S 15). generalize 15%nat. intros k. revert n Hn. induction k as [|k IH]; intros n Hn; cbn [hex_digits].
    - destruct (Z.ltb_spec n 16); [|pose proof (Z.mod_pos_bound n 16 ltac:(lia))];
        cbn [app at0 hd hex_digits]; rewrite hexval_digit by lia; eauto.
    - destruct (Z.ltb_spec n 16) as [|Hl]; [cbn [at0 hd]; rewrite hexval_digit by lia; eauto|].
      destruct (IH (n / 16)) as (x & l & Hx & E).
      { split; [apply Z.div_pos; lia|]. apply Z.div_lt_upper_bound; lia. }
      cbn [hex_digits] in E, Hx. rewrite E. cbn [app at0 hd]. cbn [at0 hd] in Hx. rewrite E in Hx. cbn [at0 hd] in Hx. eauto. }
  destruct Hh as (x & l & Hx & E). unfold strtol0. cbn [skip_space isspace]. change (isspace 48) with false. cbn.
  assert (E2 : nth 0 (printf_x n) 0 = at0 (printf_x n)) by (by rewrite E). rewrite E2, Hx. cbn [andb]. rewrite drop_0.
  rewrite <- (app_nil_r (printf_x n)). unfold printf_x. rewrite num_loop_hex; [|split; [lia|]|lia].
  - cbn [num_loop]. destruct n; reflexivity.
  - eapply Z.lt_le_trans; [apply Hn|]. by vm_compute.
Qed.

Definition mode_ok (m : Z) : bool :=
  (0 <=? m) && (m <? 65536) && (isfmt m S_IFLNK || isfmt m S_IFDIR || isfmt m S_IFREG) && bit m 0x100 && bit m 0x80 && negb (bit m 0x200).

(** [P] for the numbers with [k] more bits than [m]. *)
Fixpoint all_bits (k : nat) (m : Z) (P : Z → bool) : bool :=
  match k with O => P m | S k => all_bits k (2 * m) P && all_bits k (2 * m + 1) P end.

Lemma all_bits_spec k : ∀ m P x, all_bits k m P = true → m * 2 ^ Z.of_nat k <= x < (m + 1) * 2 ^ Z.of_nat k → P x = true.
Proof.
  induction k as [|k IH]; intros m P x HP Hx; cbn [all_bits] in HP.
  - rewrite Z.pow_0_r in Hx. by replace x with m by lia.
  - apply andb_prop in HP as [H0 H1]. rewrite Nat2Z.inj_succ, Z.pow_succ_r in Hx by lia.
    destruct (Z.lt_ge_cases x ((2 * m + 1) * 2 ^ Z.of_nat k)); [apply (IH (2 * m))|apply (IH (2 * m + 1))]; done || lia.
Qed.

Lemma mode_check : all_bits 16 0 (λ m,
  if mode_ok m then (bool_decide (a2mode (mode2a m) = Some m) && (fixModes m =? m) && (length (mode2a m) =? 10)%nat &&
    negb (isdigit (at0 (mode2a m))) && negb (memchr 32 (mode2a m))) else true) = true.
Proof. vm_compute. reflexivity. Qed.

Lemma mode2a_ok m r : mode_ok m = true → getMode (mode2a m ++ r) = Some m ∧ strchr (mode2a m ++ 32 :: r) 32 = Some (32 :: r).
Proof.
  intros Hm. assert (Hr : 0 <= m < 65536) by (unfold mode_ok in Hm; boolify; lia).
  pose proof (all_bits_spec 16 0 _ m mode_check ltac:(change (2 ^ Z.of_nat 16) with 65536; lia)) as Hc. cbv beta in Hc. rewrite Hm in Hc.
  rewrite !andb_true_iff, bool_decide_eq_true, Z.eqb_eq, Nat.eqb_eq, !negb_true_iff in Hc. destruct Hc as ((((Ha & Hf) & Hl) & Hi) & Hsp).
  assert (Hn : ∀ i, (i < 10)%nat → nth i (mode2a m ++ r) 0 = nth i (mode2a m) 0) by (intros i Hi'; apply app_nth1; lia).
  split.
  - unfold getMode. assert (Eat : at0 (mode2a m ++ r) = at0 (mode2a m)) by (by destruct (mode2a m)). rewrite Eat, Hi.
    assert (E : a2mode (mode2a m ++ r) = a2mode (mode2a m)).
    { unfold a2mode. rewrite !Hn by lia. rewrite length_app, Hl. done. }
    by rewrite E, Ha, Hf.
  - apply strchr_at. intros Hin. unfold memchr in Hsp. assert (Ht : existsb (Z.eqb 32) (mode2a m) = true); [|congruence].
    apply existsb_exists. exists 32. split; [by apply list_elem_of_In|done].
Qed.

Section Lines.

Context (cset : bool) (T : table) (D : list cstr) (d : nat) (Hd : in_table T d).

(** A line that changes the entry only. *)
Definition line_does (L : cstr) (e e' : entry) : Prop :=
  ∀ Y b v, meta cset d L (at_ent T D d e Y b v) = Some (at_ent T D d e' Y true v).

Lemma meta_touch e Y b v : touched e →
  (if has_flag (ent (rd_ents (at_ent T D d e Y b v)) d) D_TAG then on_ent d (add_flag D_META) (at_ent T D d e Y b v) else at_ent T D d e Y b v) =
  at_ent T D d e Y b v.
Proof.
  intros Ht. rewrite ent_at by done. destruct (has_flag e D_TAG) eqn:E; [|done]. rewrite on_ent_at by done.
  f_equal. destruct Ht as [Ht|Ht]; [congruence|]. by apply has_flag_META.
Qed.

Ltac meta_line :=
  intros ? ? ?; unfold meta; rewrite meta_touch by done; cbn [nth drop]; rewrite ?drop_0, ?ent_at, ?on_ent_at by done; cbn.

Lemma line_A a e : touched e → line_does (1 :: 99 :: 65 :: a) e (set_e_bamhash (Some a) e).
Proof. intros Ht. by meta_line. Qed.

Lemma line_B a e : touched e → a ≠ [] → line_does (1 :: 99 :: 66 :: a) e (set_e_csetfile (Some a) e).
Proof. intros Ht Ha. meta_line. unfold csetFileArg. by destruct a. Qed.

Lemma line_C e : touched e → line_does [1; 99; 67] e (add_flag D_CSET e).
Proof. intros Ht. by meta_line. Qed.

Lemma line_D e : touched e → line_does [1; 99; 68] e (add_flag D_DANGLING e).
Proof. intros Ht. by meta_line. Qed.

Lemma line_R a e : touched e → line_does (1 :: 99 :: 82 :: a) e (set_e_random (Some a) e).
Proof. intros Ht. by meta_line. Qed.

Lemma line_F n e : touched e → 0 <= n < 2 ^ 31 → line_does (1 :: 99 :: 70 :: printf_u n) e (set_e_fudge n e).
Proof.
  intros Ht Hn. meta_line. rewrite <- (app_nil_r (printf_u n)). by rewrite atoi_printf.
Qed.

Lemma line_H h u e : touched e → h ≠ [] → e_userhost e = Some u → strchr u 64 = None → (length u + length h < 2047)%nat →
  line_does (1 :: 99 :: 72 :: h) e (set_e_userhost (Some (u ++ 64 :: h)) e).
Proof.
  intros Ht Hh Hu Hat Hl. meta_line. unfold hostArg, fulluser. rewrite Hu. cbn [str default]. unfold str. cbn [default].
  unfold id. rewrite Hat. destruct h as [|c h]; [done|]. cbn [length Nat.eqb negb].
  rewrite (proj2 (Nat.ltb_lt _ _)) by (rewrite length_app; cbn [length app] in *; lia). cbn [lift]. by rewrite on_ent_at by done.
Qed.

Lemma line_M n e : touched e → 0 <= n < 2 ^ 31 → d_merge (e_delta e) = 0%nat →
  line_does (1 :: 99 :: 77 :: fmtd n) e (on_delta (set_merge (Z.to_nat n)) e).
Proof.
  intros Ht Hn Hm. meta_line. unfold mergeArg. rewrite Hm. rewrite fmtd_small, printf_u_digit by lia. cbn [Nat.eqb andb].
  rewrite <- (app_nil_r (printf_u n)), atoi_printf by (done || lia). cbn [lift]. by rewrite on_ent_at by done.
Qed.

Lemma line_P p q e : touched e → p ≠ [] → 124 ∉ p → (length p + length q < 2047)%nat →
  line_does (1 :: 99 :: 80 :: p ++ (if negb (bool_decide (p = q)) then 124 :: q else [])) e (set_e_sortpath (Some q) (set_e_path (Some p) e)).
Proof.
  intros Ht Hp Hb Hl. meta_line. unfold pathArg. destruct (Nat.eqb_spec (length (p ++ if negb (bool_decide (p = q)) then 124 :: q else [])) 0) as [E|_].
  { rewrite length_app in E. destruct p; [done|]. cbn in E. lia. }
  case_bool_decide as Hpq; cbn [negb].
  - subst q. rewrite app_nil_r. rewrite (proj2 (Nat.ltb_lt _ _)) by lia. rewrite strchr_none by done. cbn [lift]. by rewrite on_ent_at by done.
  - rewrite (proj2 (Nat.ltb_lt _ _)) by (rewrite length_app; cbn [length]; lia). rewrite strchr_at by done. cbn [lift drop].
    rewrite drop_0, length_app. cbn [length]. rewrite take_app_length' by lia. by rewrite on_ent_at by done.
Qed.

Definition pad5_ok (n : Z) : Prop := 0 <= n < 2 ^ 32.

Lemma atoi_loop_zeros k v s : v = 0 → atoi_loop v (replicate k 48 ++ s) = atoi_loop 0 s.
Proof. intros ->. induction k as [|k IH]; [done|]. exact IH. Qed.

Lemma atoi_pad5 n rest : pad5_ok n → nondigit_head rest → atoi_p (pad5 n ++ rest) = (int32 n, rest).
Proof.
  intros Hn Hr. unfold pad5, atoi_p. rewrite <- app_assoc, atoi_loop_zeros by done. apply atoi_p_printf_wrap; [unfold pad5_ok in Hn; lia|done].
Qed.

Lemma line_K a b e : touched e → pad5_ok a → pad5_ok b →
  line_does (1 :: 99 :: 75 :: pad5 a ++ (if a =? b then [] else 124 :: pad5 b)) e (set_e_sortsum b (set_e_sum a e)).
Proof.
  intros Ht Ha Hb. meta_line. unfold sumArg. destruct (Z.eqb_spec a b) as [->|Hab].
  - rewrite atoi_pad5 by done. cbn. by rewrite u32_int32, u32_small.
  - rewrite atoi_pad5 by done. cbn [at0 hd drop]. change (124 =? 124) with true. cbn. rewrite drop_0.
    rewrite <- (app_nil_r (pad5 b)). unfold atoi. fold (atoi_p (pad5 b ++ [])). rewrite atoi_pad5 by done. cbn [fst]. by rewrite !u32_int32, !u32_small.
Qed.

Lemma line_V Y b v e : touched e → meta cset d (1 :: 99 :: 86 :: printf_u SCCS_VERSION) (at_ent T D d e Y b v) = Some (at_ent T D d e Y true SCCS_VERSION).
Proof. intros Ht. unfold meta. rewrite meta_touch by done. done. Qed.

Lemma line_Z s z e : touched e → s = 43 ∨ s = 45 → line_does (1 :: 99 :: 90 :: s :: z) e (set_e_zone (Some (s :: z)) e).
Proof.
  intros Ht Hs. meta_line. unfold zoneArg. cbn [at0 hd]. destruct Hs as [-> | ->]; cbn; by rewrite on_ent_at by done.
Qed.

Lemma line_X x e : touched e → 0 <= x < 2 ^ 32 → Z.land x X_SINGLE = 0 →
  line_does (1 :: 99 :: 88 :: 48 :: 120 :: printf_x x) e (set_e_xflags x e).
Proof.
  intros Ht Hx Hs. meta_line. rewrite strtol0_hex by done. unfold u32. rewrite Z.mod_small by done.
  assert (E : Z.land x (Z.lnot X_SINGLE) = x); [|by rewrite E]. apply Z.bits_inj'. intros n Hn. rewrite Z.land_spec, Z.lnot_spec by lia.
  assert (Eb : Z.testbit (Z.land x X_SINGLE) n = false) by (rewrite Hs; apply Z.bits_0). rewrite Z.land_spec in Eb.
  by destruct (Z.testbit x n), (Z.testbit X_SINGLE n).
Qed.

Lemma line_O m e : touched e → mode_ok m = true → isfmt m S_IFLNK = false → line_does (1 :: 99 :: 79 :: mode2a m) e (set_e_mode m e).
Proof.
  intros Ht Hm Hl. meta_line. unfold modeArg. destruct (mode2a_ok m [] Hm) as [Hg _]. rewrite app_nil_r in Hg. rewrite Hg, Hl.
  destruct (Z.eqb_spec m 0) as [->|]; [done|]. cbn [lift]. by rewrite on_ent_at by done.
Qed.

Lemma line_O_link m l e : touched e → mode_ok m = true → isfmt m S_IFLNK = true →
  line_does (1 :: 99 :: 79 :: mode2a m ++ 32 :: l) e (set_e_mode m (set_e_symlink (Some l) e)).
Proof.
  intros Ht Hm Hl. meta_line. unfold modeArg. destruct (mode2a_ok m (32 :: l) Hm) as [Hg _]. destruct (mode2a_ok m l Hm) as [_ Hs].
  rewrite Hg, Hl, Hs. destruct (Z.eqb_spec m 0) as [->|]; [done|]. cbn [lift drop]. rewrite drop_0. by rewrite on_ent_at by done.
Qed.

Lemma line_S name Y b v e : touched e → cset = true → isdigit (at0 name) = false →
  meta cset d (1 :: 99 :: 83 :: name) (at_ent T D d e Y b v) = Some (at_ent T D d (add_flag D_SYMBOLS e) (Y ++ [(d, name)]) true v).
Proof.
  intros Ht Hc Hn. unfold meta. rewrite meta_touch by done. cbn [nth drop]. rewrite drop_0. cbn. unfold symArg. rewrite Hc, Hn. cbn [negb].
  change (mkRd (rd_ents (at_ent T D d e Y b v)) (rd_dates (at_ent T D d e Y b v)) _ _ _ _) with (at_ent T D d e (Y ++ [(d, name)]) b v).
  by rewrite on_ent_at by done.
Qed.

(** The tag graph. *)
Definition symgraph_text (p m : nat) (leaf : bool) : cstr :=
  (if negb (p =? 0)%nat then fmtd (Z.of_nat p) ++ (if negb (m =? 0)%nat then 32 :: fmtd (Z.of_nat m) else []) else fmtd 0) ++
  (if leaf then [32; 108] else []).

Lemma line_Sg (p m : nat) (leaf : bool) e : touched e → cset = true → Z.of_nat p < 2 ^ 31 → Z.of_nat m < 2 ^ 31 → (p = 0 → m = 0)%nat →
  d_mtag (e_delta e) = 0%nat →
  line_does (1 :: 99 :: 83 :: symgraph_text p m leaf) e
    (let e := on_delta (set_mtag m) (on_delta (set_ptag p) (add_flag D_SYMGRAPH e)) in if leaf then add_flag D_SYMLEAF e else e).
Proof.
  intros Ht Hc Hp Hm Hpm Hm0. meta_line. unfold symArg. rewrite Hc. cbn [negb].
  assert (Hdig : isdigit (at0 (symgraph_text p m leaf)) = true).
  { unfold symgraph_text. pose proof (fmtd_small (Z.of_nat p) ltac:(lia)) as Ef. pose proof (printf_u_digit (Z.of_nat p) ltac:(lia)) as Hdp.
    destruct (negb (p =? 0)%nat); [|done]. rewrite Ef. pose proof (dec_digits_ne 19 (Z.of_nat p)) as Hne. unfold printf_u in *.
    destruct (dec_digits 20 (Z.of_nat p)); [done|exact Hdp]. }
  rewrite Hdig, ent_at by done.
  assert (Eg : symgraphArg (symgraph_text p m leaf) e =
    Some (let e := on_delta (set_mtag m) (on_delta (set_ptag p) (add_flag D_SYMGRAPH e)) in if leaf then add_flag D_SYMLEAF e else e)).
  { unfold symgraphArg, symgraph_text. assert (Hmt : ∀ f g, set_mtag 0 (set_ptag f (set_flags g (e_delta e))) = set_ptag f (set_flags g (e_delta e))).
    { intros f g. destruct e as [[]]. cbn in *. by subst. }
    assert (Hnm : ∀ x, on_delta (set_mtag 0) (on_delta (set_ptag x) (add_flag D_SYMGRAPH e)) = on_delta (set_ptag x) (add_flag D_SYMGRAPH e)).
    { intros x. unfold add_flag, on_delta. cbn. by rewrite Hmt. }
    destruct (Nat.eqb_spec p 0) as [->|Hp0]; cbn [negb].
    - rewrite Hpm by done. destruct leaf; [|rewrite app_nil_r].
      + destruct (atoi_fmtd 0 [32; 108] ltac:(lia) ltac:(done)) as [_ ->]. cbn. by rewrite Hnm.
      + destruct (atoi_fmtd 0 [] ltac:(lia) ltac:(done)) as [_ E0]. rewrite app_nil_r in E0. rewrite E0. cbn. by rewrite Hnm.
    - destruct (Nat.eqb_spec m 0) as [->|Hm0']; cbn [negb]; rewrite ?app_nil_r.
      + destruct leaf; rewrite ?app_nil_r.
        * destruct (atoi_fmtd (Z.of_nat p) [32; 108] ltac:(lia) ltac:(done)) as [_ ->]. cbn. by rewrite Nat2Z.id, Hnm.
        * destruct (atoi_fmtd (Z.of_nat p) [] ltac:(lia) ltac:(done)) as [_ E0]. rewrite app_nil_r in E0. rewrite E0. cbn. by rewrite Nat2Z.id, Hnm.
      + rewrite <- app_assoc. cbn [app].
        destruct (atoi_fmtd (Z.of_nat p) (32 :: fmtd (Z.of_nat m) ++ (if leaf then [32; 108] else [])) ltac:(lia) ltac:(done)) as [_ ->].
        cbn [at0 hd drop]. change (32 =? 32) with true. cbn [negb]. rewrite drop_0.
        pose proof (fmtd_small (Z.of_nat m) ltac:(lia)) as Ef. pose proof (printf_u_digit (Z.of_nat m) ltac:(lia)) as Hdm.
        assert (Hd2 : isdigit (at0 (fmtd (Z.of_nat m) ++ (if leaf then [32; 108] else []))) = true).
        { rewrite Ef. pose proof (dec_digits_ne 19 (Z.of_nat m)) as Hne. unfold printf_u in *. destruct (dec_digits 20 (Z.of_nat m)); [done|exact Hdm]. }
        rewrite Hd2. destruct (atoi_fmtd (Z.of_nat m) (if leaf then [32; 108] else []) ltac:(lia) ltac:(by destruct leaf)) as [_ ->].
        rewrite !Nat2Z.id. by destruct leaf. }
  rewrite Eg. by rewrite on_ent_at by done.
Qed.

End Lines.

(** ** Well-formed tables *)

(** The flags an entry of a file may have. *)
Definition mkflags (tag cs dang sym graph leaf : bool) : Z :=
  let f := Z.lor 0 D_INARRAY in
  let f := if tag then Z.lor f D_TAG else f in
  let f := if tag then Z.lor f D_META else f in
  let f := if cs then Z.lor f D_CSET else f in
  let f := if dang then Z.lor f D_DANGLING else f in
  let f := if sym then Z.lor f D_SYMBOLS else f in
  let f := if graph then Z.lor f D_SYMGRAPH else f in
  if leaf then Z.lor f D_SYMLEAF else f.

Definition u31 (z : Z) : Prop := 0 <= z < 2 ^ 31.

(** A field that is inherited: set when the parent's is. *)
Definition closed (parent : nat) (x px : option cstr) : Prop := parent ≠ 0%nat → is_Some px → is_Some x.

Definition short (o : option cstr) : Prop := (length (str o) <= 1000)%nat.

(** A time zone with a sign, hours and minutes: its text and the seconds to add to
    get the local time. *)
Definition zone_is (z : option cstr) (off : Z) : Prop :=
  z = None ∧ off = 0 ∨
  ∃ s h m, z = Some (s :: X h ++ 58 :: X m) ∧ 0 <= h < 100 ∧ 0 <= m < 100 ∧
    (s = 43 ∧ off = 3600 * h + 60 * m ∨ s = 45 ∧ off = - (3600 * h + 60 * m)).

(** The comment: lines that end in a newline. *)
Definition comment_is (c : option cstr) (ls : list cstr) : Prop :=
  Forall (λ l, (10 ∉ l) ∧ last l ≠ Some 13) ls ∧
  c = match ls with [] => None | _ => Some (concat (map (λ l, l ++ [10]) ls)) end.

Definition clude_is (c : cstr) (incs excs : list Z) : Prop :=
  Forall (λ n, 0 < n < 2 ^ 31) (incs ++ excs) ∧ c = saveNums (map (λ n, (n, 1)) incs ++ map (λ n, (n, -1)) excs).

(** User and host. *)
Definition host_is (u : option cstr) (user : cstr) (host : option cstr) : Prop :=
  u = Some (user ++ match host with Some h => 64 :: h | None => [] end) ∧
  (64 ∉ user) ∧ (32 ∉ user) ∧ (length user < 100)%nat ∧ match host with Some h => h ≠ [] ∧ (length h <= 1000)%nat | None => True end.

Definition path_is (e : entry) : Prop :=
  e_path e = None ∧ e_sortpath e = None ∨
  ∃ p q, e_path e = Some p ∧ e_sortpath e = Some q ∧ p ≠ [] ∧ (124 ∉ p) ∧ (length p <= 1000)%nat ∧ (length q <= 1000)%nat.

Definition mode_is (e : entry) : Prop :=
  e_mode e = 0 ∧ e_symlink e = None ∨
  mode_ok (e_mode e) = true ∧ short (e_symlink e) ∧ (isfmt (e_mode e) S_IFLNK = true ↔ is_Some (e_symlink e)).

Record wf_entry (cset : bool) (t : table) (own : bool) (d : nat) : Prop := {
  we_parent : (eparent (ent t d) < d)%nat;
  we_flags : let e := ent t d in
    eflags e = mkflags (has_flag e D_TAG) (has_flag e D_CSET) (has_flag e D_DANGLING) (has_flag e D_SYMBOLS)
                       (has_flag e D_SYMGRAPH) (has_flag e D_SYMLEAF);
  we_tag : has_flag (ent t d) D_TAG = true → cset = true ∧ has_flag (ent t d) D_CSET = false ∧
    (own = true ∨ has_flag (ent t d) D_SYMGRAPH = true) ∧ e_sum (ent t d) = 0 ∧ e_sortsum (ent t d) = 0;
  we_graph : let e := ent t d in
    if has_flag e D_SYMGRAPH
    then cset = true ∧ u31 (Z.of_nat (d_ptag (e_delta e))) ∧ u31 (Z.of_nat (d_mtag (e_delta e))) ∧
         (d_ptag (e_delta e) = 0 → d_mtag (e_delta e) = 0)%nat
    else has_flag e D_SYMLEAF = false ∧ d_ptag (e_delta e) = 0%nat ∧ d_mtag (e_delta e) = 0%nat;
  we_order : eparent (ent t d) ≠ 0%nat → d_date (e_delta (ent t (eparent (ent t d)))) < d_date (e_delta (ent t d));
  we_date : ∃ off, zone_is (e_zone (ent t d)) off ∧ 0 <= d_date (e_delta (ent t d)) < 2 ^ 32 ∧ u31 (e_fudge (ent t d)) ∧
    0 <= d_date (e_delta (ent t d)) - e_fudge (ent t d) + off < END;
  we_rev : wf_rev (d_r (e_delta (ent t d)));
  we_merge : u31 (Z.of_nat (d_merge (e_delta (ent t d))));
  we_cludes : ∃ incs excs, clude_is (d_cludes (e_delta (ent t d))) incs excs;
  we_comments : ∃ ls, comment_is (e_comments (ent t d)) ls;
  we_counts : u31 (e_added (ent t d)) ∧ u31 (e_deleted (ent t d)) ∧ u31 (e_same (ent t d));
  we_sum : pad5_ok (e_sum (ent t d)) ∧ pad5_ok (e_sortsum (ent t d));
  we_host : ∃ user host, host_is (e_userhost (ent t d)) user host;
  we_host_closed : eparent (ent t d) ≠ 0%nat → 64 ∈ str (e_userhost (ent t (eparent (ent t d)))) → 64 ∈ str (e_userhost (ent t d));
  we_path : path_is (ent t d) ∧ closed (eparent (ent t d)) (e_path (ent t d)) (e_path (ent t (eparent (ent t d))));
  we_mode : mode_is (ent t d);
  we_mode_closed : eparent (ent t d) ≠ 0%nat → let e := ent t d in let p := ent t (eparent e) in
    (e_mode e = 0 → e_mode p = 0) ∧
    (isfmt (e_mode e) S_IFLNK = true → isfmt (e_mode p) S_IFLNK = true → e_symlink e = e_symlink p → e_mode e = e_mode p);
  we_xflags : 0 < e_xflags (ent t d) < 2 ^ 32 ∧ Z.land (e_xflags (ent t d)) X_SINGLE = 0;
  we_zone : closed (eparent (ent t d)) (e_zone (ent t d)) (e_zone (ent t (eparent (ent t d))));
  we_csetfile : e_csetfile (ent t d) ≠ Some [] ∧ short (e_csetfile (ent t d)) ∧
    closed (eparent (ent t d)) (e_csetfile (ent t d)) (e_csetfile (ent t (eparent (ent t d))));
  we_bamhash : short (e_bamhash (ent t d)) ∧ (cset = true → e_bamhash (ent t d) = None);
  we_random : short (e_random (ent t d))
}.

(** ** Running the lines of an entry *)

Definition meta_like (L : cstr) : Prop := ∃ x a, L = 1 :: 99 :: x :: a ∧ x ≠ 32 ∧ x ≠ 95.

Fixpoint run_meta (cset : bool) (d : nat) (ls : list cstr) (st : rd) : option rd :=
  match ls with
  | [] => Some st
  | L :: ls => let? st := meta cset d L st in run_meta cset d ls st
  end.

Lemma run_meta_app cset d a : ∀ b st, run_meta cset d (a ++ b) st = let? st := run_meta cset d a st in run_meta cset d b st.
Proof. induction a as [|L a IH]; intros b st; cbn [app run_meta]; [done|]. by destruct (meta cset d L st). Qed.

Lemma body_meta cset ph d ls rest cl st : Forall meta_like ls →
  body cset ph d (ls ++ (1 :: s2b "e"%string) :: rest) cl st = let? st := run_meta cset d ls st in Some (inl (rest, cl, st)).
Proof.
  intros Hls. revert ph st. induction Hls as [|L ls (x & a & -> & Hx1 & Hx2) Hls IH]; intros ph st.
  - by destruct ph.
  - cbn [app run_meta].
    assert (E : body cset ph d ((1 :: 99 :: x :: a) :: ls ++ (1 :: s2b "e"%string) :: rest) cl st =
      let? st := meta cset d (1 :: 99 :: x :: a) st in body cset PMeta d (ls ++ (1 :: s2b "e"%string) :: rest) cl st).
    { cbn [body]. change (nth 1 (1 :: 99 :: x :: a) 0) with 99. change (nth 2 (1 :: 99 :: x :: a) 0) with x.
      rewrite (proj2 (Z.eqb_neq x 32)), (proj2 (Z.eqb_neq x 95)) by done. by destruct ph. }
    rewrite E. destruct (meta cset d (1 :: 99 :: x :: a) st) as [st'|]; [|done]. apply IH.
Qed.

Lemma touched_mkflags e tag cs dang sym graph leaf : eflags e = mkflags tag cs dang sym graph leaf → touched e.
Proof.
  intros E. unfold touched, has_flag. rewrite E. destruct tag; [right|left]; destruct cs, dang, sym, graph, leaf; reflexivity.
Qed.

Section Steps.

Context (cset : bool) (T : table) (D : list cstr) (d : nat) (Hd : in_table T d).

(** An optional line: with it or without it. *)
Lemma run_opt c L e e' Y b v :
  (c = true → line_does cset T D d L e e') → (c = false → e' = e) →
  run_meta cset d (opt c L) (at_ent T D d e Y b v) = Some (at_ent T D d e' Y (b || c) v).
Proof.
  intros H1 H0. destruct c; cbn [opt run_meta].
  - rewrite H1 by done. by rewrite orb_true_r.
  - by rewrite H0, orb_false_r.
Qed.

Ltac run_line :=
  apply run_opt; [intros ->|intros ->; by match goal with e : entry |- _ => destruct e as [[]] end].

Lemma run_A c a e Y b v : touched e → a = str (Some a) →
  run_meta cset d (opt c (1 :: 99 :: 65 :: a)) (at_ent T D d e Y b v) =
  Some (at_ent T D d (set_e_bamhash (if c then Some a else e_bamhash e) e) Y (b || c) v).
Proof. intros Ht _. run_line. by apply line_A. Qed.

Lemma run_B c a e Y b v : touched e → (c = true → a ≠ []) →
  run_meta cset d (opt c (1 :: 99 :: 66 :: a)) (at_ent T D d e Y b v) =
  Some (at_ent T D d (set_e_csetfile (if c then Some a else e_csetfile e) e) Y (b || c) v).
Proof. intros Ht Ha. run_line. apply line_B; auto. Qed.

Lemma run_C c e Y b v : touched e →
  run_meta cset d (opt c [1; 99; 67]) (at_ent T D d e Y b v) =
  Some (at_ent T D d (on_delta (set_flags (if c then Z.lor (eflags e) D_CSET else eflags e)) e) Y (b || c) v).
Proof. intros Ht. run_line. by apply line_C. Qed.

Lemma run_D c e Y b v : touched e →
  run_meta cset d (opt c [1; 99; 68]) (at_ent T D d e Y b v) =
  Some (at_ent T D d (on_delta (set_flags (if c then Z.lor (eflags e) D_DANGLING else eflags e)) e) Y (b || c) v).
Proof. intros Ht. run_line. by apply line_D. Qed.

Lemma run_F c n e Y b v : touched e → u31 n →
  run_meta cset d (opt c (1 :: 99 :: 70 :: printf_u n)) (at_ent T D d e Y b v) =
  Some (at_ent T D d (set_e_fudge (if c then n else e_fudge e) e) Y (b || c) v).
Proof. intros Ht Hn. run_line. apply line_F; [done|done|]. unfold u31 in Hn. lia. Qed.

Lemma run_H c h u e Y b v : touched e → (c = true → h ≠ []) → e_userhost e = Some u → 64 ∉ u → (length u + length h < 2047)%nat →
  run_meta cset d (opt c (1 :: 99 :: 72 :: h)) (at_ent T D d e Y b v) =
  Some (at_ent T D d (set_e_userhost (if c then Some (u ++ 64 :: h) else e_userhost e) e) Y (b || c) v).
Proof. intros Ht Hh Hu H64 Hl. run_line. apply line_H; auto. by apply strchr_none. Qed.

Lemma run_K c x y e Y b v : touched e → pad5_ok x → pad5_ok y →
  run_meta cset d (opt c (1 :: 99 :: 75 :: pad5 x ++ (if x =? y then [] else 124 :: pad5 y))) (at_ent T D d e Y b v) =
  Some (at_ent T D d (set_e_sortsum (if c then y else e_sortsum e) (set_e_sum (if c then x else e_sum e) e)) Y (b || c) v).
Proof. intros Ht Hx Hy. run_line. by apply line_K. Qed.

Lemma run_M c (n : nat) e Y b v : touched e → u31 (Z.of_nat n) → d_merge (e_delta e) = 0%nat →
  run_meta cset d (opt c (1 :: 99 :: 77 :: fmtd (Z.of_nat n))) (at_ent T D d e Y b v) =
  Some (at_ent T D d (on_delta (set_merge (if c then n else 0%nat)) e) Y (b || c) v).
Proof.
  intros Ht Hn Hm. apply run_opt; intros ->.
  - replace n with (Z.to_nat (Z.of_nat n)) at 2 by apply Nat2Z.id. by apply line_M.
  - destruct e as [[]]. cbn in *. by subst.
Qed.

Lemma run_P c p q e Y b v : touched e → (c = true → p ≠ []) → 124 ∉ p → (length p + length q < 2047)%nat →
  run_meta cset d (opt c (1 :: 99 :: 80 :: p ++ (if negb (bool_decide (p = q)) then 124 :: q else []))) (at_ent T D d e Y b v) =
  Some (at_ent T D d (set_e_sortpath (if c then Some q else e_sortpath e) (set_e_path (if c then Some p else e_path e) e)) Y (b || c) v).
Proof. intros Ht Hp Hb Hl. run_line. apply line_P; auto. Qed.

Lemma run_R c a e Y b v : touched e →
  run_meta cset d (opt c (1 :: 99 :: 82 :: a)) (at_ent T D d e Y b v) =
  Some (at_ent T D d (set_e_random (if c then Some a else e_random e) e) Y (b || c) v).
Proof. intros Ht. run_line. by apply line_R. Qed.

Lemma run_X c x e Y b v : touched e → 0 < x < 2 ^ 32 → Z.land x X_SINGLE = 0 →
  run_meta cset d (opt c (1 :: 99 :: 88 :: 48 :: 120 :: printf_x x)) (at_ent T D d e Y b v) =
  Some (at_ent T D d (set_e_xflags (if c then x else e_xflags e) e) Y (b || c) v).
Proof. intros Ht Hx Hs. run_line. apply line_X; [done|done|lia|done]. Qed.

Lemma run_Z c z e Y b v : touched e → (c = true → at0 z = 43 ∨ at0 z = 45) →
  run_meta cset d (opt c (1 :: 99 :: 90 :: z)) (at_ent T D d e Y b v) =
  Some (at_ent T D d (set_e_zone (if c then Some z else e_zone e) e) Y (b || c) v).
Proof.
  intros Ht Hz. run_line. specialize (Hz eq_refl). destruct z as [|x z]; [cbn in Hz; lia|]. by apply line_Z.
Qed.

(** The mode, with or without the target of a link. *)
Lemma run_O c m l e Y b v : touched e → (c = true → mode_ok m = true ∧ (isfmt m S_IFLNK = true ↔ is_Some l)) →
  e_symlink e = None →
  run_meta cset d (opt c (1 :: 99 :: 79 :: mode2a m ++ (if has l then 32 :: str l else []))) (at_ent T D d e Y b v) =
  Some (at_ent T D d (set_e_symlink (if c then l else None) (set_e_mode (if c then m else e_mode e) e)) Y (b || c) v).
Proof.
  intros Ht Hm Hn. apply run_opt; intros ->; [|by destruct e as [[]]; cbn in *; subst].
  destruct (Hm eq_refl) as [Hok Hl]. destruct l as [l|]; cbn [has str default].
  - change (str (Some l)) with l. apply (line_O_link cset T D d Hd m l e Ht Hok). apply Hl. eauto.
  - rewrite app_nil_r. assert (Hf : isfmt m S_IFLNK = false).
    { destruct (isfmt m S_IFLNK); [|done]. destruct (proj1 Hl eq_refl) as [? [=]]. }
    replace (set_e_symlink None (set_e_mode m e)) with (set_e_mode m e) by (destruct e as [[]]; cbn in *; by subst).
    by apply line_O.
Qed.

Lemma run_V c e Y b v : touched e →
  run_meta cset d (opt c (1 :: 99 :: 86 :: printf_u SCCS_VERSION)) (at_ent T D d e Y b v) =
  Some (at_ent T D d e Y (b || c) (if c then SCCS_VERSION else v)).
Proof. intros Ht. destruct c; cbn [opt run_meta]; [rewrite line_V by done|]; by rewrite ?orb_true_r, ?orb_false_r. Qed.

Lemma run_Sg c (p m : nat) (leaf : bool) e Y b v : touched e → (c = true → cset = true) → u31 (Z.of_nat p) → u31 (Z.of_nat m) →
  (p = 0 → m = 0)%nat → d_ptag (e_delta e) = 0%nat → d_mtag (e_delta e) = 0%nat →
  run_meta cset d (opt c (1 :: 99 :: 83 :: symgraph_text p m leaf)) (at_ent T D d e Y b v) =
  Some (at_ent T D d (on_delta (set_flags (if c then let f := Z.lor (eflags e) D_SYMGRAPH in if leaf then Z.lor f D_SYMLEAF else f else eflags e))
                       (on_delta (set_mtag (if c then m else 0%nat)) (on_delta (set_ptag (if c then p else 0%nat)) e))) Y (b || c) v).
Proof.
  intros Ht Hc Hp Hm Hpm Hp0 Hm0. unfold u31 in *. apply run_opt; intros ->; [|destruct e as [[]]; cbn in *; by subst].
  intros Y' b' v'. rewrite line_Sg by (done || lia || by apply Hc). by destruct leaf.
Qed.

(** The names of the tags an entry holds. *)
Lemma run_S names : Forall (λ n, isdigit (at0 n) = false) names → (names ≠ [] → cset = true) → ∀ e Y b v, touched e →
  run_meta cset d (map (λ n, 1 :: 99 :: 83 :: n) names) (at_ent T D d e Y b v) =
  Some (at_ent T D d (on_delta (set_flags (if (0 <? length names)%nat then Z.lor (eflags e) D_SYMBOLS else eflags e)) e)
               (Y ++ map (pair d) names) (b || (0 <? length names)%nat) v).
Proof.
  intros Hn Hc. assert (Hc' : names = [] ∨ cset = true) by (destruct names; auto). clear Hc.
  induction Hn as [|n names Hn1 Hn IH]; intros e Y b v Ht; cbn [map run_meta].
  - rewrite app_nil_r, orb_false_r. by destruct e as [[]].
  - destruct Hc' as [|Hc]; [done|]. rewrite line_S by done. rewrite IH; [|by right|].
    + rewrite <- app_assoc. cbn [app length]. change (0 <? S (length names))%nat with true. rewrite !orb_true_r.
      replace (true || (0 <? length names)%nat) with true by done. do 2 f_equal. unfold add_flag, on_delta, eflags. cbn.
      destruct e as [[] ? ? ? ? ? ? ? ? ? ? ? ? ? ? ? ? ?]. cbn. destruct (length names); [done|]. by rewrite <- Z.lor_assoc, Z.lor_diag.
    + destruct Ht as [Ht|Ht]; [left|right]; unfold has_flag, add_flag, on_delta, eflags in *; cbn.
      * rewrite Z.land_lor_distr_l. change (Z.land D_SYMBOLS D_TAG) with 0. by rewrite Z.lor_0_r.
      * rewrite Z.land_lor_distr_l. change (Z.land D_SYMBOLS D_META) with 0. by rewrite Z.lor_0_r.
Qed.

End Steps.

(** ** An entry as it is read, before fields are inherited *)

Definition cond_B (t : table) (d : nat) : bool :=
  let e := ent t d in has (e_csetfile e) && negb (same_as (eparent e) (e_csetfile e) (e_csetfile (ent t (eparent e)))).

Definition cond_H (t : table) (d : nat) (h : cstr) : bool :=
  let e := ent t d in
  (eparent e =? 0)%nat ||
  match strchr (str (e_userhost (ent t (eparent e)))) 64 with None => true | Some p => negb (bool_decide (64 :: h = p)) end.

Definition cond_P (t : table) (d : nat) : bool :=
  let e := ent t d in
  let p := ent t (eparent e) in
  (has (e_path e) && negb (same_as (eparent e) (e_path p) (e_path e))) ||
  (has (e_sortpath e) && negb (same_as (eparent e) (e_sortpath p) (e_sortpath e))).

Definition mode_same (p e : entry) : bool :=
  if isfmt (e_mode p) S_IFREG && isfmt (e_mode e) S_IFREG then e_mode p =? e_mode e
  else isfmt (e_mode p) S_IFLNK && isfmt (e_mode e) S_IFLNK && bool_decide (e_symlink p = e_symlink e).

Definition cond_O (t : table) (d : nat) : bool :=
  let e := ent t d in
  negb (e_mode e =? 0) && negb (negb (eparent e =? 0)%nat && mode_same (ent t (eparent e)) e).

Definition cond_X (t : table) (d : nat) : bool :=
  let e := ent t d in (eparent e =? 0)%nat || negb (e_xflags e =? e_xflags (ent t (eparent e))).

Definition cond_Z (t : table) (d : nat) : bool :=
  let e := ent t d in has (e_zone e) && negb (same_as (eparent e) (e_zone (ent t (eparent e))) (e_zone e)).

Definition start_ent (e : entry) (user : cstr) : entry :=
  mkEnt (mkDelta (eparent e) 0 0 0 0 (mkflags (has_flag e D_TAG) false false false false false) [] (d_r (e_delta e)))
    (e_added e) (e_deleted e) (e_same e) 0 0 0 0 0 (e_comments e) None None (Some user) None None None None None.

Definition raw_ent (t : table) (d : nat) (user : cstr) (host : option cstr) (own : bool) : entry :=
  let e := ent t d in
  let x := e_delta e in
  mkEnt (mkDelta (eparent e) (d_merge x) (d_ptag x) (d_mtag x) 0
           (mkflags (has_flag e D_TAG) (has_flag e D_CSET) (has_flag e D_DANGLING) own (has_flag e D_SYMGRAPH) (has_flag e D_SYMLEAF)) [] (d_r x))
    (e_added e) (e_deleted e) (e_same e) (e_sum e) (e_sortsum e) (e_fudge e)
    (if cond_O t d then e_mode e else 0) (if cond_X t d then e_xflags e else 0)
    (e_comments e) (e_bamhash e) (e_random e)
    (Some (user ++ match host with Some h => if cond_H t d h then 64 :: h else [] | None => [] end))
    (if cond_P t d then e_path e else None) (if cond_P t d then e_sortpath e else None)
    (if cond_Z t d then e_zone e else None) (if cond_O t d then e_symlink e else None)
    (if cond_B t d then e_csetfile e else None).

(** ** The lines in the form the steps are stated for *)

Lemma host_line_opt t d user host : host_is (e_userhost (ent t d)) user host →
  host_line t d = match host with Some h => opt (cond_H t d h) (1 :: 99 :: 72 :: h) | None => [] end.
Proof.
  intros (Hu & H64 & _ & _ & Hh). unfold host_line. rewrite Hu. cbn [str default]. unfold str at 1. cbn [default]. unfold id.
  destruct host as [h|].
  - rewrite strchr_at by done. done.
  - rewrite app_nil_r, strchr_none by done. done.
Qed.

Lemma path_line_opt t d : path_is (ent t d) →
  path_line t d = opt (cond_P t d) (1 :: 99 :: 80 :: str (e_path (ent t d)) ++
    (if negb (bool_decide (str (e_path (ent t d)) = str (e_sortpath (ent t d)))) then 124 :: str (e_sortpath (ent t d)) else [])).
Proof.
  intros Hp. unfold path_line. fold (cond_P t d). destruct Hp as [[E1 E2]|(p & q & E1 & E2 & _)].
  - unfold cond_P. rewrite E1, E2. done.
  - by rewrite E1, E2.
Qed.

Lemma mode_line_opt t d cset own : wf_entry cset t own d → (eparent (ent t d) ≠ 0%nat → mode_is (ent t (eparent (ent t d)))) →
  mode_line t d = Some (opt (cond_O t d) (1 :: 99 :: 79 :: mode2a (e_mode (ent t d)) ++ (if has (e_symlink (ent t d)) then 32 :: str (e_symlink (ent t d)) else []))).
Proof.
  intros Hwf Hpm. pose proof (we_mode _ _ _ _ Hwf) as Hm. unfold mode_line, cond_O.
  destruct (Z.eqb_spec (e_mode (ent t d)) 0) as [E|E]; [done|]. cbn [negb andb].
  destruct Hm as [[E0 _]|(Hok & _ & Hl)]; [done|].
  assert (Has : negb (has (e_symlink (ent t d))) || isfmt (e_mode (ent t d)) S_IFLNK = true).
  { destruct (e_symlink (ent t d)) as [l|]; [|done]. cbn. apply Hl. eauto. }
  destruct (Nat.eqb_spec (eparent (ent t d)) 0) as [Ep|Ep]; cbn [negb andb]; [by rewrite Has|].
  assert (Es : sameMode (ent t (eparent (ent t d))) (ent t d) = Some (mode_same (ent t (eparent (ent t d))) (ent t d))).
  { unfold sameMode, mode_same. destruct (isfmt (e_mode (ent t (eparent (ent t d)))) S_IFREG && _); [done|].
    destruct (isfmt (e_mode (ent t (eparent (ent t d)))) S_IFLNK) eqn:El1; [|done].
    destruct (isfmt (e_mode (ent t d)) S_IFLNK) eqn:El2; [|done]. cbn [negb andb].
    destruct (proj1 Hl eq_refl) as [l ->]. destruct (Hpm Ep) as [[E1 _]|(_ & _ & Hl2)].
    - rewrite E1 in El1. done.
    - destruct (proj1 Hl2 El1) as [l2 ->]. done. }
  rewrite Es. by destruct (mode_same _ _); [|rewrite Has].
Qed.

Definition mlist (cset : bool) (t : table) (d : nat) (host : option cstr) (names : list cstr) : list cstr :=
  let e := ent t d in
  let x := e_delta e in
  opt (negb cset && has (e_bamhash e)) (1 :: 99 :: 65 :: str (e_bamhash e)) ++
  opt (cond_B t d) (1 :: 99 :: 66 :: str (e_csetfile e)) ++
  opt (has_flag e D_CSET) [1; 99; 67] ++
  opt (has_flag e D_DANGLING) [1; 99; 68] ++
  opt (negb (e_fudge e =? 0)) (1 :: 99 :: 70 :: printf_u (e_fudge e)) ++
  opt (match host with Some h => cond_H t d h | None => false end) (1 :: 99 :: 72 :: str host) ++
  opt (negb (has_flag e D_TAG)) (1 :: 99 :: 75 :: pad5 (e_sum e) ++ (if e_sum e =? e_sortsum e then [] else 124 :: pad5 (e_sortsum e))) ++
  opt (negb (d_merge x =? 0)%nat) (1 :: 99 :: 77 :: fmtd (Z.of_nat (d_merge x))) ++
  opt (cond_P t d) (1 :: 99 :: 80 :: str (e_path e) ++ (if negb (bool_decide (str (e_path e) = str (e_sortpath e))) then 124 :: str (e_sortpath e) else [])) ++
  opt (cond_O t d) (1 :: 99 :: 79 :: mode2a (e_mode e) ++ (if has (e_symlink e) then 32 :: str (e_symlink e) else [])) ++
  opt (has (e_random e)) (1 :: 99 :: 82 :: str (e_random e)) ++
  map (λ n, 1 :: 99 :: 83 :: n) names ++
  opt (has_flag e D_SYMGRAPH) (1 :: 99 :: 83 :: symgraph_text (d_ptag x) (d_mtag x) (has_flag e D_SYMLEAF)) ++
  opt (d =? 1)%nat (1 :: 99 :: 86 :: printf_u SCCS_VERSION) ++
  opt (cond_X t d) (1 :: 99 :: 88 :: 48 :: 120 :: printf_x (e_xflags e)) ++
  opt (cond_Z t d) (1 :: 99 :: 90 :: str (e_zone e)).

Lemma has_str o (c : bool) : (if has o && c then Some (str o) else None) = if has o && c then o else None.
Proof. by destruct o, c. Qed.

Lemma zone_sign z off : zone_is z off → has z = true → at0 (str z) = 43 ∨ at0 (str z) = 45.
Proof. intros [[-> _]|(s & h & m & -> & _ & _ & [[-> _]|[-> _]])] Hh; [done|by left|by right]. Qed.

Ltac norm :=
  cbv beta delta [
    set_e_delta set_e_counts set_e_sum set_e_sortsum set_e_fudge set_e_mode set_e_xflags set_e_comments
    set_e_bamhash set_e_random set_e_userhost set_e_path set_e_sortpath set_e_zone set_e_symlink
    set_e_csetfile on_delta set_flags set_merge set_ptag set_mtag set_date set_parent set_cludes set_r];
  cbn [
    e_delta e_added e_deleted e_same e_sum e_sortsum e_fudge e_mode e_xflags e_comments e_bamhash e_random
    e_userhost e_path e_sortpath e_zone e_symlink e_csetfile d_parent d_merge d_ptag d_mtag d_date d_flags
    d_cludes d_r].

Lemma entry_meta cset t T D d user host names Y b v :
  wf_entry cset t (0 <? length names)%nat d → in_table T d → host_is (e_userhost (ent t d)) user host →
  Forall (λ n, isdigit (at0 n) = false) names → (names ≠ [] → cset = true) →
  ∃ b' v', run_meta cset d (mlist cset t d host names) (at_ent T D d (start_ent (ent t d) user) Y b v) =
    Some (at_ent T D d (raw_ent t d user host (0 <? length names)%nat) (Y ++ map (pair d) names) b' v').
Proof.
  intros Hwf Hd Hh Hn Hnc. unfold mlist. set (e := ent t d) in *.
  destruct Hh as (Hu & H64 & H32 & Hlu & Hho).
  pose proof (we_graph _ _ _ _ Hwf) as Hgr. cbn zeta in Hgr. fold e in Hgr.
  assert (Htm : ∀ s cs dang sym graph leaf, eflags s = mkflags (has_flag e D_TAG) cs dang sym graph leaf → touched s)
    by (intros; by eapply touched_mkflags).
  unfold start_ent.
  rewrite run_meta_app, run_A by (done || by eapply Htm). norm.
  rewrite run_meta_app, run_B; [|done|by eapply Htm|]; last first.
  { intros HB. unfold cond_B in HB. fold e in HB. apply andb_prop in HB as [HB _].
    destruct (we_csetfile _ _ _ _ Hwf) as [Hcf _]. fold e in Hcf. destruct (e_csetfile e); [|done]. cbn. congruence. }
  norm. rewrite run_meta_app, run_C by (done || by eapply Htm). unfold eflags at 1 2. norm.
  replace (if has_flag e D_CSET then _ else mkflags _ _ _ _ _ _) with (mkflags (has_flag e D_TAG) (has_flag e D_CSET) false false false false)
    by by destruct (has_flag e D_CSET).
  rewrite run_meta_app, run_D by (done || by eapply Htm). unfold eflags at 1 2. norm.
  replace (if has_flag e D_DANGLING then _ else mkflags _ _ _ _ _ _) with
    (mkflags (has_flag e D_TAG) (has_flag e D_CSET) (has_flag e D_DANGLING) false false false) by by destruct (has_flag e D_DANGLING).
  rewrite run_meta_app, run_F; [|done|by eapply Htm|]; last first.
  { destruct (we_date _ _ _ _ Hwf) as (off & _ & _ & Hf & _). exact Hf. }
  norm. rewrite run_meta_app, (run_H cset T D d Hd _ _ user); [|by eapply Htm| |done|done|]; last first.
  { destruct host as [h|]; cbn; [|lia]. destruct Hho. change (str (Some h)) with h. lia. }
  { destruct host as [h|]; [|done]. intros _. apply Hho. }
  norm. rewrite run_meta_app, run_K; [|done|by eapply Htm|apply (we_sum _ _ _ _ Hwf)..].
  norm. rewrite run_meta_app, run_M; [|done|by eapply Htm|apply (we_merge _ _ _ _ Hwf)|done].
  norm. destruct (we_path _ _ _ _ Hwf) as [Hpath _]. fold e in Hpath.
  assert (Hpp : (cond_P t d = true → str (e_path e) ≠ []) ∧ (124 ∉ str (e_path e)) ∧ (length (str (e_path e)) + length (str (e_sortpath e)) < 2047)%nat ∧
    (if cond_P t d then Some (str (e_path e)) else None) = (if cond_P t d then e_path e else None) ∧
    (if cond_P t d then Some (str (e_sortpath e)) else None) = (if cond_P t d then e_sortpath e else None)).
  { unfold cond_P. fold e. destruct Hpath as [[-> ->]|(p & q & -> & -> & Hp & Hb & Hlp & Hlq)]; cbn [has andb orb].
    - split_and!; [done|by apply not_elem_of_nil|cbn; lia|done|done].
    - change (str (Some p)) with p. change (str (Some q)) with q. split_and!; [done|done|lia|by destruct (_ || _)..]. }
  destruct Hpp as (Hp1 & Hp2 & Hp3 & Hp4 & Hp5).
  rewrite run_meta_app, run_P by (done || by eapply Htm). norm. rewrite Hp4, Hp5.
  rewrite run_meta_app, run_O; [|done|by eapply Htm| |done]; last first.
  { intros HO. unfold cond_O in HO. fold e in HO. apply andb_prop in HO as [HO _]. apply negb_true_iff, Z.eqb_neq in HO.
    destruct (we_mode _ _ _ _ Hwf) as [[E0 _]|(Hok & _ & Hl)]; [done|]. done. }
  norm. rewrite run_meta_app, run_R by (done || by eapply Htm). norm.
  rewrite run_meta_app, run_S by (done || by eapply Htm). unfold eflags at 1 2. norm.
  replace (if (0 <? length names)%nat then Z.lor _ _ else mkflags _ _ _ _ _ _) with
    (mkflags (has_flag e D_TAG) (has_flag e D_CSET) (has_flag e D_DANGLING) (0 <? length names)%nat false false) by by destruct (0 <? length names)%nat.
  assert (Hg4 : (has_flag e D_SYMGRAPH = true → cset = true) ∧ u31 (Z.of_nat (d_ptag (e_delta e))) ∧ u31 (Z.of_nat (d_mtag (e_delta e))) ∧
    (d_ptag (e_delta e) = 0 → d_mtag (e_delta e) = 0)%nat).
  { destruct (has_flag e D_SYMGRAPH); [destruct Hgr as (H1 & H2 & H3 & H4); exact (conj (λ _, H1) (conj H2 (conj H3 H4)))|].
    destruct Hgr as (_ & -> & ->). unfold u31. repeat split; done || lia. }
  destruct Hg4 as (Hg1 & Hg2 & Hg3 & Hg5). rewrite run_meta_app, run_Sg by (done || by eapply Htm).
  unfold eflags at 1 2. norm.
  replace (if has_flag e D_SYMGRAPH then if has_flag e D_SYMLEAF then _ else _ else mkflags _ _ _ _ _ _) with
    (mkflags (has_flag e D_TAG) (has_flag e D_CSET) (has_flag e D_DANGLING) (0 <? length names)%nat (has_flag e D_SYMGRAPH) (has_flag e D_SYMLEAF))
    by (destruct (has_flag e D_SYMGRAPH); [by destruct (has_flag e D_SYMLEAF)|by destruct Hgr as (-> & _)]).
  rewrite run_meta_app, run_V by (done || by eapply Htm).
  rewrite run_meta_app, run_X; [|done|by eapply Htm|apply (we_xflags _ _ _ _ Hwf)..].
  norm. rewrite run_Z; [|done|by eapply Htm|]; last first.
  { intros HZ. unfold cond_Z in HZ. fold e in HZ. apply andb_prop in HZ as [HZ _].
    destruct (we_date _ _ _ _ Hwf) as (off & Hz & _). by eapply zone_sign. }
  norm. eexists. eexists. do 2 f_equal. unfold raw_ent. fold e.
  assert (Hcs : ∀ o c, (if has o && c then Some (str o) else None) = if has o && c then o else None) by (intros; apply has_str).
  f_equal.
  - f_equal; [by destruct (Nat.eqb_spec (d_merge (e_delta e)) 0) as [->|]|destruct (has_flag e D_SYMGRAPH)..]; (done || by destruct Hgr as (_ & Ep & Em)).
  - destruct (has_flag e D_TAG) eqn:Et; [|done]. by destruct (we_tag _ _ _ _ Hwf Et) as (_ & _ & _ & Es & _).
  - destruct (has_flag e D_TAG) eqn:Et; [|done]. by destruct (we_tag _ _ _ _ Hwf Et) as (_ & _ & _ & _ & Es).
  - by destruct (Z.eqb_spec (e_fudge e) 0) as [->|].
  - destruct (we_bamhash _ _ _ _ Hwf) as [_ Hbh]. fold e in Hbh. destruct cset; [by rewrite Hbh|]. by destruct (e_bamhash e).
  - by destruct (e_random e).
  - destruct host as [h|]; [|by rewrite app_nil_r]. destruct (cond_H t d h); [done|by rewrite app_nil_r].
  - apply Hcs.
  - apply Hcs.
Qed.

(** ** Included and excluded serials *)

Lemma fmtd_word n : u31 n → fmtd n ≠ [] ∧ Forall (λ c, isspace c = false) (fmtd n).
Proof.
  intros Hn. unfold u31 in Hn. rewrite fmtd_small by lia. split; [apply (dec_digits_ne 19)|by apply printf_u_word; lia].
Qed.

Lemma eachstr_num n rest : u31 n → rest = [] ∨ at0 rest = 32 →
  eachstr (Some (32 :: fmtd n ++ rest)) = (Some (fmtd n ++ rest, length (fmtd n)), Some rest) ∧ atoi (fmtd n ++ rest) = n.
Proof.
  intros Hn Hr. destruct (fmtd_word n Hn) as [Hne Hw]. split.
  - unfold eachstr. rewrite skip_space_word by done.
    assert (Hword := word_app (fmtd n) rest Hw ltac:(destruct Hr as [|E]; [by left|right; by rewrite E])).
    destruct (fmtd n ++ rest) eqn:E; [by destruct (fmtd n)|]. by rewrite Hword.
  - apply atoi_fmtd; [done|]. destruct rest as [|c rest]; [done|]. destruct Hr as [|Hr]; [done|]. cbn in Hr. by subst c.
Qed.

Definition spaced (l : list Z) : cstr := concat (map (λ n, 32 :: fmtd n) l).

Lemma clude_loop_spaced sign l : ∀ fuel, Forall u31 l → (length l < fuel)%nat →
  clude_loop fuel sign (Some (spaced l)) = saveNums (map (λ n, (n, sign)) l).
Proof.
  induction l as [|n l IH]; intros fuel Hl Hf; (destruct fuel as [|fuel]; [simpl in Hf; lia|]); [done|].
  apply Forall_cons in Hl as [Hn Hl]. cbn [clude_loop]. change (spaced (n :: l)) with (32 :: fmtd n ++ spaced l).
  destruct (eachstr_num n (spaced l) Hn) as [-> ->]; [destruct l; [by left|by right]|].
  rewrite IH by (done || simpl in Hf; lia). done.
Qed.

Lemma clude_lines_of incs excs c : clude_is c incs excs →
  clude_lines c = opt (negb (length incs =? 0)%nat) (1 :: 105 :: spaced incs) ++ opt (negb (length excs =? 0)%nat) (1 :: 120 :: spaced excs).
Proof.
  intros [Hf ->]. unfold clude_lines. rewrite nums_saveNums.
  - rewrite !filter_app. assert (H1 : ∀ (l : list Z), filter (λ p : Z * Z, 0 < snd p) (map (λ n, (n, 1)) l) = map (λ n, (n, 1)) l).
    { induction l as [|n l IH]; [done|]. cbn [map]. rewrite filter_cons_True by (cbn; lia). by rewrite IH. }
    assert (H2 : ∀ (l : list Z), filter (λ p : Z * Z, 0 < snd p) (map (λ n, (n, -1)) l) = []).
    { induction l as [|n l IH]; [done|]. cbn [map]. by rewrite filter_cons_False by (cbn; lia). }
    assert (H3 : ∀ (l : list Z), filter (λ p : Z * Z, snd p < 0) (map (λ n, (n, 1)) l) = []).
    { induction l as [|n l IH]; [done|]. cbn [map]. by rewrite filter_cons_False by (cbn; lia). }
    assert (H4 : ∀ (l : list Z), filter (λ p : Z * Z, snd p < 0) (map (λ n, (n, -1)) l) = map (λ n, (n, -1)) l).
    { induction l as [|n l IH]; [done|]. cbn [map]. rewrite filter_cons_True by (cbn; lia). by rewrite IH. }
    rewrite H1, H2, H3, H4, app_nil_r. cbn [app]. rewrite !map_map. cbn [fst]. by rewrite !map_id.
  - apply Forall_app in Hf as [Hi He]. apply Forall_app. split; apply Forall_map; (eapply Forall_impl; [eassumption|]); intros n Hn; split; cbn in *; lia.
Qed.

Lemma body_cludes cset d c incs excs rest st : clude_is c incs excs →
  body cset PCludes d (clude_lines c ++ rest) [] st = body cset PCludes d rest c st.
Proof.
  intros Hc. rewrite (clude_lines_of _ _ _ Hc). destruct Hc as [Hf ->].
  assert (Hstep : ∀ k sign l rest cl, k = 105 ∧ sign = 1 ∨ k = 120 ∧ sign = -1 → Forall u31 l →
    body cset PCludes d (opt (negb (length l =? 0)%nat) (1 :: k :: spaced l) ++ rest) cl st =
    body cset PCludes d rest (cl ++ saveNums (map (λ n, (n, sign)) l)) st).
  { intros k sign l rest' cl Hk Hl. destruct l as [|n l]; [cbn; by rewrite app_nil_r|]. cbn [length Nat.eqb negb opt app].
    pose proof Hl as Hl'. apply Forall_cons in Hl as [Hn _]. destruct (fmtd_word n Hn) as [Hne _].
    assert (Ht : spaced (n :: l) = 32 :: drop 1 (spaced (n :: l))) by done.
    set (s := spaced (n :: l)) in *. assert (Hlen : (length (n :: l) <= length s)%nat ∧ (2 <= length s)%nat).
    { unfold s. split.
      - assert (Hsl : ∀ l, (length l <= length (spaced l))%nat); [|apply Hsl].
        induction l0 as [|m l0 IH]; [done|]. change (spaced (m :: l0)) with (32 :: fmtd m ++ spaced l0). cbn [length]. rewrite length_app. lia.
      - change (spaced (n :: l)) with (32 :: fmtd n ++ spaced l). destruct (fmtd n); [done|]. cbn [length app]. lia. }
    cbn [body]. change (at0 (1 :: k :: s)) with 1. change (nth 1 (1 :: k :: s) 0) with k. change (1 =? 1) with true. cbn [negb].
    rewrite (proj2 (Nat.leb_gt _ 3)) by (cbn [length]; lia). rewrite andb_false_r.
    assert (Hcl : clude_loop (length (1 :: k :: s)) sign (Some (drop 3 (1 :: k :: s))) = saveNums (map (λ n, (n, sign)) (n :: l))).
    { rewrite <- (clude_loop_spaced sign (n :: l) (length (1 :: k :: s)) Hl') by (cbn [length] in *; lia). change (drop 3 (1 :: k :: s)) with (drop 1 s).
      change (spaced (n :: l)) with s. generalize (length (1 :: k :: s)). intros f. rewrite Ht at 2. by destruct f. }
    destruct Hk as [[-> ->]|[-> ->]]; cbn [Z.eqb Pos.eqb orb]; by rewrite Hcl. }
  apply Forall_app in Hf as [Hi He]. rewrite <- app_assoc, (Hstep 105 1), (Hstep 120 (-1)); [|auto..].
  2, 3: eapply Forall_impl; [eassumption|]; intros ? ?; unfold u31; cbv beta in *; lia.
  f_equal. unfold saveNums. by rewrite map_app, concat_app.
Qed.

(** ** Comments *)

Lemma drop_cr_id l : last l ≠ Some 13 → drop_cr l = l.
Proof.
  intros Hl. unfold drop_cr, strip_back. destruct l as [|c l _] using rev_ind; [done|]. rewrite last_snoc in Hl.
  rewrite reverse_app. change (reverse [c] ++ reverse l) with (c :: reverse l). cbn [strip_front].
  rewrite (proj2 (Z.eqb_neq c 13)) by congruence. rewrite reverse_cons, reverse_involutive. done.
Qed.

Lemma each_lines_line l rest : ∀ cur, 10 ∉ l → each_lines (l ++ 10 :: rest) cur = drop_cr (cur ++ l) :: each_lines rest [].
Proof.
  induction l as [|c l IH]; intros cur Hl; cbn [app each_lines]; [by rewrite app_nil_r|].
  apply not_elem_of_cons in Hl as [Hc Hl]. rewrite (proj2 (Z.eqb_neq c 10)) by done. rewrite IH by done. by rewrite <- app_assoc.
Qed.

Lemma comment_lines_of e ls : comment_is (e_comments e) ls → comment_lines e = map (λ l, 1 :: 99 :: 32 :: l) ls.
Proof.
  intros [Hf Hc]. unfold comment_lines. rewrite Hc.
  assert (E : each_lines (concat (map (λ l, l ++ [10]) ls)) [] = ls).
  { clear Hc. induction Hf as [|l ls [Hl Hcr] Hf IH]; [done|]. cbn [map concat]. rewrite <- app_assoc. cbn [app].
    rewrite each_lines_line by done. cbn [app]. by rewrite drop_cr_id, IH. }
  destruct ls as [|l ls]; [done|]. change (str (Some ?x)) with x. by rewrite E.
Qed.

Lemma body_comments cset T D d Y b v ls : in_table T d → ∀ ph e cl rest, ls ≠ [] ∧ ph ≠ PMeta ∨ ls = [] →
  body cset ph d (map (λ l, 1 :: 99 :: 32 :: l) ls ++ rest) cl (at_ent T D d e Y b v) =
  body cset (match ls with [] => ph | _ => PComments end) d rest cl
    (at_ent T D d (set_e_comments (match ls with [] => e_comments e | _ => Some (str (e_comments e) ++ concat (map (λ l, l ++ [10]) ls)) end) e) Y b v).
Proof.
  intros Hd. induction ls as [|l ls IH]; intros ph e cl rest Hph; cbn [map app]; [by destruct e as [[]]|].
  destruct Hph as [[_ Hph]|]; [|done].
  assert (E : body cset ph d ((1 :: 99 :: 32 :: l) :: map (λ l, 1 :: 99 :: 32 :: l) ls ++ rest) cl (at_ent T D d e Y b v) =
    body cset PComments d (map (λ l, 1 :: 99 :: 32 :: l) ls ++ rest) cl (at_ent T D d (set_e_comments (Some (str (e_comments e) ++ l ++ [10])) e) Y b v)).
  { cbn [body]. rewrite on_ent_at by done. by destruct ph. }
  rewrite E, IH by (destruct ls; auto). destruct ls as [|l2 ls].
  - cbn [map concat]. by rewrite app_nil_r.
  - do 2 f_equal. unfold set_e_comments. cbn [e_comments str default map concat]. unfold str at 1. cbn [default]. unfold id.
    do 2 f_equal. by rewrite <- !app_assoc.
Qed.

(** ** The first mark of a tag delta *)

Lemma meta_touch_eq cset T D d e L Y b v : in_table T d →
  meta cset d L (at_ent T D d e Y b v) = meta cset d L (at_ent T D d (touch e) Y b v).
Proof.
  intros Hd. unfold meta. rewrite !ent_at by done. unfold touch. destruct (has_flag e D_TAG) eqn:E; [|by rewrite E].
  assert (Et : has_flag (add_flag D_META e) D_TAG = true).
  { unfold has_flag, add_flag, on_delta, eflags in *. norm. rewrite Z.land_lor_distr_l. change (Z.land D_META D_TAG) with 0. by rewrite Z.lor_0_r. }
  rewrite Et, !on_ent_at by done.
  replace (add_flag D_META (add_flag D_META e)) with (add_flag D_META e); [done|].
  unfold add_flag, on_delta. norm. rewrite <- Z.lor_assoc, Z.lor_diag. done.
Qed.

Lemma run_touch cset T D d e ls Y b v : in_table T d → ls ≠ [] ∨ has_flag e D_TAG = false →
  run_meta cset d ls (at_ent T D d e Y b v) = run_meta cset d ls (at_ent T D d (touch e) Y b v).
Proof.
  intros Hd [Hls|Ht]; [destruct ls as [|L ls]; [done|]|].
  - cbn [run_meta]. by rewrite meta_touch_eq.
  - unfold touch. by rewrite Ht.
Qed.

Lemma mlist_like cset t d host names : Forall meta_like (mlist cset t d host names).
Proof.
  assert (Ho : ∀ c x a, x ≠ 32 → x ≠ 95 → Forall meta_like (opt c (1 :: 99 :: x :: a))).
  { intros [] x a H1 H2; cbn; [|done]. apply Forall_cons. split; [by exists x, a|done]. }
  unfold mlist. repeat (apply Forall_app; split); try (apply Ho; done).
  apply Forall_map, Forall_forall. intros n _. by exists 83, n.
Qed.

(** The flags of an entry. *)
Lemma has_mkflags tag cs dang sym graph leaf :
  let f := mkflags tag cs dang sym graph leaf in
  negb (Z.land f D_TAG =? 0) = tag ∧ negb (Z.land f D_SYMGRAPH =? 0) = graph ∧ negb (Z.land f D_SYMBOLS =? 0) = sym ∧ f ≠ 0 ∧
  negb (Z.land f D_GONE =? 0) = false.
Proof. destruct tag, cs, dang, sym, graph, leaf; by vm_compute. Qed.
