(* ===== verification/TableDate.v ===== *)
(** * TableDate: the dates of the delta table

    A date is written as the local time of its zone with a year of two digits
    ([delta_strftime]) and read by [date2time] with that zone: the result is the
    time it came from. *)

From S2P Require Import Prelude CStr Sccs Rev Date WebEncode Table TableRead TableOk.
From stdpp Require Import base numbers list strings.
From Stdlib Require Import ZArith Lia.

Local Open Scope Z_scope.

Local Open Scope bk_scope.

(** "%y/%m/%d %H:%M:%S" *)
Definition date_text (i m : nat) (dd h mi sc : Z) : cstr :=
  X (Z.rem (70 + Z.of_nat i) 100) ++ [47] ++ X (Z.of_nat m + 1) ++ [47] ++ X (dd + 1) ++ [32] ++
  X h ++ [58] ++ X mi ++ [58] ++ X sc.

Lemma X_u n : 0 <= n < 100 → ∀ rest, nondigit_head rest → atoi_p (X n ++ rest) = (n, rest).
Proof.
  intros Hn rest Hr. destruct (X_digits n Hn) as (H1 & H2 & H3). unfold isdigit in *. boolify. unfold X, atoi_p. cbn [app atoi_loop].
  rewrite !u8_digit by (unfold digit; lia). rewrite !(proj2 (Z.ltb_lt _ 10)) by lia. rewrite int32_mul_add, int32_small by lia. rewrite atoi_loop_stop by done. f_equal. lia.
Qed.

Lemma atoi_X n : 0 <= n < 100 → ∀ rest, nondigit_head rest → atoi (X n ++ rest) = n.
Proof. intros Hn rest Hr. unfold atoi. fold (atoi_p (X n ++ rest)). by rewrite X_u. Qed.

Lemma delta_strftime_fields e off i m dd h mi sc : zone_is (e_zone e) off → fields i m dd h mi sc →
  d_date (e_delta e) - e_fudge e + off = secs_of i m dd h mi sc → delta_strftime e = Some (date_text i m dd h mi sc).
Proof.
  intros Hz Hf Hs. unfold delta_strftime.
  assert (E : (let z := str (e_zone e) in
    let '(neg, z) := if at0 z =? 45 then (-1, drop 1 z) else if at0 z =? 43 then (1, drop 1 z) else (1, z) in
    let '(h, z) := atoi_p z in
    let zone := 3600 * h in
    neg * (if at0 z =? 58 then zone + 60 * atoi (drop 1 z) else zone)) = off).
  { destruct Hz as [[-> ->]|(s & zh & zm & -> & Hh & Hm & Hoff)]; [done|]. cbn zeta. change (str (Some ?x)) with x. cbn [at0 hd drop]. rewrite drop_0.
    destruct Hoff as [[-> ->]|[-> ->]]; cbn [Z.eqb Pos.eqb]; rewrite X_u by done; cbn [at0 hd drop Z.eqb Pos.eqb]; rewrite drop_0;
      rewrite <- (app_nil_r (X zm)), atoi_X by done; lia. }
  cbn zeta in *. destruct (if at0 (str (e_zone e)) =? 45 then _ else _) as [neg z]. destruct (atoi_p z) as [zh z'].
  rewrite E, Hs, utc2tm_fields by done. unfold tm_of. cbn [tm_year tm_mon tm_mday tm_hour tm_min tm_sec]. done.
Qed.

(** A field followed by a separator and another field. *)
Lemma gettime_sep n c k rest : 0 <= n < 100 → 0 <= k < 100 → isdigit c = false → c ≠ 0 →
  ∃ p, gettime (X n ++ c :: X k ++ rest) = (n, p, X k ++ rest).
Proof.
  intros Hn Hk Hc Hc0. destruct (X_digits n Hn) as (H1 & H2 & H3). destruct (X_head k Hk) as (x & l & -> & Hx). unfold gettime, X. cbn [app at0 hd nth]. rewrite H2, H3.
  cbn [drop]. rewrite ?drop_0. cbn [skip_nondigit app]. rewrite Hc, (proj2 (Z.eqb_neq c 0)) by done. cbn [orb]. rewrite Hx, orb_true_r. eauto.
Qed.

Lemma a2tm_fields_text tp m dd h mi sc z :
  0 <= m < 100 → 0 <= dd < 100 → 0 <= h < 100 → 0 <= mi < 100 → 0 <= sc < 100 →
  a2tm_fields tp (X m ++ [47] ++ X dd ++ [32] ++ X h ++ [58] ++ X mi ++ [58] ++ X sc) z = (mkTm (tm_year tp) (m - 1) dd h mi sc, z).
Proof.
  intros Hm Hd Hh Hi Hs. unfold a2tm_fields. cbn [app]. rewrite at0_X by done.
  destruct (gettime_sep m 47 dd (32 :: X h ++ 58 :: X mi ++ 58 :: X sc)) as [p ->]; [done..|]. rewrite at0_X by done.
  destruct (gettime_sep dd 32 h (58 :: X mi ++ 58 :: X sc)) as [p2 ->]; [done..|]. rewrite at0_X by done.
  destruct (gettime_sep h 58 mi (58 :: X sc)) as [p3 ->]; [done..|]. rewrite at0_X by done.
  destruct (gettime_sep mi 58 sc []) as [p4 E4]; [done..|]. rewrite app_nil_r in E4. rewrite E4. rewrite <- (app_nil_r (X sc)), at0_X by done.
  destruct (gettime_end sc [] Hs ltac:(by left)) as (prev & s & -> & N1 & N2).
  rewrite (proj2 (Z.eqb_neq _ _) N1), (proj2 (Z.eqb_neq _ _) N2). by destruct z.
Qed.

Lemma get_year_2 n c rest : 0 <= n < 100 → isdigit c = false → get_year 4 0 0 (X n ++ c :: rest) = (n, c :: rest).
Proof.
  intros Hn Hc. destruct (X_digits n Hn) as (H1 & H2 & H3). unfold X. cbn [app get_year at0 hd drop]. rewrite ?drop_0, H1. cbn [andb Z.eqb].
  rewrite H2. rewrite !(Z.mul_0_l 10), !(Z.add_0_l (48 + Z.quot n 10 - 48)), !H3. change (0 + 1 =? 1) with true. cbn [andb]. destruct (_ || _); [done|]. by rewrite Hc.
Qed.

(** Only the hour and the minute depend on the zone. *)
Lemma tm2utc_shift tp a b t : tm2utc tp = Some t → 70 <= tm_year tp < 138 →
  tm2utc (set_min (tm_min tp + b) (set_hour (tm_hour tp + a) tp)) = Some (t + 3600 * a + 60 * b).
Proof.
  intros Ht Hy. unfold tm2utc in *. destruct tp as [y mo da h mi sc]. cbn [set_min set_hour tm_year tm_mon tm_mday tm_hour tm_min tm_sec] in *.
  rewrite (proj2 (Z.ltb_ge y 70)) in * by lia. rewrite Z.geb_leb in *. rewrite (proj2 (Z.leb_gt 138 y)) in * by lia.
  destruct (tbl yearSecs (y - 70)); [|done]. destruct (tbl monthSecs mo); [|done]. injection Ht as <-. f_equal. destruct (_ && _); lia.
Qed.

Lemma date2time_text z off i m dd h mi sc : zone_is z off → fields i m dd h mi sc →
  date2time (date_text i m dd h mi sc) (Some (str z)) false = Some (secs_of i m dd h mi sc - off).
Proof.
  intros Hz Hf. pose proof Hf as [Hi Hm Hdd Hh Hmi Hsc]. destruct (cum_days (leap i) m Hm) as [_ Hmd]. unfold YEARS in *.
  unfold date2time, a2tm, date_text. pose proof (Z.rem_bound_pos (70 + Z.of_nat i) 100 ltac:(lia) ltac:(lia)) as Hr.
  cbn [app]. rewrite get_year_2 by (done || lia).
  assert (Hskip : ∀ rest, skip_nondigit 0 ([47] ++ X (Z.of_nat m + 1) ++ rest) = (47, X (Z.of_nat m + 1) ++ rest)).
  { intros rest. destruct (X_head (Z.of_nat m + 1) ltac:(lia)) as (c & l & -> & Hc). cbn. by rewrite Hc, orb_true_r. }
  cbn [app] in Hskip. cbn [app]. rewrite Hskip.
  set (year := if Z.rem (70 + Z.of_nat i) 100 <? 69 then _ else _).
  assert (Ey : year = 70 + Z.of_nat i).
  { unfold year. rewrite Z.rem_mod_nonneg by lia. destruct (Z.lt_ge_cases (70 + Z.of_nat i) 100).
    - rewrite Z.mod_small by lia. by rewrite (proj2 (Z.ltb_ge _ _)) by lia.
    - replace ((70 + Z.of_nat i) mod 100) with (Z.of_nat i - 30).
      + rewrite (proj2 (Z.ltb_lt _ _)) by lia. lia.
      + replace (70 + Z.of_nat i) with (Z.of_nat i - 30 + 1 * 100) by lia. by rewrite Z.mod_add, Z.mod_small by lia. }
  rewrite Ey, Z.geb_leb, (proj2 (Z.leb_gt 1969 _)) by lia. cbn [tm_mon tm_mday tm_hour tm_min tm_sec].
  pose proof (a2tm_fields_text (mkTm (70 + Z.of_nat i) 0 1 0 0 0) (Z.of_nat m + 1) (dd + 1) h mi sc) as Ea. cbn [app tm_year] in Ea.
  rewrite Ea by lia. cbn [tm_year]. rewrite (proj2 (Z.eqb_neq _ 69)) by lia.
  replace (mkTm _ _ _ _ _ _) with (tm_of i m dd h mi sc) by (unfold tm_of; f_equal; lia).
  rewrite a2tm_truncate_fields by done. pose proof (tm2utc_fields i m dd h mi sc Hf) as Hu.
  destruct Hz as [[-> ->]|(s & zh & zm & -> & Hzh & Hzm & Hoff)].
  { cbn [str default]. unfold str. cbn. rewrite Hu. f_equal. lia. }
  change (str (Some ?x)) with x. unfold a2tm_zone. cbn [at0 hd drop]. rewrite drop_0.
  assert (Hpc : past_colon (X zh ++ 58 :: X zm) = Some (X zm)).
  { destruct (X_digits zh Hzh) as (H1 & H2 & _). unfold isdigit in *. boolify. unfold X at 1. cbn [app past_colon].
    rewrite !(proj2 (Z.eqb_neq _ 58)) by lia. done. }
  assert (Hns : (at0 (X zh ++ 58 :: X zm) =? 43) = false).
  { destruct (X_digits zh Hzh) as (H1 & _). unfold isdigit in *. boolify. unfold X at 1. cbn [app at0 hd]. apply Z.eqb_neq. lia. }
  assert (Ez : atoi (X zh ++ 58 :: X zm) = zh) by (by apply atoi_X). assert (Ezm : atoi (X zm) = zm) by (rewrite <- (app_nil_r (X zm)); by apply atoi_X).
  assert (Hy : 70 <= tm_year (tm_of i m dd h mi sc) < 138) by (cbn; lia).
  destruct Hoff as [[-> ->]|[-> ->]]; cbn [Z.eqb Pos.eqb at0 hd drop]; rewrite ?drop_0, ?Hns, Hpc, Ez, Ezm;
    [pose proof (tm2utc_shift _ (zh * -1) (zm * -1) _ Hu Hy) as E|pose proof (tm2utc_shift _ (zh * 1) (zm * 1) _ Hu Hy) as E];
    cbn [tm_min set_hour] in *; rewrite E; f_equal; lia.
Qed.

(** The date of an entry: its text, and what is read from it. *)
Lemma entry_date e off : zone_is (e_zone e) off → 0 <= d_date (e_delta e) - e_fudge e + off < END →
  ∃ i m dd h mi sc, fields i m dd h mi sc ∧ delta_strftime e = Some (date_text i m dd h mi sc) ∧
    date2time (date_text i m dd h mi sc) (Some (str (e_zone e))) false = Some (d_date (e_delta e) - e_fudge e).
Proof.
  intros Hz Hd. destruct (fields_exist _ Hd) as (i & m & dd & h & mi & sc & Hf & E). exists i, m, dd, h, mi, sc.
  split_and!; [done|by eapply delta_strftime_fields|]. rewrite (date2time_text _ off) by done. f_equal. lia.
Qed.
