(* ===== verification/TableEntry.v ===== *)
(** * TableEntry: one entry of the delta table, written and read

    The lines [entry_lines] writes for a well-formed entry, and what
    [entry_read] makes of them: the entry without the fields it inherits. *)

From S2P Require Import Prelude CStr Sccs Rev Date WebEncode Table TableRead TableOk TableDate.
From stdpp Require Import base numbers list strings sorting.
From Stdlib Require Import ZArith Lia.

Local Open Scope Z_scope.

Local Open Scope bk_scope.

Local Arguments printf_u : simpl never.
Local Arguments fmtd : simpl never.
Local Arguments pad5 : simpl never.
Local Arguments printf_x : simpl never.
Local Arguments atoi : simpl never.
Local Arguments atoi_p : simpl never.
Local Arguments strtol0 : simpl never.
Local Arguments mode2a : simpl never.

(** ** Tags *)

(** The names [d] holds, and the tags of older entries. *)
Definition names_of (d : nat) (syms : list symbol) : list cstr := map sym_name (filter (λ y, sym_meta y = d) syms).

Definition older (d : nat) (syms : list symbol) : list symbol := filter (λ y, (sym_meta y < d)%nat) syms.

(** Newest first. *)
Definition newer (x y : symbol) : Prop := (sym_meta y <= sym_meta x)%nat.

Lemma filter_all {A} (P : A → Prop) `{!∀ x, Decision (P x)} (l : list A) : Forall P l → filter P l = l.
Proof. induction 1 as [|x l Hx Hl IH]; [done|]. by rewrite filter_cons_True, IH. Qed.

Lemma filter_none {A} (P : A → Prop) `{!∀ x, Decision (P x)} (l : list A) : Forall (λ x, ¬ P x) l → filter P l = [].
Proof. induction 1 as [|x l Hx Hl IH]; [done|]. by rewrite filter_cons_False. Qed.

Lemma sym_lines_sorted d syms : StronglySorted newer syms → Forall (λ y, (sym_meta y <= d)%nat) syms →
  sym_lines d syms = (map (λ n, 1 :: 99 :: 83 :: n) (names_of d syms), older d syms).
Proof.
  induction 1 as [|y syms Hs IH Hy]; intros Hd; [done|]. apply Forall_cons in Hd as [Hyd Hd]. cbn [sym_lines].
  destruct (Nat.ltb_spec (sym_meta y) d) as [Hlt|Hge].
  - assert (Ha : Forall (λ y, (sym_meta y < d)%nat) (y :: syms)).
    { apply Forall_cons. split; [done|]. eapply Forall_impl; [exact Hy|]. unfold newer. intros z Hz. cbv beta in *. lia. }
    unfold names_of, older. rewrite filter_none, filter_all; [done|done|].
    eapply Forall_impl; [exact Ha|]. intros z Hz. cbv beta in *. lia.
  - assert (Ey : sym_meta y = d) by lia. rewrite IH by done. rewrite Ey, Nat.eqb_refl.
    unfold names_of, older. rewrite filter_cons_True by done. rewrite filter_cons_False by lia. done.
Qed.

Lemma meta_lines_of cset t d syms user host : wf_entry cset t (0 <? length (names_of d syms))%nat d →
  (eparent (ent t d) ≠ 0%nat → mode_is (ent t (eparent (ent t d)))) → host_is (e_userhost (ent t d)) user host →
  StronglySorted newer syms → Forall (λ y, (sym_meta y <= d)%nat) syms →
  (has_flag (ent t d) D_SYMBOLS = false → Forall (λ y, sym_meta y ≠ d) syms) →
  meta_lines cset t d false syms = Some (mlist cset t d host (names_of d syms), older d syms).
Proof.
  intros Hwf Hpm Hh Hs Hle Hsym. unfold meta_lines. rewrite (mode_line_opt t d cset _ Hwf Hpm).
  assert (Ha : negb (has_flag (ent t d) D_CSET) || negb (has_flag (ent t d) D_TAG) = true).
  { destruct (has_flag (ent t d) D_TAG) eqn:Et; [|by rewrite orb_true_r]. destruct (we_tag _ _ _ _ Hwf Et) as (_ & -> & _). done. }
  assert (Hg : negb (has_flag (ent t d) D_SYMGRAPH) || cset = true).
  { pose proof (we_graph _ _ _ _ Hwf) as Hgr. cbn zeta in Hgr. destruct (has_flag (ent t d) D_SYMGRAPH); [|done]. by destruct Hgr as (-> & _). }
  rewrite Ha. assert (Es : (if has_flag (ent t d) D_SYMBOLS then sym_lines d syms else ([], syms)) =
    (map (λ n, 1 :: 99 :: 83 :: n) (names_of d syms), older d syms)).
  { destruct (has_flag (ent t d) D_SYMBOLS); [by apply sym_lines_sorted|]. specialize (Hsym eq_refl).
    unfold names_of, older. rewrite filter_none by done. rewrite filter_all; [done|].
    apply Forall_forall. intros y Hy. rewrite Forall_forall in Hle, Hsym. specialize (Hle y Hy). specialize (Hsym y Hy). cbv beta in *. lia. }
  rewrite Es. cbn zeta. rewrite Hg. rewrite (host_line_opt t d user host Hh), (path_line_opt t d) by apply (we_path _ _ _ _ Hwf).
  unfold mlist. do 3 f_equal. unfold sum_line, symgraph_line. by destruct host, (has_flag (ent t d) D_TAG).
Qed.

(** ** The first two lines *)

Lemma atoiMult_digits s rest : Forall digit s → isdigit (at0 rest) = false → ∀ v, atoiMult_loop v (s ++ rest) = (fst (atoi_loop v s), rest).
Proof.
  intros Hs Hr. induction Hs as [|c s Hc Hs IH]; intros v; cbn [app atoiMult_loop atoi_loop].
  - destruct rest as [|c rest]; [done|]. cbn in *. by rewrite Hr.
  - rewrite (proj2 (isdigit_digit c) Hc). rewrite u8_digit by done. unfold digit in Hc. rewrite (proj2 (Z.ltb_lt _ 10)) by lia.
    rewrite IH. do 4 f_equal. lia.
Qed.

Lemma fmtd_digits n : u31 n → Forall digit (fmtd n) ∧ fst (atoi_loop 0 (fmtd n)) = n.
Proof.
  intros Hn. destruct (atoi_fmtd n [] Hn ltac:(done)) as [_ E]. rewrite app_nil_r in E. unfold u31 in Hn. split.
  - rewrite fmtd_small by done. apply dec_digits_digit. lia.
  - unfold atoi_p in E. by rewrite E.
Qed.

(** What ends a count. *)
Definition count_end (rest : cstr) : Prop := rest = [] ∨ at0 rest = 47 ∨ at0 rest = 32.

Lemma atoiMult_fmtd n rest : u31 n → count_end rest → atoiMult_p (fmtd n ++ rest) = (n, rest).
Proof.
  intros Hn Hr. destruct (fmtd_digits n Hn) as [Hd Hv]. unfold atoiMult_p. rewrite atoiMult_digits; [|done|].
  - rewrite Hv. destruct rest as [|c rest]; [done|]. destruct Hr as [|[Hr|Hr]]; [done|cbn in Hr; by subst c..].
  - destruct Hr as [-> |[-> | ->]]; done.
Qed.

Lemma scan_s_line fa e : u31 (e_added e) → u31 (e_deleted e) → u31 (e_same e) →
  scan_counts (s_line fa e) = (e_added e, e_deleted e, e_same e) ∧ take 3 (s_line fa e) = [1; 115; 32].
Proof.
  intros Ha Hd Hs.
  assert (E : ∃ pad, s_line fa e = 1 :: 115 :: 32 :: fmtd (e_added e) ++ 47 :: fmtd (e_deleted e) ++ 47 :: fmtd (e_same e) ++ pad ∧ count_end pad).
  { unfold s_line. destruct fa.
    - exists (replicate (43 - length (1 :: 115 :: 32 :: fmtd (e_added e) ++ 47 :: fmtd (e_deleted e) ++ 47 :: fmtd (e_same e))) 32). split.
      + cbn [app]. change (s2b "s "%string) with [115; 32]. cbn [app]. do 3 f_equal. rewrite <- !app_assoc. cbn [app]. by rewrite <- !app_assoc.
      + destruct (43 - _)%nat; [by left|right; by right].
    - exists []. split; [by rewrite app_nil_r|by left]. }
  destruct E as (pad & -> & Hp). split; [|done]. unfold scan_counts. cbn [drop]. rewrite drop_0.
  rewrite atoiMult_fmtd by (done || right; by left). cbn [drop]. rewrite drop_0.
  rewrite atoiMult_fmtd by (done || right; by left). cbn [drop]. rewrite drop_0. by rewrite atoiMult_fmtd.
Qed.

Lemma until_at stop a c r : Forall (λ x, stop x = false) a → stop c = true → until stop (a ++ c :: r) = Some (a, c :: r).
Proof. intros Ha Hc. induction Ha as [|x a Hx Ha IH]; cbn [app until]; [by rewrite Hc|]. by rewrite Hx, IH. Qed.

Lemma copy_to_at cap stop a c r : Forall (λ x, stop x = false) a → stop c = true → (length a < cap)%nat → copy_to cap stop (a ++ c :: r) = Some (a, c :: r).
Proof. intros Ha Hc Hl. unfold copy_to. rewrite until_at by done. by rewrite (proj2 (Nat.ltb_lt _ _)). Qed.

Lemma dec_digits_length fuel : ∀ n, (length (dec_digits fuel n) <= fuel)%nat.
Proof.
  induction fuel as [|fuel IH]; intros n; cbn [dec_digits]; [done|]. destruct (n <? 10); cbn [length]; [lia|].
  rewrite length_app. specialize (IH (n / 10)). cbn [length]. lia.
Qed.

Lemma printf_u_length n : (length (printf_u n) <= 20)%nat.
Proof. apply dec_digits_length. Qed.

Lemma fmtd_length z : (length (fmtd z) <= 21)%nat.
Proof.
  unfold fmtd, printf_d. pose proof (printf_u_length (if z <? 2 ^ 31 then z else z - 2 ^ 32)). destruct (_ <? 0); cbn [length]; [|lia].
  pose proof (printf_u_length (- (if z <? 2 ^ 31 then z else z - 2 ^ 32))). lia.
Qed.

Lemma rev_text_ok r : wf_rev r →
  Forall (λ c, (c =? 32) = false) (revtext (rev_nums r)) ∧ (length (revtext (rev_nums r)) < 100)%nat.
Proof.
  intros Hr. pose proof (wr_small r Hr) as Hs. split.
  - eapply Forall_impl; [by apply revtext_chars|]. intros c [Hc| ->]; [unfold digit in Hc; lia|done].
  - assert (Hl : ∀ l, Forall small l → (length (revtext l) <= 21 * length l)%nat).
    { induction 1 as [|n l Hn Hl IH]; [done|]. assert (Hp : (length (printf_n n) <= 20)%nat) by (rewrite printf_n_u by done; apply printf_u_length).
      destruct l; cbn [revtext length] in *; [lia|]. rewrite length_app. cbn [length] in *. lia. }
    specialize (Hl _ Hs). destruct (rev_nums_length r) as [E|E]; rewrite E in Hl; lia.
Qed.

Lemma dl_ent t d : dl (to_sccs t) d = e_delta (ent t d).
Proof. destruct d as [|k]; [done|]. cbn. by rewrite <- (map_nth e_delta). Qed.

Lemma X_chars n : 0 <= n < 100 → Forall digit (X n) ∧ length (X n) = 2%nat.
Proof.
  intros Hn. destruct (X_digits n Hn) as (H1 & H2 & _). rewrite isdigit_digit in H1, H2. split; [|done].
  by apply Forall_cons; split; [|apply Forall_singleton].
Qed.

(** The date and the time of day. *)
Lemma date_text_split i m dd h mi sc : fields i m dd h mi sc → ∃ a b, date_text i m dd h mi sc = a ++ 32 :: b ∧
  length a = 8%nat ∧ length b = 8%nat ∧ Forall (λ c, (c =? 32) = false) a ∧ Forall (λ c, (c =? 32) || (c =? 46) = false) b.
Proof.
  intros [Hi Hm Hdd Hh Hmi Hsc]. destruct (cum_days (leap i) m Hm) as [_ Hmd].
  pose proof (Z.rem_bound_pos (70 + Z.of_nat i) 100 ltac:(lia) ltac:(lia)) as Hy.
  destruct (X_chars _ Hy) as [Cy Ly]. destruct (X_chars (Z.of_nat m + 1) ltac:(lia)) as [Cm Lm]. destruct (X_chars (dd + 1) ltac:(lia)) as [Cd Ld].
  destruct (X_chars h ltac:(lia)) as [Ch Lh]. destruct (X_chars mi ltac:(lia)) as [Ci Li]. destruct (X_chars sc ltac:(lia)) as [Cs Ls].
  assert (H1 : ∀ l, Forall digit l → Forall (λ c, (c =? 32) = false) l).
  { intros l Hl. eapply Forall_impl; [exact Hl|]. unfold digit. intros c Hc. lia. }
  assert (H2 : ∀ l, Forall digit l → Forall (λ c, (c =? 32) || (c =? 46) = false) l).
  { intros l Hl. eapply Forall_impl; [exact Hl|]. unfold digit. intros c Hc. lia. }
  exists (X (Z.rem (70 + Z.of_nat i) 100) ++ [47] ++ X (Z.of_nat m + 1) ++ [47] ++ X (dd + 1)), (X h ++ [58] ++ X mi ++ [58] ++ X sc).
  split; [unfold date_text; cbn [app]; by rewrite <- !app_assoc|].
  rewrite !length_app, Ly, Lm, Ld, Lh, Li, Ls. split_and!; [done..| |]; repeat (apply Forall_app; split); auto; by apply Forall_singleton.
Qed.

Lemma scan_d_line t d user host i m dd h mi sc :
  INARRAY (to_sccs t) d = true → wf_rev (d_r (e_delta (ent t d))) → host_is (e_userhost (ent t d)) user host →
  fields i m dd h mi sc → delta_strftime (ent t d) = Some (date_text i m dd h mi sc) → u31 (Z.of_nat d) →
  ∃ L, d_line t d = Some L ∧ take 3 L = [1; 100; 32] ∧ (length L <= 300)%nat ∧
    scan_delta L = Some (inl (if has_flag (ent t d) D_TAG then 82 else 68, revtext (rev_nums (d_r (e_delta (ent t d)))),
      date_text i m dd h mi sc, user, Z.of_nat d, 32 :: fmtd (Z.of_nat (eparent (ent t d))))).
Proof.
  intros Hin Hr (Hu & H64 & H32 & Hlu & Hh) Hf Hs Hd. unfold d_line. rewrite Hs, delta_rev_text by done.
  replace (R_of (to_sccs t) d) with (d_r (e_delta (ent t d))) by (unfold R_of; by rewrite dl_ent).
  assert (Ef : fulluser (str (e_userhost (ent t d))) = user).
  { rewrite Hu. change (str (Some ?x)) with x. unfold fulluser. destruct host as [x|].
    - rewrite strchr_at by done. rewrite length_app. apply take_app_length'. lia.
    - by rewrite app_nil_r, strchr_none. }
  rewrite Ef. eexists. split; [reflexivity|]. split; [done|].
  destruct (rev_text_ok _ Hr) as [Hrc Hrl]. destruct (date_text_split _ _ _ _ _ _ Hf) as (a & b & E & La & Lb & Ca & Cb). rewrite E.
  split.
  { change (s2b "d "%string) with [100; 32]. repeat (rewrite ?length_app; cbn [length app]). pose proof (fmtd_length (Z.of_nat d)). pose proof (fmtd_length (Z.of_nat (eparent (ent t d)))). lia. }
  unfold scan_delta. change (s2b "d "%string) with [100; 32]. cbn [app drop nth]. rewrite drop_0.
  rewrite copy_to_at by done. cbn [drop]. rewrite drop_0, <- app_assoc. cbn [app]. rewrite copy_to_at by (done || lia). cbn [drop]. rewrite drop_0.
  rewrite copy_to_at by (done || lia). cbn [at0 hd]. change (32 =? 32) with true. cbn [negb drop]. rewrite drop_0.
  rewrite copy_to_at; [|apply Forall_forall; intros c Hc; apply Z.eqb_neq; by intros -> |done|done]. cbn [drop]. rewrite drop_0.
  destruct (atoi_fmtd (Z.of_nat d) (32 :: fmtd (Z.of_nat (eparent (ent t d)))) Hd ltac:(done)) as [_ ->]. done.
Qed.

(** ** Lines fit into the buffer *)

Definition short_line (L : cstr) : Prop := (length L <= 2050)%nat.

Lemma pad5_length n : (length (pad5 n) <= 25)%nat.
Proof. unfold pad5. rewrite length_app, length_replicate. pose proof (printf_u_length n). lia. Qed.

Lemma printf_x_length n : (length (printf_x n) <= 16)%nat.
Proof.
  unfold printf_x. generalize 16%nat. intros f. revert n. induction f as [|f IH]; intros n; cbn [hex_digits]; [done|].
  destruct (n <? 16); cbn [length]; [lia|]. rewrite length_app. specialize (IH (n / 16)). cbn [length]. lia.
Qed.

Lemma symgraph_text_length p m leaf : (length (symgraph_text p m leaf) <= 60)%nat.
Proof.
  unfold symgraph_text. pose proof (fmtd_length (Z.of_nat p)). pose proof (fmtd_length (Z.of_nat m)). pose proof (fmtd_length 0).
  destruct (negb (p =? 0)%nat), (negb (m =? 0)%nat), leaf; rewrite ?length_app; cbn [length]; lia.
Qed.

Lemma mode2a_length m : (length (mode2a m) <= 10)%nat.
Proof. unfold mode2a. by destruct (negb _). Qed.

Lemma opt_short (c : bool) L : (c = true → short_line L) → Forall short_line (opt c L).
Proof. intros H. destruct c; [|by apply Forall_nil]. apply Forall_singleton. auto. Qed.

Lemma mlist_short cset t d user host own names : wf_entry cset t own d → host_is (e_userhost (ent t d)) user host →
  Forall (λ n, (length n <= 1000)%nat) names → Forall short_line (mlist cset t d host names).
Proof.
  intros Hwf Hh Hn. unfold mlist. unfold short_line in *.
  pose proof (we_path _ _ _ _ Hwf) as [Hp _]. pose proof (we_csetfile _ _ _ _ Hwf) as (_ & Hc & _).
  pose proof (we_bamhash _ _ _ _ Hwf) as [Hb _]. pose proof (we_random _ _ _ _ Hwf) as Hr. unfold short in *.
  assert (Hpl : (length (str (e_path (ent t d))) + length (str (e_sortpath (ent t d))) <= 2000)%nat).
  { destruct Hp as [[-> ->]|(p & q & -> & -> & _ & _ & H1 & H2)]; [cbn; lia|]. change (str (Some ?x)) with x. lia. }
  repeat (apply Forall_app; split); try (apply opt_short; intros Hcond; unfold short_line; cbn [length]; rewrite ?length_app).
  - lia.
  - lia.
  - lia.
  - lia.
  - pose proof (printf_u_length (e_fudge (ent t d))). lia.
  - destruct host as [x|]; [|done]. destruct Hh as (_ & _ & _ & _ & _ & Hh). change (str (Some x)) with x. lia.
  - pose proof (pad5_length (e_sum (ent t d))). pose proof (pad5_length (e_sortsum (ent t d))). destruct (_ =? _); cbn [length]; lia.
  - pose proof (fmtd_length (Z.of_nat (d_merge (e_delta (ent t d))))). lia.
  - destruct (negb _); cbn [length]; lia.
  - pose proof (mode2a_length (e_mode (ent t d))). destruct (we_mode _ _ _ _ Hwf) as [[_ ->]|(_ & Hm & _)]; [cbn; lia|]. unfold short in Hm.
    destruct (has _); cbn [length]; lia.
  - lia.
  - apply Forall_map. eapply Forall_impl; [exact Hn|]. intros n Hl. unfold short_line. cbn [length]. cbv beta in *. lia.
  - pose proof (symgraph_text_length (d_ptag (e_delta (ent t d))) (d_mtag (e_delta (ent t d))) (has_flag (ent t d) D_SYMLEAF)). lia.
  - pose proof (printf_u_length SCCS_VERSION). lia.
  - pose proof (printf_x_length (e_xflags (ent t d))). lia.
  - destruct (we_date _ _ _ _ Hwf) as (off & [[-> _]|(s & h & m & -> & _)] & _); cbn; lia.
Qed.

(** ** A whole entry *)

(** What is assumed of the tags while entry [d] is written: those of newer entries
    are gone. *)
Record tags_ok (cset : bool) (t : table) (d : nat) (syms : list symbol) : Prop := {
  to_sorted : StronglySorted newer syms;
  to_le : Forall (λ y, (sym_meta y <= d)%nat) syms;
  to_flag : has_flag (ent t d) D_SYMBOLS = false → Forall (λ y, sym_meta y ≠ d) syms;
  to_names : Forall (λ y, isdigit (at0 (sym_name y)) = false ∧ (length (sym_name y) <= 1000)%nat) syms;
  to_cset : syms ≠ [] → cset = true
}.

Lemma names_of_forall (P : cstr → Prop) d syms : Forall (λ y, P (sym_name y)) syms → Forall P (names_of d syms).
Proof. intros H. apply Forall_map, Forall_forall. intros y [_ Hy]%list_elem_of_filter. rewrite Forall_forall in H. by apply H. Qed.

Lemma names_nil d syms : names_of d syms ≠ [] → syms ≠ [].
Proof. by intros H ->. Qed.

(** The lines of an entry. *)
Definition lines_of (cset : bool) (t : table) (d : nat) (fa : bool) (dl : cstr) (host : option cstr) (names : list cstr) : list cstr :=
  s_line fa (ent t d) :: dl :: clude_lines (d_cludes (e_delta (ent t d))) ++ comment_lines (ent t d) ++
  mlist cset t d host names ++ [1 :: s2b "e"%string].

Lemma forallb_fits ls : Forall short_line ls → forallb fits ls = true.
Proof.
  intros H. apply forallb_forall. intros L HL. rewrite <- list_elem_of_In in HL. rewrite Forall_forall in H. specialize (H L HL).
  unfold short_line in H. unfold fits. apply Nat.leb_le. lia.
Qed.

Lemma s_line_length fa e : (length (s_line fa e) <= 120)%nat.
Proof.
  pose proof (fmtd_length (e_added e)). pose proof (fmtd_length (e_deleted e)). pose proof (fmtd_length (e_same e)).
  unfold s_line. set (l := 1 :: s2b "s "%string ++ _). assert (Hl : (length l <= 70)%nat).
  { unfold l. change (s2b "s "%string) with [115; 32]. repeat (rewrite ?length_app; cbn [length app]). lia. }
  destruct fa; [|lia]. rewrite length_app, length_replicate. lia.
Qed.

Lemma entry_lines_of cset t d fa syms user host dl :
  wf_entry cset t (0 <? length (names_of d syms))%nat d → (eparent (ent t d) ≠ 0%nat → mode_is (ent t (eparent (ent t d)))) →
  host_is (e_userhost (ent t d)) user host → tags_ok cset t d syms → d_line t d = Some dl → (length dl <= 300)%nat →
  entry_lines true cset t d false fa syms = Some (inl (lines_of cset t d fa dl host (names_of d syms), older d syms)).
Proof.
  intros Hwf Hpm Hh Ht Hd Hl. unfold entry_lines. pose proof (we_flags _ _ _ _ Hwf) as Hfl. cbn zeta in Hfl.
  pose proof (has_mkflags (has_flag (ent t d) D_TAG) (has_flag (ent t d) D_CSET) (has_flag (ent t d) D_DANGLING) (has_flag (ent t d) D_SYMBOLS)
    (has_flag (ent t d) D_SYMGRAPH) (has_flag (ent t d) D_SYMLEAF)) as Hm. cbn zeta in Hm. rewrite <- Hfl in Hm.
  destruct Hm as (_ & _ & _ & Hm0 & Hgone). fold (has_flag (ent t d) D_GONE) in Hgone.
  rewrite (proj2 (Z.eqb_neq _ 0) Hm0), Hgone. cbn [negb andb].
  assert (Etag : has_flag (ent t d) D_TAG && (negb cset || negb (has_flag (ent t d) (Z.lor D_SYMBOLS D_SYMGRAPH))) = false).
  { destruct (has_flag (ent t d) D_TAG) eqn:Et; [|done]. destruct (we_tag _ _ _ _ Hwf Et) as (-> & _ & Hown & _). cbn [andb negb orb].
    apply negb_false_iff. unfold has_flag. rewrite Z.land_lor_distr_r. apply negb_true_iff, Z.eqb_neq. intros E. apply Z.lor_eq_0_iff in E as [E1 E2].
    destruct Hown as [Hown|Hown].
    - assert (E : has_flag (ent t d) D_SYMBOLS = false) by (unfold has_flag; by rewrite E1). pose proof (to_flag _ _ _ _ Ht E) as Hn.
      unfold names_of in Hown. by rewrite filter_none in Hown.
    - unfold has_flag in Hown. by rewrite E2 in Hown. }
  rewrite Etag. assert (Eord : negb (eparent (ent t d) =? 0)%nat && true && (d_date (e_delta (ent t d)) <=? d_date (e_delta (ent t (eparent (ent t d))))) = false).
  { destruct (Nat.eqb_spec (eparent (ent t d)) 0) as [|Hp]; [done|]. cbn [negb andb]. apply Z.leb_gt. by apply (we_order _ _ _ _ Hwf). }
  rewrite Eord, Hd. rewrite (meta_lines_of cset t d syms user host Hwf Hpm Hh) by apply Ht.
  rewrite forallb_fits; [done|]. apply Forall_app. split.
  - pose proof (s_line_length fa (ent t d)). repeat (apply Forall_cons; split); [unfold short_line; lia..|by apply Forall_nil].
  - eapply mlist_short; [done|done|]. apply names_of_forall. eapply Forall_impl; [apply (to_names _ _ _ _ Ht)|]. by intros y [_ Hy].
Qed.

Lemma set_ent_id t d : set_ent t d (ent t d) = t.
Proof.
  destruct d as [|k]; [done|]. cbn. destruct (decide (k < length t)%nat) as [Hk|Hk].
  - destruct (lookup_lt_is_Some_2 t k Hk) as [x Hx]. rewrite (nth_lookup_Some _ _ _ _ Hx). by apply list_insert_id.
  - apply list_insert_ge. lia.
Qed.

Lemma take3 L a b c : take 3 L = [a; b; c] → at0 L = a ∧ nth 1 L 0 = b ∧ nth 2 L 0 = c.
Proof. destruct L as [|x [|y [|z L]]]; try done. cbn. by intros [= -> -> ->]. Qed.

(** The entry of [d] before its fields are inherited. *)
Definition raw_of (t : table) (d : nat) (user : cstr) (host : option cstr) (own : bool) : entry :=
  on_delta (set_cludes (d_cludes (e_delta (ent t d)))) (raw_ent t d user host own).

Definition set_text (D : list cstr) (d : nat) (x : cstr) : list cstr := match d with O => D | S k => <[k := x]> D end.

(** A tag delta has a line. *)
Lemma mlist_ne cset t d host names : (0 <? length names)%nat = true ∨ has_flag (ent t d) D_SYMGRAPH = true → mlist cset t d host names ≠ [].
Proof.
  intros H E. unfold mlist in E. cbv zeta in E. rewrite !app_nil in E. destruct E as (_ & _ & _ & _ & _ & _ & _ & _ & _ & _ & _ & E1 & E2 & _).
  destruct H as [H|H]; [by destruct names|]. by rewrite H in E2.
Qed.

Lemma body_entry cset t T D d c cs user host names Y b v rest e0 :
  wf_entry cset t (0 <? length names)%nat d → in_table T d → host_is (e_userhost (ent t d)) user host →
  Forall (λ n, isdigit (at0 n) = false) names → (names ≠ [] → cset = true) →
  clude_is (d_cludes (e_delta (ent t d))) c cs → e_comments e0 = None →
  touch (set_e_comments (e_comments (ent t d)) e0) = start_ent (ent t d) user → has_flag e0 D_TAG = has_flag (ent t d) D_TAG →
  ∃ b' v', body cset PCludes d (clude_lines (d_cludes (e_delta (ent t d))) ++ comment_lines (ent t d) ++
      mlist cset t d host names ++ (1 :: s2b "e"%string) :: rest) [] (at_ent T D d e0 Y b v) =
    Some (inl (rest, d_cludes (e_delta (ent t d)), at_ent T D d (raw_ent t d user host (0 <? length names)%nat) (Y ++ map (pair d) names) b' v')).
Proof.
  intros Hwf Hd Hh Hn Hnc Hcl Hc0 Ht Htag. destruct (we_comments _ _ _ _ Hwf) as (ls & Hls). destruct (entry_meta cset t T D d user host names Y b v Hwf Hd Hh Hn Hnc) as (b' & v' & Hrun).
  exists b', v'. rewrite (body_cludes _ _ _ _ _ _ _ Hcl), (comment_lines_of _ _ Hls), body_comments; [|done|]; last first.
  { destruct ls; [by right|by left]. }
  rewrite body_meta by apply mlist_like. rewrite run_touch; [|done|].
  - assert (E : match ls with [] => e_comments e0 | _ => Some (str (e_comments e0) ++ concat (map (λ l, l ++ [10]) ls)) end = e_comments (ent t d)).
    { destruct Hls as [_ ->]. by destruct ls; rewrite Hc0. }
    rewrite E, Ht. by rewrite Hrun.
  - destruct (has_flag (ent t d) D_TAG) eqn:Et; [|right].
    + left. destruct (we_tag _ _ _ _ Hwf Et) as (_ & _ & Hown & _). by apply mlist_ne.
    + done.
Qed.

(** The entry after its second line. *)
Definition head_ent (e : entry) (user : cstr) : entry :=
  mkEnt (mkDelta (eparent e) 0 0 0 0 (if has_flag e D_TAG then Z.lor (Z.lor 0 D_INARRAY) D_TAG else Z.lor 0 D_INARRAY) [] (d_r (e_delta e)))
    (e_added e) (e_deleted e) (e_same e) 0 0 0 0 0 None None None (Some user) None None None None None.

Lemma raw_not_gone cset t d user host own : wf_entry cset t own d →
  cset && (has_flag (raw_ent t d user host own) D_TAG &&
  (negb (has_flag (raw_ent t d user host own) D_SYMGRAPH) && negb (has_flag (raw_ent t d user host own) D_SYMBOLS))) = false.
Proof.
  intros Hwf. unfold has_flag, raw_ent, eflags. norm.
  destruct (has_mkflags (has_flag (ent t d) D_TAG) (has_flag (ent t d) D_CSET) (has_flag (ent t d) D_DANGLING) own
    (has_flag (ent t d) D_SYMGRAPH) (has_flag (ent t d) D_SYMLEAF)) as (Ht & Hg & Hs & _).
  fold (has_flag (ent t d) D_TAG) (has_flag (ent t d) D_CSET) (has_flag (ent t d) D_DANGLING) (has_flag (ent t d) D_SYMGRAPH) (has_flag (ent t d) D_SYMLEAF) in *.
  rewrite Ht, Hg, Hs. destruct (has_flag (ent t d) D_TAG) eqn:Et; [|by rewrite andb_false_r].
  destruct (we_tag _ _ _ _ Hwf Et) as (_ & _ & [-> | ->] & _); by rewrite ?andb_false_r.
Qed.

Lemma entry_read_of cset t T D d fa dl date user host names Y b v st rest :
  wf_entry cset t (0 <? length names)%nat d → in_table T d → ent T d = null_ent → host_is (e_userhost (ent t d)) user host →
  Forall (λ n, isdigit (at0 n) = false) names → (names ≠ [] → cset = true) → u31 (Z.of_nat d) →
  first_table (Z.of_nat d) st = mkRd T D Y b false v → take 3 dl = [1; 100; 32] → u31 (Z.of_nat (eparent (ent t d))) →
  scan_delta dl = Some (inl (if has_flag (ent t d) D_TAG then 82 else 68, revtext (rev_nums (d_r (e_delta (ent t d)))),
    date, user, Z.of_nat d, 32 :: fmtd (Z.of_nat (eparent (ent t d))))) →
  ∃ b' v', entry_read cset (s_line fa (ent t d)) (drop 1 (lines_of cset t d fa dl host names) ++ rest) st =
    Some (inl (rest, at_ent T (set_text D d date) d (raw_of t d user host (0 <? length names)%nat) (Y ++ map (pair d) names) b' v')).
Proof.
  intros Hwf Hd Hnull Hh Hn Hnc Hd31 Hst H3 Hpar Hscan. destruct (we_cludes _ _ _ _ Hwf) as (incs & excs & Hcl).
  destruct (we_counts _ _ _ _ Hwf) as (Ca & Cd & Cs). destruct (scan_s_line fa (ent t d) Ca Cd Cs) as [Hsc Hs3].
  pose proof (we_rev _ _ _ _ Hwf) as Hrev.
  destruct (body_entry cset t T (set_text D d date) d incs excs user host names Y b v rest (head_ent (ent t d) user) Hwf Hd Hh Hn Hnc Hcl) as (b' & v' & Hbody).
  { done. } { unfold touch, head_ent, start_ent, has_flag at 1, eflags. norm. by destruct (has_flag (ent t d) D_TAG). }
  { unfold has_flag at 1, head_ent, eflags. norm. by destruct (has_flag (ent t d) D_TAG). }
  exists b', v'. unfold lines_of. cbn [drop app]. rewrite ?drop_0. unfold entry_read.
  destruct (take3 _ _ _ _ Hs3) as (-> & -> & ->). cbn [Z.eqb Pos.eqb andb negb]. rewrite Hsc.
  cbn [app]. destruct (take3 _ _ _ _ H3) as (-> & -> & ->). cbn [Z.eqb Pos.eqb andb negb]. rewrite Hscan, Hst. cbn [rd_ents]. rewrite Nat2Z.id.
  destruct Hd as [Hd1 Hd2] eqn:EHd. rewrite (proj2 (Nat.leb_le 1 d)), (proj2 (Nat.leb_le d (length T))) by done. cbn [andb].
  change (at0 (32 :: _)) with 32. change (32 =? 32) with true. cbn [negb drop]. rewrite drop_0.
  rewrite <- (app_nil_r (fmtd (Z.of_nat (eparent (ent t d))))). destruct (atoi_fmtd (Z.of_nat (eparent (ent t d))) [] Hpar ltac:(done)) as [-> _].
  rewrite Nat2Z.id, strcnt_revtext by apply (wr_small _ Hrev). rewrite (proj2 (Nat.ltb_ge 3 _)) by (destruct (rev_nums_length (d_r (e_delta (ent t d)))) as [-> | ->]; lia).
  rewrite scan4_nums by done.
  assert (E0 : mkRd T D Y b false v = at_ent T D d null_ent Y b v) by (unfold at_ent; by rewrite <- Hnull, set_ent_id).
  rewrite E0, on_ent_at by (by split).
  assert (E1 : (if (if has_flag (ent t d) D_TAG then 82 else 68) =? 82 then
     on_ent d (add_flag D_TAG) (at_ent T D d (set_e_counts (e_added (ent t d)) (e_deleted (ent t d)) (e_same (ent t d)) (add_flag D_INARRAY null_ent)) Y b v)
     else at_ent T D d (set_e_counts (e_added (ent t d)) (e_deleted (ent t d)) (e_same (ent t d)) (add_flag D_INARRAY null_ent)) Y b v) =
    at_ent T D d (set_e_counts (e_added (ent t d)) (e_deleted (ent t d)) (e_same (ent t d))
      (on_delta (set_flags (if has_flag (ent t d) D_TAG then Z.lor (Z.lor 0 D_INARRAY) D_TAG else Z.lor 0 D_INARRAY)) null_ent)) Y b v).
  { destruct (has_flag (ent t d) D_TAG); [|done]. cbn [Z.eqb Pos.eqb]. by rewrite on_ent_at by (by split). }
  rewrite E1, !on_ent_at by (by split). change (set_sdate d date (at_ent T D d ?e Y b v)) with (at_ent T (set_text D d date) d e Y b v).
  rewrite on_ent_at by (by split).
  match goal with |- context [body _ _ _ _ _ (at_ent _ _ _ ?e _ _ _)] => change e with (head_ent (ent t d) user) end.
  rewrite <- app_assoc, <- app_assoc, <- app_assoc. cbn [app]. rewrite Hbody. rewrite ent_at by (by split).
  rewrite <- !andb_assoc, raw_not_gone by done. unfold raw_of. destruct (d_cludes (e_delta (ent t d))) eqn:Ec; cbn [length Nat.ltb Nat.leb].
  - done.
  - by rewrite on_ent_at by (by split).
Qed.
