(* ===== verification/TableRound.v ===== *)
(** * TableRound: the delta table survives writing and reading

    [delta_table] followed by [mkgraph] gives back a well-formed table with its
    tags: the entries are read, the inherited fields and the dates are restored
    oldest first, and the tags are put back on their deltas. *)

From S2P Require Import Prelude CStr Sccs Rev Date WebEncode Table TableRead TableOk TableDate TableEntry.
From stdpp Require Import base numbers list strings sorting.
From Stdlib Require Import ZArith Lia.

Local Open Scope Z_scope.

Local Open Scope bk_scope.

Local Arguments s_line : simpl never.
Local Arguments d_line : simpl never.

(** ** Well-formed tables *)

Record wf_tag (cset : bool) (t : table) (y : symbol) : Prop := {
  wy_meta : in_table t (sym_meta y);
  wy_ser : real_delta (length t) t (sym_meta y) = Some (sym_ser y) ∧ sym_ser y ≠ 0%nat;
  wy_marked : has_flag (ent t (sym_meta y)) D_SYMBOLS = true ∧ has_flag (ent t (sym_ser y)) D_SYMBOLS = true;
  wy_name : isdigit (at0 (sym_name y)) = false ∧ (length (sym_name y) <= 1000)%nat
}.

(** [own]: whether an entry holds a tag. *)
Definition own (symlist : list symbol) (d : nat) : bool := (0 <? length (names_of d symlist))%nat.

Record wf_table (cset : bool) (t : table) (symlist : list symbol) : Prop := {
  wt_size : (1 <= length t)%nat ∧ u31 (Z.of_nat (length t));
  wt_entry : ∀ d, in_table t d → wf_entry cset t (own symlist d) d;
  wt_sorted : StronglySorted (λ x y, newer y x) symlist;
  wt_tag : Forall (wf_tag cset t) symlist;
  wt_cset : symlist ≠ [] → cset = true;
  wt_marks : ∀ d, in_table t d → has_flag (ent t d) D_SYMBOLS = true → Exists (λ y, sym_meta y = d ∨ sym_ser y = d) symlist;
  wt_xflags : default_xflags true cset t = t
}.

(** ** Entries, newest first *)

Lemma s_line_head fa e ls : ∃ L ls', s_line fa e :: ls = (1 :: L) :: ls'.
Proof. unfold s_line. destruct fa; cbn [app]; eauto. Qed.

Definition user_of (e : entry) : cstr := fulluser (str (e_userhost e)).

Definition host_of (e : entry) : option cstr := option_map (drop 1) (strchr (str (e_userhost e)) 64).

Lemma host_is_of e user host : host_is (e_userhost e) user host → user = user_of e ∧ host = host_of e.
Proof.
  intros (Hu & H64 & _). unfold user_of, host_of, fulluser. rewrite Hu. change (str (Some ?x)) with x. destruct host as [h|].
  - rewrite strchr_at by done. cbn. rewrite drop_0, length_app, take_app_length' by (cbn [length]; lia). done.
  - by rewrite app_nil_r, strchr_none.
Qed.

Lemma step_ok cset t d fa syms :
  wf_entry cset t (own syms d) d → in_table t d → (eparent (ent t d) ≠ 0%nat → mode_is (ent t (eparent (ent t d)))) →
  u31 (Z.of_nat (length t)) → tags_ok cset t d syms →
  ∃ lines date, entry_lines true cset t d false fa syms = Some (inl (lines, older d syms)) ∧ delta_strftime (ent t d) = Some date ∧ (∃ L ls, lines = (1 :: L) :: ls) ∧
    ∀ T D Y b v st fuel rest, in_table T d → ent T d = null_ent → first_table (Z.of_nat d) st = mkRd T D Y b false v →
    ∃ b' v', entries_loop cset (S fuel) (lines ++ rest) st =
      entries_loop cset fuel rest (at_ent T (set_text D d date) d (raw_of t d (user_of (ent t d)) (host_of (ent t d)) (own syms d))
        (Y ++ map (pair d) (names_of d syms)) b' v').
Proof.
  intros Hwf Hd Hpm Hl Ht. destruct (we_host _ _ _ _ Hwf) as (user & host & Hh). destruct (host_is_of _ _ _ Hh) as [Eu Eh].
  destruct (we_date _ _ _ _ Hwf) as (off & Hz & _ & _ & Hdt). destruct (entry_date _ off Hz Hdt) as (i & m & dd & h & mi & sc & Hf & Hs & _).
  assert (Hd31 : u31 (Z.of_nat d)) by (unfold u31, in_table in *; lia).
  assert (Hp31 : u31 (Z.of_nat (eparent (ent t d)))) by (pose proof (we_parent _ _ _ _ Hwf); unfold u31, in_table in *; lia).
  assert (Hin : INARRAY (to_sccs t) d = true).
  { unfold INARRAY, FLAGS. rewrite dl_ent. pose proof (we_flags _ _ _ _ Hwf) as Hfl. cbn zeta in Hfl. unfold eflags in Hfl. rewrite Hfl.
    by destruct (has_flag _ D_TAG), (has_flag _ D_CSET), (has_flag _ D_DANGLING), (has_flag _ D_SYMBOLS), (has_flag _ D_SYMGRAPH), (has_flag _ D_SYMLEAF). }
  destruct (scan_d_line t d user host _ _ _ _ _ _ Hin (we_rev _ _ _ _ Hwf) Hh Hf Hs Hd31) as (dl & Hdl & H3 & Hlen & Hscan).
  eexists _, _. split; [by eapply entry_lines_of|]. split; [exact Hs|]. split; [apply s_line_head|]. intros T D Y b v st fuel rest HT Hnull Hst.
  assert (Hns : Forall (λ n, isdigit (at0 n) = false) (names_of d syms)).
  { apply names_of_forall. eapply Forall_impl; [apply (to_names _ _ _ _ Ht)|]. by intros y [Hy _]. }
  destruct (entry_read_of cset t T D d fa dl (date_text i m dd h mi sc) user host (names_of d syms) Y b v st rest Hwf HT Hnull Hh Hns) as (b' & v' & Hrd);
    [intros Hne; apply (to_cset _ _ _ _ Ht); by eapply names_nil|done..|].
  exists b', v'. unfold lines_of in *. cbn [drop app entries_loop] in *. rewrite ?drop_0 in Hrd.
  destruct (we_counts _ _ _ _ Hwf) as (Ca & Cd & Cs). destruct (scan_s_line fa (ent t d) Ca Cd Cs) as [_ Hs3].
  case_bool_decide as Eb; [by rewrite Eb in Hs3|]. rewrite Hrd, <- Eu, <- Eh. done.
Qed.

Lemma older_split d syms : StronglySorted newer syms → Forall (λ y, (sym_meta y <= d)%nat) syms →
  syms = filter (λ y, sym_meta y = d) syms ++ older d syms.
Proof.
  induction 1 as [|y syms Hs IH Hy]; intros Hle; [done|]. apply Forall_cons in Hle as [Hyd Hle]. unfold older in *.
  destruct (decide (sym_meta y = d)) as [E|E].
  - rewrite filter_cons_True by done. rewrite filter_cons_False by lia. cbn [app]. by rewrite <- IH.
  - assert (Ha : Forall (λ y, (sym_meta y < d)%nat) (y :: syms)).
    { apply Forall_cons. split; [lia|]. eapply Forall_impl; [exact Hy|]. unfold newer. intros z Hz. cbv beta in *. lia. }
    rewrite filter_none; [by rewrite filter_all|]. eapply Forall_impl; [exact Ha|]. intros z Hz. cbv beta in *. lia.
Qed.

(** The tags as the reader collects them. *)
Definition tag_pairs (syms : list symbol) : list (nat * cstr) := map (λ y, (sym_meta y, sym_name y)) syms.

Lemma tag_pairs_split d syms : StronglySorted newer syms → Forall (λ y, (sym_meta y <= d)%nat) syms →
  tag_pairs syms = map (pair d) (names_of d syms) ++ tag_pairs (older d syms).
Proof.
  intros Hs Hle. rewrite (older_split d syms Hs Hle) at 1. unfold tag_pairs. rewrite map_app. f_equal. unfold names_of. rewrite map_map.
  apply map_ext_in. intros y Hy. apply list_elem_of_In, list_elem_of_filter in Hy as [-> _]. done.
Qed.

Lemma names_older d j syms : (j < d)%nat → names_of j (older d syms) = names_of j syms.
Proof.
  intros Hj. unfold names_of, older. f_equal. rewrite list_filter_filter. apply list_filter_iff. intros y. split; [tauto|]. intros ->. auto.
Qed.

Lemma newer_older d syms : StronglySorted newer syms → StronglySorted newer (older d syms).
Proof.
  induction 1 as [|y syms Hs IH Hy]; [constructor|]. unfold older in *. destruct (decide (sym_meta y < d)%nat).
  - rewrite filter_cons_True by done. constructor; [done|]. apply Forall_forall. intros z [_ Hz]%list_elem_of_filter. rewrite Forall_forall in Hy. auto.
  - by rewrite filter_cons_False.
Qed.

Lemma forall_older (P : symbol → Prop) d syms : Forall P syms → Forall P (older d syms).
Proof. intros H. apply Forall_forall. intros z [_ Hz]%list_elem_of_filter. rewrite Forall_forall in H. auto. Qed.

(** Entries [1] to [d] as they are read, with the texts of their dates. *)
Definition entries_read (t : table) (symlist : list symbol) (d : nat) (T : table) (D : list cstr) : Prop :=
  ∀ j, (1 <= j <= d)%nat → ent T j = raw_of t j (user_of (ent t j)) (host_of (ent t j)) (own symlist j) ∧
    delta_strftime (ent t j) = Some (nth (j - 1) D []).

Lemma set_text_eq D d x : (1 <= d <= length D)%nat → nth (d - 1) (set_text D d x) [] = x.
Proof. intros Hd. destruct d as [|k]; [lia|]. cbn. rewrite Nat.sub_0_r. apply nth_lookup_Some, list_lookup_insert_eq. lia. Qed.

Lemma set_text_ne D d j x : (1 <= j)%nat → j ≠ d → nth (j - 1) (set_text D d x) [] = nth (j - 1) D [].
Proof. intros Hj Hne. destruct d as [|k]; [done|]. cbn. rewrite !nth_lookup. by rewrite list_lookup_insert_ne by lia. Qed.

Lemma set_text_length D d x : length (set_text D d x) = length D.
Proof. destruct d; [done|]. apply length_insert. Qed.

Lemma parent_mode cset t symlist d : wf_table cset t symlist → in_table t d → eparent (ent t d) ≠ 0%nat → mode_is (ent t (eparent (ent t d))).
Proof.
  intros Hwf Hd Hp. pose proof (we_parent _ _ _ _ (wt_entry _ _ _ Hwf d Hd)). unfold in_table in *.
  apply (we_mode cset t (own symlist (eparent (ent t d)))), (wt_entry _ _ _ Hwf). unfold in_table. lia.
Qed.

Section Loop.

Context (cset : bool) (t : table) (symlist : list symbol) (Hwf : wf_table cset t symlist).

(** The tags that are left when entry [d] is written. *)
Record tags_left (d : nat) (syms : list symbol) : Prop := {
  tl_sorted : StronglySorted newer syms;
  tl_le : Forall (λ y, (sym_meta y <= d)%nat) syms;
  tl_tag : Forall (wf_tag cset t) syms;
  tl_cset : syms ≠ [] → cset = true;
  tl_own : ∀ j, (1 <= j <= d)%nat → own syms j = own symlist j
}.

Lemma tags_left_ok d syms : tags_left d syms → tags_ok cset t d syms.
Proof.
  intros H. split.
  - apply H.
  - apply (tl_le _ _ H).
  - intros Hf. eapply Forall_impl; [apply (tl_tag _ _ H)|]. intros y Hy Hd. destruct (wy_marked _ _ _ Hy) as [Hm _]. rewrite Hd in Hm. congruence.
  - eapply Forall_impl; [apply (tl_tag _ _ H)|]. intros y Hy. apply (wy_name _ _ _ Hy).
  - apply H.
Qed.

Lemma tags_left_older d syms : tags_left (S d) syms → tags_left d (older (S d) syms).
Proof.
  intros H. split.
  - apply newer_older, H.
  - apply Forall_forall. intros y [Hy _]%list_elem_of_filter. lia.
  - apply forall_older, (tl_tag _ _ H).
  - intros Hne. apply (tl_cset _ _ H). by intros ->.
  - intros j Hj. rewrite <- (tl_own _ _ H j) by lia. unfold own. by rewrite names_older by lia.
Qed.

Lemma loop_ok d : ∀ fa syms, (d <= length t)%nat → tags_left d syms →
  ∃ lines, table_loop true cset t d false fa syms = Some (inl lines) ∧ (d <= length lines)%nat ∧ (d = 0%nat ∨ ∃ L ls, lines = (1 :: L) :: ls) ∧
    ∀ T D Y b v st fuel rest, length T = length t → length D = length t → (∀ j, (1 <= j <= d)%nat → ent T j = null_ent) → (d <= fuel)%nat →
    match d with O => st | S _ => first_table (Z.of_nat d) st end = mkRd T D Y b false v →
    ∃ T' D' b' v', entries_loop cset fuel (lines ++ (1 :: s2b "u"%string) :: rest) st = Some (inl (rest, mkRd T' D' (Y ++ tag_pairs syms) b' false v')) ∧
      length T' = length t ∧ entries_read t symlist d T' D' ∧
      ∀ j, (d < j)%nat → ent T' j = ent T j ∧ nth (j - 1) D' [] = nth (j - 1) D [].
Proof.
  induction d as [|d IH]; intros fa syms Hd Hs.
  - exists []. split_and!; [done|done|by left|]. intros T D Y b v st fuel rest HT HD Hn Hf ->. exists T, D, b, v. split_and!.
    + replace syms with (@nil symbol); [cbn [tag_pairs map]; rewrite app_nil_r; by destruct fuel|].
      pose proof (tl_le _ _ Hs) as Hle. pose proof (tl_tag _ _ Hs) as Htag. destruct syms as [|y syms]; [done|].
      apply Forall_inv in Hle, Htag. pose proof (wy_meta _ _ _ Htag) as Hm. unfold in_table in Hm. lia.
    + done.
    + intros j Hj. lia.
    + done.
  - assert (Hin : in_table t (S d)) by (unfold in_table; lia).
    destruct (step_ok cset t (S d) fa syms) as (lines & date & Hel & Hdate & Hne & Hstep).
    { rewrite (tl_own _ _ Hs (S d)) by lia. by apply (wt_entry _ _ _ Hwf). } { done. } { by apply (parent_mode cset t symlist). }
    { apply (wt_size _ _ _ Hwf). } { by apply tags_left_ok. }
    destruct (IH false (older (S d) syms)) as (lines2 & Htl & Hlen & _ & Hrd); [lia|by apply tags_left_older|].
    exists (lines ++ lines2). cbn [table_loop]. rewrite Hel, Htl. destruct Hne as (L & ls & ->).
    split_and!; [done|cbn [length app]; rewrite length_app; lia|right; cbn [app]; eauto|].
    intros T D Y b v st fuel rest HT HD Hn Hf Hst. destruct fuel as [|fuel]; [lia|].
    assert (HinT : in_table T (S d)) by (unfold in_table; lia).
    destruct (Hstep T D Y b v st fuel (lines2 ++ (1 :: s2b "u"%string) :: rest) HinT (Hn (S d) ltac:(lia)) Hst) as (b1 & v1 & E1).
    set (e := raw_of _ _ _ _ _) in E1.
    destruct (Hrd (set_ent T (S d) e) (set_text D (S d) date) (Y ++ map (pair (S d)) (names_of (S d) syms)) b1 v1
      (at_ent T (set_text D (S d) date) (S d) e (Y ++ map (pair (S d)) (names_of (S d) syms)) b1 v1) fuel rest) as (T' & D' & b2 & v2 & E2 & HT' & Hread & Hkeep).
    { by rewrite set_ent_length. } { by rewrite set_text_length. } { intros j Hj. rewrite ent_set_ne by lia. apply Hn. lia. } { lia. }
    { destruct d as [|d]; [done|]. unfold first_table, at_ent. cbn [rd_ents]. destruct T; [unfold in_table in HinT; cbn in HinT; lia|done]. }
    exists T', D', b2, v2. split_and!.
    + rewrite <- app_assoc, E1, E2. do 3 f_equal. by rewrite (tag_pairs_split (S d) syms (tl_sorted _ _ Hs) (tl_le _ _ Hs)), <- app_assoc.
    + done.
    + intros j Hj. destruct (decide (j = S d)) as [->|Hjd]; [|apply Hread; lia]. destruct (Hkeep (S d) ltac:(lia)) as [-> ->].
      rewrite ent_set_eq, set_text_eq by (done || lia). split; [|done]. unfold e. by rewrite (tl_own _ _ Hs (S d)) by lia.
    + intros j Hj. destruct (Hkeep j ltac:(lia)) as [-> ->]. by rewrite ent_set_ne, set_text_ne by lia.
Qed.

End Loop.
