(* ===== verification/TableLink.v ===== *)
(** * TableLink: inherited fields of the delta table

    A field that is the same as the parent's is not written; [sccs_inherit]
    restores it.  [link_loop] does so for a whole table, oldest delta first, and
    sets the dates. *)

From S2P Require Import Prelude CStr Sccs Rev Date WebEncode Table TableRead TableOk TableDate TableEntry TableRound.
From stdpp Require Import base numbers list strings sorting.
From Stdlib Require Import ZArith Lia.

Local Open Scope Z_scope.

Local Open Scope bk_scope.

(** ** Fields *)

Lemma same_as_eq p x y : same_as p x y = true ↔ p ≠ 0%nat ∧ str x = str y.
Proof. unfold same_as. rewrite andb_true_iff, negb_true_iff, Nat.eqb_neq, bool_decide_eq_true. done. Qed.

Lemma same_as_sym p x y : same_as p x y = same_as p y x.
Proof. unfold same_as. f_equal. by apply bool_decide_ext. Qed.

(** A string that is written unless the parent's is the same. *)
Definition kept (parent : nat) (x px : option cstr) : option cstr := if has x && negb (same_as parent px x) then x else None.

Lemma kept_root x px : kept 0 x px = x.
Proof. unfold kept, same_as. by destruct x. Qed.

Lemma kept_dup parent x px : closed parent x px → x ≠ Some [] → parent ≠ 0%nat → chk_dup (kept parent x px) px = x.
Proof.
  intros Hc Hne Hp. unfold kept. destruct x as [x|]; cbn [has andb].
  - destruct (same_as parent px (Some x)) eqn:E; cbn [negb chk_dup]; [|done]. apply same_as_eq in E as [_ E]. change (str (Some x)) with x in E.
    destruct px as [y|]; [change (str (Some y)) with y in E; congruence|]. cbn in E. congruence.
  - cbn [chk_dup]. destruct px as [y|]; [|done]. destruct (Hc Hp ltac:(eauto)) as [? [=]].
Qed.

Section Fields.

Context (cset : bool) (t : table) (symlist : list symbol) (Hwf : wf_table cset t symlist) (d : nat) (Hd : in_table t d).

Abbreviation e := (ent t d).
Abbreviation p := (ent t (eparent (ent t d))).

Lemma wfe : wf_entry cset t (own symlist d) d.
Proof. by apply (wt_entry _ _ _ Hwf). Qed.

Lemma parent_in : eparent e ≠ 0%nat → in_table t (eparent e).
Proof. pose proof (we_parent _ _ _ _ wfe). unfold in_table in *. lia. Qed.

Lemma wfp : eparent e ≠ 0%nat → wf_entry cset t (own symlist (eparent e)) (eparent e).
Proof. intros Hp. by apply (wt_entry _ _ _ Hwf), parent_in. Qed.

Lemma raw_csetfile : (if cond_B t d then e_csetfile e else None) = kept (eparent e) (e_csetfile e) (e_csetfile p).
Proof. unfold cond_B, kept. by rewrite same_as_sym. Qed.

Lemma raw_zone : (if cond_Z t d then e_zone e else None) = kept (eparent e) (e_zone e) (e_zone p).
Proof. done. Qed.

Lemma zone_ne : e_zone e ≠ Some [].
Proof. destruct (we_date _ _ _ _ wfe) as (off & [[-> _]|(s & h & m & -> & _)] & _); done. Qed.

(** The path and the sort path are written together. *)
Lemma raw_path : let r x := if cond_P t d then x else None in
  (eparent e = 0%nat → r (e_path e) = e_path e ∧ r (e_sortpath e) = e_sortpath e) ∧
  (eparent e ≠ 0%nat → chk_dup (r (e_path e)) (e_path p) = e_path e ∧ chk_dup (r (e_sortpath e)) (e_sortpath p) = e_sortpath e).
Proof.
  cbn zeta. unfold cond_P. destruct (we_path _ _ _ _ wfe) as [Hp Hc]. split; intros H0.
  - rewrite H0. destruct Hp as [[-> ->]|(x & y & -> & -> & _)]; by unfold same_as.
  - pose proof (we_path _ _ _ _ (wfp H0)) as [Hpp _].
    destruct Hp as [[E1 E2]|(x & y & E1 & E2 & Hx & _)]; rewrite E1, E2; cbn [has andb orb chk_dup].
    + destruct Hpp as [[-> ->]|(x & y & E3 & _)]; [done|]. rewrite E1, E3 in Hc. destruct (Hc H0 ltac:(eauto)) as [? [=]].
    + destruct (same_as _ (e_path p) (Some x)) eqn:S1; cbn [negb orb]; [|done].
      destruct (same_as _ (e_sortpath p) (Some y)) eqn:S2; cbn [negb]; [|done]. cbn [chk_dup].
      apply same_as_eq in S1 as [_ S1], S2 as [_ S2]. destruct Hpp as [[E3 E4]|(x' & y' & E3 & E4 & _)]; rewrite E3, E4 in *.
      * cbn in S1. by subst x.
      * unfold str in *. cbn in S1, S2. unfold id in *. by subst.
Qed.

(** The mode with the target of a link. *)
Lemma raw_mode : let r := if cond_O t d then e_mode e else 0 in let l := if cond_O t d then e_symlink e else None in
  (eparent e = 0%nat → r = e_mode e ∧ l = e_symlink e) ∧
  (eparent e ≠ 0%nat → (if r =? 0 then e_mode p else r) = e_mode e ∧ (if r =? 0 then chk_dup l (e_symlink p) else l) = e_symlink e).
Proof.
  cbn zeta. pose proof (we_mode _ _ _ _ wfe) as Hm. unfold cond_O. split; intros H0.
  - rewrite H0. destruct (Z.eqb_spec (e_mode e) 0) as [E|E]; [|done]. destruct Hm as [[-> ->]|(Hok & _)]; [done|by rewrite E in Hok].
  - pose proof (we_mode _ _ _ _ (wfp H0)) as Hpm. destruct (we_mode_closed _ _ _ _ wfe H0) as [Hc0 Hcl]. rewrite (proj2 (Nat.eqb_neq _ 0) H0).
    assert (Hnone : ∀ x, mode_is x → isfmt (e_mode x) S_IFLNK = false → e_symlink x = None).
    { intros x [[_ E]|(_ & _ & Hl)] Hf; [done|]. destruct (e_symlink x) as [l|]; [|done]. rewrite (proj2 Hl) in Hf by eauto. done. }
    destruct (Z.eqb_spec (e_mode e) 0) as [E|E]; cbn [negb andb].
    + rewrite Hc0, E by done. cbn. rewrite !Hnone; [done|done|by rewrite E|done|by rewrite Hc0].
    + assert (Hnl : ∀ m, isfmt m S_IFREG = true → isfmt m S_IFLNK = false) by (unfold isfmt; intros m ->%Z.eqb_eq; done).
      unfold mode_same. destruct (isfmt (e_mode p) S_IFREG) eqn:Rp; cbn [andb].
      * destruct (isfmt (e_mode e) S_IFREG) eqn:Re.
        -- destruct (Z.eqb_spec (e_mode p) (e_mode e)) as [Em|Em]; cbn [negb]; [|by rewrite (proj2 (Z.eqb_neq _ 0) E)]. cbn.
           split; [done|]. rewrite !Hnone by (done || by apply Hnl). done.
        -- rewrite (Hnl _ Rp). cbn [andb negb]. by rewrite (proj2 (Z.eqb_neq _ 0) E).
      * destruct (isfmt (e_mode p) S_IFLNK) eqn:Lp; cbn [andb negb]; [|by rewrite (proj2 (Z.eqb_neq _ 0) E)].
        destruct (isfmt (e_mode e) S_IFLNK) eqn:Le; cbn [andb negb]; [|by rewrite (proj2 (Z.eqb_neq _ 0) E)].
        case_bool_decide as Es; cbn [negb]; [|by rewrite (proj2 (Z.eqb_neq _ 0) E)]. cbn. split; [|done]. symmetry. by apply Hcl.
Qed.

Lemma raw_xflags : let r := if cond_X t d then e_xflags e else 0 in
  (eparent e = 0%nat → r = e_xflags e) ∧ (if r =? 0 then e_xflags p else r) = e_xflags e.
Proof.
  cbn zeta. unfold cond_X. destruct (we_xflags _ _ _ _ wfe) as [Hx _]. split; [by intros ->|].
  destruct (_ =? 0)%nat; cbn [orb]; [by rewrite (proj2 (Z.eqb_neq _ 0)) by lia|].
  destruct (Z.eqb_spec (e_xflags e) (e_xflags p)) as [->|]; cbn [negb]; [done|]. by rewrite (proj2 (Z.eqb_neq _ 0)) by lia.
Qed.

Definition raw_userhost : option cstr :=
  Some (user_of e ++ match host_of e with Some h => if cond_H t d h then 64 :: h else [] | None => [] end).

Lemma raw_host x q : e_userhost x = raw_userhost → e_userhost q = e_userhost p →
  (eparent e = 0%nat → raw_userhost = e_userhost e) ∧ (eparent e ≠ 0%nat → e_userhost (inherit_host x q) = e_userhost e).
Proof.
  intros Hx Hq. destruct (we_host _ _ _ _ wfe) as (user & host & Hh). destruct (host_is_of _ _ _ Hh) as [Eu Eh].
  unfold raw_userhost in *. rewrite <- Eu, <- Eh in *. destruct Hh as (Hu & H64 & _). split; intros H0.
  - unfold cond_H. rewrite H0, Hu. by destruct host.
  - destruct (we_host _ _ _ _ (wfp H0)) as (pu & ph & Hpu & P64 & _). unfold inherit_host. rewrite Hq, Hpu. cbn [has]. rewrite Hx. change (str (Some ?s)) with s.
    destruct host as [h|].
    + destruct (cond_H t d h) eqn:Ec; [rewrite strchr_at by done; by rewrite Hx, Hu|].
      unfold cond_H in Ec. rewrite (proj2 (Nat.eqb_neq _ 0) H0), Hpu in Ec. cbn [orb] in Ec. change (str (Some ?s)) with s in Ec. destruct ph as [ph|].
      * rewrite (strchr_at pu) in Ec by done. rewrite (strchr_at pu) by done. apply negb_false_iff, bool_decide_eq_true in Ec. injection Ec as ->.
        rewrite app_nil_r, strchr_none by done. cbn. by rewrite Hu.
      * by rewrite app_nil_r, (strchr_none pu) in Ec by done.
    + rewrite !app_nil_r, (strchr_none user) by done. destruct ph as [ph|]; [|rewrite app_nil_r, strchr_none by done; by rewrite Hx, Hu, app_nil_r].
      exfalso. pose proof (we_host_closed _ _ _ _ wfe H0) as Hc. rewrite Hpu, Hu in Hc. change (str (Some ?s)) with s in Hc. rewrite app_nil_r in Hc.
      apply H64, Hc, elem_of_app. right. by left.
Qed.

End Fields.

(** ** The table *)

(** An entry with its inherited fields; only its own tags are marked. *)
Definition linked (t : table) (symlist : list symbol) (d : nat) : entry :=
  let e := ent t d in
  on_delta (set_flags (mkflags (has_flag e D_TAG) (has_flag e D_CSET) (has_flag e D_DANGLING) (own symlist d)
                               (has_flag e D_SYMGRAPH) (has_flag e D_SYMLEAF))) e.

Lemma entry_ext x y : e_delta x = e_delta y → e_added x = e_added y → e_deleted x = e_deleted y → e_same x = e_same y →
  e_sum x = e_sum y → e_sortsum x = e_sortsum y → e_fudge x = e_fudge y → e_mode x = e_mode y → e_xflags x = e_xflags y →
  e_comments x = e_comments y → e_bamhash x = e_bamhash y → e_random x = e_random y → e_userhost x = e_userhost y →
  e_path x = e_path y → e_sortpath x = e_sortpath y → e_zone x = e_zone y → e_symlink x = e_symlink y → e_csetfile x = e_csetfile y → x = y.
Proof.
  destruct x as [x1 x2 x3 x4 x5 x6 x7 x8 x9 x10 x11 x12 x13 x14 x15 x16 x17 x18], y as [y1 y2 y3 y4 y5 y6 y7 y8 y9 y10 y11 y12 y13 y14 y15 y16 y17 y18].
  norm. intros -> -> -> -> -> -> -> -> -> -> -> -> -> -> -> -> -> ->. reflexivity.
Qed.

(** [inherit_host] changes the user only. *)
Lemma inherit_host_only x q : inherit_host x q = set_e_userhost (e_userhost (inherit_host x q)) x.
Proof.
  unfold inherit_host. destruct (has _); [|by destruct x]. destruct (strchr (str (e_userhost x)) 64); [by destruct x|].
  by destruct (strchr (str (e_userhost q)) 64), x.
Qed.

(** The fields but the user. *)
Definition inherited (r q : entry) : entry :=
  mkEnt (e_delta r) (e_added r) (e_deleted r) (e_same r) (e_sum r) (e_sortsum r) (e_fudge r)
    (if e_mode r =? 0 then e_mode q else e_mode r) (if e_xflags r =? 0 then e_xflags q else e_xflags r)
    (e_comments r) (e_bamhash r) (e_random r) (e_userhost r) (chk_dup (e_path r) (e_path q)) (chk_dup (e_sortpath r) (e_sortpath q))
    (chk_dup (e_zone r) (e_zone q)) (if e_mode r =? 0 then chk_dup (e_symlink r) (e_symlink q) else e_symlink r)
    (chk_dup (e_csetfile r) (e_csetfile q)).

Lemma sccs_inherit_fields T d : let r := ent T d in let q := ent T (eparent r) in eparent r ≠ 0%nat →
  sccs_inherit T d = set_e_userhost (e_userhost (inherit_host (inherited r q) q)) (inherited r q).
Proof.
  cbn zeta. intros H0. unfold sccs_inherit. rewrite (proj2 (Nat.eqb_neq _ 0) H0), <- inherit_host_only.
  generalize (ent T (eparent (ent T d))). intros q. clear H0. destruct (ent T d) as [x a b c su ss fu mo xf co ba ra us pa so zo sy cs]. f_equal. unfold inherited.
  destruct (mo =? 0) eqn:Em, (xf =? 0) eqn:Ex; cbv [set_e_zone set_e_csetfile set_e_path set_e_sortpath set_e_symlink set_e_mode set_e_xflags
    e_delta e_added e_deleted e_same e_sum e_sortsum e_fudge e_mode e_xflags e_comments e_bamhash e_random e_userhost e_path e_sortpath e_zone
    e_symlink e_csetfile]; rewrite ?Em, ?Ex; reflexivity.
Qed.

Lemma inherit_ok cset t symlist T d : wf_table cset t symlist → in_table t d →
  ent T d = raw_of t d (user_of (ent t d)) (host_of (ent t d)) (own symlist d) →
  (eparent (ent t d) ≠ 0%nat → ent T (eparent (ent t d)) = linked t symlist (eparent (ent t d))) →
  sccs_inherit T d = on_delta (set_date 0) (linked t symlist d).
Proof.
  intros Hwf Hd HT Hp. pose proof (wfe _ _ _ Hwf d Hd) as We.
  destruct (raw_path _ _ _ Hwf d Hd) as [P0 P1]. destruct (raw_mode _ _ _ Hwf d Hd) as [M0 M1]. destruct (raw_xflags _ _ _ Hwf d Hd) as [X0 X1].
  pose proof (raw_host cset t symlist Hwf d Hd) as RH. pose proof (raw_csetfile t d) as RC. pose proof (raw_zone t d) as RZ. cbn zeta in *.
  destruct (Nat.eq_dec (eparent (ent t d)) 0) as [E0|E0].
  - unfold sccs_inherit. rewrite HT. change (eparent (raw_of t d ?u ?h ?o)) with (eparent (ent t d)). rewrite E0. cbn [Nat.eqb].
    destruct (P0 E0) as [P2 P3]. destruct (M0 E0) as [M2 M3]. specialize (X0 E0).
    destruct (RH (set_e_userhost (raw_userhost t d) null_ent) (ent t (eparent (ent t d))) eq_refl eq_refl) as [H0 _]. specialize (H0 E0).
    rewrite E0, !kept_root in RC, RZ. apply entry_ext; done.
  - destruct (P1 E0) as [P2 P3]. destruct (M1 E0) as [M2 M3].
    rewrite sccs_inherit_fields by (rewrite HT; exact E0). rewrite HT. change (eparent (raw_of t d ?u ?h ?o)) with (eparent (ent t d)).
    set (q := ent T _). assert (Hq : q = linked t symlist (eparent (ent t d))) by by apply Hp.
    set (x := inherited _ q). destruct (RH x q eq_refl ltac:(by rewrite Hq)) as [_ H1]. specialize (H1 E0).
    destruct (we_csetfile _ _ _ _ We) as (Hcf & _ & Hcc). pose proof (we_zone _ _ _ _ We) as Hzc. pose proof (zone_ne _ _ _ Hwf d Hd) as Hzn.
    apply entry_ext; try done; unfold x; rewrite Hq.
    + exact M2.
    + exact X1.
    + exact P2.
    + exact P3.
    + change (chk_dup (if cond_Z t d then e_zone (ent t d) else None) (e_zone (ent t (eparent (ent t d)))) = e_zone (ent t d)).
      rewrite RZ. by apply kept_dup.
    + exact M3.
    + change (chk_dup (if cond_B t d then e_csetfile (ent t d) else None) (e_csetfile (ent t (eparent (ent t d)))) = e_csetfile (ent t d)).
      rewrite RC. by apply kept_dup.
Qed.

(** The dates of the table are those of the entries. *)
Lemma link_entry cset t symlist D d : wf_table cset t symlist → in_table t d → delta_strftime (ent t d) = Some (nth (d - 1) D []) →
  let e := on_delta (set_date 0) (linked t symlist d) in
  ∃ time, date2time (nth (d - 1) D []) (Some (str (e_zone e))) false = Some time ∧
    on_delta (set_date (u32 (time + e_fudge e))) e = linked t symlist d ∧
    delta_strftime (linked t symlist d) = Some (nth (d - 1) D []).
Proof.
  intros Hwf Hd Hs. cbn zeta. pose proof (wfe _ _ _ Hwf d Hd) as We. destruct (we_date _ _ _ _ We) as (off & Hz & H32 & _ & Hdt).
  destruct (entry_date _ off Hz Hdt) as (i & m & dd & h & mi & sc & Hf & Hs' & Ht). rewrite Hs in Hs'. injection Hs' as E. rewrite <- E in Ht.
  exists (d_date (e_delta (ent t d)) - e_fudge (ent t d)). split_and!; [exact Ht| |exact Hs].
  unfold linked. norm. rewrite Z.sub_add. unfold u32. rewrite Z.mod_small by lia. done.
Qed.

Lemma linked_flags t symlist d : eflags (linked t symlist d) ≠ 0.
Proof. unfold linked, eflags. norm. apply has_mkflags. Qed.

Lemma raw_flags t d user host o : eflags (raw_of t d user host o) ≠ 0.
Proof. unfold raw_of, raw_ent, eflags. norm. apply has_mkflags. Qed.

Lemma link_ok cset t symlist D n : wf_table cset t symlist → ∀ d T, (1 <= d)%nat → (d + n = S (length t))%nat → length T = length t →
  (∀ j, (1 <= j < d)%nat → ent T j = linked t symlist j) →
  (∀ j, (d <= j <= length t)%nat → ent T j = raw_of t j (user_of (ent t j)) (host_of (ent t j)) (own symlist j) ∧
    delta_strftime (ent t j) = Some (nth (j - 1) D [])) →
  ∃ T', link_loop n d D T false = Some (T', false) ∧ length T' = length t ∧ ∀ j, in_table t j → ent T' j = linked t symlist j.
Proof.
  intros Hwf. induction n as [|n IH]; intros d T Hd1 Hn HT Hlow Hhigh; cbn [link_loop].
  - exists T. split_and!; [done|done|]. intros j Hj. apply Hlow. unfold in_table in Hj. lia.
  - assert (Hd : in_table t d) by (unfold in_table; lia). destruct (Hhigh d ltac:(lia)) as [Hraw Hs].
    rewrite (proj2 (Z.eqb_neq _ 0)) by (rewrite Hraw; apply raw_flags).
    rewrite (inherit_ok cset t symlist T d) by (done || intros H0; apply Hlow; pose proof (we_parent _ _ _ _ (wfe _ _ _ Hwf d Hd)); lia).
    destruct (link_entry cset t symlist D d Hwf Hd Hs) as (time & -> & -> & Hs2). rewrite Hs2.
    rewrite bool_decide_eq_true_2 by done. rewrite orb_true_r.
    assert (HdT : in_table T d) by (unfold in_table in *; lia).
    destruct (IH (S d) (set_ent T d (linked t symlist d))) as (T' & HT' & Hl & He); [lia|lia|by rewrite set_ent_length| | |by exists T'].
    + intros j Hj. destruct (decide (j = d)) as [->|]; [by rewrite ent_set_eq|]. rewrite ent_set_ne by done. apply Hlow. lia.
    + intros j Hj. rewrite ent_set_ne by lia. apply Hhigh. lia.
Qed.

(** ** Tags *)

(** Entries with the mark of [f] for tags. *)
Definition marked (t : table) (f : nat → bool) (d : nat) : entry :=
  let e := ent t d in
  on_delta (set_flags (mkflags (has_flag e D_TAG) (has_flag e D_CSET) (has_flag e D_DANGLING) (f d)
                               (has_flag e D_SYMGRAPH) (has_flag e D_SYMLEAF))) e.

Definition marks (t : table) (f : nat → bool) (T : table) : Prop := length T = length t ∧ ∀ j, in_table t j → ent T j = marked t f j.

Lemma add_symbols tag cs dang sym graph leaf : Z.lor (mkflags tag cs dang sym graph leaf) D_SYMBOLS = mkflags tag cs dang true graph leaf.
Proof. by destruct tag, cs, dang, sym, graph, leaf. Qed.

Lemma marks_add t f T d : marks t f T → in_table t d → marks t (λ j, f j || (j =? d)%nat) (set_ent T d (add_flag D_SYMBOLS (ent T d))).
Proof.
  intros [HT Hf] Hd. split; [by rewrite set_ent_length|]. intros j Hj. destruct (decide (j = d)) as [->|Hne].
  - rewrite ent_set_eq by (unfold in_table in *; lia). rewrite Hf by done. unfold marked, add_flag. norm. rewrite add_symbols, Nat.eqb_refl, orb_true_r. done.
  - rewrite ent_set_ne by done. rewrite Hf by done. unfold marked. by rewrite (proj2 (Nat.eqb_neq j d)), orb_false_r.
Qed.

Lemma marks_parent t f T j : marks t f T → in_table t j → eparent (ent T j) = eparent (ent t j) ∧ has_flag (ent T j) D_TAG = has_flag (ent t j) D_TAG.
Proof.
  intros [_ Hf] Hj. rewrite Hf by done. split; [done|]. unfold has_flag at 1. unfold marked, eflags. norm. apply has_mkflags.
Qed.

Lemma real_delta_marks cset t symlist f T : wf_table cset t symlist → marks t f T → ∀ fuel d, (d <= length t)%nat →
  real_delta fuel T d = real_delta fuel t d.
Proof.
  intros Hwf Hm. induction fuel as [|fuel IH]; intros d Hd; cbn [real_delta]; (destruct (Nat.eqb_spec d 0) as [|H0]; [done|]);
    (destruct (marks_parent t f T d Hm) as [Ep Et]; [unfold in_table; lia|rewrite Et, ?Ep]); [done|].
  destruct (has_flag (ent t d) D_TAG); [|done]. apply IH. assert (Hin : in_table t d) by (unfold in_table; lia).
  pose proof (we_parent _ _ _ _ (wfe _ _ _ Hwf d Hin)). lia.
Qed.

Lemma real_delta_le cset t symlist : wf_table cset t symlist → ∀ fuel d x, (d <= length t)%nat → real_delta fuel t d = Some x → (x <= length t)%nat.
Proof.
  intros Hwf. induction fuel as [|fuel IH]; intros d x Hd; cbn [real_delta]; (destruct (Nat.eqb_spec d 0) as [|H0]; [intros [= <-]; lia|]);
    (destruct (has_flag (ent t d) D_TAG); [|by intros [= <-]]); [done|]. apply IH.
  assert (Hin : in_table t d) by (unfold in_table; lia). pose proof (we_parent _ _ _ _ (wfe _ _ _ Hwf d Hin)). lia.
Qed.

(** Whether a tag of [syms] is on [d] or is held by it. *)
Definition tagged (syms : list symbol) (d : nat) : bool := existsb (λ y, (d =? sym_ser y)%nat || (d =? sym_meta y)%nat) syms.

Lemma sym_insert_last y syms : Forall (λ x, (sym_meta x <= sym_meta y)%nat) syms → reverse (sym_insert y (reverse syms)) = syms ++ [y].
Proof.
  intros H. destruct syms as [|x syms _] using rev_ind; [done|]. rewrite reverse_app. change (reverse [x] ++ reverse syms) with (x :: reverse syms).
  apply Forall_app in H as [_ H]. apply Forall_inv in H. cbn [sym_insert]. rewrite (proj2 (Nat.leb_le _ _)) by done.
  rewrite !reverse_cons, reverse_involutive. done.
Qed.

Lemma metaSyms_ok cset t symlist : wf_table cset t symlist → ∀ rest before T f, symlist = before ++ rest →
  marks t f T → ∃ T', metaSyms (tag_pairs rest) T before = Some (T', symlist) ∧ marks t (λ j, f j || tagged rest j) T'.
Proof.
  intros Hwf. induction rest as [|y rest IH]; intros before T f E Hm.
  - rewrite app_nil_r in E. subst before. exists T. split; [done|]. destruct Hm as [HT Hm]. split; [done|]. intros j Hj. rewrite Hm by done.
    unfold marked. by rewrite orb_false_r.
  - pose proof (wt_tag _ _ _ Hwf) as Htag. rewrite E in Htag. apply Forall_app in Htag as [_ Htag]. apply Forall_cons in Htag as [Hy _].
    pose proof (wt_sorted _ _ _ Hwf) as Hs. rewrite E in Hs. apply StronglySorted_app in Hs as (Hcross & _ & _).
    destruct (wy_ser _ _ _ Hy) as [Hser Hs0]. pose proof (wy_meta _ _ _ Hy) as Hmeta. unfold in_table in Hmeta.
    pose proof (real_delta_le _ _ _ Hwf _ _ _ (proj2 Hmeta) Hser) as Hle.
    cbn [tag_pairs map metaSyms]. unfold addsym. destruct Hm as [HT Hm]. rewrite HT, (real_delta_marks cset t symlist f T) by (done || lia).
    rewrite Hser, (proj2 (Nat.eqb_neq _ 0)) by done. cbn [negb].
    assert (Ey : mkSym (sym_name y) (sym_ser y) (sym_meta y) = y) by (by destruct y). rewrite Ey, sym_insert_last; last first.
    { apply Forall_forall. intros x Hx. apply (Hcross x y); [done|]. by left. }
    destruct (IH (before ++ [y]) _ _ ltac:(by rewrite <- app_assoc)
      (marks_add t _ _ (sym_meta y) (marks_add t f T (sym_ser y) (conj HT Hm) ltac:(unfold in_table; lia)) ltac:(unfold in_table; lia))) as (T' & Hrun & [HT' Hm']).
    exists T'. split; [exact Hrun|]. split; [done|]. intros j Hj. rewrite Hm' by done. unfold marked. cbn [tagged existsb]. by rewrite <- !orb_assoc.
Qed.

Lemma own_exists symlist d : own symlist d = true ↔ ∃ y, y ∈ symlist ∧ sym_meta y = d.
Proof.
  unfold own, names_of. rewrite Nat.ltb_lt, length_map. split.
  - intros H. destruct (filter _ symlist) as [|y l] eqn:E; [simpl in H; lia|]. exists y.
    assert (Hy : y ∈ filter (λ y, sym_meta y = d) symlist) by (rewrite E; by left). apply list_elem_of_filter in Hy as [? ?]. done.
  - intros (y & Hy & Hd). destruct (filter _ symlist) as [|z l] eqn:E; [|simpl; lia].
    assert (Hin : y ∈ filter (λ y, sym_meta y = d) symlist) by (by apply list_elem_of_filter). rewrite E in Hin. by apply not_elem_of_nil in Hin.
Qed.

(** All marks together are those of the table. *)
Lemma marks_all cset t symlist d : wf_table cset t symlist → in_table t d → own symlist d || tagged symlist d = has_flag (ent t d) D_SYMBOLS.
Proof.
  intros Hwf Hd. apply eq_true_iff_eq. unfold tagged. rewrite orb_true_iff, own_exists, existsb_exists. split.
  - pose proof (wt_tag _ _ _ Hwf) as Htag. rewrite Forall_forall in Htag. intros [(y & Hy & <-)|(y & Hy & He)].
    + by destruct (wy_marked _ _ _ (Htag y Hy)).
    + apply list_elem_of_In in Hy. destruct (wy_marked _ _ _ (Htag y Hy)) as [H1 H2]. apply orb_true_iff in He as [->%Nat.eqb_eq | ->%Nat.eqb_eq]; done.
  - intros Hm. right. pose proof (wt_marks _ _ _ Hwf d Hd Hm) as Hex. apply Exists_exists in Hex as (y & Hy & Heq). exists y.
    split; [by apply list_elem_of_In|]. apply orb_true_iff. rewrite !Nat.eqb_eq. destruct Heq; auto.
Qed.

Lemma marks_table cset t symlist T : wf_table cset t symlist → marks t (λ j, own symlist j || tagged symlist j) T → T = t.
Proof.
  intros Hwf [HT Hm]. apply table_eq; [done|]. intros d Hd. assert (Hd' : in_table t d) by (unfold in_table in *; lia). rewrite Hm by done.
  unfold marked. rewrite (marks_all cset t symlist d Hwf Hd'). pose proof (we_flags _ _ _ _ (wfe _ _ _ Hwf d Hd')) as Hf. cbn zeta in Hf. rewrite <- Hf.
  by destruct (ent t d) as [[]].
Qed.

Lemma tag_pairs_reverse syms : reverse (tag_pairs (reverse syms)) = tag_pairs syms.
Proof. unfold tag_pairs. change (map ?f ?l) with (f <$> l). by rewrite <- fmap_reverse, reverse_involutive. Qed.

Lemma reverse_sorted syms : StronglySorted (λ x y, newer y x) syms → StronglySorted newer (reverse syms).
Proof.
  induction 1 as [|y syms Hs IH Hy]; [constructor|]. rewrite reverse_cons. apply StronglySorted_app. split_and!; [|done|repeat constructor].
  intros a b Ha Hb. apply list_elem_of_singleton in Hb as ->. rewrite elem_of_reverse in Ha. rewrite Forall_forall in Hy. by apply Hy.
Qed.

Lemma names_reverse_own syms d : own (reverse syms) d = own syms d.
Proof. apply eq_true_iff_eq. rewrite !own_exists. by setoid_rewrite elem_of_reverse. Qed.

Lemma tags_left_all cset t symlist : wf_table cset t symlist → tags_left cset t symlist (length t) (reverse symlist).
Proof.
  intros Hwf. pose proof (wt_tag _ _ _ Hwf) as Htag. split.
  - apply reverse_sorted, Hwf.
  - apply Forall_reverse. eapply Forall_impl; [exact Htag|]. intros y Hy. pose proof (wy_meta _ _ _ Hy) as [_ H]. exact H.
  - by apply Forall_reverse.
  - intros Hne. apply (wt_cset _ _ _ Hwf). by intros ->.
  - intros j _. apply names_reverse_own.
Qed.

(** C2. The delta table survives writing and reading: for a well-formed table
    and its tags [delta_table] succeeds, and [mkgraph] gives back from its lines
    every entry with all its fields, the inherited ones, the dates and the
    marks of tags included, and the tags in their order, with no hole, no
    unknown line and nothing left over. *)
Theorem table_roundtrip (cset compat : bool) (t : table) (symlist : list symbol) :
  wf_table cset t symlist →
  ∃ lines g, delta_table true cset compat t symlist false = Some (inl lines) ∧ mkgraph cset lines = Some (inl g) ∧
    g_table g = t ∧ g_symlist g = symlist ∧ g_holes g = false ∧ g_rest g = [] ∧ rd_ro (g_rd g) = false.
Proof.
  intros Hwf. destruct (wt_size _ _ _ Hwf) as [Hn H31].
  destruct (loop_ok cset t symlist Hwf (length t) true (reverse symlist) ltac:(done) (tags_left_all _ _ _ Hwf)) as (ls & Hloop & Hlen & Hhead & Hread).
  destruct Hhead as [|(L & ls' & Els)]; [lia|].
  set (n := length t) in *. destruct (Hread (replicate n null_ent) (replicate n []) [] false 0 rd0 (length (ls ++ [1 :: s2b "u"%string])) [])
    as (T & D & b & v & Hent & HT & Her & _).
  { apply length_replicate. } { apply length_replicate. }
  { intros j Hj. destruct j as [|j]; [lia|]. cbn. apply nth_lookup_Some, lookup_replicate. split; [done|]. lia. }
  { rewrite length_app. lia. } { unfold first_table. rewrite Nat2Z.id. by destruct n. }
  destruct (link_ok cset t symlist D n Hwf 1 T) as (T2 & Hlink & HT2 & He2); [lia|lia|done|intros j Hj; lia|intros j Hj; apply Her; lia|].
  assert (Hmk : mkgraph cset ((1 :: 72 :: s2b "XXXXX"%string) :: opt compat (s2b "bk-filever-5"%string) ++ ls ++ [1 :: s2b "u"%string]) =
    Some (inl (mkGraph t symlist false (mkRd T D (tag_pairs (reverse symlist)) b false v) []))).
  { unfold mkgraph. cbn [drop]. rewrite drop_0.
    replace (match opt compat (s2b "bk-filever-5"%string) ++ ls ++ [1 :: s2b "u"%string] with
             | [] => [] | l :: r => if bool_decide (l = s2b "bk-filever-5"%string) then r else l :: r end)
      with (ls ++ [1 :: s2b "u"%string]) by (rewrite Els; by destruct compat).
    rewrite Hent. cbn [rd_ents rd_dates rd_symname app]. rewrite HT. fold n. rewrite Hlink.
    destruct cset eqn:Ec.
    - rewrite tag_pairs_reverse. destruct (metaSyms_ok _ t symlist Hwf symlist [] T2 (own symlist) eq_refl (conj HT2 He2)) as (T3 & -> & Hm3).
      by rewrite (marks_table _ _ _ _ Hwf Hm3).
    - assert (E : symlist = []) by (destruct symlist as [|y l]; [done|]; by discriminate (wt_cset _ _ _ Hwf ltac:(done))). subst symlist.
      rewrite (marks_table _ t [] T2 Hwf); [done|]. split; [done|]. intros j Hj. rewrite He2 by done. done. }
  eexists _, _. split; [|split; [exact Hmk|by split_and!]].
  unfold delta_table. rewrite (wt_xflags _ _ _ Hwf). fold n. by rewrite Hloop.
Qed.

(** A repository with two changesets, the second one tagged by a third delta. *)
Definition ex_table : table :=
  let b := s2b in
  [mkEnt (mkDelta 0 0 0 0 951782400 (mkflags false true false false false false) [] (1, 1, 0, 0)%nat) 1 0 0 4711 4711 0 0x81b4 0x861
     (Some (b "first"%string ++ [10])) None (Some (b "f00d"%string)) (Some (b "lm@work"%string)) (Some (b "ChangeSet"%string)) (Some (b "ChangeSet"%string))
     (Some (b "-08:00"%string)) None (Some (b "lm@work|ChangeSet"%string));
   mkEnt (mkDelta 1 0 0 0 951782500 (mkflags false true false true false false) [] (1, 2, 0, 0)%nat) 2 1 1 815 4242 1 0x81b4 0x861
     (Some (b "second"%string ++ [10] ++ b "line"%string ++ [10])) None None (Some (b "rick@work"%string)) (Some (b "ChangeSet"%string)) (Some (b "ChangeSet"%string))
     (Some (b "-08:00"%string)) None (Some (b "lm@work|ChangeSet"%string));
   mkEnt (mkDelta 2 0 0 0 951782600 (mkflags true false false true true true) [] (1, 2, 0, 0)%nat) 0 0 2 0 0 0 0x81b4 0x861
     None None None (Some (b "rick@home"%string)) (Some (b "ChangeSet"%string)) (Some (b "ChangeSet"%string))
     (Some (b "+01:00"%string)) None (Some (b "lm@work|ChangeSet"%string))].

Definition ex_tags : list symbol := [mkSym (s2b "v1"%string) 2 3].

Lemma ex_zone z (neg : bool) (h m : Z) : z = Some ((if neg then 45 else 43) :: X h ++ 58 :: X m) → 0 <= h < 100 → 0 <= m < 100 →
  zone_is z (if neg then - (3600 * h + 60 * m) else 3600 * h + 60 * m).
Proof. intros -> Hh Hm. right. exists (if neg then 45 else 43), h, m. split_and!; [done|lia..|]. destruct neg; [right|left]; done. Qed.

Lemma ex_host u h : 64 ∉ u → 32 ∉ u → (length u < 100)%nat → h ≠ [] ∧ (length h <= 1000)%nat → host_is (Some (u ++ 64 :: h)) u (Some h).
Proof. intros H1 H2 H3 H4. unfold host_is. by split_and!; try apply H4. Qed.

Lemma ex_not_in (c : Z) (l : list Z) : existsb (Z.eqb c) l = false → c ∉ l.
Proof.
  intros H Hin. assert (E : existsb (Z.eqb c) l = true); [|congruence]. apply existsb_exists. exists c. by rewrite <- list_elem_of_In, Z.eqb_refl.
Qed.

Lemma ex_comment ls : forallb (λ l, negb (existsb (Z.eqb 10) l) && negb (bool_decide (last l = Some 13))) ls = true →
  comment_is (match ls with [] => None | _ => Some (concat (map (λ l, l ++ [10]) ls)) end) ls.
Proof.
  intros H. split; [|done]. apply Forall_forall. intros l Hl. apply list_elem_of_In in Hl. rewrite forallb_forall in H. specialize (H l Hl).
  apply andb_prop in H as [H1 H2]. apply negb_true_iff in H1, H2. rewrite bool_decide_eq_false in H2. split; [by apply ex_not_in|done].
Qed.

(** The conditions on an entry of [ex_table]. *)
Ltac ex_entry user host neg h m ls :=
  split;
  [ vm_compute; lia | reflexivity | vm_compute; (discriminate || (intros _; auto 6)) | vm_compute; (auto || (repeat split; discriminate))
  | vm_compute; (done || reflexivity)
  | exists (if neg then - (3600 * h + 60 * m) else 3600 * h + 60 * m); split; [by apply (ex_zone _ neg h m)|vm_compute; repeat split; discriminate]
  | split; [repeat (apply Forall_cons; split; [by vm_compute|]); by apply Forall_nil|done]
  | vm_compute; by split
  | exists [], []; by split; [apply Forall_nil|]
  | exists ls; by apply (ex_comment ls)
  | vm_compute; repeat split; discriminate
  | vm_compute; repeat split; discriminate
  | exists user, (Some host); apply (ex_host user host); [by apply ex_not_in..|vm_compute; lia|split; [done|vm_compute; lia]]
  | intros _ _; vm_compute; repeat constructor
  | split; [right; exists (s2b "ChangeSet"%string), (s2b "ChangeSet"%string); split_and!; [done|done|done|by apply ex_not_in|vm_compute; lia|vm_compute; lia]|intros _ _; by eexists]
  | right; split_and!; [done|vm_compute; lia|by split; [|intros [? ?]]]
  | intros _; by vm_compute
  | vm_compute; repeat split; discriminate
  | intros _ _; by eexists
  | split_and!; [done|vm_compute; lia|intros _ _; by eexists]
  | split; [vm_compute; lia|done]
  | vm_compute; lia ].

Lemma ex_wf : wf_table true ex_table ex_tags.
Proof.
  split.
  - split; [vm_compute; lia|by vm_compute].
  - intros d Hd. assert (Hcase : d = 1%nat ∨ d = 2%nat ∨ d = 3%nat) by (unfold in_table in Hd; cbn in Hd; lia).
    destruct Hcase as [-> | [-> | ->]].
    + ex_entry (s2b "lm"%string) (s2b "work"%string) true 8 0 [s2b "first"%string].
    + ex_entry (s2b "rick"%string) (s2b "work"%string) true 8 0 [s2b "second"%string; s2b "line"%string].
    + ex_entry (s2b "rick"%string) (s2b "home"%string) false 1 0 (@nil cstr).
  - repeat constructor.
  - apply Forall_singleton. by split; [vm_compute; lia|split|split|split; [|vm_compute; lia]].
  - done.
  - intros d Hd Hf. assert (Hcase : d = 1%nat ∨ d = 2%nat ∨ d = 3%nat) by (unfold in_table in Hd; cbn in Hd; lia).
    apply Exists_cons_hd. cbn. destruct Hcase as [-> | [-> | ->]]; [by vm_compute in Hf|auto..].
  - reflexivity.
Qed.

Lemma table_roundtrip_witness :
  ∃ lines g, delta_table true true true ex_table ex_tags false = Some (inl lines) ∧ mkgraph true lines = Some (inl g) ∧
    g_table g = ex_table ∧ g_symlist g = ex_tags ∧ g_holes g = false ∧ g_rest g = [] ∧ rd_ro (g_rd g) = false.
Proof. apply (table_roundtrip true true ex_table ex_tags). exact ex_wf. Defined.
