(* ===== verification/Keys.v ===== *)
(** * Keys: the names of deltas

    A delta is named by its key, which says who made it, in which file and when
    ([sccs_sdelta] of src/src/slib.c), or by a hash of its key with the date in
    front ([sccs_key2md5]).  This file models how keys are made, taken apart, compared
    (src/src/check.c) and looked up in the table, where the date is found first
    and the deltas of that date are searched. *)

From S2P Require Import Prelude CStr Sccs Date Rev Table.
From stdpp Require Import base numbers list strings.
From Stdlib Require Import ZArith Lia.

Local Open Scope Z_scope.

Local Open Scope bk_scope.

Definition BAR : Z := 124.

Definition AT : Z := 64.

(** ** Making keys *)

Definition sccs_sdelta (t : table) (d : nat) : option cstr :=
  let e := ent t d in
  assert! negb (d =? 0)%nat;
  let? utc := sccs_utctime (to_sccs t) d in
  Some (str (e_userhost e) ++ [BAR] ++ str (e_path e) ++ [BAR] ++ utc ++ [BAR] ++ pad5 (e_sum e) ++
        match e_random e with Some r => BAR :: r | None => [] end).

Definition sccs_shortKey (t : table) (d : nat) : option cstr :=
  let e := ent t d in
  assert! negb (d =? 0)%nat;
  let? utc := sccs_utctime (to_sccs t) d in
  Some (str (e_userhost e) ++ [BAR] ++ str (e_path e) ++ [BAR] ++ utc).

(** The suffix that starts with [pat]. *)
Fixpoint strstr (s pat : cstr) : option cstr :=
  if bool_decide (take (length pat) s = pat) then Some s
  else match s with [] => None | _ :: s => strstr s pat end.

(** The suffix that starts at the last [c]. *)
Fixpoint strrchr (s : cstr) (c : Z) : option cstr :=
  match s with
  | [] => None
  | x :: r => match strrchr r c with Some t => Some t | None => if x =? c then Some s else None end
  end.

(** "%08x" of a u32 *)
Definition pad8x (n : Z) : cstr := replicate (8 - length (printf_x n)) 48 ++ printf_x n.

Definition xdigit (c : Z) : option Z :=
  if isdigit c then Some (c - 48)
  else if (97 <=? c) && (c <=? 102) then Some (c - 87)
  else if (65 <=? c) && (c <=? 70) then Some (c - 55) else None.

Fixpoint hex_loop (val : Z) (s : cstr) : Z :=
  match s with
  | [] => val
  | c :: s => match xdigit c with Some x => hex_loop (val * 16 + x) s | None => val end
  end.

(** [strtoul(s, 0, 16)], without the limit of an unsigned long, which eight
    characters do not reach *)
Definition strtoul16 (s : cstr) : Z :=
  let s := strip_front isspace s in
  let neg := at0 s =? 45 in
  let s := if neg || (at0 s =? 43) then drop 1 s else s in
  let s := match s with
           | 48 :: x :: c :: _ => if ((x =? 120) || (x =? 88)) && bool_decide (xdigit c ≠ None) then drop 2 s else s
           | _ => s
           end in
  let v := hex_loop 0 s in
  if neg then (- v) mod 2 ^ 64 else v.

Section Keys.
(** The base64 of the md5 of a string. *)
Variable hashstr : cstr → cstr.

Definition changeset : cstr := s2b "/ChangeSet|".

Definition sccs_key2md5 (deltakey : cstr) : option cstr :=
  let? key := (match strstr deltakey changeset with
               | Some p => let? b := strchr deltakey BAR in Some (take (length deltakey - length b) deltakey ++ [BAR] ++ drop 1 p)
               | None => Some deltakey
               end) in
  let? key := (if (strcnt deltakey BAR =? 4)%nat then let? r := strrchr deltakey BAR in Some (key ++ drop 1 r) else Some key) in
  let? p := strchr deltakey BAR in
  let? p := strchr (drop 1 p) BAR in
  let? dd := sccs_date2time (drop 1 p) None in
  Some (pad8x (u32 dd) ++ hashstr key).

Definition sccs_md5delta (t : table) (d : nat) : option cstr := let? key := sccs_sdelta t d in sccs_key2md5 key.

(** As bk made them before 6.0. *)
Definition sccs_md5deltaCompat (t : table) (d : nat) : option cstr :=
  let? key := sccs_sdelta t d in
  let key := key ++ str (e_random (ent t TREE)) in
  Some (pad8x (u32 (DATE (to_sccs t) d)) ++ hashstr key).

(** ** Comparing keys *)

(** [while ( *p && ( *p++ != '|'));] *)
Fixpoint after_bar (p : cstr) : cstr :=
  match p with
  | [] => []
  | c :: p => if c =? BAR then p else after_bar p
  end.

(** The loop over the path names; the keys are [k1] and [k2]. *)
Fixpoint keycmp_loop (k1 k2 p1 p2 : cstr) : option Z :=
  match p1 with
  | [] => None
  | x :: p1' =>
      let cmp := x - at0 p2 in
      if negb (cmp =? 0) then Some (if x =? BAR then -1 else if at0 p2 =? BAR then 1 else cmp)
      else if x =? BAR then Some (strcmp k1 k2)
      else keycmp_loop k1 k2 p1' (drop 1 p2)
  end.

Definition keycmp (k1 k2 : cstr) : option Z := keycmp_loop k1 k2 (after_bar k1) (after_bar k2).

Definition key_sort (a b : cstr) : option Z := keycmp a b.

Definition strncmp (a b : cstr) (n : nat) : Z := strcmp (take n a) (take n b).

(** [None]: the null pointer is read. *)
Definition keycmp_nopath (keya keyb : cstr) : option Z :=
  let? ta := strchr keya BAR in
  let? tb := strchr keyb BAR in
  let la := (length keya - length ta + 1)%nat in
  let lb := (length keyb - length tb + 1)%nat in
  let userlen := if (la <=? lb)%nat then la else lb in
  let ret := strncmp keya keyb userlen in
  if negb (ret =? 0) then Some ret else
  let? date_a := strchr (drop 1 ta) BAR in
  let? date_b := strchr (drop 1 tb) BAR in
  Some (strcmp date_a date_b).

(** ** Looking up *)

(** [for (; d && (d <= TABLE(s)) && (dd == DATE(s, d)); ++d)] with the test of a
    delta. *)
Fixpoint date_search (fuel : nat) (s : sccs) (dd : Z) (test : nat → option bool) (d : nat) : option nat :=
  match fuel with
  | O => None
  | S fuel =>
      if negb (d =? 0)%nat && (d <=? TABLE s)%nat && (dd =? DATE s d) then
        let? b := test d in
        if b then Some d else date_search fuel s dd test (S d)
      else Some O
  end.

Definition sccs_findMD5 (t : table) (md5 : cstr) : option nat :=
  if (length t =? 0)%nat then Some O else
  let dd := u32 (strtoul16 (take 8 md5)) in
  let? d := sccs_date2delta (to_sccs t) dd in
  date_search (S (length t)) (to_sccs t) dd
    (λ d, let? k := sccs_md5delta t d in
          if bool_decide (md5 = k) then Some true else let? k := sccs_md5deltaCompat t d in Some (bool_decide (md5 = k))) d.

Definition sccs_findKey (cset : bool) (t : table) (key : cstr) : option nat :=
  if (length t =? 0)%nat then Some O else
  match strchr key BAR with
  | None => sccs_findMD5 t key
  | Some _ =>
      let? dd := key2date key in
      let? d := sccs_date2delta (to_sccs t) dd in
      date_search (S (length t)) (to_sccs t) dd
        (λ d, let? dkey := sccs_sdelta t d in
              if cset then let? c := keycmp_nopath key dkey in Some (c =? 0) else Some (bool_decide (key = dkey))) d
  end.

End Keys.

(** ** Taking keys apart *)

Fixpoint field (s : cstr) : cstr * cstr :=
  match s with
  | [] => ([], [])
  | c :: r => if c =? BAR then ([], s) else let '(f, r) := field r in (c :: f, r)
  end.

Record parts := mkParts { p_user : cstr; p_host : option cstr; p_path : option cstr; p_date : cstr; p_sum : option cstr; p_random : option cstr }.

Definition nonempty (s : cstr) : option cstr := match s with [] => None | _ => Some s end.

(** [None]: a field is looked for after the end of the key, or there are too many. *)
Definition explodeKey (key : cstr) : option parts :=
  let '(user, key) := field key in
  assert! negb (bool_decide (key = []));
  let '(path, key) := field (drop 1 key) in
  assert! negb (bool_decide (key = []));
  let '(date, key) := field (drop 1 key) in
  let '(sum, key) := match key with [] => (None, []) | _ :: key => let '(f, key) := field key in (nonempty f, key) end in
  let '(random, key) := match key with [] => (None, []) | _ :: key => let '(f, key) := field key in (nonempty f, key) end in
  assert! bool_decide (key = []);
  let '(user, host) := match strchr user AT with Some h => (take (length user - length h) user, Some (drop 1 h)) | None => (user, None) end in
  Some (mkParts user host (nonempty path) date sum random).

(** Parts that both keys have are the same. *)
Definition loosely (a b : option cstr) : bool := match a, b with Some a, Some b => bool_decide (a = b) | _, _ => true end.

Definition samekeystr (a b : cstr) : option bool :=
  if bool_decide (a = b) then Some true else
  let? a := explodeKey a in
  let? b := explodeKey b in
  if negb (bool_decide (p_user a = p_user b)) then Some false
  else if negb (bool_decide (p_host a = p_host b)) then Some false
  else
    let? pa := p_path a in
    let? pb := p_path b in
    if negb (bool_decide (pa = pb)) then Some false
    else if negb (bool_decide (p_date a = p_date b)) then Some false
    else Some (loosely (p_sum a) (p_sum b) && loosely (p_random a) (p_random b)).

Definition isxdigit (c : Z) : bool := match xdigit c with Some _ => true | None => false end.

Definition isalnum (c : Z) : bool := isdigit c || (97 <=? c) && (c <=? 122) || (65 <=? c) && (c <=? 90).

Definition isKey (key : cstr) : bool :=
  let len := length key in
  if (26 <=? len)%nat && ((strcnt key BAR =? 3) || (strcnt key BAR =? 4))%nat then true
  else isxdigit (at0 key) && (len =? 30)%nat && forallb isxdigit (take 7 (drop 1 key)) &&
       forallb (λ c, isalnum c || (c =? 45) || (c =? 95)) (drop 8 key).

(** ** Long keys *)

Definition nobar (s : cstr) : Prop := Forall (λ c, c ≠ BAR) s.

(** A table whose deltas have keys. *)
Record keyed (t : table) : Prop := {
  kt_sorted : dates_sorted (to_sccs t);
  kt_dates : ∀ d, (1 <= d <= length t)%nat → 0 <= DATE (to_sccs t) d < END;
  kt_user : ∀ d, nobar (str (e_userhost (ent t d)));
  kt_path : ∀ d, nobar (str (e_path (ent t d)));
  kt_sum : ∀ d, 0 <= e_sum (ent t d) < 2 ^ 16;
  kt_bytes : ∀ d, cbytes (str (e_userhost (ent t d))) ∧ cbytes (str (e_path (ent t d))) ∧ cbytes (str (e_random (ent t d)))
}.

(** The key of user, path and the rest. *)
Definition long_key (user path rest : cstr) : cstr := user ++ BAR :: path ++ BAR :: rest.

Lemma pad5_head n : 0 <= n → ∃ c r, pad5 n = c :: r ∧ isdigit c = true.
Proof.
  intros Hn. unfold pad5. destruct (5 - length (printf_u n))%nat; cbn [replicate app]; [|eauto].
  unfold printf_u. pose proof (dec_digits_digit 20 n Hn) as Hd. destruct (dec_digits 20 n) as [|c r] eqn:E; [by apply dec_digits_ne in E|].
  inversion Hd; subst. exists c, r. split; [done|]. unfold isdigit. unfold digit in *. apply andb_true_iff. split; apply Z.leb_le; lia.
Qed.

Lemma digits_cbytes s : Forall digit s → cbytes s.
Proof. intros H. eapply Forall_impl; [exact H|]. unfold digit. cbn. lia. Qed.

Lemma pad5_digits n : 0 <= n → Forall digit (pad5 n).
Proof. intros. apply Forall_app. split; [apply Forall_replicate; unfold digit; lia|]. unfold printf_u. by apply dec_digits_digit. Qed.

Lemma X_digit n : 0 <= n < 100 → Forall digit (X n).
Proof.
  intros Hn. destruct (X_digits n Hn) as (H1 & H2 & _). unfold isdigit in *. rewrite andb_true_iff, !Z.leb_le in H1, H2.
  repeat constructor; lia.
Qed.

(** The date of a key has 14 digits. *)
Lemma utctime_digits s d : 0 <= DATE s d < END → ∃ utc, sccs_utctime s d = Some utc ∧ Forall digit utc ∧ length utc = 14%nat.
Proof.
  intros Hd. destruct (fields_exist _ Hd) as (i & m & dd & h & mi & sc & Hf & E). rewrite (sccs_utctime_fields s d i m dd h mi sc Hf E).
  eexists. split; [done|]. destruct Hf as [f_i0 f_m0 f_dd0 f_h0 f_mi0 f_sc0]. unfold YEARS in *. split.
  - repeat (apply Forall_app; split).
    { apply Forall_take. rewrite sertoa_printf by lia. unfold printf_u. apply dec_digits_digit. lia. }
    all: pose proof (proj2 (cum_days (leap i) m f_m0)); apply X_digit; lia.
  - assert (Hy : ∀ k, k ∈ seq 0 68 → length (take 4 (sertoa (1970 + Z.of_nat k))) = 4%nat).
    { apply Forall_forall. by repeat (apply Forall_cons; split; [reflexivity|]). }
    rewrite !length_app, Hy; [reflexivity|]. apply elem_of_seq. lia.
Qed.

Lemma sdelta_key t d : keyed t → (1 <= d <= length t)%nat →
  ∃ rest, sccs_sdelta t d = Some (long_key (str (e_userhost (ent t d))) (str (e_path (ent t d))) rest) ∧ cbytes rest ∧
    ∀ u p, nobar u → nobar p → key2date (long_key u p rest) = Some (DATE (to_sccs t) d).
Proof.
  intros Ht Hd. pose proof (kt_sum _ Ht d) as Hs. destruct (pad5_head (e_sum (ent t d))) as (c & r & Ep & Hc); [lia|]. pose proof (kt_dates _ Ht d Hd) as Hdate.
  set (tail := BAR :: pad5 (e_sum (ent t d)) ++ match e_random (ent t d) with Some r => BAR :: r | None => [] end).
  destruct (utctime_digits (to_sccs t) d Hdate) as (utc & E & Hutc & _). apply digits_cbytes in Hutc.
  exists (utc ++ tail). split_and!.
  - unfold sccs_sdelta, long_key. destruct (Nat.eqb_spec d 0); [lia|]. cbn [negb]. rewrite E. by cbn [app].
  - apply Forall_app. split; [done|]. constructor; [done|]. apply Forall_app. split; [apply digits_cbytes, pad5_digits; lia|].
    pose proof (kt_bytes _ Ht d) as (_ & _ & Hr). destruct (e_random (ent t d)); [by constructor|constructor].
  - intros u p Hu Hp. destruct (key2date_utctime (to_sccs t) d u p tail Hdate Hu Hp) as (utc' & E' & Hk); [right; subst tail; rewrite Ep; cbn [app]; eauto|].
    rewrite E in E'. injection E' as <-. exact Hk.
Qed.

(** The oldest delta with a property, or 0. *)
Definition oldest (t : table) (P : nat → Prop) (r : nat) : Prop :=
  r = 0%nat ∧ (∀ j, (1 <= j <= length t)%nat → ¬ P j) ∨ (1 <= r <= length t)%nat ∧ P r ∧ ∀ j, (1 <= j < r)%nat → ¬ P j.

Lemma date_search_loop t dd test (P : nat → Prop) fuel : ∀ d, dates_sorted (to_sccs t) →
  (∀ j, (1 <= j <= length t)%nat → DATE (to_sccs t) j = dd → ∃ b, test j = Some b ∧ (b = true ↔ P j)) →
  (∀ j, (1 <= j <= length t)%nat → P j → DATE (to_sccs t) j = dd) →
  (1 <= d <= S (length t))%nat → (S (length t) < d + fuel)%nat → (∀ j, (1 <= j < d)%nat → (j <= length t)%nat → ¬ P j) →
  (DATE (to_sccs t) d = dd ∨ ∀ j, (d <= j <= length t)%nat → DATE (to_sccs t) j ≠ dd) →
  ∃ r, date_search fuel (to_sccs t) dd test d = Some r ∧ oldest t P r.
Proof.
  induction fuel as [|fuel IH]; intros d Hs Htest HP Hd1 Hf Hold Hd.
  { exfalso. lia. }
  cbn [date_search]. change (TABLE (to_sccs t)) with (length t). destruct (Nat.eqb_spec d 0) as [|_]; [lia|]. cbn [negb andb].
  destruct (Nat.leb_spec d (length t)) as [Hdl|Hdl]; cbn [andb].
  2: { exists 0%nat. split; [done|]. left. split; [done|]. intros j Hj. apply Hold; lia. }
  destruct (Z.eqb_spec dd (DATE (to_sccs t) d)) as [Edd|Edd].
  2: { exists 0%nat. split; [done|]. left. split; [done|]. intros j Hj HPj. destruct (decide (j < d)%nat) as [Hjd|Hjd]; [by apply (Hold j); [lia|lia|]|].
       destruct Hd as [Hd|Hd]; [done|]. apply (Hd j); [lia|]. by apply HP. }
  destruct (Htest d) as (b & Eb & Hb); [lia|done|]. rewrite Eb. destruct b.
  { exists d. split; [done|]. right. split; [lia|]. split; [by apply Hb|]. intros j Hj. apply Hold; lia. }
  apply IH; [done|done|done|lia|lia| |].
  - intros j Hj Hjl. destruct (decide (j = d)) as [->|]; [|apply Hold; lia]. intros HPd. apply Hb in HPd. done.
  - destruct (decide (DATE (to_sccs t) (S d) = dd)) as [|Hne]; [by left|]. right. intros j Hj.
    pose proof (Hs d (S d) ltac:(lia)) as H1. pose proof (Hs (S d) j ltac:(lia)) as H2. change (TABLE (to_sccs t)) with (length t) in *. lia.
Qed.

(** The search by date. *)
Lemma date_search_ok t dd test (P : nat → Prop) : keyed t → (1 <= length t)%nat →
  (∀ j, (1 <= j <= length t)%nat → DATE (to_sccs t) j = dd → ∃ b, test j = Some b ∧ (b = true ↔ P j)) →
  (∀ j, (1 <= j <= length t)%nat → P j → DATE (to_sccs t) j = dd) →
  ∃ r, (let? d := sccs_date2delta (to_sccs t) dd in date_search (S (length t)) (to_sccs t) dd test d) = Some r ∧ oldest t P r.
Proof.
  intros Ht Hl Htest HP. pose proof (kt_sorted _ Ht) as Hs. destruct (date2delta_correct (to_sccs t) dd Hs Hl) as (d & -> & Hd & Hbefore & Hafter).
  change (TABLE (to_sccs t)) with (length t) in *. apply (date_search_loop t dd test P); [done|done|done|lia|lia| |].
  - intros j Hj Hjl HPj. specialize (Hbefore j ltac:(lia)). apply HP in HPj; lia.
  - destruct Hafter as [E|[[E Hlt]|[E Hlt]]]; [by left|right|right].
    + intros j Hj. destruct (decide (j = d)) as [->|]; [lia|]. specialize (Hlt j ltac:(lia)). lia.
    + intros j Hj. unfold TREE in E. subst d. pose proof (Hs 1%nat j ltac:(lia)) as H. change (TABLE (to_sccs t)) with (length t) in *. lia.
Qed.

Lemma strchr_first u r : nobar u → strchr (u ++ BAR :: r) BAR = Some (BAR :: r).
Proof. apply strchr_bar. Qed.

Lemma first_bar u u' q : nobar u' → (length u <= length u')%nat → u ++ [BAR] = take (S (length u)) (u' ++ BAR :: q) → u = u'.
Proof.
  intros Hu' Hl E. destruct (decide (length u = length u')) as [El|Hne].
  - change (BAR :: q) with ([BAR] ++ q) in E. rewrite app_assoc, El, take_app_le, take_ge in E by (rewrite length_app; cbn; lia). by apply app_inj_tail in E as [? _].
  - exfalso. rewrite take_app_le in E by lia. unfold nobar in Hu'. rewrite <- (take_drop (S (length u)) u'), <- E in Hu'.
    rewrite !Forall_app in Hu'. destruct Hu' as [[_ Hb] _]. inversion Hb; subst. done.
Qed.

(** [keycmp_nopath] compares what is before and after the path. *)
Lemma keycmp_nopath_ok u p r u' p' r' : nobar u → nobar p → nobar u' → nobar p' → cbytes u → cbytes p → cbytes u' → cbytes p' → cbytes r → cbytes r' →
  ∃ c, keycmp_nopath (long_key u p r) (long_key u' p' r') = Some c ∧ (c = 0 ↔ u = u' ∧ r = r').
Proof.
  intros Hu Hp Hu' Hp' Bu Bp Bu' Bp' Br Br'. unfold keycmp_nopath, long_key. rewrite !strchr_first by done.
  set (k := u ++ BAR :: p ++ BAR :: r). set (k' := u' ++ BAR :: p' ++ BAR :: r').
  assert (El : ∀ (v : cstr) q, (length (v ++ BAR :: q) - length (BAR :: q) + 1)%nat = S (length v)) by (intros; rewrite length_app; lia).
  subst k k'. rewrite !El. cbn [drop]. rewrite !drop_0, !strchr_first by done.
  assert (Htake : ∀ (v : cstr) q, take (S (length v)) (v ++ BAR :: q) = v ++ [BAR]).
  { intros v q. change (BAR :: q) with ([BAR] ++ q). rewrite app_assoc. rewrite take_app_le by (rewrite length_app; cbn; lia). apply take_ge. rewrite length_app. cbn. lia. }
  set (n := if (S (length u) <=? S (length u'))%nat then S (length u) else S (length u')).
  assert (Hn : u ≠ u' → strncmp (u ++ BAR :: p ++ BAR :: r) (u' ++ BAR :: p' ++ BAR :: r') n ≠ 0).
  { intros Hne E. apply Hne. unfold strncmp, n in E. apply strcmp_eq in E; [|apply Forall_take..].
    2: { apply Forall_app. split; [done|]. constructor; [done|]. apply Forall_app. split; [done|]. by constructor. }
    2: { apply Forall_app. split; [done|]. constructor; [done|]. apply Forall_app. split; [done|]. by constructor. }
    destruct (Nat.leb_spec (S (length u)) (S (length u'))).
    - rewrite Htake in E. apply (first_bar _ _ _ Hu') in E; [done|lia].
    - rewrite Htake in E. symmetry in E |- *. apply (first_bar _ _ _ Hu) in E; [done|lia]. }
  destruct (decide (u = u')) as [->|Hne].
  - assert (Hz : strncmp (u' ++ BAR :: p ++ BAR :: r) (u' ++ BAR :: p' ++ BAR :: r') n = 0).
    { unfold strncmp, n. rewrite Nat.leb_refl, !Htake. apply strcmp_refl. }
    rewrite Hz. cbn [Z.eqb negb]. eexists. split; [done|]. split.
    + intros E. split; [done|]. apply strcmp_eq in E; [by injection E|by constructor|by constructor].
    + intros [_ ->]. apply strcmp_refl.
  - specialize (Hn Hne). destruct (Z.eqb_spec (strncmp (u ++ BAR :: p ++ BAR :: r) (u' ++ BAR :: p' ++ BAR :: r') n) 0); [done|]. cbn [negb].
    eexists. split; [done|]. split; [done|by intros [? _]].
Qed.

Lemma field_inj u u' r r' : nobar u → nobar u' → u ++ BAR :: r = u' ++ BAR :: r' → u = u' ∧ r = r'.
Proof.
  intros Hu. revert u'. induction Hu as [|c u Hc _ IH]; intros u' Hu' E; destruct Hu' as [|c' u' Hc' Hu']; cbn in E; [by injection E| | |]; injection E as E1 E2; try done.
  destruct (IH u' Hu' E2) as [-> ->]. by subst.
Qed.

Lemma long_key_inj u p r u' p' r' : nobar u → nobar p → nobar u' → nobar p' → long_key u p r = long_key u' p' r' → u = u' ∧ p = p' ∧ r = r'.
Proof. intros Hu Hp Hu' Hp' E. apply field_inj in E as [-> E]; [|done..]. apply field_inj in E as [-> ->]; done. Qed.

(** The path is no part of the key of a ChangeSet delta. *)
Definition same_key (cset : bool) (a b : cstr) : Prop :=
  if cset then ∃ u p p' r, nobar u ∧ nobar p ∧ nobar p' ∧ a = long_key u p r ∧ b = long_key u p' r else a = b.

Definition has_key (cset : bool) (t : table) (key : cstr) (d : nat) : Prop := ∃ k, sccs_sdelta t d = Some k ∧ same_key cset key k.

Section Find.
Context (hashstr : cstr → cstr) (cset : bool) (t : table) (Ht : keyed t).

Lemma findKey_long u p rest dd : nobar u → nobar p → cbytes u → cbytes p → cbytes rest → key2date (long_key u p rest) = Some dd →
  ∃ r, sccs_findKey hashstr cset t (long_key u p rest) = Some r ∧ oldest t (has_key cset t (long_key u p rest)) r.
Proof.
  intros Hu Hp Bu Bp Br Hdd. unfold sccs_findKey. destruct (Nat.eqb_spec (length t) 0) as [E0|Hl]; [exists 0%nat; split; [done|]; left; split; [done|]; lia|].
  unfold long_key at 1. rewrite strchr_first by done. rewrite Hdd. apply date_search_ok; [done|lia| |].
  - intros j Hj _. destruct (sdelta_key t j Ht Hj) as (rj & Ej & Brj & _). rewrite Ej. unfold has_key. rewrite Ej.
    assert (Hsome : ∀ k, (∃ k', Some k = Some k' ∧ same_key cset (long_key u p rest) k') ↔ same_key cset (long_key u p rest) k).
    { intros k. split; [by intros (k' & [= <-] & ?)|eauto]. }
    destruct cset.
    + pose proof (kt_bytes _ Ht j) as (Buj & Bpj & _). pose proof (kt_user _ Ht j) as Huj. pose proof (kt_path _ Ht j) as Hpj.
      destruct (keycmp_nopath_ok u p rest _ _ rj Hu Hp Huj Hpj Bu Bp Buj Bpj Br Brj) as (c & -> & Hc).
      eexists. split; [done|]. rewrite Z.eqb_eq, Hc, Hsome. split.
      * intros [-> ->]. exists (str (e_userhost (ent t j))), p, (str (e_path (ent t j))), rj. done.
      * intros (u1 & p1 & p2 & r1 & H1 & H2 & H3 & E1 & E2). apply long_key_inj in E1 as (-> & _ & ->); [|done..].
        apply long_key_inj in E2 as (-> & _ & ->); done.
    + eexists. split; [done|]. rewrite bool_decide_eq_true, Hsome. done.
  - intros j Hj (k & Ek & Hk). destruct (sdelta_key t j Ht Hj) as (rj & Ej & _ & Hdate). rewrite Ej in Ek. injection Ek as <-.
    pose proof (kt_user _ Ht j) as Huj. pose proof (kt_path _ Ht j) as Hpj. destruct cset; cbn in Hk.
    + destruct Hk as (u1 & p1 & p2 & r1 & H1 & H2 & H3 & E1 & E2). apply long_key_inj in E1 as (-> & -> & ->); [|done..].
      apply long_key_inj in E2 as (_ & _ & ->); [|done..]. rewrite Hdate in Hdd by done. by injection Hdd.
    + rewrite Hk, Hdate in Hdd by done. by injection Hdd.
Qed.

(** ** Hashed keys *)

Lemma hex_loop_app v a b : Forall (λ c, isxdigit c = true) a → hex_loop v (a ++ b) = hex_loop (hex_loop v a) b.
Proof. intros H. revert v. induction H as [|c a Hc _ IH]; intros v; [done|]. cbn [app hex_loop]. unfold isxdigit in Hc. destruct (xdigit c); [apply IH|done]. Qed.

(** The digits of "%x" *)
Definition hexchar (c : Z) : Prop := 48 <= c <= 57 ∨ 97 <= c <= 102.

Lemma hexchar_digit c : hexchar c → isxdigit c = true.
Proof.
  unfold hexchar, isxdigit, xdigit, isdigit. intros H. destruct (Z.leb_spec 48 c), (Z.leb_spec c 57), (Z.leb_spec 97 c), (Z.leb_spec c 102); cbn [andb]; (done || lia).
Qed.

Lemma hex_digit_ok x : 0 <= x < 16 → let d := if x <? 10 then 48 + x else 87 + x in hexchar d ∧ xdigit d = Some x.
Proof.
  intros Hx. unfold hexchar, xdigit, isdigit. destruct (Z.ltb_spec x 10); cbn zeta.
  - split; [lia|]. destruct (Z.leb_spec 48 (48 + x)), (Z.leb_spec (48 + x) 57); cbn [andb]; try lia. f_equal. lia.
  - split; [lia|]. destruct (Z.leb_spec 48 (87 + x)), (Z.leb_spec (87 + x) 57), (Z.leb_spec 97 (87 + x)), (Z.leb_spec (87 + x) 102); cbn [andb]; try lia. f_equal. lia.
Qed.

Lemma hex_digits_ok f : ∀ n k, 0 <= n < 16 ^ Z.of_nat (S f) → n < 16 ^ Z.of_nat (S k) →
  Forall hexchar (hex_digits (S f) n) ∧ hex_loop 0 (hex_digits (S f) n) = n ∧ (length (hex_digits (S f) n) <= S k)%nat.
Proof.
  induction f as [|f IH]; intros n k Hn Hk; cbn [hex_digits].
  - destruct (Z.ltb_spec n 16); [|change (16 ^ Z.of_nat 1) with 16 in Hn; lia]. destruct (hex_digit_ok n ltac:(lia)) as [H1 H2].
    split; [by apply List.Forall_cons|]. cbn [hex_loop]. rewrite H2. cbn. split; lia.
  - destruct (Z.ltb_spec n 16).
    + destruct (hex_digit_ok n ltac:(lia)) as [H1 H2]. split; [by apply List.Forall_cons|]. cbn [hex_loop]. rewrite H2. cbn. split; lia.
    + pose proof (Z.mod_pos_bound n 16 ltac:(lia)) as Hm. pose proof (Z.div_mod n 16 ltac:(lia)) as Hdm. destruct (hex_digit_ok (n mod 16) Hm) as [H1 H2].
      assert (Hp : ∀ a, 16 ^ Z.of_nat (S a) = 16 * 16 ^ Z.of_nat a) by (intros a; rewrite Nat2Z.inj_succ, Z.pow_succ_r; lia).
      destruct k as [|k]; [change (16 ^ Z.of_nat 1) with 16 in Hk; lia|].
      destruct (IH (n / 16) k) as (I1 & I2 & I3); [rewrite Hp in Hn; split; [apply Z.div_pos; lia|apply Z.div_lt_upper_bound; lia]|rewrite Hp in Hk; apply Z.div_lt_upper_bound; lia|].
      split_and!.
      * apply Forall_app. split; [done|by apply List.Forall_cons].
      * rewrite hex_loop_app by (eapply Forall_impl; [exact I1|]; apply hexchar_digit). cbn [hex_digits] in I2 |- *. rewrite I2. cbn [hex_loop]. rewrite H2. lia.
      * rewrite length_app. cbn [length]. cbn [hex_digits] in I3. lia.
Qed.

Lemma pad8x_ok n : 0 <= n < 2 ^ 32 → length (pad8x n) = 8%nat ∧ ∀ h, strtoul16 (take 8 (pad8x n ++ h)) = n.
Proof.
  intros Hn. destruct (hex_digits_ok 15 n 7) as (H1 & H2 & H3); [cbn; lia|cbn; lia|]. fold (printf_x n) in *.
  assert (Hl : length (pad8x n) = 8%nat) by (unfold pad8x; rewrite length_app, length_replicate; lia). split; [done|]. intros h.
  rewrite take_app_le, take_ge by lia.
  assert (Hall : Forall hexchar (pad8x n)) by (apply Forall_app; split; [apply Forall_replicate; unfold hexchar; lia|done]).
  assert (Hv : hex_loop 0 (pad8x n) = n).
  { unfold pad8x. rewrite hex_loop_app by (apply Forall_replicate; done). replace (hex_loop 0 (replicate _ 48)) with 0; [done|].
    induction (8 - length (printf_x n))%nat as [|k IH]; [done|]. cbn [replicate hex_loop]. exact IH. }
  destruct (pad8x n) as [|a [|b r]] eqn:Ep; [done|done|]. apply Forall_cons in Hall as [Ha Hb]. apply Forall_cons in Hb as [Hb _].
  unfold strtoul16. cbn [strip_front].
  assert (Hsp : isspace a = false).
  { unfold isspace. unfold hexchar in Ha. destruct (Z.leb_spec 9 a), (Z.leb_spec a 13), (Z.eqb_spec a 32); cbn; (done || lia). }
  rewrite Hsp. cbn [at0 hd]. unfold hexchar in Ha, Hb. destruct (Z.eqb_spec a 45), (Z.eqb_spec a 43); try lia. cbn [orb].
  assert (Hx : (b =? 120) || (b =? 88) = false) by (destruct (Z.eqb_spec b 120), (Z.eqb_spec b 88); (done || lia)).
  assert (E : match a :: b :: r with 48 :: x :: c :: _ => if ((x =? 120) || (x =? 88)) && bool_decide (xdigit c ≠ None) then drop 2 (a :: b :: r) else a :: b :: r | _ => a :: b :: r end = a :: b :: r).
  { destruct r as [|c r]; [by repeat case_match|]. rewrite Hx. by repeat case_match. }
  rewrite E. exact Hv.
Qed.

Lemma strrchr_some s : ¬ nobar s → ∃ r, strrchr s BAR = Some r.
Proof.
  induction s as [|c s IH]; intros H; [by destruct H; constructor|]. cbn [strrchr]. destruct (strrchr s BAR) eqn:E; [eauto|].
  destruct (Z.eqb_spec c BAR); [eauto|]. destruct IH as [r Hr]; [|done]. intros Hs. apply H. by constructor.
Qed.

(** A hashed key starts with the date. *)
Lemma md5delta_ok j : (1 <= j <= length t)%nat →
  (∃ h, sccs_md5delta hashstr t j = Some (pad8x (DATE (to_sccs t) j) ++ h)) ∧ (∃ h, sccs_md5deltaCompat hashstr t j = Some (pad8x (DATE (to_sccs t) j) ++ h)).
Proof.
  intros Hj. destruct (sdelta_key t j Ht Hj) as (r & Ej & _ & Hdate). pose proof (kt_dates _ Ht j Hj) as Hd. unfold END in Hd.
  pose proof (kt_user _ Ht j) as Hu. pose proof (kt_path _ Ht j) as Hp. specialize (Hdate _ _ Hu Hp). revert Ej Hdate.
  generalize (str (e_userhost (ent t j))), (str (e_path (ent t j))), Hu, Hp. clear Hu Hp. intros u p Hu Hp Ej Hdate. split.
  - unfold sccs_md5delta. rewrite Ej. unfold sccs_key2md5.
    assert (Hnb : ¬ nobar (long_key u p r)) by (intros H; unfold nobar, long_key in H; rewrite Forall_app in H; destruct H as [_ H]; by inversion H).
    destruct (strrchr_some _ Hnb) as [q Hq]. rewrite Hq. unfold key2date, long_key in Hdate |- *. rewrite strchr_first in Hdate |- * by done.
    cbn [drop] in Hdate |- *. rewrite drop_0 in Hdate |- *. rewrite strchr_first in Hdate |- * by done. cbn [drop] in Hdate |- *. rewrite drop_0 in Hdate |- *.
    destruct (sccs_date2time r None) as [dd|]; [|done]. injection Hdate as Hdate. rewrite Hdate.
    destruct (strstr _ _); destruct (_ =? 4)%nat; eauto.
  - unfold sccs_md5deltaCompat. rewrite Ej. rewrite u32_small by lia. eauto.
Qed.

Definition has_md5 (md5 : cstr) (d : nat) : Prop := sccs_md5delta hashstr t d = Some md5 ∨ sccs_md5deltaCompat hashstr t d = Some md5.

Lemma findKey_md5 md5 : nobar md5 → ∃ r, sccs_findKey hashstr cset t md5 = Some r ∧ oldest t (has_md5 md5) r.
Proof.
  intros Hn. unfold sccs_findKey. destruct (Nat.eqb_spec (length t) 0) as [E0|Hl]; [exists 0%nat; split; [done|]; left; split; [done|]; lia|].
  assert (Hs : strchr md5 BAR = None).
  { clear -Hn. induction Hn as [|c s Hc _ IH]; [done|]. cbn [strchr]. by destruct (Z.eqb_spec c BAR). }
  rewrite Hs. unfold sccs_findMD5. rewrite (proj2 (Nat.eqb_neq _ 0) Hl). apply date_search_ok; [done|lia| |].
  - intros j Hj _. destruct (md5delta_ok j Hj) as [[h E] [h' E']]. unfold has_md5. rewrite E, E'. case_bool_decide as H1.
    + exists true. split; [done|]. split; [|done]. intros _. left. by f_equal.
    + eexists. split; [done|]. rewrite bool_decide_eq_true. split; [intros ->; by right|]. intros [[= <-]|[= <-]]; done.
  - intros j Hj Hm. destruct (md5delta_ok j Hj) as [[h E] [h' E']]. pose proof (kt_dates _ Ht j Hj) as Hd. unfold END in Hd.
    destruct (pad8x_ok (DATE (to_sccs t) j)) as [_ Hv]; [lia|].
    assert (Hm' : ∃ h, md5 = pad8x (DATE (to_sccs t) j) ++ h) by (unfold has_md5 in Hm; rewrite E, E' in Hm; destruct Hm as [[= <-]|[= <-]]; eauto).
    destruct Hm' as [g ->]. rewrite Hv. symmetry. apply u32_small. lia.
Qed.

End Find.

(** C29. Looking up deltas by key.  In a table sorted by date, [sccs_findKey] returns for
    every long key and every hashed key the oldest delta that has this key, and 0
    if there is none: the search by date and the search among the deltas of that
    date miss nothing.  For the ChangeSet file keys are compared without the path.
    So the key [sccs_sdelta] makes of a delta finds that delta, unless an older
    delta has the same key. *)
Theorem sccs_findKey_correct hashstr cset t : keyed t →
  (∀ u p rest dd, nobar u → nobar p → cbytes (u ++ p ++ rest) → key2date (long_key u p rest) = Some dd →
    ∃ r, sccs_findKey hashstr cset t (long_key u p rest) = Some r ∧ oldest t (has_key cset t (long_key u p rest)) r) ∧
  (∀ md5, nobar md5 → ∃ r, sccs_findKey hashstr cset t md5 = Some r ∧ oldest t (has_md5 hashstr t md5) r) ∧
  (∀ d, (1 <= d <= length t)%nat → ∃ key, sccs_sdelta t d = Some key ∧
    ((∀ j, (1 <= j < d)%nat → ¬ has_key cset t key j) → sccs_findKey hashstr cset t key = Some d)).
Proof.
  intros Ht. split_and!.
  - intros u p rest dd Hu Hp Hb Hdd. apply Forall_app in Hb as [Bu Hb]. apply Forall_app in Hb as [Bp Br]. by eapply findKey_long.
  - intros md5. by apply findKey_md5.
  - intros d Hd. destruct (sdelta_key t d Ht Hd) as (rest & E & Br & Hdate). eexists. split; [exact E|]. intros Hold.
    pose proof (kt_user _ Ht d) as Hu. pose proof (kt_path _ Ht d) as Hp. destruct (kt_bytes _ Ht d) as (Bu & Bp & _).
    destruct (findKey_long hashstr cset t Ht _ _ rest _ Hu Hp Bu Bp Br (Hdate _ _ Hu Hp)) as (r & -> & Hr). f_equal.
    assert (Hself : has_key cset t (long_key (str (e_userhost (ent t d))) (str (e_path (ent t d))) rest) d).
    { eexists. split; [exact E|]. destruct cset; [|done]. do 4 eexists. split_and!; [exact Hu|exact Hp|exact Hp|done|done]. }
    destruct Hr as [[_ Hr]|(Hr1 & Hr2 & Hr3)]; [by destruct (Hr d Hd)|].
    destruct (decide (r < d)%nat) as [Hlt|]; [by destruct (Hold r ltac:(lia))|]. destruct (decide (d < r)%nat); [by destruct (Hr3 d ltac:(lia))|lia].
Qed.

(** ** Sorting keys *)

Lemma after_bar_first u r : nobar u → after_bar (u ++ BAR :: r) = r.
Proof. induction 1 as [|c u Hc _ IH]; cbn [app after_bar]; [done|]. by destruct (Z.eqb_spec c BAR). Qed.

(** Paths are compared first; a path comes before those it is the start of. *)
Lemma keycmp_loop_ok k k' p : ∀ p' r r', nobar p → nobar p' → cbytes p → cbytes p' →
  ∃ c, keycmp_loop k k' (p ++ BAR :: r) (p' ++ BAR :: r') = Some c ∧
    if decide (p = p') then c = strcmp k k' else c ≠ 0 ∧ strcmp p p' ≠ 0 ∧ (c < 0 ↔ strcmp p p' < 0).
Proof.
  induction p as [|x p IH]; intros p' r r' Hp Hp' Bp Bp'.
  - destruct p' as [|y p']; cbn [app keycmp_loop at0 hd].
    + rewrite Z.sub_diag. cbn [Z.eqb negb]. eexists. split; [done|]. done.
    + apply Forall_cons in Hp' as [Hy _]. apply Forall_cons in Bp' as [By _]. destruct (Z.eqb_spec (BAR - y) 0); [lia|]. cbn [negb].
      eexists. split; [done|]. rewrite decide_False by done. cbn. lia.
  - apply Forall_cons in Hp as [Hx Hp]. apply Forall_cons in Bp as [Bx Bp]. destruct p' as [|y p']; cbn [app keycmp_loop at0 hd].
    + destruct (Z.eqb_spec (x - BAR) 0); [lia|]. cbn [negb]. destruct (Z.eqb_spec x BAR); [done|]. rewrite Z.eqb_refl.
      eexists. split; [done|]. rewrite decide_False by done. cbn. lia.
    + apply Forall_cons in Hp' as [Hy Hp']. apply Forall_cons in Bp' as [By Bp']. cbn [strcmp]. destruct (Z.eqb_spec (x - y) 0) as [E|E]; cbn [negb].
      * assert (x = y) as -> by lia. destruct (Z.eqb_spec y BAR); [done|]. rewrite Z.eqb_refl. cbn [drop]. rewrite drop_0.
        destruct (IH p' r r' Hp Hp' Bp Bp') as (c & Ec & Hc). exists c. split; [exact Ec|].
        destruct (decide (p = p')) as [->|Hne]; [by rewrite decide_True|]. rewrite decide_False by congruence. done.
      * destruct (Z.eqb_spec x BAR); [done|]. destruct (Z.eqb_spec y BAR); [done|]. destruct (Z.eqb_spec x y); [lia|].
        eexists. split; [done|]. rewrite decide_False by congruence. lia.
Qed.

(** A string with a user and a path. *)
Definition valid_key (k : cstr) : Prop := cbytes k ∧ ∃ u p r, nobar u ∧ nobar p ∧ k = long_key u p r.

Definition key_path (k : cstr) : cstr := fst (field (after_bar k)).

Lemma field_first p r : nobar p → field (p ++ BAR :: r) = (p, BAR :: r).
Proof. induction 1 as [|c p Hc _ IH]; cbn [app field]; [done|]. destruct (Z.eqb_spec c BAR); [done|]. by rewrite IH. Qed.

Lemma keycmp_ok a b : valid_key a → valid_key b → cbytes (key_path a) ∧ cbytes (key_path b) ∧
  ∃ c, keycmp a b = Some c ∧
    if decide (key_path a = key_path b) then c = strcmp a b else c ≠ 0 ∧ strcmp (key_path a) (key_path b) ≠ 0 ∧ (c < 0 ↔ strcmp (key_path a) (key_path b) < 0).
Proof.
  intros [Ba (u & p & r & Hu & Hp & Ea)] [Bb (u' & p' & r' & Hu' & Hp' & Eb)]. unfold keycmp, key_path.
  assert (Hpa : after_bar a = p ++ BAR :: r) by (rewrite Ea; by apply after_bar_first).
  assert (Hpb : after_bar b = p' ++ BAR :: r') by (rewrite Eb; by apply after_bar_first).
  rewrite Hpa, Hpb, !field_first by done. cbn [fst].
  assert (Bp : cbytes p) by (unfold cbytes, long_key in *; rewrite Ea, Forall_app, Forall_cons, Forall_app in Ba; tauto).
  assert (Bp' : cbytes p') by (unfold cbytes, long_key in *; rewrite Eb, Forall_app, Forall_cons, Forall_app in Bb; tauto).
  split_and!; [done|done|]. by apply keycmp_loop_ok.
Qed.

Definition key_le (a b : cstr) : Prop := ∃ c, keycmp a b = Some c ∧ c <= 0.

Lemma key_le_path a b : valid_key a → valid_key b →
  key_le a b ↔ strcmp (key_path a) (key_path b) < 0 ∨ key_path a = key_path b ∧ strcmp a b <= 0.
Proof.
  intros Ha Hb. destruct (keycmp_ok a b Ha Hb) as (_ & _ & c & E & Hc). unfold key_le. rewrite E. destruct (decide (key_path a = key_path b)) as [Ep|Ep].
  - rewrite Ep, strcmp_refl. subst c. split; [intros (? & [= <-] & ?); by right|]. intros [?|[_ ?]]; [lia|eauto].
  - destruct Hc as (Hc0 & Hp0 & Hc). split.
    + intros (? & [= <-] & ?). left. lia.
    + intros [?|[? _]]; [|done]. exists c. split; [done|lia].
Qed.

(** C31. Sorting keys.  On keys with a user and a path [keycmp], and so [key_sort], returns
    and is a total order: keys are equal exactly if the result is 0, of two
    different keys exactly one comes first, and the order is transitive.  It sorts
    by path, a directory prefix first, and keys of one path as strings. *)
Theorem key_sort_order a b c : valid_key a → valid_key b → valid_key c →
  (∃ r r', key_sort a b = Some r ∧ key_sort b a = Some r' ∧ (r = 0 ↔ a = b) ∧ (r < 0 ↔ 0 < r')) ∧
  (key_le a b ↔ strcmp (key_path a) (key_path b) < 0 ∨ key_path a = key_path b ∧ strcmp a b <= 0) ∧
  (key_le a b → key_le b c → key_le a c).
Proof.
  intros Ha Hb Hc. split_and!.
  - destruct (keycmp_ok a b Ha Hb) as (_ & _ & r & E & Hr), (keycmp_ok b a Hb Ha) as (_ & _ & r' & E' & Hr'). exists r, r'. split; [exact E|]. split; [exact E'|].
    pose proof (strcmp_opp a b) as Ho. pose proof (strcmp_opp (key_path a) (key_path b)) as Hop. destruct (decide (key_path a = key_path b)) as [Ep|Ep].
    + rewrite decide_True in Hr' by done. subst r r'. split; [|lia]. split; [apply strcmp_eq; [apply Ha|apply Hb]|intros ->; apply strcmp_refl].
    + rewrite decide_False in Hr' by congruence. split; [|lia]. split; [lia|]. intros ->. done.
  - by apply key_le_path.
  - rewrite !key_le_path by done. destruct (keycmp_ok a b Ha Hb) as (Pa & Pb & _), (keycmp_ok b c Hb Hc) as (_ & Pc & _).
    pose proof (strcmp_trans (key_path a) (key_path b) (key_path c) Pa Pb Pc) as Hp. pose proof (strcmp_trans a b c (proj1 Ha) (proj1 Hb) (proj1 Hc)) as Hs.
    intros [H1|[E1 H1]] [H2|[E2 H2]].
    + left. specialize (Hp ltac:(lia) ltac:(lia)). destruct (decide (strcmp (key_path a) (key_path c) = 0)) as [E|]; [|lia].
      apply strcmp_eq in E; [|done|done]. rewrite E, strcmp_opp in H1. lia.
    + left. by rewrite <- E2.
    + left. by rewrite E1.
    + right. split; [congruence|auto].
Qed.

(** ** Taking keys apart *)

Lemma digits_nobar s : Forall digit s → nobar s.
Proof. intros H. eapply Forall_impl; [exact H|]. unfold digit, BAR. cbn. lia. Qed.

Lemma field_all p : nobar p → field p = (p, []).
Proof. induction 1 as [|c p Hc _ IH]; cbn [field]; [done|]. destruct (Z.eqb_spec c BAR); [done|]. by rewrite IH. Qed.

Lemma strchr_first_at u h : Forall (λ c, c ≠ AT) u → strchr (u ++ AT :: h) AT = Some (AT :: h).
Proof. induction 1 as [|c u Hc _ IH]; cbn [app strchr]; [done|]. by destruct (Z.eqb_spec c AT). Qed.

Lemma nonempty_some s : s ≠ [] → nonempty s = Some s.
Proof. by destruct s. Qed.

(** The fields of a key that has them. *)
Lemma explodeKey_fields user host path date (rest : option (cstr * option cstr)) :
  nobar (user ++ AT :: host) → Forall (λ c, c ≠ AT) user → nobar path → path ≠ [] → nobar date →
  (∀ s o, rest = Some (s, o) → nobar s ∧ s ≠ [] ∧ ∀ r, o = Some r → nobar r ∧ r ≠ []) →
  explodeKey (long_key (user ++ AT :: host) path (date ++
    match rest with None => [] | Some (s, o) => BAR :: s ++ match o with None => [] | Some r => BAR :: r end end)) =
  Some (mkParts user (Some host) (Some path) date (fst <$> rest) (rest ≫= snd)).
Proof.
  intros Hu Hat Hp Hpn Hd Hr. unfold explodeKey, long_key. rewrite field_first by done. rewrite bool_decide_eq_false_2 by done. cbn [negb drop]. rewrite drop_0.
  rewrite field_first by done. rewrite bool_decide_eq_false_2 by done. cbn [negb drop]. rewrite drop_0.
  assert (Huser : (match strchr (user ++ AT :: host) AT with
      | Some h => (take (length (user ++ AT :: host) - length h) (user ++ AT :: host), Some (drop 1 h)) | None => (user ++ AT :: host, None) end) = (user, Some host)).
  { rewrite strchr_first_at by done. rewrite length_app. replace (length user + length (AT :: host) - length (AT :: host))%nat with (length user) by lia.
    rewrite take_app_length. cbn [drop]. by rewrite drop_0. }
  rewrite Huser. rewrite (nonempty_some path Hpn). destruct rest as [[s o]|].
  - destruct (Hr s o eq_refl) as (Hs & Hsn & Ho). rewrite field_first by done. destruct o as [r|].
    + destruct (Ho r eq_refl) as [Hrb Hrn]. rewrite field_first, nonempty_some by done. rewrite field_all, nonempty_some by done. by rewrite bool_decide_eq_true_2.
    + rewrite app_nil_r, field_all, nonempty_some by done. by rewrite bool_decide_eq_true_2.
  - rewrite app_nil_r, field_all by done. by rewrite bool_decide_eq_true_2.
Qed.

Lemma strcnt_nobar s : nobar s → strcnt s BAR = 0%nat.
Proof. induction 1 as [|c s Hc _ IH]; cbn [strcnt]; [done|]. destruct (Z.eqb_spec c BAR); [done|]. exact IH. Qed.

Lemma strcnt_bar a b : strcnt (a ++ BAR :: b) BAR = S (strcnt a BAR + strcnt b BAR).
Proof. rewrite strcnt_app. cbn [strcnt]. rewrite Z.eqb_refl. lia. Qed.

(** C30. The parts of a key.  For a delta with a user that holds no at sign, a host, a
    path and, if any, random bits that hold no bar and are not empty, [explodeKey] takes
    the key made by [sccs_sdelta] apart into user, host, path, date, checksum and
    random bits, and the one made by [sccs_shortKey] into the first four;
    [samekeystr] takes both for the same delta, and [isKey] knows the long one. *)
Theorem explodeKey_sdelta t d user host : keyed t → (1 <= d <= length t)%nat →
  str (e_userhost (ent t d)) = user ++ AT :: host → user ≠ [] → host ≠ [] → Forall (λ c, c ≠ AT) user → str (e_path (ent t d)) ≠ [] →
  (∀ r, e_random (ent t d) = Some r → nobar r ∧ r ≠ []) →
  ∃ key short date, sccs_sdelta t d = Some key ∧ sccs_shortKey t d = Some short ∧ sccs_utctime (to_sccs t) d = Some date ∧
    explodeKey key = Some (mkParts user (Some host) (Some (str (e_path (ent t d)))) date (Some (pad5 (e_sum (ent t d)))) (e_random (ent t d))) ∧
    explodeKey short = Some (mkParts user (Some host) (Some (str (e_path (ent t d)))) date None None) ∧
    samekeystr key short = Some true ∧ isKey key = true.
Proof.
  intros Ht Hd Eu Hun Hhn Hat Hpn Hrand. destruct (utctime_digits (to_sccs t) d (kt_dates _ Ht d Hd)) as (date & Edate & Hdig & Hlen).
  pose proof (kt_user _ Ht d) as Hu. rewrite Eu in Hu. pose proof (kt_path _ Ht d) as Hp. pose proof (kt_sum _ Ht d) as Hs.
  set (path := str (e_path (ent t d))) in *. set (sum := pad5 (e_sum (ent t d))) in *. set (rnd := e_random (ent t d)) in *.
  assert (Hsum : Forall digit sum ∧ sum ≠ []) by (split; [apply pad5_digits; lia|destruct (pad5_head (e_sum (ent t d))) as (c & r & E & _); [lia|]; subst sum; by rewrite E]).
  destruct Hsum as [Hsd Hsn].
  assert (Ek : sccs_sdelta t d = Some (long_key (user ++ AT :: host) path (date ++ match Some (sum, rnd) with None => [] | Some (s, o) => BAR :: s ++ match o with None => [] | Some r => BAR :: r end end))).
  { unfold sccs_sdelta, long_key. destruct (Nat.eqb_spec d 0); [lia|]. cbn [negb]. rewrite Edate, Eu. done. }
  assert (Es : sccs_shortKey t d = Some (long_key (user ++ AT :: host) path (date ++ match @None (cstr * option cstr) with None => [] | Some (s, o) => BAR :: s ++ match o with None => [] | Some r => BAR :: r end end))).
  { unfold sccs_shortKey, long_key. destruct (Nat.eqb_spec d 0); [lia|]. cbn [negb]. rewrite Edate, Eu. by rewrite app_nil_r. }
  pose proof (explodeKey_fields user host path date (Some (sum, rnd)) Hu Hat Hp Hpn (digits_nobar _ Hdig)) as X1.
  pose proof (explodeKey_fields user host path date None Hu Hat Hp Hpn (digits_nobar _ Hdig)) as X2.
  rewrite Ek, Es. eexists _, _, date. split; [done|]. split; [done|]. split; [done|].
  rewrite X1 by (intros s o [= <- <-]; split; [by apply digits_nobar|]; split; [done|exact Hrand]). rewrite X2 by done.
  split; [done|]. split; [done|]. split.
  - unfold samekeystr. rewrite X1 by (intros s o [= <- <-]; split; [by apply digits_nobar|]; split; [done|exact Hrand]). rewrite X2 by done.
    case_bool_decide; [done|]. cbn [p_user p_host p_path p_date p_sum p_random]. rewrite !bool_decide_eq_true_2 by done. cbn [negb fmap option_fmap option_map loosely].
    by destruct rnd.
  - unfold isKey, long_key. rewrite !strcnt_bar, (strcnt_nobar (user ++ _)), (strcnt_nobar path) by done. rewrite (strcnt_nobar date) by (by apply digits_nobar).
    assert (Hc : strcnt (sum ++ match rnd with None => [] | Some r => BAR :: r end) BAR = match rnd with None => 0 | Some _ => 1 end%nat).
    { destruct rnd as [r|]; [rewrite strcnt_bar, (strcnt_nobar r) by (by apply Hrand)|rewrite app_nil_r]; by rewrite (strcnt_nobar sum) by (by apply digits_nobar). }
    rewrite Hc. assert (Hl : (26 <= length (user ++ AT :: host) + S (length path + S (length date + S (length sum))))%nat).
    { rewrite Hlen, length_app. cbn [length]. destruct user, host, path; try done. cbn [length]. subst sum. unfold pad5. rewrite length_app, length_replicate. lia. }
    assert (Hl2 : (26 <=? length ((user ++ AT :: host) ++ BAR :: path ++ BAR :: date ++ BAR :: sum ++ match rnd with None => [] | Some r => BAR :: r end))%nat = true).
    { apply Nat.leb_le. rewrite length_app in Hl. repeat (rewrite length_app; cbn [length]). cbn [length] in Hl. lia. }
    rewrite Hl2. by destruct rnd.
Qed.

(** ** An example *)

Definition ex_entry (date sum : Z) (random : option cstr) : entry :=
  mkEnt (mkDelta 0 0 0 0 date D_INARRAY [] (1, 1, 0, 0)%nat) 0 0 0 sum sum 0 0 0 None None random (Some (s2b "lm@work")) (Some (s2b "src/a.c")) None None None None.

Definition ex_table : table := [ex_entry 951782400 100 (Some (s2b "f00d")); ex_entry 951782401 7 None; ex_entry 951782401 8 None].

Lemma ex_keyed : keyed ex_table.
Proof.
  assert (Hn : ∀ P : entry → Prop, Forall P (null_ent :: ex_table) → ∀ d, P (ent ex_table d)).
  { intros P HP d. rewrite Forall_forall in HP. apply HP. rewrite !elem_of_cons.
    destruct d as [|[|[|[|[|d]]]]]; [by left|by right; left|by right; right; left|by right; right; right; left|by left|by left]. }
  split.
  - intros i j Hi Hj. cbn in Hj. destruct i as [|[|[|[|i]]]]; [lia| | | |lia]; (destruct j as [|[|[|[|j]]]]; [lia| | | |lia]); cbn; lia.
  - intros d Hd. cbn in Hd. destruct d as [|[|[|[|d]]]]; [lia| | | |lia]; unfold END; cbn; lia.
  - apply (Hn (λ e, nobar (str (e_userhost e)))). repeat (apply Forall_cons; split; [by repeat constructor|]). constructor.
  - apply (Hn (λ e, nobar (str (e_path e)))). repeat (apply Forall_cons; split; [by repeat constructor|]). constructor.
  - apply (Hn (λ e, 0 <= e_sum e < 2 ^ 16)). repeat (apply Forall_cons; split; [cbn; lia|]). constructor.
  - apply (Hn (λ e, cbytes (str (e_userhost e)) ∧ cbytes (str (e_path e)) ∧ cbytes (str (e_random e)))).
    repeat (apply Forall_cons; split; [split_and!; by repeat constructor|]). constructor.
Qed.

Lemma sccs_findKey_correct_witness :
  ∃ key, sccs_sdelta ex_table 3 = Some key ∧ sccs_findKey (λ s, s) false ex_table key = Some 3%nat.
Proof.
  destruct (sccs_findKey_correct (λ s, s) false ex_table ex_keyed) as (_ & _ & H). destruct (H 3%nat) as (key & Ek & Hf); [cbn; lia|].
  exists key. split; [done|]. apply Hf. intros j Hj (k & Ej & Hk). cbn in Hk. subst k. rewrite <- Ek in Ej.
  destruct j as [|[|[|j]]]; [lia| | |lia]; vm_compute in Ej; discriminate.
Defined.

Lemma key_sort_order_witness :
  ∃ r r', key_sort (s2b "lm@x|a/b|2000") (s2b "al@x|a|2001") = Some r ∧ key_sort (s2b "al@x|a|2001") (s2b "lm@x|a/b|2000") = Some r' ∧ 0 < r ∧ r' < 0.
Proof.
  assert (Hv : ∀ u p r, Forall (λ c, 0 < c < 256) (long_key u p r) → nobar u → nobar p → valid_key (long_key u p r)) by (intros u p r H1 H2 H3; split; [done|eauto 10]).
  destruct (key_sort_order (s2b "al@x|a|2001") (s2b "lm@x|a/b|2000") (s2b "al@x|a|2001")) as ((r & r' & E1 & E2 & _ & H) & _).
  - apply (Hv (s2b "al@x") (s2b "a") (s2b "2001")); by repeat constructor.
  - apply (Hv (s2b "lm@x") (s2b "a/b") (s2b "2000")); by repeat constructor.
  - apply (Hv (s2b "al@x") (s2b "a") (s2b "2001")); by repeat constructor.
  - exists r', r. split; [done|]. split; [done|]. vm_compute in E1. injection E1 as <-. split; [apply H; lia|lia].
Defined.

Lemma explodeKey_sdelta_witness :
  ∃ key short, sccs_sdelta ex_table 1 = Some key ∧ sccs_shortKey ex_table 1 = Some short ∧ samekeystr key short = Some true ∧ isKey key = true.
Proof.
  destruct (explodeKey_sdelta ex_table 1 (s2b "lm") (s2b "work") ex_keyed) as (key & short & date & H1 & H2 & _ & _ & _ & H3 & H4).
  - cbn. lia.
  - reflexivity.
  - done.
  - done.
  - by repeat constructor.
  - done.
  - intros r [= <-]. split; [by repeat constructor|done].
  - exists key, short. done.
Defined.
