(* ===== verification/RenumberOk.v ===== *)
(** * RenumberOk: renumbering gives every file delta a revision of its own

    The numbers and the array [nextbranch] of [sccs_renumber] are followed as
    two functions of the serial.  The invariant says what [nextbranch] means;
    from it come the uniqueness of the revisions, the check [checkrevs] and the
    lookup of a printed revision. *)

From S2P Require Import Prelude CStr Sccs Rev Table Renumber.
From stdpp Require Import base numbers list strings.
From Stdlib Require Import ZArith Lia.

Local Open Scope bk_scope.

Local Open Scope nat_scope.

(** ** Numbers of the deltas up to [d] *)

Definition at_fun {A} (f : nat → A) (k : nat) (v : A) : nat → A := λ j, if j =? k then v else f j.

Lemma at_fun_eq {A} (f : nat → A) k v : at_fun f k v k = v.
Proof. unfold at_fun. by rewrite Nat.eqb_refl. Qed.

Lemma at_fun_ne {A} (f : nat → A) k v j : j ≠ k → at_fun f k v j = f j.
Proof. intros H. unfold at_fun. by rewrite (proj2 (Nat.eqb_neq j k)). Qed.

(** [r] follows its parent's revision [p]. *)
Definition follows (r p : revnum) : Prop :=
  (∃ a, p = (1, a, 0, 0) ∧ r = (1, S a, 0, 0)) ∨
  (∃ a b, p = (1, a, 0, 0) ∧ 1 <= b ∧ r = (1, a, b, 1)) ∨
  (∃ a b c, p = (1, a, b, c) ∧ 1 <= b ∧ 1 <= c ∧ r = (1, a, b, S c)) ∨
  (∃ a b b' c, p = (1, a, b, c) ∧ 1 <= b ∧ 1 <= c ∧ 1 <= b' ∧ r = (1, a, b', 1)).

Definition trunk_rev (r : revnum) : Prop := ∃ a, r = (1, a, 0, 0).

Definition branch_rev (r : revnum) : Prop := ∃ a b c, r = (1, a, b, c) ∧ 1 <= b ∧ 1 <= c.

Lemma follows_kind r p : follows r p → trunk_rev r ∨ branch_rev r.
Proof.
  intros [(a & _ & ->)|[(a & b & _ & Hb & ->)|[(a & b & c & _ & Hb & Hc & ->)|(a & b & b' & c & _ & _ & _ & Hb & ->)]]];
    [left; by eexists|right; eexists _, _, _; split_and!; [done|lia|lia]..].
Qed.

Lemma follows_trunk a p : follows (1, a, 0, 0) p → ∃ a', p = (1, a', 0, 0) ∧ a = S a'.
Proof.
  intros [(a' & -> & E)|[(a' & b & _ & Hb & E)|[(a' & b & c & _ & Hb & _ & E)|(a' & b & b' & c & _ & _ & _ & Hb & E)]]];
    simplify_eq; try lia. by exists a'.
Qed.

Lemma follows_branch a b c p : follows (1, a, b, c) p → 1 <= b →
  p = (1, a, 0, 0) ∧ c = 1 ∨ ∃ b' c', p = (1, a, b', c') ∧ 1 <= b' ∧ 1 <= c' ∧ (c = 1 ∨ c = S c' ∧ b = b').
Proof.
  intros [(a' & -> & E)|[(a' & b' & -> & Hb' & E)|[(a' & b' & c' & -> & Hb' & Hc & E)|(a' & b' & b2 & c' & -> & Hb' & Hc & Hb2 & E)]]] Hb;
    simplify_eq; try lia; [by left|right; eexists _, _; split_and!; auto..].
Qed.

Section Core.

Context (par : nat → nat) (rl : nat → Prop) (a0 : nat).

(** [ρ] are the numbers, [ν] is [nextbranch]. *)
Record core (d : nat) (ρ : nat → revnum) (ν : nat → nat) : Prop := {
  c_root : ρ 1 = (1, a0, 0, 0);
  c_kind : ∀ x, rl x → x <= d → trunk_rev (ρ x) ∨ branch_rev (ρ x);
  c_uniq : ∀ x y, rl x → rl y → x <= d → y <= d → ρ x = ρ y → x = y;
  c_trunk : ∀ x a b c, rl x → x <= d → ρ x = (1, a, b, c) → 1 <= b →
    ∃ t, rl t ∧ t <= d ∧ ρ t = (1, a, 0, 0) ∧ b < ν t ∧ (ν x = 0 ∨ ν x = t);
  c_par : ∀ x a b c, rl x → x <= d → ρ x = (1, a, b, c) → 1 <= b →
    ρ (par x) = (1, a, 0, 0) ∨ ∃ b' c', ρ (par x) = (1, a, b', c') ∧ 1 <= b' ∧ ν (par x) ≠ 0;
  c_pred : ∀ y a b c, rl y → y <= d → ρ y = (1, a, b, S c) → 1 <= b → 1 <= c →
    ∃ x, rl x ∧ x <= d ∧ ρ x = (1, a, b, c) ∧ ν x ≠ 0;
  c_chain : ∀ y a, rl y → y <= d → y ≠ 1 → ρ y = (1, a, 0, 0) →
    ∃ x a', a = S a' ∧ rl x ∧ x <= d ∧ ρ x = (1, a', 0, 0) ∧ ν x ≠ 0;
  c_low : ∀ y a, rl y → y <= d → ρ y = (1, a, 0, 0) → a0 <= a;
  c_bound : ∀ x a b c, rl x → x <= d → ρ x = (1, a, b, c) → a <= x ∧ b <= x ∧ c <= x ∧ (b = 0 → ν x <= d);
  c_good : ∀ x, rl x → 2 <= x <= d → follows (ρ x) (ρ (par x));
  c_fresh : ∀ x, d < x → ν x = 0
}.

Hypothesis rl_par : ∀ x, rl x → 2 <= x → rl (par x) ∧ 1 <= par x < x.

Hypothesis rl_pos : ∀ x, rl x → 1 <= x.

(** A delta that is no file delta. *)
Lemma core_skip d ρ ν r : core d ρ ν → ¬ rl (S d) → 1 <= d → core (S d) (at_fun ρ (S d) r) ν.
Proof.
  intros H Hn Hd. assert (Hle : ∀ x, rl x → x <= S d → x <= d) by (intros x Hx Hl; destruct (decide (x = S d)) as [->|]; [done|lia]).
  assert (Eq : ∀ x, rl x → at_fun ρ (S d) r x = ρ x) by (intros x Hx; apply at_fun_ne; by intros ->).
  assert (Ep : ∀ x, rl x → x <= S d → at_fun ρ (S d) r (par x) = ρ (par x) ∨ x = 1).
  { intros x Hx Hl. destruct (decide (x = 1)) as [|Hx1]; [by right|left]. pose proof (rl_pos x Hx). apply Eq, (rl_par x Hx). lia. }
  split.
  - rewrite at_fun_ne by lia. apply H.
  - intros x Hx Hl. rewrite Eq by done. apply (c_kind _ _ _ H); auto.
  - intros x y Hx Hy Hlx Hly. rewrite !Eq by done. apply (c_uniq _ _ _ H); auto.
  - intros x a b c Hx Hl. rewrite Eq by done. intros Hr Hb. destruct (c_trunk _ _ _ H x a b c Hx (Hle x Hx Hl) Hr Hb) as (t & Ht & Htd & Et & Hlt & Hv).
    exists t. rewrite Eq by done. split_and!; auto.
  - intros x a b c Hx Hl. rewrite Eq by done. intros Hr Hb. destruct (Ep x Hx Hl) as [-> | ->].
    + by apply (c_par _ _ _ H x a b c Hx (Hle x Hx Hl)).
    + rewrite (c_root _ _ _ H) in Hr. injection Hr as <- <- <-. lia.
  - intros y a b c Hy Hl. rewrite Eq by done. intros Hr Hb Hc. destruct (c_pred _ _ _ H y a b c Hy (Hle y Hy Hl) Hr Hb Hc) as (x & Hx & Hxd & Ex & Hv).
    exists x. rewrite Eq by done. auto.
  - intros y a Hy Hl Hy1. rewrite Eq by done. intros Hr. destruct (c_chain _ _ _ H y a Hy (Hle y Hy Hl) Hy1 Hr) as (x & a' & Ea & Hx & Hxd & Ex & Hv).
    exists x, a'. rewrite Eq by done. auto 6.
  - intros y a Hy Hl. rewrite Eq by done. apply (c_low _ _ _ H); auto.
  - intros x a b c Hx Hl. rewrite Eq by done. intros Hr. destruct (c_bound _ _ _ H x a b c Hx (Hle x Hx Hl) Hr) as (? & ? & ? & Hv).
    split_and!; try lia.
  - intros x Hx [Hl1 Hl2]. rewrite Eq by done. destruct (Ep x Hx Hl2) as [-> | ->]; [|lia]. apply (c_good _ _ _ H); auto.
  - intros x Hx. apply (c_fresh _ _ _ H). lia.
Qed.

(** What changes in [nextbranch] with a new file delta: entry [k] grows. *)
Record grown (d : nat) (ρ : nat → revnum) (ν ν' : nat → nat) (k : nat) : Prop := {
  g_k : rl k ∧ k <= d;
  g_same : ∀ x, x ≠ k → ν' x = ν x;
  g_set : ν' k ≠ 0;
  g_trunk : trunk_rev (ρ k) → ν' k = S (ν k);
  g_branch : ∀ a b c, ρ k = (1, a, b, c) → 1 <= b → ν k = 0 ∧ rl (ν' k) ∧ ν' k <= d ∧ ρ (ν' k) = (1, a, 0, 0)
}.

(** A new file delta with numbers [r] and the delta [n] itself. *)
Record fits_new (d : nat) (ρ : nat → revnum) (ν ν' : nat → nat) (r : revnum) : Prop := {
  f_fresh : ∀ x, rl x → x <= d → ρ x ≠ r;
  f_follows : follows r (ρ (par (S d)));
  f_trunk : ∀ a b c, r = (1, a, b, c) → 1 <= b → ∃ t, rl t ∧ t <= d ∧ ρ t = (1, a, 0, 0) ∧ b < ν' t;
  f_par : ν' (par (S d)) ≠ 0;
  f_bound : ∀ a b c, r = (1, a, b, c) → a <= S d ∧ b <= S d ∧ c <= S d
}.

Lemma grown_mono d ρ ν ν' k x : core d ρ ν → grown d ρ ν ν' k → rl x → x <= d → trunk_rev (ρ x) → ν x <= ν' x.
Proof.
  intros H Hg Hx Hd Ht. destruct (decide (x = k)) as [->|Hne]; [|by rewrite (g_same _ _ _ _ _ Hg)]. rewrite (g_trunk _ _ _ _ _ Hg) by done. lia.
Qed.

Lemma grown_nz d ρ ν ν' k x : grown d ρ ν ν' k → ν x ≠ 0 → ν' x ≠ 0.
Proof. intros Hg Hx. destruct (decide (x = k)) as [->|Hne]; [apply Hg|by rewrite (g_same _ _ _ _ _ Hg)]. Qed.

Section Extend.

Context (d : nat) (ρ : nat → revnum) (ν ν' : nat → nat) (k : nat) (r : revnum).
Context (H : core d ρ ν) (Hd : 1 <= d) (Hrn : rl (S d)) (Hg : grown d ρ ν ν' k) (Hf : fits_new d ρ ν ν' r).

Abbreviation ρ' := (at_fun ρ (S d) r).

Lemma ext_old x : x <= d → ρ' x = ρ x.
Proof. intros Hx. apply at_fun_ne. lia. Qed.

Lemma ext_new : ρ' (S d) = r.
Proof. apply at_fun_eq. Qed.

Lemma ext_case x : x <= S d → x = S d ∨ x <= d.
Proof. lia. Qed.

Lemma ext_parent : rl (par (S d)) ∧ 1 <= par (S d) <= d ∧ ρ' (par (S d)) = ρ (par (S d)).
Proof. destruct (rl_par (S d) Hrn ltac:(lia)) as [H1 H2]. split_and!; [done|lia|lia|apply ext_old; lia]. Qed.

Lemma branch_not_root x a b c : rl x → ρ x = (1, a, b, c) → 1 <= b → 2 <= x.
Proof.
  intros Hx Hr Hb. pose proof (rl_pos x Hx). destruct (decide (x = 1)) as [->|]; [|lia]. rewrite (c_root _ _ _ H) in Hr.
  injection Hr as _ <- _. lia.
Qed.

Lemma ext_uniq x y : rl x → rl y → x <= S d → y <= S d → ρ' x = ρ' y → x = y.
Proof.
  intros Hx Hy Hlx Hly. destruct (ext_case x Hlx) as [->|Hx'], (ext_case y Hly) as [->|Hy']; rewrite ?ext_new, ?ext_old by done; intros E.
  - done.
  - symmetry in E. by destruct (f_fresh _ _ _ _ _ Hf y Hy Hy').
  - by destruct (f_fresh _ _ _ _ _ Hf x Hx Hx').
  - by apply (c_uniq _ _ _ H).
Qed.

Lemma ext_zero : ν' (S d) = 0.
Proof. rewrite (g_same _ _ _ _ _ Hg) by (pose proof (g_k _ _ _ _ _ Hg); lia). apply (c_fresh _ _ _ H). lia. Qed.

Lemma ext_trunk x a b c : rl x → x <= S d → ρ' x = (1, a, b, c) → 1 <= b →
  ∃ t, rl t ∧ t <= S d ∧ ρ' t = (1, a, 0, 0) ∧ b < ν' t ∧ (ν' x = 0 ∨ ν' x = t).
Proof.
  intros Hx Hl Hr Hb. destruct (ext_case x Hl) as [->|Hl'].
  - rewrite ext_new in Hr. destruct (f_trunk _ _ _ _ _ Hf a b c Hr Hb) as (t & Ht & Htd & Et & Hlt). exists t.
    rewrite ext_old by done. split_and!; auto using ext_zero.
  - rewrite ext_old in Hr by done. destruct (c_trunk _ _ _ H x a b c Hx Hl' Hr Hb) as (t & Ht & Htd & Et & Hlt & Hv). exists t. rewrite ext_old by done.
    assert (Hm := grown_mono d ρ ν ν' k t H Hg Ht Htd ltac:(by exists a)). split_and!; [done|lia|done|lia|].
    destruct (decide (x = k)) as [->|Hne]; [|by rewrite (g_same _ _ _ _ _ Hg)]. right.
    destruct (g_branch _ _ _ _ _ Hg a b c Hr Hb) as (_ & H1 & H2 & H3). apply (c_uniq _ _ _ H); [done..|congruence].
Qed.

Lemma ext_par x a b c : rl x → x <= S d → ρ' x = (1, a, b, c) → 1 <= b →
  ρ' (par x) = (1, a, 0, 0) ∨ ∃ b' c', ρ' (par x) = (1, a, b', c') ∧ 1 <= b' ∧ ν' (par x) ≠ 0.
Proof.
  intros Hx Hl Hr Hb. destruct (ext_case x Hl) as [->|Hl'].
  - rewrite ext_new in Hr. destruct ext_parent as (_ & _ & ->). pose proof (f_follows _ _ _ _ _ Hf) as Hfo. rewrite Hr in Hfo.
    destruct (follows_branch _ _ _ _ Hfo Hb) as [[Ep _]|(b' & c' & Ep & Hb' & _)]; [by left|right]. exists b', c'. split_and!; [done|done|apply Hf].
  - rewrite ext_old in Hr by done. pose proof (branch_not_root x a b c Hx Hr Hb) as H2. destruct (rl_par x Hx H2) as [_ Hp]. rewrite ext_old by lia.
    destruct (c_par _ _ _ H x a b c Hx Hl' Hr Hb) as [?|(b' & c' & Ep & Hb' & Hv)]; [by left|right]. exists b', c'. split_and!; [done|done|by eapply grown_nz].
Qed.

Lemma ext_pred y a b c : rl y → y <= S d → ρ' y = (1, a, b, S c) → 1 <= b → 1 <= c → ∃ x, rl x ∧ x <= S d ∧ ρ' x = (1, a, b, c) ∧ ν' x ≠ 0.
Proof.
  intros Hy Hl Hr Hb Hc. destruct (ext_case y Hl) as [->|Hl'].
  - rewrite ext_new in Hr. pose proof (f_follows _ _ _ _ _ Hf) as Hfo. rewrite Hr in Hfo. destruct ext_parent as (P1 & P2 & P3).
    exists (par (S d)). rewrite P3. destruct (follows_branch _ _ _ _ Hfo Hb) as [[_ ?]|(b' & c' & Ep & _ & _ & [?|[[= <-] <-]])]; [lia|lia|].
    split_and!; [done|lia|done|apply Hf].
  - rewrite ext_old in Hr by done. destruct (c_pred _ _ _ H y a b c Hy Hl' Hr Hb Hc) as (x & Hx & Hxd & Ex & Hv). exists x. rewrite ext_old by done.
    split_and!; [done|lia|done|by eapply grown_nz].
Qed.

Lemma ext_chain y a : rl y → y <= S d → y ≠ 1 → ρ' y = (1, a, 0, 0) →
  ∃ x a', a = S a' ∧ rl x ∧ x <= S d ∧ ρ' x = (1, a', 0, 0) ∧ ν' x ≠ 0.
Proof.
  intros Hy Hl Hy1 Hr. destruct (ext_case y Hl) as [->|Hl'].
  - rewrite ext_new in Hr. pose proof (f_follows _ _ _ _ _ Hf) as Hfo. rewrite Hr in Hfo. destruct ext_parent as (P1 & P2 & P3).
    destruct (follows_trunk _ _ Hfo) as (a1 & Ep & ->). exists (par (S d)), a1. rewrite P3. split_and!; [done|done|lia|done|apply Hf].
  - rewrite ext_old in Hr by done. destruct (c_chain _ _ _ H y a Hy Hl' Hy1 Hr) as (x & a' & Ea & Hx & Hxd & Ex & Hv). exists x, a'. rewrite ext_old by done.
    split_and!; [done|done|lia|done|by eapply grown_nz].
Qed.

Lemma ext_low y a : rl y → y <= S d → ρ' y = (1, a, 0, 0) → a0 <= a.
Proof.
  intros Hy Hl Hr. destruct (ext_case y Hl) as [->|Hl']; [|rewrite ext_old in Hr by done; by apply (c_low _ _ _ H y)].
  rewrite ext_new in Hr. pose proof (f_follows _ _ _ _ _ Hf) as Hfo. rewrite Hr in Hfo. destruct ext_parent as (P1 & P2 & _).
  destruct (follows_trunk _ _ Hfo) as (a1 & Ep & ->). assert (a0 <= a1); [|lia]. apply (c_low _ _ _ H (par (S d))); [done|lia|done].
Qed.

Lemma ext_bound x a b c : rl x → x <= S d → ρ' x = (1, a, b, c) → a <= x ∧ b <= x ∧ c <= x ∧ (b = 0 → ν' x <= S d).
Proof.
  intros Hx Hl Hr. destruct (ext_case x Hl) as [->|Hl'].
  - rewrite ext_new in Hr. destruct (f_bound _ _ _ _ _ Hf a b c Hr) as (? & ? & ?). rewrite ext_zero. lia.
  - rewrite ext_old in Hr by done. destruct (c_bound _ _ _ H x a b c Hx Hl' Hr) as (? & ? & ? & Hv). split_and!; [lia..|]. intros Hb. specialize (Hv Hb).
    destruct (decide (x = k)) as [->|Hne]; [|rewrite (g_same _ _ _ _ _ Hg) by done; lia].
    destruct (c_kind _ _ _ H k Hx Hl') as [Ht|(a1 & b1 & c1 & E1 & Hb1 & _)]; [rewrite (g_trunk _ _ _ _ _ Hg Ht); lia|].
    rewrite Hr in E1. injection E1 as _ <- _. lia.
Qed.

Lemma core_extend : core (S d) ρ' ν'.
Proof.
  split; [rewrite ext_old by lia; apply H| |exact ext_uniq|exact ext_trunk|exact ext_par|exact ext_pred|exact ext_chain|exact ext_low|exact ext_bound| |].
  - intros x Hx Hl. destruct (ext_case x Hl) as [->|Hl']; [rewrite ext_new|rewrite ext_old by done; by apply (c_kind _ _ _ H)].
    apply (follows_kind _ (ρ (par (S d)))), Hf.
  - intros x Hx [Hl1 Hl2]. destruct (ext_case x Hl2) as [->|Hl'].
    + destruct ext_parent as (_ & _ & ->). rewrite ext_new. apply Hf.
    + destruct (rl_par x Hx Hl1) as [_ Hp]. rewrite !ext_old by lia. by apply (c_good _ _ _ H).
  - intros x Hx. rewrite (g_same _ _ _ _ _ Hg) by (pose proof (g_k _ _ _ _ _ Hg); lia). apply (c_fresh _ _ _ H). lia.
Qed.

End Extend.

(** ** The three ways to number a delta *)

Definition r2 (r : revnum) : nat := snd (fst r).

(** A parent that has a child already: a new branch off the trunk. *)
Lemma core_new_branch d ρ ν : core d ρ ν → 1 <= d → rl (S d) → ν (par (S d)) ≠ 0 →
  ∃ t a, t = (if r2 (ρ (par (S d))) =? 0 then par (S d) else ν (par (S d))) ∧ rl t ∧ t <= d ∧ ρ t = (1, a, 0, 0) ∧
    core (S d) (at_fun ρ (S d) (1, a, ν t, 1)) (at_fun ν t (S (ν t))).
Proof.
  intros H Hd Hrn Hv. destruct (rl_par (S d) Hrn ltac:(lia)) as [Hp Hpd]. set (p := par (S d)) in *.
  assert (Ht : ∃ t a, t = (if r2 (ρ p) =? 0 then p else ν p) ∧ rl t ∧ t <= d ∧ ρ t = (1, a, 0, 0) ∧ 1 <= ν t ∧
    (p = t ∨ ∃ b c, ρ p = (1, a, b, c) ∧ 1 <= b ∧ 1 <= c)).
  { destruct (c_kind _ _ _ H p Hp ltac:(lia)) as [(a & E)|(a & b & c & E & Hb & Hc)].
    - exists p, a. rewrite E. split_and!; [done|done|lia|done|lia|by left].
    - destruct (c_trunk _ _ _ H p a b c Hp ltac:(lia) E Hb) as (t & Hrt & Htd & Et & Hlt & Hvt). exists t, a. rewrite E.
      unfold r2. cbn [fst snd]. rewrite (proj2 (Nat.eqb_neq b 0)) by lia. split_and!; [destruct Hvt; [done|lia]|done|done|done|lia|right; eauto]. }
  destruct Ht as (t & a & Et & Hrt & Htd & Ea & Hv1 & Hpt). exists t, a. split_and!; [done..|]. apply (core_extend d ρ ν _ t); [done..| |].
  - split; [done|intros; by apply at_fun_ne|by rewrite at_fun_eq|by rewrite at_fun_eq|]. intros a1 b1 c1 E1 Hb1. rewrite Ea in E1. simplify_eq. lia.
  - split.
    + intros x Hx Hxd E. destruct (c_trunk _ _ _ H x a (ν t) 1 Hx Hxd E Hv1) as (t' & H1 & H2 & H3 & H4 & _).
      assert (t' = t) by (apply (c_uniq _ _ _ H); [done..|congruence]). subst t'. lia.
    + fold p. destruct Hpt as [Ept | (b & c & E & Hb & Hc)]; [right; left; exists a, (ν t); by rewrite Ept|]. right. right. right. exists a, b, (ν t), c. done.
    + intros a1 b1 c1 E1 Hb1. injection E1 as <- <- <-. exists t. rewrite at_fun_eq. split_and!; [done..|lia].
    + fold p. destruct (decide (p = t)) as [Ept|Hne]; [by rewrite Ept, at_fun_eq|by rewrite at_fun_ne].
    + intros a1 b1 c1 E1. injection E1 as <- <- <-. destruct (c_bound _ _ _ H t a 0 0 Hrt Htd Ea) as (? & _ & _ & Hb0). specialize (Hb0 eq_refl). lia.
Qed.

(** The first child on a branch. *)
Lemma core_next_on_branch d ρ ν a b c : core d ρ ν → 1 <= d → rl (S d) → ν (par (S d)) = 0 → ρ (par (S d)) = (1, a, b, c) → 1 <= b →
  let p := par (S d) in
  par p ≠ 0 ∧ core (S d) (at_fun ρ (S d) (1, a, b, S c)) (at_fun ν p (if r2 (ρ (par p)) =? 0 then par p else ν (par p))).
Proof.
  intros H Hd Hrn Hv E Hb. destruct (rl_par (S d) Hrn ltac:(lia)) as [Hp Hpd]. cbn zeta. set (p := par (S d)) in *.
  pose proof (branch_not_root d ρ ν H Hd p a b c Hp E Hb) as Hp2. destruct (rl_par p Hp Hp2) as [Hq Hqp].
  set (t := if r2 (ρ (par p)) =? 0 then par p else ν (par p)).
  assert (Hc1 : 1 <= c). { destruct (c_kind _ _ _ H p Hp ltac:(lia)) as [(x & Ex)|(x & y & z & Ex & _ & Hz)]; rewrite E in Ex; simplify_eq; lia. }
  assert (Ht : rl t ∧ t <= d ∧ ρ t = (1, a, 0, 0)).
  { unfold t. destruct (c_par _ _ _ H p a b c Hp ltac:(lia) E Hb) as [Eq|(b' & c' & Eq & Hb' & Hvq)]; rewrite Eq; unfold r2; cbn [fst snd].
    - cbn. split_and!; [done|lia|done].
    - rewrite (proj2 (Nat.eqb_neq b' 0)) by lia. destruct (c_trunk _ _ _ H (par p) a b' c' Hq ltac:(lia) Eq Hb') as (t' & H1 & H2 & H3 & _ & [H4|H4]); [done|].
      rewrite H4. done. }
  destruct Ht as (Hrt & Htd & Et). split; [lia|]. apply (core_extend d ρ ν _ p); [done..| |].
  - split; [split; [done|lia]|intros; by apply at_fun_ne|rewrite at_fun_eq; specialize (rl_pos t Hrt); lia|intros [x Ex]; rewrite E in Ex; simplify_eq; lia|].
    intros a1 b1 c1 E1 Hb1. rewrite E in E1. simplify_eq. by rewrite at_fun_eq.
  - split.
    + intros x Hx Hxd Ex. destruct (c_pred _ _ _ H x a b c Hx Hxd Ex Hb Hc1) as (y & H1 & H2 & H3 & H4).
      assert (y = p) by (apply (c_uniq _ _ _ H); [done|done|done|lia|congruence]). by subst y.
    + fold p. rewrite E. right. right. left. exists a, b, c. done.
    + intros a1 b1 c1 E1 Hb1. simplify_eq. destruct (c_trunk _ _ _ H p a1 b1 c Hp ltac:(lia) E Hb) as (t' & H1 & H2 & H3 & H4 & _).
      exists t'. rewrite at_fun_ne; [done|]. intros ->. rewrite E in H3. simplify_eq. lia.
    + fold p. rewrite at_fun_eq. specialize (rl_pos t Hrt). lia.
    + intros a1 b1 c1 E1. simplify_eq. destruct (c_bound _ _ _ H p a1 b1 c Hp ltac:(lia) E) as (? & ? & ? & _). lia.
Qed.

(** The first child on the trunk. *)
Lemma core_next_on_trunk d ρ ν a : core d ρ ν → 1 <= d → rl (S d) → ν (par (S d)) = 0 → ρ (par (S d)) = (1, a, 0, 0) →
  core (S d) (at_fun ρ (S d) (1, S a, 0, 0)) (at_fun ν (par (S d)) (S (ν (par (S d))))).
Proof.
  intros H Hd Hrn Hv E. destruct (rl_par (S d) Hrn ltac:(lia)) as [Hp Hpd]. set (p := par (S d)) in *.
  apply (core_extend d ρ ν _ p); [done..| |].
  - split; [split; [done|lia]|intros; by apply at_fun_ne|by rewrite at_fun_eq|by rewrite at_fun_eq|].
    intros a1 b1 c1 E1 Hb1. rewrite E in E1. simplify_eq. lia.
  - split.
    + intros x Hx Hxd Ex. destruct (decide (x = 1)) as [->|Hx1].
      * rewrite (c_root _ _ _ H) in Ex. simplify_eq. pose proof (c_low _ _ _ H p a Hp ltac:(lia) E). lia.
      * destruct (c_chain _ _ _ H x (S a) Hx Hxd Hx1 Ex) as (y & a' & Ea & H1 & H2 & H3 & H4). simplify_eq.
        assert (y = p) by (apply (c_uniq _ _ _ H); [done|done|done|lia|congruence]). by subst y.
    + fold p. rewrite E. left. by exists a.
    + intros a1 b1 c1 E1 Hb1. simplify_eq. lia.
    + fold p. by rewrite at_fun_eq.
    + intros a1 b1 c1 E1. simplify_eq. destruct (c_bound _ _ _ H p a 0 0 Hp ltac:(lia) E) as (? & _). lia.
Qed.

Lemma core_start ρ : ρ 1 = (1, a0, 0, 0) → a0 <= 1 → core 1 ρ (λ _, 0).
Proof.
  intros E Ha. assert (H1 : ∀ x, rl x → x <= 1 → x = 1) by (intros x Hx Hl; specialize (rl_pos x Hx); lia).
  split; [done|..].
  - intros x Hx Hl. rewrite (H1 x Hx Hl), E. left. by exists a0.
  - intros x y Hx Hy Hlx Hly _. by rewrite (H1 x Hx Hlx), (H1 y Hy Hly).
  - intros x a b c Hx Hl. rewrite (H1 x Hx Hl), E. intros Er Hb. simplify_eq. lia.
  - intros x a b c Hx Hl. rewrite (H1 x Hx Hl), E. intros Er Hb. simplify_eq. lia.
  - intros x a b c Hx Hl. rewrite (H1 x Hx Hl), E. intros Er Hb. by simplify_eq.
  - intros y a Hy Hl Hy1. by rewrite (H1 y Hy Hl) in Hy1.
  - intros y a Hy Hl. rewrite (H1 y Hy Hl), E. intros Er. by simplify_eq.
  - intros x a b c Hx Hl. rewrite (H1 x Hx Hl), E. intros Er. simplify_eq. lia.
  - intros x Hx Hl. lia.
  - done.
Qed.

End Core.

Lemma num_core_ext par rl a0 d ρ ρ' ν ν' : (∀ x, ρ x = ρ' x) → (∀ x, ν x = ν' x) → core par rl a0 d ρ ν → core par rl a0 d ρ' ν'.
Proof.
  intros Hρ Hν [H1 H2 H3 H4 H5 H6 H7 H8 H9 H10 H11].
  split; [by rewrite <- Hρ|..]; repeat setoid_rewrite <- Hρ; repeat setoid_rewrite <- Hν; assumption.
Qed.

(** ** Graphs that can be renumbered *)

(** A file delta that stays. *)
Definition real (s : sccs) (d : nat) : Prop := (1 <= d <= TABLE s) ∧ GONE s d = false ∧ META s d = false.

Record ren_graph (s : sccs) : Prop := {
  rg_size : TABLE s = length (deltas s) ∧ 1 <= TABLE s ∧ small (TABLE s);
  rg_root : PARENT s 1 = 0 ∧ real s 1 ∧ (R_of s 1 = (1, 0, 0, 0) ∨ R_of s 1 = (1, 1, 0, 0));
  rg_parent : ∀ d, 2 <= d <= TABLE s → 1 <= PARENT s d < d;
  rg_real_parent : ∀ d, 2 <= d → real s d → real s (PARENT s d);
  rg_meta : ∀ d, 1 <= d <= TABLE s → META s d = true → TAG s d = true;
  rg_flags : ∀ d, real s d → TAG s d = false ∧ INARRAY s d = true ∧ R0 s d = 1;
  rg_merge : ∀ d, real s d → MERGE s d ≠ 0 → PARENT s d ≠ MERGE s d ∧ sccs_needSwap s (PARENT s d) (MERGE s d) = Some false;
  rg_cludes : ∀ d, real s d → Forall (λ p : Z * Z, (fst p < Z.of_nat d)%Z) (nums (CLUDES s d))
}.

(** Only the revisions differ. *)
Record same_graph (s s' : sccs) : Prop := {
  sg_size : TABLE s' = TABLE s ∧ length (deltas s') = length (deltas s);
  sg_delta : ∀ j, dl s' j = set_r (R_of s' j) (dl s j)
}.

Lemma sg_fields s s' j : same_graph s s' → PARENT s' j = PARENT s j ∧ MERGE s' j = MERGE s j ∧ FLAGS s' j = FLAGS s j ∧ CLUDES s' j = CLUDES s j.
Proof. intros H. unfold PARENT, MERGE, FLAGS, CLUDES. rewrite (sg_delta _ _ H j). done. Qed.

Lemma sg_flags s s' j : same_graph s s' → META s' j = META s j ∧ GONE s' j = GONE s j ∧ TAG s' j = TAG s j ∧ INARRAY s' j = INARRAY s j.
Proof. intros H. unfold META, GONE, TAG, INARRAY. by destruct (sg_fields s s' j H) as (_ & _ & -> & _). Qed.

Lemma sg_refl s : same_graph s s.
Proof. split; [done|]. intros j. unfold R_of. by destruct (dl s j). Qed.

Lemma R_of_set s d r x : 1 <= d <= length (deltas s) → R_of (set_delta s d (set_r r)) x = at_fun (R_of s) d r x.
Proof.
  intros Hd. unfold R_of. destruct (decide (x = d)) as [->|Hne]; [rewrite at_fun_eq, dl_set_eq by done; done|].
  rewrite at_fun_ne by done. by rewrite dl_set_ne.
Qed.

Lemma sg_set s s' d r : same_graph s s' → same_graph s (set_delta s' d (set_r r)).
Proof.
  intros H. split.
  - destruct (sg_size _ _ H) as [<- <-]. rewrite length_set_delta. by destruct d.
  - intros j. destruct (decide (1 <= d <= length (deltas s'))) as [Hd|Hd].
    + rewrite R_of_set by done. destruct (decide (j = d)) as [->|Hne].
      * rewrite dl_set_eq, at_fun_eq by done. rewrite (sg_delta _ _ H d). by destruct (dl s d).
      * rewrite dl_set_ne, at_fun_ne by done. apply H.
    + assert (E : set_delta s' d (set_r r) = s'); [|rewrite E; apply H]. destruct d as [|k]; [done|]. unfold set_delta.
      destruct s' as [ds ? ? ? ? ? ?]. cbn in *. f_equal. apply list_eq. intros i.
      destruct (decide (i = k)) as [->|Hi]; [|by rewrite list_lookup_alter_ne]. rewrite list_lookup_alter_eq. by rewrite lookup_ge_None_2 by lia.
Qed.

Lemma set_r_id s d : set_delta s d (set_r (R_of s d)) = s.
Proof.
  destruct d as [|k]; [done|]. unfold R_of. cbn. destruct s as [ds ? ? ? ? ? ?]. cbn. f_equal. apply list_eq. intros i.
  destruct (decide (i = k)) as [->|Hi]; [|by rewrite list_lookup_alter_ne]. rewrite list_lookup_alter_eq.
  destruct (ds !! k) as [x|] eqn:E; [|done]. cbn. rewrite (nth_lookup_Some _ _ _ _ E). by destruct x.
Qed.

Lemma nb_at_insert nb k v x : k < length nb → nb_at (<[k:=v]> nb) x = at_fun (nb_at nb) k v x.
Proof.
  intros Hk. unfold nb_at. destruct (decide (x = k)) as [->|Hne].
  - rewrite at_fun_eq. by apply nth_lookup_Some, list_lookup_insert_eq.
  - rewrite at_fun_ne by done. rewrite !nth_lookup. by rewrite list_lookup_insert_ne.
Qed.

Lemma needSwap_same s s' : same_graph s s' → ∀ fuel p m x y, needSwap_loop fuel s' p m x y = needSwap_loop fuel s p m x y.
Proof.
  intros H. induction fuel as [|fuel IH]; intros p m x y; cbn [needSwap_loop]; [done|].
  rewrite !(proj1 (sg_fields s s' _ H)), !IH. done.
Qed.

Lemma meta_parent_same s s' : same_graph s s' → ∀ fuel p, meta_parent fuel s' p = meta_parent fuel s p.
Proof.
  intros H. induction fuel as [|fuel IH]; intros p; cbn [meta_parent]; rewrite (proj1 (sg_flags s s' p H)); [done|].
  rewrite (proj1 (sg_fields s s' p H)), IH. done.
Qed.

Section Run.

Context (s0 : sccs) (Hg : ren_graph s0) (a0 : nat) (Ha0 : R_of s0 1 = (1, a0, 0, 0)).

Abbreviation core0 := (core (PARENT s0) (real s0) a0).

Lemma real_par x : real s0 x → 2 <= x → real s0 (PARENT s0 x) ∧ 1 <= PARENT s0 x < x.
Proof. intros Hx H2. split; [by apply (rg_real_parent _ Hg)|apply (rg_parent _ Hg)]. destruct Hx. lia. Qed.

Lemma real_pos x : real s0 x → 1 <= x.
Proof. intros [H _]. lia. Qed.

(** The state after deltas 1 to [d]. *)
Record run (d : nat) (s : sccs) (nb : list nat) : Prop := {
  rn_graph : same_graph s0 s;
  rn_rest : ∀ j, d < j → R_of s j = R_of s0 j;
  rn_length : length nb = S (TABLE s0);
  rn_core : core0 d (R_of s) (nb_at nb);
  rn_tags : ∀ x, 2 <= x <= d → GONE s0 x = false → META s0 x = true →
    ∃ p, meta_parent x s0 (PARENT s0 x) = Some p ∧ p < x ∧ R_of s x = R_of s p
}.

Lemma run_set d s nb r nb' : run d s nb → S d <= TABLE s0 → length nb' = length nb →
  core0 (S d) (at_fun (R_of s) (S d) r) (nb_at nb') →
  (GONE s0 (S d) = false → META s0 (S d) = true → ∃ p, meta_parent (S d) s0 (PARENT s0 (S d)) = Some p ∧ p < S d ∧ r = R_of s p) →
  run (S d) (set_delta s (S d) (set_r r)) nb'.
Proof.
  intros H Hd Hl Hc Ht. destruct (sg_size _ _ (rn_graph _ _ _ H)) as [_ Hls]. destruct (rg_size _ Hg) as [Hsz _].
  assert (Er : ∀ x, R_of (set_delta s (S d) (set_r r)) x = at_fun (R_of s) (S d) r x) by (intros x; apply R_of_set; lia).
  split.
  - by apply sg_set, H.
  - intros j Hj. rewrite Er, at_fun_ne by lia. apply (rn_rest _ _ _ H). lia.
  - by rewrite Hl, (rn_length _ _ _ H).
  - eapply num_core_ext; [|done|exact Hc]. intros x. by rewrite Er.
  - intros x Hx Hgo Hm. rewrite Er. destruct (decide (x = S d)) as [->|Hne].
    + destruct (Ht Hgo Hm) as (p & Hp & Hpd & ->). exists p. rewrite Er, at_fun_eq, at_fun_ne by lia. done.
    + destruct (rn_tags _ _ _ H x ltac:(lia) Hgo Hm) as (p & Hp & Hpx & E). exists p. rewrite Er, !at_fun_ne by lia. done.
Qed.

Lemma redo_merge d s : same_graph s0 s → real s0 d →
  (if MERGE s d =? 0 then Some tt else
     assert! negb (PARENT s d =? MERGE s d) && true;
     let? swap := sccs_needSwap s (PARENT s d) (MERGE s d) in assert! negb swap; Some tt) = Some tt.
Proof.
  intros Hsg Hr. destruct (sg_fields s0 s d Hsg) as (-> & -> & _).
  destruct (Nat.eqb_spec (MERGE s0 d) 0) as [|Hm]; [done|]. destruct (rg_merge _ Hg d Hr Hm) as [Hne Hsw].
  rewrite (proj2 (Nat.eqb_neq _ _) Hne). cbn [negb andb]. unfold sccs_needSwap in *.
  rewrite (needSwap_same s0 s Hsg), !(proj1 (sg_fields s0 s _ Hsg)), Hsw. done.
Qed.

(** [redo] of a file delta, in terms of the numbers and [nextbranch]. *)
Definition real_rev (ρ : nat → revnum) (nb : list nat) (d : nat) : option ((revnum * list nat) + unit) :=
  let p := PARENT s0 d in
  let '(_, a, b, c) := ρ p in
  if negb (nb_at nb p =? 0) then
    let t := if b =? 0 then p else nb_at nb p in
    Some (inl ((1, snd (fst (fst (ρ t))), nb_at nb t, 1), <[t := S (nb_at nb t)]> nb))
  else if negb (b =? 0) then
    assert! negb (PARENT s0 p =? 0);
    Some (inl ((1, a, b, S c), <[p := if r2 (ρ (PARENT s0 p)) =? 0 then PARENT s0 p else nb_at nb (PARENT s0 p)]> nb))
  else Some (inl ((1, S a, 0, 0), <[p := S (nb_at nb p)]> nb)).

Lemma redo_rev_real d s nb : same_graph s0 s → 2 <= d → real s0 d → R0 s d = 1 → R0 s (PARENT s0 d) = 1 →
  redo_rev true s d nb = real_rev (R_of s) nb d.
Proof.
  intros Hsg Hd Hr E0 Ep0. destruct (real_par d Hr Hd) as [Hrp Hp].
  destruct (rg_flags _ Hg _ Hr) as (Htag & _ & _). pose proof (redo_merge d s Hsg Hr) as Hm.
  unfold redo_rev. destruct (sg_flags s0 s d Hsg) as (-> & _ & -> & _). rewrite Htag. destruct Hr as (_ & _ & ->).
  rewrite Hm. rewrite !(proj1 (sg_fields s0 s _ Hsg)). rewrite (proj2 (Nat.eqb_neq (PARENT s0 d) 0)) by lia.
  rewrite E0, Ep0. cbn [Nat.eqb negb andb]. unfold real_rev, R1, R2, R3, r2. destruct (R_of s (PARENT s0 d)) as [[[x a] b] c] eqn:E. cbn [fst snd].
  destruct (nb_at nb (PARENT s0 d) =? 0); cbn [negb]; [|by destruct (b =? 0)].
  destruct (b =? 0); cbn [negb]; [done|]. destruct (PARENT s0 (PARENT s0 d) =? 0); [done|]. cbn [negb].
  by destruct (snd (fst (R_of s (PARENT s0 (PARENT s0 d)))) =? 0).
Qed.

Lemma run_R0 d s nb x : run d s nb → real s0 x → R0 s x = 1.
Proof.
  intros H Hr. destruct (decide (x <= d)) as [Hl|Hl].
  - unfold R0. destruct (c_kind _ _ _ _ _ _ (rn_core _ _ _ H) x Hr Hl) as [(a & ->)|(a & b & c & -> & _)]; done.
  - destruct (rg_flags _ Hg _ Hr) as (_ & _ & <-). unfold R0. by rewrite (rn_rest _ _ _ H) by lia.
Qed.

Lemma real_step d s nb : run d s nb → 1 <= d → real s0 (S d) →
  ∃ r nb', redo_rev true s (S d) nb = Some (inl (r, nb')) ∧ run (S d) (set_delta s (S d) (set_r r)) nb'.
Proof.
  intros H Hd Hr. destruct (real_par (S d) Hr ltac:(lia)) as [Hrp Hp]. pose proof (rn_core _ _ _ H) as Hc.
  rewrite (redo_rev_real (S d) s nb (rn_graph _ _ _ H) ltac:(lia) Hr (run_R0 d s nb _ H Hr) (run_R0 d s nb _ H Hrp)).
  assert (HS : S d <= TABLE s0) by (destruct Hr; lia). assert (Hln : ∀ k, k <= d → k < length nb) by (intros k Hk; rewrite (rn_length _ _ _ H); lia).
  assert (Hfin : ∀ k v r, k <= d → core0 (S d) (at_fun (R_of s) (S d) r) (at_fun (nb_at nb) k v) →
    run (S d) (set_delta s (S d) (set_r r)) (<[k:=v]> nb)).
  { intros k v r Hk Hc'. apply (run_set d s nb); [done|done|apply length_insert| |destruct Hr as (_ & _ & Hm); congruence].
    eapply num_core_ext; [done| |exact Hc']. intros x. symmetry. by apply nb_at_insert, Hln. }
  unfold real_rev. destruct (Nat.eqb_spec (nb_at nb (PARENT s0 (S d))) 0) as [Ev|Ev]; cbn [negb].
  - destruct (c_kind _ _ _ _ _ _ Hc (PARENT s0 (S d)) Hrp ltac:(lia)) as [(a & E)|(a & b & c & E & Hb & Hc1)]; rewrite E.
    + cbn [Nat.eqb negb]. eexists _, _. split; [done|]. apply Hfin; [lia|]. by apply (core_next_on_trunk _ _ _ real_par real_pos).
    + rewrite (proj2 (Nat.eqb_neq b 0)) by lia. cbn [negb].
      destruct (core_next_on_branch _ _ _ real_par real_pos d _ _ a b c Hc Hd Hr Ev E Hb) as [Hpp Hc2]. rewrite (proj2 (Nat.eqb_neq _ 0) Hpp). cbn [negb].
      eexists _, _. split; [done|]. apply Hfin; [lia|done].
  - destruct (core_new_branch _ _ _ real_par real_pos d _ _ Hc Hd Hr Ev) as (t & a & Et & Hrt & Htd & Ea & Hc2).
    unfold r2 in Et. destruct (R_of s (PARENT s0 (S d))) as [[[x a1] b] c]. cbn [fst snd] in Et. rewrite <- Et, Ea. cbn [fst snd].
    eexists _, _. split; [done|]. by apply Hfin.
Qed.

Lemma meta_parent_total fuel : ∀ p, p <= fuel → p <= TABLE s0 → ∃ q, meta_parent fuel s0 p = Some q ∧ q <= p.
Proof.
  induction fuel as [|fuel IH]; intros p Hf Hp; cbn [meta_parent].
  - replace p with 0 by lia. by exists 0.
  - destruct (META s0 p) eqn:Em; [|by exists p]. destruct (decide (p <= 1)) as [H1|H1].
    + assert (Hp' : p = 0 ∨ p = 1) by lia. destruct (rg_root _ Hg) as (_ & (_ & _ & Hr) & _). destruct Hp' as [-> | ->]; [done|congruence].
    + pose proof (rg_parent _ Hg p ltac:(lia)). destruct (IH (PARENT s0 p)) as (q & Hq & Hle); [lia|lia|]. exists q. split; [done|lia].
Qed.

Lemma meta_step d s nb : run d s nb → 1 <= d → S d <= TABLE s0 → META s0 (S d) = true →
  ∃ r, redo_rev true s (S d) nb = Some (inl (r, nb)) ∧ run (S d) (set_delta s (S d) (set_r r)) nb.
Proof.
  intros H Hd HS Hm. pose proof (rn_graph _ _ _ H) as Hsg. pose proof (rg_parent _ Hg (S d) ltac:(lia)) as Hp.
  destruct (meta_parent_total (S d) (PARENT s0 (S d)) ltac:(lia) ltac:(lia)) as (q & Hq & Hle).
  exists (R_of s q). split.
  - unfold redo_rev. rewrite (proj1 (sg_flags s0 s (S d) Hsg)), (proj1 (sg_fields s0 s (S d) Hsg)), Hm.
    rewrite (proj2 (Nat.eqb_neq _ 0)) by lia. rewrite (meta_parent_same s0 s Hsg), Hq. done.
  - apply (run_set d s nb); [done|done|done| |].
    + apply core_skip; [exact real_par|exact real_pos|apply H| |done]. intros (_ & _ & Hf). congruence.
    + intros _ _. exists q. split_and!; [done|lia|done].
Qed.

Lemma gone_step d s nb : run d s nb → 1 <= d → GONE s0 (S d) = true → run (S d) s nb.
Proof.
  intros H Hd Hgo. split.
  - apply H.
  - intros j Hj. apply (rn_rest _ _ _ H). lia.
  - apply H.
  - apply (num_core_ext _ _ _ _ (at_fun (R_of s) (S d) (R_of s (S d))) _ (nb_at nb)); [|done|].
    + intros x. unfold at_fun. by destruct (Nat.eqb_spec x (S d)) as [->|].
    + apply core_skip; [exact real_par|exact real_pos|apply H| |done]. intros (_ & Hf & _). congruence.
  - intros x Hx Hgx Hm. destruct (decide (x = S d)) as [->|Hne]; [congruence|]. apply (rn_tags _ _ _ H); [lia|done|done].
Qed.

(** One round of the loop. *)
Lemma ren_step_ok d s nb mx : run d s nb → 1 <= d → S d <= TABLE s0 →
  ∃ s' nb' mx', ren_step true 0 true (S d) (mkRen s nb mx None) = Some (inl (mkRen s' nb' mx' None)) ∧ run (S d) s' nb' ∧
    (s' = s ∧ nb' = nb ∧ GONE s0 (S d) = true ∨
     ∃ r, redo_rev true s (S d) nb = Some (inl (r, nb')) ∧ s' = set_delta s (S d) (set_r r) ∧ GONE s0 (S d) = false).
Proof.
  intros H Hd HS. pose proof (rn_graph _ _ _ H) as Hsg. unfold ren_step. cbn [rn_s rn_nb rn_max rn_def].
  destruct (sg_flags s0 s (S d) Hsg) as (_ & -> & _). destruct (GONE s0 (S d)) eqn:Ego.
  { exists s, nb, mx. split_and!; [done|by apply gone_step|by left]. }
  assert (Hstep : ∃ r nb', redo_rev true s (S d) nb = Some (inl (r, nb')) ∧ run (S d) (set_delta s (S d) (set_r r)) nb').
  { destruct (META s0 (S d)) eqn:Em.
    - destruct (meta_step d s nb H Hd HS Em) as (r & E & Hr). by exists r, nb.
    - apply real_step; [done|done|]. split_and!; [lia|lia|done|done]. }
  destruct Hstep as (r & nb' & E & Hr). unfold redo. rewrite E. cbn [Nat.eqb orb].
  eexists _, _, _. split; [done|]. split; [done|]. right. by exists r.
Qed.

(** The numbers depend on the graph and the older numbers only. *)
Lemma redo_rev_again d s nb s' : run d s nb → 1 <= d → S d <= TABLE s0 → GONE s0 (S d) = false → same_graph s0 s' →
  (∀ j, j <= d → R_of s' j = R_of s j) → (∀ x, real s0 x → R0 s' x = 1) → redo_rev true s' (S d) nb = redo_rev true s (S d) nb.
Proof.
  intros H Hd HS Hgo Hsg' Hold H0. pose proof (rn_graph _ _ _ H) as Hsg. pose proof (rg_parent _ Hg (S d) ltac:(lia)) as Hp.
  destruct (META s0 (S d)) eqn:Em.
  - destruct (meta_parent_total (S d) (PARENT s0 (S d)) ltac:(lia) ltac:(lia)) as (q & Hq & Hle). unfold redo_rev.
    rewrite (proj1 (sg_flags s0 s (S d) Hsg)), (proj1 (sg_fields s0 s (S d) Hsg)), (proj1 (sg_flags s0 s' (S d) Hsg')), (proj1 (sg_fields s0 s' (S d) Hsg')), Em.
    rewrite (proj2 (Nat.eqb_neq _ 0)) by lia. rewrite (meta_parent_same s0 s Hsg), (meta_parent_same s0 s' Hsg'), Hq. by rewrite Hold by lia.
  - assert (Hr : real s0 (S d)) by (split_and!; [lia|lia|done|done]). destruct (real_par (S d) Hr ltac:(lia)) as [Hrp _].
    rewrite !redo_rev_real; [|done|lia|done|by eapply run_R0|by eapply run_R0|done|lia|done|by apply H0|by apply H0].
    unfold real_rev. rewrite Hold by lia. destruct (R_of s (PARENT s0 (S d))) as [[[x a] b] c] eqn:E.
    destruct (Nat.eqb_spec (nb_at nb (PARENT s0 (S d))) 0) as [Ev|Ev]; cbn [negb].
    + destruct (Nat.eqb_spec b 0) as [|Hb]; cbn [negb]; [done|]. rewrite Hold; [done|].
      destruct (decide (2 <= PARENT s0 (S d))) as [H2|H2]; [pose proof (rg_parent _ Hg (PARENT s0 (S d)) ltac:(lia)); lia|].
      replace (PARENT s0 (S d)) with 1 by lia. rewrite (proj1 (rg_root _ Hg)). lia.
    + rewrite Hold; [done|]. destruct (Nat.eqb_spec b 0) as [|Hb]; [lia|].
      destruct (c_kind _ _ _ _ _ _ (rn_core _ _ _ H) (PARENT s0 (S d)) Hrp ltac:(lia)) as [(y & E1)|(y & z & w & E1 & Hz & _)]; rewrite E in E1; simplify_eq.
      destruct (c_trunk _ _ _ _ _ _ (rn_core _ _ _ H) _ _ _ _ Hrp ltac:(lia) E Hz) as (t & _ & Ht & _ & _ & [Hv|Hv]); [done|lia].
Qed.

Lemma loop_run n : ∀ d s nb mx, d + n = TABLE s0 → 1 <= d → run d s nb →
  ∃ s' nb' mx', ren_loop true 0 true n (S d) (mkRen s nb mx None) = Some (inl (mkRen s' nb' mx' None)) ∧ run (TABLE s0) s' nb' ∧
    (∀ j, j <= d → R_of s' j = R_of s j) ∧
    ∀ mx2, ∃ mx2', ren_loop true 0 true n (S d) (mkRen s' nb mx2 None) = Some (inl (mkRen s' nb' mx2' None)).
Proof.
  induction n as [|n IH]; intros d s nb mx Hn Hd H; cbn [ren_loop].
  - exists s, nb, mx. rewrite <- Hn, Nat.add_0_r. split_and!; [done..|]. intros mx2. by exists mx2.
  - destruct (ren_step_ok d s nb mx H Hd ltac:(lia)) as (s1 & nb1 & mx1 & E1 & H1 & Hcase).
    destruct (IH (S d) s1 nb1 mx1 ltac:(lia) ltac:(lia) H1) as (s' & nb' & mx' & E2 & H2 & Hkeep & Hidem). rewrite E1. exists s', nb', mx'.
    assert (Hold : ∀ j, j <= d → R_of s' j = R_of s j).
    { intros j Hj. rewrite Hkeep by lia. destruct Hcase as [[-> _]|(r & _ & -> & _)]; [done|]. unfold R_of. by rewrite dl_set_ne by lia. }
    split_and!; [done..|]. intros mx2.
    assert (Hs2 : ∃ mx3, ren_step true 0 true (S d) (mkRen s' nb mx2 None) = Some (inl (mkRen s' nb1 mx3 None))); [|destruct Hs2 as [mx3 ->]; apply Hidem].
    pose proof (rn_graph _ _ _ H2) as Hsg'. unfold ren_step. cbn [rn_s rn_nb rn_max rn_def]. destruct (sg_flags s0 s' (S d) Hsg') as (_ & -> & _).
    destruct Hcase as [(_ & -> & ->)|(r & Er & Es & Ego)]; [by exists mx2|]. rewrite Ego. unfold redo.
    rewrite (redo_rev_again d s nb s'); [|done|done|lia|done|done|done|intros x Hx; by apply (run_R0 _ _ _ _ H2)]. rewrite Er. cbn [Nat.eqb orb].
    assert (Hr : r = R_of s' (S d)).
    { rewrite Hkeep by lia. rewrite Es, R_of_set, at_fun_eq; [done|]. destruct (sg_size _ _ (rn_graph _ _ _ H)), (rg_size _ Hg). lia. }
    rewrite Hr, set_r_id. eauto.
Qed.

Lemma run_start : a0 <= 1 → run 1 s0 (replicate (S (TABLE s0)) 0).
Proof.
  intros Ha. split.
  - apply sg_refl.
  - done.
  - apply length_replicate.
  - apply (num_core_ext _ _ _ _ (R_of s0) _ (λ _, 0)); [done| |by apply core_start; [exact real_pos|..]].
    intros x. unfold nb_at. rewrite nth_lookup. destruct (replicate _ 0 !! x) as [v|] eqn:E; [|done]. by apply lookup_replicate in E as [-> _].
  - intros x Hx. lia.
Qed.

Lemma renumber_run env : bitkeeper env = true → s_defbranch env = None → a0 <= 1 →
  ∃ s' nb, sccs_renumber s0 env = Some (inl (s', env)) ∧ run (TABLE s0) s' nb ∧ sccs_renumber s' env = Some (inl (s', env)).
Proof.
  intros Hbk Hdef Ha. destruct (rg_size _ Hg) as (Hsz & H1 & _). destruct (rg_root _ Hg) as (Hp0 & (_ & Hgo & _) & _).
  assert (Ee : set_defbranch env None = env) by (destruct env; cbn in *; by subst).
  destruct (TABLE s0) as [|n] eqn:En; [lia|].
  destruct (loop_run n 1 s0 (replicate (S (TABLE s0)) 0) (if 0 <? R0 s0 1 then R0 s0 1 else 0) ltac:(lia) ltac:(lia) (run_start Ha))
    as (s' & nb' & mx' & Hl & Hrun & Hold & Hidem).
  pose proof (rn_graph _ _ _ Hrun) as Hsg. exists s', nb'.
  assert (Hfirst : ∀ s mx, same_graph s0 s →
    ren_step true 0 true 1 (mkRen s (replicate (S (TABLE s0)) 0) mx None) =
    Some (inl (mkRen s (replicate (S (TABLE s0)) 0) (if mx <? R0 s 1 then R0 s 1 else mx) None))).
  { intros s mx Hs. unfold ren_step, redo, redo_rev. cbn [rn_s rn_nb rn_max rn_def]. destruct (sg_flags s0 s 1 Hs) as (_ & -> & _).
    rewrite Hgo, (proj1 (sg_fields s0 s 1 Hs)), Hp0. cbn [Nat.eqb]. rewrite set_r_id. done. }
  destruct (Hidem (if 0 <? R0 s' 1 then R0 s' 1 else 0)) as [mx2 Hl2].
  split_and!.
  - unfold sccs_renumber. rewrite Hbk, Hdef. cbn [has negb]. rewrite En at 1. cbn [ren_loop]. unfold TREE. rewrite Hfirst by apply sg_refl.
    rewrite Hl. cbn [rn_def rn_s]. by rewrite Ee.
  - by rewrite <- En.
  - unfold sccs_renumber. rewrite Hbk, Hdef. cbn [has negb]. destruct (sg_size _ _ Hsg) as [-> _]. rewrite En at 1. cbn [ren_loop]. unfold TREE.
    rewrite Hfirst by done. rewrite Hl2. cbn [rn_def rn_s]. by rewrite Ee.
Qed.

End Run.

(** ** The check and the lookup *)

Lemma follows_parent_ok s d p : follows (R_of s d) (R_of s p) → badparent s d p = false.
Proof.
  unfold badparent, R0, R1, R2, R3. intros [(a & Ep & Ed)|[(a & b & Ep & Hb & Ed)|[(a & b & c & Ep & Hb & Hc & Ed)|(a & b & b' & c & Ep & Hb & Hc & Hb' & Ed)]]];
    rewrite Ep, Ed; cbn [fst snd].
  - cbn. by rewrite Nat.eqb_refl.
  - rewrite (proj2 (Nat.eqb_neq b 0)), !Nat.eqb_refl by lia. done.
  - rewrite (proj2 (Nat.eqb_neq b 0)), !Nat.eqb_refl by lia. cbn. by rewrite ?Nat.eqb_refl, ?andb_false_r.
  - rewrite (proj2 (Nat.eqb_neq b' 0)), (proj2 (Nat.eqb_neq b 0)), !Nat.eqb_refl by lia. done.
Qed.

Lemma checkRev_ok s0 a0 s nb hr d : ren_graph s0 → R_of s0 1 = (1, a0, 0, 0) → a0 <= 1 → run s0 a0 (TABLE s0) s nb → 1 <= d <= TABLE s0 →
  checkRev true hr s d = (s, false).
Proof.
  intros Hg Ha Ha1 H Hd. pose proof (rn_graph _ _ _ _ _ H) as Hsg. pose proof (rn_core _ _ _ _ _ H) as Hc. unfold checkRev.
  destruct (sg_flags s0 s d Hsg) as (Em & Ego & -> & Ein). rewrite Ego. destruct (sg_fields s0 s d Hsg) as (-> & _ & _ & ->).
  destruct (TAG s0 d || GONE s0 d) eqn:Et; [done|]. apply orb_false_iff in Et as [Et Eg].
  assert (Hr : real s0 d). { split_and!; [lia|lia|done|]. destruct (META s0 d) eqn:E; [|done]. rewrite (rg_meta _ Hg d Hd E) in Et. done. }
  assert (E2 : existsb (λ '(i, _), negb (i <? Z.of_nat d)%Z) (nums (CLUDES s0 d)) = false).
  { apply not_true_iff_false. intros E. apply existsb_exists in E as ([i sg] & Hin & Hi). pose proof (rg_cludes _ Hg d Hr) as Hf. rewrite Forall_forall in Hf.
    specialize (Hf (i, sg) (proj2 (list_elem_of_In _ _) Hin)). cbn in Hf. rewrite (proj2 (Z.ltb_lt _ _) Hf) in Hi. done. }
  rewrite E2, orb_false_r. assert (E1 : (R0 s d =? 0) || true && negb (R0 s d =? 1) || (R2 s d =? 0) && (R1 s d =? 0) && negb (R0 s d =? 1) ||
    negb (R2 s d =? 0) && (R3 s d =? 0) && negb (hr d) = false).
  { unfold R0, R1, R2, R3. destruct (c_kind _ _ _ _ _ _ Hc d Hr ltac:(lia)) as [(a & ->)|(a & b & c & -> & Hb & Hc1)]; cbn.
    - by rewrite andb_false_r.
    - rewrite (proj2 (Nat.eqb_neq b 0)), (proj2 (Nat.eqb_neq c 0)) by lia. done. }
  rewrite E1. cbn [orb]. destruct (decide (d = 1)) as [->|Hd1].
  - rewrite (proj1 (rg_root _ Hg)). cbn [Nat.eqb andb]. destruct (rg_flags _ Hg 1 Hr) as (_ & Hin & _). rewrite delta_rev_text by congruence.
    rewrite (c_root _ _ _ _ _ _ Hc). assert (Ha' : a0 = 0 ∨ a0 = 1) by lia. by destruct Ha' as [-> | ->].
  - pose proof (rg_parent _ Hg d ltac:(lia)). rewrite (proj2 (Nat.eqb_neq _ 0)) by lia.
    by rewrite follows_parent_ok by (apply (c_good _ _ _ _ _ _ Hc); [done|lia]).
Qed.

Lemma checkrevs_ok s hr : (∀ d, 1 <= d <= TABLE s → checkRev true hr s d = (s, false)) → checkrevs true hr s = (s, false).
Proof.
  intros H. unfold checkrevs. assert (Hle : TABLE s <= TABLE s) by lia. revert Hle. generalize (TABLE s) at 1 3. intros n. induction n as [|n IH]; intros Hn; [done|].
  cbn [checkrevs_loop]. rewrite H by lia. apply IH. lia.
Qed.

(** Numbers stay small enough to be printed and read. *)
Lemma real_rev_wf s0 a0 s nb d : ren_graph s0 → run s0 a0 (TABLE s0) s nb → real s0 d → wf_rev (R_of s d).
Proof.
  intros Hg H Hr. pose proof (rn_core _ _ _ _ _ H) as Hc. destruct (rg_size _ Hg) as (_ & _ & Hsm). unfold small in Hsm.
  assert (Hd : 1 <= d <= TABLE s0) by (destruct Hr; lia).
  destruct (c_kind _ _ _ _ _ _ Hc d Hr ltac:(lia)) as [(a & E)|(a & b & c & E & Hb & _)];
    destruct (c_bound _ _ _ _ _ _ Hc d _ _ _ Hr ltac:(lia) E) as (B1 & B2 & B3 & _); rewrite E.
  - split; [|done]. cbn. rewrite !Forall_cons. unfold small. split_and!; [lia..|by apply Forall_nil].
  - split; [|cbn; lia]. cbn. rewrite (proj2 (Nat.eqb_neq b 0)) by lia. rewrite !Forall_cons. unfold small. split_and!; [lia..|by apply Forall_nil].
Qed.

Lemma findrev_real s0 a0 s nb env d : ren_graph s0 → R_of s0 1 = (1, a0, 0, 0) → run s0 a0 (TABLE s0) s nb → (∀ j, GONE s0 j = false) → real s0 d →
  findrev s env (Some (delta_rev s d)) = Some d.
Proof.
  intros Hg Ha H Hgone Hr. pose proof (rn_graph _ _ _ _ _ H) as Hsg. pose proof (rn_core _ _ _ _ _ H) as Hc. destruct (sg_size _ _ Hsg) as [HT _].
  destruct (sg_flags s0 s d Hsg) as (_ & _ & Et & Ei). destruct (rg_flags _ Hg d Hr) as (Ht & Hi & _). assert (Hd : 1 <= d <= TABLE s0) by (destruct Hr; lia).
  destruct (rg_root _ Hg) as (_ & Hr1 & _).
  destruct (findrev_delta_rev s env d) as (g & -> & Hgd); [lia|congruence|congruence|by eapply real_rev_wf|]. f_equal. case_decide as E.
  - subst g. apply (c_uniq _ _ _ _ _ _ Hc); [done|done|apply Hr1|lia|]. unfold TREE. rewrite E, (c_root _ _ _ _ _ _ Hc).
    pose proof (c_low _ _ _ _ _ _ Hc d 0 Hr ltac:(lia) E). by replace a0 with 0 by lia.
  - destruct Hgd as [Hdg [_ Hin]]. destruct (Hin ltac:(lia)) as (Hg1 & Htg & HRg). rewrite HT in Hg1.
    apply (c_uniq _ _ _ _ _ _ Hc); [|done|lia|lia|done]. split_and!; [lia|lia|apply Hgone|].
    destruct (META s0 g) eqn:Em; [|done]. rewrite (proj1 (proj2 (proj2 (sg_flags s0 s g Hsg)))), (rg_meta _ Hg g Hg1 Em) in Htg. done.
Qed.

(** C9. Renumbering the well-formed graph of a BitKeeper file without a default
    branch succeeds and changes revisions only.
    File deltas get pairwise different revisions, each the successor of its
    parent's on the trunk or on a branch or the start of a new branch; a tag
    delta gets that of the delta it is on.  The check of the revisions then finds
    no error, the printed revision of every delta is found again as that
    delta (if no delta is marked as gone), and renumbering a second time changes nothing. *)
Theorem renumber_correct (s : sccs) (env : revenv) :
  ren_graph s → bitkeeper env = true → s_defbranch env = None →
  ∃ s', sccs_renumber s env = Some (inl (s', env)) ∧ same_graph s s' ∧
    (∀ x y, real s x → real s y → R_of s' x = R_of s' y → x = y) ∧
    (∀ x, 2 <= x → real s x → follows (R_of s' x) (R_of s' (PARENT s x))) ∧
    (∀ x, 2 <= x <= TABLE s → GONE s x = false → META s x = true →
       ∃ p, meta_parent x s (PARENT s x) = Some p ∧ R_of s' x = R_of s' p) ∧
    (∀ has_random, checkrevs true has_random s' = (s', false)) ∧
    ((∀ j, GONE s j = false) → ∀ d, real s d → findrev s' env (Some (delta_rev s' d)) = Some d) ∧
    sccs_renumber s' env = Some (inl (s', env)).
Proof.
  intros Hg Hbk Hdef.
  assert (Ha : ∃ a0, R_of s 1 = (1, a0, 0, 0) ∧ a0 <= 1) by (destruct (rg_root _ Hg) as (_ & _ & [-> | ->]); eauto).
  destruct Ha as (a0 & Ha & Ha1). destruct (renumber_run s Hg a0 Ha env Hbk Hdef Ha1) as (s' & nb & Hren & Hrun & Hagain).
  pose proof (rn_core _ _ _ _ _ Hrun) as Hc. pose proof (rn_graph _ _ _ _ _ Hrun) as Hsg. exists s'. split_and!; [done|done|..].
  - intros x y Hx Hy. apply (c_uniq _ _ _ _ _ _ Hc); [done|done|apply Hx|apply Hy].
  - intros x H2 Hx. apply (c_good _ _ _ _ _ _ Hc); [done|destruct Hx; lia].
  - intros x Hx Hgo Hm. destruct (rn_tags _ _ _ _ _ Hrun x Hx Hgo Hm) as (p & Hp & _ & E). eauto.
  - intros hr. apply checkrevs_ok. intros d Hd. destruct (sg_size _ _ Hsg) as [E _]. rewrite E in Hd. by eapply checkRev_ok.
  - intros Hgone d Hd. by eapply findrev_real.
  - done.
Qed.

(** Two branches that meet again, and a tag on the merge. *)
Definition ex_ren : sccs :=
  let m p mg f r := mkDelta p mg 0 0 0 f [] r in
  mkSccs [m 0 0 D_INARRAY (1, 0, 0, 0); m 1 0 D_INARRAY (1, 9, 0, 0); m 2 0 D_INARRAY (1, 7, 3, 1); m 2 0 D_INARRAY (1, 7, 3, 1);
          m 4 0 D_INARRAY (1, 1, 0, 0); m 3 5 D_INARRAY (1, 1, 0, 0); m 6 0 (Z.lor D_INARRAY (Z.lor D_TAG D_META)) (0, 0, 0, 0)] 7 0 0 0 0 false.

Lemma ex_ren_real d : real ex_ren d ↔ 1 <= d <= 6.
Proof.
  unfold real. change (TABLE ex_ren) with 7. split.
  - intros (Hd & _ & Hm). destruct (decide (d = 7)) as [->|]; [done|lia].
  - intros Hd. do 7 (destruct d as [|d]; [try lia; split_and!; (lia || done)|]). lia.
Qed.

Lemma ex_ren_graph : ren_graph ex_ren.
Proof.
  split; unfold small; repeat setoid_rewrite ex_ren_real; change (TABLE ex_ren) with 7.
  - split_and!; [done|lia|lia].
  - split_and!; [done|lia|lia|by left].
  - intros d Hd. do 8 (destruct d as [|d]; [cbn; lia|]). lia.
  - intros d H2 Hd. do 7 (destruct d as [|d]; [cbn; lia|]). lia.
  - intros d Hd. do 8 (destruct d as [|d]; [by vm_compute|]). lia.
  - intros d Hd. do 7 (destruct d as [|d]; [done || lia|]). lia.
  - intros d Hd. do 7 (destruct d as [|d]; [by vm_compute|]). lia.
  - intros d Hd. do 7 (destruct d as [|d]; [apply Forall_nil; done|]). lia.
Qed.

Definition ex_ren_env : revenv := mkRevenv [] None true.

Lemma renumber_correct_witness :
  ∃ s', sccs_renumber ex_ren ex_ren_env = Some (inl (s', ex_ren_env)) ∧ same_graph ex_ren s' ∧
    (∀ x y, real ex_ren x → real ex_ren y → R_of s' x = R_of s' y → x = y) ∧
    (∀ x, 2 <= x → real ex_ren x → follows (R_of s' x) (R_of s' (PARENT ex_ren x))) ∧
    (∀ x, 2 <= x <= TABLE ex_ren → GONE ex_ren x = false → META ex_ren x = true →
       ∃ p, meta_parent x ex_ren (PARENT ex_ren x) = Some p ∧ R_of s' x = R_of s' p) ∧
    (∀ has_random, checkrevs true has_random s' = (s', false)) ∧
    ((∀ j, GONE ex_ren j = false) → ∀ d, real ex_ren d → findrev s' ex_ren_env (Some (delta_rev s' d)) = Some d) ∧
    sccs_renumber s' ex_ren_env = Some (inl (s', ex_ren_env)).
Proof. apply (renumber_correct ex_ren ex_ren_env); [exact ex_ren_graph|reflexivity|reflexivity]. Defined.

(** The revisions of the example. *)
Example ex_ren_revs :
  match sccs_renumber ex_ren ex_ren_env with
  | Some (inl (s, _)) => map (R_of s) [1; 2; 3; 4; 5; 6; 7]
  | _ => []
  end = [(1, 0, 0, 0); (1, 1, 0, 0); (1, 2, 0, 0); (1, 1, 1, 1); (1, 1, 1, 2); (1, 3, 0, 0); (1, 3, 0, 0)].
Proof. reflexivity. Qed.
