(* ===== verification/Diff.v ===== *)
(** * Diff: the difference engine

    src/src/libdiff.c: [diff_items] and everything under it.  Items are hashed to
    codes that are equal exactly when the items are ([hashThings]), items that
    occur on one side only are marked as changed ([compressHashes]), the rest is
    split recursively ([idiff]) at points of the middle snake of Myers'
    algorithm ([dsplit1]), the marks are moved to close gaps and to better
    boundaries ([shrink_gaps], [align_blocks]) and turned into hunks ([ses]).

    All C arrays are checked: [None] is a read or write outside an array or of a
    cell never written, a failed assert, or fuel that ran out; DiffSnake.v and
    DiffCorrect.v show that none of these happens. *)

From S2P Require Import Prelude HashIface.
From stdpp Require Import base numbers list gmap.
From Stdlib Require Import ZArith Lia.

Local Open Scope Z_scope.

Local Open Scope bk_scope.

(** ** Data *)

Inductive side := DF_LEFT | DF_RIGHT.

#[global] Instance side_eq_dec : EqDecision side.
Proof. solve_decision. Defined.

(** [start[2]] and [len[2]]. *)
Record hunk := mkHunk {
  start_l : Z; start_r : Z;
  len_l : Z; len_r : Z
}.

Definition DSTART (h : hunk) (s : side) : Z := match s with DF_LEFT => start_l h | DF_RIGHT => start_r h end.

Definition DLEN (h : hunk) (s : side) : Z := match s with DF_LEFT => len_l h | DF_RIGHT => len_r h end.

Definition DEND (h : hunk) (s : side) : Z := DSTART h s + DLEN h s.

Definition DLAST (h : hunk) (s : side) : Z := DEND h s - 1.

Record thing := mkThing { t_idx : Z; t_side : side; t_both : bool }.

(** Positions of a line in a block, for the cost function. *)
Inductive dpos := DF_START | DF_END | DF_MIDDLE.

(** ** Arrays *)

(** Arrays of lines.h: base 1. *)
Definition get1 {A} (l : list A) (i : Z) : option A :=
  if 1 <=? i then l !! Z.to_nat (i - 1) else None.

(** A plain array, base 0. *)
Definition get0 {A} (l : list A) (i : Z) : option A :=
  if 0 <=? i then l !! Z.to_nat i else None.

Definition set0 {A} (l : list A) (i : Z) (v : A) : option (list A) :=
  if (0 <=? i) && (i <? Z.of_nat (length l)) then Some (<[Z.to_nat i := v]> l) else None.

(** [vf] and [vr]: [2 * (n + 1)] cells around index 0, unset until written. *)
Definition vget (n : Z) (v : gmap Z Z) (k : Z) : option Z :=
  if (- (n + 1) <=? k) && (k <=? n) then v !! k else None.

Definition vset (n : Z) (v : gmap Z Z) (k x : Z) : option (gmap Z Z) :=
  if (- (n + 1) <=? k) && (k <=? n) then Some (<[k := x]> v) else None.

(** ** The middle snake *)

Section Snake.

(** [dc->red[DF_LEFT]], [dc->red[DF_RIGHT]], the size of [vf] and [vr], and the
    effort limits. *)
Context (A B : list Z) (vn : Z) (minimal : bool) (max_steps : Z).

(** [while ((x < x2) && (y < y2) && (A[x+1] == B[y+1])) x++, y++;] *)
Fixpoint slide_fwd (fuel : nat) (x y x2 y2 : Z) : option (Z * Z) :=
  match fuel with
  | O => None
  | S fuel =>
      if (x <? x2) && (y <? y2) then
        let? a := get1 A (x + 1) in
        let? b := get1 B (y + 1) in
        if a =? b then slide_fwd fuel (x + 1) (y + 1) x2 y2 else Some (x, y)
      else Some (x, y)
  end.

(** [while ((x > x1) && (y > y1) && (A[x] == B[y])) x--, y--;] *)
Fixpoint slide_rev (fuel : nat) (x y x1 y1 : Z) : option (Z * Z) :=
  match fuel with
  | O => None
  | S fuel =>
      if (x1 <? x) && (y1 <? y) then
        let? a := get1 A x in
        let? b := get1 B y in
        if a =? b then slide_rev fuel (x - 1) (y - 1) x1 y1 else Some (x, y)
      else Some (x, y)
  end.

(** The forward loop of one round: a middle snake if it met one, and the array. *)
Fixpoint fwd_for (fuel : nat) (x1 x2 y2 : Z) (odd : bool) (krmin krmax : Z) (vr : gmap Z Z)
    (k kfmax : Z) (vf : gmap Z Z) : option (option (Z * Z) * gmap Z Z) :=
  match fuel with
  | O => None
  | S fuel =>
      if k <=? kfmax then
        let? l := vget vn vf (k - 1) in
        let? r := vget vn vf (k + 1) in
        let x := if l <? r then r else l + 1 in
        let? (x, y) := slide_fwd (S (Z.to_nat (x2 - x))) x (x - k) x2 y2 in
        let? vf := vset vn vf k x in
        if odd && (krmin <=? k) && (k <=? krmax) then
          let? v := vget vn vr k in
          if v <=? x then Some (Some (x, y), vf)
          else fwd_for fuel x1 x2 y2 odd krmin krmax vr (k + 2) kfmax vf
        else fwd_for fuel x1 x2 y2 odd krmin krmax vr (k + 2) kfmax vf
      else Some (None, vf)
  end.

Fixpoint rev_for (fuel : nat) (x1 x2 y1 : Z) (odd : bool) (kfmin kfmax : Z) (vf : gmap Z Z)
    (k krmin : Z) (vr : gmap Z Z) : option (option (Z * Z) * gmap Z Z) :=
  match fuel with
  | O => None
  | S fuel =>
      if krmin <=? k then
        let? l := vget vn vr (k - 1) in
        let? r := vget vn vr (k + 1) in
        let x := if l <? r then l else r - 1 in
        let? (x, y) := slide_rev (S (Z.to_nat (x - x1))) x (x - k) x1 y1 in
        let? vr := vset vn vr k x in
        if negb odd && (kfmin <=? k) && (k <=? kfmax) then
          let? v := vget vn vf k in
          if x <=? v then Some (Some (x, y), vr)
          else rev_for fuel x1 x2 y1 odd kfmin kfmax vf (k - 2) krmin vr
        else rev_for fuel x1 x2 y1 odd kfmin kfmax vf (k - 2) krmin vr
      else Some (None, vr)
  end.

(** The point that got furthest forward: [bestf] and [maxfx]. *)
Fixpoint best_fwd (fuel : nat) (x2 y2 : Z) (vf : gmap Z Z) (k kfmax bestf maxfx : Z) : option (Z * Z) :=
  match fuel with
  | O => None
  | S fuel =>
      if k <=? kfmax then
        let? v := vget vn vf k in
        let x := Z.min v x2 in
        let y := x - k in
        let '(x, y) := if y2 <? y then (y2 + k, y2) else (x, y) in
        if bestf <? x + y then best_fwd fuel x2 y2 vf (k + 2) kfmax (x + y) x
        else best_fwd fuel x2 y2 vf (k + 2) kfmax bestf maxfx
      else Some (bestf, maxfx)
  end.

Fixpoint best_rev (fuel : nat) (x1 y1 : Z) (vr : gmap Z Z) (k krmin bestb maxbx : Z) : option (Z * Z) :=
  match fuel with
  | O => None
  | S fuel =>
      if krmin <=? k then
        let? v := vget vn vr k in
        let x := Z.max x1 v in
        let y := x - k in
        let '(x, y) := if y <? y1 then (y1 + k, y1) else (x, y) in
        if x + y <? bestb then best_rev fuel x1 y1 vr (k - 2) krmin (x + y) x
        else best_rev fuel x1 y1 vr (k - 2) krmin bestb maxbx
      else Some (bestb, maxbx)
  end.

(** [if (kmin < lo) ... else ...]: a bound of the diagonals and, when it moved
    out, the cell set beyond it. *)
Definition lower (lo kmin mark : Z) (v : gmap Z Z) : option (Z * gmap Z Z) :=
  if kmin <? lo then let? v := vset vn v (lo - 1 - 1) mark in Some (lo - 1, v) else Some (lo + 1, v).

Definition raise (hi kmax mark : Z) (v : gmap Z Z) : option (Z * gmap Z Z) :=
  if hi <? kmax then let? v := vset vn v (hi + 1 + 1) mark in Some (hi + 1, v) else Some (hi - 1, v).

(** The iterations of a loop over diagonals [lo], [lo + 2], ... [hi]. *)
Definition diag_fuel (lo hi : Z) : nat := S (Z.to_nat (hi - lo + 2)).

(** The loop of [dsplit1]: the point, and the arrays it leaves. *)
Fixpoint dsplit1_loop (fuel : nat) (x1 x2 y1 y2 d kfmin kfmax krmin krmax : Z) (vf vr : gmap Z Z) :
    option (Z * Z * gmap Z Z * gmap Z Z) :=
  match fuel with
  | O => None
  | S fuel =>
      let kmin := x1 - y2 in
      let kmax := x2 - y1 in
      let odd := negb (Z.land (x2 - y2 - (x1 - y1)) 1 =? 0) in
      let? (kfmin, vf) := lower kfmin kmin (x1 - 1) vf in
      let? (kfmax, vf) := raise kfmax kmax (x1 - 1) vf in
      let? (res, vf) := fwd_for (diag_fuel kfmin kfmax) x1 x2 y2 odd krmin krmax vr kfmin kfmax vf in
      match res with
      | Some (x, y) => Some (x, y, vf, vr)
      | None =>
          let? (krmin, vr) := lower krmin kmin (x2 + 1) vr in
          let? (krmax, vr) := raise krmax kmax (x2 + 1) vr in
          let? (res, vr) := rev_for (diag_fuel krmin krmax) x1 x2 y1 odd kfmin kfmax vf krmax krmin vr in
          match res with
          | Some (x, y) => Some (x, y, vf, vr)
          | None =>
              if negb minimal && (max_steps <? d) then
                let? (bestf, maxfx) := best_fwd (diag_fuel kfmin kfmax) x2 y2 vf kfmin kfmax (-1) (-1) in
                assert! negb (maxfx =? -1);
                let? (bestb, maxbx) := best_rev (diag_fuel krmin krmax) x1 y1 vr krmax krmin INT_MAX INT_MAX in
                assert! negb (maxbx =? INT_MAX);
                if (x2 + y2) - bestb <? bestf - (x1 + y1)
                then Some (maxfx, bestf - maxfx, vf, vr)
                else Some (maxbx, bestb - maxbx, vf, vr)
              else dsplit1_loop fuel x1 x2 y1 y2 (d + 1) kfmin kfmax krmin krmax vf vr
          end
      end
  end.

(** At most [(x2 - x1) + (y2 - y1)] rounds. *)
Definition dsplit1 (x1 x2 y1 y2 : Z) (vf vr : gmap Z Z) : option (Z * Z * gmap Z Z * gmap Z Z) :=
  let kf := x1 - y1 in
  let kr := x2 - y2 in
  let? vf := vset vn vf kf x1 in
  let? vr := vset vn vr kr x2 in
  dsplit1_loop (S (Z.to_nat ((x2 - x1) + (y2 - y1)))) x1 x2 y1 y2 1 kf kf kr kr vf vr.

End Snake.

(** ** Dividing *)

(** The part of [df_ctx] that [idiff] changes. *)
Record dstate := mkDs { chg_l : list Z; chg_r : list Z; ds_vf : gmap Z Z; ds_vr : gmap Z Z }.

(** [while (lo < hi) chg[idx[hi--]] = 1;] *)
Fixpoint mark_loop (fuel : nat) (idx chg : list Z) (lo hi : Z) : option (list Z) :=
  match fuel with
  | O => None
  | S fuel =>
      if lo <? hi then
        let? i := get1 idx hi in
        let? chg := set0 chg i 1 in
        mark_loop fuel idx chg lo (hi - 1)
      else Some chg
  end.

Section Idiff.

Context (A B idx_l idx_r : list Z) (minimal : bool) (max_steps : Z).

(** [while ((x1 < x2) && (y1 < y2) && (A[x1+1] == B[y1+1])) x1++, y1++;] is
    [slide_fwd]; from the other end [slide_rev]. *)
Fixpoint idiff (fuel : nat) (x1 x2 y1 y2 : Z) (s : dstate) : option dstate :=
  match fuel with
  | O => None
  | S fuel =>
      assert! x1 <=? x2;
      assert! y1 <=? y2;
      let? (x1, y1) := slide_fwd A B (S (Z.to_nat (x2 - x1))) x1 y1 x2 y2 in
      let? (x2, y2) := slide_rev A B (S (Z.to_nat (x2 - x1))) x2 y2 x1 y1 in
      if x1 =? x2 then
        let? c := mark_loop (S (Z.to_nat (y2 - y1))) idx_r (chg_r s) y1 y2 in
        Some (mkDs (chg_l s) c (ds_vf s) (ds_vr s))
      else if y1 =? y2 then
        let? c := mark_loop (S (Z.to_nat (x2 - x1))) idx_l (chg_l s) x1 x2 in
        Some (mkDs c (chg_r s) (ds_vf s) (ds_vr s))
      else
        let vn := Z.of_nat (length A) + Z.of_nat (length B) in
        let? (x, y, vf, vr) := dsplit1 A B vn minimal max_steps x1 x2 y1 y2 (ds_vf s) (ds_vr s) in
        assert! (x1 <=? x) && (x <=? x2);
        assert! (y1 <=? y) && (y <=? y2);
        let? s := idiff fuel x1 x y1 y (mkDs (chg_l s) (chg_r s) vf vr) in
        idiff fuel x x2 y y2 s
  end.

End Idiff.

(** ** Moving blocks *)

(** [while ((i <= n) && (chg[i] == v)) i++;] *)
Fixpoint scan (fuel : nat) (chg : list Z) (n v i : Z) : option Z :=
  match fuel with
  | O => None
  | S fuel =>
      if i <=? n then
        let? c := get0 chg i in
        if c =? v then scan fuel chg n v (i + 1) else Some i
      else Some i
  end.

(** [while ((a > 1) && (chg[a] == v)) --a;] *)
Fixpoint scan_down (fuel : nat) (chg : list Z) (v a : Z) : option Z :=
  match fuel with
  | O => None
  | S fuel =>
      if 1 <? a then
        let? c := get0 chg a in
        if c =? v then scan_down fuel chg v (a - 1) else Some a
      else Some a
  end.

(** [while (a < b) chg[a++] = v;] *)
Fixpoint fill (fuel : nat) (chg : list Z) (a b v : Z) : option (list Z) :=
  match fuel with
  | O => None
  | S fuel =>
      if a <? b then let? chg := set0 chg a v in fill fuel chg (a + 1) b v else Some chg
  end.

(** [while (d > c) chg[d--] = v;] *)
Fixpoint fill_down (fuel : nat) (chg : list Z) (d c v : Z) : option (list Z) :=
  match fuel with
  | O => None
  | S fuel =>
      if c <? d then let? chg := set0 chg d v in fill_down fuel chg (d - 1) c v else Some chg
  end.

(** [while ((b1 <= c1) && (h[a1] == h[b1])) a1++, b1++;] *)
Fixpoint match_down (fuel : nat) (h : list Z) (a1 b1 c1 : Z) : option (Z * Z) :=
  match fuel with
  | O => None
  | S fuel =>
      if b1 <=? c1 then
        let? x := get1 h a1 in
        let? y := get1 h b1 in
        if x =? y then match_down fuel h (a1 + 1) (b1 + 1) c1 else Some (a1, b1)
      else Some (a1, b1)
  end.

(** [while ((b1 <= c1) && (h[c1] == h[d1])) c1--, d1--;] *)
Fixpoint match_up (fuel : nat) (h : list Z) (b1 c1 d1 : Z) : option (Z * Z) :=
  match fuel with
  | O => None
  | S fuel =>
      if b1 <=? c1 then
        let? x := get1 h c1 in
        let? y := get1 h d1 in
        if x =? y then match_up fuel h b1 (c1 - 1) (d1 - 1) else Some (c1, d1)
      else Some (c1, d1)
  end.

(** From [again:] to the end of the loop body: the change map, [a] and [b]. *)
Fixpoint sg_again (fuel : nat) (h chg : list Z) (a b c d : Z) : option (list Z * Z * Z) :=
  match fuel with
  | O => None
  | S fuel =>
      let? (a1, b1) := match_down (S (Z.to_nat (c + 1 - b))) h a b c in
      let? (c1, d1) := match_up (S (Z.to_nat (c + 1 - b1))) h b1 c d in
      if c1 <? b1 then
        let? chg := fill (S (Z.to_nat (b - a))) chg a b 0 in
        let? chg := fill (S (Z.to_nat (b1 - a1))) chg a1 b1 1 in
        let? chg := fill_down (S (Z.to_nat (d - c))) chg d c 0 in
        let? chg := fill_down (S (Z.to_nat (d1 - c1))) chg d1 c1 1 in
        let a := a1 - 1 in
        let c := a in
        let? a := scan_down (S (Z.to_nat a)) chg 0 a in
        let? v := get0 chg a in
        if v =? 1 then
          let b := a + 1 in
          let? a := scan_down (S (Z.to_nat a)) chg 1 a in
          let? v := get0 chg a in
          let a := if v =? 0 then a + 1 else a in
          sg_again fuel h chg a b c d1
        else Some (chg, a1, d1 + 1)
      else Some (chg, c + 1, d + 1)
  end.

(** The outer loop. *)
Fixpoint sg_loop (fuel : nat) (h chg : list Z) (n i a b : Z) : option (list Z) :=
  match fuel with
  | O => None
  | S fuel =>
      let? i := scan (S (Z.to_nat (n + 1 - i))) chg n 0 i in
      if n <=? i then Some chg else
      let c := i - 1 in
      let? i := scan (S (Z.to_nat (n + 1 - i))) chg n 1 i in
      let d := i - 1 in
      let? (chg, a, b) := sg_again (S (Z.to_nat n)) h chg a b c d in
      sg_loop fuel h chg n i a b
  end.

Definition shrink_gaps (h chg : list Z) : option (list Z) :=
  let n := Z.of_nat (length h) in
  let? i := scan (S (Z.to_nat n)) chg n 0 1 in
  if n <=? i then Some chg else
  let a := i in
  let? i := scan (S (Z.to_nat (n + 1 - i))) chg n 1 i in
  if n <=? i then Some chg else
  sg_loop (S (Z.to_nat n)) h chg n i a i.

(** ** Better boundaries *)

(** [while ((a-up > 1) && (h[a-1-up] == h[b-1-up]) && (chg[a-1-up] == 0)) ++up;] *)
Fixpoint shift_up (fuel : nat) (h chg : list Z) (a b up : Z) : option Z :=
  match fuel with
  | O => None
  | S fuel =>
      if 1 <? a - up then
        let? x := get1 h (a - 1 - up) in
        let? y := get1 h (b - 1 - up) in
        if x =? y then
          let? c := get0 chg (a - 1 - up) in
          if c =? 0 then shift_up fuel h chg a b (up + 1) else Some up
        else Some up
      else Some up
  end.

(** [while ((b+down <= n) && (h[a+down] == h[b+down]) && (chg[b+down] == 0)) ++down;] *)
Fixpoint shift_down (fuel : nat) (h chg : list Z) (n a b down : Z) : option Z :=
  match fuel with
  | O => None
  | S fuel =>
      if b + down <=? n then
        let? x := get1 h (a + down) in
        let? y := get1 h (b + down) in
        if x =? y then
          let? c := get0 chg (b + down) in
          if c =? 0 then shift_down fuel h chg n a b (down + 1) else Some down
        else Some down
      else Some down
  end.

Section Align.

(** [costIt] of the side. *)
Context (cost : Z → dpos → Z).

Fixpoint cost_start (n : nat) (a1 b1 total : Z) : Z * Z :=
  match n with
  | O => (a1, total)
  | S n =>
      if a1 <? b1 then
        let c := cost a1 DF_START in
        if c =? 0 then (a1, total) else cost_start n (a1 + 1) b1 (total + c)
      else (a1, total)
  end.

Fixpoint cost_end (n : nat) (a1 b1 total : Z) : Z * Z :=
  match n with
  | O => (b1, total)
  | S n =>
      if a1 <? b1 then
        let c := cost (b1 - 1) DF_END in
        if c =? 0 then (b1, total) else cost_end n a1 (b1 - 1) (total + c)
      else (b1, total)
  end.

Fixpoint cost_middle (n : nat) (a1 b1 total : Z) : Z :=
  match n with
  | O => total
  | S n => if a1 <? b1 then cost_middle n (a1 + 1) b1 (total + cost a1 DF_MIDDLE) else total
  end.

(** The cost of the block [a1, b1). *)
Definition block_cost (a1 b1 : Z) : Z :=
  let n := Z.to_nat (b1 - a1) in
  let '(a1, total) := cost_start n a1 b1 0 in
  let '(b1, total) := cost_end n a1 b1 total in
  cost_middle n a1 b1 total.

(** [for (i = -up; i <= down; i++)]: [bestalign]. *)
Fixpoint align_for (n : nat) (a b i best bestalign : Z) : Z :=
  match n with
  | O => bestalign
  | S n =>
      let total := block_cost (a + i) (b + i) in
      if total <=? best then align_for n a b (i + 1) total i else align_for n a b (i + 1) best bestalign
  end.

Fixpoint align_loop (fuel : nat) (h chg : list Z) (n a : Z) : option (list Z) :=
  match fuel with
  | O => None
  | S fuel =>
      let? a := scan (S (Z.to_nat (n + 1 - a))) chg n 0 a in
      if n <=? a then Some chg else
      let? b := scan (S (Z.to_nat (n + 1 - a))) chg n 1 a in
      let? up := shift_up (S (Z.to_nat a)) h chg a b 0 in
      let? down := shift_down (S (Z.to_nat (n + 1 - b))) h chg n a b 0 in
      if 0 <? up + down then
        let bestalign := align_for (Z.to_nat (up + down + 1)) a b (- up) INT_MAX 0 in
        if negb (bestalign =? 0) then
          let a1 := a + bestalign in
          let b1 := b + bestalign in
          let? chg := fill (S (Z.to_nat (b - a))) chg a b 0 in
          let? chg := fill (S (Z.to_nat (b1 - a1))) chg a1 b1 1 in
          align_loop fuel h chg n b1
        else align_loop fuel h chg n b
      else align_loop fuel h chg n b
  end.

Definition align_blocks (h chg : list Z) : option (list Z) :=
  let n := Z.of_nat (length h) in align_loop (S (S (Z.to_nat n))) h chg n 1.

End Align.

(** ** Hunks *)

(** [ses]: the hunks from [x], [y] on; the change maps have a zero past the end. *)
Fixpoint ses_loop (fuel : nat) (cl cr : list Z) (n m x y : Z) (range : hunk) : option (list hunk) :=
  match fuel with
  | O => None
  | S fuel =>
      if (x <=? n) || (y <=? m) then
        let? l := get0 cl x in
        let? r := get0 cr y in
        if negb (l =? 0) || negb (r =? 0) then
          let? x' := scan (S (Z.to_nat (n + 1 - x))) cl n 1 x in
          let? y' := scan (S (Z.to_nat (m + 1 - y))) cr m 1 y in
          let h := mkHunk (x + (start_l range - 1)) (y + (start_r range - 1)) (x' - x) (y' - y) in
          let? hs := ses_loop fuel cl cr n m (if x' <=? n then x' + 1 else x')
                              (if y' <=? m then y' + 1 else y') range in
          Some (h :: hs)
        else ses_loop fuel cl cr n m (if x <=? n then x + 1 else x) (if y <=? m then y + 1 else y) range
      else Some []
  end.

Definition ses (cl cr : list Z) (range : hunk) : option (list hunk) :=
  let n := len_l range in
  let m := len_r range in
  ses_loop (S (Z.to_nat n + Z.to_nat m)) cl cr n m 1 1 range.

(** ** Hashing *)

Section Items.

(** The functions the caller provides, and the hash they are used with. *)
Context {H : Type} {ops : HashOps Z thing H} (hash_new : H).

Context (dcmp : Z → side → Z → side → Z) (dhash : Z → side → Z) (dcost : option (Z → side → dpos → Z)).

Definition IDX (h : hunk) (i : Z) (s : side) : Z := DSTART h s + i - 1.

Definition cmpIt (range : hunk) (ia : Z) (sa : side) (ib : Z) (sb : side) : Z :=
  dcmp (IDX range ia sa) sa (IDX range ib sb) sb.

Definition hashIt (range : hunk) (i : Z) (s : side) : Z :=
  let ret := dhash (IDX range i s) s in if ret =? 0 then 1 else ret.

Definition costIt (range : hunk) (f : Z → side → dpos → Z) (s : side) (i : Z) (pos : dpos) : Z :=
  f (IDX range i s) s pos.

(** The [while (1)] of [hashThings]: the table and the code of item [i]. *)
Fixpoint hash_probe (fuel : nat) (range : hunk) (s : side) (i dh : Z) (h : H) : option (H * Z) :=
  match fuel with
  | O => None
  | S fuel =>
      let? (h, fresh) := hash_insert h dh (mkThing i s false) in
      if (fresh : bool) then Some (h, dh) else
      let? found := hash_fetch h dh in
      let? t := found in
      if cmpIt range i s (t_idx t) (t_side t) =? 0 then
        if negb (bool_decide (t_side t = s)) then
          let? h := hash_poke h dh (mkThing (t_idx t) (t_side t) true) in Some (h, dh)
        else Some (h, dh)
      else hash_probe fuel range s i (u32 (dh + 1)) h
  end.

(** Items [i], [i + 1], ...; a table of [k] things stops a probe after [k]. *)
Fixpoint hash_loop (n : nat) (range : hunk) (s : side) (i : Z) (h : H) : option (H * list Z) :=
  match n with
  | O => Some (h, [])
  | S n =>
      let? (h, dh) := hash_probe (S (Z.to_nat (len_l range + len_r range))) range s i (hashIt range i s) h in
      let? (h, l) := hash_loop n range s (i + 1) h in
      Some (h, dh :: l)
  end.

Definition hashThings (range : hunk) (s : side) (h : H) : option (H * list Z) :=
  hash_loop (Z.to_nat (DLEN range s)) range s 1 h.

(** [red], [idx] and [chg] of a side. *)
Fixpoint compress_loop (u : list Z) (i : Z) (h : H) (chg : list Z) : option (list Z * list Z * list Z) :=
  match u with
  | [] => Some ([], [], chg)
  | x :: u =>
      let? found := hash_fetch h x in
      let? t := found in
      if t_both t then
        let? (v, idx, chg) := compress_loop u (i + 1) h chg in
        Some (x :: v, i :: idx, chg)
      else
        let? chg := set0 chg i 1 in
        compress_loop u (i + 1) h chg
  end.

Definition compressHashes (u : list Z) (h : H) : option (list Z * list Z * list Z) :=
  compress_loop u 1 h (replicate (length u + 2) 0).

(** [while (x != 0) x >>= 2, y <<= 1;] *)
Fixpoint steps_loop (fuel : nat) (x y : Z) : Z :=
  match fuel with
  | O => y
  | S fuel => if x =? 0 then y else steps_loop fuel (Z.shiftr x 2) (Z.shiftl y 1)
  end.

(** An int has 31 bits: 17 rounds are enough. *)
Definition max_steps_of (n m : Z) : Z := Z.max 256 (steps_loop 17 (n + m + 3) 1).

Definition diff_items (range : hunk) (minimal : bool) : option (list hunk) :=
  if (len_l range =? 0) || (len_r range =? 0) then
    Some (if negb (len_l range =? 0) || negb (len_r range =? 0) then [range] else [])
  else
    let? (h, ul) := hashThings range DF_LEFT hash_new in
    let? (h, ur) := hashThings range DF_RIGHT h in
    let? (rl, il, cl) := compressHashes ul h in
    let? (rr, ir, cr) := compressHashes ur h in
    let n := Z.of_nat (length rl) in
    let m := Z.of_nat (length rr) in
    let? s := idiff rl rr il ir minimal (max_steps_of n m) (S (length rl + length rr)) 0 n 0 m (mkDs cl cr ∅ ∅) in
    let? cl := shrink_gaps ul (chg_l s) in
    let? cr := shrink_gaps ur (chg_r s) in
    match dcost with
    | None => ses cl cr range
    | Some f =>
        let? cl := align_blocks (costIt range f DF_LEFT) ul cl in
        let? cr := align_blocks (costIt range f DF_RIGHT) ur cr in
        ses cl cr range
    end.

End Items.
