(* ===== verification/DiffSnake.v ===== *)
(** * DiffSnake: the middle snake

    [dsplit1] of src/src/libdiff.c is shown to end, to stay inside its arrays and
    to return a point inside the rectangle that is neither of its corners: what
    the recursion of [idiff] needs.

    [fr E d k] is the furthest point on diagonal [k] after [d] edits along the
    matches [E].  The reverse search is the same function on the mirrored
    rectangle, so each fact is proved once.  Paths may leave the rectangle; the
    central lemma [meet_in_box] shows that two searches meet inside it first. *)

From S2P Require Import Prelude HashIface Diff.
From stdpp Require Import base numbers list gmap.
From Stdlib Require Import ZArith Lia.

Local Open Scope Z_scope.

Local Open Scope bk_scope.

#[local] Ltac Zify.zify_post_hook ::= Z.div_mod_to_equations.

Lemma get1_in {T} (l : list T) i : 1 <= i <= Z.of_nat (length l) → ∃ v, get1 l i = Some v.
Proof.
  intros Hi. unfold get1. destruct (Z.leb_spec 1 i); [|lia]. apply lookup_lt_is_Some_2. lia.
Qed.

(** ** Furthest points *)

Section Furthest.

Context (x1 x2 y1 y2 : Z).

Hypothesis Hx : x1 < x2.

Hypothesis Hy : y1 < y2.

(** Following matches from [x] on diagonal [k]. *)
Fixpoint slide_n (E : Z → Z → bool) (n : nat) (x k : Z) : Z :=
  match n with
  | O => x
  | S n => if (x <? x2) && (x - k <? y2) && E x (x - k) then slide_n E n (x + 1) k else x
  end.

Definition slide (E : Z → Z → bool) (x k : Z) : Z := slide_n E (Z.to_nat (x2 - x)) x k.

Lemma slide_n_spec E n x k :
  x <= slide_n E n x k ∧
  (x < slide_n E n x k → slide_n E n x k <= x2 ∧ slide_n E n x k - k <= y2 ∧
     E (slide_n E n x k - 1) (slide_n E n x k - 1 - k) = true).
Proof.
  revert x. induction n as [|n IH]; intros x; cbn [slide_n]; [split; lia|].
  destruct (Z.ltb_spec x x2); cbn [andb]; [|split; lia].
  destruct (Z.ltb_spec (x - k) y2); cbn [andb]; [|split; lia].
  destruct (E x (x - k)) eqn:Ee; [|split; lia].
  destruct (IH (x + 1)) as [H1 H2]. split; [lia|]. intros _.
  destruct (decide (x + 1 < slide_n E n (x + 1) k)) as [Hlt|Hge]; [by apply H2|].
  replace (slide_n E n (x + 1) k) with (x + 1) by lia.
  replace (x + 1 - 1) with x by lia. split_and!; lia || done.
Qed.

Lemma slide_spec E x k :
  x <= slide E x k ∧
  (x < slide E x k → slide E x k <= x2 ∧ slide E x k - k <= y2 ∧ E (slide E x k - 1) (slide E x k - 1 - k) = true).
Proof. apply slide_n_spec. Qed.

(** The diagonals that round [d] of a search from diagonal [c] visits. *)
Definition act (c : Z) (d : nat) (k : Z) : Prop :=
  x1 - y2 <= k <= x2 - y1 ∧ Z.abs (k - c) <= Z.of_nat d ∧ (k - c - Z.of_nat d) mod 2 = 0.

#[global] Instance act_dec c d k : Decision (act c d k).
Proof. unfold act. apply _. Defined.

Definition kf : Z := x1 - y1.

Definition kr : Z := x2 - y2.

(** The previous round, with a mark below everything beyond its diagonals. *)
Fixpoint fr (E : Z → Z → bool) (d : nat) (k : Z) : Z :=
  match d with
  | O => x1
  | S d =>
      let g j := if decide (act kf d j) then fr E d j else x1 - 1 in
      slide E (if g (k - 1) <? g (k + 1) then g (k + 1) else g (k - 1) + 1) k
  end.

Definition frg (E : Z → Z → bool) (d : nat) (j : Z) : Z :=
  if decide (act kf d j) then fr E d j else x1 - 1.

(** Where the snake of round [S d] on diagonal [k] starts. *)
Definition fr0 (E : Z → Z → bool) (d : nat) (k : Z) : Z :=
  if frg E d (k - 1) <? frg E d (k + 1) then frg E d (k + 1) else frg E d (k - 1) + 1.

Lemma fr_S E d k : fr E (S d) k = slide E (fr0 E d k) k.
Proof. done. Qed.

Lemma act_kf d k : act kf (S d) k → act kf d (k - 1) ∨ act kf d (k + 1).
Proof.
  unfold act, kf. intros (? & ? & ?).
  destruct (decide (x1 - y1 < k)); [left|right]; split_and!; lia.
Qed.

(** Points are at or after the start. *)
Lemma fr_lower E d k : act kf d k → x1 <= fr E d k ∧ y1 <= fr E d k - k.
Proof.
  revert k. induction d as [|d IH]; intros k Hk.
  - destruct Hk as (? & ? & ?). unfold kf in *. simpl. lia.
  - rewrite fr_S. pose proof (slide_spec E (fr0 E d k) k) as [Hs _].
    enough (x1 <= fr0 E d k ∧ y1 <= fr0 E d k - k) by lia. clear Hs.
    pose proof (act_kf d k Hk) as Hor. unfold fr0, frg.
    pose proof (IH (k - 1)) as I1. pose proof (IH (k + 1)) as I2.
    destruct (decide (act kf d (k - 1))) as [Ha|Ha], (decide (act kf d (k + 1))) as [Hb|Hb];
      try specialize (I1 Ha); try specialize (I2 Hb); case_match; boolify; try lia.
    all: by destruct Hor.
Qed.

(** One edit: from the diagonal below or the one above. *)
Lemma fr0_cases E d k : act kf (S d) k →
  (act kf d (k - 1) ∧ fr0 E d k = fr E d (k - 1) + 1) ∨ (act kf d (k + 1) ∧ fr0 E d k = fr E d (k + 1)).
Proof.
  intros Hk. pose proof (act_kf d k Hk) as Hor. unfold fr0, frg.
  pose proof (fr_lower E d (k - 1)) as I1. pose proof (fr_lower E d (k + 1)) as I2.
  destruct (decide (act kf d (k - 1))) as [Ha|Ha], (decide (act kf d (k + 1))) as [Hb|Hb];
    try specialize (I1 Ha); try specialize (I2 Hb); case_match; boolify; try lia; auto.
  by destruct Hor.
Qed.

Lemma fr_from_below E d k : act kf d (k - 1) → fr E d (k - 1) + 1 <= fr E (S d) k.
Proof.
  intros Ha. rewrite fr_S. pose proof (slide_spec E (fr0 E d k) k) as [Hs _].
  enough (fr E d (k - 1) + 1 <= fr0 E d k) by lia. unfold fr0, frg.
  destruct (decide (act kf d (k - 1))); [|done]. case_match; boolify; lia.
Qed.

Lemma fr_from_above E d k : act kf d (k + 1) → fr E d (k + 1) <= fr E (S d) k.
Proof.
  intros Ha. rewrite fr_S. pose proof (slide_spec E (fr0 E d k) k) as [Hs _].
  enough (fr E d (k + 1) <= fr0 E d k) by lia. unfold fr0, frg.
  destruct (decide (act kf d (k + 1))); [|done]. case_match; boolify; lia.
Qed.

(** Every round gets at least one step further. *)
Lemma fr_progress E d k : act kf d k → x1 + y1 + Z.of_nat d <= 2 * fr E d k - k.
Proof.
  revert k. induction d as [|d IH]; intros k Hk.
  - destruct Hk as (? & ? & ?). unfold kf in *. simpl. lia.
  - rewrite fr_S. pose proof (slide_spec E (fr0 E d k) k) as [Hs _].
    destruct (fr0_cases E d k Hk) as [[Ha Ef]|[Ha Ef]]; specialize (IH _ Ha); lia.
Qed.

(** A point right of the rectangle was on its right edge one diagonal lower, one
    round earlier. *)
Lemma fr_right E d k : act kf d k → x1 - y2 < k → x2 < fr E d k →
  ∃ d', d = S d' ∧ act kf d' (k - 1) ∧ x2 <= fr E d' (k - 1).
Proof.
  revert k. induction d as [|d IH]; intros k Hk Hmin Hout; [simpl in Hout; lia|].
  exists d. split; [done|]. rewrite fr_S in Hout.
  pose proof (slide_spec E (fr0 E d k) k) as [Hs1 Hs2].
  assert (Hf : x2 < fr0 E d k) by (destruct (decide (fr0 E d k < slide E (fr0 E d k) k)); [specialize (Hs2 ltac:(done)); lia|lia]).
  destruct (fr0_cases E d k Hk) as [[Ha Ef]|[Ha Ef]]; [split; [done|lia]|].
  destruct (IH (k + 1) Ha ltac:(lia) ltac:(lia)) as (d' & -> & Ha' & Hr').
  replace (k + 1 - 1) with k in * by lia. split.
  - destruct Ha' as (? & ? & ?). split_and!; lia.
  - pose proof (fr_from_above E d' (k - 1)) as Hm. replace (k - 1 + 1) with k in Hm by lia.
    specialize (Hm Ha'). lia.
Qed.

(** The same below the rectangle. *)
Lemma fr_bottom E d k : act kf d k → k < x2 - y1 → y2 < fr E d k - k →
  ∃ d', d = S d' ∧ act kf d' (k + 1) ∧ y2 <= fr E d' (k + 1) - (k + 1).
Proof.
  revert k. induction d as [|d IH]; intros k Hk Hmax Hout.
  - destruct Hk as (? & ? & ?). unfold kf in *. simpl in Hout. lia.
  - exists d. split; [done|]. rewrite fr_S in Hout.
    pose proof (slide_spec E (fr0 E d k) k) as [Hs1 Hs2].
    assert (Hf : y2 < fr0 E d k - k)
      by (destruct (decide (fr0 E d k < slide E (fr0 E d k) k)); [specialize (Hs2 ltac:(done)); lia|lia]).
    destruct (fr0_cases E d k Hk) as [[Ha Ef]|[Ha Ef]]; [|split; [done|lia]].
    destruct (IH (k - 1) Ha ltac:(lia) ltac:(lia)) as (d' & -> & Ha' & Hr').
    replace (k - 1 + 1) with k in * by lia. split.
    + destruct Ha' as (? & ? & ?). split_and!; lia.
    + pose proof (fr_from_below E d' (k + 1)) as Hm. replace (k + 1 - 1) with k in Hm by lia.
      specialize (Hm Ha'). lia.
Qed.

(** Reaching the far corner, when no match leads into it. *)
Lemma fr_corner E d : act kf d kr → E (x2 - 1) (y2 - 1) = false → x2 <= fr E d kr →
  ∃ d', d = S d' ∧ ((act kf d' (kr - 1) ∧ x2 - 1 <= fr E d' (kr - 1)) ∨
                    (act kf d' (kr + 1) ∧ x2 <= fr E d' (kr + 1))).
Proof.
  intros Hk HE Hout. destruct d as [|d]; [simpl in Hout; lia|]. exists d. split; [done|].
  rewrite fr_S in Hout. pose proof (slide_spec E (fr0 E d kr) kr) as [Hs1 Hs2].
  assert (Hf : x2 <= fr0 E d kr).
  { destruct (decide (fr0 E d kr < slide E (fr0 E d kr) kr)) as [Hlt|]; [|lia].
    destruct (Hs2 Hlt) as (Hle & Hle' & HEt). assert (slide E (fr0 E d kr) kr = x2) as Es by lia.
    rewrite Es in HEt. replace (x2 - 1 - kr) with (y2 - 1) in HEt by (unfold kr; lia). congruence. }
  destruct (fr0_cases E d kr Hk) as [[Ha Ef]|[Ha Ef]]; [left|right]; split; done || lia.
Qed.

(** ** Two searches *)

(** A search from the other corner, as seen from this one. *)
Record opposite (S : nat → Z → Z) : Prop := {
  op_upper : ∀ e k, act kr e k → S e k <= x2 ∧ S e k - k <= y2;
  op_progress : ∀ e k, act kr e k → 2 * S e k - k <= x2 + y2 - Z.of_nat e
}.

(** Round [d] of this search against round [e] of the other, [e] being [d] or
    [d - 1] and of the right parity: if they had not met a round earlier, then a
    meeting point is in the rectangle and not its far corner. *)
Lemma meet_in_box E S d e k :
  opposite S → E (x2 - 1) (y2 - 1) = false →
  act kf (Datatypes.S d) k → act kr e k → (d <= e)%nat →
  (∀ e' k', e = Datatypes.S e' → act kf d k' → act kr e' k' → fr E d k' < S e' k') →
  fr E (Datatypes.S d) k <= x2 ∧ fr E (Datatypes.S d) k - k <= y2 ∧
  ¬ (fr E (Datatypes.S d) k = x2 ∧ k = kr).
Proof.
  intros Ho HE Hf Hr Hde Hno. set (f := fr E (Datatypes.S d) k).
  assert (Hinit : ∀ j, d = 0%nat → act kf d j → fr E d j = x1 ∧ j = kf).
  { intros j -> (? & ? & ?). split; [done|lia]. }
  assert (Hright : kr < k → f <= x2).
  { intros Hk. destruct (decide (f <= x2)); [done|]. exfalso.
    destruct (fr_right E _ k Hf) as (d' & [= <-] & Ha & Hge); [unfold kr in *; lia|fold f; lia|].
    destruct e as [|e]; [unfold act in Hr; lia|].
    assert (Hr' : act kr e (k - 1)) by (unfold act in *; lia).
    pose proof (op_upper S Ho e (k - 1) Hr'). specialize (Hno e (k - 1) eq_refl Ha Hr'). lia. }
  assert (Hbot : k <= kr → f - k <= y2).
  { intros Hk. destruct (decide (f - k <= y2)); [done|]. exfalso.
    destruct (fr_bottom E _ k Hf) as (d' & [= <-] & Ha & Hge); [unfold kr in *; lia|fold f; lia|].
    destruct e as [|e].
    - destruct (Hinit (k + 1)) as [Ei Ek]; [lia|done|]. unfold kf in *. lia.
    - destruct (decide (act kr e (k + 1))) as [Hr'|Hn].
      + pose proof (op_upper S Ho e (k + 1) Hr'). specialize (Hno e (k + 1) eq_refl Ha Hr'). lia.
      + apply Hn. unfold act, kr in *. lia. }
  assert (Hbox : f <= x2 ∧ f - k <= y2) by (unfold kr in *; destruct (decide (x2 - y2 < k)); lia).
  split_and!; [lia|lia|]. intros [Ef ->].
  destruct (fr_corner E (Datatypes.S d) Hf HE) as (d' & [= <-] & [[Ha Hge]|[Ha Hge]]); [fold f; lia| |].
  - destruct e as [|e]; [destruct (Hinit (kr - 1)) as [Ei Ek]; [lia|done|]; unfold kf, kr in *; lia|].
    assert (Hr' : act kr e (kr - 1)) by (unfold act, kr in *; lia).
    pose proof (op_upper S Ho e (kr - 1) Hr'). specialize (Hno e (kr - 1) eq_refl Ha Hr'). unfold kr in *. lia.
  - destruct e as [|e]; [destruct (Hinit (kr + 1)) as [Ei Ek]; [lia|done|]; unfold kf, kr in *; lia|].
    assert (Hr' : act kr e (kr + 1)) by (unfold act, kr in *; lia).
    pose proof (op_upper S Ho e (kr + 1) Hr'). specialize (Hno e (kr + 1) eq_refl Ha Hr'). unfold kr in *. lia.
Qed.

(** Searches that have not met have made little progress. *)
Lemma meet_progress E S d e k :
  opposite S → act kf d k → act kr e k → fr E d k < S e k → Z.of_nat (d + e) < (x2 - x1) + (y2 - y1).
Proof.
  intros Ho Hf Hr Hlt. pose proof (fr_progress E d k Hf). pose proof (op_progress S Ho e k Hr). lia.
Qed.

(** Late rounds share a diagonal. *)
Lemma shared_diag (d e : nat) :
  (x2 - x1) + (y2 - y1) <= Z.of_nat d + 1 → (x2 - x1) + (y2 - y1) <= Z.of_nat e + 1 →
  (kr - kf + Z.of_nat e - Z.of_nat d) mod 2 = 0 → ∃ k, act kf d k ∧ act kr e k.
Proof.
  intros Hd He Hpar. unfold act, kf, kr in *.
  destruct (decide ((x1 - y2 - (x1 - y1) - Z.of_nat d) mod 2 = 0)); [exists (x1 - y2)|exists (x1 - y2 + 1)]; lia.
Qed.

(** ** The reverse search *)

Definition mir (E : Z → Z → bool) (x y : Z) : bool := E (x1 + x2 - 1 - x) (y1 + y2 - 1 - y).

(** The search along [E] in the mirrored rectangle. *)
Definition rv (E : Z → Z → bool) (e : nat) (k : Z) : Z := x1 + x2 - fr E e (kf + kr - k).

Lemma act_mir c d k : c = kf ∨ c = kr → act c d k ↔ act (kf + kr - c) d (kf + kr - k).
Proof. unfold act, kf, kr. intros [-> | ->]; split; intros (? & ? & ?); split_and!; lia. Qed.

Lemma act_kr_mir d k : act kr d k ↔ act kf d (kf + kr - k).
Proof. rewrite act_mir by auto. by replace (kf + kr - kr) with kf by lia. Qed.

Lemma act_kf_mir d k : act kf d k ↔ act kr d (kf + kr - k).
Proof. rewrite act_mir by auto. by replace (kf + kr - kf) with kr by lia. Qed.

Lemma rv_opposite E : opposite (rv E).
Proof.
  split; intros e k Hk; apply act_kr_mir in Hk; unfold rv.
  - pose proof (fr_lower E e _ Hk). unfold kf, kr in *. lia.
  - pose proof (fr_progress E e _ Hk). unfold kf, kr in *. lia.
Qed.

(** A meeting point seen from the other search. *)
Lemma meet_in_box_rev E E' d e k :
  E' x1 y1 = false → act kr (S d) k → act kf e k → (d <= e)%nat →
  (∀ e' k', e = S e' → act kr d k' → act kf e' k' → fr E e' k' < rv (mir E') d k') →
  x1 <= rv (mir E') (S d) k ∧ y1 <= rv (mir E') (S d) k - k ∧ ¬ (rv (mir E') (S d) k = x1 ∧ k = kf).
Proof.
  intros HE Hr Hf Hde Hno. apply act_kr_mir in Hr. apply act_kf_mir in Hf.
  destruct (meet_in_box (mir E') (rv E) d e (kf + kr - k) (rv_opposite E)) as (H1 & H2 & H3); try done.
  - unfold mir. replace (x1 + x2 - 1 - (x2 - 1)) with x1 by lia. by replace (y1 + y2 - 1 - (y2 - 1)) with y1 by lia.
  - intros e' k' He' Hf' Hr'. specialize (Hno e' (kf + kr - k') He').
    specialize (Hno (proj1 (act_kf_mir d k') Hf') (proj1 (act_kr_mir e' k') Hr')). unfold rv in *. replace (kf + kr - (kf + kr - k')) with k' in Hno by lia. lia.
  - unfold rv, kf, kr in *. split_and!; [lia|lia|]. intros [Ea ->]. apply H3. lia.
Qed.

(** The reverse round in the terms of the code. *)
Definition rvg (E : Z → Z → bool) (d : nat) (j : Z) : Z :=
  if decide (act kr d j) then rv E d j else x2 + 1.

Lemma rvg_frg E d j : rvg E d j = x1 + x2 - frg E d (kf + kr - j).
Proof.
  unfold rvg, frg, rv. destruct (decide (act kr d j)) as [H|H]; rewrite act_kr_mir in H; case_decide; done || lia.
Qed.

Lemma rv_S E d k :
  rv E (S d) k =
  x1 + x2 - slide E (x1 + x2 - (if rvg E d (k - 1) <? rvg E d (k + 1) then rvg E d (k - 1) else rvg E d (k + 1) - 1))
                  (kf + kr - k).
Proof.
  unfold rv. rewrite fr_S. do 2 f_equal. unfold fr0. rewrite !rvg_frg.
  replace (kf + kr - (k - 1)) with (kf + kr - k + 1) by lia.
  replace (kf + kr - (k + 1)) with (kf + kr - k - 1) by lia.
  destruct (Z.ltb_spec (frg E d (kf + kr - k - 1)) (frg E d (kf + kr - k + 1)));
    case_match; boolify; lia.
Qed.

(** ** The diagonals of a round *)

Definition lo_of (c : Z) (d : nat) : Z :=
  let b := Z.max (c - Z.of_nat d) (x1 - y2) in b + (b - c - Z.of_nat d) mod 2.

Definition hi_of (c : Z) (d : nat) : Z :=
  let b := Z.min (c + Z.of_nat d) (x2 - y1) in b - (b - c - Z.of_nat d) mod 2.

Lemma act_range c d k : c = kf ∨ c = kr →
  act c d k ↔ lo_of c d <= k <= hi_of c d ∧ (k - c - Z.of_nat d) mod 2 = 0.
Proof. unfold act, lo_of, hi_of, kf, kr. intros [-> | ->]; split; intros (? & ?); split_and!; lia. Qed.

Lemma lo_next c d : c = kf ∨ c = kr →
  lo_of c (S d) = if x1 - y2 <? lo_of c d then lo_of c d - 1 else lo_of c d + 1.
Proof. unfold lo_of, kf, kr. intros [-> | ->]; case_match; boolify; lia. Qed.

Lemma hi_next c d : c = kf ∨ c = kr →
  hi_of c (S d) = if hi_of c d <? x2 - y1 then hi_of c d + 1 else hi_of c d - 1.
Proof. unfold hi_of, kf, kr. intros [-> | ->]; case_match; boolify; lia. Qed.

Lemma range_in c d : c = kf ∨ c = kr →
  x1 - y2 <= lo_of c d ∧ hi_of c d <= x2 - y1 ∧ lo_of c d <= hi_of c d ∧
  (lo_of c d - c - Z.of_nat d) mod 2 = 0 ∧ (hi_of c d - c - Z.of_nat d) mod 2 = 0.
Proof. unfold lo_of, hi_of, kf, kr. intros [-> | ->]; split_and!; lia. Qed.

Lemma lo_0 c : c = kf ∨ c = kr → lo_of c 0 = c ∧ hi_of c 0 = c.
Proof. unfold lo_of, hi_of, kf, kr. intros [-> | ->]; split; lia. Qed.

(** ** The code *)

Context (A B : list Z) (vn : Z) (minimal : bool) (max_steps : Z).

Hypothesis HA : 0 <= x1 ∧ x2 <= Z.of_nat (length A).

Hypothesis HB : 0 <= y1 ∧ y2 <= Z.of_nat (length B).

Hypothesis Hvn : vn = Z.of_nat (length A) + Z.of_nat (length B).

Definition EAB (x y : Z) : bool :=
  match get1 A (x + 1), get1 B (y + 1) with Some a, Some b => a =? b | _, _ => false end.

Lemma slide_fwd_ok fuel x k : x1 <= x → y1 <= x - k → (Z.to_nat (x2 - x) < fuel)%nat →
  slide_fwd A B fuel x (x - k) x2 y2 = Some (slide EAB x k, slide EAB x k - k).
Proof.
  unfold slide. remember (Z.to_nat (x2 - x)) as n eqn:En. revert fuel x En.
  induction n as [|n IH]; intros fuel x En Hx1 Hy1 Hf; (destruct fuel as [|fuel]; [lia|]); cbn [slide_fwd slide_n].
  - destruct (Z.ltb_spec x x2); [lia|]. done.
  - destruct (Z.ltb_spec x x2) as [Hlt|]; [|lia]. cbn [andb].
    destruct (Z.ltb_spec (x - k) y2) as [Hlt'|]; [|done]. cbn [andb].
    destruct (get1_in A (x + 1)) as [a Ea]; [lia|]. destruct (get1_in B (x - k + 1)) as [b Eb]; [lia|].
    unfold EAB at 1 3. rewrite Ea, Eb. destruct (a =? b); [|done].
    replace (x - k + 1) with (x + 1 - k) by lia. apply IH; lia.
Qed.

Lemma slide_rev_ok fuel x k : x <= x2 → x - k <= y2 → (Z.to_nat (x - x1) < fuel)%nat →
  let X := x1 + x2 - slide (mir EAB) (x1 + x2 - x) (kf + kr - k) in
  slide_rev A B fuel x (x - k) x1 y1 = Some (X, X - k).
Proof.
  cbv zeta. unfold slide. replace (x2 - (x1 + x2 - x)) with (x - x1) by lia.
  remember (Z.to_nat (x - x1)) as n eqn:En. revert fuel x En.
  induction n as [|n IH]; intros fuel x En Hx2 Hy2 Hf; (destruct fuel as [|fuel]; [lia|]); cbn [slide_rev slide_n].
  - destruct (Z.ltb_spec x1 x); [lia|]. cbn [andb]. do 2 f_equal; lia.
  - destruct (Z.ltb_spec x1 x) as [Hlt|]; [|lia]. destruct (Z.ltb_spec (x1 + x2 - x) x2) as [_|]; [|lia]. cbn [andb].
    assert (Ey : x1 + x2 - x - (kf + kr - k) = y1 + y2 - (x - k)) by (unfold kf, kr; lia). rewrite Ey.
    destruct (Z.ltb_spec y1 (x - k)) as [Hlt'|]; destruct (Z.ltb_spec (y1 + y2 - (x - k)) y2); try lia; cbn [andb];
      [|do 2 f_equal; lia].
    unfold mir at 1 3. replace (x1 + x2 - 1 - (x1 + x2 - x)) with (x - 1) by lia.
    replace (y1 + y2 - 1 - (y1 + y2 - (x - k))) with (x - k - 1) by lia.
    destruct (get1_in A x) as [a Ea]; [lia|]. destruct (get1_in B (x - k)) as [b Eb]; [lia|].
    unfold EAB at 1 3. replace (x - 1 + 1) with x by lia. replace (x - k - 1 + 1) with (x - k) by lia.
    rewrite Ea, Eb. destruct (a =? b); [|do 2 f_equal; lia].
    replace (x - k - 1) with (x - 1 - k) by lia. rewrite IH by lia.
    replace (x1 + x2 - x + 1) with (x1 + x2 - (x - 1)) by lia. done.
Qed.

Lemma vget_in v k : x1 - y2 - 1 <= k <= x2 - y1 + 1 → vget vn v k = v !! k.
Proof.
  intros Hk. unfold vget. destruct (Z.leb_spec (- (vn + 1)) k); [|lia]. by destruct (Z.leb_spec k vn); [|lia].
Qed.

Lemma vset_in v k x : x1 - y2 - 1 <= k <= x2 - y1 + 1 → vset vn v k x = Some (<[k := x]> v).
Proof.
  intros Hk. unfold vset. destruct (Z.leb_spec (- (vn + 1)) k); [|lia]. by destruct (Z.leb_spec k vn); [|lia].
Qed.

(** The array holds round [d] of the search from [c]. *)
Definition holds (c : Z) (d : nat) (g : Z → Z) (v : gmap Z Z) : Prop :=
  ∀ j, lo_of c d <= j <= hi_of c d → (j - c - Z.of_nat d) mod 2 = 0 → v !! j = Some (g j).

(** The same with the marks beyond the diagonals, ready for round [S d]. *)
Definition primed (c : Z) (d : nat) (g : Z → Z) (v : gmap Z Z) : Prop :=
  ∀ j, lo_of c (S d) - 1 <= j <= hi_of c (S d) + 1 → (j - c - Z.of_nat d) mod 2 = 0 → v !! j = Some (g j).

Lemma prime_ok c d g mark v :
  c = kf ∨ c = kr → holds c d g v → (∀ j, ¬ act c d j → g j = mark) →
  ∃ v1 v2, lower vn (lo_of c d) (x1 - y2) mark v = Some (lo_of c (S d), v1) ∧
    raise vn (hi_of c d) (x2 - y1) mark v1 = Some (hi_of c (S d), v2) ∧ primed c d g v2.
Proof.
  intros Hc Hv Hm. pose proof (range_in c d Hc) as (H1 & H2 & H3 & H4 & H5).
  pose proof (lo_next c d Hc) as Hl. pose proof (hi_next c d Hc) as Hh.
  assert (HL : ∃ v1, lower vn (lo_of c d) (x1 - y2) mark v = Some (lo_of c (S d), v1) ∧
    ∀ j, v1 !! j = if decide (x1 - y2 < lo_of c d ∧ j = lo_of c d - 2) then Some mark else v !! j).
  { unfold lower. destruct (Z.ltb_spec (x1 - y2) (lo_of c d)).
    - rewrite vset_in by lia. eexists. split; [by rewrite Hl|]. intros j. case_decide as Hd.
      + destruct Hd as [_ ->]. replace (lo_of c d - 2) with (lo_of c d - 1 - 1) by lia. by rewrite lookup_insert_eq.
      + rewrite lookup_insert_ne by lia. done.
    - eexists. split; [by rewrite Hl|]. intros j. case_decide; [lia|done]. }
  destruct HL as (v1 & E1 & Hv1). exists v1.
  assert (HR : ∃ v2, raise vn (hi_of c d) (x2 - y1) mark v1 = Some (hi_of c (S d), v2) ∧
    ∀ j, v2 !! j = if decide (hi_of c d < x2 - y1 ∧ j = hi_of c d + 2) then Some mark else v1 !! j).
  { clear Hv1. unfold raise. destruct (Z.ltb_spec (hi_of c d) (x2 - y1)).
    - rewrite vset_in by lia. eexists. split; [by rewrite Hh|]. intros j. case_decide as Hd.
      + destruct Hd as [_ ->]. replace (hi_of c d + 2) with (hi_of c d + 1 + 1) by lia. by rewrite lookup_insert_eq.
      + rewrite lookup_insert_ne by lia. done.
    - eexists. split; [by rewrite Hh|]. intros j. case_decide; [lia|done]. }
  destruct HR as (v2 & E2 & Hv2). exists v2. split_and!; [done|done|].
  intros j Hj Hp. rewrite Hv2, Hv1. rewrite Hl, Hh in Hj.
  destruct (decide (lo_of c d <= j <= hi_of c d)) as [Hin|Hout].
  - rewrite !decide_False by lia. by apply Hv.
  - assert (Hn : ¬ act c d j) by (rewrite act_range by done; lia). rewrite (Hm j Hn).
    destruct (Z.ltb_spec (x1 - y2) (lo_of c d)), (Z.ltb_spec (hi_of c d) (x2 - y1));
      repeat case_decide; try done; lia.
Qed.

Lemma fr0_lower E d k : act kf (S d) k → x1 <= fr0 E d k ∧ y1 <= fr0 E d k - k.
Proof.
  intros Hk. destruct (fr0_cases E d k Hk) as [[Ha ->]|[Ha ->]]; pose proof (fr_lower E d _ Ha); lia.
Qed.

#[local] Abbreviation F := (fr EAB).

#[local] Abbreviation R := (rv (mir EAB)).

Context (odd : bool).

Hypothesis Hodd : odd = negb ((kr - kf) mod 2 =? 0).

Lemma odd_act d k : odd = true → act kf (S d) k → lo_of kr d <= k <= hi_of kr d ↔ act kr d k.
Proof.
  intros Ho Hk. rewrite Hodd in Ho. apply negb_true_iff, Z.eqb_neq in Ho. rewrite (act_range kr) by auto.
  unfold act in Hk. unfold kf, kr in *. split; [|tauto]. intros. split; [done|]. lia.
Qed.

Lemma even_act d k : odd = false → act kr (S d) k → lo_of kf (S d) <= k <= hi_of kf (S d) ↔ act kf (S d) k.
Proof.
  intros Ho Hk. rewrite Hodd in Ho. apply negb_false_iff, Z.eqb_eq in Ho. rewrite (act_range kf) by auto.
  unfold act in Hk. unfold kf, kr in *. split; [|tauto]. intros. split; [done|]. lia.
Qed.

Lemma fwd_for_ok d vr : holds kr d (R d) vr → ∀ fuel k vf,
  primed kf d (frg EAB d) vf → (k - kf - Z.of_nat (S d)) mod 2 = 0 →
  lo_of kf (S d) <= k <= hi_of kf (S d) + 2 → (Z.to_nat (hi_of kf (S d) + 2 - k) < fuel)%nat →
  (∀ j, lo_of kf (S d) <= j < k → act kf (S d) j →
     vf !! j = Some (F (S d) j) ∧ (odd = true → act kr d j → F (S d) j < R d j)) →
  ∃ res vf', fwd_for A B vn fuel x1 x2 y2 odd (lo_of kr d) (hi_of kr d) vr k (hi_of kf (S d)) vf = Some (res, vf') ∧
    match res with
    | Some (x, y) => ∃ k, act kf (S d) k ∧ odd = true ∧ act kr d k ∧ R d k <= F (S d) k ∧ x = F (S d) k ∧ y = x - k
    | None => holds kf (S d) (F (S d)) vf' ∧
              (odd = true → ∀ j, act kf (S d) j → act kr d j → F (S d) j < R d j)
    end.
Proof.
  intros Hr fuel. pose proof (range_in kf (S d) ltac:(auto)) as (Hr1 & Hr2 & _ & Hr4 & Hr5).
  induction fuel as [|fuel IH]; intros k vf Hp Hpar Hk Hf Hdone; [lia|]. cbn [fwd_for].
  destruct (Z.leb_spec k (hi_of kf (S d))) as [Hle|Hgt]; last first.
  { exists None, vf. split; [done|]. split.
    - intros j Hj Hpj. apply Hdone; [lia|]. rewrite act_range by auto. split; [lia|done].
    - intros Ho j Hj. apply Hdone; [|done|done]. rewrite act_range in Hj by auto. lia. }
  assert (Hact : act kf (S d) k) by (rewrite act_range by auto; split; [lia|done]).
  rewrite !vget_in by lia. rewrite !Hp by lia. fold (fr0 EAB d k).
  destruct (fr0_lower EAB d k Hact) as [Hx0 Hy0]. rewrite slide_fwd_ok by lia. rewrite <- fr_S, vset_in by lia.
  assert (Hnext : (odd = true → act kr d k → F (S d) k < R d k) →
    ∃ res vf', fwd_for A B vn fuel x1 x2 y2 odd (lo_of kr d) (hi_of kr d) vr (k + 2) (hi_of kf (S d))
      (<[k := F (S d) k]> vf) = Some (res, vf') ∧
    match res with
    | Some (x, y) => ∃ k, act kf (S d) k ∧ odd = true ∧ act kr d k ∧ R d k <= F (S d) k ∧ x = F (S d) k ∧ y = x - k
    | None => holds kf (S d) (F (S d)) vf' ∧
              (odd = true → ∀ j, act kf (S d) j → act kr d j → F (S d) j < R d j)
    end).
  { intros Hok. apply IH; [|lia|lia|lia|].
    - intros j Hj Hpj. rewrite lookup_insert_ne by lia. by apply Hp.
    - intros j Hj Haj. destruct (decide (j = k)) as [->|Hne]; [by rewrite lookup_insert_eq|].
      rewrite lookup_insert_ne by done. apply Hdone; [|done]. rewrite act_range in Haj by auto. lia. }
  destruct (odd && (lo_of kr d <=? k) && (k <=? hi_of kr d)) eqn:Ec.
  - apply andb_prop in Ec as [Ec Hhi]. apply andb_prop in Ec as [Ho Hlo]. boolify.
    assert (Har : act kr d k) by (apply odd_act; auto).
    rewrite (Hr k) by (rewrite act_range in Har by auto; tauto).
    destruct (Z.leb_spec (R d k) (F (S d) k)) as [Hmeet|Hnm]; [|apply Hnext; done].
    eexists _, _. split; [done|]. exists k. split_and!; done.
  - apply Hnext. intros Ho Ha. rewrite act_range in Ha by auto. rewrite Ho in Ec.
    destruct (Z.leb_spec (lo_of kr d) k), (Z.leb_spec k (hi_of kr d)); done || lia.
Qed.

Lemma rv_S_upper d k : act kr (S d) k →
  let x := if rvg (mir EAB) d (k - 1) <? rvg (mir EAB) d (k + 1)
           then rvg (mir EAB) d (k - 1) else rvg (mir EAB) d (k + 1) - 1 in
  x <= x2 ∧ x - k <= y2.
Proof.
  intros Hk. cbv zeta. apply act_kr_mir in Hk. pose proof (fr0_lower (mir EAB) d _ Hk) as [H1 H2].
  unfold fr0 in *. rewrite !rvg_frg.
  replace (kf + kr - (k - 1)) with (kf + kr - k + 1) by lia.
  replace (kf + kr - (k + 1)) with (kf + kr - k - 1) by lia.
  unfold kf, kr in *.
  destruct (Z.ltb_spec (frg (mir EAB) d (x1 - y1 + (x2 - y2) - k - 1)) (frg (mir EAB) d (x1 - y1 + (x2 - y2) - k + 1)));
    case_match; boolify; lia.
Qed.

Lemma rev_for_ok d vf : holds kf (S d) (F (S d)) vf → ∀ fuel k vr,
  primed kr d (rvg (mir EAB) d) vr → (k - kr - Z.of_nat (S d)) mod 2 = 0 →
  lo_of kr (S d) - 2 <= k <= hi_of kr (S d) → (Z.to_nat (k + 2 - lo_of kr (S d)) < fuel)%nat →
  (∀ j, k < j <= hi_of kr (S d) → act kr (S d) j →
     vr !! j = Some (R (S d) j) ∧ (odd = false → act kf (S d) j → F (S d) j < R (S d) j)) →
  ∃ res vr', rev_for A B vn fuel x1 x2 y1 odd (lo_of kf (S d)) (hi_of kf (S d)) vf k (lo_of kr (S d)) vr = Some (res, vr') ∧
    match res with
    | Some (x, y) => ∃ k, act kr (S d) k ∧ odd = false ∧ act kf (S d) k ∧ R (S d) k <= F (S d) k ∧ x = R (S d) k ∧ y = x - k
    | None => holds kr (S d) (R (S d)) vr' ∧
              (odd = false → ∀ j, act kf (S d) j → act kr (S d) j → F (S d) j < R (S d) j)
    end.
Proof.
  intros Hr fuel. pose proof (range_in kr (S d) ltac:(auto)) as (Hr1 & Hr2 & _ & Hr4 & Hr5).
  induction fuel as [|fuel IH]; intros k vr Hp Hpar Hk Hf Hdone; [lia|]. cbn [rev_for].
  destruct (Z.leb_spec (lo_of kr (S d)) k) as [Hle|Hgt]; last first.
  { exists None, vr. split; [done|]. split.
    - intros j Hj Hpj. apply Hdone; [lia|]. rewrite act_range by auto. split; [lia|done].
    - intros Ho j Hj Hj'. apply Hdone; [|done|done|done]. rewrite act_range in Hj' by auto. lia. }
  assert (Hact : act kr (S d) k) by (rewrite act_range by auto; split; [lia|done]).
  rewrite !vget_in by lia. rewrite !Hp by lia.
  destruct (rv_S_upper d k Hact) as [Hx0 Hy0]. rewrite slide_rev_ok by lia. rewrite <- rv_S, vset_in by lia.
  assert (Hnext : (odd = false → act kf (S d) k → F (S d) k < R (S d) k) →
    ∃ res vr', rev_for A B vn fuel x1 x2 y1 odd (lo_of kf (S d)) (hi_of kf (S d)) vf (k - 2) (lo_of kr (S d))
      (<[k := R (S d) k]> vr) = Some (res, vr') ∧
    match res with
    | Some (x, y) => ∃ k, act kr (S d) k ∧ odd = false ∧ act kf (S d) k ∧ R (S d) k <= F (S d) k ∧ x = R (S d) k ∧ y = x - k
    | None => holds kr (S d) (R (S d)) vr' ∧
              (odd = false → ∀ j, act kf (S d) j → act kr (S d) j → F (S d) j < R (S d) j)
    end).
  { intros Hok. apply IH; [|lia|lia|lia|].
    - intros j Hj Hpj. rewrite lookup_insert_ne by lia. by apply Hp.
    - intros j Hj Haj. destruct (decide (j = k)) as [->|Hne]; [by rewrite lookup_insert_eq|].
      rewrite lookup_insert_ne by done. apply Hdone; [|done]. rewrite act_range in Haj by auto. lia. }
  destruct (negb odd && (lo_of kf (S d) <=? k) && (k <=? hi_of kf (S d))) eqn:Ec.
  - apply andb_prop in Ec as [Ec Hhi]. apply andb_prop in Ec as [Ho Hlo]. apply negb_true_iff in Ho. boolify.
    assert (Haf : act kf (S d) k) by (apply even_act; auto).
    rewrite (Hr k) by (rewrite act_range in Haf by auto; tauto).
    destruct (Z.leb_spec (R (S d) k) (F (S d) k)) as [Hmeet|Hnm]; [|apply Hnext; done].
    eexists _, _. split; [done|]. exists k. split_and!; done.
  - apply Hnext. intros Ho Ha. rewrite act_range in Ha by auto. rewrite Ho in Ec.
    destruct (Z.leb_spec (lo_of kf (S d)) k), (Z.leb_spec k (hi_of kf (S d))); done || lia.
Qed.

(** ** Rounds that have not met *)

Hypothesis Hstart : EAB x1 y1 = false.

Hypothesis Hend : EAB (x2 - 1) (y2 - 1) = false.

(** What the checks of rounds up to [d] have excluded. *)
Definition unmet (d : nat) : Prop :=
  (odd = true → ∀ e k, d = S e → act kf d k → act kr e k → F d k < R e k) ∧
  (odd = false → ∀ k, act kf d k → act kr d k → F d k < R d k).

(** A point strictly between the corners. *)
Definition inner (x y : Z) : Prop := x1 <= x <= x2 ∧ y1 <= y <= y2 ∧ x1 + y1 < x + y < x2 + y2.

Lemma odd_cases : (odd = true ∧ (kr - kf) mod 2 = 1) ∨ (odd = false ∧ (kr - kf) mod 2 = 0).
Proof.
  rewrite Hodd. destruct (Z.eqb_spec ((kr - kf) mod 2) 0) as [E|E]; [by right|left]. split; [done|].
  unfold kr, kf in *. lia.
Qed.

Lemma unmet_0 : unmet 0.
Proof.
  split; [done|]. intros _ k Hf Hr. unfold rv. simpl. lia.
Qed.

Lemma unmet_bound d : unmet d → Z.of_nat d <= (x2 - x1) + (y2 - y1).
Proof.
  intros [Ho He]. destruct (decide (Z.of_nat d <= (x2 - x1) + (y2 - y1))) as [|Hbig]; [done|]. exfalso.
  destruct odd_cases as [[E Hp]|[E Hp]].
  - destruct d as [|e]; [lia|].
    destruct (shared_diag (S e) e) as (k & Hf & Hr); [lia|lia|lia|].
    pose proof (meet_progress EAB R (S e) e k (rv_opposite _) Hf Hr (Ho E e k eq_refl Hf Hr)). lia.
  - destruct (shared_diag d d) as (k & Hf & Hr); [lia|lia|lia|].
    pose proof (meet_progress EAB R d d k (rv_opposite _) Hf Hr (He E k Hf Hr)). lia.
Qed.

(** The forward meeting points. *)
Lemma meet_fwd_inner d k : unmet d → odd = true → act kf (S d) k → act kr d k → inner (F (S d) k) (F (S d) k - k).
Proof.
  intros [Ho _] E Hf Hr.
  destruct (meet_in_box EAB R d d k (rv_opposite _) Hend Hf Hr (le_n _)) as (H1 & H2 & H3).
  { intros e' k' -> Hf' Hr'. by apply (Ho E e' k'). }
  pose proof (fr_lower EAB _ _ Hf). pose proof (fr_progress EAB _ _ Hf). unfold inner.
  split_and!; try lia. unfold kr in *. destruct (decide (F (S d) k = x2)); [|lia]. lia.
Qed.

(** The reverse meeting points. *)
Lemma meet_rev_inner d k : unmet d → odd = false → act kr (S d) k → act kf (S d) k → inner (R (S d) k) (R (S d) k - k).
Proof.
  intros [_ He] E Hr Hf.
  destruct (meet_in_box_rev EAB EAB d (S d) k Hstart Hr Hf ltac:(lia)) as (H1 & H2 & H3).
  { intros e' k' [= <-] Hr' Hf'. by apply He. }
  pose proof (op_upper _ (rv_opposite (mir EAB)) _ _ Hr). pose proof (op_progress _ (rv_opposite (mir EAB)) _ _ Hr).
  unfold inner. split_and!; try lia. unfold kf in *. destruct (decide (R (S d) k = x1)); [|lia]. lia.
Qed.

(** The far corner is not reached without meeting. *)
Lemma corner_fwd d : unmet d → act kf (S d) kr → F (S d) kr < x2.
Proof.
  intros [Ho He] Hf. destruct odd_cases as [[E Hp]|[E Hp]].
  - destruct (meet_in_box EAB R d d kr (rv_opposite _) Hend Hf) as (H1 & H2 & H3); [unfold act, kf, kr in *; lia|lia| |lia].
    intros e' k' -> Hf' Hr'. by apply (Ho E e' k').
  - destruct (meet_in_box EAB R d (S d) kr (rv_opposite _) Hend Hf) as (H1 & H2 & H3); [unfold act, kf, kr in *; lia|lia| |lia].
    intros e' k' [= <-] Hf' Hr'. by apply He.
Qed.

Lemma corner_rev d : unmet d → (odd = true → ∀ k, act kf (S d) k → act kr d k → F (S d) k < R d k) →
  act kr (S d) kf → x1 < R (S d) kf.
Proof.
  intros [_ He] Ho Hr. destruct odd_cases as [[E Hp]|[E Hp]].
  - destruct (meet_in_box_rev EAB EAB d (S (S d)) kf Hstart Hr) as (H1 & H2 & H3); [unfold act, kf, kr in *; lia|lia| |lia].
    intros e' k' [= <-] Hr' Hf'. by apply Ho.
  - destruct (meet_in_box_rev EAB EAB d (S d) kf Hstart Hr) as (H1 & H2 & H3); [unfold act, kf, kr in *; lia|lia| |lia].
    intros e' k' [= <-] Hr' Hf'. by apply He.
Qed.

(** ** Giving up *)

Lemma best_fwd_ok d vf : unmet d → holds kf (S d) (F (S d)) vf → ∀ fuel k b x,
  (k - kf - Z.of_nat (S d)) mod 2 = 0 → lo_of kf (S d) <= k → (Z.to_nat (hi_of kf (S d) + 2 - k) < fuel)%nat →
  (b = -1 ∧ k <= hi_of kf (S d)) ∨ inner x (b - x) →
  ∃ b' x', best_fwd vn fuel x2 y2 vf k (hi_of kf (S d)) b x = Some (b', x') ∧ inner x' (b' - x').
Proof.
  intros Hu Hv fuel. pose proof (range_in kf (S d) ltac:(auto)) as (Hr1 & Hr2 & _).
  induction fuel as [|fuel IH]; intros k b x Hpar Hk Hf Hb; [lia|]. cbn [best_fwd].
  destruct (Z.leb_spec k (hi_of kf (S d))) as [Hle|Hgt]; last first.
  { exists b, x. split; [done|]. destruct Hb as [[_ ?]|]; [lia|done]. }
  assert (Hact : act kf (S d) k) by (rewrite act_range by auto; split; [lia|done]).
  rewrite vget_in by lia. rewrite (Hv k) by (done || lia).
  pose proof (fr_lower EAB _ _ Hact) as [Hl1 Hl2]. pose proof (fr_progress EAB _ _ Hact) as Hpg.
  pose proof (corner_fwd d Hu) as Hc.
  set (z := if y2 <? Z.min (F (S d) k) x2 - k then (y2 + k, y2) else (Z.min (F (S d) k) x2, Z.min (F (S d) k) x2 - k)).
  assert (Hin : inner z.1 (z.1 + z.2 - z.1)).
  { unfold inner. destruct (decide (k = kr)) as [->|Hne]; [specialize (Hc Hact)|]; unfold kr in *;
      unfold z; case_match; boolify; cbn [fst snd]; lia. }
  destruct z as [zx zy]. cbn [fst snd] in Hin.
  destruct (Z.ltb_spec b (zx + zy)) as [Hlt|Hge]; (apply IH; [lia|lia|lia|]); right; [done|].
  destruct Hb as [[-> _]|]; [|done]. unfold inner in Hin. lia.
Qed.

Lemma best_rev_ok d vr : unmet d → (odd = true → ∀ k, act kf (S d) k → act kr d k → F (S d) k < R d k) →
  x2 + y2 < INT_MAX → holds kr (S d) (R (S d)) vr → ∀ fuel k b x,
  (k - kr - Z.of_nat (S d)) mod 2 = 0 → k <= hi_of kr (S d) → (Z.to_nat (k + 2 - lo_of kr (S d)) < fuel)%nat →
  (b = INT_MAX ∧ lo_of kr (S d) <= k) ∨ inner x (b - x) →
  ∃ b' x', best_rev vn fuel x1 y1 vr k (lo_of kr (S d)) b x = Some (b', x') ∧ inner x' (b' - x').
Proof.
  intros Hu Ho HM Hv fuel. pose proof (range_in kr (S d) ltac:(auto)) as (Hr1 & Hr2 & _).
  induction fuel as [|fuel IH]; intros k b x Hpar Hk Hf Hb; [lia|]. cbn [best_rev].
  destruct (Z.leb_spec (lo_of kr (S d)) k) as [Hle|Hgt]; last first.
  { exists b, x. split; [done|]. destruct Hb as [[_ ?]|]; [lia|done]. }
  assert (Hact : act kr (S d) k) by (rewrite act_range by auto; split; [lia|done]).
  rewrite vget_in by lia. rewrite (Hv k) by (done || lia).
  pose proof (op_upper _ (rv_opposite (mir EAB)) _ _ Hact) as [Hl1 Hl2].
  pose proof (op_progress _ (rv_opposite (mir EAB)) _ _ Hact) as Hpg.
  pose proof (corner_rev d Hu Ho) as Hc.
  set (z := if Z.max x1 (R (S d) k) - k <? y1 then (y1 + k, y1) else (Z.max x1 (R (S d) k), Z.max x1 (R (S d) k) - k)).
  assert (Hin : inner z.1 (z.1 + z.2 - z.1)).
  { unfold inner. destruct (decide (k = kf)) as [->|Hne]; [specialize (Hc Hact)|]; unfold kf in *;
      unfold z; case_match; boolify; cbn [fst snd]; lia. }
  destruct z as [zx zy]. cbn [fst snd] in Hin.
  destruct (Z.ltb_spec (zx + zy) b) as [Hlt|Hge]; (apply IH; [lia|lia|lia|]); right; [done|].
  destruct Hb as [[-> _]|]; [|done]. unfold inner in Hin. lia.
Qed.

(** ** The rounds *)

Lemma frg_mark E d j : ¬ act kf d j → frg E d j = x1 - 1.
Proof. intros H. unfold frg. by rewrite decide_False. Qed.

Lemma rvg_mark E d j : ¬ act kr d j → rvg E d j = x2 + 1.
Proof. intros H. unfold rvg. by rewrite decide_False. Qed.

Lemma holds_frg d v : holds kf d (F d) v → holds kf d (frg EAB d) v.
Proof.
  intros Hv j Hj Hp. rewrite (Hv j Hj Hp). unfold frg.
  rewrite decide_True; [done|]. rewrite act_range by auto. done.
Qed.

Lemma holds_rvg d v : holds kr d (R d) v → holds kr d (rvg (mir EAB) d) v.
Proof.
  intros Hv j Hj Hp. rewrite (Hv j Hj Hp). unfold rvg.
  rewrite decide_True; [done|]. rewrite act_range by auto. done.
Qed.

Lemma dsplit1_loop_ok : x2 + y2 < INT_MAX → ∀ fuel d vf vr,
  holds kf d (F d) vf → holds kr d (R d) vr → unmet d →
  (x2 - x1) + (y2 - y1) < Z.of_nat (fuel + d) →
  ∃ x y vf' vr', dsplit1_loop A B vn minimal max_steps fuel x1 x2 y1 y2 (Z.of_nat (S d))
      (lo_of kf d) (hi_of kf d) (lo_of kr d) (hi_of kr d) vf vr = Some (x, y, vf', vr') ∧ inner x y.
Proof.
  intros HM fuel. induction fuel as [|fuel IH]; intros d vf vr Hf Hr Hu Hfuel.
  { pose proof (unmet_bound d Hu). lia. }
  cbn [dsplit1_loop].
  assert (Eo : negb (Z.land (x2 - y2 - (x1 - y1)) 1 =? 0) = odd).
  { rewrite Hodd. change 1 with (Z.ones 1) at 1. rewrite Z.land_ones by lia. done. }
  rewrite Eo. pose proof (range_in kf (S d) ltac:(auto)) as (Hf1 & Hf2 & Hf3 & Hf4 & Hf5).
  pose proof (range_in kr (S d) ltac:(auto)) as (Hr1 & Hr2 & Hr3 & Hr4 & Hr5).
  destruct (prime_ok kf d _ (x1 - 1) vf ltac:(auto) (holds_frg d vf Hf) (frg_mark EAB d)) as (v1 & v2 & -> & -> & Hp).
  destruct (fwd_for_ok d vr Hr (diag_fuel (lo_of kf (S d)) (hi_of kf (S d))) (lo_of kf (S d)) v2)
    as (res & vf' & -> & Hres); [done|done|lia|unfold diag_fuel; lia|intros; lia|].
  destruct res as [[x y]|].
  { destruct Hres as (k & Hak & Ho & Hark & _ & -> & ->). eexists _, _, _, _. split; [done|].
    by apply meet_fwd_inner. }
  destruct Hres as [Hf' Hnof].
  destruct (prime_ok kr d _ (x2 + 1) vr ltac:(auto) (holds_rvg d vr Hr) (rvg_mark (mir EAB) d)) as (v3 & v4 & -> & -> & Hp').
  destruct (rev_for_ok d vf' Hf' (diag_fuel (lo_of kr (S d)) (hi_of kr (S d))) (hi_of kr (S d)) v4)
    as (res & vr' & -> & Hres); [done|done|lia|unfold diag_fuel; lia|intros; lia|].
  destruct res as [[x y]|].
  { destruct Hres as (k & Hak & Ho & Hark & _ & -> & ->). eexists _, _, _, _. split; [done|].
    by apply meet_rev_inner. }
  destruct Hres as [Hr' Hnor].
  destruct (negb minimal && (max_steps <? Z.of_nat (S d))).
  - destruct (best_fwd_ok d vf' Hu Hf' (diag_fuel (lo_of kf (S d)) (hi_of kf (S d))) (lo_of kf (S d)) (-1) (-1))
      as (b & x & -> & Hin); [done|lia|unfold diag_fuel; lia|auto|].
    destruct (Z.eqb_spec x (-1)) as [->|_]; [unfold inner in Hin; lia|]. cbn [negb].
    destruct (best_rev_ok d vr' Hu Hnof HM Hr' (diag_fuel (lo_of kr (S d)) (hi_of kr (S d))) (hi_of kr (S d)) INT_MAX INT_MAX)
      as (b' & x' & -> & Hin'); [done|lia|unfold diag_fuel; lia|auto|].
    destruct (Z.eqb_spec x' INT_MAX) as [->|_]; [unfold inner in Hin'; lia|]. cbn [negb].
    destruct (x2 + y2 - b' <? b - (x1 + y1)); eexists _, _, _, _; by split.
  - replace (Z.of_nat (S d) + 1) with (Z.of_nat (S (S d))) by lia. apply IH; [done|done| |lia].
    split; [|done]. intros Ho e k [= <-]. by apply Hnof.
Qed.

End Furthest.

(** ** The result *)

(** On a rectangle trimmed of common ends, whatever the search arrays hold, the
    split point exists, is found inside the arrays and is strictly between the
    corners. *)
Lemma dsplit1_ok A B minimal max_steps x1 x2 y1 y2 vf vr :
  0 <= x1 < x2 → x2 <= Z.of_nat (length A) → 0 <= y1 < y2 → y2 <= Z.of_nat (length B) →
  x2 + y2 < INT_MAX → get1 A (x1 + 1) ≠ get1 B (y1 + 1) → get1 A x2 ≠ get1 B y2 →
  ∃ x y vf' vr', dsplit1 A B (Z.of_nat (length A) + Z.of_nat (length B)) minimal max_steps x1 x2 y1 y2 vf vr =
      Some (x, y, vf', vr') ∧ inner x1 x2 y1 y2 x y.
Proof.
  intros Hx HA Hy HB HM Hs He. set (vn := Z.of_nat (length A) + Z.of_nat (length B)).
  assert (Hneq : ∀ x y, get1 A (x + 1) ≠ get1 B (y + 1) → EAB A B x y = false).
  { intros x y Hn. unfold EAB. destruct (get1 A (x + 1)), (get1 B (y + 1)); try done.
    apply Z.eqb_neq. congruence. }
  unfold dsplit1. rewrite !(vset_in x1 x2 y1 y2) with (A := A) (B := B) by lia.
  change (x1 - y1) with (kf x1 y1). change (x2 - y2) with (kr x2 y2).
  destruct (lo_0 x1 x2 y1 y2 ltac:(lia) ltac:(lia) (kf x1 y1)) as [El Eh]; [by left|].
  destruct (lo_0 x1 x2 y1 y2 ltac:(lia) ltac:(lia) (kr x2 y2)) as [El' Eh']; [by right|].
  edestruct (dsplit1_loop_ok x1 x2 y1 y2 ltac:(lia) ltac:(lia) A B vn minimal max_steps ltac:(lia) ltac:(lia) eq_refl
    (negb ((kr x2 y2 - kf x1 y1) mod 2 =? 0)) eq_refl) with (d := 0%nat) (vf := <[kf x1 y1 := x1]> vf)
    (vr := <[kr x2 y2 := x2]> vr) (fuel := S (Z.to_nat (x2 - x1 + (y2 - y1)))) as (x & y & vf' & vr' & Hrun & Hin).
  - by apply Hneq.
  - apply Hneq. by replace (x2 - 1 + 1) with x2 by lia; replace (y2 - 1 + 1) with y2 by lia.
  - done.
  - intros j Hj _. rewrite El, Eh in Hj. replace j with (kf x1 y1) by lia. by rewrite lookup_insert_eq.
  - intros j Hj _. rewrite El', Eh' in Hj. replace j with (kr x2 y2) by lia. rewrite lookup_insert_eq.
    f_equal. unfold rv. simpl. lia.
  - apply unmet_0; lia.
  - lia.
  - rewrite El, Eh, El', Eh' in Hrun. exists x, y, vf', vr'. by split.
Qed.

(** ** Property *)

(** C28. The search for a split point ends.  On any rectangle of two sequences
    that is not empty on either side, whose first and last items differ and whose
    far corner has coordinates that add up to less than INT_MAX, with
    or without the effort limit and whatever the scratch arrays hold, [dsplit1]
    returns; it reads and writes its arrays only inside their bounds and only
    cells it has set, no assert fails, and the point is inside the rectangle and
    is neither of its two corners, so both halves of the recursion are smaller. *)
Theorem dsplit1_terminates A B minimal max_steps x1 x2 y1 y2 vf vr :
  0 <= x1 < x2 → x2 <= Z.of_nat (length A) → 0 <= y1 < y2 → y2 <= Z.of_nat (length B) →
  x2 + y2 < INT_MAX → get1 A (x1 + 1) ≠ get1 B (y1 + 1) → get1 A x2 ≠ get1 B y2 →
  ∃ x y vf' vr', dsplit1 A B (Z.of_nat (length A) + Z.of_nat (length B)) minimal max_steps x1 x2 y1 y2 vf vr =
      Some (x, y, vf', vr') ∧ x1 <= x <= x2 ∧ y1 <= y <= y2 ∧ x1 + y1 < x + y < x2 + y2.
Proof. intros. by apply dsplit1_ok. Qed.

Lemma dsplit1_terminates_witness :
  (let A := [1; 2; 3; 1; 2; 2; 1] in let B := [3; 2; 1; 2; 1; 3] in
   (λ r, (r.1.1.1, r.1.1.2)) <$> dsplit1 A B 13 false 256 0 7 0 6 ∅ ∅) = Some (5, 4) ∧
  ∃ x y vf' vr', dsplit1 [1; 2; 3; 1; 2; 2; 1] [3; 2; 1; 2; 1; 3] (Z.of_nat 7 + Z.of_nat 6) false 256 0 7 0 6 ∅ ∅ =
      Some (x, y, vf', vr') ∧ 0 <= x <= 7 ∧ 0 <= y <= 6 ∧ 0 + 0 < x + y < 7 + 6.
Proof.
  split; [vm_compute; reflexivity|].
  by apply (dsplit1_terminates [1; 2; 3; 1; 2; 2; 1] [3; 2; 1; 2; 1; 3] false 256 0 7 0 6 ∅ ∅).
Defined.
