(* ===== verification/DiffCorrect.v ===== *)
(** * DiffCorrect: the difference engine is right

    [diff_items] of src/src/libdiff.c always returns a list of hunks that is an
    edit script: outside the hunks the two sides have the same items in the same
    order.  Every loop ends, every array access is in bounds and no assert
    fails.

    A change map with hashes [h] and marks [c] stands for the sequence [kept] of
    the hashes that are not marked; each pass either extends the marks so that
    both sides keep the same sequence ([idiff]) or moves marks without changing
    what is kept ([shrink_gaps], [align_blocks]). *)

From S2P Require Import Prelude HashIface U32Hash Diff DiffSnake.
From stdpp Require Import base numbers list gmap.
From Stdlib Require Import ZArith Lia Sorted.

Local Open Scope Z_scope.

Local Open Scope bk_scope.

(** ** What is kept *)

Definition kept (h c : Z → Z) (i j : Z) : list Z :=
  flat_map (λ t, if c t =? 0 then [h t] else []) (seqZ i (j - i)).

Lemma kept_split h c i j k : i <= j <= k → kept h c i k = kept h c i j ++ kept h c j k.
Proof.
  intros Hij. unfold kept. rewrite <- flat_map_app. f_equal.
  replace (k - i) with ((j - i) + (k - j)) by lia. rewrite seqZ_app by lia. do 2 f_equal; lia.
Qed.

Lemma kept_nil h c i j : j <= i → kept h c i j = [].
Proof. intros. unfold kept. by rewrite seqZ_nil by lia. Qed.

Lemma kept_cons h c i j : i < j → kept h c i j = (if c i =? 0 then [h i] else []) ++ kept h c (i + 1) j.
Proof.
  intros Hij. unfold kept. rewrite seqZ_cons by lia. cbn [flat_map]. do 3 f_equal; lia.
Qed.

Lemma flat_map_ext_in {X Y} (f g : X → list Y) l : (∀ x, x ∈ l → f x = g x) → flat_map f l = flat_map g l.
Proof.
  induction l as [|x l IH]; intros Hl; [done|]. cbn [flat_map]. rewrite Hl by apply list_elem_of_here.
  f_equal. apply IH. intros y Hy. apply Hl. by apply list_elem_of_further.
Qed.

Lemma kept_ext h c h' c' i j :
  (∀ t, i <= t < j → (c t =? 0) = (c' t =? 0) ∧ h t = h' t) → kept h c i j = kept h' c' i j.
Proof.
  intros Hx. unfold kept. apply flat_map_ext_in. intros t Ht. apply elem_of_seqZ in Ht.
  destruct (Hx t ltac:(lia)) as [-> ->]. done.
Qed.

Lemma kept_ones h c i j : (∀ t, i <= t < j → c t ≠ 0) → kept h c i j = [].
Proof.
  intros Ho. rewrite (kept_ext h c h (λ _, 1) i j).
  - unfold kept. by induction (seqZ i (j - i)).
  - intros t Ht. split; [|done]. destruct (Z.eqb_spec (c t) 0); [by destruct (Ho t Ht)|done].
Qed.

Lemma kept_zeros h c i j : (∀ t, i <= t < j → c t = 0) → kept h c i j = map h (seqZ i (j - i)).
Proof.
  intros Hz. rewrite (kept_ext h c h (λ _, 0) i j).
  - unfold kept. cbn [Z.eqb]. induction (seqZ i (j - i)) as [|t l IH]; [done|]. cbn. by rewrite IH.
  - intros t Ht. by rewrite Hz.
Qed.

Lemma map_seqZ_eq (h h' : Z → Z) i j n :
  (∀ t, 0 <= t < n → h (i + t) = h' (j + t)) → map h (seqZ i n) = map h' (seqZ j n).
Proof.
  intros Hh. apply list_eq_same_length with (n := Z.to_nat n); [by rewrite length_map, length_seqZ..|].
  intros k x y Hk Hx Hy. apply list_lookup_fmap_Some in Hx as (a & -> & Ha). apply list_lookup_fmap_Some in Hy as (b & -> & Hb).
  apply lookup_seqZ in Ha as [-> ?]. apply lookup_seqZ in Hb as [-> ?]. apply Hh. lia.
Qed.

(** ** Arrays as functions *)

Definition g0 (l : list Z) (i : Z) : Z := default 0 (get0 l i).

Definition g1 (l : list Z) (i : Z) : Z := default 0 (get1 l i).

Lemma get0_in l i : 0 <= i < Z.of_nat (length l) → get0 l i = Some (g0 l i).
Proof.
  intros Hi. unfold g0, get0. destruct (Z.leb_spec 0 i); [|lia].
  destruct (lookup_lt_is_Some_2 l (Z.to_nat i)) as [x ->]; [lia|done].
Qed.

Lemma get1_g1 l i : 1 <= i <= Z.of_nat (length l) → get1 l i = Some (g1 l i).
Proof. intros Hi. unfold g1. by destruct (get1_in l i Hi) as [x ->]. Qed.

Lemma set0_in l i v : 0 <= i < Z.of_nat (length l) →
  ∃ l', set0 l i v = Some l' ∧ length l' = length l ∧ ∀ t, g0 l' t = if t =? i then v else g0 l t.
Proof.
  intros Hi. unfold set0. destruct (Z.leb_spec 0 i); [|lia]. destruct (Z.ltb_spec i (Z.of_nat (length l))); [|lia].
  eexists. split; [done|]. split; [by rewrite length_insert|]. intros t. unfold g0, get0.
  destruct (Z.leb_spec 0 t); [|destruct (Z.eqb_spec t i); [lia|done]].
  destruct (Z.eqb_spec t i) as [->|]; [by rewrite list_lookup_insert_eq by lia|].
  by rewrite list_lookup_insert_ne by lia.
Qed.

(** A change map of [n] items: marks of 0 and 1 between two zeros. *)
Record chg_ok (n : Z) (l : list Z) : Prop := {
  ck_len : Z.of_nat (length l) = n + 2;
  ck_val : ∀ t, g0 l t = 0 ∨ g0 l t = 1;
  ck_lo : g0 l 0 = 0;
  ck_hi : g0 l (n + 1) = 0
}.

Lemma scan_ok n l v : chg_ok n l → ∀ fuel i, 0 <= i → (Z.to_nat (n + 1 - i) < fuel)%nat →
  ∃ r, scan fuel l n v i = Some r ∧ i <= r ∧ (r <= n + 1 ∨ r = i) ∧ (∀ t, i <= t < r → g0 l t = v) ∧
    (r <= n → g0 l r ≠ v).
Proof.
  intros Hl fuel. induction fuel as [|fuel IH]; intros i Hi Hf; [lia|]. cbn [scan].
  pose proof (ck_len _ _ Hl). destruct (Z.leb_spec i n).
  - rewrite get0_in by lia. destruct (Z.eqb_spec (g0 l i) v) as [E|E].
    + destruct (IH (i + 1)) as (r & -> & Hr & Hr' & Ht & Hn); [lia|lia|]. exists r. split_and!; [done|lia|lia| |done].
      intros t Hti. destruct (decide (t = i)) as [->|]; [done|]. apply Ht. lia.
    + exists i. split_and!; [done|lia|auto|intros; lia|done].
  - exists i. split_and!; [done|lia|auto|intros; lia|lia].
Qed.

(** Where a scan over marks stops there is none. *)
Lemma stop_zero n l r : chg_ok n l → (r <= n → g0 l r ≠ 1) → r <= n + 1 → g0 l r = 0.
Proof.
  intros Hl Hs Hr. destruct (decide (r <= n)) as [Hle|].
  - destruct (ck_val _ _ Hl r); [done|]. by destruct (Hs Hle).
  - replace r with (n + 1) by lia. apply Hl.
Qed.

Lemma scan_down_ok n l v : chg_ok n l → ∀ fuel a, 0 <= a <= n + 1 → (Z.to_nat a < fuel)%nat →
  ∃ r, scan_down fuel l v a = Some r ∧ 0 <= r <= a ∧ (∀ t, r < t <= a → g0 l t = v) ∧ (1 < r → g0 l r ≠ v) ∧ (r = a ∨ 1 <= r).
Proof.
  intros Hl fuel. induction fuel as [|fuel IH]; intros a Ha Hf; [lia|]. cbn [scan_down].
  pose proof (ck_len _ _ Hl). destruct (Z.ltb_spec 1 a).
  - rewrite get0_in by lia. destruct (Z.eqb_spec (g0 l a) v) as [E|E].
    + destruct (IH (a - 1)) as (r & -> & Hr & Ht & Hn & Hor); [lia|lia|]. exists r. split_and!; [done|lia|lia| |done|lia].
      intros t Hti. destruct (decide (t = a)) as [->|]; [done|]. apply Ht. lia.
    + exists a. split_and!; [done|lia|lia|intros; lia|done|auto].
  - exists a. split_and!; [done|lia|lia|intros; lia|lia|auto].
Qed.

Lemma fill_ok v : ∀ fuel l a b, 0 <= a → b <= Z.of_nat (length l) → (Z.to_nat (b - a) < fuel)%nat →
  ∃ l', fill fuel l a b v = Some l' ∧ length l' = length l ∧
    ∀ t, g0 l' t = if (a <=? t) && (t <? b) then v else g0 l t.
Proof.
  intros fuel. induction fuel as [|fuel IH]; intros l a b Ha Hb Hf; [lia|]. cbn [fill].
  destruct (Z.ltb_spec a b).
  - destruct (set0_in l a v ltac:(lia)) as (l1 & -> & Hl1 & Hg1).
    destruct (IH l1 (a + 1) b) as (l2 & -> & Hl2 & Hg2); [lia|lia|lia|]. exists l2. split_and!; [done|congruence|].
    intros t. rewrite Hg2, Hg1.
    destruct (Z.leb_spec (a + 1) t), (Z.leb_spec a t), (Z.ltb_spec t b), (Z.eqb_spec t a); done || lia.
  - exists l. split_and!; [done|done|]. intros t. destruct (Z.leb_spec a t), (Z.ltb_spec t b); done || lia.
Qed.

Lemma fill_down_ok v : ∀ fuel l d c, -1 <= c → d < Z.of_nat (length l) → (Z.to_nat (d - c) < fuel)%nat →
  ∃ l', fill_down fuel l d c v = Some l' ∧ length l' = length l ∧
    ∀ t, g0 l' t = if (c <? t) && (t <=? d) then v else g0 l t.
Proof.
  intros fuel. induction fuel as [|fuel IH]; intros l d c Hc Hd Hf; [lia|]. cbn [fill_down].
  destruct (Z.ltb_spec c d).
  - destruct (set0_in l d v ltac:(lia)) as (l1 & -> & Hl1 & Hg1).
    destruct (IH l1 (d - 1) c) as (l2 & -> & Hl2 & Hg2); [lia|lia|lia|]. exists l2. split_and!; [done|congruence|].
    intros t. rewrite Hg2, Hg1.
    destruct (Z.ltb_spec c t), (Z.leb_spec t (d - 1)), (Z.leb_spec t d), (Z.eqb_spec t d); done || lia.
  - exists l. split_and!; [done|done|]. intros t. destruct (Z.ltb_spec c t), (Z.leb_spec t d); done || lia.
Qed.

(** ** Closing gaps *)

Definition ones (l : list Z) (a b : Z) : Prop := ∀ t, a <= t < b → g0 l t = 1.

Definition zeros (l : list Z) (a b : Z) : Prop := ∀ t, a <= t < b → g0 l t = 0.

Lemma match_down_ok h : ∀ fuel a b c, 1 <= a <= b → c <= Z.of_nat (length h) → (Z.to_nat (c + 1 - b) < fuel)%nat →
  ∃ s, match_down fuel h a b c = Some (a + s, b + s) ∧ 0 <= s ∧ (b <= c + 1 → b + s <= c + 1) ∧
    ∀ t, 0 <= t < s → g1 h (a + t) = g1 h (b + t).
Proof.
  intros fuel. induction fuel as [|fuel IH]; intros a b c Ha Hc Hf; [lia|]. cbn [match_down].
  assert (Hstop : ∃ s, Some (a, b) = Some (a + s, b + s) ∧ 0 <= s ∧ (b <= c + 1 → b + s <= c + 1) ∧
    ∀ t, 0 <= t < s → g1 h (a + t) = g1 h (b + t)).
  { exists 0. split_and!; [do 2 f_equal; lia|lia|lia|intros; lia]. }
  destruct (Z.leb_spec b c) as [Hbc|]; [|done]. rewrite !get1_g1 by lia.
  destruct (Z.eqb_spec (g1 h a) (g1 h b)) as [E|]; [|done].
  destruct (IH (a + 1) (b + 1) c) as (s & -> & Hs & Hb & Ht); [lia|lia|lia|].
  exists (s + 1). split_and!; [do 2 f_equal; lia|lia|lia|]. intros t Hti.
  destruct (decide (t = 0)) as [->|]; [by rewrite !Z.add_0_r|].
  specialize (Ht (t - 1) ltac:(lia)). replace (a + 1 + (t - 1)) with (a + t) in Ht by lia.
  by replace (b + 1 + (t - 1)) with (b + t) in Ht by lia.
Qed.

Lemma match_up_ok h : ∀ fuel b c d, 1 <= b → c <= d <= Z.of_nat (length h) → (Z.to_nat (c + 1 - b) < fuel)%nat →
  ∃ s, match_up fuel h b c d = Some (c - s, d - s) ∧ 0 <= s ∧ (b <= c + 1 → b <= c - s + 1) ∧
    ∀ t, 0 <= t < s → g1 h (c - t) = g1 h (d - t).
Proof.
  intros fuel. induction fuel as [|fuel IH]; intros b c d Hb Hc Hf; [lia|]. cbn [match_up].
  assert (Hstop : ∃ s, Some (c, d) = Some (c - s, d - s) ∧ 0 <= s ∧ (b <= c + 1 → b <= c - s + 1) ∧
    ∀ t, 0 <= t < s → g1 h (c - t) = g1 h (d - t)).
  { exists 0. split_and!; [do 2 f_equal; lia|lia|lia|intros; lia]. }
  destruct (Z.leb_spec b c) as [Hbc|]; [|done]. rewrite !get1_g1 by lia.
  destruct (Z.eqb_spec (g1 h c) (g1 h d)) as [E|]; [|done].
  destruct (IH b (c - 1) (d - 1)) as (s & -> & Hs & Hb' & Ht); [lia|lia|lia|].
  exists (s + 1). split_and!; [do 2 f_equal; lia|lia|lia|]. intros t Hti.
  destruct (decide (t = 0)) as [->|]; [by rewrite !Z.sub_0_r|].
  specialize (Ht (t - 1) ltac:(lia)). replace (c - 1 - (t - 1)) with (c - t) in Ht by lia.
  by replace (d - 1 - (t - 1)) with (d - t) in Ht by lia.
Qed.

(** Two blocks moved together keep the same items. *)
Lemma kept_close h c c' a b s e d r :
  a < b → b <= e + 1 → e < d → 0 <= s → 0 <= r → b + s = e - r + 1 →
  (∀ t, a <= t < b → c t = 1) → (∀ t, b <= t <= e → c t = 0) → (∀ t, e < t <= d → c t = 1) →
  (∀ t, a + s <= t <= d - r → c' t = 1) → (∀ t, a <= t < a + s → c' t = 0) → (∀ t, d - r < t <= d → c' t = 0) →
  (∀ t, 0 <= t < s → h (a + t) = h (b + t)) → (∀ t, 0 <= t < r → h (e - t) = h (d - t)) →
  kept h c a (d + 1) = kept h c' a (d + 1).
Proof.
  intros Hab Hbe Hed Hs Hr Hm Hc1 Hc0 Hc2 Hn1 Hn0 Hn2 Hdn Hup.
  assert (E1 : kept h c a (d + 1) = map h (seqZ b s) ++ map h (seqZ (b + s) r)).
  { rewrite (kept_split h c a b), (kept_split h c b (b + s)), (kept_split h c (b + s) (e + 1)) by lia.
    rewrite (kept_ones h c a b) by (intros t Ht; rewrite Hc1 by lia; done).
    rewrite (kept_ones h c (e + 1)) by (intros t Ht; rewrite Hc2 by lia; done).
    rewrite (kept_zeros h c b), (kept_zeros h c (b + s)) by (intros; apply Hc0; lia).
    rewrite app_nil_r. cbn [app]. by replace (b + s - b) with s by lia; replace (e + 1 - (b + s)) with r by lia. }
  assert (E2 : kept h c' a (d + 1) = map h (seqZ a s) ++ map h (seqZ (d - r + 1) r)).
  { rewrite (kept_split h c' a (a + s)), (kept_split h c' (a + s) (d - r + 1)) by lia.
    rewrite (kept_ones h c' (a + s)) by (intros t Ht; rewrite Hn1 by lia; done).
    rewrite (kept_zeros h c' a) by (intros; apply Hn0; lia).
    rewrite (kept_zeros h c' (d - r + 1)) by (intros; apply Hn2; lia).
    cbn [app]. by replace (a + s - a) with s by lia; replace (d + 1 - (d - r + 1)) with r by lia. }
  rewrite E1, E2. f_equal; [symmetry; by apply map_seqZ_eq|].
  apply map_seqZ_eq. intros t Ht. replace (b + s + t) with (e - (r - 1 - t)) by lia.
  replace (d - r + 1 + t) with (d - (r - 1 - t)) by lia. apply Hup. lia.
Qed.

(** The state at [again]: two blocks with a gap; [i] is where the scan stands. *)
Record two_blocks (n : Z) (l : list Z) (a b c d i : Z) : Prop := {
  tb_chg : chg_ok n l;
  tb_ord : 1 <= a < b ∧ b <= c < d ∧ d < i <= n + 1;
  tb_first : ones l a b;
  tb_gap : zeros l b (c + 1);
  tb_second : ones l (c + 1) (d + 1);
  tb_rest : zeros l (d + 1) i;
  tb_before : g0 l (a - 1) = 0
}.

(** The state of the outer loop: one block, then nothing up to [i]. *)
Record one_block (n : Z) (l : list Z) (a b i : Z) : Prop := {
  ob_chg : chg_ok n l;
  ob_ord : 1 <= a < b ∧ b <= i <= n + 1;
  ob_block : ones l a b;
  ob_rest : zeros l b i;
  ob_before : g0 l (a - 1) = 0
}.

(** Erasing and writing both blocks. *)
Lemma commit_ok n h l a b c d i s r :
  two_blocks n l a b c d i → 0 <= s → 0 <= r → b + s = c - r + 1 → n = Z.of_nat (length h) →
  (∀ t, 0 <= t < s → g1 h (a + t) = g1 h (b + t)) → (∀ t, 0 <= t < r → g1 h (c - t) = g1 h (d - t)) →
  ∃ l1 l2 l3 l', fill (S (Z.to_nat (b - a))) l a b 0 = Some l1 ∧
    fill (S (Z.to_nat (b + s - (a + s)))) l1 (a + s) (b + s) 1 = Some l2 ∧
    fill_down (S (Z.to_nat (d - c))) l2 d c 0 = Some l3 ∧
    fill_down (S (Z.to_nat (d - r - (c - r)))) l3 (d - r) (c - r) 1 = Some l' ∧
    chg_ok n l' ∧ ones l' (a + s) (d - r + 1) ∧ zeros l' a (a + s) ∧ zeros l' (d - r + 1) i ∧
    (∀ t, t < a ∨ d < t → g0 l' t = g0 l t) ∧
    kept (g1 h) (g0 l') 1 (n + 1) = kept (g1 h) (g0 l) 1 (n + 1).
Proof.
  intros [Hl Hord Hf Hg Hs2 Hrest _] Hs Hr Hm Hn Hdn Hup. pose proof (ck_len _ _ Hl) as Hlen.
  destruct (fill_ok 0 (S (Z.to_nat (b - a))) l a b ltac:(lia) ltac:(lia) ltac:(lia)) as (l1 & -> & Hl1 & G1).
  destruct (fill_ok 1 (S (Z.to_nat (b + s - (a + s)))) l1 (a + s) (b + s) ltac:(lia) ltac:(lia) ltac:(lia)) as (l2 & E2 & Hl2 & G2).
  destruct (fill_down_ok 0 (S (Z.to_nat (d - c))) l2 d c ltac:(lia) ltac:(lia) ltac:(lia)) as (l3 & E3 & Hl3 & G3).
  destruct (fill_down_ok 1 (S (Z.to_nat (d - r - (c - r)))) l3 (d - r) (c - r) ltac:(lia) ltac:(lia) ltac:(lia)) as (l' & E4 & Hl' & G4).
  assert (G : ∀ t, g0 l' t = if (a + s <=? t) && (t <=? d - r) then 1 else
                             if (a <=? t) && (t <=? d) then 0 else g0 l t).
  { intros t. rewrite G4, G3, G2, G1.
    destruct (Z.ltb_spec (c - r) t), (Z.leb_spec t (d - r)), (Z.ltb_spec c t), (Z.leb_spec t d),
      (Z.leb_spec (a + s) t), (Z.ltb_spec t (b + s)), (Z.leb_spec a t), (Z.ltb_spec t b); cbn [andb]; try done; try lia.
    all: apply Hg; lia. }
  assert (Hones : ones l' (a + s) (d - r + 1)).
  { intros t Ht. rewrite G. destruct (Z.leb_spec (a + s) t), (Z.leb_spec t (d - r)); done || lia. }
  assert (Hz1 : zeros l' a (a + s)).
  { intros t Ht. rewrite G. destruct (Z.leb_spec (a + s) t), (Z.leb_spec a t), (Z.leb_spec t d); done || lia. }
  assert (Hz2 : zeros l' (d - r + 1) i).
  { intros t Ht. rewrite G. destruct (Z.leb_spec t (d - r)); [lia|]. rewrite andb_false_r.
    destruct (Z.leb_spec a t), (Z.leb_spec t d); cbn [andb]; try done; try lia. apply Hrest. lia. }
  assert (Hout : ∀ t, t < a ∨ d < t → g0 l' t = g0 l t).
  { intros t Ht. rewrite G. destruct (Z.leb_spec (a + s) t), (Z.leb_spec t (d - r)), (Z.leb_spec a t), (Z.leb_spec t d); done || lia. }
  exists l1, l2, l3, l'. split_and!; try done.
  - split; [lia| |rewrite Hout by lia; apply Hl|rewrite Hout by lia; apply Hl].
    intros t. rewrite G. repeat case_match; auto. apply Hl.
  - rewrite (kept_split _ (g0 l') 1 a), (kept_split _ (g0 l') a (d + 1)), (kept_split _ (g0 l) 1 a), (kept_split _ (g0 l) a (d + 1)) by lia.
    f_equal; [apply kept_ext; intros t Ht; by rewrite Hout by lia|]. f_equal.
    + symmetry. apply (kept_close _ _ _ a b s c d r); try done; try lia.
      * intros t Ht. apply Hg. lia.
      * intros t Ht. apply Hs2. lia.
      * intros t Ht. apply Hones. lia.
      * intros t Ht. apply Hz2. lia.
    + apply kept_ext. intros t Ht. by rewrite Hout by lia.
Qed.

(** What a pass over a change map promises. *)
Definition same_kept (n : Z) (h l l' : list Z) : Prop :=
  chg_ok n l' ∧ kept (g1 h) (g0 l') 1 (n + 1) = kept (g1 h) (g0 l) 1 (n + 1).

(** Searching back for the block before [a1]. *)
Lemma prev_block n l a1 : chg_ok n l → 1 <= a1 <= n + 1 → g0 l (a1 - 1) = 0 →
  ∃ p, scan_down (S (Z.to_nat (a1 - 1))) l 0 (a1 - 1) = Some p ∧ get0 l p = Some (g0 l p) ∧ 0 <= p <= a1 - 1 ∧
    zeros l (p + 1) a1 ∧
    (g0 l p = 1 → 1 <= p < a1 - 1 ∧
      ∃ q, scan_down (S (Z.to_nat p)) l 1 p = Some q ∧ get0 l q = Some (g0 l q) ∧
        let a := if g0 l q =? 0 then q + 1 else q in
        1 <= a <= p ∧ ones l a (p + 1) ∧ g0 l (a - 1) = 0).
Proof.
  intros Hl Ha Hz. pose proof (ck_len _ _ Hl) as Hlen. pose proof (ck_lo _ _ Hl) as H0.
  destruct (scan_down_ok n l 0 Hl (S (Z.to_nat (a1 - 1))) (a1 - 1)) as (p & -> & Hp & Hzs & _ & _); [lia|lia|].
  exists p. split_and!; [done|apply get0_in; lia|lia|lia|intros t Ht; apply Hzs; lia|]. intros H1.
  assert (p ≠ a1 - 1) by congruence. assert (p ≠ 0) by congruence. split; [lia|].
  destruct (scan_down_ok n l 1 Hl (S (Z.to_nat p)) p) as (q & -> & Hq & Hos & Hstop & Hor); [lia|lia|].
  exists q. split_and!; [done|apply get0_in; lia|]. cbv zeta.
  assert (Hones : ones l (q + 1) (p + 1)) by (intros t Ht; apply Hos; lia).
  destruct (Z.eqb_spec (g0 l q) 0) as [E|E].
  - split_and!; [lia| |done|by replace (q + 1 - 1) with q by lia]. destruct (decide (q = p)); [congruence|lia].
  - assert (g0 l q = 1) by (destruct (ck_val _ _ Hl q); done).
    assert (q = 1) as ->. { destruct (decide (1 < q)) as [Hlt|]; [by destruct (Hstop Hlt)|]. lia. }
    split_and!; [lia|lia| |done]. intros t Ht. destruct (decide (t = 1)) as [->|]; [done|]. apply Hones. lia.
Qed.

Lemma sg_again_ok n h i : n = Z.of_nat (length h) → ∀ fuel l a b c d,
  two_blocks n l a b c d i → (Z.to_nat a < fuel)%nat →
  ∃ l' a' b', sg_again fuel h l a b c d = Some (l', a', b') ∧ same_kept n h l l' ∧ one_block n l' a' b' i ∧
    ∀ t, i <= t → g0 l' t = g0 l t.
Proof.
  intros Hn fuel. induction fuel as [|fuel IH]; intros l a b c d Htb Hf; [lia|]. cbn [sg_again].
  pose proof Htb as [Hl Hord Hfst Hgap Hsnd Hrest Hbef].
  destruct (match_down_ok h (S (Z.to_nat (c + 1 - b))) a b c) as (s & -> & Hs & Hbs & Hdn); [lia|lia|lia|].
  destruct (match_up_ok h (S (Z.to_nat (c + 1 - (b + s)))) (b + s) c d) as (r & -> & Hr & Hcr & Hup); [lia|lia|lia|].
  destruct (Z.ltb_spec (c - r) (b + s)) as [Hmeet|Hno]; last first.
  { exists l, (c + 1), (d + 1). split_and!; [done|by split| |done].
    split; [done|lia|done|done|]. replace (c + 1 - 1) with c by lia. apply Hgap. lia. }
  destruct (commit_ok n h l a b c d i s r Htb Hs Hr ltac:(lia) Hn Hdn Hup)
    as (l1 & l2 & l3 & l' & -> & -> & -> & -> & Hl' & Ho & Hz1 & Hz2 & Hout & Hk).
  assert (Hprev : g0 l' (a + s - 1) = 0).
  { destruct (decide (s = 0)) as [->|]; [|apply Hz1; lia]. rewrite Z.add_0_r, Hout by lia. done. }
  destruct (prev_block n l' (a + s) Hl' ltac:(lia) Hprev) as (p & -> & -> & Hp & Hzp & Hfound).
  destruct (Z.eqb_spec (g0 l' p) 1) as [E|E].
  - destruct (Hfound E) as (Hp1 & q & -> & -> & Ha' & Hones & Hb'). cbv zeta in *.
    set (a' := if g0 l' q =? 0 then q + 1 else q) in *.
    assert (p < a). { destruct (decide (a <= p)); [|lia]. rewrite (Hz1 p) in E by lia. done. }
    destruct (IH l' a' (p + 1) (a + s - 1) (d - r)) as (l'' & a'' & b'' & -> & [Hl'' Hk''] & Hob & Hrest'').
    + split; [done|lia|done| | |done|done].
      * intros t Ht. apply Hzp. lia.
      * intros t Ht. apply Ho. lia.
    + lia.
    + exists l'', a'', b''. split_and!; [done|split; [done|congruence]|done|].
      intros t Ht. rewrite Hrest'' by done. apply Hout. lia.
  - exists l', (a + s), (d - r + 1). split_and!; [done|by split| |].
    + split; [done|lia|done|done|done].
    + intros t Ht. apply Hout. lia.
Qed.

Lemma sg_loop_ok n h : n = Z.of_nat (length h) → ∀ fuel l i a b,
  one_block n l a b i → g0 l i = 0 → (Z.to_nat (n + 1 - i) < fuel)%nat →
  ∃ l', sg_loop fuel h l n i a b = Some l' ∧ same_kept n h l l'.
Proof.
  intros Hn fuel. induction fuel as [|fuel IH]; intros l i a b Hob Hi Hf; [lia|]. cbn [sg_loop].
  pose proof Hob as [Hl Hord Hblk Hrest Hbef].
  destruct (scan_ok n l 0 Hl (S (Z.to_nat (n + 1 - i))) i) as (j & -> & Hj & Hjn & Hzj & Hsj); [lia|lia|].
  destruct (Z.leb_spec n j); [by exists l|]. specialize (Hsj ltac:(lia)).
  assert (i < j). { destruct (decide (i = j)); [congruence|lia]. }
  destruct (scan_ok n l 1 Hl (S (Z.to_nat (n + 1 - j))) j) as (k & -> & Hjk & Hkn & Hok & Hsk); [lia|lia|].
  assert (g0 l j = 1) by (destruct (ck_val _ _ Hl j); done).
  assert (j < k). { destruct (decide (j = k)) as [->|]; [by destruct (Hsk ltac:(lia))|lia]. }
  destruct (sg_again_ok n h k Hn (S (Z.to_nat n)) l a b (j - 1) (k - 1)) as (l' & a' & b' & -> & [Hl' Hk'] & Hob' & Hsame).
  - split; [done|lia|done| | | |done].
    + intros t Ht. destruct (decide (t < i)); [apply Hrest; lia|]. apply Hzj. lia.
    + intros t Ht. apply Hok. lia.
    + intros t Ht. lia.
  - lia.
  - destruct (IH l' k a' b' Hob') as (l'' & -> & [Hl'' Hk'']).
    + rewrite Hsame by lia. destruct (decide (k <= n)) as [Hkle|].
      * specialize (Hsk Hkle). destruct (ck_val _ _ Hl k); done.
      * replace k with (n + 1) by lia. apply Hl.
    + lia.
    + exists l''. split; [done|]. split; [done|congruence].
Qed.

Lemma shrink_gaps_ok n h l : n = Z.of_nat (length h) → chg_ok n l →
  ∃ l', shrink_gaps h l = Some l' ∧ same_kept n h l l'.
Proof.
  intros Hn Hl. unfold shrink_gaps. rewrite <- Hn.
  destruct (scan_ok n l 0 Hl (S (Z.to_nat n)) 1) as (i & -> & Hi & Hin & Hzi & Hsi); [lia|lia|].
  destruct (Z.leb_spec n i); [by exists l|]. specialize (Hsi ltac:(lia)).
  destruct (scan_ok n l 1 Hl (S (Z.to_nat (n + 1 - i))) i) as (k & -> & Hik & Hkn & Hok & Hsk); [lia|lia|].
  destruct (Z.leb_spec n k); [by exists l|]. specialize (Hsk ltac:(lia)).
  assert (g0 l i = 1) by (destruct (ck_val _ _ Hl i); done).
  assert (g0 l k = 0) by (destruct (ck_val _ _ Hl k); done).
  assert (i < k). { destruct (decide (i = k)); [congruence|lia]. }
  apply sg_loop_ok; [done| |done|lia]. split; [done|lia|exact Hok|intros t Ht; lia|].
  destruct (decide (i = 1)) as [->|]; [apply Hl|]. apply Hzi. lia.
Qed.

(** ** Better boundaries *)

(** A block moved by [s] over items that match those it leaves. *)
Lemma kept_shift h c c' a b s :
  a <= b → 0 <= s → (∀ t, a <= t < b → c t = 1) → (∀ t, b <= t < b + s → c t = 0) →
  (∀ t, a <= t < a + s → c' t = 0) → (∀ t, a + s <= t < b + s → c' t = 1) →
  (∀ t, 0 <= t < s → h (a + t) = h (b + t)) → kept h c a (b + s) = kept h c' a (b + s).
Proof.
  intros Hab Hs H1 H2 H3 H4 Hh.
  rewrite (kept_split h c a b), (kept_split h c' a (a + s)) by lia.
  rewrite (kept_ones h c a b) by (intros t Ht; rewrite H1 by lia; done).
  rewrite (kept_ones h c' (a + s)) by (intros t Ht; rewrite H4 by lia; done).
  rewrite (kept_zeros h c b) by (intros; apply H2; lia). rewrite (kept_zeros h c' a) by (intros; apply H3; lia).
  rewrite app_nil_r. cbn [app]. replace (b + s - b) with s by lia. replace (a + s - a) with s by lia.
  symmetry. by apply map_seqZ_eq.
Qed.

Lemma shift_up_ok n h l : n = Z.of_nat (length h) → chg_ok n l → ∀ fuel a b up,
  1 <= a <= b → b <= n + 1 → 0 <= up < a → (Z.to_nat (a - up) <= fuel)%nat →
  ∃ up', shift_up fuel h l a b up = Some up' ∧ up <= up' < a ∧
    ∀ t, up <= t < up' → g1 h (a - 1 - t) = g1 h (b - 1 - t) ∧ g0 l (a - 1 - t) = 0.
Proof.
  intros Hn Hl fuel a b. pose proof (ck_len _ _ Hl).
  induction fuel as [|fuel IH]; intros up Hab Hb Hup Hf; [lia|]. cbn [shift_up].
  assert (Hstop : ∃ up', Some up = Some up' ∧ up <= up' < a ∧
    ∀ t, up <= t < up' → g1 h (a - 1 - t) = g1 h (b - 1 - t) ∧ g0 l (a - 1 - t) = 0)
    by (exists up; split_and!; [done|lia|lia|intros; lia]).
  destruct (Z.ltb_spec 1 (a - up)); [|done]. rewrite !get1_g1 by lia.
  destruct (Z.eqb_spec (g1 h (a - 1 - up)) (g1 h (b - 1 - up))) as [E|]; [|done].
  rewrite get0_in by lia. destruct (Z.eqb_spec (g0 l (a - 1 - up)) 0) as [E'|]; [|done].
  destruct (IH (up + 1)) as (up' & -> & Hu & Ht); [lia|lia|lia|lia|]. exists up'. split_and!; [done|lia|lia|].
  intros t Hti. destruct (decide (t = up)) as [->|]; [done|]. apply Ht. lia.
Qed.

Lemma shift_down_ok n h l : n = Z.of_nat (length h) → chg_ok n l → ∀ fuel a b dn,
  1 <= a <= b → 0 <= dn → b + dn <= n + 1 → (Z.to_nat (n + 1 - (b + dn)) < fuel)%nat →
  ∃ dn', shift_down fuel h l n a b dn = Some dn' ∧ dn <= dn' ∧ b + dn' <= n + 1 ∧
    ∀ t, dn <= t < dn' → g1 h (a + t) = g1 h (b + t) ∧ g0 l (b + t) = 0.
Proof.
  intros Hn Hl fuel a b. pose proof (ck_len _ _ Hl).
  induction fuel as [|fuel IH]; intros dn Hab Hd Hb Hf; [lia|]. cbn [shift_down].
  assert (Hstop : ∃ dn', Some dn = Some dn' ∧ dn <= dn' ∧ b + dn' <= n + 1 ∧
    ∀ t, dn <= t < dn' → g1 h (a + t) = g1 h (b + t) ∧ g0 l (b + t) = 0)
    by (exists dn; split_and!; [done|lia|lia|intros; lia]).
  destruct (Z.leb_spec (b + dn) n); [|done]. rewrite !get1_g1 by lia.
  destruct (Z.eqb_spec (g1 h (a + dn)) (g1 h (b + dn))) as [E|]; [|done].
  rewrite get0_in by lia. destruct (Z.eqb_spec (g0 l (b + dn)) 0) as [E'|]; [|done].
  destruct (IH (dn + 1)) as (dn' & -> & Hu & Hb' & Ht); [lia|lia|lia|lia|]. exists dn'. split_and!; [done|lia|lia|].
  intros t Hti. destruct (decide (t = dn)) as [->|]; [done|]. apply Ht. lia.
Qed.

(** The alignment chosen is one of those tried. *)
Lemma align_for_range cost n a b i best s0 lo hi :
  lo <= s0 <= hi → lo <= i → i + Z.of_nat n <= hi + 1 → lo <= align_for cost n a b i best s0 <= hi.
Proof.
  revert i best s0. induction n as [|n IH]; intros i best s0 Hs Hi Hn; cbn [align_for]; [done|].
  case_if; apply IH; lia.
Qed.

(** Moving a block within its room. *)
Lemma move_ok n h l a b up dn s :
  n = Z.of_nat (length h) → chg_ok n l → 1 <= a < b → b <= n + 1 → ones l a b →
  0 <= up < a → 0 <= dn → b + dn <= n + 1 → - up <= s <= dn →
  (∀ t, 0 <= t < up → g1 h (a - 1 - t) = g1 h (b - 1 - t) ∧ g0 l (a - 1 - t) = 0) →
  (∀ t, 0 <= t < dn → g1 h (a + t) = g1 h (b + t) ∧ g0 l (b + t) = 0) →
  ∃ l1 l', fill (S (Z.to_nat (b - a))) l a b 0 = Some l1 ∧
    fill (S (Z.to_nat (b + s - (a + s)))) l1 (a + s) (b + s) 1 = Some l' ∧ same_kept n h l l' ∧
    (∀ t, b + s <= t < b → g0 l' t = 0) ∧ ∀ t, b <= t → b + s <= t → g0 l' t = g0 l t.
Proof.
  intros Hn Hl Hab Hb Hones Hup Hdn Hbd Hs Hu Hd. pose proof (ck_len _ _ Hl) as Hlen.
  destruct (fill_ok 0 (S (Z.to_nat (b - a))) l a b ltac:(lia) ltac:(lia) ltac:(lia)) as (l1 & -> & Hl1 & G1).
  destruct (fill_ok 1 (S (Z.to_nat (b + s - (a + s)))) l1 (a + s) (b + s) ltac:(lia) ltac:(lia) ltac:(lia)) as (l2 & E2 & Hl2 & G2).
  assert (G : ∀ t, g0 l2 t = if (a + s <=? t) && (t <? b + s) then 1 else if (a <=? t) && (t <? b) then 0 else g0 l t)
    by (intros t; by rewrite G2, G1).
  assert (Hmid : ∀ t, a + s <= t < b + s → g0 l2 t = 1)
    by (intros t Ht; rewrite G; destruct (Z.leb_spec (a + s) t), (Z.ltb_spec t (b + s)); done || lia).
  assert (Hold : ∀ t, a <= t < b → ¬ (a + s <= t < b + s) → g0 l2 t = 0).
  { intros t Ht Hn'. rewrite G. destruct (Z.leb_spec (a + s) t), (Z.ltb_spec t (b + s)), (Z.leb_spec a t), (Z.ltb_spec t b); done || lia. }
  assert (Hout : ∀ t, ¬ (a <= t < b) → ¬ (a + s <= t < b + s) → g0 l2 t = g0 l t).
  { intros t Ht Hn'. rewrite G. destruct (Z.leb_spec (a + s) t), (Z.ltb_spec t (b + s)), (Z.leb_spec a t), (Z.ltb_spec t b); done || lia. }
  assert (Hzup : ∀ t, a - up <= t < a → g0 l t = 0)
    by (intros t Ht; destruct (Hu (a - 1 - t) ltac:(lia)) as [_ E]; by replace (a - 1 - (a - 1 - t)) with t in E by lia).
  assert (Hzdn : ∀ t, b <= t < b + dn → g0 l t = 0)
    by (intros t Ht; destruct (Hd (t - b) ltac:(lia)) as [_ E]; by replace (b + (t - b)) with t in E by lia).
  exists l1, l2. split_and!; [done|done| | |].
  - split.
    + split; [lia| |rewrite Hout by lia; apply Hl|rewrite Hout by lia; apply Hl].
      intros t. rewrite G. repeat case_match; auto. apply Hl.
    + set (lo := Z.min a (a + s)). set (hi := Z.max b (b + s)).
      rewrite (kept_split _ (g0 l2) 1 lo), (kept_split _ (g0 l2) lo hi), (kept_split _ (g0 l) 1 lo), (kept_split _ (g0 l) lo hi) by lia.
      f_equal; [apply kept_ext; intros t Ht; by rewrite Hout by lia|].
      f_equal; [|apply kept_ext; intros t Ht; by rewrite Hout by lia].
      destruct (decide (0 <= s)).
      * replace lo with a by lia. replace hi with (b + s) by lia. symmetry. apply kept_shift; try done; try lia.
        -- intros t Ht. apply Hzdn. lia.
        -- intros t Ht. destruct (decide (t < b)); [apply Hold; lia|]. rewrite Hout by lia. apply Hzdn. lia.
        -- intros t Ht. apply Hd. lia.
      * replace lo with (a + s) by lia. replace hi with (b + s + - s) by lia. apply kept_shift; try lia.
        -- intros t Ht. apply Hmid. lia.
        -- intros t Ht. destruct (decide (a <= t)); [apply Hold; lia|]. rewrite Hout by lia. apply Hzup. lia.
        -- intros t Ht. apply Hzup. lia.
        -- intros t Ht. apply Hones. lia.
        -- intros t Ht. destruct (Hu (- s - 1 - t) ltac:(lia)) as [E _].
           by replace (a - 1 - (- s - 1 - t)) with (a + s + t) in E by lia; replace (b - 1 - (- s - 1 - t)) with (b + s + t) in E by lia.
  - intros t Ht. destruct (decide (a <= t)); [apply Hold; lia|]. rewrite Hout by lia. apply Hzup. lia.
  - intros t Ht Ht'. apply Hout; lia.
Qed.

Lemma align_loop_ok cost n h : n = Z.of_nat (length h) → ∀ fuel l a z,
  chg_ok n l → 1 <= a → a <= n + 1 → a <= z → zeros l a z → (Z.to_nat (n + 2 - z) < fuel)%nat →
  ∃ l', align_loop cost fuel h l n a = Some l' ∧ same_kept n h l l'.
Proof.
  intros Hn fuel. induction fuel as [|fuel IH]; intros l a0 z Hl Ha Han Hz Hzs Hf; [lia|]. cbn [align_loop].
  destruct (scan_ok n l 0 Hl (S (Z.to_nat (n + 1 - a0))) a0) as (a & -> & Haa & Hao & Hza & Hsa); [lia|lia|].
  destruct (Z.leb_spec n a); [by exists l|]. specialize (Hsa ltac:(lia)).
  destruct (scan_ok n l 1 Hl (S (Z.to_nat (n + 1 - a))) a) as (b & -> & Hab & Hbn & Hones & Hsb); [lia|lia|].
  assert (g0 l a = 1) by (destruct (ck_val _ _ Hl a); done).
  assert (a < b). { destruct (decide (a = b)) as [->|]; [by destruct (Hsb ltac:(lia))|lia]. }
  assert (z <= a). { destruct (decide (a < z)); [by rewrite Hzs in Hsa by lia|lia]. }
  destruct (shift_up_ok n h l Hn Hl (S (Z.to_nat a)) a b 0) as (up & -> & Hup & Hu); [lia|lia|lia|lia|].
  destruct (shift_down_ok n h l Hn Hl (S (Z.to_nat (n + 1 - b))) a b 0) as (dn & -> & Hdn & Hbd & Hd); [lia|lia|lia|lia|].
  assert (Hkeep : ∃ l', align_loop cost fuel h l n b = Some l' ∧ same_kept n h l l').
  { apply (IH l b b); [done|lia|lia|lia|intros t Ht; lia|lia]. }
  destruct (0 <? up + dn); [|done].
  set (s := align_for cost (Z.to_nat (up + dn + 1)) a b (- up) INT_MAX 0).
  assert (Hs : - up <= s <= dn) by (apply align_for_range; lia).
  destruct (Z.eqb_spec s 0) as [_|_]; cbn [negb]; [done|].
  destruct (move_ok n h l a b up dn s Hn Hl ltac:(lia) ltac:(lia) Hones ltac:(lia) ltac:(lia) ltac:(lia) Hs)
    as (l1 & l2 & -> & -> & [Hl2 Hk2] & Hzero & _); [intros; apply Hu; lia|intros; apply Hd; lia|].
  destruct (IH l2 (b + s) (Z.max b (b + s))) as (l3 & -> & [Hl3 Hk3]); [done|lia|lia|lia| |lia|].
  - intros t Ht. apply Hzero. lia.
  - exists l3. split; [done|]. split; [done|congruence].
Qed.

Lemma align_blocks_ok cost n h l : n = Z.of_nat (length h) → chg_ok n l →
  ∃ l', align_blocks cost h l = Some l' ∧ same_kept n h l l'.
Proof.
  intros Hn Hl. unfold align_blocks. rewrite <- Hn.
  apply (align_loop_ok cost n h Hn _ l 1 1 Hl); [lia|lia|lia|intros t Ht; lia|lia].
Qed.

(** ** Dividing *)

Lemma slide_fwd_trim A B x2 y2 : x2 <= Z.of_nat (length A) → y2 <= Z.of_nat (length B) → ∀ fuel x y,
  0 <= x <= x2 → 0 <= y <= y2 → (Z.to_nat (x2 - x) < fuel)%nat →
  ∃ s, slide_fwd A B fuel x y x2 y2 = Some (x + s, y + s) ∧ 0 <= s ∧ x + s <= x2 ∧ y + s <= y2 ∧
    (∀ t, 0 <= t < s → g1 A (x + 1 + t) = g1 B (y + 1 + t)) ∧
    (x + s < x2 → y + s < y2 → get1 A (x + s + 1) ≠ get1 B (y + s + 1)).
Proof.
  intros HA HB fuel. induction fuel as [|fuel IH]; intros x y Hx Hy Hf; [lia|]. cbn [slide_fwd].
  assert (Hstop : (x < x2 → y < y2 → get1 A (x + 1) ≠ get1 B (y + 1)) →
    ∃ s, Some (x, y) = Some (x + s, y + s) ∧ 0 <= s ∧ x + s <= x2 ∧ y + s <= y2 ∧
    (∀ t, 0 <= t < s → g1 A (x + 1 + t) = g1 B (y + 1 + t)) ∧
    (x + s < x2 → y + s < y2 → get1 A (x + s + 1) ≠ get1 B (y + s + 1))).
  { intros Hn. exists 0. rewrite !Z.add_0_r. split_and!; [done|lia|lia|lia|intros; lia|done]. }
  destruct (Z.ltb_spec x x2), (Z.ltb_spec y y2); cbn [andb]; try (apply Hstop; lia).
  rewrite !get1_g1 by lia. destruct (Z.eqb_spec (g1 A (x + 1)) (g1 B (y + 1))) as [E|E].
  - destruct (IH (x + 1) (y + 1)) as (s & -> & Hs & Hxs & Hys & Ht & Hn); [lia|lia|lia|].
    exists (s + 1). split_and!; [do 2 f_equal; lia|lia|lia|lia| |].
    + intros t Hti. destruct (decide (t = 0)) as [->|]; [by rewrite !Z.add_0_r|].
      specialize (Ht (t - 1) ltac:(lia)). replace (x + 1 + 1 + (t - 1)) with (x + 1 + t) in Ht by lia.
      by replace (y + 1 + 1 + (t - 1)) with (y + 1 + t) in Ht by lia.
    + replace (x + (s + 1)) with (x + 1 + s) by lia. replace (y + (s + 1)) with (y + 1 + s) by lia. done.
  - apply Hstop. intros _ _. rewrite !get1_g1 by lia. congruence.
Qed.

Lemma slide_rev_trim A B x1 y1 : 0 <= x1 → 0 <= y1 → ∀ fuel x y,
  x1 <= x <= Z.of_nat (length A) → y1 <= y <= Z.of_nat (length B) → (Z.to_nat (x - x1) < fuel)%nat →
  ∃ s, slide_rev A B fuel x y x1 y1 = Some (x - s, y - s) ∧ 0 <= s ∧ x1 <= x - s ∧ y1 <= y - s ∧
    (∀ t, 0 <= t < s → g1 A (x - s + 1 + t) = g1 B (y - s + 1 + t)) ∧
    (x1 < x - s → y1 < y - s → get1 A (x - s) ≠ get1 B (y - s)).
Proof.
  intros H1 H2 fuel. induction fuel as [|fuel IH]; intros x y Hx Hy Hf; [lia|]. cbn [slide_rev].
  assert (Hstop : (x1 < x → y1 < y → get1 A x ≠ get1 B y) →
    ∃ s, Some (x, y) = Some (x - s, y - s) ∧ 0 <= s ∧ x1 <= x - s ∧ y1 <= y - s ∧
    (∀ t, 0 <= t < s → g1 A (x - s + 1 + t) = g1 B (y - s + 1 + t)) ∧
    (x1 < x - s → y1 < y - s → get1 A (x - s) ≠ get1 B (y - s))).
  { intros Hn. exists 0. rewrite !Z.sub_0_r. split_and!; [done|lia|lia|lia|intros; lia|done]. }
  destruct (Z.ltb_spec x1 x), (Z.ltb_spec y1 y); cbn [andb]; try (apply Hstop; lia).
  rewrite !get1_g1 by lia. destruct (Z.eqb_spec (g1 A x) (g1 B y)) as [E|E].
  - destruct (IH (x - 1) (y - 1)) as (s & -> & Hs & Hxs & Hys & Ht & Hn); [lia|lia|lia|].
    exists (s + 1). replace (x - (s + 1)) with (x - 1 - s) by lia. replace (y - (s + 1)) with (y - 1 - s) by lia.
    split_and!; [done|lia|lia|lia| |done].
    intros t Hti. destruct (decide (t = s)) as [->|]; [|apply Ht; lia].
    by replace (x - 1 - s + 1 + s) with x by lia; replace (y - 1 - s + 1 + s) with y by lia.
  - apply Hstop. intros _ _. rewrite !get1_g1 by lia. congruence.
Qed.

(** The positions of the reduced items: in the map and different. *)
Definition idx_ok (n : Z) (idx : list Z) : Prop :=
  (∀ t, 1 <= t <= Z.of_nat (length idx) → 1 <= g1 idx t <= n) ∧
  (∀ t u, 1 <= t <= Z.of_nat (length idx) → 1 <= u <= Z.of_nat (length idx) → g1 idx t = g1 idx u → t = u).

(** [l'] is [l] but for marks on the reduced items after [x1] up to [x2]. *)
Definition only_marks (n : Z) (idx l l' : list Z) (x1 x2 : Z) : Prop :=
  chg_ok n l' ∧ ∀ p, (∀ t, x1 < t <= x2 → p ≠ g1 idx t) → g0 l' p = g0 l p.

Lemma only_marks_refl n idx l x1 x2 : chg_ok n l → only_marks n idx l l x1 x2.
Proof. by split. Qed.

Lemma only_marks_trans n idx l1 l2 l3 x1 x2 x3 :
  x1 <= x2 <= x3 → only_marks n idx l1 l2 x1 x2 → only_marks n idx l2 l3 x2 x3 → only_marks n idx l1 l3 x1 x3.
Proof.
  intros Hx [_ H1] [H2 H3]. split; [done|]. intros p Hp. rewrite H3, H1; [done|..]; intros t Ht; apply Hp; lia.
Qed.

Lemma only_marks_weaken n idx l1 l2 x1 x2 y1 y2 :
  y1 <= x1 → x2 <= y2 → only_marks n idx l1 l2 x1 x2 → only_marks n idx l1 l2 y1 y2.
Proof. intros ? ? [H1 H2]. split; [done|]. intros p Hp. apply H2. intros t Ht. apply Hp. lia. Qed.

(** Marks outside the changed part are as they were. *)
Lemma only_marks_flag n idx l l' x1 x2 t : idx_ok n idx →
  only_marks n idx l l' x1 x2 → 0 <= x1 → x2 <= Z.of_nat (length idx) → 1 <= t <= Z.of_nat (length idx) → ¬ (x1 < t <= x2) →
  g0 l' (g1 idx t) = g0 l (g1 idx t).
Proof. intros [_ Hinj] [_ H2] H0 Hx Ht Hn. apply H2. intros u Hu E. apply Hinj in E; lia. Qed.

Lemma mark_loop_ok n idx : idx_ok n idx → ∀ fuel l lo hi,
  chg_ok n l → 0 <= lo → hi <= Z.of_nat (length idx) → (Z.to_nat (hi - lo) < fuel)%nat →
  ∃ l', mark_loop fuel idx l lo hi = Some l' ∧ only_marks n idx l l' lo hi ∧
    ∀ t, lo < t <= hi → g0 l' (g1 idx t) = 1.
Proof.
  intros [Hr Hinj] fuel. induction fuel as [|fuel IH]; intros l lo hi Hl Hlo Hhi Hf; [lia|]. cbn [mark_loop].
  pose proof (ck_len _ _ Hl) as Hlen. destruct (Z.ltb_spec lo hi).
  - rewrite get1_g1 by lia. pose proof (Hr hi ltac:(lia)) as Hp.
    destruct (set0_in l (g1 idx hi) 1 ltac:(lia)) as (l1 & -> & Hl1 & G1).
    assert (Hc1 : chg_ok n l1).
    { split; [lia| |rewrite G1; destruct (Z.eqb_spec 0 (g1 idx hi)); [lia|apply Hl]|
                   rewrite G1; destruct (Z.eqb_spec (n + 1) (g1 idx hi)); [lia|apply Hl]].
      intros t. rewrite G1. case_match; [auto|apply Hl]. }
    destruct (IH l1 lo (hi - 1) Hc1) as (l2 & -> & [Hc2 Ho2] & Hm); [lia|lia|lia|]. exists l2. split; [done|].
    assert (E2 : ∀ p, (∀ t, lo < t <= hi - 1 → p ≠ g1 idx t) → g0 l2 p = if p =? g1 idx hi then 1 else g0 l p)
      by (intros p Hpt; by rewrite Ho2, G1).
    split; [split; [done|]|].
    + intros p Hpt. rewrite E2 by (intros; apply Hpt; lia). destruct (Z.eqb_spec p (g1 idx hi)) as [E|]; [by destruct (Hpt hi ltac:(lia))|done].
    + intros t Ht. destruct (decide (t = hi)) as [->|]; [|apply Hm; lia].
      rewrite E2; [by rewrite Z.eqb_refl|]. intros u Hu E. apply Hinj in E; lia.
  - exists l. split_and!; [done|by apply only_marks_refl|]. intros; lia.
Qed.

Section IdiffOk.

Context (A B il ir : list Z) (n m : Z) (minimal : bool) (max_steps : Z).

Hypothesis Hil : idx_ok n il ∧ length il = length A.

Hypothesis Hir : idx_ok m ir ∧ length ir = length B.

Hypothesis Hmax : Z.of_nat (length A) + Z.of_nat (length B) < INT_MAX.

Definition fl (idx l : list Z) (t : Z) : Z := g0 l (g1 idx t).

(** The marks after the reduced items [x1..x2] and [y1..y2] were compared. *)
Definition divided (s s' : dstate) (x1 x2 y1 y2 : Z) : Prop :=
  only_marks n il (chg_l s) (chg_l s') x1 x2 ∧ only_marks m ir (chg_r s) (chg_r s') y1 y2 ∧
  kept (g1 A) (fl il (chg_l s')) (x1 + 1) (x2 + 1) = kept (g1 B) (fl ir (chg_r s')) (y1 + 1) (y2 + 1).

Definition unmarked (s : dstate) (x1 x2 y1 y2 : Z) : Prop :=
  chg_ok n (chg_l s) ∧ chg_ok m (chg_r s) ∧
  (∀ t, x1 < t <= x2 → fl il (chg_l s) t = 0) ∧ (∀ t, y1 < t <= y2 → fl ir (chg_r s) t = 0).

(** Common items around a compared part. *)
Lemma divided_widen s s' x1 x2 y1 y2 p q :
  0 <= x1 → 0 <= y1 → 0 <= p → 0 <= q → x1 + p <= x2 - q → y1 + p <= y2 - q →
  x2 <= Z.of_nat (length A) → y2 <= Z.of_nat (length B) →
  unmarked s x1 x2 y1 y2 → divided s s' (x1 + p) (x2 - q) (y1 + p) (y2 - q) →
  (∀ t, 0 <= t < p → g1 A (x1 + 1 + t) = g1 B (y1 + 1 + t)) →
  (∀ t, 0 <= t < q → g1 A (x2 - q + 1 + t) = g1 B (y2 - q + 1 + t)) →
  divided s s' x1 x2 y1 y2.
Proof.
  destruct Hil as [HL HLl], Hir as [HR HRl].
  intros Hx1 Hy1 Hp Hq Hx Hy HA HB (_ & _ & Hz & Hz') (Hm & Hm' & Hk) Hpre Hsuf.
  assert (HzA : ∀ t, x1 < t <= x2 → ¬ (x1 + p < t <= x2 - q) → fl il (chg_l s') t = 0).
  { intros t Ht Hn'. unfold fl. rewrite (only_marks_flag n il (chg_l s) (chg_l s') (x1 + p) (x2 - q)) by (done || lia). by apply Hz. }
  assert (HzB : ∀ t, y1 < t <= y2 → ¬ (y1 + p < t <= y2 - q) → fl ir (chg_r s') t = 0).
  { intros t Ht Hn'. unfold fl. rewrite (only_marks_flag m ir (chg_r s) (chg_r s') (y1 + p) (y2 - q)) by (done || lia). by apply Hz'. }
  split; [eapply only_marks_weaken; [..|done]; lia|]. split; [eapply only_marks_weaken; [..|done]; lia|].
  rewrite (kept_split (g1 A) _ (x1 + 1) (x1 + p + 1)), (kept_split (g1 A) _ (x1 + p + 1) (x2 - q + 1)),
    (kept_split (g1 B) _ (y1 + 1) (y1 + p + 1)), (kept_split (g1 B) _ (y1 + p + 1) (y2 - q + 1)), Hk by lia.
  rewrite (kept_zeros _ (fl il (chg_l s')) (x1 + 1)), (kept_zeros _ (fl il (chg_l s')) (x2 - q + 1)) by (intros; apply HzA; lia).
  rewrite (kept_zeros _ (fl ir (chg_r s')) (y1 + 1)), (kept_zeros _ (fl ir (chg_r s')) (y2 - q + 1)) by (intros; apply HzB; lia).
  replace (x1 + p + 1 - (x1 + 1)) with p by lia. replace (y1 + p + 1 - (y1 + 1)) with p by lia.
  replace (x2 + 1 - (x2 - q + 1)) with q by lia. replace (y2 + 1 - (y2 - q + 1)) with q by lia.
  f_equal; [by apply map_seqZ_eq|]. f_equal. by apply map_seqZ_eq.
Qed.

(** Two compared parts next to each other. *)
Lemma divided_app s s1 s2 x1 x x2 y1 y y2 :
  0 <= x1 <= x → x <= x2 <= Z.of_nat (length A) → 0 <= y1 <= y → y <= y2 <= Z.of_nat (length B) →
  divided s s1 x1 x y1 y → divided s1 s2 x x2 y y2 → divided s s2 x1 x2 y1 y2.
Proof.
  destruct Hil as [HL HLl], Hir as [HR HRl].
  intros Hx Hx2 Hy Hy2 (Hm1 & Hn1 & Hk1) (Hm2 & Hn2 & Hk2).
  split; [by eapply only_marks_trans; [|done..]; lia|]. split; [by eapply only_marks_trans; [|done..]; lia|].
  rewrite (kept_split (g1 A) _ (x1 + 1) (x + 1)), (kept_split (g1 B) _ (y1 + 1) (y + 1)), Hk2 by lia. f_equal.
  rewrite (kept_ext (g1 A) (fl il (chg_l s2)) (g1 A) (fl il (chg_l s1))), (kept_ext (g1 B) (fl ir (chg_r s2)) (g1 B) (fl ir (chg_r s1))); [done|..].
  - intros t Ht. split; [|done]. unfold fl. by rewrite (only_marks_flag m ir (chg_r s1) (chg_r s2) y y2) by (done || lia).
  - intros t Ht. split; [|done]. unfold fl. by rewrite (only_marks_flag n il (chg_l s1) (chg_l s2) x x2) by (done || lia).
Qed.

Lemma unmarked_part s s1 x1 x x2 y1 y y2 :
  0 <= x1 <= x → x <= x2 <= Z.of_nat (length A) → 0 <= y1 <= y → y <= y2 <= Z.of_nat (length B) →
  unmarked s x1 x2 y1 y2 → divided s s1 x1 x y1 y → unmarked s1 x x2 y y2.
Proof.
  destruct Hil as [HL HLl], Hir as [HR HRl].
  intros Hx Hx2 Hy Hy2 (_ & _ & Hz & Hz') (Hm & Hn' & _).
  split; [apply Hm|]. split; [apply Hn'|]. split; intros t Ht; unfold fl.
  - rewrite (only_marks_flag n il (chg_l s) (chg_l s1) x1 x) by (done || lia). apply Hz. lia.
  - rewrite (only_marks_flag m ir (chg_r s) (chg_r s1) y1 y) by (done || lia). apply Hz'. lia.
Qed.

Lemma unmarked_vf s c vf vr x1 x2 y1 y2 x1' x2' y1' y2' :
  x1 <= x1' → x2' <= x2 → y1 <= y1' → y2' <= y2 → c = mkDs (chg_l s) (chg_r s) vf vr →
  unmarked s x1 x2 y1 y2 → unmarked c x1' x2' y1' y2'.
Proof.
  intros ? ? ? ? -> (? & ? & Hz & Hz'). split_and!; [done|done|..]; intros t Ht; [apply Hz|apply Hz']; lia.
Qed.

(** [idiff] ends and makes the two sides keep the same items. *)
Lemma idiff_ok fuel : ∀ x1 x2 y1 y2 s,
  0 <= x1 <= x2 → x2 <= Z.of_nat (length A) → 0 <= y1 <= y2 → y2 <= Z.of_nat (length B) →
  unmarked s x1 x2 y1 y2 → (Z.to_nat ((x2 - x1) + (y2 - y1)) < fuel)%nat →
  ∃ s', idiff A B il ir minimal max_steps fuel x1 x2 y1 y2 s = Some s' ∧ divided s s' x1 x2 y1 y2.
Proof.
  induction fuel as [|fuel IH]; intros x1 x2 y1 y2 s Hx HA Hy HB Hu Hf; [lia|]. cbn [idiff].
  destruct (Z.leb_spec x1 x2); [|lia]. destruct (Z.leb_spec y1 y2); [|lia].
  destruct (slide_fwd_trim A B x2 y2 HA HB (S (Z.to_nat (x2 - x1))) x1 y1) as (p & -> & Hp & Hxp & Hyp & Hpre & Hne1); [lia|lia|lia|].
  destruct (slide_rev_trim A B (x1 + p) (y1 + p) ltac:(lia) ltac:(lia) (S (Z.to_nat (x2 - (x1 + p)))) x2 y2)
    as (q & -> & Hq & Hxq & Hyq & Hsuf & Hne2); [lia|lia|lia|].
  set (X1 := x1 + p) in *. set (X2 := x2 - q) in *. set (Y1 := y1 + p) in *. set (Y2 := y2 - q) in *.
  assert (Hmid : ∀ s', divided s s' X1 X2 Y1 Y2 → divided s s' x1 x2 y1 y2)
    by (intros s' Hd; apply (divided_widen s s' x1 x2 y1 y2 p q); done || lia).
  destruct Hu as (Hcl & Hcr & Hz & Hz'). destruct (Z.eqb_spec X1 X2) as [EX|EX].
  { destruct (mark_loop_ok m ir (proj1 Hir) (S (Z.to_nat (Y2 - Y1))) (chg_r s) Y1 Y2) as (c & -> & Hom & Hall); [done|lia|lia|lia|].
    eexists. split; [done|]. apply Hmid. split; [by apply only_marks_refl|]. split; [done|]. cbn [chg_l chg_r].
    rewrite kept_nil by lia. rewrite kept_ones; [done|]. intros t Ht. unfold fl. rewrite Hall by lia. done. }
  destruct (Z.eqb_spec Y1 Y2) as [EY|EY].
  { destruct (mark_loop_ok n il (proj1 Hil) (S (Z.to_nat (X2 - X1))) (chg_l s) X1 X2) as (c & -> & Hom & Hall); [done|lia|lia|lia|].
    eexists. split; [done|]. apply Hmid. split; [done|]. split; [by apply only_marks_refl|]. cbn [chg_l chg_r].
    rewrite (kept_nil _ _ (Y1 + 1)) by lia. rewrite kept_ones; [done|]. intros t Ht. unfold fl. rewrite Hall by lia. done. }
  destruct (dsplit1_ok A B minimal max_steps X1 X2 Y1 Y2 (ds_vf s) (ds_vr s)) as (x & y & vf & vr & -> & Hin);
    [lia|lia|lia|lia|lia|apply Hne1; lia|apply Hne2; lia|].
  unfold inner in Hin.
  destruct (Z.leb_spec X1 x), (Z.leb_spec x X2), (Z.leb_spec Y1 y), (Z.leb_spec y Y2); try lia. cbn [andb].
  assert (Hu : unmarked s x1 x2 y1 y2) by done.
  set (s0 := mkDs (chg_l s) (chg_r s) vf vr).
  destruct (IH X1 x Y1 y s0) as (s1 & -> & Hd1); [lia|lia|lia|lia|by eapply unmarked_vf; [..|done]; try lia|lia|].
  assert (Hd1' : divided s s1 X1 x Y1 y) by done.
  destruct (IH x X2 y Y2 s1) as (s2 & -> & Hd2); [lia|lia|lia|lia| |lia|].
  - eapply (unmarked_part s0 s1 X1 x X2 Y1 y Y2); [lia|lia|lia|lia| |done].
    by eapply unmarked_vf; [..|done]; try lia.
  - exists s2. split; [done|]. apply Hmid. by eapply (divided_app s s1 s2 X1 x X2 Y1 y Y2); [lia|lia|lia|lia|..].
Qed.

End IdiffOk.

(** ** Reducing *)

Lemma kept_succ h c i j : kept h c (i + 1) (j + 1) = kept (λ t, h (t + 1)) (λ t, c (t + 1)) i j.
Proof.
  unfold kept. replace (j + 1 - (i + 1)) with (j - i) by lia.
  replace (i + 1) with (1 + i) by lia. rewrite <- fmap_add_seqZ.
  induction (seqZ i (j - i)) as [|t l IH]; [done|]. cbn. rewrite IH. by replace (t + 1) with (1 + t) by lia.
Qed.

Lemma g1_cons x l t : 1 <= t → g1 (x :: l) (t + 1) = g1 l t.
Proof.
  intros Ht. unfold g1, get1. destruct (Z.leb_spec 1 (t + 1)), (Z.leb_spec 1 t); try lia.
  replace (Z.to_nat (t + 1 - 1)) with (S (Z.to_nat (t - 1))) by lia. done.
Qed.

(** What is kept of pairs of position and hash. *)
Definition kept_pairs (c : Z → Z) (ps : list (Z * Z)) : list Z :=
  flat_map (λ p, if c p.1 =? 0 then [p.2] else []) ps.

Lemma kept_reduced c v : ∀ idx, length v = length idx →
  kept (g1 v) (λ t, c (g1 idx t)) 1 (Z.of_nat (length v) + 1) = kept_pairs c (zip idx v).
Proof.
  induction v as [|x v IH]; intros [|p idx] Hl; try done. cbn [length zip] in *. injection Hl as Hl.
  rewrite kept_cons by lia. unfold kept_pairs. cbn [flat_map zip_with fst snd].
  change (g1 (p :: idx) 1) with p. change (g1 (x :: v) 1) with x. f_equal.
  fold (kept_pairs c (zip idx v)). rewrite <- (IH idx Hl).
  replace (Z.of_nat (S (length v)) + 1) with (Z.of_nat (length v) + 1 + 1) by lia.
  rewrite kept_succ. apply kept_ext. intros t Ht. by rewrite !g1_cons by lia.
Qed.

Lemma sorted_idx n idx : StronglySorted Z.lt idx → (∀ p, p ∈ idx → 1 <= p <= n) → idx_ok n idx.
Proof.
  intros Hs Hr.
  assert (Hin : ∀ t, 1 <= t <= Z.of_nat (length idx) → g1 idx t ∈ idx).
  { intros t Ht. pose proof (get1_g1 idx t Ht) as E. unfold get1 in E. destruct (Z.leb_spec 1 t); [|lia].
    by eapply list_elem_of_lookup_2. }
  split; [intros t Ht; by apply Hr, Hin|]. intros t u Ht Hu E.
  pose proof (get1_g1 idx t Ht) as Et. pose proof (get1_g1 idx u Hu) as Eu. rewrite E in Et.
  unfold get1 in Et, Eu. destruct (Z.leb_spec 1 t), (Z.leb_spec 1 u); try lia.
  assert (Hnd : NoDup idx).
  { clear -Hs. induction Hs as [|p l Hs IH Hf]; [constructor|]. apply NoDup_cons. split; [|done].
    intros Hin. rewrite Forall_forall in Hf. specialize (Hf p Hin). lia. }
  pose proof (NoDup_lookup idx _ _ _ Hnd Et Eu). lia.
Qed.

Section Reduce.

Context {H : Type} {ops : HashOps Z thing H} {laws : HashLaws Z thing H}.

Lemma compress_loop_ok h : hash_inv h → ∀ u i l,
  (∀ x, x ∈ u → is_Some (hash_abs h !! x)) → 0 <= i → i + Z.of_nat (length u) <= Z.of_nat (length l) →
  ∃ v idx l', compress_loop u i h l = Some (v, idx, l') ∧ length v = length idx ∧ (length v <= length u)%nat ∧
    StronglySorted Z.lt idx ∧ (∀ p, p ∈ idx → i <= p < i + Z.of_nat (length u)) ∧ length l' = length l ∧
    (∀ p, g0 l' p = if decide (i <= p < i + Z.of_nat (length u) ∧ p ∉ idx) then 1 else g0 l p) ∧
    ∀ hh c, (∀ t, 0 <= t < Z.of_nat (length u) → hh (i + t) = g1 u (t + 1)) →
      (∀ p, i <= p < i + Z.of_nat (length u) → p ∉ idx → c p ≠ 0) →
      kept hh c i (i + Z.of_nat (length u)) = kept_pairs c (zip idx v).
Proof.
  intros Hi u. induction u as [|x u IH]; intros i l Hu H0 Hlen; cbn [compress_loop length] in *.
  { exists [], [], l. split_and!; try done; [constructor|intros p Hp; by apply not_elem_of_nil in Hp| |].
    - intros p. rewrite decide_False by lia. done.
    - intros hh c _ _. apply kept_nil. lia. }
  destruct (Hu x (list_elem_of_here _ _)) as [t Ht].
  rewrite (fetch_law h x Hi (okkey_law h x Hi ltac:(eauto))), Ht.
  assert (Hu' : ∀ y, y ∈ u → is_Some (hash_abs h !! y)) by (intros y Hy; apply Hu; by apply list_elem_of_further).
  assert (Hstep : ∀ hh, (∀ t, 0 <= t < Z.of_nat (S (length u)) → hh (i + t) = g1 (x :: u) (t + 1)) →
    hh i = x ∧ ∀ t, 0 <= t < Z.of_nat (length u) → hh (i + 1 + t) = g1 u (t + 1)).
  { intros hh Hhh. split; [specialize (Hhh 0 ltac:(lia)); by rewrite Z.add_0_r in Hhh|].
    intros t' Ht'. specialize (Hhh (t' + 1) ltac:(lia)). rewrite g1_cons in Hhh by lia. rewrite <- Hhh. f_equal. lia. }
  destruct (t_both t).
  - destruct (IH (i + 1) l Hu' ltac:(lia) ltac:(lia)) as (v & idx & l' & -> & Hlv & Hle & Hs & Hr & Hl' & G & Hk).
    exists (x :: v), (i :: idx), l'. split_and!; [done|cbn; congruence|cbn; lia| | |done| |].
    + constructor; [done|]. apply Forall_forall. intros p Hp. specialize (Hr p Hp). lia.
    + intros p Hp. apply elem_of_cons in Hp as [->|Hp]; [lia|]. specialize (Hr p Hp). lia.
    + intros p. rewrite G. apply decide_ext. rewrite not_elem_of_cons.
      destruct (decide (p = i)) as [->|Hne]; split; intros [Hp Hn]; (split; [lia|]); tauto || lia.
    + intros hh c Hhh Hc. destruct (Hstep hh Hhh) as [Ex Hhh']. rewrite kept_cons by lia.
      unfold kept_pairs. cbn [zip zip_with flat_map fst snd]. rewrite Ex. f_equal. fold (kept_pairs c (zip idx v)).
      rewrite <- (Hk hh c Hhh'); [f_equal; lia|]. intros p Hp Hn. apply Hc; [lia|].
      rewrite not_elem_of_cons. split; [lia|done].
  - destruct (set0_in l i 1 ltac:(lia)) as (l1 & -> & Hl1 & G1).
    destruct (IH (i + 1) l1 Hu' ltac:(lia) ltac:(lia)) as (v & idx & l' & -> & Hlv & Hle & Hs & Hr & Hl' & G & Hk).
    assert (Hni : i ∉ idx) by (intros Hin; specialize (Hr i Hin); lia).
    exists v, idx, l'. split_and!; [done|done|lia|done| |congruence| |].
    + intros p Hp. specialize (Hr p Hp). lia.
    + intros p. rewrite G, G1. destruct (Z.eqb_spec p i) as [->|].
      * rewrite decide_False by lia. by rewrite decide_True by (split; [lia|done]).
      * apply decide_ext. split; intros [? ?]; split; try lia; done.
    + intros hh c Hhh Hc. destruct (Hstep hh Hhh) as [Ex Hhh']. rewrite kept_cons by lia.
      destruct (Z.eqb_spec (c i) 0) as [E|_]; [by destruct (Hc i ltac:(lia) Hni)|]. cbn [app].
      rewrite <- (Hk hh c Hhh'); [f_equal; lia|]. intros p Hp Hn. apply Hc; [lia|done].
Qed.

(** Reduction: the reduced items, their positions, and marks on all others. *)
Lemma compress_ok h u : hash_inv h → (∀ x, x ∈ u → is_Some (hash_abs h !! x)) →
  let n := Z.of_nat (length u) in
  ∃ v idx l, compressHashes u h = Some (v, idx, l) ∧ length idx = length v ∧ (length v <= length u)%nat ∧
    idx_ok n idx ∧ chg_ok n l ∧ (∀ t, 0 < t <= Z.of_nat (length v) → fl idx l t = 0) ∧
    ∀ l', (∀ p, (∀ t, 0 < t <= Z.of_nat (length v) → p ≠ g1 idx t) → g0 l' p = g0 l p) →
      kept (g1 u) (g0 l') 1 (n + 1) = kept (g1 v) (fl idx l') 1 (Z.of_nat (length v) + 1).
Proof.
  intros Hi Hu n. unfold compressHashes.
  assert (Hz : ∀ p, g0 (replicate (length u + 2) 0) p = 0).
  { intros p. unfold g0, get0. destruct (0 <=? p); [|done].
    destruct (replicate (length u + 2) 0 !! Z.to_nat p) as [y|] eqn:E; [|done]. by apply lookup_replicate in E as [-> _]. }
  destruct (compress_loop_ok h Hi u 1 (replicate (length u + 2) 0) Hu) as (v & idx & l & -> & Hlv & Hle & Hs & Hr & Hl & G & Hk);
    [lia|rewrite length_replicate; lia|].
  assert (Hok : idx_ok n idx) by (apply sorted_idx; [done|]; intros p Hp; specialize (Hr p Hp); lia).
  assert (Hin : ∀ t, 0 < t <= Z.of_nat (length v) → g1 idx t ∈ idx).
  { intros t Ht. pose proof (get1_g1 idx t ltac:(lia)) as E. unfold get1 in E. destruct (Z.leb_spec 1 t); [|lia].
    by eapply list_elem_of_lookup_2. }
  exists v, idx, l. split_and!; [done|done|done|done| | |].
  - split.
    + rewrite Hl, length_replicate. lia.
    + intros t. rewrite G, Hz. case_decide; auto.
    + rewrite G, Hz. by rewrite decide_False by lia.
    + rewrite G, Hz. by rewrite decide_False by lia.
  - intros t Ht. unfold fl. rewrite G, Hz. rewrite decide_False; [done|]. intros [_ Hn]. by apply Hn, Hin.
  - intros l' Hl'. unfold fl. rewrite (kept_reduced (g0 l') v idx Hlv). rewrite Z.add_comm.
    apply Hk; [intros t Ht; f_equal; lia|]. intros p Hp Hn. rewrite Hl'.
    + rewrite G, decide_True by done. done.
    + intros t Ht ->. by apply Hn, Hin.
Qed.

End Reduce.

(** ** Edit scripts *)

Section Script.

Context {T : Type} (item : side → Z → T) (range : hunk).

(** Items [x], [x + 1], ... of the left side and [y], [y + 1], ... of the right
    side agree for [k] items. *)
Definition agree (x y k : Z) : Prop := ∀ t, 0 <= t < k → item DF_LEFT (x + t) = item DF_RIGHT (y + t).

(** From left item [x] and right item [y] to the end of the range: common items,
    then a hunk, and so on. *)
Fixpoint script (x y : Z) (hs : list hunk) : Prop :=
  match hs with
  | [] => DEND range DF_LEFT - x = DEND range DF_RIGHT - y ∧ 0 <= DEND range DF_LEFT - x ∧
          agree x y (DEND range DF_LEFT - x)
  | h :: hs =>
      x <= start_l h ∧ start_l h - x = start_r h - y ∧ agree x y (start_l h - x) ∧
      0 <= len_l h ∧ 0 <= len_r h ∧ 0 < len_l h + len_r h ∧
      script (DEND h DF_LEFT) (DEND h DF_RIGHT) hs
  end.

Lemma agree_cons x y k : item DF_LEFT x = item DF_RIGHT y → agree (x + 1) (y + 1) k → agree x y (k + 1).
Proof.
  intros H0 Ha t Ht. destruct (decide (t = 0)) as [->|]; [by rewrite !Z.add_0_r|].
  specialize (Ha (t - 1) ltac:(lia)). by replace (x + 1 + (t - 1)) with (x + t) in Ha by lia; replace (y + 1 + (t - 1)) with (y + t) in Ha by lia.
Qed.

(** One more common item in front. *)
Lemma script_cons x y hs : item DF_LEFT x = item DF_RIGHT y → script (x + 1) (y + 1) hs → script x y hs.
Proof.
  intros H0. destruct hs as [|h hs]; cbn [script].
  - intros (E & Hp & Ha). split_and!; [lia|lia|]. replace (DEND range DF_LEFT - x) with (DEND range DF_LEFT - (x + 1) + 1) by lia.
    by apply agree_cons.
  - intros (Hx & E & Ha & Hr). split_and!; [lia|lia| |apply Hr..].
    replace (start_l h - x) with (start_l h - (x + 1) + 1) by lia. by apply agree_cons.
Qed.

Context (ul ur : list Z) (n m : Z).

Hypothesis Hn : n = len_l range ∧ n = Z.of_nat (length ul).

Hypothesis Hm : m = len_r range ∧ m = Z.of_nat (length ur).

(** Equal codes are equal items. *)
Hypothesis Hcode : ∀ x y, 1 <= x <= n → 1 <= y <= m → g1 ul x = g1 ur y →
  item DF_LEFT (IDX range x DF_LEFT) = item DF_RIGHT (IDX range y DF_RIGHT).

Lemma ses_loop_ok cl cr : chg_ok n cl → chg_ok m cr → ∀ fuel x y,
  1 <= x <= n + 1 → 1 <= y <= m + 1 → (Z.to_nat ((n + 1 - x) + (m + 1 - y)) < fuel)%nat →
  kept (g1 ul) (g0 cl) x (n + 1) = kept (g1 ur) (g0 cr) y (m + 1) →
  ∃ hs, ses_loop fuel cl cr n m x y range = Some hs ∧
    script (IDX range x DF_LEFT) (IDX range y DF_RIGHT) hs.
Proof.
  intros Hcl Hcr fuel. pose proof (ck_len _ _ Hcl). pose proof (ck_len _ _ Hcr).
  destruct Hn as [Hn1 Hn2], Hm as [Hm1 Hm2].
  assert (IDXn : ∀ x s, IDX range (x + 1) s = IDX range x s + 1) by (intros; unfold IDX; lia).
  (* Both sides stand at an unmarked item, or at the end. *)
  assert (Hboth : ∀ x y (f : nat), 1 <= x <= n + 1 → 1 <= y <= m + 1 → g0 cl x = 0 → g0 cr y = 0 →
    kept (g1 ul) (g0 cl) x (n + 1) = kept (g1 ur) (g0 cr) y (m + 1) →
    (∀ x' y', 1 <= x' <= n + 1 → 1 <= y' <= m + 1 → (x' = x + 1 ∧ y' = y + 1 ∨ x = n + 1 ∧ y = m + 1 ∧ x' = x ∧ y' = y) →
      kept (g1 ul) (g0 cl) x' (n + 1) = kept (g1 ur) (g0 cr) y' (m + 1) →
      ∃ hs, ses_loop f cl cr n m x' y' range = Some hs ∧ script (IDX range x' DF_LEFT) (IDX range y' DF_RIGHT) hs) →
    ∃ hs, ses_loop f cl cr n m (if x <=? n then x + 1 else x) (if y <=? m then y + 1 else y) range = Some hs ∧
      script (IDX range x DF_LEFT) (IDX range y DF_RIGHT) hs).
  { intros x y f Hx Hy Hgx Hgy Hk Hrec. destruct (Z.leb_spec x n) as [Hxn|Hxn], (Z.leb_spec y m) as [Hym|Hym].
    - rewrite (kept_cons _ (g0 cl)), (kept_cons _ (g0 cr)), Hgx, Hgy in Hk by lia. cbn [Z.eqb app] in Hk.
      injection Hk as He Hk. destruct (Hrec (x + 1) (y + 1)) as (hs & -> & Hs); [lia|lia|lia|done|].
      exists hs. split; [done|]. rewrite !IDXn in Hs. apply script_cons; [|done]. apply Hcode; [lia|lia|done].
    - rewrite (kept_cons _ (g0 cl)), Hgx, (kept_nil _ (g0 cr)) in Hk by lia. done.
    - rewrite (kept_cons _ (g0 cr)), Hgy, (kept_nil _ (g0 cl)) in Hk by lia. done.
    - apply Hrec; [lia|lia|right; lia|done]. }
  induction fuel as [|fuel IH]; intros x y Hx Hy Hf Hk; [lia|]. cbn [ses_loop].
  destruct ((x <=? n) || (y <=? m)) eqn:Eor; last first.
  { apply orb_false_iff in Eor as [? ?]. boolify. exists []. split; [done|]. cbn [script]. unfold DEND, IDX.
    cbn [DSTART DLEN]. split_and!; [lia|lia|]. intros t Ht. lia. }
  assert (Hin : x <= n ∨ y <= m) by (apply orb_true_iff in Eor as [?|?]; boolify; lia).
  rewrite !get0_in by lia. destruct (negb (g0 cl x =? 0) || negb (g0 cr y =? 0)) eqn:Emark; last first.
  { apply orb_false_iff in Emark as [Ex Ey]. apply negb_false_iff in Ex, Ey. boolify.
    apply Hboth; try done. intros x' y' Hx' Hy' Hxy Hk'. apply IH; done || lia. }
  destruct (scan_ok n cl 1 Hcl (S (Z.to_nat (n + 1 - x))) x) as (x' & -> & Hxx & Hxo & Hox & Hsx); [lia|lia|].
  destruct (scan_ok m cr 1 Hcr (S (Z.to_nat (m + 1 - y))) y) as (y' & -> & Hyy & Hyo & Hoy & Hsy); [lia|lia|].
  assert (Hgx : g0 cl x' = 0) by (apply (stop_zero n); done || lia).
  assert (Hgy : g0 cr y' = 0) by (apply (stop_zero m); done || lia).
  assert (Hprog : x < x' ∨ y < y').
  { destruct (decide (x = x')) as [<-|], (decide (y = y')) as [<-|]; try lia. }
  assert (Hk' : kept (g1 ul) (g0 cl) x' (n + 1) = kept (g1 ur) (g0 cr) y' (m + 1)).
  { rewrite (kept_split _ (g0 cl) x x'), (kept_split _ (g0 cr) y y') in Hk by lia.
    rewrite (kept_ones _ (g0 cl) x x') in Hk by (intros t Ht; rewrite Hox by lia; done).
    by rewrite (kept_ones _ (g0 cr) y y') in Hk by (intros t Ht; rewrite Hoy by lia; done). }
  destruct (Hboth x' y' fuel ltac:(lia) ltac:(lia) Hgx Hgy Hk') as (hs & -> & Hs).
  { intros x'' y'' Hx'' Hy'' Hxy Hk''. apply IH; done || lia. }
  eexists. split; [done|]. cbn [script start_l start_r len_l len_r]. unfold DEND. cbn [DSTART DLEN start_l start_r len_l len_r].
  unfold IDX in *. cbn [DSTART] in *. split_and!; try lia; [intros t Ht; lia|].
  replace (x + (start_l range - 1) + (x' - x)) with (start_l range + x' - 1) by lia.
  by replace (y + (start_r range - 1) + (y' - y)) with (start_r range + y' - 1) by lia.
Qed.

End Script.

(** ** Hashing *)

(** [j] consecutive keys in a map. *)
Lemma keys_size {V} (M : gmap Z V) d j : (∀ t, 0 <= t < j → is_Some (M !! (d + t))) → j <= Z.of_nat (size M).
Proof.
  intros Hk. destruct (decide (j <= 0)); [lia|].
  assert (Hs : list_to_set (seqZ d j) ⊆ dom M).
  { intros k Hin. apply elem_of_list_to_set, elem_of_seqZ in Hin. apply elem_of_dom.
    specialize (Hk (k - d) ltac:(lia)). by replace (d + (k - d)) with k in Hk by lia. }
  apply subseteq_size in Hs. rewrite size_dom, size_list_to_set, length_seqZ in Hs by apply NoDup_seqZ. lia.
Qed.

Section HashOk.

Context {H : Type} {ops : HashOps Z thing H} {laws : HashLaws Z thing H} (hnew : H).

Hypothesis Hnew : hash_inv hnew ∧ hash_abs hnew = ∅.

Hypothesis Hkeys : ∀ k, 0 < k < 2 ^ 32 → hash_okkey k.

(** Things have one size. *)
Hypothesis Hfits : ∀ t t', hash_fits t t'.

Context {T : Type} (item : side → Z → T) (dcmp : Z → side → Z → side → Z) (dhash : Z → side → Z) (range : hunk).

Hypothesis Hcmp : ∀ i s j s', dcmp i s j s' = 0 → item s i = item s' j.

(** The table may grow to [len_l range + len_r range] things; probing does not
    run past the largest key. *)
Hypothesis Hlen : 0 <= len_l range ∧ 0 <= len_r range ∧ len_l range + len_r range < hash_max.

Hypothesis Hhash : ∀ i s, 0 <= dhash i s ∧ dhash i s + (len_l range + len_r range) + 2 < 2 ^ 32.

Definition itm (s : side) (i : Z) : T := item s (IDX range i s).

(** [k] is a code of item [i]. *)
Definition codes (M : gmap Z thing) (s : side) (i k : Z) : Prop :=
  ∃ t, M !! k = Some t ∧ itm s i = itm (t_side t) (t_idx t).

(** Things stay, but for their [both]. *)
Definition grows (M M' : gmap Z thing) : Prop :=
  ∀ k t, M !! k = Some t → ∃ t', M' !! k = Some t' ∧ t_idx t' = t_idx t ∧ t_side t' = t_side t.

Lemma grows_refl M : grows M M.
Proof. intros k t Ht. eauto. Qed.

Lemma grows_trans M1 M2 M3 : grows M1 M2 → grows M2 M3 → grows M1 M3.
Proof.
  intros H1 H2 k t Ht. destruct (H1 k t Ht) as (t1 & Ht1 & E1 & E2). destruct (H2 k t1 Ht1) as (t2 & Ht2 & E3 & E4).
  exists t2. split; [done|]. split; congruence.
Qed.

Lemma codes_grows M M' s i k : grows M M' → codes M s i k → codes M' s i k.
Proof.
  intros Hg (t & Ht & E). destruct (Hg k t Ht) as (t' & Ht' & E1 & E2). exists t'. split; [done|]. by rewrite E1, E2.
Qed.

Lemma codes_inj M s i s' j k : codes M s i k → codes M s' j k → itm s i = itm s' j.
Proof. intros (t & Ht & E) (t' & Ht' & E'). rewrite Ht in Ht'. simplify_eq. congruence. Qed.

Lemma grows_insert M k t : M !! k = None → grows M (<[k:=t]> M).
Proof.
  intros Hn k' t' Ht'. exists t'. split; [|done]. rewrite lookup_insert_ne; [done|]. congruence.
Qed.

Lemma hash_probe_ok fuel : ∀ dh0 j s i h,
  hash_inv h → (∀ t, 0 <= t < j → is_Some (hash_abs h !! (dh0 + t))) → 0 < dh0 → 0 <= j →
  dh0 + j + Z.of_nat fuel < 2 ^ 32 → Z.of_nat (size (hash_abs h)) < j + Z.of_nat fuel →
  Z.of_nat (size (hash_abs h)) < hash_max →
  ∃ h' k, hash_probe dcmp fuel range s i (dh0 + j) h = Some (h', k) ∧ hash_inv h' ∧ codes (hash_abs h') s i k ∧
    grows (hash_abs h) (hash_abs h') ∧ (size (hash_abs h') <= S (size (hash_abs h)))%nat.
Proof.
  induction fuel as [|fuel IH]; intros dh0 j s i h Hi Hj Hd Hj0 Hf Hsz Hmax.
  { pose proof (keys_size _ _ _ Hj). lia. }
  cbn [hash_probe].
  destruct (insert_law h (dh0 + j) (mkThing i s false) Hi (Hkeys (dh0 + j) ltac:(lia)) Hmax) as (h1 & -> & Hi1 & Ha1).
  destruct (hash_abs h !! (dh0 + j)) as [t|] eqn:E.
  - rewrite bool_decide_false by done. rewrite fetch_law by (done || apply Hkeys; lia). rewrite Ha1, E.
    destruct (Z.eqb_spec (cmpIt dcmp range i s (t_idx t) (t_side t)) 0) as [Ec|Ec].
    + assert (Hitm : itm s i = itm (t_side t) (t_idx t)) by (by apply Hcmp).
      case_bool_decide; cbn [negb].
      * exists h1, (dh0 + j). rewrite Ha1. split_and!; [done|done|by exists t|apply grows_refl|lia].
      * destruct (poke_law h1 (dh0 + j) (mkThing (t_idx t) (t_side t) true) t Hi1) as (h2 & -> & Hi2 & Ha2);
          [apply Hkeys; lia|by rewrite Ha1, E|apply Hfits|].
        exists h2, (dh0 + j). rewrite Ha2, Ha1. split_and!; [done|done| | |].
        -- exists (mkThing (t_idx t) (t_side t) true). rewrite lookup_insert_eq. done.
        -- intros k t' Ht'. destruct (decide (k = dh0 + j)) as [->|]; [|rewrite lookup_insert_ne by done; eauto].
           rewrite lookup_insert_eq. exists (mkThing (t_idx t) (t_side t) true). by simplify_eq.
        -- rewrite map_size_insert_Some by (rewrite E; eauto). lia.
    + rewrite u32_small by lia. replace (dh0 + j + 1) with (dh0 + (j + 1)) by lia.
      destruct (IH dh0 (j + 1) s i h1 Hi1) as (h2 & k & -> & Hi2 & Hc & Hg & Hs2); rewrite ?Ha1; try lia.
      * intros t' Ht'. destruct (decide (t' = j)) as [->|]; [rewrite E; eauto|]. apply Hj. lia.
      * rewrite Ha1 in *. exists h2, k. by split_and!.
  - rewrite bool_decide_true by done. exists h1, (dh0 + j). rewrite Ha1. split_and!; [done|done| | |].
    + exists (mkThing i s false). by rewrite lookup_insert_eq.
    + by apply grows_insert.
    + rewrite map_size_insert_None by done. lia.
Qed.

Lemma hashIt_pos i s : 0 < hashIt dhash range i s ∧ hashIt dhash range i s + (len_l range + len_r range) + 1 < 2 ^ 32.
Proof.
  unfold hashIt. destruct (Hhash (IDX range i s) s) as [H1 H2]. destruct (Z.eqb_spec (dhash (IDX range i s) s) 0); lia.
Qed.

Lemma hash_loop_ok n : ∀ s i h,
  hash_inv h → Z.of_nat (size (hash_abs h)) + Z.of_nat n <= len_l range + len_r range →
  ∃ h' l, hash_loop dcmp dhash n range s i h = Some (h', l) ∧ hash_inv h' ∧ length l = n ∧
    (∀ t, 0 <= t < Z.of_nat n → codes (hash_abs h') s (i + t) (g1 l (t + 1))) ∧
    grows (hash_abs h) (hash_abs h') ∧ (size (hash_abs h') <= size (hash_abs h) + n)%nat.
Proof.
  induction n as [|n IH]; intros s i h Hi Hsz; cbn [hash_loop].
  { exists h, []. split_and!; [done|done|done|intros; lia|apply grows_refl|lia]. }
  destruct (hashIt_pos i s) as [Hp1 Hp2].
  destruct (hash_probe_ok (S (Z.to_nat (len_l range + len_r range))) (hashIt dhash range i s) 0 s i h Hi)
    as (h1 & k & Hrun & Hi1 & Hc & Hg & Hs1); [intros; lia|done|lia|lia|lia|lia|].
  rewrite Z.add_0_r in Hrun. rewrite Hrun.
  destruct (IH s (i + 1) h1 Hi1 ltac:(lia)) as (h2 & l & -> & Hi2 & Hl & Hcs & Hg2 & Hs2).
  exists h2, (k :: l). split_and!; [done|done|cbn; congruence| |by eapply grows_trans|lia].
  intros t Ht. destruct (decide (t = 0)) as [->|].
  - rewrite Z.add_0_r. by eapply codes_grows.
  - specialize (Hcs (t - 1) ltac:(lia)). replace (i + 1 + (t - 1)) with (i + t) in Hcs by lia.
    rewrite g1_cons by lia. by replace (t - 1 + 1) with t in Hcs by lia.
Qed.

Lemma codes_key M s i k : codes M s i k → is_Some (M !! k).
Proof. intros (t & -> & _). eauto. Qed.

Lemma codes_list M s n l : length l = n → (∀ t, 0 <= t < Z.of_nat n → codes M s (1 + t) (g1 l (t + 1))) →
  ∀ x, x ∈ l → is_Some (M !! x).
Proof.
  intros Hl Hc x Hx. apply list_elem_of_lookup_1 in Hx as [p Hp]. pose proof (lookup_lt_Some _ _ _ Hp) as Hlt.
  specialize (Hc (Z.of_nat p) ltac:(lia)). apply codes_key in Hc. unfold g1, get1 in Hc.
  destruct (Z.leb_spec 1 (Z.of_nat p + 1)); [|lia]. replace (Z.to_nat (Z.of_nat p + 1 - 1)) with p in Hc by lia.
  by rewrite Hp in Hc.
Qed.

(** ** The whole *)

Hypothesis Hint : len_l range + len_r range < INT_MAX.

Lemma diff_items_ok dcost minimal :
  ∃ hs, diff_items hnew dcmp dhash dcost range minimal = Some hs ∧ script item range (start_l range) (start_r range) hs.
Proof.
  unfold diff_items. destruct ((len_l range =? 0) || (len_r range =? 0)) eqn:Eemp.
  { apply orb_true_iff in Eemp. eexists. split; [done|].
    destruct (Z.eqb_spec (len_l range) 0), (Z.eqb_spec (len_r range) 0); cbn [negb orb script]; unfold DEND; cbn [DSTART DLEN];
      split_and!; try lia; try (intros t Ht; lia). all: by destruct Eemp. }
  apply orb_false_iff in Eemp as [? ?]. boolify. destruct Hnew as [Hi0 Ha0].
  assert (Hs0 : size (hash_abs hnew) = 0%nat) by (rewrite Ha0; apply map_size_empty).
  unfold hashThings. cbn [DLEN].
  destruct (hash_loop_ok (Z.to_nat (len_l range)) DF_LEFT 1 hnew Hi0) as (h1 & ul & -> & Hi1 & Hul & Hcl & _ & Hs1); [lia|].
  destruct (hash_loop_ok (Z.to_nat (len_r range)) DF_RIGHT 1 h1 Hi1) as (h2 & ur & -> & Hi2 & Hur & Hcr & Hg2 & _); [lia|].
  assert (Hcl2 : ∀ t, 0 <= t < Z.of_nat (Z.to_nat (len_l range)) → codes (hash_abs h2) DF_LEFT (1 + t) (g1 ul (t + 1)))
    by (intros t Ht; by eapply codes_grows, Hcl).
  destruct (compress_ok h2 ul Hi2 (codes_list _ _ _ _ Hul Hcl2)) as (rl & il & cl & -> & Hill & Hrl & Hiok & Hclok & Hclz & Hkl).
  destruct (compress_ok h2 ur Hi2 (codes_list _ _ _ _ Hur Hcr)) as (rr & ir & cr & -> & Hirl & Hrr & Hrok & Hcrok & Hcrz & Hkr).
  destruct (idiff_ok rl rr il ir (Z.of_nat (length ul)) (Z.of_nat (length ur)) minimal
    (max_steps_of (Z.of_nat (length rl)) (Z.of_nat (length rr))) (conj Hiok Hill) (conj Hrok Hirl) ltac:(lia)
    (S (length rl + length rr)) 0 (Z.of_nat (length rl)) 0 (Z.of_nat (length rr)) (mkDs cl cr ∅ ∅))
    as (s & -> & [Hcl' Hol] & [Hcr' Hor] & Hk); [lia|lia|lia|lia|split_and!; done|lia|].
  rewrite !Z.add_0_l, <- (Hkl _ Hol), <- (Hkr _ Hor) in Hk.
  destruct (shrink_gaps_ok _ ul (chg_l s) eq_refl Hcl') as (cl1 & -> & Hcl1 & Hkl1).
  destruct (shrink_gaps_ok _ ur (chg_r s) eq_refl Hcr') as (cr1 & -> & Hcr1 & Hkr1).
  assert (Hses : ∀ c c', same_kept (Z.of_nat (length ul)) ul (chg_l s) c → same_kept (Z.of_nat (length ur)) ur (chg_r s) c' →
    ∃ hs, ses c c' range = Some hs ∧ script item range (start_l range) (start_r range) hs).
  { intros c c' [Hc Hkc] [Hc' Hkc']. unfold ses.
    destruct (ses_loop_ok item range ul ur (len_l range) (len_r range)) with (cl := c) (cr := c') (x := 1) (y := 1)
      (fuel := S (Z.to_nat (len_l range) + Z.to_nat (len_r range))) as (hs & Hrun & Hscr); try lia.
    - intros x y Hx Hy E. apply (codes_inj (hash_abs h2) _ _ _ _ (g1 ul x)).
      + specialize (Hcl2 (x - 1) ltac:(lia)). by replace (1 + (x - 1)) with x in Hcl2 by lia; replace (x - 1 + 1) with x in Hcl2 by lia.
      + rewrite E. specialize (Hcr (y - 1) ltac:(lia)). by replace (1 + (y - 1)) with y in Hcr by lia; replace (y - 1 + 1) with y in Hcr by lia.
    - by replace (len_l range) with (Z.of_nat (length ul)) by lia.
    - by replace (len_r range) with (Z.of_nat (length ur)) by lia.
    - replace (len_l range) with (Z.of_nat (length ul)) by lia. replace (len_r range) with (Z.of_nat (length ur)) by lia. congruence.
    - exists hs. split; [done|]. unfold IDX in Hscr. cbn [DSTART] in Hscr.
      by replace (start_l range + 1 - 1) with (start_l range) in Hscr by lia; replace (start_r range + 1 - 1) with (start_r range) in Hscr by lia. }
  destruct dcost as [f|]; [|by apply Hses].
  destruct (align_blocks_ok (costIt range f DF_LEFT) _ ul cl1 eq_refl Hcl1) as (cl2 & -> & Hcl3 & Hkl3).
  destruct (align_blocks_ok (costIt range f DF_RIGHT) _ ur cr1 eq_refl Hcr1) as (cr2 & -> & Hcr3 & Hkr3).
  apply Hses; split; done || congruence.
Qed.

End HashOk.

(** ** Property *)

(** Items that are numbers: the left and right sides of an example, base 1. *)
Definition ex_left : list Z := [10; 20; 30; 10; 20; 20; 10; 70].

Definition ex_right : list Z := [30; 20; 10; 50; 20; 10; 30; 70].

Definition ex_item (s : side) (i : Z) : option Z := get1 (match s with DF_LEFT => ex_left | DF_RIGHT => ex_right end) i.

Definition ex_cmp (i : Z) (s : side) (j : Z) (s' : side) : Z := if bool_decide (ex_item s i = ex_item s' j) then 0 else 1.

(** A hash with collisions. *)
Definition ex_hash (i : Z) (s : side) : Z := match ex_item s i with Some v => v mod 20 | None => 0 end.

(** C7. The difference engine.  For two sides of fewer than 2^28 items together, any
    comparison that returns 0 only on equal items, any hash of the items whose
    codes stay at least the number of items plus two below 2^32 ([diff_items_wrap]
    shows what happens to others), any cost function or none, and with or without
    the effort limit, [diff_items] with its u32 hash returns a list of hunks, and the hunks are an edit script: they are in order, none is empty, and
    between two hunks, before the first and after the last, the two sides have
    the same items.  No loop runs forever, no array is accessed outside its bounds
    and no assert fails. *)
Theorem diff_items_correct {T} (HASH : Z → Z) (item : side → Z → T) dcmp dhash dcost range minimal :
  (∀ i s j s', dcmp i s j s' = 0 → item s i = item s' j) →
  0 <= len_l range → 0 <= len_r range → len_l range + len_r range < 2 ^ 28 →
  (∀ i s, 0 <= dhash i s ∧ dhash i s + (len_l range + len_r range) + 2 < 2 ^ 32) →
  ∃ hs, diff_items (ops := u32hash_ops true HASH (mkThing 0 DF_LEFT false)) (u32hash_new true (mkThing 0 DF_LEFT false))
          dcmp dhash dcost range minimal = Some hs ∧
    script item range (start_l range) (start_r range) hs.
Proof.
  intros Hc Hl Hr Hlen Hh. destruct (u32_new_inv true HASH (mkThing 0 DF_LEFT false)) as [Hi Ha].
  apply (diff_items_ok (laws := u32hash_laws true HASH (mkThing 0 DF_LEFT false)) _ (conj Hi Ha)
    (λ k Hk, ltac:(cbn; lia)) (λ _ _, I) item dcmp dhash range Hc); [cbn; unfold u32_max; lia|done|unfold INT_MAX; lia].
Qed.

Lemma diff_items_correct_witness :
  let range := mkHunk 1 1 8 8 in
  let run := diff_items (ops := u32hash_ops true (λ k, k * 7) (mkThing 0 DF_LEFT false))
               (u32hash_new true (mkThing 0 DF_LEFT false)) ex_cmp ex_hash None range true in
  run = Some [mkHunk 1 1 1 1; mkHunk 3 3 1 0; mkHunk 5 4 0 1; mkHunk 6 6 1 0; mkHunk 8 7 0 1] ∧
  ∃ hs, run = Some hs ∧ script ex_item range 1 1 hs.
Proof.
  split; [vm_compute; reflexivity|].
  apply (diff_items_correct (λ k, k * 7) ex_item ex_cmp ex_hash None (mkHunk 1 1 8 8) true); cbn; try lia.
  - intros i s j s'. unfold ex_cmp. case_bool_decide; done.
  - intros i s. unfold ex_hash. destruct (ex_item s i) as [v|]; [|lia]. pose proof (Z.mod_pos_bound v 20). lia.
Defined.

(** Why the hashes must stay away from the largest code: two different items
    whose hash is 0xffffffff make the probe wrap around to the code 0, which the
    u32 hash refuses with an assert. *)
Example diff_items_wrap :
  diff_items (ops := u32hash_ops true (λ k, k) (mkThing 0 DF_LEFT false)) (u32hash_new true (mkThing 0 DF_LEFT false))
    ex_cmp (λ _ _, 2 ^ 32 - 1) None (mkHunk 1 1 2 1) false = None.
Proof. vm_compute. reflexivity. Qed.
