(* ===== verification/NDiff.v ===== *)
(** * NDiff: comparing files

    The users of the difference engine: the comparison, hash and cost functions of
    src/src/libdiff.c, and src/src/ndiff.c, which cuts two files into lines,
    compares them and prints the hunks in one of several formats.

    A file is its bytes, the output is the bytes written.  [None] is a failed
    assert or a read outside an array. *)

From S2P Require Import Prelude CStr Crc HashIface U32Hash Diff.
From stdpp Require Import base numbers list gmap strings.
From Stdlib Require Import ZArith Lia.

Local Open Scope Z_scope.

Local Open Scope bk_scope.

(** ** Lines *)

(** [fop->lines]: the lines of both files with their newlines. *)
Record flines := mkFlines { lines_l : list cstr; lines_r : list cstr }.

Definition lines_of (fl : flines) (s : side) : list cstr :=
  match s with DF_LEFT => lines_l fl | DF_RIGHT => lines_r fl end.

Definition getData (fl : flines) (idx : Z) (s : side) : option cstr := get1 (lines_of fl s) idx.

(** The data of an item for the functions the engine calls, which only ask for
    items of the range. *)
Definition item_data (fl : flines) (idx : Z) (s : side) : cstr := default [] (getData fl idx s).

(** ** Comparing *)

Section Compare.

Context (data : Z → side → cstr).

(** [memcmp] of two blocks of the same length: 0 or not. *)
Definition diff_cmpLine (ia : Z) (sa : side) (ib : Z) (sb : side) : Z :=
  let a := data ia sa in
  let b := data ib sb in
  if negb (length a =? length b)%nat then Z.of_nat (length a) - Z.of_nat (length b) else strcmp a b.

(** [while ((i < lena) && (j < lenb)) { unless (a[i] == b[j]) break; i++, j++; }]
    on what is left of both. *)
Fixpoint skip_same (a b : cstr) : cstr * cstr :=
  match a, b with
  | x :: a', y :: b' => if x =? y then skip_same a' b' else (a, b)
  | _, _ => (a, b)
  end.

(** The [for (;;)] of [diff_cmpIgnoreWS]. *)
Fixpoint ws_loop (fuel : nat) (a b : cstr) : cstr * cstr :=
  match fuel with
  | O => (a, b)
  | S fuel =>
      let '(a, b) := skip_same a b in
      let a := skip_space a in
      let b := skip_space b in
      match a, b with
      | x :: a', y :: b' => if x =? y then ws_loop fuel a' b' else (a, b)
      | _, _ => (a, b)
      end
  end.

Definition both_done (r : cstr * cstr) : Z := match r with ([], []) => 0 | _ => 1 end.

Definition diff_cmpIgnoreWS (ia : Z) (sa : side) (ib : Z) (sb : side) : Z :=
  let a := data ia sa in
  let b := data ib sb in
  both_done (ws_loop (S (length a)) a b).

(** The [for (;;)] of [diff_cmpIgnoreWSChg].  The second test looks at [a[j-1]]. *)
Fixpoint wschg_loop (fuel : nat) (fa fb : cstr) (i j : nat) : nat * nat :=
  match fuel with
  | O => (i, j)
  | S fuel =>
      let '(ra, rb) := skip_same (drop i fa) (drop j fb) in
      let i := (length fa - length ra)%nat in
      let j := (length fb - length rb)%nat in
      let sa := match ra with c :: _ => isspace c | [] => false end in
      let sb := match rb with c :: _ => isspace c | [] => false end in
      if negb (sa || sb) then (i, j) else
      let prev (l : cstr) (k : nat) := match l !! (k - 1)%nat with Some c => isspace c | None => false end in
      if negb (sa && sb) && ((sa && ((i =? 0)%nat || negb (prev fa i))) || (sb && ((j =? 0)%nat || negb (prev fa j))))
      then (i, j) else
      let ra := skip_space ra in
      let rb := skip_space rb in
      let i := (length fa - length ra)%nat in
      let j := (length fb - length rb)%nat in
      match ra, rb with
      | x :: _, y :: _ => if x =? y then wschg_loop fuel fa fb (S i) (S j) else (i, j)
      | _, _ => (i, j)
      end
  end.

Definition diff_cmpIgnoreWSChg (ia : Z) (sa : side) (ib : Z) (sb : side) : Z :=
  let a := data ia sa in
  let b := data ib sb in
  let '(i, j) := wschg_loop (S (length a)) a b 0 0 in
  if (i =? length a)%nat && (j =? length b)%nat then 0 else 1.

(** ** Hashing *)

Context (crc32c : Z → cstr → Z).

Definition diff_hashLine (i : Z) (s : side) : Z := crc32c 0 (data i s).

Definition MAXLINE : nat := 2048.

(** [copy[j++] = c], flushed when full. *)
Definition copy_put (c : Z) (st : Z * cstr) : Z * cstr :=
  let '(ret, copy) := st in
  let copy := copy ++ [c] in
  if (MAXLINE <=? length copy)%nat then (crc32c ret copy, []) else (ret, copy).

Definition copy_end (st : Z * cstr) : Z :=
  let '(ret, copy) := st in match copy with [] => ret | _ => crc32c ret copy end.

Fixpoint hashWS_loop (a : cstr) (st : Z * cstr) : Z * cstr :=
  match a with
  | [] => st
  | c :: a => hashWS_loop a (if isspace c then st else copy_put c st)
  end.

Definition diff_hashIgnoreWS (i : Z) (s : side) : Z := copy_end (hashWS_loop (data i s) (0, [])).

(** A run of white space counts as one blank. *)
Fixpoint hashWSChg_loop (a : cstr) (in_space : bool) (st : Z * cstr) : Z * cstr :=
  match a with
  | [] => st
  | c :: a =>
      if isspace c then hashWSChg_loop a true (if in_space then st else copy_put 32 st)
      else hashWSChg_loop a false (copy_put c st)
  end.

Definition diff_hashIgnoreWSChg (i : Z) (s : side) : Z := copy_end (hashWSChg_loop (data i s) false (0, [])).

(** ** Costs *)

Definition is_blank (c : Z) : bool := (c =? 32) || (c =? 9).

Fixpoint skip_blanks (s : cstr) : cstr :=
  match s with c :: s' => if is_blank c then skip_blanks s' else s | [] => [] end.

Definition pos_cost (st en mi : Z) (pos : dpos) : Z :=
  match pos with DF_START => st | DF_END => en | DF_MIDDLE => mi end.

(** The patterns after the empty line and their costs. *)
Definition cost_menu : list (cstr * (Z * Z * Z)) :=
  [(s2b "/*"%string, (1, 2, 3)); (s2b "*/"%string, (2, 1, 3)); (s2b "{"%string, (1, 2, 3)); (s2b "}"%string, (2, 1, 3))].

Fixpoint menu_loop (menu : list (cstr * (Z * Z * Z))) (s : cstr) (pos : dpos) : Z * cstr :=
  match menu with
  | [] => (0, s)
  | (pat, (x, y, z)) :: menu =>
      if bool_decide (take (length pat) s = pat) then (pos_cost x y z pos, drop (length pat) s) else menu_loop menu s pos
  end.

Definition diff_cost (i : Z) (s : side) (pos : dpos) : Z :=
  let line := data i s in
  let line := match last line with Some 10 => take (length line - 1) line | _ => line end in
  match skip_blanks line with
  | [] => pos_cost 2 1 3 pos
  | rest =>
      let '(cost, rest) := menu_loop cost_menu rest pos in
      if negb (cost =? 0) && match skip_blanks rest with [] => true | _ => false end then cost else 0
  end.

End Compare.

(** ** Aligning changed lines *)

(** Which lines of a hunk are printed on one line. *)
Inductive acmd := A_LEFT | A_RIGHT | A_BOTH.

#[global] Instance acmd_eq_dec : EqDecision acmd.
Proof. solve_decision. Defined.

Section Align.

(** [lcs(strA, lenA, strB, lenB)] for line [i] of the left and [j] of the right
    side of the hunk, and the price of a gap. *)
Context (lcs : Z → Z → Z) (diffgap : Z).

(** A row of [F], given the row above and [F[i][j-1]]; the scores are [int]s. *)
Fixpoint F_row (i j : Z) (above : list Z) (left : Z) : option (list Z) :=
  match above with
  | diag :: ((up :: _) as rest) =>
      let? match_ := sint (diag + lcs i j) in
      let? delete := sint (up + diffgap) in
      let? insert := sint (left + diffgap) in
      let v := Z.max match_ (Z.max delete insert) in
      let? row := F_row i (j + 1) rest v in
      Some (v :: row)
  | _ => Some []
  end.

(** Rows [i], [i + 1], ...: [n] of them. *)
Fixpoint F_rows (n : nat) (i : Z) (above : list Z) : option (list (list Z)) :=
  match n with
  | O => Some []
  | S n =>
      let? F_i_0 := sint (diffgap * i) in
      let? row := F_row i 1 above F_i_0 in
      let? rows := F_rows n (i + 1) (F_i_0 :: row) in
      Some ((F_i_0 :: row) :: rows)
  end.

Definition F_matrix (n m : nat) : option (list (list Z)) :=
  let? first := mapM (λ j, sint (diffgap * j)) (seqZ 0 (Z.of_nat m + 1)) in
  let? rows := F_rows n 1 first in
  Some (first :: rows).

Definition F_at (F : list (list Z)) (i j : Z) : option Z := let? r := get0 F i in get0 r j.

(** The walk back from [i], [j]: the commands from index [k + 1] of [algnA] and
    [algnB] on. *)
Fixpoint walk_back (fuel : nat) (F : list (list Z)) (i j k : Z) (acc : list acmd) : option (list acmd) :=
  match fuel with
  | O => None
  | S fuel =>
      if (0 <? i) && (0 <? j) then
        let? score := F_at F i j in
        let? scoreDiag := F_at F (i - 1) (j - 1) in
        let? scoreUp := F_at F i (j - 1) in
        let? scoreLeft := F_at F (i - 1) j in
        assert! 0 <? k;
        let? viaUp := sint (scoreUp + diffgap) in
        if score =? viaUp then walk_back fuel F i (j - 1) (k - 1) (A_RIGHT :: acc) else
        let? viaLeft := sint (scoreLeft + diffgap) in
        if score =? viaLeft then walk_back fuel F (i - 1) j (k - 1) (A_LEFT :: acc) else
        let? viaDiag := sint (scoreDiag + lcs i j) in
        if score =? viaDiag then walk_back fuel F (i - 1) (j - 1) (k - 1) (A_BOTH :: acc)
        else walk_back fuel F i j k acc
      else
        assert! i + j <=? k;
        Some (replicate (Z.to_nat j) A_RIGHT ++ replicate (Z.to_nat i) A_LEFT ++ acc)
  end.

(** [n * m] and the size [n + m + 1] must fit an [int]. *)
Definition diff_alignMods (h : hunk) : option (list acmd) :=
  let n := len_l h in
  let m := len_r h in
  assert! n * m <? 2 ^ 31;
  if 100000 <? n * m then
    let k := Z.to_nat (Z.min n m) in
    Some (replicate k A_BOTH ++ replicate (Z.to_nat n - k) A_LEFT ++ replicate (Z.to_nat m - k) A_RIGHT)
  else
    assert! n + m <? INT_MAX;
    let? F := F_matrix (Z.to_nat n) (Z.to_nat m) in
    walk_back (S (Z.to_nat n + Z.to_nat m)) F n m (n + m) [].

End Align.

(** A line for [lcs] is what follows it in memory too: it reads [a[1]] to
    [a[alen]]. *)
Fixpoint lcs_row (b : cstr) (x : Z) (above : list Z) (left : Z) : list Z :=
  match b, above with
  | y :: b, diag :: ((up :: _) as rest) =>
      let v := if x =? y then diag + 1 else Z.max left up in
      v :: lcs_row b x rest v
  | _, _ => []
  end.

Fixpoint lcs_rows (a b : cstr) (above : list Z) : Z :=
  match a with
  | [] => default 0 (last above)
  | x :: a => lcs_rows a b (0 :: lcs_row b x above 0)
  end.

(** [mem_a] and [mem_b] are the bytes from the starts of the lines on. *)
Definition lcs (mem_a : cstr) (alen : nat) (mem_b : cstr) (blen : nat) : option Z :=
  if (0 <? alen)%nat && (0 <? blen)%nat then
    assert! (alen <? length mem_a)%nat && (blen <? length mem_b)%nat;
    let a := take alen (drop 1 mem_a) in
    let b := take blen (drop 1 mem_b) in
    Some (lcs_rows a b (replicate (S blen) 0))
  else Some 0.

(** ** Common lines *)

Definition diff_mkCommon (range : hunk) (from to : option hunk) : option hunk :=
  let st s := match from with Some h => DEND h s | None => DSTART range s end in
  let en s := match to with Some h => DSTART h s | None => DEND range s end in
  let out := mkHunk (st DF_LEFT) (st DF_RIGHT) (en DF_LEFT - st DF_LEFT) (en DF_RIGHT - st DF_RIGHT) in
  assert! len_l out =? len_r out;
  Some out.

(** ** Printing *)

Section Print.

Context (fl : flines).

Definition str (s : String.string) : cstr := s2b s.

Definition NL : cstr := [10].

Inductive nlflag := PRN_NONE | PRN_ADD_NL | PRN_WARN_NL.

(** One line of [printHunk]. *)
Definition print_line (prefix : cstr) (nl : nlflag) (p : cstr) : cstr :=
  prefix ++ p ++
  (match nl with
   | PRN_NONE => []
   | _ =>
       if bool_decide (last p = Some 10) then []
       else NL ++ match nl with PRN_WARN_NL => str "\ No newline at end of file"%string ++ NL | _ => [] end
   end).

(** [DFOREACH(h, side, j)]: [n] lines from [j]. *)
Fixpoint print_lines (n : nat) (prefix : cstr) (s : side) (nl : nlflag) (j : Z) : option cstr :=
  match n with
  | O => Some []
  | S n =>
      let? p := getData fl j s in
      let? rest := print_lines n prefix s nl (j + 1) in
      Some (print_line prefix nl p ++ rest)
  end.

Definition printHunk (prefix : cstr) (h : hunk) (s : side) (nl : nlflag) : option cstr :=
  print_lines (Z.to_nat (DLEN h s)) prefix s nl (DSTART h s).

(** [EACHP(hunks, h)] with output [f h]. *)
Fixpoint each_hunk (f : hunk → option cstr) (hs : list hunk) : option cstr :=
  match hs with
  | [] => Some []
  | h :: hs => let? a := f h in let? b := each_hunk f hs in Some (a ++ b)
  end.

Definition DAFTER (h : hunk) (s : side) : Z := DSTART h s - (if DLEN h s =? 0 then 1 else 0).

Definition printRCS (hs : list hunk) : option cstr :=
  each_hunk (λ h,
    let left := DLEN h DF_LEFT in
    let right := DLEN h DF_RIGHT in
    let del := if negb (left =? 0) then str "d"%string ++ printf_d (DSTART h DF_LEFT) ++ str " "%string ++ printf_d left ++ NL else [] in
    if negb (right =? 0) then
      let? body := printHunk [] h DF_RIGHT PRN_NONE in
      Some (del ++ str "a"%string ++ printf_d (DLAST h DF_LEFT) ++ str " "%string ++ printf_d right ++ NL ++ body)
    else Some del) hs.

Definition printStd (hs : list hunk) : option cstr :=
  each_hunk (λ h,
    let left := DLEN h DF_LEFT in
    let right := DLEN h DF_RIGHT in
    let? l := printHunk (str "< "%string) h DF_LEFT PRN_WARN_NL in
    let? r := printHunk (str "> "%string) h DF_RIGHT PRN_WARN_NL in
    Some (printf_d (DAFTER h DF_LEFT) ++ (if 1 <? left then str ","%string ++ printf_d (DLAST h DF_LEFT) else []) ++
          (if negb (left =? 0) && negb (right =? 0) then str "c"%string
           else if negb (left =? 0) then str "d"%string else if negb (right =? 0) then str "a"%string else []) ++
          printf_d (DAFTER h DF_RIGHT) ++ (if 1 <? right then str ","%string ++ printf_d (DLAST h DF_RIGHT) else []) ++ NL ++
          l ++ (if negb (left =? 0) && negb (right =? 0) then str "---"%string ++ NL else []) ++ r)) hs.

(** Common lines, a hunk, and so on: the loop of [printUBlock], [printIfDef] and
    [printSdiff] over [from]. *)
Fixpoint with_common (common change : hunk → option cstr) (range : hunk) (from : option hunk) (hs : list hunk) : option cstr :=
  match hs with
  | [] => let? c := diff_mkCommon range from None in common c
  | h :: hs =>
      let? c := diff_mkCommon range from (Some h) in
      let? a := common c in
      let? b := change h in
      let? r := with_common common change range (Some h) hs in
      Some (a ++ b ++ r)
  end.

Definition printIfDef (hs : list hunk) (range : hunk) (defstr : cstr) : option cstr :=
  with_common (λ c, printHunk [] c DF_LEFT PRN_ADD_NL)
    (λ h,
       let left := negb (DLEN h DF_LEFT =? 0) in
       let right := negb (DLEN h DF_RIGHT =? 0) in
       let? l := printHunk [] h DF_LEFT PRN_ADD_NL in
       let? r := printHunk [] h DF_RIGHT PRN_ADD_NL in
       Some ((if left then str "#ifndef "%string ++ defstr ++ NL ++ l else []) ++
             (if right then
                (if left then str "#else /* "%string ++ defstr ++ str " */"%string ++ NL
                 else str "#ifdef "%string ++ defstr ++ NL) ++ r ++ str "#endif /* "%string ++ defstr ++ str " */"%string ++ NL
              else if left then str "#endif /* ! "%string ++ defstr ++ str " */"%string ++ NL else [])))
    range None hs.

(** The function headers found in the left file, for [diff -p]: line number and
    text. *)
Context (fn_defs : list (Z * cstr)) (context : Z).

Definition fn_header (idx : Z) : cstr :=
  match filter (λ d, d.1 < idx) (reverse fn_defs) with
  | (_, p) :: _ => str " "%string ++ take 40 p
  | [] => []
  end.

Definition ublock_bounds (first last range : hunk) : hunk :=
  let lo s := Z.max (DSTART first s - context) (DSTART range s) in
  let hi s := Z.min (DEND last s + context) (DEND range s) in
  mkHunk (lo DF_LEFT) (lo DF_RIGHT) (hi DF_LEFT - lo DF_LEFT) (hi DF_RIGHT - lo DF_RIGHT).

Definition printUBlock (hs : list hunk) (range : hunk) : option cstr :=
  match hs, last hs with
  | first :: _, Some lst =>
      let range := ublock_bounds first lst range in
      let count n := if n =? 1 then [] else str ","%string ++ printf_d n in
      let? body := with_common (λ c, printHunk (str " "%string) c DF_LEFT PRN_WARN_NL)
        (λ h,
           let? l := printHunk (str "-"%string) h DF_LEFT PRN_WARN_NL in
           let? r := printHunk (str "+"%string) h DF_RIGHT PRN_WARN_NL in
           Some (l ++ r)) range None hs in
      Some (str "@@ -"%string ++ printf_d (DAFTER range DF_LEFT) ++ count (len_l range) ++
            str " +"%string ++ printf_d (DAFTER range DF_RIGHT) ++ count (len_r range) ++ str " @@"%string ++
            fn_header (start_l first) ++ NL ++ body)
  | _, _ => None
  end.

(** [set]: the hunks of the block being collected. *)
Fixpoint unified_loop (hs : list hunk) (range : hunk) (startCommon : Z) (set : list hunk) : option cstr :=
  match hs with
  | [] => match set with [] => Some [] | _ => printUBlock set range end
  | h :: hs =>
      let endCommon := DSTART h DF_LEFT - context in
      let startCommon' := DEND h DF_LEFT + context in
      if (1 <? endCommon - startCommon) && negb (bool_decide (set = [])) then
        let? a := printUBlock set range in
        let? b := unified_loop hs range startCommon' [h] in
        Some (a ++ b)
      else unified_loop hs range startCommon' (set ++ [h])
  end.

Definition printUnified (hs : list hunk) (range : hunk) : option cstr := unified_loop hs range (DSTART range DF_LEFT) [].

End Print.

(** ** Side by side *)

(** The bytes up to column [n], a tab going to the next multiple of eight, and
    the column reached. *)
Fixpoint print_cols (l : cstr) (n j : Z) : cstr * Z :=
  match l with
  | c :: l =>
      if j <? n then
        let '(out, j') := print_cols l n ((if c =? 9 then j + (7 - j mod 8) else j) + 1) in (c :: out, j')
      else ([], j)
  | [] => ([], j)
  end.

Definition chop_nl (l : cstr) : cstr := match last l with Some 10 => take (length l - 1) l | _ => l end.

(** [%-*s] of the empty string: a negative width is a width. *)
Definition pad (n : Z) : cstr := replicate (Z.to_nat (Z.abs n)) 32.

(** [same]: both sides are the same line. *)
Definition printLines (left right : option cstr) (same : bool) (out_sdiff : Z) : cstr :=
  let sep := match left, right with
             | Some _, Some _ => if same then 32 else 124
             | Some _, None => 60
             | None, _ => 62
             end in
  let n := out_sdiff in
  if n <=? 1 then [sep; 10]
  else if (n =? 2) || (n =? 3) then [32; sep] ++ (if n =? 3 then [32] else []) ++ [10]
  else
    let n := (n - 3) / 2 in
    let l := match left with
             | Some l => let '(out, j) := print_cols (chop_nl l) n 0 in out ++ pad (n - j)
             | None => pad n
             end in
    l ++ [32; sep; 32] ++ match right with Some r => upto_nul (chop_nl r) | None => [] end ++ [10].

Section Sdiff.

Context (fl : flines) (align : hunk → option (list acmd)) (out_sdiff : Z).

Fixpoint sdiff_common (n : nat) (j : Z) : option cstr :=
  match n with
  | O => Some []
  | S n =>
      let? p := getData fl j DF_LEFT in
      let? r := sdiff_common n (j + 1) in
      Some (printLines (Some p) (Some p) true out_sdiff ++ r)
  end.

(** [EACH(plist)]; [hc] is consumed. *)
Fixpoint sdiff_plist (plist : list acmd) (hc : hunk) : option (cstr * hunk) :=
  match plist with
  | [] => Some ([], hc)
  | cmd :: plist =>
      let? (a, hc) :=
        (if bool_decide (cmd = A_RIGHT) then Some (None, hc) else
         let? p := getData fl (start_l hc) DF_LEFT in
         assert! negb (len_l hc =? 0);
         Some (Some p, mkHunk (start_l hc + 1) (start_r hc) (len_l hc - 1) (len_r hc))) in
      let? (b, hc) :=
        (if bool_decide (cmd = A_LEFT) then Some (None, hc) else
         let? p := getData fl (start_r hc) DF_RIGHT in
         assert! negb (len_r hc =? 0);
         Some (Some p, mkHunk (start_l hc) (start_r hc + 1) (len_l hc) (len_r hc - 1))) in
      let? (r, hc) := sdiff_plist plist hc in
      Some (printLines a b false out_sdiff ++ r, hc)
  end.

Definition printSdiff (hs : list hunk) (range : hunk) : option cstr :=
  with_common (λ c, sdiff_common (Z.to_nat (len_l c)) (start_l c))
    (λ h,
       let? plist := align h in
       let? (out, hc) := sdiff_plist plist h in
       assert! (len_l hc =? 0) && (len_r hc =? 0);
       Some out) range None hs.

End Sdiff.

(** ** Files *)

(** [while ((e > s) && ( *(e-1) == CR)) e--;] *)
Definition strip_cr (s : cstr) : cstr := strip_back (λ c, c =? 13) s.

(** The lines of a file, [cur] is the line so far. *)
Fixpoint split_loop (strip : bool) (data cur : cstr) : list cstr * cstr :=
  match data with
  | [] => ([], cur)
  | c :: data =>
      if c =? 10 then
        let '(ls, last) := split_loop strip data [] in
        (((if strip then strip_cr cur else cur) ++ NL) :: ls, last)
      else split_loop strip data (cur ++ [c])
  end.

Definition split_lines (strip ignore_cr : bool) (data : cstr) : list cstr :=
  let '(ls, lst) := split_loop strip data [] in
  match lst with
  | [] => ls
  | _ => ls ++ [if ignore_cr && bool_decide (last lst = Some 13) then strip_cr lst ++ NL else lst]
  end.

(** The options of [df_opt] that are looked at here; [pattern] is the compiled
    regular expression. *)
Record df_opt := mkOpt {
  o_ignore_all_ws : bool; o_ignore_ws_chg : bool; o_always_text : bool; o_minimal : bool;
  o_ignore_trailing_cr : bool; o_strip_trailing_cr : bool;
  o_unified : bool; o_rcs : bool; o_print_hunks : bool; o_quiet : bool;
  o_define : option cstr; o_sdiff : Z; o_context : Z; o_header : cstr;
  o_pattern : option (cstr → bool); o_diffstat : bool
}.

(** [diff_cleanOpts]: the options that change, [None] for conflicting styles.
    The default pattern of [diff -p] is part of [o_pattern]. *)
Definition diff_cleanOpts (o : df_opt) : option (bool * Z) :=
  let n b := if (b : bool) then 1 else 0 in
  if 1 <? n (o_unified o) + n (match o_define o with Some _ => true | None => false end) + n (o_rcs o) +
          n (negb (o_sdiff o =? 0)) + n (o_print_hunks o) then None
  else Some (o_ignore_trailing_cr o || o_strip_trailing_cr o,
             if o_context o =? 0 then 3 else Z.max 0 (o_context o)).

(** [chomp]: trailing newlines and carriage returns removed. *)
Definition chomp (s : cstr) : cstr := strip_back (λ c, (c =? 10) || (c =? 13)) s.

(** [trim]: white space at both ends removed. *)
Definition trim (s : cstr) : cstr := strip_back isspace (strip_front isspace s).

(** The function headers of the left file. *)
Fixpoint fn_defs_of (re : cstr → bool) (ls : list cstr) (lno : Z) : list (Z * cstr) :=
  match ls with
  | [] => []
  | l :: ls =>
      let rest := fn_defs_of re ls (lno + 1) in
      if bool_decide (last l = Some 10) && re l then (lno, trim (chomp (upto_nul l))) :: rest else rest
  end.

Section Mem.

Context (crc32c : Z → cstr → Z) (HASH : Z → Z) (lcs_at : flines → Z → Z → hunk → Z) (diffgap : Z).

Abbreviation thing0 := (mkThing 0 DF_LEFT false).

Definition print_hunk_line (h : hunk) : option cstr :=
  Some (printf_d (start_l h) ++ str ","%string ++ printf_d (len_l h) ++ str " "%string ++
        printf_d (start_r h) ++ str ","%string ++ printf_d (len_r h) ++ NL).

(** [adds], [dels] and [mods] of [out_diffstat]. *)
Fixpoint diffstat (hs : list hunk) (adds dels mods : Z) : Z * Z * Z :=
  match hs with
  | [] => (adds, dels, mods)
  | h :: hs =>
      if DLEN h DF_LEFT =? DLEN h DF_RIGHT then diffstat hs adds dels (mods + DLEN h DF_LEFT)
      else diffstat hs (adds + DLEN h DF_RIGHT) (dels + DLEN h DF_LEFT) mods
  end.

(** The return value, the output, [bin_files], and the counts when they are
    computed. *)
Record dm_result := mkDm { dm_rc : Z; dm_out : cstr; dm_bin : bool; dm_stat : option (Z * Z * Z) }.

(** [fout]: there is an output file. *)
Definition diff_mem (o : df_opt) (left right : cstr) (fout : bool) : option dm_result :=
  match diff_cleanOpts o with
  | None => Some (mkDm 2 [] false None)
  | Some (strip, context) =>
      let printAll := match o_define o with Some _ => true | None => false end || negb (o_sdiff o =? 0) in
      if negb printAll && bool_decide (left = right) then Some (mkDm 0 [] false None) else
      let nul (d : cstr) := existsb (Z.eqb 0) d && negb (o_always_text o) in
      if nul left || nul right then Some (mkDm 1 [] true None) else
      let fl := mkFlines (split_lines strip (o_ignore_trailing_cr o) left) (split_lines strip (o_ignore_trailing_cr o) right) in
      let range := mkHunk 1 1 (Z.of_nat (length (lines_l fl))) (Z.of_nat (length (lines_r fl))) in
      let data := item_data fl in
      let '(dcmp, dhash) :=
        if o_ignore_all_ws o then (diff_cmpIgnoreWS data, diff_hashIgnoreWS data crc32c)
        else if o_ignore_ws_chg o then (diff_cmpIgnoreWSChg data, diff_hashIgnoreWSChg data crc32c)
        else (diff_cmpLine data, diff_hashLine data crc32c) in
      let fn_defs := match o_pattern o with Some re => fn_defs_of re (lines_l fl) 1 | None => [] end in
      let? hs := diff_items (ops := u32hash_ops true HASH thing0) (u32hash_new true thing0) dcmp dhash
                   (Some (diff_cost data)) range (o_minimal o) in
      let rc := if bool_decide (hs = []) then 0 else 1 in
      if negb fout || ((rc =? 0) && negb printAll) then Some (mkDm rc [] false None) else
      let? out :=
        (if o_unified o then printUnified fl fn_defs context hs range
         else if o_rcs o then printRCS fl hs
         else match o_define o with
              | Some d => printIfDef fl hs range d
              | None =>
                  if negb (o_sdiff o =? 0) then
                    printSdiff fl (λ h, diff_alignMods (λ i j, lcs_at fl i j h) diffgap h) (o_sdiff o) hs range
                  else if o_print_hunks o then each_hunk print_hunk_line hs
                  else if negb (o_quiet o) then printStd fl hs else Some []
              end) in
      Some (mkDm rc (o_header o ++ out) false (if o_diffstat o then Some (diffstat hs 0 0 0) else None))
  end.

(** The comparison part of [diff_files] on the contents of two files that can
    be read: [same] when both names are one file; [names] for the message on
    binary files.  The return code and the output. *)
Definition diff_files (o : df_opt) (same : bool) (names : cstr * cstr) (left right : cstr) (fout : bool) : option (Z * cstr) :=
  let printAll := match o_define o with Some _ => true | None => false end || negb (o_sdiff o =? 0) in
  if negb printAll && same then Some (0, []) else
  let? r := diff_mem o left right fout in
  if negb (dm_rc r =? 0) && dm_bin r && fout then
    Some (dm_rc r, dm_out r ++ str "Binary files "%string ++ fst names ++ str " and "%string ++ snd names ++ str " differ"%string ++ NL)
  else Some (dm_rc r, dm_out r).

End Mem.

(** Comparing a file with itself side by side: a binary file is reported as
    different, the shortcut for equal contents is not taken. *)
Definition ex_sdiff_opt : df_opt :=
  mkOpt false false false false false false false false false false None 80 0 [] None false.

Example diff_mem_same_binary crc HASH lcs gap :
  diff_mem crc HASH lcs gap ex_sdiff_opt [0] [0] true = Some (mkDm 1 [] true None).
Proof. reflexivity. Qed.

(** [diff -b] calls two lines different that differ in the amount of white space
    only: the test before the right line looks at the left line. *)
Example diff_cmpIgnoreWSChg_wrong :
  let fl := mkFlines [s2b "a  b c"%string] [s2b "a b  c"%string] in
  diff_cmpIgnoreWSChg (item_data fl) 1 DF_LEFT 1 DF_RIGHT = 1.
Proof. reflexivity. Qed.
