(* ===== verification/NDiffOk.v ===== *)
(** * NDiffOk: the line functions and the alignment of changed lines

    [diff -w] compares and hashes lines with their white space removed, the hash
    of [diff -b] is that of the line with its white space squeezed, and the
    alignment of a hunk for the side by side output is complete and has the best
    score, as long as the scores fit in an [int]. *)

From S2P Require Import Prelude CStr Crc HashIface U32Hash Diff NDiff.
From stdpp Require Import base numbers list strings.
From Stdlib Require Import ZArith Lia.

Local Open Scope Z_scope.

Local Open Scope bk_scope.

(** ** White space *)

(** A line without its white space. *)
Definition nows (s : cstr) : cstr := List.filter (λ c, negb (isspace c)) s.

(** A line with every run of white space made one blank; [sp]: a run goes on. *)
Fixpoint squeeze (sp : bool) (s : cstr) : cstr :=
  match s with
  | [] => []
  | c :: s => if isspace c then (if sp then [] else [32]) ++ squeeze true s else c :: squeeze false s
  end.

Lemma nows_app a b : nows (a ++ b) = nows a ++ nows b.
Proof. apply List.filter_app. Qed.

Lemma nows_skip s : nows (skip_space s) = nows s.
Proof. induction s as [|c s IH]; cbn; [done|]. by destruct (isspace c) eqn:E; cbn; rewrite ?E. Qed.

Lemma skip_space_head s c t : skip_space s = c :: t → isspace c = false.
Proof. induction s as [|x s IH]; cbn; [done|]. destruct (isspace x) eqn:E; [done|]. by intros [= <- <-]. Qed.

Lemma skip_space_len s : (length (skip_space s) <= length s)%nat.
Proof. induction s as [|x s IH]; cbn; [done|]. destruct (isspace x); cbn; lia. Qed.

(** A common prefix is removed. *)
Lemma skip_same_spec a b : ∃ p, a = p ++ fst (skip_same a b) ∧ b = p ++ snd (skip_same a b).
Proof.
  revert b. induction a as [|x a IH]; intros [|y b]; cbn [skip_same]; try by exists [].
  destruct (Z.eqb_spec x y) as [<-|]; [|by exists []].
  destruct (IH b) as (p & Ha & Hb). exists (x :: p). cbn. by rewrite <- Ha, <- Hb.
Qed.

Lemma ws_loop_ok fuel a b : (length a < fuel)%nat → both_done (ws_loop fuel a b) = 0 ↔ nows a = nows b.
Proof.
  revert a b. induction fuel as [|fuel IH]; intros a b Hf; [lia|]. cbn [ws_loop].
  destruct (skip_same_spec a b) as (p & Ha & Hb). destruct (skip_same a b) as [ra rb]. cbn [fst snd] in *.
  subst a b. rewrite !nows_app, <- (nows_skip ra), <- (nows_skip rb). rewrite length_app in Hf.
  pose proof (skip_space_len ra). transitivity (nows (skip_space ra) = nows (skip_space rb));
    [|split; [congruence|apply app_inv_head]].
  destruct (skip_space ra) as [|x a'] eqn:Ea, (skip_space rb) as [|y b'] eqn:Eb;
    try apply skip_space_head in Ea as Hx; try apply skip_space_head in Eb as Hy; cbn [nows List.filter];
    rewrite ?Hx, ?Hy; cbn [negb both_done]; [done|by split|by split|].
  destruct (Z.eqb_spec x y) as [<-|Hne]; [|cbn; split; [done|congruence]].
  rewrite IH by (cbn in *; lia). unfold nows. split; congruence.
Qed.

(** ** The buffered hashes *)

Section Hash.

Context {crc : Z → cstr → Z} {crc_ok : Checksum crc}.

(** The state of a hash loop stands for the bytes [l]. *)
Definition hashed (l : cstr) (st : Z * cstr) : Prop :=
  ∃ done, l = done ++ snd st ∧ fst st = crc 0 done ∧ Forall is_byte l.

Lemma hashed_put l st c : is_byte c → hashed l st → hashed (l ++ [c]) (copy_put crc c st).
Proof.
  intros Hc (dn & -> & E & Hl). destruct st as [ret copy]. cbn [fst snd] in *. subst ret.
  assert (Hl' : Forall is_byte ((dn ++ copy) ++ [c])) by (by rewrite Forall_app, Forall_singleton).
  unfold copy_put. case_if; cbn [fst snd].
  - exists ((dn ++ copy) ++ [c]). rewrite app_nil_r. split; [done|]. split; [|done]. cbn [fst].
    rewrite <- (app_assoc dn copy) in Hl' |- *. apply Forall_app in Hl' as [??]. by apply crc_app.
  - exists dn. cbn [fst snd]. by rewrite app_assoc.
Qed.

Lemma hashed_end l st : hashed l st → copy_end crc st = crc 0 l.
Proof.
  intros (dn & -> & E & Hl). destruct st as [ret copy]. cbn [fst snd] in *. subst ret. unfold copy_end.
  apply Forall_app in Hl as [H1 H2]. destruct copy as [|c k]; [by rewrite app_nil_r|]. by apply crc_app.
Qed.

Lemma hashed_nil : hashed [] (0, []).
Proof. exists []. split; [done|]. split; [|done]. cbn. by rewrite crc_nil. Qed.

Lemma hashWS_ok a l st : Forall is_byte a → hashed l st → hashed (l ++ nows a) (hashWS_loop crc a st).
Proof.
  intros Ha. revert l st. induction Ha as [|c a Hc Ha IH]; intros l st Hs; cbn [hashWS_loop nows List.filter].
  - by rewrite app_nil_r.
  - destruct (isspace c); cbn [negb]; [by apply IH|]. rewrite cons_middle, app_assoc. by apply IH, hashed_put.
Qed.

Lemma hashWSChg_ok a sp l st :
  Forall is_byte a → hashed l st → hashed (l ++ squeeze sp a) (hashWSChg_loop crc a sp st).
Proof.
  intros Ha. revert sp l st. induction Ha as [|c a Hc Ha IH]; intros sp l st Hs; cbn [hashWSChg_loop squeeze].
  - by rewrite app_nil_r.
  - destruct (isspace c).
    + destruct sp; cbn [app]; [by apply IH|]. rewrite (cons_middle 32 l), app_assoc.
      apply IH, hashed_put; [|done]. unfold is_byte. lia.
    + rewrite cons_middle, app_assoc. by apply IH, hashed_put.
Qed.

End Hash.

Lemma cmpLine_eq (data : Z → side → cstr) i s j t :
  cbytes (data i s) → cbytes (data j t) → diff_cmpLine data i s j t = 0 → data i s = data j t.
Proof.
  unfold diff_cmpLine. intros Ha Hb. destruct (Nat.eqb_spec (length (data i s)) (length (data j t))) as [Hl|Hl]; cbn [negb]; [|intros; exfalso; lia].
  by apply strcmp_eq.
Qed.

Lemma item_data_Forall (P : Z → Prop) fl i s : (∀ s, Forall (Forall P) (lines_of fl s)) → Forall P (item_data fl i s).
Proof.
  intros H. unfold item_data, getData, get1. destruct (1 <=? i); [|constructor].
  destruct (lines_of fl s !! _) as [l|] eqn:E; [|constructor]. cbn. by eapply Forall_lookup_1.
Qed.

(** C39. [diff -w] and [diff -b].  [diff_cmpIgnoreWS] returns 0 exactly on lines that
    are equal without their white space, and [diff_hashIgnoreWS], which collects
    2048 bytes at a time, is the checksum of the line without its white space: the
    comparison and the hash agree on what is equal, as the engine needs.
    [diff_hashIgnoreWSChg] is the checksum of the line with each run of white
    space replaced by a blank.  Any implementation of the checksum will do. *)
Theorem diff_ignore_ws_correct (crc : Z → cstr → Z) {crc_ok : Checksum crc} (data : Z → side → cstr) :
  (∀ i s, Forall is_byte (data i s)) →
  (∀ i s j t, diff_cmpIgnoreWS data i s j t = 0 ↔ nows (data i s) = nows (data j t)) ∧
  (∀ i s, diff_hashIgnoreWS data crc i s = crc 0 (nows (data i s))) ∧
  (∀ i s, diff_hashIgnoreWSChg data crc i s = crc 0 (squeeze false (data i s))).
Proof.
  intros Hb. split; [|split].
  - intros i s j t. apply ws_loop_ok. lia.
  - intros i s. by apply hashed_end, (hashWS_ok _ []), hashed_nil.
  - intros i s. by apply hashed_end, (hashWSChg_ok _ _ []), hashed_nil.
Qed.

Definition ex_ws_lines : flines := mkFlines [s2b "int	x;"%string] [s2b "  int x ;"%string].

Lemma diff_ignore_ws_correct_witness :
  let data := item_data ex_ws_lines in
  diff_cmpIgnoreWS data 1 DF_LEFT 1 DF_RIGHT = 0 ∧
  (∀ i s j t, diff_cmpIgnoreWS data i s j t = 0 ↔ nows (data i s) = nows (data j t)) ∧
  (∀ i s, diff_hashIgnoreWS data (software_crc32c 0) i s = software_crc32c 0 0 (nows (data i s))) ∧
  (∀ i s, diff_hashIgnoreWSChg data (software_crc32c 0) i s = software_crc32c 0 0 (squeeze false (data i s))).
Proof.
  split; [reflexivity|]. apply (diff_ignore_ws_correct (software_crc32c 0) (item_data ex_ws_lines)).
  intros i s. apply item_data_Forall. intros []; repeat constructor; cbn; lia.
Defined.

(** ** Aligning *)

Section Align.

Context (lcs : Z → Z → Z) (gap : Z).

(** The best score for the first [i] and [j] lines (Needleman-Wunsch). *)
Fixpoint nw (i : nat) : nat → Z :=
  match i with
  | O => λ j, gap * Z.of_nat j
  | S i' => fix row j :=
      match j with
      | O => gap * Z.of_nat (S i')
      | S j' => Z.max (nw i' j' + lcs (Z.of_nat (S i')) (Z.of_nat (S j'))) (Z.max (nw i' (S j') + gap) (row j' + gap))
      end
  end.

Lemma nw_SS i j :
  nw (S i) (S j) = Z.max (nw i j + lcs (Z.of_nat (S i)) (Z.of_nat (S j))) (Z.max (nw i (S j) + gap) (nw (S i) j + gap)).
Proof. done. Qed.

Lemma nw_0r i : nw i 0 = gap * Z.of_nat i.
Proof. by destruct i. Qed.

(** An alignment that starts after [i] left and [j] right lines: where it ends
    and its score. *)
Fixpoint adv (p : list acmd) (ij : nat * nat) : nat * nat :=
  match p with
  | [] => ij
  | A_LEFT :: p => adv p (S (fst ij), snd ij)
  | A_RIGHT :: p => adv p (fst ij, S (snd ij))
  | A_BOTH :: p => adv p (S (fst ij), S (snd ij))
  end.

Fixpoint pscore (p : list acmd) (i j : nat) : Z :=
  match p with
  | [] => 0
  | A_LEFT :: p => gap + pscore p (S i) j
  | A_RIGHT :: p => gap + pscore p i (S j)
  | A_BOTH :: p => lcs (Z.of_nat (S i)) (Z.of_nat (S j)) + pscore p (S i) (S j)
  end.

Lemma adv_app p q ij : adv (p ++ q) ij = adv q (adv p ij).
Proof. revert ij. induction p as [|[] p IH]; intros ij; cbn; auto. Qed.

Lemma pscore_app p q i j : pscore (p ++ q) i j = pscore p i j + pscore q (fst (adv p (i, j))) (snd (adv p (i, j))).
Proof. revert i j. induction p as [|[] p IH]; intros i j; cbn [pscore app adv fst snd]; rewrite ?IH; lia. Qed.

(** No alignment beats [nw]. *)
Lemma nw_best p i j : adv p (0, 0)%nat = (i, j) → pscore p 0 0 <= nw i j.
Proof.
  revert i j. induction p as [|c p IH] using rev_ind; intros i j; rewrite ?adv_app, ?pscore_app.
  { intros [= <- <-]. cbn. lia. }
  destruct (adv p (0, 0)%nat) as [i0 j0]. specialize (IH i0 j0 eq_refl). cbn [fst snd].
  destruct c; cbn [adv fst snd pscore]; intros [= <- <-].
  - destruct j0 as [|j0]; [rewrite nw_0r in *; lia|]. rewrite nw_SS. lia.
  - destruct i0 as [|i0]; [cbn [nw] in *; lia|]. rewrite nw_SS. lia.
  - rewrite nw_SS. lia.
Qed.

Lemma adv_left k ij : adv (replicate k A_LEFT) ij = (k + fst ij, snd ij)%nat.
Proof. revert ij. induction k as [|k IH]; intros [i j]; cbn [replicate adv fst snd]; [done|]. rewrite IH. cbn. f_equal. lia. Qed.

Lemma adv_right k ij : adv (replicate k A_RIGHT) ij = (fst ij, k + snd ij)%nat.
Proof. revert ij. induction k as [|k IH]; intros [i j]; cbn [replicate adv fst snd]; [done|]. rewrite IH. cbn. f_equal. lia. Qed.

Lemma adv_both k ij : adv (replicate k A_BOTH) ij = (k + fst ij, k + snd ij)%nat.
Proof. revert ij. induction k as [|k IH]; intros [i j]; cbn [replicate adv fst snd]; [done|]. rewrite IH. cbn. f_equal; lia. Qed.

Lemma pscore_gap k c i j : c ≠ A_BOTH → pscore (replicate k c) i j = gap * Z.of_nat k.
Proof. intros Hc. revert i j. induction k as [|k IH]; intros i j; destruct c; cbn [replicate pscore]; rewrite ?IH; done || lia. Qed.

(** What keeps the table inside the [int]s: similarities from 0 to [M], and room
    for [N] lines on the left and [K] on the right. *)
Context (M : Z) (N K : nat).
Hypothesis Hlcs : ∀ i j, 0 <= lcs i j <= M.
Hypothesis Hroom : Z.abs gap * Z.of_nat (N + K) + M * Z.of_nat (N `min` K) <= INT_MAX.

Lemma nw_bound i j :
  - (Z.abs gap * Z.of_nat (i + j)) <= nw i j <= Z.abs gap * Z.of_nat (i + j) + M * Z.of_nat (i `min` j).
Proof.
  assert (HM : 0 <= M) by (specialize (Hlcs 0 0); lia).
  revert j. induction i as [|i IHi]; intros j; [cbn [nw Nat.min]; nia|].
  induction j as [|j IHj]; [rewrite nw_0r; cbn [Nat.min]; nia|]. rewrite nw_SS.
  pose proof (IHi j) as H1. pose proof (IHi (S j)) as H2. pose proof (Hlcs (Z.of_nat (S i)) (Z.of_nat (S j))) as Hl.
  cbn [Nat.min] in *. assert (Hm1 : (i `min` S j <= S (i `min` j))%nat) by lia.
  assert (Hm2 : (match j with O => O | S m' => S (i `min` m') end <= S (i `min` j))%nat) by (destruct j; lia).
  replace (S i + S j)%nat with (S (S (i + j))) in * by lia. replace (i + S j)%nat with (S (i + j)) in * by lia.
  replace (S i + j)%nat with (S (i + j)) in * by lia.
  assert (Hm1' : M * Z.of_nat (i `min` S j) <= M * Z.of_nat (S (i `min` j))) by (apply Z.mul_le_mono_nonneg_l; lia).
  assert (Hm2' : M * Z.of_nat (match j with O => O | S m' => S (i `min` m') end) <= M * Z.of_nat (S (i `min` j))) by (apply Z.mul_le_mono_nonneg_l; lia).
  rewrite !Nat2Z.inj_succ, <- !Z.add_1_r in *. lia.
Qed.

(** The values computed for a cell. *)
Lemma nw_sint i j : (S i <= N)%nat → (S j <= K)%nat →
  sint (nw i j + lcs (Z.of_nat (S i)) (Z.of_nat (S j))) = Some (nw i j + lcs (Z.of_nat (S i)) (Z.of_nat (S j))) ∧
  sint (nw i (S j) + gap) = Some (nw i (S j) + gap) ∧ sint (nw (S i) j + gap) = Some (nw (S i) j + gap).
Proof.
  intros Hi Hj. assert (HM : 0 <= M) by (specialize (Hlcs 0 0); lia).
  pose proof (nw_bound i j) as H1. pose proof (nw_bound i (S j)) as H2. pose proof (nw_bound (S i) j) as H3.
  pose proof (Hlcs (Z.of_nat (S i)) (Z.of_nat (S j))) as Hl.
  assert (Hg : ∀ x, (x <= N + K)%nat → Z.abs gap * Z.of_nat x <= Z.abs gap * Z.of_nat (N + K)) by (intros; apply Z.mul_le_mono_nonneg_l; lia).
  assert (Hk : ∀ x, (x <= N `min` K)%nat → M * Z.of_nat x <= M * Z.of_nat (N `min` K)) by (intros; apply Z.mul_le_mono_nonneg_l; lia).
  pose proof (Hg (S (S (i + j))) ltac:(lia)). pose proof (Hk (S (i `min` j)) ltac:(lia)).
  pose proof (Hk (i `min` S j)%nat ltac:(lia)). pose proof (Hk (S i `min` j)%nat ltac:(lia)).
  replace (i + S j)%nat with (S (i + j)) in * by lia. replace (S i + j)%nat with (S (i + j)) in * by lia.
  rewrite !Nat2Z.inj_succ, <- !Z.add_1_r in *. split_and!; apply sint_ok; lia.
Qed.

Lemma gap_sint x : (x <= N + K)%nat → sint (gap * Z.of_nat x) = Some (gap * Z.of_nat x).
Proof.
  intros Hx. assert (HM : 0 <= M) by (specialize (Hlcs 0 0); lia). apply sint_ok.
  assert (Z.abs (gap * Z.of_nat x) <= Z.abs gap * Z.of_nat (N + K)); [|nia].
  rewrite Z.abs_mul, (Z.abs_eq (Z.of_nat x)) by lia. apply Z.mul_le_mono_nonneg_l; lia.
Qed.

Lemma F_row_ok i k : (S i <= N)%nat → ∀ j, (j + k <= K)%nat →
  F_row lcs gap (Z.of_nat (S i)) (Z.of_nat (S j)) (map (nw i) (seq j (S k))) (nw (S i) j) = Some (map (nw (S i)) (seq (S j) k)).
Proof.
  intros Hi. induction k as [|k IH]; intros j Hj; [done|].
  replace (map (nw i) (seq j (S (S k)))) with (nw i j :: map (nw i) (seq (S j) (S k))) by done.
  cbn [F_row]. destruct (map (nw i) (seq (S j) (S k))) as [|up rest] eqn:E; [done|].
  assert (Hup : up = nw i (S j)) by (cbn [seq map] in E; by injection E).
  destruct (nw_sint i j) as (E1 & E2 & E3); [lia..|]. rewrite E1, Hup, E2, E3, <- nw_SS, <- Hup, <- E.
  replace (Z.of_nat (S j) + 1) with (Z.of_nat (S (S j))) by lia. rewrite IH by lia. done.
Qed.

Lemma F_rows_ok n : ∀ i, (i + n <= N)%nat →
  F_rows lcs gap n (Z.of_nat (S i)) (map (nw i) (seq 0 (S K))) = Some (map (λ i, map (nw i) (seq 0 (S K))) (seq (S i) n)).
Proof.
  induction n as [|n IH]; intros i Hn; [done|]. cbn [F_rows]. rewrite gap_sint by lia. rewrite <- (nw_0r (S i)).
  change 1 with (Z.of_nat 1) at 1. rewrite F_row_ok by lia.
  replace (Z.of_nat (S i) + 1) with (Z.of_nat (S (S i))) by lia.
  change (nw (S i) 0 :: map (nw (S i)) (seq 1 K)) with (map (nw (S i)) (seq 0 (S K))). by rewrite IH by lia.
Qed.

Definition F_table : list (list Z) := map (λ i, map (nw i) (seq 0 (S K))) (seq 0 (S N)).

Lemma F_matrix_ok : F_matrix lcs gap N K = Some F_table.
Proof.
  unfold F_matrix.
  assert (Hf : mapM (λ j, sint (gap * j)) (seqZ 0 (Z.of_nat K + 1)) = Some (map (nw 0) (seq 0 (S K)))).
  { apply mapM_Some_2. unfold seqZ. replace (Z.to_nat (Z.of_nat K + 1)) with (S K) by lia.
    apply Forall2_fmap_l, Forall2_fmap_r, Forall_Forall2_diag, Forall_forall. intros j Hj%elem_of_seq. cbn [nw compose].
    unfold compose. rewrite Z.add_0_r. apply gap_sint. lia. }
  rewrite Hf. change 1 with (Z.of_nat 1). by rewrite F_rows_ok.
Qed.

Lemma get0_seq {A} (f : nat → A) n i : (i <= n)%nat → get0 (map f (seq 0 (S n))) (Z.of_nat i) = Some (f i).
Proof.
  intros Hi. unfold get0. destruct (Z.leb_spec 0 (Z.of_nat i)); [|lia]. rewrite Nat2Z.id.
  rewrite list_lookup_fmap, lookup_seq_lt by lia. done.
Qed.

Lemma F_at_ok i j : (i <= N)%nat → (j <= K)%nat → F_at F_table (Z.of_nat i) (Z.of_nat j) = Some (nw i j).
Proof. intros. unfold F_at, F_table. rewrite get0_seq by done. by apply get0_seq. Qed.

Lemma walk_back_ok fuel : ∀ i j k acc,
  (i <= N)%nat → (j <= K)%nat → (i + j < fuel)%nat → Z.of_nat i + Z.of_nat j <= k →
  ∃ p, walk_back lcs gap fuel F_table (Z.of_nat i) (Z.of_nat j) k acc = Some (p ++ acc) ∧
    adv p (0, 0)%nat = (i, j) ∧ pscore p 0 0 = nw i j.
Proof.
  induction fuel as [|fuel IH]; intros i j k acc Hi Hj Hf Hk; [lia|]. cbn [walk_back].
  assert (Hedge : i = 0%nat ∨ j = 0%nat → nw i j = gap * (Z.of_nat j + Z.of_nat i)).
  { intros [-> | ->]; [cbn [nw]; lia|]. rewrite nw_0r. lia. }
  destruct ((0 <? Z.of_nat i) && (0 <? Z.of_nat j)) eqn:Eij; last first.
  { assert (Hz : i = 0%nat ∨ j = 0%nat) by (apply andb_false_iff in Eij as [?|?]; boolify; lia).
    destruct (Z.leb_spec (Z.of_nat i + Z.of_nat j) k); [|lia]. rewrite !Nat2Z.id, app_assoc. eexists. split; [done|].
    rewrite adv_app, adv_right, adv_left, pscore_app, !pscore_gap, Hedge by done. cbn [fst snd]. rewrite !Nat.add_0_r. split; [done|lia]. }
  apply andb_prop in Eij as [? ?]. boolify. destruct i as [|i]; [lia|]. destruct j as [|j]; [lia|]. clear Hedge.
  replace (Z.of_nat (S i) - 1) with (Z.of_nat i) by lia. replace (Z.of_nat (S j) - 1) with (Z.of_nat j) by lia.
  rewrite !F_at_ok by lia. destruct (Z.ltb_spec 0 k); [|lia].
  assert (Hext : ∀ c i' j', (i' <= N)%nat → (j' <= K)%nat → (S (i' + j') <= S i + S j)%nat → adv [c] (i', j') = (S i, S j) →
    nw (S i) (S j) = nw i' j' + pscore [c] i' j' →
    ∃ p, walk_back lcs gap fuel F_table (Z.of_nat i') (Z.of_nat j') (k - 1) (c :: acc) = Some (p ++ acc) ∧
      adv p (0, 0)%nat = (S i, S j) ∧ pscore p 0 0 = nw (S i) (S j)).
  { intros c i' j' Hi' Hj' Hlt Hadv Hsc. destruct (IH i' j' (k - 1) (c :: acc)) as (p & -> & Hp & Hs); [lia..|].
    exists (p ++ [c]). rewrite <- app_assoc, adv_app, pscore_app, Hp. cbn [fst snd]. split; [done|]. split; [done|]. by rewrite Hs. }
  pose proof (nw_SS i j) as Hnw. destruct (nw_sint i j) as (E1 & E2 & E3); [lia..|]. rewrite E1, E2, E3.
  destruct (Z.eqb_spec (nw (S i) (S j)) (nw (S i) j + gap)); [apply Hext; try done || lia; cbn [pscore]; lia|].
  destruct (Z.eqb_spec (nw (S i) (S j)) (nw i (S j) + gap)); [apply Hext; try done || lia; cbn [pscore]; lia|].
  destruct (Z.eqb_spec (nw (S i) (S j)) (nw i j + lcs (Z.of_nat (S i)) (Z.of_nat (S j)))); [|lia].
  apply Hext; try done || lia. cbn [pscore]. lia.
Qed.

End Align.

(** ** Property *)

(** C24. Aligning a hunk for side by side output.  For a hunk of [n] and [m] lines
    with [n * m] and [n + m + 1] inside the [int]s, any similarity of lines from 0
    to [M] and any price of a gap such that the scores stay inside the [int]s
    ([abs gap * (n + m) + M * min n m <= INT_MAX], needed only for the hunks that
    use the table), [diff_alignMods] returns (no score overflows, the walk back
    through its table always moves and its asserts hold) and its commands use up
    exactly the left and the right lines of the hunk, as [printSdiff] asserts.
    Unless [n * m] is above 100000, where no table is used, no alignment of the
    hunk has a higher score. *)
Theorem diff_alignMods_best lcs gap M h :
  0 <= len_l h → 0 <= len_r h → len_l h * len_r h < 2 ^ 31 → len_l h + len_r h < INT_MAX →
  (∀ i j, 0 <= lcs i j <= M) →
  (len_l h * len_r h <= 100000 → Z.abs gap * (len_l h + len_r h) + M * Z.min (len_l h) (len_r h) <= INT_MAX) →
  let whole p := adv p (0, 0)%nat = (Z.to_nat (len_l h), Z.to_nat (len_r h)) in
  ∃ p, diff_alignMods lcs gap h = Some p ∧ whole p ∧
    (len_l h * len_r h <= 100000 → ∀ q, whole q → pscore lcs gap q 0 0 <= pscore lcs gap p 0 0).
Proof.
  intros Hl Hr Hmul Hadd Hlcs Hroom whole. unfold diff_alignMods. destruct (Z.ltb_spec (len_l h * len_r h) (2 ^ 31)); [|lia].
  destruct (Z.ltb_spec 100000 (len_l h * len_r h)) as [|Hsmall].
  - eexists. split; [done|]. split; [|lia]. unfold whole.
    rewrite !adv_app, adv_both, adv_left, adv_right. cbn [fst snd]. f_equal; lia.
  - destruct (Z.ltb_spec (len_l h + len_r h) INT_MAX); [|lia]. specialize (Hroom Hsmall).
    replace (len_l h + len_r h) with (Z.of_nat (Z.to_nat (len_l h) + Z.to_nat (len_r h))) in Hroom by lia.
    replace (Z.min (len_l h) (len_r h)) with (Z.of_nat (Z.to_nat (len_l h) `min` Z.to_nat (len_r h))) in Hroom by lia.
    rewrite (F_matrix_ok lcs gap M _ _ Hlcs Hroom).
    destruct (walk_back_ok lcs gap M _ _ Hlcs Hroom (S (Z.to_nat (len_l h) + Z.to_nat (len_r h)))
      (Z.to_nat (len_l h)) (Z.to_nat (len_r h)) (len_l h + len_r h) []) as (p & Hrun & Hp & Hs); [lia..|].
    rewrite !Z2Nat.id, app_nil_r in Hrun by done. exists p. split; [done|]. split; [done|].
    intros _ q Hq. rewrite Hs. by apply nw_best.
Qed.

Lemma diff_alignMods_best_witness :
  let h := mkHunk 4 7 3 2 in
  let sim i j := if i =? j + 1 then 10 else 1 in
  let whole p := adv p (0, 0)%nat = (3, 2)%nat in
  diff_alignMods sim (-5) h = Some [A_LEFT; A_BOTH; A_BOTH] ∧
  ∃ p, diff_alignMods sim (-5) h = Some p ∧ whole p ∧
    (3 * 2 <= 100000 → ∀ q, whole q → pscore sim (-5) q 0 0 <= pscore sim (-5) p 0 0).
Proof.
  split; [reflexivity|]. apply (diff_alignMods_best (λ i j, if i =? j + 1 then 10 else 1) (-5) 10 (mkHunk 4 7 3 2)).
  - cbn. lia.
  - cbn. lia.
  - by vm_compute.
  - by vm_compute.
  - intros i j. destruct (i =? j + 1); lia.
  - intros _. by vm_compute.
Defined.

(** A price at the end of the [int]s overflows the first row. *)
Example diff_alignMods_overflow :
  diff_alignMods (λ _ _, 0) (- INT_MAX - 1) (mkHunk 1 1 2 2) = None.
Proof. by vm_compute. Qed.
