(* ===== verification/Checkin.v ===== *)
(** * Checkin: from an edited file to a new delta and back

    The composition that a check-in is: the old version is read from the weave
    ([get_reg]), the edited file is compared with it ([diff_gfile] of
    src/src/slib.c calls [diff_files] of src/src/ndiff.c for [diff -n] output), and
    the output drives [weaveDiffs], which writes the new weave. *)

From S2P Require Import Prelude CStr Sccs Weave WeaveText WeaveGet Crc HashIface U32Hash Diff DiffSnake DiffCorrect NDiff NDiffOk.
From stdpp Require Import base numbers list strings.
From Stdlib Require Import ZArith Lia.

Local Open Scope Z_scope.

Local Open Scope bk_scope.

(** ** The pieces *)

(** The lines of a file as [fgetln] delivers them, each with whether it ends in a
    newline. *)
Fixpoint dfile_loop (data cur : cstr) : dfile :=
  match data with
  | [] => match cur with [] => [] | _ => [(cur, false)] end
  | c :: data => if c =? 10 then (cur, true) :: dfile_loop data [] else dfile_loop data (cur ++ [c])
  end.

Definition dfile_of (data : cstr) : dfile := dfile_loop data [].

(** [dop] of [diff_gfile]. *)
Definition ci_opt : df_opt :=
  mkOpt false false false false true false false true false false None 0 0 [] None false.

Section DiffGfile.

Context (crc32c : Z → cstr → Z) (HASH : Z → Z) (lcs_at : flines → Z → Z → hunk → Z) (diffgap : Z).

(** The end of [diff_gfile] for a text file, its temporary files [old] and [new]
    written: 1 for no differences, 0 for differences, and the diffs. *)
Definition diff_gfile (names : cstr * cstr) (old new : cstr) : option (Z * cstr) :=
  let? (ret, tmpfile) := diff_files crc32c HASH lcs_at diffgap ci_opt false names old new true in
  Some (if ret =? 0 then 1 else if ret =? 1 then 0 else -1, tmpfile).

End DiffGfile.

(** ** Lines and bytes *)

(** The bytes of a file with these lines. *)
Definition text (ls : list cstr) : cstr := concat (map (λ l, l ++ [10]) ls).

(** A line of a text file. *)
Definition text_line (l : cstr) : Prop := Forall (λ c, 0 < c < 256 ∧ c ≠ 10) l.

Lemma text_line_nl l : text_line l → 10 ∉ l.
Proof. intros H Hin. unfold text_line in H. rewrite Forall_forall in H. by destruct (H 10 Hin). Qed.

Lemma strip_front_idem p s : strip_front p (strip_front p s) = strip_front p s.
Proof. induction s as [|c s IH]; cbn; [done|]. destruct (p c) eqn:E; [done|]. cbn. by rewrite E. Qed.

Lemma nocr_idem l : nocr (nocr l) = nocr l.
Proof. unfold nocr, strip_back. by rewrite reverse_involutive, strip_front_idem. Qed.

Lemma strip_front_suffix p s : ∃ a, s = a ++ strip_front p s.
Proof.
  induction s as [|c s [a IH]]; cbn; [by exists []|]. destruct (p c); [|by exists []].
  exists (c :: a). cbn. by rewrite <- IH.
Qed.

Lemma nocr_prefix l : ∃ a, l = nocr l ++ a.
Proof.
  unfold nocr, strip_back. destruct (strip_front_suffix (λ c, c =? 13) (reverse l)) as [a E].
  exists (reverse a). rewrite <- reverse_app, <- E. by rewrite reverse_involutive.
Qed.

Lemma text_line_nocr l : text_line l → text_line (nocr l).
Proof. intros H. destruct (nocr_prefix l) as [a E]. rewrite E in H. by apply Forall_app in H as [? _]. Qed.

Lemma split_loop_line l : 10 ∉ l → ∀ rest cur,
  split_loop true (l ++ 10 :: rest) cur =
  let '(ls, last) := split_loop true rest [] in ((nocr (cur ++ l) ++ NL) :: ls, last).
Proof.
  induction l as [|c l IH]; intros Hl rest cur; cbn [app split_loop].
  - cbn [Z.eqb Pos.eqb]. by rewrite app_nil_r.
  - apply not_elem_of_cons in Hl as [Hc Hl]. destruct (Z.eqb_spec c 10); [congruence|].
    rewrite IH by done. by rewrite <- app_assoc.
Qed.

Lemma split_lines_text ls : Forall text_line ls → split_lines true true (text ls) = map (λ l, nocr l ++ NL) ls.
Proof.
  intros H. assert (E : split_loop true (text ls) [] = (map (λ l, nocr l ++ NL) ls, [])).
  { induction H as [|l ls Hl H IH]; [done|]. unfold text. cbn [map concat]. rewrite <- app_assoc. cbn [app].
    rewrite split_loop_line by (by apply text_line_nl). fold (text ls). by rewrite IH. }
  unfold split_lines. by rewrite E.
Qed.

Lemma text_nonul ls : Forall text_line ls → existsb (Z.eqb 0) (text ls) = false.
Proof.
  intros H. induction H as [|l ls Hl H IH]; [done|]. unfold text. cbn [map concat]. fold (text ls).
  rewrite !existsb_app, IH. cbn [existsb Z.eqb orb]. rewrite !orb_false_r.
  induction Hl as [|c l [Hc _] Hl IHl]; [done|]. cbn [existsb]. rewrite IHl. destruct (Z.eqb_spec 0 c); [lia|done].
Qed.

(** The bytes of a diff file. *)
Definition dbytes (f : dfile) : cstr := text (map fst f).

Lemma dfile_loop_line l : 10 ∉ l → ∀ rest cur, dfile_loop (l ++ 10 :: rest) cur = (cur ++ l, true) :: dfile_loop rest [].
Proof.
  induction l as [|c l IH]; intros Hl rest cur; cbn [app dfile_loop].
  - cbn [Z.eqb Pos.eqb]. by rewrite app_nil_r.
  - apply not_elem_of_cons in Hl as [Hc Hl]. destruct (Z.eqb_spec c 10); [congruence|].
    rewrite IH by done. by rewrite <- app_assoc.
Qed.

Lemma dfile_of_bytes f : Forall (λ l, (10 ∉ fst l) ∧ snd l = true) f → dfile_of (dbytes f) = f.
Proof.
  unfold dfile_of, dbytes. intros H. induction H as [|[l b] f [Hl Hb] H IH]; [done|]. cbn [fst snd] in *. subst b.
  cbn [map]. unfold text. cbn [map concat fst]. rewrite <- app_assoc. cbn [app]. rewrite dfile_loop_line by done.
  unfold text in IH. by rewrite IH.
Qed.

Lemma dbytes_app f g : dbytes (f ++ g) = dbytes f ++ dbytes g.
Proof. unfold dbytes, text. by rewrite !map_app, concat_app. Qed.

(** ** From hunks to commands *)

Section Script.

(** The lines of both files, without newlines; the right ones without trailing
    carriage returns. *)
Context (A B : list cstr).

Hypothesis HB : Forall (λ l, nocr l = l) B.

Definition fl_of : flines := mkFlines (map (λ l, l ++ NL) A) (map (λ l, l ++ NL) B).

Definition range_of : hunk := mkHunk 1 1 (Z.of_nat (length A)) (Z.of_nat (length B)).

Abbreviation item := (λ s i, item_data fl_of i s).

Definition slice (h : hunk) : list cstr := take (Z.to_nat (len_r h)) (drop (Z.to_nat (start_r h - 1)) B).

Definition cmds (h : hunk) : list dcmd :=
  (if len_l h =? 0 then [] else [DDel (start_l h) (len_l h)]) ++
  (if len_r h =? 0 then [] else [DAdd (DLAST h DF_LEFT) (slice h)]).

Definition cmds_of (hs : list hunk) : list dcmd := concat (map cmds hs).

Lemma script_bounds x y hs :
  script item range_of x y hs → x <= Z.of_nat (length A) + 1 ∧ y <= Z.of_nat (length B) + 1.
Proof.
  revert x y. induction hs as [|h hs IH]; intros x y; cbn [script]; unfold DEND; cbn [DSTART DLEN range_of start_l start_r len_l len_r].
  - lia.
  - intros (? & ? & _ & ? & ? & _ & Hs). apply IH in Hs. unfold DEND in Hs. cbn [DSTART DLEN] in Hs. lia.
Qed.

Lemma item_in s i l : 1 <= i → (match s with DF_LEFT => A | DF_RIGHT => B end) !! Z.to_nat (i - 1) = Some l →
  item_data fl_of i s = l ++ NL.
Proof.
  intros Hi Hl. unfold item_data, getData, get1. destruct (Z.leb_spec 1 i); [|lia].
  destruct s; cbn [lines_of fl_of lines_l lines_r]; by rewrite list_lookup_fmap, Hl.
Qed.

Lemma agree_slices x y k :
  1 <= x → 1 <= y → 0 <= k → x - 1 + k <= Z.of_nat (length A) → y - 1 + k <= Z.of_nat (length B) →
  agree item x y k →
  take (Z.to_nat k) (drop (Z.to_nat (x - 1)) A) = take (Z.to_nat k) (drop (Z.to_nat (y - 1)) B).
Proof.
  intros Hx Hy Hk HxA HyB Ha. apply list_eq_same_length with (Z.to_nat k); [rewrite length_take, length_drop; lia|rewrite length_take, length_drop; lia|].
  intros i a b Hi. rewrite !lookup_take_lt, !lookup_drop by lia. intros HlA HlB.
  specialize (Ha (Z.of_nat i) ltac:(lia)). cbv beta in Ha.
  rewrite (item_in DF_LEFT (x + Z.of_nat i) a), (item_in DF_RIGHT (y + Z.of_nat i) b) in Ha.
  - by apply app_inv_tail in Ha.
  - lia.
  - by replace (Z.to_nat (y + Z.of_nat i - 1)) with (Z.to_nat (y - 1) + i)%nat by lia.
  - lia.
  - by replace (Z.to_nat (x + Z.of_nat i - 1)) with (Z.to_nat (x - 1) + i)%nat by lia.
Qed.

Lemma slice_nocr h : map nocr (slice h) = slice h.
Proof.
  assert (H : Forall (λ l, nocr l = l) (slice h)) by (by apply Forall_take, Forall_drop).
  induction H as [|l ls Hl H IH]; cbn; [done|]. by rewrite Hl, IH.
Qed.

(** One hunk applied. *)
Lemma apply_hunk k T h rest :
  0 <= len_l h → 0 <= len_r h → 0 < len_l h + len_r h → k <= start_l h - 1 →
  apply_diff k T (cmds h ++ rest) =
  take (Z.to_nat (start_l h - 1 - k)) T ++ slice h ++
  apply_diff (DEND h DF_LEFT - 1) (drop (Z.to_nat (start_l h - 1 - k + len_l h)) T) rest.
Proof.
  intros Hl Hr Hne Hk. unfold cmds. assert (Hlast : DEND h DF_LEFT - 1 = DLAST h DF_LEFT) by done.
  assert (Hsl : len_r h = 0 → slice h = []) by (intros E; unfold slice; by rewrite E).
  assert (Hla : DLAST h DF_LEFT = start_l h + len_l h - 1) by (unfold DLAST, DEND; cbn; lia).
  destruct (Z.eqb_spec (len_l h) 0) as [El|El], (Z.eqb_spec (len_r h) 0) as [Er|Er]; cbn [app apply_diff];
    rewrite ?slice_nocr, ?Hlast, ?Hla, ?El, ?(Hsl Er), ?Z.add_0_r; cbn [app].
  - lia.
  - done.
  - done.
  - rewrite Z.sub_diag. cbn [Z.to_nat take drop app]. done.
Qed.

Lemma diff_ok_hunk k n h rest :
  0 <= len_l h → 0 <= len_r h < 2 ^ 31 → 0 < len_l h + len_r h → k <= start_l h - 1 → DEND h DF_LEFT - 1 <= n →
  diff_ok (DEND h DF_LEFT - 1) n rest = true → diff_ok k n (cmds h ++ rest) = true.
Proof.
  intros Hl Hr Hne Hk Hn Hrest. unfold cmds. unfold DLAST, DEND in *. cbn [DSTART DLEN] in *.
  assert (Hsl : Z.of_nat (length (slice h)) < 2 ^ 31) by (unfold slice; rewrite length_take; lia).
  destruct (Z.eqb_spec (len_l h) 0), (Z.eqb_spec (len_r h) 0); cbn [app diff_ok]; rewrite ?Hrest; try lia;
    repeat (apply andb_true_intro; split); try apply Z.leb_le; try apply Z.ltb_lt; try lia; done.
Qed.

(** The commands of an edit script are in order and turn [A] into [B]. *)
Lemma script_cmds hs : ∀ x y,
  1 <= x → 1 <= y → Z.of_nat (length B) < 2 ^ 31 → script item range_of x y hs →
  apply_diff (x - 1) (drop (Z.to_nat (x - 1)) A) (cmds_of hs) = drop (Z.to_nat (y - 1)) B ∧
  diff_ok (x - 1) (Z.of_nat (length A)) (cmds_of hs) = true.
Proof.
  induction hs as [|h hs IH]; intros x y Hx Hy Hlen Hs; pose proof (script_bounds _ _ _ Hs) as [HxA HyB];
    unfold cmds_of in *; cbn [map concat script] in *.
  - unfold DEND in Hs. cbn [DSTART DLEN range_of start_l start_r len_l len_r] in Hs. destruct Hs as (E & Hp & Ha). split; [|done].
    apply agree_slices in Ha; [|lia..]. rewrite !firstn_all2 in Ha by (rewrite length_drop; lia). exact Ha.
  - destruct Hs as (Hxs & E & Ha & Hl & Hr & Hne & Hs). pose proof (script_bounds _ _ _ Hs) as [HdA HdB].
    unfold DEND in HdA, HdB, Hs. cbn [DSTART DLEN] in *.
    destruct (IH (start_l h + len_l h) (start_r h + len_r h) ltac:(lia) ltac:(lia) Hlen Hs) as [IH1 IH2]. split.
    + rewrite apply_hunk by lia. unfold DEND. cbn [DSTART DLEN]. rewrite drop_drop.
      replace (Z.to_nat (x - 1) + Z.to_nat (start_l h - 1 - (x - 1) + len_l h))%nat with (Z.to_nat (start_l h + len_l h - 1)) by lia.
      rewrite IH1. apply agree_slices in Ha; [|lia..]. replace (start_l h - 1 - (x - 1)) with (start_l h - x) by lia. rewrite Ha.
      unfold slice. replace (Z.to_nat (start_r h + len_r h - 1)) with (Z.to_nat (start_r h - 1) + Z.to_nat (len_r h))%nat by lia.
      rewrite <- drop_drop, take_drop. replace (Z.to_nat (start_r h - 1)) with (Z.to_nat (y - 1) + Z.to_nat (start_l h - x))%nat by lia.
      by rewrite <- drop_drop, take_drop.
    + apply diff_ok_hunk; unfold DEND; cbn [DSTART DLEN]; try lia. exact IH2.
Qed.

(** ** Printing the commands *)

Lemma print_lines_text n : ∀ j, 1 <= j → j - 1 + Z.of_nat n <= Z.of_nat (length B) →
  print_lines fl_of n [] DF_RIGHT PRN_NONE j = Some (text (take n (drop (Z.to_nat (j - 1)) B))).
Proof.
  induction n as [|n IH]; intros j Hj Hn; [done|]. cbn [print_lines].
  destruct (lookup_lt_is_Some_2 B (Z.to_nat (j - 1))) as [l Hl]; [lia|].
  assert (Hg : getData fl_of j DF_RIGHT = Some (l ++ NL)).
  { unfold getData, get1. destruct (Z.leb_spec 1 j); [|lia]. cbn [lines_of fl_of lines_r]. by rewrite list_lookup_fmap, Hl. }
  rewrite Hg, IH by lia. unfold print_line. cbn [app]. rewrite app_nil_r.
  rewrite (drop_S B l (Z.to_nat (j - 1))) by done. cbn [take].
  replace (Z.to_nat (j + 1 - 1)) with (S (Z.to_nat (j - 1))) by lia. done.
Qed.

Lemma dbytes_cmd_del w n : dbytes (cmd_file (DDel w n)) = str "d" ++ printf_u w ++ str " " ++ printf_u n ++ NL.
Proof. unfold dbytes, text. cbn. rewrite <- !app_assoc. by rewrite app_nil_r. Qed.

Lemma dbytes_cmd_add w ls :
  dbytes (cmd_file (DAdd w ls)) = str "a" ++ printf_u w ++ str " " ++ printf_u (Z.of_nat (length ls)) ++ NL ++ text ls.
Proof.
  unfold dbytes, text. cbn [cmd_file map concat fst]. rewrite !map_map. cbn [fst].
  cbn. rewrite <- !app_assoc. cbn. by rewrite <- ?app_assoc.
Qed.

Lemma printRCS_text hs : ∀ x y, 1 <= x → 1 <= y → script item range_of x y hs →
  printRCS fl_of hs = Some (dbytes (diff_file (cmds_of hs))).
Proof.
  induction hs as [|h hs IH]; intros x y Hx Hy Hs; [done|]. cbn [script] in Hs.
  destruct Hs as (Hxs & E & Ha & Hl & Hr & Hne & Hs). pose proof (script_bounds _ _ _ Hs) as [HdA HdB].
  unfold DEND in HdA, HdB, Hs. cbn [DSTART DLEN] in *.
  specialize (IH (start_l h + len_l h) (start_r h + len_r h) ltac:(lia) ltac:(lia) Hs). unfold printRCS in *. cbn [each_hunk]. rewrite IH.
  unfold cmds_of in *. cbn [map concat]. unfold diff_file. rewrite map_app, concat_app, dbytes_app.
  unfold printHunk. cbn [DSTART DLEN]. rewrite print_lines_text by lia. fold (slice h).
  unfold cmds, DLAST, DEND. cbn [DSTART DLEN]. rewrite !printf_d_u by lia.
  assert (Hsl : len_r h = Z.of_nat (length (slice h))) by (unfold slice; rewrite length_take, length_drop; lia).
  destruct (Z.eqb_spec (len_l h) 0) as [El|El], (Z.eqb_spec (len_r h) 0) as [Er|Er]; [lia|..]; cbn [negb app map concat];
    rewrite ?app_nil_r, ?dbytes_app, ?dbytes_cmd_del, ?dbytes_cmd_add, <- ?Hsl; by rewrite <- ?app_assoc.
Qed.

End Script.

(** ** The diff of two text files *)

Lemma diff_file_lines k n cs :
  0 <= k → diff_ok k n cs = true →
  Forall (λ c, match c with DAdd _ ls => Forall (λ l, 10 ∉ l) ls | _ => True end) cs →
  Forall (λ l, (10 ∉ fst l) ∧ snd l = true) (diff_file cs).
Proof.
  intros Hk Hok Hcs. unfold diff_file. revert k Hk Hok.
  assert (Hcmd : ∀ c w v, (c = cmd_a ∨ c = cmd_d) → 0 <= w → 0 <= v → 10 ∉ c :: printf_u w ++ 32 :: printf_u v).
  { assert (Hno : ∀ w, 0 <= w → 10 ∉ printf_u w).
    { intros w Hw Hin. by pose proof (proj1 (Forall_forall _ _) (printf_u_word w Hw) 10 Hin). }
    intros c w v Hc Hw Hv. rewrite elem_of_cons, elem_of_app, elem_of_cons.
    intros [E|[Hin|[E|Hin]]]; [by destruct Hc as [-> | ->]|exact (Hno w Hw Hin)|done|exact (Hno v Hv Hin)]. }
  induction Hcs as [|[w h|w ls] cs Hc Hcs IH]; intros k Hk Hok; cbn [map concat diff_ok] in *; [done|..];
    apply andb_prop in Hok as [Hok Hrest]; boolify; apply Forall_app; (split; [|eapply IH; [|exact Hrest]; lia]); cbn [cmd_file].
  - apply Forall_singleton. split; [|done]. apply Hcmd; [by right|lia|lia].
  - constructor; [split; [|done]; apply Hcmd; [by left|lia|lia]|]. apply Forall_map. eapply Forall_impl; [exact Hc|]. done.
Qed.

Lemma cmds_of_lines B hs : Forall (λ l, 10 ∉ l) B →
  Forall (λ c, match c with DAdd _ ls => Forall (λ l, 10 ∉ l) ls | _ => True end) (cmds_of B hs).
Proof.
  intros HB. unfold cmds_of. induction hs as [|h hs IH]; cbn [map concat]; [done|]. apply Forall_app. split; [|done].
  unfold cmds. apply Forall_app. split; case_if; try apply Forall_nil_2; apply Forall_singleton; [done|].
  unfold slice. by apply Forall_take, Forall_drop.
Qed.

Section Diff.

Context {crc : Z → cstr → Z} {crc_ok : Checksum crc} (HASH : Z → Z) (lcs_at : flines → Z → Z → hunk → Z) (diffgap : Z).

Context (T new : list cstr).

Hypothesis HT : Forall text_line T.

Hypothesis HTcr : Forall (λ l, nocr l = l) T.

Hypothesis Hnew : Forall text_line new.

Hypothesis Hsize : Z.of_nat (length T) + Z.of_nat (length new) < 2 ^ 28.

(** No line of either file has one of the last hashes. *)
Hypothesis Hhash : Forall (λ l, crc 0 (l ++ NL) + (Z.of_nat (length T) + Z.of_nat (length new)) + 2 < 2 ^ 32) (T ++ map nocr new).

Abbreviation B := (map nocr new).

Lemma map_nocr_T : map nocr T = T.
Proof. clear -HTcr. induction HTcr as [|l T0 Hl H IH]; cbn; [done|]. by rewrite Hl, IH. Qed.

Lemma B_nocr : Forall (λ l, nocr l = l) B.
Proof. apply Forall_map, Forall_true. intros l. apply nocr_idem. Qed.

Lemma B_text : Forall text_line B.
Proof. apply Forall_map. eapply Forall_impl; [exact Hnew|]. apply text_line_nocr. Qed.

Lemma text_lines_eq : text T = text new → T = B.
Proof.
  intros E. apply (f_equal (split_lines true true)) in E. rewrite !split_lines_text in E by done.
  assert (H : map (λ l, l ++ NL) (map nocr T) = map (λ l, l ++ NL) B) by (by rewrite !map_map).
  rewrite map_nocr_T in H. clear -H. revert H. generalize B as L. clear. induction T as [|l T0 IH]; intros [|k L]; try done.
  cbn [map]. intros [= H1 H2]. f_equal; [by apply app_inv_tail in H1|by apply IH].
Qed.

Lemma line_hash i s :
  0 <= diff_hashLine (item_data (fl_of T B)) crc i s ∧
  diff_hashLine (item_data (fl_of T B)) crc i s + (Z.of_nat (length T) + Z.of_nat (length new)) + 2 < 2 ^ 32.
Proof.
  unfold diff_hashLine, item_data, getData, get1. destruct (1 <=? i); [|cbn; rewrite crc_nil by lia; lia].
  assert (Hl : ∀ L, Forall text_line L → (∀ l, l ∈ L → l ∈ T ++ B) →
    0 <= crc 0 (default [] (map (λ l, l ++ NL) L !! Z.to_nat (i - 1))) ∧
    crc 0 (default [] (map (λ l, l ++ NL) L !! Z.to_nat (i - 1))) + (Z.of_nat (length T) + Z.of_nat (length new)) + 2 < 2 ^ 32).
  { intros L HL Hin. rewrite list_lookup_fmap. destruct (L !! _) as [l|] eqn:E; cbn; [|rewrite crc_nil by lia; lia].
    apply list_elem_of_lookup_2 in E as Hl. split; [|by apply (proj1 (Forall_forall _ _) Hhash), Hin].
    apply crc_range; [lia|]. apply Forall_app. split; [|repeat constructor; done].
    eapply Forall_impl; [by apply (proj1 (Forall_forall _ _) HL)|]. intros c [? _]. unfold is_byte. lia. }
  destruct s; cbn [lines_of fl_of lines_l lines_r]; apply Hl; try done; [..|apply B_text|];
    intros l ?; apply elem_of_app; auto.
Qed.

(** [diff_mem] as a check-in calls it. *)
Lemma diff_mem_ci :
  ∃ rc hs, diff_mem crc HASH lcs_at diffgap ci_opt (text T) (text new) true =
      Some (mkDm rc (dbytes (diff_file (cmds_of B hs))) false None) ∧
    (rc = 0 ∧ T = B ∨ rc = 1) ∧
    apply_diff 0 T (cmds_of B hs) = B ∧ diff_ok 0 (Z.of_nat (length T)) (cmds_of B hs) = true.
Proof.
  unfold diff_mem. change (diff_cleanOpts ci_opt) with (Some (true, 3)). cbv iota beta zeta. unfold ci_opt.
  cbn [o_unified o_define o_rcs o_sdiff o_print_hunks Z.eqb negb o_ignore_trailing_cr orb andb].
  case_bool_decide as Eeq.
  { exists 0, []. apply text_lines_eq in Eeq. split; [done|]. split; [by left|]. by rewrite <- Eeq. }
  rewrite !text_nonul by done. cbn [andb orb o_ignore_all_ws o_ignore_ws_chg o_pattern o_minimal o_always_text].
  rewrite !split_lines_text by done.
  replace (mkFlines _ _) with (fl_of T B) by (unfold fl_of; rewrite map_map; f_equal; rewrite <- map_nocr_T at 1; by rewrite map_map).
  assert (Hrange : mkHunk 1 1 (Z.of_nat (length (lines_l (fl_of T B)))) (Z.of_nat (length (lines_r (fl_of T B)))) = range_of T B)
    by (unfold range_of, fl_of; cbn [lines_l lines_r]; by rewrite !length_map).
  rewrite Hrange.
  destruct (u32_new_inv true HASH (mkThing 0 DF_LEFT false)) as [Hi Ha].
  destruct (diff_items_ok (laws := u32hash_laws true HASH (mkThing 0 DF_LEFT false)) _ (conj Hi Ha)
    (λ k Hk, ltac:(cbn; lia)) (λ _ _, I) (λ s i, item_data (fl_of T B) i s) (diff_cmpLine (item_data (fl_of T B)))
    (diff_hashLine (item_data (fl_of T B)) crc) (range_of T B)) with (dcost := Some (diff_cost (item_data (fl_of T B)))) (minimal := false)
    as (hs & Hrun & Hs).
  - intros i s j t. apply cmpLine_eq; apply item_data_Forall; intros [];
      cbn [lines_of fl_of lines_l lines_r]; apply Forall_map; (eapply Forall_impl; [exact HT || exact B_text|]);
      intros l Hl; (apply Forall_app; split; [eapply Forall_impl; [exact Hl|]; cbn; lia|by repeat constructor]).
  - unfold range_of. cbn [len_l len_r hash_max u32hash_ops]. rewrite length_map. cbn. unfold u32_max. lia.
  - intros i s. unfold range_of. cbn [len_l len_r]. rewrite length_map. apply line_hash.
  - unfold range_of. cbn [len_l len_r]. rewrite length_map. unfold INT_MAX. lia.
  - rewrite Hrun. destruct (script_cmds T B B_nocr hs 1 1 ltac:(lia) ltac:(lia)) as [Happ Hok]; [rewrite length_map; lia|done|].
    rewrite (printRCS_text T B hs 1 1) by (done || lia). cbn [Z.sub Z.to_nat drop] in Happ, Hok.
    case_bool_decide as Ehs; cbn [negb orb andb Z.eqb o_header app o_quiet o_diffstat].
    + exists 0, []. split; [done|]. subst hs. split; [by left|]. done.
    + exists 1, hs. split; [done|]. split; [by right|]. done.
Qed.

End Diff.

(** ** The weave *)

Lemma untagged_tagless W : forallb untagged (map parse W) = true → forallb tagless W = true.
Proof.
  induction W as [|b W IH]; cbn [map forallb]; [done|]. intros H. apply andb_prop in H as [Hb HW]. rewrite (IH HW), andb_true_r.
  unfold tagless, parse in *. destruct (isData b); [done|]. cbn [orb]. unfold ctl_scan, atoi_p in Hb.
  destruct (atoi_loop 0 (drop 3 b)) as [x n] eqn:E. cbn [untagged] in Hb. apply negb_true_iff, Z.eqb_neq in Hb.
  apply negb_true_iff, Z.eqb_neq. intros Ht. apply Hb. pose proof (tag_scan _ 0 Ht) as H. by rewrite E in H.
Qed.

Lemma woven_untagged S d P Q N st :
  woven S d P Q N st → forallb untagged P = true → forallb untagged Q = true.
Proof.
  intros [_ _ _ Hctl Hpl _] HP. rewrite forallb_forall in *. intros [b|t x n] Hin; [done|].
  specialize (Hpl _ Hin). cbn in Hpl |- *. destruct (Z.eqb_spec x d) as [->|Hx]; cbn [negb orb] in Hpl.
  - apply bool_decide_eq_true in Hpl as ->. done.
  - apply (HP (WCtl t x n)). assert (Hf : In (WCtl t x n) (List.filter (not_d d) Q)).
    { apply filter_In. split; [done|]. cbn. by destruct (Z.eqb_spec x d). }
    rewrite Hctl in Hf. by apply filter_In in Hf as [? _].
Qed.

Lemma printstate_ext d S S' st :
  1 <= d → below d st → (∀ j, (j < Z.to_nat d)%nat → S j = S' j) → printstate st S = printstate st S'.
Proof.
  intros Hd Hst HS. unfold printstate, below in *. apply Forall_reverse in Hst.
  induction Hst as [|e st' He Hst IH]; cbn [printstate_loop]; [done|].
  assert (E : sl_at S (SL_SER e) = sl_at S' (SL_SER e)) by (apply HS; lia). by rewrite E, IH.
Qed.

(** The text does not depend on deltas the weave does not have. *)
Lemma wtext_ext d S S' R : ∀ st,
  1 <= d → fits d → below d st → sers_below d R → (∀ j, (j < Z.to_nat d)%nat → S j = S' j) → wtext S st R = wtext S' st R.
Proof.
  induction R as [|l R IH]; intros st Hd Hf Hst HR HS; cbn [wtext]; [done|]. apply sers_below_cons in HR as [Hl HR].
  destruct (wstep st l) as [st1|] eqn:Hs; [|done]. rewrite (IH st1) by (done || by eapply wstep_below).
  by rewrite (printstate_ext d S S').
Qed.

(** ** Property *)

(** C1. A check-in and what it leaves behind.  Take a well-formed weave whose blocks
    all end in a newline, the version [Sp] of its delta [p], whose lines do not end
    in a carriage return, and an edited text file with lines [new]; both have fewer
    than 2^28 lines together, with hash codes that stay that many below 2^32 (the
    difference engine needs the room).  Reading the version, comparing it with the file and
    weaving the diffs in as delta [d] succeeds at every step ([diff_gfile] says
    "no differences" only when there are none); the new weave is well formed and
    has no tagged block, every version without [d] still has its text, and
    reading the new version gives back the edited file (trailing carriage
    returns of lines aside, which a check-in removes). *)
Theorem checkin_get_roundtrip (crc : Z → cstr → Z) {crc_ok : Checksum crc} HASH lcs_at diffgap names nc Sp p d W T new :
  1 <= d < SL_MASK → weave_okb d W = true → forallb untagged (map parse W) = true →
  1 <= p < d → active Sp p = true → weave_text Sp W = Some T →
  Forall text_line T → Forall (λ l, nocr l = l) T → Forall text_line new →
  Z.of_nat (length T) + Z.of_nat (length new) < 2 ^ 28 →
  Forall (λ l, crc 0 (l ++ NL) + (Z.of_nat (length T) + Z.of_nat (length new)) + 2 < 2 ^ 32) (T ++ map nocr new) →
  let S := upd Sp (Z.to_nat d) 1 in
  ∃ g ret tmp r g',
    get_reg Sp p nc false NL W = Some g ∧
    diff_gfile crc HASH lcs_at diffgap names (g_out g) (text new) = Some (ret, tmp) ∧
    (ret = 1 ∧ T = map nocr new ∨ ret = 0) ∧
    delta_write S W d (dfile_of tmp) = Some (inl r) ∧
    (let W' := w_out (wr_w r) in
     weave_okb (d + 1) W' = true ∧ forallb untagged (map parse W') = true ∧
     (∀ S', active S' d = false → weave_text S' W' = weave_text S' W) ∧
     weave_text S W' = Some (map nocr new) ∧
     get_reg S d nc false NL W' = Some g' ∧ g_out g' = text (map nocr new)).
Proof.
  intros Hd HW Htl Hp HSp HT HTl HTcr Hnew Hsize Hhash S. assert (Hf : fits d) by (unfold fits; lia).
  destruct (get_reg_got Sp p d W T NL nc) as (g & _ & Hg & _ & _ & Hout & Hpend); [lia|done|lia|done|done|].
  rewrite (Hpend (untagged_tagless _ Htl)), Z.eqb_refl, app_nil_r in Hout.
  destruct (diff_mem_ci HASH lcs_at diffgap T new HTl HTcr Hnew Hsize Hhash) as (rc & hs & Hdiff & Hrc & Happ & Hok).
  destruct (weave_text_wtext Sp d W T HW HT) as (T0 & Ht0 & ->).
  destruct (weave_ok_text d W Sp HW) as (? & _ & Hs & _).
  assert (HSt : wtext S [] (map parse W) = Some (T0, [])).
  { rewrite <- Ht0. apply (wtext_ext d); try done; [lia|apply Forall_nil_2|]. intros j Hj. unfold S. rewrite upd_ne; [done|lia]. }
  assert (HSd : active S d = true) by (unfold active, sl_at, S; by rewrite upd_eq).
  set (cs := cmds_of (map nocr new) hs) in *. rewrite length_map in Hok, Hsize.
  destruct (weaveDiffs_woven S d W T0 cs) as (r & Hrun & Hwv & _ & _ & _ & Hfix); (done || lia || idtac).
  destruct (woven_weave_text S d W _ _ Hwv) as [Hold Hnewt]. rewrite apply_raw_unesc, Happ in Hnewt.
  pose proof (weave_ok_woven S d W _ _ _ HW eq_refl Hwv) as HW'. pose proof (woven_untagged _ _ _ _ _ _ Hwv Htl) as Htl'.
  destruct (get_reg_got S d (d + 1) (w_out (wr_w r)) (map nocr new) NL nc) as (g' & _ & Hg' & _ & _ & Hout' & Hpend');
    [lia|done|lia|done|done|].
  rewrite (Hpend' (untagged_tagless _ Htl')), Z.eqb_refl, app_nil_r in Hout'.
  assert (Hdf : dfile_of (dbytes (diff_file cs)) = diff_file cs).
  { apply dfile_of_bytes. eapply (diff_file_lines 0); [lia|exact Hok|]. apply cmds_of_lines.
    apply Forall_map. eapply Forall_impl; [exact Hnew|]. intros l Hl. by apply text_line_nl, text_line_nocr. }
  exists g, (if rc =? 0 then 1 else if rc =? 1 then 0 else -1), (dbytes (diff_file cs)), r, g'.
  split; [done|]. split.
  { unfold diff_gfile, diff_files. rewrite andb_false_r, Hout. change (concat _) with (text (map unesc T0)).
    rewrite Hdiff. cbn [dm_rc dm_out dm_bin]. by rewrite andb_false_r. }
  split; [destruct Hrc as [[-> ?]| ->]; [by left|by right]|].
  split; [unfold delta_write; rewrite Hdf, Hrun, Hfix by done; done|]. cbv zeta. done.
Qed.

(** The version of delta 2 of the example weave, its middle line edited. *)
Definition ex_new : list cstr := [[97]; [120; 13]; [121]; [99]].

Lemma checkin_get_roundtrip_witness :
  let S := upd (ex_version 2) 3 1 in
  ∃ g ret tmp r g',
    get_reg (ex_version 2) 2 true false NL ex_weave = Some g ∧
    diff_gfile (software_crc32c 0) (λ k, k * 7) (λ _ _ _ _, 0) 0 ([], []) (g_out g) (text ex_new) = Some (ret, tmp) ∧
    (ret = 1 ∧ [[97]; [66]; [99]] = map nocr ex_new ∨ ret = 0) ∧
    delta_write S ex_weave 3 (dfile_of tmp) = Some (inl r) ∧
    (let W' := w_out (wr_w r) in
     weave_okb (3 + 1) W' = true ∧ forallb untagged (map parse W') = true ∧
     (∀ S', active S' 3 = false → weave_text S' W' = weave_text S' ex_weave) ∧
     weave_text S W' = Some (map nocr ex_new) ∧
     get_reg S 3 true false NL W' = Some g' ∧ g_out g' = text (map nocr ex_new)).
Proof.
  apply (checkin_get_roundtrip (software_crc32c 0) (λ k, k * 7) (λ _ _ _ _, 0) 0 ([], []) true (ex_version 2) 2 3 ex_weave
    [[97]; [66]; [99]] ex_new).
  - unfold SL_MASK. lia.
  - vm_compute. reflexivity.
  - vm_compute. reflexivity.
  - lia.
  - reflexivity.
  - reflexivity.
  - repeat constructor; lia.
  - repeat constructor.
  - repeat constructor; lia.
  - cbn. lia.
  - repeat constructor; vm_compute; reflexivity.
Defined.
