(* ===== verification/Smerge.v ===== *)
(** * Smerge: merging the versions of two sides

    src/src/smerge.c, the content merge of [bk smerge]: LEFT and RIGHT are merged
    on their common ancestor GCA (GCAR is the same version annotated against the
    RIGHT side).  A line carries the sequence number of its line in the weave.
    [find_conflicts] cuts the files where the sequence numbers differ,
    [resolve_conflict] tries the automerge functions on each region until nothing
    changes, and [do_weave_merge] writes the result.

    The conflict list is the current region and the regions after it: the [prev]
    pointers of the C list are written and never read.  The output is the bytes
    written to stdout.  [None] is a failed assert, a read outside an array or a
    loop that ran out of fuel. *)

From S2P Require Import Prelude CStr Shell HashIface U32Hash Diff NDiff.
From stdpp Require Import base functions numbers list strings.
From Stdlib Require Import ZArith Lia.

Local Open Scope Z_scope.

Local Open Scope bk_scope.

(** ** Data *)

Inductive mergemode := MODE_GCA | MODE_2WAY | MODE_3WAY | MODE_NEWONLY.

Inductive fidx := LEFT | RIGHT | GCA | GCAR.

#[export] Instance fidx_eq_dec : EqDecision fidx.
Proof. solve_decision. Defined.

(** [for (i = 0; i < NFILES; i++)] *)
Definition FILES : list fidx := [LEFT; RIGHT; GCA; GCAR].

(** [struct ld]: the sequence number, the bytes of the line with its newline (the
    pointer [line] and [len]), the bytes from the pointer [anno] to the line. *)
Record ld := mkLd { l_seq : Z; l_line : cstr; l_anno : option cstr }.

(** [struct file]: [n] lines and the sentinel. *)
Record file := mkFile { f_lines : list ld; f_n : nat }.

(** [~0] as a u32. *)
Definition SEQ_END : Z := 2 ^ 32 - 1.

(** The file that [file_init] makes of its lines: the sentinel after them has the
    largest sequence number and no text. *)
Definition file_of (ls : list ld) : file := mkFile (ls ++ [mkLd SEQ_END [] None]) (length ls).

(** The conversion of a u32 to an int. *)
Definition to_int (z : Z) : Z := if z <? 2 ^ 31 then z else z - 2 ^ 32.

(** [struct conflct] *)
Record conflct := mkConflct {
  c_start : fidx → nat; c_end : fidx → nat;
  c_start_seq : Z; c_end_seq : Z;
  c_merged : option (list ld); c_split : bool; c_algos : list cstr
}.

Definition set_range (st en : fidx → nat) (end_seq : Z) (split : bool) (c : conflct) : conflct :=
  mkConflct st en (c_start_seq c) end_seq (c_merged c) split (c_algos c).

Definition set_merged (m : option (list ld)) (c : conflct) : conflct :=
  mkConflct (c_start c) (c_end c) (c_start_seq c) (c_end_seq c) m (c_split c) (c_algos c).

Definition add_algo (a : cstr) (c : conflct) : conflct :=
  mkConflct (c_start c) (c_end c) (c_start_seq c) (c_end_seq c) (c_merged c) (c_split c) (c_algos c ++ [a]).

(** [struct diffln] *)
Record diffln := mkDiffln { d_ld : ld; d_highlight : option (Z * Z); d_c : Z }.

(** The automerge functions, in the order of the table [mergefcns]. *)
Inductive mergefcn :=
  | F_conflicts | F_same_changes | F_only_one | F_content | F_common_header
  | F_added_oneside | F_common_footer | F_common_deletes | F_with_following_gca.

(** [struct mergefcns] *)
Record mergefcns := mkFcn { m_name : cstr; m_enable : Z; m_fcn : mergefcn; m_fname : cstr; m_help : cstr }.

Definition mergefcns_table : list mergefcns := [
  mkFcn (str "9") (-1) F_conflicts (str "merge_conflicts") (str "Merge adjacent conflict regions");
  mkFcn (str "1") (-1) F_same_changes (str "merge_same_changes") (str "Merge identical changes made by both sides");
  mkFcn (str "2") (-1) F_only_one (str "merge_only_one") (str "Merge when only one side changes");
  mkFcn (str "3") (-1) F_content (str "merge_content") (str "Merge adjacent non-overlapping modifications on both sides");
  mkFcn (str "4") (-1) F_common_header (str "merge_common_header") (str "Merge identical changes at the start of a conflict");
  mkFcn (str "7") (-1) F_added_oneside (str "merge_added_oneside") (str "Split one side add from conflict");
  mkFcn (str "5") (-1) F_common_footer (str "merge_common_footer") (str "Merge identical changes at the end of a conflict");
  mkFcn (str "6") (-1) F_common_deletes (str "merge_common_deletes") (str "Merge identical deletions made by both sides");
  mkFcn (str "8") (-1) F_with_following_gca (str "merge_with_following_gca") (str "Match single side with GCA")
]%string.

(** The static variables the options set, [file], [revs] and the table of
    functions. *)
Record smopts := mkSm {
  s_mode : mergemode; s_fdiff : bool; s_show_mergefn : bool; s_show_seq : bool;
  s_file : cstr; s_revs : fidx → cstr; s_fcns : list mergefcns
}.

(** ** Choosing the automerge functions *)

Definition set_enable (enable : Z) (m : mergefcns) : mergefcns :=
  mkFcn (m_name m) enable (m_fcn m) (m_fname m) (m_help m).

(** The first function of that name; [None]: there is none. *)
Fixpoint enable_one (name : cstr) (enable : Z) (t : list mergefcns) : option (list mergefcns) :=
  match t with
  | [] => None
  | m :: t =>
      if streq (m_name m) name then Some (set_enable enable m :: t)
      else let? t := enable_one name enable t in Some (m :: t)
  end.

Definition comma_space : cstr := [44; 32].

Fixpoint enable_loop (fuel : nat) (names : cstr) (enable : Z) (t : list mergefcns) : option (list mergefcns) :=
  match fuel with
  | O => None
  | S fuel =>
      match names with
      | [] => Some t
      | _ =>
          let names := drop (strspn names comma_space) names in
          let len := strcspn names comma_space in
          if (len =? 0)%nat then Some t else
          let name := take len names in
          let? t := if streq name (str "all"%string) then Some (map (set_enable enable) t)
                    else enable_one name enable t in
          enable_loop fuel (drop len names) enable t
      end
  end.

(** [None]: an unknown name, the program exits with status 2. *)
Definition enable_mergefcns (names : cstr) (enable : Z) (t : list mergefcns) : option (list mergefcns) :=
  enable_loop (S (length names)) names enable t.

(** What it writes to stderr after its first two lines. *)
Definition mergefcns_help (t : list mergefcns) : cstr :=
  concat (map (λ m, replicate (2 - length (m_name m)) 32 ++ m_name m ++
                    [if m_enable m =? 0 then 32 else 42; 32] ++ m_help m ++ [10]) t).

(** ** The range option *)

(** [strtoul(s, &s, 10)] on a string that starts with a digit. *)
Fixpoint strtoul_loop (val : Z) (s : cstr) : Z * cstr :=
  match s with
  | c :: s' => if isdigit c then strtoul_loop (val * 10 + (c - 48)) s' else (val, s)
  | [] => (val, [])
  end.

Definition strtoul (s : cstr) : Z * cstr :=
  let '(v, r) := strtoul_loop 0 s in (Z.min v (2 ^ 64 - 1), r).

(** [None] is the return value -1. *)
Definition parse_range (range : cstr) (start end_ : Z) : option (Z * Z) :=
  let '(start, range) := if isdigit (at0 range) then let '(v, r) := strtoul range in (u32 v, r) else (start, range) in
  if (at0 range =? 0) || negb (at0 range =? 46) || negb (at0 (drop 1 range) =? 46) then None else
  let range := drop 2 range in
  Some (start, if isdigit (at0 range) then u32 (fst (strtoul range)) else end_).

(** ** Printing lines *)

Section Merge.

Context (o : smopts) (body : fidx → file).

(** [printf("%6d\t", seq)] *)
Definition seq_text (seq : Z) : cstr :=
  let s := printf_d (to_int seq) in replicate (6 - length s) 32 ++ s ++ [9].

(** A [first_char] of 0 is none.  [end[-1]] of an empty line is outside of it. *)
Definition printline (l : ld) (first_char : Z) (forcenl : bool) : option cstr :=
  let first_char := if s_fdiff o && (first_char =? 0) then 32 else first_char in
  let? nl := (if forcenl then let? c := last (l_line l) in Some (if c =? 10 then [] else [10]) else Some []) in
  Some ((if first_char =? 0 then [] else [first_char]) ++ (if s_show_seq o then seq_text (l_seq l) else []) ++
        default [] (l_anno l) ++ l_line l ++ nl).

Fixpoint print_lds (ls : list ld) (first_char : Z) (forcenl : bool) : option cstr :=
  match ls with
  | [] => Some []
  | l :: ls =>
      let? a := printline l first_char forcenl in
      let? b := print_lds ls first_char forcenl in
      Some (a ++ b)
  end.

(** The pairs of the array up to the pair 0, 0. *)
Definition printhighlight (h : Z * Z) : cstr :=
  [104] ++ (if (fst h =? 0) && (snd h =? 0) then [] else [32] ++ printf_d (fst h) ++ [45] ++ printf_d (snd h)) ++ [10].

(** [body[side].lines[from]] up to, not including, [to]. *)
Definition seg (side : fidx) (from to : nat) : option (list ld) :=
  let ls := f_lines (body side) in
  assert! (to <=? length ls)%nat;
  Some (take (to - from) (drop from ls)).

(** The lines of one side of a conflict. *)
Definition cseg (c : conflct) (side : fidx) : option (list ld) := seg side (c_start c side) (c_end c side).

Definition line_at (side : fidx) (i : nat) : option ld := f_lines (body side) !! i.

Definition printlines (c : conflct) (side : fidx) (forcenl : bool) : option cstr :=
  let? ls := cseg c side in print_lds ls 0 forcenl.

(** ** Comparing lines *)

(** Equal lengths and [memcmp] 0. *)
Definition sameline (a b : ld) : bool := bool_decide (l_line a = l_line b).

Fixpoint same_lines (a b : list ld) : bool :=
  match a, b with
  | [], [] => true
  | x :: a, y :: b => sameline x y && same_lines a b
  | _, _ => false
  end.

Definition samedata (c : conflct) (l r : fidx) : option bool :=
  let? a := cseg c l in
  let? b := cseg c r in
  Some (if negb (length a =? length b)%nat then false else same_lines a b).

(** ** Finding conflicts *)

(** The loop over the lines that match in all files: [k] is [minlen - j]. *)
Fixpoint match_len (k : nat) (mk : fidx → nat) (j : nat) : option nat :=
  match k with
  | O => Some j
  | S k =>
      let? l := line_at LEFT (mk LEFT + j) in
      let? r := line_at RIGHT (mk RIGHT + j) in
      let? g := line_at GCA (mk GCA + j) in
      let? h := line_at GCAR (mk GCAR + j) in
      if (l_seq l =? l_seq r) && (l_seq l =? l_seq g) && (l_seq l =? l_seq h) then match_len k mk (S j) else Some j
  end.

(** [while (seq[i] < maxseq)]: [ls] are the lines after [mk]. *)
Fixpoint end_while (ls : list ld) (mk : nat) (seq maxseq : Z) : option (nat * Z) :=
  if seq <? maxseq then
    match ls with
    | [] => None
    | l :: ls => end_while ls (S mk) (l_seq l) maxseq
    end
  else Some (mk, seq).

(** [mk], [seq], [maxseq] and [at_end] in the loop that finds the end. *)
Record endst := mkEnd { e_mk : fidx → nat; e_seq : fidx → Z; e_max : Z; e_at_end : bool }.

Definition end_file (i : fidx) (s : endst) : option endst :=
  let? (mk, q) := end_while (drop (S (e_mk s i)) (f_lines (body i))) (e_mk s i) (e_seq s i) (e_max s) in
  Some (mkEnd (<[i := mk]> (e_mk s)) (<[i := q]> (e_seq s)) (Z.max (e_max s) q)
              (if e_seq s i <? e_max s then false else e_at_end s)).

Fixpoint end_files (fs : list fidx) (s : endst) : option endst :=
  match fs with
  | [] => Some s
  | i :: fs => let? s := end_file i s in end_files fs s
  end.

Fixpoint find_end (fuel : nat) (mk : fidx → nat) (seq : fidx → Z) : option ((fidx → nat) * (fidx → Z)) :=
  match fuel with
  | O => None
  | S fuel =>
      let maxseq := fold_left (λ m i, Z.max m (seq i)) FILES 0 in
      let? s := end_files FILES (mkEnd mk seq maxseq true) in
      if e_at_end s then Some (e_mk s, e_seq s) else find_end fuel (e_mk s) (e_seq s)
  end.

Definition total_lines : nat := fold_left (λ m i, (m + f_n (body i))%nat) FILES 0%nat.

(** [seq[i] = lines[i][mk[i]].seq] for every file. *)
Definition seqs_at (mk : fidx → nat) : option (fidx → Z) :=
  let? l := line_at LEFT (mk LEFT) in
  let? r := line_at RIGHT (mk RIGHT) in
  let? g := line_at GCA (mk GCA) in
  let? h := line_at GCAR (mk GCAR) in
  Some (λ i, match i with LEFT => l_seq l | RIGHT => l_seq r | GCA => l_seq g | GCAR => l_seq h end).

(** The outer loop from the marks [mk] on: the list of the conflicts. *)
Fixpoint find_loop (fuel : nat) (mk : fidx → nat) : option (list conflct) :=
  match fuel with
  | O => None
  | S fuel =>
      let left i := (f_n (body i) - mk i)%nat in
      let? j := match_len (Nat.min (Nat.min (left LEFT) (left RIGHT)) (Nat.min (left GCA) (left GCAR))) mk 0 in
      let mk i := (mk i + j)%nat in
      if forallb (λ i, f_n (body i) <=? mk i)%nat FILES then Some [] else
      let? start_seq := (if (0 <? mk LEFT)%nat then let? l := line_at LEFT (mk LEFT - 1) in Some (l_seq l) else Some 0) in
      let? seq := seqs_at mk in
      let? (mk', seq) := find_end (S total_lines) mk seq in
      assert! negb (seq LEFT =? 0);
      assert! forallb (λ i, seq LEFT =? seq i) FILES;
      let? cs := find_loop fuel mk' in
      Some (mkConflct mk mk' (to_int start_seq) (to_int (seq LEFT)) None false [] :: cs)
  end.

Definition find_conflicts : option (list conflct) := find_loop (S total_lines) (λ _, 0%nat).

(** ** Joining conflicts *)

Definition contains_line (c : conflct) (line : ld) : option bool :=
  let? l := cseg c LEFT in
  let? r := cseg c RIGHT in
  let? g := cseg c GCA in
  let? h := cseg c GCAR in
  Some (existsb (λ x, sameline x line) (l ++ r ++ g ++ h)).

(** A region and the regions after it; the functions return whether they changed
    anything. *)
Definition mstate : Type := conflct * list conflct.

Definition merge_conflicts (m : mstate) : option (bool * mstate) :=
  let '(head, rest) := m in
  match rest with
  | [] => Some (false, m)
  | next :: rest' =>
      if c_split head then Some (false, m) else
      let? line := line_at LEFT (c_end head LEFT) in
      let? inside :=
        (if (c_start next LEFT - c_end head LEFT =? 1)%nat then
           let? a := contains_line head line in
           if a then Some true else contains_line next line
         else Some false) in
      if inside || (c_start next LEFT =? c_end head LEFT)%nat then
        assert! negb (c_end_seq next =? 0);
        Some (true, (set_range (c_start head) (c_end next) (c_end_seq next) (c_split head) head, rest'))
      else Some (false, m)
  end.

(** [addArray] of the lines to [merged]; [growArray] makes an empty array. *)
Definition add_merged (ls : list ld) (c : conflct) : conflct :=
  set_merged (Some (default [] (c_merged c) ++ ls)) c.

(** ** Automerge: whole regions *)

Definition merge_same_changes (m : mstate) : option (bool * mstate) :=
  let '(c, rest) := m in
  let? same := samedata c LEFT RIGHT in
  if same then let? ls := cseg c LEFT in Some (true, (add_merged ls c, rest)) else Some (false, m).

Definition merge_only_one (m : mstate) : option (bool * mstate) :=
  let '(c, rest) := m in
  let? samel := samedata c GCA LEFT in
  if samel then let? ls := cseg c RIGHT in Some (true, (add_merged ls c, rest)) else
  let? samer := samedata c GCAR RIGHT in
  if samer then let? ls := cseg c LEFT in Some (true, (add_merged ls c, rest)) else Some (false, m).

(** ** Automerge: by content *)

Context (crc32c : Z → cstr → Z) (HASH : Z → Z).

Definition smergeData (lines : side → list ld) (idx : Z) (s : side) : cstr :=
  default [] (l_line <$> get0 (lines s) idx).

(** The empty slot of the hash. *)
Definition no_thing : thing := mkThing 0 DF_LEFT false.

(** [diff_items] on ranges of two files. *)
Definition sm_diff (lf rt : fidx) (range : hunk) : option (list hunk) :=
  let data := smergeData (λ s, f_lines (body (match s with DF_LEFT => lf | DF_RIGHT => rt end))) in
  diff_items (ops := u32hash_ops true HASH no_thing) (u32hash_new true no_thing)
    (diff_cmpLine data) (diff_hashLine data crc32c) (Some (diff_cost data)) range true.

(** [n] lines of a file from [from]. *)
Definition zseg (side : fidx) (from n : Z) : option (list ld) :=
  assert! 0 <=? from;
  seg side (Z.to_nat from) (Z.to_nat from + Z.to_nat n).

(** Side [s] of the diffs as a file. *)
Definition side_file (s : side) : fidx := match s with DF_LEFT => LEFT | DF_RIGHT => RIGHT end.

Definition other_side (s : side) : side := match s with DF_LEFT => DF_RIGHT | DF_RIGHT => DF_LEFT end.

(** The lines of [common] are somewhere in [block]. *)
Definition block_has (common block : list ld) : bool :=
  existsb (λ j, same_lines (take (length common) (drop j block)) common)
    (seq 0 (length block + 1 - length common)).

(** [hs] is the hunk of [s], [ho] that of the other side. *)
Definition uniqueSeparator (s : side) (hs ho : hunk) : option bool :=
  let cstart := DEND hs DF_LEFT in
  let clen := DSTART ho DF_LEFT - cstart in
  if clen =? 0 then Some false else
  let? common := zseg GCA cstart clen in
  let '(h0, h1) := match s with DF_LEFT => (hs, ho) | DF_RIGHT => (ho, hs) end in
  let? b0 := zseg LEFT (DSTART h0 DF_RIGHT) (DLEN h0 DF_RIGHT) in
  if block_has common b0 then Some false else
  let? b1 := zseg RIGHT (DSTART h1 DF_RIGHT) (DLEN h1 DF_RIGHT) in
  Some (negb (block_has common b1)).

(** [h]: the hunks from the pointer on, none for the null pointer. *)
Definition can_apply (h : side → list hunk) (s : side) : option bool :=
  match h s, h (other_side s) with
  | [], _ => Some false
  | _, [] => Some true
  | hs :: _, ho :: _ =>
      if DSTART ho DF_LEFT <? DEND hs DF_LEFT then Some false
      else if (DLEN hs DF_LEFT =? 0) || (DLEN ho DF_LEFT =? 0) then uniqueSeparator s hs ho
      else Some true
  end.

(** The lines of GCA before the hunk [x] of [s] and the lines it adds; the new
    [ig]. *)
Definition apply_hunk_lines (s : side) (x : hunk) (ig : Z) : option (list ld * Z) :=
  let? g := zseg GCA ig (DSTART x DF_LEFT - ig) in
  let? n := zseg (side_file s) (DSTART x DF_RIGHT) (DLEN x DF_RIGHT) in
  Some (g ++ n, Z.max ig (DSTART x DF_LEFT) + DLEN x DF_LEFT).

Definition drop_hunk (s : side) (h : side → list hunk) : side → list hunk :=
  λ t, match s, t with DF_LEFT, DF_LEFT | DF_RIGHT, DF_RIGHT => tail (h t) | _, _ => h t end.

(** The merged lines and [ig]; [Some None]: the hunks overlap. *)
Fixpoint content_loop (fuel : nat) (h : side → list hunk) (ig : Z) (merged : list ld) : option (option (list ld * Z)) :=
  match h DF_LEFT, h DF_RIGHT with
  | [], [] => Some (Some (merged, ig))
  | _, _ =>
      match fuel with
      | O => None
      | S fuel =>
          let? l := can_apply h DF_LEFT in
          let? side := (if l then Some (Some DF_LEFT) else
                        let? r := can_apply h DF_RIGHT in Some (if r then Some DF_RIGHT else None)) in
          match side with
          | None => Some None
          | Some s =>
              let? x := head (h s) in
              let? (ls, ig) := apply_hunk_lines s x ig in
              content_loop fuel (drop_hunk s h) ig (merged ++ ls)
          end
      end
  end.

Definition merge_content (m : mstate) : option (bool * mstate) :=
  let '(c, rest) := m in
  if (c_start c GCA =? c_end c GCA)%nat then Some (false, m) else
  let range s := mkHunk (Z.of_nat (c_start c GCA)) (Z.of_nat (c_start c s))
                        (Z.of_nat (c_end c GCA) - Z.of_nat (c_start c GCA)) (Z.of_nat (c_end c s) - Z.of_nat (c_start c s)) in
  let? hl := sm_diff GCA LEFT (range LEFT) in
  let? hr := sm_diff GCA RIGHT (range RIGHT) in
  let h s := match s with DF_LEFT => hl | DF_RIGHT => hr end in
  let? r := content_loop (length hl + length hr) h (Z.of_nat (c_start c GCA)) (default [] (c_merged c)) in
  match r with
  | None => Some (false, (set_merged None c, rest))
  | Some (merged, ig) =>
      let? tl := zseg GCA ig (Z.of_nat (c_end c GCA) - ig) in
      Some (true, (set_merged (Some (merged ++ tl)) c, rest))
  end.

(** ** Automerge: splitting regions *)

Definition split_conflict (splitidx : fidx → nat) (m : mstate) : option mstate :=
  let '(c, rest) := m in
  let? l := line_at GCA (c_start c GCA + splitidx GCA) in
  let seq := l_seq l in
  assert! negb (seq =? 0);
  let mid i := (c_start c i + splitidx i)%nat in
  let newc := mkConflct mid (c_end c) (to_int seq) (c_end_seq c) None false [] in
  Some (set_range (c_start c) mid (to_int seq) true c, newc :: rest).

(** [i] and [j] of the loops over the lines both sides start with: [chk] is
    [chkgca]. *)
Fixpoint common_count (l r g : list ld) (chk : bool) : nat * nat :=
  match l, r with
  | x :: l, y :: r =>
      if sameline x y then
        let hit := match g with z :: _ => chk && sameline x z | [] => false end in
        let '(i, j) := common_count l r (tail g) hit in
        (S i, if hit then S j else j)
      else (0, 0)%nat
  | _, _ => (0, 0)%nat
  end.

Definition merge_common_header (m : mstate) : option (bool * mstate) :=
  let '(c, rest) := m in
  let? l := cseg c LEFT in
  let? r := cseg c RIGHT in
  let? g := cseg c GCA in
  let '(i, j) := common_count l r g true in
  if (i =? 0)%nat || ((i =? length l)%nat && (i =? length r)%nat) then Some (false, m) else
  let? m := split_conflict (λ f, match f with LEFT | RIGHT => i | GCA | GCAR => j end) m in
  Some (true, m).

Definition merge_common_footer (m : mstate) : option (bool * mstate) :=
  let '(c, rest) := m in
  let? l := cseg c LEFT in
  let? r := cseg c RIGHT in
  let? g := cseg c GCA in
  let? h := cseg c GCAR in
  let '(i, j) := common_count (reverse l) (reverse r) (reverse g) true in
  if (i =? 0)%nat || ((i =? length l)%nat && (i =? length r)%nat) then Some (false, m) else
  let? m := split_conflict (λ f, match f with
                                 | LEFT => length l - i | RIGHT => length r - i
                                 | GCA => length g - j | GCAR => length h - j end)%nat m in
  Some (true, m).

(** ** Differences by sequence number *)

(** [l] and [r]: the lines left; [del] and [ins]: the lines held back. *)
Fixpoint unidiff_loop (fuel : nat) (l r : list ld) (del ins : list diffln) : option (list diffln) :=
  match l, r with
  | [], [] => Some (del ++ ins)
  | _, _ =>
      match fuel with
      | O => None
      | S fuel =>
          match l, r with
          | x :: l', [] => unidiff_loop fuel l' r (del ++ [mkDiffln x None 45]) ins
          | x :: l', y :: r' =>
              if l_seq x <? l_seq y then unidiff_loop fuel l' r (del ++ [mkDiffln x None 45]) ins
              else if l_seq y <? l_seq x then unidiff_loop fuel l r' del (ins ++ [mkDiffln y None 43])
              else
                assert! l_seq x =? l_seq y;
                let? out := unidiff_loop fuel l' r' [] [] in
                Some (del ++ ins ++ [mkDiffln x None 32] ++ out)
          | [], y :: r' => unidiff_loop fuel l r' del (ins ++ [mkDiffln y None 43])
          | [], [] => None
          end
      end
  end.

Definition unidiff (c : conflct) (left right : fidx) : option (list diffln) :=
  let? l := cseg c left in
  let? r := cseg c right in
  unidiff_loop (length l + length r) l r [] [].

(** The number of lines deleted at the end. *)
Fixpoint lead_dels (d : list diffln) : nat :=
  match d with
  | x :: d => if d_c x =? 45 then S (lead_dels d) else 0%nat
  | [] => 0%nat
  end.

Definition trail_dels (d : list diffln) : nat := lead_dels (reverse d).

Definition merge_common_deletes (m : mstate) : option (bool * mstate) :=
  let '(c, rest) := m in
  let? dl := unidiff c GCA LEFT in
  let? dr := unidiff c GCAR RIGHT in
  let cnt := Nat.min (trail_dels dl) (trail_dels dr) in
  if (0 <? cnt)%nat then
    let len f := (c_end c f - c_start c f)%nat in
    let? m := split_conflict (λ f, match f with LEFT | RIGHT => len f | GCA | GCAR => len f - cnt end)%nat m in
    Some (true, m)
  else Some (false, m).

(** [while (start[side][i].seq < seq)] up to [maxlen]. *)
Fixpoint seq_below (ls : list ld) (seq : Z) : nat :=
  match ls with
  | l :: ls => if l_seq l <? seq then S (seq_below ls seq) else 0%nat
  | [] => 0%nat
  end.

Definition merge_added_oneside (m : mstate) : option (bool * mstate) :=
  let '(c, rest) := m in
  if existsb (λ i, c_end c i =? c_start c i)%nat FILES then Some (false, m) else
  let? g := line_at GCA (c_start c GCA) in
  let? l := line_at LEFT (c_start c LEFT) in
  let? r := line_at RIGHT (c_start c RIGHT) in
  let seq := l_seq g in
  let go side :=
    (let? ls := cseg c side in
     let? m := split_conflict (λ f, if decide (f = side) then seq_below ls seq else 0%nat) m in
     Some (true, m)) in
  if (l_seq l =? seq) && (l_seq r <? seq) then go RIGHT
  else if (l_seq r =? seq) && (l_seq l <? seq) then go LEFT
  else Some (false, m).

(** The loop that counts matching lines. *)
Fixpoint same_count (a b : list ld) : nat :=
  match a, b with
  | x :: a, y :: b => if sameline x y then S (same_count a b) else 0%nat
  | _, _ => 0%nat
  end.

Definition merge_with_following_gca (m : mstate) : option (bool * mstate) :=
  let '(c, rest) := m in
  let len i := (c_end c i - c_start c i)%nat in
  let go side :=
    (let gap := match rest with
                | next :: _ => (c_start next GCA - c_end c GCA)%nat
                | [] => (f_n (body GCA) - c_end c GCA)%nat
                end in
     let gap := Nat.min gap (len side) in
     let? a := seg side (c_start c side) (c_start c side + gap) in
     let? b := seg GCA (c_end c GCA) (c_end c GCA + gap) in
     let j := same_count a b in
     if (j =? 0)%nat then Some (false, m) else
     let en i := (c_end c i + j)%nat in
     let? l := line_at GCA (en GCA) in
     Some (true, (set_range (c_start c) en (to_int (l_seq l)) (c_split c) c, rest))) in
  if (len LEFT =? 0)%nat && negb (len RIGHT =? 0)%nat then go RIGHT
  else if (len RIGHT =? 0)%nat && negb (len LEFT =? 0)%nat then go LEFT
  else Some (false, m).

(** ** Differences by content *)

(** [DFOREACH(h, side, j)] with the lines of [f] marked [ch]. *)
Definition diff_lines (f : fidx) (ch : Z) (from n : Z) : option (list diffln) :=
  let? ls := zseg f from n in Some (map (λ l, mkDiffln l None ch) ls).

Fixpoint ndiff_loop (lf rt : fidx) (range : hunk) (from : option hunk) (hs : list hunk) : option (list diffln) :=
  match hs with
  | [] =>
      let? common := diff_mkCommon range from None in
      diff_lines lf 32 (DSTART common DF_LEFT) (DLEN common DF_LEFT)
  | h :: hs =>
      let? common := diff_mkCommon range from (Some h) in
      let? a := diff_lines lf 32 (DSTART common DF_LEFT) (DLEN common DF_LEFT) in
      let? d := diff_lines lf 45 (DSTART h DF_LEFT) (DLEN h DF_LEFT) in
      let? i := diff_lines rt 43 (DSTART h DF_RIGHT) (DLEN h DF_RIGHT) in
      let? rest := ndiff_loop lf rt range (Some h) hs in
      Some (a ++ d ++ i ++ rest)
  end.

Definition unidiff_ndiff (c : conflct) (lf rt : fidx) : option (list diffln) :=
  let range := mkHunk (Z.of_nat (c_start c lf)) (Z.of_nat (c_start c rt))
                      (Z.of_nat (c_end c lf) - Z.of_nat (c_start c lf)) (Z.of_nat (c_end c rt) - Z.of_nat (c_start c rt)) in
  let? hs := sm_diff lf rt range in
  let n := fold_left (λ n h, n + DLEN h DF_RIGHT) hs (DLEN range DF_LEFT) in
  let? ret := ndiff_loop lf rt range None hs in
  assert! Z.of_nat (length ret) =? n;
  Some ret.

(** ** Highlighting *)

(** The length of the common start of two strings. *)
Fixpoint common_prefix (a b : cstr) : nat :=
  match a, b with
  | x :: a, y :: b => if x =? y then S (common_prefix a b) else 0%nat
  | _, _ => 0%nat
  end.

Definition highlight_line (del add : diffln) : diffln * diffln :=
  let dline := l_line (d_ld del) in
  let aline := l_line (d_ld add) in
  let dlen := Z.of_nat (length dline) in
  let alen := Z.of_nat (length aline) in
  let s := common_prefix dline aline in
  let e := common_prefix (reverse (drop s dline)) (reverse (drop s aline)) in
  let len := Z.max alen dlen in
  let s := Z.of_nat s in
  let e := Z.of_nat e in
  if s + e <? len / 3 then (del, add) else
  (if s + e <? dlen then mkDiffln (d_ld del) (Some (s, dlen - e)) (d_c del) else del,
   if s + e <? alen then mkDiffln (d_ld add) (Some (s, alen - e)) (d_c add) else add).

(** [while (diff[a].ld && p(diff[a].c)) a++]: the number of lines passed. *)
Fixpoint skip_lines (p : Z → bool) (diff : list diffln) : nat :=
  match diff with
  | x :: diff => if p (d_c x) then S (skip_lines p diff) else 0%nat
  | [] => 0%nat
  end.

(** The replacement loop; returns [b]. *)
Fixpoint replace_loop (fuel : nat) (diff : list diffln) (a b : nat) : option (list diffln * nat) :=
  match fuel with
  | O => None
  | S fuel =>
      match diff !! b with
      | None => Some (diff, b)
      | Some y =>
          let? x := diff !! a in
          if (d_c x =? 45) && (d_c y =? 43) then
            let '(x, y) := highlight_line x y in
            replace_loop fuel (<[b := y]> (<[a := x]> diff)) (S a) (S b)
          else Some (diff, b)
      end
  end.

Fixpoint highlight_loop (fuel : nat) (diff : list diffln) (a : nat) : option (list diffln) :=
  match fuel with
  | O => None
  | S fuel =>
      let a := (a + skip_lines (λ c, negb (c =? 45)%Z) (drop a diff))%nat in
      match diff !! a with
      | None => Some diff
      | Some _ =>
          let b := (a + 1 + skip_lines (λ c, (c =? 45)%Z) (drop (a + 1) diff))%nat in
          let? (diff, b) := replace_loop (S (length diff)) diff a b in
          highlight_loop fuel diff b
      end
  end.

Definition highlight_diff (diff : list diffln) : option (list diffln) :=
  highlight_loop (S (length diff)) diff 0.

(** ** Showing a conflict *)

Fixpoint print_difflns (ds : list diffln) : option cstr :=
  match ds with
  | [] => Some []
  | d :: ds =>
      let? a := printline (d_ld d) (d_c d) true in
      let? b := print_difflns ds in
      Some (a ++ b)
  end.

(** [if (show_mergefn && curr->algos)] a space and the names. *)
Definition algos_text (c : conflct) : option cstr :=
  match s_show_mergefn o, c_algos c with
  | true, _ :: _ => let? t := joinLines (Some comma_space) (c_algos c) in let? t := t in Some (32 :: t)
  | _, _ => Some []
  end.

Definition head_line (side : cstr) (f : fidx) : cstr :=
  str "<<<<<<< "%string ++ side ++ [32] ++ s_file o ++ [32] ++ s_revs o f ++ NL.

Definition vs_line (side : cstr) (g f : fidx) (fcns : cstr) : cstr :=
  str "<<<<<<< "%string ++ side ++ [32] ++ s_file o ++ [32] ++ s_revs o g ++ str " vs "%string ++ s_revs o f ++ fcns ++ NL.

Definition tail_line : cstr := str ">>>>>>>"%string ++ NL.

(** MODE_GCA and MODE_NEWONLY: [keep] says which lines are printed. *)
Definition user_conflict_vs (c : conflct) (fcns : cstr) (keep : diffln → bool) : option cstr :=
  let? sameleft := samedata c GCA LEFT in
  let? sameright := samedata c GCAR RIGHT in
  let? a := (if sameleft && negb sameright then Some [] else
    let? ds := unidiff_ndiff c GCA LEFT in
    let? t := print_difflns (List.filter keep ds) in
    Some (vs_line (str "local"%string) GCA LEFT fcns ++ t)) in
  let? b := (if sameright && negb sameleft then Some [] else
    let? ds := unidiff_ndiff c GCAR RIGHT in
    let? t := print_difflns (List.filter keep ds) in
    Some (vs_line (str "remote"%string) GCAR RIGHT fcns ++ t)) in
  Some (a ++ b ++ tail_line).

Definition user_conflict (c : conflct) : option cstr :=
  let? fcns := algos_text c in
  match s_mode o with
  | MODE_GCA => user_conflict_vs c fcns (λ _, true)
  | MODE_2WAY =>
      let? l := printlines c LEFT true in
      let? r := printlines c RIGHT true in
      Some (head_line (str "local"%string) LEFT ++ l ++ head_line (str "remote"%string) RIGHT ++ r ++ tail_line)
  | MODE_3WAY =>
      let? g := printlines c GCA true in
      let? l := printlines c LEFT true in
      let? r := printlines c RIGHT true in
      Some (head_line (str "gca"%string) GCA ++ g ++ head_line (str "local"%string) LEFT ++ l ++
            head_line (str "remote"%string) RIGHT ++ r ++ tail_line)
  | MODE_NEWONLY => user_conflict_vs c fcns (λ d, negb (d_c d =? 45))
  end.

(** The columns of fdiff output: [None] in MODE_3WAY, where the program exits
    ([smerge_main] does not let that mode through with fdiff). *)
Definition fdiff_columns (c : conflct) : option (list diffln * list diffln) :=
  match s_mode o with
  | MODE_GCA =>
      let? l := unidiff c GCA LEFT in
      let? r := unidiff c GCAR RIGHT in
      Some (l, r)
  | MODE_2WAY =>
      let? l := cseg c LEFT in
      let? r := cseg c RIGHT in
      Some (map (λ x, mkDiffln x None 32) l, map (λ x, mkDiffln x None 32) r)
  | MODE_NEWONLY =>
      let? l := unidiff c GCA LEFT in
      let? r := unidiff c GCAR RIGHT in
      Some (List.filter (λ d, negb (d_c d =? 45)) l, List.filter (λ d, negb (d_c d =? 45)) r)
  | MODE_3WAY => None
  end.

Definition blankline : diffln := mkDiffln (mkLd 0 [10] None) None 115.

(** A line and its highlighting. *)
Definition print_column (d : diffln) : option cstr :=
  let? a := printline (d_ld d) (d_c d) true in
  Some (a ++ match d_highlight d with Some h => printhighlight h | None => [] end).

Fixpoint print_columns (ds : list diffln) : option cstr :=
  match ds with
  | [] => Some []
  | d :: ds => let? a := print_column d in let? b := print_columns ds in Some (a ++ b)
  end.

(** The loop over [lp] and [rp]: the lines of both columns, side by side. *)
Fixpoint fdiff_rows (fuel : nat) (lp rp : list diffln) : option (list (diffln * diffln)) :=
  match lp, rp with
  | [], [] => Some []
  | _, _ =>
      match fuel with
      | O => None
      | S fuel =>
          match lp, rp with
          | x :: lp', [] => let? t := fdiff_rows fuel lp' rp in Some ((x, blankline) :: t)
          | x :: lp', y :: rp' =>
              if l_seq (d_ld x) <? l_seq (d_ld y) then let? t := fdiff_rows fuel lp' rp in Some ((x, blankline) :: t)
              else if l_seq (d_ld y) <? l_seq (d_ld x) then let? t := fdiff_rows fuel lp rp' in Some ((blankline, y) :: t)
              else let? t := fdiff_rows fuel lp' rp' in Some ((x, y) :: t)
          | [], y :: rp' => let? t := fdiff_rows fuel lp rp' in Some ((blankline, y) :: t)
          | [], [] => None
          end
      end
  end.

Definition user_conflict_fdiff (c : conflct) : option cstr :=
  let? (l, r) := fdiff_columns c in
  let? l := highlight_diff l in
  let? r := highlight_diff r in
  let? rows := fdiff_rows (length l + length r) l r in
  let? a := print_columns (map fst rows) in
  let? b := print_columns (map snd rows) in
  Some ([76] ++ (match c_merged c with Some _ => [] | None => [32] ++ printf_d (c_start_seq c) end) ++ NL ++ a ++
        [82] ++ NL ++ b).

(** ** Resolving a conflict *)

Definition run_fcn (f : mergefcn) (m : mstate) : option (bool * mstate) :=
  match f with
  | F_conflicts => merge_conflicts m
  | F_same_changes => merge_same_changes m
  | F_only_one => merge_only_one m
  | F_content => merge_content m
  | F_common_header => merge_common_header m
  | F_added_oneside => merge_added_oneside m
  | F_common_footer => merge_common_footer m
  | F_common_deletes => merge_common_deletes m
  | F_with_following_gca => merge_with_following_gca m
  end.

(** The [for] loop over the table. *)
Fixpoint run_fcns (fs : list mergefcns) (changed : bool) (m : mstate) : option (bool * mstate) :=
  match fs with
  | [] => Some (changed, m)
  | f :: fs =>
      if m_enable f =? 0 then run_fcns fs changed m else
      let? (r, m) := run_fcn (m_fcn f) m in
      let m := if r then (add_algo (m_fname f) (fst m), snd m) else m in
      let changed := changed || r in
      match c_merged (fst m) with
      | Some _ => Some (changed, m)
      | None => run_fcns fs changed m
      end
  end.

Fixpoint resolve_loop (fuel : nat) (m : mstate) : option mstate :=
  match fuel with
  | O => None
  | S fuel =>
      let? (changed, m) := run_fcns (s_fcns o) false m in
      match c_merged (fst m) with
      | Some _ => Some m
      | None => if changed then resolve_loop fuel m else Some m
      end
  end.

(** Each round shortens a measure of at most this size. *)
Definition resolve_fuel (rest : list conflct) : nat := (total_lines + length rest + 3)%nat.

(** The return value, the output, and the regions that are left. *)
Definition resolve_conflict (m : mstate) : option (Z * cstr * mstate) :=
  let? m := resolve_loop (resolve_fuel (snd m)) m in
  let c := fst m in
  let? (ret, out) :=
    (match c_merged c with
     | Some p =>
         let? h := (if s_fdiff o then
                      let? t := algos_text c in Some ([77; 32] ++ printf_d (c_start_seq c) ++ t ++ NL)
                    else Some []) in
         let? a := print_lds p 0 (s_fdiff o) in
         let? b := (if s_fdiff o then user_conflict_fdiff c else Some []) in
         Some (0, h ++ a ++ b)
     | None =>
         let? a := (if s_fdiff o then user_conflict_fdiff c else user_conflict c) in
         Some (1, a)
     end) in
  let? e := (if s_fdiff o then
               assert! negb (c_end_seq c =? 0); Some ([69; 32] ++ printf_d (c_end_seq c) ++ NL)
             else Some []) in
  Some (ret, out ++ e, m).

(** ** Merging *)

(** The loop over [len] common lines from [mk]: the output, and whether the end
    of the wanted range was reached. *)
Fixpoint common_loop (len : nat) (mk : fidx → nat) (start end_ : Z) : option (cstr * bool) :=
  match len with
  | O => Some ([], false)
  | S len =>
      let? g := line_at GCA (mk GCA) in
      let? l := line_at LEFT (mk LEFT) in
      let? r := line_at RIGHT (mk RIGHT) in
      assert! (l_seq g =? l_seq l) && (l_seq g =? l_seq r);
      let mk' i := S (mk i) in
      if l_seq g <=? start then common_loop len mk' start end_
      else if end_ <=? l_seq g then Some ([], true)
      else
        let? a := printline g 0 false in
        let? (b, stop) := common_loop len mk' start end_ in
        Some (a ++ b, stop)
  end.

(** From the marks [mk] on, with the conflicts [cs] left: the return value and
    the output. *)
Fixpoint weave_loop (fuel : nat) (mk : fidx → nat) (cs : list conflct) (start end_ : Z) : option (Z * cstr) :=
  match fuel with
  | O => None
  | S fuel =>
      match cs with
      | [] =>
          let len := (f_n (body GCA) - mk GCA)%nat in
          assert! forallb (λ i, mk i + len =? f_n (body i))%nat FILES;
          let? (a, _) := common_loop len mk start end_ in
          Some (0, a)
      | c :: rest =>
          let len := (c_start c GCA - mk GCA)%nat in
          assert! forallb (λ i, mk i + len =? c_start c i)%nat FILES;
          let? (a, stop) := common_loop len mk start end_ in
          if stop then Some (0, a) else
          let? (ret, b, m) := (if start <=? u32 (c_start_seq c) then resolve_conflict (c, rest)
                               else Some (0, [], (c, rest))) in
          let? (ret', d) := weave_loop fuel (c_end (fst m)) (snd m) start end_ in
          Some (if ret =? 0 then ret' else 1, a ++ b ++ d)
      end
  end.

Definition do_weave_merge (start end_ : Z) : option (Z * cstr) :=
  let? cs := find_conflicts in
  weave_loop (S (S total_lines)) (λ _, 0%nat) cs start end_.

End Merge.

(** ** The command *)

(** The left and right files have the same lines. *)
Definition identical (body : fidx → file) : option bool :=
  if (f_n (body LEFT) =? f_n (body RIGHT))%nat then
    let? l := seg body LEFT 0 (f_n (body LEFT)) in
    let? r := seg body RIGHT 0 (f_n (body RIGHT)) in
    Some (same_lines l r)
  else Some false.

(** The part of [smerge_main] after the options, without [-d]: [o] as the options
    left it. *)
Definition smerge (crc32c : Z → cstr → Z) (HASH : Z → Z) (o : smopts) (body : fidx → file) (start end_ : Z) : option (Z * cstr) :=
  let mode := match s_fdiff o, s_mode o with true, MODE_3WAY => MODE_GCA | _, m => m end in
  let gca := s_revs o GCA in
  let? fcns := (match strchr gca 43, strchr gca 45 with
                | None, None => Some (s_fcns o)
                | _, _ => enable_mergefcns (str "3"%string) 0 (s_fcns o)
                end) in
  let? same := identical body in
  let body := if same then <[RIGHT := body LEFT]> body else body in
  let revs := if same then <[RIGHT := s_revs o LEFT]> (s_revs o) else s_revs o in
  let o := mkSm mode (s_fdiff o) (s_show_mergefn o) (s_show_seq o) (s_file o) revs fcns in
  do_weave_merge o body crc32c HASH start end_.
