(* ===== verification/SmergeFind.v ===== *)
(** * SmergeFind: where the conflicts are

    [find_conflicts] cuts the four files of a merge into common lines and conflict
    regions; the invariant of the list of regions that the automerge functions
    keep. *)

From S2P Require Import Prelude CStr Shell HashIface U32Hash Diff NDiff Smerge.
From stdpp Require Import base functions numbers list.
From Stdlib Require Import ZArith Lia.

Local Open Scope Z_scope.

Local Open Scope bk_scope.

(** ** Slices of a list *)

Definition slice {A} (l : list A) (a b : nat) : list A := take (b - a) (drop a l).

Lemma slice_nil {A} (l : list A) a : slice l a a = [].
Proof. unfold slice. by rewrite Nat.sub_diag. Qed.

Lemma slice_all {A} (l : list A) : slice l 0 (length l) = l.
Proof. unfold slice. rewrite drop_0, Nat.sub_0_r. by apply take_ge. Qed.

Lemma slice_join {A} (l : list A) a b c : (a <= b <= c)%nat → slice l a b ++ slice l b c = slice l a c.
Proof.
  intros H. unfold slice. replace (c - a)%nat with ((b - a) + (c - b))%nat by lia.
  rewrite <- take_take_drop, drop_drop. do 3 f_equal. lia.
Qed.

Lemma length_slice {A} (l : list A) a b : (b <= length l)%nat → length (slice l a b) = (b - a)%nat.
Proof. intros H. unfold slice. rewrite length_take, length_drop. lia. Qed.

Lemma slice_cons {A} (l : list A) a b x : (a < b)%nat → l !! a = Some x → slice l a b = x :: slice l (S a) b.
Proof.
  intros H Hx. unfold slice. rewrite (drop_S _ x) by done. replace (b - a)%nat with (S (b - S a)) by lia. done.
Qed.

Lemma slice_snoc {A} (l : list A) a b x : (a <= b)%nat → l !! b = Some x → slice l a (S b) = slice l a b ++ [x].
Proof.
  intros H Hx. rewrite <- (slice_join l a b (S b)) by lia. by rewrite (slice_cons l b (S b) x), slice_nil by (done || lia).
Qed.

Lemma elem_slice {A} (l : list A) a b x : x ∈ slice l a b → x ∈ l.
Proof. unfold slice. intros H. rewrite <- (take_drop a l). apply elem_of_app. right. rewrite <- (take_drop (b - a) (drop a l)). apply elem_of_app. by left. Qed.

(** ** The files *)

(** What two copies of a line share. *)
Definition key (l : ld) : Z * cstr := (l_seq l, l_line l).

Definition texts (ls : list ld) : list cstr := map l_line ls.

Definition seqs (ls : list ld) : list Z := map l_seq ls.

Lemma same_lines_spec a : ∀ b, same_lines a b = true ↔ texts a = texts b.
Proof.
  induction a as [|x a IH]; intros [|y b]; cbn [same_lines texts map]; try (split; congruence).
  rewrite andb_true_iff. unfold sameline. rewrite bool_decide_eq_true, IH. unfold texts. split; [intros [-> ->]; done|].
  intros [= -> ->]. done.
Qed.

Section Files.

Context (L : fidx → list ld) (body : fidx → file).

(** The lines of the files, and that GCAR is GCA up to annotations. *)
Class merge_files : Prop := {
  mf_body : ∀ i, body i = file_of (L i);
  mf_seq : ∀ i l, l ∈ L i → 0 < l_seq l < SEQ_END;
  mf_gca : map key (L GCAR) = map key (L GCA)
}.

Context {wf : merge_files}.

Abbreviation sl i a b := (slice (L i) a b).

Lemma gca_length : length (L GCAR) = length (L GCA).
Proof. rewrite <- (length_map key (L GCAR)), mf_gca. apply length_map. Qed.

Lemma seg_ok i a b : (b <= length (L i))%nat → seg body i a b = Some (sl i a b).
Proof.
  intros H. unfold seg. rewrite mf_body. unfold file_of. cbn [f_lines]. rewrite length_app. cbn [length].
  destruct (Nat.leb_spec b (length (L i) + 1)); [|lia]. f_equal. unfold slice.
  destruct (Nat.le_gt_cases a (length (L i))).
  - rewrite drop_app_le by done. rewrite take_app_le; [done|]. rewrite length_drop. lia.
  - by replace (b - a)%nat with 0%nat by lia.
Qed.

Lemma line_ok i p : (p < length (L i))%nat → ∃ l, L i !! p = Some l ∧ line_at body i p = Some l ∧ 0 < l_seq l < SEQ_END.
Proof.
  intros H. apply lookup_lt_is_Some in H as [l Hl]. exists l. split; [done|]. split.
  - unfold line_at. rewrite mf_body. by apply lookup_app_l_Some.
  - apply (mf_seq i). by eapply list_elem_of_lookup_2.
Qed.

Lemma line_end i : line_at body i (length (L i)) = Some (mkLd SEQ_END [] None).
Proof. unfold line_at. rewrite mf_body. cbn. by rewrite lookup_app_r, Nat.sub_diag by done. Qed.

Lemma line_any i p : (p <= length (L i))%nat → ∃ l, line_at body i p = Some l ∧ 0 < l_seq l <= SEQ_END.
Proof.
  intros H. destruct (decide (p = length (L i))) as [->|].
  - rewrite line_end. eexists. split; [done|]. cbn. unfold SEQ_END. lia.
  - destruct (line_ok i p) as (l & _ & Hl & Hs); [lia|]. exists l. split; [done|]. lia.
Qed.

Lemma f_n_eq i : f_n (body i) = length (L i).
Proof. by rewrite mf_body. Qed.

Lemma total_ok : total_lines body = (length (L LEFT) + length (L RIGHT) + length (L GCA) + length (L GCAR))%nat.
Proof. unfold total_lines, FILES. cbn [fold_left]. rewrite !f_n_eq. lia. Qed.

Lemma gca_seqs : seqs (f_lines (body GCAR)) = seqs (f_lines (body GCA)).
Proof.
  rewrite !mf_body. unfold seqs. cbn. rewrite !map_app. f_equal.
  transitivity (map fst (map key (L GCAR))); [by rewrite map_map|]. rewrite mf_gca. by rewrite map_map.
Qed.

(** ** The regions *)

(** [k] lines from [mk] on have the same sequence numbers in all files. *)
Record common (mk : fidx → nat) (k : nat) : Prop := {
  cm_in : ∀ i, (mk i + k <= length (L i))%nat;
  cm_seq : ∀ i, seqs (sl i (mk i) (mk i + k)) = seqs (sl GCA (mk GCA) (mk GCA + k))
}.

(** The number of lines of a region. *)
Definition csize (c : conflct) : nat :=
  (c_end c LEFT - c_start c LEFT + (c_end c RIGHT - c_start c RIGHT) +
   (c_end c GCA - c_start c GCA) + (c_end c GCAR - c_start c GCAR))%nat.

Record region (c : conflct) : Prop := {
  rg_in : ∀ i, (c_start c i <= c_end c i <= length (L i))%nat;
  rg_start : c_start c GCAR = c_start c GCA;
  rg_end : c_end c GCAR = c_end c GCA;
  rg_size : (0 < csize c)%nat;
  rg_seq : c_end_seq c ≠ 0
}.

(** Common lines and fresh regions from [mk] to the end of the files. *)
Fixpoint chain (mk : fidx → nat) (cs : list conflct) : Prop :=
  match cs with
  | [] => ∃ k, common mk k ∧ ∀ i, (mk i + k = length (L i))%nat
  | c :: cs =>
      (∃ k, common mk k ∧ ∀ i, c_start c i = (mk i + k)%nat) ∧
      region c ∧ c_merged c = None ∧ c_split c = false ∧ chain (c_end c) cs
  end.

Lemma common_nil mk : (∀ i, (mk i <= length (L i))%nat) → common mk 0.
Proof. intros H. split; intros i; rewrite ?Nat.add_0_r, ?slice_nil; [apply H|done]. Qed.

Lemma common_drop mk mk' a b : common mk (a + b) → (∀ i, mk' i = (mk i + a)%nat) → common mk a ∧ common mk' b.
Proof.
  intros [Hin Hs] Hm.
  assert (Hl : ∀ i, length (seqs (sl i (mk i) (mk i + a))) = a).
  { intros i. unfold seqs. rewrite length_map, length_slice; [lia|]. specialize (Hin i). lia. }
  assert (Hsp : ∀ i, seqs (sl i (mk i) (mk i + (a + b))) =
     seqs (sl i (mk i) (mk i + a)) ++ seqs (sl i (mk' i) (mk' i + b))).
  { intros i. unfold seqs. rewrite <- map_app. f_equal. rewrite Hm. rewrite slice_join by lia. f_equal. lia. }
  assert (He : ∀ i, seqs (sl i (mk i) (mk i + a)) = seqs (sl GCA (mk GCA) (mk GCA + a)) ∧
     seqs (sl i (mk' i) (mk' i + b)) = seqs (sl GCA (mk' GCA) (mk' GCA + b))).
  { intros i. specialize (Hs i). rewrite !Hsp in Hs. apply app_inj_1 in Hs; [done|]. by rewrite !Hl. }
  split; (split; intros i; [rewrite ?Hm; specialize (Hin i); lia|apply He]).
Qed.

Lemma common_snoc mk k :
  common mk k → (∀ i, (mk i + k < length (L i))%nat) →
  (∀ i l g, L i !! (mk i + k)%nat = Some l → L GCA !! (mk GCA + k)%nat = Some g → l_seq l = l_seq g) →
  common mk (S k).
Proof.
  intros [Hin Hs] Hlt Heq. split; intros i; [specialize (Hlt i); lia|].
  destruct (lookup_lt_is_Some_2 (L i) (mk i + k)%nat (Hlt i)) as [l El].
  destruct (lookup_lt_is_Some_2 (L GCA) (mk GCA + k)%nat (Hlt GCA)) as [g Eg].
  rewrite !Nat.add_succ_r, (slice_snoc _ (mk i) _ l), (slice_snoc _ (mk GCA) _ g) by (done || lia).
  unfold seqs in *. rewrite !map_app, Hs. cbn. do 2 f_equal. by apply (Heq i).
Qed.

(** Two files differ at their marks. *)
Definition differ (mk : fidx → nat) : Prop :=
  ∃ i l g, line_at body i (mk i) = Some l ∧ line_at body GCA (mk GCA) = Some g ∧ l_seq l ≠ l_seq g.

Lemma match_len_ok k : ∀ mk j,
  common mk j → (∀ i, (mk i + (j + k) <= length (L i))%nat) →
  ∃ j', match_len body k mk j = Some j' ∧ common mk j' ∧
    (j' = (j + k)%nat ∨ (j' < j + k)%nat ∧ differ (λ i, (mk i + j')%nat)).
Proof.
  induction k as [|k IH]; intros mk j Hc Hin; cbn [match_len].
  { exists j. split_and!; [done|done|]. left. lia. }
  assert (Hlt : ∀ i, (mk i + j < length (L i))%nat) by (intros i; specialize (Hin i); lia).
  destruct (line_ok LEFT _ (Hlt LEFT)) as (l & Ll & Al & _), (line_ok RIGHT _ (Hlt RIGHT)) as (r & Lr & Ar & _),
    (line_ok GCA _ (Hlt GCA)) as (g & Lg & Ag & _), (line_ok GCAR _ (Hlt GCAR)) as (h & Lh & Ah & _).
  rewrite Al, Ar, Ag, Ah.
  destruct ((l_seq l =? l_seq r) && (l_seq l =? l_seq g) && (l_seq l =? l_seq h)) eqn:E.
  - boolify. destruct (IH mk (S j)) as (j' & Hj & Hc' & Hd).
    + apply common_snoc; [done..|]. intros i x y Hx Hy. assert (y = g) as -> by congruence. destruct i; congruence.
    + intros i. specialize (Hin i). lia.
    + exists j'. split_and!; [done|done|]. destruct Hd as [->|[? ?]]; [left; lia|right; split; [lia|done]].
  - exists j. split_and!; [done|done|]. right. split; [lia|].
    unfold differ. destruct (Z.eqb_spec (l_seq l) (l_seq g)) as [E1|E1]; [|by exists LEFT, l, g].
    destruct (Z.eqb_spec (l_seq l) (l_seq r)) as [E2|E2]; [|exists RIGHT, r, g; split_and!; [done|done|congruence]].
    destruct (Z.eqb_spec (l_seq l) (l_seq h)) as [E3|E3]; [done|exists GCAR, h, g; split_and!; [done|done|congruence]].
Qed.

(** ** The end of a conflict *)

Lemma end_while_ok ls : ∀ mk s m,
  m <= SEQ_END → s <= SEQ_END → (s :: seqs ls) !! length ls = Some SEQ_END →
  ∃ mk' q, end_while ls mk s m = Some (mk', q) ∧ (mk <= mk' <= mk + length ls)%nat ∧
    (s :: seqs ls) !! (mk' - mk)%nat = Some q ∧ m <= q ∧ (s < m → (mk < mk')%nat) ∧ (m <= s → mk' = mk ∧ q = s).
Proof.
  induction ls as [|l ls IH]; intros mk s m Hm Hs Hlast; cbn [end_while length].
  - injection Hlast as ->. destruct (Z.ltb_spec SEQ_END m); [lia|]. exists mk, SEQ_END.
    split_and!; [done|lia|lia|by rewrite Nat.sub_diag|done|lia|done].
  - destruct (Z.ltb_spec s m) as [Hlt|Hge].
    + destruct (decide (l_seq l <= SEQ_END)) as [Hl|Hl].
      * destruct (IH (S mk) (l_seq l) m) as (mk' & q & -> & Hr & Hq & Hmq & _ & _); [done|done|done|].
        exists mk', q. split_and!; [done|lia|lia| |done|lia|lia].
        replace (mk' - mk)%nat with (S (mk' - S mk)) by lia. done.
      * cbn [end_while]. destruct ls; cbn [end_while].
        all: destruct (Z.ltb_spec (l_seq l) m); [lia|]; exists (S mk), (l_seq l); split_and!; try lia; try done;
          by replace (S mk - mk)%nat with 1%nat by lia.
    + exists mk, s. split_and!; [done|lia|lia|by rewrite Nat.sub_diag|done|lia|done].
Qed.

Lemma end_while_seqs ls : ∀ ls' mk s m, seqs ls = seqs ls' → end_while ls mk s m = end_while ls' mk s m.
Proof.
  induction ls as [|l ls IH]; intros [|l' ls'] mk s m; cbn [seqs map]; try done. intros [= E1 E2]. cbn [end_while].
  rewrite E1. by rewrite (IH ls').
Qed.

Lemma end_while_again ls : ∀ mk s m mk' q,
  end_while ls mk s m = Some (mk', q) → end_while ls mk s (Z.max m q) = Some (mk', q).
Proof.
  induction ls as [|l ls IH]; intros mk s m mk' q; cbn [end_while].
  - destruct (Z.ltb_spec s m); [done|]. intros [= -> ->]. destruct (Z.ltb_spec q (Z.max m q)); [lia|done].
  - destruct (Z.ltb_spec s m).
    + intros H1. destruct (Z.ltb_spec s (Z.max m q)); [|lia]. by apply IH.
    + intros [= -> ->]. destruct (Z.ltb_spec q (Z.max m q)); [lia|done].
Qed.

(** Where the loop stands: [seq] is what the files have at the marks. *)
Record marks (mk : fidx → nat) (seq : fidx → Z) : Prop := {
  mk_in : ∀ i, (mk i <= length (L i))%nat;
  mk_seq : ∀ i, ∃ l, line_at body i (mk i) = Some l ∧ seq i = l_seq l
}.

Lemma marks_range mk seq i : marks mk seq → 0 < seq i <= SEQ_END.
Proof.
  intros Hm. destruct (mk_seq _ _ Hm i) as (l & Hl & ->).
  destruct (line_any i (mk i) (mk_in _ _ Hm i)) as (l' & Hl' & ?). congruence.
Qed.

Lemma end_file_ok i s :
  marks (e_mk s) (e_seq s) → e_max s <= SEQ_END →
  ∃ s', end_file body i s = Some s' ∧ marks (e_mk s') (e_seq s') ∧
    (∀ j, j ≠ i → e_mk s' j = e_mk s j ∧ e_seq s' j = e_seq s j) ∧ e_max s' = Z.max (e_max s) (e_seq s' i) ∧
    e_max s <= e_seq s' i ∧
    (e_seq s i < e_max s ∧ e_at_end s' = false ∧ (e_mk s i < e_mk s' i)%nat ∨
     e_max s <= e_seq s i ∧ e_at_end s' = e_at_end s ∧ e_mk s' i = e_mk s i ∧ e_seq s' i = e_seq s i).
Proof.
  intros Hm Hmax. pose proof (marks_range _ _ i Hm) as Hr. pose proof (mk_in _ _ Hm i) as Hin.
  destruct (mk_seq _ _ Hm i) as (l & Hl & El). unfold end_file.
  assert (Hd : drop (e_mk s i) (f_lines (body i)) = l :: drop (S (e_mk s i)) (f_lines (body i))) by (by apply drop_S).
  assert (Hlen : length (drop (S (e_mk s i)) (f_lines (body i))) = (length (L i) - e_mk s i)%nat).
  { rewrite length_drop, mf_body. cbn. rewrite length_app. cbn. lia. }
  destruct (end_while_ok (drop (S (e_mk s i)) (f_lines (body i))) (e_mk s i) (e_seq s i) (e_max s))
    as (mk' & q & -> & Hr' & Hq & Hmq & H1 & H2); [done|lia| |].
  { rewrite El. change (l_seq l :: seqs ?x) with (seqs (l :: x)). rewrite <- Hd, Hlen. unfold seqs.
    rewrite list_lookup_fmap, lookup_drop. replace (_ + _)%nat with (length (L i)) by lia.
    fold (line_at body i (length (L i))). by rewrite line_end. }
  rewrite Hlen in Hr'. eexists. split; [done|]. cbn [e_mk e_seq e_max e_at_end]. rewrite !fn_lookup_insert.
  assert (Hl' : ∃ l', line_at body i mk' = Some l' ∧ q = l_seq l').
  { rewrite El in Hq. change (l_seq l :: seqs ?x) with (seqs (l :: x)) in Hq. rewrite <- Hd in Hq. unfold seqs in Hq.
    rewrite list_lookup_fmap, lookup_drop in Hq. replace (_ + _)%nat with mk' in Hq by lia.
    unfold line_at. destruct (f_lines (body i) !! mk') as [l'|]; [|done]. injection Hq as <-. by exists l'. }
  split_and!; [|intros j Hj; by rewrite !fn_lookup_insert_ne by done|done|done|].
  - split; intros j; (destruct (decide (j = i)) as [->|]; [rewrite !fn_lookup_insert|rewrite !fn_lookup_insert_ne by done]);
      [lia|apply Hm|done|apply Hm].
  - destruct (Z.ltb_spec (e_seq s i) (e_max s)); [left|right]; auto.
Qed.

(** GCAR goes where GCA goes. *)
Lemma end_gcar s s1 s2 :
  e_mk s GCAR = e_mk s GCA → e_seq s GCAR = e_seq s GCA →
  end_file body GCA s = Some s1 → end_file body GCAR s1 = Some s2 →
  e_mk s2 GCAR = e_mk s2 GCA ∧ e_seq s2 GCAR = e_seq s2 GCA.
Proof.
  intros E1 E2. unfold end_file at 1.
  destruct (end_while _ _ _ _) as [[mk q]|] eqn:Hw; [|done]. intros [= <-]. unfold end_file. cbn [e_mk e_seq e_max].
  rewrite !(fn_lookup_insert_ne _ GCA GCAR) by done. rewrite E1, E2.
  rewrite (end_while_seqs _ (drop (S (e_mk s GCA)) (f_lines (body GCA)))).
  - rewrite (end_while_again _ _ _ _ _ _ Hw). intros [= <-]. cbn [e_mk e_seq].
    by rewrite !fn_lookup_insert, !fn_lookup_insert_ne, !fn_lookup_insert by done.
  - unfold seqs. rewrite <- !skipn_map. f_equal. apply gca_seqs.
Qed.

Definition total_at (mk : fidx → nat) : nat := (mk LEFT + mk RIGHT + mk GCA + mk GCAR)%nat.

(** One round over the files. *)
Lemma end_round mk seq :
  marks mk seq → mk GCAR = mk GCA → seq GCAR = seq GCA →
  ∃ s, end_files body FILES (mkEnd mk seq (fold_left (λ m i, Z.max m (seq i)) FILES 0) true) = Some s ∧
    marks (e_mk s) (e_seq s) ∧ e_mk s GCAR = e_mk s GCA ∧ e_seq s GCAR = e_seq s GCA ∧
    (∀ i, (mk i <= e_mk s i)%nat) ∧
    (if e_at_end s then (∀ i, e_mk s i = mk i ∧ e_seq s i = seq i) ∧ ∀ i j, seq i = seq j
     else (total_at mk < total_at (e_mk s))%nat).
Proof.
  intros Hm Eg Es. cbn [FILES fold_left]. pose proof (λ i, marks_range _ _ i Hm) as Hr.
  pose proof (Hr LEFT); pose proof (Hr RIGHT); pose proof (Hr GCA); pose proof (Hr GCAR).
  set (M := Z.max _ (seq GCAR)). unfold FILES, end_files.
  destruct (end_file_ok LEFT (mkEnd mk seq M true)) as (s1 & -> & M1 & O1 & X1 & Q1 & C1); [done|cbn; lia|].
  pose proof (λ i, marks_range _ _ i M1) as R1. pose proof (R1 LEFT). cbn [e_mk e_seq e_max e_at_end] in *.
  destruct (end_file_ok RIGHT s1) as (s2 & -> & M2 & O2 & X2 & Q2 & C2); [done|lia|].
  pose proof (marks_range _ _ RIGHT M2).
  destruct (end_file_ok GCA s2) as (s3 & W3 & M3 & O3 & X3 & Q3 & C3); [done|lia|]. rewrite W3.
  pose proof (marks_range _ _ GCA M3).
  destruct (end_file_ok GCAR s3) as (s4 & W4 & M4 & O4 & X4 & Q4 & C4); [done|lia|]. rewrite W4.
  pose proof (O1 RIGHT ltac:(done)); pose proof (O1 GCA ltac:(done)); pose proof (O1 GCAR ltac:(done)).
  pose proof (O2 LEFT ltac:(done)); pose proof (O2 GCA ltac:(done)); pose proof (O2 GCAR ltac:(done)).
  pose proof (O3 LEFT ltac:(done)); pose proof (O3 RIGHT ltac:(done)); pose proof (O3 GCAR ltac:(done)).
  pose proof (O4 LEFT ltac:(done)); pose proof (O4 RIGHT ltac:(done)); pose proof (O4 GCA ltac:(done)).
  exists s4. split; [done|]. split; [done|].
  destruct (end_gcar s2 s3 s4) as [G1 G2]; [destruct_and!; congruence..|]. split; [done|]. split; [done|].
  split; [intros []; destruct_and!; lia|].
  destruct (e_at_end s4) eqn:Ea; unfold total_at.
  - assert (e_at_end s3 = true ∧ e_at_end s2 = true ∧ e_at_end s1 = true) as (A3 & A2 & A1).
    { destruct C4 as [(? & ? & ?)|(? & ? & ?)]; [congruence|].
      destruct C3 as [(? & ? & ?)|(? & ? & ?)]; [congruence|].
      destruct C2 as [(? & ? & ?)|(? & ? & ?)]; [congruence|].
      destruct C1 as [(? & ? & ?)|(? & ? & ?)]; [congruence|]. split_and!; congruence. }
    destruct C4 as [(? & ? & ?)|(? & ? & ? & ?)]; [congruence|].
    destruct C3 as [(? & ? & ?)|(? & ? & ? & ?)]; [congruence|].
    destruct C2 as [(? & ? & ?)|(? & ? & ? & ?)]; [congruence|].
    destruct C1 as [(? & ? & ?)|(? & ? & ? & ?)]; [congruence|].
    destruct_and!. split; [intros []; split; lia || congruence|].
    assert (∀ i, seq i = M) as HM by (intros []; lia). intros i j. by rewrite !HM.
  - destruct_and!. destruct C1 as [(? & ? & ?)|(? & ? & ? & ?)], C2 as [(? & ? & ?)|(? & ? & ? & ?)],
      C3 as [(? & ? & ?)|(? & ? & ? & ?)], C4 as [(? & ? & ?)|(? & ? & ? & ?)]; try lia; congruence.
Qed.

Lemma find_end_ok fuel : ∀ mk seq,
  marks mk seq → mk GCAR = mk GCA → seq GCAR = seq GCA → (total_lines body < total_at mk + fuel)%nat →
  ∃ mk' seq', find_end body fuel mk seq = Some (mk', seq') ∧ marks mk' seq' ∧ mk' GCAR = mk' GCA ∧
    (∀ i, (mk i <= mk' i)%nat) ∧ (∀ i j, seq' i = seq' j) ∧ ((∃ i, seq i ≠ seq GCA) → (total_at mk < total_at mk')%nat).
Proof.
  induction fuel as [|fuel IH]; intros mk seq Hm E1 E2 Hf.
  { pose proof (mk_in _ _ Hm LEFT); pose proof (mk_in _ _ Hm RIGHT); pose proof (mk_in _ _ Hm GCA); pose proof (mk_in _ _ Hm GCAR).
    rewrite total_ok in Hf. unfold total_at in Hf. lia. }
  cbn [find_end]. destruct (end_round mk seq Hm E1 E2) as (s & -> & Hs & G1 & G2 & Hle & Hc).
  destruct (e_at_end s).
  - destruct Hc as [Hc Heq]. exists (e_mk s), (e_seq s). split_and!; [done|done|done|done| |].
    + intros i j. destruct (Hc i) as [_ ->], (Hc j) as [_ ->]. apply Heq.
    + intros [i Hi]. destruct Hi. apply Heq.
  - destruct (IH (e_mk s) (e_seq s)) as (mk' & seq' & -> & Hm' & G' & Hle' & Heq & _); [done..|lia|].
    exists mk', seq'. split_and!; [done|done|done|intros i; specialize (Hle i); specialize (Hle' i); lia|done|].
    intros _. pose proof (Hle' LEFT); pose proof (Hle' RIGHT); pose proof (Hle' GCA); pose proof (Hle' GCAR).
    unfold total_at in *. lia.
Qed.

Lemma to_int_nonzero z : 0 < z <= SEQ_END → to_int z ≠ 0.
Proof. unfold SEQ_END, to_int. intros H. destruct (z <? 2 ^ 31); lia. Qed.

Lemma seqs_at_ok mk : (∀ i, (mk i <= length (L i))%nat) → ∃ seq, seqs_at body mk = Some seq ∧ marks mk seq.
Proof.
  intros Hin. unfold seqs_at.
  destruct (line_any LEFT (mk LEFT) (Hin _)) as (l & Hl & _), (line_any RIGHT (mk RIGHT) (Hin _)) as (r & Hr & _),
    (line_any GCA (mk GCA) (Hin _)) as (g & Hg & _), (line_any GCAR (mk GCAR) (Hin _)) as (h & Hh & _).
  rewrite Hl, Hr, Hg, Hh. eexists. split; [done|]. split; [done|]. intros []; eauto.
Qed.

(** Some file is at its end and some is not. *)
Lemma stuck_differs mk seq :
  marks mk seq →
  mk LEFT = length (L LEFT) ∨ mk RIGHT = length (L RIGHT) ∨ mk GCA = length (L GCA) ∨ mk GCAR = length (L GCAR) →
  ¬ (∀ i, mk i = length (L i)) → ∃ i, seq i ≠ seq GCA.
Proof.
  intros Hm H0 H1.
  assert (∃ i, mk i = length (L i)) as [i0 E0] by (destruct H0 as [|[|[|]]]; eauto).
  assert (Hi1 : ∃ i, (mk i < length (L i))%nat).
  { pose proof (mk_in _ _ Hm) as Hin. destruct (decide (mk LEFT < length (L LEFT))%nat); [eauto|].
    destruct (decide (mk RIGHT < length (L RIGHT))%nat); [eauto|]. destruct (decide (mk GCA < length (L GCA))%nat); [eauto|].
    destruct (decide (mk GCAR < length (L GCAR))%nat); [eauto|]. destruct H1. intros i. specialize (Hin i). destruct i; lia. }
  destruct Hi1 as [i1 E1]. destruct (mk_seq _ _ Hm i0) as (l0 & Hl0 & S0), (mk_seq _ _ Hm i1) as (l1 & Hl1 & S1).
  rewrite E0, line_end in Hl0. injection Hl0 as <-. cbn in S0.
  destruct (line_ok i1 _ E1) as (x & _ & Hx & Hlt). assert (x = l1) as -> by congruence.
  destruct (decide (seq i0 = seq GCA)); [exists i1; lia|by exists i0].
Qed.

(** The files have the same sequence number where a region ends. *)
Definition aligned (c : conflct) : Prop := ∃ q, ∀ i, ∃ l, line_at body i (c_end c i) = Some l ∧ l_seq l = q.

Lemma find_loop_ok fuel : ∀ mk,
  (∀ i, (mk i <= length (L i))%nat) → mk GCAR = mk GCA → (total_lines body < total_at mk + fuel)%nat →
  ∃ cs, find_loop body fuel mk = Some cs ∧ chain mk cs ∧ Forall aligned cs.
Proof.
  induction fuel as [|fuel IH]; intros mk Hin Eg Hf.
  { pose proof (Hin LEFT); pose proof (Hin RIGHT); pose proof (Hin GCA); pose proof (Hin GCAR).
    rewrite total_ok in Hf. unfold total_at in Hf. lia. }
  cbn [find_loop]. rewrite !f_n_eq. set (k := Nat.min _ _).
  destruct (match_len_ok k mk 0) as (j & -> & Hc & Hd).
  { by apply common_nil. }
  { intros i. pose proof (Hin i). subst k. cbn [Nat.add]. destruct i; lia. }
  cbn [Nat.add] in Hd.
  destruct (forallb _ FILES) eqn:Hend.
  { exists []. split; [done|]. split; [|constructor]. cbn [chain]. exists j. split; [done|]. rewrite forallb_forall in Hend.
    intros i. assert (Hi : In i FILES) by (destruct i; cbn; auto 6). specialize (Hend i Hi). rewrite f_n_eq in Hend. boolify.
    pose proof (cm_in _ _ Hc i). lia. }
  set (mk1 := λ i, (mk i + j)%nat) in *.
  assert (Hin1 : ∀ i, (mk1 i <= length (L i))%nat) by (intros i; apply Hc).
  destruct (seqs_at_ok mk1 Hin1) as (seq & Hseq & Hm1).
  match goal with |- context [if (0 <? ?x)%nat then ?a else Some 0] => set (st := if (0 <? x)%nat then a else Some 0) end.
  assert (∃ q, st = Some q) as [q ->].
  { subst st. destruct (0 <? _)%nat; [|eauto]. fold (mk1 LEFT). destruct (line_any LEFT (mk1 LEFT - 1)) as (l & -> & _); [|eauto]. pose proof (Hin1 LEFT). lia. }
  rewrite Hseq.
  assert (Hdiff : ∃ i, seq i ≠ seq GCA).
  { destruct Hd as [->|[_ (i & l & g & Hl & Hg & Hne)]].
    - apply (stuck_differs mk1); [done|unfold mk1, k; pose proof (Hin LEFT); pose proof (Hin RIGHT); pose proof (Hin GCA); pose proof (Hin GCAR); lia|].
      apply not_true_iff_false in Hend. intros Hall. apply Hend, forallb_forall. intros i _. rewrite f_n_eq. apply Nat.leb_le.
      fold (mk1 i). by rewrite Hall.
    - exists i. destruct (mk_seq _ _ Hm1 i) as (? & ? & ->), (mk_seq _ _ Hm1 GCA) as (? & ? & ->). congruence. }
  assert (Egs : seq GCAR = seq GCA).
  { destruct (mk_seq _ _ Hm1 GCAR) as (x & Hx & ->), (mk_seq _ _ Hm1 GCA) as (y & Hy & ->).
    pose proof gca_seqs as Hk. apply (f_equal (.!! mk1 GCA)) in Hk. unfold seqs in Hk. rewrite !list_lookup_fmap in Hk.
    assert (Em : mk1 GCAR = mk1 GCA) by (unfold mk1; lia). rewrite Em in Hx. unfold line_at in Hx, Hy.
    rewrite Hx, Hy in Hk. by injection Hk. }
  destruct (find_end_ok (S (total_lines body)) mk1 seq) as (mk' & seq' & Hrun & Hm' & G' & Hle & Heq & Hprog);
    [done|unfold mk1; lia|done|lia|]. fold mk1. rewrite Hrun.
  pose proof (marks_range _ _ LEFT Hm') as Hpos. destruct (Z.eqb_spec (seq' LEFT) 0); [lia|]. cbn [negb].
  replace (forallb (λ i, seq' LEFT =? seq' i) FILES) with true by (symmetry; cbn; by rewrite <- (Heq LEFT RIGHT), <- (Heq LEFT GCA), <- (Heq LEFT GCAR), !Z.eqb_refl).
  specialize (Hprog Hdiff).
  destruct (IH mk') as (cs & -> & Hcs & Hal); [apply Hm'|done|unfold total_at, mk1 in *; lia|].
  eexists. split; [done|]. split.
  2: { constructor; [|done]. exists (seq' LEFT). intros i. destruct (mk_seq _ _ Hm' i) as (l & Hl & E). exists l. split; [done|]. by rewrite <- E. }
  cbn [chain c_start c_end c_merged c_split]. split_and!; [by exists j| |done|done|done].
  split; cbn [c_start c_end c_end_seq]; [intros i; split; [apply Hle|apply Hm']|unfold mk1; lia|done| |by apply to_int_nonzero].
  unfold csize, total_at in *. cbn [c_start c_end]. pose proof (Hle LEFT); pose proof (Hle RIGHT); pose proof (Hle GCA); pose proof (Hle GCAR). lia.
Qed.

Lemma find_conflicts_ok : ∃ cs, find_conflicts body = Some cs ∧ chain (λ _, 0%nat) cs ∧ Forall aligned cs.
Proof. apply find_loop_ok; [intros; lia|done|unfold total_at; lia]. Qed.

End Files.
