(* ===== verification/SmergeContent.v ===== *)
(** * SmergeContent: merging by content

    [merge_content] compares both sides of a region with GCA and applies the hunks
    of both when they do not overlap.  Its result is a three-way merge: it can be
    cut into pieces, each of which both sides agree on or only one side changed. *)

From S2P Require Import Prelude CStr Shell Crc HashIface U32Hash Diff DiffSnake DiffCorrect NDiff NDiffOk Smerge SmergeFind.
From stdpp Require Import base functions numbers list.
From Stdlib Require Import ZArith Lia.

Local Open Scope Z_scope.

Local Open Scope bk_scope.

(** ** Three-way merging without conflicts *)

(** The rule for one piece: both sides changed it alike, or one side did not
    change it and the other side wins, or nobody changed it. *)
Inductive resolves (g l r : list ld) : list ld → Prop :=
  | rs_same : texts l = texts r → resolves g l r l
  | rs_right : texts g = texts l → resolves g l r r
  | rs_left : texts g = texts r → resolves g l r l
  | rs_gca : texts g = texts l → texts g = texts r → resolves g l r g.

Inductive automerge : list ld → list ld → list ld → list ld → Prop :=
  | am_nil : automerge [] [] [] []
  | am_app g l r o g' l' r' o' :
      automerge g l r o → resolves g' l' r' o' → automerge (g ++ g') (l ++ l') (r ++ r') (o ++ o').

Lemma automerge_one g l r o : resolves g l r o → automerge g l r o.
Proof. intros H. apply (am_app [] [] [] [] g l r o); [constructor|done]. Qed.

(** The same with the sides named: [a] is side [s]. *)
Definition am_side (s : side) (g a b o : list ld) : Prop :=
  match s with DF_LEFT => automerge g a b o | DF_RIGHT => automerge g b a o end.

Lemma am_side_other s g a b o : am_side (other_side s) g a b o ↔ am_side s g b a o.
Proof. by destruct s. Qed.

Lemma am_side_gca s g a b o g' a' b' :
  am_side s g a b o → texts g' = texts a' → texts g' = texts b' → am_side s (g ++ g') (a ++ a') (b ++ b') (o ++ g').
Proof. destruct s; intros H Ha Hb; (apply am_app; [done|]); by apply rs_gca. Qed.

Lemma am_side_wins s g a b o g' a' b' :
  am_side s g a b o → texts g' = texts b' → am_side s (g ++ g') (a ++ a') (b ++ b') (o ++ a').
Proof. destruct s; intros H Hb; (apply am_app; [done|]); [by apply rs_left|by apply rs_right]. Qed.

Section Content.

Context (L : fidx → list ld) (body : fidx → file) {wf : merge_files L body}.

Context {crc : Z → cstr → Z} {crc_ok : Checksum crc} (HASH : Z → Z).

(** Text lines, and room in the hash space: a probe does not run past the largest
    key. *)
Class merge_text : Prop := {
  mt_bytes : ∀ i l, l ∈ L i → cbytes (l_line l) ∧ l_line l ≠ [];
  mt_total : Z.of_nat (total_lines body) < 2 ^ 28;
  mt_hash : ∀ i l, l ∈ L i → crc 0 (l_line l) + Z.of_nat (total_lines body) + 2 < 2 ^ 32
}.

Context {tx : merge_text}.

(** The data of the comparison of the files [f] and [t]. *)
Definition sm_item (f t : fidx) (s : side) (i : Z) : cstr :=
  smergeData (λ s, f_lines (body (match s with DF_LEFT => f | DF_RIGHT => t end))) i s.

Lemma sm_item_at f t s i : 0 <= i < Z.of_nat (length (L (match s with DF_LEFT => f | DF_RIGHT => t end))) →
  ∃ l, L (match s with DF_LEFT => f | DF_RIGHT => t end) !! Z.to_nat i = Some l ∧ sm_item f t s i = l_line l.
Proof.
  intros Hi. set (x := match s with DF_LEFT => f | DF_RIGHT => t end) in *.
  destruct (lookup_lt_is_Some_2 (L x) (Z.to_nat i)) as [l Hl]; [lia|]. exists l. split; [done|].
  unfold sm_item, smergeData, get0. fold x. rewrite (mf_body L body). cbn [f_lines file_of]. destruct (Z.leb_spec 0 i); [|lia].
  by rewrite (lookup_app_l_Some _ _ _ _ Hl).
Qed.

Lemma sm_item_any f t s i : cbytes (sm_item f t s i) ∧ 0 <= crc 0 (sm_item f t s i) ∧ crc 0 (sm_item f t s i) + Z.of_nat (total_lines body) + 2 < 2 ^ 32.
Proof.
  assert (H0 : cbytes [] ∧ 0 <= crc 0 [] ∧ crc 0 [] + Z.of_nat (total_lines body) + 2 < 2 ^ 32).
  { split; [constructor|]. rewrite crc_nil by lia. pose proof mt_total. lia. }
  unfold sm_item, smergeData, get0. set (x := match s with DF_LEFT => f | DF_RIGHT => t end). rewrite (mf_body L body). cbn [f_lines file_of].
  destruct (0 <=? i); [|done]. destruct ((L x ++ _) !! Z.to_nat i) as [l|] eqn:E; [|done]. cbn [fmap option_fmap option_map default].
  apply list_elem_of_lookup_2, elem_of_app in E as [E|E].
  - destruct (mt_bytes x l E) as [Hb _]. split; [done|]. split; [|by apply (mt_hash x)].
    apply crc_range; [lia|]. eapply Forall_impl; [exact Hb|]. cbn. unfold is_byte. lia.
  - apply list_elem_of_singleton in E as ->. done.
Qed.

Lemma sm_diff_ok f t range :
  0 <= len_l range → 0 <= len_r range → len_l range + len_r range <= Z.of_nat (total_lines body) →
  ∃ hs, sm_diff body crc HASH f t range = Some hs ∧ script (sm_item f t) range (start_l range) (start_r range) hs.
Proof.
  intros Hl Hr Ht. pose proof mt_total. destruct (u32_new_inv true HASH no_thing) as [Hi Ha].
  apply (diff_items_ok (laws := u32hash_laws true HASH no_thing) _ (conj Hi Ha) (λ k Hk, ltac:(cbn; lia)) (λ _ _, I) (sm_item f t)).
  - intros i s j u. apply cmpLine_eq; [apply (sm_item_any f t s i)|apply (sm_item_any f t u j)].
  - cbn. unfold u32_max. lia.
  - intros i s. destruct (sm_item_any f t s i) as (_ & H1 & H2). unfold diff_hashLine. unfold sm_item in H1, H2. lia.
  - unfold INT_MAX. lia.
Qed.

(** ** Scripts *)

Lemma script_end {T} (item : side → Z → T) range x y hs :
  script item range x y hs → x <= DEND range DF_LEFT ∧ y <= DEND range DF_RIGHT.
Proof.
  revert x y. induction hs as [|h hs IH]; intros x y; cbn [script].
  - lia.
  - intros (? & ? & _ & ? & ? & _ & Hs). apply IH in Hs. unfold DEND in *. cbn [DSTART DLEN] in *. lia.
Qed.

(** The next change of the left side, or its end. *)
Definition next_change (range : hunk) (hs : list hunk) : Z :=
  match hs with h :: _ => start_l h | [] => DEND range DF_LEFT end.

Lemma script_agree {T} (item : side → Z → T) range x y hs k :
  script item range x y hs → 0 <= k → x + k <= next_change range hs → agree item x y k.
Proof. destruct hs as [|h hs]; cbn [script next_change]; intros Hs Hk Hx t Ht; apply Hs; lia. Qed.

(** The two sides walk over common items. *)
Lemma script_walk {T} (item : side → Z → T) range x y hs k :
  script item range x y hs → 0 <= k → x + k <= next_change range hs → script item range (x + k) (y + k) hs.
Proof.
  assert (Hag : ∀ x y k j, agree item x y k → 0 <= j → agree item (x + j) (y + j) (k - j)).
  { intros a b n j Ha Hj t Ht. specialize (Ha (j + t) ltac:(lia)). by rewrite !Z.add_assoc in Ha. }
  destruct hs as [|h hs]; cbn [script next_change].
  - intros (? & ? & Ha) Hk Hx. split_and!; [lia|lia|]. replace (_ - _) with (DEND range DF_LEFT - x - k) by lia. by apply Hag.
  - intros (? & ? & Ha & ? & ? & ? & Hs) Hk Hx. split_and!; [lia|lia| |done..].
    replace (_ - _) with (start_l h - x - k) by lia. by apply Hag.
Qed.

Lemma agree_texts f t x y k :
  agree (sm_item f t) x y k → 0 <= x → 0 <= y → 0 <= k → x + k <= Z.of_nat (length (L f)) → y + k <= Z.of_nat (length (L t)) →
  texts (slice (L f) (Z.to_nat x) (Z.to_nat (x + k))) = texts (slice (L t) (Z.to_nat y) (Z.to_nat (y + k))).
Proof.
  intros Ha Hx Hy Hk Hf Ht. unfold texts. apply list_eq_same_length with (n := Z.to_nat k).
  - rewrite length_map, length_slice; lia.
  - rewrite length_map, length_slice; lia.
  - intros i a b Hi. unfold slice. rewrite !list_lookup_fmap, !lookup_take_lt, !lookup_drop by lia.
    specialize (Ha (Z.of_nat i) ltac:(lia)).
    destruct (sm_item_at f t DF_LEFT (x + Z.of_nat i)) as (l1 & E1 & V1); [lia|].
    destruct (sm_item_at f t DF_RIGHT (y + Z.of_nat i)) as (l2 & E2 & V2); [lia|].
    replace (Z.to_nat (x + Z.of_nat i)) with (Z.to_nat x + i)%nat in E1 by lia.
    replace (Z.to_nat (y + Z.of_nat i)) with (Z.to_nat y + i)%nat in E2 by lia. rewrite E1, E2. cbn. congruence.
Qed.

(** ** The loop *)

Lemma zseg_ok f x n : 0 <= x → x + Z.max 0 n <= Z.of_nat (length (L f)) →
  zseg body f x n = Some (slice (L f) (Z.to_nat x) (Z.to_nat (x + Z.max 0 n))).
Proof.
  intros Hx Hn. unfold zseg. destruct (Z.leb_spec 0 x); [|lia].
  replace (Z.to_nat x + Z.to_nat n)%nat with (Z.to_nat (x + Z.max 0 n)) by lia. apply (seg_ok L body). lia.
Qed.

Section Region.

Context (c : conflct) (Hc : region L c).

(** The range of the comparison of GCA with side [s]. *)
Definition rng (s : side) : hunk :=
  mkHunk (Z.of_nat (c_start c GCA)) (Z.of_nat (c_start c (side_file s)))
         (Z.of_nat (c_end c GCA) - Z.of_nat (c_start c GCA)) (Z.of_nat (c_end c (side_file s)) - Z.of_nat (c_start c (side_file s))).

Lemma rng_ends s :
  DEND (rng s) DF_LEFT = Z.of_nat (c_end c GCA) ∧ DEND (rng s) DF_RIGHT = Z.of_nat (c_end c (side_file s)).
Proof. unfold DEND, rng. cbn [DSTART DLEN start_l start_r len_l len_r]. lia. Qed.

(** The lines of a file of the region up to [x]. *)
Abbreviation upto f x := (slice (L f) (c_start c f) (Z.to_nat x)).

Record at_point (h : side → list hunk) (ig : Z) (y : side → Z) (merged : list ld) : Prop := {
  ap_script : ∀ s, script (sm_item GCA (side_file s)) (rng s) ig (y s) (h s);
  ap_g : Z.of_nat (c_start c GCA) <= ig;
  ap_y : ∀ s, Z.of_nat (c_start c (side_file s)) <= y s;
  ap_am : ∀ s, am_side s (upto GCA ig) (upto (side_file s) (y s)) (upto (side_file (other_side s)) (y (other_side s))) merged
}.

Lemma hunk_bounds h ig y m s x hs :
  at_point h ig y m → h s = x :: hs →
  ig <= start_l x ∧ 0 <= len_l x ∧ 0 <= len_r x ∧ start_r x = y s + (start_l x - ig) ∧
  start_l x + len_l x <= Z.of_nat (c_end c GCA) ∧ start_r x + len_r x <= Z.of_nat (c_end c (side_file s)).
Proof.
  intros Hp E. pose proof (ap_script _ _ _ _ Hp s) as Hs. rewrite E in Hs. cbn [script] in Hs.
  destruct Hs as (? & ? & _ & ? & ? & _ & Hs). apply script_end in Hs. destruct (rng_ends s) as [-> ->] in Hs. unfold DEND in Hs. cbn [DSTART DLEN] in Hs. lia.
Qed.

Lemma next_bound h ig y m s : at_point h ig y m → next_change (rng s) (h s) <= Z.of_nat (c_end c GCA).
Proof.
  intros Hp. destruct (h s) as [|x hs] eqn:E; cbn [next_change]; [by rewrite (proj1 (rng_ends s))|].
  destruct (hunk_bounds _ _ _ _ _ _ _ Hp E). lia.
Qed.

Lemma upto_app f a b : Z.of_nat (c_start c f) <= a <= b → upto f a ++ slice (L f) (Z.to_nat a) (Z.to_nat b) = upto f b.
Proof. intros H. apply slice_join. lia. Qed.

(** The position of a side after the hunk [x] of [s] has been applied. *)
Definition after_hunk (s : side) (x : hunk) (ig : Z) (y : side → Z) (t : side) : Z :=
  match s, t with
  | DF_LEFT, DF_LEFT | DF_RIGHT, DF_RIGHT => start_r x + len_r x
  | _, _ => y t + (start_l x + len_l x - ig)
  end.

Lemma after_hunk_same s x ig y : after_hunk s x ig y s = start_r x + len_r x.
Proof. by destruct s. Qed.

Lemma after_hunk_other s x ig y : after_hunk s x ig y (other_side s) = y (other_side s) + (start_l x + len_l x - ig).
Proof. by destruct s. Qed.

Lemma drop_hunk_same s h : drop_hunk s h s = tail (h s).
Proof. by destruct s. Qed.

Lemma drop_hunk_other s h : drop_hunk s h (other_side s) = h (other_side s).
Proof. by destruct s. Qed.

Lemma side_cases (P : side → Prop) s : P s → P (other_side s) → ∀ t, P t.
Proof. by destruct s; intros ? ? []. Qed.

(** The lines a side has in common with GCA before its next change. *)
Lemma common_texts h ig y m t a b :
  at_point h ig y m → ig <= a <= b → b <= next_change (rng t) (h t) →
  script (sm_item GCA (side_file t)) (rng t) b (y t + (b - ig)) (h t) ∧
  texts (slice (L GCA) (Z.to_nat a) (Z.to_nat b)) =
  texts (slice (L (side_file t)) (Z.to_nat (y t + (a - ig))) (Z.to_nat (y t + (b - ig)))).
Proof.
  intros Hp Hab Hn. pose proof (ap_script _ _ _ _ Hp t) as Ht. pose proof (ap_y _ _ _ _ Hp t). pose proof (ap_g _ _ _ _ Hp).
  pose proof (next_bound _ _ _ _ t Hp). pose proof (rg_in _ _ Hc GCA). pose proof (rg_in _ _ Hc (side_file t)).
  assert (Hw : ∀ z, ig <= z <= b → script (sm_item GCA (side_file t)) (rng t) z (y t + (z - ig)) (h t)).
  { intros z Hz. replace z with (ig + (z - ig)) at 1 by lia. apply script_walk; [done|lia|lia]. }
  split; [apply Hw; lia|].
  pose proof (script_end _ _ _ _ _ (Hw b ltac:(lia))) as [_ He]. rewrite (proj2 (rng_ends t)) in He.
  replace (y t + (b - ig)) with (y t + (a - ig) + (b - a)) by lia. replace b with (a + (b - a)) at 1 by lia.
  apply agree_texts; [|lia..]. eapply script_agree; [apply Hw; lia|lia|lia].
Qed.

Lemma apply_hunk_ok h ig y m s x hs :
  at_point h ig y m → h s = x :: hs → start_l x + len_l x <= next_change (rng (other_side s)) (h (other_side s)) →
  ∃ ls, apply_hunk_lines body s x ig = Some (ls, start_l x + len_l x) ∧
    at_point (drop_hunk s h) (start_l x + len_l x) (after_hunk s x ig y) (m ++ ls).
Proof.
  intros Hp E Hn. set (u := other_side s) in *. pose proof (hunk_bounds _ _ _ _ _ _ _ Hp E) as (B1 & B2 & B3 & B4 & B5 & B6).
  pose proof (rg_in _ _ Hc GCA). pose proof (rg_in _ _ Hc (side_file s)).
  pose proof (ap_g _ _ _ _ Hp). pose proof (ap_y _ _ _ _ Hp s). pose proof (ap_y _ _ _ _ Hp u).
  unfold apply_hunk_lines. cbn [DSTART DLEN]. rewrite (zseg_ok GCA), (zseg_ok (side_file s)), !Z.max_r by lia.
  replace (ig + (start_l x - ig)) with (start_l x) by lia. eexists. split; [done|].
  destruct (common_texts h ig y m s ig (start_l x) Hp) as [_ Ts]; [lia|rewrite E; cbn; lia|].
  destruct (common_texts h ig y m u ig (start_l x) Hp) as [_ Tu]; [lia|lia|].
  destruct (common_texts h ig y m u (start_l x) (start_l x + len_l x) Hp) as [Hwalk Td]; [lia|lia|].
  rewrite Z.sub_diag, Z.add_0_r in Ts, Tu. rewrite <- B4 in Ts.
  assert (Ham : am_side s (upto GCA (start_l x + len_l x)) (upto (side_file s) (start_r x + len_r x))
    (upto (side_file u) (y u + (start_l x + len_l x - ig)))
    (m ++ slice (L GCA) (Z.to_nat ig) (Z.to_nat (start_l x)) ++ slice (L (side_file s)) (Z.to_nat (start_r x)) (Z.to_nat (start_r x + len_r x)))).
  { rewrite <- (upto_app GCA (start_l x)), <- (upto_app (side_file s) (start_r x)), <- (upto_app (side_file u) (y u + (start_l x - ig))) by lia.
    rewrite app_assoc. apply am_side_wins; [|exact Td].
    rewrite <- (upto_app GCA ig), <- (upto_app (side_file s) (y s) (start_r x)), <- (upto_app (side_file u) (y u) (y u + (start_l x - ig))) by lia.
    by apply am_side_gca; [apply (ap_am _ _ _ _ Hp s)|..]. }
  split.
  - apply (side_cases _ s); [|rewrite drop_hunk_other, after_hunk_other; exact Hwalk].
    pose proof (ap_script _ _ _ _ Hp s) as Hs. rewrite drop_hunk_same, after_hunk_same, E. rewrite E in Hs. apply Hs.
  - lia.
  - apply (side_cases _ s); [rewrite after_hunk_same; lia|]. rewrite after_hunk_other. fold u. lia.
  - apply (side_cases _ s); [rewrite after_hunk_same, after_hunk_other; exact Ham|].
    apply am_side_other. replace (other_side (other_side s)) with s by (by destruct s). rewrite after_hunk_same, after_hunk_other. exact Ham.
Qed.

Lemma uniqueSeparator_ok h ig y m s x hs z zs :
  at_point h ig y m → h s = x :: hs → h (other_side s) = z :: zs → start_l x + len_l x <= start_l z →
  ∃ b, uniqueSeparator body s x z = Some b.
Proof.
  intros Hp Es Eo Hxz. pose proof (hunk_bounds _ _ _ _ _ _ _ Hp Es) as Bx. pose proof (hunk_bounds _ _ _ _ _ _ _ Hp Eo) as Bz.
  pose proof (rg_in _ _ Hc GCA). pose proof (rg_in _ _ Hc LEFT). pose proof (rg_in _ _ Hc RIGHT). pose proof (ap_g _ _ _ _ Hp).
  pose proof (ap_y _ _ _ _ Hp s) as Hs. pose proof (ap_y _ _ _ _ Hp (other_side s)) as Ho.
  unfold uniqueSeparator, DEND. cbn [DSTART DLEN]. destruct (_ =? 0); [eauto|].
  rewrite (zseg_ok GCA) by lia. destruct s; cbn [side_file other_side] in *.
  all: rewrite (zseg_ok LEFT), (zseg_ok RIGHT) by lia; destruct (block_has _ _); eauto.
Qed.

Lemma can_apply_ok h ig y m s :
  at_point h ig y m →
  ∃ b, can_apply body h s = Some b ∧
    (b = true → ∃ x hs, h s = x :: hs ∧ start_l x + len_l x <= next_change (rng (other_side s)) (h (other_side s))).
Proof.
  intros Hp. unfold can_apply. destruct (h s) as [|x hs] eqn:Es; [by exists false|].
  destruct (h (other_side s)) as [|z zs] eqn:Eo; unfold DEND; cbn [DSTART DLEN next_change].
  - exists true. split; [done|]. intros _. exists x, hs. split; [done|]. cbn [next_change]. rewrite (proj1 (rng_ends _)).
    by destruct (hunk_bounds _ _ _ _ _ _ _ Hp Es) as (_ & _ & _ & _ & ? & _).
  - destruct (Z.ltb_spec (start_l z) (start_l x + len_l x)); [by exists false|].
    assert (Hg : ∀ b : bool, b = true → ∃ x' hs', x :: hs = x' :: hs' ∧ start_l x' + len_l x' <= start_l z) by (intros; eauto).
    destruct ((len_l x =? 0) || (len_l z =? 0)); [|eauto].
    destruct (uniqueSeparator_ok _ _ _ _ _ _ _ _ _ Hp Es Eo) as [b ->]; [done|]. eauto.
Qed.

Definition hunks_left (h : side → list hunk) : nat := (length (h DF_LEFT) + length (h DF_RIGHT))%nat.

Lemma content_loop_ok fuel : ∀ h ig y m,
  at_point h ig y m → (hunks_left h <= fuel)%nat →
  ∃ r, content_loop body fuel h ig m = Some r ∧
    match r with
    | None => True
    | Some (m', ig') => ∃ h' y', at_point h' ig' y' m' ∧ ∀ s, h' s = []
    end.
Proof.
  induction fuel as [|fuel IH]; intros h ig y m Hp Hf; unfold hunks_left in *; cbn [content_loop].
  - destruct (h DF_LEFT) eqn:El, (h DF_RIGHT) eqn:Er; cbn in Hf; try lia.
    eexists. split; [done|]. exists h, y. split; [done|]. by intros [].
  - assert (Hstep : ∀ s, (∃ x hs, h s = x :: hs ∧ start_l x + len_l x <= next_change (rng (other_side s)) (h (other_side s))) →
      ∃ r, (let? x := head (h s) in let? (ls, ig') := apply_hunk_lines body s x ig in content_loop body fuel (drop_hunk s h) ig' (m ++ ls)) = Some r ∧
        match r with None => True | Some (m', ig') => ∃ h' y', at_point h' ig' y' m' ∧ ∀ s, h' s = [] end).
    { intros s (x & hs & E & Hn). rewrite E. cbn [head]. destruct (apply_hunk_ok _ _ _ _ _ _ _ Hp E Hn) as (ls & -> & Hp').
      eapply IH; [done|]. pose proof (f_equal length E) as El. destruct s; cbn [drop_hunk]; rewrite E; cbn [length tail] in *; lia. }
    destruct (can_apply_ok h ig y m DF_LEFT Hp) as (bl & -> & Hl), (can_apply_ok h ig y m DF_RIGHT Hp) as (br & -> & Hr).
    assert (Hgo : ∃ r, match (if bl then Some DF_LEFT else if br then Some DF_RIGHT else None) with
      | None => Some None
      | Some s => let? x := head (h s) in let? (ls, ig') := apply_hunk_lines body s x ig in content_loop body fuel (drop_hunk s h) ig' (m ++ ls)
      end = Some r ∧ match r with None => True | Some (m', ig') => ∃ h' y', at_point h' ig' y' m' ∧ ∀ s, h' s = [] end).
    { destruct bl; [by apply Hstep, Hl|]. destruct br; [by apply Hstep, Hr|]. by exists None. }
    destruct (h DF_LEFT) eqn:El, (h DF_RIGHT) eqn:Er; destruct bl, br; cbn iota beta in Hgo |- *; try exact Hgo.
    all: eexists; (split; [done|]); exists h, y; split; [done|]; by intros [].
Qed.

(** No hunks left: the rest of GCA. *)
Lemma content_end h ig y m :
  at_point h ig y m → (∀ s, h s = []) →
  ∃ tl, zseg body GCA ig (Z.of_nat (c_end c GCA) - ig) = Some tl ∧
    automerge (slice (L GCA) (c_start c GCA) (c_end c GCA)) (slice (L LEFT) (c_start c LEFT) (c_end c LEFT))
              (slice (L RIGHT) (c_start c RIGHT) (c_end c RIGHT)) (m ++ tl).
Proof.
  intros Hp Hnil. pose proof (rg_in _ _ Hc GCA). pose proof (ap_g _ _ _ _ Hp).
  assert (He : ∀ s, ig <= Z.of_nat (c_end c GCA) ∧ y s + (Z.of_nat (c_end c GCA) - ig) = Z.of_nat (c_end c (side_file s)) ∧
    Z.of_nat (c_start c (side_file s)) <= y s).
  { intros s. pose proof (ap_script _ _ _ _ Hp s) as Hs. rewrite Hnil in Hs. cbn [script] in Hs.
    destruct (rng_ends s) as [E1 E2]. rewrite E1, E2 in Hs. pose proof (ap_y _ _ _ _ Hp s). lia. }
  pose proof (He DF_LEFT) as (? & ? & ?). pose proof (He DF_RIGHT) as (? & ? & ?). cbn [side_file] in *.
  rewrite (zseg_ok GCA), Z.max_r by lia. eexists. split; [done|]. replace (ig + _) with (Z.of_nat (c_end c GCA)) by lia.
  assert (Hc' : ∀ s, texts (slice (L GCA) (Z.to_nat ig) (c_end c GCA)) =
    texts (slice (L (side_file s)) (Z.to_nat (y s)) (c_end c (side_file s)))).
  { intros s. destruct (He s) as (? & Es & _).
    destruct (common_texts h ig y m s ig (Z.of_nat (c_end c GCA)) Hp) as [_ T]; [lia|rewrite Hnil; cbn; rewrite (proj1 (rng_ends s)); lia|].
    by rewrite Es, Z.sub_diag, Z.add_0_r, !Nat2Z.id in T. }
  pose proof (ap_am _ _ _ _ Hp DF_LEFT) as Ha. cbn [am_side side_file other_side] in Ha. rewrite Nat2Z.id.
  rewrite <- (slice_join (L GCA) _ (Z.to_nat ig) (c_end c GCA)), <- (slice_join (L LEFT) _ (Z.to_nat (y DF_LEFT)) (c_end c LEFT)),
    <- (slice_join (L RIGHT) _ (Z.to_nat (y DF_RIGHT)) (c_end c RIGHT)) by lia.
  apply am_app; [done|]. apply rs_gca; [apply (Hc' DF_LEFT)|apply (Hc' DF_RIGHT)].
Qed.

Lemma merge_content_ok rest :
  c_merged c = None →
  merge_content body crc HASH (c, rest) = Some (false, (c, rest)) ∨
  ∃ o, merge_content body crc HASH (c, rest) = Some (true, (set_merged (Some o) c, rest)) ∧
    automerge (slice (L GCA) (c_start c GCA) (c_end c GCA)) (slice (L LEFT) (c_start c LEFT) (c_end c LEFT))
              (slice (L RIGHT) (c_start c RIGHT) (c_end c RIGHT)) o.
Proof.
  intros Hm. unfold merge_content. destruct (_ =? _)%nat; [by left|].
  pose proof (rg_in _ _ Hc GCA). pose proof (rg_in _ _ Hc LEFT). pose proof (rg_in _ _ Hc RIGHT). pose proof (total_ok L body) as Ht.
  change (mkHunk (Z.of_nat (c_start c GCA)) (Z.of_nat (c_start c LEFT)) _ _) with (rng DF_LEFT).
  change (mkHunk (Z.of_nat (c_start c GCA)) (Z.of_nat (c_start c RIGHT)) _ _) with (rng DF_RIGHT).
  destruct (sm_diff_ok GCA LEFT (rng DF_LEFT)) as (hl & -> & Sl); [cbn [rng len_l len_r side_file]; lia..|].
  destruct (sm_diff_ok GCA RIGHT (rng DF_RIGHT)) as (hr & -> & Sr); [cbn [rng len_l len_r side_file]; lia..|].
  rewrite Hm. cbn [default]. set (h := λ s, match s with DF_LEFT => hl | DF_RIGHT => hr end).
  destruct (content_loop_ok (length hl + length hr) h (Z.of_nat (c_start c GCA)) (λ s, Z.of_nat (c_start c (side_file s))) [])
    as (r & -> & Hr).
  { split; [by intros []|lia|intros; lia|]. intros s. rewrite !Nat2Z.id, !slice_nil. by destruct s; constructor. }
  { done. }
  destruct r as [[m' ig']|].
  - right. destruct Hr as (h' & y' & Hp & Hnil). destruct (content_end _ _ _ _ Hp Hnil) as (tl & -> & Ha). eauto.
  - left. do 3 f_equal. unfold set_merged. rewrite <- Hm. by destruct c.
Qed.

End Region.

End Content.
