(* ===== verification/SmergeOk.v ===== *)
(** * SmergeOk: the merge of two sides

    The automerge functions keep the regions of a merge, each round of
    [resolve_conflict] shortens a measure, and what [do_weave_merge] writes is a
    three-way merge of LEFT and RIGHT on GCA. *)

From S2P Require Import Prelude CStr Shell Crc HashIface U32Hash Diff DiffSnake DiffCorrect NDiff NDiffOk Smerge SmergeFind SmergeContent.
From stdpp Require Import base functions numbers list.
From Stdlib Require Import ZArith Lia.

Local Open Scope Z_scope.

Local Open Scope bk_scope.

Section Ok.

Context (L : fidx → list ld) (body : fidx → file) {wf : merge_files L body}.

Context {crc : Z → cstr → Z} {crc_ok : Checksum crc} (HASH : Z → Z) {tx : merge_text L body (crc := crc)}.

(** The lines of a region in the file [i]. *)
Definition cs (c : conflct) (i : fidx) : list ld := slice (L i) (c_start c i) (c_end c i).

Definition clen (c : conflct) (i : fidx) : nat := (c_end c i - c_start c i)%nat.

Lemma length_cs c i : region L c → length (cs c i) = clen c i.
Proof. intros Hc. apply length_slice. apply (rg_in _ _ Hc i). Qed.

Lemma cseg_ok c i : region L c → cseg body c i = Some (cs c i).
Proof. intros Hc. apply (seg_ok L body), (rg_in _ _ Hc i). Qed.

Lemma samedata_ok c l r : region L c → samedata body c l r = Some (bool_decide (texts (cs c l) = texts (cs c r))).
Proof.
  intros Hc. unfold samedata. rewrite !cseg_ok by done. f_equal.
  destruct (Nat.eqb_spec (length (cs c l)) (length (cs c r))) as [E|E]; cbn [negb].
  - case_bool_decide as H; [by apply same_lines_spec|]. apply not_true_iff_false. by rewrite same_lines_spec.
  - rewrite bool_decide_eq_false_2; [done|]. intros H. apply (f_equal length) in H. unfold texts in H. rewrite !length_map in H. done.
Qed.

Lemma gca_texts c : region L c → texts (cs c GCAR) = texts (cs c GCA).
Proof.
  intros Hc. unfold cs, texts, slice. rewrite (rg_start _ _ Hc), (rg_end _ _ Hc).
  assert (E : ∀ i, map l_line (take (c_end c GCA - c_start c GCA) (drop (c_start c GCA) (L i))) =
    map snd (take (c_end c GCA - c_start c GCA) (drop (c_start c GCA) (map key (L i))))).
  { intros i. rewrite <- firstn_map, <- !skipn_map. rewrite <- firstn_map, <- skipn_map, map_map. done. }
  by rewrite !E, (mf_gca L body).
Qed.

(** ** The invariant of the automerge functions and their measure *)

Record minv (m : mstate) : Prop := {
  mi_region : region L (fst m);
  mi_chain : chain L (c_end (fst m)) (snd m);
  mi_fresh : c_merged (fst m) = None;
  mi_split : c_split (fst m) = true → ∃ n rest, snd m = n :: rest ∧ ∀ i, c_start n i = c_end (fst m) i
}.

Definition measure (m : mstate) : nat :=
  if c_split (fst m) then csize (fst m)
  else (total_lines body + length (snd m) + 1 +
        (if (clen (fst m) LEFT =? 0)%nat || (clen (fst m) RIGHT =? 0)%nat then 1 else 0))%nat.

(** A side has lines. *)
Definition some_side (c : conflct) : Prop := clen c LEFT ≠ 0%nat ∨ clen c RIGHT ≠ 0%nat.

(** What a call of an automerge function does: nothing, a merge of the region, or
    a smaller problem that starts where the region started. *)
Inductive stepped (m : mstate) : bool → mstate → Prop :=
  | st_none : stepped m false m
  | st_merged o :
      automerge (cs (fst m) GCA) (cs (fst m) LEFT) (cs (fst m) RIGHT) o →
      stepped m true (set_merged (Some o) (fst m), snd m)
  | st_moved m' :
      minv m' → c_start (fst m') = c_start (fst m) → (some_side (fst m) → some_side (fst m')) →
      (measure m' < measure m)%nat → stepped m true m'.

Lemma csize_total c : region L c → (csize c <= total_lines body)%nat.
Proof.
  intros Hc. rewrite (total_ok L body). unfold csize.
  pose proof (rg_in _ _ Hc LEFT); pose proof (rg_in _ _ Hc RIGHT); pose proof (rg_in _ _ Hc GCA); pose proof (rg_in _ _ Hc GCAR). lia.
Qed.

Lemma measure_size m : minv m → (csize (fst m) <= measure m)%nat.
Proof. intros Hi. unfold measure. destruct (c_split _); [done|]. pose proof (csize_total _ (mi_region _ Hi)). lia. Qed.

Definition idx_total (idx : fidx → nat) : nat := (idx LEFT + idx RIGHT + idx GCA + idx GCAR)%nat.

Lemma split_ok idx m :
  minv m → (∀ i, (idx i <= clen (fst m) i)%nat) → idx GCAR = idx GCA → (0 < idx_total idx < csize (fst m))%nat →
  ∃ m', split_conflict body idx m = Some m' ∧ minv m' ∧ c_start (fst m') = c_start (fst m) ∧
    (∀ i, clen (fst m') i = idx i) ∧ (measure m' < measure m)%nat.
Proof.
  intros Hi Hle Hg Ht. destruct m as [c rest]. cbn [fst snd] in *. pose proof (mi_region _ Hi) as Hc. pose proof (rg_in _ _ Hc) as Hin.
  unfold split_conflict, clen in *. cbn [fst snd] in *.
  destruct (line_any L body GCA (c_start c GCA + idx GCA)) as (l & -> & Hl); [specialize (Hin GCA); specialize (Hle GCA); lia|].
  destruct (Z.eqb_spec (l_seq l) 0); [lia|]. cbn [negb]. eexists. split; [done|].
  assert (Hmid : ∀ i, (c_start c i <= c_start c i + idx i <= c_end c i)%nat) by (intros i; specialize (Hin i); specialize (Hle i); lia).
  pose proof (rg_start _ _ Hc) as Gs. pose proof (rg_end _ _ Hc) as Ge.
  unfold idx_total, csize in Ht. pose proof (Hmid LEFT); pose proof (Hmid RIGHT); pose proof (Hmid GCA); pose proof (Hmid GCAR).
  assert (Hm : csize (set_range (c_start c) (λ i, (c_start c i + idx i)%nat) (to_int (l_seq l)) true c) = idx_total idx).
  { unfold csize, set_range, idx_total. cbn [c_start c_end]. lia. }
  split_and!.
  - split; cbn [fst snd].
    + split; cbn [set_range c_start c_end c_end_seq]; [intros i; specialize (Hmid i); specialize (Hin i); lia|done|lia| |by apply to_int_nonzero].
      rewrite Hm. unfold idx_total. lia.
    + cbn [chain set_range c_start c_end c_merged c_split]. split_and!; [| |done|done|apply (mi_chain _ Hi)].
      * exists 0%nat. split; [apply common_nil; intros i; specialize (Hmid i); specialize (Hin i); lia|]. intros i. lia.
      * split; cbn [c_start c_end c_end_seq]; [intros i; specialize (Hmid i); specialize (Hin i); lia|lia|done| |apply (rg_seq _ _ Hc)].
        unfold csize. cbn [c_start c_end]. lia.
    + apply (mi_fresh _ Hi).
    + intros _. eexists _, _. split; [done|]. done.
  - done.
  - intros i. cbn [fst set_range c_start c_end]. lia.
  - eapply Nat.lt_le_trans; [|apply (measure_size _ Hi)]. unfold measure. cbn [fst set_range c_split]. fold (set_range (c_start c) (λ i, (c_start c i + idx i)%nat) (to_int (l_seq l)) true c).
    rewrite Hm. unfold idx_total, csize. cbn [fst]. lia.
Qed.

(** ** Whole regions *)

Lemma merge_same_changes_ok m : minv m →
  ∃ b m', merge_same_changes body m = Some (b, m') ∧ stepped m b m' ∧
    (b = false → texts (cs (fst m) LEFT) ≠ texts (cs (fst m) RIGHT)) ∧ (b = true → is_Some (c_merged (fst m'))).
Proof.
  intros Hi. destruct m as [c rest]. pose proof (mi_region _ Hi) as Hc. pose proof (mi_fresh _ Hi) as Hf. cbn [fst snd] in *.
  unfold merge_same_changes. rewrite samedata_ok by done. case_bool_decide as E.
  - rewrite cseg_ok by done. eexists _, _. split; [done|]. split; [|done]. unfold add_merged. rewrite Hf.
    apply (st_merged (c, rest)), automerge_one, rs_same, E.
  - eexists _, _. split; [done|]. split; [constructor|done].
Qed.

Lemma merge_only_one_ok m : minv m →
  ∃ b m', merge_only_one body m = Some (b, m') ∧ stepped m b m' ∧
    (b = false → texts (cs (fst m) GCA) ≠ texts (cs (fst m) LEFT) ∧ texts (cs (fst m) GCA) ≠ texts (cs (fst m) RIGHT)).
Proof.
  intros Hi. destruct m as [c rest]. pose proof (mi_region _ Hi) as Hc. pose proof (mi_fresh _ Hi) as Hf. cbn [fst snd] in *.
  unfold merge_only_one. rewrite !samedata_ok, gca_texts by done. case_bool_decide as E1; [|case_bool_decide as E2].
  - rewrite cseg_ok by done. eexists _, _. split; [done|]. split; [|done]. unfold add_merged. rewrite Hf.
    apply (st_merged (c, rest)), automerge_one, rs_right, E1.
  - rewrite cseg_ok by done. eexists _, _. split; [done|]. split; [|done]. unfold add_merged. rewrite Hf.
    apply (st_merged (c, rest)), automerge_one, rs_left, E2.
  - eexists _, _. split; [done|]. split; [constructor|done].
Qed.

Lemma merge_content_step m : minv m → ∃ b m', merge_content body crc HASH m = Some (b, m') ∧ stepped m b m'.
Proof.
  intros Hi. destruct m as [c rest].
  destruct (merge_content_ok L body (crc := crc) HASH c (mi_region _ Hi) rest (mi_fresh _ Hi)) as [->|(o & -> & Ha)].
  - eexists _, _. split; [done|]. constructor.
  - eexists _, _. split; [done|]. by apply (st_merged (c, rest)).
Qed.

(** ** Joining and moving regions *)

Lemma chain_next c n rest : chain L (c_end c) (n :: rest) → region L n ∧ ∀ i, (c_end c i <= c_start n i)%nat.
Proof. cbn [chain]. intros ((k & _ & Hk) & Hr & _). split; [done|]. intros i. rewrite Hk. lia. Qed.

Lemma contains_line_ok c l : region L c → ∃ b, contains_line body c l = Some b.
Proof. intros Hc. unfold contains_line. rewrite !cseg_ok by done. eauto. Qed.

(** A region that grew on both sides alike. *)
Lemma grown_measure c c' rest rest' :
  c_split c = false → c_split c' = false → (∀ i, (clen c i <= clen c' i)%nat) →
  (length rest' < length rest ∨ length rest' = length rest ∧ (clen c LEFT = 0 ∨ clen c RIGHT = 0) ∧ clen c' LEFT ≠ 0 ∧ clen c' RIGHT ≠ 0)%nat →
  (measure (c', rest') < measure (c, rest))%nat.
Proof.
  intros E1 E2 Hle H. unfold measure. cbn [fst snd]. rewrite E1, E2. pose proof (Hle LEFT); pose proof (Hle RIGHT).
  destruct (Nat.eqb_spec (clen c LEFT) 0), (Nat.eqb_spec (clen c RIGHT) 0), (Nat.eqb_spec (clen c' LEFT) 0), (Nat.eqb_spec (clen c' RIGHT) 0);
    cbn [orb]; lia.
Qed.

Lemma merge_conflicts_ok m : minv m → ∃ b m', merge_conflicts body m = Some (b, m') ∧ stepped m b m'.
Proof.
  intros Hi. destruct m as [c rest]. pose proof (mi_region _ Hi) as Hc. pose proof (mi_chain _ Hi) as Hch. cbn [fst snd] in *.
  assert (Hno : ∃ b m', Some (false, (c, rest)) = Some (b, m') ∧ stepped (c, rest) b m') by (eexists _, _; split; [done|constructor]).
  unfold merge_conflicts. destruct rest as [|n rest]; [done|]. destruct (c_split c) eqn:Es; [done|].
  destruct (chain_next _ _ _ Hch) as [Hn Hle]. destruct (line_any L body LEFT (c_end c LEFT)) as (l & -> & _); [apply (rg_in _ _ Hc)|].
  destruct (contains_line_ok c l Hc) as [b1 ->], (contains_line_ok n l Hn) as [b2 ->].
  match goal with |- context [match ?x with Some _ => _ | None => None end] => assert (∃ b, x = Some b) as [b ->] by (destruct (_ =? _)%nat, b1; eauto) end.
  destruct (b || _); [|done]. destruct (Z.eqb_spec (c_end_seq n) 0) as [E|_]; [by destruct (rg_seq _ _ Hn)|]. cbn [negb].
  eexists _, _. split; [done|].
  assert (Hlen : ∀ i, (clen c i <= clen (set_range (c_start c) (c_end n) (c_end_seq n) false c) i)%nat).
  { intros i. unfold clen, set_range. cbn [c_start c_end]. pose proof (rg_in _ _ Hn i). specialize (Hle i). lia. }
  apply st_moved.
  - split; cbn [fst snd].
    + split; cbn [set_range c_start c_end c_end_seq]; [|apply (rg_start _ _ Hc)|apply (rg_end _ _ Hn)| |apply (rg_seq _ _ Hn)].
      * intros i. pose proof (rg_in _ _ Hc i). pose proof (rg_in _ _ Hn i). specialize (Hle i). lia.
      * pose proof (rg_size _ _ Hc) as Hz. unfold csize, clen, set_range in *. cbn [c_start c_end] in *.
        pose proof (Hlen LEFT); pose proof (Hlen RIGHT); pose proof (Hlen GCA); pose proof (Hlen GCAR). lia.
    + cbn [set_range c_end]. apply Hch.
    + apply (mi_fresh _ Hi).
    + done.
  - done.
  - cbn [fst]. unfold some_side. pose proof (Hlen LEFT); pose proof (Hlen RIGHT). lia.
  - apply grown_measure; [done|done|done|]. left. cbn. lia.
Qed.

Lemma same_count_le a : ∀ b, (same_count a b <= length a ∧ same_count a b <= length b)%nat.
Proof.
  induction a as [|x a IH]; intros [|y b]; cbn [same_count length]; try lia. destruct (sameline x y); [|lia]. specialize (IH b). lia.
Qed.

(** The common lines after a region can be moved into it. *)
Lemma chain_shift mk mk' cs' j :
  chain L mk cs' → (∀ i, mk' i = (mk i + j)%nat) →
  (j <= match cs' with n :: _ => c_start n GCA - mk GCA | [] => length (L GCA) - mk GCA end)%nat →
  chain L mk' cs' ∧ ∀ i, (mk' i <= length (L i))%nat.
Proof.
  intros Hch Hm Hj. destruct cs' as [|n cs']; cbn [chain] in *.
  - destruct Hch as (k & Hk & He). pose proof (He GCA). replace k with (j + (k - j))%nat in Hk by lia.
    destruct (common_drop L mk mk' _ _ Hk Hm) as [_ H2]. split.
    + exists (k - j)%nat. split; [done|]. intros i. rewrite Hm. specialize (He i). lia.
    + intros i. rewrite Hm. specialize (He i). lia.
  - destruct Hch as ((k & Hk & He) & Hr & Hrest). pose proof (He GCA). replace k with (j + (k - j))%nat in Hk by lia.
    destruct (common_drop L mk mk' _ _ Hk Hm) as [_ H2]. split.
    + split; [|done]. exists (k - j)%nat. split; [done|]. intros i. rewrite Hm, He. lia.
    + intros i. rewrite Hm. pose proof (rg_in _ _ Hr i). specialize (He i). lia.
Qed.

Lemma merge_with_following_gca_ok m : minv m → ∃ b m', merge_with_following_gca body m = Some (b, m') ∧ stepped m b m'.
Proof.
  intros Hi. destruct m as [c rest]. pose proof (mi_region _ Hi) as Hc. pose proof (mi_chain _ Hi) as Hch. cbn [fst snd] in *.
  assert (Hno : ∃ b m', Some (false, (c, rest)) = Some (b, m') ∧ stepped (c, rest) b m') by (eexists _, _; split; [done|constructor]).
  unfold merge_with_following_gca. rewrite (f_n_eq L body).
  set (gap := match rest with n :: _ => (c_start n GCA - c_end c GCA)%nat | [] => (length (L GCA) - c_end c GCA)%nat end).
  assert (Hgap : (c_end c GCA + gap <= length (L GCA))%nat).
  { subst gap. pose proof (rg_in _ _ Hc GCA). destruct rest as [|n rest]; [lia|]. destruct (chain_next _ _ _ Hch) as [Hn Hle].
    pose proof (rg_in _ _ Hn GCA). specialize (Hle GCA). lia. }
  assert (Hgo : ∀ side, (side = LEFT ∧ clen c RIGHT = 0%nat ∨ side = RIGHT ∧ clen c LEFT = 0%nat) → clen c side ≠ 0%nat →
    ∃ b m', (let? a := seg body side (c_start c side) (c_start c side + Nat.min gap (clen c side)) in
             let? b := seg body GCA (c_end c GCA) (c_end c GCA + Nat.min gap (clen c side)) in
             if (same_count a b =? 0)%nat then Some (false, (c, rest)) else
             let? l := line_at body GCA (c_end c GCA + same_count a b) in
             Some (true, (set_range (c_start c) (λ i, (c_end c i + same_count a b)%nat) (to_int (l_seq l)) (c_split c) c, rest))) = Some (b, m') ∧
      stepped (c, rest) b m').
  { intros sd Hsd Hne. rewrite (seg_ok L body sd), (seg_ok L body GCA) by (pose proof (rg_in _ _ Hc sd); unfold clen in *; lia).
    set (a := slice (L sd) _ _). set (b := slice (L GCA) _ _). destruct (same_count_le a b) as [_ Hj]. subst b.
    rewrite length_slice in Hj by lia. set (j := same_count a _) in *. destruct (Nat.eqb_spec j 0) as [|Hj0]; [done|].
    destruct (line_any L body GCA (c_end c GCA + j)) as (l & -> & Hl); [lia|]. eexists _, _. split; [done|].
    destruct (chain_shift (c_end c) (λ i, (c_end c i + j)%nat) rest j Hch) as [Hch' Hin']; [done|subst gap; destruct rest; lia|].
    assert (Hns : c_split c = false).
    { destruct (c_split c) eqn:E; [|done]. destruct (mi_split _ Hi E) as (n & rest' & Er & Hn). cbn [fst snd] in *. subst rest.
      subst gap. specialize (Hn GCA). lia. }
    assert (Hlen : ∀ i x y, clen (set_range (c_start c) (λ i, (c_end c i + j)%nat) x y c) i = (clen c i + j)%nat).
    { intros i x y. unfold clen, set_range. cbn [c_start c_end]. pose proof (rg_in _ _ Hc i). lia. }
    apply st_moved.
    - split; cbn [fst snd].
      + split; cbn [set_range c_start c_end c_end_seq]; [|apply (rg_start _ _ Hc)| | |by apply to_int_nonzero].
        * intros i. pose proof (rg_in _ _ Hc i). specialize (Hin' i). lia.
        * by rewrite (rg_end _ _ Hc).
        * pose proof (rg_size _ _ Hc) as Hz. unfold csize, set_range in *. cbn [c_start c_end]. lia.
      + done.
      + apply (mi_fresh _ Hi).
      + cbn [set_range c_split]. congruence.
    - done.
    - cbn [fst]. unfold some_side. rewrite !Hlen. lia.
    - apply grown_measure; [done|done|intros i; rewrite Hlen; lia|]. right. rewrite !Hlen. destruct Hsd as [[-> ?]|[-> ?]]; lia. }
  fold (clen c LEFT) (clen c RIGHT).
  destruct (Nat.eqb_spec (clen c LEFT) 0), (Nat.eqb_spec (clen c RIGHT) 0); cbn [negb andb]; [done|apply (Hgo RIGHT); auto|apply (Hgo LEFT); auto|done].
Qed.

(** ** Splitting regions *)

Lemma split_step idx m :
  minv m → (∀ i, (idx i <= clen (fst m) i)%nat) → idx GCAR = idx GCA → (idx_total idx < csize (fst m))%nat →
  (idx LEFT ≠ 0 ∨ idx RIGHT ≠ 0)%nat →
  ∃ b m', (let? m := split_conflict body idx m in Some (true, m)) = Some (b, m') ∧ stepped m b m'.
Proof.
  intros Hi Hle Hg Ht Hs. destruct (split_ok idx m Hi Hle Hg) as (m' & -> & Hi' & E1 & Hlen & Hm).
  { unfold idx_total in *. lia. }
  eexists _, _. split; [done|]. apply st_moved; [done|done| |done]. intros _. unfold some_side. by rewrite !Hlen.
Qed.

Lemma common_count_le l : ∀ r g chk,
  (fst (common_count l r g chk) <= length l ∧ fst (common_count l r g chk) <= length r ∧
   snd (common_count l r g chk) <= length g)%nat.
Proof.
  induction l as [|x l IH]; intros [|y r] g chk; cbn [common_count]; try (cbn; lia).
  destruct (sameline x y); [|cbn; lia]. set (hit := match g with [] => false | _ => _ end).
  specialize (IH r (tail g) hit). destruct (common_count l r (tail g) hit) as [i j]. cbn [fst snd length] in *.
  destruct g as [|z g]; [subst hit; cbn in *; lia|]. destruct hit; cbn [length tail] in *; lia.
Qed.

Lemma clen_gcar c : region L c → clen c GCAR = clen c GCA.
Proof. intros Hc. unfold clen. by rewrite (rg_start _ _ Hc), (rg_end _ _ Hc). Qed.

Lemma csize_clen c : csize c = (clen c LEFT + clen c RIGHT + clen c GCA + clen c GCAR)%nat.
Proof. done. Qed.

Lemma merge_common_header_ok m : minv m → ∃ b m', merge_common_header body m = Some (b, m') ∧ stepped m b m'.
Proof.
  intros Hi. destruct m as [c rest]. pose proof (mi_region _ Hi) as Hc. cbn [fst] in *.
  unfold merge_common_header. rewrite !cseg_ok by done.
  pose proof (common_count_le (cs c LEFT) (cs c RIGHT) (cs c GCA) true) as Hle. rewrite !length_cs in * by done.
  destruct (common_count _ _ _ _) as [i j]. cbn [fst snd] in Hle.
  destruct (_ || _) eqn:E; [eexists _, _; split; [done|constructor]|].
  apply orb_false_iff in E as [E1 E2]. rewrite andb_false_iff in E2. boolify.
  pose proof (clen_gcar c Hc). apply split_step; [done| |done| |by left].
  - intros []; cbn [fst]; lia.
  - unfold idx_total. cbn [fst]. rewrite csize_clen. destruct E2; boolify; lia.
Qed.

Lemma merge_common_footer_ok m : minv m → ∃ b m', merge_common_footer body m = Some (b, m') ∧ stepped m b m'.
Proof.
  intros Hi. destruct m as [c rest]. pose proof (mi_region _ Hi) as Hc. cbn [fst] in *.
  unfold merge_common_footer. rewrite !cseg_ok by done.
  pose proof (common_count_le (reverse (cs c LEFT)) (reverse (cs c RIGHT)) (reverse (cs c GCA)) true) as Hle. rewrite !length_reverse, !length_cs in * by done.
  destruct (common_count _ _ _ _) as [i j]. cbn [fst snd] in Hle.
  destruct (_ || _) eqn:E; [eexists _, _; split; [done|constructor]|].
  apply orb_false_iff in E as [E1 E2]. rewrite andb_false_iff in E2. boolify.
  pose proof (clen_gcar c Hc). apply split_step; [done| |lia| |].
  - intros []; cbn [fst]; lia.
  - unfold idx_total. cbn [fst]. rewrite csize_clen. lia.
  - destruct E2; boolify; lia.
Qed.

Lemma seq_below_le ls q : (seq_below ls q <= length ls)%nat.
Proof. induction ls as [|l ls IH]; cbn [seq_below length]; [lia|]. destruct (_ <? _); lia. Qed.

Lemma merge_added_oneside_ok m : minv m → ∃ b m', merge_added_oneside body m = Some (b, m') ∧ stepped m b m'.
Proof.
  intros Hi. destruct m as [c rest]. pose proof (mi_region _ Hi) as Hc. cbn [fst] in *.
  assert (Hno : ∃ b m', Some (false, (c, rest)) = Some (b, m') ∧ stepped (c, rest) b m') by (eexists _, _; split; [done|constructor]).
  unfold merge_added_oneside. destruct (existsb _ FILES) eqn:E; [done|].
  assert (Hne : ∀ i, (c_start c i < c_end c i <= length (L i))%nat).
  { cbn [FILES existsb] in E. rewrite !orb_false_iff in E. destruct_and!. boolify. intros i. pose proof (rg_in _ _ Hc i). destruct i; lia. }
  destruct (line_ok L body GCA (c_start c GCA)) as (g & _ & -> & _); [specialize (Hne GCA); lia|].
  destruct (line_ok L body LEFT (c_start c LEFT)) as (l & Ll & -> & _); [specialize (Hne LEFT); lia|].
  destruct (line_ok L body RIGHT (c_start c RIGHT)) as (r & Lr & -> & _); [specialize (Hne RIGHT); lia|].
  assert (Hgo : ∀ sd x, (sd = LEFT ∨ sd = RIGHT) → L sd !! c_start c sd = Some x → l_seq x < l_seq g →
    ∃ b m', (let? ls := cseg body c sd in
             let? m := split_conflict body (λ f, if decide (f = sd) then seq_below ls (l_seq g) else 0%nat) (c, rest) in Some (true, m)) = Some (b, m') ∧
      stepped (c, rest) b m').
  { intros sd x Hsd Hx Hlt. rewrite cseg_ok by done. pose proof (seq_below_le (cs c sd) (l_seq g)) as Hb. rewrite length_cs in Hb by done.
    assert (Hpos : (0 < seq_below (cs c sd) (l_seq g))%nat).
    { unfold cs. rewrite (slice_cons _ _ _ x) by (done || apply Hne). cbn [seq_below]. destruct (Z.ltb_spec (l_seq x) (l_seq g)); lia. }
    apply split_step; [done| | | |].
    - intros i. cbn [fst]. destruct (decide (i = sd)) as [->|]; lia.
    - destruct Hsd as [-> | ->]; by rewrite !decide_False by done.
    - unfold idx_total. rewrite csize_clen. cbn [fst]. pose proof (Hne GCA). unfold clen in *. destruct Hsd as [-> | ->]; repeat case_decide; try done; lia.
    - destruct Hsd as [-> | ->]; repeat case_decide; try done; lia. }
  destruct ((l_seq l =? l_seq g) && (l_seq r <? l_seq g)) eqn:E1; [boolify; apply (Hgo RIGHT r); auto|].
  destruct ((l_seq r =? l_seq g) && (l_seq l <? l_seq g)) eqn:E2; [boolify; apply (Hgo LEFT l); auto|done].
Qed.

Definition dels (d : list diffln) : nat := length (List.filter (λ x, d_c x =? 45) d).

Lemma dels_app a b : dels (a ++ b) = (dels a + dels b)%nat.
Proof. unfold dels. by rewrite List.filter_app, length_app. Qed.

Lemma lead_dels_le d : (lead_dels d <= dels d)%nat.
Proof. unfold dels. induction d as [|x d IH]; cbn [lead_dels List.filter]; [done|]. destruct (_ =? 45); cbn [length]; lia. Qed.

Lemma trail_dels_le d : (trail_dels d <= dels d)%nat.
Proof.
  unfold trail_dels. etransitivity; [apply lead_dels_le|]. induction d as [|x d IH]; [done|].
  rewrite reverse_cons, dels_app. change (x :: d) with ([x] ++ d). rewrite dels_app. lia.
Qed.

Lemma unidiff_loop_ok fuel : ∀ l r del ins,
  (length l + length r <= fuel)%nat →
  ∃ out, unidiff_loop fuel l r del ins = Some out ∧ (dels out <= dels del + dels ins + length l)%nat ∧
    ∀ d, d ∈ out → d ∈ del ∨ d ∈ ins ∨ d_ld d ∈ l ∨ d_ld d ∈ r.
Proof.
  assert (Hend : ∀ del ins, ∃ out, Some (del ++ ins) = Some out ∧ (dels out <= dels del + dels ins + 0)%nat ∧
    ∀ d, d ∈ out → d ∈ del ∨ d ∈ ins ∨ d_ld d ∈ (@nil ld) ∨ d_ld d ∈ (@nil ld)).
  { intros del ins. eexists. split; [done|]. rewrite dels_app. split; [lia|]. intros d Hd. apply elem_of_app in Hd. tauto. }
  assert (Hone : ∀ x c, dels [mkDiffln x None c] = if c =? 45 then 1%nat else 0%nat) by (intros x c; unfold dels; cbn; by destruct (c =? 45)).
  induction fuel as [|fuel IH]; intros l r del ins Hf.
  { destruct l, r; cbn in Hf; try lia. apply Hend. }
  assert (Hdel : ∀ x l', l = x :: l' → ∃ out, unidiff_loop fuel l' r (del ++ [mkDiffln x None 45]) ins = Some out ∧
    (dels out <= dels del + dels ins + length l)%nat ∧ ∀ d, d ∈ out → d ∈ del ∨ d ∈ ins ∨ d_ld d ∈ l ∨ d_ld d ∈ r).
  { intros x l' ->. destruct (IH l' r (del ++ [mkDiffln x None 45]) ins) as (out & -> & Hd & He); [cbn in Hf; lia|].
    eexists. split; [done|]. rewrite dels_app, Hone in Hd. cbn in Hd. split; [cbn; lia|]. intros d H. apply He in H.
    rewrite elem_of_app, list_elem_of_singleton in H. rewrite elem_of_cons. destruct H as [[? | ->]|?]; tauto. }
  assert (Hins : ∀ y r', r = y :: r' → ∃ out, unidiff_loop fuel l r' del (ins ++ [mkDiffln y None 43]) = Some out ∧
    (dels out <= dels del + dels ins + length l)%nat ∧ ∀ d, d ∈ out → d ∈ del ∨ d ∈ ins ∨ d_ld d ∈ l ∨ d_ld d ∈ r).
  { intros y r' ->. destruct (IH l r' del (ins ++ [mkDiffln y None 43])) as (out & -> & Hd & He); [cbn in Hf; lia|].
    eexists. split; [done|]. rewrite dels_app, Hone in Hd. cbn in Hd. split; [lia|]. intros d H. apply He in H.
    rewrite elem_of_app, list_elem_of_singleton in H. rewrite !elem_of_cons. destruct H as [?|[[? | ->]|?]]; tauto. }
  destruct l as [|x l], r as [|y r]; cbn [unidiff_loop]; [apply Hend|by apply Hins|by apply Hdel|].
  destruct (Z.ltb_spec (l_seq x) (l_seq y)); [by apply Hdel|]. destruct (Z.ltb_spec (l_seq y) (l_seq x)); [by apply Hins|].
  destruct (Z.eqb_spec (l_seq x) (l_seq y)); [|lia]. destruct (IH l r [] []) as (out & -> & Hd & He); [cbn in Hf; lia|].
  eexists. split; [done|]. change (dels []) with 0%nat in Hd. rewrite !dels_app, Hone. cbn [Z.eqb Pos.eqb length]. split; [lia|].
  intros d H'. rewrite !elem_of_app, list_elem_of_singleton in H'. rewrite !elem_of_cons.
  destruct H' as [?|[?|[->|Hd']]]; [tauto|tauto|cbn; tauto|]. apply He in Hd'. rewrite elem_of_nil in Hd'. tauto.
Qed.

Lemma unidiff_ok c f t : region L c →
  ∃ out, unidiff body c f t = Some out ∧ (dels out <= clen c f)%nat ∧ ∀ d, d ∈ out → d_ld d ∈ cs c f ∨ d_ld d ∈ cs c t.
Proof.
  intros Hc. unfold unidiff. rewrite !cseg_ok by done.
  destruct (unidiff_loop_ok (length (cs c f) + length (cs c t)) (cs c f) (cs c t) [] []) as (out & -> & Hd & He); [done|].
  eexists. split; [done|]. rewrite length_cs in Hd by done. split; [done|]. intros d Hin. apply He in Hin. rewrite elem_of_nil in Hin. tauto.
Qed.

Lemma merge_common_deletes_ok m : minv m → some_side (fst m) →
  ∃ b m', merge_common_deletes body m = Some (b, m') ∧ stepped m b m'.
Proof.
  intros Hi Hs. destruct m as [c rest]. pose proof (mi_region _ Hi) as Hc. cbn [fst] in *. unfold merge_common_deletes.
  destruct (unidiff_ok c GCA LEFT Hc) as (dl & -> & Hl & _), (unidiff_ok c GCAR RIGHT Hc) as (dr & -> & Hr & _).
  pose proof (trail_dels_le dl). pose proof (trail_dels_le dr). rewrite clen_gcar in Hr by done.
  destruct (Nat.ltb_spec 0 (Nat.min (trail_dels dl) (trail_dels dr))) as [Hpos|]; [|eexists _, _; split; [done|constructor]].
  pose proof (clen_gcar c Hc) as Hg. unfold some_side in Hs.
  apply split_step; [done| | | |done].
  - intros []; cbn [fst]; fold (clen c LEFT) (clen c RIGHT) (clen c GCA) (clen c GCAR); lia.
  - fold (clen c GCA) (clen c GCAR). lia.
  - unfold idx_total. rewrite csize_clen. cbn [fst]. fold (clen c LEFT) (clen c RIGHT) (clen c GCA) (clen c GCAR). lia.
Qed.

(** ** A round over the table *)

(** What it means that a function did not merge the region. *)
Definition refused (f : mergefcn) (c : conflct) : Prop :=
  match f with
  | F_same_changes => texts (cs c LEFT) ≠ texts (cs c RIGHT)
  | F_only_one => texts (cs c GCA) ≠ texts (cs c LEFT) ∧ texts (cs c GCA) ≠ texts (cs c RIGHT)
  | _ => True
  end.

Lemma run_fcn_ok f m : minv m → (f = F_common_deletes → some_side (fst m)) →
  ∃ b m', run_fcn body crc HASH f m = Some (b, m') ∧ stepped m b m' ∧ (b = false → refused f (fst m)) ∧
    (f = F_same_changes → b = true → is_Some (c_merged (fst m'))).
Proof.
  assert (H : ∀ f x, f ≠ F_same_changes → (∃ b m', x = Some (b, m') ∧ stepped m b m') →
    ∃ b m', x = Some (b, m') ∧ stepped m b m' ∧ (b = false → True) ∧ (f = F_same_changes → b = true → is_Some (c_merged (fst m'))))
    by (intros g x Hg (b & m' & ? & ?); exists b, m'; split_and!; [done|done|done|by intros ->]).
  intros Hi Hs. destruct f; cbn [run_fcn refused].
  - apply H; [done|]. by apply merge_conflicts_ok.
  - destruct (merge_same_changes_ok m Hi) as (b & m' & ? & ? & ? & ?). eauto 8.
  - destruct (merge_only_one_ok m Hi) as (b & m' & ? & ? & ?). eexists _, _. by split_and!.
  - apply H; [done|]. by apply merge_content_step.
  - apply H; [done|]. by apply merge_common_header_ok.
  - apply H; [done|]. by apply merge_added_oneside_ok.
  - apply H; [done|]. by apply merge_common_footer_ok.
  - apply H; [done|]. apply merge_common_deletes_ok; auto.
  - apply H; [done|]. by apply merge_with_following_gca_ok.
Qed.

(** Identical changes are looked for before common deletes are split off, so a
    region without lines on both sides is never split. *)
Fixpoint guarded (fs : list mergefcns) : bool :=
  match fs with
  | [] => true
  | f :: fs =>
      if m_enable f =? 0 then guarded fs else
      match m_fcn f with F_same_changes => true | F_common_deletes => false | _ => guarded fs end
  end.

(** How the work on a region can end. *)
Record resolved (fs : list mergefcns) (m : mstate) : Prop := {
  rv_region : region L (fst m);
  rv_chain : chain L (c_end (fst m)) (snd m);
  rv_out : match c_merged (fst m) with
           | Some o => automerge (cs (fst m) GCA) (cs (fst m) LEFT) (cs (fst m) RIGHT) o
           | None => ∀ f, f ∈ fs → m_enable f ≠ 0 → refused (m_fcn f) (fst m)
           end
}.

Lemma region_ext c c' : c_start c' = c_start c → c_end c' = c_end c → c_end_seq c' = c_end_seq c → region L c → region L c'.
Proof.
  intros E1 E2 E3 [H1 H2 H3 H4 H5]. unfold csize in H4. split; rewrite ?E1, ?E2, ?E3; try done. unfold csize. by rewrite E1, E2.
Qed.

Lemma minv_algo a m : minv m → minv (add_algo a (fst m), snd m).
Proof. intros [H1 H2 H3 H4]. split; [by apply (region_ext (fst m))|done..]. Qed.

Lemma run_fcns_ok fs : ∀ changed m,
  minv m → guarded fs = true ∨ some_side (fst m) →
  ∃ ch m', run_fcns body crc HASH fs changed m = Some (ch, m') ∧ c_start (fst m') = c_start (fst m) ∧
    match c_merged (fst m') with
    | Some _ => resolved fs m'
    | None => minv m' ∧ (ch = changed ∧ m' = m ∧ resolved fs m' ∨ ch = true ∧ (measure m' < measure m)%nat)
    end.
Proof.
  induction fs as [|f fs IH]; intros changed m Hi Hg; cbn [run_fcns].
  { exists changed, m. split_and!; [done|done|]. rewrite (mi_fresh _ Hi). split; [done|]. left. split_and!; [done|done|].
    split; [apply Hi|apply Hi|]. rewrite (mi_fresh _ Hi). intros f Hf. by apply elem_of_nil in Hf. }
  assert (Hlast : ∀ m', resolved fs m' → (c_merged (fst m') = None → m_enable f ≠ 0 → refused (m_fcn f) (fst m')) → resolved (f :: fs) m').
  { intros m' [H1 H2 H3] Hr. split; [done|done|]. destruct (c_merged (fst m')); [done|]. intros g Hg'. apply elem_of_cons in Hg' as [-> |]; auto. }
  destruct (Z.eqb_spec (m_enable f) 0) as [E0|E0].
  { destruct (IH changed m Hi) as (ch & m' & Hrun & Hst & Hm).
    { destruct Hg as [Hg|]; [left|by right]. cbn [guarded] in Hg. by rewrite E0 in Hg. }
    exists ch, m'. split_and!; [done|done|]. destruct (c_merged (fst m')) eqn:Em; [by apply Hlast|].
    destruct Hm as [Hi' Hm]. split; [done|]. destruct Hm as [(? & ? & ?)|?]; [left; split_and!; [done|done|by apply Hlast]|by right]. }
  cbn [guarded] in Hg. apply Z.eqb_neq in E0 as E0'. rewrite E0' in Hg.
  destruct (run_fcn_ok (m_fcn f) m Hi) as (b & m1 & -> & Hst & Href & Hsame).
  { intros E. rewrite E in Hg. by destruct Hg as [|]. }
  destruct Hst as [|o Ho|m1 Hi1 Es Hside Hlt].
  - rewrite orb_false_r, (mi_fresh _ Hi). specialize (Href eq_refl). destruct (IH changed m Hi) as (ch & m' & Hrun & Hst & Hm).
    { destruct Hg as [Hg|]; [|by right]. destruct (m_fcn f) eqn:Ef; try (by left). right. cbn [refused] in Href.
      unfold some_side. destruct (decide (clen (fst m) LEFT = 0%nat)) as [E1|]; [|by left].
      destruct (decide (clen (fst m) RIGHT = 0%nat)) as [E2|]; [|by right]. destruct Href.
      rewrite <- length_cs in E1, E2 by apply Hi. apply nil_length_inv in E1, E2. by rewrite E1, E2. }
    exists ch, m'. split_and!; [done|done|]. destruct (c_merged (fst m')) eqn:Em; [apply Hlast; [done|congruence]|].
    destruct Hm as [Hi' Hm]. split; [done|]. destruct Hm as [(? & -> & ?)|?]; [left; split_and!; [done|done|by apply Hlast]|by right].
  - cbn [fst snd add_algo set_merged c_merged]. eexists _, _. split; [done|]. cbn [fst c_start c_merged]. split; [done|].
    split; cbn [fst snd c_merged]; [apply (region_ext (fst m)); [done..|apply Hi]|apply Hi|done].
  - pose proof (minv_algo (m_fname f) m1 Hi1) as Hi2. cbn [add_algo fst c_merged]. rewrite (mi_fresh _ Hi1), orb_true_r.
    destruct (IH true _ Hi2) as (ch & m' & Hrun & Hst & Hm).
    { destruct Hg as [Hg|Hg]; [|right; by apply Hside]. destruct (m_fcn f) eqn:Ef; try (by left).
      destruct (Hsame eq_refl eq_refl) as [? E]. rewrite (mi_fresh _ Hi1) in E. done. }
    exists ch, m'. split_and!; [done|by rewrite Hst|]. destruct (c_merged (fst m')) eqn:Em; [apply Hlast; [done|congruence]|].
    destruct Hm as [Hi' Hm]. split; [done|]. right. destruct Hm as [(-> & -> & _)|[-> Hm]]; (split; [done|]); [done|].
    by eapply Nat.lt_trans; [exact Hm|].
Qed.

(** ** The rounds *)

Context (o : smopts) (Hguard : guarded (s_fcns o) = true).

Lemma resolve_loop_ok fuel : ∀ m, minv m → (measure m < fuel)%nat →
  ∃ m', resolve_loop o body crc HASH fuel m = Some m' ∧ c_start (fst m') = c_start (fst m) ∧ resolved (s_fcns o) m'.
Proof.
  induction fuel as [|fuel IH]; intros m Hi Hf; [lia|]. cbn [resolve_loop].
  destruct (run_fcns_ok (s_fcns o) false m Hi) as (ch & m1 & -> & Es & Hm); [by left|].
  destruct (c_merged (fst m1)) eqn:Em; [by exists m1|]. destruct Hm as [Hi1 [(-> & -> & Hr)|[-> Hlt]]]; [by exists m|].
  destruct (IH m1 Hi1) as (m2 & -> & Es2 & Hr); [lia|]. exists m2. by rewrite Es2, Es.
Qed.

Lemma resolve_fuel_ok m : minv m → (measure m < resolve_fuel body (snd m))%nat.
Proof.
  intros Hi. unfold resolve_fuel, measure. pose proof (csize_total _ (mi_region _ Hi)).
  destruct (c_split (fst m)); [lia|]. destruct (_ || _); lia.
Qed.

End Ok.
