(* ===== verification/SmergeShow.v ===== *)
(** * SmergeShow: conflicts can be shown

    The functions of src/src/smerge.c that print a conflict region return for every
    region: the differences they compute cover the region, highlighting stops, and
    the two columns of fdiff output have the same number of lines. *)

From S2P Require Import Prelude CStr Shell Crc HashIface U32Hash Diff DiffSnake DiffCorrect NDiff NDiffOk Smerge SmergeFind SmergeContent SmergeOk.
From stdpp Require Import base functions numbers list.
From Stdlib Require Import ZArith Lia.

Local Open Scope Z_scope.

Local Open Scope bk_scope.

(** ** Lines *)

(** A line with text can be printed. *)
Definition has_text (l : ld) : Prop := l_line l ≠ [].

Section Print.

Context (o : smopts).

Lemma printline_ok l c nl : nl = false ∨ has_text l → ∃ t, printline o l c nl = Some t.
Proof.
  intros H. unfold printline. destruct nl; [|eauto]. destruct H as [|H]; [done|].
  destruct (last (l_line l)) as [x|] eqn:E; [eauto|]. apply last_None in E. done.
Qed.

Lemma print_lds_ok ls c nl : nl = false ∨ Forall has_text ls → ∃ t, print_lds o ls c nl = Some t.
Proof.
  intros H. induction ls as [|l ls IH]; cbn [print_lds]; [eauto|].
  destruct (printline_ok l c nl) as [t ->]; [destruct H as [|H]; [by left|right; by inversion H]|].
  destruct IH as [t' ->]; [destruct H as [|H]; [by left|right; by inversion H]|]. eauto.
Qed.

Definition d_text (d : diffln) : Prop := has_text (d_ld d).

Lemma print_difflns_ok ds : Forall d_text ds → ∃ t, print_difflns o ds = Some t.
Proof.
  induction 1 as [|d ds Hd _ [t' IH]]; cbn [print_difflns]; [eauto|].
  destruct (printline_ok (d_ld d) (d_c d) true) as [t ->]; [by right|]. rewrite IH. eauto.
Qed.

Lemma print_columns_ok ds : Forall d_text ds → ∃ t, print_columns o ds = Some t.
Proof.
  induction 1 as [|d ds Hd _ [t' IH]]; cbn [print_columns]; [eauto|]. unfold print_column.
  destruct (printline_ok (d_ld d) (d_c d) true) as [t ->]; [by right|]. rewrite IH. eauto.
Qed.

Lemma algos_text_ok c : ∃ t, algos_text o c = Some t.
Proof.
  unfold algos_text. destruct (s_show_mergefn o); [|eauto]. destruct (c_algos c) as [|a l]; [eauto|].
  rewrite joinLines_join by done. eauto.
Qed.

Lemma filter_text p ds : Forall d_text ds → Forall d_text (List.filter p ds).
Proof. induction 1 as [|d ds Hd _ IH]; cbn [List.filter]; [done|]. destruct (p d); [by constructor|done]. Qed.

End Print.

(** ** Highlighting *)

Lemma highlight_line_ld x y : d_ld (fst (highlight_line x y)) = d_ld x ∧ d_ld (snd (highlight_line x y)) = d_ld y.
Proof. unfold highlight_line. case_if; [done|]. cbn [fst snd]. by repeat case_if. Qed.

Lemma insert_ld (diff : list diffln) i x y : diff !! i = Some x → d_ld y = d_ld x → map d_ld (<[i := y]> diff) = map d_ld diff.
Proof.
  intros Hx E. change (d_ld <$> <[i := y]> diff = d_ld <$> diff). rewrite list_fmap_insert, E. apply list_insert_id.
  by rewrite list_lookup_fmap, Hx.
Qed.

Lemma replace_loop_ok fuel : ∀ diff a b,
  (a < b <= length diff)%nat → (length diff < b + fuel)%nat →
  ∃ diff' b', replace_loop fuel diff a b = Some (diff', b') ∧ map d_ld diff' = map d_ld diff ∧ (b <= b')%nat.
Proof.
  induction fuel as [|fuel IH]; intros diff a b Hab Hf; cbn [replace_loop]; [lia|].
  destruct (diff !! b) as [y|] eqn:Eb; [|by exists diff, b]. pose proof (lookup_lt_Some _ _ _ Eb).
  destruct (lookup_lt_is_Some_2 diff a) as [x Ex]; [lia|]. rewrite Ex.
  destruct (_ && _); [|by exists diff, b]. destruct (highlight_line_ld x y) as [E1 E2]. destruct (highlight_line x y) as [x' y'].
  cbn [fst snd] in *. destruct (IH (<[b := y']> (<[a := x']> diff)) (S a) (S b)) as (d' & b' & -> & Hm & Hb);
    [rewrite !length_insert; lia..|].
  exists d', b'. split_and!; [done| |lia]. rewrite Hm, (insert_ld _ b y y'), (insert_ld _ a x x'); [done|done|done| |done].
  by rewrite list_lookup_insert_ne by lia.
Qed.

Lemma skip_lines_le p d : (skip_lines p d <= length d)%nat.
Proof. induction d as [|x d IH]; cbn [skip_lines length]; [done|]. destruct (p _); lia. Qed.

Lemma highlight_loop_ok fuel : ∀ diff a,
  (length diff - a < fuel)%nat → ∃ diff', highlight_loop fuel diff a = Some diff' ∧ map d_ld diff' = map d_ld diff.
Proof.
  induction fuel as [|fuel IH]; intros diff a Hf; cbn [highlight_loop]; [lia|].
  set (a' := (a + _)%nat). destruct (diff !! a') as [x|] eqn:Ex; [|by exists diff]. pose proof (lookup_lt_Some _ _ _ Ex).
  set (b := (a' + 1 + _)%nat).
  destruct (replace_loop_ok (S (length diff)) diff a' b) as (d' & b' & -> & Hm & Hb).
  { subst b. pose proof (skip_lines_le (λ c, c =? 45) (drop (a' + 1) diff)) as Hs. rewrite length_drop in Hs. lia. }
  { lia. }
  assert (length d' = length diff) by (rewrite <- (length_map d_ld d'), Hm; apply length_map).
  destruct (IH d' b') as (d2 & -> & Hm2); [lia|]. exists d2. by rewrite Hm2.
Qed.

Lemma highlight_diff_ok diff : ∃ diff', highlight_diff diff = Some diff' ∧ map d_ld diff' = map d_ld diff.
Proof. apply highlight_loop_ok. lia. Qed.

Lemma text_map a b : map d_ld a = map d_ld b → Forall d_text b → Forall d_text a.
Proof. intros E H. apply (Forall_map d_ld has_text). rewrite E. by apply Forall_map. Qed.

(** ** Columns *)

Lemma fdiff_rows_ok fuel : ∀ lp rp, (length lp + length rp <= fuel)%nat → Forall d_text lp → Forall d_text rp →
  ∃ rows, fdiff_rows fuel lp rp = Some rows ∧ Forall d_text (map fst rows) ∧ Forall d_text (map snd rows).
Proof.
  assert (Hb : d_text blankline) by done.
  induction fuel as [|fuel IH]; intros lp rp Hf Hl Hr.
  { destruct lp, rp; cbn in Hf; try lia. by exists []. }
  assert (Hgo : ∀ x y lp' rp', (length lp' + length rp' <= fuel)%nat → Forall d_text lp' → Forall d_text rp' → d_text x → d_text y →
    ∃ rows, (let? t := fdiff_rows fuel lp' rp' in Some ((x, y) :: t)) = Some rows ∧ Forall d_text (map fst rows) ∧ Forall d_text (map snd rows)).
  { intros x y lp' rp' Hf' Hl' Hr' Hx Hy. destruct (IH lp' rp' Hf' Hl' Hr') as (t & -> & H1 & H2).
    eexists. split; [done|]. split; by constructor. }
  destruct lp as [|x lp], rp as [|y rp]; cbn [fdiff_rows]; [by exists []|..]; cbn [length] in Hf.
  - inversion Hr; subst. apply Hgo; [cbn; lia|done..].
  - inversion Hl; subst. apply Hgo; [cbn; lia|done..].
  - inversion Hl; inversion Hr; subst. destruct (_ <? _); [apply Hgo; [cbn; lia|done..]|].
    destruct (_ <? _); apply Hgo; first [done|cbn; lia].
Qed.

(** ** Regions *)

Section Show.

Context (L : fidx → list ld) (body : fidx → file) {wf : merge_files L body}.

Context {crc : Z → cstr → Z} {crc_ok : Checksum crc} (HASH : Z → Z) {tx : merge_text L body (crc := crc)}.

Context (o : smopts).

Lemma slice_text i a b : Forall has_text (slice (L i) a b).
Proof. apply Forall_forall. intros l Hl. apply elem_slice in Hl. by apply (mt_bytes L body i). Qed.

Lemma diff_lines_ok f ch x n : 0 <= x → 0 <= n → x + n <= Z.of_nat (length (L f)) →
  ∃ d, diff_lines body f ch x n = Some d ∧ Z.of_nat (length d) = n ∧ Forall d_text d.
Proof.
  intros Hx Hn Hl. unfold diff_lines. rewrite (zseg_ok L body), Z.max_r by lia. eexists. split; [done|].
  rewrite length_map, length_slice by lia. split; [lia|]. apply Forall_map. eapply Forall_impl; [apply slice_text|]. done.
Qed.

(** The lines of the right side that are not common. *)
Definition added_lines (hs : list hunk) : Z := foldr (λ h n, len_r h + n) 0 hs.

Lemma sum_r hs : ∀ n, fold_left (λ n h, n + DLEN h DF_RIGHT) hs n = n + added_lines hs.
Proof. induction hs as [|h hs IH]; intros n; cbn [fold_left added_lines foldr]; [lia|]. rewrite IH. cbn [DLEN]. fold (added_lines hs). lia. Qed.

Lemma ndiff_loop_ok lf rt range hs : ∀ from x y,
  0 <= start_l range → 0 <= start_r range →
  DEND range DF_LEFT <= Z.of_nat (length (L lf)) → DEND range DF_RIGHT <= Z.of_nat (length (L rt)) →
  match from with Some h => x = DEND h DF_LEFT ∧ y = DEND h DF_RIGHT | None => x = start_l range ∧ y = start_r range end →
  0 <= x → 0 <= y → script (sm_item body lf rt) range x y hs →
  ∃ out, ndiff_loop body lf rt range from hs = Some out ∧ Forall d_text out ∧
    Z.of_nat (length out) = DEND range DF_LEFT - x + added_lines hs.
Proof.
  induction hs as [|h hs IH]; intros from x y Hl0 Hr0 Hle Hre Hf Hx Hy Hs; cbn [ndiff_loop script added_lines foldr] in *.
  - destruct Hs as (Hs1 & Hs2 & _).
    assert (Hm : diff_mkCommon range from None = Some (mkHunk x y (DEND range DF_LEFT - x) (DEND range DF_RIGHT - y))).
    { unfold diff_mkCommon. destruct from; destruct Hf as [-> ->]; cbn [len_l len_r DSTART]; by rewrite (proj2 (Z.eqb_eq _ _)) by lia. }
    rewrite Hm. cbn [DSTART DLEN start_l len_l]. destruct (diff_lines_ok lf 32 x (DEND range DF_LEFT - x)) as (d & -> & Hd & Ht); [lia..|].
    eexists. split; [done|]. split; [done|]. lia.
  - destruct Hs as (H1 & H2 & _ & H3 & H4 & _ & Hs). pose proof (script_end _ _ _ _ _ Hs) as [He1 He2].
    assert (Hm : diff_mkCommon range from (Some h) = Some (mkHunk x y (start_l h - x) (start_r h - y))).
    { unfold diff_mkCommon. destruct from; destruct Hf as [-> ->]; cbn [len_l len_r DSTART]; by rewrite (proj2 (Z.eqb_eq _ _)) by lia. }
    rewrite Hm. unfold DEND in *. cbn [DSTART DLEN start_l len_l] in *.
    destruct (diff_lines_ok lf 32 x (start_l h - x)) as (a & -> & La & Ta); [lia..|].
    destruct (diff_lines_ok lf 45 (start_l h) (len_l h)) as (d & -> & Ld & Td); [lia..|].
    destruct (diff_lines_ok rt 43 (start_r h) (len_r h)) as (i & -> & Li & Ti); [lia..|].
    destruct (IH (Some h) (start_l h + len_l h) (start_r h + len_r h)) as (rest & -> & Tr & Lr); [done..|lia|lia|done|].
    eexists. split; [done|]. rewrite !Forall_app. split; [done|]. rewrite !length_app. fold (added_lines hs). lia.
Qed.

Lemma unidiff_ndiff_ok c lf rt : region L c → lf ≠ rt → ∃ ds, unidiff_ndiff body crc HASH c lf rt = Some ds ∧ Forall d_text ds.
Proof.
  intros Hc Hne. unfold unidiff_ndiff. set (range := mkHunk _ _ _ _). pose proof (rg_in _ _ Hc lf) as H1. pose proof (rg_in _ _ Hc rt) as H2.
  pose proof (total_ok L body) as Ht.
  assert (Hr : start_l range = Z.of_nat (c_start c lf) ∧ start_r range = Z.of_nat (c_start c rt) ∧
    len_l range = Z.of_nat (c_end c lf) - Z.of_nat (c_start c lf) ∧ len_r range = Z.of_nat (c_end c rt) - Z.of_nat (c_start c rt)) by done.
  destruct Hr as (R1 & R2 & R3 & R4).
  destruct (sm_diff_ok L body HASH lf rt range) as (hs & -> & Hs); [lia|lia|destruct lf, rt; try done; lia|].
  destruct (ndiff_loop_ok lf rt range hs None (start_l range) (start_r range)) as (out & -> & Hto & Hlo);
    [lia|lia|unfold DEND; cbn [DSTART DLEN]; lia|unfold DEND; cbn [DSTART DLEN]; lia|done|lia|lia|done|].
  rewrite sum_r, (proj2 (Z.eqb_eq _ _)); [eauto|]. rewrite Hlo. unfold DEND. cbn [DSTART DLEN]. lia.
Qed.

Lemma user_conflict_ok c : region L c → ∃ t, user_conflict o body crc HASH c = Some t.
Proof.
  intros Hc. unfold user_conflict. destruct (algos_text_ok o c) as [fcns ->].
  assert (Hp : ∀ i, ∃ t, printlines o body c i true = Some t).
  { intros i. unfold printlines. rewrite (cseg_ok L body) by done. apply print_lds_ok. right. apply slice_text. }
  assert (Hv : ∀ keep, ∃ t, user_conflict_vs o body crc HASH c fcns keep = Some t).
  { intros keep. unfold user_conflict_vs. rewrite !(samedata_ok L body) by done.
    destruct (unidiff_ndiff_ok c GCA LEFT Hc) as (dl & -> & Tl); [done|]. destruct (unidiff_ndiff_ok c GCAR RIGHT Hc) as (dr & -> & Tr); [done|].
    destruct (print_difflns_ok o _ (filter_text keep _ Tl)) as [tl ->], (print_difflns_ok o _ (filter_text keep _ Tr)) as [tr ->].
    destruct (_ && _), (_ && _); eauto. }
  destruct (Hp LEFT) as [l ->], (Hp RIGHT) as [r ->], (Hp GCA) as [g ->]. destruct (s_mode o); eauto.
Qed.

Lemma unidiff_text c f t : region L c → ∃ ds, unidiff body c f t = Some ds ∧ Forall d_text ds.
Proof.
  intros Hc. destruct (unidiff_ok L body c f t Hc) as (ds & -> & _ & He). exists ds. split; [done|]. apply Forall_forall.
  intros d Hd. apply He in Hd as [Hd|Hd]; by apply (proj1 (Forall_forall _ _) (slice_text _ _ _)) in Hd.
Qed.

Lemma fdiff_columns_ok c : region L c → s_mode o ≠ MODE_3WAY →
  ∃ l r, fdiff_columns o body c = Some (l, r) ∧ Forall d_text l ∧ Forall d_text r.
Proof.
  intros Hc Hmode. unfold fdiff_columns. rewrite !(cseg_ok L body) by done.
  destruct (unidiff_text c GCA LEFT Hc) as (dl & -> & Tl), (unidiff_text c GCAR RIGHT Hc) as (dr & -> & Tr).
  destruct (s_mode o); [eauto| |done|].
  - eexists _, _. split; [done|]. split; apply Forall_map; (eapply Forall_impl; [apply slice_text|done]).
  - eexists _, _. split; [done|]. split; by apply filter_text.
Qed.

Lemma user_conflict_fdiff_ok c : region L c → s_mode o ≠ MODE_3WAY → ∃ t, user_conflict_fdiff o body c = Some t.
Proof.
  intros Hc Hmode. unfold user_conflict_fdiff. destruct (fdiff_columns_ok c Hc Hmode) as (l & r & -> & Tl & Tr).
  destruct (highlight_diff_ok l) as (l' & -> & Ml), (highlight_diff_ok r) as (r' & -> & Mr).
  destruct (fdiff_rows_ok (length l' + length r') l' r') as (rows & -> & H1 & H2); [done|by eapply text_map|by eapply text_map|].
  destruct (print_columns_ok o _ H1) as [a ->], (print_columns_ok o _ H2) as [b ->]. eauto.
Qed.

End Show.
