(* ===== verification/SmergeMerge.v ===== *)
(** * SmergeMerge: what a merge writes

    The theorems on [do_weave_merge] and [smerge]: they return on every input, the
    output is a three-way merge of LEFT and RIGHT on GCA, and a side that did not
    change anything leaves the other side as it is. *)

From S2P Require Import Prelude CStr Shell Crc HashIface U32Hash Diff DiffSnake DiffCorrect NDiff NDiffOk Smerge SmergeFind SmergeContent SmergeOk SmergeShow.
From stdpp Require Import base functions numbers list strings.
From Stdlib Require Import ZArith Lia.

Local Open Scope Z_scope.

Local Open Scope bk_scope.

(** ** Three-way merges *)

(** The output of a merge: lines, and regions left to the user. *)
Inductive item := Lines (ls : list ld) | Conflict (c : conflct).

Section Merge.

Context (L : fidx → list ld) (body : fidx → file) {wf : merge_files L body}.

Context {crc : Z → cstr → Z} {crc_ok : Checksum crc} (HASH : Z → Z) {tx : merge_text L body (crc := crc)}.

Context (o : smopts).

(** GCA, LEFT and RIGHT cut into pieces from the front: lines common to all three
    by their sequence numbers, pieces the rule of three-way merging decides, and
    conflicts, which the enabled functions refused to merge. *)
Inductive threeway : list ld → list ld → list ld → list item → Prop :=
  | tw_nil : threeway [] [] [] []
  | tw_common g l r g' l' r' it :
      seqs l = seqs g → seqs r = seqs g → threeway g' l' r' it →
      threeway (g ++ g') (l ++ l') (r ++ r') (Lines g :: it)
  | tw_merged g l r out g' l' r' it :
      automerge g l r out → threeway g' l' r' it →
      threeway (g ++ g') (l ++ l') (r ++ r') (Lines out :: it)
  | tw_conflict c g' l' r' it :
      (∀ f, f ∈ s_fcns o → m_enable f ≠ 0 → refused L (m_fcn f) c) → threeway g' l' r' it →
      threeway (cs L c GCA ++ g') (cs L c LEFT ++ l') (cs L c RIGHT ++ r') (Conflict c :: it).

Fixpoint render (it : list item) : option cstr :=
  match it with
  | [] => Some []
  | i :: it =>
      let? a := (match i with Lines ls => print_lds o ls 0 false | Conflict c => user_conflict o body crc HASH c end) in
      let? b := render it in
      Some (a ++ b)
  end.

Definition has_conflict (it : list item) : Prop := ∃ c, Conflict c ∈ it.

(** ** One region *)

Context (Hguard : guarded (s_fcns o) = true) (Hmode : s_fdiff o = true → s_mode o ≠ MODE_3WAY).

Lemma automerge_elem g l r out x : automerge g l r out → x ∈ out → x ∈ g ∨ x ∈ l ∨ x ∈ r.
Proof.
  induction 1 as [|g l r o1 g' l' r' o' _ IH Hr]; intros Hx; [by left|]. rewrite !elem_of_app in *.
  destruct Hx as [Hx|Hx]; [specialize (IH Hx); tauto|]. destruct Hr; tauto.
Qed.

Lemma resolve_conflict_ok m : minv L m →
  ∃ ret out m', resolve_conflict o body crc HASH m = Some (ret, out, m') ∧
    c_start (fst m') = c_start (fst m) ∧ resolved L (s_fcns o) m' ∧
    match c_merged (fst m') with
    | Some p => ret = 0 ∧ (s_fdiff o = false → print_lds o p 0 false = Some out)
    | None => ret = 1 ∧ (s_fdiff o = false → user_conflict o body crc HASH (fst m') = Some out)
    end.
Proof.
  intros Hi. unfold resolve_conflict.
  destruct (resolve_loop_ok L body HASH o Hguard _ m Hi (resolve_fuel_ok L body m Hi)) as (m' & -> & Es & Hr).
  pose proof (rv_region _ _ _ Hr) as Hc. destruct (algos_text_ok o (fst m')) as [t ->].
  destruct (user_conflict_ok L body HASH o (fst m') Hc) as [u Hu]. rewrite Hu.
  assert (Hp : ∀ p, c_merged (fst m') = Some p → ∃ a, print_lds o p 0 (s_fdiff o) = Some a).
  { intros p Ep. apply print_lds_ok. right. pose proof (rv_out _ _ _ Hr) as Ha. rewrite Ep in Ha. apply Forall_forall.
    intros x Hx. apply (automerge_elem _ _ _ _ _ Ha) in Hx as [Hx|[Hx|Hx]]; by apply (proj1 (Forall_forall _ _) (slice_text L body _ _ _)) in Hx. }
  destruct (Z.eqb_spec (c_end_seq (fst m')) 0) as [E|_]; [by destruct (rg_seq _ _ Hc)|]. cbn [negb].
  destruct (s_fdiff o) eqn:Ef.
  - destruct (user_conflict_fdiff_ok L body o (fst m') Hc (Hmode eq_refl)) as [f ->].
    destruct (c_merged (fst m')) as [p|] eqn:Em; [destruct (Hp p eq_refl) as [a ->]|]; eexists _, _, _; (split; [done|]); rewrite Em; done.
  - destruct (c_merged (fst m')) as [p|] eqn:Em; [destruct (Hp p eq_refl) as [a Ha]; rewrite Ha|]; eexists _, _, _; (split; [done|]); rewrite Em;
      (split_and!; [done|done|done|]); intros _; by rewrite ?app_nil_r.
Qed.

(** ** Common lines *)

Lemma common_loop_ok start end_ k : ∀ mk, common L mk k →
  ∃ t stop, common_loop o body k mk start end_ = Some (t, stop) ∧
    (start = 0 → end_ = SEQ_END → stop = false ∧ print_lds o (slice (L GCA) (mk GCA) (mk GCA + k)) 0 false = Some t).
Proof.
  induction k as [|k IH]; intros mk Hk; cbn [common_loop].
  { eexists _, _. split; [done|]. intros _ _. by rewrite Nat.add_0_r, slice_nil. }
  assert (Hin : ∀ i, (mk i < length (L i))%nat) by (intros i; pose proof (cm_in _ _ _ Hk i); lia).
  destruct (line_ok L body GCA _ (Hin GCA)) as (g & Lg & -> & Hg), (line_ok L body LEFT _ (Hin LEFT)) as (l & Ll & -> & _),
    (line_ok L body RIGHT _ (Hin RIGHT)) as (r & Lr & -> & _).
  assert (Hseq : ∀ i x, L i !! mk i = Some x → l_seq x = l_seq g).
  { intros i x Hx. pose proof (cm_seq _ _ _ Hk i) as E. rewrite (slice_cons _ _ _ x), (slice_cons _ (mk GCA) _ g) in E by (done || lia). by injection E. }
  rewrite (Hseq LEFT l Ll), (Hseq RIGHT r Lr), Z.eqb_refl. cbn [andb].
  destruct (common_drop L mk (λ i, S (mk i)) 1 k Hk) as [_ Hk']; [intros; lia|].
  destruct (IH _ Hk') as (t & stop & Hrun & Hfull).
  destruct (Z.leb_spec (l_seq g) start).
  { exists t, stop. split; [done|]. lia. }
  destruct (Z.leb_spec end_ (l_seq g)).
  { eexists _, _. split; [done|]. lia. }
  destruct (printline_ok o g 0 false) as [a Ha]; [by left|]. rewrite Ha, Hrun. eexists _, _. split; [done|].
  intros E1 E2. destruct (Hfull E1 E2) as [-> Hp]. split; [done|]. rewrite (slice_cons _ _ _ g) by (done || lia). cbn [print_lds].
  rewrite Ha. replace (mk GCA + S k)%nat with (S (mk GCA) + k)%nat by lia. by rewrite Hp.
Qed.

(** ** The whole merge *)

Abbreviation from mk i := (slice (L i) (mk i) (length (L i))).

Lemma chain_in mk cs' : chain L mk cs' → ∀ i, (mk i <= length (L i))%nat.
Proof.
  destruct cs' as [|c cs']; cbn [chain]; [intros (k & Hk & _)|intros ((k & Hk & _) & _)]; intros i; pose proof (cm_in _ _ _ Hk i); lia.
Qed.

Lemma chain_minv mk c rest : chain L mk (c :: rest) → minv L (c, rest).
Proof. cbn [chain]. intros (_ & Hr & Hm & Hs & Hch). split; cbn [fst snd]; [done..|]. by rewrite Hs. Qed.

(** The last common lines. *)
Lemma weave_end start end_ mk : chain L mk [] →
  ∃ t stop, common_loop o body (length (L GCA) - mk GCA) mk start end_ = Some (t, stop) ∧
    forallb (λ i, mk i + (length (L GCA) - mk GCA) =? length (L i))%nat FILES = true ∧
    (start = 0 → end_ = SEQ_END → threeway (from mk GCA) (from mk LEFT) (from mk RIGHT) [Lines (from mk GCA)] ∧ print_lds o (from mk GCA) 0 false = Some t).
Proof.
  cbn [chain]. intros (k & Hk & He). assert (Ek : (length (L GCA) - mk GCA)%nat = k) by (specialize (He GCA); lia). rewrite Ek.
  destruct (common_loop_ok start end_ k mk Hk) as (t & stop & -> & Hfull). exists t, stop. split; [done|]. split.
  - apply forallb_forall. intros i _. apply Nat.eqb_eq. apply He.
  - intros E1 E2. destruct (Hfull E1 E2) as [-> Hp]. pose proof (cm_seq _ _ _ Hk LEFT) as S1. pose proof (cm_seq _ _ _ Hk RIGHT) as S2.
    rewrite !He in *. split; [|done]. rewrite <- (app_nil_r (from mk GCA)) at 1. rewrite <- (app_nil_r (from mk LEFT)), <- (app_nil_r (from mk RIGHT)).
    apply tw_common; [done..|constructor].
Qed.

(** A region of the list, resolved, in front of a merge of what follows. *)
Lemma threeway_region mk k m it :
  common L mk k → (∀ i, c_start (fst m) i = (mk i + k)%nat) → resolved L (s_fcns o) m →
  threeway (from (c_end (fst m)) GCA) (from (c_end (fst m)) LEFT) (from (c_end (fst m)) RIGHT) it →
  threeway (from mk GCA) (from mk LEFT) (from mk RIGHT)
    (Lines (slice (L GCA) (mk GCA) (mk GCA + k)) ::
     match c_merged (fst m) with Some p => Lines p | None => Conflict (fst m) end :: it).
Proof.
  intros Hk Hs Hr Ht. pose proof (rv_region _ _ _ Hr) as Hc. pose proof (rg_in _ _ Hc) as Hin.
  assert (E : ∀ i, from mk i = slice (L i) (mk i) (mk i + k) ++ cs L (fst m) i ++ from (c_end (fst m)) i).
  { intros i. unfold cs. specialize (Hin i). specialize (Hs i). rewrite (slice_join (L i) (c_start (fst m) i)), Hs, slice_join by lia. done. }
  rewrite !E. apply tw_common; [apply (cm_seq _ _ _ Hk)|apply (cm_seq _ _ _ Hk)|].
  pose proof (rv_out _ _ _ Hr) as Ho. destruct (c_merged (fst m)); [by apply tw_merged|by apply tw_conflict].
Qed.

Lemma weave_loop_ok start end_ fuel : ∀ mk cs',
  chain L mk cs' → (total_lines body + 1 < total_at mk + fuel)%nat →
  ∃ ret out, weave_loop o body crc HASH fuel mk cs' start end_ = Some (ret, out) ∧ (ret = 0 ∨ ret = 1) ∧
    (s_fdiff o = false → start = 0 → end_ = SEQ_END →
     ∃ it, threeway (from mk GCA) (from mk LEFT) (from mk RIGHT) it ∧ render it = Some out ∧ (ret = 1 ↔ has_conflict it)).
Proof.
  induction fuel as [|fuel IH]; intros mk cs' Hch Hf.
  { pose proof (chain_in _ _ Hch LEFT); pose proof (chain_in _ _ Hch RIGHT); pose proof (chain_in _ _ Hch GCA); pose proof (chain_in _ _ Hch GCAR).
    rewrite (total_ok L body) in Hf. unfold total_at in Hf. lia. }
  cbn [weave_loop]. destruct cs' as [|c rest].
  { destruct (weave_end start end_ mk Hch) as (t & stop & Hrun & Hall & Hfull). rewrite (f_n_eq L body).
    replace (forallb _ FILES) with true by (rewrite <- Hall; cbn [forallb FILES]; by rewrite !(f_n_eq L body)).
    rewrite Hrun. eexists _, _. split; [done|]. split; [by left|]. intros _ E1 E2. destruct (Hfull E1 E2) as [Ht Hp].
    exists [Lines (from mk GCA)]. split; [done|]. cbn [render]. rewrite Hp, app_nil_r. split; [done|]. split; [done|].
    intros [c Hc]. by apply list_elem_of_singleton in Hc. }
  pose proof (chain_minv _ _ _ Hch) as Hi. cbn [chain] in Hch. destruct Hch as ((k & Hk & Hs) & Hc & Hm & Hsp & Hch).
  assert (Ek : (c_start c GCA - mk GCA)%nat = k) by (specialize (Hs GCA); lia). rewrite Ek.
  replace (forallb _ FILES) with true by (symmetry; apply forallb_forall; intros i _; apply Nat.eqb_eq; by rewrite Hs).
  destruct (common_loop_ok start end_ k mk Hk) as (a & stop & -> & Hfull).
  destruct stop.
  { eexists _, _. split; [done|]. split; [by left|]. intros _ E1 E2. by destruct (Hfull E1 E2). }
  assert (Hprog : ∀ c', region L c' → c_start c' = c_start c → (total_lines body + 1 < total_at (c_end c') + fuel)%nat).
  { intros c' Hc' Es. pose proof (rg_size _ _ Hc') as Hz. unfold csize, total_at in *. rewrite Es, !Hs in Hz.
    pose proof (rg_in _ _ Hc' LEFT) as H1; pose proof (rg_in _ _ Hc' RIGHT) as H2; pose proof (rg_in _ _ Hc' GCA) as H3; pose proof (rg_in _ _ Hc' GCAR) as H4.
    rewrite Es, Hs in H1, H2, H3, H4. lia. }
  destruct (Z.leb_spec start (u32 (c_start_seq c))) as [Hst|Hst].
  - destruct (resolve_conflict_ok (c, rest) Hi) as (ret & b & m & -> & Es & Hr & Hout). cbn [fst] in Es.
    destruct (IH (c_end (fst m)) (snd m)) as (ret' & d & -> & Hret' & Hspec); [apply Hr|apply Hprog; [apply Hr|done]|].
    eexists _, _. split; [done|]. split; [destruct (ret =? 0); [done|by right]|].
    intros Ef E1 E2. destruct (Hspec Ef E1 E2) as (it & Ht & Hrd & Hcf). destruct (Hfull E1 E2) as [_ Hp].
    eexists. split; [apply (threeway_region mk k m it Hk); [intros i; by rewrite Es|done|done]|].
    cbn [render]. rewrite Hp, Hrd. unfold has_conflict in *. setoid_rewrite elem_of_cons. setoid_rewrite elem_of_cons.
    destruct (c_merged (fst m)) as [p|]; destruct Hout as [-> Ho]; rewrite (Ho Ef); (split; [done|]); cbn [Z.eqb].
    + rewrite Hcf. split; intros [x Hx]; exists x; [tauto|]. destruct Hx as [?|[?|?]]; done.
    + split; [|done]. intros _. exists (fst m). tauto.
  - cbn [fst snd]. destruct (IH (c_end c) rest Hch) as (ret' & d & -> & Hret' & _); [by apply Hprog|].
    eexists _, _. split; [done|]. split; [done|]. intros _ E1. exfalso. unfold u32 in Hst. pose proof (Z.mod_pos_bound (c_start_seq c) (2 ^ 32)). lia.
Qed.

Lemma do_weave_merge_returns start end_ :
  ∃ ret out, do_weave_merge o body crc HASH start end_ = Some (ret, out) ∧ (ret = 0 ∨ ret = 1).
Proof.
  unfold do_weave_merge. destruct (find_conflicts_ok L body) as (cs' & -> & Hch & _).
  destruct (weave_loop_ok start end_ (S (S (total_lines body))) (λ _, 0%nat) cs' Hch) as (ret & out & -> & Hr & _); [unfold total_at; lia|]. eauto.
Qed.

End Merge.


(** ** An example *)

Definition ex_line (n : Z) (s : String.string) : ld := mkLd n (str s ++ NL) None.

(** Both sides change line 3, LEFT adds a line, RIGHT deletes one. *)
Definition ex_side (i : fidx) : list ld :=
  match i with
  | LEFT => [ex_line 1 "a"; ex_line 2 "x"; ex_line 5 "left"; ex_line 7 "d"; ex_line 8 "e"]
  | RIGHT => [ex_line 1 "a"; ex_line 6 "right"; ex_line 8 "e"]
  | _ => [ex_line 1 "a"; ex_line 3 "b"; ex_line 7 "d"; ex_line 8 "e"]
  end%string.

Definition ex_body (i : fidx) : file := file_of (ex_side i).

Definition ex_opts : smopts :=
  mkSm MODE_3WAY false false false (str "f"%string)
    (λ i, str (match i with LEFT => "1.2" | RIGHT => "1.1.1.1" | _ => "1.1" end)%string) mergefcns_table.

Lemma ex_files : merge_files ex_side ex_body.
Proof.
  split; [done| |done]. intros i l Hl. assert (H : Forall (λ l, 0 < l_seq l < SEQ_END) (ex_side i)) by (destruct i; repeat constructor).
  by apply (proj1 (Forall_forall _ _) H).
Qed.

Lemma ex_text : merge_text ex_side ex_body (crc := software_crc32c 0).
Proof.
  assert (H : ∀ i, Forall (λ l, (cbytes (l_line l) ∧ l_line l ≠ []) ∧ software_crc32c 0 0 (l_line l) + Z.of_nat (total_lines ex_body) + 2 < 2 ^ 32) (ex_side i)).
  { intros []; repeat (apply Forall_cons; split; [split; [split; [by repeat constructor|done]|by vm_compute]|]); constructor. }
  split; [| |]; [intros i l Hl|by vm_compute|intros i l Hl]; specialize (H i); rewrite Forall_forall in H; by apply H.
Qed.

