(* ===== verification/SmergeSame.v ===== *)
(** * SmergeSame: merging with an unchanged side

    The laws a merge has to satisfy: a side that is GCA leaves the other side as it
    is, and two sides with the same text merge to that text, without conflicts.
    With the test for identical changes switched off the merge need not stop. *)

From S2P Require Import Prelude CStr Shell Crc HashIface U32Hash Diff DiffSnake DiffCorrect NDiff NDiffOk Smerge SmergeFind SmergeContent SmergeOk SmergeShow SmergeMerge.
From stdpp Require Import base functions numbers list strings.
From Stdlib Require Import ZArith Lia.

Local Open Scope Z_scope.

Local Open Scope bk_scope.

Section Same.

Context (L : fidx → list ld) (body : fidx → file) {wf : merge_files L body}.

Context {crc : Z → cstr → Z} {crc_ok : Checksum crc} (HASH : Z → Z) {tx : merge_text L body (crc := crc)}.

Context (o : smopts).

(** [A] and [B] are the same version; [X] is the side that wins. *)
Context (A B X : fidx).

Hypothesis Hwin : (A, B, X) = (LEFT, GCA, RIGHT) ∨ (A, B, X) = (RIGHT, GCA, LEFT) ∨ (A, B, X) = (LEFT, RIGHT, LEFT).

Hypothesis Hkeys : map key (L A) = map key (L B).

Hypothesis Hsorted : NoDup (seqs (L A)).

(** A sequence number names a line of the weave. *)
Hypothesis Hweave : ∀ i j l l', l ∈ L i → l' ∈ L j → l_seq l = l_seq l' → l_line l = l_line l'.

(** Plain output. *)
Hypothesis Hplain : s_fdiff o = false ∧ s_show_seq o = false ∧ ∀ i l, l ∈ L i → l_anno l = None.

(** The functions that take whole regions come first. *)
Context (f9 f1 f2 : mergefcns) (others : list mergefcns).

Hypothesis Hfcns : s_fcns o = f9 :: f1 :: f2 :: others ∧
  (m_fcn f9, m_fcn f1, m_fcn f2) = (F_conflicts, F_same_changes, F_only_one) ∧
  m_enable f9 ≠ 0 ∧ m_enable f1 ≠ 0 ∧ m_enable f2 ≠ 0.

(** ** Regions that lie alike in both files *)

Lemma same_length : length (L A) = length (L B).
Proof. rewrite <- (length_map key (L A)), Hkeys. apply length_map. Qed.

Lemma seqs_same : seqs (f_lines (body A)) = seqs (f_lines (body B)).
Proof.
  rewrite !(mf_body L body). unfold seqs. cbn. rewrite !map_app. f_equal.
  transitivity (map fst (map key (L A))); [by rewrite map_map|]. rewrite Hkeys. by rewrite map_map.
Qed.

Lemma aligned_end c : aligned body c → c_end c A = c_end c B.
Proof.
  intros (q & Hq). destruct (Hq A) as (a & Ha & Ea), (Hq B) as (b & Hb & Eb).
  assert (Hnd : NoDup (seqs (f_lines (body A)))).
  { rewrite (mf_body L body). unfold seqs. cbn. rewrite map_app. apply NoDup_app. split; [exact Hsorted|]. split; [|by apply NoDup_singleton].
    intros x Hx Hy. cbn in Hy. apply list_elem_of_singleton in Hy as ->. apply list_elem_of_fmap in Hx as (l & El & Hl).
    pose proof (mf_seq L body A l Hl). lia. }
  eapply NoDup_lookup; [exact Hnd| |].
  - unfold seqs. rewrite list_lookup_fmap. unfold line_at in Ha. rewrite Ha. cbn. by rewrite Ea.
  - rewrite seqs_same. unfold seqs. rewrite list_lookup_fmap. unfold line_at in Hb. rewrite Hb. cbn. by rewrite Eb.
Qed.

Definition level (mk : fidx → nat) : Prop := mk A = mk B.

Lemma level_texts c : level (c_start c) → level (c_end c) → texts (cs L c A) = texts (cs L c B).
Proof.
  unfold level, cs, slice, texts. intros -> ->.
  assert (E : ∀ i a b, map l_line (take b (drop a (L i))) = map snd (take b (drop a (map key (L i))))).
  { intros i a b. rewrite <- firstn_map, <- !skipn_map. by rewrite <- firstn_map, <- skipn_map, map_map. }
  by rewrite !E, Hkeys.
Qed.

(** The lines [X] has in a region where [A] and [B] agree are what both whole
    region functions give. *)
Lemma whole_region ch m : minv L m → texts (cs L (fst m) A) = texts (cs L (fst m) B) →
  ∃ m' p, run_fcns body crc HASH (f1 :: f2 :: others) ch m = Some (true, m') ∧ c_merged (fst m') = Some p ∧
    (p = cs L (fst m) LEFT ∨ p = cs L (fst m) RIGHT) ∧ texts p = texts (cs L (fst m) X) ∧
    c_start (fst m') = c_start (fst m) ∧ c_end (fst m') = c_end (fst m) ∧ snd m' = snd m ∧ region L (fst m').
Proof.
  intros Hi HAB. destruct m as [c rest]. cbn [fst snd] in *. pose proof (mi_region _ _ Hi) as Hc. pose proof (mi_fresh _ _ Hi) as Hf. cbn [fst] in *.
  destruct Hfcns as (_ & Ef & E9 & E1 & E2). injection Ef as _ F1 F2. cbn [run_fcns]. rewrite F1, F2.
  destruct (Z.eqb_spec (m_enable f1) 0), (Z.eqb_spec (m_enable f2) 0); try done. cbn [run_fcn merge_same_changes].
  assert (Hfin : ∀ a i, i = LEFT ∨ i = RIGHT → texts (cs L c i) = texts (cs L c X) →
    ∃ m' p, Some (true, (add_algo a (add_merged (cs L c i) c), rest)) = Some (true, m') ∧ c_merged (fst m') = Some p ∧
      (p = cs L c LEFT ∨ p = cs L c RIGHT) ∧ texts p = texts (cs L c X) ∧
      c_start (fst m') = c_start c ∧ c_end (fst m') = c_end c ∧ snd m' = rest ∧ region L (fst m')).
  { intros a i Hix Et. eexists _, _. split; [done|]. cbn. rewrite Hf. split; [done|].
    split; [destruct Hix as [-> | ->]; auto|]. split_and!; [done..|]. by apply (region_ext L c). }
  rewrite (samedata_ok L body) by done. case_bool_decide as ELR.
  { rewrite (cseg_ok L body) by done. rewrite ?orb_true_r. apply Hfin; [by left|]. destruct Hwin as [[=]|[[=]|[=]]]; subst; congruence. }
  cbn [fst]. rewrite Hf. cbn [run_fcn merge_only_one orb]. rewrite !(samedata_ok L body), (gca_texts L body) by done.
  case_bool_decide as EGL.
  { rewrite (cseg_ok L body) by done. rewrite ?orb_true_r. apply Hfin; [by right|]. destruct Hwin as [[=]|[[=]|[=]]]; subst; congruence. }
  case_bool_decide as EGR.
  { rewrite (cseg_ok L body) by done. rewrite ?orb_true_r. apply Hfin; [by left|]. destruct Hwin as [[=]|[[=]|[=]]]; subst; congruence. }
  exfalso. destruct Hwin as [[=]|[[=]|[=]]]; subst; congruence.
Qed.

Lemma run_fcns_cons f fs ch m : m_enable f ≠ 0 →
  run_fcns body crc HASH (f :: fs) ch m =
  (let? (r, m) := run_fcn body crc HASH (m_fcn f) m in
   let m := if r then (add_algo (m_fname f) (fst m), snd m) else m in
   match c_merged (fst m) with Some _ => Some (ch || r, m) | None => run_fcns body crc HASH fs (ch || r) m end).
Proof. intros E. cbn [run_fcns]. by destruct (Z.eqb_spec (m_enable f) 0). Qed.

(** [merge_conflicts] joins a region with the next one. *)
Lemma join_level c rest : minv L (c, rest) → level (c_start c) → level (c_end c) → Forall (λ n, level (c_end n)) rest →
  ∃ b c' rest', merge_conflicts body (c, rest) = Some (b, (c', rest')) ∧ minv L (c', rest') ∧ c_start c' = c_start c ∧
    level (c_end c') ∧ Forall (λ n, level (c_end n)) rest'.
Proof.
  intros Hi Hs He Hr. destruct (merge_conflicts_ok L body (c, rest) Hi) as (b & m' & Hrun & Hst).
  assert (Hm : ∃ c' rest', m' = (c', rest') ∧ c_start c' = c_start c ∧ c_merged c' = None ∧ level (c_end c') ∧ Forall (λ n, level (c_end n)) rest').
  { clear Hst. revert Hrun. unfold merge_conflicts. pose proof (mi_fresh _ _ Hi) as Hf. cbn in Hf.
    destruct rest as [|n rest]; [intros [= <- <-]; eauto 10|]. destruct (c_split c); [intros [= <- <-]; eauto 10|].
    inversion Hr; subst. destruct (line_at _ _ _); [|done]. destruct (if (_ =? 1)%nat then _ else _) as [i|]; [|done].
    destruct (i || _); [|intros [= <- <-]; eauto 10]. destruct (negb _); [|done]. intros [= <- <-]. eexists _, _. split; [done|]. done. }
  destruct Hm as (c' & rest' & -> & E1 & E2 & E3 & E4). exists b, c', rest'. split_and!; [done| |done|done|done].
  inversion Hst as [|p ? E|]; subst; [done| |done]. cbn in E2. done.
Qed.

Lemma first_round c rest : minv L (c, rest) → level (c_start c) → level (c_end c) → Forall (λ n, level (c_end n)) rest →
  ∃ m' p, resolve_loop o body crc HASH (resolve_fuel body rest) (c, rest) = Some m' ∧ c_merged (fst m') = Some p ∧
    (p = cs L (fst m') LEFT ∨ p = cs L (fst m') RIGHT) ∧ texts p = texts (cs L (fst m') X) ∧ c_start (fst m') = c_start c ∧
    region L (fst m') ∧ chain L (c_end (fst m')) (snd m') ∧ level (c_end (fst m')) ∧ Forall (λ n, level (c_end n)) (snd m').
Proof.
  intros Hi Hs He Hr. destruct (join_level c rest Hi Hs He Hr) as (b & c' & rest' & Hrun & Hi' & E1 & He' & Hr').
  unfold resolve_fuel. replace (total_lines body + length rest + 3)%nat with (S (total_lines body + length rest + 2)) by lia. cbn [resolve_loop].
  destruct Hfcns as (Eo & Ef & E9 & _). injection Ef as F9 _ _. rewrite Eo, run_fcns_cons, F9 by done. cbn [run_fcn]. rewrite Hrun. cbn zeta.
  set (m1 := if b then _ else _).
  assert (Hm1 : minv L m1 ∧ c_start (fst m1) = c_start c ∧ level (c_end (fst m1)) ∧ Forall (λ n, level (c_end n)) (snd m1)).
  { subst m1. destruct b; [|done]. split; [by apply (minv_algo L)|]. done. }
  destruct Hm1 as (Hi1 & S1 & L1 & R1). rewrite (mi_fresh _ _ Hi1).
  destruct (whole_region (false || b) m1 Hi1) as (m' & p & -> & Em & Hp & Et & S2 & S3 & S4 & S5).
  { apply level_texts; [by rewrite S1|done]. }
  rewrite Em. exists m', p. assert (Ec : ∀ i, cs L (fst m') i = cs L (fst m1) i) by (intros i; unfold cs; by rewrite S2, S3).
  rewrite !Ec. split_and!; [done|done|done|done|congruence|done|rewrite S3, S4; apply Hi1|by rewrite S3|by rewrite S4].
Qed.

(** ** The output *)

Lemma print_plain ls : (∀ l, l ∈ ls → l_anno l = None) → print_lds o ls 0 false = Some (concat (texts ls)).
Proof.
  intros Ha. induction ls as [|l ls IH]; [done|]. destruct Hplain as (P1 & P2 & _). cbn [print_lds]. unfold printline.
  rewrite P1, P2, Ha by by left. cbn [andb]. rewrite IH by (intros x Hx; apply Ha; by right). cbn. by rewrite app_nil_r.
Qed.

Lemma plain_slice i a b : print_lds o (slice (L i) a b) 0 false = Some (concat (texts (slice (L i) a b))).
Proof. apply print_plain. intros l Hl. apply elem_slice in Hl. by apply (proj2 (proj2 Hplain) i). Qed.

(** Common lines have the same text in all files. *)
Lemma common_texts_same mk k i : common L mk k →
  texts (slice (L GCA) (mk GCA) (mk GCA + k)) = texts (slice (L i) (mk i) (mk i + k)).
Proof.
  intros Hk. pose proof (cm_seq _ _ _ Hk i) as Hs. revert Hs.
  assert (Hall : ∀ l, l ∈ slice (L GCA) (mk GCA) (mk GCA + k) → l ∈ L GCA) by (intros l; apply elem_slice).
  assert (Hall' : ∀ l, l ∈ slice (L i) (mk i) (mk i + k) → l ∈ L i) by (intros l; apply elem_slice).
  generalize dependent (slice (L i) (mk i) (mk i + k)). generalize dependent (slice (L GCA) (mk GCA) (mk GCA + k)).
  induction l as [|x xs IH]; intros Hg [|y ys] Hi; cbn [seqs map texts]; try done. intros [= E1 E2]. f_equal.
  - apply (Hweave GCA i); [apply Hg; by left|apply Hi; by left|done].
  - apply IH; [intros; apply Hg; by right|intros; apply Hi; by right|done].
Qed.

Abbreviation from mk i := (slice (L i) (mk i) (length (L i))).

Lemma weave_same fuel : ∀ mk cs',
  chain L mk cs' → level mk → Forall (λ n, level (c_end n)) cs' → (total_lines body + 1 < total_at mk + fuel)%nat →
  weave_loop o body crc HASH fuel mk cs' 0 SEQ_END = Some (0, concat (texts (from mk X))).
Proof.
  induction fuel as [|fuel IH]; intros mk cs' Hch Hlv Hcs Hf.
  { pose proof (chain_in L _ _ Hch LEFT); pose proof (chain_in L _ _ Hch RIGHT); pose proof (chain_in L _ _ Hch GCA); pose proof (chain_in L _ _ Hch GCAR).
    rewrite (total_ok L body) in Hf. unfold total_at in Hf. lia. }
  cbn [weave_loop]. destruct cs' as [|c rest].
  { cbn [chain] in Hch. destruct Hch as (k & Hk & He). rewrite (f_n_eq L body).
    assert (Ek : (length (L GCA) - mk GCA)%nat = k) by (specialize (He GCA); lia). rewrite Ek.
    replace (forallb _ FILES) with true by (symmetry; apply forallb_forall; intros i _; rewrite (f_n_eq L body); apply Nat.eqb_eq, He).
    destruct (common_loop_ok L body o 0 SEQ_END k mk Hk) as (t & stop & -> & Hfull). destruct (Hfull eq_refl eq_refl) as [-> Hp].
    rewrite plain_slice in Hp. injection Hp as <-. by rewrite (common_texts_same mk k X Hk), He. }
  pose proof (chain_minv L _ _ _ Hch) as Hi. cbn [chain] in Hch. destruct Hch as ((k & Hk & Hs) & Hc & Hm & Hsp & Hch).
  assert (Ek : (c_start c GCA - mk GCA)%nat = k) by (specialize (Hs GCA); lia). rewrite Ek.
  replace (forallb _ FILES) with true by (symmetry; apply forallb_forall; intros i _; apply Nat.eqb_eq; by rewrite Hs).
  destruct (common_loop_ok L body o 0 SEQ_END k mk Hk) as (t & stop & -> & Hfull). destruct (Hfull eq_refl eq_refl) as [-> Hp].
  rewrite plain_slice in Hp. injection Hp as <-.
  assert (Hpos : 0 <= u32 (c_start_seq c)) by (by apply Z.mod_pos_bound). rewrite (proj2 (Z.leb_le _ _) Hpos).
  apply Forall_cons in Hcs as [Hce Hcr]. unfold resolve_conflict. cbn [snd].
  assert (Hls : level (c_start c)) by (unfold level in *; rewrite !Hs; by f_equal).
  destruct (first_round c rest Hi Hls Hce Hcr) as (m' & p & Hrun & Em & Hpl & Et & S1 & Hreg & Hch' & Hl' & Hr').
  rewrite Hrun.
  rewrite Em. destruct Hplain as (P1 & P2 & P3). rewrite P1.
  assert (Hpp : print_lds o p 0 false = Some (concat (texts p))) by (destruct Hpl as [-> | ->]; apply plain_slice).
  rewrite Hpp. cbn [fst snd].
  rewrite (IH (c_end (fst m')) (snd m') Hch' Hl' Hr').
  - cbn [Z.eqb]. do 2 f_equal. rewrite !app_nil_r, Et, (common_texts_same mk k X Hk). cbn [app].
    pose proof (rg_in _ _ Hreg X) as Hin. rewrite S1, Hs in Hin. unfold cs. rewrite S1, Hs.
    rewrite <- !concat_app. unfold texts. rewrite <- !map_app. do 2 f_equal. rewrite !slice_join by lia. done.
  - pose proof (rg_size _ _ Hreg) as Hz. unfold csize, total_at in *. rewrite S1, !Hs in Hz.
    pose proof (rg_in _ _ Hreg LEFT) as H1; pose proof (rg_in _ _ Hreg RIGHT) as H2; pose proof (rg_in _ _ Hreg GCA) as H3; pose proof (rg_in _ _ Hreg GCAR) as H4.
    rewrite S1, Hs in H1, H2, H3, H4. lia.
Qed.

Lemma do_weave_merge_same : do_weave_merge o body crc HASH 0 SEQ_END = Some (0, concat (texts (L X))).
Proof.
  unfold do_weave_merge. destruct (find_conflicts_ok L body) as (cs' & -> & Hch & Hal).
  rewrite weave_same; [by rewrite slice_all|done|done| |unfold total_at; lia].
  eapply Forall_impl; [exact Hal|]. intros c. apply aligned_end.
Qed.

End Same.

(** ** The laws *)

(** The lines of versions of one weave, without annotations: a sequence number
    names a line, and a version has a line once. *)
Record weave_lines (L : fidx → list ld) : Prop := {
  wl_once : ∀ i, NoDup (seqs (L i));
  wl_text : ∀ i j l l', l ∈ L i → l' ∈ L j → l_seq l = l_seq l' → l_line l = l_line l';
  wl_anno : ∀ i l, l ∈ L i → l_anno l = None
}.

(** LEFT in the place of RIGHT. *)
Definition twice (L : fidx → list ld) (i : fidx) : list ld := L (match i with RIGHT => LEFT | _ => i end).

Lemma twice_weave L : weave_lines L → weave_lines (twice L).
Proof. intros [H1 H2 H3]. unfold twice. split; eauto. Qed.

Lemma twice_files L body : merge_files L body → merge_files (twice L) (<[RIGHT := body LEFT]> body).
Proof.
  intros Hf. split; [|intros i l; apply (mf_seq L body)|apply (mf_gca L body)]. intros i. destruct (decide (i = RIGHT)) as [->|Hi].
  - rewrite fn_lookup_insert. apply (mf_body L body).
  - rewrite fn_lookup_insert_ne by done. rewrite (mf_body L body). by destruct i.
Qed.

Lemma twice_text L body crc : merge_files L body → length (L LEFT) = length (L RIGHT) →
  merge_text L body (crc := crc) → merge_text (twice L) (<[RIGHT := body LEFT]> body) (crc := crc).
Proof.
  intros Hf Hl Ht. assert (E : total_lines (<[RIGHT := body LEFT]> body) = total_lines body).
  { rewrite (total_ok (twice L) _ (wf := twice_files _ _ Hf)), (total_ok L body). unfold twice. lia. }
  split; rewrite ?E; [intros i; apply (mt_bytes L body)|apply (mt_total L body)|intros i; apply (mt_hash L body)].
Qed.

Lemma identical_ok L body : merge_files L body → identical body = Some (bool_decide (texts (L LEFT) = texts (L RIGHT))).
Proof.
  intros Hf. unfold identical. rewrite !(f_n_eq L body). destruct (Nat.eqb_spec (length (L LEFT)) (length (L RIGHT))) as [E|E].
  - rewrite !(seg_ok L body), !slice_all by done. f_equal.
    case_bool_decide as H; [by apply same_lines_spec|]. apply not_true_iff_false. by rewrite same_lines_spec.
  - rewrite bool_decide_eq_false_2; [done|]. intros H. apply (f_equal length) in H. unfold texts in H. by rewrite !length_map in H.
Qed.

(** [do_weave_merge] as [smerge] calls it, with functions [t] that start with the
    three for whole regions. *)
Lemma smerge_call L body crc (crc_ok : Checksum crc) HASH o A B X f9 f1 f2 others :
  merge_files L body → merge_text L body (crc := crc) → weave_lines L →
  (A, B, X) = (LEFT, GCA, RIGHT) ∨ (A, B, X) = (RIGHT, GCA, LEFT) ∨ (A, B, X) = (LEFT, RIGHT, LEFT) →
  map key (L A) = map key (L B) → s_fdiff o = false → s_show_seq o = false →
  s_fcns o = f9 :: f1 :: f2 :: others ∧ (m_fcn f9, m_fcn f1, m_fcn f2) = (F_conflicts, F_same_changes, F_only_one) ∧
    m_enable f9 ≠ 0 ∧ m_enable f1 ≠ 0 ∧ m_enable f2 ≠ 0 →
  do_weave_merge o body crc HASH 0 SEQ_END = Some (0, concat (texts (L X))).
Proof.
  intros Hf Ht Hw Hx Hk Hfd Hss Hfc.
  apply (do_weave_merge_same L body HASH o A B X Hx Hk (wl_once _ Hw A) (wl_text _ Hw) (conj Hfd (conj Hss (wl_anno _ Hw))) f9 f1 f2 others Hfc).
Qed.

(** A side that is GCA leaves the other side as it is; sides with the same text
    merge to that text. *)
Lemma smerge_same_ok L body crc (crc_ok : Checksum crc) HASH o :
  merge_files L body → merge_text L body (crc := crc) → weave_lines L →
  s_fdiff o = false → s_show_seq o = false → s_fcns o = mergefcns_table →
  (map key (L LEFT) = map key (L GCA) → smerge crc HASH o body 0 SEQ_END = Some (0, concat (texts (L RIGHT)))) ∧
  (map key (L RIGHT) = map key (L GCA) → smerge crc HASH o body 0 SEQ_END = Some (0, concat (texts (L LEFT)))) ∧
  (texts (L LEFT) = texts (L RIGHT) → smerge crc HASH o body 0 SEQ_END = Some (0, concat (texts (L LEFT)))).
Proof.
  intros Hf Ht Hw Hfd Hss Hfc. unfold smerge. rewrite Hfd, Hfc, (identical_ok L body Hf).
  assert (Hfn : ∃ f9 f1 f2 others, (match strchr (s_revs o GCA) 43, strchr (s_revs o GCA) 45 with
       | None, None => Some mergefcns_table | _, _ => enable_mergefcns (str "3"%string) 0 mergefcns_table end) = Some (f9 :: f1 :: f2 :: others) ∧
     (m_fcn f9, m_fcn f1, m_fcn f2) = (F_conflicts, F_same_changes, F_only_one) ∧ m_enable f9 ≠ 0 ∧ m_enable f1 ≠ 0 ∧ m_enable f2 ≠ 0).
  { destruct (strchr (s_revs o GCA) 43), (strchr (s_revs o GCA) 45); do 4 eexists; (split; [vm_compute; reflexivity|]); done. }
  destruct Hfn as (f9 & f1 & f2 & others & -> & Ht3).
  case_bool_decide as Hid.
  - assert (Hl : length (L LEFT) = length (L RIGHT)) by (apply (f_equal length) in Hid; unfold texts in Hid; by rewrite !length_map in Hid).
    pose proof (twice_files _ _ Hf) as Hf'.
    rewrite (smerge_call (twice L) _ crc crc_ok HASH _ LEFT RIGHT LEFT f9 f1 f2 others Hf' (twice_text _ _ _ Hf Hl Ht) (twice_weave _ Hw)); [|auto|done..].
    split; [|done]. intros _. unfold twice. by rewrite Hid.
  - split_and!; [intros Hk|intros Hk|done].
    + apply (smerge_call L body crc crc_ok HASH _ LEFT GCA RIGHT f9 f1 f2 others); auto.
    + apply (smerge_call L body crc crc_ok HASH _ RIGHT GCA LEFT f9 f1 f2 others); auto.
Qed.

(** With the default functions [smerge] returns. *)
Lemma smerge_returns L body crc (crc_ok : Checksum crc) HASH o start end_ :
  merge_files L body → merge_text L body (crc := crc) → s_fcns o = mergefcns_table →
  ∃ ret out, smerge crc HASH o body start end_ = Some (ret, out) ∧ (ret = 0 ∨ ret = 1).
Proof.
  intros Hf Ht Hfc. unfold smerge. rewrite Hfc, (identical_ok L body Hf).
  assert (Hfn : ∃ t, (match strchr (s_revs o GCA) 43, strchr (s_revs o GCA) 45 with
       | None, None => Some mergefcns_table | _, _ => enable_mergefcns (str "3"%string) 0 mergefcns_table end) = Some t ∧ guarded t = true).
  { destruct (strchr (s_revs o GCA) 43), (strchr (s_revs o GCA) 45); eexists; (split; [vm_compute; reflexivity|]); done. }
  destruct Hfn as (t & -> & Hg).
  assert (Hm : s_fdiff o = true → match s_fdiff o, s_mode o with true, MODE_3WAY => MODE_GCA | _, m => m end ≠ MODE_3WAY)
    by (intros ->; by destruct (s_mode o)).
  case_bool_decide as Hid.
  - assert (Hl : length (L LEFT) = length (L RIGHT)) by (apply (f_equal length) in Hid; unfold texts in Hid; by rewrite !length_map in Hid).
    by apply (do_weave_merge_returns (twice L) _ (wf := twice_files _ _ Hf) HASH (tx := twice_text _ _ _ Hf Hl Ht)).
  - by apply (do_weave_merge_returns L body HASH).
Qed.

(** ** Without the test for identical changes *)

(** Both sides delete the only line. *)
Definition ex_deleted (i : fidx) : list ld :=
  match i with LEFT | RIGHT => [] | _ => [ex_line 1 "a"%string] end.

Definition ex_deleted_body (i : fidx) : file := file_of (ex_deleted i).

(** The options of [smerge -A1]. *)
Definition no_same_fcns : list mergefcns :=
  match mergefcns_table with f9 :: f1 :: t => f9 :: set_enable 0 f1 :: t | t => t end.

Example no_same_fcns_option : enable_mergefcns (str "1"%string) 0 mergefcns_table = Some no_same_fcns.
Proof. reflexivity. Qed.

Definition ex_no_same : smopts := mkSm MODE_3WAY false false false (str "f"%string) (λ _, str "1.1"%string) no_same_fcns.

Section Stuck.

Context (crc : Z → cstr → Z) (HASH : Z → Z).

(** The region of the deleted line, or no lines at all. *)
Definition deleted_region (n : nat) (c : conflct) : Prop :=
  (∀ i, c_start c i = 0%nat) ∧ (∀ i, c_end c i = match i with LEFT | RIGHT => 0 | _ => n end)%nat ∧ c_merged c = None.

Lemma deleted_cseg n c i : (n <= 1)%nat → deleted_region n c → cseg ex_deleted_body c i = Some (take n (ex_deleted i)).
Proof.
  intros Hn (Hs & He & _). unfold cseg, seg. rewrite Hs, He. destruct i; cbn [ex_deleted_body ex_deleted file_of f_lines app length].
  all: destruct n as [|[|]]; [done|done|lia].
Qed.

Lemma deleted_samedata n c l r : (n <= 1)%nat → deleted_region n c →
  samedata ex_deleted_body c l r = Some (bool_decide (length (take n (ex_deleted l)) = length (take n (ex_deleted r)))).
Proof.
  intros Hn Hc. unfold samedata. rewrite !(deleted_cseg n) by done. destruct n as [|[|]]; [| |lia]; by destruct l, r.
Qed.

Lemma run_skip f fs ch m :
  m_enable f = 0 ∨ run_fcn ex_deleted_body crc HASH (m_fcn f) m = Some (false, m) → c_merged (fst m) = None →
  run_fcns ex_deleted_body crc HASH (f :: fs) ch m = run_fcns ex_deleted_body crc HASH fs ch m.
Proof.
  intros H Hm. cbn [run_fcns]. destruct (Z.eqb_spec (m_enable f) 0) as [|E]; [done|]. destruct H as [|H]; [done|].
  rewrite H, Hm, orb_false_r. done.
Qed.

Definition unchanged (m : mstate) (f : mergefcn) : Prop := run_fcn ex_deleted_body crc HASH f m = Some (false, m).

Lemma deleted_unchanged c : deleted_region 1 c →
  Forall (unchanged (c, [])) [F_conflicts; F_only_one; F_content; F_common_header; F_added_oneside; F_common_footer].
Proof.
  intros Hc. pose proof Hc as (Hs & He & Hm). unfold unchanged.
  repeat (apply Forall_cons; split); [..|by constructor]; cbn [run_fcn].
  - done.
  - unfold merge_only_one. by rewrite !(deleted_samedata 1) by done.
  - unfold merge_content. rewrite !Hs, !He, Hm. cbn. unfold set_merged. rewrite <- Hm. by destruct c.
  - unfold merge_common_header. by rewrite !(deleted_cseg 1) by done.
  - unfold merge_added_oneside. cbn [existsb FILES]. by rewrite !Hs, !He.
  - unfold merge_common_footer. by rewrite !(deleted_cseg 1) by done.
Qed.

(** [merge_common_deletes] splits the region into nothing and itself. *)
Lemma deleted_split c : deleted_region 1 c →
  ∃ c1 c2, merge_common_deletes ex_deleted_body (c, []) = Some (true, (c1, [c2])) ∧
    deleted_region 0 c1 ∧ c_split c1 = true ∧ deleted_region 1 c2 ∧ c_split c2 = false.
Proof.
  intros Hc. pose proof Hc as (Hs & He & Hm). unfold merge_common_deletes, unidiff. rewrite !(deleted_cseg 1) by done.
  cbn [take ex_deleted length Nat.add unidiff_loop]. cbn. rewrite !Hs, !He. cbn. eexists _, _. split; [done|].
  split; [|split; [done|split; [|done]]]; (split; [|split]); cbn; try done; intros i; rewrite ?Hs, ?He; by destruct i.
Qed.

(** The second round merges nothing. *)
Lemma nothing_merged c rest : deleted_region 0 c → c_split c = true →
  ∃ c', run_fcns ex_deleted_body crc HASH (s_fcns ex_no_same) false (c, rest) = Some (true, (c', rest)) ∧
    c_merged c' = Some [] ∧ c_end c' = c_end c.
Proof.
  intros Hc Hsp. pose proof Hc as (Hs & He & Hm). cbn [s_fcns ex_no_same no_same_fcns mergefcns_table].
  rewrite run_skip; [|right; cbn [m_fcn run_fcn]; unfold merge_conflicts; by destruct rest; rewrite ?Hsp|done].
  rewrite run_skip; [|by left|done]. cbn [run_fcns m_enable m_fcn Z.eqb Pos.eqb run_fcn]. unfold merge_only_one.
  rewrite (deleted_samedata 0), (deleted_cseg 0) by (done || lia). eexists. split; [done|]. cbn. by rewrite Hm.
Qed.

Lemma following_nothing c rest : deleted_region 0 c → merge_with_following_gca ex_deleted_body (c, rest) = Some (false, (c, rest)).
Proof. intros (Hs & He & _). unfold merge_with_following_gca. by rewrite !Hs, !He. Qed.

Lemma deleted_resolve fuel c : deleted_region 1 c →
  ∃ c1 c2, resolve_loop ex_no_same ex_deleted_body crc HASH (S (S fuel)) (c, []) = Some (c1, [c2]) ∧
    c_merged c1 = Some [] ∧ (∀ i, c_end c1 i = 0%nat) ∧ deleted_region 1 c2 ∧ c_split c2 = false.
Proof.
  intros Hc. pose proof (deleted_unchanged c Hc) as Hu. destruct (deleted_split c Hc) as (c1 & c2 & Hd & H1 & S1 & H2 & S2).
  pose proof Hc as (_ & _ & Hm). cbn [resolve_loop].
  assert (Hrun : ∃ c1', run_fcns ex_deleted_body crc HASH (s_fcns ex_no_same) false (c, []) = Some (true, (c1', [c2])) ∧
    deleted_region 0 c1' ∧ c_split c1' = true).
  { cbn [s_fcns ex_no_same no_same_fcns mergefcns_table]. rewrite Forall_forall in Hu.
    do 7 (rewrite run_skip; [|first [by left|right; apply Hu; cbn [m_fcn]; rewrite !elem_of_cons; tauto]|done]).
    set (f6 := mkFcn (str "6"%string) _ _ _ _). set (f8 := mkFcn (str "8"%string) _ _ _ _).
    cbn [run_fcns]. change (m_enable f6 =? 0) with false. change (run_fcn ex_deleted_body crc HASH (m_fcn f6)) with (merge_common_deletes ex_deleted_body).
    cbv iota. rewrite Hd. cbn [fst snd orb].
    assert (Ha : deleted_region 0 (add_algo (m_fname f6) c1)) by done. pose proof Ha as (_ & _ & Hma). rewrite Hma.
    change (m_enable f8 =? 0) with false. change (run_fcn ex_deleted_body crc HASH (m_fcn f8)) with (merge_with_following_gca ex_deleted_body).
    cbv iota. rewrite (following_nothing _ [c2] Ha). cbn [fst]. rewrite Hma. eauto. }
  destruct Hrun as (c1' & -> & H1' & S1'). pose proof H1' as (_ & He1 & Hm1). cbn [fst]. rewrite Hm1.
  destruct (nothing_merged c1' [c2] H1' S1') as (c3 & Hrun & Hm3 & He3). rewrite Hrun. cbn [fst]. rewrite Hm3.
  exists c3, c2. split; [done|]. split; [done|]. split; [|done]. intros i. rewrite He3, He1. by destruct i.
Qed.

(** A round of the loop ends well, writes nothing and comes back to the region. *)
Lemma deleted_round mk c : (∀ i, mk i = 0%nat) → deleted_region 1 c →
  ∃ mk' c', (∀ i, mk' i = 0%nat) ∧ deleted_region 1 c' ∧
    ∀ fuel, weave_loop ex_no_same ex_deleted_body crc HASH (S fuel) mk [c] 0 SEQ_END =
      weave_loop ex_no_same ex_deleted_body crc HASH fuel mk' [c'] 0 SEQ_END.
Proof.
  intros Hmk Hc.
  destruct (deleted_resolve (S (total_lines ex_deleted_body)) c Hc) as (c1 & c2 & Hres & Hm1 & He1 & H2 & _).
  exists (c_end c1), c2. split; [done|]. split; [done|]. intros fuel. cbn [weave_loop]. pose proof Hc as (Hs & _ & _).
  cbn [forallb FILES]. rewrite !Hmk, !Hs. cbn [Nat.sub Nat.add Nat.eqb andb common_loop].
  assert (Hpos : 0 <= u32 (c_start_seq c)) by (by apply Z.mod_pos_bound). rewrite (proj2 (Z.leb_le _ _) Hpos).
  unfold resolve_conflict, resolve_fuel. cbn [snd length Nat.add]. rewrite Nat.add_0_r, !(Nat.add_comm _ 3). cbn [Nat.add].
  rewrite Hres. cbn [fst snd]. rewrite Hm1. cbn.
  by destruct (weave_loop _ _ _ _ _ _ _ _ _) as [[ret out]|].
Qed.

End Stuck.

(** [smerge -A1] need not stop.  With the test for identical changes disabled, the
    line that both sides deleted in this example is split off its region again and
    again: any number of rounds of the loop of [do_weave_merge] can be run, no
    assert fails, and what is left to do is the same region. *)
Lemma no_same_changes_loops crc HASH :
  ∃ c, find_conflicts ex_deleted_body = Some [c] ∧
    ∀ n, ∃ mk' c', (∀ i, mk' i = 0%nat) ∧ deleted_region 1 c' ∧
      ∀ fuel, weave_loop ex_no_same ex_deleted_body crc HASH (n + fuel) (λ _, 0%nat) [c] 0 SEQ_END =
        weave_loop ex_no_same ex_deleted_body crc HASH fuel mk' [c'] 0 SEQ_END.
Proof.
  eexists. split; [vm_compute; reflexivity|]. induction n as [|n (mk & c & Hmk & Hc & IH)].
  - eexists _, _. split; [|split; [|done]]; [done|]. split; [by intros []|]. split; [by intros []|done].
  - destruct (deleted_round crc HASH mk c Hmk Hc) as (mk' & c' & Hmk' & Hc' & E). exists mk', c'.
    split; [done|]. split; [done|]. intros fuel. replace (S n + fuel)%nat with (n + S fuel)%nat by lia. by rewrite IH, E.
Qed.
