(* ===== verification/SmergeRead.v ===== *)
(** * SmergeRead: the files of a merge come from the weave

    [file_init] of src/src/smerge.c gets a version with sequence numbers in front of
    its lines ([get_reg] and [prefix] of src/src/slib.c with GET_ALIGN and GET_SEQ)
    and parses that output.  What it reads are the lines of the version, each with
    its place in the weave, which is all the merge needs to know about its input. *)

From S2P Require Import Prelude CStr Sccs Weave WeaveText WeaveGet Shell Crc HashIface U32Hash Diff DiffSnake DiffCorrect NDiff NDiffOk Smerge SmergeFind SmergeContent SmergeOk SmergeShow SmergeMerge SmergeSame.
From stdpp Require Import base functions numbers list strings.
From Stdlib Require Import ZArith Lia.

Local Open Scope Z_scope.

Local Open Scope bk_scope.

(** ** Getting a version with sequence numbers *)

(** [fprintf(out, "%7d ", seq)] *)
Definition prefix_seq (seq : Z) : cstr :=
  let s := printf_d seq in replicate (7 - length s) 32 ++ s ++ [32].

(** [while (len++ % 8) strcat(align, " "); strcat(align, "| ");] *)
Fixpoint align_spaces (fuel : nat) (len : Z) : cstr :=
  match fuel with
  | O => []
  | S fuel => if len mod 8 =? 0 then [] else 32 :: align_spaces fuel (len + 1)
  end.

(** The flags are GET_ALIGN and GET_SEQ: [len] is 8 for the number and 2. *)
Definition align : cstr := align_spaces 8 (8 + 2) ++ [124; 32].

Section get_seq.
(** As for [get_reg]. *)
Variables (slist : nat → Z) (d : Z) (newcksum : bool) (eol : cstr).

(** [get_data] with [pre] in front of a line that is printed. *)
Definition get_data_pre (pre buf : cstr) (g : getst) : getst :=
  let g := g_count g in
  let buf := if at0 buf =? CNTLA_ESCAPE then drop 1 buf else buf in
  if g_print g =? 0 then
    if negb (g_lf_pend g =? 0) && (g_lf_pend g =? whatstate (g_state g)) then put_eol newcksum false eol g else g
  else
    let g := if negb (g_lf_pend g =? 0) then put_eol newcksum false eol g else g in
    g_put (if newcksum then bytes_sum buf + 10 - 10 else 0) (pre ++ buf) (g_print g) (int32 (g_lines g + 1)) g.

Fixpoint get_loop_seq (weave : list cstr) (seq : Z) (g : getst) : option getst :=
  match weave with
  | [] => Some g
  | buf :: weave =>
      if eof_mark buf then Some g
      else if isData buf then get_loop_seq weave (seq + 1) (get_data_pre (prefix_seq (seq + 1) ++ align) buf g)
      else let? g := get_ctl slist d newcksum false eol buf g in get_loop_seq weave seq g
  end.

Definition get_seq (weave : list cstr) : option getst :=
  get_loop_seq weave 0 (mkGet [] 0 0 0 0 Other 0 0 0 false []).
End get_seq.

(** ** Parsing the output *)

(** [while (p < end && *p++ != c);]: what is after the first [c]. *)
Fixpoint after_char (c : Z) (p : cstr) : cstr :=
  match p with
  | [] => []
  | x :: p => if x =? c then p else after_char c p
  end.

(** A line with its newline, and the rest. *)
Fixpoint cut_line (p : cstr) : cstr * cstr :=
  match p with
  | [] => ([], [])
  | x :: p => if x =? 10 then ([x], p) else let '(l, r) := cut_line p in (x :: l, r)
  end.

(** [while (p < end && *p++ == ' '); --p;] *)
Definition skip_blanks_back (p : cstr) : cstr :=
  match strip_front (λ c, c =? 32) p with [] => drop (length p - 1) p | r => r end.

Fixpoint init_loop (fuel : nat) (anno : bool) (n l : nat) (p : cstr) : option (list ld) :=
  match p with
  | [] => assert! (n =? l)%nat; Some []
  | _ =>
      match fuel with
      | O => None
      | S fuel =>
          assert! (l <? n)%nat;
          let p := skip_blanks_back p in
          let '(seq, p) := atoi_p p in
          let a := drop 1 p in
          let line := drop 1 (after_char 124 a) in
          let '(text, p) := cut_line line in
          assert! negb (bool_decide (text = []));
          let? ls := init_loop fuel anno n (S l) p in
          Some (mkLd (u32 seq) text (if anno then Some (take (length a - length line) a) else None) :: ls)
      end
  end.

(** [file_init] on what [sccs_get] wrote and counted. *)
Definition file_init (anno : bool) (lines : nat) (out : cstr) : option file :=
  let? ls := init_loop (S (length out)) anno lines 0 out in Some (file_of ls).

Definition read_version (slist : nat → Z) (d : Z) (newcksum : bool) (eol : cstr) (weave : list cstr) : option file :=
  let? g := get_seq slist d newcksum eol weave in file_init false (Z.to_nat (g_lines g)) (g_out g).

(** ** The lines of a version with their places in the weave *)

(** The data lines of the version [S] with their numbers, after [n] data lines. *)
Fixpoint wnum (S : nat → Z) (st : list Z) (n : Z) (W : list cstr) : option (list (Z * cstr) * list Z) :=
  match W with
  | [] => Some ([], st)
  | b :: W =>
      if isData b then
        let? (V, st2) := wnum S st (n + 1) W in
        Some (if printstate st S =? 0 then V else (n + 1, b) :: V, st2)
      else
        let? st1 := wstep st (parse b) in
        wnum S st1 n W
  end.

(** The line [get_seq] writes. *)
Definition numbered (p : Z * cstr) : cstr := (prefix_seq (fst p) ++ align) ++ unesc (snd p).

(** The weave with its data lines written that way. *)
Fixpoint deco (n : Z) (W : list cstr) : list cstr :=
  match W with
  | [] => []
  | b :: W => if isData b then numbered (n + 1, b) :: deco (n + 1) W else b :: deco n W
  end.

(** The number starts with a space or a digit. *)
Lemma prefix_seq_head n : 0 <= n → ∃ c r, prefix_seq n = c :: r ∧ (c = 32 ∨ digit c).
Proof.
  intros Hn. unfold prefix_seq. rewrite printf_d_u by done. destruct (7 - length (printf_u n))%nat; cbn [replicate app]; [|eauto].
  unfold printf_u. pose proof (dec_digits_digit 20 n Hn) as Hd. destruct (dec_digits 20 n) as [|c r] eqn:E; [by apply dec_digits_ne in E|].
  inversion Hd; subst. cbn [app]. eauto.
Qed.

Lemma numbered_data n b : 0 <= n → isData (numbered (n, b)) = true ∧ unesc (numbered (n, b)) = numbered (n, b) ∧ eof_mark (numbered (n, b)) = false.
Proof.
  intros Hn. destruct (prefix_seq_head n Hn) as (c & r & E & Hc). unfold numbered. cbn [fst snd]. rewrite E. cbn [app].
  assert (Hne : c ≠ 1) by (destruct Hc as [->|Hc]; [done|unfold digit in Hc; lia]).
  unfold isData, unesc, eof_mark, CNTLA_ESCAPE. cbn [at0 hd]. destruct (Z.eqb_spec c 1); [done|]. split_and!; [done|done|].
  apply bool_decide_eq_false. intros [= ->]. done.
Qed.

Lemma data_no_eof b : isData b = true → eof_mark b = false.
Proof. intros H. apply bool_decide_eq_false. by intros ->. Qed.

Lemma parse_deco W : ∀ n, 0 <= n → 
  (∀ S st, wtext S st (map parse (deco n W)) =
     let? (V, st') := wnum S st n W in Some (map numbered V, st')) ∧
  (∀ S st, wtext S st (map parse W) = let? (V, st') := wnum S st n W in Some (map snd V, st')) ∧
  serials (map parse (deco n W)) = serials (map parse W) ∧ n_ok (map parse (deco n W)) = n_ok (map parse W) ∧
  forallb tagless (deco n W) = forallb tagless W.
Proof.
  induction W as [|b W IH]; intros n Hn; [by split_and!|]. cbn [deco wnum]. destruct (isData b) eqn:Hb.
  - destruct (IH (n + 1)) as (H1 & H2 & H3 & H4 & H5); [lia|]. destruct (numbered_data (n + 1) b) as (D1 & D2 & _); [lia|].
    cbn [map wtext]. rewrite (parse_data _ D1), (parse_data _ Hb). cbn [wstep]. split_and!.
    + intros S st. rewrite H1. destruct (wnum S st (n + 1) W) as [[V st']|]; [|done]. by destruct (printstate st S =? 0).
    + intros S st. rewrite H2. destruct (wnum S st (n + 1) W) as [[V st']|]; [|done]. by destruct (printstate st S =? 0).
    + unfold serials in *. cbn [map concat ctl_serial app]. done.
    + cbn [n_ok]. done.
    + cbn [forallb]. rewrite H5. unfold tagless. by rewrite D1, Hb.
  - destruct (IH n Hn) as (H1 & H2 & H3 & H4 & H5). cbn [map wtext].
    assert (Hp : ∃ t x m, parse b = WCtl t x m) by (unfold parse; rewrite Hb; destruct (ctl_scan b) as [[t x] m]; eauto).
    destruct Hp as (t & x & m & Hp). rewrite Hp. split_and!.
    + intros S st. destruct (wstep st (WCtl t x m)); [|done]. rewrite H1. by destruct (wnum S _ n W) as [[V st']|].
    + intros S st. destruct (wstep st (WCtl t x m)); [|done]. rewrite H2. by destruct (wnum S _ n W) as [[V st']|].
    + unfold serials in *. cbn [map concat ctl_serial]. by rewrite H3.
    + cbn [n_ok]. by rewrite H3, H4.
    + cbn [forallb]. by rewrite H5.
Qed.

Lemma deco_ok dmax W : weave_okb dmax W = true → weave_okb dmax (deco 0 W) = true.
Proof.
  destruct (parse_deco W 0 ltac:(lia)) as (H1 & H2 & H3 & H4 & _). unfold weave_okb. rewrite H3, H4, H1, H2.
  by destruct (wnum (λ _, 0) [] 0 W) as [[V st]|].
Qed.

(** ** What [get_seq] writes *)

(** Two readers that differ in the checksum at most. *)
Definition same_but_sum (a b : getst) : Prop :=
  mkGet (g_state a) (g_print a) (g_lf_pend a) 0 (g_lines a) (g_counter a) (g_added a) (g_deleted a) (g_same a) (g_has_nonl a) (g_out a) =
  mkGet (g_state b) (g_print b) (g_lf_pend b) 0 (g_lines b) (g_counter b) (g_added b) (g_deleted b) (g_same b) (g_has_nonl b) (g_out b).

Section Reader.

Context (S : nat → Z) (d : Z) (newcksum : bool) (eol : cstr).

Lemma put_eol_same a b : same_but_sum a b → same_but_sum (put_eol newcksum false eol a) (put_eol newcksum false eol b).
Proof. destruct a, b. unfold same_but_sum. cbn. intros [=]. by subst. Qed.

Lemma get_data_same n buf a b : 0 <= n → same_but_sum a b →
  same_but_sum (get_data_pre newcksum eol (prefix_seq n ++ align) buf a) (get_data newcksum false eol (numbered (n, buf)) b).
Proof.
  intros Hn Hab. destruct (numbered_data n buf Hn) as (_ & D2 & _). unfold get_data_pre, get_data. fold (unesc (numbered (n, buf))) (unesc buf). rewrite D2.
  assert (Hc : same_but_sum (g_count a) (g_count b)) by (destruct a, b; unfold same_but_sum in *; cbn in *; injection Hab; intros; by subst).
  revert Hc. generalize (g_count a), (g_count b). clear a b Hab. intros a b Hab.
  assert (E : g_print a = g_print b ∧ g_lf_pend a = g_lf_pend b ∧ g_state a = g_state b) by (unfold same_but_sum in Hab; by injection Hab).
  destruct E as (-> & -> & ->). destruct (g_print b =? 0).
  - destruct (_ && _); [by apply put_eol_same|done].
  - assert (H2 : same_but_sum (if negb (g_lf_pend b =? 0) then put_eol newcksum false eol a else a) (if negb (g_lf_pend b =? 0) then put_eol newcksum false eol b else b))
      by (destruct (negb _); [by apply put_eol_same|done]).
    revert H2. generalize (if negb (g_lf_pend b =? 0) then put_eol newcksum false eol a else a), (if negb (g_lf_pend b =? 0) then put_eol newcksum false eol b else b).
    intros x y Hxy. destruct x, y. unfold same_but_sum in *. cbn in *. injection Hxy. intros. by subst.
Qed.

Lemma get_ctl_same buf a b : same_but_sum a b →
  match get_ctl S d newcksum false eol buf a, get_ctl S d newcksum false eol buf b with
  | Some x, Some y => same_but_sum x y
  | None, None => True
  | _, _ => False
  end.
Proof.
  intros Hab. unfold get_ctl.
  assert (E : g_lf_pend a = g_lf_pend b ∧ g_state a = g_state b) by (unfold same_but_sum in Hab; by injection Hab). destruct E as [-> ->].
  set (a1 := if _ && _ && _ then _ else a). set (b1 := if _ && _ && _ then _ else b).
  assert (H1 : same_but_sum a1 b1).
  { subst a1 b1. destruct (_ && _ && _); [|done]. destruct (negb _); [by apply put_eol_same|].
    destruct a, b; unfold same_but_sum in *; cbn in *; injection Hab; intros; by subst. }
  clearbody a1 b1. clear Hab.
  assert (E : g_state a1 = g_state b1 ∧ g_counter a1 = g_counter b1) by (unfold same_but_sum in H1; by injection H1). destruct E as [-> ->].
  destruct (changestate _ _ _) as [st|]; [|done].
  assert (Hset : ∀ c p, same_but_sum (set_counter c p st a1) (set_counter c p st b1))
    by (intros c p; destruct a1, b1; unfold same_but_sum in *; cbn in *; injection H1; intros; by subst).
  destruct (d =? 0); [apply Hset|]. destruct newcksum; cbn [negb]; [|apply Hset].
  destruct (_ =? d); [apply Hset|]. destruct (negb _); [apply Hset|]. destruct (delstate _ _ _); [|done]. apply Hset.
Qed.

Lemma get_loop_same W : ∀ n a b, 0 <= n → same_but_sum a b →
  match get_loop_seq S d newcksum eol W n a, get_loop S d newcksum false eol (deco n W) b with
  | Some x, Some y => same_but_sum x y
  | None, None => True
  | _, _ => False
  end.
Proof.
  induction W as [|w W IH]; intros n a b Hn Hab; [done|]. cbn [deco get_loop_seq]. destruct (isData w) eqn:Hw.
  - rewrite (data_no_eof w Hw). cbn [get_loop]. destruct (numbered_data (n + 1) w) as (D1 & _ & D3); [lia|]. rewrite D1, D3.
    apply IH; [lia|]. apply get_data_same; [lia|done].
  - cbn [get_loop]. rewrite Hw. destruct (eof_mark w); [done|]. pose proof (get_ctl_same w a b Hab) as Hc.
    destruct (get_ctl S d newcksum false eol w a), (get_ctl S d newcksum false eol w b); try done. by apply IH.
Qed.

End Reader.

(** ** What [file_init] reads *)

(** The line of the merge. *)
Definition vline (eol : cstr) (p : Z * cstr) : ld := mkLd (fst p) (unesc (snd p) ++ eol) None.

Definition good_eol (eol : cstr) : Prop := eol = NL ∨ eol = 13 :: NL.

Definition good_line (p : Z * cstr) : Prop := 0 <= fst p < 2 ^ 31 ∧ Forall (λ c, c ≠ 10) (unesc (snd p)).

Lemma strip_spaces k s : at0 s ≠ 32 → strip_front (λ c, c =? 32) (replicate k 32 ++ s) = s.
Proof.
  intros Hs. induction k as [|k IH]; cbn [replicate app strip_front]; [|exact IH]. destruct s as [|c s]; [done|]. cbn [strip_front at0 hd] in *.
  by destruct (Z.eqb_spec c 32).
Qed.

Lemma cut_line_ok a r : Forall (λ c, c ≠ 10) a → cut_line (a ++ 10 :: r) = (a ++ [10], r).
Proof.
  induction 1 as [|c a Hc _ IH]; cbn [app cut_line]; [done|]. destruct (Z.eqb_spec c 10); [done|]. by rewrite IH.
Qed.

Lemma cut_eol a eol r : good_eol eol → Forall (λ c, c ≠ 10) a → cut_line (a ++ eol ++ r) = (a ++ eol, r).
Proof.
  intros [-> | ->] Ha; [by apply cut_line_ok|]. change ((13 :: NL) ++ r) with ([13] ++ 10 :: r). rewrite app_assoc, cut_line_ok.
  - by rewrite <- app_assoc.
  - apply Forall_app. split; [done|]. by repeat constructor.
Qed.

Lemma skip_number k r : 0 <= k < 2 ^ 31 → skip_blanks_back (prefix_seq k ++ r) = printf_u k ++ [32] ++ r.
Proof.
  intros Hk. unfold skip_blanks_back, prefix_seq. rewrite printf_d_u, <- !app_assoc by lia.
  assert (Hd : ∃ c s, printf_u k = c :: s ∧ digit c).
  { unfold printf_u. pose proof (dec_digits_digit 20 k ltac:(lia)) as Hd. destruct (dec_digits 20 k) as [|c s] eqn:E; [by apply dec_digits_ne in E|].
    inversion Hd; subst. eauto. }
  destruct Hd as (c & s & -> & Hc). rewrite strip_spaces; [done|]. cbn. unfold digit in Hc. lia.
Qed.

Lemma init_loop_ok eol V : good_eol eol → Forall good_line V → ∀ fuel n l, (length V <= fuel)%nat → n = (l + length V)%nat →
  init_loop fuel false n l (concat (map (λ p, numbered p ++ eol) V)) = Some (map (vline eol) V).
Proof.
  intros He. induction 1 as [|[k b] V [Hk Hb] _ IH]; intros fuel n l Hf Hn; cbn [map concat].
  { cbn [init_loop length] in *. subst n. destruct fuel; cbn [init_loop]; by rewrite Nat.add_0_r, Nat.eqb_refl. }
  cbn [length fst snd] in *. destruct fuel as [|fuel]; [lia|].
  set (R := concat (map (λ p, numbered p ++ eol) V)) in *.
  assert (Hc : ∃ c r, (numbered (k, b) ++ eol) ++ R = c :: r).
  { destruct (prefix_seq_head k) as (c & r & E & _); [lia|]. unfold numbered. cbn [fst]. rewrite E. cbn [app]. eauto. }
  assert (Hu : init_loop (Datatypes.S fuel) false n l ((numbered (k, b) ++ eol) ++ R) =
    assert! (l <? n)%nat;
    let '(text, p) := cut_line (unesc b ++ eol ++ R) in
    assert! negb (bool_decide (text = []));
    let? ls := init_loop fuel false n (Datatypes.S l) p in Some (mkLd (u32 k) text None :: ls)).
  { destruct Hc as (c & r & E). rewrite E. cbn [init_loop]. rewrite <- E. unfold numbered. cbn [fst snd]. rewrite <- !app_assoc.
    rewrite skip_number by done. rewrite atoi_p_printf by (done || lia). cbn [drop app]. done. }
  rewrite Hu. destruct (Nat.ltb_spec l n); [|lia]. rewrite cut_eol by done.
  assert (Hne : unesc b ++ eol ≠ []) by (destruct He as [-> | ->]; intros Hnil%app_nil; destruct Hnil; done).
  rewrite bool_decide_eq_false_2 by done. cbn [negb]. rewrite IH by lia. unfold vline. cbn [fst snd]. by rewrite u32_small by lia.
Qed.

(** ** The versions of one weave *)

Definition datas (W : list cstr) : list cstr := List.filter isData W.

Lemma wnum_facts S W : ∀ st n V st', wnum S st n W = Some (V, st') →
  (∀ p, p ∈ V → n < fst p <= n + Z.of_nat (length (datas W)) ∧ datas W !! Z.to_nat (fst p - n - 1) = Some (snd p)) ∧ NoDup (map fst V) ∧
  (length V <= length (datas W))%nat.
Proof.
  induction W as [|b W IH]; intros st n V st'; cbn [wnum datas List.filter].
  { intros [= <- <-]. split; [intros p Hp; by apply elem_of_nil in Hp|]. split; [constructor|done]. }
  destruct (isData b); [|destruct (wstep st (parse b)); [|done]; by apply IH].
  destruct (wnum S st (n + 1) W) as [[V1 st1]|] eqn:E; [|done]. apply IH in E as (E1 & E2 & E3). fold (datas W) in *. cbn [length].
  assert (H1 : ∀ p, p ∈ V1 → n < fst p <= n + Z.of_nat (Datatypes.S (length (datas W))) ∧
    (b :: datas W) !! Z.to_nat (fst p - n - 1) = Some (snd p)).
  { intros p Hp. destruct (E1 p Hp) as [Hb Hl]. split; [lia|].
    replace (Z.to_nat (fst p - n - 1)) with (Datatypes.S (Z.to_nat (fst p - (n + 1) - 1))) by lia. done. }
  destruct (printstate st S =? 0); intros [= <- <-]; [split_and!; [done|done|lia]|]. split_and!; [..|cbn; lia].
  - intros p [->|Hp]%elem_of_cons; [|by apply H1]. cbn [fst snd]. split; [lia|]. by replace (Z.to_nat (n + 1 - n - 1)) with 0%nat by lia.
  - cbn [map]. apply NoDup_cons. split; [|done]. intros (p & Ep & Hp)%list_elem_of_fmap. destruct (E1 p Hp). cbn in Ep. lia.
Qed.

(** A weave of text that ends in a newline. *)
Record text_weave (dmax : Z) (W : list cstr) : Prop := {
  tw_max : 0 <= dmax <= SL_MASK;
  tw_ok : weave_okb dmax W = true;
  tw_tagless : forallb tagless W = true;
  tw_bytes : Forall (λ b, cbytes b ∧ Forall (λ c, c ≠ 10) b) (datas W);
  tw_size : Z.of_nat (length (datas W)) < 2 ^ 26
}.

Lemma unesc_forall P b : Forall P b → Forall P (unesc b).
Proof. intros H. unfold unesc. destruct (_ =? _); [|done]. destruct b; [done|]. by inversion H. Qed.

Lemma read_version_ok dmax W S d newcksum eol :
  text_weave dmax W → good_eol eol → d ≠ 0 → active S d = true →
  ∃ V, wnum S [] 0 W = Some (V, []) ∧ read_version S d newcksum eol W = Some (file_of (map (vline eol) V)).
Proof.
  intros HW He Hd0 Hd. pose proof (tw_ok _ _ HW) as Hok. destruct (weave_ok_text dmax W S Hok) as (T0 & Ht & _).
  destruct (parse_deco W 0 ltac:(lia)) as (P1 & P2 & _ & _ & P5). rewrite P2 in Ht.
  destruct (wnum S [] 0 W) as [[V st]|] eqn:EV; [|done]. injection Ht as _ ->. exists V. split; [done|].
  destruct (wnum_facts S W _ _ _ _ EV) as (HV & _ & HVn). pose proof (tw_size _ _ HW) as Hsz.
  assert (Htext : weave_text S (deco 0 W) = Some (map numbered V)).
  { unfold weave_text. rewrite P1, EV. f_equal. rewrite map_map. apply map_ext_in. intros p Hp. apply list_elem_of_In in Hp.
    destruct p as [k b]. apply numbered_data. destruct (HV _ Hp) as [Hk _]. cbn in Hk. lia. }
  destruct (get_reg_got S d dmax (deco 0 W) (map numbered V) eol newcksum Hd0 Hd (tw_max _ _ HW) (deco_ok _ _ Hok) Htext)
    as (g & T1 & Hg & ET & Hgot & Hout & Hpend).
  rewrite P5 in Hpend. specialize (Hpend (tw_tagless _ _ HW)). rewrite Hpend, app_nil_r in Hout. cbn [Z.eqb] in Hout.
  pose proof (gt_lines _ _ _ _ _ _ Hgot) as Hl. apply (f_equal length) in ET. rewrite !length_map in ET.
  rewrite int32_small in Hl by lia.
  unfold read_version, get_seq. unfold get_reg in Hg.
  pose proof (get_loop_same S d newcksum eol W 0 (mkGet [] 0 0 0 0 Other 0 0 0 false []) (mkGet [] 0 0 0 0 Other 0 0 0 false []) ltac:(lia) eq_refl) as Hsame.
  rewrite Hg in Hsame. destruct (get_loop_seq S d newcksum eol W 0 _) as [g1|]; [|done].
  assert (E : g_lines g1 = g_lines g ∧ g_out g1 = g_out g) by (unfold same_but_sum in Hsame; by injection Hsame). destruct E as [-> ->].
  unfold file_init. rewrite Hout, map_map, Hl, <- ET, Nat2Z.id. rewrite (init_loop_ok eol V He); [done| | |done].
  - apply Forall_forall. intros p Hp. destruct (HV p Hp) as [Hk Hb]. pose proof (tw_size _ _ HW). split; [lia|].
    apply list_elem_of_lookup_2 in Hb. pose proof (tw_bytes _ _ HW) as Hbs. rewrite Forall_forall in Hbs. apply unesc_forall. by apply Hbs.
  - assert (Hlen : ∀ X, (length X <= length (concat (map (λ p, numbered p ++ eol) X)))%nat).
    { induction X as [|p X IH]; cbn [map concat length]; [done|]. rewrite !length_app.
      assert (0 < length eol)%nat by (destruct He as [-> | ->]; cbn; lia). lia. }
    specialize (Hlen V). lia.
Qed.

Section Versions.

Context (dmax : Z) (W : list cstr) (HW : text_weave dmax W) (eol : cstr) (He : good_eol eol).

Context (crc : Z → cstr → Z) {crc_ok : Checksum crc}.

Hypothesis Hroom : ∀ b, b ∈ datas W → crc 0 (unesc b ++ eol) + 4 * Z.of_nat (length (datas W)) + 2 < 2 ^ 32.

(** The numbered lines of the four versions. *)
Context (S : fidx → nat → Z) (V : fidx → list (Z * cstr)).

Hypothesis HV : ∀ i, wnum (S i) [] 0 W = Some (V i, []).

Hypothesis Hgca : V GCAR = V GCA.

Definition vlines (i : fidx) : list ld := map (vline eol) (V i).

Lemma vlines_elem i l : l ∈ vlines i → ∃ k b, l = vline eol (k, b) ∧ 0 < k <= Z.of_nat (length (datas W)) ∧ datas W !! Z.to_nat (k - 1) = Some b.
Proof.
  intros ([k b] & -> & Hp)%list_elem_of_fmap. exists k, b. split; [done|]. destruct (wnum_facts _ _ _ _ _ _ (HV i)) as [H _].
  destruct (H _ Hp) as [H1 H2]. cbn [fst snd] in *. split; [lia|]. by replace (k - 1) with (k - 0 - 1) by lia.
Qed.

Lemma versions_files : merge_files vlines (λ i, file_of (vlines i)).
Proof.
  split; [done| |unfold vlines; by rewrite Hgca]. intros i l Hl. apply vlines_elem in Hl as (k & b & -> & Hk & _).
  cbn [l_seq vline fst]. pose proof (tw_size _ _ HW). unfold SEQ_END. lia.
Qed.

Lemma versions_lines : weave_lines vlines.
Proof.
  split.
  - intros i. unfold seqs, vlines. rewrite map_map. cbn. apply (proj1 (proj2 (wnum_facts _ _ _ _ _ _ (HV i)))).
  - intros i j l l' Hl Hl'. apply vlines_elem in Hl as (k & b & -> & _ & E1). apply vlines_elem in Hl' as (k' & b' & -> & _ & E2).
    cbn. intros ->. rewrite E1 in E2. by injection E2 as ->.
  - intros i l Hl. apply vlines_elem in Hl as (k & b & -> & _). done.
Qed.

Lemma vlines_length i : (length (vlines i) <= length (datas W))%nat.
Proof. unfold vlines. rewrite length_map. apply (proj2 (proj2 (wnum_facts _ _ _ _ _ _ (HV i)))). Qed.

Lemma versions_text : merge_text vlines (λ i, file_of (vlines i)) (crc := crc).
Proof.
  pose proof (total_ok vlines _ (wf := versions_files)) as Ht.
  pose proof (vlines_length LEFT). pose proof (vlines_length RIGHT). pose proof (vlines_length GCA). pose proof (vlines_length GCAR).
  assert (Hle : Z.of_nat (total_lines (λ i, file_of (vlines i))) <= 4 * Z.of_nat (length (datas W))) by lia.
  split; [intros i l Hl|pose proof (tw_size _ _ HW); lia|intros i l Hl]; apply vlines_elem in Hl as (k & b & -> & _ & Hb);
    apply list_elem_of_lookup_2 in Hb; cbn [vline l_line snd].
  - pose proof (tw_bytes _ _ HW) as Hbs. rewrite Forall_forall in Hbs. destruct (Hbs _ Hb) as [Hc _]. split.
    + apply Forall_app. split; [by apply unesc_forall|]. destruct He as [-> | ->]; by repeat constructor.
    + intros Hnil%app_nil. destruct He as [-> | ->]; by destruct Hnil.
  - specialize (Hroom _ Hb). lia.
Qed.

(** The text of a version is the text of its lines. *)
Lemma versions_weave_text i T : weave_text (S i) W = Some T → concat (texts (vlines i)) = concat (map (λ b, b ++ eol) T).
Proof.
  intros HT. unfold weave_text in HT. destruct (parse_deco W 0 ltac:(lia)) as (_ & P2 & _). rewrite P2, HV in HT. injection HT as <-.
  unfold texts, vlines. by rewrite !map_map.
Qed.

Lemma versions_same_text i j T : weave_text (S i) W = Some T → weave_text (S j) W = Some T → texts (vlines i) = texts (vlines j).
Proof.
  unfold weave_text. destruct (parse_deco W 0 ltac:(lia)) as (_ & P2 & _). rewrite !P2, !HV. intros [= E1] [= E2].
  unfold texts, vlines. rewrite !map_map. cbn. rewrite <- !(map_map (λ p, unesc (snd p)) (λ b, b ++ eol)). f_equal.
  rewrite !map_map in E1, E2. congruence.
Qed.

End Versions.

(** C10. Merging two versions of a file.  Take a well-formed weave of text whose
    blocks carry no tag, with fewer than 2^26 lines whose hash codes leave room for
    four times their number below 2^32; any versions LEFT, RIGHT and GCA, with GCAR
    the same as GCA; either line ending; and the default table of automerge
    functions.  Then [file_init] reads the versions from the weave and [smerge]
    merges them, for any range and any output options: it returns 0 or 1.  Without
    the fmtool format and sequence numbers in the output, and for the whole range:
    if LEFT is the version GCA the output is the text of the version RIGHT in the
    weave, if RIGHT is GCA it is the text of LEFT, and if both sides have the same
    text it is that text; then the return value is 0. *)
Theorem smerge_weave dmax W eol crc (crc_ok : Checksum crc) HASH S d newcksum o :
  text_weave dmax W → good_eol eol →
  (∀ b, b ∈ datas W → crc 0 (unesc b ++ eol) + 4 * Z.of_nat (length (datas W)) + 2 < 2 ^ 32) →
  (∀ i, d i ≠ 0 ∧ active (S i) (d i) = true) → S GCAR = S GCA → s_fcns o = mergefcns_table →
  ∃ body, (∀ i, read_version (S i) (d i) newcksum eol W = Some (body i)) ∧
    (∀ start end_, ∃ ret out, smerge crc HASH o body start end_ = Some (ret, out) ∧ (ret = 0 ∨ ret = 1)) ∧
    (s_fdiff o = false → s_show_seq o = false → ∀ T,
      (S LEFT = S GCA ∧ weave_text (S RIGHT) W = Some T ∨ S RIGHT = S GCA ∧ weave_text (S LEFT) W = Some T ∨
       weave_text (S LEFT) W = Some T ∧ weave_text (S RIGHT) W = Some T) →
      smerge crc HASH o body 0 SEQ_END = Some (0, concat (map (λ b, b ++ eol) T))).
Proof.
  intros HW He Hroom Hd Hg Hfc.
  assert (∃ V, ∀ i, wnum (S i) [] 0 W = Some (V i, []) ∧ read_version (S i) (d i) newcksum eol W = Some (file_of (map (vline eol) (V i)))) as [V HV].
  { destruct (read_version_ok dmax W (S LEFT) (d LEFT) newcksum eol HW He (proj1 (Hd LEFT)) (proj2 (Hd LEFT))) as (Vl & H1 & R1).
    destruct (read_version_ok dmax W (S RIGHT) (d RIGHT) newcksum eol HW He (proj1 (Hd RIGHT)) (proj2 (Hd RIGHT))) as (Vr & H2 & R2).
    destruct (read_version_ok dmax W (S GCA) (d GCA) newcksum eol HW He (proj1 (Hd GCA)) (proj2 (Hd GCA))) as (Vg & H3 & R3).
    destruct (read_version_ok dmax W (S GCAR) (d GCAR) newcksum eol HW He (proj1 (Hd GCAR)) (proj2 (Hd GCAR))) as (Vh & H4 & R4).
    exists (λ i, match i with LEFT => Vl | RIGHT => Vr | GCA => Vg | GCAR => Vh end). by intros []. }
  assert (Hnum : ∀ i, wnum (S i) [] 0 W = Some (V i, [])) by (intros i; apply HV).
  assert (HVg : V GCAR = V GCA) by (pose proof (Hnum GCAR) as H1; pose proof (Hnum GCA) as H2; rewrite Hg, H2 in H1; by injection H1).
  pose proof (versions_files dmax W HW eol S V Hnum HVg) as Hf. pose proof (versions_lines W eol S V Hnum) as Hl.
  pose proof (versions_text dmax W HW eol He crc Hroom S V Hnum HVg) as Ht.
  exists (λ i, file_of (vlines eol V i)). split; [intros i; apply HV|]. split; [intros start end_; by apply (smerge_returns (vlines eol V) _ crc crc_ok)|].
  intros Hfd Hss T HT.
  destruct (smerge_same_ok (vlines eol V) _ crc crc_ok HASH o Hf Ht Hl Hfd Hss Hfc) as (L1 & L2 & L3).
  assert (Hk : ∀ i, S i = S GCA → map key (vlines eol V i) = map key (vlines eol V GCA)).
  { intros i Ei. unfold vlines. pose proof (Hnum i) as H1. rewrite Ei, (Hnum GCA) in H1. by injection H1 as <-. }
  destruct HT as [[Hs HT]|[[Hs HT]|[HT1 HT2]]].
  - rewrite <- (versions_weave_text W eol S V Hnum RIGHT T HT). by apply L1, Hk.
  - rewrite <- (versions_weave_text W eol S V Hnum LEFT T HT). by apply L2, Hk.
  - rewrite <- (versions_weave_text W eol S V Hnum LEFT T HT1). apply L3. by eapply (versions_same_text W eol S V Hnum).
Qed.

(** RIGHT replaces a line of the version LEFT and GCA. *)
Definition ex_serial (i : fidx) : nat := match i with RIGHT => 2 | _ => 1 end.

Lemma smerge_weave_witness :
  ∃ body, (∀ i, read_version (ex_version (ex_serial i)) (Z.of_nat (ex_serial i)) true NL ex_weave = Some (body i)) ∧
    map l_line (f_lines (body LEFT)) ≠ map l_line (f_lines (body RIGHT)) ∧
    smerge (software_crc32c 0) (λ k, k * 7) ex_opts body 0 SEQ_END = Some (0, [97; 10; 66; 10; 99; 10]).
Proof.
  destruct (smerge_weave 3 ex_weave NL (software_crc32c 0) _ (λ k, k * 7) (λ i, ex_version (ex_serial i)) (λ i, Z.of_nat (ex_serial i)) true ex_opts)
    as (body & H1 & _ & H3).
  - split; [by vm_compute|reflexivity|reflexivity|cbn; by repeat constructor|reflexivity].
  - by left.
  - assert (H : Forall (λ b, software_crc32c 0 0 (unesc b ++ NL) + 4 * Z.of_nat (length (datas ex_weave)) + 2 < 2 ^ 32) (datas ex_weave))
      by (repeat (apply Forall_cons; split; [by vm_compute|]); constructor).
    by apply Forall_forall.
  - by intros [].
  - reflexivity.
  - reflexivity.
  - exists body. split; [exact H1|]. split.
    + pose proof (H1 LEFT) as E1. pose proof (H1 RIGHT) as E2. vm_compute in E1, E2. injection E1 as <-. injection E2 as <-. done.
    + apply (H3 eq_refl eq_refl [[97]; [66]; [99]]). left. by split.
Defined.
