(* ===== verification/SmergeDiff.v ===== *)
(** * SmergeDiff: merging along the output of a diff

    [smerge -d] of src/src/smerge.c: the difwalk structure, which follows the output
    of [bk ndiff] between GCA and a side, and [do_diff_merge], which joins the regions
    of both sides and resolves them.  The output of ndiff is read back as the hunks
    it was printed from; an example shows lines that are written twice. *)

From S2P Require Import Prelude CStr Shell Crc HashIface U32Hash Diff NDiff Smerge SmergeMerge.
From stdpp Require Import base functions numbers list strings.
From Stdlib Require Import ZArith Lia.

Local Open Scope Z_scope.

Local Open Scope bk_scope.

(** ** Following a diff *)

(** The lines that are left of the output, the region and the next command. *)
Record difwalk := mkDw {
  dw_diff : list cstr;
  dw_offset : Z; dw_start : Z; dw_end : Z; dw_lines : Z;
  dw_gcastart : Z; dw_gcaend : Z; dw_cmdlines : Z
}.

Definition no_newline : cstr := str "\ No newline"%string.

(** [fgets] of [size] bytes, skipping the rest of the line and the warning about a
    missing newline; the line and what is left. *)
Fixpoint readdiff (size : nat) (diff : list cstr) : option cstr * list cstr :=
  match diff with
  | [] => (None, [])
  | l :: diff =>
      let buf := take (size - 1) l in
      if bool_decide (take 12 buf = no_newline) then readdiff size diff else (Some buf, diff)
  end.

(** [while (cnt--) { readdiff(...); assert(buf[0] == c); assert(buf[1] == ' '); }];
    at the end of the output the buffer keeps its contents, which start with [c] or
    not as before, here taken as a failure. *)
Fixpoint read_data (cnt : nat) (size : nat) (c : Z) (diff : list cstr) : option (list cstr) :=
  match cnt with
  | O => Some diff
  | S cnt =>
      let '(l, diff) := readdiff size diff in
      let? buf := l in
      assert! (at0 buf =? c) && (at0 (drop 1 buf) =? 32);
      read_data cnt size c diff
  end.

(** [strtol] of decimal digits *)
Definition strtol (s : cstr) : Z * cstr := atoi_p s.

(** One number or two with a comma between. *)
Definition read_pair (p : cstr) : Z * option Z * cstr :=
  let '(a, p) := strtol p in
  if at0 p =? 44 then let '(b, p) := strtol (drop 1 p) in (a, Some b, p) else (a, None, p).

Definition diffwalk_readcmd (dw : difwalk) : option difwalk :=
  let '(l, diff) := readdiff 64 (dw_diff dw) in
  match l with
  | None => Some (mkDw diff (dw_offset dw) (dw_start dw) (dw_end dw) (dw_lines dw) INT_MAX INT_MAX (dw_cmdlines dw))
  | Some buf =>
      let '(gcastart, e, p) := read_pair buf in
      let gcaend := match e with Some b => b + 1 | None => gcastart end in
      let cmd := at0 p in
      let '(start, e, _) := read_pair (drop 1 p) in
      let end_ := default start e in
      let lines := if cmd =? 100 then 0 else end_ - start + 1 in
      let? (diff, gcastart, gcaend) :=
        (if negb (cmd =? 97) then
           let gcaend := if gcaend =? gcastart then gcaend + 1 else gcaend in
           let? diff := read_data (Z.to_nat (gcaend - gcastart)) MAXLINE 60 diff in
           if cmd =? 99 then
             let '(l, diff) := readdiff MAXLINE diff in
             let? buf := l in
             assert! (at0 buf =? 45);
             Some (diff, gcastart, gcaend)
           else Some (diff, gcastart, gcaend)
         else
           assert! (gcaend =? gcastart);
           Some (diff, gcastart + 1, gcastart + 1)) in
      let? diff := read_data (Z.to_nat lines) 64 62 diff in
      Some (mkDw diff (dw_offset dw) (dw_start dw) (dw_end dw) (dw_lines dw) gcastart gcaend lines)
  end.

(** [diffwalk_new] on the output of ndiff, without annotations *)
Definition diffwalk_new (diff : list cstr) : option difwalk := diffwalk_readcmd (mkDw diff 0 0 0 0 0 0 0).

(** A call that goes on takes a command from the output. *)
Fixpoint diffwalk_extend (fuel : nat) (dw : difwalk) (gcalineno : Z) : option difwalk :=
  match fuel with
  | O => None
  | S fuel =>
      if gcalineno <? dw_end dw then Some dw else
      let end_ := if (dw_end dw <? gcalineno) && (dw_end dw <? dw_gcastart dw) then Z.min gcalineno (dw_gcastart dw) else dw_end dw in
      let dw := mkDw (dw_diff dw) (dw_offset dw) (dw_start dw) end_ (dw_lines dw) (dw_gcastart dw) (dw_gcaend dw) (dw_cmdlines dw) in
      if dw_gcastart dw <=? gcalineno then
        let extra := dw_cmdlines dw - (dw_gcaend dw - dw_gcastart dw) in
        let? dw := diffwalk_readcmd (mkDw (dw_diff dw) (dw_offset dw + extra) (dw_start dw) (dw_gcaend dw) (dw_lines dw + extra)
                                          (dw_gcastart dw) (dw_gcaend dw) (dw_cmdlines dw)) in
        diffwalk_extend fuel dw gcalineno
      else Some dw
  end.

Definition extend (dw : difwalk) (gcalineno : Z) : option difwalk := diffwalk_extend (length (dw_diff dw) + 2) dw gcalineno.

Definition diffwalk_start (dw : difwalk) (gcalineno : Z) : option difwalk :=
  assert! (gcalineno <=? dw_gcastart dw);
  let dw := mkDw (dw_diff dw) (dw_offset dw) gcalineno gcalineno 0 (dw_gcastart dw) (dw_gcaend dw) (dw_cmdlines dw) in
  if gcalineno =? dw_gcastart dw then extend dw (dw_gcaend dw) else Some dw.

(** The region of a side. *)
Definition diffwalk_range (dw : difwalk) : Z * Z :=
  (dw_start dw + dw_offset dw - 1 - dw_lines dw, dw_end dw + dw_offset dw - 1).

(** ** The merge *)

Section Merge.
Context (o : smopts) (body : fidx → file) (crc32c : Z → cstr → Z) (HASH : Z → Z).

(** The loop that makes both regions end at the same line of GCA. *)
Fixpoint agree_loop (fuel : nat) (ldiff rdiff : difwalk) : option (difwalk * difwalk) :=
  match fuel with
  | O => None
  | S fuel =>
      if dw_end ldiff <? dw_end rdiff then let? ldiff := extend ldiff (dw_end rdiff) in agree_loop fuel ldiff rdiff
      else if dw_end rdiff <? dw_end ldiff then let? rdiff := extend rdiff (dw_end ldiff) in agree_loop fuel ldiff rdiff
      else Some (ldiff, rdiff)
  end.

(** [while (c) { if (resolve_conflict(c)) ret = 1; c = c->next; }] *)
Fixpoint resolve_all (fuel : nat) (cs : list conflct) : option (Z * cstr) :=
  match fuel, cs with
  | _, [] => Some (0, [])
  | O, _ => None
  | S fuel, c :: rest =>
      let? (ret, out, m) := resolve_conflict o body crc32c HASH (c, rest) in
      let? (ret', out') := resolve_all fuel (snd m) in
      Some (if ret =? 0 then ret' else 1, out ++ out')
  end.

Definition in_file (z : Z) : option nat := assert! (0 <=? z); Some (Z.to_nat z).

Definition diff_region (start end_ : Z) (ldiff rdiff : difwalk) : option conflct :=
  let? gs := in_file (start - 1) in
  let? ge := in_file (end_ - 1) in
  let? start_seq := (if 0 <? start - 1 then let? l := line_at body GCA (Z.to_nat (start - 2)) in Some (l_seq l) else Some 0) in
  let? l := line_at body GCA ge in
  let? ls := in_file (fst (diffwalk_range ldiff)) in
  let? le := in_file (snd (diffwalk_range ldiff)) in
  let? rs := in_file (fst (diffwalk_range rdiff)) in
  let? re := in_file (snd (diffwalk_range rdiff)) in
  Some (mkConflct (λ i, match i with LEFT => ls | RIGHT => rs | _ => gs end) (λ i, match i with LEFT => le | RIGHT => re | _ => ge end)
                  start_seq (l_seq l) None false []).

Fixpoint diff_loop (fuel : nat) (gcaline : Z) (ldiff rdiff : difwalk) : option (Z * cstr) :=
  match fuel with
  | O => None
  | S fuel =>
      let start := Z.min (dw_gcastart ldiff) (dw_gcastart rdiff) in
      let stop := Z.min start (Z.of_nat (f_n (body GCA)) + 1) in
      let? ls := seg body GCA (Z.to_nat (gcaline - 1)) (Z.to_nat (Z.max stop gcaline - 1)) in
      let? a := print_lds o ls 0 false in
      let gcaline := Z.max stop gcaline in
      if gcaline <? start then Some (0, a) else
      let? ldiff := diffwalk_start ldiff start in
      let? rdiff := diffwalk_start rdiff start in
      let? (ldiff, rdiff) := agree_loop (length (dw_diff ldiff) + length (dw_diff rdiff) + 4) ldiff rdiff in
      let end_ := dw_end ldiff in
      let? c := diff_region start end_ ldiff rdiff in
      let? (ret, b) := resolve_all (S (total_lines body)) [c] in
      let? (ret', d) := diff_loop fuel end_ ldiff rdiff in
      Some (if ret =? 0 then ret' else 1, a ++ b ++ d)
  end.

(** [ndiff] is the output of [bk ndiff] between GCA and a side. *)
Definition do_diff_merge (ndiff : fidx → list cstr) : option (Z * cstr) :=
  let? ldiff := diffwalk_new (ndiff LEFT) in
  let? rdiff := diffwalk_new (ndiff RIGHT) in
  diff_loop (length (ndiff LEFT) + length (ndiff RIGHT) + 2) 1 ldiff rdiff.

End Merge.

(** ** Reading what ndiff prints *)

Definition both (h : hunk) : bool := negb (len_l h =? 0) && negb (len_r h =? 0).

Definition std_cmd (h : hunk) : cstr :=
  printf_d (DAFTER h DF_LEFT) ++ (if 1 <? len_l h then str ","%string ++ printf_d (DLAST h DF_LEFT) else []) ++
  (if both h then str "c"%string else if negb (len_l h =? 0) then str "d"%string else if negb (len_r h =? 0) then str "a"%string else []) ++
  printf_d (DAFTER h DF_RIGHT) ++ (if 1 <? len_r h then str ","%string ++ printf_d (DLAST h DF_RIGHT) else []) ++ NL.

(** The lines printed for a hunk with the lines [ls] and [rs]. *)
Definition std_block (h : hunk) (ls rs : list cstr) : list cstr :=
  std_cmd h :: map (app (str "< "%string)) ls ++ (if both h then [str "---"%string ++ NL] else []) ++ map (app (str "> "%string)) rs.

(** A hunk with numbers of 31 bits. *)
Definition hunk_ok (h : hunk) : Prop :=
  1 <= start_l h ∧ 1 <= start_r h ∧ 0 <= len_l h ∧ 0 <= len_r h ∧ 0 < len_l h + len_r h ∧ start_l h + len_l h < 2 ^ 31 ∧ start_r h + len_r h < 2 ^ 31.

Definition hunk_lines (fl : flines) (h : hunk) (s : side) : list cstr :=
  take (Z.to_nat (DLEN h s)) (drop (Z.to_nat (DSTART h s - 1)) (lines_of fl s)).

Definition hunk_in (fl : flines) (h : hunk) : Prop := ∀ s, DSTART h s - 1 + DLEN h s <= Z.of_nat (length (lines_of fl s)).

Lemma print_lines_std fl prefix s n : ∀ j, 1 <= j → j - 1 + Z.of_nat n <= Z.of_nat (length (lines_of fl s)) →
  Forall (λ l, last l = Some 10) (lines_of fl s) →
  print_lines fl n prefix s PRN_WARN_NL j = Some (concat (map (app prefix) (take n (drop (Z.to_nat (j - 1)) (lines_of fl s))))).
Proof.
  induction n as [|n IH]; intros j Hj Hl Hnl; [done|]. cbn [print_lines]. unfold getData, get1.
  destruct (lookup_lt_is_Some_2 (lines_of fl s) (Z.to_nat (j - 1))) as [p Hp]; [lia|].
  rewrite (drop_S _ p) by done. cbn [take map concat]. rewrite (proj2 (Z.leb_le 1 j) Hj), Hp. rewrite IH by (done || lia).
  replace (Z.to_nat (j + 1 - 1)) with (S (Z.to_nat (j - 1))) by lia. f_equal. unfold print_line.
  apply list_elem_of_lookup_2 in Hp. rewrite Forall_forall in Hnl. rewrite bool_decide_eq_true_2 by by apply Hnl. by rewrite app_nil_r.
Qed.

(** [printStd] prints these lines. *)
Lemma printStd_blocks fl hs : Forall hunk_ok hs → Forall (hunk_in fl) hs → (∀ s, Forall (λ l, last l = Some 10) (lines_of fl s)) →
  printStd fl hs = Some (concat (concat (map (λ h, std_block h (hunk_lines fl h DF_LEFT) (hunk_lines fl h DF_RIGHT)) hs))).
Proof.
  intros Hok Hin Hnl. unfold printStd. induction Hok as [|h hs Hh _ IH]; [done|]. apply Forall_cons in Hin as [Hi Hin]. specialize (IH Hin).
  cbn [each_hunk map concat]. rewrite IH. destruct Hh as (H1 & H2 & H3 & H4 & H5 & _). unfold printHunk.
  rewrite (print_lines_std fl _ DF_LEFT) by (apply Hnl || (specialize (Hi DF_LEFT); cbn in *; lia)).
  rewrite (print_lines_std fl _ DF_RIGHT) by (apply Hnl || (specialize (Hi DF_RIGHT); cbn in *; lia)).
  f_equal. rewrite concat_app. f_equal. unfold std_block, std_cmd, hunk_lines, both. cbn [DLEN DSTART concat]. rewrite !concat_app, <- !app_assoc.
  repeat f_equal. destruct (_ && _); cbn [concat]; [by rewrite app_nil_r|done].
Qed.

Lemma dec_digits_len f : ∀ n k, 0 <= n < 10 ^ Z.of_nat (S k) → (length (dec_digits f n) <= S k)%nat.
Proof.
  induction f as [|f IH]; intros n k Hn; cbn [dec_digits]; [cbn; lia|]. destruct (Z.ltb_spec n 10); [cbn; lia|].
  destruct k as [|k]; [change (10 ^ Z.of_nat 1) with 10 in Hn; lia|]. rewrite length_app. cbn [length].
  assert (Hp : 10 ^ Z.of_nat (S (S k)) = 10 * 10 ^ Z.of_nat (S k)) by (rewrite (Nat2Z.inj_succ (S k)), Z.pow_succ_r; lia).
  specialize (IH (n / 10) k). rewrite Hp in Hn. pose proof (Z.div_pos n 10 ltac:(lia) ltac:(lia)). pose proof (Z.div_lt_upper_bound n 10 (10 ^ Z.of_nat (S k)) ltac:(lia) ltac:(lia)). lia.
Qed.

Lemma printf_d_len n : 0 <= n < 2 ^ 31 → (length (printf_d n) <= 10)%nat.
Proof. intros Hn. rewrite printf_d_u by lia. unfold printf_u. apply (dec_digits_len 20 n 9). cbn. lia. Qed.

Lemma read_pair_ok a (b : option Z) rest : 0 <= a < 2 ^ 31 → (∀ x, b = Some x → 0 <= x < 2 ^ 31) → nondigit_head rest → at0 rest ≠ 44 →
  read_pair (printf_d a ++ match b with Some x => str ","%string ++ printf_d x | None => [] end ++ rest) = (a, b, rest).
Proof.
  intros Ha Hb Hr Hc. unfold read_pair, strtol. rewrite printf_d_u by lia. destruct b as [x|].
  - specialize (Hb x eq_refl). change (str ","%string) with [44]. cbn [app]. rewrite atoi_p_printf by (done || lia). cbn [at0 hd Z.eqb Pos.eqb drop].
    rewrite drop_0, printf_d_u, atoi_p_printf by (done || lia). done.
  - cbn [app]. rewrite atoi_p_printf by (done || lia). destruct (Z.eqb_spec (at0 rest) 44); [done|]. done.
Qed.

Lemma read_data_ok c size ls rest : c ≠ 92 → (3 <= size)%nat → read_data (length ls) size c (map (app [c; 32]) ls ++ rest) = Some rest.
Proof.
  intros Hc Hs. induction ls as [|l ls IH]; [done|]. cbn [length map app read_data readdiff].
  destruct size as [|[|[|size]]]; [lia..|]. cbn [Nat.sub take].
  rewrite bool_decide_eq_false_2 by (intros [= E]; done). cbn [at0 hd drop]. rewrite !Z.eqb_refl. exact IH.
Qed.

Definition last_of (h : hunk) (s : side) : option Z := if 1 <? DLEN h s then Some (DLAST h s) else None.

(** The letter of a command: c, d or a. *)
Definition cmd_char (h : hunk) : Z := if both h then 99 else if negb (len_l h =? 0) then 100 else 97.

Lemma std_cmd_text h : hunk_ok h →
  std_cmd h = printf_d (DAFTER h DF_LEFT) ++ match last_of h DF_LEFT with Some x => str ","%string ++ printf_d x | None => [] end ++
    cmd_char h :: printf_d (DAFTER h DF_RIGHT) ++ match last_of h DF_RIGHT with Some x => str ","%string ++ printf_d x | None => [] end ++ NL.
Proof.
  intros (_ & _ & _ & _ & H5 & _). unfold std_cmd, last_of, cmd_char, both. cbn [DLEN].
  destruct (Z.eqb_spec (len_l h) 0), (Z.eqb_spec (len_r h) 0); [lia|..]; cbn [negb andb]; destruct (1 <? len_l h), (1 <? len_r h); done.
Qed.

Lemma hunk_numbers h s : hunk_ok h → 0 <= DAFTER h s < 2 ^ 31 ∧ ∀ x, last_of h s = Some x → 0 <= x < 2 ^ 31.
Proof.
  intros (H1 & H2 & H3 & H4 & H5 & H6 & H7). unfold last_of, DAFTER, DLAST, DEND.
  split; [destruct s; cbn [DSTART DLEN]; destruct (_ =? 0); lia|]. intros x. destruct s; cbn [DSTART DLEN];
    [destruct (Z.ltb_spec 1 (len_l h))|destruct (Z.ltb_spec 1 (len_r h))]; try done; intros [= <-]; lia.
Qed.

Lemma std_cmd_line h : hunk_ok h → take 63 (std_cmd h) = std_cmd h ∧ bool_decide (take 12 (std_cmd h) = no_newline) = false.
Proof.
  intros Hh. rewrite std_cmd_text by done. destruct (hunk_numbers h DF_LEFT Hh) as [A1 A2], (hunk_numbers h DF_RIGHT Hh) as [B1 B2].
  assert (Hlast : ∀ s, (∀ x, last_of h s = Some x → 0 <= x < 2 ^ 31) → (length (match last_of h s with Some x => str ","%string ++ printf_d x | None => [] end) <= 11)%nat).
  { intros s Hs. destruct (last_of h s) as [x|]; [|cbn; lia]. rewrite length_app. pose proof (printf_d_len x (Hs x eq_refl)). cbn. lia. }
  pose proof (Hlast _ A2). pose proof (Hlast _ B2). pose proof (printf_d_len _ A1). pose proof (printf_d_len _ B1). split.
  - apply take_ge. rewrite !length_app. cbn [length]. rewrite !length_app. cbn [length NL]. lia.
  - apply bool_decide_eq_false. rewrite printf_d_u by lia. unfold printf_u.
    pose proof (dec_digits_digit 20 (DAFTER h DF_LEFT) ltac:(lia)) as Hd. destruct (dec_digits 20 (DAFTER h DF_LEFT)) as [|c r] eqn:E; [by apply dec_digits_ne in E|].
    apply Forall_cons in Hd as [Hc _]. intros E2. apply (f_equal at0) in E2. change (c = 92) in E2. unfold digit in Hc. lia.
Qed.

(** The next command is the hunk: where it starts and ends in GCA, and how many lines
    the side has there. *)
Lemma diffwalk_readcmd_std h ls rs rest off st en li g1 g2 cl : hunk_ok h → Z.of_nat (length ls) = len_l h → Z.of_nat (length rs) = len_r h →
  diffwalk_readcmd (mkDw (std_block h ls rs ++ rest) off st en li g1 g2 cl) =
  Some (mkDw rest off st en li (start_l h) (start_l h + len_l h) (len_r h)).
Proof.
  intros Hh Hl Hr. destruct (std_cmd_line h Hh) as [Ht Hn]. destruct (hunk_numbers h DF_LEFT Hh) as [A1 A2], (hunk_numbers h DF_RIGHT Hh) as [B1 B2].
  unfold diffwalk_readcmd, std_block. cbn [dw_diff app readdiff Nat.sub]. rewrite Ht, Hn. rewrite std_cmd_text by done.
  assert (Hc : cmd_char h = 99 ∨ cmd_char h = 100 ∨ cmd_char h = 97) by (unfold cmd_char; destruct (both h); [auto|]; destruct (negb (len_l h =? 0)); auto).
  rewrite read_pair_ok; [|done|done|by unfold nondigit_head; cbn; destruct Hc as [-> |[-> | ->]]|by cbn; destruct Hc as [-> |[-> | ->]]].
  cbn [at0 hd drop]. rewrite drop_0, read_pair_ok by done. cbn [dw_offset dw_start dw_end dw_lines dw_cmdlines].
  change (str "< "%string) with [60; 32]. change (str "> "%string) with [62; 32]. rewrite <- !app_assoc.
  destruct Hh as (H1 & H2 & H3 & H4 & H5 & H6 & H7).
  assert (Hpair : len_r h ≠ 0 → default (DAFTER h DF_RIGHT) (last_of h DF_RIGHT) - DAFTER h DF_RIGHT + 1 = len_r h).
  { intros Hne. unfold last_of, DAFTER, DLAST, DEND. cbn [DLEN DSTART]. destruct (Z.eqb_spec (len_r h) 0); [done|]. destruct (Z.ltb_spec 1 (len_r h)); cbn [from_option id]; unfold id; lia. }
  set (ge := match last_of h DF_LEFT with Some b => b + 1 | None => DAFTER h DF_LEFT end).
  assert (Hge : len_l h ≠ 0 → DAFTER h DF_LEFT = start_l h ∧ (if ge =? DAFTER h DF_LEFT then ge + 1 else ge) = start_l h + len_l h).
  { intros Hne. subst ge. unfold last_of, DAFTER, DLAST, DEND. cbn [DLEN DSTART]. destruct (Z.eqb_spec (len_l h) 0); [done|]. rewrite Z.sub_0_r.
    split; [done|]. destruct (Z.ltb_spec 1 (len_l h)); (case_match; [rewrite ?Z.eqb_eq in *|rewrite ?Z.eqb_neq in *]; lia). }
  unfold cmd_char, both in *. destruct (Z.eqb_spec (len_l h) 0) as [L0|L0], (Z.eqb_spec (len_r h) 0) as [R0|R0]; [lia|..]; cbn [negb andb] in *.
  - (* added lines *)
    cbn [Z.eqb Pos.eqb negb]. assert (Ege : ge = start_l h - 1 ∧ DAFTER h DF_LEFT = start_l h - 1).
    { subst ge. unfold last_of, DAFTER. cbn [DLEN DSTART]. rewrite L0. done. }
    destruct Ege as [-> ->]. rewrite Z.eqb_refl. rewrite Hpair by done. destruct ls; [|cbn in Hl; lia]. cbn [map app].
    rewrite <- Hr, Nat2Z.id, read_data_ok by (done || lia). do 2 f_equal; lia.
  - (* deleted lines *)
    cbn [Z.eqb Pos.eqb negb]. destruct (Hge L0) as [-> Eg]. rewrite Eg. replace (start_l h + len_l h - start_l h) with (Z.of_nat (length ls)) by lia.
    rewrite Nat2Z.id, read_data_ok by (done || (unfold MAXLINE; lia)). destruct rs; [|cbn in Hr; lia]. cbn. by rewrite R0.
  - (* changed lines *)
    cbn [Z.eqb Pos.eqb negb]. destruct (Hge L0) as [-> Eg]. rewrite Eg. replace (start_l h + len_l h - start_l h) with (Z.of_nat (length ls)) by lia.
    rewrite Nat2Z.id, read_data_ok by (done || (unfold MAXLINE; lia)). rewrite Hpair by done.
    cbn [app readdiff]. change (take (MAXLINE - 1) (str "---"%string ++ NL)) with (45 :: 45 :: 45 :: NL).
    rewrite bool_decide_eq_false_2 by done. cbn [at0 hd Z.eqb Pos.eqb]. rewrite <- Hr, Nat2Z.id, read_data_ok by (done || lia). done.
Qed.

(** ** Lines written twice *)

(** LEFT deletes a line, RIGHT replaces it by a copy of the next one. *)
Definition ex_copy (i : fidx) : list ld :=
  match i with
  | LEFT => [ex_line 3 "foo"; ex_line 4 "z"]
  | RIGHT => [ex_line 2 "foo"; ex_line 3 "foo"; ex_line 4 "z"]
  | _ => [ex_line 1 "x"; ex_line 3 "foo"; ex_line 4 "z"]
  end%string.

Definition ex_ndiff (i : fidx) : list cstr :=
  match i with
  | LEFT => std_block (mkHunk 1 1 1 0) [str "x"%string ++ NL] []
  | _ => std_block (mkHunk 1 1 1 1) [str "x"%string ++ NL] [str "foo"%string ++ NL]
  end.

(** The same conflict, but after it the merge along the diffs writes the line foo,
    which [merge_with_following_gca] made a part of the region, once more. *)
Example do_diff_merge_repeats :
  ∃ conflict, let z := str "z"%string ++ NL in
    do_weave_merge ex_opts (λ i, file_of (ex_copy i)) (software_crc32c 0) (λ k, k * 7) 0 SEQ_END = Some (1, conflict ++ z) ∧
    do_diff_merge ex_opts (λ i, file_of (ex_copy i)) (software_crc32c 0) (λ k, k * 7) ex_ndiff = Some (1, conflict ++ (str "foo"%string ++ NL) ++ z).
Proof.
  exists (take 85 (match do_weave_merge ex_opts (λ i, file_of (ex_copy i)) (software_crc32c 0) (λ k, k * 7) 0 SEQ_END with Some (_, out) => out | None => [] end)).
  split; vm_compute; reflexivity.
Qed.
