(* ===== verification/Lock.v ===== *)
(** * Lock: repository locks

    Lock files (src/src/port/sccs_lockfile.c) and the repository read and write
    locks built on them (src/src/locking.c).  Many processes use the same files:
    a lock operation is a program whose calls to the file system are atomic, and
    the programs of different processes interleave at every call.

    All processes run on one host; its name is left out of the file names.  Sleeps
    do nothing. *)

From S2P Require Import Prelude.
From stdpp Require Import base numbers list gmap.
From Stdlib Require Import ZArith Lia.

Local Open Scope Z_scope.

(** ** The file system *)

Abbreviation pid := positive.

Inductive path :=
  | READER_LOCK_DIR
  | WRITER_LOCK_DIR
  | WRITER_LOCK                (* WRITER_LOCK_DIR/lock *)
  | RDLOCK (p : pid)           (* READER_LOCK_DIR/pid@host.lock *)
  | NESTED_RD (n : positive)   (* READER_LOCK_DIR/NLhash *)
  | UNIQ (p : pid)             (* WRITER_LOCK_DIR/pid@host.lock *)
  | RDUNIQ (q p : pid)         (* READER_LOCK_DIR/pid@host.pid@host.lock *)
  | ROOT2RESYNC
  | BK_NL                      (* RESYNC/.bk_nl *)
  | GLOBAL_WR                  (* /etc/BitKeeper/locks/wrlock *)
  | GLOBAL_RD.

#[global] Instance path_eq_dec : EqDecision path.
Proof. solve_decision. Defined.

Definition path_code (f : path) : Z * positive * positive :=
  match f with
  | READER_LOCK_DIR => (0, xH, xH) | WRITER_LOCK_DIR => (1, xH, xH) | WRITER_LOCK => (2, xH, xH)
  | RDLOCK p => (3, p, xH) | NESTED_RD n => (4, n, xH) | UNIQ p => (5, p, xH) | RDUNIQ q p => (6, q, p)
  | ROOT2RESYNC => (7, xH, xH) | BK_NL => (8, xH, xH) | GLOBAL_WR => (9, xH, xH) | GLOBAL_RD => (10, xH, xH)
  end.

Definition path_decode (c : Z * positive * positive) : option path :=
  match c with
  | (0, _, _) => Some READER_LOCK_DIR | (1, _, _) => Some WRITER_LOCK_DIR | (2, _, _) => Some WRITER_LOCK
  | (3, p, _) => Some (RDLOCK p) | (4, n, _) => Some (NESTED_RD n) | (5, p, _) => Some (UNIQ p)
  | (6, q, p) => Some (RDUNIQ q p) | (7, _, _) => Some ROOT2RESYNC | (8, _, _) => Some BK_NL
  | (9, _, _) => Some GLOBAL_WR | (10, _, _) => Some GLOBAL_RD | _ => None
  end.

#[global] Instance path_countable : Countable path.
Proof. apply (inj_countable path_code path_decode). by intros []. Defined.

(** The directory that must exist for a file to be created. *)
Definition parent (f : path) : option path :=
  match f with
  | RDLOCK _ | NESTED_RD _ | RDUNIQ _ _ => Some READER_LOCK_DIR
  | UNIQ _ | WRITER_LOCK => Some WRITER_LOCK_DIR
  | BK_NL => Some ROOT2RESYNC
  | _ => None
  end.

(** The inode of every name; an inode's link count and the pid written in it;
    the next inode number; the processes [findpid] finds. *)
Record fs := mkFs { names : gmap path nat; inodes : gmap nat (nat * pid); next : nat; live : gset pid }.

Definition exists_ (s : fs) (f : path) : bool := bool_decide (is_Some (names s !! f)).

Definition has_parent (s : fs) (f : path) : bool :=
  match parent f with Some d => exists_ s d | None => true end.

Definition children (s : fs) (d : path) : list path :=
  filter (λ f, parent f = Some d) (map_to_list (names s)).*1.

(** ** Calls and programs *)

Inductive fop : Set → Type :=
  | Exists (f : path) : fop bool
  | Access (d : path) : fop bool                    (* access(d, W_OK) == 0 *)
  | Mkdir (d : path) : fop bool
  | Rmdir (d : path) : fop bool
  | Creat (f : path) : fop bool                     (* close(creat(f)) *)
  | OpenExcl (f : path) (me : pid) : fop (option nat) (* open O_EXCL, write the pid, close *)
  | Unlink (f : path) : fop bool
  | Link (f g : path) : fop bool
  | Ino (f : path) : fop nat
  | Links (f : path) : fop nat
  | Getdir (d : path) : fop (list path)
  | ReadLockf (f : path) : fop (option pid)         (* sccs_readlockf *)
  | FindPid (p : pid) : fop bool.

(** [Hang]: the loop is run for longer than its fuel. *)
Inductive prog (A : Type) : Type :=
  | Ret (a : A)
  | Op {B : Set} (o : fop B) (k : B → prog A)
  | Hang.

Arguments Ret {A} a.
Arguments Op {A B} o k.
Arguments Hang {A}.

Fixpoint bind {A C} (m : prog A) (f : A → prog C) : prog C :=
  match m with
  | Ret a => f a
  | Op o k => Op o (λ r, bind (k r) f)
  | Hang => Hang
  end.

Definition call {B : Set} (o : fop B) : prog B := Op o Ret.

Declare Scope lock_scope.

Notation "x <- m ; k" := (bind m (λ x, k)) (at level 100, m at level 99, k at level 200, right associativity) : lock_scope.

Notation "o ;;; k" := (bind (call o) (λ _, k)) (at level 100, k at level 200, right associativity) : lock_scope.

Local Open Scope lock_scope.

Definition put_name (f : path) (i : nat) (s : fs) : fs := mkFs (<[f := i]> (names s)) (inodes s) (next s) (live s).

(** A new file with link count 1. *)
Definition new_file (f : path) (p : pid) (s : fs) : fs :=
  mkFs (<[f := next s]> (names s)) (<[next s := (1%nat, p)]> (inodes s)) (S (next s)) (live s).

(** The pid in a lock file: in the name of a read lock (the file is empty), in
    the contents of the others. *)
Definition lock_pid (s : fs) (f : path) : option pid :=
  match names s !! f with
  | None => None
  | Some i => match f with RDLOCK p => Some p | _ => snd <$> inodes s !! i end
  end.

(** One call of process [me]. *)
Definition exec (me : pid) {B : Set} (o : fop B) (s : fs) : fs * B :=
  match o in fop B return fs * B with
  | Exists f => (s, exists_ s f)
  | Access d => (s, exists_ s d)
  | Mkdir d => if exists_ s d then (s, false) else (put_name d 0 s, true)
  | Rmdir d => if exists_ s d && bool_decide (children s d = [])
               then (mkFs (delete d (names s)) (inodes s) (next s) (live s), true) else (s, false)
  | Creat f => if exists_ s f then (s, true) else if has_parent s f then (new_file f me s, true) else (s, false)
  | OpenExcl f p => if exists_ s f then (s, None) else if has_parent s f then (new_file f p s, Some (next s)) else (s, None)
  | Unlink f =>
      match names s !! f with
      | None => (s, false)
      | Some i => (mkFs (delete f (names s)) (alter (λ n, (pred n.1, n.2)) i (inodes s)) (next s) (live s), true)
      end
  | Link f g =>
      match names s !! f with
      | Some i => if exists_ s g || negb (has_parent s g) then (s, false)
                  else (mkFs (<[g := i]> (names s)) (alter (λ n, (S n.1, n.2)) i (inodes s)) (next s) (live s), true)
      | None => (s, false)
      end
  | Ino f => (s, default 0%nat (names s !! f))
  | Links f => (s, match names s !! f with Some i => default 0%nat (fst <$> inodes s !! i) | None => 0%nat end)
  | Getdir d => (s, children s d)
  | ReadLockf f => (s, lock_pid s f)
  | FindPid p => (s, bool_decide (p ∈ live s))
  end.

(** ** sccs_lockfile.c *)

Definition uniqfile (file : path) (p : pid) : path :=
  match file with RDLOCK q => RDUNIQ q p | _ => UNIQ p end.

(** [sccs_stalelock(file, 1)] *)
Definition sccs_stalelock (file : path) : prog bool :=
  r <- call (ReadLockf file);
  match r with
  | None => Ret false
  | Some p =>
      alive <- call (FindPid p);
      if alive then Ret false
      else Unlink (uniqfile file p) ;;; Unlink file ;;; Ret true
  end.

(** [while ((ino(uniq) == ino(file)) && (links(uniq) == 1) && (links(file) == 1)) sleep(1);] *)
Fixpoint wait_attr (fuel : nat) (uniq file : path) : prog unit :=
  match fuel with
  | O => Hang
  | S fuel =>
      i <- call (Ino uniq);
      j <- call (Ino file);
      if negb (i =? j)%nat then Ret tt else
      n <- call (Links uniq);
      if negb (n =? 1)%nat then Ret tt else
      m <- call (Links file);
      if negb (m =? 1)%nat then Ret tt else wait_attr fuel uniq file
  end.

(** The loop of [sccs_lockfile]; [retry]: enter at the label [retry]. *)
Fixpoint lockfile_loop (fuel : nat) (me : pid) (file : path) (waitsecs waited uslp : Z) (retry : bool) : prog Z :=
  match fuel with
  | O => Hang
  | S fuel =>
      let uniq := uniqfile file me in
      made <- (if retry then Unlink uniq ;;; r <- call (OpenExcl uniq me); Ret (bool_decide (is_Some r)) else Ret true);
      if negb made then Ret (-1) else
      Link uniq file ;;;
      _ <- wait_attr (S fuel) uniq file;
      n <- call (Links uniq);
      won <- (if (n =? 2)%nat then i <- call (Ino uniq); j <- call (Ino file); Ret (i =? j)%nat else Ret false);
      if won then Ret 0 else
      n <- call (Links uniq);
      if (2 <? n)%nat then
        i <- call (Ino uniq);
        j <- call (Ino file);
        _ <- (if (i =? j)%nat then call (Unlink file) else Ret true);
        lockfile_loop fuel me file waitsecs waited uslp true
      else
        there <- call (Exists uniq);
        if negb there then Unlink uniq ;;; Ret (-1) else
        stale <- (if waited =? 0 then sccs_stalelock file else Ret false);
        if stale then lockfile_loop fuel me file waitsecs waited uslp false else
        if waitsecs =? 0 then Unlink uniq ;;; Ret (-1) else
        if negb (waitsecs =? -1) && (waitsecs <=? waited / 1000000) then
          stale <- sccs_stalelock file;
          if stale then lockfile_loop fuel me file waitsecs waited uslp false
          else Unlink uniq ;;; Ret (-1)
        else lockfile_loop fuel me file waitsecs (waited + uslp) (if uslp <? 100000 then uslp + 25000 else uslp) false
  end.

(** [access] of the directory of the lock, then the loop. *)
Definition sccs_lockfile (fuel : nat) (me : pid) (file : path) (waitsecs : Z) : prog Z :=
  ok <- (match parent file with Some d => call (Access d) | None => Ret true end);
  if negb ok then Ret (-1) else lockfile_loop fuel me file waitsecs 0 500 true.

Definition sccs_unlockfile (me : pid) (file : path) : prog Z :=
  a <- call (Unlink (uniqfile file me));
  b <- call (Unlink file);
  Ret (if a && b then 0 else -1).

Definition sccs_mylock (me : pid) (file : path) : prog bool :=
  r <- call (ReadLockf file);
  Ret (bool_decide (r = Some me)).

(** ** locking.c *)

Definition LOCKERR_PERM : Z := -2.

Definition LOCKERR_LOST_RACE : Z := -3.

(** [isdigit(lines[i][0])] *)
Definition digit_name (f : path) : bool := match f with RDLOCK _ | UNIQ _ | RDUNIQ _ _ => true | _ => false end.

Definition lockers (d : path) : prog (list path) :=
  lines <- call (Getdir d);
  Ret (List.filter digit_name lines).

(** [EACH(lines)] of [repository_hasLocks]: [n] and [rm]. *)
Fixpoint hasLocks_loop (lines : list path) (n : Z) (rm : bool) : prog (Z * bool) :=
  match lines with
  | [] => Ret (n, rm)
  | f :: lines =>
      stale <- sccs_stalelock f;
      if stale then hasLocks_loop lines n true else hasLocks_loop lines (n + 1) rm
  end.

Definition repository_hasLocks (dir : path) : prog Z :=
  rm <- (if bool_decide (dir = WRITER_LOCK_DIR) then sccs_stalelock WRITER_LOCK else Ret false);
  lines <- lockers dir;
  r <- hasLocks_loop lines 0 rm;
  _ <- (if snd r then call (Rmdir dir) else Ret true);
  Ret (fst r).

Fixpoint unlink_all (fl : list path) : prog unit :=
  match fl with [] => Ret tt | f :: fl => Unlink f ;;; unlink_all fl end.

(** [cleandir(dir)]; only the writer directory has a file [lock]. *)
Definition cleandir (dir : path) : prog unit :=
  lines <- lockers dir;
  _ <- unlink_all lines;
  _ <- (if bool_decide (dir = WRITER_LOCK_DIR) then call (Unlink WRITER_LOCK) else Ret true);
  Rmdir dir ;;; Ret tt.

Definition repository_mine (me : pid) (write : bool) : prog bool :=
  if write then sccs_mylock me WRITER_LOCK else call (Exists (RDLOCK me)).

Definition global_wrlocked : prog bool := call (Exists GLOBAL_WR).

Definition global_locked : prog bool :=
  w <- call (Exists GLOBAL_WR);
  if w then Ret true else call (Exists GLOBAL_RD).

(** [mine]: the answer of [nested_mine]. *)
Definition repository_locked (mine : bool) : prog Z :=
  g <- global_locked;
  if g then Ret 1 else
  ret <- repository_hasLocks READER_LOCK_DIR;
  if negb (ret =? 0) then Ret ret else
  if mine then Ret 0 else
  ret <- repository_hasLocks WRITER_LOCK_DIR;
  there <- (if negb (ret =? 0) then call (Exists WRITER_LOCK) else Ret false);
  if there then Ret ret else
  r <- call (Exists ROOT2RESYNC);
  Ret (if r then 1 else 0).

(** [unless (exists(path)) mkdir(path, 0777);] *)
Definition make_dir (d : path) : prog unit :=
  e <- call (Exists d);
  if e then Ret tt else Mkdir d ;;; Ret tt.

Definition rdlock (me : pid) : prog Z :=
  _ <- make_dir READER_LOCK_DIR;
  w <- call (Access READER_LOCK_DIR);
  if negb w then Ret LOCKERR_PERM else
  Creat (RDLOCK me) ;;;
  e <- call (Exists (RDLOCK me));
  if negb e then Ret LOCKERR_PERM else
  l <- call (Exists WRITER_LOCK);
  lost <- (if l then Ret true else global_wrlocked);
  if lost then Unlink (RDLOCK me) ;;; Rmdir READER_LOCK_DIR ;;; Ret LOCKERR_LOST_RACE
  else Ret 0.

(** [for (i = 0; i < 10; ++i)]: [ret] is the last answer. *)
Fixpoint ten_times (n : nat) (m : prog Z) (ret : Z) : prog Z :=
  match n with
  | O => Ret ret
  | S n => r <- m; if r =? 0 then Ret 0 else ten_times n m r
  end.

Definition repository_rdlock (me : pid) : prog Z :=
  g <- global_wrlocked;
  if g then Ret LOCKERR_LOST_RACE else ten_times 10 (rdlock me) 0.

(** [sccs_unlockfile(lock); rmdir(path); return (LOCKERR_LOST_RACE);] *)
Definition back_off (me : pid) : prog Z :=
  _ <- sccs_unlockfile me WRITER_LOCK;
  Rmdir WRITER_LOCK_DIR ;;; Ret LOCKERR_LOST_RACE.

(** [ign]: [getenv("_BK_IGNORE_RESYNC_LOCK") || nested_mine(...)]. *)
Definition wrlock (fuel : nat) (me : pid) (ign : bool) : prog Z :=
  _ <- make_dir WRITER_LOCK_DIR;
  w <- call (Access WRITER_LOCK_DIR);
  if negb w then Ret LOCKERR_PERM else
  g <- global_locked;
  failed <- (if g then Ret true else rc <- sccs_lockfile fuel me WRITER_LOCK 0; Ret (negb (rc =? 0)));
  if failed then Rmdir WRITER_LOCK_DIR ;;; Ret LOCKERR_LOST_RACE else
  e <- call (Exists ROOT2RESYNC);
  owned <- (if e then n <- call (Exists BK_NL); Ret (negb n && negb ign) else Ret false);
  if owned then back_off me else
  n <- repository_hasLocks READER_LOCK_DIR;
  if negb (n =? 0) then back_off me else Ret 0.

Definition repository_wrlock (fuel : nat) (me : pid) (ign : bool) : prog Z :=
  g <- global_locked;
  if g then Ret LOCKERR_LOST_RACE else ten_times 10 (wrlock fuel me ign) 0.

Definition repository_rdunlock (me : pid) (all : bool) : prog Z :=
  if all then _ <- cleandir READER_LOCK_DIR; Ret 0
  else Unlink (RDLOCK me) ;;; Ret 0.

Definition repository_wrunlock (me : pid) (all : bool) : prog Z :=
  if all then _ <- cleandir WRITER_LOCK_DIR; Ret 0 else
  mine <- sccs_mylock me WRITER_LOCK;
  if negb mine then Ret (-1) else
  rc <- sccs_unlockfile me WRITER_LOCK;
  if rc =? 0 then Rmdir WRITER_LOCK_DIR ;;; Ret 0 else Ret (-1).

Definition repository_downgrade (me : pid) : prog Z :=
  mine <- sccs_mylock me WRITER_LOCK;
  if negb mine then Ret (-1) else
  _ <- make_dir READER_LOCK_DIR;
  Creat (RDLOCK me) ;;;
  e <- call (Exists (RDLOCK me));
  if negb e then Ret (-2) else
  _ <- repository_wrunlock me false;
  Ret 0.

(** ** Processes *)

(** What a process asks for; [S fuel] bounds the loop of [sccs_lockfile]. *)
Inductive lcall := C_rdlock | C_wrlock (fuel : nat) (ign : bool) | C_rdunlock | C_wrunlock | C_downgrade.

Inductive held := HNone | HRead | HWrite.

#[global] Instance held_eq_dec : EqDecision held.
Proof. solve_decision. Defined.

Definition code (me : pid) (c : lcall) : prog Z :=
  match c with
  | C_rdlock => repository_rdlock me
  | C_wrlock fuel ign => repository_wrlock (S fuel) me ign
  | C_rdunlock => repository_rdunlock me false
  | C_wrunlock => repository_wrunlock me false
  | C_downgrade => repository_downgrade me
  end.

(** Locks are asked for by processes without one, and given up by their owners. *)
Definition may_call (c : lcall) (h : held) : bool :=
  match c, h with
  | C_rdlock, HNone | C_wrlock _ _, HNone | C_rdunlock, HRead | C_wrunlock, HWrite | C_downgrade, HWrite => true
  | _, _ => false
  end.

(** What the process has when the call returns [v]. *)
Definition after (c : lcall) (v : Z) (h : held) : held :=
  match c with
  | C_rdlock => if v =? 0 then HRead else h
  | C_wrlock _ _ => if v =? 0 then HWrite else h
  | C_rdunlock => HNone
  | C_wrunlock => if v =? 0 then HNone else h
  | C_downgrade => if v =? 0 then HRead else h
  end.

Inductive pstate := Idle (h : held) | Busy (c : lcall) (h : held) (m : prog Z).

Record config := mkConf { disk : fs; procs : gmap pid pstate }.

(** The next step of process [p]: return from a call or run one more operation. *)
Definition run1 (p : pid) (cf : config) : option config :=
  match procs cf !! p with
  | Some (Busy c h (Ret v)) => Some (mkConf (disk cf) (<[p := Idle (after c v h)]> (procs cf)))
  | Some (Busy c h (Op o k)) =>
      let '(s, r) := exec p o (disk cf) in Some (mkConf s (<[p := Busy c h (k r)]> (procs cf)))
  | _ => None
  end.

Definition start (p : pid) (c : lcall) (cf : config) : option config :=
  match procs cf !! p with
  | Some (Idle h) => if may_call c h then Some (mkConf (disk cf) (<[p := Busy c h (code p c)]> (procs cf))) else None
  | _ => None
  end.

(** The files others create and remove: the RESYNC directory and its marker,
    nested read locks and the global locks. *)
Definition foreign (f : path) : bool :=
  match f with ROOT2RESYNC | BK_NL | NESTED_RD _ | GLOBAL_WR | GLOBAL_RD => true | _ => false end.

(** Any process may take its next step; foreign files come and go. *)
Inductive step : config → config → Prop :=
  | step_start p c cf cf' : start p c cf = Some cf' → step cf cf'
  | step_run p cf cf' : run1 p cf = Some cf' → step cf cf'
  | step_create f cf : foreign f = true → exists_ (disk cf) f = false →
      step cf (mkConf (put_name f 0 (disk cf)) (procs cf))
  | step_remove f cf : foreign f = true →
      step cf (mkConf (mkFs (delete f (names (disk cf))) (inodes (disk cf)) (next (disk cf)) (live (disk cf))) (procs cf)).

(** Nobody has a lock or asks for one; of the lock files only directories may
    exist. *)
Definition initial (cf : config) : Prop :=
  (∀ p st, procs cf !! p = Some st → st = Idle HNone ∧ p ∈ live (disk cf)) ∧
  (∀ f, is_Some (names (disk cf) !! f) → foreign f = true ∨ f = READER_LOCK_DIR ∨ f = WRITER_LOCK_DIR) ∧
  next (disk cf) ≠ 0%nat ∧ inodes (disk cf) = ∅.

Definition has (cf : config) (p : pid) (h : held) : Prop := procs cf !! p = Some (Idle h).

(** ** Runs *)

(** A schedule; [EKill]: the process dies, its files stay. *)
Inductive event := EStart (p : pid) (c : lcall) | ERun (p : pid) (n : nat) | EKill (p : pid).

Fixpoint run_n (n : nat) (p : pid) (cf : config) : config :=
  match n with
  | O => cf
  | S n => match run1 p cf with Some cf => run_n n p cf | None => cf end
  end.

Definition do_event (cf : config) (e : event) : config :=
  match e with
  | EStart p c => default cf (start p c cf)
  | ERun p n => run_n n p cf
  | EKill p => let s := disk cf in
               mkConf (mkFs (names s) (inodes s) (next s) (live s ∖ {[p]})) (delete p (procs cf))
  end.

Definition three : config :=
  mkConf (mkFs ∅ ∅ 1 {[1; 2; 3]}%positive) {[1%positive := Idle HNone; 2%positive := Idle HNone; 3%positive := Idle HNone]}.

(** A writer keeps readers and writers out until it is done. *)
Example writer_excludes :
  let cf := fold_left do_event [EStart 1 (C_wrlock 5 false); ERun 1 100; EStart 2 C_rdlock; ERun 2 1000;
                                EStart 3 (C_wrlock 5 false); ERun 3 1000; EStart 1 C_wrunlock; ERun 1 100]%positive three in
  has cf 1 HNone ∧ has cf 2 HNone ∧ has cf 3 HNone ∧ map_to_list (names (disk cf)) = [].
Proof. vm_compute. split_and!; reflexivity. Qed.

(** A process that died with the write lock: two others both find its lock
    stale, the first removes it and takes the lock, and the second removes the
    lock of the first.  Both then have the write lock. *)
Example stale_lock_race :
  let cf := fold_left do_event [EStart 1 (C_wrlock 5 false); ERun 1 100; EKill 1;
                                EStart 3 (C_wrlock 5 false); ERun 3 18; EStart 2 (C_wrlock 5 false); ERun 2 100;
                                ERun 3 100]%positive three in
  has cf 2 HWrite ∧ has cf 3 HWrite.
Proof. vm_compute. split_and!; reflexivity. Qed.
