(* ===== verification/LockOk.v ===== *)
(** * LockOk: the repository locks exclude each other

    A ghost state per process records which lock files are its own and what it has
    learned from the file system.  [ok] checks a program against the ghost state,
    one call at a time; [inv] ties the ghost states of all processes to the disk
    and is kept by every call that [ok] allows.  Mutual exclusion follows for
    every interleaving. *)

From stdpp Require Import base numbers list gmap.
From Stdlib Require Import ZArith Lia.
From S2P Require Import Prelude Lock.

Local Open Scope Z_scope.

(** ** Ghost state *)

(** [g_rd]: my read lock file exists; [g_rdok]: and I have seen that there is no
    writer; [g_uniq], [g_lock]: my unique file exists, the write lock is mine,
    both with inode [g_ino]; [g_wrok]: and I have seen that there are no readers;
    [g_pid]: the pid last read from a lock file. *)
Record ghost := mkGhost {
  g_rd : bool; g_rdok : bool; g_uniq : bool; g_ino : nat; g_lock : bool; g_wrok : bool; g_pid : option pid
}.

Definition set_rd (r ok : bool) (g : ghost) := mkGhost r ok (g_uniq g) (g_ino g) (g_lock g) (g_wrok g) (g_pid g).

Definition set_uniq (u : bool) (i : nat) (g : ghost) := mkGhost (g_rd g) (g_rdok g) u i (g_lock g) (g_wrok g) (g_pid g).

Definition set_lock (l ok : bool) (g : ghost) := mkGhost (g_rd g) (g_rdok g) (g_uniq g) (g_ino g) l ok (g_pid g).

Definition set_pid (p : option pid) (g : ghost) := mkGhost (g_rd g) (g_rdok g) (g_uniq g) (g_ino g) (g_lock g) (g_wrok g) p.

Definition is_rdlock (f : path) : bool := match f with RDLOCK _ => true | _ => false end.

(** The ghost state after a call and its result. *)
Definition gstep {B : Set} (o : fop B) (g : ghost) : B → ghost :=
  match o in fop B return B → ghost with
  | Exists WRITER_LOCK => λ r, if r then g else set_rd (g_rd g) (g_rd g) g
  | Creat _ => λ r, if r then set_rd true (g_lock g) g else g
  | OpenExcl _ _ => λ r, match r with Some i => set_uniq true i g | None => g end
  | Unlink (RDLOCK _) => λ _, set_rd false false g
  | Unlink (UNIQ _) => λ _, set_uniq false (g_ino g) g
  | Unlink WRITER_LOCK => λ _, set_lock false false g
  | Link _ _ => λ r, if r then set_lock true false g else g
  | Getdir READER_LOCK_DIR => λ l, if g_lock g && negb (existsb is_rdlock l) then set_lock true true g else g
  | ReadLockf _ => λ r, set_pid r g
  | _ => λ _, g
  end.

(** The names of lock files. *)
Definition lockish (f : path) : bool := match f with RDLOCK _ | UNIQ _ | RDUNIQ _ _ | WRITER_LOCK => true | _ => false end.

(** The calls a process may make. *)
Definition allowed (me : pid) (g : ghost) {B : Set} (o : fop B) : Prop :=
  match o with
  | Mkdir d | Rmdir d => d = READER_LOCK_DIR ∨ d = WRITER_LOCK_DIR
  | Creat f => f = RDLOCK me ∧ g_rd g = false
  | OpenExcl f p => f = UNIQ me ∧ p = me ∧ g_uniq g = false ∧ g_lock g = false
  | Unlink f => f = RDLOCK me ∨ f = UNIQ me ∨ (f = WRITER_LOCK ∧ g_lock g = true)
  | Link f g' => f = UNIQ me ∧ g' = WRITER_LOCK ∧ g_uniq g = true ∧ g_lock g = false
  | ReadLockf f => lockish f = true
  | FindPid p => g_pid g = Some p
  | Ino _ | Links _ => g_uniq g = true
  | _ => True
  end.

(** What the results can be. *)
Definition possible (me : pid) (g : ghost) {B : Set} (o : fop B) : B → Prop :=
  match o in fop B return B → Prop with
  | Exists f => λ r, (f = RDLOCK me → r = g_rd g) ∧ (f = UNIQ me → r = g_uniq g)
  | Unlink f => λ r, (f = UNIQ me → r = g_uniq g) ∧ (f = WRITER_LOCK → r = true)
  | Ino f => λ r, (f = UNIQ me → r = g_ino g) ∧ (f = WRITER_LOCK → if g_lock g then r = g_ino g else r ≠ g_ino g)
  | Links f => λ r, f = UNIQ me → r = if g_lock g then 2%nat else 1%nat
  | ReadLockf f => λ r, f = WRITER_LOCK → g_lock g = true → r = Some me
  | FindPid _ => λ r, r = true
  | _ => λ _, True
  end.

(** The program keeps to the rules and ends with [post]. *)
Fixpoint ok {A} (me : pid) (g : ghost) (m : prog A) (post : A → ghost → Prop) : Prop :=
  match m with
  | Ret a => post a g
  | Op o k => allowed me g o ∧ ∀ r, possible me g o r → ok me (gstep o g r) (k r) post
  | Hang => False
  end.

Lemma ok_bind {A C} me g (m : prog A) (f : A → prog C) post :
  ok me g m (λ a g', ok me g' (f a) post) → ok me g (bind m f) post.
Proof. revert g. induction m as [a|B o k IH|]; intros g; cbn; [done| |done]. intros [Ha Hk]. split; [done|]. auto. Qed.

Lemma ok_mono {A} me g (m : prog A) (post post' : A → ghost → Prop) :
  ok me g m post → (∀ a g', post a g' → post' a g') → ok me g m post'.
Proof.
  intros Hm Hp. revert g Hm. induction m as [a|B o k IH|]; intros g; cbn; [auto| |done]. intros [Ha Hk]. split; [done|]. auto.
Qed.

(** ** The invariant *)

Record inv (s : fs) (G : pid → ghost) : Prop := {
  iv_rd : ∀ p, is_Some (names s !! RDLOCK p) ↔ g_rd (G p) = true;
  iv_uniq : ∀ p, names s !! UNIQ p = if g_uniq (G p) then Some (g_ino (G p)) else None;
  iv_lock : ∀ p, g_lock (G p) = true → names s !! WRITER_LOCK = Some (g_ino (G p));
  iv_owner : ∀ i, names s !! WRITER_LOCK = Some i → ∃ p, g_lock (G p) = true;
  iv_ino : ∀ p, g_uniq (G p) || g_lock (G p) = true →
    inodes s !! g_ino (G p) = Some ((if g_uniq (G p) then 1 else 0) + (if g_lock (G p) then 1 else 0), p)%nat ∧
    g_ino (G p) ≠ 0%nat;
  iv_next : next s ≠ 0%nat ∧ ∀ i, (next s <= i)%nat → inodes s !! i = None;
  iv_rdfile : ∀ p i, names s !! RDLOCK p = Some i →
    (i < next s)%nat ∧ ∀ q, g_uniq (G q) || g_lock (G q) = true → g_ino (G q) ≠ i;
  iv_odd : ∀ q p, names s !! RDUNIQ q p = None;
  iv_live : ∀ p, g_rd (G p) || g_uniq (G p) || g_lock (G p) = true → p ∈ live s;
  iv_rdok : ∀ p, g_rdok (G p) = true → g_rd (G p) = true;
  iv_wrok : ∀ p, g_wrok (G p) = true → g_lock (G p) = true;
  iv_excl : ∀ p q, p ≠ q → g_rdok (G p) = true → g_wrok (G q) = true → False;
  iv_pid : ∀ p q, g_pid (G p) = Some q → q ∈ live s
}.

Definition gupd (G : pid → ghost) (p : pid) (g : ghost) : pid → ghost := λ q, if decide (q = p) then g else G q.

Lemma gupd_eq G p g : gupd G p g p = g.
Proof. unfold gupd. by rewrite decide_True. Qed.

Lemma gupd_ne G p g q : q ≠ p → gupd G p g q = G q.
Proof. intros. unfold gupd. by rewrite decide_False. Qed.

Lemma inv_one_owner s G p q : inv s G → g_lock (G p) = true → g_lock (G q) = true → p = q.
Proof.
  intros H Hp Hq. pose proof (iv_lock _ _ H p Hp) as E1. pose proof (iv_lock _ _ H q Hq) as E2. rewrite E1 in E2.
  injection E2 as E. destruct (iv_ino _ _ H p) as [I1 _]; [by rewrite Hp, orb_true_r|].
  destruct (iv_ino _ _ H q) as [I2 _]; [by rewrite Hq, orb_true_r|]. rewrite E, I2 in I1. by injection I1 as _ ->.
Qed.

(** Only the names of lock files matter. *)
Lemma inv_names s s' G :
  inv s G → (∀ f, lockish f = true → names s' !! f = names s !! f) → inodes s' = inodes s → next s' = next s → live s' = live s →
  inv s' G.
Proof.
  intros H Hn Hi Hx Hl. destruct H. split; intros *; rewrite ?Hn, ?Hi, ?Hx, ?Hl by done; eauto.
Qed.

(** The inode of a process is its own. *)
Lemma inv_ino_ne s G p q : inv s G → p ≠ q →
  g_uniq (G p) || g_lock (G p) = true → g_uniq (G q) || g_lock (G q) = true → g_ino (G p) ≠ g_ino (G q).
Proof.
  intros H Hne Hp Hq E. destruct (iv_ino _ _ H p Hp) as [I1 _]. destruct (iv_ino _ _ H q Hq) as [I2 _].
  rewrite E, I2 in I1. injection I1 as _ <-. done.
Qed.

(** No read lock file shares its inode. *)
Definition rdfiles_ok (s : fs) (G : pid → ghost) : Prop :=
  ∀ p i, names s !! RDLOCK p = Some i → (i < next s)%nat ∧ ∀ q, g_uniq (G q) || g_lock (G q) = true → g_ino (G q) ≠ i.

Lemma rdfiles_keep s s' G p g :
  inv s G → (∀ q i, names s' !! RDLOCK q = Some i → names s !! RDLOCK q = Some i) → next s' = next s →
  (g_uniq g || g_lock g = true → g_uniq (G p) || g_lock (G p) = true ∧ g_ino g = g_ino (G p)) →
  rdfiles_ok s' (gupd G p g).
Proof.
  intros H Hn Hx Hg q i Hi. apply Hn in Hi. destruct (iv_rdfile _ _ H q i Hi) as [Hlt Hne]. split; [by rewrite Hx|].
  intros r. destruct (decide (r = p)) as [->|]; [rewrite gupd_eq|rewrite gupd_ne by done; auto].
  intros Hr. apply Hg in Hr as [Hr ->]. auto.
Qed.

(** What process [p] must show for its own call. *)
Record mine_ok (s : fs) (G : pid → ghost) (p : pid) (g : ghost) : Prop := {
  mo_rd : is_Some (names s !! RDLOCK p) ↔ g_rd g = true;
  mo_uniq : names s !! UNIQ p = if g_uniq g then Some (g_ino g) else None;
  mo_lock : g_lock g = true → names s !! WRITER_LOCK = Some (g_ino g);
  mo_ino : g_uniq g || g_lock g = true →
    inodes s !! g_ino g = Some ((if g_uniq g then 1 else 0) + (if g_lock g then 1 else 0), p)%nat ∧ g_ino g ≠ 0%nat;
  mo_rdok : g_rdok g = true → g_rd g = true ∧ ∀ q, q ≠ p → g_wrok (G q) = false;
  mo_wrok : g_wrok g = true → g_lock g = true ∧ ∀ q, q ≠ p → g_rdok (G q) = false;
  mo_pid : ∀ q, g_pid g = Some q → q ∈ live s
}.

(** A call of [p] that leaves the files of others alone. *)
Lemma inv_upd s s' G p g :
  inv s G → p ∈ live s → live s' = live s →
  (∀ f, lockish f = true → f ≠ RDLOCK p → f ≠ UNIQ p → f ≠ WRITER_LOCK → names s' !! f = names s !! f) →
  (∀ q, q ≠ p → g_uniq (G q) || g_lock (G q) = true → inodes s' !! g_ino (G q) = inodes s !! g_ino (G q)) →
  (∀ q, q ≠ p → g_lock (G q) = true → names s' !! WRITER_LOCK = names s !! WRITER_LOCK) →
  (∀ i, names s' !! WRITER_LOCK = Some i → g_lock g = true ∨ ∃ q, q ≠ p ∧ g_lock (G q) = true) →
  (next s' ≠ 0%nat ∧ ∀ i, (next s' <= i)%nat → inodes s' !! i = None) →
  rdfiles_ok s' (gupd G p g) → mine_ok s' G p g → inv s' (gupd G p g).
Proof.
  intros H Hp Hl Hn Hi Hwl How Hnx Hrf [M1 M2 M3 M4 M5 M6 M7]. destruct H.
  split; [..|done|done|intros q r; by rewrite Hn| | | | |]; try (intros q; destruct (decide (q = p)) as [->|Hq]; [rewrite gupd_eq|rewrite gupd_ne by done]).
  - done.
  - rewrite Hn by (done || congruence). done.
  - done.
  - rewrite Hn by (done || congruence). done.
  - done.
  - intros Hlk. rewrite (Hwl q) by done. auto.
  - intros i Hi'. destruct (How i Hi') as [E|(q & Hq & E)]; [exists p; by rewrite gupd_eq|exists q; by rewrite gupd_ne].
  - done.
  - intros Hu. rewrite Hi by done. auto.
  - by rewrite Hl.
  - rewrite Hl. auto.
  - by intros []%M5.
  - auto.
  - by intros []%M6.
  - auto.
  - intros r Hr. rewrite gupd_ne by done. intros Hk Hw. apply M5 in Hk as [_ Hk]. by rewrite Hk in Hw.
  - intros r Hr. destruct (decide (r = p)) as [->|]; [rewrite gupd_eq|rewrite gupd_ne by done; eauto].
    intros Hk Hw. apply M6 in Hw as [_ Hw]. by rewrite Hw in Hk.
  - done.
  - rewrite Hl. eauto.
Qed.

Lemma inv_mine s G p : inv s G → mine_ok s G p (G p).
Proof.
  intros []. split; eauto.
  - intros Hk. split; [auto|]. intros q Hq. destruct (g_wrok (G q)) eqn:E; [|done]. exfalso. by apply (iv_excl0 p q).
  - intros Hk. split; [auto|]. intros q Hq. destruct (g_rdok (G q)) eqn:E; [|done]. exfalso. by apply (iv_excl0 q p).
Qed.

(** A process learns something. *)
Lemma inv_ghost s G p g : inv s G → p ∈ live s → g_lock g = g_lock (G p) → g_uniq g = g_uniq (G p) → g_ino g = g_ino (G p) →
  mine_ok s G p g → inv s (gupd G p g).
Proof.
  intros H Hp Hlk Hu Hino Hm. eapply inv_upd; try done; [|apply H|eapply rdfiles_keep; eauto; rewrite Hlk, Hu; auto].
  intros i Hi. destruct (iv_owner _ _ H i Hi) as [q Hq]. destruct (decide (q = p)) as [->|]; [left; congruence|right; eauto].
Qed.

Lemma owner_other s G p : inv s G → ∀ i, names s !! WRITER_LOCK = Some i → g_lock (G p) = true ∨ ∃ q, q ≠ p ∧ g_lock (G q) = true.
Proof. intros H i Hi. destruct (iv_owner _ _ H i Hi) as [q Hq]. destruct (decide (q = p)) as [->|]; eauto. Qed.

Ltac names_ne := rewrite ?lookup_insert_ne, ?lookup_delete_ne by congruence.

(** Creating the read lock. *)
Lemma inv_creat s G p :
  inv s G → g_rd (G p) = false → p ∈ live s →
  inv (new_file (RDLOCK p) p s) (gupd G p (set_rd true (g_lock (G p)) (G p))).
Proof.
  intros H Hrd Hlive. destruct (iv_next _ _ H) as [Hn0 Hn].
  assert (Hino : ∀ q, g_uniq (G q) || g_lock (G q) = true → g_ino (G q) ≠ next s).
  { intros q Hq E. destruct (iv_ino _ _ H q Hq) as [Hi _]. rewrite E, Hn in Hi; done. }
  apply (inv_upd s); try done; unfold new_file; cbn [names inodes next live].
  - intros f _ ? ? ?. by names_ne.
  - intros q _ Hq. apply Hino in Hq. by names_ne.
  - intros q _ _. by names_ne.
  - intros i. names_ne. by apply owner_other.
  - split; [lia|]. intros i Hi. rewrite lookup_insert_ne by lia. apply Hn. lia.
  - intros q i. cbn [names next]. intros Hi.
    assert (Hg : ∀ r, g_uniq (gupd G p (set_rd true (g_lock (G p)) (G p)) r) = g_uniq (G r) ∧
      g_lock (gupd G p (set_rd true (g_lock (G p)) (G p)) r) = g_lock (G r) ∧
      g_ino (gupd G p (set_rd true (g_lock (G p)) (G p)) r) = g_ino (G r)).
    { intros r. destruct (decide (r = p)) as [->|]; [by rewrite gupd_eq|by rewrite gupd_ne]. }
    destruct (decide (q = p)) as [->|].
    + rewrite lookup_insert_eq in Hi. injection Hi as <-. split; [lia|]. intros r. destruct (Hg r) as (-> & -> & ->). apply Hino.
    + rewrite lookup_insert_ne in Hi by congruence. destruct (iv_rdfile _ _ H q i Hi). split; [lia|].
      intros r. destruct (Hg r) as (-> & -> & ->). auto.
  - destruct (inv_mine s G p H) as [M1 M2 M3 M4 M5 M6 M7].
    split; cbn [names inodes live set_rd g_rd g_rdok g_uniq g_ino g_lock g_wrok g_pid]; names_ne; try done.
    + rewrite lookup_insert_eq. split; eauto.
    + intros Hq. apply Hino in Hq as Hi. names_ne. auto.
    + intros Hl. split; [done|]. intros q Hq. destruct (g_wrok (G q)) eqn:E; [|done]. exfalso. apply Hq.
      apply (inv_one_owner s G q p H); [by apply (iv_wrok _ _ H)|done].
Qed.

(** A new unique file. *)
Lemma inv_open s G p :
  inv s G → g_uniq (G p) = false → g_lock (G p) = false → p ∈ live s →
  inv (new_file (UNIQ p) p s) (gupd G p (set_uniq true (next s) (G p))).
Proof.
  intros H Hu Hlk Hlive. destruct (iv_next _ _ H) as [Hn0 Hn].
  assert (Hino : ∀ q, g_uniq (G q) || g_lock (G q) = true → g_ino (G q) ≠ next s).
  { intros q Hq E. destruct (iv_ino _ _ H q Hq) as [Hi _]. rewrite E, Hn in Hi; done. }
  apply (inv_upd s); try done; unfold new_file; cbn [names inodes next live].
  - intros f _ ? ? ?. by names_ne.
  - intros q _ Hq. apply Hino in Hq. by names_ne.
  - intros q _ _. by names_ne.
  - intros i. names_ne. by apply owner_other.
  - split; [lia|]. intros i Hi. rewrite lookup_insert_ne by lia. apply Hn. lia.
  - intros q i. cbn [names next]. names_ne. intros Hi. destruct (iv_rdfile _ _ H q i Hi). split; [lia|].
    intros r. destruct (decide (r = p)) as [->|]; [rewrite gupd_eq; cbn; lia|rewrite gupd_ne by done; auto].
  - destruct (inv_mine s G p H) as [M1 M2 M3 M4 M5 M6 M7].
    split; cbn [names inodes live set_uniq g_rd g_rdok g_uniq g_ino g_lock g_wrok g_pid]; names_ne; try done.
    + by rewrite lookup_insert_eq.
    + by rewrite Hlk.
    + intros _. by rewrite lookup_insert_eq, Hlk.
Qed.

Lemma rd_delete s f q i : delete f (names s) !! RDLOCK q = Some i → names s !! RDLOCK q = Some i.
Proof. destruct (decide (f = RDLOCK q)) as [->|]; [by rewrite lookup_delete_eq|by rewrite lookup_delete_ne]. Qed.

(** Removing a name. *)
Definition unlinked (f : path) (i : nat) (s : fs) : fs :=
  mkFs (delete f (names s)) (alter (λ n, (pred n.1, n.2)) i (inodes s)) (next s) (live s).

(** Changing an inode of [p] leaves those of others alone. *)
Lemma alter_other s G p q (h : nat * pid → nat * pid) :
  inv s G → g_uniq (G p) || g_lock (G p) = true → q ≠ p → g_uniq (G q) || g_lock (G q) = true →
  alter h (g_ino (G p)) (inodes s) !! g_ino (G q) = inodes s !! g_ino (G q).
Proof. intros H Hp Hne Hq. apply lookup_alter_ne. by apply (inv_ino_ne s G p q H). Qed.

Lemma alter_next s G (h : nat * pid → nat * pid) i : inv s G → next s ≠ 0%nat ∧ ∀ j, (next s <= j)%nat → alter h i (inodes s) !! j = None.
Proof.
  intros H. destruct (iv_next _ _ H) as [Hn0 Hn]. split; [done|]. intros j Hj. apply Hn in Hj.
  destruct (decide (i = j)) as [->|]; [by rewrite lookup_alter_eq, Hj|by rewrite lookup_alter_ne].
Qed.

Lemma inv_unlink_uniq s G p i :
  inv s G → p ∈ live s → names s !! UNIQ p = Some i → inv (unlinked (UNIQ p) i s) (gupd G p (set_uniq false (g_ino (G p)) (G p))).
Proof.
  intros H Hlive Hi. rewrite (iv_uniq _ _ H) in Hi. destruct (g_uniq (G p)) eqn:Hu; [|done]. injection Hi as <-.
  apply (inv_upd s); try done; unfold unlinked; cbn [names inodes next live].
  - intros f _ ? ? ?. by names_ne.
  - intros q Hq Hu'. apply (alter_other s G p q); [done|by rewrite Hu|done|done].
  - intros q _ _. by names_ne.
  - intros i. names_ne. by apply owner_other.
  - by eapply alter_next.
  - eapply rdfiles_keep; [done|intros ? ?; cbn [names]; first [apply rd_delete|by names_ne]|done|].
    cbn. rewrite ?Hu, ?Hlk, ?orb_true_r, ?orb_true_l. auto.
  - destruct (inv_mine s G p H) as [M1 M2 M3 M4 M5 M6 M7]. rewrite Hu in M4. destruct (M4 eq_refl) as [I1 I2].
    split; cbn [names inodes live set_uniq g_rd g_rdok g_uniq g_ino g_lock g_wrok g_pid]; names_ne; try done.
    + by rewrite lookup_delete_eq.
    + intros Hlk. cbn in Hlk. rewrite lookup_alter_eq, I1, Hlk. done.
Qed.

Lemma inv_unlink_lock s G p i :
  inv s G → p ∈ live s → g_lock (G p) = true → names s !! WRITER_LOCK = Some i →
  inv (unlinked WRITER_LOCK i s) (gupd G p (set_lock false false (G p))).
Proof.
  intros H Hlive Hlk Hi. rewrite (iv_lock _ _ H p Hlk) in Hi. injection Hi as <-.
  apply (inv_upd s); try done; unfold unlinked; cbn [names inodes next live].
  - intros f _ ? ? ?. by names_ne.
  - intros q Hq Hu'. apply (alter_other s G p q); [done|by rewrite Hlk, orb_true_r|done|done].
  - intros q Hq Hl. by rewrite (inv_one_owner s G q p H) in Hq.
  - intros i. by rewrite lookup_delete_eq.
  - by eapply alter_next.
  - eapply rdfiles_keep; [done|intros ? ?; cbn [names]; first [apply rd_delete|by names_ne]|done|].
    cbn. rewrite ?Hu, ?Hlk, ?orb_true_r, ?orb_true_l. auto.
  - destruct (inv_mine s G p H) as [M1 M2 M3 M4 M5 M6 M7]. rewrite Hlk, orb_true_r in M4. destruct (M4 eq_refl) as [I1 I2].
    split; cbn [names inodes live set_lock g_rd g_rdok g_uniq g_ino g_lock g_wrok g_pid]; names_ne; try done.
    intros Hu. rewrite orb_false_r in Hu. rewrite lookup_alter_eq, I1, Hu. done.
Qed.

Lemma inv_unlink_rd s G p i :
  inv s G → p ∈ live s → names s !! RDLOCK p = Some i → inv (unlinked (RDLOCK p) i s) (gupd G p (set_rd false false (G p))).
Proof.
  intros H Hlive Hi. destruct (iv_rdfile _ _ H p i Hi) as [_ Hown]. apply (inv_upd s); try done; unfold unlinked; cbn [names inodes next live].
  - intros f _ ? ? ?. by names_ne.
  - intros q _ Hq. rewrite lookup_alter_ne; [done|]. intros E. by apply (Hown q).
  - intros q _ _. by names_ne.
  - intros j. names_ne. by apply owner_other.
  - by eapply alter_next.
  - eapply rdfiles_keep; [done|intros ? ?; cbn [names]; first [apply rd_delete|by names_ne]|done|].
    cbn. rewrite ?Hu, ?Hlk, ?orb_true_r, ?orb_true_l. auto.
  - destruct (inv_mine s G p H) as [M1 M2 M3 M4 M5 M6 M7].
    split; cbn [names inodes live set_rd g_rd g_rdok g_uniq g_ino g_lock g_wrok g_pid]; names_ne; try done.
    + rewrite lookup_delete_eq. split; [by intros []|done].
    + intros Hq. rewrite lookup_alter_ne; [auto|]. intros E. by apply (Hown p).
Qed.

(** Winning the lock. *)
Lemma inv_link s G p :
  inv s G → p ∈ live s → g_uniq (G p) = true → g_lock (G p) = false → exists_ s WRITER_LOCK = false →
  inv (mkFs (<[WRITER_LOCK := g_ino (G p)]> (names s)) (alter (λ n, (S n.1, n.2)) (g_ino (G p)) (inodes s)) (next s) (live s))
      (gupd G p (set_lock true false (G p))).
Proof.
  intros H Hlive Hu Hlk Hex. unfold exists_ in Hex. apply bool_decide_eq_false in Hex.
  assert (Hno : ∀ q, g_lock (G q) = false).
  { intros q. destruct (g_lock (G q)) eqn:E; [|done]. apply (iv_lock _ _ H) in E. rewrite E in Hex. destruct Hex. eauto. }
  apply (inv_upd s); try done; cbn [names inodes next live].
  - intros f _ ? ? ?. by names_ne.
  - intros q Hq Hu'. apply (alter_other s G p q); [done|by rewrite Hu|done|done].
  - intros q _ Hl. by rewrite Hno in Hl.
  - intros i _. by left.
  - by eapply alter_next.
  - eapply rdfiles_keep; [done|intros ? ?; cbn [names]; first [apply rd_delete|by names_ne]|done|].
    cbn. rewrite ?Hu, ?Hlk, ?orb_true_r, ?orb_true_l. auto.
  - destruct (inv_mine s G p H) as [M1 M2 M3 M4 M5 M6 M7]. rewrite Hu in M4. destruct (M4 eq_refl) as [I1 I2].
    split; cbn [names inodes live set_lock g_rd g_rdok g_uniq g_ino g_lock g_wrok g_pid]; names_ne; try done.
    + by rewrite lookup_insert_eq.
    + intros _. rewrite lookup_alter_eq, I1, Hu, Hlk. done.
Qed.

Lemma exists_lookup s f : exists_ s f = match names s !! f with Some _ => true | None => false end.
Proof. unfold exists_. destruct (names s !! f); [by rewrite bool_decide_true|rewrite bool_decide_false; [done|by intros []]]. Qed.

Lemma gupd_id G p q : gupd G p (G p) q = G q.
Proof. destruct (decide (q = p)) as [->|]; [by rewrite gupd_eq|by rewrite gupd_ne]. Qed.

Lemma inv_same s G p : inv s G → p ∈ live s → inv s (gupd G p (G p)).
Proof. intros H Hp. apply inv_ghost; try done. by apply inv_mine. Qed.

(** Nobody has the write lock. *)
Lemma no_lock_no_wrok s G q : inv s G → names s !! WRITER_LOCK = None → g_wrok (G q) = false.
Proof.
  intros H Hn. destruct (g_wrok (G q)) eqn:E; [|done]. apply (iv_wrok _ _ H), (iv_lock _ _ H) in E. congruence.
Qed.

Lemma elem_children s d f : f ∈ children s d ↔ parent f = Some d ∧ is_Some (names s !! f).
Proof.
  unfold children. rewrite list_elem_of_filter, list_elem_of_fmap. split.
  - intros [Hp ([f' i] & -> & Hin)]. apply elem_of_map_to_list in Hin. cbn in *. eauto.
  - intros [Hp [i Hi]]. split; [done|]. exists (f, i). split; [done|]. by apply elem_of_map_to_list.
Qed.

(** No read lock in the listing: nobody has one. *)
Lemma no_readers s G q : inv s G → existsb is_rdlock (children s READER_LOCK_DIR) = false → g_rdok (G q) = false.
Proof.
  intros H Hl. destruct (g_rdok (G q)) eqn:E; [|done]. apply (iv_rdok _ _ H), (iv_rd _ _ H) in E.
  assert (Hin : RDLOCK q ∈ children s READER_LOCK_DIR) by (by apply elem_children).
  enough (existsb is_rdlock (children s READER_LOCK_DIR) = true) by congruence.
  apply existsb_exists. exists (RDLOCK q). split; [by apply list_elem_of_In|done].
Qed.

(** The pid in a lock file is that of a running process. *)
Lemma lock_pid_live s G f q : inv s G → (lockish f = true) → lock_pid s f = Some q → q ∈ live s.
Proof.
  intros H Hf. unfold lock_pid. destruct (names s !! f) as [i|] eqn:E; [|done]. destruct f; try done.
  - destruct (iv_owner _ _ H i E) as [p Hp]. rewrite (iv_lock _ _ H p Hp) in E. injection E as <-.
    assert (Hu : g_uniq (G p) || g_lock (G p) = true) by (by rewrite Hp, orb_true_r).
    destruct (iv_ino _ _ H p Hu) as [-> _]. cbn. intros [= <-]. apply (iv_live _ _ H). by rewrite Hp, orb_true_r.
  - intros [= <-]. apply (iv_live _ _ H). assert (Hr : g_rd (G p) = true) by (apply (iv_rd _ _ H); eauto). by rewrite Hr.
  - rewrite (iv_uniq _ _ H) in E. destruct (g_uniq (G p)) eqn:Hu; [|done]. injection E as <-.
    destruct (iv_ino _ _ H p ltac:(by rewrite Hu)) as [-> _]. cbn. intros [= <-]. apply (iv_live _ _ H). by rewrite Hu, orb_true_r.
  - by rewrite (iv_odd _ _ H) in E.
Qed.

(** Every allowed call of a running process has a possible result and keeps the
    invariant. *)
Lemma exec_inv s G p {B : Set} (o : fop B) :
  inv s G → p ∈ live s → allowed p (G p) o →
  possible p (G p) o (snd (exec p o s)) ∧ inv (fst (exec p o s)) (gupd G p (gstep o (G p) (snd (exec p o s)))).
Proof.
  intros H Hp Hal. pose proof (inv_same s G p H Hp) as Hsame. pose proof (inv_mine s G p H) as Hmine. destruct o; cbn [exec fst snd].
  - (* Exists *) split.
    + split; intros ->; rewrite exists_lookup; [|rewrite (iv_uniq _ _ H); by destruct (g_uniq (G p))].
      pose proof (iv_rd _ _ H p) as Hr. destruct (names s !! RDLOCK p), (g_rd (G p)); try done; [by destruct Hr as [Hr _]; discriminate Hr; eauto|].
      by destruct Hr as [_ [? Hr]].
    + destruct f; cbn [gstep]; try done. rewrite exists_lookup. destruct (names s !! WRITER_LOCK) eqn:E; [done|].
      apply inv_ghost; try done. destruct Hmine. split; try done. intros Hr. split; [done|]. intros q _. by eapply no_lock_no_wrok.
  - (* Access *) done.
  - (* Mkdir *) split; [by destruct (exists_ s d)|]. destruct (exists_ s d); [done|]. cbn [fst gstep].
    eapply inv_names; [exact Hsame| |done..]. intros f Hf. unfold put_name. cbn. rewrite lookup_insert_ne; [done|].
    by destruct Hal as [-> | ->]; intros <-.
  - (* Rmdir *) split; [by case_match|]. case_match; [|done]. cbn [fst gstep].
    eapply inv_names; [exact Hsame| |done..]. intros f Hf. cbn. rewrite lookup_delete_ne; [done|].
    by destruct Hal as [-> | ->]; intros <-.
  - (* Creat *) destruct Hal as [-> Hrd]. split; [done|]. rewrite exists_lookup. destruct (names s !! RDLOCK p) eqn:E.
    { assert (g_rd (G p) = true) by (apply (iv_rd _ _ H); eauto). congruence. }
    destruct (has_parent s (RDLOCK p)); cbn [fst snd gstep]; [by apply inv_creat|done].
  - (* OpenExcl *) destruct Hal as (-> & -> & Hu & Hlk). split; [done|].
    destruct (exists_ s (UNIQ p)); [done|]. destruct (has_parent s (UNIQ p)); cbn [fst snd gstep]; [by apply inv_open|done].
  - (* Unlink *) destruct Hal as [-> |[-> |[-> Hlk]]].
    + destruct (names s !! RDLOCK p) as [i|] eqn:E; cbn [fst snd gstep]; (split; [done|]); [by apply inv_unlink_rd|].
      apply inv_ghost; try done. destruct Hmine. split; try done. rewrite E. split; [by intros []|done].
    + pose proof (iv_uniq _ _ H p) as E0. destruct (names s !! UNIQ p) as [i|] eqn:E; cbn [fst snd gstep].
      * split; [split; [intros _|done]; by destruct (g_uniq (G p))|by apply inv_unlink_uniq].
      * destruct (g_uniq (G p)) eqn:Hu; [done|]. split; [done|]. destruct Hmine. apply inv_ghost; try done. split; try done; cbn; rewrite Hu in *; done.
    + pose proof (iv_lock _ _ H p Hlk) as E. rewrite E. cbn [fst snd gstep]. split; [done|]. by apply inv_unlink_lock.
  - (* Link *) destruct Hal as (-> & -> & Hu & Hlk). split; [done|]. rewrite (iv_uniq _ _ H), Hu.
    destruct (exists_ s WRITER_LOCK) eqn:E; [done|]. destruct (has_parent s WRITER_LOCK); cbn [orb negb fst snd gstep]; [by apply inv_link|done].
  - (* Ino *) split; [|done]. cbn in Hal. destruct (iv_ino _ _ H p ltac:(by rewrite Hal)) as [_ Hi0]. split; intros ->.
    + by rewrite (iv_uniq _ _ H), Hal.
    + destruct (g_lock (G p)) eqn:Hlk; [by rewrite (iv_lock _ _ H p Hlk)|].
      destruct (names s !! WRITER_LOCK) as [i|] eqn:E; [|done]. destruct (iv_owner _ _ H i E) as [q Hq].
      rewrite (iv_lock _ _ H q Hq) in E. injection E as <-. cbn. apply (inv_ino_ne s G q p); try done; [congruence|by rewrite Hq, orb_true_r|by rewrite Hal].
  - (* Links *) split; [|done]. cbn in Hal. intros ->. destruct (iv_ino _ _ H p ltac:(by rewrite Hal)) as [Hi _].
    rewrite (iv_uniq _ _ H), Hal, Hi, Hal. by destruct (g_lock (G p)).
  - (* Getdir *) split; [done|]. destruct d; cbn [gstep]; try done.
    destruct (g_lock (G p)) eqn:Hlk; [|done]. destruct (existsb is_rdlock (children s READER_LOCK_DIR)) eqn:E; [done|]. cbn [andb negb].
    destruct Hmine. apply inv_ghost; try done. split; try done; cbn; [|rewrite Hlk in *; done|].
    + intros _. by apply mo_lock0.
    + intros _. split; [done|]. intros q _. by eapply no_readers.
  - (* ReadLockf *) cbn in Hal. split.
    + intros -> Hlk. unfold lock_pid. rewrite (iv_lock _ _ H p Hlk).
      destruct (iv_ino _ _ H p ltac:(by rewrite Hlk, orb_true_r)) as [-> _]. done.
    + destruct Hmine. apply inv_ghost; try done. split; try done. cbn. intros q Hq. by eapply lock_pid_live.
  - (* FindPid *) cbn in Hal. split; [|done]. apply (iv_pid _ _ H) in Hal. by rewrite bool_decide_true.
Qed.

(** ** The programs keep to the rules *)

Definition gh (h : held) (g : ghost) : Prop :=
  match h with
  | HNone => g_rd g = false ∧ g_uniq g = false ∧ g_lock g = false
  | HRead => g_rd g = true ∧ g_rdok g = true ∧ g_uniq g = false ∧ g_lock g = false
  | HWrite => g_rd g = false ∧ g_uniq g = true ∧ g_lock g = true ∧ g_wrok g = true
  end.

(** A lock call: [h] on success, nothing on failure. *)
Definition gets (h : held) (v : Z) (g : ghost) : Prop := if v =? 0 then gh h g else gh HNone g.

Lemma ok_ten_times me n m h ret g :
  (∀ g, gh HNone g → ok me g m (gets h)) → gh HNone g → (n = 0%nat → ret ≠ 0) → ok me g (ten_times n m ret) (gets h).
Proof.
  intros Hm. revert ret g. induction n as [|n IH]; intros ret g Hg Hn; cbn [ten_times].
  - cbn. unfold gets. destruct (Z.eqb_spec ret 0); [by destruct Hn|done].
  - apply ok_bind. eapply ok_mono; [by apply Hm|]. intros v g' Hv. unfold gets in Hv.
    destruct (Z.eqb_spec v 0) as [->|Hne]; [by cbn|]. by apply IH.
Qed.

(** The next call of the program, its result and what is known of it. *)
Tactic Notation "ok_op" simple_intropattern(r) simple_intropattern(H) :=
  cbn [bind call ok]; split; [cbn; repeat split; auto; fail|intros r H; cbn [gstep possible] in *].

Ltac ok_end := repeat (ok_op ? ?); by cbn.

Lemma ok_make_dir me g d : d = READER_LOCK_DIR ∨ d = WRITER_LOCK_DIR → ok me g (make_dir d) (λ _ g', g' = g).
Proof. intros [-> | ->]; unfold make_dir; ok_op r ?; (destruct r; [done|ok_end]). Qed.

Lemma ok_rdlock me g : gh HNone g → ok me g (rdlock me) (gets HRead).
Proof.
  intros (H1 & H2 & H3). unfold rdlock. apply ok_bind. eapply ok_mono; [apply ok_make_dir; auto|]. intros [] g' ->.
  ok_op r ?. destruct r; cbn [negb]; [|ok_end]. ok_op r ?. destruct r.
  2:{ ok_op e [He _]. rewrite He, H1 by done. ok_end. }
  ok_op e [He _]. rewrite He by done. cbn [set_rd g_rd negb]. ok_op r ?. destruct r; cbn [bind]; [ok_end|].
  ok_op r ?. destruct r; ok_end.
Qed.

Lemma ok_rdunlock me g : gh HRead g → ok me g (repository_rdunlock me false) (λ _ g', gh HNone g').
Proof. intros (H1 & H2 & H3 & H4). unfold repository_rdunlock. ok_end. Qed.

(** A lock file that a process reads is not stale. *)
Lemma ok_stalelock me g f : lockish f = true → ok me g (sccs_stalelock f) (λ r g', r = false ∧ ∃ q, g' = set_pid q g).
Proof.
  intros Hf. unfold sccs_stalelock. ok_op r ?. destruct r as [q|]; [|cbn; eauto]. ok_op r ->. cbn. eauto.
Qed.

Lemma ok_lockfile fuel me g : gh HNone g →
  ok me g (sccs_lockfile (S fuel) me WRITER_LOCK 0)
    (λ v g', if v =? 0 then g_rd g' = false ∧ g_uniq g' = true ∧ g_lock g' = true else gh HNone g').
Proof.
  intros (H1 & H2 & H3). unfold sccs_lockfile. cbn [parent]. ok_op r ?. destruct r; cbn [negb]; [|ok_end].
  cbn [lockfile_loop uniqfile]. ok_op ? ?. ok_op fd ?. destruct fd as [i|]; cbn [bind];
    [rewrite bool_decide_true by eauto|rewrite bool_decide_false by (by intros []); ok_end]. cbn [negb].
  ok_op won ?. destruct won; cbn [set_lock set_uniq g_lock g_uniq g_ino] in *; cbn [wait_attr].
  - ok_op a [Ha _]. ok_op b [_ Hb]. rewrite (Ha eq_refl), (Hb eq_refl). cbn [g_ino g_lock set_lock set_uniq]. rewrite Nat.eqb_refl. cbn [negb].
    ok_op n Hn. rewrite (Hn eq_refl). cbn [g_lock set_lock Nat.eqb negb bind]. ok_op k Hk. rewrite (Hk eq_refl). cbn [g_lock set_lock Nat.eqb].
    ok_op a' [Ha' _]. ok_op b' [_ Hb']. rewrite (Ha' eq_refl), (Hb' eq_refl). cbn [g_ino g_lock set_lock set_uniq bind]. rewrite Nat.eqb_refl. ok_end.
  - ok_op a [Ha _]. ok_op b [_ Hb]. rewrite (Ha eq_refl). specialize (Hb eq_refl). cbn [g_ino g_lock set_uniq] in *. rewrite H3 in Hb.
    destruct (Nat.eqb_spec i b) as [E|_]; [congruence|]. cbn [negb bind]. ok_op n Hn. rewrite (Hn eq_refl). cbn [g_lock set_uniq]. rewrite H3. cbn [Nat.eqb bind].
    ok_op k Hk. rewrite (Hk eq_refl). cbn [g_lock set_uniq]. rewrite H3. cbn [Nat.ltb Nat.leb]. ok_op e [_ He]. rewrite (He eq_refl). cbn [g_uniq set_uniq negb Z.eqb].
    apply ok_bind. eapply ok_mono; [by apply ok_stalelock|]. intros ? g' [-> [q ->]]. ok_end.
Qed.

Lemma ok_hasLocks_loop me rm lines : ∀ n g, Forall (λ f, lockish f = true) lines →
  ok me g (hasLocks_loop lines n rm) (λ r g', r = (n + Z.of_nat (length lines), rm) ∧ ∃ q, g' = set_pid q g).
Proof.
  induction lines as [|f lines IH]; intros n g Hl; cbn [hasLocks_loop].
  - cbn. rewrite Z.add_0_r. split; [done|]. exists (g_pid g). by destruct g.
  - apply Forall_cons in Hl as [Hf Hl]. apply ok_bind. eapply ok_mono; [by apply ok_stalelock|]. intros ? g' [-> [q ->]].
    eapply ok_mono; [by apply IH|]. intros r g' [-> [q' ->]]. cbn [length]. split; [f_equal; lia|]. exists q'. done.
Qed.

Lemma ok_hasLocks me g : g_lock g = true →
  ok me g (repository_hasLocks READER_LOCK_DIR)
    (λ n g', g_rd g' = g_rd g ∧ g_uniq g' = g_uniq g ∧ g_lock g' = true ∧ (n = 0 → g_wrok g' = true)).
Proof.
  intros Hlk. unfold repository_hasLocks. rewrite bool_decide_false by done. unfold lockers. ok_op l ?. rewrite Hlk. cbn [andb].
  apply ok_bind. eapply ok_mono.
  { apply ok_hasLocks_loop. apply Forall_forall. intros f Hf. apply list_elem_of_In, filter_In in Hf as [_ Hf]. by destruct f. }
  intros r g' [-> [q ->]]. cbn [snd bind fst ok].
  destruct (existsb is_rdlock l) eqn:E; cbn [negb set_lock set_pid g_rd g_uniq g_lock g_wrok]; (split_and!; [done..|]); [|done].
  intros Hn. exfalso. apply existsb_exists in E as (f & Hf & Hr).
  assert (Hin : In f (List.filter digit_name l)) by (apply filter_In; split; [done|by destruct f]).
  destruct (List.filter digit_name l); [done|]. cbn [length] in Hn. lia.
Qed.

Lemma ok_unlockfile me g : g_lock g = true →
  ok me g (sccs_unlockfile me WRITER_LOCK)
    (λ v g', v = (if g_uniq g then 0 else -1) ∧ g' = set_lock false false (set_uniq false (g_ino g) g)).
Proof.
  intros Hlk. unfold sccs_unlockfile. cbn [uniqfile]. ok_op a [Ha _]. rewrite (Ha eq_refl). ok_op b [_ Hb]. rewrite (Hb eq_refl).
  cbn. rewrite andb_true_r. done.
Qed.

Lemma ok_back_off me g : g_rd g = false → g_lock g = true → ok me g (back_off me) (gets HWrite).
Proof.
  intros H1 H2. unfold back_off. apply ok_bind. eapply ok_mono; [by apply ok_unlockfile|]. intros v g' [_ ->]. ok_end.
Qed.

Lemma ok_global_locked me g : ok me g global_locked (λ _ g', g' = g).
Proof. unfold global_locked. ok_op w ?. destruct w; [done|]. ok_end. Qed.

Lemma ok_wrlock fuel me ign g : gh HNone g → ok me g (wrlock (S fuel) me ign) (gets HWrite).
Proof.
  intros Hg. pose proof Hg as (H1 & H2 & H3). unfold wrlock. apply ok_bind. eapply ok_mono; [apply ok_make_dir; auto|]. intros [] g' ->.
  ok_op r ?. destruct r; cbn [negb]; [|ok_end]. apply ok_bind. eapply ok_mono; [apply ok_global_locked|]. intros gl g' ->.
  destruct gl; cbn [bind]; [ok_end|]. apply ok_bind, ok_bind. eapply ok_mono; [by apply ok_lockfile|]. intros v g' Hv. cbv beta in Hv.
  destruct (v =? 0) eqn:Ev; cbn [negb bind ok]; [|destruct Hv as (?&?&?); ok_end]. destruct Hv as (G1 & G2 & G3).
  ok_op e ?. destruct e; cbn [bind]; [ok_op n ?|].
  1: destruct (negb n && negb ign); [by apply ok_back_off|].
  all: apply ok_bind; (eapply ok_mono; [by apply ok_hasLocks|]); intros m g1 (F1 & F2 & F3 & F4);
    destruct (Z.eqb_spec m 0) as [->|]; cbn [negb]; [|apply ok_back_off; congruence];
    cbn; unfold gets; cbn; split_and!; [congruence..|auto].
Qed.

Lemma ok_wrunlock me g : g_uniq g = true → g_lock g = true →
  ok me g (repository_wrunlock me false) (λ v g', v = 0 ∧ ∃ q, g' = set_pid q (set_lock false false (set_uniq false (g_ino g) g))).
Proof.
  intros Hu Hlk. unfold repository_wrunlock, sccs_mylock. ok_op r Hr. rewrite (Hr eq_refl Hlk). cbn [bind]. rewrite bool_decide_true by done.
  cbn [negb]. apply ok_bind. eapply ok_mono; [by apply ok_unlockfile|]. intros v g' [-> ->]. cbn [set_pid g_uniq]. rewrite Hu. cbn [Z.eqb].
  ok_op ? ?. cbn. split; [done|]. eexists. done.
Qed.

Lemma ok_downgrade me g : gh HWrite g →
  ok me g (repository_downgrade me) (λ v g', gh (if v =? 0 then HRead else HWrite) g').
Proof.
  intros (H1 & H2 & H3 & H4). unfold repository_downgrade, sccs_mylock. ok_op r Hr. rewrite (Hr eq_refl H3). cbn [bind].
  rewrite bool_decide_true by done. cbn [negb]. apply ok_bind. eapply ok_mono; [apply ok_make_dir; auto|]. intros [] g' ->.
  ok_op c ?. ok_op e [He _]. rewrite (He eq_refl). destruct c; cbn [set_rd set_pid g_rd g_lock]; [|rewrite H1; cbn; done].
  cbn [negb]. apply ok_bind. eapply ok_mono; [by apply ok_wrunlock|]. intros v g' [-> [q ->]]. by cbn.
Qed.

(** Every call, started by a process that may make it. *)
Lemma ok_code me c h g : may_call c h = true → gh h g → ok me g (code me c) (λ v g', gh (after c v h) g').
Proof.
  assert (Hgets : ∀ h v g', gets h v g' → gh (if v =? 0 then h else HNone) g') by (intros ? v ?; unfold gets; by destruct (v =? 0)).
  destruct c, h; try done; intros _ Hg; cbn [code after].
  - unfold repository_rdlock, global_wrlocked. ok_op w ?. destruct w; [ok_end|]. cbn [bind].
    eapply ok_mono; [apply (ok_ten_times me 10 (rdlock me) HRead); [intros; by apply ok_rdlock|done|done]|]. auto.
  - unfold repository_wrlock. apply ok_bind. eapply ok_mono; [apply ok_global_locked|]. intros w g' ->. destruct w; [ok_end|].
    eapply ok_mono; [apply (ok_ten_times me 10 (wrlock (S fuel) me ign) HWrite); [intros; by apply ok_wrlock|done|done]|]. auto.
  - by apply ok_rdunlock.
  - destruct Hg as (H1 & H2 & H3 & H4). eapply ok_mono; [by apply ok_wrunlock|]. intros v g' [-> [q ->]]. by cbn.
  - by apply ok_downgrade.
Qed.

(** ** All processes *)

Definition pinv (p : pid) (g : ghost) (st : pstate) : Prop :=
  match st with Idle h => gh h g | Busy c h m => ok p g m (λ v g', gh (after c v h) g') end.

Record cinv (cf : config) (G : pid → ghost) : Prop := {
  ci_inv : inv (disk cf) G;
  ci_none : ∀ p, procs cf !! p = None → gh HNone (G p);
  ci_live : ∀ p st, procs cf !! p = Some st → p ∈ live (disk cf);
  ci_proc : ∀ p st, procs cf !! p = Some st → pinv p (G p) st
}.

Lemma initial_cinv cf : initial cf → cinv cf (λ _, mkGhost false false false 0 false false None).
Proof.
  intros (Hp & Hn & Hx & Hi). assert (Hno : ∀ f, lockish f = true → names (disk cf) !! f = None).
  { intros f Hf. destruct (names (disk cf) !! f) as [i|] eqn:E; [|done].
    destruct (Hn f ltac:(by eexists)) as [Hfo|[-> | ->]]; [by destruct f|done|done]. }
  split; [split; cbn; intros *; try done|done|..].
  - rewrite Hno by done. split; [by intros []|done].
  - by apply Hno.
  - by rewrite Hno.
  - split; [done|]. intros i _. by rewrite Hi.
  - by rewrite Hno.
  - by apply Hno.
  - intros p st E. by destruct (Hp p st E).
  - intros p st E. by destruct (Hp p st E) as [-> _].
Qed.

Lemma exec_live me {B : Set} (o : fop B) s : live (fst (exec me o s)) = live s.
Proof. destruct o; cbn; repeat case_match; done. Qed.

(** A process goes on, the others stay where they are. *)
Lemma cinv_upd cf G p st s g st' :
  cinv cf G → procs cf !! p = Some st → inv s (gupd G p g) → live s = live (disk cf) → pinv p g st' →
  cinv (mkConf s (<[p := st']> (procs cf))) (gupd G p g).
Proof.
  intros [C1 C2 C3 C4] Hp Hi Hl Hst. split; cbn [disk procs]; [done|..]; intros q.
  - destruct (decide (q = p)) as [->|]; [by rewrite lookup_insert_eq|]. rewrite lookup_insert_ne, gupd_ne by done. auto.
  - intros st0. rewrite Hl. destruct (decide (q = p)) as [->|]; [by eauto|]. rewrite lookup_insert_ne by done. eauto.
  - intros st0. destruct (decide (q = p)) as [->|]; [rewrite lookup_insert_eq, gupd_eq; by intros [= <-]|].
    rewrite lookup_insert_ne, gupd_ne by done. auto.
Qed.

Lemma run1_cinv cf G p cf' : cinv cf G → run1 p cf = Some cf' → ∃ G', cinv cf' G'.
Proof.
  intros HC. unfold run1. destruct (procs cf !! p) as [[h|c h m]|] eqn:E; try done.
  pose proof (ci_proc _ _ HC p _ E) as Hm. pose proof (ci_live _ _ HC p _ E) as Hl. pose proof (ci_inv _ _ HC) as HI. cbn in Hm.
  destruct m as [v|B o k|]; [| |done].
  - intros [= <-]. exists (gupd G p (G p)). eapply cinv_upd; [done|done|by apply inv_same|done|exact Hm].
  - destruct Hm as [Hal Hk]. destruct (exec_inv (disk cf) G p o HI Hl Hal) as [Hpos Hinv].
    destruct (exec p o (disk cf)) as [s r] eqn:Ee. intros [= <-]. cbn [fst snd] in *.
    eexists. eapply cinv_upd; [done|done|exact Hinv| |by apply Hk]. by rewrite <- (exec_live p o (disk cf)), Ee.
Qed.

Lemma cinv_foreign cf G s :
  cinv cf G → (∀ f, lockish f = true → names s !! f = names (disk cf) !! f) → inodes s = inodes (disk cf) →
  next s = next (disk cf) → live s = live (disk cf) → cinv (mkConf s (procs cf)) G.
Proof.
  intros [C1 C2 C3 C4] Hn Hi Hx Hl. split; cbn; try done; [by eapply inv_names|]. intros p st E. rewrite Hl. eauto.
Qed.

Lemma step_cinv cf cf' : step cf cf' → (∃ G, cinv cf G) → ∃ G, cinv cf' G.
Proof.
  intros Hs [G HC]. destruct Hs as [p c cf cf' Hs|p cf cf' Hs|f cf Hf He|f cf Hf].
  - unfold start in Hs. destruct (procs cf !! p) as [[h|]|] eqn:E; try done. destruct (may_call c h) eqn:Hm; [|done]. injection Hs as <-.
    exists (gupd G p (G p)). pose proof (ci_live _ _ HC p _ E) as Hl.
    eapply cinv_upd; [done|done|apply inv_same; [apply HC|done]|done|]. cbn. apply ok_code; [done|]. exact (ci_proc _ _ HC p _ E).
  - by eapply run1_cinv.
  - exists G. apply cinv_foreign; try done. intros f' Hf'. cbn. rewrite lookup_insert_ne; [done|]. intros ->. by destruct f'.
  - exists G. apply cinv_foreign; try done. intros f' Hf'. cbn. rewrite lookup_delete_ne; [done|]. intros ->. by destruct f'.
Qed.

Lemma reachable_cinv cf cf' : initial cf → rtc step cf cf' → ∃ G, cinv cf' G.
Proof.
  intros Hi Hr. assert (H : ∃ G, cinv cf G) by (eexists; by apply initial_cinv). clear Hi.
  induction Hr as [|cf cf1 cf' Hs Hr IH]; [done|]. apply IH. by eapply step_cinv.
Qed.

(** ** Properties *)

(** C8. Repository locks exclude each other.  However the calls of any number of
    processes interleave, and whatever happens to the RESYNC directory, nested and
    global locks meanwhile, while one process has the write lock no other process
    has a read or a write lock; and when every process has given its locks up, no
    lock file is left behind. *)
Theorem repository_locks_exclude cf cf' :
  initial cf → rtc step cf cf' →
  (∀ p q h, p ≠ q → has cf' p HWrite → has cf' q h → h = HNone) ∧
  ((∀ p st, procs cf' !! p = Some st → st = Idle HNone) → ∀ f, lockish f = true → names (disk cf') !! f = None).
Proof.
  intros Hi Hr. destruct (reachable_cinv cf cf' Hi Hr) as [G [C1 C2 C3 C4]]. split.
  - intros p q h Hne Hp Hq. apply C4 in Hp as (_ & _ & P1 & P2). apply C4 in Hq. destruct h; [done| |]; exfalso.
    + destruct Hq as (_ & Q & _). exact (iv_excl _ _ C1 q p (not_eq_sym Hne) Q P2).
    + destruct Hq as (_ & _ & Q & _). by apply Hne, (inv_one_owner (disk cf') G p q).
  - intros Hall f Hf. assert (HG : ∀ p, gh HNone (G p)).
    { intros p. destruct (procs cf' !! p) as [st|] eqn:E; [|auto]. rewrite (Hall p st E) in E. by apply C4 in E. }
    destruct f; try done.
    + destruct (names (disk cf') !! WRITER_LOCK) as [i|] eqn:E; [|done]. destruct (iv_owner _ _ C1 i E) as [p Hp].
      destruct (HG p) as (_ & _ & Hl). congruence.
    + destruct (names (disk cf') !! RDLOCK p) as [i|] eqn:E; [|done]. destruct (HG p) as (Hrd & _).
      assert (g_rd (G p) = true) by (apply (iv_rd _ _ C1); eauto). congruence.
    + rewrite (iv_uniq _ _ C1). by destruct (HG p) as (_ & -> & _).
    + apply (iv_odd _ _ C1).
Qed.

(** C23. Lock calls return.  In every state that the processes can reach, a process
    in the middle of a call returns from it when it is left to run: no call waits
    for another process, and the loops of [sccs_lockfile] are left. *)
Theorem lock_calls_return cf cf' p c h m :
  initial cf → rtc step cf cf' → procs cf' !! p = Some (Busy c h m) → ∃ n h', has (run_n n p cf') p h'.
Proof.
  intros Hi Hr Hp. destruct (reachable_cinv cf cf' Hi Hr) as [G HC]. clear Hi Hr.
  revert cf' G HC Hp. induction m as [v|B o k IH|]; intros cf' G HC Hp.
  - exists 1%nat. cbn [run_n]. unfold run1. rewrite Hp. eexists. unfold has. cbn. by rewrite lookup_insert_eq.
  - destruct (run1 p cf') as [cf1|] eqn:E.
    + destruct (run1_cinv cf' G p cf1 HC E) as [G' HC']. pose proof E as E0. unfold run1 in E. rewrite Hp in E.
      destruct (exec p o (disk cf')) as [s r]. injection E as E.
      destruct (IH r cf1 G' HC') as (n & h' & Hn); [rewrite <- E; cbn; by rewrite lookup_insert_eq|].
      exists (S n), h'. cbn [run_n]. by rewrite E0.
    + unfold run1 in E. rewrite Hp in E. by destruct (exec p o (disk cf')).
  - by pose proof (ci_proc _ _ HC p _ Hp).
Qed.

(** A run of three processes in which the write lock changes hands, as steps. *)
Lemma run_n_steps n p cf : rtc step cf (run_n n p cf).
Proof.
  revert cf. induction n as [|n IH]; intros cf; cbn [run_n]; [done|]. destruct (run1 p cf) as [cf1|] eqn:E; [|done].
  eapply rtc_l; [by apply (step_run p)|]. apply IH.
Qed.

Lemma start_steps p c cf : rtc step cf (default cf (start p c cf)).
Proof. destruct (start p c cf) as [cf1|] eqn:E; [|done]. apply rtc_once. by apply (step_start p c). Qed.

Definition no_kill (e : event) : bool := match e with EKill _ => false | _ => true end.

Lemma events_steps es cf : forallb no_kill es = true → rtc step cf (fold_left do_event es cf).
Proof.
  revert cf. induction es as [|e es IH]; intros cf; cbn [forallb fold_left]; [done|]. intros H. apply andb_prop in H as [He H].
  transitivity (do_event cf e); [|by apply IH]. destruct e; cbn; [apply start_steps|apply run_n_steps|done].
Qed.

Lemma three_initial : initial three.
Proof.
  split; [|split; [|done]].
  - intros p st Hp. cbn in Hp. apply lookup_insert_Some in Hp as [[<- <-]|[_ Hp]]; [split; [done|set_solver]|].
    apply lookup_insert_Some in Hp as [[<- <-]|[_ Hp]]; [split; [done|set_solver]|].
    apply lookup_singleton_Some in Hp as [<- <-]. split; [done|set_solver].
  - intros f [i Hi]. done.
Qed.

(** Process 1 has the write lock while 2 and 3 are in the middle of their calls. *)
Definition ex_events : list event :=
  [EStart 2 C_rdlock; ERun 2 4; EStart 1 (C_wrlock 2 false); ERun 2 20; EStart 2 C_rdunlock; ERun 2 9; ERun 1 200;
   EStart 3 (C_wrlock 2 false); ERun 3 11; EStart 2 C_rdlock; ERun 2 5]%positive.

Lemma repository_locks_exclude_witness :
  let cf := fold_left do_event ex_events three in
  has cf 1 HWrite ∧
  (∀ p q h, p ≠ q → has cf p HWrite → has cf q h → h = HNone) ∧
  ((∀ p st, procs cf !! p = Some st → st = Idle HNone) → ∀ f, lockish f = true → names (disk cf) !! f = None).
Proof.
  split; [vm_compute; reflexivity|]. apply (repository_locks_exclude three); [apply three_initial|]. apply events_steps. reflexivity.
Defined.

Lemma lock_calls_return_witness :
  let cf := fold_left do_event ex_events three in
  ∃ c h m, procs cf !! 3%positive = Some (Busy c h m) ∧ ∃ n h', has (run_n n 3 cf) 3 h'.
Proof.
  set (cf := fold_left do_event ex_events three). assert (Hb : ∃ c h m, procs cf !! 3%positive = Some (Busy c h m)) by (vm_compute; eauto).
  destruct Hb as (c & h & m & Hb). exists c, h, m. split; [exact Hb|].
  apply (lock_calls_return three cf 3 c h m); [apply three_initial|apply events_steps; reflexivity|exact Hb].
Defined.
